(* ===== verification/_CoqProject ===== *)
-Q . S2P
Prelude.v
GoStd.v
GoFloat.v
GoPath.v
Token.v
Lexer.v
LexerFacts.v
LexerText.v
Group.v
Ast.v
Parser.v
Scope.v
ParserTotal.v
HeadFacts.v
Value.v
Vm.v
VmFacts.v
VmSound.v
Args.v
Stdlib.v
StdSound.v
Module.v
ModuleFacts.v
Engine.v
Layers.v
CacheFacts.v
PlainHost.v
EngineFacts.v
EnvFacts.v
VmMono.v
StdFacts.v
Instances.v
Stream.v
StreamWorld.v
StreamFacts.v
StreamSafe.v
StreamLive.v
StreamFair.v
StreamInstances.v
Template.v
Names.v
Resolver.v
ResolverFacts.v
ResolverCycles.v
MockNumber.v
MockMatch.v
MockRules.v
MockServe.v
MockSelect.v
Workflow.v
WorkflowFacts.v
WorkflowRuns.v
Compare.v
Text.v
DotEnv.v
Catalog.v
CatalogFacts.v
Directive.v
DirectiveFacts.v
DirectiveSpans.v
WorkflowText.v
WorkflowTextFacts.v
Units.v
Lines.v
Protocols.v
Specs.v
Requests.v
MockText.v
Document.v
DocumentFrame.v
DocumentShape.v
DocumentPlaces.v
DocumentFacts.v
JsonPath.v
Curl.v
CurlFacts.v
CurlScan.v
RestWriter.v
WriterFacts.v
WriterRead.v
