(* ===== verification/Prelude.v ===== *)
(** * resterm: a verified model of its core

    resterm is an HTTP client for the terminal.  Its request files hold requests,
    variables, directives, workflows and scripts in a small language,
    RestermScript (RTS).  This library models the parts of it that decide things
    (languages, resolution, state machines, matching, orchestration) and proves
    what their users rely on.  The terminal's interface, the protocols' clients
    and files stay outside, as parameters.

    ** The parts and their files, in dependency order

    Shared.
    - Prelude.v: results, bounded loops with their termination rule, shared
      tactics and the hint database [rts].
    - GoStd.v, GoFloat.v, GoPath.v, Text.v: what the code uses
      of Go and its standard library: byte strings, quoting, UTF-8, order and
      sorting, IEEE binary64 with its formats, path/filepath, TrimSpace,
      json.Marshal, strings functions that walk runes, Atoi.

    RestermScript (src/internal/rts/).
    - Token.v (token.go, pos.go), Lexer.v (lexer.go), Group.v (group.go,
      resolve.go), Ast.v (ast.go), Parser.v (parser.go), Scope.v.  LexerFacts.v,
      LexerText.v, ParserTotal.v and HeadFacts.v are about them.
    - Value.v (value.go, ctx.go, result.go, modobj.go), Vm.v (vm.go, conv.go,
      limits.go) and the native functions Args.v and Stdlib.v (args.go, call.go,
      dict.go, native.go, stdlib/).  VmFacts.v: the
      program logic of the evaluator; VmSound.v and StdSound.v: every method and
      native satisfies it; VmMono.v, EnvFacts.v, StdFacts.v.
    - Module.v (module.go): the module cache; Engine.v (engine.go, shadow.go):
      prelude layers, @use, Eval, EvalStr, ExecModule.  ModuleFacts.v, Layers.v,
      CacheFacts.v, EngineFacts.v.  PlainHost.v: a host that keeps the promises;
      Instances.v: the theorems at concrete inputs.

    Streams (src/internal/stream/).
    - Stream.v: the ring buffer, the session and its listeners under its lock.
      StreamWorld.v: what may interleave: sessions, subscribers, hooks and the
      manager as a step relation, one step per critical section.  StreamFacts.v,
      StreamSafe.v, StreamLive.v, StreamFair.v, StreamInstances.v.

    Variables (src/internal/vars/).
    - Template.v (template.go), Names.v (names.go), Resolver.v (resolver.go,
      trace.go), ResolverFacts.v, ResolverCycles.v.
    - DotEnv.v (dotenv.go); Catalog.v (catalog.go,
      environment.go, selection.go, scope.go, intent.go, targets.go) and
      CatalogFacts.v.

    Mock server (src/internal/mock/).
    - MockNumber.v (number.go), MockMatch.v (json_rules.go, json.go, match.go),
      MockRules.v (rules.go, query.go, header.go), MockServe.v (sequence.go,
      journal.go, verify.go), MockSelect.v (select.go, route.go), which puts
      matching and selection together.  Each ends with what is proved of it.

    Workflows, comparisons, profiles (src/internal/engine/core/).
    - Workflow.v (wf.go, wf_evt.go, dep.go, meta.go): preparing and running a
      plan, in a state monad over the run and its world.  WorkflowFacts.v: the
      logic of its events; WorkflowRuns.v: the guarantees of a run.
    - Compare.v (cmp*.go in Module Cmp, pro*.go in Module Pro).

    Request files (src/internal/directive/, parser/, restwriter/).
    - Directive.v: the lexer of option lists, words, options, calls, the table of
      directives, and the writers that render lines.  DirectiveFacts.v: written
      lines read back; DirectiveSpans.v: tokens and where they lie.
    - WorkflowText.v (Module Wb; parser/workflow.go, parts of document.go and
      dispatch.go, restwriter/workflow.go): workflows in files.
      WorkflowTextFacts.v: the engine accepts what the parser keeps.
    - Units.v (bytesize/parse.go in Module ByteSize, duration/parse.go in Module
      Duration), Lines.v (line.go, bodyref/, capture/capture.go,
      http/version/), Protocols.v (parser/builder/: one Module per protocol),
      Specs.v (Module Sp: the arguments of directives), Requests.v (Module Rq:
      request.go, body.go, script.go), MockText.v (Module Mb: mock.go).
    - Document.v (Module Doc): the state of the parser, its handlers of lines and
      directives, [Doc.processLine] and [Doc.Parse].  DocumentFrame.v: it only
      adds to what it gathered; DocumentShape.v and DocumentPlaces.v: every line
      is a step of an abstract machine, and the machine's invariants;
      DocumentFacts.v: the theorems, a sample file, and what the code gets wrong.
    - RestWriter.v (Module Rw; restwriter/writer.go, directives.go, mock.go,
      body.go): documents as texts.  WriterFacts.v: each line the writer renders
      is a step of the parser's state; WriterRead.v: whole documents are read
      back, and what of them is not.

    JSON paths and cURL commands (src/internal/jsonpath/, curl/, settings/keys.go).
    - JsonPath.v (Module Jp; path.go): the language of paths as an inductive
      definition, which validation decides and lookup follows.
    - Curl.v (Module Cu): the tokenizer, the arguments, the table of options, the
      request they build, the extraction of commands from a text, the document an
      import makes of them (curl/importer/service.go).  CurlFacts.v: words and
      commands read back, and where an import differs from curl; CurlScan.v:
      extraction.

    ** How state and effects are represented

    A Go struct is a record with its fields; a method that changes it returns the
    new one, also when it fails.  Errors are values of [res] or a sum, panics an
    error of their own.  Maps are [gmap]s; where Go ranges over a map the order is
    a parameter ([Catalog.Iter], a permutation of the entries) and what is proved
    holds for every order.  Integers of a width are [Z] with their bounds.

    The evaluator's state [Vm.St] has the context (limits, step counter, call
    stack), a heap of environments, shared and mutated through the closures that
    captured them, and the export map.  The clock and the cancellation of a Go
    context are functions of the step at which they are read.  Control signals
    are errors, as in the code.  A Go method is one definition over the record
    [Vm.VM] of the methods that close the recursion.  The engine's state
    [Module.Sys] adds the module cache and a count of the calls to the operating
    system; every answer of the file system is a function of that count, so files
    may change at any moment.  A run of a workflow works in the same way over the
    count of its calls.  Streams are concurrent: [StreamWorld.step] interleaves
    the critical sections of all goroutines, and theorems hold of every run, the
    liveness ones of every fair run.

    ** Interfaces and parameters

    [Value.Host] is what a host of scripts provides and [VmSound.HostOk] what it
    promises; [Vm.Natives] is the dispatch of native functions and
    [VmSound.NativesOk] their contract, which StdSound.v discharges.  [Names.Unicode]
    is lower-casing and case folding; [Names.ascii] is an instance.  Workflow.v
    takes the requests' outcomes, the sink and the script evaluator from a record
    of dependencies, as the code does (dep.go).  Catalog.v takes SHA-256 as a
    function, DotEnv.v the process environment.  What a theorem needs of a
    parameter is among its hypotheses, and its witness instantiates it.

    ** Fuel

    Loops take their fuel from what they consume: the lexer's, the parser's, the
    scans of dotenv and directive text (a token takes a byte at least), those of
    JSON paths and of cURL commands ([CurlScan.start_lines_are_decided]: a token
    takes a rune, and trimming leaves no more runes than it found).
    LexerFacts.v, ParserTotal.v and [DirectiveSpans.spans_exact] show that it
    always suffices.  The evaluator's fuel is the depth of recursion [n] of
    [Vm.vm_at]: every level charges a step, so any [n] above MaxSteps is enough
    ([EngineFacts.script_terminates]), and by [VmMono.fuel_irrelevant] the outcome
    does not depend on it.  The resolver's is the depth limit of the code
    ([ResolverFacts.expansion_terminates]); a workflow's the number of its steps
    ([WorkflowRuns.workflow_run_ends_in_protocol]).

    ** What the theorems show

    Scripts: every input lexes and parses or is refused; literals round-trip;
    every run ends within its step budget; signals, constants, scopes, the call
    stack and the heap are kept; modules are never stale; library functions obey
    their laws.  Streams: no interleaving panics (readers of a summary apart,
    where one does), closing completes, subscribers miss nothing.
    Variables: expansion ends, cycles are errors, templates, dotenv files and
    catalog selections are stable; layers and scope identities are exact.  Mock
    server: compiled rules are the rules, numbers compare as decimals, selection
    precedence and cursors, the journal's window, verification never counts when
    a request was lost.  Workflows, comparisons and profiles: events follow the
    protocol, verdicts are what the outcomes say, nothing runs after a stop.
    Request files: option lexing is exact, written directives read back; requests
    lie where they say, sections between separators are read on their own, parsed
    workflows prepare exactly when their requests exist, byte sizes are exact;
    rendered requests are parsed as what they were, but for what is said there.
    JSON paths: validation is the language, lookup is the place.  cURL: words mean
    what a shell means, copied commands come back as their requests, commands take
    their lines once.

    ** What is not modelled

    num, int, bool, match and uuid of RTS's core library and the namespaces that
    wrap Go packages (json, url, time, crypto and others): calls to them are
    answered by the host parameter, and so are host objects.  A float index of
    exactly 2^63 is converted as amd64 does.  Of the mock server the compilation
    of files, rendering and HTTP; of catalogs the JSON files and env: references
    at run time; of request files the JSON of @match and the options of @ssh and
    @k8s, which are interfaces, and the columns of expressions, which only editors
    show; of cURL the parsers of URLs and floats and SHA-256, which are parameters,
    and putting a rendered text into its file.  The writer's JSON of matchers is an
    interface too.  That rendered requests read back is shown of plain ones: of
    directives @name, @no-log, @log-sensitive-headers, @setting, @body and @auth,
    whose words hold no quotes or brackets.  The clients of protocols, the
    terminal's interface, history, settings and OpenAPI import are outside: they
    are I/O around third-party libraries. *)
From stdpp Require Import base list strings gmap.
From Stdlib Require Import Ascii ZArith Lia.

Set Warnings "-register-all".

Create HintDb rts discriminated.
#[export] Hint Constants Opaque : rts.

(** ** Results, and loops with fuel *)

(** A Go pair [(value, error)] of which exactly one side is meaningful. *)
Inductive res (E A : Type) : Type :=
  | Ok (a : A)
  | Er (e : E).
Arguments Ok {E A} a.
Arguments Er {E A} e.

(** [for cond { step }] with at most [n] iterations. *)
Fixpoint while {S : Type} (n : nat) (cond : S -> bool) (step : S -> S) (s : S) : S :=
  match n with
  | O => s
  | S n' => if cond s then while n' cond step (step s) else s
  end.

(** [for { body }], where the body either goes round again ([inl]) or leaves
    the loop with a value ([inr]).  [None]: more than [n] rounds. *)
Fixpoint loop {S A : Type} (n : nat) (body : S -> S + A) (s : S) : option A :=
  match n with
  | O => None
  | S n' =>
      match body s with
      | inl s' => loop n' body s'
      | inr a => Some a
      end
  end.

Section loops.
Context {S A : Type} (m : S -> nat).

(** A [while] loop whose measure strictly decreases leaves with its
    condition false, provided it is given as many rounds as the measure. *)
Lemma while_exit (cond : S -> bool) (step : S -> S) :
  (forall s, cond s = true -> m (step s) < m s) ->
  forall n s, m s <= n -> cond (while n cond step s) = false.
Proof.
  intros Hdec n; induction n as [|n IH]; intros s Hn; simpl.
  - destruct (cond s) eqn:Hc; [|done]. apply Hdec in Hc. lia.
  - destruct (cond s) eqn:Hc; [|done]. apply IH. apply Hdec in Hc. lia.
Qed.

(** An invariant of the step is an invariant of the loop. *)
Lemma while_inv (I : S -> Prop) (cond : S -> bool) (step : S -> S) :
  (forall s, I s -> cond s = true -> I (step s)) ->
  forall n s, I s -> I (while n cond step s).
Proof.
  intros Hstep n; induction n as [|n IH]; intros s Hs; simpl; [done|].
  destruct (cond s) eqn:Hc; [|done]. apply IH. by apply Hstep.
Qed.

(** Both at once: under an invariant, the measure may use it. *)
Lemma while_spec (I : S -> Prop) (cond : S -> bool) (step : S -> S) :
  (forall s, I s -> cond s = true -> I (step s) /\ m (step s) < m s) ->
  forall n s, I s -> m s <= n -> I (while n cond step s) /\ cond (while n cond step s) = false.
Proof.
  intros Hstep n; induction n as [|n IH]; intros s Hs Hn; simpl;
    (destruct (cond s) eqn:Hc; [destruct (Hstep s Hs Hc)|done]); [lia|].
  apply IH; [done|lia].
Qed.

(** A [for] loop under an invariant [I] whose measure strictly decreases on
    every round returns a value that satisfies the exit condition [Q]. *)
Lemma loop_spec (I : S -> Prop) (Q : A -> Prop) (body : S -> S + A) :
  (forall s, I s ->
     match body s with inl s' => I s' /\ m s' < m s | inr a => Q a end) ->
  forall n s, I s -> m s < n -> exists a, loop n body s = Some a /\ Q a.
Proof.
  intros Hbody n; induction n as [|n IH]; intros s Hs Hn; [lia|].
  simpl. specialize (Hbody s Hs). destruct (body s) as [s'|a].
  - destruct Hbody. apply IH; [done|lia].
  - eauto.
Qed.
End loops.

(** ** Lists *)

Lemma take_drop_step {A} (l : list A) (a b : nat) (x : A) :
  a <= b -> l !! b = Some x ->
  take (S b - a) (drop a l) = take (b - a) (drop a l) ++ [x].
Proof.
  intros Hab Hx. rewrite Nat.sub_succ_l by done.
  apply take_S_r. rewrite lookup_drop. by replace (a + (b - a)) with b by lia.
Qed.

(** ** Case analysis

    [case_bind H] opens the next [match] of a hypothesis, [case_goal] the one
    at the head of the goal; both name the equation. *)
Ltac case_hyp H :=
  match type of H with
  | context [match ?x with _ => _ end] =>
      let E := fresh "E" in destruct x eqn:E
  end.

Ltac case_goal :=
  match goal with
  | |- context [match ?x with _ => _ end] =>
      let E := fresh "E" in destruct x eqn:E
  end.


