(* ===== verification/GoStd.v ===== *)
(** * The part of Go's standard library the modelled code uses: [strconv.Itoa],
    quoting for the [%q] verb, UTF-8 decoding as [range] over a string does it,
    byte order on strings and [sort.Strings]. *)
From stdpp Require Import base list strings gmap sorting.
From Stdlib Require Import Ascii ZArith Lia.
From S2P Require Import Prelude.

Open Scope string_scope.
Open Scope nat_scope.
Open Scope list_scope.

(** ** Bytes *)

Definition byte_of (n : N) : ascii := ascii_of_N n.
Definition byte_val (c : ascii) : N := N_of_ascii c.

Definition NUL : ascii := byte_of 0.
Definition TAB : ascii := byte_of 9.
Definition LF : ascii := byte_of 10.
Definition CR : ascii := byte_of 13.
Definition DQUOTE : ascii := byte_of 34.
Definition SQUOTE : ascii := byte_of 39.
Definition BACKSLASH : ascii := byte_of 92.

(** A Go string or byte slice as a list of bytes, and back. *)
Definition bytes (s : string) : list ascii := String.list_ascii_of_string s.
Definition str (l : list ascii) : string := String.string_of_list_ascii l.

Lemma bytes_str l : bytes (str l) = l.
Proof. apply String.list_ascii_of_string_of_list_ascii. Qed.

Lemma str_bytes s : str (bytes s) = s.
Proof. apply String.string_of_list_ascii_of_string. Qed.

(** [len s]. *)
Definition slen (s : string) : Z := Z.of_nat (String.length s).

Definition one (c : ascii) : string := String c EmptyString.

(** ** Decimal integers: [strconv.Itoa] and the [%d] verb *)

Definition digit_char (d : Z) : ascii := byte_of (Z.to_N (48 + d)).

(** The decimal digits of [z >= 0], least significant last. *)
Fixpoint udigits (fuel : nat) (z : Z) (acc : list ascii) : list ascii :=
  match fuel with
  | O => acc
  | S f =>
      let acc' := digit_char (z mod 10) :: acc in
      if (z <? 10)%Z then acc' else udigits f (z / 10) acc'
  end.

Definition itoa (z : Z) : string :=
  let n := Z.abs z in
  let ds := str (udigits (S (Z.to_nat (Z.log2 n))) n []) in
  if (z <? 0)%Z then String "-" ds else ds.

(** ** Quoting ([%q]) *)

Definition hex_char (d : Z) : ascii :=
  byte_of (Z.to_N (if (d <? 10)%Z then 48 + d else 87 + d)).

Definition hex2 (n : Z) : string := str [hex_char (n / 16); hex_char (n mod 16)].
Definition hex4 (n : Z) : string := hex2 (n / 256) +:+ hex2 (n mod 256).

(** [strconv.appendEscapedRune] for a rune below 256, inside quotes [q].
    [strconv.IsPrint] is true on that range exactly for 0x20-0x7e and for
    0xa1-0xff except 0xad; a printable rune above 0x7f is UTF-8 encoded. *)
Definition escape_latin1 (q : ascii) (c : ascii) : string :=
  let n := Z.of_N (byte_val c) in
  if bool_decide (c = q) || bool_decide (c = BACKSLASH) then str [BACKSLASH; c]
  else if (32 <=? n)%Z && (n <? 127)%Z then one c
  else if (161 <=? n)%Z && negb (n =? 173)%Z then
    str [byte_of (Z.to_N (192 + n / 64)); byte_of (Z.to_N (128 + n mod 64))]
  else if (n =? 7)%Z then "\a"
  else if (n =? 8)%Z then "\b"
  else if (n =? 12)%Z then "\f"
  else if (n =? 10)%Z then "\n"
  else if (n =? 13)%Z then "\r"
  else if (n =? 9)%Z then "\t"
  else if (n =? 11)%Z then "\v"
  else if (n <? 32)%Z || (n =? 127)%Z then "\x" +:+ hex2 n
  else "\u" +:+ hex4 n.

(** [fmt.Sprintf("%q", b)] for a byte: a quoted rune. *)
Definition quote_byte (c : ascii) : string :=
  one SQUOTE +:+ escape_latin1 SQUOTE c +:+ one SQUOTE.

(** [fmt.Sprintf("%q", s)] for an ASCII string.  The code only quotes
    identifiers and keywords this way, which are ASCII. *)
Definition quote (s : string) : string :=
  one DQUOTE +:+ String.concat EmptyString (map (escape_latin1 DQUOTE) (bytes s)) +:+ one DQUOTE.

(** ** UTF-8: [for i, r := range s] *)

(** Byte [b] lies in [lo..hi]. *)
Definition in_range (b : ascii) (lo hi : Z) : bool :=
  (lo <=? Z.of_N (byte_val b))%Z && (Z.of_N (byte_val b) <=? hi)%Z.

(** The payload bits of a UTF-8 byte. *)
Definition payload (b : ascii) (mask : Z) : Z := Z.land (Z.of_N (byte_val b)) mask.

(** The rune at the head of a non-empty byte list and its width, as
    [utf8.DecodeRuneInString] returns them; [None] for an invalid encoding,
    which Go reports as U+FFFD of width 1. *)
Definition decode_rune (l : list ascii) : option (Z * nat) :=
  match l with
  | [] => None
  | b0 :: t =>
      let n := Z.of_N (byte_val b0) in
      if (n <? 128)%Z then Some (n, 1)
      else if (n <? 194)%Z then None
      else if (n <? 224)%Z then
        match t with
        | b1 :: _ =>
            if in_range b1 128 191
            then Some ((payload b0 31 * 64 + payload b1 63)%Z, 2) else None
        | _ => None
        end
      else if (n <? 240)%Z then
        let lo := (if n =? 224 then 160 else 128)%Z in
        let hi := (if n =? 237 then 159 else 191)%Z in
        match t with
        | b1 :: b2 :: _ =>
            if in_range b1 lo hi && in_range b2 128 191
            then Some ((payload b0 15 * 4096 + payload b1 63 * 64 + payload b2 63)%Z, 3)
            else None
        | _ => None
        end
      else if (n <? 245)%Z then
        let lo := (if n =? 240 then 144 else 128)%Z in
        let hi := (if n =? 244 then 143 else 191)%Z in
        match t with
        | b1 :: b2 :: b3 :: _ =>
            if in_range b1 lo hi && in_range b2 128 191 && in_range b3 128 191
            then Some ((payload b0 7 * 262144 + payload b1 63 * 4096
                        + payload b2 63 * 64 + payload b3 63)%Z, 4)
            else None
        | _ => None
        end
      else None
  end.

(** The UTF-8 encoding of U+FFFD. *)
Definition RUNE_ERROR : string := str [byte_of 239; byte_of 191; byte_of 189].

(** The pairs [(i, string(r))] that [for i, r := range s] produces. *)
Fixpoint range_str (fuel : nat) (i : nat) (l : list ascii) : list (nat * string) :=
  match fuel, l with
  | S f, _ :: t =>
      match decode_rune l with
      | Some (_, w) => (i, str (take w l)) :: range_str f (i + w) (drop w l)
      | None => (i, RUNE_ERROR) :: range_str f (S i) t
      end
  | _, _ => []
  end.

Definition runes (s : string) : list (nat * string) :=
  range_str (String.length s) 0 (bytes s).

(** ** Order on strings *)

Definition str_lt (a b : string) : bool := String.ltb a b.
Definition str_le (a b : string) : bool := String.leb a b.

Definition string_le (a b : string) : Prop := str_le a b = true.

#[export] Instance string_le_dec : RelDecision string_le.
Proof. intros a b. unfold string_le. apply _. Defined.

(** [sort.Strings]. *)
Definition sort_strings (l : list string) : list string := merge_sort string_le l.

(** The keys of a Go map in ascending order, as code obtains them with
    [sort.Strings] over the collected keys. *)
Definition sorted_keys {A} (m : gmap string A) : list string :=
  sort_strings (map fst (map_to_list m)).

Lemma sorted_keys_perm {A} (m : gmap string A) : sorted_keys m ≡ₚ (map_to_list m).*1.
Proof. apply merge_sort_Permutation. Qed.

Lemma sorted_keys_elem {A} (m : gmap string A) k : k ∈ sorted_keys m <-> is_Some (m !! k).
Proof.
  rewrite sorted_keys_perm, list_elem_of_fmap. split.
  - intros ([x v] & -> & Hx%elem_of_map_to_list). simpl. eauto.
  - intros [v Hv]. exists (k, v). by rewrite elem_of_map_to_list.
Qed.
