(* ===== verification/GoFloat.v ===== *)
(** * [float64]: IEEE 754 binary64 arithmetic as Go performs it, on the
    executable specification floats of the Standard Library, with the parts of
    [math] and [strconv] the modelled code uses.  Last, [encoding/json.Marshal]. *)
From stdpp Require Import base list strings gmap.
From Stdlib Require Import Ascii ZArith Lia SpecFloat.
From S2P Require Import Prelude GoStd.

Open Scope string_scope.
Open Scope Z_scope.
Open Scope list_scope.

Abbreviation float64 := spec_float.

Definition prec64 : Z := 53.
Definition emax64 : Z := 1024.

(** ** Arithmetic and comparison *)

Definition f_add : float64 -> float64 -> float64 := SFadd prec64 emax64.
Definition f_sub : float64 -> float64 -> float64 := SFsub prec64 emax64.
Definition f_mul : float64 -> float64 -> float64 := SFmul prec64 emax64.
Definition f_div : float64 -> float64 -> float64 := SFdiv prec64 emax64.
Definition f_neg : float64 -> float64 := SFopp.
Definition f_eq : float64 -> float64 -> bool := SFeqb.
Definition f_lt : float64 -> float64 -> bool := SFltb.
Definition f_le : float64 -> float64 -> bool := SFleb.

(** [float64(z)] for an integer [z]: round to nearest, ties to even. *)
Definition f_of_Z (z : Z) : float64 := binary_normalize prec64 emax64 z 0 false.

Definition f_zero : float64 := S754_zero false.

Definition IsNaN (f : float64) : bool := match f with S754_nan => true | _ => false end.
Definition IsInf (f : float64) : bool := match f with S754_infinity _ => true | _ => false end.

(** The integer part of a float, toward zero, when it has one. *)
Definition f_to_Z (f : float64) : option Z :=
  match f with
  | S754_zero _ => Some 0
  | S754_finite s m e =>
      let v := if 0 <=? e then Z.pos m * 2 ^ e else Z.pos m / 2 ^ (- e) in
      Some (if s then - v else v)
  | _ => None
  end.

(** [math.Trunc]. *)
Definition f_trunc (f : float64) : float64 :=
  match f with
  | S754_finite s m e =>
      if 0 <=? e then f
      else binary_normalize prec64 emax64 (if s then - (Z.pos m / 2 ^ (- e)) else Z.pos m / 2 ^ (- e)) 0 s
  | _ => f
  end.

(** [math.Mod]: the exact remainder, with the sign of the dividend. *)
Definition f_mod (x y : float64) : float64 :=
  match x, y with
  | S754_nan, _ | _, S754_nan | S754_infinity _, _ | _, S754_zero _ => S754_nan
  | S754_zero _, _ | _, S754_infinity _ => x
  | S754_finite s mx ex, S754_finite _ my ey =>
      let e := Z.min ex ey in
      let r := Z.rem (Z.pos mx * 2 ^ (ex - e)) (Z.pos my * 2 ^ (ey - e)) in
      binary_normalize prec64 emax64 (if s then - r else r) e s
  end.

(** The float nearest to [num * 10^k], for [num >= 0]; this is the value
    [strconv.ParseFloat] gives a decimal. *)
Definition f_of_decimal (num k : Z) : float64 :=
  if num =? 0 then f_zero
  else if 0 <=? k then f_of_Z (num * 10 ^ k)
  else
    let '(q, e, l) := SFdiv_core_binary prec64 emax64 num 0 (10 ^ (- k)) 0 in
    binary_round_aux prec64 emax64 false q e l.

(** ** [strconv.ParseFloat] on what the lexer calls a number: digits, and
    optionally a point and more digits.  [None]: out of range. *)

Definition dec_of (l : list ascii) : Z :=
  fold_left (fun acc c => acc * 10 + (Z.of_N (byte_val c) - 48)) l 0.

Fixpoint split_dot (l : list ascii) : list ascii * list ascii :=
  match l with
  | [] => ([], [])
  | c :: r =>
      if bool_decide (c = "."%char) then ([], r)
      else let '(a, b) := split_dot r in (c :: a, b)
  end.

Definition ParseNumber (s : string) : option float64 :=
  let '(ip, fp) := split_dot (bytes s) in
  let f := f_of_decimal (dec_of (ip ++ fp)) (- Z.of_nat (length fp)) in
  if IsInf f then None else Some f.

(** ** Shortest decimal form *)

(** The largest [x] with [10^x <= num/den], searched from an estimate. *)
Fixpoint dec_exp (fuel : nat) (num den x : Z) : Z :=
  match fuel with
  | O => x
  | S f =>
      let lo := if 0 <=? x then den * 10 ^ x <=? num else den <=? num * 10 ^ (- x) in
      if lo then x else dec_exp f num den (x - 1)
  end.

(** The decimal digits of [n], most significant first. *)
Definition digits_of (n : Z) : list ascii :=
  udigits (S (Z.to_nat (Z.log2 n))) n [].

Fixpoint drop_zeros (l : list ascii) : list ascii :=
  match l with
  | c :: r => if bool_decide (c = "0"%char) then drop_zeros r else l
  | [] => []
  end.

(** Trailing zeros do not count as digits. *)
Definition trim_digits (l : list ascii) : list ascii := rev (drop_zeros (rev l)).

(** The shortest digits [d1 d2 ...] and the position [dp] of the decimal point
    for which [0.d1d2... * 10^dp] is read back as the float [v]; among those of
    one length the nearest to [num/den], the exact value of [v]. *)
Fixpoint shortest (fuel : nat) (n : Z) (v : float64) (num den x : Z) : list ascii * Z :=
  match fuel with
  | O => (digits_of num, x + 1)
  | S f =>
      let k := x - n + 1 in
      let sn := if 0 <=? k then num else num * 10 ^ (- k) in
      let sd := if 0 <=? k then den * 10 ^ k else den in
      let lo := sn / sd in
      let rem := sn - lo * sd in
      let ok c := f_eq (f_of_decimal c k) v in
      let down := ok lo in
      let up := ok (lo + 1) in
      let pick_up :=
        if down && up then (sd <? 2 * rem) || ((2 * rem =? sd) && Z.odd lo) else up in
      if down || up then
        let c := if pick_up then lo + 1 else lo in
        let ds := digits_of c in
        (trim_digits ds, k + Z.of_nat (length ds))
      else shortest f (n + 1) v num den x
  end.

(** The digits of a non-zero finite float, without its sign. *)
Definition float_digits (m : positive) (e : Z) : list ascii * Z :=
  let num := if 0 <=? e then Z.pos m * 2 ^ e else Z.pos m in
  let den := if 0 <=? e then 1 else 2 ^ (- e) in
  let est := Z.log2 (Z.pos m) + e in
  let x0 := if 0 <=? est then (est + 1) * 302 / 1000 + 1 else est * 301 / 1000 + 1 in
  let x := dec_exp 8 num den x0 in
  shortest 17 1 (S754_finite false m e) num den x.

Definition sign_str (s : bool) : list ascii := if s then ["-"%char] else [].

Definition zeros (n : Z) : list ascii := repeat "0"%char (Z.to_nat n).

(** [fmtF]: positional notation with the digits that are there. *)
Definition fmtF (s : bool) (ds : list ascii) (dp : Z) : list ascii :=
  let nd := Z.of_nat (length ds) in
  let ip := if 0 <? dp then take (Z.to_nat dp) ds ++ zeros (dp - nd) else ["0"%char] in
  let fp := if dp <? nd then "."%char :: zeros (- dp) ++ drop (Z.to_nat dp) ds else [] in
  sign_str s ++ ip ++ fp.

(** [fmtE]: scientific notation; the exponent has at least [w] digits. *)
Definition fmtE (w : Z) (s : bool) (ds : list ascii) (dp : Z) : list ascii :=
  let ex := if bool_decide (ds = []) then 0 else dp - 1 in
  let e := digits_of (Z.abs ex) in
  let first := match ds with [] => ["0"%char] | d :: _ => [d] end in
  let rest := match ds with [] | [_] => [] | _ :: r => "."%char :: r end in
  sign_str s ++ first ++ rest ++ ["e"%char; if ex <? 0 then "-"%char else "+"%char]
    ++ zeros (w - Z.of_nat (length e)) ++ e.

(** [strconv.FormatFloat(f, 'g', -1, 64)]: scientific notation when the exponent
    is below -4 or at least 6, the threshold for the shortest precision. *)
Definition FormatG (f : float64) : string :=
  match f with
  | S754_nan => "NaN"
  | S754_infinity s => if s then "-Inf" else "+Inf"
  | S754_zero s => str (fmtF s [] 0)
  | S754_finite s m e =>
      let '(ds, dp) := float_digits m e in
      let ex := dp - 1 in
      str (if (ex <? -4) || (6 <=? ex) then fmtE 2 s ds dp else fmtF s ds dp)
  end.

(** How [encoding/json] writes a float; [None] for NaN and the infinities. *)
Definition FormatJSON (f : float64) : option string :=
  match f with
  | S754_nan | S754_infinity _ => None
  | S754_zero s => Some (str (fmtF s [] 0))
  | S754_finite s m e =>
      let '(ds, dp) := float_digits m e in
      let small := f_lt (SFabs f) (f_of_decimal 1 (-6)) in
      let big := f_le (f_of_Z (10 ^ 21)) (SFabs f) in
      Some (str (if small || big then fmtE 1 s ds dp else fmtF s ds dp))
  end.

(** ** [math] *)

Definition f_sign (f : float64) : bool :=
  match f with S754_zero s | S754_infinity s | S754_finite s _ _ => s | S754_nan => false end.

Definition f_abs : float64 -> float64 := SFabs.

Definition f_inf (s : bool) : float64 := S754_infinity s.
Definition is_inf (s : bool) (f : float64) : bool :=
  match f with S754_infinity s' => Bool.eqb s s' | _ => false end.

(** [math.Min] and [math.Max], with their special cases. *)
Definition f_min (x y : float64) : float64 :=
  if is_inf true x || is_inf true y then f_inf true
  else if IsNaN x || IsNaN y then S754_nan
  else if f_eq x f_zero && f_eq x y then (if f_sign x then x else y)
  else if f_lt x y then x else y.

Definition f_max (x y : float64) : float64 :=
  if is_inf false x || is_inf false y then f_inf false
  else if IsNaN x || IsNaN y then S754_nan
  else if f_eq x f_zero && f_eq x y then (if f_sign x then y else x)
  else if f_lt y x then x else y.

(** [math.Floor]: toward minus infinity. *)
Definition f_floor (x : float64) : float64 :=
  match x with
  | S754_finite true _ _ =>
      let d := f_trunc (f_neg x) in
      f_neg (if f_eq d (f_neg x) then d else f_add d (f_of_Z 1))
  | S754_finite false _ _ => f_trunc x
  | _ => x
  end.

Definition f_ceil (x : float64) : float64 := f_neg (f_floor (f_neg x)).

(** [math.Round]: to the nearest integer, half away from zero. *)
Definition f_round (x : float64) : float64 :=
  match x with
  | S754_finite s _ _ =>
      let t := f_trunc x in
      if f_le (f_div (f_of_Z 1) (f_of_Z 2)) (f_abs (f_sub x t))
      then f_add t (if s then f_of_Z (-1) else f_of_Z 1) else t
  | _ => x
  end.

(** ** [encoding/json.Marshal] on the values the code marshals: nil, booleans,
    floats, strings, slices and string-keyed maps *)

Open Scope string_scope.
Open Scope nat_scope.
Open Scope list_scope.

(** A Go [any] holding such a value. *)
Inductive Iface : Type :=
  | INil
  | IBool (b : bool)
  | INum (n : float64)
  | IStr (s : string)
  | IList (l : list Iface)
  | IMap (m : gmap string Iface).

Definition dq : string := one DQUOTE.

(** The escape of one byte below 128; [Marshal] escapes HTML characters. *)
Definition json_escape (c : ascii) : string :=
  let n := Z.of_N (byte_val c) in
  if bool_decide (c = DQUOTE) || bool_decide (c = BACKSLASH) then str [BACKSLASH; c]
  else if (n =? 8)%Z then "\b"
  else if (n =? 12)%Z then "\f"
  else if bool_decide (c = LF) then "\n"
  else if bool_decide (c = CR) then "\r"
  else if bool_decide (c = TAB) then "\t"
  else if (n <? 32)%Z || bool_decide (c = "<"%char) || bool_decide (c = ">"%char)
          || bool_decide (c = "&"%char) then "\u" +:+ hex4 n
  else one c.

(** An invalid encoding becomes the escape of U+FFFD; U+2028 and U+2029 are escaped. *)
Fixpoint json_chars (fuel : nat) (l : list ascii) : string :=
  match fuel, l with
  | S f, c :: t =>
      if (Z.of_N (byte_val c) <? 128)%Z then json_escape c +:+ json_chars f t
      else
        match decode_rune l with
        | None => "\ufffd" +:+ json_chars f t
        | Some (r, w) =>
            (if (r =? 8232)%Z then "\u2028" else if (r =? 8233)%Z then "\u2029" else str (take w l))
            +:+ json_chars f (drop w l)
        end
  | _, _ => EmptyString
  end.

Definition json_string (s : string) : string :=
  dq +:+ json_chars (String.length s) (bytes s) +:+ dq.

Definition join (sep : string) (l : list string) : string := String.concat sep l.

(** All elements, if none failed. *)
Fixpoint all_some {A} (l : list (option A)) : option (list A) :=
  match l with
  | [] => Some []
  | o :: r => match o, all_some r with Some a, Some rs => Some (a :: rs) | _, _ => None end
  end.

(** [None]: the value holds a NaN or an infinity. *)
Fixpoint Marshal (v : Iface) : option string :=
  match v with
  | INil => Some "null"
  | IBool b => Some (if b then "true" else "false")
  | INum n => FormatJSON n
  | IStr s => Some (json_string s)
  | IList l =>
      match all_some (map Marshal l) with
      | Some es => Some ("[" +:+ join "," es +:+ "]")
      | None => None
      end
  | IMap m =>
      let em := Marshal <$> m in
      let field k := match em !! k with
                     | Some (Some e) => Some (json_string k +:+ ":" +:+ e)
                     | _ => None
                     end in
      match all_some (map field (sorted_keys em)) with
      | Some fs => Some ("{" +:+ join "," fs +:+ "}")
      | None => None
      end
  end.
