(* ===== verification/GoPath.v ===== *)
(** * What the code uses of Go's path/filepath (on Unix) and strings.TrimSpace. *)
From stdpp Require Import base list strings.
From Stdlib Require Import Ascii NArith Lia.
From S2P Require Import Prelude GoStd.

Open Scope string_scope.
Open Scope nat_scope.
Open Scope list_scope.

(** ** Paths *)

Definition SEP : ascii := "/"%char.
Definition DOT : string := ".".
Definition DOTDOT : string := "..".

(** The elements between separators, empty ones included. *)
Fixpoint splitSep (acc l : list ascii) : list string :=
  match l with
  | [] => [str acc]
  | c :: r => if bool_decide (c = SEP) then str acc :: splitSep [] r else splitSep (acc ++ [c]) r
  end.

Fixpoint joinSep (l : list string) : string :=
  match l with
  | [] => EmptyString
  | [x] => x
  | x :: r => x +:+ one SEP +:+ joinSep r
  end.

Definition IsAbs (p : string) : bool := bool_decide (head (bytes p) = Some SEP).

(** One element; [out] holds the elements kept so far, the last one first. *)
Definition cleanElem (rooted : bool) (out : list string) (e : string) : list string :=
  if bool_decide (e = EmptyString) || bool_decide (e = DOT) then out
  else if bool_decide (e = DOTDOT) then
    match out with
    | x :: rest => if bool_decide (x = DOTDOT) then e :: out else rest
    | [] => if rooted then [] else [e]
    end
  else e :: out.

(** [filepath.Clean]. *)
Definition Clean (p : string) : string :=
  let out := joinSep (rev (foldl (cleanElem (IsAbs p)) [] (splitSep [] (bytes p)))) in
  if IsAbs p then String SEP out
  else if bool_decide (out = EmptyString) then DOT else out.

(** [filepath.Join] of two elements; empty ones are left out. *)
Definition Join (a b : string) : string :=
  match filter (fun x => x <> EmptyString) [a; b] with
  | [] => EmptyString
  | l => Clean (joinSep l)
  end.

(** [filepath.Abs]; [wd] is the answer of [os.Getwd]. *)
Definition Abs {E} (wd : res E string) (p : string) : res E string :=
  if IsAbs p then Ok (Clean p)
  else match wd with
       | Ok d => Ok (Join d p)
       | Er e => Er e
       end.

(** ** White space *)

(** The UTF-8 encodings of the runes that [unicode.IsSpace] accepts. *)
Definition spaces : list (list ascii) :=
  map (map byte_of)
    ([[9]; [10]; [11]; [12]; [13]; [32]; [194; 133]; [194; 160]; [225; 154; 128]]
     ++ map (fun n => [226; 128; n]) [128; 129; 130; 131; 132; 133; 134; 135; 136; 137; 138; 168; 169; 175]
     ++ [[226; 129; 159]; [227; 128; 128]])%N.

(** [l] without [w] at its front. *)
Fixpoint cut (w l : list ascii) : option (list ascii) :=
  match w, l with
  | [], _ => Some l
  | a :: w', b :: l' => if bool_decide (a = b) then cut w' l' else None
  | _ :: _, [] => None
  end.

Fixpoint cutAny (ws : list (list ascii)) (l : list ascii) : option (list ascii) :=
  match ws with
  | [] => None
  | w :: r => match cut w l with Some l' => Some l' | None => cutAny r l end
  end.

Fixpoint trimFront (n : nat) (ws : list (list ascii)) (l : list ascii) : list ascii :=
  match n with
  | O => l
  | S n' => match cutAny ws l with Some l' => trimFront n' ws l' | None => l end
  end.

(** [strings.TrimSpace]. *)
Definition TrimSpace (s : string) : string :=
  let l := trimFront (String.length s) spaces (bytes s) in
  str (rev (trimFront (length l) (map (@rev ascii) spaces) (rev l))).

Example clean_examples :
  map Clean [""; "a//b/./c"; "/../a/../b"; "../../x/.."; "a/.."; "./m.rts"; "/"]
  = ["."; "a/b/c"; "/b"; "../.."; "."; "m.rts"; "/"].
Proof. vm_compute. reflexivity. Qed.

Example trim_examples : map TrimSpace ["  a b "; ""; "   "] = ["a b"; ""; ""].
Proof. vm_compute. reflexivity. Qed.
