(* ===== verification/Token.v ===== *)
(** * Tokens of RestermScript (internal/rts/token.go and internal/rts/pos.go):
    positions, token kinds, the keyword table and the keyword classes. *)
From stdpp Require Import base list strings gmap.
From Stdlib Require Import Ascii ZArith Lia.
From S2P Require Import Prelude GoStd.

Open Scope string_scope.
Open Scope nat_scope.
Open Scope list_scope.

(** ** Positions *)

Record Pos := mkPos { Path : string; Line : Z; Col : Z }.

(** The zero value. *)
Definition NoPos : Pos := mkPos EmptyString 0 0.

Definition Pos_String (p : Pos) : string :=
  if bool_decide (Path p = EmptyString) then itoa (Line p) +:+ ":" +:+ itoa (Col p)
  else Path p +:+ ":" +:+ itoa (Line p) +:+ ":" +:+ itoa (Col p).

Record ParseError := mkParseError { pe_pos : Pos; pe_msg : string }.

Definition ParseError_Error (e : ParseError) : string :=
  if (Line (pe_pos e) =? 0)%Z then pe_msg e
  else Pos_String (pe_pos e) +:+ ": " +:+ pe_msg e.

(** ** Kinds *)

(** The constructors stand in the order of the Go constant block. *)
Inductive Kind : Set :=
  | EOF | ILLEGAL | IDENT | NUMBER | STRING | KW_EXPORT
  | KW_MODULE | KW_FN | KW_LET | KW_CONST | KW_IF | KW_ELIF
  | KW_ELSE | KW_SWITCH | KW_CASE | KW_DEFAULT | KW_RETURN | KW_FOR
  | KW_BREAK | KW_CONTINUE | KW_RANGE | KW_TRY | KW_TRUE | KW_FALSE
  | KW_NULL | KW_AND | KW_OR | KW_NOT | ASSIGN | EQ
  | NE | LT | LE | GT | GE | PLUS
  | MINUS | STAR | SLASH | PERCENT | BANG | ANDAND
  | OROR | COALESCE | QUESTION | COLON | LPAREN | RPAREN
  | LBRACK | RBRACK | LBRACE | RBRACE | COMMA | DOT
  | SEMI | AUTO_SEMI.

(** The value [iota] gives each constant. *)
Definition kind_ord (k : Kind) : nat :=
  match k with
  | EOF => 0 | ILLEGAL => 1 | IDENT => 2 | NUMBER => 3
  | STRING => 4 | KW_EXPORT => 5 | KW_MODULE => 6 | KW_FN => 7
  | KW_LET => 8 | KW_CONST => 9 | KW_IF => 10 | KW_ELIF => 11
  | KW_ELSE => 12 | KW_SWITCH => 13 | KW_CASE => 14 | KW_DEFAULT => 15
  | KW_RETURN => 16 | KW_FOR => 17 | KW_BREAK => 18 | KW_CONTINUE => 19
  | KW_RANGE => 20 | KW_TRY => 21 | KW_TRUE => 22 | KW_FALSE => 23
  | KW_NULL => 24 | KW_AND => 25 | KW_OR => 26 | KW_NOT => 27
  | ASSIGN => 28 | EQ => 29 | NE => 30 | LT => 31
  | LE => 32 | GT => 33 | GE => 34 | PLUS => 35
  | MINUS => 36 | STAR => 37 | SLASH => 38 | PERCENT => 39
  | BANG => 40 | ANDAND => 41 | OROR => 42 | COALESCE => 43
  | QUESTION => 44 | COLON => 45 | LPAREN => 46 | RPAREN => 47
  | LBRACK => 48 | RBRACK => 49 | LBRACE => 50 | RBRACE => 51
  | COMMA => 52 | DOT => 53 | SEMI => 54 | AUTO_SEMI => 55
  end.

Definition all_kinds : list Kind :=
  [ EOF; ILLEGAL; IDENT; NUMBER; STRING; KW_EXPORT;
    KW_MODULE; KW_FN; KW_LET; KW_CONST; KW_IF; KW_ELIF;
    KW_ELSE; KW_SWITCH; KW_CASE; KW_DEFAULT; KW_RETURN; KW_FOR;
    KW_BREAK; KW_CONTINUE; KW_RANGE; KW_TRY; KW_TRUE; KW_FALSE;
    KW_NULL; KW_AND; KW_OR; KW_NOT; ASSIGN; EQ;
    NE; LT; LE; GT; GE; PLUS;
    MINUS; STAR; SLASH; PERCENT; BANG; ANDAND;
    OROR; COALESCE; QUESTION; COLON; LPAREN; RPAREN;
    LBRACK; RBRACK; LBRACE; RBRACE; COMMA; DOT;
    SEMI; AUTO_SEMI ].

Lemma all_kinds_ord k : all_kinds !! kind_ord k = Some k.
Proof. by destruct k. Qed.

#[export] Instance kind_ord_inj : Inj (=) (=) kind_ord.
Proof. intros a b H. pose proof (all_kinds_ord a). pose proof (all_kinds_ord b). congruence. Qed.

#[export] Instance Kind_eq_dec : EqDecision Kind.
Proof.
  refine (fun a b => match decide (kind_ord a = kind_ord b) with
                     | left e => left _
                     | right n => right _
                     end); [by apply (inj kind_ord)|congruence].
Defined.

(** The keyword kinds are exactly a contiguous run of the enumeration. *)
Definition isKeyword (k : Kind) : bool :=
  (kind_ord KW_EXPORT <=? kind_ord k) && (kind_ord k <=? kind_ord KW_NOT).

Definition Kind_String (k : Kind) : string :=
  match k with
  | EOF => "EOF" | ILLEGAL => "ILLEGAL" | IDENT => "IDENT" | NUMBER => "NUMBER"
  | STRING => "STRING" | KW_EXPORT => "export" | KW_MODULE => "module" | KW_FN => "fn"
  | KW_LET => "let" | KW_CONST => "const" | KW_IF => "if" | KW_ELIF => "elif"
  | KW_ELSE => "else" | KW_SWITCH => "switch" | KW_CASE => "case" | KW_DEFAULT => "default"
  | KW_RETURN => "return" | KW_FOR => "for" | KW_BREAK => "break" | KW_CONTINUE => "continue"
  | KW_RANGE => "range" | KW_TRY => "try" | KW_TRUE => "true" | KW_FALSE => "false"
  | KW_NULL => "null" | KW_AND => "and" | KW_OR => "or" | KW_NOT => "not"
  | ASSIGN => "=" | EQ => "==" | NE => "!=" | LT => "<"
  | LE => "<=" | GT => ">" | GE => ">=" | PLUS => "+"
  | MINUS => "-" | STAR => "*" | SLASH => "/" | PERCENT => "%"
  | BANG => "!" | ANDAND => "&&" | OROR => "||" | COALESCE => "??"
  | QUESTION => "?" | COLON => ":" | LPAREN => "(" | RPAREN => ")"
  | LBRACK => "[" | RBRACK => "]" | LBRACE => "{" | RBRACE => "}"
  | COMMA => "," | DOT => "." | SEMI => ";" | AUTO_SEMI => "<auto-semi>"
  end.

Record Tok := mkTok { K : Kind; Lit : string; P : Pos }.

(** ** Keywords *)

Definition kw_list : list (string * Kind) :=
  [ ("export", KW_EXPORT); ("module", KW_MODULE); ("fn", KW_FN);
    ("let", KW_LET); ("const", KW_CONST); ("if", KW_IF);
    ("elif", KW_ELIF); ("else", KW_ELSE); ("switch", KW_SWITCH);
    ("case", KW_CASE); ("default", KW_DEFAULT); ("return", KW_RETURN);
    ("for", KW_FOR); ("break", KW_BREAK); ("continue", KW_CONTINUE);
    ("range", KW_RANGE); ("try", KW_TRY); ("true", KW_TRUE);
    ("false", KW_FALSE); ("null", KW_NULL); ("and", KW_AND);
    ("or", KW_OR); ("not", KW_NOT) ].

Definition kw : gmap string Kind := list_to_map kw_list.

Definition IsKeyword (name : string) : bool :=
  match kw !! name with Some _ => true | None => false end.

Inductive KeywordClass : Set :=
  | KeywordNone | KeywordDefault | KeywordDecl | KeywordControl | KeywordLiteral
  | KeywordLogical.

Definition keywordClassForKind (k : Kind) : KeywordClass :=
  match k with
  | KW_EXPORT | KW_MODULE | KW_FN | KW_LET | KW_CONST => KeywordDecl
  | KW_IF | KW_ELIF | KW_ELSE | KW_SWITCH | KW_CASE | KW_DEFAULT | KW_RETURN | KW_FOR
  | KW_BREAK | KW_CONTINUE | KW_RANGE | KW_TRY => KeywordControl
  | KW_TRUE | KW_FALSE | KW_NULL => KeywordLiteral
  | KW_AND | KW_OR | KW_NOT => KeywordLogical
  | _ => KeywordDefault
  end.

Definition KeywordClassOf (name : string) : KeywordClass :=
  match kw !! name with
  | None => KeywordNone
  | Some k => keywordClassForKind k
  end.

(** ** Facts *)

Lemma kw_spec name k : kw !! name = Some k <-> isKeyword k = true /\ Kind_String k = name.
Proof.
  assert (Hnd : NoDup kw_list.*1) by (vm_compute; apply (bool_decide_unpack _); by vm_compute).
  unfold kw. rewrite <- (elem_of_list_to_map _ _ _ Hnd). split.
  - intros H. unfold kw_list in H.
    repeat (apply elem_of_cons in H as [[= -> ->]|H]; [done|]). by apply elem_of_nil in H.
  - intros [Hk <-]. destruct k; try discriminate Hk; unfold kw_list; set_solver.
Qed.

(** Looking a name up in the keyword table succeeds exactly with the keyword
    kind whose spelling the name is: the table, the contiguous range that
    [isKeyword] tests and the spellings of [Kind_String] agree. *)
Theorem keyword_table_sound_complete (name : string) (k : Kind) :
  kw !! name = Some k <-> isKeyword k = true /\ Kind_String k = name.
Proof. apply kw_spec. Qed.
