(* ===== verification/Lexer.v ===== *)
(** * The RestermScript lexer (internal/rts/lexer.go).

    [Lexer] is the Go struct; its methods take the lexer and return the changed
    one.  Loops run with fuel taken from the bytes that are left, and
    [LexerFacts.v] proves that the fuel is never exhausted. *)
From stdpp Require Import base list strings gmap.
From Stdlib Require Import Ascii ZArith Lia.
From S2P Require Import Prelude GoStd Token.

Open Scope string_scope.
Open Scope nat_scope.
Open Scope list_scope.

Record Lexer := mkLexer {
  src : list ascii;
  path : string;
  idx : nat;        (** [i] *)
  start : nat;      (** byte offset of the current token *)
  line : Z;
  col : Z;
  par : Z;
  brk : Z;
  last : Kind;
  pend : option Tok;
  eof : bool;
  eofSemi : bool
}.

Definition NewLexerAt (path : string) (src : list ascii) (pos : Pos) : Lexer :=
  let ln := if (Line pos <=? 0)%Z then 1%Z else Line pos in
  let cl := if (Col pos <=? 0)%Z then 1%Z else Col pos in
  mkLexer src path 0 0 ln cl 0 0 EOF None false false.

Definition NewLexer (path : string) (src : list ascii) : Lexer :=
  NewLexerAt path src (mkPos EmptyString 1 1).

(** ** Field updates *)

Definition set_at (i : nat) (ln cl : Z) (l : Lexer) : Lexer :=
  mkLexer (src l) (path l) i (start l) ln cl (par l) (brk l) (last l) (pend l) (eof l) (eofSemi l).
Definition set_start (s : nat) (l : Lexer) : Lexer :=
  mkLexer (src l) (path l) (idx l) s (line l) (col l) (par l) (brk l) (last l) (pend l) (eof l) (eofSemi l).
Definition set_nest (pr bk : Z) (l : Lexer) : Lexer :=
  mkLexer (src l) (path l) (idx l) (start l) (line l) (col l) pr bk (last l) (pend l) (eof l) (eofSemi l).
Definition set_last (k : Kind) (l : Lexer) : Lexer :=
  mkLexer (src l) (path l) (idx l) (start l) (line l) (col l) (par l) (brk l) k (pend l) (eof l) (eofSemi l).
Definition set_pend (p : option Tok) (l : Lexer) : Lexer :=
  mkLexer (src l) (path l) (idx l) (start l) (line l) (col l) (par l) (brk l) (last l) p (eof l) (eofSemi l).
Definition set_eof (l : Lexer) : Lexer :=
  mkLexer (src l) (path l) (idx l) (start l) (line l) (col l) (par l) (brk l) (last l) (pend l) true (eofSemi l).
Definition set_eofSemi (l : Lexer) : Lexer :=
  mkLexer (src l) (path l) (idx l) (start l) (line l) (col l) (par l) (brk l) (last l) (pend l) (eof l) true.

(** ** Character classes *)

Definition isSpace (ch : ascii) : bool :=
  bool_decide (ch = " "%char) || bool_decide (ch = TAB).
Definition isNewline (ch : ascii) : bool :=
  bool_decide (ch = LF) || bool_decide (ch = CR).
Definition isDigit (ch : ascii) : bool := in_range ch 48 57.
Definition isIdentStart (ch : ascii) : bool :=
  in_range ch 97 122 || in_range ch 65 90 || bool_decide (ch = "_"%char).
Definition isIdent (ch : ascii) : bool := isIdentStart ch || isDigit ch.

Definition semiOk (k : Kind) : bool :=
  match k with
  | IDENT | NUMBER | STRING | KW_TRUE | KW_FALSE | KW_NULL | RPAREN | RBRACK | RBRACE
  | KW_RETURN | KW_BREAK | KW_CONTINUE => true
  | _ => false
  end.

(** ** Reading bytes *)

(** [l.pos()]. *)
Definition lex_pos (l : Lexer) : Pos := mkPos (path l) (line l) (col l).

Definition emit (k : Kind) (lit : string) (p : Pos) (l : Lexer) : Tok * Lexer :=
  (mkTok k lit p, set_last k l).

Definition illegal (p : Pos) (msg : string) (l : Lexer) : Tok * Lexer :=
  (mkTok ILLEGAL msg p, set_last ILLEGAL l).

(** The byte at offset [i]; 0 stands for the end of the input. *)
Definition byte_at (l : Lexer) (i : nat) : ascii := default NUL (src l !! i).

Definition peek (l : Lexer) : ascii := byte_at l (idx l).

(** [l.read()]: the byte it returns and the advanced lexer.  A carriage return
    takes a following line feed with it and is returned as a line feed. *)
Definition read (l : Lexer) : ascii * Lexer :=
  if length (src l) <=? idx l then (NUL, l)
  else
    let b := byte_at l (idx l) in
    let i := S (idx l) in
    if bool_decide (b = CR) then
      let i' := if (i <? length (src l)) && bool_decide (byte_at l i = LF) then S i else i in
      (LF, set_at i' (line l + 1)%Z 1%Z l)
    else if bool_decide (b = LF) then (LF, set_at i (line l + 1)%Z 1%Z l)
    else (b, set_at i (line l) (col l + 1)%Z l).

(** [l.read()] for its effect. *)
Definition adv (l : Lexer) : Lexer := snd (read l).

(** Bytes that are left: the fuel of every loop below. *)
Definition left_ (l : Lexer) : nat := length (src l) - idx l.

(** [string(l.src[a:b])]. *)
Definition slice (l : Lexer) (a b : nat) : list ascii := take (b - a) (drop a (src l)).

Definition skipComment (l : Lexer) : Lexer :=
  while (left_ l)
    (fun l => negb (bool_decide (peek l = NUL) || isNewline (peek l)))
    adv l.

Definition scanIdent (l : Lexer) : string * Lexer :=
  let l1 := adv l in
  let l2 := while (left_ l1) (fun l => isIdent (peek l)) adv l1 in
  (str (slice l2 (idx l) (idx l2)), l2).

Definition scanDigits (l : Lexer) : Lexer :=
  while (left_ l) (fun l => isDigit (peek l)) adv l.

Definition scanNumber (l : Lexer) : string * Lexer :=
  let l1 := scanDigits (adv l) in
  let next := if S (idx l1) <? length (src l1) then byte_at l1 (S (idx l1)) else NUL in
  let l2 :=
    if bool_decide (peek l1 = "."%char) && isDigit next then scanDigits (adv l1) else l1 in
  (str (slice l2 (idx l) (idx l2)), l2).

(** The byte an escape sequence stands for. *)
Definition unescape (esc : ascii) : ascii :=
  if bool_decide (esc = "n"%char) then LF
  else if bool_decide (esc = "r"%char) then CR
  else if bool_decide (esc = "t"%char) then TAB
  else esc.

(** One round of the loop of [scanString]: the state is the lexer, the start of
    the pending raw run and the bytes decoded so far. *)
Definition scanString_body (q : ascii) (st : Lexer * nat * list ascii)
  : Lexer * nat * list ascii + option string * Lexer :=
  let '(l, st0, out) := st in
  let ch := peek l in
  if bool_decide (ch = NUL) || isNewline ch then inr (None, l)
  else if bool_decide (ch = q) then
    let l' := adv l in
    inr (Some (str (out ++ slice l' st0 (idx l' - 1))), l')
  else if bool_decide (ch = BACKSLASH) then
    let out1 := out ++ slice l st0 (idx l) in
    let '(esc, l') := read (adv l) in
    inl (l', idx l', out1 ++ [unescape esc])
  else inl (adv l, st0, out).

(** [None]: the string is not terminated. *)
Definition scanString (l : Lexer) : option string * Lexer :=
  let '(q, l1) := read l in
  match loop (S (left_ l1)) (scanString_body q) (l1, idx l1, []) with
  | Some r => r
  | None => (None, l1)
  end.

(** ** Tokens *)

(** A token of one byte [ch], or of two when the next byte is [c2]. *)
Definition one_or_two (c2 : ascii) (k2 : Kind) (s2 : string) (p : Pos) (l : Lexer)
    (otherwise : Lexer -> Tok * Lexer) : Tok * Lexer :=
  let l1 := adv l in
  if bool_decide (peek l1 = c2) then emit k2 s2 p (adv l1) else otherwise l1.

(** The token that starts at byte [ch], after spaces, newlines and comments
    were skipped: the switch on [ch] and the cases after it. *)
Definition scanTok (ch : ascii) (l : Lexer) : Tok * Lexer :=
  let p := lex_pos l in
  let l := set_start (idx l) l in
  let l1 := adv l in
  if bool_decide (ch = "("%char) then emit LPAREN "(" p (set_nest (par l1 + 1) (brk l1) l1)
  else if bool_decide (ch = ")"%char) then
    let pr := (if 0 <? par l1 then par l1 - 1 else par l1)%Z in
    emit RPAREN ")" p (set_nest pr (brk l1) l1)
  else if bool_decide (ch = "["%char) then emit LBRACK "[" p (set_nest (par l1) (brk l1 + 1) l1)
  else if bool_decide (ch = "]"%char) then
    let bk := (if 0 <? brk l1 then brk l1 - 1 else brk l1)%Z in
    emit RBRACK "]" p (set_nest (par l1) bk l1)
  else if bool_decide (ch = "{"%char) then emit LBRACE "{" p l1
  else if bool_decide (ch = "}"%char) then emit RBRACE "}" p l1
  else if bool_decide (ch = ","%char) then emit COMMA "," p l1
  else if bool_decide (ch = "."%char) then emit DOT "." p l1
  else if bool_decide (ch = ";"%char) then emit SEMI ";" p l1
  else if bool_decide (ch = ":"%char) then emit COLON ":" p l1
  else if bool_decide (ch = "?"%char) then one_or_two "?"%char COALESCE "??" p l (emit QUESTION "?" p)
  else if bool_decide (ch = "+"%char) then emit PLUS "+" p l1
  else if bool_decide (ch = "-"%char) then emit MINUS "-" p l1
  else if bool_decide (ch = "*"%char) then emit STAR "*" p l1
  else if bool_decide (ch = "/"%char) then emit SLASH "/" p l1
  else if bool_decide (ch = "%"%char) then emit PERCENT "%" p l1
  else if bool_decide (ch = "="%char) then one_or_two "="%char EQ "==" p l (emit ASSIGN "=" p)
  else if bool_decide (ch = "!"%char) then one_or_two "="%char NE "!=" p l (emit BANG "!" p)
  else if bool_decide (ch = "&"%char) then
    one_or_two "&"%char ANDAND "&&" p l (illegal p "unexpected '&'")
  else if bool_decide (ch = "|"%char) then
    one_or_two "|"%char OROR "||" p l (illegal p "unexpected '|'")
  else if bool_decide (ch = "<"%char) then one_or_two "="%char LE "<=" p l (emit LT "<" p)
  else if bool_decide (ch = ">"%char) then one_or_two "="%char GE ">=" p l (emit GT ">" p)
  else if bool_decide (ch = DQUOTE) || bool_decide (ch = SQUOTE) then
    match scanString l with
    | (Some s, l') => emit STRING s p l'
    | (None, l') => illegal p "unterminated string" l'
    end
  else if isIdentStart ch then
    let '(name, l') := scanIdent l in
    match kw !! name with
    | Some k => emit k name p l'
    | None => emit IDENT name p l'
    end
  else if isDigit ch then
    let '(num, l') := scanNumber l in emit NUMBER num p l'
  else illegal p ("unexpected " +:+ quote_byte ch) l1.

(** One round of the [for] loop of [Next]. *)
Definition Next_body (l : Lexer) : Lexer + Tok * Lexer :=
  if eof l then
    if negb (eofSemi l) && semiOk (last l)
    then inr (mkTok AUTO_SEMI EmptyString (lex_pos l), set_eofSemi l)
    else inr (mkTok EOF EmptyString (lex_pos l), l)
  else
    let ch := peek l in
    if bool_decide (ch = NUL) then inl (set_eof l)
    else if isSpace ch then inl (adv l)
    else if isNewline ch then
      let p := lex_pos l in
      let l1 := adv l in
      if (0 <? par l1)%Z || (0 <? brk l1)%Z then inl l1
      else if semiOk (last l1) then inr (mkTok AUTO_SEMI EmptyString p, set_last AUTO_SEMI l1)
      else inl l1
    else if bool_decide (ch = "#"%char) then inl (skipComment l)
    else inr (scanTok ch l).

(** Rounds that [Next] can make without returning: one per byte that is left,
    and one that records the end of the input. *)
Definition rounds (l : Lexer) : nat := left_ l + (if eof l then 0 else 1).

Definition Next (l : Lexer) : Tok * Lexer :=
  match pend l with
  | Some t => (t, set_last (K t) (set_pend None l))
  | None =>
      match loop (S (rounds l)) Next_body l with
      | Some r => r
      | None => (mkTok EOF EmptyString (lex_pos l), l)
      end
  end.

(** The kinds and texts of the tokens up to the first [EOF], for examples. *)
Fixpoint tokens (n : nat) (l : Lexer) : list Tok :=
  match n with
  | O => []
  | S n' => let '(t, l') := Next l in
            if decide (K t = EOF) then [t] else t :: tokens n' l'
  end.
