(* ===== verification/LexerFacts.v ===== *)
(** * Facts about the lexer: progress and termination of [Next], source
    positions against a reference definition, and automatic semicolons. *)
From stdpp Require Import base list strings gmap.
From Stdlib Require Import Ascii ZArith Lia.
From S2P Require Import Prelude GoStd Token Lexer.

Open Scope string_scope.
Open Scope nat_scope.
Open Scope list_scope.

(** ** Reading one byte *)

Lemma byte_at_lookup l i : byte_at l i <> NUL -> src l !! i = Some (byte_at l i).
Proof. unfold byte_at. by destruct (src l !! i). Qed.

Lemma byte_at_lt l i : byte_at l i <> NUL -> i < length (src l).
Proof. intros H. apply byte_at_lookup in H. by eapply lookup_lt_Some. Qed.

(** What [adv] does to the lexer, in one equation. *)
Lemma adv_eq l :
  idx l < length (src l) ->
  exists j ln cl, adv l = set_at j ln cl l /\ idx l < j <= length (src l).
Proof.
  intros Hlt. unfold adv, read.
  destruct (Nat.leb_spec (length (src l)) (idx l)); [lia|].
  destruct (Nat.ltb_spec (S (idx l)) (length (src l)));
    repeat case_bool_decide; simpl; do 3 eexists; (split; [done|lia]).
Qed.

Lemma adv_end l : length (src l) <= idx l -> adv l = l.
Proof. intros H. unfold adv, read. by destruct (Nat.leb_spec (length (src l)) (idx l)); [|lia]. Qed.

(** ** Source positions, by reference to the bytes before

    The line and column after a prefix of the source: a carriage return, a line
    feed, or the two together end a line.  The flag says that the last byte was
    a carriage return. *)
Definition posStep (st : Z * Z * bool) (b : ascii) : Z * Z * bool :=
  let '(ln, cl, cr) := st in
  if bool_decide (b = CR) then ((ln + 1)%Z, 1%Z, true)
  else if bool_decide (b = LF) then
    if cr then (ln, cl, false) else ((ln + 1)%Z, 1%Z, false)
  else (ln, (cl + 1)%Z, false).

(** The line and column of byte [k] of [bs], when byte 0 has [lc]. *)
Definition pos_at (lc : Z * Z) (bs : list ascii) (k : nat) : Z * Z :=
  fst (fold_left posStep (take k bs) (lc, false)).

(** The lexer's line and column are those of the byte it stands at, and it
    never stands between a carriage return and a line feed or past the end. *)
Definition pinv (lc : Z * Z) (l : Lexer) : Prop :=
  exists cr, fold_left posStep (take (idx l) (src l)) (lc, false) = (line l, col l, cr)
             /\ (cr = true -> src l !! idx l <> Some LF) /\ idx l <= length (src l).

Lemma pinv_pos_at lc l : pinv lc l -> pos_at lc (src l) (idx l) = (line l, col l).
Proof. intros (cr & H & _). unfold pos_at. by rewrite H. Qed.

Lemma fold_step (bs : list ascii) k b st :
  bs !! k = Some b ->
  fold_left posStep (take (S k) bs) st = posStep (fold_left posStep (take k bs) st) b.
Proof. intros H. by rewrite (take_S_r _ _ _ H), fold_left_app. Qed.

Lemma adv_pinv lc l : pinv lc l -> pinv lc (adv l).
Proof.
  intros (cr & Hf & Hcr & Hle). unfold adv, read.
  destruct (Nat.leb_spec (length (src l)) (idx l)) as [|Hlt]; [by exists cr|].
  pose proof Hlt as [b Hb]%lookup_lt_is_Some.
  pose proof (fold_step _ _ _ (lc, false) Hb) as Hs. rewrite Hf in Hs.
  unfold byte_at. rewrite Hb. simpl default. unfold pinv.
  destruct (decide (b = CR)) as [->|HnCR]; simpl in *.
  - destruct (Nat.ltb_spec (S (idx l)) (length (src l))) as [Hlt2|Hge]; simpl.
    + pose proof Hlt2 as [b2 Hb2]%lookup_lt_is_Some. rewrite Hb2. simpl.
      case_bool_decide as HLF; simpl; [|by exists true; split_and!; [|congruence|lia]].
      subst b2. exists false. rewrite (fold_step _ _ _ _ Hb2), Hs. split_and!; [done..|lia].
    + exists true. split_and!; [done| |lia]. intros _. by rewrite lookup_ge_None_2.
  - rewrite (bool_decide_false _ HnCR) in *.
    case_bool_decide as HLF; simpl; rewrite Hs; [|exists false; split_and!; [done..|lia]].
    destruct cr; [by destruct Hcr; subst|exists false; split_and!; [done..|lia]].
Qed.

(** [l'] differs from [l] only in where it stands, does not stand earlier, and
    keeps the account of its position. *)
Definition moved (l l' : Lexer) : Prop :=
  (exists j ln cl, l' = set_at j ln cl l /\ idx l <= j)
  /\ forall lc, pinv lc l -> pinv lc l'.

#[export] Instance moved_refl : Reflexive moved.
Proof. intros []. split; [by do 3 eexists|done]. Qed.
#[export] Instance moved_trans : Transitive moved.
Proof.
  intros l1 l2 l3 [(j & ln & cl & -> & ?) Hp] [(j' & ln' & cl' & -> & ?) Hp'].
  split; [|by eauto]. do 3 eexists. split; [done|]. simpl in *. lia.
Qed.

Lemma adv_moved l : moved l (adv l).
Proof.
  split; [|intros lc; apply adv_pinv].
  destruct (decide (idx l < length (src l))) as [H|H].
  - destruct (adv_eq l H) as (j & ln & cl & -> & ?). do 3 eexists; split; [done|lia].
  - rewrite adv_end by lia. destruct l. by do 3 eexists.
Qed.

Lemma while_moved n c l : moved l (while n c adv l).
Proof.
  apply (while_inv (moved l)); [|done]. intros s Hs _. etrans; [done|apply adv_moved].
Qed.

(** The measure of a loop that reads on. *)
Lemma adv_left l : peek l <> NUL -> left_ (adv l) < left_ l.
Proof.
  intros H. apply byte_at_lt in H. destruct (adv_eq l H) as (j & ln & cl & -> & ?).
  unfold left_. simpl. lia.
Qed.

Lemma moved_left l l' : moved l l' -> left_ l' <= left_ l.
Proof. intros [(j & ln & cl & -> & ?) _]. unfold left_. simpl. lia. Qed.

Lemma moved_self l : moved l l.
Proof. done. Qed.

#[export] Hint Resolve moved_self adv_moved while_moved : rts.

(** ** The scanners *)

Lemma skipComment_moved l : moved l (skipComment l).
Proof. apply while_moved. Qed.

Lemma scanDigits_moved l : moved l (scanDigits l).
Proof. apply while_moved. Qed.

Lemma scanIdent_moved l : moved (adv l) (snd (scanIdent l)).
Proof. apply while_moved. Qed.

Lemma scanNumber_moved l : moved (adv l) (snd (scanNumber l)).
Proof.
  unfold scanNumber. simpl. case_match; [|apply scanDigits_moved].
  etrans; [apply scanDigits_moved|]. etrans; [apply adv_moved|apply scanDigits_moved].
Qed.

(** The comment really is skipped: the loop stops at a newline or at the end. *)
Lemma skipComment_stops l :
  peek (skipComment l) = NUL \/ isNewline (peek (skipComment l)) = true.
Proof.
  unfold skipComment.
  set (c := fun l => negb (bool_decide (peek l = NUL) || isNewline (peek l))).
  assert (H : c (while (left_ l) c adv l) = false).
  { apply (while_exit left_); [|done]. unfold c. intros s Hs. apply adv_left.
    intros Hn. by rewrite bool_decide_true in Hs. }
  apply negb_false_iff, orb_true_iff in H as [H|H]; [left; by apply bool_decide_eq_true in H|by right].
Qed.

Lemma scanString_body_moved q l st0 out :
  match scanString_body q (l, st0, out) with
  | inl (l', _, _) => moved l l' /\ left_ l' < left_ l
  | inr (_, l') => moved l l'
  end.
Proof.
  unfold scanString_body.
  case_bool_decide as HN; simpl; [done|]. destruct (isNewline _); simpl; [done|].
  repeat case_bool_decide; simpl.
  - apply adv_moved.
  - destruct (read (adv l)) as [e l'] eqn:Hr.
    assert (l' = adv (adv l)) as -> by (unfold adv at 1; by rewrite Hr). split.
    + etrans; apply adv_moved.
    + apply adv_left in HN. pose proof (moved_left _ _ (adv_moved (adv l))). lia.
  - split; [apply adv_moved|by apply adv_left].
Qed.

(** [scanString] always returns through its loop. *)
Lemma scanString_loop q l st0 out :
  exists r, loop (S (left_ l)) (scanString_body q) (l, st0, out) = Some r /\ moved l (snd r).
Proof.
  edestruct (loop_spec (fun s => left_ s.1.1) (fun s => moved l s.1.1) (fun r => moved l (snd r))
               (scanString_body q)) as (r & Hr & HQ); [| | |by eauto].
  - intros [[l' s'] o'] Hm. simpl in Hm. pose proof (scanString_body_moved q l' s' o') as Hb.
    destruct (scanString_body q (l', s', o')) as [[[l2 s2] o2]|[o2 l2]]; simpl in *.
    + destruct Hb. split; [by etrans|done].
    + by etrans.
  - done.
  - simpl. lia.
Qed.

Lemma scanString_moved l : moved (adv l) (snd (scanString l)).
Proof.
  unfold scanString. destruct (read l) as [q l1] eqn:Hr.
  assert (adv l = l1) as -> by (unfold adv; by rewrite Hr).
  destruct (scanString_loop q l1 (idx l1) []) as (r & -> & Hm). done.
Qed.

(** ** One token *)

(** What scanning a token leaves untouched and what it sets. *)
Record scanned (l : Lexer) (t : Tok) (l' : Lexer) : Prop := {
  sc_src : src l' = src l;
  sc_path : path l' = path l;
  sc_pend : pend l' = pend l;
  sc_eof : eof l' = eof l;
  sc_eofSemi : eofSemi l' = eofSemi l;
  sc_start : start l' = idx l;
  sc_idx : idx (adv l) <= idx l';
  sc_last : last l' = K t;
  sc_pos : P t = lex_pos l;
  sc_kind : K t <> EOF /\ K t <> AUTO_SEMI;
  sc_pinv lc : pinv lc l -> pinv lc l'
}.

(** Emitting from a lexer that moved on from the token's first byte. *)
Lemma scanned_emit l k lit pr bk l1 :
  moved (adv (set_start (idx l) l)) l1 -> k <> EOF -> k <> AUTO_SEMI ->
  scanned l (mkTok k lit (lex_pos l)) (set_last k (set_nest pr bk l1)).
Proof.
  intros [(j & ln & cl & -> & Hj) Hp] ??.
  assert (Ha : adv (set_start (idx l) l) = set_start (idx l) (adv l)).
  { unfold adv, read, byte_at. simpl. by repeat (case_match; simpl). }
  rewrite Ha in *. destruct (adv_moved l) as [(j0 & ln0 & cl0 & Hl & ?) Hp0].
  constructor; simpl in *; try done; [by rewrite Hl in *|by rewrite Hl in *|..].
  all: rewrite Hl in *; simpl in *; try done.
  intros lc Hlc. apply (Hp lc), (Hp0 lc), Hlc.
Qed.

Lemma scanned_emit' l k lit l1 :
  moved (adv (set_start (idx l) l)) l1 -> k <> EOF -> k <> AUTO_SEMI ->
  scanned l (mkTok k lit (lex_pos l)) (set_last k l1).
Proof.
  intros H ??. pose proof (scanned_emit l k lit (par l1) (brk l1) l1 H) as Hs.
  replace (set_nest (par l1) (brk l1) l1) with l1 in Hs by by destruct l1. auto.
Qed.

Lemma keyword_kind name k : kw !! name = Some k -> k <> EOF /\ k <> AUTO_SEMI.
Proof. intros [H _]%kw_spec. by split; intros ->. Qed.

Definition scans (l : Lexer) (r : Tok * Lexer) : Prop := scanned l r.1 r.2.

Lemma scans_if l (b : bool) x y : scans l x -> scans l y -> scans l (if b then x else y).
Proof. by destruct b. Qed.

Lemma scans_emit l k lit l1 :
  moved (adv (set_start (idx l) l)) l1 -> k <> EOF -> k <> AUTO_SEMI ->
  scans l (emit k lit (lex_pos l) l1).
Proof. apply scanned_emit'. Qed.

Lemma scans_nest l k lit pr bk l1 :
  moved (adv (set_start (idx l) l)) l1 -> k <> EOF -> k <> AUTO_SEMI ->
  scans l (emit k lit (lex_pos l) (set_nest pr bk l1)).
Proof. apply scanned_emit. Qed.

(** The leaves of the switch: every branch reads at least one byte and emits. *)
Ltac scans_leaf :=
  lazymatch goal with
  | |- scans _ (one_or_two _ _ _ _ _ _) => unfold one_or_two; cbv zeta; apply scans_if; scans_leaf
  | |- scans _ (illegal _ _ _) => unfold illegal; apply scans_emit; [auto with rts|easy|easy]
  | |- scans _ (emit _ _ _ (set_nest _ _ _)) => apply scans_nest; [auto with rts|easy|easy]
  | |- scans _ (emit _ _ _ _) => apply scans_emit; [auto with rts|easy|easy]
  | |- scans _ _ => idtac
  end.

Lemma scanTok_spec ch l : scans l (scanTok ch l).
Proof.
  unfold scanTok. cbv zeta. do 22 (apply scans_if; [scans_leaf|]). apply scans_if.
  { pose proof (scanString_moved (set_start (idx l) l)).
    destruct (scanString _) as [[s|] l']; cbn [fst snd] in *; scans_leaf. }
  apply scans_if.
  { pose proof (scanIdent_moved (set_start (idx l) l)).
    destruct (scanIdent _) as [name l']; cbn [fst snd] in *.
    destruct (kw !! name) as [k|] eqn:Hk; [|scans_leaf].
    apply keyword_kind in Hk as []. by apply scans_emit. }
  apply scans_if; [|scans_leaf].
  pose proof (scanNumber_moved (set_start (idx l) l)).
  destruct (scanNumber _) as [num l']; cbn [fst snd] in *; scans_leaf.
Qed.

(** ** [Next] as a relation *)

(** What the rounds of [Next] that return nothing can change. *)
Record skipped (l l' : Lexer) : Prop := {
  sk_src : src l' = src l;
  sk_path : path l' = path l;
  sk_par : par l' = par l;
  sk_brk : brk l' = brk l;
  sk_last : last l' = last l;
  sk_pend : pend l' = pend l;
  sk_eofSemi : eofSemi l' = eofSemi l;
  sk_idx : idx l <= idx l';
  sk_eof : eof l = true -> l' = l;
  sk_pinv lc : pinv lc l -> pinv lc l'
}.

Lemma skipped_refl l : skipped l l.
Proof. by constructor. Qed.

Lemma skipped_trans l1 l2 l3 : skipped l1 l2 -> skipped l2 l3 -> skipped l1 l3.
Proof.
  intros [] []; constructor; try congruence; eauto; [lia|].
  intros H. rewrite <- (sk_eof0 H). apply sk_eof1. rewrite sk_eof0; auto.
Qed.

Lemma moved_skipped l l' : eof l = false -> moved l l' -> skipped l l'.
Proof. intros He [(j & ln & cl & -> & ?) ?]. constructor; simpl; try done. congruence. Qed.

Lemma set_eof_skipped l : eof l = false -> skipped l (set_eof l).
Proof. intros He. constructor; simpl; try done. congruence. Qed.

(** The ways [Next] returns from a lexer without a pending token. *)
Inductive next_out (l : Lexer) : Tok -> Lexer -> Prop :=
  | out_eof m :
      skipped l m -> eof m = true -> eofSemi m = true \/ semiOk (last m) = false ->
      next_out l (mkTok EOF EmptyString (lex_pos m)) m
  | out_eof_semi m :
      skipped l m -> eof m = true -> eofSemi m = false -> semiOk (last m) = true ->
      next_out l (mkTok AUTO_SEMI EmptyString (lex_pos m)) (set_eofSemi m)
  | out_newline m :
      skipped l m -> eof m = false -> isNewline (peek m) = true ->
      (par m <= 0)%Z -> (brk m <= 0)%Z -> semiOk (last m) = true ->
      next_out l (mkTok AUTO_SEMI EmptyString (lex_pos m)) (set_last AUTO_SEMI (adv m))
  | out_tok m :
      skipped l m -> eof m = false -> peek m <> NUL -> isSpace (peek m) = false ->
      isNewline (peek m) = false ->
      next_out l (scanTok (peek m) m).1 (scanTok (peek m) m).2.

Lemma newline_not_nul ch : isNewline ch = true -> ch <> NUL.
Proof. by intros H ->. Qed.
Lemma space_not_nul ch : isSpace ch = true -> ch <> NUL.
Proof. by intros H ->. Qed.

Lemma skipComment_left l : peek l = "#"%char -> left_ (skipComment l) < left_ l.
Proof.
  intros Hp. assert (peek l <> NUL) as HN by by rewrite Hp.
  assert (left_ l = S (pred (left_ l))) as Hl by (apply byte_at_lt in HN; unfold left_; lia).
  unfold skipComment. rewrite Hl at 1. simpl. rewrite Hp. simpl.
  eapply Nat.le_lt_trans; [apply moved_left, while_moved|by apply adv_left].
Qed.

Lemma moved_rounds l l' :
  eof l = false -> moved l l' -> left_ l' < left_ l -> rounds l' < rounds l.
Proof.
  intros He [(j & ln & cl & -> & ?) _] ?. unfold rounds. simpl. rewrite He. lia.
Qed.

Lemma Next_body_spec l :
  match Next_body l with
  | inl l' => skipped l l' /\ rounds l' < rounds l
  | inr r => next_out l r.1 r.2
  end.
Proof.
  unfold Next_body. destruct (eof l) eqn:He.
  { destruct (eofSemi l) eqn:Hs, (semiOk (last l)) eqn:Hk; simpl.
    all: first [apply out_eof_semi | apply out_eof]; auto using skipped_refl. }
  case_bool_decide as HN.
  { split; [by apply set_eof_skipped|]. unfold rounds, left_. simpl. rewrite He. lia. }
  destruct (isSpace (peek l)) eqn:Hsp.
  { split; [by apply moved_skipped, adv_moved|].
    by apply moved_rounds; [|apply adv_moved|apply adv_left]. }
  destruct (isNewline (peek l)) eqn:Hnl.
  { assert (skipped l (adv l) /\ rounds (adv l) < rounds l).
    { split; [by apply moved_skipped, adv_moved|].
      by apply moved_rounds; [|apply adv_moved|apply adv_left]. }
    destruct (adv_moved l) as [(j & ln & cl & Ha & _) _].
    destruct (_ || _) eqn:Hpb; [done|]. destruct (semiOk _) eqn:Hk; [|done]. simpl.
    apply orb_false_iff in Hpb as [?%Z.ltb_ge ?%Z.ltb_ge].
    rewrite Ha in *; simpl in *. rewrite <- Ha.
    apply out_newline; auto using skipped_refl. }
  case_bool_decide as Hc.
  { split; [by apply moved_skipped, while_moved|].
    by apply moved_rounds; [|apply while_moved|apply skipComment_left]. }
  apply out_tok; auto using skipped_refl.
Qed.

Lemma next_out_skipped l m t l' : skipped l m -> next_out m t l' -> next_out l t l'.
Proof.
  intros H Ho; destruct Ho;
    [eapply out_eof | eapply out_eof_semi | eapply out_newline | eapply out_tok];
    eauto using skipped_trans.
Qed.

(** The loop of [Next] always returns, and as [next_out] says. *)
Lemma Next_out l : pend l = None -> next_out l (Next l).1 (Next l).2.
Proof.
  intros Hp. unfold Next. rewrite Hp.
  destruct (loop_spec rounds (skipped l) (fun r => next_out l r.1 r.2) Next_body) with
    (n := S (rounds l)) (s := l) as (r & -> & Hr); [|apply skipped_refl|lia|done].
  intros s Hs. pose proof (Next_body_spec s) as Hb. destruct (Next_body s) as [s'|r].
  - destruct Hb. eauto using skipped_trans.
  - eauto using next_out_skipped.
Qed.

(** ** Progress *)

(** How many tokens other than [EOF] a lexer can still produce, at most. *)
Definition tmeas (l : Lexer) : nat :=
  left_ l + (if eofSemi l then 0 else 1) + (match pend l with Some _ => 1 | None => 0 end).

Lemma skipped_tmeas l l' : skipped l l' -> tmeas l' <= tmeas l.
Proof.
  intros []. unfold tmeas, left_. rewrite sk_src0, sk_eofSemi0, sk_pend0. lia.
Qed.

Lemma scanned_tmeas l t l' : peek l <> NUL -> scanned l t l' -> tmeas l' < tmeas l.
Proof.
  intros HN []. apply byte_at_lt in HN. destruct (adv_eq l HN) as (j & ln & cl & Ha & ?).
  rewrite Ha in sc_idx0. simpl in *. unfold tmeas, left_.
  rewrite sc_src0, sc_eofSemi0, sc_pend0. lia.
Qed.

Lemma adv_tmeas l : peek l <> NUL -> tmeas (adv l) < tmeas l.
Proof.
  intros HN%byte_at_lt. destruct (adv_eq l HN) as (j & ln & cl & -> & ?).
  unfold tmeas, left_. simpl. lia.
Qed.

(** Every token but [EOF] uses up the measure. *)
Lemma Next_tmeas l :
  tmeas (Next l).2 <= tmeas l /\ (K (Next l).1 <> EOF -> tmeas (Next l).2 < tmeas l).
Proof.
  destruct (pend l) as [t|] eqn:Hp.
  { unfold Next. rewrite Hp. unfold tmeas, left_. simpl. rewrite Hp. lia. }
  pose proof (Next_out l Hp) as Ho. revert Ho.
  generalize (Next l).1 (Next l).2. intros t l' Ho.
  destruct Ho as [m Hs|m Hs _ Hes _|m Hs _ Hn _ _ _|m Hs _ Hn _ _];
    apply skipped_tmeas in Hs; simpl.
  - done.
  - assert (tmeas (set_eofSemi m) < tmeas m) by (unfold tmeas, left_; simpl; rewrite Hes; lia). lia.
  - apply newline_not_nul, adv_tmeas in Hn.
    change (tmeas (set_last AUTO_SEMI (adv m))) with (tmeas (adv m)). lia.
  - pose proof (scanned_tmeas _ _ _ Hn (scanTok_spec (peek m) m)). lia.
Qed.

Lemma Next_pend l : pend (Next l).2 = None.
Proof.
  destruct (pend l) as [t|] eqn:Hp; [unfold Next; by rewrite Hp|].
  pose proof (Next_out l Hp) as Ho. revert Ho. generalize (Next l).1 (Next l).2. intros t l' Ho.
  destruct Ho as [m Hs|m Hs|m Hs|m Hs]; pose proof (sk_pend _ _ Hs); simpl; try congruence.
  - destruct (adv_moved m) as [(j & ln & cl & -> & _) _]. simpl. congruence.
  - pose proof (sc_pend _ _ _ (scanTok_spec (peek m) m)). congruence.
Qed.

(** The lexer after [n] tokens. *)
Definition lex_after (n : nat) (l : Lexer) : Lexer := Nat.iter n (fun l => (Next l).2) l.

Lemma lex_after_S n l : lex_after (S n) l = (Next (lex_after n l)).2.
Proof. done. Qed.

Lemma lex_after_pend n l : pend l = None -> pend (lex_after n l) = None.
Proof. intros H. destruct n; [done|]. rewrite lex_after_S. apply Next_pend. Qed.

(** [EOF] is the end: from then on [Next] returns the same token and state. *)
Lemma Next_eof_stable l :
  pend l = None -> K (Next l).1 = EOF -> Next (Next l).2 = Next l.
Proof.
  intros Hp He. pose proof (Next_out l Hp) as Ho. rewrite (surjective_pairing (Next l)) at 2.
  revert Ho He. generalize (Next l).1 (Next l).2. intros t l' Ho He.
  destruct Ho as [m Hs Hm Hk|m|m|m Hs]; try discriminate He.
  - unfold Next. rewrite (sk_pend _ _ Hs), Hp. simpl. unfold Next_body. rewrite Hm.
    destruct Hk as [-> | ->]; simpl; [done|]. by rewrite andb_false_r.
  - by destruct (sc_kind _ _ _ (scanTok_spec (peek m) m)).
Qed.

(** Lexing terminates: a source of [n] bytes yields at most [n + 1] tokens, and
    from then on [Next] keeps returning [EOF]. *)
Theorem lexer_terminates (path : string) (bs : list ascii) (pos : Pos) (n : nat) :
  length bs + 1 <= n -> K (Next (lex_after n (NewLexerAt path bs pos))).1 = EOF.
Proof.
  set (l0 := NewLexerAt path bs pos). intros Hn.
  assert (Hm : tmeas (lex_after n l0) + n <= length bs + 1
               \/ K (Next (lex_after n l0)).1 = EOF).
  { clear Hn. induction n as [|n IH].
    - left. unfold tmeas, left_. simpl. lia.
    - rewrite lex_after_S. set (l := lex_after n l0) in *.
      destruct (decide (K (Next l).1 = EOF)) as [He|He].
      + right. by rewrite (Next_eof_stable l (lex_after_pend n l0 eq_refl) He).
      + left. destruct IH; [|done]. pose proof (proj2 (Next_tmeas l) He). lia. }
  destruct Hm as [H|H]; [|done].
  destruct (decide (K (Next (lex_after n l0)).1 = EOF)) as [|He]; [done|].
  pose proof (proj2 (Next_tmeas _) He). lia.
Qed.

Lemma lexer_terminates_witness :
  K (Next (lex_after 6 (NewLexerAt "m.rts" (bytes "a + 1") NoPos))).1 = EOF.
Proof. apply (lexer_terminates "m.rts" (bytes "a + 1") NoPos 6). simpl. lia. Defined.

(** ** Positions *)

Definition clamp1 (z : Z) : Z := if (z <=? 0)%Z then 1%Z else z.

(** The line and column the first byte of a source gets. *)
Definition origin (pos : Pos) : Z * Z := (clamp1 (Line pos), clamp1 (Col pos)).

(** A token's position, its extent in the source and the lexer around it. *)
Record placed (path0 : string) (lc : Z * Z) (bs : list ascii) (l : Lexer) (t : Tok) (l' : Lexer)
    : Prop := {
  pl_path : Path (P t) = path0;
  pl_pos : exists k, idx l <= k <= idx l' /\ (Line (P t), Col (P t)) = pos_at lc bs k
             /\ (K t <> EOF /\ K t <> AUTO_SEMI -> k = start l' /\ k < idx l')
}.

Lemma Next_pinv lc l :
  pend l = None -> pinv lc l ->
  src (Next l).2 = src l /\ Lexer.path (Next l).2 = Lexer.path l /\ pinv lc (Next l).2
  /\ placed (Lexer.path l) lc (src l) l (Next l).1 (Next l).2.
Proof.
  intros Hp Hl. pose proof (Next_out l Hp) as Ho. revert Ho.
  generalize (Next l).1 (Next l).2. intros t l' Ho.
  destruct Ho as [m Hs|m Hs|m Hs _ Hn|m Hs _ Hn _ _];
    pose proof (sk_pinv _ _ Hs _ Hl) as Hm; pose proof (pinv_pos_at _ _ Hm) as Hpos;
    destruct Hs; rewrite sk_src0 in *.
  1, 2: (split; [done|]; split; [done|]; split; [done|]).
  1, 2: (split; [done|]; exists (idx m); simpl; split; [lia|]; split; [done|]; by intros []).
  - destruct (adv_moved m) as [(j & ln & cl & Ha & ?) Hmp].
    change (src (set_last AUTO_SEMI (adv m))) with (src (adv m)).
    change (Lexer.path (set_last AUTO_SEMI (adv m))) with (Lexer.path (adv m)).
    split; [by rewrite Ha|]. split; [by rewrite Ha|]. split; [by apply (Hmp lc)|].
    split; [done|]. exists (idx m). rewrite Ha. simpl.
    split; [lia|]. split; [done|]. by intros [].
  - pose proof (scanTok_spec (peek m) m) as [].
    rewrite sc_src0, sc_path0. split; [done|]. split; [done|]. split; [by apply sc_pinv0|].
    rewrite <- sk_path0. apply byte_at_lt in Hn. destruct (adv_eq m Hn) as (j & ln & cl & Ha & ?).
    rewrite Ha in sc_idx0. simpl in *.
    split; [by rewrite sc_pos0|]. exists (idx m). rewrite sc_pos0. simpl.
    split; [lia|]. split; [done|]. intros _. rewrite sc_start0. lia.
Qed.

Lemma lex_after_pinv path0 bs pos n :
  let l := lex_after n (NewLexerAt path0 bs pos) in
  src l = bs /\ Lexer.path l = path0 /\ pinv (origin pos) l.
Proof.
  induction n as [|n IH].
  - split; [done|]. split; [done|]. exists false. split_and!; [done..|simpl; lia].
  - simpl in IH. destruct IH as (Hs & Hpth & Hi). cbv zeta. rewrite lex_after_S.
    pose proof (Next_pinv _ _ (lex_after_pend n (NewLexerAt path0 bs pos) eq_refl) Hi) as (-> & -> & ? & _).
    done.
Qed.

(** Source positions are exact.  Every token of a source carries its path and
    the line and column that a reference definition assigns to a byte between
    the end of the token before and its own end, and for a token with a text
    that byte is the token's first one, [start]. *)
Theorem token_positions_exact (path0 : string) (bs : list ascii) (pos : Pos) (n : nat) :
  let l := lex_after n (NewLexerAt path0 bs pos) in
  placed path0 (origin pos) bs l (Next l).1 (Next l).2.
Proof.
  cbv zeta. destruct (lex_after_pinv path0 bs pos n) as (Hs & Hpth & Hi).
  pose proof (Next_pinv _ _ (lex_after_pend n (NewLexerAt path0 bs pos) eq_refl) Hi) as (_ & _ & _ & H).
  by rewrite Hs, Hpth in H.
Qed.

(** ** Automatic semicolons *)

(** An automatic semicolon stands only after a token that can end a statement
    and, before the end of the source, only outside parentheses and brackets;
    two never follow each other. *)
Theorem auto_semi_placement (l : Lexer) :
  pend l = None -> K (Next l).1 = AUTO_SEMI ->
  semiOk (last l) = true
  /\ (eof (Next l).2 = true \/ (par l <= 0)%Z /\ (brk l <= 0)%Z)
  /\ K (Next (Next l).2).1 <> AUTO_SEMI.
Proof.
  intros Hp Hk. pose proof (Next_pend l) as Hp'. pose proof (Next_out l Hp) as Ho. revert Ho Hk Hp'.
  generalize (Next l).1 (Next l).2. intros t l' Ho Hk Hp'.
  destruct Ho as [m|m Hs He Hes Hok|m Hs He Hn Hpar Hbrk Hok|m Hs]; try discriminate Hk.
  - rewrite <- (sk_last _ _ Hs). split; [done|]. split; [by left|].
    pose proof (Next_out _ Hp') as Ho. revert Ho. generalize (Next (set_eofSemi m)).1 (Next (set_eofSemi m)).2.
    intros t l' Ho Ht. destruct Ho as [m'|m' Hs'|m' Hs' He'|m' Hs' He' HN]; try discriminate Ht.
    + by rewrite (sk_eofSemi _ _ Hs') in *.
    + rewrite (sk_eof _ _ Hs') in He'; [|done]. simpl in He'. congruence.
    + rewrite (sk_eof _ _ Hs') in He'; [|done]. simpl in He'. congruence.
  - rewrite <- (sk_last _ _ Hs), <- (sk_par _ _ Hs), <- (sk_brk _ _ Hs).
    split; [done|]. split; [by right|].
    pose proof (Next_out _ Hp') as Ho. revert Ho.
    generalize (Next (set_last AUTO_SEMI (adv m))).1 (Next (set_last AUTO_SEMI (adv m))).2.
    intros t l' Ho Ht. destruct Ho as [m'|m' Hs'|m' Hs' He'|m' Hs' He' HN]; try discriminate Ht.
    + by rewrite (sk_last _ _ Hs') in *.
    + by rewrite (sk_last _ _ Hs') in *.
    + by destruct (sc_kind _ _ _ (scanTok_spec (peek m') m')).
  - by destruct (sc_kind _ _ _ (scanTok_spec (peek m) m)).
Qed.

(** After [a] and a line break, before [b]. *)
Definition demo_semi : Lexer := lex_after 1 (NewLexerAt EmptyString ["a"%char; LF; "b"%char] NoPos).

Lemma auto_semi_placement_witness :
  K (Next demo_semi).1 = AUTO_SEMI /\ semiOk (last demo_semi) = true
  /\ K (Next (Next demo_semi).2).1 <> AUTO_SEMI.
Proof.
  split; [vm_compute; reflexivity|].
  destruct (auto_semi_placement demo_semi) as (H1 & _ & H2); [vm_compute; reflexivity..|].
  split; assumption.
Defined.
