(* ===== verification/LexerText.v ===== *)
(** * What the lexer reads back: string literals decode to the bytes they were
    written for, and names are read whole. *)
From stdpp Require Import base list strings gmap.
From Stdlib Require Import Ascii ZArith Lia.
From S2P Require Import Prelude GoStd Token Lexer LexerFacts.

Open Scope string_scope.
Open Scope nat_scope.
Open Scope list_scope.

#[local] Arguments scanString_body : simpl never.

(** ** A printer for string literals *)

(** How to write byte [c] inside double quotes. *)
Definition escape_byte (c : ascii) : list ascii :=
  if bool_decide (c = LF) then [BACKSLASH; "n"%char]
  else if bool_decide (c = CR) then [BACKSLASH; "r"%char]
  else if bool_decide (c = TAB) then [BACKSLASH; "t"%char]
  else if bool_decide (c = DQUOTE) || bool_decide (c = BACKSLASH) || bool_decide (c = NUL)
  then [BACKSLASH; c]
  else [c].

Definition escape (s : list ascii) : list ascii := flat_map escape_byte s.

Definition literal (s : list ascii) : list ascii := DQUOTE :: escape s ++ [DQUOTE].

(** ** Reading plain bytes *)

(** The lexer one byte further on the same line. *)
Definition next_col (l : Lexer) : Lexer := set_at (S (idx l)) (line l) (col l + 1) l.

Lemma read_plain l c :
  src l !! idx l = Some c -> c <> CR -> c <> LF -> read l = (c, next_col l).
Proof.
  intros Hc HCR HLF. pose proof (lookup_lt_Some _ _ _ Hc). unfold read, byte_at. rewrite Hc.
  destruct (Nat.leb_spec (length (src l)) (idx l)); [lia|]. simpl.
  by rewrite !bool_decide_false.
Qed.

Lemma adv_plain l c :
  src l !! idx l = Some c -> c <> CR -> c <> LF -> adv l = next_col l.
Proof. intros. unfold adv. by erewrite read_plain. Qed.

Lemma drop_cons_lookup {A} (l : list A) n x r :
  drop n l = x :: r -> l !! n = Some x /\ drop (S n) l = r.
Proof.
  intros H. split.
  - rewrite <- (Nat.add_0_r n), <- lookup_drop, H. done.
  - replace (S n) with (n + 1) by lia. by rewrite <- drop_drop, H.
Qed.

Lemma peek_drop l c r : drop (idx l) (src l) = c :: r -> peek l = c.
Proof. intros [H _]%drop_cons_lookup. unfold peek, byte_at. by rewrite H. Qed.

(** ** The round trip *)

(** Bytes that stand for themselves inside double quotes. *)
Definition plain (c : ascii) : Prop :=
  c <> LF /\ c <> CR /\ c <> DQUOTE /\ c <> BACKSLASH /\ c <> NUL.

Lemma escape_byte_cases c :
  (plain c /\ escape_byte c = [c])
  \/ exists e, escape_byte c = [BACKSLASH; e] /\ unescape e = c /\ e <> CR /\ e <> LF.
Proof.
  unfold escape_byte, plain. repeat case_bool_decide; subst; simpl; try by left.
  all: right; eexists; split; [done|]; by split_and!.
Qed.

Lemma body_plain l c r st0 out :
  drop (idx l) (src l) = c :: r -> plain c ->
  scanString_body DQUOTE (l, st0, out) = inl (next_col l, st0, out).
Proof.
  intros Hd (?&?&?&?&?). pose proof (peek_drop _ _ _ Hd) as Hp.
  apply drop_cons_lookup in Hd as [Hc _].
  unfold scanString_body, isNewline. rewrite Hp, !bool_decide_false by done. simpl.
  by erewrite adv_plain.
Qed.

Lemma body_escape l e r st0 out :
  drop (idx l) (src l) = BACKSLASH :: e :: r -> e <> CR -> e <> LF ->
  scanString_body DQUOTE (l, st0, out)
  = inl (next_col (next_col l), S (S (idx l)), out ++ slice l st0 (idx l) ++ [unescape e]).
Proof.
  intros Hd ??. pose proof (peek_drop _ _ _ Hd) as Hp.
  apply drop_cons_lookup in Hd as [Hc Hd]. apply drop_cons_lookup in Hd as [He _].
  unfold scanString_body. rewrite Hp. simpl.
  rewrite (adv_plain _ _ Hc) by done. rewrite (read_plain (next_col l) e) by done. simpl.
  by rewrite app_assoc.
Qed.

Lemma body_close l r st0 out :
  drop (idx l) (src l) = DQUOTE :: r ->
  scanString_body DQUOTE (l, st0, out)
  = inr (Some (str (out ++ slice l st0 (idx l))), next_col l).
Proof.
  intros Hd. pose proof (peek_drop _ _ _ Hd) as Hp. apply drop_cons_lookup in Hd as [Hc _].
  unfold scanString_body. rewrite Hp. simpl. rewrite (adv_plain _ _ Hc) by done. simpl.
  by rewrite Nat.sub_0_r.
Qed.

(** The loop of [scanString] over an escaped string, from any point of it. *)
Lemma scanString_loop_escape r s : forall l st0 out n,
  drop (idx l) (src l) = escape s ++ DQUOTE :: r -> st0 <= idx l -> left_ l < n ->
  exists l', loop n (scanString_body DQUOTE) (l, st0, out)
             = Some (Some (str (out ++ slice l st0 (idx l) ++ s)), l')
             /\ src l' = src l /\ idx l' = idx l + length (escape s) + 1.
Proof.
  induction s as [|c s IH]; intros l st0 out n Hd Hst Hn; (destruct n as [|n]; [lia|]); simpl in *.
  - rewrite (body_close _ _ _ _ Hd). eexists. split; [by rewrite app_nil_r|].
    split; [done|simpl; lia].
  - assert (Hlt : idx l < length (src l)).
    { destruct (decide (idx l < length (src l))); [done|]. rewrite drop_ge in Hd by lia.
      symmetry in Hd. by apply app_nil in Hd as [_ ?]. }
    assert (Hn1 : left_ (next_col l) < n) by (unfold left_ in *; simpl; lia).
    destruct (escape_byte_cases c) as [[Hpl He]|(e & He & Hu & ?&?)]; rewrite He in *; simpl in *.
    + rewrite (body_plain _ _ _ _ _ Hd Hpl). apply drop_cons_lookup in Hd as [Hc Hd].
      destruct (IH (next_col l) st0 out n Hd ltac:(simpl; lia) Hn1) as (l' & -> & Hs & Hi).
      exists l'. split; [|split; [done|simpl in Hi; lia]].
      unfold slice. simpl. rewrite (take_drop_step _ _ _ _ Hst Hc). by rewrite <- !app_assoc.
    + rewrite (body_escape _ _ _ _ _ Hd) by done.
      apply drop_cons_lookup in Hd as [Hc Hd]. apply drop_cons_lookup in Hd as [Hc' Hd].
      destruct (IH (next_col (next_col l)) (S (S (idx l))) (out ++ slice l st0 (idx l) ++ [unescape e]) n)
        as (l' & -> & Hs & Hi); [done|simpl; lia|unfold left_ in *; simpl in *; lia|].
      exists l'. split; [|split; [done|simpl in Hi; lia]].
      unfold slice at 2. simpl. rewrite Nat.sub_diag, take_0, Hu. by rewrite <- !app_assoc.
Qed.

(** C39. Any byte string survives being written as a literal and lexed: the token at
    [literal s] is a [STRING] whose text is [s], and the lexer goes on right
    after the closing quote. *)
Theorem string_literal_roundtrip (l : Lexer) (s r : list ascii) :
  pend l = None -> eof l = false -> drop (idx l) (src l) = literal s ++ r ->
  exists l', Next l = (mkTok STRING (str s) (lex_pos l), l')
             /\ src l' = src l /\ drop (idx l') (src l') = r.
Proof.
  intros Hp He Hd. unfold literal in Hd. simpl in Hd. rewrite <- app_assoc in Hd. simpl in Hd.
  pose proof (peek_drop _ _ _ Hd) as Hpk. pose proof Hd as Hd0.
  apply drop_cons_lookup in Hd as [Hc Hd].
  set (l0 := set_start (idx l) l).
  destruct (scanString_loop_escape r s (next_col l0) (S (idx l)) []
              (S (left_ (next_col l0)))) as (l' & Hl & Hs & Hi); [done|simpl; lia|lia|].
  assert (Hsc : scanString l0 = (Some (str s), l')).
  { unfold scanString. rewrite (read_plain l0 DQUOTE) by done. simpl idx. rewrite Hl.
    unfold slice. simpl. by rewrite Nat.sub_diag. }
  exists (set_last STRING l'). split.
  - unfold Next. rewrite Hp. simpl. unfold Next_body. rewrite He, Hpk. simpl.
    unfold scanTok. fold l0. simpl. by rewrite Hsc.
  - split; [exact Hs|]. simpl. rewrite Hs, Hi. simpl idx.
    replace (S (idx l) + length (escape s) + 1) with (idx l + (S (length (escape s)) + 1)) by lia.
    change (src (next_col l0)) with (src l). rewrite <- drop_drop, Hd0.
    change (DQUOTE :: escape s ++ DQUOTE :: r) with ((DQUOTE :: escape s) ++ [DQUOTE] ++ r).
    rewrite app_assoc. apply drop_app_length'. rewrite length_app. simpl. lia.
Qed.

(** ** Names *)

Lemma isIdent_plain c : isIdent c = true -> c <> CR /\ c <> LF /\ c <> NUL.
Proof. intros H. by split_and!; intros ->. Qed.

(** The state of the loop of [scanIdent]: all bytes since [i0] belong to the name. *)
Definition in_name (l0 : Lexer) (i0 : nat) (l : Lexer) : Prop :=
  src l = src l0 /\ i0 <= idx l /\ Forall (fun c => isIdent c = true) (slice l i0 (idx l)).

Lemma in_name_adv l0 i0 l :
  in_name l0 i0 l -> isIdent (peek l) = true -> in_name l0 i0 (adv l).
Proof.
  intros (Hs & Hi & Hf) Hc. destruct (isIdent_plain _ Hc) as (?&?&HN).
  apply byte_at_lookup in HN. fold (peek l) in HN.
  rewrite (adv_plain _ _ HN) by done. split; [done|]. split; [simpl; lia|].
  unfold slice in *. simpl. rewrite (take_drop_step _ _ _ _ Hi HN).
  apply Forall_app. by split; [|constructor].
Qed.

Lemma scanIdent_spec l :
  isIdentStart (peek l) = true ->
  let '(name, l') := scanIdent l in
  bytes name = slice l' (idx l) (idx l') /\ Forall (fun c => isIdent c = true) (bytes name)
  /\ isIdent (peek l') = false.
Proof.
  intros Hc. unfold scanIdent. rewrite bytes_str.
  assert (Hc' : isIdent (peek l) = true) by (unfold isIdent; by rewrite Hc).
  set (c := fun l => isIdent (peek l)). set (l2 := while _ c adv _). split; [done|].
  assert (H0 : in_name l (idx l) l).
  { split; [done|]. split; [done|]. unfold slice. by rewrite Nat.sub_diag, take_0. }
  split.
  - apply (while_inv (in_name l (idx l)) c adv); [intros s; apply in_name_adv|].
    by apply in_name_adv.
  - apply (while_exit left_ c adv); [|done]. intros s Hs. apply adv_left.
    by destruct (isIdent_plain _ Hs) as (_&_&?).
Qed.

(** The name tokens: identifiers and keywords. *)
Definition isName (k : Kind) : bool := bool_decide (k = IDENT) || isKeyword k.

(** A name token is spelled with identifier bytes, is cut off by a byte that is
    none, and is a keyword exactly when the keyword table says so. *)
Definition name_ok (r : Tok * Lexer) : Prop :=
  isName (K r.1) = true ->
  bytes (Lit r.1) = slice r.2 (start r.2) (idx r.2)
  /\ Forall (fun c => isIdent c = true) (bytes (Lit r.1))
  /\ isIdent (peek r.2) = false
  /\ kw !! Lit r.1 = if isKeyword (K r.1) then Some (K r.1) else None.

Lemma name_ok_if (b : bool) x y : (b = true -> name_ok x) -> (b = false -> name_ok y) ->
  name_ok (if b then x else y).
Proof. destruct b; auto. Qed.

Lemma name_ok_other r : isName (K r.1) = false -> name_ok r.
Proof. unfold name_ok. congruence. Qed.

Lemma one_or_two_other c2 k2 s2 p l f :
  isName k2 = false -> (forall l, isName (K (f l).1) = false) ->
  name_ok (one_or_two c2 k2 s2 p l f).
Proof. intros. unfold one_or_two. cbv zeta. case_match; by apply name_ok_other. Qed.

Lemma scanTok_name_ok l : name_ok (scanTok (peek l) l).
Proof.
  unfold scanTok. cbv zeta.
  do 22 (apply name_ok_if; intros _;
         [first [by apply name_ok_other | apply one_or_two_other; done]|]).
  apply name_ok_if; intros _. { by destruct (scanString _) as [[s|] l']; apply name_ok_other. }
  apply name_ok_if; intros Hid.
  - pose proof (scanIdent_spec (set_start (idx l) l) Hid) as Hsp.
    pose proof (scanIdent_moved (set_start (idx l) l)) as [(j & ln & cl & Hl & _) _].
    destruct (scanIdent _) as [name l']. cbn [fst snd] in *. destruct Hsp as (Hb & Hf & Hx).
    assert (Hst : start l' = idx l).
    { rewrite Hl. destruct (adv_moved (set_start (idx l) l)) as [(? & ? & ? & -> & _) _]. done. }
    destruct (kw !! name) as [k|] eqn:Hk; intros _; unfold emit; cbn [fst snd K Lit]; simpl start; rewrite Hst, Hk.
    + apply kw_spec in Hk as [-> _]. done.
    + done.
  - by apply name_ok_if; intros _; [destruct (scanNumber _)|]; apply name_ok_other.
Qed.

Lemma Next_name_ok (l : Lexer) : pend l = None -> name_ok (Next l).
Proof.
  intros Hp. rewrite (surjective_pairing (Next l)).
  destruct (Next_out l Hp) as [m|m|m|m]; [by apply name_ok_other..|].
  pose proof (scanTok_name_ok m). by destruct (scanTok (peek m) m).
Qed.

(** Names are lexed by longest match and told from keywords by the table. *)
Theorem name_token_spec (l : Lexer) : pend l = None -> name_ok (Next l).
Proof. apply Next_name_ok. Qed.

(** ** A NUL byte ends the source *)

(** At a NUL byte the lexer takes the source to be over, whatever follows: it
    reports [EOF], at most after one automatic semicolon. *)
Theorem nul_ends_source (l : Lexer) :
  pend l = None -> peek l = NUL ->
  K (Next l).1 = EOF \/ K (Next l).1 = AUTO_SEMI /\ K (Next (Next l).2).1 = EOF.
Proof.
  intros Hp HN.
  assert (Hb : forall l, pend l = None -> eof l = true -> exists r,
    Next l = r /\ (K r.1 = EOF \/ K r.1 = AUTO_SEMI /\ eofSemi r.2 = true /\ eof r.2 = true /\ pend r.2 = None)).
  { clear. intros l Hp He. eexists. split; [done|]. unfold Next. rewrite Hp. simpl.
    unfold Next_body. rewrite He. destruct (_ && _); simpl; [right; by rewrite He|by left]. }
  assert (Hn : exists l1, eof l1 = true /\ pend l1 = None /\ Next l = Next l1).
  { destruct (eof l) eqn:He; [by exists l|]. exists (set_eof l). split; [done|]. split; [done|].
    unfold Next. simpl pend. rewrite Hp. unfold rounds. rewrite He. simpl.
    rewrite Nat.add_1_r. simpl. unfold Next_body at 1. rewrite He, HN. simpl.
    unfold left_ at 2. simpl. fold (left_ l). rewrite Nat.add_0_r. unfold Next_body. simpl.
    by destruct (_ && _). }
  destruct Hn as (l1 & He & Hp1 & ->). destruct (Hb l1 Hp1 He) as (r & -> & [H|(H & Hs & He' & Hp')]).
  - by left.
  - right. split; [done|]. unfold Next. rewrite Hp'. simpl. unfold Next_body. by rewrite He', Hs.
Qed.

(** ** Instances *)

Definition demo_text : list ascii := [DQUOTE; "a"%char; LF; NUL; BACKSLASH].

Lemma string_literal_roundtrip_witness :
  exists l', Next (NewLexerAt EmptyString (literal demo_text) NoPos)
             = (mkTok STRING (str demo_text) (mkPos EmptyString 1 1), l') /\ drop (idx l') (src l') = [].
Proof.
  destruct (string_literal_roundtrip (NewLexerAt EmptyString (literal demo_text) NoPos) demo_text [])
    as (l' & H & _ & Hd); [reflexivity|reflexivity|vm_compute; reflexivity|].
  exists l'. split; [exact H|exact Hd].
Defined.

Definition demo_name : Lexer := NewLexerAt EmptyString (bytes "iffy = 1") NoPos.

Lemma name_token_spec_witness :
  Lit (Next demo_name).1 = "iffy" /\ kw !! Lit (Next demo_name).1 = None.
Proof.
  split; [vm_compute; reflexivity|].
  destruct (name_token_spec demo_name eq_refl) as (_ & _ & _ & H); [vm_compute; reflexivity|exact H].
Defined.

Definition demo_nul : Lexer := NewLexerAt EmptyString (NUL :: bytes "let x = 1") NoPos.

Lemma nul_ends_source_witness : K (Next demo_nul).1 = EOF \/ K (Next (Next demo_nul).2).1 = EOF.
Proof.
  destruct (nul_ends_source demo_nul eq_refl) as [H|[_ H]]; [vm_compute; reflexivity| |];
    [left|right]; exact H.
Defined.
