(* ===== verification/Group.v ===== *)
(** * Scanning source text by tokens: masking and open groups
    (internal/rts/group.go), the module header (internal/rts/resolve.go). *)
From stdpp Require Import base list strings gmap.
From Stdlib Require Import Ascii ZArith Lia.
From S2P Require Import Prelude GoStd GoFloat Token Lexer LexerFacts.

Open Scope string_scope.
Open Scope nat_scope.
Open Scope list_scope.

(** ** Mask *)

Definition SPACE : ascii := " "%char.

(** [copy(out[st:en], src[st:en])]; [None] is the panic of a slice out of range. *)
Definition copySeg (out bs : list ascii) (st en : nat) : option (list ascii) :=
  if (st <=? en) && (en <=? length bs) then
    Some (take st out ++ take (en - st) (drop st bs) ++ drop en out)
  else None.

(** What a token does to the depth, and whether it is kept; [None] for the
    kinds that are skipped. *)
Definition maskTok (k : Kind) (depth : Z) : option (Z * bool) :=
  match k with
  | LPAREN | LBRACK | LBRACE => Some ((depth + 1)%Z, (depth =? 0)%Z)
  | RPAREN | RBRACK | RBRACE => let d := Z.max (depth - 1) 0 in Some (d, (d =? 0)%Z)
  | STRING | ILLEGAL | AUTO_SEMI => None
  | _ => Some (depth, (depth =? 0)%Z)
  end.

(** [None]: a panic, or out of fuel. *)
Fixpoint maskLoop (n : nat) (l : Lexer) (depth : Z) (out : list ascii) : option (list ascii) :=
  match n with
  | O => None
  | S n' =>
      let '(tok, l') := Next l in
      if bool_decide (K tok = EOF) then Some out
      else match maskTok (K tok) depth with
           | None => maskLoop n' l' depth out
           | Some (d, keep) =>
               if keep : bool then
                 match copySeg out (src l) (start l') (idx l') with
                 | Some out' => maskLoop n' l' d out'
                 | None => None
                 end
               else maskLoop n' l' d out
           end
  end.

Definition Mask (text : string) : option string :=
  let bs := bytes text in
  str <$> maskLoop (length bs + 2) (NewLexer EmptyString bs) 0 (replicate (length bs) SPACE).

(** ** Open groups *)

Definition closeGroup (open : list ascii) (closer : ascii) : list ascii :=
  match open with
  | c :: rest => if bool_decide (c = closer) then rest else open
  | [] => []
  end.

(** The innermost open group comes first. *)
Definition groupTok (k : Kind) (open : list ascii) : list ascii :=
  match k with
  | LPAREN => ")"%char :: open
  | LBRACK => "]"%char :: open
  | LBRACE => "}"%char :: open
  | RPAREN => closeGroup open ")"%char
  | RBRACK => closeGroup open "]"%char
  | RBRACE => closeGroup open "}"%char
  | _ => open
  end.

Fixpoint openLoop (n : nat) (l : Lexer) (open : list ascii) : option (list ascii) :=
  match n with
  | O => None
  | S n' =>
      let '(tok, l') := Next l in
      if bool_decide (K tok = EOF) then Some open else openLoop n' l' (groupTok (K tok) open)
  end.

(** The inner [None] is the rune 0. *)
Definition OpenGroup (text : string) : option (option ascii) :=
  let bs := bytes text in head <$> openLoop (length bs + 2) (NewLexer EmptyString bs) [].

(** ** The module header *)

(** [scanMod]: the position of a [module] keyword further on, if there is one. *)
Fixpoint scanMod (n : nat) (l : Lexer) : option (res ParseError (option Pos)) :=
  match n with
  | O => None
  | S n' =>
      let '(tok, l') := Next l in
      match K tok with
      | EOF => Some (Ok None)
      | ILLEGAL => Some (Er (mkParseError (P tok) (Lit tok)))
      | KW_MODULE => Some (Ok (Some (P tok)))
      | _ => scanMod n' l'
      end
  end.

(** The name after [module]. *)
Definition modName (tok nt : Tok) : res ParseError (string * Pos) :=
  if bool_decide (K nt = ILLEGAL) then Er (mkParseError (P nt) (Lit nt))
  else if isKeyword (K nt) then
    Er (mkParseError (P nt) ("module name cannot be the reserved word " +:+ Kind_String (K nt)))
  else if bool_decide (K nt = IDENT) then Ok (Lit nt, P tok)
  else Er (mkParseError (P nt) "module requires a name").

Fixpoint modHead_n (n : nat) (path : string) (l : Lexer) : option (res ParseError (string * Pos)) :=
  match n with
  | O => None
  | S n' =>
      let '(tok, l') := Next l in
      match K tok with
      | SEMI | AUTO_SEMI => modHead_n n' path l'
      | EOF => Some (Ok (EmptyString, mkPos path 0 0))
      | ILLEGAL => Some (Er (mkParseError (P tok) (Lit tok)))
      | KW_MODULE => Some (modName tok (Next l').1)
      | _ =>
          match scanMod n' l' with
          | None => None
          | Some (Er e) => Some (Er e)
          | Some (Ok (Some mp)) => Some (Er (mkParseError mp "module must appear before statements"))
          | Some (Ok None) => Some (Ok (EmptyString, mkPos path 0 0))
          end
      end
  end.

Definition modHead (path : string) (bs : list ascii) : option (res ParseError (string * Pos)) :=
  modHead_n (length bs + 2) path (NewLexer path bs).

(** ** Facts *)

(** A lexer on the way through [bs]. *)
Definition on_way (bs : list ascii) (l : Lexer) : Prop :=
  pend l = None /\ src l = bs /\ exists lc, pinv lc l.

Lemma on_way_start path bs : on_way bs (NewLexer path bs).
Proof.
  split; [done|]. split; [done|]. eexists (_, _), false. split_and!; [simpl; done|done|simpl; lia].
Qed.

Lemma on_way_next bs l :
  on_way bs l ->
  on_way bs (Next l).2 /\ idx (Next l).2 <= length bs
  /\ (K (Next l).1 <> EOF -> K (Next l).1 <> AUTO_SEMI -> start (Next l).2 <= idx (Next l).2).
Proof.
  intros (Hp & Hs & lc & Hi). destruct (Next_pinv lc l Hp Hi) as (Hs' & _ & Hi' & [_ (k & Hk & _ & Hst)]).
  rewrite Hs in Hs'. split; [split; [apply Next_pend|split; [done|by exists lc]]|].
  destruct Hi' as (cr & _ & _ & Hle). rewrite Hs' in Hle. split; [done|].
  intros H1 H2. destruct (Hst (conj H1 H2)). lia.
Qed.

(** The measure that bounds the rounds of these loops. *)
Lemma next_round n l : tmeas l < S n -> K (Next l).1 <> EOF -> tmeas (Next l).2 < n.
Proof. intros Hm Hk. pose proof (proj2 (Next_tmeas l) Hk). lia. Qed.

Lemma start_round path bs : tmeas (NewLexer path bs) < length bs + 2.
Proof. unfold tmeas, left_. simpl. lia. Qed.

(** Every byte is blank or the byte of the source. *)
Definition masked (bs out : list ascii) : Prop :=
  length out = length bs /\ forall i, i < length bs -> out !! i = Some SPACE \/ out !! i = bs !! i.

Lemma copySeg_masked bs out st en :
  masked bs out -> st <= en -> en <= length bs ->
  exists out', copySeg out bs st en = Some out' /\ masked bs out'.
Proof.
  intros [Hl Hm] H1 H2. unfold copySeg.
  rewrite (proj2 (Nat.leb_le _ _) H1), (proj2 (Nat.leb_le _ _) H2). simpl. eexists. split; [done|].
  split; [rewrite !length_app, !length_take, !length_drop; lia|]. intros i Hi.
  destruct (decide (i < st)); [|destruct (decide (i < en))].
  - rewrite lookup_app_l by (rewrite length_take; lia). rewrite lookup_take_lt by done. by apply Hm.
  - right. rewrite lookup_app_r by (rewrite length_take; lia). rewrite length_take, Nat.min_l by lia.
    rewrite lookup_app_l by (rewrite length_take, length_drop; lia).
    rewrite lookup_take_lt by lia. rewrite lookup_drop. f_equal. lia.
  - rewrite app_assoc, lookup_app_r by (rewrite length_app, !length_take, length_drop; lia).
    rewrite length_app, !length_take, length_drop, lookup_drop.
    replace (en + (i - (st `min` length out + (en - st) `min` (length bs - st)))) with i by lia. by apply Hm.
Qed.

Lemma maskLoop_masked n bs l depth out :
  on_way bs l -> tmeas l < n -> masked bs out ->
  exists out', maskLoop n l depth out = Some out' /\ masked bs out'.
Proof.
  revert l depth out. induction n as [|n IH]; intros l depth out Hw Hn Hm; [lia|]. simpl.
  pose proof (on_way_next bs l Hw) as (Hw' & Hle & Hst). pose proof (next_round n l Hn) as Hr.
  destruct (Next l) as [tok l'] eqn:E. simpl in *.
  case_bool_decide as He; [by eauto|]. specialize (Hr He).
  destruct (maskTok (K tok) depth) as [[d keep]|] eqn:Ek; [|by apply IH]. destruct keep; [|by apply IH].
  assert (HA : K tok <> AUTO_SEMI) by (intros HA; by rewrite HA in Ek).
  destruct Hw as (_ & -> & _). destruct (copySeg_masked bs out (start l') (idx l') Hm (Hst He HA) Hle)
    as (out' & -> & Hm'). by apply IH.
Qed.

Lemma str_length l : String.length (str l) = length l.
Proof. induction l; simpl; auto. Qed.

Lemma bytes_length s : length (bytes s) = String.length s.
Proof. rewrite <- (str_bytes s) at 2. by rewrite str_length. Qed.

(** Masking keeps byte offsets.  [Mask] always returns, never slices out of
    range, and returns a text of the same length in which every byte is a space
    or the byte of the source at the same offset. *)
Theorem Mask_keeps_offsets (text : string) :
  exists out, Mask text = Some out /\ String.length out = String.length text
    /\ forall i, i < String.length text ->
         bytes out !! i = Some SPACE \/ bytes out !! i = bytes text !! i.
Proof.
  assert (Hm : masked (bytes text) (replicate (length (bytes text)) SPACE)).
  { split; [apply length_replicate|]. intros i Hi. left. by apply lookup_replicate_2. }
  destruct (maskLoop_masked _ _ _ 0 _ (on_way_start EmptyString (bytes text)) (start_round _ _) Hm)
    as (out & Ho & Hl & Hb).
  exists (str out). unfold Mask. rewrite Ho. split; [done|].
  rewrite str_length, bytes_str, Hl, bytes_length. split; [done|]. intros i Hi. apply Hb. by rewrite bytes_length.
Qed.

(** The kinds of the tokens of a source, in order. *)
Fixpoint kinds (n : nat) (l : Lexer) : list Kind :=
  match n with
  | O => []
  | S n' => let '(tok, l') := Next l in
            if bool_decide (K tok = EOF) then [] else K tok :: kinds n' l'
  end.

Lemma openLoop_fold n l open :
  tmeas l < n -> openLoop n l open = Some (foldl (fun o k => groupTok k o) open (kinds n l)).
Proof.
  revert l open. induction n as [|n IH]; intros l open Hn; [lia|]. simpl.
  pose proof (next_round n l Hn) as Hr. destruct (Next l) as [tok l']. simpl in *.
  case_bool_decide as He; [done|]. simpl. apply IH. by apply Hr.
Qed.

(** Brackets that match.  [matched ks]: every opener is closed by its own
    closer, in nesting order. *)
Inductive matched : list Kind -> Prop :=
  | matched_nil : matched []
  | matched_tok k ks : groupTok k [] = [] -> (forall o, groupTok k o = o) -> matched ks -> matched (k :: ks)
  | matched_group o c ks1 ks2 :
      (o, c) ∈ [(LPAREN, RPAREN); (LBRACK, RBRACK); (LBRACE, RBRACE)] ->
      matched ks1 -> matched ks2 -> matched (o :: ks1 ++ c :: ks2).

Lemma matched_fold ks open : matched ks -> foldl (fun o k => groupTok k o) open ks = open.
Proof.
  intros Hm. revert open. induction Hm as [|k ks _ Hk _ IH|o c ks1 ks2 Hoc _ IH1 _ IH2]; intros open; simpl.
  - done.
  - by rewrite Hk, IH.
  - rewrite foldl_app. simpl. rewrite IH1.
    repeat (apply elem_of_cons in Hoc as [[= -> ->]|Hoc]; [simpl; by rewrite IH2|]). by apply elem_of_nil in Hoc.
Qed.

(** [OpenGroup] always answers; it finds no open group in a text whose brackets
    match, and in one that continues such a text with an opener and more matched
    brackets it names the closer of that opener. *)
Theorem OpenGroup_innermost (text : string) (ks1 ks2 : list Kind) (o : Kind) (c : ascii) :
  (exists r, OpenGroup text = Some r)
  /\ (matched (kinds (String.length text + 2) (NewLexer EmptyString (bytes text))) ->
      OpenGroup text = Some None)
  /\ (kinds (String.length text + 2) (NewLexer EmptyString (bytes text)) = ks1 ++ o :: ks2 ->
      (o, c) ∈ [(LPAREN, ")"%char); (LBRACK, "]"%char); (LBRACE, "}"%char)] ->
      matched ks2 -> OpenGroup text = Some (Some c)).
Proof.
  unfold OpenGroup. cbv zeta. rewrite openLoop_fold by apply start_round. rewrite bytes_length. split_and!.
  - eauto.
  - intros Hm. by rewrite (matched_fold _ _ Hm).
  - intros -> Hoc Hm. rewrite foldl_app. simpl. rewrite (matched_fold _ _ Hm).
    repeat (apply elem_of_cons in Hoc as [[= -> ->]|Hoc]; [done|]). by apply elem_of_nil in Hoc.
Qed.
