(* ===== verification/Ast.v ===== *)
(** * Syntax trees (internal/rts/ast.go), with the constructors and field order of
    the Go node types.  A pointer that may be nil is an [option]; the [Exprs]
    of a [CaseClause] is nil exactly for the default clause. *)
From stdpp Require Import base list strings.
From Stdlib Require Import ZArith.
From S2P Require Import Prelude GoStd GoFloat Token.

Set Warnings "-register-all".

Inductive LitKind : Set := LitNull | LitBool | LitNum | LitStr.

Inductive BinOp : Set :=
  | OpAdd | OpSub | OpMul | OpDiv | OpMod | OpEq | OpNe | OpLt | OpLe | OpGt | OpGe
  | OpAnd | OpOr | OpCoalesce.

Inductive UnOp : Set := UnNot | UnNeg.

#[export] Instance BinOp_eq_dec : EqDecision BinOp.
Proof. solve_decision. Defined.
#[export] Instance UnOp_eq_dec : EqDecision UnOp.
Proof. solve_decision. Defined.

Inductive Expr : Type :=
  | Ident (p : Pos) (name : string)
  | Literal (p : Pos) (kind : LitKind) (b : bool) (n : float64) (s : string)
  | Unary (p : Pos) (op : UnOp) (x : Expr)
  | Binary (p : Pos) (op : BinOp) (left right : Expr)
  | Ternary (p : Pos) (cond then_ else_ : Expr)
  | TryExpr (p : Pos) (x : Expr)
  | Call (p : Pos) (callee : Expr) (args : list Expr)
  | Index (p : Pos) (x idx : Expr)
  | Member (p : Pos) (x : Expr) (name : string)
  | ListLit (p : Pos) (elems : list Expr)
  | DictLit (p : Pos) (entries : list (Pos * string * Expr)).

(** [e.Pos()]. *)
Definition expr_pos (e : Expr) : Pos :=
  match e with
  | Ident p _ | Literal p _ _ _ _ | Unary p _ _ | Binary p _ _ _ | Ternary p _ _ _
  | TryExpr p _ | Call p _ _ | Index p _ _ | Member p _ _ | ListLit p _ | DictLit p _ => p
  end.

Record ForRange := mkForRange {
  fr_key : string;
  fr_val : string;
  fr_expr : Expr;
  fr_declare : bool
}.

Inductive Stmt : Type :=
  | LetStmt (p : Pos) (exported const : bool) (name : string) (val : Expr)
  | AssignStmt (p : Pos) (name : string) (val : Expr)
  | ReturnStmt (p : Pos) (val : option Expr)
  | ExprStmt (p : Pos) (exp : Expr)
  | FnDef (p : Pos) (exported : bool) (name : string) (params : list string) (body : Block)
  | IfStmt (p : Pos) (cond : Expr) (then_ : Block) (elifs : list (Expr * Block))
      (else_ : option Block)
  | SwitchStmt (p : Pos) (label : string) (labelPos : Pos) (tag : option Expr)
      (clauses : list CaseClause)
  | ForStmt (p : Pos) (label : string) (labelPos : Pos) (init : option Stmt)
      (cond : option Expr) (post : option Stmt) (range : option ForRange) (body : Block)
  | BreakStmt (p : Pos) (label : string)
  | ContinueStmt (p : Pos) (label : string)
with Block : Type := mkBlock (p : Pos) (stmts : list Stmt)
with CaseClause : Type := mkClause (p : Pos) (exprs : list Expr) (body : Block).

(** [s.Pos()]. *)
Definition stmt_pos (s : Stmt) : Pos :=
  match s with
  | LetStmt p _ _ _ _ | AssignStmt p _ _ | ReturnStmt p _ | ExprStmt p _ | FnDef p _ _ _ _
  | IfStmt p _ _ _ _ | SwitchStmt p _ _ _ _ | ForStmt p _ _ _ _ _ _ _ | BreakStmt p _
  | ContinueStmt p _ => p
  end.

Definition block_stmts (b : Block) : list Stmt := let 'mkBlock _ ss := b in ss.
Definition clause_exprs (c : CaseClause) : list Expr := let 'mkClause _ es _ := c in es.
Definition clause_body (c : CaseClause) : Block := let 'mkClause _ _ b := c in b.

Record Mod := mkMod { mod_path : string; mod_name : string; mod_namePos : Pos; mod_stmts : list Stmt }.
