(* ===== verification/Parser.v ===== *)
(** * The RestermScript parser (internal/rts/parser.go).

    The Go parser is a struct whose methods panic with a [ParseError] that the
    entry points recover.  Here a method is a computation in the monad [Par]: the
    parser is threaded, [PErr] is the panic, and [PFuel] says that the fuel of a
    loop or of the recursion did not suffice, which [ParserTotal.v] proves never
    to happen at the entry points. *)
From stdpp Require Import base list strings gmap.
From Stdlib Require Import Ascii ZArith Lia.
From S2P Require Import Prelude GoStd GoFloat Token Lexer LexerFacts Ast.

Open Scope string_scope.
Open Scope nat_scope.
Open Scope list_scope.

(** ** State *)

Inductive controlKind : Set := controlSwitch | controlLoop.

#[export] Instance controlKind_eq_dec : EqDecision controlKind.
Proof. solve_decision. Defined.

Record controlTarget := mkControl { ct_kind : controlKind; ct_label : string; ct_pos : Pos }.

Record stmtLabel := mkLabel { lb_name : string; lb_pos : Pos }.

Definition noLabel : stmtLabel := mkLabel EmptyString NoPos.

Record Parser := mkParser {
  lx : Lexer;
  cur : Tok;
  pk : Tok;                        (** [peek] *)
  ahead : list Tok;
  controls : list controlTarget    (** innermost last, as in the Go slice *)
}.

Definition NewParserAt (path : string) (src : list ascii) (pos : Pos) : Parser :=
  let '(t1, l1) := Next (NewLexerAt path src pos) in
  let '(t2, l2) := Next l1 in
  mkParser l2 t1 t2 [] [].

(** A bound on the tokens other than [EOF] that are still to come; it is the
    fuel of every loop and of the recursion. *)
Definition tok_weight (t : Tok) : nat := if decide (K t = EOF) then 0 else 1.

Definition pmeas (p : Parser) : nat :=
  tok_weight (cur p) + tok_weight (pk p) + list_sum (map tok_weight (ahead p)) + tmeas (lx p).

(** ** The monad *)

Inductive pres (A : Type) : Type :=
  | POk (a : A) (p : Parser)
  | PErr (e : ParseError)
  | PFuel.
Arguments POk {A} a p.
Arguments PErr {A} e.
Arguments PFuel {A}.

Definition Par (A : Type) : Type := Parser -> pres A.

Definition pret {A} (a : A) : Par A := fun p => POk a p.

Definition pbind {A B} (m : Par A) (f : A -> Par B) : Par B := fun p =>
  match m p with
  | POk a p' => f a p'
  | PErr e => PErr e
  | PFuel => PFuel
  end.

Declare Scope parser_scope.
Delimit Scope parser_scope with parser.
Notation "'let*' x := m 'in' k" := (pbind m (fun x => k))
  (at level 10, x pattern, m at level 100, k at level 200) : parser_scope.
Notation "m >> k" := (pbind m (fun _ => k)) (at level 100, k at level 200) : parser_scope.
Open Scope parser_scope.

(** [p.fail]. *)
Definition fail {A} (pos : Pos) (msg : string) : Par A := fun _ => PErr (mkParseError pos msg).

(** The loop [for { body }] with fuel from the tokens that are left. *)
Fixpoint ploop_n {St A} (n : nat) (body : St -> Par (St + A)) (s : St) : Par A :=
  match n with
  | O => fun _ => PFuel
  | S n' => let* r := body s in
            match r with
            | inl s' => ploop_n n' body s'
            | inr a => pret a
            end
  end.

Definition ploop {St A} (body : St -> Par (St + A)) (s : St) : Par A :=
  fun p => ploop_n (S (pmeas p)) body s p.

(** ** Tokens *)

(** [k == k0]. *)
Definition isK (k0 k : Kind) : bool := bool_decide (k = k0).

Definition curT : Par Tok := fun p => POk (cur p) p.
Definition curK : Par Kind := fun p => POk (K (cur p)) p.
Definition curP : Par Pos := fun p => POk (P (cur p)) p.
Definition peekK : Par Kind := fun p => POk (K (pk p)) p.

Definition isSemi (k : Kind) : bool := isK SEMI k || isK AUTO_SEMI k.

Definition next : Par unit := fun p =>
  match ahead p with
  | t :: rest => POk tt (mkParser (lx p) (pk p) t rest (controls p))
  | [] => let '(t, l) := Next (lx p) in
          POk tt (mkParser l (pk p) t [] (controls p))
  end.

(** [for len(p.ahead) < n { ... }]: exactly [n - len] more tokens are read. *)
Fixpoint fill (k : nat) (p : Parser) : Parser :=
  match k with
  | O => p
  | S k' => let '(t, l) := Next (lx p) in
            fill k' (mkParser l (cur p) (pk p) (ahead p ++ [t]) (controls p))
  end.

Definition peekN (n : nat) : Par Tok := fun p =>
  match n with
  | O => POk (cur p) p
  | 1 => POk (pk p) p
  | S (S m) =>
      let p' := fill (S m - length (ahead p)) p in
      POk (nth m (ahead p') (mkTok EOF EmptyString NoPos)) p'
  end.

(** [p.failCur]: an [ILLEGAL] token carries the lexer's own diagnostic. *)
Definition failCur {A} (fallback : string) : Par A := fun p =>
  let msg := match K (cur p) with ILLEGAL => Lit (cur p) | _ => fallback end in
  fail (P (cur p)) msg p.

Definition expect (k : Kind) : Par Tok :=
  let* t := curT in
  if isK k (K t) then next >> pret t
  else failCur ("expected " +:+ Kind_String k +:+ ", got " +:+ Kind_String (K t)).

Definition skipSemi : Par unit :=
  ploop (fun _ : unit =>
    let* k := curK in
    if isSemi k then next >> pret (inl tt) else pret (inr tt)) tt.

Definition expectSemi : Par unit :=
  let* k := curK in
  if isSemi k then next
  else failCur ("expected " +:+ Kind_String SEMI +:+ ", got " +:+ Kind_String k).

(** ** Operators *)

Definition coalesceOp (k : Kind) : option BinOp :=
  match k with COALESCE => Some OpCoalesce | _ => None end.
Definition orOp (k : Kind) : option BinOp :=
  match k with KW_OR | OROR => Some OpOr | _ => None end.
Definition andOp (k : Kind) : option BinOp :=
  match k with KW_AND | ANDAND => Some OpAnd | _ => None end.
Definition eqOp (k : Kind) : option BinOp :=
  match k with EQ => Some OpEq | NE => Some OpNe | _ => None end.
Definition cmpOp (k : Kind) : option BinOp :=
  match k with LT => Some OpLt | LE => Some OpLe | GT => Some OpGt | GE => Some OpGe | _ => None end.
Definition addOp (k : Kind) : option BinOp :=
  match k with PLUS => Some OpAdd | MINUS => Some OpSub | _ => None end.
Definition mulOp (k : Kind) : option BinOp :=
  match k with STAR => Some OpMul | SLASH => Some OpDiv | PERCENT => Some OpMod | _ => None end.
Definition unaryOp (k : Kind) : option UnOp :=
  match k with KW_NOT | BANG => Some UnNot | MINUS => Some UnNeg | _ => None end.

(** ** Expressions

    [rec_expr] and [rec_unary] stand for the recursive calls of [parseExpr] and
    [parseUnary]. *)
Section expressions.
Context (rec_expr rec_unary : Par Expr).

Definition parseBinary (operand : Par Expr) (opOf : Kind -> option BinOp) : Par Expr :=
  let* lhs := operand in
  ploop (fun lhs =>
    let* k := curK in
    match opOf k with
    | None => pret (inr lhs)
    | Some op =>
        let* pos := curP in
        next >>
        let* rhs := operand in
        pret (inl (Binary pos op lhs rhs))
    end) lhs.

(** The comma-separated arguments before the closing parenthesis. *)
Definition parseArgs : Par (list Expr) :=
  let* k := curK in
  if isK RPAREN k then pret []
  else
    ploop (fun out =>
      let* e := rec_expr in
      let out := out ++ [e] in
      let* k := curK in
      if isK COMMA k then
        next >>
        let* k := curK in
        if isK RPAREN k then pret (inr out) else pret (inl out)
      else pret (inr out)) [].

Definition parseList : Par Expr :=
  let* t := expect LBRACK in
  skipSemi >>
  let* k := curK in
  if isK RBRACK k then next >> pret (ListLit (P t) [])
  else
    let* elems := ploop (fun out =>
      let* e := rec_expr in
      let out := out ++ [e] in
      skipSemi >>
      let* k := curK in
      if isK COMMA k then
        next >> skipSemi >>
        let* k := curK in
        if isK RBRACK k then pret (inr out) else pret (inl out)
      else pret (inr out)) [] in
    expect RBRACK >> pret (ListLit (P t) elems).

Definition parseDictKey : Par string :=
  let* t := curT in
  match K t with
  | STRING | IDENT => next >> pret (Lit t)
  | k =>
      if isKeyword k then
        fail (P t) ("dict key cannot be the reserved word " +:+ Kind_String k
                          +:+ ", quote it as " +:+ quote (Kind_String k))
      else fail (P t) "dict key must be string or ident"
  end.

Definition parseDict : Par Expr :=
  let* t := expect LBRACE in
  skipSemi >>
  let* k := curK in
  if isK RBRACE k then next >> pret (DictLit (P t) [])
  else
    let* entries := ploop (fun out =>
      let* kp := curP in
      let* key := parseDictKey in
      expect COLON >>
      let* val := rec_expr in
      let out := out ++ [(kp, key, val)] in
      skipSemi >>
      let* k := curK in
      if isK COMMA k then
        next >> skipSemi >>
        let* k := curK in
        if isK RBRACE k then pret (inr out) else pret (inl out)
      else pret (inr out)) [] in
    expect RBRACE >> pret (DictLit (P t) entries).

Definition parsePrimary : Par Expr :=
  let* t := curT in
  let pos := P t in
  match K t with
  | IDENT => next >> pret (Ident pos (Lit t))
  | NUMBER =>
      next >>
      match ParseNumber (Lit t) with
      | None => fail pos "invalid number"
      | Some n => pret (Literal pos LitNum false n EmptyString)
      end
  | STRING => next >> pret (Literal pos LitStr false f_zero (Lit t))
  | KW_TRUE => next >> pret (Literal pos LitBool true f_zero EmptyString)
  | KW_FALSE => next >> pret (Literal pos LitBool false f_zero EmptyString)
  | KW_NULL => next >> pret (Literal pos LitNull false f_zero EmptyString)
  | LPAREN =>
      next >>
      let* ex := rec_expr in
      expect RPAREN >> pret ex
  | LBRACK => parseList
  | LBRACE => parseDict
  | k => failCur ("unexpected " +:+ Kind_String k)
  end.

Definition parsePostfix : Par Expr :=
  let* lhs := parsePrimary in
  ploop (fun lhs =>
    let* t := curT in
    let pos := P t in
    match K t with
    | LPAREN =>
        next >>
        let* args := parseArgs in
        expect RPAREN >> pret (inl (Call pos lhs args))
    | LBRACK =>
        next >>
        let* idx := rec_expr in
        expect RBRACK >> pret (inl (Index pos lhs idx))
    | DOT =>
        next >>
        let* t := curT in
        if isKeyword (K t) then
          fail (P t) ("field name cannot be the reserved word " +:+ Kind_String (K t)
                            +:+ ", use [" +:+ quote (Kind_String (K t)) +:+ "] instead")
        else
          let* n := expect IDENT in
          pret (inl (Member pos lhs (Lit n)))
    | _ => pret (inr lhs)
    end) lhs.

Definition parseUnaryF : Par Expr :=
  let* t := curT in
  let pos := P t in
  match K t with
  | KW_TRY => next >> let* x := rec_unary in pret (TryExpr pos x)
  | k =>
      match unaryOp k with
      | Some op => next >> let* x := rec_unary in pret (Unary pos op x)
      | None => parsePostfix
      end
  end.

Definition parseMul : Par Expr := parseBinary parseUnaryF mulOp.
Definition parseAdd : Par Expr := parseBinary parseMul addOp.
Definition parseCmp : Par Expr := parseBinary parseAdd cmpOp.
Definition parseEq : Par Expr := parseBinary parseCmp eqOp.
Definition parseAnd : Par Expr := parseBinary parseEq andOp.
Definition parseOr : Par Expr := parseBinary parseAnd orOp.
Definition parseCoalesce : Par Expr := parseBinary parseOr coalesceOp.

Definition parseTernary : Par Expr :=
  let* cond := parseCoalesce in
  let* t := curT in
  if isK QUESTION (K t) then
      next >>
      let* then_ := rec_expr in
      expect COLON >>
      let* els := rec_expr in
      pret (Ternary (P t) cond then_ els)
  else pret cond.
End expressions.

(** The recursion, with at most [n] nested expressions: [parseExpr] is
    [parseTernary] and [parseUnary] is [parseUnaryF]. *)
Fixpoint parseExpr_n (n : nat) : Par Expr * Par Expr :=
  match n with
  | O => (fun _ => PFuel, fun _ => PFuel)
  | S n' => let '(e, u) := parseExpr_n n' in (parseTernary e u, parseUnaryF e u)
  end.

Definition parseExpr : Par Expr := fun p => (parseExpr_n (S (pmeas p))).1 p.

(** [parseExprOnly]. *)
Definition parseExprOnly : Par Expr :=
  let* ex := parseExpr in
  skipSemi >>
  let* k := curK in
  if isK EOF k then pret ex
  else failCur ("unexpected " +:+ Kind_String k).

(** ** Statements

    [rec_stmt] stands for the recursive calls of [parseStmt]. *)

Definition getControls : Par (list controlTarget) := fun p => POk (controls p) p.
Definition setControls (cs : list controlTarget) : Par unit := fun p =>
  POk tt (mkParser (lx p) (cur p) (pk p) (ahead p) cs).

Definition pushControl (kind : controlKind) (lb : stmtLabel) : Par unit :=
  let* cs := getControls in
  setControls (cs ++ [mkControl kind (lb_name lb) (lb_pos lb)]).

Definition popControl : Par unit :=
  let* cs := getControls in
  setControls (take (length cs - 1) cs).

(** The innermost active target with a label. *)
Definition findControl (label : string) (cs : list controlTarget) : option controlTarget :=
  List.find (fun c => bool_decide (ct_label c = label)) (rev cs).

Definition inLoop (cs : list controlTarget) : bool :=
  existsb (fun c => bool_decide (ct_kind c = controlLoop)) cs.

(** The optional label after [break] and [continue]. *)
Definition labelRef : Par (option Tok) :=
  let* t := curT in
  if isK IDENT (K t) then next >> pret (Some t)
  else pret None.

Definition parseLet (exp isConst : bool) : Par Stmt :=
  let* t := expect (if isConst then KW_CONST else KW_LET) in
  let* name := expect IDENT in
  expect ASSIGN >>
  let* val := parseExpr in
  pret (LetStmt (P t) exp isConst (Lit name) val).

Definition parseAssign : Par Stmt :=
  let* tok := expect IDENT in
  expect ASSIGN >>
  let* val := parseExpr in
  pret (AssignStmt (P tok) (Lit tok) val).

Definition parseReturn : Par Stmt :=
  let* t := expect KW_RETURN in
  let* k := curK in
  if isK EOF k || isK RBRACE k || isSemi k
  then pret (ReturnStmt (P t) None)
  else let* val := parseExpr in pret (ReturnStmt (P t) (Some val)).

Definition parseExprStmt : Par Stmt :=
  let* pos := curP in
  let* ex := parseExpr in
  pret (ExprStmt pos ex).

Definition parseParams : Par (list string) :=
  let* k := curK in
  if isK RPAREN k then pret []
  else
    ploop (fun out =>
      let* t := curT in
      if negb (isK IDENT (K t)) then fail (P t) "expected parameter name"
      else if existsb (String.eqb (Lit t)) out then
        fail (P t) ("duplicate parameter " +:+ quote (Lit t))
      else
        let out := out ++ [Lit t] in
        next >>
        let* k := curK in
        if isK COMMA k then
          next >>
          let* k := curK in
          if isK RPAREN k then pret (inr out) else pret (inl out)
        else pret (inr out)) [].

Definition parseBreak : Par Stmt :=
  let* t := expect KW_BREAK in
  let* r := labelRef in
  let* cs := getControls in
  match r with
  | None =>
      if bool_decide (cs = []) then fail (P t) "break outside loop or switch"
      else pret (BreakStmt (P t) EmptyString)
  | Some tok =>
      match findControl (Lit tok) cs with
      | None => fail (P tok) ("undefined label " +:+ quote (Lit tok))
      | Some _ => pret (BreakStmt (P t) (Lit tok))
      end
  end.

Definition parseContinue : Par Stmt :=
  let* t := expect KW_CONTINUE in
  let* r := labelRef in
  let* cs := getControls in
  match r with
  | None =>
      if negb (inLoop cs) then fail (P t) "continue outside loop"
      else pret (ContinueStmt (P t) EmptyString)
  | Some tok =>
      match findControl (Lit tok) cs with
      | None => fail (P tok) ("undefined label " +:+ quote (Lit tok))
      | Some c =>
          if negb (bool_decide (ct_kind c = controlLoop)) then
            fail (P tok) ("continue label " +:+ quote (Lit tok) +:+ " is not a loop")
          else pret (ContinueStmt (P t) (Lit tok))
      end
  end.

Definition parseForCond : Par (option Expr) :=
  let* k := curK in
  if isSemi k then pret None else let* e := parseExpr in pret (Some e).

Definition parseForClause (allowLet : bool) (label : string) : Par Stmt :=
  let* t := curT in
  match K t with
  | KW_LET =>
      if negb allowLet then fail (P t) ("for " +:+ label +:+ " clause cannot use let")
      else parseLet false false
  | KW_CONST => fail (P t) ("for " +:+ label +:+ " clause cannot use const")
  | KW_EXPORT | KW_FN | KW_IF | KW_SWITCH | KW_FOR | KW_RETURN | KW_BREAK | KW_CONTINUE
  | KW_RANGE => fail (P t) ("invalid for " +:+ label +:+ " clause")
  | IDENT =>
      let* k := peekK in
      if isK ASSIGN k then parseAssign else parseExprStmt
  | _ => parseExprStmt
  end.

Definition parseForInit : Par Stmt := parseForClause true "init".

Definition parseForPost : Par (option Stmt) :=
  let* k := curK in
  if isK LBRACE k then pret None
  else let* s := parseForClause false "post" in pret (Some s).

(** Whether a [for] header starts a range loop; reads ahead without consuming. *)
Definition isForRangeStart : Par bool :=
  let* t := curT in
  let scan (idx : nat) : Par bool :=
    let* n := peekN (idx + 1) in
    if isK COMMA (K n) then
      let* v := peekN (idx + 2) in
      if negb (isK IDENT (K v)) then pret false
      else let* n := peekN (idx + 3) in pret (isK KW_RANGE (K n))
    else pret (isK KW_RANGE (K n)) in
  if isK KW_LET (K t) then
    let* t := peekN 1 in
    if negb (isK IDENT (K t)) then pret false else scan 1
  else if negb (isK IDENT (K t)) then pret false
  else scan 0.

Section statements.
Context (rec_stmt : Par Stmt).

Definition parseBlock : Par Block :=
  let* t := expect LBRACE in
  let* out := ploop (fun out =>
    let* c := curT in
    if isK RBRACE (K c) then pret (inr out)
    else if isK EOF (K c) then fail (P c) "unterminated block"
    else if isSemi (K c) then next >> pret (inl out)
    else
      let* st := rec_stmt in
      skipSemi >> pret (inl (out ++ [st]))) [] in
  expect RBRACE >> pret (mkBlock (P t) out).

Definition parseFn (exp : bool) : Par Stmt :=
  let* t := expect KW_FN in
  let* name := expect IDENT in
  expect LPAREN >>
  let* params := parseParams in
  expect RPAREN >>
  let* saved := getControls in
  setControls [] >>
  let* body := parseBlock in
  setControls saved >>
  pret (FnDef (P t) exp (Lit name) params body).

Definition parseIf : Par Stmt :=
  let* t := expect KW_IF in
  let* cond := parseExpr in
  let* then_ := parseBlock in
  let* elifs := ploop (fun out =>
    let* k := curK in
    if isK KW_ELIF k then
        next >>
        let* c := parseExpr in
        let* b := parseBlock in
        pret (inl (out ++ [(c, b)]))
    else pret (inr out)) [] in
  let* k := curK in
  if isK KW_ELSE k then
      next >>
      let* els := parseBlock in
      pret (IfStmt (P t) cond then_ elifs (Some els))
  else pret (IfStmt (P t) cond then_ elifs None).

Definition parseClauseBody (pos : Pos) : Par Block :=
  ploop (fun out =>
    skipSemi >>
    let* c := curT in
    if isK RBRACE (K c) || isK KW_CASE (K c) || isK KW_DEFAULT (K c)
    then pret (inr (mkBlock pos out))
    else if isK EOF (K c) then fail (P c) "unterminated switch"
    else let* st := rec_stmt in pret (inl (out ++ [st]))) [].

Definition parseCaseExprs : Par (list Expr) :=
  ploop (fun out =>
    let* c := curT in
    if isK COLON (K c) then fail (P c) "case requires an expression"
    else
        let* e := parseExpr in
        let out := out ++ [e] in
        let* k := curK in
        if isK COMMA k then next >> pret (inl out)
        else pret (inr out)) [].

Definition parseCase : Par CaseClause :=
  let* t := expect KW_CASE in
  let* exprs := parseCaseExprs in
  let* colon := expect COLON in
  let* body := parseClauseBody (P colon) in
  pret (mkClause (P t) exprs body).

Definition parseDefault : Par CaseClause :=
  let* t := expect KW_DEFAULT in
  let* colon := expect COLON in
  let* body := parseClauseBody (P colon) in
  pret (mkClause (P t) [] body).

Definition parseCaseClauses : Par (list CaseClause) :=
  ploop (fun '(out, seenDefault) =>
    skipSemi >>
    let* c := curT in
    match K c with
    | RBRACE => pret (inr out)
    | EOF => fail (P c) "unterminated switch"
    | KW_CASE => let* cl := parseCase in pret (inl (out ++ [cl], seenDefault))
    | KW_DEFAULT =>
        if (seenDefault : bool) then fail (P c) "duplicate default in switch"
        else let* cl := parseDefault in pret (inl (out ++ [cl], true))
    | k => failCur ("expected case or default, got " +:+ Kind_String k)
    end) ([], false).

Definition parseSwitch (lb : stmtLabel) : Par Stmt :=
  let* t := expect KW_SWITCH in
  let* k := curK in
  let* tag := (if isK LBRACE k then pret None
               else let* e := parseExpr in pret (Some e)) in
  expect LBRACE >>
  pushControl controlSwitch lb >>
  let* clauses := parseCaseClauses in
  popControl >>
  expect RBRACE >>
  pret (SwitchStmt (P t) (lb_name lb) (lb_pos lb) tag clauses).

Definition parseForBody (pos : Pos) (lb : stmtLabel) (init : option Stmt)
    (cond : option Expr) (post : option Stmt) (rng : option ForRange) : Par Stmt :=
  pushControl controlLoop lb >>
  let* body := parseBlock in
  popControl >>
  pret (ForStmt pos (lb_name lb) (lb_pos lb) init cond post rng body).

Definition parseForRange (pos : Pos) (lb : stmtLabel) : Par Stmt :=
  let* k := curK in
  let* decl := (if isK KW_LET k then next >> pret true else pret false) in
  let* keyTok := expect IDENT in
  let* k := curK in
  let* val := (if isK COMMA k then next >> let* valTok := expect IDENT in pret (Lit valTok)
               else pret EmptyString) in
  let key := Lit keyTok in
  if negb (bool_decide (val = EmptyString)) && bool_decide (key = val)
     && negb (bool_decide (key = "_"))
  then fail (P keyTok) "range variables must be distinct"
  else
    expect KW_RANGE >>
    let* e := parseExpr in
    parseForBody pos lb None None None (Some (mkForRange key val e decl)).

(** The tail [; cond ; post { body }] of a three-clause loop. *)
Definition parseForTail (pos : Pos) (lb : stmtLabel) (init : option Stmt) : Par Stmt :=
  next >>
  let* cond := parseForCond in
  expectSemi >>
  let* post := parseForPost in
  parseForBody pos lb init cond post None.

Definition parseFor (lb : stmtLabel) : Par Stmt :=
  let* t := expect KW_FOR in
  let pos := P t in
  let* k := curK in
  if isK LBRACE k then parseForBody pos lb None None None None
  else
    let* isRange := isForRangeStart in
    if isRange then parseForRange pos lb
    else if isSemi k then parseForTail pos lb None
    else
      let* init := parseForInit in
      let* k := curK in
      if isSemi k then parseForTail pos lb (Some init)
      else
        match init with
        | ExprStmt _ e => parseForBody pos lb None (Some e) None None
        | _ => fail (stmt_pos init) "for condition must be expression"
        end.

Definition parseLabeled : Par Stmt :=
  let* tok := curT in
  if bool_decide (Lit tok = "_") then fail (P tok) ("invalid label " +:+ quote (Lit tok))
  else
    let* cs := getControls in
    match findControl (Lit tok) cs with
    | Some t =>
        fail (P tok) ("duplicate label " +:+ quote (Lit tok) +:+ ", active since "
                      +:+ itoa (Line (ct_pos t)) +:+ ":" +:+ itoa (Col (ct_pos t)))
    | None =>
        next >> next >>
        let lb := mkLabel (Lit tok) (P tok) in
        let* k := curK in
        match k with
        | KW_FOR => parseFor lb
        | KW_SWITCH => parseSwitch lb
        | k => failCur ("label must be followed by for or switch, got " +:+ Kind_String k)
        end
    end.

Definition parseExport : Par Stmt :=
  expect KW_EXPORT >>
  let* t := curT in
  match K t with
  | KW_LET => parseLet true false
  | KW_CONST => parseLet true true
  | KW_FN => parseFn true
  | _ => fail (P t) "export must be followed by let, const, or fn"
  end.

Definition parseStmtF : Par Stmt :=
  let* t := curT in
  match K t with
  | KW_EXPORT => parseExport
  | KW_LET => parseLet false false
  | KW_CONST => parseLet false true
  | KW_FN => parseFn false
  | KW_IF => parseIf
  | KW_SWITCH => parseSwitch noLabel
  | KW_CASE => fail (P t) "case outside switch body"
  | KW_DEFAULT => fail (P t) "default outside switch body"
  | KW_FOR => parseFor noLabel
  | KW_BREAK => parseBreak
  | KW_CONTINUE => parseContinue
  | KW_RETURN => parseReturn
  | IDENT =>
      let* k := peekK in
      if isK ASSIGN k then parseAssign
      else if isK COLON k then parseLabeled
      else parseExprStmt
  | _ => parseExprStmt
  end.
End statements.

Fixpoint parseStmt_n (n : nat) : Par Stmt :=
  match n with
  | O => fun _ => PFuel
  | S n' => parseStmtF (parseStmt_n n')
  end.

Definition parseStmt : Par Stmt := fun p => parseStmt_n (S (pmeas p)) p.

(** ** Modules *)

Definition parseModDecl : Par (string * Pos) :=
  let* t := expect KW_MODULE in
  let* c := curT in
  if isKeyword (K c) then
    fail (P c) ("module name cannot be the reserved word " +:+ Kind_String (K c))
  else if negb (isK IDENT (K c)) then fail (P c) "module requires a name"
  else next >> pret (Lit c, P t).

Definition parseMod : Par Mod := fun p =>
  ploop (fun m =>
    let* c := curT in
    if isK EOF (K c) then pret (inr m)
    else if isSemi (K c) then next >> pret (inl m)
    else if isK KW_MODULE (K c) then
      if negb (bool_decide (mod_name m = EmptyString)) || negb (bool_decide (length (mod_stmts m) = 0))
      then fail (P c) "module must appear before statements"
      else
        let* d := parseModDecl in
        skipSemi >> pret (inl (mkMod (mod_path m) d.1 d.2 (mod_stmts m)))
    else
      let* st := parseStmt in
      skipSemi >>
      pret (inl (mkMod (mod_path m) (mod_name m) (mod_namePos m) (mod_stmts m ++ [st]))))
    (mkMod (Lexer.path (lx p)) EmptyString NoPos []) p.

(** ** Entry points: the value or the recovered [ParseError].  [None] would be
    an exhausted fuel. *)

Definition run {A} (m : Par A) (p : Parser) : option (res ParseError A) :=
  match m p with
  | POk a _ => Some (Ok a)
  | PErr e => Some (Er e)
  | PFuel => None
  end.

Definition ParseModuleAt (path : string) (src : list ascii) (pos : Pos) : option (res ParseError Mod) :=
  run parseMod (NewParserAt path src pos).

Definition ParseModule (path : string) (src : list ascii) : option (res ParseError Mod) :=
  ParseModuleAt path src (mkPos EmptyString 1 1).

Definition ParseExpr (path : string) (line col : Z) (src : string) : option (res ParseError Expr) :=
  run parseExprOnly (NewParserAt path (bytes src) (mkPos EmptyString line col)).
