(* ===== verification/Scope.v ===== *)
(** * Static well-formedness of syntax trees: what the parser guarantees and the
    virtual machine relies on.

    Every [break] and [continue] names, or reaches, an enclosing target; the
    parameters of a function are distinct; a switch has at most one default
    clause; the init and post statements of a loop are plain. *)
From stdpp Require Import base list strings gmap.
From Stdlib Require Import ZArith Lia.
From S2P Require Import Prelude GoStd GoFloat Token Lexer LexerFacts Ast Parser.

Open Scope nat_scope.
Open Scope list_scope.

(** A [break] may leave: the nearest target, or the named one. *)
Definition break_ok (cs : list controlTarget) (label : string) : bool :=
  if bool_decide (label = EmptyString) then negb (bool_decide (cs = []))
  else bool_decide (is_Some (findControl label cs)).

(** A [continue] may resume: the nearest loop, or the named loop. *)
Definition continue_ok (cs : list controlTarget) (label : string) : bool :=
  if bool_decide (label = EmptyString) then inLoop cs
  else match findControl label cs with
       | Some c => bool_decide (ct_kind c = controlLoop)
       | None => false
       end.

Definition is_default (c : CaseClause) : bool :=
  match clause_exprs c with [] => true | _ => false end.

(** What may stand in the header of a three-clause loop. *)
Definition plain_stmt (s : Stmt) : bool :=
  match s with LetStmt _ _ _ _ _ | AssignStmt _ _ _ | ExprStmt _ _ => true | _ => false end.

Definition opt_all {A} (f : A -> bool) (o : option A) : bool :=
  match o with Some a => f a | None => true end.

Fixpoint wf_stmt (cs : list controlTarget) (s : Stmt) : bool :=
  match s with
  | LetStmt _ _ _ _ _ | AssignStmt _ _ _ | ReturnStmt _ _ | ExprStmt _ _ => true
  | FnDef _ _ _ params body => bool_decide (NoDup params) && wf_block [] body
  | IfStmt _ _ th elifs els =>
      wf_block cs th && forallb (fun e => wf_block cs e.2) elifs
      && match els with Some b => wf_block cs b | None => true end
  | SwitchStmt _ lb lp _ clauses =>
      forallb (wf_clause (cs ++ [mkControl controlSwitch lb lp])) clauses
      && (length (List.filter is_default clauses) <=? 1)
  | ForStmt _ lb lp init _ post _ body =>
      opt_all plain_stmt init && opt_all plain_stmt post
      && wf_block (cs ++ [mkControl controlLoop lb lp]) body
  | BreakStmt _ l => break_ok cs l
  | ContinueStmt _ l => continue_ok cs l
  end
with wf_block (cs : list controlTarget) (b : Block) : bool :=
  let 'mkBlock _ ss := b in forallb (wf_stmt cs) ss
with wf_clause (cs : list controlTarget) (c : CaseClause) : bool :=
  let 'mkClause _ _ b := c in wf_block cs b.

Definition wf_mod (m : Mod) : bool := forallb (wf_stmt []) (mod_stmts m).

(** ** Lemmas *)

Lemma plain_wf cs s : plain_stmt s = true -> wf_stmt cs s = true.
Proof. by destruct s. Qed.

Lemma forallb_snoc {A} (f : A -> bool) l x :
  forallb f l = true -> f x = true -> forallb f (l ++ [x]) = true.
Proof. intros ??. rewrite forallb_app. simpl. by rewrite H, H0. Qed.

(** Entering a target: the signals it does not take stay valid outside. *)
Lemma findControl_snoc label cs c :
  findControl label (cs ++ [c])
  = if bool_decide (ct_label c = label) then Some c else findControl label cs.
Proof. unfold findControl. rewrite rev_app_distr. done. Qed.

Lemma inLoop_snoc cs c :
  inLoop (cs ++ [c]) = inLoop cs || bool_decide (ct_kind c = controlLoop).
Proof. unfold inLoop. rewrite existsb_app. simpl. by rewrite orb_false_r. Qed.

(** A [break] that target [c] does not take is valid outside [c]. *)
Lemma break_ok_leave cs c label :
  break_ok (cs ++ [c]) label = true -> label <> EmptyString -> label <> ct_label c ->
  break_ok cs label = true.
Proof.
  unfold break_ok. intros H Hne Hl.
  rewrite (bool_decide_false (label = EmptyString)) in * by done.
  rewrite findControl_snoc, (bool_decide_false (ct_label c = label)) in H by congruence. done.
Qed.

(** A [continue] passes a switch. *)
Lemma continue_ok_switch cs lb lp label :
  continue_ok (cs ++ [mkControl controlSwitch lb lp]) label = true -> continue_ok cs label = true.
Proof.
  unfold continue_ok. case_bool_decide.
  - rewrite inLoop_snoc. simpl. by rewrite orb_false_r.
  - rewrite findControl_snoc. simpl. by case_bool_decide.
Qed.

(** A [continue] that loop [c] does not take is valid outside [c]. *)
Lemma continue_ok_leave cs c label :
  continue_ok (cs ++ [c]) label = true -> label <> EmptyString -> label <> ct_label c ->
  continue_ok cs label = true.
Proof.
  unfold continue_ok. intros H Hne Hl.
  rewrite (bool_decide_false (label = EmptyString)) in * by done.
  rewrite findControl_snoc, (bool_decide_false (ct_label c = label)) in H by congruence. done.
Qed.
