(* ===== verification/ParserTotal.v ===== *)
(** * The parser always answers, and only with well-formed trees.

    One traversal of the parser shows, for every method, that the fuel of its
    loops and of its recursion suffices, that it uses up tokens, that it leaves
    the stack of enclosing targets as it found it, and that the tree it builds
    is well formed for that stack ([Scope.wf_stmt]). *)
From stdpp Require Import base list strings gmap.
From Stdlib Require Import Ascii ZArith Lia.
From S2P Require Import Prelude GoStd GoFloat Token Lexer LexerFacts Ast Parser Scope.

Open Scope nat_scope.
Open Scope list_scope.

(** ** Weakest preconditions: no panic is excluded, an exhausted fuel is. *)

Definition wpp {A} (m : Par A) (p : Parser) (Q : A -> Parser -> Prop) : Prop :=
  match m p with
  | POk a p' => Q a p'
  | PErr _ => True
  | PFuel => False
  end.

Lemma wpp_ret {A} (a : A) p (Q : A -> Parser -> Prop) : Q a p -> wpp (pret a) p Q.
Proof. done. Qed.

Lemma wpp_bind {A B} (m : Par A) (f : A -> Par B) p Q :
  wpp m p (fun a p' => wpp (f a) p' Q) -> wpp (pbind m f) p Q.
Proof. unfold wpp, pbind. by destruct (m p). Qed.

Lemma wpp_mono {A} (m : Par A) p (Q R : A -> Parser -> Prop) :
  wpp m p Q -> (forall a p', Q a p' -> R a p') -> wpp m p R.
Proof. unfold wpp. destruct (m p); auto. Qed.

(** [p'] is at least [d] tokens further on than [p], inside the same targets. *)
Definition step (d : nat) (p p' : Parser) : Prop :=
  controls p' = controls p /\ pmeas p' + d <= pmeas p.

Lemma wpp_loop {St A} (I : St -> Parser -> Prop) (body : St -> Par (St + A)) s p Q :
  I s p ->
  (forall s p', I s p' -> pmeas p' <= pmeas p ->
     wpp (body s) p' (fun r p'' =>
       match r with inl s' => I s' p'' /\ pmeas p'' < pmeas p' | inr a => Q a p'' end)) ->
  wpp (ploop body s) p Q.
Proof.
  intros HI Hb. unfold wpp, ploop.
  assert (H : forall n s p', I s p' -> pmeas p' <= pmeas p -> pmeas p' < n ->
            wpp (ploop_n n body s) p' Q).
  { intros n. induction n as [|n IH]; intros s1 p1 HI1 Hle Hlt; [lia|]. simpl.
    apply wpp_bind. eapply wpp_mono; [by apply Hb|]. intros [s2|a] p2.
    - intros [HI2 Hm]. apply IH; [done|lia|lia].
    - intros HQ. by apply wpp_ret. }
  apply (H (S (pmeas p)) s p HI); lia.
Qed.

(** ** Tokens *)

Lemma wpp_curT p (Q : Tok -> Parser -> Prop) : Q (cur p) p -> wpp curT p Q.
Proof. done. Qed.
Lemma wpp_curK p (Q : Kind -> Parser -> Prop) : Q (K (cur p)) p -> wpp curK p Q.
Proof. done. Qed.
Lemma wpp_curP p (Q : Pos -> Parser -> Prop) : Q (P (cur p)) p -> wpp curP p Q.
Proof. done. Qed.
Lemma wpp_peekK p (Q : Kind -> Parser -> Prop) : Q (K (pk p)) p -> wpp peekK p Q.
Proof. done. Qed.
Lemma wpp_getControls p (Q : list controlTarget -> Parser -> Prop) : Q (controls p) p -> wpp getControls p Q.
Proof. done. Qed.

Lemma weight_lexer l : tok_weight (Next l).1 + tmeas (Next l).2 <= tmeas l.
Proof.
  destruct (Next_tmeas l) as [Hle Hlt]. unfold tok_weight. case_decide; [lia|].
  apply Hlt in H. lia.
Qed.

Lemma next_spec p :
  exists p', next p = POk tt p' /\ controls p' = controls p
             /\ pmeas p' + tok_weight (cur p) <= pmeas p.
Proof.
  unfold next. destruct (ahead p) as [|t r] eqn:Ha.
  - pose proof (weight_lexer (lx p)). destruct (Next (lx p)) as [t l].
    eexists; split; [done|]. split; [done|]. unfold pmeas. rewrite Ha. simpl in *. lia.
  - eexists; split; [done|]. split; [done|]. unfold pmeas. rewrite Ha. simpl. lia.
Qed.

Lemma wpp_next p Q :
  (forall p', step 0 p p' -> Q tt p') -> wpp next p Q.
Proof.
  intros H. destruct (next_spec p) as (p' & Hn & ? & ?). unfold wpp. rewrite Hn.
  apply H. split; [done|lia].
Qed.

Lemma wpp_next_strict p Q :
  K (cur p) <> EOF -> (forall p', step 1 p p' -> Q tt p') -> wpp next p Q.
Proof.
  intros Hk H. destruct (next_spec p) as (p' & Hn & ? & Hm). unfold wpp. rewrite Hn.
  apply H. split; [done|]. unfold tok_weight in Hm. case_decide; [done|lia].
Qed.

Lemma fill_spec k p : controls (fill k p) = controls p /\ pmeas (fill k p) <= pmeas p.
Proof.
  revert p. induction k as [|k IH]; intros p; [done|]. simpl.
  pose proof (weight_lexer (lx p)). destruct (Next (lx p)) as [t l]. simpl in *.
  destruct (IH (mkParser l (cur p) (pk p) (ahead p ++ [t]) (controls p))) as [-> Hm].
  split; [done|]. unfold pmeas in *. simpl in *.
  rewrite map_app, list_sum_app in Hm. simpl in Hm. lia.
Qed.

Lemma fill_cur k p : cur (fill k p) = cur p.
Proof.
  revert p. induction k as [|k IH]; intros p; [done|]. simpl.
  destruct (Next (lx p)) as [t l]. by rewrite IH.
Qed.

Lemma wpp_peekN n p (Q : Tok -> Parser -> Prop) :
  (forall t p', step 0 p p' -> cur p' = cur p -> Q t p') -> wpp (peekN n) p Q.
Proof.
  intros H. unfold wpp, peekN. destruct n as [|[|m]].
  - apply H; [split; [done|lia]|done].
  - apply H; [split; [done|lia]|done].
  - destruct (fill_spec (S m - length (ahead p)) p). apply H; [split; [done|lia]|apply fill_cur].
Qed.

Lemma isK_true k k' : isK k k' = true -> k' = k.
Proof. apply bool_decide_eq_true. Qed.

Lemma isSemi_eof k : isSemi k = true -> k <> EOF.
Proof. by intros H ->. Qed.

Lemma wpp_expect k p Q :
  k <> EOF -> (forall t p', K t = k -> step 1 p p' -> Q t p') -> wpp (expect k) p Q.
Proof.
  intros Hk H. unfold expect. apply wpp_bind. apply wpp_curT.
  destruct (isK k (K (cur p))) eqn:E; [|done].
  apply isK_true in E. apply wpp_bind. apply wpp_next_strict; [congruence|]. intros p' Hp.
  apply wpp_ret. auto.
Qed.

Lemma wpp_skipSemi p Q : (forall p', step 0 p p' -> Q tt p') -> wpp skipSemi p Q.
Proof.
  intros H. unfold skipSemi. apply (wpp_loop (fun _ p' => step 0 p p')); [split; [done|lia]|].
  intros [] p1 [Hc Hm] _. apply wpp_bind. apply wpp_curK.
  destruct (isSemi _) eqn:E.
  - apply wpp_bind. apply wpp_next_strict; [by apply isSemi_eof|]. intros p2 [Hc' Hm'].
    apply wpp_ret. split; [|lia]. split; [congruence|lia].
  - apply wpp_ret, H. split; [done|lia].
Qed.

Lemma wpp_expectSemi p Q : (forall p', step 1 p p' -> Q tt p') -> wpp expectSemi p Q.
Proof.
  intros H. unfold expectSemi. apply wpp_bind. apply wpp_curK.
  destruct (isSemi _) eqn:E; [|done]. apply wpp_next_strict; [by apply isSemi_eof|auto].
Qed.

(** ** Automation

    [pgo] runs the rules above over a method; at a call of another method it
    looks for its specification in the hint database [parser]. *)
Create HintDb parser discriminated.

Ltac not_eof :=
  solve [congruence | match goal with
                      | H : isSemi (K (cur ?p)) = true |- K (cur ?p) <> EOF => by apply isSemi_eof
                      end ].

Ltac pstep :=
  lazymatch goal with
  | |- wpp (pbind _ _) _ _ => apply wpp_bind
  | |- wpp (pret _) _ _ => apply wpp_ret
  | |- wpp curT _ _ => apply wpp_curT
  | |- wpp curK _ _ => apply wpp_curK
  | |- wpp curP _ _ => apply wpp_curP
  | |- wpp peekK _ _ => apply wpp_peekK
  | |- wpp getControls _ _ => apply wpp_getControls
  | |- wpp (fail _ _) _ _ => exact I
  | |- wpp (failCur _) _ _ => exact I
  | |- wpp next _ _ =>
      first [ apply wpp_next_strict; [not_eof|] | apply wpp_next ]; intros
  | |- wpp (expect _) _ _ => apply wpp_expect; [done|]; intros
  | |- wpp skipSemi _ _ => apply wpp_skipSemi; intros
  | |- wpp expectSemi _ _ => apply wpp_expectSemi; intros
  | |- wpp (peekN _) _ _ => apply wpp_peekN; intros
  | |- wpp (if isK ?k ?x then _ else _) _ _ =>
      let E := fresh "E" in destruct (isK k x) eqn:E; [apply isK_true in E|]
  | |- wpp (if ?b then _ else _) _ _ => let E := fresh "E" in destruct b eqn:E
  | |- wpp (match ?x with _ => _ end) _ _ => let E := fresh "E" in destruct x eqn:E
  end; cbv beta.

Ltac steps_in :=
  repeat match goal with H : step _ _ _ |- _ => destruct H as [? ?] end.

Ltac pfin := unfold step in *; destruct_and?; split_and?; solve [congruence | lia].

(** ** Expressions *)

(** From parsers with measure below [n], [m] answers after at least [d] tokens. *)
Definition yields {A} (d n : nat) (m : Par A) : Prop :=
  forall p (Q : A -> Parser -> Prop),
    pmeas p < n -> (forall a p', step d p p' -> Q a p') -> wpp m p Q.

(** Using the specification [H] of the method at the head of the goal. *)
Ltac pcall H := eapply H; [steps_in; simpl in *; lia|]; intros; cbv beta.

Lemma yields_weaken {A} d n n' (m : Par A) : n' <= n -> yields d n m -> yields d n' m.
Proof. intros Hn H p Q Hp HQ. apply H; [lia|done]. Qed.

Lemma parseBinary_yields n operand opOf :
  yields 1 n operand -> opOf EOF = None -> yields 1 n (parseBinary operand opOf).
Proof.
  intros Ho Hop p Q Hp HQ. unfold parseBinary. pstep. pcall Ho.
  apply (wpp_loop (fun _ => step 1 p)); [done|]. intros lhs p1 Hs1 Hle.
  repeat pstep; [|by apply HQ]. pcall Ho. repeat pstep. split; pfin.
Qed.

Section expr_facts.
Context (n : nat) (e u : Par Expr).
Hypothesis (He : yields 1 n e) (Hu : yields 1 n u).

Lemma parseArgs_yields : yields 0 n (parseArgs e).
Proof.
  intros p Q Hp HQ. unfold parseArgs. do 3 pstep; [apply HQ; pfin|].
  apply (wpp_loop (fun _ => step 0 p)); [pfin|]. intros out p1 Hs1 Hle.
  pstep. pcall He. repeat pstep.
  - apply HQ; pfin.
  - split; pfin.
  - apply HQ; pfin.
Qed.

Lemma parseList_yields : yields 1 (S n) (parseList e).
Proof.
  intros p Q Hp HQ. unfold parseList. do 7 pstep.
  - repeat pstep. apply HQ; pfin.
  - pstep. apply (wpp_loop (fun _ => step 1 p)); [pfin|]. intros out p1 Hs1 Hle.
    pstep. pcall He. repeat pstep.
    + apply HQ; pfin.
    + split; pfin.
    + apply HQ; pfin.
Qed.

Lemma parseDictKey_yields : yields 1 (S n) parseDictKey.
Proof.
  intros p Q _ HQ. unfold parseDictKey.
  do 2 pstep. destruct (K (cur p)) eqn:E; repeat pstep; apply HQ; pfin.
Qed.

Lemma parseDict_yields : yields 1 (S n) (parseDict e).
Proof.
  intros p Q Hp HQ. unfold parseDict. do 7 pstep.
  - repeat pstep. apply HQ; pfin.
  - pstep. apply (wpp_loop (fun _ => step 1 p)); [pfin|]. intros out p1 Hs1 Hle.
    do 3 pstep. pcall parseDictKey_yields. do 3 pstep. pcall He. repeat pstep.
    + apply HQ; pfin.
    + split; pfin.
    + apply HQ; pfin.
Qed.

Lemma parsePrimary_yields : yields 1 (S n) (parsePrimary e).
Proof.
  intros p Q Hp HQ. unfold parsePrimary. do 2 pstep. cbv zeta.
  destruct (K (cur p)) eqn:E; try exact I;
    try (apply parseList_yields; done); try (apply parseDict_yields; done);
    try (repeat pstep; by apply HQ).
  repeat pstep. pcall He. repeat pstep. apply HQ; pfin.
Qed.

Lemma parsePostfix_yields : yields 1 (S n) (parsePostfix e).
Proof.
  intros p Q Hp HQ. unfold parsePostfix. pstep. apply parsePrimary_yields; [done|]. intros x p0 Hs0.
  apply (wpp_loop (fun _ => step 1 p)); [done|]. intros lhs p1 Hs1 Hle.
  do 2 pstep. cbv zeta. destruct (K (cur p1)) eqn:E; try (repeat pstep; by apply HQ).
  - do 3 pstep. pcall parseArgs_yields. repeat pstep. split; pfin.
  - do 3 pstep. pcall He. repeat pstep. split; pfin.
  - repeat pstep. split; pfin.
Qed.

Lemma parseUnaryF_yields : yields 1 (S n) (parseUnaryF e u).
Proof.
  intros p Q Hp HQ. unfold parseUnaryF. do 2 pstep. cbv zeta.
  destruct (K (cur p)) eqn:E; cbn [unaryOp];
    try (by apply parsePostfix_yields);
    (do 3 pstep; pcall Hu; repeat pstep; apply HQ; pfin).
Qed.

Lemma parseCoalesce_yields : yields 1 (S n) (parseCoalesce e u).
Proof. repeat (apply parseBinary_yields; [|done]). apply parseUnaryF_yields. Qed.

Lemma parseTernary_yields : yields 1 (S n) (parseTernary e u).
Proof.
  intros p Q Hp HQ. unfold parseTernary. pstep. apply parseCoalesce_yields; [done|].
  intros c p1 Hs1. do 3 pstep; [|pstep; by apply HQ].
  do 3 pstep. pcall He. repeat pstep. pcall He. repeat pstep. apply HQ; pfin.
Qed.
End expr_facts.

Lemma parseExpr_n_yields n : yields 1 n (parseExpr_n n).1 /\ yields 1 n (parseExpr_n n).2.
Proof.
  induction n as [|n [IHe IHu]]; [by split; intros p Q Hp; lia|].
  simpl. destruct (parseExpr_n n) as [e u]. simpl in *.
  split; [by apply parseTernary_yields|by apply parseUnaryF_yields].
Qed.

(** [parseExpr] answers from every state, after at least one token. *)
Lemma wpp_parseExpr p (Q : Expr -> Parser -> Prop) :
  (forall e p', step 1 p p' -> Q e p') -> wpp parseExpr p Q.
Proof. intros HQ. apply (proj1 (parseExpr_n_yields (S (pmeas p)))); [lia|done]. Qed.

(** ** Statements *)

(** From parsers with measure below [n], [m] answers after a token and with a
    tree that is well formed for the targets around it. *)
Definition builds {A} (wf : list controlTarget -> A -> bool) (n : nat) (m : Par A) : Prop :=
  forall p (Q : A -> Parser -> Prop),
    pmeas p < n ->
    (forall a p', step 1 p p' -> wf (controls p) a = true -> Q a p') -> wpp m p Q.

Ltac pexpr := apply wpp_parseExpr; intros; cbv beta.

Lemma parseLet_builds n exp c : builds wf_stmt n (parseLet exp c).
Proof.
  intros p Q _ HQ. unfold parseLet. pstep. apply wpp_expect; [by destruct c|]. intros.
  repeat pstep. pexpr. pstep. apply HQ; [pfin|done].
Qed.

Lemma parseLet_plain p exp c (Q : Stmt -> Parser -> Prop) :
  (forall a p', step 1 p p' -> plain_stmt a = true -> Q a p') -> wpp (parseLet exp c) p Q.
Proof.
  intros HQ. unfold parseLet. pstep. apply wpp_expect; [by destruct c|]. intros.
  repeat pstep. pexpr. pstep. apply HQ; [pfin|done].
Qed.

Lemma parseAssign_plain p (Q : Stmt -> Parser -> Prop) :
  (forall a p', step 1 p p' -> plain_stmt a = true -> Q a p') -> wpp parseAssign p Q.
Proof.
  intros HQ. unfold parseAssign. repeat pstep. pexpr. pstep. apply HQ; [pfin|done].
Qed.

Lemma parseExprStmt_plain p (Q : Stmt -> Parser -> Prop) :
  (forall a p', step 1 p p' -> plain_stmt a = true -> Q a p') -> wpp parseExprStmt p Q.
Proof.
  intros HQ. unfold parseExprStmt. repeat pstep. pexpr. pstep. apply HQ; [pfin|done].
Qed.

Lemma plain_builds n m :
  (forall p (Q : Stmt -> Parser -> Prop),
     (forall a p', step 1 p p' -> plain_stmt a = true -> Q a p') -> wpp m p Q) ->
  builds wf_stmt n m.
Proof. intros H p Q _ HQ. apply H. intros. apply HQ; [done|by apply plain_wf]. Qed.

Lemma parseReturn_builds n : builds wf_stmt n parseReturn.
Proof.
  intros p Q _ HQ. unfold parseReturn. repeat pstep; [by apply HQ|].
  pexpr. pstep. apply HQ; [pfin|done].
Qed.

(** The optional label of [break] and [continue]. *)
Lemma wpp_labelRef p (Q : option Tok -> Parser -> Prop) :
  (forall p', step 0 p p' -> Q None p') -> (forall t p', step 1 p p' -> Q (Some t) p') ->
  wpp labelRef p Q.
Proof. intros H1 H2. unfold labelRef. repeat pstep; [by apply H2|apply H1; pfin]. Qed.

Lemma parseBreak_builds n : builds wf_stmt n parseBreak.
Proof.
  intros p Q _ HQ. unfold parseBreak. do 3 pstep.
  apply wpp_labelRef; intros; repeat pstep; try done;
    (apply HQ; [pfin|]); simpl; unfold break_ok; steps_in.
  - rewrite bool_decide_true by done. apply bool_decide_eq_false in E.
    rewrite bool_decide_false; [done|congruence].
  - case_bool_decide as Hl.
    + rewrite bool_decide_false; [done|]. intros Hcs.
      match goal with Hf : findControl _ _ = Some _ |- _ => revert Hf end.
      replace (controls p'0) with (@nil controlTarget) by congruence. done.
    + apply bool_decide_eq_true. exists c. congruence.
Qed.

Lemma findControl_loop l cs c :
  findControl l cs = Some c -> ct_kind c = controlLoop -> inLoop cs = true.
Proof.
  unfold findControl, inLoop. intros [Hin _]%List.find_some Hk.
  apply existsb_exists. exists c. rewrite bool_decide_true by done.
  split; [|done]. by apply in_rev.
Qed.

Lemma parseContinue_builds n : builds wf_stmt n parseContinue.
Proof.
  intros p Q _ HQ. unfold parseContinue. do 3 pstep.
  apply wpp_labelRef; intros; repeat pstep; try done;
    (apply HQ; [pfin|]); simpl; unfold continue_ok; steps_in;
    repeat match goal with E : negb _ = false |- _ => apply negb_false_iff in E end.
  - rewrite bool_decide_true by done. congruence.
  - assert (Hf : findControl (Lit t0) (controls p) = Some c) by congruence.
    apply bool_decide_eq_true in E0. rewrite Hf, (bool_decide_true (ct_kind c = _)) by done.
    case_match; [by eapply findControl_loop|done].
Qed.

Lemma existsb_eqb_false x l : existsb (String.eqb x) l = false -> x ∉ l.
Proof.
  intros H Hin. apply list_elem_of_In in Hin.
  assert (existsb (String.eqb x) l = true); [|congruence].
  apply existsb_exists. exists x. by rewrite String.eqb_refl.
Qed.

(** Parameter names come out distinct. *)
Lemma wpp_parseParams p (Q : list string -> Parser -> Prop) :
  (forall l p', step 0 p p' -> NoDup l -> Q l p') -> wpp parseParams p Q.
Proof.
  intros HQ. unfold parseParams. do 3 pstep; [pstep; apply HQ; [pfin|constructor]|].
  apply (wpp_loop (fun out p' => step 0 p p' /\ NoDup out)); [split; [pfin|constructor]|].
  intros out p1 [Hs Hnd] _. do 3 pstep; [pstep|]. apply negb_false_iff, isK_true in E0.
  pstep; [pstep|]. cbv zeta.
  assert (NoDup (out ++ [Lit (cur p1)])).
  { apply existsb_eqb_false in E1. apply NoDup_app. split; [done|].
    split; [|apply NoDup_singleton]. set_solver. }
  repeat pstep; first [apply HQ; [pfin|done] | split; [split; [pfin|done]|pfin]].
Qed.

(** ** Loop headers *)

Lemma wpp_parseForCond p (Q : option Expr -> Parser -> Prop) :
  (forall c p', step 0 p p' -> Q c p') -> wpp parseForCond p Q.
Proof.
  intros HQ. unfold parseForCond. do 3 pstep; [pstep; apply HQ; pfin|].
  pstep. pexpr. pstep. apply HQ; pfin.
Qed.

Lemma wpp_parseForClause b l p (Q : Stmt -> Parser -> Prop) :
  (forall s p', step 1 p p' -> plain_stmt s = true -> Q s p') -> wpp (parseForClause b l) p Q.
Proof.
  intros HQ. unfold parseForClause. do 2 pstep.
  destruct (K (cur p)) eqn:E; try exact I; try (by apply parseExprStmt_plain).
  - do 3 pstep; [by apply parseAssign_plain|by apply parseExprStmt_plain].
  - pstep; [exact I|by apply parseLet_plain].
Qed.

Lemma wpp_parseForPost p (Q : option Stmt -> Parser -> Prop) :
  (forall s p', step 0 p p' -> opt_all plain_stmt s = true -> Q s p') -> wpp parseForPost p Q.
Proof.
  intros HQ. unfold parseForPost. do 3 pstep; [pstep; apply HQ; [pfin|done]|].
  pstep. apply wpp_parseForClause. intros s p' Hs Hpl. pstep. apply HQ; [pfin|done].
Qed.

Lemma wpp_isForRangeStart p (Q : bool -> Parser -> Prop) :
  (forall b p', step 0 p p' -> Q b p') -> wpp isForRangeStart p Q.
Proof. intros HQ. unfold isForRangeStart. repeat pstep; apply HQ; pfin. Qed.

Lemma wpp_setControls cs p (Q : unit -> Parser -> Prop) :
  (forall p', controls p' = cs -> pmeas p' = pmeas p -> Q tt p') -> wpp (setControls cs) p Q.
Proof. intros HQ. by apply HQ. Qed.

Lemma wpp_pushControl kind lb p (Q : unit -> Parser -> Prop) :
  (forall p', controls p' = controls p ++ [mkControl kind (lb_name lb) (lb_pos lb)] ->
     pmeas p' = pmeas p -> Q tt p') -> wpp (pushControl kind lb) p Q.
Proof. intros HQ. by apply HQ. Qed.

Lemma wpp_popControl p cs c (Q : unit -> Parser -> Prop) :
  controls p = cs ++ [c] ->
  (forall p', controls p' = cs -> pmeas p' = pmeas p -> Q tt p') -> wpp popControl p Q.
Proof.
  intros Hc HQ. unfold popControl. do 2 pstep. apply wpp_setControls. intros p' Hp' Hm.
  apply HQ; [|done]. rewrite Hp', Hc, length_app. simpl.
  replace (length cs + 1 - 1) with (length cs) by lia. by rewrite take_app_length.
Qed.

(** ** Statements that contain statements *)

Section stmt_facts.
Context (n : nat) (rs : Par Stmt).
Hypothesis (Hr : builds wf_stmt n rs).

Lemma parseBlock_builds : builds wf_block (S n) (parseBlock rs).
Proof.
  intros p Q Hp HQ. unfold parseBlock. do 3 pstep.
  apply (wpp_loop (fun out p' => step 1 p p' /\ forallb (wf_stmt (controls p)) out = true));
    [split; [pfin|done]|].
  intros out p1 [Hs1 Hf] Hle. do 3 pstep; [|pstep; [pstep|pstep]].
  - repeat pstep. apply HQ; [pfin|done].
  - repeat pstep. split; [split; [pfin|done]|pfin].
  - pstep. pcall Hr. repeat pstep. split; [split; [pfin|]|pfin].
    apply forallb_snoc; [done|]. steps_in. congruence.
Qed.

Lemma parseFn_builds exp : builds wf_stmt (S n) (parseFn rs exp).
Proof.
  intros p Q Hp HQ. unfold parseFn. do 7 pstep. apply wpp_parseParams. intros params q Hsq Hnd.
  repeat pstep. apply wpp_setControls. intros p2 Hc2 Hm2. pstep.
  apply parseBlock_builds; [steps_in; lia|]. intros body p3 Hs3 Hwf.
  pstep. apply wpp_setControls. intros p4 Hc4 Hm4. pstep.
  apply HQ; [pfin|]. simpl. rewrite bool_decide_true by done. by rewrite Hc2 in Hwf.
Qed.

Lemma parseIf_builds : builds wf_stmt (S n) (parseIf rs).
Proof.
  intros p Q Hp HQ. unfold parseIf. do 3 pstep. pexpr. pstep.
  apply parseBlock_builds; [steps_in; lia|]. intros th p1 Hs1 Hth. pstep.
  apply (wpp_loop (fun out p' => step 1 p p'
           /\ forallb (fun x => wf_block (controls p) x.2) out = true)); [split; [pfin|done]|].
  intros out p2 [Hs2 Hf] Hle. do 3 pstep.
  - do 3 pstep. pexpr. pstep. apply parseBlock_builds; [steps_in; lia|]. intros b p3 Hs3 Hb.
    pstep. split; [split; [pfin|]|pfin]. apply forallb_snoc; [done|]. simpl. steps_in. congruence.
  - do 4 pstep.
    + do 3 pstep. apply parseBlock_builds; [steps_in; lia|]. intros b p3 Hs3 Hb. pstep.
      apply HQ; [pfin|]. simpl. rewrite Hf. steps_in. rewrite andb_true_r.
      apply andb_true_iff. split; congruence.
    + pstep. apply HQ; [pfin|]. simpl. rewrite Hf. steps_in. rewrite !andb_true_r. congruence.
Qed.

Lemma wpp_parseClauseBody pos p (Q : Block -> Parser -> Prop) :
  pmeas p < n -> (forall b p', step 0 p p' -> wf_block (controls p) b = true -> Q b p') ->
  wpp (parseClauseBody rs pos) p Q.
Proof.
  intros Hp HQ. unfold parseClauseBody.
  apply (wpp_loop (fun out p' => step 0 p p' /\ forallb (wf_stmt (controls p)) out = true));
    [split; [pfin|done]|].
  intros out p1 [Hs1 Hf] Hle. do 5 pstep; [|pstep].
  - pstep. apply HQ; [pfin|done].
  - pstep.
  - pstep. pcall Hr. pstep. split; [split; [pfin|]|pfin].
    apply forallb_snoc; [done|]. steps_in. congruence.
Qed.

Lemma wpp_parseCaseExprs p (Q : list Expr -> Parser -> Prop) :
  (forall es p', step 0 p p' -> es <> [] -> Q es p') -> wpp parseCaseExprs p Q.
Proof.
  intros HQ. unfold parseCaseExprs.
  apply (wpp_loop (fun _ p' => step 0 p p')); [pfin|]. intros out p1 Hs1 Hle.
  do 3 pstep; [pstep|]. pstep. pexpr. cbv zeta. repeat pstep.
  - split; pfin.
  - apply HQ; [pfin|]. by destruct out.
Qed.

(** A case clause, and that it is no default clause; a default clause. *)
Lemma wpp_parseCase p (Q : CaseClause -> Parser -> Prop) :
  pmeas p < S n ->
  (forall c p', step 1 p p' -> wf_clause (controls p) c = true -> is_default c = false -> Q c p') ->
  wpp (parseCase rs) p Q.
Proof.
  intros Hp HQ. unfold parseCase. do 3 pstep. apply wpp_parseCaseExprs. intros es p1 Hs1 Hes.
  do 3 pstep. apply wpp_parseClauseBody; [steps_in; lia|]. intros b p2 Hs2 Hb. pstep.
  apply HQ; [pfin| |by destruct es]. simpl. steps_in. congruence.
Qed.

Lemma wpp_parseDefault p (Q : CaseClause -> Parser -> Prop) :
  pmeas p < S n ->
  (forall c p', step 1 p p' -> wf_clause (controls p) c = true -> is_default c = true -> Q c p') ->
  wpp (parseDefault rs) p Q.
Proof.
  intros Hp HQ. unfold parseDefault. do 5 pstep.
  apply wpp_parseClauseBody; [steps_in; lia|]. intros b p2 Hs2 Hb. pstep.
  apply HQ; [pfin| |done]. simpl. steps_in. congruence.
Qed.

(** The clauses of a switch; the flag of the loop counts the defaults. *)
Lemma wpp_parseCaseClauses p (Q : list CaseClause -> Parser -> Prop) :
  pmeas p < S n ->
  (forall cs p', step 0 p p' -> forallb (wf_clause (controls p)) cs = true ->
     length (List.filter is_default cs) <= 1 -> Q cs p') ->
  wpp (parseCaseClauses rs) p Q.
Proof.
  intros Hp HQ. unfold parseCaseClauses.
  apply (wpp_loop (fun '(out, seen) p' => step 0 p p'
           /\ forallb (wf_clause (controls p)) out = true
           /\ length (List.filter is_default out) = if (seen : bool) then 1 else 0));
    [by split_and!; [pfin|..]|].
  intros [out seen] p1 (Hs1 & Hf & Hd) Hle. do 4 pstep.
  destruct (K (cur p')) eqn:E; try exact I.
  - pstep. apply wpp_parseCase; [steps_in; lia|]. intros c p2 Hs2 Hc Hnd. pstep.
    split; [|pfin]. split; [pfin|]. split; [apply forallb_snoc; [done|steps_in; congruence]|].
    rewrite List.filter_app, length_app. simpl. rewrite Hnd. simpl. lia.
  - pstep; [pstep|]. pstep. apply wpp_parseDefault; [steps_in; lia|]. intros c p2 Hs2 Hc Hnd.
    pstep. split; [|pfin]. split; [pfin|]. split; [apply forallb_snoc; [done|steps_in; congruence]|].
    rewrite List.filter_app, length_app. simpl. rewrite Hnd. simpl. lia.
  - pstep. apply HQ; [pfin|done|]. destruct seen; lia.
Qed.

Lemma parseSwitch_builds lb : builds wf_stmt (S n) (parseSwitch rs lb).
Proof.
  intros p Q Hp HQ. unfold parseSwitch. do 4 pstep.
  assert (Htail : forall tag p1, step 1 p p1 ->
    wpp (expect LBRACE >> pushControl controlSwitch lb >>
         let* clauses := parseCaseClauses rs in
         popControl >> expect RBRACE >>
         pret (SwitchStmt (P t) (lb_name lb) (lb_pos lb) tag clauses)) p1 Q).
  { intros tag p1 Hs1. do 3 pstep. apply wpp_pushControl. intros p2 Hc2 Hm2. pstep.
    apply wpp_parseCaseClauses; [steps_in; lia|]. intros cs p3 Hs3 Hcs Hd.
    pstep. eapply wpp_popControl; [destruct Hs3 as [-> _]; exact Hc2|]. intros p4 Hc4 Hm4.
    repeat pstep. apply HQ; [pfin|]. simpl. apply andb_true_iff. split; [|by apply Nat.leb_le].
    rewrite Hc2 in Hcs. steps_in. congruence. }
  do 2 pstep.
  - pstep. apply Htail; pfin.
  - pstep. pexpr. pstep. apply Htail; pfin.
Qed.

Lemma parseForBody_builds pos lb init cond post rng p (Q : Stmt -> Parser -> Prop) :
  pmeas p < S n -> opt_all plain_stmt init = true -> opt_all plain_stmt post = true ->
  (forall s p', step 1 p p' -> wf_stmt (controls p) s = true -> Q s p') ->
  wpp (parseForBody rs pos lb init cond post rng) p Q.
Proof.
  intros Hp Hi Hpo HQ. unfold parseForBody. pstep. apply wpp_pushControl. intros p1 Hc1 Hm1.
  pstep. apply parseBlock_builds; [lia|]. intros b p2 Hs2 Hb. pstep.
  eapply wpp_popControl; [destruct Hs2 as [-> _]; exact Hc1|]. intros p3 Hc3 Hm3. pstep.
  apply HQ; [pfin|]. simpl. rewrite Hi, Hpo. simpl. by rewrite <- Hc1.
Qed.

Ltac pbody := apply parseForBody_builds; [steps_in; lia|done|done|].

Lemma parseForRange_builds pos lb p (Q : Stmt -> Parser -> Prop) :
  pmeas p < S n ->
  (forall s p', step 1 p p' -> wf_stmt (controls p) s = true -> Q s p') ->
  wpp (parseForRange rs pos lb) p Q.
Proof.
  intros Hp HQ. unfold parseForRange. do 3 pstep.
  assert (Htail : forall decl keyTok val p1, step 0 p p1 ->
    wpp (if negb (bool_decide (val = EmptyString)) && bool_decide (Lit keyTok = val)
            && negb (bool_decide (Lit keyTok = "_"%string))
         then fail (P keyTok) "range variables must be distinct"
         else expect KW_RANGE >>
              let* e := parseExpr in
              parseForBody rs pos lb None None None (Some (mkForRange (Lit keyTok) val e decl))) p1 Q).
  { intros decl kt val p1 Hs1. pstep; [pstep|]. do 3 pstep. pexpr. pbody.
    intros s p2 Hs2 Hwf. apply HQ; [pfin|]. steps_in. congruence. }
  repeat first [solve [cbv zeta; apply Htail; pfin] | pstep].
Qed.

Lemma parseForTail_builds pos lb init p (Q : Stmt -> Parser -> Prop) :
  pmeas p < S n -> opt_all plain_stmt init = true ->
  (forall s p', step 1 p p' -> wf_stmt (controls p) s = true -> Q s p') ->
  wpp (parseForTail rs pos lb init) p Q.
Proof.
  intros Hp Hi HQ. unfold parseForTail. do 3 pstep. apply wpp_parseForCond. intros c p1 Hs1.
  do 3 pstep. apply wpp_parseForPost. intros post p2 Hs2 Hpl. pbody.
  intros s p3 Hs3 Hwf. apply HQ; [pfin|]. steps_in. congruence.
Qed.

Lemma parseFor_builds lb : builds wf_stmt (S n) (parseFor rs lb).
Proof.
  intros p Q Hp HQ. unfold parseFor. do 2 pstep. cbv zeta. do 3 pstep.
  - pbody. intros s p1 Hs1 Hwf. apply HQ; [pfin|]. steps_in. congruence.
  - pstep. apply wpp_isForRangeStart. intros b p1 Hs1. pstep; [|pstep].
    + apply parseForRange_builds; [steps_in; lia|]. intros s p2 Hs2 Hwf.
      apply HQ; [pfin|]. steps_in. congruence.
    + apply parseForTail_builds; [steps_in; lia|done|]. intros s p2 Hs2 Hwf.
      apply HQ; [pfin|]. steps_in. congruence.
    + pstep. apply wpp_parseForClause. intros init p2 Hs2 Hpl. do 3 pstep.
      * apply parseForTail_builds; [steps_in; lia|done|]. intros s p3 Hs3 Hwf.
        apply HQ; [pfin|]. steps_in. congruence.
      * destruct init; try discriminate Hpl; try exact I. pbody.
        intros s p3 Hs3 Hwf. apply HQ; [pfin|]. steps_in. congruence.
Qed.

Lemma parseLabeled_builds p (Q : Stmt -> Parser -> Prop) :
  pmeas p < S n ->
  (forall s p', step 1 p p' -> wf_stmt (controls p) s = true -> Q s p') ->
  wpp (parseLabeled rs) p Q.
Proof.
  intros Hp HQ. unfold parseLabeled. do 3 pstep; [pstep|]. do 3 pstep; [pstep|]. do 4 pstep.
  cbv zeta. do 2 pstep. destruct (K (cur p'0)) eqn:E1; try exact I.
  - apply parseSwitch_builds; [steps_in; lia|]. intros s p2 Hs2 Hwf.
    apply HQ; [pfin|]. steps_in. congruence.
  - apply parseFor_builds; [steps_in; lia|]. intros s p2 Hs2 Hwf.
    apply HQ; [pfin|]. steps_in. congruence.
Qed.

Lemma parseExport_builds : builds wf_stmt (S n) (parseExport rs).
Proof.
  intros p Q Hp HQ. unfold parseExport. do 4 pstep.
  destruct (K (cur p')) eqn:E; try exact I;
    [apply parseFn_builds; [steps_in; lia|]|apply parseLet_plain|apply parseLet_plain];
    intros s p2 Hs2 Hwf; (apply HQ; [pfin|]); first [by apply plain_wf | steps_in; congruence].
Qed.

Lemma parseStmtF_builds : builds wf_stmt (S n) (parseStmtF rs).
Proof.
  intros p Q Hp HQ. unfold parseStmtF. do 2 pstep.
  destruct (K (cur p)) eqn:E; try exact I;
    try (by eapply plain_builds; [apply parseExprStmt_plain|..]).
  - do 3 pstep; [|pstep].
    + by eapply plain_builds; [apply parseAssign_plain|..].
    + by apply parseLabeled_builds.
    + by eapply plain_builds; [apply parseExprStmt_plain|..].
  - by apply parseExport_builds.
  - by apply parseFn_builds.
  - by eapply parseLet_builds.
  - by eapply parseLet_builds.
  - by apply parseIf_builds.
  - by apply parseSwitch_builds.
  - by eapply parseReturn_builds.
  - by apply parseFor_builds.
  - by eapply parseBreak_builds.
  - by eapply parseContinue_builds.
Qed.
End stmt_facts.

Lemma parseStmt_n_builds n : builds wf_stmt n (parseStmt_n n).
Proof.
  induction n as [|n IH]; [by intros p Q Hp; lia|]. simpl. by apply parseStmtF_builds.
Qed.

(** [parseStmt] answers from every state. *)
Lemma wpp_parseStmt p (Q : Stmt -> Parser -> Prop) :
  (forall s p', step 1 p p' -> wf_stmt (controls p) s = true -> Q s p') -> wpp parseStmt p Q.
Proof. intros HQ. apply (parseStmt_n_builds (S (pmeas p))); [lia|done]. Qed.

(** ** Modules and entry points *)

Lemma wpp_parseModDecl p (Q : string * Pos -> Parser -> Prop) :
  (forall d p', step 1 p p' -> Q d p') -> wpp parseModDecl p Q.
Proof.
  intros HQ. unfold parseModDecl. repeat pstep; try exact I.
  apply HQ; pfin.
Qed.

Lemma wpp_parseMod p (Q : Mod -> Parser -> Prop) :
  controls p = [] -> (forall m p', wf_mod m = true -> Q m p') -> wpp parseMod p Q.
Proof.
  intros Hc HQ. unfold parseMod, wpp.
  apply (wpp_loop (fun m p' => controls p' = [] /\ wf_mod m = true)); [done|].
  intros m p1 [Hc1 Hwf] Hle. do 3 pstep; [by pstep; apply HQ|]. pstep; [|pstep; [pstep; [pstep|]|]].
  - repeat pstep. split; [split; [|done]|]; pfin.
  - pstep. apply wpp_parseModDecl. intros d p2 Hs2. repeat pstep. split; [split; [|done]|]; pfin.
  - pstep. apply wpp_parseStmt. intros s p2 Hs2 Hs. repeat pstep.
    split; [split; [pfin|]|pfin]. unfold wf_mod. simpl. rewrite Hc1 in Hs.
    by apply forallb_snoc.
Qed.

Lemma NewParserAt_controls path src pos : controls (NewParserAt path src pos) = [].
Proof.
  unfold NewParserAt. destruct (Next _) as [t1 l1]. by destruct (Next l1) as [t2 l2].
Qed.

Lemma wpp_run {A} (m : Par A) p (Q : A -> Prop) :
  wpp m p (fun a _ => Q a) ->
  exists r, run m p = Some r /\ match r with Ok a => Q a | Er _ => True end.
Proof. unfold wpp, run. destruct (m p) as [a p'|e|]; [|eauto|done]. eauto. Qed.

(** Both entry points return, and a module that is returned is well formed. *)
Lemma parseModuleAt_run path src pos :
  exists r, ParseModuleAt path src pos = Some r
            /\ match r with Ok m => wf_mod m = true | Er _ => True end.
Proof.
  apply (wpp_run parseMod (NewParserAt path src pos) (fun m => wf_mod m = true)).
  apply wpp_parseMod; [apply NewParserAt_controls|done].
Qed.

Lemma parseExpr_run path line col src : exists r, ParseExpr path line col src = Some r.
Proof.
  unfold ParseExpr. destruct (wpp_run parseExprOnly
    (NewParserAt path (bytes src) (mkPos EmptyString line col)) (fun _ => True)) as (r & Hr & _);
    [|by eauto].
  unfold parseExprOnly. pstep. pexpr. repeat pstep; done.
Qed.

(** C4. Parsing a module always terminates with a module or a parse error: the fuel
    that the entry point computes from its input is enough for every input. *)
Theorem ParseModuleAt_total (path : string) (src : list ascii) (pos : Pos) :
  exists r, ParseModuleAt path src pos = Some r.
Proof. destruct (parseModuleAt_run path src pos) as (r & Hr & _). eauto. Qed.

(** Parsing an expression always terminates with an expression or an error. *)
Theorem ParseExpr_total (path : string) (line col : Z) (src : string) :
  exists r, ParseExpr path line col src = Some r.
Proof. apply parseExpr_run. Qed.

(** C5. A module that parses is well formed: every [break] and [continue] has its
    target, parameters are distinct, a switch has at most one default clause,
    and loop headers hold plain statements. *)
Theorem parsed_module_wf (path : string) (src : list ascii) (pos : Pos) (m : Mod) :
  ParseModuleAt path src pos = Some (Ok m) -> wf_mod m = true.
Proof. destruct (parseModuleAt_run path src pos) as (r & -> & Hr). by intros [= ->]. Qed.

Definition demo_module : string :=
  "outer: for let i = 0; i < 3; i = i + 1 { switch i { case 1, 2: continue outer
   default: break outer } } fn f(a, b) { return a }".

Lemma parsed_module_wf_witness :
  exists m, ParseModuleAt "m.rts" (bytes demo_module) NoPos = Some (Ok m) /\ wf_mod m = true.
Proof.
  set (r := ParseModuleAt "m.rts" (bytes demo_module) NoPos). vm_compute in r.
  eexists. split; [reflexivity|].
  apply (parsed_module_wf "m.rts" (bytes demo_module) NoPos). vm_compute. reflexivity.
Defined.
