(* ===== verification/HeadFacts.v ===== *)
(** * The module header scan agrees with the parser (internal/rts/resolve.go,
    parser.go).

    [@use] without an alias binds a module under the name that [modHead] finds
    by looking at tokens only; the parser decides later which module it is. *)
From stdpp Require Import base list strings gmap.
From Stdlib Require Import Ascii ZArith Lia.
From S2P Require Import Prelude GoStd GoFloat Token Lexer LexerFacts LexerText Group Ast Parser Scope ParserTotal.

Open Scope string_scope.
Open Scope nat_scope.
Open Scope list_scope.

(** ** The scan always returns *)

Lemma scanMod_total n bs l :
  on_way bs l -> tmeas l < n -> exists r, scanMod n l = Some r.
Proof.
  revert l. induction n as [|n IH]; intros l Hw Hn; [lia|]. simpl.
  pose proof (next_round n l Hn) as Hr. pose proof (on_way_next bs l Hw) as (Hw' & _).
  destruct (Next l) as [tok l']. simpl in *.
  destruct (K tok); eauto; by apply IH; [|apply Hr].
Qed.

Lemma modHead_n_total n path bs l :
  on_way bs l -> tmeas l < n -> exists r, modHead_n n path l = Some r.
Proof.
  revert l. induction n as [|n IH]; intros l Hw Hn; [lia|]. simpl.
  pose proof (next_round n l Hn) as Hr. pose proof (on_way_next bs l Hw) as (Hw' & _).
  destruct (Next l) as [tok l']. simpl in *.
  destruct (K tok); eauto; try (by apply IH; [|apply Hr]);
    destruct (scanMod_total n bs l' Hw' ltac:(by apply Hr)) as [[[]|] ->]; eauto.
Qed.

Lemma modHead_total path bs : exists r, modHead path bs = Some r.
Proof. apply (modHead_n_total _ _ bs); [apply on_way_start|apply start_round]. Qed.

(** ** Where the parser stands in the token stream *)

(** The parser has read nothing but the two tokens it holds, from [l]. *)
Record fed (l : Lexer) (p : Parser) : Prop := {
  fed_cur : cur p = (Next l).1;
  fed_pk : pk p = (Next (Next l).2).1;
  fed_ahead : ahead p = [];
  fed_lx : lx p = (Next (Next l).2).2
}.

Lemma fed_start path src pos : fed (NewLexerAt path src pos) (NewParserAt path src pos).
Proof.
  unfold NewParserAt. destruct (Next _) as [t1 l1] eqn:E1. destruct (Next l1) as [t2 l2] eqn:E2.
  split; simpl; rewrite ?E1; simpl; by rewrite ?E2.
Qed.

Lemma fed_next l p (Q : unit -> Parser -> Prop) :
  fed l p -> (forall p', fed (Next l).2 p' -> step 0 p p' -> (K (cur p) <> EOF -> step 1 p p') -> Q tt p') ->
  wpp next p Q.
Proof.
  intros [Hc Hp Ha Hx] HQ. destruct (next_spec p) as (p' & Hn & Hct & Hm). unfold wpp. rewrite Hn.
  apply HQ; [|split; [done|lia]|].
  - unfold next in Hn. rewrite Ha, Hx in Hn. destruct (Next (Next (Next l).2).2) as [t l3] eqn:E.
    injection Hn as <-. split; simpl; rewrite ?Hp; by rewrite ?E.
  - intros Hk. split; [done|]. unfold tok_weight in Hm. case_decide; [done|lia].
Qed.

(** An identifier is never empty. *)
Lemma ident_nonempty bs l : on_way bs l -> K (Next l).1 = IDENT -> Lit (Next l).1 <> EmptyString.
Proof.
  intros (Hp & Hs & lc & Hi) HK HL.
  destruct (Next_name_ok l Hp) as (Hb & _); [unfold isName; by rewrite HK|].
  destruct (Next_pinv lc l Hp Hi) as (Hs' & _ & (cr & _ & _ & Hle) & [_ (k & _ & _ & Hst)]).
  destruct Hst as [-> Hlt]; [by rewrite HK|]. rewrite HL in Hb. apply (f_equal length) in Hb.
  unfold slice in Hb. rewrite length_take, length_drop in Hb. simpl in Hb. lia.
Qed.

(** ** Agreement *)

(** What the module so far says of the header: nothing was read but semicolons
    up to [l], or the name is what [modHead] answers, or there is none. *)
Inductive head_at (path : string) (bs : list ascii) : Mod -> Parser -> Prop :=
  | head_open n l m p :
      fed l p -> on_way bs l -> tmeas l < n -> modHead path bs = modHead_n n path l ->
      mod_name m = EmptyString -> mod_stmts m = [] -> head_at path bs m p
  | head_named m p :
      mod_name m <> EmptyString -> modHead path bs = Some (Ok (mod_name m, mod_namePos m)) ->
      head_at path bs m p
  | head_none m p :
      mod_name m = EmptyString -> mod_stmts m <> [] ->
      (forall nm mp, modHead path bs = Some (Ok (nm, mp)) -> nm = EmptyString) -> head_at path bs m p.

(** A first token that begins a statement. *)
Lemma modHead_no_name n path l nm mp :
  isSemi (K (Next l).1) = false -> K (Next l).1 <> KW_MODULE ->
  modHead_n n path l = Some (Ok (nm, mp)) -> nm = EmptyString.
Proof.
  destruct n as [|n]; [done|]. simpl. destruct (Next l) as [tok l']. simpl.
  destruct (K tok); try done; intros _ _; try (by intros [= <- _]);
    destruct (scanMod n l') as [[[|]|]|]; try done; by intros [= <- _].
Qed.

Lemma wpp_parseModDecl_fed l p (Q : string * Pos -> Parser -> Prop) :
  fed l p ->
  (forall p', K (cur p) = KW_MODULE -> K (pk p) = IDENT -> step 1 p p' -> Q (Lit (pk p), P (cur p)) p') ->
  wpp parseModDecl p Q.
Proof.
  intros Hf HQ. unfold parseModDecl. apply wpp_bind. unfold expect. apply wpp_bind, wpp_curT.
  destruct (isK KW_MODULE (K (cur p))) eqn:EK; [|done]. apply isK_true in EK.
  apply wpp_bind. apply (fed_next l); [done|]. intros p1 Hf1 _ Hs1. specialize (Hs1 ltac:(by rewrite EK)).
  apply wpp_ret. apply wpp_bind, wpp_curT.
  assert (Hcur : cur p1 = pk p) by (rewrite (fed_cur _ _ Hf1); by rewrite (fed_pk _ _ Hf)).
  destruct (isKeyword (K (cur p1))); [exact I|].
  destruct (negb (isK IDENT (K (cur p1)))) eqn:EI; [exact I|]. apply negb_false_iff, isK_true in EI.
  apply wpp_bind, wpp_next. intros p2 Hs2. apply wpp_ret. rewrite Hcur in *. apply HQ; [done..|pfin].
Qed.

Definition head_agrees (path : string) (bs : list ascii) (m : Mod) : Prop :=
  (mod_name m <> EmptyString -> modHead path bs = Some (Ok (mod_name m, mod_namePos m)))
  /\ (forall nm mp, modHead path bs = Some (Ok (nm, mp)) -> nm = mod_name m).

Lemma head_at_end path bs m p : head_at path bs m p -> K (cur p) = EOF -> head_agrees path bs m.
Proof.
  intros [n l m' p' Hf _ Hn Hd H1 _|m' p' Hne Hd|m' p' He _ Hd] HE.
  - split; [done|]. intros nm mp. rewrite Hd, H1. rewrite (fed_cur _ _ Hf) in HE.
    apply modHead_no_name; by rewrite HE.
  - split; [done|]. intros nm mp. rewrite Hd. by intros [= <- _].
  - split; [done|]. rewrite He. apply Hd.
Qed.

Lemma head_at_semi path bs m p (Q : unit -> Parser -> Prop) :
  head_at path bs m p -> isSemi (K (cur p)) = true ->
  (forall p', head_at path bs m p' -> step 1 p p' -> Q tt p') -> wpp next p Q.
Proof.
  intros Hh E HQ. pose proof (isSemi_eof _ E) as HE.
  destruct Hh as [n l m p Hf Hw Hn Hd H1 H2|m p ? ?|m p ? ? ?].
  - apply (fed_next l); [done|]. intros p2 Hf2 _ Hs2. apply HQ; [|by apply Hs2].
    rewrite (fed_cur _ _ Hf) in *. destruct n as [|n]; [lia|].
    apply (head_open _ _ n (Next l).2); try done; [by apply on_way_next|by apply next_round|].
    rewrite Hd. simpl. destruct (Next l) as [tok l']. simpl in *. by destruct (K tok).
  - apply wpp_next_strict; [done|]. intros. apply HQ; [by apply head_named|done].
  - apply wpp_next_strict; [done|]. intros. apply HQ; [by apply head_none|done].
Qed.

(** A statement before any [module]: then there is none. *)
Lemma head_at_stmt path bs m p st p' :
  head_at path bs m p -> isSemi (K (cur p)) = false -> K (cur p) <> KW_MODULE ->
  head_at path bs (mkMod (mod_path m) (mod_name m) (mod_namePos m) (mod_stmts m ++ [st])) p'.
Proof.
  intros [n l m' p1 Hf Hw Hn Hd H1 H2|m' p1 ? ?|m' p1 ? ? ?] Hs Hk;
    [|by apply head_named|by apply head_none; [|destruct (mod_stmts m')|]].
  rewrite (fed_cur _ _ Hf) in *. apply head_none; [done|by rewrite H2|]. intros nm mp. rewrite Hd.
  by apply modHead_no_name.
Qed.

Lemma wpp_parseMod_head path bs p (Q : Mod -> Parser -> Prop) :
  fed (NewLexer path bs) p -> (forall m p', head_agrees path bs m -> Q m p') -> wpp parseMod p Q.
Proof.
  intros Hfed HQ. unfold parseMod, wpp. apply (wpp_loop (fun m p' => head_at path bs m p')).
  { apply (head_open _ _ (length bs + 2) (NewLexer path bs)); try done; [apply on_way_start|apply start_round]. }
  intros m p1 Hh _. do 3 pstep; [by pstep; eapply HQ, head_at_end|]. pstep.
  { pstep. apply (head_at_semi path bs m); [done..|]. intros p2 Hh2 Hs2. pstep. split; [done|pfin]. }
  pstep; [pstep; [pstep|]|].
  - apply orb_false_iff in E2 as [En Es]. apply negb_false_iff, bool_decide_eq_true in En, Es.
    destruct Hh as [n l m p1 Hf Hw Hn Hd _ _|m p1 Hne _|m p1 _ Hne _]; [|done|by destruct (mod_stmts m)].
    pstep. apply (wpp_parseModDecl_fed l); [done|]. intros p2 _ HI Hs2. do 3 pstep. split; [|pfin].
    rewrite (fed_cur _ _ Hf), (fed_pk _ _ Hf) in *.
    apply head_named; simpl; [by eapply ident_nonempty; [apply on_way_next|]|].
    rewrite Hd. destruct n as [|n]; [lia|]. simpl. destruct (Next l) as [tok l']. simpl in *. rewrite E1.
    unfold modName. by rewrite HI.
  - pstep. apply wpp_parseStmt. intros st p2 Hs2 _. do 3 pstep. split; [|pfin]. eapply head_at_stmt; [done..|].
    intros Hk. by rewrite Hk in E1.
Qed.

(** The header scan and the parser agree on the name of a module.  [modHead]
    answers for every source; for a source that parses, it finds the name and
    the position of the [module] keyword that the parser finds, and it never
    reports a name for a module that declares none. *)
Theorem modHead_agrees path src :
  (exists r, modHead path src = Some r)
  /\ forall m, ParseModule path src = Some (Ok m) ->
       (mod_name m <> EmptyString -> modHead path src = Some (Ok (mod_name m, mod_namePos m)))
       /\ (forall nm mp, modHead path src = Some (Ok (nm, mp)) -> nm = mod_name m).
Proof.
  split; [apply modHead_total|]. intros m Hm.
  destruct (wpp_run parseMod (NewParserAt path src (mkPos EmptyString 1 1)) (head_agrees path src)) as (r & Hr & H).
  - eapply wpp_parseMod_head; [apply fed_start|done].
  - change (run parseMod (NewParserAt path src (mkPos EmptyString 1 1)) = Some (Ok m)) in Hm.
    rewrite Hm in Hr. injection Hr as <-. exact H.
Qed.
