(* ===== verification/Value.v ===== *)
(** * Runtime values, environments and errors of RestermScript
    (internal/rts/value.go, ctx.go, result.go, modobj.go, pos.go). *)
From stdpp Require Import base list strings gmap.
From Stdlib Require Import Ascii ZArith Lia.
From S2P Require Import Prelude GoStd GoFloat Token Ast.

Set Warnings "-register-all".
Open Scope string_scope.
Open Scope nat_scope.
Open Scope list_scope.

(** ** Values

    The Go struct carries a kind and one field per kind; here each kind is a
    constructor with the field it uses.  A function holds the location of the
    environment it closes over.  A native function is known by its name:
    [NatStd] names a function of the standard library, [NatHost] one of the
    host.  [Object] is an interface: [ResultObj] and [ModObj] are the
    implementations of package rts, [ObjMap] that of package stdlib, and
    [HostObj] any other. *)
Inductive NatFn : Set := NatStd (name : string) | NatHost (id : string).

Inductive Value : Type :=
  | VNull
  | VBool (b : bool)
  | VNum (n : float64)
  | VStr (s : string)
  | VList (l : list Value)
  | VDict (m : gmap string Value)
  | VFunc (f : option Func)
  | VNative (nf : option NatFn)
  | VObj (o : option Object)
with Func : Type := mkFunc (name : string) (args : list string) (body : Block) (env : nat) (pos : Pos)
with Object : Type :=
  | ResultObj (ok : bool) (val : Value) (err : string)
  | ModObj (name : string) (exp : gmap string Value)
  | ObjMap (name : string) (m : gmap string Value)
  | HostObj (id : string).

Definition fn_name (f : Func) : string := let 'mkFunc n _ _ _ _ := f in n.
Definition fn_args (f : Func) : list string := let 'mkFunc _ a _ _ _ := f in a.
Definition fn_body (f : Func) : Block := let 'mkFunc _ _ b _ _ := f in b.
Definition fn_env (f : Func) : nat := let 'mkFunc _ _ _ e _ := f in e.
Definition fn_pos (f : Func) : Pos := let 'mkFunc _ _ _ _ p := f in p.

(** The [iota] value of a value's kind, as [%v] prints it. *)
Definition vkind (v : Value) : Z :=
  match v with
  | VNull => 0 | VBool _ => 1 | VNum _ => 2 | VStr _ => 3 | VList _ => 4 | VDict _ => 5
  | VFunc _ => 6 | VNative _ => 7 | VObj _ => 8
  end%Z.

(** ** Errors

    [ERet], [EBreak] and [EContinue] are the control signals that travel as Go
    errors; [EOther] is an error of another package, known by its text. *)
Inductive AbortKind : Set := AbortScript | AbortTimeout | AbortCanceled.

Inductive FrameKind : Set := FrameFn | FrameNative | FrameExpr.

Record Frame := mkFrame { fr_kind : FrameKind; fr_pos : Pos; fr_name : string }.

Inductive Err : Type :=
  | ERuntime (p : Pos) (msg : string)
  | EAbort (p : Pos) (msg : string) (kind : AbortKind)
  | EStack (err : Err) (frames : list Frame)
  | EParse (e : ParseError)
  | ERet (v : Value)
  | EBreak (p : Pos) (label : string)
  | EContinue (p : Pos) (label : string)
  | EOther (msg : string).

(** [RuntimeError.Error]. *)
Definition rt_text (p : Pos) (msg : string) : string :=
  if (Line p =? 0)%Z then msg else Pos_String p +:+ ": " +:+ msg.

Fixpoint Err_Error (e : Err) : string :=
  match e with
  | ERuntime p msg | EAbort p msg _ => rt_text p msg
  | EStack err _ => Err_Error err
  | EParse e => ParseError_Error e
  | ERet _ => "return"
  | EBreak _ _ => "break"
  | EContinue _ _ => "continue"
  | EOther msg => msg
  end.

Definition isAbort (e : Err) : bool :=
  match e with
  | EAbort _ _ _ => true
  | EStack (EAbort _ _ _) _ => true
  | _ => false
  end.

(** [targets]: whether a signal naming [label] stops at [target]. *)
Definition targets (label target : string) : bool :=
  bool_decide (label = EmptyString) || bool_decide (label = target).

(** ** The execution context *)

Record Limits := mkLimits {
  MaxSteps : Z; MaxCall : Z; MaxStr : Z; MaxList : Z; MaxDict : Z; Timeout : Z
}.

(** [Now] and the Go context are read at every tick.  [elapsed n] is the time
    since the start that the clock shows at tick [n], [done_at n] the error of
    the Go context at that tick, if it is done. *)
Record Ctx := mkCtx {
  Lim : Limits;
  elapsed : Z -> Z;
  done_at : Z -> option string;
  steps : Z;
  depth : Z;
  stack : list Frame
}.

Definition set_steps (n : Z) (c : Ctx) : Ctx :=
  mkCtx (Lim c) (elapsed c) (done_at c) n (depth c) (stack c).
Definition set_call (d : Z) (st : list Frame) (c : Ctx) : Ctx :=
  mkCtx (Lim c) (elapsed c) (done_at c) (steps c) d st.

Definition push (f : Frame) (c : Ctx) : Ctx := set_call (depth c) (stack c ++ [f]) c.
Definition pop (c : Ctx) : Ctx := set_call (depth c) (take (length (stack c) - 1) (stack c)) c.

(** [NewCtx]: a context that has just started. *)
Definition NewCtx (lim : Limits) (clock : Z -> Z) (done : Z -> option string) : Ctx :=
  mkCtx lim clock done 0 0 [].

(** [Ctx.CloneNoIO]: the limits, a clock that starts again, no steps and no calls. *)
Definition CloneNoIO (c : Ctx) (clock : Z -> Z) (done : Z -> option string) : Ctx :=
  NewCtx (Lim c) clock done.

(** [Errf] with a context: the call stack is attached. *)
Definition Errf (c : Ctx) (pos : Pos) (msg : string) : Err := EStack (ERuntime pos msg) (stack c).

(** [Errf] with a nil context. *)
Definition Errf_nil (pos : Pos) (msg : string) : Err := ERuntime pos msg.

Definition rtAbort (c : Ctx) (pos : Pos) (kind : AbortKind) (msg : string) : Err :=
  EStack (EAbort pos msg kind) (stack c).

Definition WrapErr (c : Ctx) (e : Err) : Err :=
  match e with
  | EStack _ _ => e
  | _ => EStack e (stack c)
  end.

(** ** Environments

    Environments are shared and mutated through every closure that captured
    them, so they live in a heap; a location is an index into it. *)
Record Binding := mkBinding { b_val : Value; b_const : bool }.
Record Env := mkEnv { up : option nat; vars : gmap string Binding }.

Abbreviation heap := (list Env).

(** The first environment from [cur] upwards that binds [name]. *)
Fixpoint env_find (n : nat) (h : heap) (cur : option nat) (name : string) : option (nat * Binding) :=
  match n, cur with
  | S n', Some l =>
      match h !! l with
      | None => None
      | Some e =>
          match vars e !! name with
          | Some b => Some (l, b)
          | None => env_find n' h (up e) name
          end
      end
  | _, _ => None
  end.

(** Define [name] in the environment at [l], whatever it was before. *)
Definition DefWith (l : nat) (name : string) (v : Value) (isConst : bool) (h : heap) : heap :=
  alter (fun e => mkEnv (up e) (<[name := mkBinding v isConst]> (vars e))) l h.

Definition HasLocal (l : nat) (name : string) (h : heap) : bool :=
  match h !! l with
  | Some e => bool_decide (is_Some (vars e !! name))
  | None => false
  end.

Definition env_Get (l : nat) (name : string) (h : heap) : option Value :=
  b_val ∘ snd <$> env_find (S (length h)) h (Some l) name.

(** [Set]: whether the name was found, whether it is constant, and the heap. *)
Definition env_Set (l : nat) (name : string) (v : Value) (h : heap) : bool * bool * heap :=
  match env_find (S (length h)) h (Some l) name with
  | None => (false, false, h)
  | Some (cur, b) =>
      if b_const b then (true, true, h)
      else (true, false, DefWith cur name v (b_const b) h)
  end.

(** ** Truth and equality *)

(** What the code relies on from host objects and host functions. *)
Class Host := {
  host_type : string -> string;
  host_truthy : string -> option bool;
  host_unbound : string -> option string;
  host_iface : string -> option Iface;
  host_member : string -> Ctx -> Pos -> string -> res Err (Value * bool);
  host_index : string -> Ctx -> Pos -> Value -> res Err Value;
  host_call : string -> Ctx -> Pos -> list Value -> res Err Value;
  (** [sort.Slice]: some permutation that the comparison orders; which one is
      not specified. *)
  sort_slice : (Value -> Value -> bool) -> list Value -> list Value
}.

Definition obj_truthy `{Host} (o : Object) : bool :=
  match o with
  | ResultObj ok _ _ => ok
  | ModObj _ _ | ObjMap _ _ => true
  | HostObj id => default true (host_truthy id)
  end.

Definition IsTruthy `{Host} (v : Value) : bool :=
  match v with
  | VNull => false
  | VBool b => b
  | VNum n => negb (f_eq n f_zero)
  | VStr s => negb (bool_decide (s = EmptyString))
  | VList l => negb (bool_decide (length l = 0))
  | VDict m => negb (bool_decide (size m = 0))
  | VObj (Some o) => obj_truthy o
  | _ => true
  end.

Definition ValueEqual (a b : Value) : bool :=
  match a, b with
  | VNull, VNull => true
  | VBool x, VBool y => Bool.eqb x y
  | VNum x, VNum y => f_eq x y
  | VStr x, VStr y => bool_decide (x = y)
  | _, _ => false
  end.
