(* ===== verification/Vm.v ===== *)
(** * The tree-walking evaluator (internal/rts/vm.go, conv.go, limits.go).

    The Go methods recurse through each other on the syntax tree and, through
    closures, beyond it.  Each method is a definition over a record [VM] of the
    three methods that close the recursion; [vm_at n] ties the knot with [n]
    levels, and [Termination] shows how many suffice. *)
From stdpp Require Import base list strings gmap.
From Stdlib Require Import Ascii ZArith Lia.
From S2P Require Import Prelude GoStd GoFloat Token Ast Value.

Set Warnings "-register-all".
Open Scope string_scope.
Open Scope nat_scope.
Open Scope list_scope.

(** ** State and effects

    [exps] is the export map of the module being executed.  [None] says that
    the levels of recursion did not suffice. *)
Record St := mkSt { ctx : Ctx; hp : heap; exps : gmap string Value }.

Definition M (A : Type) : Type := St -> option (res Err A * St).

Definition ok {A} (a : A) : M A := fun s => Some (Ok a, s).
Definition throw {A} (e : Err) : M A := fun s => Some (Er e, s).
Definition out_of_fuel {A} : M A := fun _ => None.

Definition bind {A B} (m : M A) (k : A -> M B) : M B := fun s =>
  match m s with
  | Some (Ok a, s') => k a s'
  | Some (Er e, s') => Some (Er e, s')
  | None => None
  end.

(** The error of [m] as a value: what [v, err := ...] gives when the code
    looks at [err] instead of returning it. *)
Definition catch {A} (m : M A) : M (res Err A) := fun s =>
  match m s with
  | Some (r, s') => Some (Ok r, s')
  | None => None
  end.

Definition lift {A} (r : res Err A) : M A := fun s => Some (r, s).

Declare Scope vm_scope.
Delimit Scope vm_scope with vm.
Notation "'let*' x := m 'in' k" := (bind m (fun x => k))
  (at level 10, x pattern, m at level 100, k at level 200) : vm_scope.
Notation "m >> k" := (bind m (fun _ => k)) (at level 100, k at level 200) : vm_scope.
Open Scope vm_scope.

Definition getCtx : M Ctx := fun s => Some (Ok (ctx s), s).
Definition getHeap : M heap := fun s => Some (Ok (hp s), s).
Definition setCtx (f : Ctx -> Ctx) : M unit := fun s => Some (Ok tt, mkSt (f (ctx s)) (hp s) (exps s)).
Definition setHeap (f : heap -> heap) : M unit := fun s => Some (Ok tt, mkSt (ctx s) (f (hp s)) (exps s)).

(** [exp[name] = v] when [exp] is not nil. *)
Definition setExp (exp : bool) (name : string) (v : Value) : M unit := fun s =>
  Some (Ok tt, mkSt (ctx s) (hp s) (if exp then <[name := v]> (exps s) else exps s)).

(** [return ..., Errf(ctx, pos, msg)]. *)
Definition raise {A} (pos : Pos) (msg : string) : M A :=
  let* c := getCtx in throw (Errf c pos msg).

(** A result of a function that was not given the context. *)
Definition wrap {A} (r : res Err A) : M A :=
  match r with
  | Ok a => ok a
  | Er e => let* c := getCtx in throw (WrapErr c e)
  end.

(** [NewEnv(up)]. *)
Definition NewEnv (up : option nat) : M nat := fun s =>
  Some (Ok (length (hp s)), mkSt (ctx s) (hp s ++ [mkEnv up ∅]) (exps s)).

Definition Def (env : nat) (name : string) (v : Value) : M unit :=
  setHeap (DefWith env name v false).
Definition DefConst (env : nat) (name : string) (v : Value) : M unit :=
  setHeap (DefWith env name v true).

Definition Set_ (env : nat) (name : string) (v : Value) : M (bool * bool) := fun s =>
  let '(found, isConst, h) := env_Set env name v (hp s) in
  Some (Ok (found, isConst), mkSt (ctx s) h (exps s)).

(** [for _, x := range l { f(x) }], collecting what [f] returns. *)
Fixpoint mapM {A B} (f : A -> M B) (l : list A) : M (list B) :=
  match l with
  | [] => ok []
  | x :: r => let* y := f x in let* ys := mapM f r in ok (y :: ys)
  end.

Fixpoint forM {A} (f : A -> M unit) (l : list A) : M unit :=
  match l with
  | [] => ok tt
  | x :: r => f x >> forM f r
  end.

(** ** The step counter *)

(** [Ctx.tick]. *)
Definition tick (pos : Pos) : M unit := fun s =>
  let c := set_steps (steps (ctx s) + 1) (ctx s) in
  let s' := mkSt c (hp s) (exps s) in
  if (0 <? MaxSteps (Lim c))%Z && (MaxSteps (Lim c) <? steps c)%Z
  then Some (Er (rtAbort c pos AbortScript "step limit exceeded"), s')
  else if (0 <? Timeout (Lim c))%Z && (Timeout (Lim c) <? elapsed c (steps c))%Z
  then Some (Er (rtAbort c pos AbortTimeout "timeout exceeded"), s')
  else match done_at c (steps c) with
       | Some why => Some (Er (rtAbort c pos AbortCanceled ("canceled: " +:+ why)), s')
       | None => Some (Ok tt, s')
       end.

(** ** Limits *)

Definition over (limit n : Z) : bool := (0 <? limit)%Z && (limit <? n)%Z.

Definition CheckStr (pos : Pos) (s : string) : M unit :=
  let* c := getCtx in
  if over (MaxStr (Lim c)) (slen s) then raise pos "string too long" else ok tt.

Definition CheckList (pos : Pos) (n : nat) : M unit :=
  let* c := getCtx in
  if over (MaxList (Lim c)) (Z.of_nat n) then raise pos "list too large" else ok tt.

Definition CheckDict (pos : Pos) (n : nat) : M unit :=
  let* c := getCtx in
  if over (MaxDict (Lim c)) (Z.of_nat n) then raise pos "dict too large" else ok tt.

(** [VM.chkVal]. *)
Definition chkVal (pos : Pos) (v : Value) : M unit :=
  match v with
  | VStr s => CheckStr pos s
  | VList l => CheckList pos (length l)
  | VDict m => CheckDict pos (size m)
  | _ => ok tt
  end.

(** ** Conversions *)

Section conversions.
Context `{Host}.

Definition kindText (v : Value) : string := "<" +:+ itoa (vkind v) +:+ ">".

Fixpoint ToIface (v : Value) : Iface :=
  match v with
  | VNull => INil
  | VBool b => IBool b
  | VNum n => INum n
  | VStr s => IStr s
  | VList l => IList (map ToIface l)
  | VDict m => IMap (ToIface <$> m)
  | VObj (Some (ResultObj ok val err)) =>
      IMap (<["error" := if ok || bool_decide (err = EmptyString) then INil else IStr err]>
            (<["value" := ToIface val]> {["ok" := IBool ok]}))
  | VObj (Some (HostObj id)) =>
      match host_iface id with Some i => i | None => IStr (kindText v) end
  | _ => IStr (kindText v)
  end.

(** Whether an object implements [InterfaceValuer]. *)
Definition has_iface (o : Object) : bool :=
  match o with
  | ResultObj _ _ _ => true
  | HostObj id => bool_decide (is_Some (host_iface id))
  | _ => false
  end.

(** [json.Marshal(ToIface(v))], within the string limit. *)
Definition marshalStr (pos : Pos) (v : Value) : M string :=
  match Marshal (ToIface v) with
  | None => raise pos "json encode failed"
  | Some data => CheckStr pos data >> ok data
  end.

Definition ToStr (pos : Pos) (v : Value) : M string :=
  match v with
  | VStr s => ok s
  | VNum n => ok (FormatG n)
  | VBool b => ok (if b then "true" else "false")
  | VNull => ok EmptyString
  | VList _ | VDict _ => marshalStr pos v
  | VObj (Some o) =>
      if has_iface o then marshalStr pos v
      else raise pos ("cannot stringify " +:+ itoa (vkind v))
  | _ => raise pos ("cannot stringify " +:+ itoa (vkind v))
  end.

Definition toNum (pos : Pos) (v : Value) : res Err float64 :=
  match v with
  | VNum n => Ok n
  | _ => Er (Errf_nil pos "expected number")
  end.

Definition Key (pos : Pos) (v : Value) : res Err string :=
  match v with
  | VStr s => Ok s
  | _ => Er (Errf_nil pos "expected string key")
  end.

(** ** Result objects and the other objects of the package *)

Definition newResult (r : res Err Value) : Value :=
  match r with
  | Ok v => VObj (Some (ResultObj true v EmptyString))
  | Er e => VObj (Some (ResultObj false VNull (Err_Error e)))
  end.

(** [resultObj.Member]. *)
Definition result_Member (okv : bool) (val : Value) (err : string) (pos : Pos) (name : string)
  : M (Value * bool) :=
  if bool_decide (name = "ok") then ok (VBool okv, true)
  else if bool_decide (name = "value") then ok (val, true)
  else if bool_decide (name = "error") then
    if okv || bool_decide (err = EmptyString) then ok (VNull, true)
    else CheckStr pos err >> ok (VStr err, true)
  else ok (VNull, false).

Definition map_Member (m : gmap string Value) (name : string) : Value * bool :=
  match m !! name with Some v => (v, true) | None => (VNull, false) end.

(** [Object.Member]. *)
Definition obj_Member (o : Object) (pos : Pos) (name : string) : M (Value * bool) :=
  match o with
  | ResultObj okv val err => result_Member okv val err pos name
  | ModObj _ m | ObjMap _ m => ok (map_Member m name)
  | HostObj id => let* c := getCtx in lift (host_member id c pos name)
  end.

(** [Object.Index]. *)
Definition obj_Index (o : Object) (pos : Pos) (key : Value) : M Value :=
  match o with
  | ResultObj okv val err =>
      let* k := lift (Key pos key) in
      let* r := result_Member okv val err pos k in
      ok (if r.2 then r.1 else VNull)
  | ModObj _ m | ObjMap _ m =>
      let* k := lift (Key pos key) in
      ok (map_Member m k).1
  | HostObj id => let* c := getCtx in lift (host_index id c pos key)
  end.

(** [WrapErr(vm.ctx, err)] around a call. *)
Definition wrapping {A} (m : M A) : M A := let* r := catch m in wrap r.

(** [VM.checkBound]. *)
Definition checkBound (pos : Pos) (v : Value) : M unit :=
  match v with
  | VObj (Some (HostObj id)) =>
      match host_unbound id with
      | Some why =>
          if bool_decide (why = EmptyString) then ok tt
          else let* c := getCtx in throw (rtAbort c pos AbortScript why)
      | None => ok tt
      end
  | _ => ok tt
  end.
End conversions.

(** ** Operators *)

Definition f2_63 : float64 := f_of_Z (2 ^ 63).

(** [int(n)] on amd64: a value out of range becomes the least integer. *)
Definition go_int (z : Z) : Z := if (z <? 2 ^ 63)%Z && (- 2 ^ 63 <=? z)%Z then z else (- 2 ^ 63)%Z.

(** [VM.listIndex]. *)
Definition listIndex (pos : Pos) (idx : Value) : M Z :=
  match idx with
  | VNum n =>
      if IsNaN n || IsInf n || negb (f_eq (f_trunc n) n) then raise pos "list index must be integer"
      else if f_lt f2_63 n || f_lt n (f_sub (f_neg f2_63) (f_of_Z 1)) then
        raise pos "list index out of range"
      else ok (go_int (default 0%Z (f_to_Z n)))
  | _ => raise pos "list index must be number"
  end.

Definition list_at (l : list Value) (i : Z) : Value :=
  if (i <? 0)%Z || (Z.of_nat (length l) <=? i)%Z then VNull
  else default VNull (l !! Z.to_nat i).

Definition cmp_num (op : BinOp) (a b : float64) : option bool :=
  match op with
  | OpLt => Some (f_lt a b)
  | OpLe => Some (f_le a b)
  | OpGt => Some (f_lt b a)
  | OpGe => Some (f_le b a)
  | _ => None
  end.

Definition cmp_str (op : BinOp) (a b : string) : option bool :=
  match op with
  | OpLt => Some (str_lt a b)
  | OpLe => Some (str_le a b)
  | OpGt => Some (str_lt b a)
  | OpGe => Some (str_le b a)
  | _ => None
  end.

Definition cmp (pos : Pos) (op : BinOp) (a b : Value) : M Value :=
  match match a, b with
        | VNum x, VNum y => cmp_num op x y
        | VStr x, VStr y => cmp_str op x y
        | _, _ => None
        end with
  | Some r => ok (VBool r)
  | None => raise pos "cannot compare"
  end.

(** ** The evaluator

    [exp] says whether an export map was passed on ([exp != nil]). *)

(** The methods that close the recursion. *)
Record VM := mkVM {
  vm_eval : nat -> Expr -> M Value;
  vm_execStmt : nat -> bool -> Stmt -> M unit;
  vm_forLoop : nat -> bool -> Pos -> string -> option Expr -> option Stmt -> Block -> M unit;
  vm_callVal : Pos -> Value -> list Value -> M Value
}.

Inductive loopAction : Set := loopNext | loopBreak | loopContinue.

(** Native functions, which may call back: what the evaluator relies on. *)
Class Natives := native_call : (Pos -> Value -> list Value -> M Value) -> NatFn -> Pos -> list Value -> M Value.

Section vm.
Context `{Host} `{Natives}.
Variable vm : VM.

Definition execBlock (up : nat) (exp : bool) (b : Block) : M unit :=
  let* env := NewEnv (Some up) in
  forM (vm_execStmt vm env exp) (block_stmts b).

(** [execBlock] of a pointer that may be nil. *)
Definition execBlockOpt (up : nat) (exp : bool) (b : option Block) : M unit :=
  match b with None => ok tt | Some b => execBlock up exp b end.

(** *** Calls *)

(** [env.Def(name, args[i])] for every parameter. *)
Definition bindArgs (env : nat) (params : list string) (args : list Value) : M unit :=
  forM (fun p => Def env p.1 p.2) (zip params args).

(** What becomes of the outcome of a function body. *)
Definition fnResult (r : res Err unit) : M Value :=
  match r with
  | Ok _ => ok VNull
  | Er (ERet v) => ok v
  | Er (EBreak p _) => raise p "break outside loop or switch"
  | Er (EContinue p _) => raise p "continue outside loop"
  | Er e => throw e
  end.

(** The deferred [pop] and [depth--] run after the result is built. *)
Definition deferred {A} (m : M A) (f : Ctx -> Ctx) : M A :=
  let* r := catch m in setCtx f >> lift r.

Definition enterFn (fn : Func) (c : Ctx) : Ctx :=
  push (mkFrame FrameFn (fn_pos fn) (fn_name fn)) (set_call (depth c + 1) (stack c) c).
Definition leaveFn (c : Ctx) : Ctx :=
  let c' := pop c in set_call (depth c' - 1) (stack c') c'.

Definition callFn (pos : Pos) (fn : Func) (args : list Value) : M Value :=
  if negb (length args =? length (fn_args fn)) then raise pos "arg count mismatch"
  else
    let* c := getCtx in
    if (0 <? MaxCall (Lim c))%Z && (MaxCall (Lim c) <=? depth c)%Z then
      raise pos "call depth exceeded"
    else
      setCtx (enterFn fn) >>
      deferred
        (let* env := NewEnv (Some (fn_env fn)) in
         bindArgs env (fn_args fn) args >>
         let* r := catch (execBlock env false (fn_body fn)) in
         fnResult r)
        leaveFn.

(** [CallValue] is what a native function may call back. *)
Definition callVal (pos : Pos) (cal : Value) (args : list Value) : M Value :=
  match cal with
  | VFunc None => raise pos "call on nil fn"
  | VFunc (Some fn) => callFn pos fn args
  | VNative None => raise pos "call on nil native"
  | VNative (Some nf) =>
      let* v := native_call (vm_callVal vm) nf pos args in
      chkVal pos v >> ok v
  | _ => raise pos "not callable"
  end.

(** *** Statements *)

Definition execLet (env : nat) (exp : bool) (p : Pos) (exported const : bool) (name : string)
    (val : Expr) : M unit :=
  let* h := getHeap in
  if HasLocal env name h then raise p ("name already defined: " +:+ quote name)
  else
    let* v := vm_eval vm env val in
    chkVal p v >>
    (if const then DefConst env name v else Def env name v) >>
    setExp (exported && exp) name v.

(** The two error returns that follow every [env.Set]. *)
Definition assign (env : nat) (name : string) (v : Value) (p : Pos) : M unit :=
  let* r := Set_ env name v in
  let '(found, isConst) := r in
  if negb found then raise p ("assign to undefined name " +:+ quote name)
  else if isConst : bool then raise p ("assign to const name " +:+ quote name)
  else ok tt.

Definition execFnDef (env : nat) (exp : bool) (p : Pos) (exported : bool) (name : string)
    (params : list string) (body : Block) : M unit :=
  let* h := getHeap in
  if HasLocal env name h then raise p ("name already defined: " +:+ quote name)
  else
    let v := VFunc (Some (mkFunc name params body env p)) in
    DefConst env name v >> setExp (exported && exp) name v.

Fixpoint execElifs (env : nat) (exp : bool) (elifs : list (Expr * Block)) (els : option Block)
  : M unit :=
  match elifs with
  | [] => execBlockOpt env exp els
  | (c, b) :: rest =>
      let* v := vm_eval vm env c in
      if IsTruthy v then execBlock env exp b else execElifs env exp rest els
  end.

(** [matchCase]. *)
Fixpoint matchCase (env : nat) (tag : option Value) (exprs : list Expr) : M bool :=
  match exprs with
  | [] => ok false
  | ex :: rest =>
      let* v := vm_eval vm env ex in
      if match tag with Some t => ValueEqual t v | None => IsTruthy v end then ok true
      else matchCase env tag rest
  end.

(** A [break] that targets the switch stops here. *)
Definition switchOutcome (label : string) (r : res Err unit) : M unit :=
  match r with
  | Er (EBreak p l) => if targets l label then ok tt else throw (EBreak p l)
  | _ => lift r
  end.

Definition execClause (up : nat) (exp : bool) (label : string) (body : option Block) : M unit :=
  let* r := catch (execBlockOpt up exp body) in switchOutcome label r.

(** The loop of [execSwitch] over the clauses; [def] is the default clause
    seen so far. *)
Fixpoint execClauses (up : nat) (exp : bool) (label : string) (tag : option Value)
    (def : option Block) (clauses : list CaseClause) : M unit :=
  match clauses with
  | [] => execClause up exp label def
  | mkClause _ [] b :: rest => execClauses up exp label tag (Some b) rest
  | mkClause _ es b :: rest =>
      let* m := matchCase up tag es in
      if m : bool then execClause up exp label (Some b)
      else execClauses up exp label tag def rest
  end.

Definition evalOpt (env : nat) (e : option Expr) : M (option Value) :=
  match e with
  | None => ok None
  | Some e => let* v := vm_eval vm env e in ok (Some v)
  end.

Definition execSwitch (up : nat) (exp : bool) (label : string) (tag : option Expr)
    (clauses : list CaseClause) : M unit :=
  let* t := evalOpt up tag in
  execClauses up exp label t None clauses.

(** What a loop does after one iteration. *)
Definition loopOutcome (label : string) (r : res Err unit) : M loopAction :=
  match r with
  | Ok _ => ok loopNext
  | Er (EBreak p l) => if targets l label then ok loopBreak else throw (EBreak p l)
  | Er (EContinue p l) => if targets l label then ok loopContinue else throw (EContinue p l)
  | Er e => throw e
  end.

Definition execLoopBlock (env : nat) (exp : bool) (label : string) (body : Block) : M loopAction :=
  let* r := catch (execBlock env exp body) in loopOutcome label r.

Definition execOpt (env : nat) (exp : bool) (s : option Stmt) : M unit :=
  match s with None => ok tt | Some s => vm_execStmt vm env exp s end.

(** One round of [for { tick; cond; body; post }], and the rounds after it. *)
Definition forLoop (env : nat) (exp : bool) (p : Pos) (label : string) (cond : option Expr)
    (post : option Stmt) (body : Block) : M unit :=
  tick p >>
  let* c := evalOpt env cond in
  if match c with Some v => negb (IsTruthy v) | None => false end then ok tt
  else
    let* a := execLoopBlock env exp label body in
    match a with
    | loopBreak => ok tt
    | loopNext | loopContinue =>
        execOpt env exp post >> vm_forLoop vm env exp p label cond post body
    end.

(** *** Range loops *)

Definition blank (name : string) : bool :=
  bool_decide (name = EmptyString) || bool_decide (name = "_").

Definition defRangeVar (env : nat) (name : string) : M unit :=
  if blank name then ok tt else DefConst env name VNull.

Definition assignRangeVar (env : nat) (name : string) (val : Value) (declare : bool) (pos : Pos)
  : M unit :=
  if blank name then ok tt
  else if declare then DefConst env name val
  else assign env name val pos.

Definition execRangeStep (env : nat) (exp : bool) (p : Pos) (label : string) (rng : ForRange)
    (body : Block) (keyVal itemVal : Value) : M loopAction :=
  assignRangeVar env (fr_key rng) keyVal (fr_declare rng) p >>
  assignRangeVar env (fr_val rng) itemVal (fr_declare rng) p >>
  execLoopBlock env exp label body.

Fixpoint rangeOver (env : nat) (exp : bool) (p : Pos) (label : string) (rng : ForRange)
    (body : Block) (items : list (Value * Value)) : M unit :=
  match items with
  | [] => ok tt
  | (k, v) :: rest =>
      tick p >>
      let* a := execRangeStep env exp p label rng body k v in
      match a with
      | loopBreak => ok tt
      | loopNext | loopContinue => rangeOver env exp p label rng body rest
      end
  end.

(** The pairs a [range] yields, in order: [None] is a value that cannot be
    iterated. *)
Definition rangeItems (src : Value) : option (list (Value * Value)) :=
  match src with
  | VList l => Some (imap (fun i it => (VNum (f_of_Z (Z.of_nat i)), it)) l)
  | VDict m => Some (map (fun k => (VStr k, default VNull (m !! k))) (sorted_keys m))
  | VStr s => Some (map (fun r => (VNum (f_of_Z (Z.of_nat r.1)), VStr r.2)) (runes s))
  | _ => None
  end.

Definition execRange (up : nat) (exp : bool) (p : Pos) (label : string) (rng : ForRange)
    (body : Block) : M unit :=
  let* env := NewEnv (Some up) in
  let* src := vm_eval vm env (fr_expr rng) in
  (if fr_declare rng then defRangeVar env (fr_key rng) >> defRangeVar env (fr_val rng) else ok tt) >>
  match rangeItems src with
  | Some items => rangeOver env exp p label rng body items
  | None => raise (expr_pos (fr_expr rng)) "range over non-iterable value"
  end.

Definition execFor (up : nat) (exp : bool) (p : Pos) (label : string) (init : option Stmt)
    (cond : option Expr) (post : option Stmt) (range : option ForRange) (body : Block) : M unit :=
  match range with
  | Some rng => execRange up exp p label rng body
  | None =>
      let* env := NewEnv (Some up) in
      execOpt env exp init >>
      vm_forLoop vm env exp p label cond post body
  end.

Definition execStmt (env : nat) (exp : bool) (st : Stmt) : M unit :=
  tick (stmt_pos st) >>
  match st with
  | LetStmt p exported const name val => execLet env exp p exported const name val
  | AssignStmt p name val =>
      let* v := vm_eval vm env val in
      chkVal p v >> assign env name v p
  | ReturnStmt _ None => throw (ERet VNull)
  | ReturnStmt _ (Some e) => let* v := vm_eval vm env e in throw (ERet v)
  | ExprStmt _ e => let* _ := vm_eval vm env e in ok tt
  | FnDef p exported name params body => execFnDef env exp p exported name params body
  | IfStmt _ cond th elifs els => execElifs env exp ((cond, th) :: elifs) els
  | SwitchStmt _ label _ tag clauses => execSwitch env exp label tag clauses
  | ForStmt p label _ init cond post range body => execFor env exp p label init cond post range body
  | BreakStmt p label => throw (EBreak p label)
  | ContinueStmt p label => throw (EContinue p label)
  end.

(** *** Expressions *)

Definition evalIdent (env : nat) (p : Pos) (name : string) : M Value :=
  let* h := getHeap in
  match env_Get env name h with
  | None => raise p ("undefined name " +:+ quote name)
  | Some v => checkBound p v >> ok v
  end.

Definition evalLiteral (p : Pos) (kind : LitKind) (b : bool) (n : float64) (s : string) : M Value :=
  match kind with
  | LitNull => ok VNull
  | LitBool => ok (VBool b)
  | LitNum => ok (VNum n)
  | LitStr => CheckStr p s >> ok (VStr s)
  end.

Definition evalUnary (p : Pos) (op : UnOp) (x : Value) : M Value :=
  match op with
  | UnNot => ok (VBool (negb (IsTruthy x)))
  | UnNeg => let* n := wrap (toNum p x) in ok (VNum (f_neg n))
  end.

Definition evalArith (p : Pos) (op : BinOp) (ln rn : float64) : M Value :=
  match op with
  | OpSub => ok (VNum (f_sub ln rn))
  | OpMul => ok (VNum (f_mul ln rn))
  | OpDiv => if f_eq rn f_zero then raise p "division by zero" else ok (VNum (f_div ln rn))
  | OpMod => if f_eq rn f_zero then raise p "division by zero" else ok (VNum (f_mod ln rn))
  | _ => raise p "bad op"
  end.

Definition evalAdd (p : Pos) (l r : Value) : M Value :=
  match l, r with
  | VNum x, VNum y => ok (VNum (f_add x y))
  | _, _ =>
      let* ls := ToStr p l in
      let* rs := ToStr p r in
      CheckStr p (ls +:+ rs) >> ok (VStr (ls +:+ rs))
  end.

(** [evalBin] once both operands are values. *)
Definition evalStrict (p : Pos) (op : BinOp) (l r : Value) : M Value :=
  match op with
  | OpAdd => evalAdd p l r
  | OpSub | OpMul | OpDiv | OpMod =>
      let* ln := wrap (toNum p l) in
      let* rn := wrap (toNum p r) in
      evalArith p op ln rn
  | OpEq => ok (VBool (ValueEqual l r))
  | OpNe => ok (VBool (negb (ValueEqual l r)))
  | OpLt | OpLe | OpGt | OpGe => cmp p op l r
  | OpAnd | OpOr | OpCoalesce => raise p "bad op"
  end.

Definition is_null (v : Value) : bool := match v with VNull => true | _ => false end.

Definition evalBin (env : nat) (p : Pos) (op : BinOp) (left right : Expr) : M Value :=
  let* l := vm_eval vm env left in
  match op with
  | OpAnd =>
      if negb (IsTruthy l) then ok (VBool false)
      else let* r := vm_eval vm env right in ok (VBool (IsTruthy r))
  | OpOr =>
      if IsTruthy l then ok (VBool true)
      else let* r := vm_eval vm env right in ok (VBool (IsTruthy r))
  | OpCoalesce =>
      if negb (is_null l) then ok l else vm_eval vm env right
  | _ => let* r := vm_eval vm env right in evalStrict p op l r
  end.

(** [try]: an abort is passed on. *)
Definition tryOutcome (r : res Err Value) : M Value :=
  match r with
  | Er e => if isAbort e then throw e else ok (newResult r)
  | Ok _ => ok (newResult r)
  end.

Definition evalIndex (p : Pos) (x idx : Value) : M Value :=
  match x with
  | VList l => let* i := listIndex p idx in ok (list_at l i)
  | VDict m => let* k := wrap (Key p idx) in ok (default VNull (m !! k))
  | VObj None => raise p "object has no index"
  | VObj (Some o) => checkBound p x >> wrapping (obj_Index o p idx)
  | _ => raise p "index on non-collection"
  end.

Definition evalMember (p : Pos) (x : Value) (name : string) : M Value :=
  match x with
  | VDict m => ok (default VNull (m !! name))
  | VObj None => raise p "object has no members"
  | VObj (Some o) =>
      checkBound p x >>
      let* r := wrapping (obj_Member o p name) in
      ok (if r.2 then r.1 else VNull)
  | _ => raise p "member on non-object"
  end.

Definition evalEntry (env : nat) (it : Pos * string * Expr) : M (string * Value) :=
  let '(p, key, e) := it in
  CheckStr p key >>
  let* v := vm_eval vm env e in ok (key, v).

(** [out[it.Key] = v] for every entry in order: the last one wins. *)
Definition dictOf (entries : list (string * Value)) : gmap string Value :=
  foldl (fun m kv => <[kv.1 := kv.2]> m) ∅ entries.

Definition eval (env : nat) (ex : Expr) : M Value :=
  tick (expr_pos ex) >>
  match ex with
  | Ident p name => evalIdent env p name
  | Literal p kind b n s => evalLiteral p kind b n s
  | Unary p op x => let* v := vm_eval vm env x in evalUnary p op v
  | Binary p op l r => evalBin env p op l r
  | Ternary _ c t e =>
      let* v := vm_eval vm env c in
      if IsTruthy v then vm_eval vm env t else vm_eval vm env e
  | TryExpr _ x => let* r := catch (vm_eval vm env x) in tryOutcome r
  | Call p callee args =>
      let* cal := vm_eval vm env callee in
      let* vs := mapM (vm_eval vm env) args in
      callVal p cal vs
  | Index p x i =>
      let* v := vm_eval vm env x in
      let* idx := vm_eval vm env i in
      evalIndex p v idx
  | Member p x name => let* v := vm_eval vm env x in evalMember p v name
  | ListLit p elems =>
      CheckList p (length elems) >>
      let* vs := mapM (vm_eval vm env) elems in ok (VList vs)
  | DictLit p entries =>
      CheckDict p (length entries) >>
      let* kvs := mapM (evalEntry env) entries in ok (VDict (dictOf kvs))
  end.
End vm.

(** ** The knot *)

Section knot.
Context `{Host} `{Natives}.

Fixpoint vm_at (n : nat) : VM :=
  match n with
  | O => mkVM (fun _ _ => out_of_fuel) (fun _ _ _ => out_of_fuel)
           (fun _ _ _ _ _ _ _ => out_of_fuel) (fun _ _ _ => out_of_fuel)
  | S n' =>
      let vm := vm_at n' in mkVM (eval vm) (execStmt vm) (forLoop vm) (callVal vm)
  end.

(** A module that has been run. *)
Record Comp := mkComp { comp_Mod : Mod; comp_Env : nat; comp_Exp : gmap string Value }.

(** The environment a run starts from: every binding of the prelude is constant. *)
Definition preEnv (pre : gmap string Value) : Env :=
  mkEnv None ((fun v => mkBinding v true) <$> pre).

(** [exp := map[string]Value{}]. *)
Definition newExp : M unit := fun s => Some (Ok tt, mkSt (ctx s) (hp s) ∅).

Definition startEnv (pre : gmap string Value) : M nat := fun s =>
  Some (Ok (length (hp s)), mkSt (ctx s) (hp s ++ [preEnv pre]) (exps s)).

(** What becomes of the outcome of a top-level statement. *)
Definition topOutcome (p : Pos) (r : res Err unit) : M unit :=
  match r with
  | Ok _ => ok tt
  | Er (ERet _) => raise p "return outside fn"
  | Er (EBreak q _) => raise q "break outside loop or switch"
  | Er (EContinue q _) => raise q "continue outside loop"
  | Er e => throw e
  end.

Definition getExp : M (gmap string Value) := fun s => Some (Ok (exps s), s).

Definition Exec (n : nat) (mod_ : Mod) (pre : gmap string Value) : M Comp :=
  let* env := startEnv pre in
  newExp >>
  forM (fun st =>
          let* r := catch (vm_execStmt (vm_at n) env true st) in
          topOutcome (stmt_pos st) r) (mod_stmts mod_) >>
  let* exp := getExp in
  ok (mkComp mod_ env exp).

End knot.
