(* ===== verification/VmFacts.v ===== *)
(** * A program logic for the evaluator

    [sat] is the triple every method of the evaluator satisfies.  It carries,
    at once, what must hold of any run: values and environments stay well
    formed, the call stack is restored, constant bindings are kept, the step
    budget is respected, and fuel that exceeds the remaining steps suffices. *)
From stdpp Require Import base list strings gmap.
From Stdlib Require Import ZArith Lia.
From S2P Require Import Prelude GoStd GoFloat Token Ast Parser Scope Value Vm.

Set Warnings "-register-all".
Open Scope nat_scope.
Open Scope list_scope.
Open Scope vm_scope.

(** ** Well-formed values, heaps and states *)

(** Every closure in the value refers to one of the first [n] environments and
    has a well-formed body. *)
Inductive val_ok (n : nat) : Value -> Prop :=
  | ok_null : val_ok n VNull
  | ok_bool b : val_ok n (VBool b)
  | ok_num f : val_ok n (VNum f)
  | ok_str s : val_ok n (VStr s)
  | ok_list l : Forall (val_ok n) l -> val_ok n (VList l)
  | ok_dict m : (forall k v, m !! k = Some v -> val_ok n v) -> val_ok n (VDict m)
  | ok_nofn : val_ok n (VFunc None)
  | ok_fn f : fn_env f < n -> wf_block [] (fn_body f) = true -> val_ok n (VFunc (Some f))
  | ok_native nf : val_ok n (VNative nf)
  | ok_noobj : val_ok n (VObj None)
  | ok_result b v e : val_ok n v -> val_ok n (VObj (Some (ResultObj b v e)))
  | ok_mod nm m : (forall k v, m !! k = Some v -> val_ok n v) -> val_ok n (VObj (Some (ModObj nm m)))
  | ok_map nm m : (forall k v, m !! k = Some v -> val_ok n v) -> val_ok n (VObj (Some (ObjMap nm m)))
  | ok_host id : val_ok n (VObj (Some (HostObj id))).

#[export] Hint Constructors val_ok : rts.

Definition env_ok (n l : nat) (e : Env) : Prop :=
  (forall u, up e = Some u -> u < l) /\ (forall x b, vars e !! x = Some b -> val_ok n (b_val b)).

Definition heap_ok (h : heap) : Prop := forall l e, h !! l = Some e -> env_ok (length h) l e.

Definition st_ok (s : St) : Prop :=
  heap_ok (hp s) /\ (forall x v, exps s !! x = Some v -> val_ok (length (hp s)) v).

Definition hl (s : St) : nat := length (hp s).

(** ** What a run keeps *)

(** How a binding may change: a constant stays as it is, a variable stays a
    variable, and a new name appears only where [new] holds. *)
Definition kept_at (new : Prop) (ob ob' : option Binding) : Prop :=
  match ob with
  | Some b => if b_const b then ob' = Some b else exists v, ob' = Some (mkBinding v false)
  | None => new \/ ob' = None
  end.

(** The first [n] environments are kept; only [own] may gain names. *)
Definition kept (own : option nat) (n : nat) (h h' : heap) : Prop :=
  length h <= length h' /\
  forall l e, l < n -> h !! l = Some e ->
    exists e', h' !! l = Some e' /\ up e' = up e /\
      forall x, kept_at (own = Some l) (vars e !! x) (vars e' !! x).

(** The parts of the context that a call leaves as it found them. *)
Definition same_ctx (c c' : Ctx) : Prop :=
  Lim c' = Lim c /\ elapsed c' = elapsed c /\ done_at c' = done_at c
  /\ depth c' = depth c /\ stack c' = stack c /\ (steps c <= steps c')%Z.

Definition frame (own : option nat) (n : nat) (s s' : St) : Prop :=
  kept own n (hp s) (hp s') /\ same_ctx (ctx s) (ctx s').

(** ** The step budget *)

Definition limit (s : St) : Z := MaxSteps (Lim (ctx s)).
Definition used (s : St) : Z := steps (ctx s).

Definition budget (s : St) : Prop := (0 < limit s -> used s <= limit s)%Z.
Definition overrun (s : St) : Prop := (0 < limit s -> used s <= limit s + 1)%Z.

(** [k] levels of recursion are more than the steps that are left. *)
Definition fuel_ok (k : Z) (s : St) : Prop := (0 < limit s /\ limit s - used s < k)%Z.

Definition good (s : St) : Prop := st_ok s /\ budget s.

(** ** Which errors may leave a computation

    [None]: no control signal; [Some cs]: a return with a well-formed value, or
    a signal that some target of [cs] takes. *)
Definition err_ok (cs : option (list controlTarget)) (n : nat) (e : Err) : Prop :=
  match e with
  | ERet v => is_Some cs /\ val_ok n v
  | EBreak _ l => exists c, cs = Some c /\ break_ok c l = true
  | EContinue _ l => exists c, cs = Some c /\ continue_ok c l = true
  | _ => True
  end.

(** ** The triple *)

Definition sat (k : Z) (own : option nat) (n : nat) (cs : option (list controlTarget)) {A}
    (m : M A) (s : St) (Q : A -> St -> Prop) : Prop :=
  match m s with
  | None => ~ fuel_ok k s
  | Some (Ok a, s') => st_ok s' /\ frame own n s s' /\ budget s' /\ Q a s'
  | Some (Er e, s') =>
      st_ok s' /\ frame own n s s' /\ (isAbort e = false -> budget s') /\ overrun s'
      /\ err_ok cs (hl s') e
  end.

(** ** Lemmas on values and heaps *)

Lemma val_ok_mono n n' v : n <= n' -> val_ok n v -> val_ok n' v.
Proof.
  intros Hle. revert v. fix IH 2. intros v H.
  destruct H as [| | | |l Hl|m Hm| |f Hf| | |b v e Hv|nm m Hm|nm m Hm|]; constructor;
    try lia; try done; eauto.
  induction Hl as [|x l Hx Hl IHl]; constructor; [by apply IH | exact IHl].
Qed.

#[export] Hint Resolve val_ok_mono : rts.

Lemma kept_at_refl P ob : kept_at P ob ob.
Proof. destruct ob as [[v []]|]; simpl; eauto. Qed.

Lemma kept_refl own n h : kept own n h h.
Proof. split; [done|]. intros l e _ Hl. exists e. split_and!; try done. intros. apply kept_at_refl. Qed.

Lemma kept_trans own n h1 h2 h3 : kept own n h1 h2 -> kept own n h2 h3 -> kept own n h1 h3.
Proof.
  intros [L1 H1] [L2 H2]. split; [lia|]. intros l e Hn Hl.
  destruct (H1 l e Hn Hl) as (e2 & Hl2 & U2 & K2). destruct (H2 l e2 Hn Hl2) as (e3 & Hl3 & U3 & K3).
  exists e3. split_and!; [done|congruence|]. intros x. specialize (K2 x). specialize (K3 x).
  destruct (vars e !! x) as [[v []]|]; simpl in *.
  - rewrite K2 in K3. done.
  - destruct K2 as [v2 K2]. rewrite K2 in K3. done.
  - destruct K2 as [K2|K2]; [by left|]. rewrite K2 in K3. done.
Qed.

Lemma kept_weaken own own' n n' h h' :
  n' <= n -> (forall l, l < n' -> own = Some l -> own' = Some l) -> kept own n h h' -> kept own' n' h h'.
Proof.
  intros Hn Ho [L H]. split; [done|]. intros l e Hl He.
  destruct (H l e ltac:(lia) He) as (e' & He' & U & K). exists e'. split_and!; try done.
  intros x. specialize (K x). destruct (vars e !! x); [done|]. destruct K as [K|K]; [left|by right]. by apply Ho.
Qed.

Lemma same_ctx_refl c : same_ctx c c.
Proof. unfold same_ctx. by split_and!. Qed.

Lemma same_ctx_trans c1 c2 c3 : same_ctx c1 c2 -> same_ctx c2 c3 -> same_ctx c1 c3.
Proof. unfold same_ctx. intros. destruct_and?. split_and!; congruence || lia. Qed.

Lemma frame_refl own n s : frame own n s s.
Proof. split; [apply kept_refl | apply same_ctx_refl]. Qed.

Lemma frame_trans own n s1 s2 s3 : frame own n s1 s2 -> frame own n s2 s3 -> frame own n s1 s3.
Proof. intros [] []. split; [by eapply kept_trans | by eapply same_ctx_trans]. Qed.

Lemma frame_weaken own own' n n' s s' :
  n' <= n -> (forall l, l < n' -> own = Some l -> own' = Some l) -> frame own n s s' -> frame own' n' s s'.
Proof. intros ?? []. split; [by eapply kept_weaken | done]. Qed.

Lemma frame_hl own n s s' : frame own n s s' -> hl s <= hl s'.
Proof. by intros [[] _]. Qed.

Lemma frame_fuel own n k s s' : frame own n s s' -> ~ fuel_ok k s' -> ~ fuel_ok k s.
Proof.
  intros [_ (HL & _ & _ & _ & _ & Hs)] Hf [H1 H2]. apply Hf. unfold fuel_ok, limit, used in *.
  rewrite HL. split; lia.
Qed.

Lemma budget_overrun s : budget s -> overrun s.
Proof. unfold budget, overrun. lia. Qed.

Lemma err_ok_none cs n e : err_ok None n e -> err_ok cs n e.
Proof. destruct e; simpl; try done; [intros [[]]|intros (?&?&?)|intros (?&?&?)]; done. Qed.

#[export] Hint Resolve frame_refl budget_overrun : rts.

(** ** Rules *)

Section rules.
Context {A B : Type}.
Implicit Types (m : M A) (s : St).

Lemma sat_ret k own n cs (a : A) s (Q : A -> St -> Prop) :
  good s -> Q a s -> sat k own n cs (ok a) s Q.
Proof. intros [] ?. unfold sat. simpl. split_and!; auto with rts. Qed.

Lemma sat_throw k own n cs e s (Q : A -> St -> Prop) :
  good s -> err_ok cs (hl s) e -> sat k own n cs (throw e) s Q.
Proof. intros [] ?. unfold sat. simpl. split_and!; auto with rts. Qed.

Lemma sat_raise k own n cs p msg s (Q : A -> St -> Prop) :
  good s -> sat k own n cs (raise p msg) s Q.
Proof. intros H. by apply sat_throw. Qed.

Lemma sat_bind k own n cs m (f : A -> M B) s (Q1 : A -> St -> Prop) (Q : B -> St -> Prop) :
  sat k own n cs m s Q1 ->
  (forall a s', good s' -> frame own n s s' -> Q1 a s' -> sat k own n cs (f a) s' Q) ->
  sat k own n cs (bind m f) s Q.
Proof.
  unfold sat, bind. intros Hm Hf. destruct (m s) as [[[a|e] s']|]; [|done|done].
  destruct Hm as (H1 & H2 & H3 & H4). specialize (Hf a s' (conj H1 H3) H2 H4).
  destruct (f a s') as [[[b|e] s'']|].
  - destruct Hf as (?&?&?&?). split_and!; try done. by eapply frame_trans.
  - destruct Hf as (?&?&?&?&?). split_and!; try done. by eapply frame_trans.
  - by eapply frame_fuel.
Qed.

Lemma sat_mono k own n cs m s (Q1 Q : A -> St -> Prop) :
  sat k own n cs m s Q1 -> (forall a s', good s' -> frame own n s s' -> Q1 a s' -> Q a s') ->
  sat k own n cs m s Q.
Proof.
  unfold sat. intros Hm HQ. destruct (m s) as [[[a|e] s']|]; [|done|done].
  destruct Hm as (?&?&?&?). split_and!; try done. by apply HQ.
Qed.

(** A computation that keeps more may stand where less is asked. *)
Lemma sat_weaken k k' own own' n n' cs m s (Q : A -> St -> Prop) :
  (k' <= k)%Z -> n' <= n -> (forall l, l < n' -> own = Some l -> own' = Some l) ->
  sat k own n None m s Q -> sat k' own' n' cs m s Q.
Proof.
  unfold sat. intros Hk Hn Ho Hm. destruct (m s) as [[[a|e] s']|].
  - destruct Hm as (?&?&?&?). split_and!; try done. by eapply frame_weaken.
  - destruct Hm as (?&?&?&?&?). split_and!; try done; [by eapply frame_weaken|by apply err_ok_none].
  - intros [? ?]. apply Hm. split; lia.
Qed.

Lemma sat_weaken_own k own own' n n' cs m s (Q : A -> St -> Prop) :
  n' <= n -> (forall l, l < n' -> own = Some l -> own' = Some l) ->
  sat k own n cs m s Q -> sat k own' n' cs m s Q.
Proof.
  unfold sat. intros Hn Ho Hm. destruct (m s) as [[[a|e] s']|]; [| |done].
  - destruct Hm as (?&?&?&?). split_and!; try done. by eapply frame_weaken.
  - destruct Hm as (?&?&?&?&?). split_and!; try done. by eapply frame_weaken.
Qed.

(** The outcome of [m] is inspected; an abort must be passed on. *)
Lemma sat_catch k own n cs cs' m (f : res Err A -> M B) s
    (Q1 : A -> St -> Prop) (Q : B -> St -> Prop) :
  sat k own n cs' m s Q1 ->
  (forall a s', good s' -> frame own n s s' -> Q1 a s' -> sat k own n cs (f (Ok a)) s' Q) ->
  (forall e s', good s' -> frame own n s s' -> isAbort e = false -> err_ok cs' (hl s') e ->
     sat k own n cs (f (Er e)) s' Q) ->
  (forall e s', isAbort e = true -> exists e', f (Er e) s' = Some (Er e', s') /\ isAbort e' = true) ->
  sat k own n cs (bind (catch m) f) s Q.
Proof.
  unfold sat, bind, catch. intros Hm Hok Her Hab. destruct (m s) as [[[a|e] s']|]; [| |done].
  - destruct Hm as (H1 & H2 & H3 & H4). specialize (Hok a s' (conj H1 H3) H2 H4).
    destruct (f (Ok a) s') as [[[b|e] s'']|].
    + destruct Hok as (?&?&?&?). split_and!; try done. by eapply frame_trans.
    + destruct Hok as (?&?&?&?&?). split_and!; try done. by eapply frame_trans.
    + by eapply frame_fuel.
  - destruct Hm as (H1 & H2 & H3 & H4 & H5). destruct (isAbort e) eqn:Eab.
    + destruct (Hab e s' Eab) as (e' & -> & Hab'). split_and!; try done.
      * intros ?. congruence.
      * by destruct e'.
    + specialize (Her e s' (conj H1 (H3 eq_refl)) H2 Eab H5).
      destruct (f (Er e) s') as [[[b|e'] s'']|].
      * destruct Her as (?&?&?&?). split_and!; try done. by eapply frame_trans.
      * destruct Her as (?&?&?&?&?). split_and!; try done. by eapply frame_trans.
      * by eapply frame_fuel.
Qed.
End rules.

(** [sat] of a tick pays for one level of fuel. *)
Lemma tick_spec s p (P : option (res Err unit * St) -> Prop) :
  good s ->
  (forall s', good s' -> frame None (hl s) s s' -> hp s' = hp s -> exps s' = exps s ->
     used s' = (used s + 1)%Z -> limit s' = limit s -> P (Some (Ok tt, s'))) ->
  (forall e s', isAbort e = true -> st_ok s' -> frame None (hl s) s s' -> overrun s' -> P (Some (Er e, s'))) ->
  P (tick p s).
Proof.
  intros [Hs Hb] Hok Hab. unfold tick.
  set (s' := mkSt _ _ _). set (c := set_steps _ _).
  assert (frame None (hl s) s s').
  { split; [apply kept_refl|]. unfold same_ctx. split_and!; try done. simpl. lia. }
  assert (overrun s'). { unfold overrun, budget, limit, used in *. simpl. lia. }
  destruct ((0 <? MaxSteps (Lim c))%Z && (MaxSteps (Lim c) <? steps c)%Z) eqn:E1; [by apply Hab|].
  destruct ((0 <? Timeout (Lim c))%Z && _); [by apply Hab|].
  destruct (done_at c (steps c)); [by apply Hab|].
  apply Hok; try done. split; [done|]. unfold budget, limit, used. simpl.
  apply andb_false_iff in E1. rewrite Z.ltb_ge, Z.ltb_ge in E1. simpl in E1. lia.
Qed.

Lemma sat_tick {A} k own n cs p (m : M A) s Q :
  good s -> n <= hl s ->
  (forall s', good s' -> hp s' = hp s -> exps s' = exps s -> used s' = (used s + 1)%Z ->
     sat k own n cs m s' Q) ->
  sat (k + 1) own n cs (tick p >> m) s Q.
Proof.
  intros Hg Hn Hm. unfold sat, bind. apply tick_spec; [done| |].
  - intros s' Hg' Hf Hh Hx Hu Hl. specialize (Hm s' Hg' Hh Hx Hu). unfold sat in Hm.
    assert (frame own n s s') by (eapply frame_weaken; [..|exact Hf]; done).
    destruct (m s') as [[[a|e] s'']|].
    + destruct Hm as (?&?&?&?). split_and!; try done. by eapply frame_trans.
    + destruct Hm as (?&?&?&?&?). split_and!; try done. by eapply frame_trans.
    + intros [H1 H2]. apply Hm. unfold fuel_ok. rewrite Hl, Hu. split; lia.
  - intros e s' Hab Hs Hf Ho. split_and!; try done.
    + eapply frame_weaken; [..|exact Hf]; done.
    + intros ?. congruence.
    + by destruct e.
Qed.

Lemma sat_fuel {A} k k' own n cs (m : M A) s Q :
  (k' <= k)%Z -> sat k own n cs m s Q -> sat k' own n cs m s Q.
Proof.
  unfold sat. intros Hk Hm. destruct (m s) as [[[a|e] s']|]; [done|done|].
  intros [? ?]. apply Hm. split; lia.
Qed.

Lemma sat_out_of_fuel {A} k own n cs s (Q : A -> St -> Prop) :
  (k <= 0)%Z -> good s -> sat k own n cs out_of_fuel s Q.
Proof. intros Hk [_ Hb] [H1 H2]. specialize (Hb H1). lia. Qed.

(** *** State *)

Lemma frame_mem own n s h x : kept own n (hp s) h -> frame own n s (mkSt (ctx s) h x).
Proof. intros H. split; [done|apply same_ctx_refl]. Qed.

Lemma heap_ok_snoc h e :
  heap_ok h -> env_ok (S (length h)) (length h) e -> heap_ok (h ++ [e]).
Proof.
  intros Hh He l e' Hl. rewrite length_app. simpl. rewrite Nat.add_1_r.
  apply lookup_app_Some in Hl as [Hl|[Hge Hl]].
  - destruct (Hh l e' Hl) as [U V]. split; [done|]. intros x b Hx. specialize (V x b Hx). eauto with rts.
  - destruct (l - length h) eqn:E; [|done]. simpl in Hl. injection Hl as <-.
    by replace l with (length h) by lia.
Qed.

Lemma st_ok_snoc s e :
  st_ok s -> env_ok (S (hl s)) (hl s) e -> st_ok (mkSt (ctx s) (hp s ++ [e]) (exps s)).
Proof.
  intros [Hh Hx] He. split; [by apply heap_ok_snoc|]. simpl. intros x v Hv.
  rewrite length_app. eapply val_ok_mono; [|by eapply Hx]. lia.
Qed.

Lemma kept_snoc own n h e : kept own n h (h ++ [e]).
Proof.
  split; [rewrite length_app; lia|]. intros l e' _ Hl. exists e'.
  split_and!; [by apply lookup_app_l_Some|done|]. intros. apply kept_at_refl.
Qed.

Lemma sat_NewEnv k own n cs u s :
  good s -> u < hl s ->
  sat k own n cs (NewEnv (Some u)) s
    (fun l s' => l = hl s /\ hl s' = S (hl s) /\ ctx s' = ctx s).
Proof.
  intros [Hs Hb] Hu. unfold sat. simpl. split_and!; try done.
  - apply st_ok_snoc; [done|]. split; simpl; [by intros ? [= <-]|by intros ?? ?].
  - apply frame_mem, kept_snoc.
  - unfold hl. simpl. rewrite length_app. simpl. lia.
Qed.

Lemma st_ok_def s l x v c :
  st_ok s -> val_ok (hl s) v -> st_ok (mkSt (ctx s) (DefWith l x v c (hp s)) (exps s)).
Proof.
  unfold hl. intros [Hh Hx] Hv. unfold DefWith. split; simpl.
  - intros l' e Hl. unfold env_ok. rewrite length_alter.
    rewrite list_lookup_alter in Hl. case_decide; [subst l'|by apply Hh].
    apply fmap_Some in Hl as (e0 & Hl & ->). destruct (Hh _ _ Hl) as [U V]. split; simpl; [done|].
    intros y b Hy. apply lookup_insert_Some in Hy as [[_ <-]|[_ Hy]]; [done|by eapply V].
  - intros y w Hy. rewrite length_alter. by eapply Hx.
Qed.

(** A definition at [l]: the name is new there, or it is a variable that stays
    one, or [l] lies beyond the environments that are kept. *)
Lemma kept_def own n h l x v c :
  (l < n -> forall e, h !! l = Some e ->
     kept_at (own = Some l) (vars e !! x) (Some (mkBinding v c))) ->
  kept own n h (DefWith l x v c h).
Proof.
  intros H. unfold DefWith. split; [by rewrite length_alter|]. intros l' e Hn Hl.
  destruct (decide (l' = l)) as [->|Hne].
  - eexists. split_and!; [by rewrite list_lookup_alter_eq, Hl|done|]. intros y. simpl.
    destruct (decide (y = x)) as [->|].
    + rewrite lookup_insert_eq. by apply H.
    + rewrite lookup_insert_ne by done. apply kept_at_refl.
  - exists e. rewrite list_lookup_alter_ne by done. split_and!; try done. intros. apply kept_at_refl.
Qed.

Lemma sat_DefWith k own n cs l x v c s :
  good s -> val_ok (hl s) v ->
  (l < n -> forall e, hp s !! l = Some e ->
     kept_at (own = Some l) (vars e !! x) (Some (mkBinding v c))) ->
  sat k own n cs (setHeap (DefWith l x v c)) s (fun _ s' => hl s' = hl s).
Proof.
  intros [Hs Hb] Hv Hk. unfold sat. simpl. split_and!; try done.
  - by apply st_ok_def.
  - by apply frame_mem, kept_def.
  - unfold hl, DefWith. simpl. by rewrite length_alter.
Qed.

Lemma env_find_spec n h cur x l b :
  env_find n h cur x = Some (l, b) -> exists e, h !! l = Some e /\ vars e !! x = Some b.
Proof.
  revert cur; induction n as [|n IH]; intros cur; simpl; [done|].
  destruct cur as [l0|]; [|done]. destruct (h !! l0) as [e|] eqn:E; [|done].
  destruct (vars e !! x) eqn:E2; [|by apply IH]. intros [= <- <-]. eauto.
Qed.

Lemma sat_Set k own n cs l x v s :
  good s -> val_ok (hl s) v ->
  sat k own n cs (Set_ l x v) s (fun _ s' => hl s' = hl s).
Proof.
  intros Hg Hv. pose proof (sat_ret k own n cs tt s (fun _ s' => hl s' = hl s) Hg eq_refl) as Hr.
  unfold sat, Set_, env_Set. unfold sat in Hr. simpl in Hr.
  destruct (env_find _ _ _ _) as [[cur b]|] eqn:E; [|by destruct s].
  destruct (b_const b) eqn:Ec; [by destruct s|].
  apply env_find_spec in E as (e & He & Hx).
  apply (sat_DefWith k own n cs cur x v false s); try done.
  intros _ e' He'. rewrite He in He'. injection He' as <-. rewrite Hx. simpl. rewrite Ec. by exists v.
Qed.

Lemma env_Get_ok s l x v : st_ok s -> env_Get l x (hp s) = Some v -> val_ok (hl s) v.
Proof.
  intros [Hh _]. unfold env_Get. destruct (env_find _ _ _ _) as [[cur b]|] eqn:E; [|done].
  simpl. intros [= <-]. apply env_find_spec in E as (e & He & Hx). by eapply Hh.
Qed.

Lemma sat_setExp k own n cs b x v s :
  good s -> val_ok (hl s) v -> sat k own n cs (setExp b x v) s (fun _ _ => True).
Proof.
  intros [[Hh Hx] Hb] Hv. unfold sat. simpl. split_and!; try done.
  - split; simpl; [done|]. intros y w. destruct b; [|by apply Hx].
    intros [[_ <-]|[_ Hy]]%lookup_insert_Some; [done|by eapply Hx].
  - apply frame_mem, kept_refl.
Qed.

(** *** Lists of computations *)

Lemma sat_mapM {A B} k own n cs (f : A -> M B) (P : nat -> B -> Prop) l s :
  (forall i j y, i <= j -> P i y -> P j y) ->
  good s ->
  (forall x s', x ∈ l -> good s' -> frame own n s s' -> sat k own n cs (f x) s' (fun y s'' => P (hl s'') y)) ->
  sat k own n cs (mapM f l) s (fun ys s'' => Forall (P (hl s'')) ys /\ length ys = length l).
Proof.
  intros HP. revert s; induction l as [|x l IH]; intros s Hg Hf; simpl.
  - by apply sat_ret.
  - eapply sat_bind; [apply Hf; [left|done|apply frame_refl]|]. intros y s1 Hg1 Hf1 Hy. simpl in Hy.
    eapply sat_bind.
    { apply IH; [done|]. intros x' s2 Hx' Hg2 Hf2. apply Hf; [by right|done|by eapply frame_trans]. }
    intros ys s2 Hg2 Hf2 [Hys Hlen]. apply sat_ret; [done|]. split; [|simpl; congruence].
    constructor; [|done]. eapply HP; [|exact Hy]. by eapply frame_hl.
Qed.

Lemma sat_forM {A} k own n cs (f : A -> M unit) l s :
  good s ->
  (forall x s', x ∈ l -> good s' -> frame own n s s' -> sat k own n cs (f x) s' (fun _ _ => True)) ->
  sat k own n cs (forM f l) s (fun _ _ => True).
Proof.
  revert s; induction l as [|x l IH]; intros s Hg Hf; simpl.
  - by apply sat_ret.
  - eapply sat_bind; [apply Hf; [left|done|apply frame_refl]|]. intros y s1 Hg1 Hf1 _.
    apply IH; [done|]. intros x' s2 Hx' Hg2 Hf2. apply Hf; [by right|done|by eapply frame_trans].
Qed.

(** *** A frame pushed around a computation *)

Lemma sat_framed {A} k n cs own (m : M A) (f g : Ctx -> Ctx) s (Q : A -> St -> Prop) :
  (forall c, steps (f c) = steps c /\ Lim (f c) = Lim c /\ elapsed (f c) = elapsed c /\ done_at (f c) = done_at c) ->
  (forall c, steps (g c) = steps c /\ Lim (g c) = Lim c /\ elapsed (g c) = elapsed c /\ done_at (g c) = done_at c) ->
  (forall c c', same_ctx (f c) c' -> depth (g c') = depth c /\ stack (g c') = stack c) ->
  good s ->
  (forall a s' c, Q a s' -> Q a (mkSt c (hp s') (exps s'))) ->
  sat k own n cs m (mkSt (f (ctx s)) (hp s) (exps s)) Q ->
  sat k own n cs (setCtx f >> deferred m g) s Q.
Proof.
  intros Hf Hg Hfg Hgs HQ Hm. cbv [sat bind deferred catch setCtx lift] in *. cbn [ctx hp exps] in *.
  destruct (Hf (ctx s)) as (F1 & F2 & F3 & F4).
  assert (Hback : forall s', frame own n (mkSt (f (ctx s)) (hp s) (exps s)) s' ->
            frame own n s (mkSt (g (ctx s')) (hp s') (exps s'))).
  { intros s' [K (S1 & S2 & S3 & S4 & S5 & S6)]. simpl in *. split; [done|].
    destruct (Hg (ctx s')) as (G1 & G2 & G3 & G4).
    destruct (Hfg (ctx s) (ctx s')) as [G5 G6]; [by unfold same_ctx|].
    unfold same_ctx; simpl. split_and!; congruence || lia. }
  destruct (m _) as [[[a|e] s']|]; simpl.
  - destruct Hm as (H1 & H2 & H3 & H4). destruct (Hg (ctx s')) as (G1 & G2 & _).
    split_and!; [done|by apply Hback| |by apply HQ].
    unfold budget, limit, used in *. simpl. rewrite G1, G2. done.
  - destruct Hm as (H1 & H2 & H3 & H4 & H5). destruct (Hg (ctx s')) as (G1 & G2 & _).
    split_and!; [done|by apply Hback| | |done];
      unfold budget, overrun, limit, used in *; simpl; rewrite G1, G2; done.
  - intros [L1 L2]. apply Hm. unfold fuel_ok, limit, used in *. simpl. by rewrite F1, F2.
Qed.
