(* ===== verification/VmSound.v ===== *)
(** * Every method of the evaluator satisfies its triple

    [vm_ok vm k] says that the methods of [vm] do, with fuel [k]; the lemmas
    lift it through each Go method, and [vm_at_ok] closes the recursion. *)
From stdpp Require Import base list strings gmap.
From Stdlib Require Import ZArith Lia.
From S2P Require Import Prelude GoStd GoFloat Token Ast Parser Scope Value Vm VmFacts.

Set Warnings "-register-all".
Open Scope nat_scope.
Open Scope list_scope.
Open Scope vm_scope.

(** ** What the host and the native functions promise *)

(** The outcome of a host operation on arguments that are [val_ok n]. *)
Definition out_ok (n : nat) (r : res Err Value) : Prop :=
  match r with Ok v => val_ok n v | Er e => err_ok None n e end.

(** A host object gives out no script closure it was not given, its errors are
    no control signals, and [sort.Slice] permutes. *)
Class HostOk `{Host} := {
  host_member_ok n id c p name :
    match host_member id c p name with Ok r => val_ok n r.1 | Er e => err_ok None n e end;
  host_index_ok n id c p key : val_ok n key -> out_ok n (host_index id c p key);
  host_call_ok n id c p args : Forall (val_ok n) args -> out_ok n (host_call id c p args);
  sort_slice_perm less l : sort_slice less l ≡ₚ l
}.

(** A callback, given well-formed arguments, behaves as [callVal] does. *)
Definition callback_ok (k : Z) (call : Pos -> Value -> list Value -> M Value) : Prop :=
  forall p cal args s, good s -> val_ok (hl s) cal -> Forall (val_ok (hl s)) args ->
    sat k None (hl s) None (call p cal args) s (fun v s' => val_ok (hl s') v).

(** A native function ticks before every callback, so that its callbacks need
    one level less than it has. *)
Class NativesOk `{Host} `{Natives} :=
  native_call_ok k call nf p args s :
    callback_ok (k - 1) call -> good s -> Forall (val_ok (hl s)) args ->
    sat k None (hl s) None (native_call call nf p args) s (fun v s' => val_ok (hl s') v).

Record vm_ok (vm : VM) (k : Z) : Prop := {
  ok_eval env ex s : good s -> env < hl s ->
    sat k None (hl s) None (vm_eval vm env ex) s (fun v s' => val_ok (hl s') v);
  ok_stmt cs env exp st s : wf_stmt cs st = true -> good s -> env < hl s ->
    sat k (Some env) (hl s) (Some cs) (vm_execStmt vm env exp st) s (fun _ _ => True);
  ok_for cs env exp p label lp cond post body s :
    opt_all plain_stmt post = true -> wf_block (cs ++ [mkControl controlLoop label lp]) body = true ->
    good s -> env < hl s ->
    sat k (Some env) (hl s) (Some cs) (vm_forLoop vm env exp p label cond post body) s (fun _ _ => True);
  ok_call : callback_ok (k - 1) (vm_callVal vm)
}.

(** ** Helpers *)

Lemma sat_if {A} k own n cs (b : bool) (m1 m2 : M A) s Q :
  sat k own n cs m1 s Q -> sat k own n cs m2 s Q -> sat k own n cs (if b then m1 else m2) s Q.
Proof. by destruct b. Qed.

Lemma sat_getCtx {A} k own n cs (f : Ctx -> M A) s Q :
  sat k own n cs (f (ctx s)) s Q -> sat k own n cs (bind getCtx f) s Q.
Proof. done. Qed.

Lemma sat_getHeap {A} k own n cs (f : heap -> M A) s Q :
  sat k own n cs (f (hp s)) s Q -> sat k own n cs (bind getHeap f) s Q.
Proof. done. Qed.

Lemma sat_CheckStr k own n cs p x s : good s -> sat k own n cs (CheckStr p x) s (fun _ s' => s' = s).
Proof. intros Hg. unfold CheckStr. apply sat_getCtx, sat_if; [by apply sat_raise|by apply sat_ret]. Qed.

Lemma sat_CheckList k own n cs p x s : good s -> sat k own n cs (CheckList p x) s (fun _ s' => s' = s).
Proof. intros Hg. unfold CheckList. apply sat_getCtx, sat_if; [by apply sat_raise|by apply sat_ret]. Qed.

Lemma sat_CheckDict k own n cs p x s : good s -> sat k own n cs (CheckDict p x) s (fun _ s' => s' = s).
Proof. intros Hg. unfold CheckDict. apply sat_getCtx, sat_if; [by apply sat_raise|by apply sat_ret]. Qed.

Lemma sat_chkVal k own n cs p v s : good s -> sat k own n cs (chkVal p v) s (fun _ s' => s' = s).
Proof.
  intros Hg. destruct v; try (by apply sat_ret);
    [by apply sat_CheckStr|by apply sat_CheckList|by apply sat_CheckDict].
Qed.

(** A step that leaves the state as it is. *)
Lemma sat_pure {A B} k own n cs (m : M A) (f : A -> M B) s (P : A -> Prop) (Q : B -> St -> Prop) :
  sat k own n cs m s (fun a s' => s' = s /\ P a) ->
  (forall a, P a -> sat k own n cs (f a) s Q) ->
  sat k own n cs (bind m f) s Q.
Proof. intros Hm Hf. eapply sat_bind; [exact Hm|]. intros a s' _ _ [-> Ha]. by apply Hf. Qed.

Lemma sat_check {B} k own n cs (m : M unit) (f : M B) s (Q : B -> St -> Prop) :
  sat k own n cs m s (fun _ s' => s' = s) -> sat k own n cs f s Q -> sat k own n cs (m >> f) s Q.
Proof. intros Hm Hf. eapply sat_bind; [exact Hm|]. by intros ? ? _ _ ->. Qed.

Lemma sat_wrap {A} k own n cs (r : res Err A) s (Q : A -> St -> Prop) :
  good s -> (forall a, r = Ok a -> Q a s) -> (forall e, r = Er e -> err_ok cs (hl s) e) ->
  sat k own n cs (wrap r) s Q.
Proof.
  intros Hg Hok Her. destruct r as [a|e]; simpl.
  - apply sat_ret; auto.
  - apply sat_getCtx, sat_throw; [done|]. specialize (Her e eq_refl). by destruct e.
Qed.

Lemma sat_lift {A} k own n cs (r : res Err A) s (Q : A -> St -> Prop) :
  good s -> (forall a, r = Ok a -> Q a s) -> (forall e, r = Er e -> err_ok cs (hl s) e) ->
  sat k own n cs (lift r) s Q.
Proof.
  intros Hg Hok Her. destruct r as [a|e].
  - apply (sat_ret k own n cs a); auto.
  - apply (sat_throw k own n cs e); auto.
Qed.

Lemma toNum_err cs n p v e : toNum p v = Er e -> err_ok cs n e.
Proof. destruct v; simpl; by intros [= <-]. Qed.

Lemma Key_err cs n p v e : Key p v = Er e -> err_ok cs n e.
Proof. destruct v; simpl; by intros [= <-]. Qed.

#[export] Hint Resolve toNum_err Key_err : rts.

Lemma forallb_in {A} (f : A -> bool) l x : forallb f l = true -> x ∈ l -> f x = true.
Proof. rewrite forallb_forall. intros H Hx. apply H. by apply list_elem_of_In. Qed.

Lemma Forall_val_mono n n' l : n <= n' -> Forall (val_ok n) l -> Forall (val_ok n') l.
Proof. intros Hn H. eapply Forall_impl; [exact H|]. eauto with rts. Qed.

Lemma abort_throw {A} (e : Err) (s : St) :
  isAbort e = true -> exists e', throw (A:=A) e s = Some (Er e', s) /\ isAbort e' = true.
Proof. eauto. Qed.

(** ** Objects *)

Section objects.
Context `{HH : Host} `{!HostOk}.

Lemma map_Member_ok n m name :
  (forall k v, m !! k = Some v -> val_ok n v) -> val_ok n (map_Member m name).1.
Proof. intros Hm. unfold map_Member. destruct (m !! name) eqn:E; simpl; eauto with rts. Qed.

Lemma sat_result_Member k own n cs b v e p name s :
  good s -> val_ok (hl s) v ->
  sat k own n cs (result_Member b v e p name) s (fun r s' => s' = s /\ val_ok (hl s) r.1).
Proof.
  intros Hg Hv. unfold result_Member. repeat apply sat_if; try (apply sat_ret; simpl; auto with rts).
  apply sat_check; [by apply sat_CheckStr|]. apply sat_ret; simpl; auto with rts.
Qed.

Lemma sat_obj_Member k own n o p name s :
  good s -> val_ok (hl s) (VObj (Some o)) ->
  sat k own n None (obj_Member o p name) s (fun r s' => s' = s /\ val_ok (hl s) r.1).
Proof.
  intros Hg Hv. destruct o; simpl; inversion Hv; subst.
  - by apply sat_result_Member.
  - apply sat_ret; [done|]. auto using map_Member_ok.
  - apply sat_ret; [done|]. auto using map_Member_ok.
  - apply sat_getCtx. pose proof (host_member_ok (hl s) id (ctx s) p name) as Hh.
    apply sat_lift; [done| |]; intros a E; rewrite E in Hh; auto.
Qed.

Lemma sat_obj_Index k own n o p key s :
  good s -> val_ok (hl s) (VObj (Some o)) -> val_ok (hl s) key ->
  sat k own n None (obj_Index o p key) s (fun v s' => s' = s /\ val_ok (hl s) v).
Proof.
  intros Hg Hv Hk. destruct o; simpl; inversion Hv; subst.
  - eapply (sat_pure _ _ _ _ _ _ _ (fun _ => True)); [apply sat_lift; eauto with rts|]. intros x _.
    eapply sat_pure; [by apply sat_result_Member|]. intros r Hr.
    apply sat_ret; [done|]. split; [done|]. destruct r.2; auto with rts.
  - eapply (sat_pure _ _ _ _ _ _ _ (fun _ => True)); [apply sat_lift; eauto with rts|]. intros x _.
    apply sat_ret; [done|]. auto using map_Member_ok.
  - eapply (sat_pure _ _ _ _ _ _ _ (fun _ => True)); [apply sat_lift; eauto with rts|]. intros x _.
    apply sat_ret; [done|]. auto using map_Member_ok.
  - apply sat_getCtx. pose proof (host_index_ok (hl s) id (ctx s) p key Hk) as Hh.
    apply sat_lift; [done| |]; intros a E; rewrite E in Hh; auto.
Qed.

Lemma sat_wrapping {A} k own n (m : M A) s (P : A -> Prop) :
  sat k own n None m s (fun a s' => s' = s /\ P a) ->
  sat k own n None (wrapping m) s (fun a s' => s' = s /\ P a).
Proof.
  intros Hm. eapply sat_catch; [exact Hm| | |].
  - intros a s' Hg _ [-> Ha]. by apply sat_ret.
  - intros e s' Hg _ _ He. apply sat_wrap; [done|done|]. by intros ? [= <-].
  - intros e s' Hab. unfold wrap, bind, getCtx, throw. eexists. split; [done|].
    by destruct e as [| |[]| | | | |].
Qed.

Lemma sat_checkBound k own n cs p v s :
  good s -> sat k own n cs (checkBound p v) s (fun _ s' => s' = s).
Proof.
  intros Hg. unfold checkBound. destruct v as [| | | | | | | |[[]|]]; try by apply sat_ret.
  destruct (host_unbound id); [|by apply sat_ret].
  apply sat_if; [by apply sat_ret|]. by apply sat_getCtx, sat_throw.
Qed.

Lemma sat_marshalStr k own n cs p v s :
  good s -> sat k own n cs (marshalStr p v) s (fun _ s' => s' = s /\ True).
Proof.
  intros Hg. unfold marshalStr. destruct (Marshal _); [|by apply sat_raise].
  apply sat_check; [by apply sat_CheckStr|by apply sat_ret].
Qed.

Lemma sat_ToStr k own n cs p v s :
  good s -> sat k own n cs (ToStr p v) s (fun _ s' => s' = s /\ True).
Proof.
  intros Hg. unfold ToStr.
  destruct v as [| | | | | | | |[]]; try (by apply sat_ret); try (by apply sat_raise);
    try (by apply sat_marshalStr).
  apply sat_if; [by apply sat_marshalStr|by apply sat_raise].
Qed.
End objects.

(** ** The methods *)

Section methods.
Context `{HH : Host} `{!HostOk} `{NN : Natives} `{!NativesOk}.
Context (vm : VM) (k : Z) (Hvm : vm_ok vm k).
Implicit Types (own : option nat) (s : St).

(** The methods of [vm], where less is asked. *)
Lemma sat_eval own n cs env ex s :
  good s -> env < hl s -> n <= hl s ->
  sat k own n cs (vm_eval vm env ex) s (fun v s' => val_ok (hl s') v).
Proof. intros. eapply sat_weaken; [done|done| |by apply ok_eval]. by intros ? _ ?. Qed.

Lemma sat_stmt own n cs env exp st s :
  wf_stmt cs st = true -> good s -> env < hl s -> n <= hl s -> (env < n -> own = Some env) ->
  sat k own n (Some cs) (vm_execStmt vm env exp st) s (fun _ _ => True).
Proof.
  intros ???? Ho. eapply sat_weaken_own; [done| |by apply ok_stmt]. intros l Hl [= ->]. by apply Ho.
Qed.

Lemma sat_execBlock own n cs up exp b s :
  wf_block cs b = true -> good s -> up < hl s -> n <= hl s ->
  sat k own n (Some cs) (execBlock vm up exp b) s (fun _ _ => True).
Proof.
  intros Hwf Hg Hup Hn. destruct b as [p ss]. simpl in Hwf.
  eapply sat_bind; [by apply sat_NewEnv|]. intros env s1 Hg1 Hf1 (-> & Hl1 & _).
  apply sat_forM; [done|]. intros st s2 Hst Hg2 Hf2. apply frame_hl in Hf2.
  apply sat_stmt; [by eapply forallb_in|done|lia|lia|lia].
Qed.

Lemma sat_execBlockOpt own n cs up exp b s :
  opt_all (wf_block cs) b = true -> good s -> up < hl s -> n <= hl s ->
  sat k own n (Some cs) (execBlockOpt vm up exp b) s (fun _ _ => True).
Proof. intros. destruct b; [by apply sat_execBlock|by apply sat_ret]. Qed.

(** *** Calls *)

Lemma sat_bindArgs own n cs env params args s :
  good s -> n <= env -> Forall (val_ok (hl s)) args ->
  sat k own n cs (bindArgs env params args) s (fun _ _ => True).
Proof.
  intros Hg Hn Hargs. apply sat_forM; [done|]. intros [x v] s1 Hx Hg1 Hf1. simpl.
  eapply sat_mono; [apply sat_DefWith; [done| |lia]|done].
  apply frame_hl in Hf1. apply elem_of_zip_r in Hx. rewrite Forall_forall in Hargs.
  eapply val_ok_mono; [exact Hf1|]. by apply Hargs.
Qed.

Lemma fnResult_abort e (s : St) :
  isAbort e = true -> exists e', fnResult (Er e) s = Some (Er e', s) /\ isAbort e' = true.
Proof. destruct e; try done; by eexists. Qed.

Lemma enter_leave fn c c' :
  same_ctx (enterFn fn c) c' -> depth (leaveFn c') = depth c /\ stack (leaveFn c') = stack c.
Proof.
  intros (_ & _ & _ & Hd & Hst & _). unfold leaveFn, enterFn, pop, push in *. simpl in *.
  rewrite Hd, Hst, length_app. simpl. split; [lia|].
  replace (length (stack c) + 1 - 1) with (length (stack c)) by lia. apply take_app_length.
Qed.

Lemma sat_callFn own n p fn args s :
  good s -> n <= hl s -> fn_env fn < hl s -> wf_block [] (fn_body fn) = true ->
  Forall (val_ok (hl s)) args ->
  sat k own n None (callFn vm p fn args) s (fun v s' => val_ok (hl s') v).
Proof.
  intros Hg Hn Henv Hwf Hargs. unfold callFn. apply sat_if; [by apply sat_raise|].
  apply sat_getCtx, sat_if; [by apply sat_raise|].
  apply sat_framed; [done|done|apply enter_leave|done|done|].
  set (s0 := mkSt _ _ _). assert (good s0) by done.
  eapply sat_bind; [by apply sat_NewEnv|]. intros env s1 Hg1 Hf1 (-> & Hl1 & _).
  eapply sat_bind.
  { apply sat_bindArgs; [done|done|]. eapply Forall_val_mono; [|exact Hargs]. exact (frame_hl _ _ _ _ Hf1). }
  intros [] s2 Hg2 Hf2 _. apply frame_hl in Hf1, Hf2. change (hl s0) with (hl s) in *.
  eapply (sat_catch _ _ _ _ (Some [])); [by apply sat_execBlock; [| |lia|lia]| | |].
  - intros [] s3 Hg3 _ _. apply sat_ret; auto with rts.
  - intros e s3 Hg3 _ _ He. destruct e; try by apply sat_throw.
    + by apply sat_ret; [|apply He].
    + by apply sat_raise.
    + by apply sat_raise.
  - apply fnResult_abort.
Qed.

Lemma sat_callVal own n p cal args s :
  good s -> n <= hl s -> val_ok (hl s) cal -> Forall (val_ok (hl s)) args ->
  sat k own n None (callVal vm p cal args) s (fun v s' => val_ok (hl s') v).
Proof.
  intros Hg Hn Hc Hargs. destruct cal as [| | | | | |[fn|]|[nf|]|]; try by apply sat_raise.
  - inversion Hc; subst. by apply sat_callFn.
  - eapply sat_bind.
    { eapply sat_weaken; [done|exact Hn| |apply native_call_ok; [apply Hvm|done|done]]. by intros ? _ ?. }
    intros v s1 Hg1 Hf1 Hv. apply sat_check; [by apply sat_chkVal|by apply sat_ret].
Qed.

(** *** Statements *)

Lemma HasLocal_false env x h e :
  HasLocal env x h = false -> h !! env = Some e -> vars e !! x = None.
Proof.
  unfold HasLocal. intros Hx Hl. rewrite Hl in Hx. apply bool_decide_eq_false in Hx.
  by destruct (vars e !! x); [exfalso; eauto|].
Qed.

(** A name that is not local yet may be defined after [s] has become [s']
    without names of its own for [env]. *)
Lemma fresh_def env x s s' v c :
  HasLocal env x (hp s) = false -> env < hl s -> kept None (hl s) (hp s) (hp s') ->
  forall e, hp s' !! env = Some e -> kept_at (Some env = Some env) (vars e !! x) (Some (mkBinding v c)).
Proof.
  intros Hloc Hlt [_ K] e He. destruct (lookup_lt_is_Some_2 (hp s) env Hlt) as [e0 He0].
  destruct (K env e0 Hlt He0) as (e' & He' & _ & Kx). rewrite He in He'. injection He' as <-.
  specialize (Kx x). rewrite (HasLocal_false _ _ _ _ Hloc He0) in Kx. destruct Kx as [|Hn]; [done|].
  rewrite Hn. by left.
Qed.

Lemma sat_keep {A} own n cs (m : M A) s Q :
  n <= hl s -> sat k None (hl s) cs m s Q ->
  sat k own n cs m s (fun a s' => Q a s' /\ kept None (hl s) (hp s) (hp s')).
Proof.
  unfold sat. intros Hn Hm. destruct (m s) as [[[a|e] s']|]; [| |done].
  - destruct Hm as (?&Hf&?&?). split_and!; try done; [|apply Hf].
    eapply frame_weaken; [exact Hn| |exact Hf]. by intros ? _ ?.
  - destruct Hm as (?&Hf&?&?&?). split_and!; try done.
    eapply frame_weaken; [exact Hn| |exact Hf]. by intros ? _ ?.
Qed.

Lemma sat_define own n cs env x v c s0 s :
  HasLocal env x (hp s0) = false -> env < hl s0 -> kept None (hl s0) (hp s0) (hp s) ->
  good s -> val_ok (hl s) v -> (env < n -> own = Some env) ->
  sat k own n cs (setHeap (DefWith env x v c)) s (fun _ s' => hl s' = hl s).
Proof.
  intros Hloc Henv K Hg Hv Ho. apply sat_DefWith; [done|done|]. intros Hlt.
  rewrite (Ho Hlt). by eapply fresh_def.
Qed.

Lemma sat_execLet own n cs env exp p ex c x e s :
  good s -> env < hl s -> n <= hl s -> (env < n -> own = Some env) ->
  sat k own n cs (execLet vm env exp p ex c x e) s (fun _ _ => True).
Proof.
  intros Hg Henv Hn Ho. apply sat_getHeap. destruct (HasLocal env x (hp s)) eqn:Hloc; [by apply sat_raise|].
  eapply sat_bind; [apply sat_keep; [done|by apply sat_eval]|].
  intros v s1 Hg1 Hf1 [Hv K]. apply sat_check; [by apply sat_chkVal|].
  apply (sat_bind _ _ _ _ _ _ _ (fun _ s' => hl s' = hl s1)).
  { apply sat_if; by eapply sat_define. }
  intros [] s2 Hg2 Hf2 Hl2. apply sat_setExp; [done|]. by rewrite Hl2.
Qed.

Lemma sat_assign own n cs env x v p s :
  good s -> val_ok (hl s) v -> sat k own n cs (assign env x v p) s (fun _ _ => True).
Proof.
  intros Hg Hv. eapply sat_bind; [by apply sat_Set|]. intros [found c] s1 Hg1 _ _.
  repeat apply sat_if; try by apply sat_raise. by apply sat_ret.
Qed.

Lemma sat_execFnDef own n cs env exp p ex x ps b s :
  good s -> env < hl s -> n <= hl s -> (env < n -> own = Some env) -> wf_block [] b = true ->
  sat k own n cs (execFnDef env exp p ex x ps b) s (fun _ _ => True).
Proof.
  intros Hg Henv Hn Ho Hwf. apply sat_getHeap. destruct (HasLocal env x (hp s)) eqn:Hloc; [by apply sat_raise|].
  assert (Hv : val_ok (hl s) (VFunc (Some (mkFunc x ps b env p)))) by by constructor.
  eapply sat_bind; [eapply sat_define; try done; apply kept_refl|].
  intros [] s2 Hg2 Hf2 Hl2. apply sat_setExp; [done|]. by rewrite Hl2.
Qed.

Lemma sat_execElifs own n cs env exp elifs els s :
  forallb (fun e => wf_block cs e.2) elifs = true -> opt_all (wf_block cs) els = true ->
  good s -> env < hl s -> n <= hl s ->
  sat k own n (Some cs) (execElifs vm env exp elifs els) s (fun _ _ => True).
Proof.
  intros Hwf Hels. revert s Hwf. induction elifs as [|[c b] rest IH]; intros s Hwf Hg Henv Hn; simpl.
  - by apply sat_execBlockOpt.
  - simpl in Hwf. apply andb_true_iff in Hwf as [Hb Hrest].
    eapply sat_bind; [by apply sat_eval|]. intros v s1 Hg1 Hf1 Hv. apply frame_hl in Hf1.
    apply sat_if; [apply sat_execBlock|apply IH]; try done; lia.
Qed.

(** *** Switch *)

Lemma sat_matchCase own n cs env tag exprs s :
  good s -> env < hl s -> n <= hl s ->
  sat k own n cs (matchCase vm env tag exprs) s (fun _ _ => True).
Proof.
  revert s. induction exprs as [|e rest IH]; intros s Hg Henv Hn; simpl; [by apply sat_ret|].
  eapply sat_bind; [by apply sat_eval|]. intros v s1 Hg1 Hf1 Hv. apply frame_hl in Hf1.
  apply sat_if; [by apply sat_ret|]. apply IH; [done|lia|lia].
Qed.

Lemma not_targets label target :
  targets label target = false -> label <> EmptyString /\ label <> target.
Proof. unfold targets. rewrite orb_false_iff, !bool_decide_eq_false. done. Qed.

Lemma sat_execClause own n cs up exp label lp body s :
  opt_all (wf_block (cs ++ [mkControl controlSwitch label lp])) body = true ->
  good s -> up < hl s -> n <= hl s ->
  sat k own n (Some cs) (execClause vm up exp label body) s (fun _ _ => True).
Proof.
  intros Hwf Hg Hup Hn. eapply sat_catch; [by apply sat_execBlockOpt| | |].
  - intros [] s1 Hg1 _ _. by apply sat_ret.
  - intros e s1 Hg1 _ _ He. destruct e; try by apply sat_throw.
    + apply (sat_throw k own n (Some cs) (ERet v)); [done|]. split; [done|]. apply He.
    + destruct He as (c & [= <-] & Hbr). simpl. destruct (targets label0 label) eqn:Et; [by apply sat_ret|].
      apply not_targets in Et as [??]. apply sat_throw; [done|]. exists cs. split; [done|].
      by eapply break_ok_leave.
    + destruct He as (c & [= <-] & Hco). apply (sat_throw k own n (Some cs) (EContinue p label0)); [done|].
      exists cs. split; [done|]. by eapply continue_ok_switch.
  - intros e s' Hab. destruct e; try done; by eexists.
Qed.

Lemma sat_execClauses own n cs up exp label lp tag def clauses s :
  opt_all (wf_block (cs ++ [mkControl controlSwitch label lp])) def = true ->
  forallb (wf_clause (cs ++ [mkControl controlSwitch label lp])) clauses = true ->
  good s -> up < hl s -> n <= hl s ->
  sat k own n (Some cs) (execClauses vm up exp label tag def clauses) s (fun _ _ => True).
Proof.
  revert def s. induction clauses as [|[p es b] rest IH]; intros def s Hdef Hwf Hg Hup Hn; simpl.
  - by eapply sat_execClause.
  - simpl in Hwf. apply andb_true_iff in Hwf as [Hb Hrest].
    destruct es as [|e es]; [by apply IH|].
    eapply sat_bind; [by apply sat_matchCase|]. intros m s1 Hg1 Hf1 _. apply frame_hl in Hf1.
    apply sat_if; [eapply sat_execClause|apply IH]; try done; lia.
Qed.

Lemma sat_evalOpt own n cs env e s :
  good s -> env < hl s -> n <= hl s ->
  sat k own n cs (evalOpt vm env e) s (fun _ _ => True).
Proof.
  intros Hg Henv Hn. destruct e as [e|]; [|by apply sat_ret].
  eapply sat_bind; [by apply sat_eval|]. intros v s1 Hg1 _ _. by apply sat_ret.
Qed.

Lemma sat_execSwitch own n cs up exp label lp tag clauses s :
  forallb (wf_clause (cs ++ [mkControl controlSwitch label lp])) clauses = true ->
  good s -> up < hl s -> n <= hl s ->
  sat k own n (Some cs) (execSwitch vm up exp label tag clauses) s (fun _ _ => True).
Proof.
  intros Hwf Hg Hup Hn. eapply sat_bind; [by apply sat_evalOpt|]. intros t s1 Hg1 Hf1 _.
  apply frame_hl in Hf1. eapply sat_execClauses; try done; lia.
Qed.

(** *** Loops *)

Lemma sat_execLoopBlock own n cs env exp label lp body s :
  wf_block (cs ++ [mkControl controlLoop label lp]) body = true ->
  good s -> env < hl s -> n <= hl s ->
  sat k own n (Some cs) (execLoopBlock vm env exp label body) s (fun _ _ => True).
Proof.
  intros Hwf Hg Henv Hn. eapply sat_catch; [by apply sat_execBlock| | |].
  - intros [] s1 Hg1 _ _. by apply sat_ret.
  - intros e s1 Hg1 _ _ He. destruct e; try by apply sat_throw.
    + apply (sat_throw k own n (Some cs) (ERet v)); [done|]. split; [done|]. apply He.
    + destruct He as (c & [= <-] & Hbr). simpl. destruct (targets label0 label) eqn:Et; [by apply sat_ret|].
      apply not_targets in Et as [??]. apply sat_throw; [done|]. exists cs. split; [done|].
      by eapply break_ok_leave.
    + destruct He as (c & [= <-] & Hco). simpl. destruct (targets label0 label) eqn:Et; [by apply sat_ret|].
      apply not_targets in Et as [??]. apply sat_throw; [done|]. exists cs. split; [done|].
      by eapply continue_ok_leave.
  - intros e s' Hab. destruct e; try done; by eexists.
Qed.

Lemma sat_execOpt own n cs env exp st s :
  opt_all (wf_stmt cs) st = true -> good s -> env < hl s -> n <= hl s -> (env < n -> own = Some env) ->
  sat k own n (Some cs) (execOpt vm env exp st) s (fun _ _ => True).
Proof. intros. destruct st; [by apply sat_stmt|by apply sat_ret]. Qed.

Lemma opt_plain_wf cs st : opt_all plain_stmt st = true -> opt_all (wf_stmt cs) st = true.
Proof. destruct st; [apply plain_wf|done]. Qed.

Lemma sat_for own n cs env exp p label lp cond post body s :
  opt_all plain_stmt post = true -> wf_block (cs ++ [mkControl controlLoop label lp]) body = true ->
  good s -> env < hl s -> n <= hl s -> (env < n -> own = Some env) ->
  sat k own n (Some cs) (vm_forLoop vm env exp p label cond post body) s (fun _ _ => True).
Proof.
  intros ????? Ho. eapply sat_weaken_own; [done| |by eapply ok_for]. intros l Hl [= ->]. by apply Ho.
Qed.

Lemma sat_forLoop cs env exp p label lp cond post body s :
  opt_all plain_stmt post = true -> wf_block (cs ++ [mkControl controlLoop label lp]) body = true ->
  good s -> env < hl s ->
  sat (k + 1) (Some env) (hl s) (Some cs) (forLoop vm env exp p label cond post body) s (fun _ _ => True).
Proof.
  intros Hpost Hwf Hg Henv. apply sat_tick; [done|done|]. intros s1 Hg1 Hh1 _ _.
  assert (Hl1 : hl s1 = hl s) by (unfold hl; congruence).
  eapply sat_bind; [apply sat_evalOpt; [done|lia|lia]|]. intros c s2 Hg2 Hf2 _. apply frame_hl in Hf2.
  apply sat_if; [by apply sat_ret|].
  eapply sat_bind; [eapply sat_execLoopBlock; [done|done|lia|lia]|]. intros a s3 Hg3 Hf3 _.
  apply frame_hl in Hf3.
  assert (Hgo : sat k (Some env) (hl s) (Some cs)
            (execOpt vm env exp post >> vm_forLoop vm env exp p label cond post body) s3 (fun _ _ => True)).
  { eapply sat_bind; [apply sat_execOpt; [by apply opt_plain_wf|done|lia|lia|done]|].
    intros [] s4 Hg4 Hf4 _. apply frame_hl in Hf4. eapply sat_for; eauto; lia. }
  destruct a; [done|by apply sat_ret|done].
Qed.

(** *** Range loops *)

Lemma sat_defRangeVar own n cs env x s :
  good s -> n <= env -> sat k own n cs (defRangeVar env x) s (fun _ _ => True).
Proof.
  intros Hg Hn. apply sat_if; [by apply sat_ret|].
  eapply sat_mono; [apply sat_DefWith; [done|constructor|lia]|done].
Qed.

Lemma sat_assignRangeVar own n cs env x v d p s :
  good s -> n <= env -> val_ok (hl s) v ->
  sat k own n cs (assignRangeVar env x v d p) s (fun _ _ => True).
Proof.
  intros Hg Hn Hv. repeat apply sat_if; [by apply sat_ret| |by apply sat_assign].
  eapply sat_mono; [apply sat_DefWith; [done|done|lia]|done].
Qed.

Definition item_ok (n : nat) (kv : Value * Value) : Prop := val_ok n kv.1 /\ val_ok n kv.2.

Lemma item_ok_mono n n' kv : n <= n' -> item_ok n kv -> item_ok n' kv.
Proof. intros ? []. split; eauto with rts. Qed.

Lemma sat_execRangeStep own n cs env exp p label lp rng body kv s :
  wf_block (cs ++ [mkControl controlLoop label lp]) body = true ->
  good s -> env < hl s -> n <= env -> item_ok (hl s) kv ->
  sat k own n (Some cs) (execRangeStep vm env exp p label rng body kv.1 kv.2) s (fun _ _ => True).
Proof.
  intros Hwf Hg Henv Hn [H1 H2].
  eapply sat_bind; [by apply sat_assignRangeVar|]. intros _ s1 Hg1 Hf1 _. apply frame_hl in Hf1.
  eapply sat_bind; [apply sat_assignRangeVar; [done|done|by eapply val_ok_mono]|].
  intros _ s2 Hg2 Hf2 _. apply frame_hl in Hf2. eapply sat_execLoopBlock; [done|done|lia|lia].
Qed.

Lemma sat_rangeOver own n cs env exp p label lp rng body items s :
  wf_block (cs ++ [mkControl controlLoop label lp]) body = true ->
  good s -> env < hl s -> n <= env -> Forall (item_ok (hl s)) items ->
  sat k own n (Some cs) (rangeOver vm env exp p label rng body items) s (fun _ _ => True).
Proof.
  intros Hwf. revert s. induction items as [|[kk v] rest IH]; intros s Hg Henv Hn Hit; simpl.
  - by apply sat_ret.
  - inversion Hit as [|? ? Hkv Hrest]; subst.
    apply (sat_fuel (k + 1)); [lia|]. apply sat_tick; [done|lia|]. intros s1 Hg1 Hh1 _ _.
    assert (Hl1 : hl s1 = hl s) by (unfold hl; congruence). rewrite <- Hl1 in *.
    eapply sat_bind; [by eapply (sat_execRangeStep _ _ _ _ _ _ _ _ _ _ (kk, v))|].
    intros a s2 Hg2 Hf2 _. apply frame_hl in Hf2.
    assert (Hgo : sat k own n (Some cs) (rangeOver vm env exp p label rng body rest) s2 (fun _ _ => True)).
    { apply IH; [done|lia|done|]. eapply Forall_impl; [exact Hrest|]. intros x. by apply item_ok_mono. }
    destruct a; [done|by apply sat_ret|done].
Qed.

Lemma rangeItems_ok n v items :
  val_ok n v -> rangeItems v = Some items -> Forall (item_ok n) items.
Proof.
  intros Hv Hi. destruct v; try done; injection Hi as <-; inversion Hv as [| | | |l' Hl|m' Hm| | | | | | | |]; subst.
  - apply Forall_map. apply Forall_true. intros. split; constructor.
  - apply Forall_lookup. intros i kv. rewrite list_lookup_imap. intros (x & Hx & ->)%fmap_Some.
    split; [constructor|]. rewrite Forall_lookup in Hl. by eapply Hl.
  - apply Forall_map. apply Forall_true. intros x. split; simpl; [constructor|].
    destruct (m !! x) eqn:E; simpl; [by eapply Hm|constructor].
Qed.

Lemma sat_execRange own n cs up exp p label lp rng body s :
  wf_block (cs ++ [mkControl controlLoop label lp]) body = true ->
  good s -> up < hl s -> n <= hl s ->
  sat k own n (Some cs) (execRange vm up exp p label rng body) s (fun _ _ => True).
Proof.
  intros Hwf Hg Hup Hn.
  eapply sat_bind; [by apply sat_NewEnv|]. intros env s1 Hg1 Hf1 (-> & Hl1 & _).
  eapply sat_bind; [apply sat_eval; [done|lia|lia]|]. intros src s2 Hg2 Hf2 Hsrc. apply frame_hl in Hf2.
  apply (sat_bind _ _ _ _ _ _ _ (fun _ _ => True)).
  { apply sat_if; [|by apply sat_ret].
    eapply sat_bind; [by apply sat_defRangeVar|]. intros [] s3 Hg3 Hf3 _. by apply sat_defRangeVar. }
  intros [] s3 Hg3 Hf3 _. apply frame_hl in Hf3. destruct (rangeItems src) as [items|] eqn:E; [|by apply sat_raise].
  eapply sat_rangeOver; [done|done|lia|lia|].
  eapply Forall_impl; [exact (rangeItems_ok _ _ _ Hsrc E)|]. intros x. by apply item_ok_mono.
Qed.

Lemma sat_execFor own n cs up exp p label lp init cond post rng body s :
  opt_all plain_stmt init = true -> opt_all plain_stmt post = true ->
  wf_block (cs ++ [mkControl controlLoop label lp]) body = true ->
  good s -> up < hl s -> n <= hl s ->
  sat k own n (Some cs) (execFor vm up exp p label init cond post rng body) s (fun _ _ => True).
Proof.
  intros Hi Hp Hwf Hg Hup Hn. destruct rng as [rng|]; simpl; [by eapply sat_execRange|].
  eapply sat_bind; [by apply sat_NewEnv|]. intros env s1 Hg1 Hf1 (-> & Hl1 & _).
  eapply sat_bind; [apply sat_execOpt; [by apply opt_plain_wf|done|lia|lia|lia]|].
  intros [] s2 Hg2 Hf2 _. apply frame_hl in Hf2. eapply sat_for; eauto; lia.
Qed.

Lemma sat_execStmt cs env exp st s :
  wf_stmt cs st = true -> good s -> env < hl s ->
  sat (k + 1) (Some env) (hl s) (Some cs) (execStmt vm env exp st) s (fun _ _ => True).
Proof.
  intros Hwf Hg Henv. apply sat_tick; [done|done|]. intros s1 Hg1 Hh1 _ _.
  assert (Hl1 : hl s1 = hl s) by (unfold hl; congruence). rewrite <- Hl1 in *. clear s Hg Hh1 Hl1.
  destruct st as [p ex c x e|p x e|p [e|]|p e|p ex x ps b|p c t elifs els|p lb lp tag cls
    |p lb lp init c post rng b|p l|p l]; simpl in Hwf; rewrite ?andb_true_iff in Hwf.
  - by apply sat_execLet.
  - eapply sat_bind; [by apply sat_eval|]. intros v s2 Hg2 Hf2 Hv.
    apply sat_check; [by apply sat_chkVal|]. by apply sat_assign.
  - eapply sat_bind; [by apply sat_eval|]. intros v s2 Hg2 Hf2 Hv. simpl in Hv. apply sat_throw; [done|]. by split.
  - apply sat_throw; [done|]. split; [done|constructor].
  - eapply sat_bind; [by apply sat_eval|]. intros v s2 Hg2 Hf2 Hv. by apply sat_ret.
  - apply sat_execFnDef; try done. apply Hwf.
  - destruct Hwf as [[H1 H2] H3]. apply sat_execElifs; [simpl; by rewrite H1|by destruct els|done..].
  - destruct Hwf as [H1 H2]. by eapply sat_execSwitch.
  - destruct Hwf as [[H1 H2] H3]. by eapply sat_execFor.
  - apply sat_throw; [done|]. by exists cs.
  - apply sat_throw; [done|]. by exists cs.
Qed.

(** *** Expressions *)

Lemma sat_evalStrict own n p op l r s :
  good s -> sat k own n None (evalStrict p op l r) s (fun v s' => val_ok (hl s') v).
Proof.
  intros Hg. assert (Hnum : forall f, val_ok (hl s) (VNum f)) by (by constructor).
  assert (Har : sat k own n None
            (let* ln := wrap (toNum p l) in let* rn := wrap (toNum p r) in evalArith p op ln rn) s
            (fun v s' => val_ok (hl s') v)).
  { eapply (sat_pure _ _ _ _ _ _ _ (fun _ => True)); [apply sat_wrap; eauto with rts|]. intros x _.
    eapply (sat_pure _ _ _ _ _ _ _ (fun _ => True)); [apply sat_wrap; eauto with rts|]. intros y _.
    destruct op; try (by apply sat_raise); repeat apply sat_if; try (by apply sat_raise); by apply sat_ret. }
  assert (Hcmp : sat k own n None (cmp p op l r) s (fun v s' => val_ok (hl s') v)).
  { unfold cmp. case_match; [|by apply sat_raise]. apply sat_ret; auto with rts. }
  destruct op; simpl; try done; try (by apply sat_raise); try (apply sat_ret; auto with rts).
  assert (Hcat : sat k own n None (let* ls := ToStr p l in let* rs := ToStr p r in
      CheckStr p (ls +:+ rs) >> ok (VStr (ls +:+ rs))) s (fun v s' => val_ok (hl s') v)).
  { eapply sat_pure; [by apply sat_ToStr|]. intros x _. eapply sat_pure; [by apply sat_ToStr|]. intros y _.
    apply sat_check; [by apply sat_CheckStr|]. apply sat_ret; auto with rts. }
  destruct l; try done. destruct r; try done. by apply sat_ret.
Qed.

Lemma sat_evalBin own n env p op l r s :
  good s -> env < hl s -> n <= hl s ->
  sat k own n None (evalBin vm env p op l r) s (fun v s' => val_ok (hl s') v).
Proof.
  intros Hg Henv Hn. eapply sat_bind; [by apply sat_eval|]. intros lv s1 Hg1 Hf1 Hlv. apply frame_hl in Hf1.
  assert (Hr : sat k own n None (vm_eval vm env r) s1 (fun v s' => val_ok (hl s') v)).
  { apply sat_eval; [done|lia|lia]. }
  assert (Hb : sat k own n None (let* r := vm_eval vm env r in ok (VBool (IsTruthy r))) s1
                 (fun v s' => val_ok (hl s') v)).
  { eapply sat_bind; [exact Hr|]. intros ? ? ? _ _. apply sat_ret; auto with rts. }
  assert (Hs : sat k own n None (let* r := vm_eval vm env r in evalStrict p op lv r) s1
                 (fun v s' => val_ok (hl s') v)).
  { eapply sat_bind; [exact Hr|]. intros ? ? ? _ _. by apply sat_evalStrict. }
  destruct op; try done; apply sat_if; try done; apply sat_ret; auto with rts.
Qed.

Lemma sat_listIndex own n cs p v s :
  good s -> sat k own n cs (listIndex p v) s (fun _ s' => s' = s /\ True).
Proof.
  intros Hg. destruct v; try by apply sat_raise. repeat apply sat_if; try by apply sat_raise. by apply sat_ret.
Qed.

Lemma list_at_ok n l i : Forall (val_ok n) l -> val_ok n (list_at l i).
Proof.
  intros Hl. unfold list_at. destruct (_ || _); [constructor|].
  destruct (l !! Z.to_nat i) eqn:E; simpl; [|constructor]. rewrite Forall_lookup in Hl. by eapply Hl.
Qed.

Lemma default_ok n (m : gmap string Value) x :
  (forall y v, m !! y = Some v -> val_ok n v) -> val_ok n (default VNull (m !! x)).
Proof. intros Hm. destruct (m !! x) eqn:E; simpl; eauto with rts. Qed.

Lemma sat_evalIndex own n p x i s :
  good s -> val_ok (hl s) x -> val_ok (hl s) i ->
  sat k own n None (evalIndex p x i) s (fun v s' => val_ok (hl s') v).
Proof.
  intros Hg Hx Hi. destruct x as [| | | |l|m| | |[o|]]; try (by apply sat_raise).
  - eapply sat_pure; [by apply sat_listIndex|]. intros z _. apply sat_ret; [done|].
    apply list_at_ok. by inversion Hx.
  - eapply (sat_pure _ _ _ _ _ _ _ (fun _ => True)); [apply sat_wrap; eauto with rts|]. intros key _.
    apply sat_ret; [done|]. apply default_ok. by inversion Hx.
  - apply sat_check; [by apply sat_checkBound|].
    eapply sat_mono; [by apply sat_wrapping, sat_obj_Index|]. by intros v s' _ _ [-> ?].
Qed.

Lemma sat_evalMember own n p x name s :
  good s -> val_ok (hl s) x ->
  sat k own n None (evalMember p x name) s (fun v s' => val_ok (hl s') v).
Proof.
  intros Hg Hx. destruct x as [| | | |l|m| | |[o|]]; try (by apply sat_raise).
  - apply sat_ret; [done|]. apply default_ok. by inversion Hx.
  - apply sat_check; [by apply sat_checkBound|].
    eapply sat_pure; [by apply sat_wrapping, sat_obj_Member|]. intros r Hr.
    apply sat_ret; [done|]. destruct r.2; auto with rts.
Qed.

Lemma dictOf_ok n kvs :
  Forall (fun kv => val_ok n kv.2) kvs -> forall y v, dictOf kvs !! y = Some v -> val_ok n v.
Proof.
  unfold dictOf. assert (Hm : forall y v, (∅ : gmap string Value) !! y = Some v -> val_ok n v) by done.
  revert Hm. generalize (∅ : gmap string Value) as m. induction kvs as [|kv kvs IH]; intros m Hm Hk; simpl; [done|].
  inversion Hk; subst. apply IH; [|done]. intros y v [[_ <-]|[_ Hy]]%lookup_insert_Some; eauto.
Qed.

Lemma sat_eval_method env ex s :
  good s -> env < hl s ->
  sat (k + 1) None (hl s) None (eval vm env ex) s (fun v s' => val_ok (hl s') v).
Proof.
  intros Hg Henv. apply sat_tick; [done|done|]. intros s1 Hg1 Hh1 _ _.
  assert (Hl1 : hl s1 = hl s) by (unfold hl; congruence). rewrite <- Hl1 in *. clear s Hg Hh1 Hl1.
  assert (Hev : forall e s, good s -> hl s1 <= hl s ->
            sat k None (hl s1) None (vm_eval vm env e) s (fun v s' => val_ok (hl s') v)).
  { intros. apply sat_eval; [done|lia|lia]. }
  assert (Hlist : forall es s, good s -> hl s1 <= hl s ->
            sat k None (hl s1) None (mapM (vm_eval vm env) es) s
              (fun vs s' => Forall (val_ok (hl s')) vs /\ length vs = length es)).
  { intros es s Hg Hle. apply sat_mapM; [eauto with rts|done|].
    intros x s' _ Hg' Hf'. apply Hev; [done|]. apply frame_hl in Hf'. lia. }
  destruct ex as [p x|p kind b f x|p op x|p op l r|p c t e|p x|p c args|p x i|p x name|p es|p es].
  - apply sat_getHeap. destruct (env_Get env x (hp s1)) eqn:E; [|by apply sat_raise].
    apply sat_check; [by apply sat_checkBound|]. apply sat_ret; [done|]. eapply env_Get_ok; [apply Hg1|done].
  - destruct kind; simpl; try (apply sat_ret; auto with rts).
    apply sat_check; [by apply sat_CheckStr|]. apply sat_ret; auto with rts.
  - eapply sat_bind; [by apply Hev|]. intros v s2 Hg2 Hf2 Hv. destruct op; simpl; [apply sat_ret; auto with rts|].
    eapply (sat_pure _ _ _ _ _ _ _ (fun _ => True)); [apply sat_wrap; eauto with rts|]. intros y _.
    apply sat_ret; auto with rts.
  - by apply sat_evalBin.
  - eapply sat_bind; [by apply Hev|]. intros v s2 Hg2 Hf2 Hv. apply frame_hl in Hf2. apply sat_if; by apply Hev.
  - eapply sat_catch; [by apply Hev| | |].
    + intros v s2 Hg2 _ Hv. apply sat_ret; [done|]. simpl. auto with rts.
    + intros e s2 Hg2 _ Hab _. simpl. rewrite Hab. apply sat_ret; [done|]. simpl. auto with rts.
    + intros e s2 Hab. simpl. rewrite Hab. by eexists.
  - eapply sat_bind; [by apply Hev|]. intros v s2 Hg2 Hf2 Hv. apply frame_hl in Hf2.
    eapply sat_bind; [by apply Hlist|]. intros vs s3 Hg3 Hf3 [Hvs _]. apply frame_hl in Hf3.
    apply sat_callVal; [done|lia|by eapply val_ok_mono|done].
  - eapply sat_bind; [by apply Hev|]. intros v s2 Hg2 Hf2 Hv. apply frame_hl in Hf2.
    eapply sat_bind; [by apply Hev|]. intros w s3 Hg3 Hf3 Hw. apply frame_hl in Hf3.
    apply sat_evalIndex; [done|by eapply val_ok_mono|done].
  - eapply sat_bind; [by apply Hev|]. intros v s2 Hg2 Hf2 Hv. by apply sat_evalMember.
  - apply sat_check; [by apply sat_CheckList|].
    eapply sat_bind; [by apply Hlist|]. intros vs s3 Hg3 Hf3 [Hvs _]. apply sat_ret; auto with rts.
  - apply sat_check; [by apply sat_CheckDict|].
    eapply sat_bind.
    { apply (sat_mapM _ _ _ _ _ (fun i kv => val_ok i kv.2)); [eauto with rts|done|].
      intros [[q key] e] s2 _ Hg2 Hf2. apply frame_hl in Hf2. apply sat_check; [by apply sat_CheckStr|].
      eapply sat_bind; [by apply Hev|]. intros v s3 Hg3 _ Hv. by apply sat_ret. }
    intros kvs s2 Hg2 _ [Hkvs _]. apply sat_ret; [done|]. constructor. by apply dictOf_ok.
Qed.
End methods.

(** ** The knot *)

Section knot.
Context `{HH : Host} `{!HostOk} `{NN : Natives} `{!NativesOk}.

Lemma vm_at_ok (n : nat) : vm_ok (vm_at n) (Z.of_nat n).
Proof.
  induction n as [|n IH].
  - split; intros; try intros ???????; apply sat_out_of_fuel; done || lia.
  - rewrite Nat2Z.inj_succ. unfold Z.succ. split; intros; simpl.
    + by apply sat_eval_method.
    + by apply sat_execStmt.
    + by eapply sat_forLoop.
    + intros p cal args s Hg Hc Hargs. simpl. replace (Z.of_nat n + 1 - 1)%Z with (Z.of_nat n) by lia.
      by apply sat_callVal.
Qed.
End knot.
