(* ===== verification/Args.v ===== *)
(** * Argument checks of native functions (internal/rts/args.go, call.go,
    dict.go).

    An [Args] carries the arguments and the signature that its messages name;
    the context is that of the monad. *)
From stdpp Require Import base list strings gmap.
From Stdlib Require Import Ascii ZArith Lia.
From S2P Require Import Prelude GoStd GoFloat Token Ast Value Vm.

Set Warnings "-register-all".
Open Scope string_scope.
Open Scope nat_scope.
Open Scope list_scope.

Record Args := NewArgs { a_pos : Pos; a_args : list Value; a_sig : string }.

Section args.
Context `{Host}.
Implicit Type a : Args.

Definition argErr {A} (a : Args) (msg : string) : M A := raise (a_pos a) (a_sig a +:+ msg).

Definition Count (a : Args) (want : nat) : M unit :=
  if length (a_args a) =? want then ok tt
  else argErr a (" expects " +:+ itoa (Z.of_nat want) +:+ " args").

Definition CountRange (a : Args) (lo hi : nat) : M unit :=
  if (length (a_args a) <? lo) || (hi <? length (a_args a))
  then argErr a (" expects " +:+ itoa (Z.of_nat lo) +:+ "-" +:+ itoa (Z.of_nat hi) +:+ " args")
  else ok tt.

Definition Has (a : Args) (i : nat) : bool := i <? length (a_args a).

(** [a.args[i]]; the callers have checked the count. *)
Definition Arg (a : Args) (i : nat) : Value := default VNull (a_args a !! i).

Definition ToStrArg (a : Args) (i : nat) : M string := ToStr (a_pos a) (Arg a i).

Definition NumArg (a : Args) (i : nat) : M float64 :=
  match Arg a i with
  | VNum n => ok n
  | _ => argErr a " expects number"
  end.

Definition FiniteNum (a : Args) (i : nat) : M float64 :=
  let* n := NumArg a i in
  if IsNaN n || IsInf n then argErr a " expects finite number" else ok n.

Definition ListArg (a : Args) (i : nat) : M (list Value) :=
  match Arg a i with
  | VNull => ok []
  | VList l => CheckList (a_pos a) (length l) >> ok l
  | _ => argErr a " expects list"
  end.

(** [None] is the nil map. *)
Definition DictArg (a : Args) (i : nat) : M (option (gmap string Value)) :=
  match Arg a i with
  | VNull => ok None
  | VDict m => ok (Some m)
  | _ => argErr a " expects dict"
  end.

Definition KeyOf (a : Args) (v : Value) : M string := wrap (Key (a_pos a) v).
Definition KeyArg (a : Args) (i : nat) : M string := KeyOf a (Arg a i).

Definition CheckFunc (pos : Pos) (v : Value) (sig : string) : M unit :=
  match v with
  | VFunc _ | VNative _ => ok tt
  | _ => raise pos (sig +:+ " expects function")
  end.

Definition FnArg (a : Args) (i : nat) : M Value :=
  CheckFunc (a_pos a) (Arg a i) (a_sig a) >> ok (Arg a i).
End args.

(** [CloneDict], and reading a map that may be nil. *)
Definition CloneDict (m : option (gmap string Value)) : gmap string Value := default ∅ m.

(** A native function: it may call back through its first argument. *)
Definition NativeFunc : Type := (Pos -> Value -> list Value -> M Value) -> Pos -> list Value -> M Value.
