(* ===== verification/Stdlib.v ===== *)
(** * The [list] namespace (internal/rts/stdlib/list.go). *)
From stdpp Require Import base list strings gmap.
From Stdlib Require Import Ascii ZArith Lia.
From S2P Require Import Prelude GoStd GoFloat Token Ast Value Vm Args.

Set Warnings "-register-all".
Open Scope string_scope.
Open Scope nat_scope.
Open Scope list_scope.

(** ** Indexes *)

Section indexes.
Local Open Scope Z_scope.

Definition clampIdx (n i : Z) : Z :=
  let i := if i <? 0 then n + i else i in
  if i <? 0 then 0 else if n <? i then n else i.

Definition sliceIdx (n st en : Z) : Z * Z :=
  let st := clampIdx n st in
  (st, Z.max (clampIdx n en) st).
End indexes.

(** [items[st:en]]. *)
Definition subslice (l : list Value) (st en : Z) : list Value :=
  take (Z.to_nat en - Z.to_nat st) (drop (Z.to_nat st) l).

Section list_lib.
Context `{Host}.

(** [numF] and the two checks of [intNum]. *)
Definition intNum (a : Args) (i : nat) : M Z :=
  let* n := FiniteNum a i in
  if negb (f_eq (f_trunc n) n) then argErr a " expects integer"
  else if f_lt f2_63 n || f_lt n (f_sub (f_neg f2_63) (f_of_Z 1)) then argErr a " out of range"
  else ok (go_int (default 0%Z (f_to_Z n))).

Definition keyVal (a : Args) (v : Value) : M string :=
  match v with
  | VNull => ok "n:null"
  | VBool b => ok (if b then "b:true" else "b:false")
  | VNum n => if IsNaN n || IsInf n then argErr a " expects finite numbers"
              else ok ("f:" +:+ FormatG n)
  | VStr s => ok ("s:" +:+ s)
  | _ => argErr a " expects list of primitives"
  end.

Definition listAppend : NativeFunc := fun _ pos args =>
  let a := NewArgs pos args "list.append(list, item)" in
  Count a 2 >>
  let* items := ListArg a 0 in
  let out := items ++ [Arg a 1] in
  CheckList pos (length out) >> ok (VList out).

Definition listConcat : NativeFunc := fun _ pos args =>
  let a := NewArgs pos args "list.concat(a, b)" in
  Count a 2 >>
  let* x := ListArg a 0 in
  let* y := ListArg a 1 in
  let out := x ++ y in
  CheckList pos (length out) >> ok (VList out).

(** What [list.sort] compares with, for a list whose first element has kind [k]. *)
Definition sortLess (v : Value) : option (Value -> Value -> bool) :=
  match v with
  | VNum _ => Some (fun x y => match x, y with VNum a, VNum b => f_lt a b | _, _ => false end)
  | VStr _ => Some (fun x y => match x, y with VStr a, VStr b => str_lt a b | _, _ => false end)
  | _ => None
  end.

Definition listSort : NativeFunc := fun _ pos args =>
  let a := NewArgs pos args "list.sort(list)" in
  Count a 1 >>
  let* items := ListArg a 0 in
  match items with
  | [] | [_] => ok (VList items)
  | v :: _ =>
      if negb (forallb (fun w => (vkind w =? vkind v)%Z) items)
      then argErr a " expects numbers or strings"
      else match sortLess v with
           | Some less => ok (VList (sort_slice less items))
           | None => argErr a " expects numbers or strings"
           end
  end.

(** The loops of [map], [filter], [any], [all] and [unique]; [out] is what
    has been collected. *)
Section callbacks.
Variable call : Pos -> Value -> list Value -> M Value.

Fixpoint mapLoop (pos : Pos) (fn : Value) (out items : list Value) : M Value :=
  match items with
  | [] => ok (VList out)
  | it :: rest =>
      tick pos >>
      let* v := call pos fn [it] in
      CheckList pos (S (length out)) >>
      mapLoop pos fn (out ++ [v]) rest
  end.

Fixpoint filterLoop (pos : Pos) (fn : Value) (out items : list Value) : M Value :=
  match items with
  | [] => ok (VList out)
  | it :: rest =>
      tick pos >>
      let* v := call pos fn [it] in
      if IsTruthy v
      then CheckList pos (S (length out)) >> filterLoop pos fn (out ++ [it]) rest
      else filterLoop pos fn out rest
  end.

(** [any] looks for a true outcome, [all] for a false one. *)
Fixpoint searchLoop (want : bool) (pos : Pos) (fn : Value) (items : list Value) : M Value :=
  match items with
  | [] => ok (VBool (negb want))
  | it :: rest =>
      tick pos >>
      let* v := call pos fn [it] in
      if Bool.eqb (IsTruthy v) want then ok (VBool want)
      else searchLoop want pos fn rest
  end.
End callbacks.

Definition listMap : NativeFunc := fun call pos args =>
  let a := NewArgs pos args "list.map(list, fn)" in
  Count a 2 >>
  let* items := ListArg a 0 in
  let* fn := FnArg a 1 in
  mapLoop call pos fn [] items.

Definition listFilter : NativeFunc := fun call pos args =>
  let a := NewArgs pos args "list.filter(list, fn)" in
  Count a 2 >>
  let* items := ListArg a 0 in
  let* fn := FnArg a 1 in
  filterLoop call pos fn [] items.

Definition listAny : NativeFunc := fun call pos args =>
  let a := NewArgs pos args "list.any(list, fn)" in
  Count a 2 >>
  let* items := ListArg a 0 in
  let* fn := FnArg a 1 in
  searchLoop call true pos fn items.

Definition listAll : NativeFunc := fun call pos args =>
  let a := NewArgs pos args "list.all(list, fn)" in
  Count a 2 >>
  let* items := ListArg a 0 in
  let* fn := FnArg a 1 in
  searchLoop call false pos fn items.

Definition listSlice : NativeFunc := fun _ pos args =>
  let a := NewArgs pos args "list.slice(list, start[, end])" in
  CountRange a 2 3 >>
  let* items := ListArg a 0 in
  match items with
  | [] => ok (VList [])
  | _ =>
      let* st := intNum a 1 in
      let n := Z.of_nat (length items) in
      let* en := (if Has a 2 then intNum a 2 else ok n) in
      let '(st, en) := sliceIdx n st en in
      if (en <=? st)%Z then ok (VList [])
      else
        let out := subslice items st en in
        CheckList pos (length out) >> ok (VList out)
  end.

Fixpoint uniqueLoop (a : Args) (seen : gset string) (out items : list Value) : M Value :=
  match items with
  | [] => ok (VList out)
  | it :: rest =>
      tick (a_pos a) >>
      let* k := keyVal a it in
      if bool_decide (k ∈ seen) then uniqueLoop a seen out rest
      else CheckList (a_pos a) (S (length out)) >>
           uniqueLoop a ({[k]} ∪ seen) (out ++ [it]) rest
  end.

Definition listUnique : NativeFunc := fun _ pos args =>
  let a := NewArgs pos args "list.unique(list)" in
  Count a 1 >>
  let* items := ListArg a 0 in
  uniqueLoop a ∅ [] items.

Definition listSpec : list (string * NativeFunc) :=
  [("append", listAppend); ("concat", listConcat); ("sort", listSort); ("map", listMap);
   ("filter", listFilter); ("any", listAny); ("all", listAll); ("slice", listSlice);
   ("unique", listUnique)].
End list_lib.

(** * The [dict] namespace (internal/rts/stdlib/dict.go). *)
From stdpp Require Import base list strings gmap.
From Stdlib Require Import Ascii ZArith Lia.
From S2P Require Import Prelude GoStd GoFloat Token Ast Value Vm Args.

Set Warnings "-register-all".
Open Scope string_scope.
Open Scope nat_scope.
Open Scope list_scope.

Section dict_lib.
Context `{Host}.

(** A nil map is read as an empty one. *)
Definition sortedDictKeys (pos : Pos) (m : gmap string Value) : M (list string) :=
  if size m =? 0 then ok []
  else CheckList pos (size m) >> ok (sorted_keys m).

Definition keyList (a : Args) (i : nat) : M (list string) :=
  match Arg a i with
  | VNull => ok []
  | VStr _ => let* k := KeyArg a i in ok [k]
  | VList l =>
      CheckList (a_pos a) (length l) >>
      mapM (fun it => tick (a_pos a) >> KeyOf a it) l
  | _ => argErr a " expects list or string"
  end.

(** The keys in the order a Go map yields them, which is unspecified. *)
Definition setOfStrings (l : list string) : gset string := list_to_set l.

(** A function of the whole dictionary by its sorted keys. *)
Definition overKeys (sig : string) (f : gmap string Value -> string -> Value) : NativeFunc :=
  fun _ pos args =>
    let a := NewArgs pos args sig in
    Count a 1 >>
    let* m := DictArg a 0 in
    let* keys := sortedDictKeys pos (CloneDict m) in
    ok (VList (map (f (CloneDict m)) keys)).

Definition at_key (m : gmap string Value) (k : string) : Value := default VNull (m !! k).

Definition dictKeys : NativeFunc := overKeys "dict.keys(dict)" (fun _ k => VStr k).

Definition dictValues : NativeFunc := overKeys "dict.values(dict)" at_key.

Definition dictItems : NativeFunc :=
  overKeys "dict.items(dict)"
    (fun m k => VDict (<["key" := VStr k]> {["value" := at_key m k]})).

Definition dictSet : NativeFunc := fun _ pos args =>
  let a := NewArgs pos args "dict.set(dict, key, value)" in
  Count a 3 >>
  let* m := DictArg a 0 in
  let* key := KeyArg a 1 in
  let out := <[key := Arg a 2]> (CloneDict m) in
  CheckDict pos (size out) >> ok (VDict out).

(** [maps.Copy] lets the second dictionary win. *)
Definition dictMerge : NativeFunc := fun _ pos args =>
  let a := NewArgs pos args "dict.merge(a, b)" in
  Count a 2 >>
  let* x := DictArg a 0 in
  let* y := DictArg a 1 in
  let out := CloneDict y ∪ CloneDict x in
  CheckDict pos (size out) >> ok (VDict out).

Definition dictRemove : NativeFunc := fun _ pos args =>
  let a := NewArgs pos args "dict.remove(dict, key)" in
  Count a 2 >>
  let* m := DictArg a 0 in
  let* key := KeyArg a 1 in
  let out := delete key (CloneDict m) in
  CheckDict pos (size out) >> ok (VDict out).

Definition dictGet : NativeFunc := fun _ pos args =>
  let a := NewArgs pos args "dict.get(dict, key[, def])" in
  CountRange a 2 3 >>
  let* m := DictArg a 0 in
  let def := if Has a 2 then Arg a 2 else VNull in
  match m with
  | None => ok def
  | Some m => let* key := KeyArg a 1 in ok (default def (m !! key))
  end.

Definition dictHas : NativeFunc := fun _ pos args =>
  let a := NewArgs pos args "dict.has(dict, key)" in
  Count a 2 >>
  let* m := DictArg a 0 in
  match m with
  | None => ok (VBool false)
  | Some m => let* key := KeyArg a 1 in ok (VBool (bool_decide (is_Some (m !! key))))
  end.

(** [for k := range set { tick; if v, ok := m[k]; ok { out[k] = v } }]. *)
Fixpoint pickLoop (pos : Pos) (m out : gmap string Value) (keys : list string)
  : M (gmap string Value) :=
  match keys with
  | [] => ok out
  | k :: rest =>
      tick pos >>
      pickLoop pos m (match m !! k with Some v => <[k := v]> out | None => out end) rest
  end.

Definition dictPick : NativeFunc := fun _ pos args =>
  let a := NewArgs pos args "dict.pick(dict, keys)" in
  Count a 2 >>
  let* d := DictArg a 0 in
  let m := CloneDict d in
  let* keys := keyList a 1 in
  if (length keys =? 0) || (size m =? 0) then ok (VDict ∅)
  else
    let* out := pickLoop pos m ∅ (elements (setOfStrings keys)) in
    CheckDict pos (size out) >> ok (VDict out).

Fixpoint omitLoop (pos : Pos) (out : gmap string Value) (keys : list string)
  : M (gmap string Value) :=
  match keys with
  | [] => ok out
  | k :: rest => tick pos >> omitLoop pos (delete k out) rest
  end.

Definition dictOmit : NativeFunc := fun _ pos args =>
  let a := NewArgs pos args "dict.omit(dict, keys)" in
  Count a 2 >>
  let* d := DictArg a 0 in
  let m := CloneDict d in
  let* keys := keyList a 1 in
  if (length keys =? 0) || (size m =? 0) then ok (VDict m)
  else
    let* out := omitLoop pos m (elements (setOfStrings keys)) in
    CheckDict pos (size out) >> ok (VDict out).

Definition dictSpec : list (string * NativeFunc) :=
  [("keys", dictKeys); ("values", dictValues); ("items", dictItems); ("set", dictSet);
   ("merge", dictMerge); ("remove", dictRemove); ("get", dictGet); ("has", dictHas);
   ("pick", dictPick); ("omit", dictOmit)].
End dict_lib.

(** * The core functions and the [math] namespace
    (internal/rts/stdlib/core.go, types.go, math.go). *)
From stdpp Require Import base list strings gmap.
From Stdlib Require Import Ascii ZArith Lia.
From S2P Require Import Prelude GoStd GoFloat Token Ast Value Vm Args.

Set Warnings "-register-all".
Open Scope string_scope.
Open Scope nat_scope.
Open Scope list_scope.

(** [strings.Contains(s, sub)]. *)
Definition Contains (s sub : string) : bool := bool_decide (is_Some (String.index 0 sub s)).

(** [unicode.IsSpace] on a code point. *)
Definition isSpaceRune (z : Z) : bool :=
  existsb (Z.eqb z) [9; 10; 11; 12; 13; 32; 133; 160; 5760; 8232; 8233; 8239; 8287; 12288]%Z
  || ((8192 <=? z)%Z && (z <=? 8202)%Z).

(** [strings.TrimSpace(s) == EmptyString]. *)
Fixpoint all_space (fuel : nat) (l : list ascii) : bool :=
  match fuel, l with
  | _, [] => true
  | O, _ => false
  | S f, _ =>
      match decode_rune l with
      | Some (r, w) => isSpaceRune r && all_space f (drop w l)
      | None => false
      end
  end.

Definition blankName (s : string) : bool := all_space (String.length s) (bytes s).

Section core_lib.
Context `{Host}.

(** [Object.TypeName]. *)
Definition TypeName (o : Object) : string :=
  match o with
  | ResultObj _ _ _ => "result"
  | ModObj name _ => "module:" +:+ name
  | ObjMap name _ => name
  | HostObj id => host_type id
  end.

Definition typeName (v : Value) : string :=
  match v with
  | VNull => "null"
  | VBool _ => "bool"
  | VNum _ => "number"
  | VStr _ => "string"
  | VList _ => "list"
  | VDict _ => "dict"
  | VFunc _ => "function"
  | VNative _ => "native"
  | VObj None => "object"
  | VObj (Some o) => if blankName (TypeName o) then "object" else TypeName o
  end.

Definition coreFail : NativeFunc := fun _ pos args =>
  let a := NewArgs pos args "fail()" in
  match args with
  | [] => raise pos "fail()"
  | [_] => let* s := ToStrArg a 0 in raise pos s
  | _ => raise pos ("fail(" +:+ itoa (Z.of_nat (length args)) +:+ " args)")
  end.

Definition coreLen : NativeFunc := fun _ pos args =>
  let a := NewArgs pos args "len(x)" in
  Count a 1 >>
  match Arg a 0 with
  | VStr s => ok (VNum (f_of_Z (slen s)))
  | VList l => ok (VNum (f_of_Z (Z.of_nat (length l))))
  | VDict m => ok (VNum (f_of_Z (Z.of_nat (size m))))
  | _ => argErr a " unsupported"
  end.

Definition coreContains : NativeFunc := fun _ pos args =>
  let a := NewArgs pos args "contains(a, b)" in
  Count a 2 >>
  let* s := ToStrArg a 1 in
  match Arg a 0 with
  | VStr h => ok (VBool (Contains h s))
  | VList l => ok (VBool (existsb (fun it => ValueEqual it (Arg a 1)) l))
  | VDict m => ok (VBool (bool_decide (is_Some (m !! s))))
  | _ => raise pos "contains unsupported"
  end.

Definition coreStr : NativeFunc := fun _ pos args =>
  let a := NewArgs pos args "str(x)" in
  Count a 1 >>
  let* s := ToStrArg a 0 in ok (VStr s).

Definition coreTypeof : NativeFunc := fun _ pos args =>
  let a := NewArgs pos args "typeof(x)" in
  Count a 1 >> ok (VStr (typeName (Arg a 0))).

Definition coreSpec : list (string * NativeFunc) :=
  [("fail", coreFail); ("len", coreLen); ("contains", coreContains); ("str", coreStr);
   ("typeof", coreTypeof)].

(** ** [math] *)

Definition math1 (sig : string) (f : float64 -> float64) : NativeFunc := fun _ pos args =>
  let a := NewArgs pos args sig in
  Count a 1 >>
  let* n := NumArg a 0 in ok (VNum (f n)).

Definition math2 (sig : string) (f : float64 -> float64 -> float64) : NativeFunc :=
  fun _ pos args =>
    let a := NewArgs pos args sig in
    Count a 2 >>
    let* x := NumArg a 0 in
    let* y := NumArg a 1 in ok (VNum (f x y)).

Definition mathAbs : NativeFunc := math1 "math.abs(x)" f_abs.
Definition mathMin : NativeFunc := math2 "math.min(a, b)" f_min.
Definition mathMax : NativeFunc := math2 "math.max(a, b)" f_max.
Definition mathFloor : NativeFunc := math1 "math.floor(x)" f_floor.
Definition mathCeil : NativeFunc := math1 "math.ceil(x)" f_ceil.
Definition mathRound : NativeFunc := math1 "math.round(x)" f_round.

Definition mathClamp : NativeFunc := fun _ pos args =>
  let a := NewArgs pos args "math.clamp(x, min, max)" in
  Count a 3 >>
  let* x := NumArg a 0 in
  let* lo := NumArg a 1 in
  let* hi := NumArg a 2 in
  if f_lt hi lo then argErr a " expects min <= max"
  else ok (VNum (if f_lt x lo then lo else if f_lt hi x then hi else x)).

Definition mathSpec : list (string * NativeFunc) :=
  [("abs", mathAbs); ("min", mathMin); ("max", mathMax); ("clamp", mathClamp);
   ("floor", mathFloor); ("ceil", mathCeil); ("round", mathRound)].
End core_lib.

(** * The standard library prelude (internal/rts/stdlib/stdlib.go, native.go).

    A native function of the library is known by its qualified name.  The
    functions that are not modelled, and the host's own, are answered by
    [host_call]; they do not call back. *)
From stdpp Require Import base list strings gmap.
From Stdlib Require Import Ascii ZArith Lia.
From S2P Require Import Prelude GoStd GoFloat Token Ast Value Vm Args.

Set Warnings "-register-all".
Open Scope string_scope.
Open Scope nat_scope.
Open Scope list_scope.

Section stdlib.
Context `{Host}.

Definition qualify (prefix name : string) : string :=
  if bool_decide (prefix = EmptyString) then name else prefix +:+ "." +:+ name.

Definition table : gmap string NativeFunc :=
  list_to_map (coreSpec ++ map (fun p => (qualify "list" p.1, p.2)) listSpec
               ++ map (fun p => (qualify "dict" p.1, p.2)) dictSpec
               ++ map (fun p => (qualify "math" p.1, p.2)) mathSpec).

Definition hostNative (id : string) (pos : Pos) (args : list Value) : M Value :=
  let* c := getCtx in lift (host_call id c pos args).

(** The function that [NativeNamed] wraps. *)
Definition stdFn (name : string) : NativeFunc :=
  match table !! name with
  | Some f => f
  | None => fun _ => hostNative name
  end.

(** [NativeNamed(name, f)]. *)
Definition NativeNamed (name : string) (f : NativeFunc) : NativeFunc := fun call pos args =>
  setCtx (push (mkFrame FrameNative pos name)) >>
  deferred (f call pos args) pop.

#[global] Instance std_natives : Natives := fun call nf =>
  match nf with
  | NatStd name => NativeNamed name (stdFn name) call
  | NatHost id => hostNative id
  end.

(** [mkFns]. *)
Definition mkFns (prefix : string) (names : list string) : gmap string Value :=
  list_to_map (map (fun k => (k, VNative (Some (NatStd (qualify prefix k))))) names).

(** [mkObj]. *)
Definition mkObj (name : string) (names : list string) : Value :=
  VObj (Some (ObjMap name (mkFns name names))).

(** [nsSpec]: a namespace, whether it also has a top-level alias, and the
    names of its functions. *)
Record nsSpec := mkNs { ns_name : string; ns_top : bool; ns_fns : list string }.

Definition modelled : list nsSpec :=
  [mkNs "list" false (map fst listSpec); mkNs "dict" false (map fst dictSpec);
   mkNs "math" false (map fst mathSpec)].

(** [New], for the core functions named [core], the namespaces [specs] and
    the [encoding] object [enc]. *)
Definition New (core : list string) (specs : list nsSpec) (enc : Value) : gmap string Value :=
  let coreFns := mkFns EmptyString core in
  let ns (l : list nsSpec) : gmap string Value :=
    list_to_map (map (fun s => (ns_name s, mkObj (ns_name s) (ns_fns s))) l) in
  let rootMembers := <["encoding" := enc]> (ns specs ∪ coreFns) in
  let root name := VObj (Some (ObjMap name rootMembers)) in
  <["stdlib" := root "stdlib"]>
    (<["rts" := root "rts"]>
      (<["encoding" := enc]> (ns (List.filter ns_top specs) ∪ coreFns))).
End stdlib.
