(* ===== verification/StdSound.v ===== *)
(** * The standard library keeps the promise of native functions *)
From stdpp Require Import base list strings gmap.
From Stdlib Require Import ZArith Lia.
From S2P Require Import Prelude GoStd GoFloat Token Ast Value Vm VmFacts VmSound Args Stdlib.

Set Warnings "-register-all".
Open Scope string_scope.
Open Scope nat_scope.
Open Scope list_scope.
Open Scope vm_scope.

Section natives.
Context `{HH : Host} `{!HostOk}.
Implicit Types (a : Args) (s : St).

(** ** Arguments *)

Definition args_ok (n : nat) (a : Args) : Prop := Forall (val_ok n) (a_args a).

Lemma args_ok_mono n n' a : n <= n' -> args_ok n a -> args_ok n' a.
Proof. apply Forall_val_mono. Qed.

Lemma Arg_ok n a i : args_ok n a -> val_ok n (Arg a i).
Proof.
  intros Ha. unfold Arg. destruct (a_args a !! i) eqn:E; simpl; [|constructor].
  eapply Forall_lookup_1; [exact Ha|exact E].
Qed.

Lemma sat_Count k own n cs a i s : good s -> sat k own n cs (Count a i) s (fun _ s' => s' = s).
Proof. intros. apply sat_if; [by apply sat_ret|by apply sat_raise]. Qed.

Lemma sat_CountRange k own n cs a i j s : good s -> sat k own n cs (CountRange a i j) s (fun _ s' => s' = s).
Proof. intros. apply sat_if; [by apply sat_raise|by apply sat_ret]. Qed.

Lemma sat_NumArg k own n cs a i s : good s -> sat k own n cs (NumArg a i) s (fun _ s' => s' = s /\ True).
Proof. intros. unfold NumArg. case_match; by (apply sat_ret || apply sat_raise). Qed.

Lemma sat_ListArg k own n cs a i s :
  good s -> args_ok (hl s) a ->
  sat k own n cs (ListArg a i) s (fun l s' => s' = s /\ Forall (val_ok (hl s)) l).
Proof.
  intros Hg Ha. unfold ListArg. pose proof (Arg_ok _ _ i Ha) as Hv.
  destruct (Arg a i); try (by apply sat_raise); [by apply sat_ret; auto|].
  apply sat_check; [by apply sat_CheckList|]. apply sat_ret; [done|]. split; [done|]. by inversion Hv.
Qed.

Lemma sat_DictArg k own n cs a i s :
  good s -> args_ok (hl s) a ->
  sat k own n cs (DictArg a i) s
    (fun m s' => s' = s /\ forall x v, CloneDict m !! x = Some v -> val_ok (hl s) v).
Proof.
  intros Hg Ha. unfold DictArg. pose proof (Arg_ok _ _ i Ha) as Hv.
  destruct (Arg a i); try (by apply sat_raise); [by apply sat_ret|].
  apply sat_ret; [done|]. split; [done|]. by inversion Hv.
Qed.

Lemma sat_KeyOf k own n cs a v s : good s -> sat k own n cs (KeyOf a v) s (fun _ s' => s' = s /\ True).
Proof. intros. apply sat_wrap; eauto with rts. Qed.

Lemma sat_FnArg k own n cs a i s :
  good s -> args_ok (hl s) a -> sat k own n cs (FnArg a i) s (fun v s' => s' = s /\ val_ok (hl s) v).
Proof.
  intros Hg Ha. apply sat_check; [|apply sat_ret; auto using Arg_ok].
  unfold CheckFunc. case_match; by (apply sat_ret || apply sat_raise).
Qed.

Lemma sat_intNum k own n cs a i s : good s -> sat k own n cs (intNum a i) s (fun _ s' => s' = s /\ True).
Proof.
  intros Hg. eapply sat_pure.
  { eapply sat_pure; [by apply sat_NumArg|]. intros f _. apply sat_if; [by apply sat_raise|].
    by apply (sat_ret _ _ _ _ _ _ (fun _ s' => s' = s /\ True)). }
  intros f _. repeat apply sat_if; try (by apply sat_raise). by apply sat_ret.
Qed.

(** A native function: it keeps the heap, and its result is well formed. *)
Definition native_sat (k : Z) (f : NativeFunc) : Prop :=
  forall call p args s, callback_ok (k - 1) call -> good s -> Forall (val_ok (hl s)) args ->
    sat k None (hl s) None (f call p args) s (fun v s' => val_ok (hl s') v).

Lemma sat_value k own n cs v s : good s -> val_ok (hl s) v ->
  sat k own n cs (ok v) s (fun v s' => val_ok (hl s') v).
Proof. intros. by apply sat_ret. Qed.

(** A value, after the check of its size. *)
Lemma sat_checked k own n cs (m : M unit) v s :
  sat k own n cs m s (fun _ s' => s' = s) -> good s -> val_ok (hl s) v ->
  sat k own n cs (m >> ok v) s (fun v s' => val_ok (hl s') v).
Proof. intros Hm Hg Hv. apply sat_check; [exact Hm|by apply sat_value]. Qed.

(** ** [list] *)

(** One iteration: a tick, and then [m]. *)
Lemma sat_round {A} k n p (m : M A) s (Q : A -> St -> Prop) :
  good s -> n <= hl s ->
  (forall s1, good s1 -> hl s1 = hl s -> sat (k - 1) None n None m s1 Q) ->
  sat k None n None (tick p >> m) s Q.
Proof.
  intros Hg Hn Hm. replace k with (k - 1 + 1)%Z by lia. apply sat_tick; [done|lia|].
  intros s1 Hg1 Hh1 _ _. apply Hm; [done|]. unfold hl. congruence.
Qed.

Lemma sat_tick_only k own n cs p s :
  good s -> n <= hl s -> sat k own n cs (tick p) s (fun _ s' => hl s' = hl s).
Proof.
  intros Hg Hn. unfold sat. apply tick_spec; [done| |].
  - intros s' [] Hf Hh _ _ _. split_and!; try done; [|unfold hl; congruence].
    eapply frame_weaken; [exact Hn| |exact Hf]. by intros ? _ ?.
  - intros e s' Hab Hs Hf Ho. split_and!; try done.
    + eapply frame_weaken; [exact Hn| |exact Hf]. by intros ? _ ?.
    + intros ?. congruence.
    + by destruct e.
Qed.

Section callbacks.
Context (k : Z) (call : Pos -> Value -> list Value -> M Value) (Hcall : callback_ok (k - 1) call).

Lemma sat_call n p fn it s :
  good s -> n <= hl s -> val_ok (hl s) fn -> val_ok (hl s) it ->
  sat (k - 1) None n None (call p fn [it]) s (fun v s' => val_ok (hl s') v).
Proof.
  intros. eapply sat_weaken; [done|done| |apply Hcall; auto]. by intros ? _ ?.
Qed.

Lemma sat_loosen {A} n (m : M A) s Q :
  sat k None n None m s Q -> sat (k - 1) None n None m s Q.
Proof. apply sat_fuel. lia. Qed.

Lemma sat_mapLoop n p fn out items s :
  good s -> n <= hl s -> val_ok (hl s) fn -> Forall (val_ok (hl s)) out -> Forall (val_ok (hl s)) items ->
  sat k None n None (mapLoop call p fn out items) s (fun v s' => val_ok (hl s') v).
Proof.
  revert out s. induction items as [|it rest IH]; intros out s Hg Hn Hfn Hout Hit; simpl.
  - apply sat_value; auto with rts.
  - inversion Hit; subst. apply sat_round; [done|done|]. intros s1 Hg1 Hl1. rewrite <- Hl1 in *.
    eapply sat_bind; [by apply sat_call|]. intros v s2 Hg2 Hf2 Hv. apply frame_hl in Hf2. simpl in Hv.
    apply sat_check; [by apply sat_CheckList|]. apply sat_loosen, IH; try done; [lia|by eapply val_ok_mono| |].
    + apply Forall_app. split; [by eapply Forall_val_mono|by constructor].
    + by eapply Forall_val_mono.
Qed.

Lemma sat_filterLoop n p fn out items s :
  good s -> n <= hl s -> val_ok (hl s) fn -> Forall (val_ok (hl s)) out -> Forall (val_ok (hl s)) items ->
  sat k None n None (filterLoop call p fn out items) s (fun v s' => val_ok (hl s') v).
Proof.
  revert out s. induction items as [|it rest IH]; intros out s Hg Hn Hfn Hout Hit; simpl.
  - apply sat_value; auto with rts.
  - inversion Hit; subst. apply sat_round; [done|done|]. intros s1 Hg1 Hl1. rewrite <- Hl1 in *.
    eapply sat_bind; [by apply sat_call|]. intros v s2 Hg2 Hf2 Hv. apply frame_hl in Hf2.
    assert (Hrest : Forall (val_ok (hl s2)) rest) by by eapply Forall_val_mono.
    assert (Hfn2 : val_ok (hl s2) fn) by by eapply val_ok_mono.
    assert (Hout2 : Forall (val_ok (hl s2)) out) by by eapply Forall_val_mono.
    apply sat_if; [|apply sat_loosen, IH; try done; lia].
    apply sat_check; [by apply sat_CheckList|]. apply sat_loosen, IH; try done; [lia|].
    apply Forall_app. split; [done|]. repeat constructor. by eapply val_ok_mono.
Qed.

Lemma sat_searchLoop n w p fn items s :
  good s -> n <= hl s -> val_ok (hl s) fn -> Forall (val_ok (hl s)) items ->
  sat k None n None (searchLoop call w p fn items) s (fun v s' => val_ok (hl s') v).
Proof.
  revert s. induction items as [|it rest IH]; intros s Hg Hn Hfn Hit; simpl.
  - apply sat_value; auto with rts.
  - inversion Hit; subst. apply sat_round; [done|done|]. intros s1 Hg1 Hl1. rewrite <- Hl1 in *.
    eapply sat_bind; [by apply sat_call|]. intros v s2 Hg2 Hf2 Hv. apply frame_hl in Hf2.
    apply sat_if; [apply sat_value; auto with rts|].
    apply sat_loosen, IH; [done|lia|by eapply val_ok_mono|by eapply Forall_val_mono].
Qed.
End callbacks.

Lemma sat_keyVal k own n cs a v s : good s -> sat k own n cs (keyVal a v) s (fun _ s' => s' = s /\ True).
Proof.
  intros. unfold keyVal. destruct v; try (by apply sat_raise); try (by apply sat_ret).
  apply sat_if; [by apply sat_raise|by apply sat_ret].
Qed.

Lemma sat_uniqueLoop k n a seen out items s :
  good s -> n <= hl s -> Forall (val_ok (hl s)) out -> Forall (val_ok (hl s)) items ->
  sat k None n None (uniqueLoop a seen out items) s (fun v s' => val_ok (hl s') v).
Proof.
  revert seen out s. induction items as [|it rest IH]; intros seen out s Hg Hn Hout Hit; simpl.
  - apply sat_value; auto with rts.
  - inversion Hit; subst. eapply sat_bind; [by apply sat_tick_only|]. intros [] s1 Hg1 _ Hl1.
    simpl in Hl1. rewrite <- Hl1 in *. eapply sat_pure; [by apply sat_keyVal|]. intros key _.
    apply sat_if; [by apply IH|]. apply sat_check; [by apply sat_CheckList|]. apply IH; try done.
    apply Forall_app. auto.
Qed.

Lemma take_drop_ok n l st en : Forall (val_ok n) l -> Forall (val_ok n) (subslice l st en).
Proof. intros. by apply Forall_take, Forall_drop. Qed.

Ltac start :=
  intros call p args s Hcall Hg Hargs;
  assert (Ha : forall sig, args_ok (hl s) (NewArgs p args sig)) by (intros; exact Hargs).

Lemma list_natives k : Forall (fun f => native_sat k f.2) listSpec.
Proof.
  unfold listSpec. rewrite !Forall_cons, Forall_nil. split_and!; [start..|done].
  - apply sat_check; [by apply sat_Count|]. eapply sat_pure; [by apply sat_ListArg|]. intros l Hl.
    apply sat_checked; [by apply sat_CheckList|done|]. constructor. apply Forall_app. auto using Arg_ok.
  - apply sat_check; [by apply sat_Count|]. eapply sat_pure; [by apply sat_ListArg|]. intros l Hl.
    eapply sat_pure; [by apply sat_ListArg|]. intros l' Hl'.
    apply sat_checked; [by apply sat_CheckList|done|]. constructor. by apply Forall_app.
  - apply sat_check; [by apply sat_Count|]. eapply sat_pure; [by apply sat_ListArg|]. intros l Hl.
    destruct l as [|x [|y l]]; [by apply sat_value; auto with rts..|].
    apply sat_if; [by apply sat_raise|]. destruct (sortLess x); [|by apply sat_raise].
    apply sat_value; [done|]. constructor. by rewrite sort_slice_perm.
  - apply sat_check; [by apply sat_Count|]. eapply sat_pure; [by apply sat_ListArg|]. intros l Hl.
    eapply sat_pure; [by apply sat_FnArg|]. intros fn Hfn. by apply sat_mapLoop.
  - apply sat_check; [by apply sat_Count|]. eapply sat_pure; [by apply sat_ListArg|]. intros l Hl.
    eapply sat_pure; [by apply sat_FnArg|]. intros fn Hfn. by apply sat_filterLoop.
  - apply sat_check; [by apply sat_Count|]. eapply sat_pure; [by apply sat_ListArg|]. intros l Hl.
    eapply sat_pure; [by apply sat_FnArg|]. intros fn Hfn. by apply sat_searchLoop.
  - apply sat_check; [by apply sat_Count|]. eapply sat_pure; [by apply sat_ListArg|]. intros l Hl.
    eapply sat_pure; [by apply sat_FnArg|]. intros fn Hfn. by apply sat_searchLoop.
  - apply sat_check; [by apply sat_CountRange|]. eapply sat_pure; [by apply sat_ListArg|]. intros l Hl.
    destruct l as [|x l]; [by apply sat_value; auto with rts|].
    eapply sat_pure; [by apply sat_intNum|]. intros st _.
    eapply (sat_pure _ _ _ _ _ _ _ (fun _ => True)).
    { apply sat_if; [by apply sat_intNum|by apply sat_ret]. }
    intros en _. destruct (sliceIdx _ st en) as [st' en'].
    apply sat_if; [apply sat_value; auto with rts|].
    apply sat_checked; [by apply sat_CheckList|done|]. constructor. by apply take_drop_ok.
  - apply sat_check; [by apply sat_Count|]. eapply sat_pure; [by apply sat_ListArg|]. intros l Hl.
    by apply sat_uniqueLoop.
Qed.

(** ** [dict] *)

Lemma at_key_ok n m x :
  (forall y v, m !! y = Some v -> val_ok n v) -> val_ok n (at_key m x).
Proof. apply default_ok. Qed.

Lemma sat_overKeys k sig f :
  (forall n m x, (forall y v, m !! y = Some v -> val_ok n v) -> val_ok n (f m x)) ->
  native_sat k (overKeys sig f).
Proof.
  intros Hf. start. apply sat_check; [by apply sat_Count|].
  eapply sat_pure; [by apply sat_DictArg|]. intros m Hm.
  eapply (sat_pure _ _ _ _ _ _ _ (fun _ => True)).
  { apply sat_if; [by apply sat_ret|]. apply sat_check; [by apply sat_CheckList|by apply sat_ret]. }
  intros keys _. apply sat_value; [done|]. constructor. apply Forall_map, Forall_true. auto.
Qed.

Lemma sat_keyList k own n cs a i s :
  good s -> n <= hl s -> sat k own n cs (keyList a i) s (fun _ s' => hl s <= hl s').
Proof.
  intros Hg Hn. unfold keyList. destruct (Arg a i) eqn:E; try (by apply sat_raise); [by apply sat_ret| |].
  - eapply sat_pure; [by apply sat_KeyOf|]. intros x _. by apply sat_ret.
  - apply sat_check; [by apply sat_CheckList|].
    eapply sat_mono; [apply (sat_mapM _ _ _ _ _ (fun _ _ => True)); [done|done|]|].
    + intros x s1 _ Hg1 Hf1. apply frame_hl in Hf1.
      eapply sat_bind; [by apply sat_tick_only; [|lia]|]. intros _ s2 Hg2 _ _.
      eapply sat_mono; [by apply sat_KeyOf|done].
    + intros ? s1 _ Hf1 _. by eapply frame_hl.
Qed.

Definition map_ok (n : nat) (m : gmap string Value) : Prop :=
  forall y v, m !! y = Some v -> val_ok n v.

Lemma map_ok_empty n : map_ok n ∅.
Proof. intros y v Hy. by rewrite lookup_empty in Hy. Qed.

Lemma map_ok_mono n n' m : n <= n' -> map_ok n m -> map_ok n' m.
Proof. intros ? Hm y v Hy. eapply val_ok_mono; eauto. Qed.

Lemma map_ok_insert n m x v : map_ok n m -> val_ok n v -> map_ok n (<[x := v]> m).
Proof. intros Hm Hv y w [[_ <-]|[_ Hy]]%lookup_insert_Some; eauto. Qed.

Lemma map_ok_delete n m x : map_ok n m -> map_ok n (delete x m).
Proof. intros Hm y w [_ Hy]%lookup_delete_Some; eauto. Qed.

Lemma sat_pickLoop k own n cs p m out keys s :
  good s -> n <= hl s -> map_ok (hl s) m -> map_ok (hl s) out ->
  sat k own n cs (pickLoop p m out keys) s (fun r s' => map_ok (hl s') r).
Proof.
  revert out s. induction keys as [|x rest IH]; intros out s Hg Hn Hm Hout; simpl.
  - by apply sat_ret.
  - eapply sat_bind; [by apply sat_tick_only|]. intros [] s1 Hg1 _ Hl1. simpl in Hl1.
    rewrite <- Hl1 in *. apply IH; try done. destruct (m !! x) eqn:E; [|done].
    apply map_ok_insert; eauto.
Qed.

Lemma sat_omitLoop k own n cs p out keys s :
  good s -> n <= hl s -> map_ok (hl s) out ->
  sat k own n cs (omitLoop p out keys) s (fun r s' => map_ok (hl s') r).
Proof.
  revert out s. induction keys as [|x rest IH]; intros out s Hg Hn Hout; simpl.
  - by apply sat_ret.
  - eapply sat_bind; [by apply sat_tick_only|]. intros [] s1 Hg1 _ Hl1. simpl in Hl1.
    rewrite <- Hl1 in *. apply IH; try done. by apply map_ok_delete.
Qed.

Lemma dict_natives k : Forall (fun f => native_sat k f.2) dictSpec.
Proof.
  unfold dictSpec. rewrite !Forall_cons, Forall_nil. split_and!; [..|done];
    try (apply sat_overKeys; intros; auto using at_key_ok with rts); [|start..].
  - constructor. apply map_ok_insert; [|constructor]. intros y v.
    intros [<- <-]%lookup_singleton_Some. auto using at_key_ok.
  - apply sat_check; [by apply sat_Count|]. eapply sat_pure; [by apply sat_DictArg|]. intros m Hm.
    eapply sat_pure; [by apply sat_KeyOf|]. intros x _.
    apply sat_checked; [by apply sat_CheckDict|done|]. constructor. apply map_ok_insert; auto using Arg_ok.
  - apply sat_check; [by apply sat_Count|]. eapply sat_pure; [by apply sat_DictArg|]. intros m Hm.
    eapply sat_pure; [by apply sat_DictArg|]. intros m' Hm'.
    apply sat_checked; [by apply sat_CheckDict|done|]. constructor.
    intros y v [Hy|[_ Hy]]%lookup_union_Some_raw; eauto.
  - apply sat_check; [by apply sat_Count|]. eapply sat_pure; [by apply sat_DictArg|]. intros m Hm.
    eapply sat_pure; [by apply sat_KeyOf|]. intros x _.
    apply sat_checked; [by apply sat_CheckDict|done|]. constructor. by apply map_ok_delete.
  - apply sat_check; [by apply sat_CountRange|]. eapply sat_pure; [by apply sat_DictArg|]. intros m Hm.
    assert (Hdef : forall a, args_ok (hl s) a -> val_ok (hl s) (if Has a 2 then Arg a 2 else VNull)).
    { intros a Haa. destruct (Has a 2); [by apply Arg_ok|constructor]. }
    destruct m as [m|]; [|by apply sat_value; auto]. eapply sat_pure; [by apply sat_KeyOf|]. intros x _.
    apply sat_value; [done|]. destruct (m !! x) eqn:E; [|by apply Hdef]. by eapply Hm.
  - apply sat_check; [by apply sat_Count|]. eapply sat_pure; [by apply sat_DictArg|]. intros m Hm.
    destruct m as [m|]; [|by apply sat_value; auto with rts]. eapply sat_pure; [by apply sat_KeyOf|].
    intros x _. apply sat_value; auto with rts.
  - apply sat_check; [by apply sat_Count|]. eapply sat_pure; [by apply sat_DictArg|]. intros m Hm.
    eapply sat_bind; [by apply sat_keyList|]. intros keys s1 Hg1 _ Hl1. simpl in Hl1.
    apply sat_if; [apply sat_value; [done|constructor; apply map_ok_empty]|].
    eapply sat_bind; [apply sat_pickLoop; [done|lia|by eapply map_ok_mono|apply map_ok_empty]|].
    intros out s2 Hg2 _ Hout. apply sat_checked; [by apply sat_CheckDict|done|by constructor].
  - apply sat_check; [by apply sat_Count|]. eapply sat_pure; [by apply sat_DictArg|]. intros m Hm.
    eapply sat_bind; [by apply sat_keyList|]. intros keys s1 Hg1 _ Hl1. simpl in Hl1.
    assert (Hm1 : map_ok (hl s1) (CloneDict m)) by by eapply map_ok_mono.
    apply sat_if; [apply sat_value; [done|by constructor]|].
    eapply sat_bind; [apply sat_omitLoop; [done|lia|done]|].
    intros out s2 Hg2 _ Hout. apply sat_checked; [by apply sat_CheckDict|done|by constructor].
Qed.

(** ** Core functions and [math] *)

Lemma core_natives k : Forall (fun f => native_sat k f.2) coreSpec.
Proof.
  unfold coreSpec. rewrite !Forall_cons, Forall_nil. split_and!; [start..|done].
  - unfold coreFail. destruct args as [|v []]; [by apply sat_raise| |by apply sat_raise].
    eapply sat_pure; [by apply sat_ToStr|]. intros x _. by apply sat_raise.
  - apply sat_check; [by apply sat_Count|]. case_match; try (by apply sat_raise); apply sat_value; auto with rts.
  - apply sat_check; [by apply sat_Count|]. eapply sat_pure; [by apply sat_ToStr|]. intros x _.
    case_match; try (by apply sat_raise); apply sat_value; auto with rts.
  - apply sat_check; [by apply sat_Count|]. eapply sat_pure; [by apply sat_ToStr|]. intros x _.
    apply sat_value; auto with rts.
  - apply sat_check; [by apply sat_Count|]. apply sat_value; auto with rts.
Qed.

Lemma math_natives k : Forall (fun f => native_sat k f.2) mathSpec.
Proof.
  assert (H1 : forall sig f, native_sat k (math1 sig f)).
  { intros sig f. start. apply sat_check; [by apply sat_Count|]. eapply sat_pure; [by apply sat_NumArg|].
    intros x _. apply sat_value; auto with rts. }
  assert (H2 : forall sig f, native_sat k (math2 sig f)).
  { intros sig f. start. apply sat_check; [by apply sat_Count|]. eapply sat_pure; [by apply sat_NumArg|].
    intros x _. eapply sat_pure; [by apply sat_NumArg|]. intros y _. apply sat_value; auto with rts. }
  unfold mathSpec. rewrite !Forall_cons, Forall_nil. split_and!; try done; try apply H1; try apply H2.
  start. apply sat_check; [by apply sat_Count|]. eapply sat_pure; [by apply sat_NumArg|]. intros x _.
  eapply sat_pure; [by apply sat_NumArg|]. intros lo _. eapply sat_pure; [by apply sat_NumArg|]. intros hi _.
  apply sat_if; [by apply sat_raise|apply sat_value; auto with rts].
Qed.

(** ** The table *)

Lemma sat_hostNative k id : native_sat k (fun _ => hostNative id).
Proof.
  start. apply sat_getCtx. pose proof (host_call_ok (hl s) id (ctx s) p args Hargs) as Hh.
  apply sat_lift; [done| |]; intros a E; by rewrite E in Hh.
Qed.

Lemma Forall_qualify k pre (l : list (string * NativeFunc)) :
  Forall (fun f => native_sat k f.2) l ->
  Forall (fun f => native_sat k f.2) (map (fun p => (qualify pre p.1, p.2)) l).
Proof. intros Hl. by apply Forall_map. Qed.

Lemma sat_stdFn k name : native_sat k (stdFn name).
Proof.
  unfold stdFn. destruct (table !! name) as [f|] eqn:E; [|apply sat_hostNative].
  apply elem_of_list_to_map_2 in E.
  assert (Hall : Forall (fun f => native_sat k f.2) (coreSpec
      ++ map (fun p => (qualify "list" p.1, p.2)) listSpec
      ++ map (fun p => (qualify "dict" p.1, p.2)) dictSpec
      ++ map (fun p => (qualify "math" p.1, p.2)) mathSpec)).
  { rewrite !Forall_app. split_and!; [apply core_natives|apply Forall_qualify..];
      [apply list_natives|apply dict_natives|apply math_natives]. }
  rewrite Forall_forall in Hall. by apply (Hall (name, f)).
Qed.

#[export] Instance std_natives_ok : NativesOk.
Proof.
  intros k call [name|id] p args s Hcall Hg Hargs; [|by apply (sat_hostNative k id call)].
  apply sat_framed; [done|done| |exact Hg|done|].
  2: { set (s0 := mkSt _ _ _). change (hl s) with (hl s0).
       assert (Hg0 : good s0) by exact Hg. assert (Hargs0 : Forall (val_ok (hl s0)) args) by exact Hargs.
       clearbody s0. exact (sat_stdFn k name call p args s0 Hcall Hg0 Hargs0). }
  intros c c' (_ & _ & _ & Hd & Hst & _). unfold push, pop in *. simpl in *.
  rewrite Hd, Hst, length_app. simpl. split; [done|].
  replace (length (stack c) + 1 - 1) with (length (stack c)) by lia. apply take_app_length.
Qed.
End natives.
