(* ===== verification/Module.v ===== *)
(** * The module cache (internal/rts/module.go).

    The world outside is a parameter: the answer of every file-system call may
    depend on when it is made, which [now] counts. *)
From stdpp Require Import base list strings gmap.
From Stdlib Require Import Ascii ZArith Lia.
From S2P Require Import Prelude GoStd GoFloat GoPath Token Ast Parser Group Value Vm.

Set Warnings "-register-all".
Open Scope string_scope.
Open Scope nat_scope.
Open Scope list_scope.

(** ** The world *)

(** [modFP].  Modification times are compared as the instants they are. *)
Record modFP := mkFP { fp_mod : Z; fp_size : Z }.

#[export] Instance modFP_eq_dec : EqDecision modFP.
Proof. solve_decision. Defined.

(** [FS], the working directory, and the clock and cancellation that the
    context made at a time sees. *)
Class World := {
  fs_stat : nat -> string -> res string modFP;
  fs_read : nat -> string -> res string (list ascii);
  getwd : nat -> res string string;
  clock : nat -> Z -> Z;
  done : nat -> Z -> option string
}.

(** ** The state of an engine

    [ent] is the cache.  The environments of cached modules live on in the heap
    of [st], with the values that their functions have assigned. *)
Record modEnt := mkEnt { me_comp : Comp; me_fp : modFP }.

Record Sys := mkSys { st : St; ent : gmap string modEnt; now : nat }.

Definition E (A : Type) : Type := Sys -> option (res Err A * Sys).

Definition eok {A} (a : A) : E A := fun y => Some (Ok a, y).
Definition ethrow {A} (e : Err) : E A := fun y => Some (Er e, y).

Definition ebind {A B} (m : E A) (k : A -> E B) : E B := fun y =>
  match m y with
  | Some (Ok a, y') => k a y'
  | Some (Er e, y') => Some (Er e, y')
  | None => None
  end.

Declare Scope sys_scope.
Delimit Scope sys_scope with sys.
Notation "'let+' x := m 'in' k" := (ebind m (fun x => k))
  (at level 10, x pattern, m at level 100, k at level 200) : sys_scope.
Open Scope sys_scope.

(** A computation of the evaluator. *)
Definition onVm {A} (m : M A) : E A := fun y =>
  match m (st y) with
  | Some (r, s) => Some (r, mkSys s (ent y) (now y))
  | None => None
  end.

Definition eraise {A} (pos : Pos) (msg : string) : E A := onVm (raise pos msg).

(** A call of the operating system. *)
Definition sys {A} (f : nat -> res string A) : E A := fun y =>
  Some (match f (now y) with Ok a => Ok a | Er e => Er (EOther e) end,
        mkSys (st y) (ent y) (S (now y))).

(** The outcome of a parser; [None] cannot happen (ParserTotal.v, HeadFacts.v). *)
Definition parsed {A} (r : option (res ParseError A)) : M A :=
  match r with
  | None => out_of_fuel
  | Some (Ok a) => ok a
  | Some (Er e) => throw (EParse e)
  end.

(** ** The cache *)

Section load.
Context `{World} `{Host} `{Natives}.

Definition absPath (base path : string) : E string :=
  let p := if negb (IsAbs path) && negb (bool_decide (base = EmptyString)) then Join base path else path in
  sys (fun t => Abs (getwd t) (Clean p)).

Definition stat (path : string) : E modFP := sys (fun t => fs_stat t path).

Definition ReadFile (path : string) : E (list ascii) := sys (fun t => fs_read t path).

Definition get (path : string) (fp : modFP) : E (option Comp) := fun y =>
  Some (Ok (match ent y !! path with
            | Some e => if decide (me_fp e = fp) then Some (me_comp e) else None
            | None => None
            end), y).

Definition set (path : string) (fp : modFP) (comp : Comp) : E unit := fun y =>
  Some (Ok tt, mkSys (st y) (<[path := mkEnt comp fp]> (ent y)) (now y)).

(** What runs in a context cloned from the current one: the steps, the calls
    and the exports of the caller are as before when it ends. *)
Definition inClone {A} (m : M A) : E A := fun y =>
  let s := st y in
  let c := CloneNoIO (ctx s) (clock (now y)) (done (now y)) in
  match m (mkSt c (hp s) ∅) with
  | Some (r, s') => Some (r, mkSys (mkSt (ctx s) (hp s') (exps s)) (ent y) (S (now y)))
  | None => None
  end.

(** The part of [Load] for a file that is not cached. *)
Definition compile (n : nat) (std : gmap string Value) (p : string) (fp : modFP) : E (Comp * string) :=
  let+ data := ReadFile p in
  let+ mod_ := onVm (parsed (ParseModule p data)) in
  let+ comp := inClone (Exec n mod_ std) in
  let+ _ := set p fp comp in
  eok (comp, p).

(** [ModCache.Load]; [std] is the prelude modules are compiled with. *)
Definition Load (n : nat) (std : gmap string Value) (base path : string) : E (Comp * string) :=
  if bool_decide (path = EmptyString) then ethrow (EOther "empty module path")
  else
    let+ p := absPath base path in
    let+ fp := stat p in
    let+ hit := get p fp in
    match hit with
    | Some comp => eok (comp, p)
    | None => compile n std p fp
    end.

(** [mp.Path = p] where the position has no path. *)
Definition at_path (p : string) (mp : Pos) : Pos :=
  if bool_decide (Path mp = EmptyString) then mkPos p (Line mp) (Col mp) else mp.

(** [Eng.modHead]: the name a module gives itself. *)
Definition modHeadAt (base path : string) : E (string * Pos) :=
  let+ p := absPath base path in
  let+ fp := stat p in
  let+ hit := get p fp in
  match hit with
  | Some cp => eok (mod_name (comp_Mod cp), at_path p (mod_namePos (comp_Mod cp)))
  | None =>
      let+ data := ReadFile p in
      let+ r := onVm (parsed (modHead p data)) in
      eok (r.1, at_path p r.2)
  end.
End load.
