(* ===== verification/ModuleFacts.v ===== *)
(** * What the module cache keeps

    [esat] lifts the evaluator's triple to the state of the engine: loading a
    module leaves the cache and the heap well formed, and the context of the
    caller as it was. *)
From stdpp Require Import base list strings gmap.
From Stdlib Require Import Ascii ZArith Lia.
From S2P Require Import Prelude GoStd GoFloat GoPath Token Ast Lexer Group Parser Scope ParserTotal HeadFacts Value Vm VmFacts VmSound Args Stdlib StdSound Module.

Set Warnings "-register-all".
Open Scope string_scope.
Open Scope nat_scope.
Open Scope list_scope.
Open Scope vm_scope.
Open Scope sys_scope.

(** ** Running a module *)

Definition comp_ok (n : nat) (c : Comp) : Prop := comp_Env c < n /\ map_ok n (comp_Exp c).

Lemma comp_ok_mono n n' c : n <= n' -> comp_ok n c -> comp_ok n' c.
Proof. intros Hle []. split; [lia|by eapply map_ok_mono]. Qed.

Section exec.
Context `{HH : Host} `{!HostOk}.
Implicit Types (s : St).

Lemma sat_startEnv k own n cs pre s :
  good s -> map_ok (hl s) pre ->
  sat k own n cs (startEnv pre) s (fun l s' => l = hl s /\ hl s' = S (hl s)).
Proof.
  intros [Hs Hb] Hpre. unfold sat. simpl. split_and!; try done.
  - apply st_ok_snoc; [done|]. split; simpl; [done|]. intros x b. rewrite lookup_fmap.
    intros (v & Hv & ->)%fmap_Some. simpl. eapply val_ok_mono; [|by eapply Hpre]. lia.
  - apply frame_mem, kept_snoc.
  - unfold hl. simpl. rewrite length_app. simpl. lia.
Qed.

Lemma sat_newExp k own n cs s :
  good s -> sat k own n cs newExp s (fun _ s' => hl s' = hl s).
Proof.
  intros [[Hs Hx] Hb]. unfold sat. simpl. split_and!; try done.
  - apply frame_mem, kept_refl.
Qed.

Lemma topOutcome_abort p e (s : St) :
  isAbort e = true -> exists e', topOutcome p (Er e) s = Some (Er e', s) /\ isAbort e' = true.
Proof. destruct e; try done; by eexists. Qed.

Lemma sat_Exec n m pre s :
  wf_mod m = true -> good s -> map_ok (hl s) pre ->
  sat (Z.of_nat n) None (hl s) None (Exec n m pre) s (fun c s' => comp_ok (hl s') c /\ comp_Mod c = m).
Proof.
  intros Hwf Hg Hpre. eapply sat_bind; [by apply sat_startEnv|].
  intros env s1 Hg1 Hf1 (-> & Hl1). eapply sat_bind; [by apply sat_newExp|].
  intros [] s2 Hg2 Hf2 Hl2. simpl in Hl2.
  apply (sat_bind _ _ _ _ _ _ _ (fun _ s' => hl s2 <= hl s')).
  - eapply sat_mono; [apply sat_forM; [done|]|intros ? ? _ Hf _; by eapply frame_hl].
    intros st s3 Hst Hg3 Hf3. apply frame_hl in Hf3.
    eapply (sat_catch _ _ _ _ (Some [])).
    + apply sat_stmt; [apply vm_at_ok|by eapply forallb_in|done|lia|lia|lia].
    + intros [] s4 Hg4 _ _. by apply sat_ret.
    + intros e s4 Hg4 _ _ He. destruct e; try (by apply sat_raise); by apply sat_throw.
    + apply topOutcome_abort.
  - intros [] s3 Hg3 _ Hl3. change (sat (Z.of_nat n) None (hl s) None (ok (mkComp m (hl s) (exps s3))) s3
      (fun c s' => comp_ok (hl s') c /\ comp_Mod c = m)).
    apply sat_ret; [done|]. simpl in *. split; [|done]. split; simpl; [lia|].
    exact (proj2 (proj1 Hg3)).
Qed.

Lemma sat_parsed {A} k own n cs (r : option (res ParseError A)) s (Q : A -> St -> Prop) :
  (exists x, r = Some x /\ match x with Ok a => Q a s | Er _ => True end) -> good s ->
  sat k own n cs (parsed r) s Q.
Proof. intros ([a|e] & -> & Hq) Hg; [by apply sat_ret|by apply sat_throw]. Qed.
End exec.

(** ** The triple of the engine *)

Definition cache_ok (y : Sys) : Prop :=
  forall p e, ent y !! p = Some e -> comp_ok (hl (st y)) (me_comp e).

(** What holds of an engine between evaluations. *)
Definition sys_ok (y : Sys) : Prop := heap_ok (hp (st y)) /\ cache_ok y.

(** What holds while one is under way. *)
Definition run_ok (y : Sys) : Prop := cache_ok y /\ good (st y) /\ (0 <= used (st y))%Z.

Definition eframe (y y' : Sys) : Prop := frame None (hl (st y)) (st y) (st y').

(** [n] levels of recursion are more than the steps any context allows. *)
Definition fuel_for (n : nat) (y : Sys) : Prop := (0 < limit (st y) < Z.of_nat n)%Z.

Definition esat (n : nat) {A} (m : E A) (y : Sys) (Q : A -> Sys -> Prop) : Prop :=
  match m y with
  | None => ~ fuel_for n y
  | Some (Ok a, y') => run_ok y' /\ eframe y y' /\ Q a y'
  | Some (Er e, y') =>
      sys_ok y' /\ eframe y y' /\ (isAbort e = false -> budget (st y')) /\ overrun (st y')
  end.

Lemma run_sys_ok y : run_ok y -> sys_ok y.
Proof. intros (Hc & [[Hh _] _] & _). by split. Qed.

Lemma eframe_refl y : eframe y y.
Proof. apply frame_refl. Qed.

Lemma eframe_hl y y' : eframe y y' -> hl (st y) <= hl (st y').
Proof. apply frame_hl. Qed.

Lemma eframe_trans y1 y2 y3 : eframe y1 y2 -> eframe y2 y3 -> eframe y1 y3.
Proof.
  intros H1 H2. eapply frame_trans; [exact H1|]. eapply frame_weaken; [by eapply eframe_hl| |exact H2]. done.
Qed.

Lemma eframe_fuel n y y' : eframe y y' -> fuel_for n y -> fuel_for n y'.
Proof. intros [_ (HL & _)]. unfold fuel_for, limit. by rewrite HL. Qed.

Lemma cache_ok_grow y s t : cache_ok y -> hl (st y) <= hl s -> cache_ok (mkSys s (ent y) t).
Proof. intros Hc Hle p e Hp. by eapply comp_ok_mono, Hc. Qed.

Section rules.
Context {A B : Type}.
Implicit Types (y : Sys).

Lemma esat_ret n (a : A) y (Q : A -> Sys -> Prop) : run_ok y -> Q a y -> esat n (eok a) y Q.
Proof. intros Hy HQ. unfold esat. simpl. split_and!; [apply Hy..|apply eframe_refl|done]. Qed.

Lemma esat_throw n e y (Q : A -> Sys -> Prop) : run_ok y -> esat n (ethrow e) y Q.
Proof.
  intros Hy. pose proof (run_sys_ok _ Hy). destruct Hy as (_ & [_ Hb] & _). unfold esat. simpl.
  split_and!; [apply H..|apply eframe_refl|done|by apply budget_overrun].
Qed.

Lemma esat_bind n (m : E A) (f : A -> E B) y (Q1 : A -> Sys -> Prop) (Q : B -> Sys -> Prop) :
  esat n m y Q1 ->
  (forall a y', run_ok y' -> eframe y y' -> Q1 a y' -> esat n (f a) y' Q) ->
  esat n (ebind m f) y Q.
Proof.
  unfold esat, ebind. intros Hm Hf. destruct (m y) as [[[a|e] y']|]; [|done|done].
  destruct Hm as (H1 & H2 & H3). specialize (Hf a y' H1 H2 H3). destruct (f a y') as [[[b|e] y'']|].
  - destruct Hf as (?&?&?). split_and!; try done; [apply H..|by eapply eframe_trans].
  - destruct Hf as (?&?&?&?). split_and!; try done; [apply H..|by eapply eframe_trans].
  - intros Hn. by eapply Hf, eframe_fuel.
Qed.

(** A computation of the evaluator, in its own triple. *)
Lemma esat_onVm n (m : M A) y (Q : A -> St -> Prop) :
  run_ok y -> sat (Z.of_nat n) None (hl (st y)) None m (st y) Q ->
  esat n (onVm m) y (fun a y' => Q a (st y')).
Proof.
  intros (Hc & Hg & Hu) Hm. unfold esat, onVm, sat in *. destruct (m (st y)) as [[[a|e] s]|].
  - destruct Hm as (H1 & H2 & H3 & H4). split; [|by split]. pose proof H2 as [_ (_ & _ & _ & _ & _ & Hs)].
    split; [by eapply cache_ok_grow, frame_hl|]. split; [by split|]. unfold used in *. simpl. lia.
  - destruct Hm as (H1 & H2 & H3 & H4 & _). split; [|by split_and!].
    split; [apply H1|by eapply cache_ok_grow, frame_hl].
  - intros [H1 H2]. apply Hm. split; lia.
Qed.

Lemma esat_sys n (f : nat -> res string A) y :
  run_ok y -> esat n (sys f) y (fun a y' => f (now y) = Ok a /\ y' = mkSys (st y) (ent y) (S (now y))).
Proof.
  intros (Hc & Hg & Hu). unfold esat, sys.
  assert (Hc' : cache_ok (mkSys (st y) (ent y) (S (now y)))) by exact Hc.
  destruct (f (now y)); (split; [|split; [apply frame_refl|]]).
  - by split.
  - done.
  - split; [apply Hg|done].
  - split; [intros _; apply Hg|apply budget_overrun, Hg].
Qed.

(** The context of the caller is restored after a run in a clone of it. *)
Lemma esat_inClone `{World} n (m : M A) y (Q : A -> St -> Prop) :
  run_ok y ->
  (forall s, good s -> hl s = hl (st y) -> sat (Z.of_nat n) None (hl s) None m s Q) ->
  esat n (inClone m) y (fun a y' => ent y' = ent y /\ exists s, hp s = hp (st y') /\ st_ok s /\ Q a s).
Proof.
  intros (Hc & [Hs Hb] & Hu) Hm. unfold esat, inClone.
  set (s0 := mkSt _ _ _). assert (Hg0 : good s0).
  { split; [split; [apply Hs|]|].
    - intros x v Hx. by destruct (lookup_empty_Some x v Hx).
    - unfold budget, limit, used. simpl. lia. }
  specialize (Hm s0 Hg0 eq_refl). unfold sat in Hm. destruct (m s0) as [[r s']|].
  - assert (Hk : st_ok s' /\ frame None (hl s0) s0 s') by (destruct r; by destruct Hm as (?&?&?)).
    destruct Hk as [Hs' Hf]. pose proof (frame_hl _ _ _ _ Hf) as Hle.
    set (s1 := mkSt _ (hp s') _). assert (Hs1 : st_ok s1).
    { split; [apply Hs'|]. intros x v Hx. eapply val_ok_mono; [exact Hle|]. by apply (proj2 Hs x). }
    assert (He : frame None (hl (st y)) (st y) s1).
    { split; [apply Hf|apply same_ctx_refl]. }
    assert (Hc1 : cache_ok (mkSys s1 (ent y) (S (now y)))) by (by apply cache_ok_grow).
    destruct r as [a|e].
    + destruct Hm as (_ & _ & _ & HQ). split; [|split; [done|]].
      * split; [done|]. split; [split; [done|exact Hb]|exact Hu].
      * split; [done|]. by exists s'.
    + split; [split; [apply Hs1|done]|]. split; [done|]. split; [intros _; exact Hb|by apply budget_overrun].
  - intros [H1 H2]. apply Hm. unfold fuel_ok, limit, used in *. simpl. lia.
Qed.
End rules.

(** ** Loading *)

Section load.
Context `{World} `{HH : Host} `{!HostOk}.

Lemma esat_absPath n base path y :
  run_ok y -> esat n (absPath base path) y (fun _ y' => st y' = st y).
Proof.
  intros Hy. unfold esat. pose proof (esat_sys n (fun t => Abs (getwd t) (Clean
    (if negb (IsAbs path) && negb (bool_decide (base = EmptyString)) then Join base path else path))) y Hy) as Hs.
  unfold esat, absPath in *. destruct (sys _ y) as [[[a|e] y']|]; [|done..].
  destruct Hs as (?&?&_&->). done.
Qed.

Lemma esat_get n path fp y :
  run_ok y -> esat n (get path fp) y (fun r y' => y' = y /\
    forall c, r = Some c -> comp_ok (hl (st y)) c).
Proof.
  intros Hy. unfold esat, get. split; [done|]. split; [apply eframe_refl|]. split; [done|]. intros c.
  destruct (ent y !! path) as [en|] eqn:Hen; [|done]. case_decide; [|done]. intros [= <-].
  by eapply Hy.
Qed.

Lemma esat_set n path fp c y :
  run_ok y -> comp_ok (hl (st y)) c -> esat n (set path fp c) y (fun _ _ => True).
Proof.
  intros (Hc & Hg) Hok. unfold esat, set. split; [split; [|done]|split; [apply frame_refl|done]].
  intros p en. simpl. intros [[_ <-]|[_ Hp]]%lookup_insert_Some; [done|by eapply Hc].
Qed.

Lemma esat_Load n std base path y :
  run_ok y -> map_ok (hl (st y)) std ->
  esat n (Load n std base path) y (fun r y' => comp_ok (hl (st y')) r.1).
Proof.
  intros Hy Hstd. unfold Load, compile. case_bool_decide; [by apply esat_throw|].
  eapply esat_bind; [by apply esat_absPath|]. intros p y1 Hy1 Hf1 _.
  eapply esat_bind; [by apply esat_sys|]. intros fp y2 Hy2 Hf2 _.
  eapply esat_bind; [by apply esat_get|]. intros hit y3 Hy3 Hf3 [-> Hh].
  destruct hit as [c|]; [apply esat_ret; [done|]; by apply Hh|].
  eapply esat_bind; [by apply esat_sys|]. intros data y4 Hy4 Hf4 _.
  eapply esat_bind.
  { apply (esat_onVm n _ y4 (fun m _ => wf_mod m = true)); [done|]. apply sat_parsed; [|apply Hy4].
    destruct (parseModuleAt_run p data (mkPos EmptyString 1 1)) as (r & Hr & Hwf). exists r. by destruct r. }
  intros m y5 Hy5 Hf5 Hwf. eapply esat_bind.
  { eapply esat_inClone; [done|]. intros s Hg Hl. apply sat_Exec; [done..|]. rewrite Hl.
    eapply map_ok_mono; [|exact Hstd]. apply eframe_hl in Hf1, Hf2, Hf4, Hf5. lia. }
  intros c y6 Hy6 Hf6 (_ & s & Hhp & _ & Hc & _).
  assert (Hc' : comp_ok (hl (st y6)) c) by (unfold hl in *; by rewrite <- Hhp).
  eapply esat_bind; [by apply esat_set|]. intros _ y7 Hy7 Hf7 _. apply esat_ret; [done|].
  simpl. eapply comp_ok_mono; [by eapply eframe_hl|done].
Qed.

Lemma esat_modHeadAt n base path y : run_ok y -> esat n (modHeadAt base path) y (fun _ _ => True).
Proof.
  intros Hy. unfold modHeadAt.
  eapply esat_bind; [by apply esat_absPath|]. intros p y1 Hy1 Hf1 _.
  eapply esat_bind; [by apply esat_sys|]. intros fp y2 Hy2 Hf2 _.
  eapply esat_bind; [by apply esat_get|]. intros hit y3 Hy3 Hf3 [-> Hh].
  destruct hit as [c|]; [by apply esat_ret|].
  eapply esat_bind; [by apply esat_sys|]. intros data y4 Hy4 Hf4 _.
  eapply esat_bind.
  { apply (esat_onVm n _ y4 (fun _ _ => True)); [done|]. apply sat_parsed; [|apply Hy4].
    destruct (modHead_total p data) as [r ->]. exists r. by destruct r. }
  intros r y5 Hy5 Hf5 _. by apply esat_ret.
Qed.
End load.
