(* ===== verification/Engine.v ===== *)
(** * Evaluations: preludes in layers, [@use], expressions and modules
    (internal/rts/shadow.go, resolve.go, engine.go). *)
From stdpp Require Import base list strings gmap sorting.
From Stdlib Require Import Ascii ZArith Lia.
From S2P Require Import Prelude GoStd GoFloat GoPath Token Ast Lexer Parser Value Vm Module.

Set Warnings "-register-all".
Open Scope string_scope.
Open Scope nat_scope.
Open Scope list_scope.
Open Scope vm_scope.
Open Scope sys_scope.

(** ** Prelude layers *)

(** [pre.addExtensions]: the names in order; [p] is the prelude so far. *)
Fixpoint addNames (c : Ctx) (pos : Pos) (ext : gmap string Value) (names : list string)
    (p : gmap string Value) : res Err (gmap string Value) :=
  match names with
  | [] => Ok p
  | name :: rest =>
      if bool_decide (name = EmptyString) then addNames c pos ext rest p
      else if IsKeyword name then Er (Errf c pos ("name is a reserved word: " +:+ name))
      else match p !! name with
           | Some _ => Er (Errf c pos ("name already defined: " +:+ name))
           | None => addNames c pos ext rest (<[name := default VNull (ext !! name)]> p)
           end
  end.

Definition addExtensions (c : Ctx) (pos : Pos) (ext p : gmap string Value) : res Err (gmap string Value) :=
  addNames c pos ext (sorted_keys ext) p.

(** [pre.overlayLocals]. *)
Fixpoint overlayNames (c : Ctx) (pos : Pos) (loc : gmap string Value) (names : list string)
    (p : gmap string Value) : res Err (gmap string Value) :=
  match names with
  | [] => Ok p
  | name :: rest =>
      if bool_decide (name = EmptyString) then overlayNames c pos loc rest p
      else if IsKeyword name then Er (Errf c pos ("name is a reserved word: " +:+ name))
      else overlayNames c pos loc rest (<[name := default VNull (loc !! name)]> p)
  end.

Definition overlayLocals (c : Ctx) (pos : Pos) (loc p : gmap string Value) : res Err (gmap string Value) :=
  overlayNames c pos loc (sorted_keys loc) p.

Record Use := mkUse { use_Path : string; use_Alias : string }.

Record EvalConfig := mkConfig {
  Bindings : list (gmap string Value);
  Locals : gmap string Value;
  Overrides : gmap string Value;
  Uses : list Use;
  BaseDir : string;
  Site : string
}.

(** The engine: its limits, the standard library, the module bindings. *)
Record Eng := mkEng {
  e_Lim : Limits;
  e_Stdlib : gmap string Value;
  e_mod : list (gmap string Value)
}.

(** [Eng.modulePre]. *)
Definition bindAll (out b : gmap string Value) : gmap string Value :=
  foldl (fun out k => if bool_decide (k = EmptyString) then out else <[k := default VNull (b !! k)]> out)
    out (sorted_keys b).

Definition modulePre (e : Eng) : gmap string Value := foldl bindAll (e_Stdlib e) (e_mod e).

Definition rbind {A B} (r : res Err A) (k : A -> res Err B) : res Err B :=
  match r with Ok a => k a | Er e => Er e end.

Fixpoint addAll (c : Ctx) (pos : Pos) (exts : list (gmap string Value)) (p : gmap string Value)
  : res Err (gmap string Value) :=
  match exts with
  | [] => Ok p
  | e :: rest => rbind (addExtensions c pos e p) (addAll c pos rest)
  end.

(** ** Modules that an evaluation uses *)

(** [normUse]; [None] for a use without a path. *)
Definition normUse (u : Use) : option Use :=
  let p := TrimSpace (use_Path u) in
  if bool_decide (p = EmptyString) then None else Some (mkUse p (TrimSpace (use_Alias u))).

Section uses.
Context `{World} `{Host} `{Natives}.

(** The name a use binds: its alias, or the name in the module's header. *)
Definition aliasOf (base : string) (u : Use) : E string :=
  if negb (bool_decide (use_Alias u = EmptyString)) then eok (use_Alias u)
  else
    let+ r := modHeadAt base (use_Path u) in
    if bool_decide (r.1 = EmptyString) then
      eraise (if (Line r.2 =? 0)%Z then mkPos (Path r.2) 1 1 else r.2)
        "missing module name (add 'module <name>' at top of file)"
    else eok r.1.

(** The loop of [resolveUses]; [seen] holds the names that are taken. *)
Fixpoint resolveLoop (base : string) (pos : Pos) (seen : gset string) (out uses : list Use)
  : E (list Use) :=
  match uses with
  | [] => eok out
  | u :: rest =>
      match normUse u with
      | None => resolveLoop base pos seen out rest
      | Some u =>
          let+ al := aliasOf base u in
          if IsKeyword al then eraise pos ("alias is a reserved word: " +:+ al)
          else if bool_decide (al ∈ seen) then eraise pos ("alias already defined: " +:+ al)
          else resolveLoop base pos ({[al]} ∪ seen) (out ++ [mkUse (use_Path u) al]) rest
      end
  end.

Definition resolveUses (cfg : EvalConfig) (p : gmap string Value) (pos : Pos) : E (list Use) :=
  resolveLoop (BaseDir cfg) pos (dom p) [] (Uses cfg).

(** The loop of [addUses]: every module is loaded and bound to its alias. *)
Fixpoint loadUses (n : nat) (std : gmap string Value) (base : string) (uses : list Use)
    (p : gmap string Value) : E (gmap string Value) :=
  match uses with
  | [] => eok p
  | u :: rest =>
      let+ r := Load n std base (use_Path u) in
      loadUses n std base rest
        (<[use_Alias u := VObj (Some (ModObj (use_Alias u) (comp_Exp r.1)))]> p)
  end.

Definition addUses (n : nat) (e : Eng) (cfg : EvalConfig) (p : gmap string Value) (pos : Pos)
  : E (gmap string Value) :=
  let+ uses := resolveUses cfg p pos in
  loadUses n (modulePre e) (BaseDir cfg) uses p.

(** [Eng.buildPre]. *)
Definition buildPre (n : nat) (e : Eng) (cfg : EvalConfig) (pos : Pos) : E (gmap string Value) :=
  let+ c := onVm getCtx in
  let+ p := onVm (lift (addAll c pos (Bindings cfg) (modulePre e))) in
  let+ p := addUses n e cfg p pos in
  let+ p := onVm (lift (overlayLocals c pos (Locals cfg) p)) in
  onVm (lift (overlayLocals c pos (Overrides cfg) p)).
End uses.

(** ** Running *)

Section run.
Context `{World} `{Host} `{Natives}.

(** The frame of the evaluation, if it is named. *)
Definition atSite {A} (site : string) (pos : Pos) (m : M A) : M A :=
  if bool_decide (site = EmptyString) then m
  else setCtx (push (mkFrame FrameExpr pos site)) >> deferred m pop.

(** [Eng.newCtx], at the start of an evaluation. *)
Definition newCtx (e : Eng) : E unit := fun y =>
  Some (Ok tt, mkSys (mkSt (NewCtx (e_Lim e) (clock (now y)) (done (now y))) (hp (st y)) ∅)
                 (ent y) (S (now y))).

(** What [Eval] and [ExecModule] do once the prelude is built. *)
Definition evalIn (n : nat) (pre : gmap string Value) (src site : string) (pos : Pos) : M Value :=
  let* env := startEnv pre in
  let* ex := parsed (ParseExpr (Path pos) (Line pos) (Col pos) src) in
  atSite site pos (vm_eval (vm_at n) env ex).

Definition execIn (n : nat) (pre : gmap string Value) (src : list ascii) (site : string) (pos : Pos)
  : M Comp :=
  let* m := parsed (ParseModuleAt (Path pos) src pos) in
  atSite site pos (Exec n m pre).

(** [Eng.Eval]. *)
Definition Eval (n : nat) (e : Eng) (cfg : EvalConfig) (src : string) (pos : Pos) : E Value :=
  let+ _ := newCtx e in
  let+ pre := buildPre n e cfg pos in
  onVm (evalIn n pre src (Site cfg) pos).

(** [Eng.EvalStr]. *)
Definition EvalStr (n : nat) (e : Eng) (cfg : EvalConfig) (src : string) (pos : Pos) : E string :=
  let+ v := Eval n e cfg src pos in
  let+ _ := newCtx e in
  onVm (ToStr pos v).

(** [Eng.ExecModule]. *)
Definition ExecModule (n : nat) (e : Eng) (cfg : EvalConfig) (src : list ascii) (pos : Pos) : E Comp :=
  let+ _ := newCtx e in
  let+ pre := buildPre n e cfg pos in
  onVm (execIn n pre src (Site cfg) pos).
End run.
