(* ===== verification/Layers.v ===== *)
(** * How the layers of a prelude combine *)
From stdpp Require Import base list strings gmap.
From Stdlib Require Import Ascii ZArith Lia.
From S2P Require Import Prelude GoStd GoFloat GoPath Token Ast Value Vm Module Engine.

Set Warnings "-register-all".
Open Scope string_scope.
Open Scope nat_scope.
Open Scope list_scope.
Open Scope sys_scope.

#[local] Arguments IsKeyword : simpl never.

(** A layer without the nameless entry, which every layer skips. *)
Definition named (m : gmap string Value) : gmap string Value := delete EmptyString m.

(** No name of the layer is a reserved word. *)
Definition unreserved (m : gmap string Value) : Prop := forall x, is_Some (m !! x) -> IsKeyword x = false.

(** Layers that are added one after the other without a collision. *)
Fixpoint apart (p : gmap string Value) (ls : list (gmap string Value)) : Prop :=
  match ls with
  | [] => True
  | m :: rest => m ##ₘ p /\ apart (m ∪ p) rest
  end.

(** All of them, the first ones lowest. *)
Definition stacked (p : gmap string Value) (ls : list (gmap string Value)) : gmap string Value :=
  foldl (fun p m => m ∪ p) p ls.

Lemma apart_snoc p ls m : apart p ls -> m ##ₘ stacked p ls -> apart p (ls ++ [m]).
Proof.
  revert p. induction ls as [|l ls IH]; intros p; simpl; [by split|]. intros [H1 H2] Hm. split; [done|]. by apply IH.
Qed.

Lemma stacked_snoc p ls m : stacked p (ls ++ [m]) = m ∪ stacked p ls.
Proof. unfold stacked. by rewrite foldl_app. Qed.

(** ** The layers of names *)

Lemma named_lookup m x : named m !! x = if decide (x = EmptyString) then None else m !! x.
Proof. unfold named. case_decide as E; [subst; apply lookup_delete_eq|by rewrite lookup_delete_ne]. Qed.

(** What a loop over [names] adds to [p] at [x]. *)
Definition over_names (ext : gmap string Value) (names : list string) (p r : gmap string Value) : Prop :=
  forall x, r !! x = if decide (x ∈ names /\ x <> EmptyString) then Some (default VNull (ext !! x)) else p !! x.

Lemma over_names_skip ext names p r : over_names ext names p r -> over_names ext (EmptyString :: names) p r.
Proof.
  intros H x. rewrite H. destruct (decide (x ∈ names /\ _)) as [[]|Hn], (decide (x ∈ EmptyString :: names /\ _)) as [[]|Hm];
    try done; set_solver.
Qed.

Lemma over_names_cons ext x names p r :
  x <> EmptyString -> over_names ext names (<[x := default VNull (ext !! x)]> p) r -> over_names ext (x :: names) p r.
Proof.
  intros Hx H z. rewrite H. destruct (decide (z = x)) as [->|Hz].
  - rewrite lookup_insert_eq, (decide_True (P := x ∈ x :: names /\ _)) by set_solver. by case_decide.
  - rewrite lookup_insert_ne by done. destruct (decide (z ∈ names /\ _)), (decide (z ∈ x :: names /\ _)); set_solver.
Qed.

Lemma over_sorted ext p r : over_names ext (sorted_keys ext) p r -> r = named ext ∪ p.
Proof.
  intros H. apply map_eq. intros x. rewrite H, lookup_union, named_lookup.
  destruct (decide (x = EmptyString)) as [->|Hx].
  - rewrite decide_False by tauto. by destruct (p !! _).
  - destruct (ext !! x) as [v|] eqn:E.
    + rewrite decide_True; [by destruct (p !! x)|]. split; [|done]. apply sorted_keys_elem. by rewrite E.
    + rewrite decide_False; [by destruct (p !! x)|]. intros [Hs _]. apply sorted_keys_elem in Hs as [v Hv]. congruence.
Qed.

Lemma overlayNames_spec c pos ext names p r :
  overlayNames c pos ext names p = Ok r ->
  over_names ext names p r /\ forall x, x ∈ names -> x <> EmptyString -> IsKeyword x = false.
Proof.
  revert p. induction names as [|x names IH]; intros p; cbn [overlayNames].
  { intros [= <-]. split; [|set_solver]. intros x. rewrite decide_False; set_solver. }
  case_bool_decide as Hx; [intros [H1 H2]%IH; subst; split; [by apply over_names_skip|set_solver]|].
  destruct (IsKeyword x) eqn:Ek; [done|]. intros [H1 H2]%IH. split; [by apply over_names_cons|].
  intros z [->|Hz]%elem_of_cons; auto.
Qed.

Lemma addNames_spec c pos ext names p r :
  addNames c pos ext names p = Ok r ->
  over_names ext names p r
  /\ forall x, x ∈ names -> x <> EmptyString -> IsKeyword x = false /\ p !! x = None.
Proof.
  revert p. induction names as [|x names IH]; intros p; cbn [addNames].
  { intros [= <-]. split; [|set_solver]. intros x. rewrite decide_False; set_solver. }
  case_bool_decide as Hx; [intros [H1 H2]%IH; subst; split; [by apply over_names_skip|set_solver]|].
  destruct (IsKeyword x) eqn:Ek; [done|]. destruct (p !! x) eqn:Ep; [done|].
  intros [H1 H2]%IH. split; [by apply over_names_cons|].
  intros z [->|Hz]%elem_of_cons Hne; [by split|]. destruct (H2 z Hz Hne) as [Hk Hi]. split; [done|].
  by apply lookup_insert_None in Hi as [].
Qed.

Lemma named_some m x : is_Some (named m !! x) -> x ∈ sorted_keys m /\ x <> EmptyString.
Proof. rewrite named_lookup. case_decide; [by intros []|]. intros Hs. split; [by apply sorted_keys_elem|done]. Qed.

Lemma overlayLocals_spec c pos loc p r :
  overlayLocals c pos loc p = Ok r -> r = named loc ∪ p /\ unreserved (named loc).
Proof.
  intros [H1 H2]%overlayNames_spec. split; [by apply over_sorted|]. intros x Hx. apply named_some in Hx as []. auto.
Qed.

Lemma addExtensions_spec c pos ext p r :
  addExtensions c pos ext p = Ok r -> r = named ext ∪ p /\ unreserved (named ext) /\ named ext ##ₘ p.
Proof.
  intros [H1 H2]%addNames_spec. split_and!; [by apply over_sorted| |].
  - intros x Hx. apply named_some in Hx as []. by apply H2.
  - apply map_disjoint_spec. intros x v w Hx Hp. destruct (named_some ext x ltac:(eauto)) as [Hs Hn].
    destruct (H2 x Hs Hn). congruence.
Qed.

Lemma addAll_spec c pos exts p r :
  addAll c pos exts p = Ok r ->
  r = stacked p (map named exts) /\ Forall unreserved (map named exts) /\ apart p (map named exts).
Proof.
  revert p. induction exts as [|e exts IH]; intros p; simpl; [by intros [= <-]|].
  destruct (addExtensions c pos e p) as [q|] eqn:E; [|done]. apply addExtensions_spec in E as (-> & Hu & Hd).
  simpl. intros (-> & Hus & Ha)%IH. split_and!; [done|by constructor|done|done].
Qed.

(** ** The names of used modules *)

Section uses.
Context `{World} `{Host} `{Natives}.

Lemma ebind_ok {A B} (m : E A) (f : A -> E B) y b y' :
  ebind m f y = Some (Ok b, y') -> exists a y1, m y = Some (Ok a, y1) /\ f a y1 = Some (Ok b, y').
Proof. unfold ebind. destruct (m y) as [[[a|e] y1]|]; [by eauto|done..]. Qed.

(** A use as it was asked for, and as it was resolved. *)
Definition resolved (u w : Use) : Prop :=
  use_Path w = use_Path u /\ (use_Alias u <> EmptyString -> use_Alias w = use_Alias u).

Lemma aliasOf_ok base u y al y' :
  aliasOf base u y = Some (Ok al, y') -> use_Alias u <> EmptyString -> al = use_Alias u.
Proof. unfold aliasOf. case_bool_decide; simpl; [done|]. by intros [= -> _]. Qed.

Lemma resolveLoop_spec base pos seen out uses y l y' :
  resolveLoop base pos seen out uses y = Some (Ok l, y') ->
  exists new, l = out ++ new /\ Forall2 resolved (omap normUse uses) new
    /\ NoDup (map use_Alias new) /\ forall a, a ∈ map use_Alias new -> a ∉ seen /\ IsKeyword a = false.
Proof.
  revert seen out y. induction uses as [|u uses IH]; intros seen out y; cbn [resolveLoop omap list_omap].
  { intros [= <- _]. exists []. rewrite app_nil_r. split_and!; [done|constructor|constructor|set_solver]. }
  destruct (normUse u) as [u'|]; [|apply IH]. intros (al & y1 & Hal & Hr)%ebind_ok.
  destruct (IsKeyword al) eqn:Ek; [done|]. case_bool_decide as Hs; [done|].
  apply IH in Hr as (new & -> & Hf & Hnd & Hk). exists (mkUse (use_Path u') al :: new).
  rewrite <- app_assoc. split_and!; [done| | |].
  - constructor; [|done]. split; [done|]. by eapply aliasOf_ok.
  - simpl. constructor; [|done]. intros Hin. apply Hk in Hin as [Hin _]. set_solver.
  - simpl. intros a [->|Ha]%elem_of_cons; [done|]. apply Hk in Ha as [Ha ?]. set_solver.
Qed.

(** Every module becomes an object under its alias. *)
Definition mod_layer (uses : list Use) (um : gmap string Value) : Prop :=
  dom um = list_to_set (map use_Alias uses)
  /\ forall x v, um !! x = Some v -> exists exp, v = VObj (Some (ModObj x exp)).

Lemma loadUses_spec n std base uses p y r y' :
  NoDup (map use_Alias uses) -> loadUses n std base uses p y = Some (Ok r, y') ->
  exists um, r = um ∪ p /\ mod_layer uses um.
Proof.
  revert p y. induction uses as [|u uses IH]; intros p y; cbn [loadUses map].
  { intros _ [= <- _]. exists ∅. split; [by rewrite (left_id ∅ (∪))|]. split; [by rewrite dom_empty_L|done]. }
  intros [Hu Hnd]%NoDup_cons (r0 & y1 & _ & Hr)%ebind_ok.
  apply IH in Hr as (um & -> & Hd & Hv); [|done].
  assert (Hn : um !! use_Alias u = None).
  { apply not_elem_of_dom. rewrite Hd. by rewrite elem_of_list_to_set. }
  eexists (<[use_Alias u := VObj (Some (ModObj (use_Alias u) (comp_Exp r0.1)))]> um). split; [|split].
  - rewrite <- insert_union_l, <- insert_union_r by done. done.
  - rewrite dom_insert_L, Hd. done.
  - intros x v [[<- <-]|[_ Hx]]%lookup_insert_Some; eauto.
Qed.
End uses.
