(* ===== verification/CacheFacts.v ===== *)
(** * Scripts see current modules, and each version of one is run once *)
From stdpp Require Import base list strings gmap.
From Stdlib Require Import Ascii ZArith Lia.
From S2P Require Import Prelude GoStd GoFloat GoPath Token Ast Group Parser Value Vm Args Stdlib Module Engine Layers.

Set Warnings "-register-all".
Open Scope string_scope.
Open Scope nat_scope.
Open Scope list_scope.
Open Scope sys_scope.

(** ** What an operation keeps, whatever its outcome *)

Definition keeps (I : Sys -> Prop) {A} (m : E A) : Prop := forall y r y', I y -> m y = Some (r, y') -> I y'.

Section keeps.
Context (I : Sys -> Prop).

Lemma keeps_ret {A} (a : A) : keeps I (eok a).
Proof. by intros y r y' Hy [= _ <-]. Qed.

Lemma keeps_throw {A} e : keeps I (@ethrow A e).
Proof. by intros y r y' Hy [= _ <-]. Qed.

Lemma keeps_bind {A B} (m : E A) (f : A -> E B) : keeps I m -> (forall a, keeps I (f a)) -> keeps I (ebind m f).
Proof.
  intros Hm Hf y r y' Hy. unfold ebind. destruct (m y) as [[[a|e] y1]|] eqn:Em; [|by intros [= _ <-]; eauto|done].
  intros Hr. by eapply Hf, Hr; eapply Hm.
Qed.
End keeps.

(** An invariant of the cache alone. *)
Section cache_only.
Context (I : gmap string modEnt -> Prop).
#[local] Abbreviation J := (fun y : Sys => I (ent y)).

Lemma keeps_onVm {A} (m : M A) : keeps J (onVm m).
Proof. intros y r y' Hy. unfold onVm. destruct (m (st y)) as [[x s]|]; [|done]. by intros [= _ <-]. Qed.

Lemma keeps_sys {A} (f : nat -> res string A) : keeps J (sys f).
Proof. by intros y r y' Hy [= _ <-]. Qed.

Lemma keeps_get path fp : keeps J (get path fp).
Proof. by intros y r y' Hy [= _ <-]. Qed.

Lemma keeps_inClone `{World} {A} (m : M A) : keeps J (inClone m).
Proof. intros y r y' Hy. unfold inClone. destruct (m _) as [[x s]|]; [|done]. by intros [= _ <-]. Qed.
End cache_only.

#[export] Hint Resolve keeps_ret keeps_throw keeps_onVm keeps_sys keeps_get keeps_inClone : rts.

(** Goes through an operation of the engine. *)
Ltac keep :=
  lazymatch goal with
  | |- keeps _ (ebind _ _) => apply keeps_bind; [keep|intros; keep]
  | |- keeps _ (match ?x with _ => _ end) => destruct x; keep
  | |- _ => eauto with rts
  end.

Lemma Exec_Mod `{Host} `{Natives} n m pre s c s' : Exec n m pre s = Some (Ok c, s') -> comp_Mod c = m.
Proof.
  unfold Exec, bind, newExp, startEnv. destruct (forM _ _ _) as [[[[]|e] s1]|]; [|done..].
  simpl. by intros [= <- _].
Qed.

Section current.
Context `{World} `{HH : Host}.

(** What was compiled is in the cache. *)
Lemma compile_entry n std p fp y c q y' :
  compile n std p fp y = Some (Ok (c, q), y') -> q = p /\ ent y' !! p = Some (mkEnt c fp).
Proof.
  unfold compile. intros (d & y1 & _ & (m & y2 & _ & (c' & y3 & _ & Hr)%ebind_ok)%ebind_ok)%ebind_ok.
  injection Hr as -> -> <-. split; [done|]. apply lookup_insert_eq.
Qed.

(** ** Current modules *)

Context (content : string -> modFP -> list ascii).

(** The file does not change between the look at its fingerprint and the read
    after it, and files with the same path and fingerprint are the same. *)
Definition steady : Prop :=
  forall t p fp d, fs_stat t p = Ok fp -> fs_read (S t) p = Ok d -> d = content p fp.

(** Every cached module is the one of its fingerprint. *)
Definition current (c : gmap string modEnt) : Prop :=
  forall p en, c !! p = Some en ->
    ParseModule p (content p (me_fp en)) = Some (Ok (comp_Mod (me_comp en))).

#[local] Abbreviation J := (fun y : Sys => current (ent y)).

Lemma compile_inv n std p fp y r y' :
  (forall d, fs_read (now y) p = Ok d -> d = content p fp) ->
  current (ent y) -> compile n std p fp y = Some (r, y') ->
  current (ent y').
Proof.
  intros Hrd Hc. unfold compile, ReadFile, sys, ebind, onVm. cbn [st ent now].
  destruct (fs_read (now y) p) as [d|]; [rewrite (Hrd d eq_refl)|by intros [= <- <-]].
  destruct (ParseModule p _) as [[m|e]|] eqn:Hm; cbn [parsed out_of_fuel ok throw]; [|by intros [= <- <-]|done].
  unfold inClone. cbn [st ent now hp exps]. destruct (Exec n m std _) as [[[c|e] s]|] eqn:Ex; [|by intros [= <- <-]|done].
  intros [= <- <-]. cbn [ent].
  intros q en [[<- <-]|[_ Hq]]%lookup_insert_Some; [|by apply Hc]. cbn [me_fp me_comp]. by rewrite (Exec_Mod _ _ _ _ _ _ Ex).
Qed.

(** What [Load] returns is in the cache, under the fingerprint that the file had
    when it was looked at. *)
Lemma Load_inv n std base path y r y' :
  steady -> current (ent y) -> Load n std base path y = Some (r, y') ->
  current (ent y') /\ forall c p, r = Ok (c, p) ->
    exists fp, fs_stat (S (now y)) p = Ok fp /\ ent y' !! p = Some (mkEnt c fp).
Proof.
  intros Hst Hc. unfold Load. case_bool_decide; [by intros [= <- <-]|].
  unfold absPath, stat, sys, get, ebind, eok. cbn [st ent now].
  destruct (Abs _ _) as [p|]; [|by intros [= <- <-]].
  destruct (fs_stat (S (now y)) p) as [fp|] eqn:Hfp; [|by intros [= <- <-]].
  destruct (match ent y !! p with Some _ => _ | None => _ end) as [c|] eqn:Hh.
  - destruct (ent y !! p) as [en|] eqn:Hen; [|done]. case_decide as Hd; [|done]. injection Hh as <-.
    intros [= <- <-]. split; [done|]. intros c q [= <- <-]. exists fp. split; [done|].
    cbn [ent]. rewrite Hen. by destruct en; simpl in *; subst.
  - intros Hr. split; [eapply compile_inv, Hr; [intros d Hd; by eapply Hst|done]|].
    intros c q ->. apply compile_entry in Hr as [-> He]. eauto.
Qed.

Lemma Load_keeps n std base path : steady -> keeps J (Load n std base path).
Proof. intros Hst y r y' Hy Hr. by eapply Load_inv. Qed.

Lemma modHeadAt_keeps base path : keeps J (modHeadAt base path).
Proof. unfold modHeadAt, absPath, stat, ReadFile. keep. Qed.

Lemma eraise_keeps {A} pos msg : keeps J (@eraise A pos msg).
Proof. apply keeps_onVm. Qed.

#[local] Hint Resolve Load_keeps modHeadAt_keeps eraise_keeps : rts.

Lemma resolveLoop_keeps base pos seen out uses : keeps J (resolveLoop base pos seen out uses).
Proof.
  revert seen out. induction uses as [|u uses IH]; intros seen out; cbn [resolveLoop]; [keep|].
  destruct (normUse u); [|apply IH]. apply keeps_bind; [unfold aliasOf; keep|]. intros al. keep.
Qed.

Lemma loadUses_keeps n std base uses p : steady -> keeps J (loadUses n std base uses p).
Proof.
  intros Hst. revert p. induction uses as [|u uses IH]; intros p; cbn [loadUses]; keep.
Qed.

Lemma newCtx_keeps e : keeps J (newCtx e).
Proof. by intros y r y' Hy [= _ <-]. Qed.

#[local] Hint Resolve resolveLoop_keeps loadUses_keeps newCtx_keeps : rts.

Lemma buildPre_keeps n e cfg pos : steady -> keeps J (buildPre n e cfg pos).
Proof. intros Hst. unfold buildPre, addUses, resolveUses. keep. Qed.

#[local] Hint Resolve buildPre_keeps : rts.

Lemma Eval_keeps n e cfg src pos : steady -> keeps J (Eval n e cfg src pos).
Proof. intros Hst. unfold Eval. keep. Qed.

#[local] Hint Resolve Eval_keeps : rts.

Lemma EvalStr_keeps n e cfg src pos : steady -> keeps J (EvalStr n e cfg src pos).
Proof. intros Hst. unfold EvalStr. keep. Qed.

Lemma ExecModule_keeps n e cfg src pos : steady -> keeps J (ExecModule n e cfg src pos).
Proof. intros Hst. unfold ExecModule. keep. Qed.
End current.

(** ** Engines in use *)

(** The states an engine can get into: it starts with an empty cache, and every
    evaluation, whatever its configuration and outcome, leads on. *)
Inductive reachable `{World} `{Host} : Sys -> Prop :=
  | reach_new s t : reachable (mkSys s ∅ t)
  | reach_Eval n e cfg src pos y r y' :
      reachable y -> Eval n e cfg src pos y = Some (r, y') -> reachable y'
  | reach_EvalStr n e cfg src pos y r y' :
      reachable y -> EvalStr n e cfg src pos y = Some (r, y') -> reachable y'
  | reach_ExecModule n e cfg src pos y r y' :
      reachable y -> ExecModule n e cfg src pos y = Some (r, y') -> reachable y'.

Section modules.
Context `{World} `{HH : Host}.

(** C31. No script sees a stale module.  Let the fingerprint of a file tell its
    contents apart, and let files stay as they are between the look at the
    fingerprint and the read.  Then, in every state that evaluations lead to, a
    module that loads is the parse of what the file holds at that time. *)
Theorem no_stale_module content n std base path y c p y' :
  steady content -> reachable y -> Load n std base path y = Some (Ok (c, p), y') ->
  exists fp, fs_stat (S (now y)) p = Ok fp /\ ParseModule p (content p fp) = Some (Ok (comp_Mod c)).
Proof.
  intros Hst Hy Hr. assert (Hc : current content (ent y)).
  { clear Hr. induction Hy as [s t|? ? ? ? ? ? ? ? _ IH E|? ? ? ? ? ? ? ? _ IH E|? ? ? ? ? ? ? ? _ IH E].
    - intros q en Hq. by destruct (lookup_empty_Some q en Hq).
    - by eapply (Eval_keeps content), E.
    - by eapply (EvalStr_keeps content), E.
    - by eapply (ExecModule_keeps content), E. }
  destruct (Load_inv content n std base path y _ y' Hst Hc Hr) as [Hc' Hl].
  destruct (Hl c p eq_refl) as (fp & Hfp & Hen). exists fp. split; [done|]. by apply (Hc' p _ Hen).
Qed.

(** A version of a module is run once: while the fingerprint of the file stays
    the same, loading it again returns the same module with the same
    environment, whose variables keep their values, and changes neither the heap
    nor the cache. *)
Theorem module_run_once n std base path y c p y1 m std' :
  Load n std base path y = Some (Ok (c, p), y1) ->
  getwd (now y1) = getwd (now y) -> fs_stat (S (now y1)) p = fs_stat (S (now y)) p ->
  Load m std' base path y1 = Some (Ok (c, p), mkSys (st y1) (ent y1) (S (S (now y1)))).
Proof.
  unfold Load. case_bool_decide; [done|].
  unfold absPath, stat, sys, get, ebind, eok. cbn [st ent now]. intros Hr Hwd. revert Hr. rewrite Hwd.
  destruct (Abs _ _) as [q|]; [|done]. destruct (fs_stat (S (now y)) q) as [fp|] eqn:Hfp; [|done].
  intros Hr Hst. assert (Hen : q = p /\ ent y1 !! p = Some (mkEnt c fp)).
  { destruct (match ent y !! q with Some _ => _ | None => _ end) as [c'|] eqn:Hh.
    - destruct (ent y !! q) as [en|] eqn:Hen; [|done]. case_decide; [|done]. injection Hh as <-.
      injection Hr as <- <- <-. cbn [ent]. rewrite Hen. split; [done|]. by destruct en; simpl in *; subst.
    - by apply compile_entry in Hr as [-> ?]. }
  destruct Hen as [-> Hen]. rewrite Hst, Hfp, Hen. simpl. by rewrite decide_True.
Qed.
End modules.
