(* ===== verification/PlainHost.v ===== *)
(** * A host without objects or functions of its own

    It shows that the promises asked of a host can be kept, and the instances
    of the theorems run on it. *)
From stdpp Require Import base list strings gmap.
From Stdlib Require Import Ascii ZArith Lia.
From S2P Require Import Prelude GoStd GoFloat Token Ast Value Vm VmFacts VmSound Args Stdlib Engine.

Set Warnings "-register-all".
Open Scope string_scope.
Open Scope nat_scope.
Open Scope list_scope.

(** Insertion sort: stable, and a permutation for any comparison. *)
Fixpoint insert_by (less : Value -> Value -> bool) (x : Value) (l : list Value) : list Value :=
  match l with
  | [] => [x]
  | y :: r => if less y x then y :: insert_by less x r else x :: l
  end.

Fixpoint sort_by (less : Value -> Value -> bool) (l : list Value) : list Value :=
  match l with
  | [] => []
  | x :: r => insert_by less x (sort_by less r)
  end.

Lemma insert_by_perm less x l : insert_by less x l ≡ₚ x :: l.
Proof.
  induction l as [|y l IH]; simpl; [done|]. destruct (less y x); [|done].
  rewrite IH. constructor.
Qed.

Lemma sort_by_perm less l : sort_by less l ≡ₚ l.
Proof. induction l as [|x l IH]; simpl; [done|]. by rewrite insert_by_perm, IH. Qed.

Definition plain_host : Host := {|
  host_type := fun id => id;
  host_truthy := fun _ => None;
  host_unbound := fun _ => None;
  host_iface := fun _ => None;
  host_member := fun _ _ _ _ => Ok (VNull, false);
  host_index := fun _ _ _ _ => Ok VNull;
  host_call := fun id _ _ _ => Er (EOther (id +:+ " is not available"));
  sort_slice := sort_by
|}.

Lemma plain_host_ok : @HostOk plain_host.
Proof. split; intros; try constructor. apply sort_by_perm. Qed.

Definition fresh (c : Ctx) : St := mkSt c [] ∅.

(** [defaultLimits]. *)
Definition defaultLimits : Limits := mkLimits 10000 64 65536 2000 2000 0.

(** Never done, and no time passes. *)
Definition idle (lim : Limits) : St := fresh (NewCtx lim (fun _ => 0%Z) (fun _ => None)).

Definition plain_pre : gmap string Value := @New (map fst (@coreSpec plain_host)) (@modelled plain_host) VNull.

Lemma idle_good lim : (0 <= MaxSteps lim)%Z -> good (idle lim).
Proof.
  intros Hl. split.
  - split; [intros l e Hle|intros x v Hx]; [by destruct l|by destruct (lookup_empty_Some x v Hx)].
  - intros _. exact Hl.
Qed.
