(* ===== verification/EngineFacts.v ===== *)
(** * What every evaluation guarantees

    The triples of [VmSound] and [ModuleFacts], read off at the entry points of
    the engine: termination, the step budget, the call stack, constants, control
    signals, aborts, the layers of names. *)
From stdpp Require Import base list strings gmap.
From Stdlib Require Import Ascii ZArith Lia.
From S2P Require Import Prelude GoStd GoFloat GoPath Token Ast Lexer Parser Scope ParserTotal Value Vm VmFacts VmSound Args Stdlib StdSound Module ModuleFacts Engine Layers PlainHost.

Set Warnings "-register-all".
Open Scope string_scope.
Open Scope nat_scope.
Open Scope list_scope.
Open Scope vm_scope.
Open Scope sys_scope.

#[local] Arguments IsKeyword : simpl never.

(** ** Preludes *)

(** The layers of an evaluation hold well-formed values. *)
Definition layers_ok (n : nat) (e : Eng) (cfg : EvalConfig) : Prop :=
  map_ok n (e_Stdlib e) /\ Forall (map_ok n) (e_mod e) /\ Forall (map_ok n) (Bindings cfg)
  /\ map_ok n (Locals cfg) /\ map_ok n (Overrides cfg).

Lemma layers_ok_mono n n' e cfg : n <= n' -> layers_ok n e cfg -> layers_ok n' e cfg.
Proof.
  intros Hle (H1 & H2 & H3 & H4 & H5). split_and!; try (by eapply map_ok_mono);
    (eapply Forall_impl; [eassumption|]; intros m Hm; by eapply map_ok_mono).
Qed.

Lemma map_ok_union n a b : map_ok n a -> map_ok n b -> map_ok n (a ∪ b).
Proof. intros Ha Hb x v [Hx|[_ Hx]]%lookup_union_Some_raw; eauto. Qed.

Lemma map_ok_named n m : map_ok n m -> map_ok n (named m).
Proof. intros Hm x v. rewrite named_lookup. case_decide; [done|apply Hm]. Qed.

Lemma map_ok_stacked n p ls : map_ok n p -> Forall (map_ok n) ls -> map_ok n (stacked p (map named ls)).
Proof.
  intros Hp Hls. revert p Hp. induction Hls as [|m ls Hm _ IH]; intros p Hp; simpl; [done|].
  apply IH. by apply map_ok_union, Hp; apply map_ok_named.
Qed.

Lemma bindAll_ok n out b : map_ok n out -> map_ok n b -> map_ok n (bindAll out b).
Proof.
  intros Ho Hb. unfold bindAll. revert out Ho. generalize (sorted_keys b) as ks.
  induction ks as [|k ks IH]; intros out Ho; simpl; [done|]. apply IH.
  case_bool_decide; [done|]. by apply map_ok_insert, default_ok.
Qed.

Lemma modulePre_ok n e cfg : layers_ok n e cfg -> map_ok n (modulePre e).
Proof.
  intros (H1 & H2 & _). unfold modulePre. revert H1. generalize (e_Stdlib e) as p.
  induction H2 as [|b ls Hb _ IH]; intros p Hp; simpl; [done|]. by apply IH, bindAll_ok.
Qed.

(** Assembling names raises nothing but runtime errors. *)
Lemma addNames_err n c pos ext names p e : addNames c pos ext names p = Er e -> err_ok None n e.
Proof.
  revert p. induction names as [|x names IH]; intros p; cbn [addNames]; [done|].
  case_bool_decide; [apply IH|]. destruct (IsKeyword x); [by intros [= <-]|].
  destruct (p !! x); [by intros [= <-]|apply IH].
Qed.

Lemma overlayNames_err n c pos ext names p e : overlayNames c pos ext names p = Er e -> err_ok None n e.
Proof.
  revert p. induction names as [|x names IH]; intros p; cbn [overlayNames]; [done|].
  case_bool_decide; [apply IH|]. destruct (IsKeyword x); [by intros [= <-]|apply IH].
Qed.

Lemma addAll_err n c pos exts p e : addAll c pos exts p = Er e -> err_ok None n e.
Proof.
  revert p. induction exts as [|x exts IH]; intros p; simpl; [done|].
  destruct (addExtensions c pos x p) eqn:E; simpl; [apply IH|]. intros [= <-]. exact (addNames_err _ _ _ _ _ _ _ E).
Qed.

(** ** The triples of the entry points *)

Section engine.
Context `{World} `{HH : Host} `{!HostOk}.
Implicit Types (s : St).

Lemma push_pop f c c' : same_ctx (push f c) c' -> depth (pop c') = depth c /\ stack (pop c') = stack c.
Proof.
  intros (_ & _ & _ & Hd & Hst & _). unfold push, pop in *. simpl in *.
  rewrite Hd, Hst, length_app. simpl. split; [done|].
  replace (length (stack c) + 1 - 1) with (length (stack c)) by lia. apply take_app_length.
Qed.

Lemma sat_atSite {A} k own n cs site pos (m : M A) s (Q : A -> St -> Prop) :
  (forall a s' c, Q a s' -> Q a (mkSt c (hp s') (exps s'))) ->
  good s -> (forall c, good (mkSt c (hp s) (exps s)) -> sat k own n cs m (mkSt c (hp s) (exps s)) Q) ->
  sat k own n cs (atSite site pos m) s Q.
Proof.
  intros HQ Hg Hm. unfold atSite. case_bool_decide.
  - destruct s as [c h x]. by apply (Hm c).
  - apply sat_framed; [done|done|apply push_pop|done|done|by apply Hm].
Qed.

Lemma sat_execIn n pre src site pos s :
  good s -> map_ok (hl s) pre ->
  sat (Z.of_nat n) None (hl s) None (execIn n pre src site pos) s (fun c s' => comp_ok (hl s') c).
Proof.
  intros Hg Hpre. eapply (sat_pure _ _ _ _ _ _ _ (fun m => wf_mod m = true)).
  { apply sat_parsed; [|done]. destruct (parseModuleAt_run (Path pos) src pos) as (r & -> & Hr).
    exists r. split; [done|]. by destruct r. }
  intros m Hm. apply sat_atSite; [done|done|]. intros c Hc.
  eapply sat_mono; [by apply (sat_Exec n m pre (mkSt c (hp s) (exps s)))|]. by intros ? ? _ _ [].
Qed.

Lemma sat_evalIn n pre src site pos s :
  good s -> map_ok (hl s) pre ->
  sat (Z.of_nat n) None (hl s) None (evalIn n pre src site pos) s (fun v s' => val_ok (hl s') v).
Proof.
  intros Hg Hpre. eapply sat_bind; [by apply sat_startEnv|]. intros env s1 Hg1 Hf1 [-> Hl1].
  eapply (sat_pure _ _ _ _ _ _ _ (fun _ => True)).
  { apply sat_parsed; [|done]. destruct (parseExpr_run (Path pos) (Line pos) (Col pos) src) as (r & ->).
    exists r. split; [done|]. by destruct r. }
  intros ex _. apply sat_atSite; [done|done|]. intros c Hc.
  set (s2 := mkSt c _ _) in *. assert (Hl2 : hl s2 = S (hl s)) by exact Hl1.
  apply sat_eval; [apply vm_at_ok|done|lia|lia].
Qed.

(** A pure part of the assembly. *)
Lemma esat_lift {A} n (r : res Err A) y (Q : A -> Sys -> Prop) :
  run_ok y -> (forall a, r = Ok a -> Q a y) -> (forall e, r = Er e -> err_ok None (hl (st y)) e) ->
  esat n (onVm (lift r)) y Q.
Proof.
  intros Hy Hok Her. destruct y as [s en t], r as [a|e].
  - apply (esat_ret n a (mkSys s en t)); auto.
  - by apply (esat_throw (A:=A) n e (mkSys s en t)).
Qed.

Lemma esat_eraise {A} n pos msg y (Q : A -> Sys -> Prop) : run_ok y -> esat n (eraise pos msg) y Q.
Proof. intros Hy. destruct y as [s en t]. by apply (esat_throw (A:=A) n (Errf (ctx s) pos msg) (mkSys s en t)). Qed.

Lemma esat_resolveLoop n base pos seen out uses y :
  run_ok y -> esat n (resolveLoop base pos seen out uses) y (fun _ _ => True).
Proof.
  revert seen out y. induction uses as [|u uses IH]; intros seen out y Hy; cbn [resolveLoop]; [by apply esat_ret|].
  destruct (normUse u) as [u'|]; [|by apply IH].
  eapply (esat_bind _ _ _ _ (fun _ _ => True)).
  - unfold aliasOf. case_bool_decide; cbn [negb]; [|by apply esat_ret].
    eapply esat_bind; [by apply esat_modHeadAt|]. intros r y1 Hy1 _ _.
    case_bool_decide; [by apply esat_eraise|by apply esat_ret].
  - intros al y1 Hy1 _ _. destruct (IsKeyword al); [by apply esat_eraise|].
    case_bool_decide; [by apply esat_eraise|by apply IH].
Qed.

Lemma esat_loadUses n std base uses p y :
  run_ok y -> map_ok (hl (st y)) std -> map_ok (hl (st y)) p ->
  esat n (loadUses n std base uses p) y (fun r y' => map_ok (hl (st y')) r).
Proof.
  revert p y. induction uses as [|u uses IH]; intros p y Hy Hs Hp; cbn [loadUses]; [by apply esat_ret|].
  eapply esat_bind; [by apply esat_Load|]. intros r y1 Hy1 Hf1%eframe_hl [_ Hr].
  apply IH; [done|by eapply map_ok_mono|]. apply map_ok_insert; [by eapply map_ok_mono|].
  by constructor.
Qed.

Lemma esat_buildPre n e cfg pos y :
  run_ok y -> layers_ok (hl (st y)) e cfg ->
  esat n (buildPre n e cfg pos) y (fun pre y' => map_ok (hl (st y')) pre).
Proof.
  intros Hy Hl. pose proof (modulePre_ok _ _ _ Hl) as Hm. unfold buildPre. set (c0 := ctx (st y)).
  eapply (esat_bind _ _ _ _ (fun _ y' => y' = y)).
  { unfold c0. destruct y as [s en t]. by apply (esat_ret n (ctx s) (mkSys s en t)). }
  intros c ? _ _ ->. eapply (esat_bind _ _ _ _ (fun p y' => map_ok (hl (st y')) p)).
  { apply esat_lift; [done| |intros ? Her; by eapply addAll_err].
    intros p (-> & _)%addAll_spec. apply map_ok_stacked; [done|apply Hl]. }
  intros p y1 Hy1 Hf1%eframe_hl Hp. eapply (esat_bind _ _ _ _ (fun p y' => map_ok (hl (st y')) p)).
  { eapply esat_bind; [by apply esat_resolveLoop|]. intros uses y2 Hy2 Hf2%eframe_hl _.
    apply esat_loadUses; [done|eapply map_ok_mono; [|exact Hm]; lia|by eapply map_ok_mono]. }
  intros p2 y2 Hy2 Hf2%eframe_hl Hp2. eapply layers_ok_mono in Hl as (_ & _ & _ & Hlo & Hov); [|by etrans].
  eapply (esat_bind _ _ _ _ (fun p y' => map_ok (hl (st y')) p)).
  { apply esat_lift; [done| |intros ? Her; by eapply overlayNames_err].
    intros p' [-> _]%overlayLocals_spec. by apply map_ok_union, Hp2; apply map_ok_named. }
  intros p3 y3 Hy3 Hf3%eframe_hl Hp3. apply esat_lift; [done| |intros ? Her; by eapply overlayNames_err].
  intros p' [-> _]%overlayLocals_spec. apply map_ok_union, Hp3. by eapply map_ok_named, map_ok_mono.
Qed.

(** The state in which an evaluation starts. *)
Definition started (e : Eng) (y : Sys) : Sys :=
  mkSys (mkSt (NewCtx (e_Lim e) (clock (now y)) (done (now y))) (hp (st y)) ∅) (ent y) (S (now y)).

Lemma started_ok e y : sys_ok y -> run_ok (started e y).
Proof.
  intros [Hh Hc]. split; [done|]. split; [|simpl; done]. split.
  - split; [done|]. intros x v Hx. by destruct (lookup_empty_Some x v Hx).
  - unfold budget, limit, used. simpl. lia.
Qed.

Lemma esat_Eval n e cfg src pos y :
  sys_ok y -> layers_ok (hl (st y)) e cfg ->
  Eval n e cfg src pos y = (let+ pre := buildPre n e cfg pos in onVm (evalIn n pre src (Site cfg) pos)) (started e y)
  /\ esat n (let+ pre := buildPre n e cfg pos in onVm (evalIn n pre src (Site cfg) pos)) (started e y)
       (fun v y' => val_ok (hl (st y')) v).
Proof.
  intros Hy%(started_ok e) Hl. split; [done|]. eapply esat_bind; [by apply esat_buildPre|].
  intros pre y1 Hy1 _ Hp. apply (esat_onVm n _ _ (fun v s => val_ok (hl s) v)); [done|]. apply sat_evalIn; [apply Hy1|done].
Qed.

Lemma esat_ExecModule n e cfg src pos y :
  sys_ok y -> layers_ok (hl (st y)) e cfg ->
  ExecModule n e cfg src pos y = (let+ pre := buildPre n e cfg pos in onVm (execIn n pre src (Site cfg) pos)) (started e y)
  /\ esat n (let+ pre := buildPre n e cfg pos in onVm (execIn n pre src (Site cfg) pos)) (started e y)
       (fun c y' => comp_ok (hl (st y')) c).
Proof.
  intros Hy%(started_ok e) Hl. split; [done|]. eapply esat_bind; [by apply esat_buildPre|].
  intros pre y1 Hy1 _ Hp. apply (esat_onVm n _ _ (fun c s => comp_ok (hl s) c)); [done|]. apply sat_execIn; [apply Hy1|done].
Qed.
End engine.

(** ** Reading a triple *)

Definition aborted {A} (r : res Err A) : bool := match r with Er e => isAbort e | Ok _ => false end.

Lemma sat_run {A} k own n cs (m : M A) s Q r s' :
  sat k own n cs m s Q -> m s = Some (r, s') -> frame own n s s'.
Proof. unfold sat. intros Hm E. rewrite E in Hm. by destruct r; destruct Hm as (?&?&?). Qed.

Lemma sat_err {A} k own n cs (m : M A) s Q e s' :
  sat k own n cs m s Q -> m s = Some (Er e, s') -> err_ok cs (hl s') e.
Proof. unfold sat. intros Hm E. rewrite E in Hm. apply Hm. Qed.

Lemma esat_total n {A} (m : E A) y Q : esat n m y Q -> fuel_for n y -> exists r y', m y = Some (r, y').
Proof. unfold esat. destruct (m y) as [[r y']|]; [by eauto|done]. Qed.

Lemma esat_run n {A} (m : E A) y Q r y' :
  esat n m y Q -> m y = Some (r, y') ->
  sys_ok y' /\ eframe y y' /\ (aborted r = false -> budget (st y')) /\ overrun (st y')
  /\ forall a, r = Ok a -> Q a y'.
Proof.
  unfold esat. intros Hm E. rewrite E in Hm. destruct r; simpl.
  - destruct Hm as (Hr & Hf & HQ). pose proof (run_sys_ok _ Hr). destruct Hr as (_ & [_ Hb] & _).
    split_and!; auto with rts; [apply H..|by intros ? [= <-]].
  - destruct Hm as (Hs & ? & ? & ?). by split_and!; try done; apply Hs.
Qed.

(** A successful step is one the budget allowed. *)
Lemma tick_exhausted p s :
  (0 < limit s)%Z -> (limit s <= used s)%Z ->
  exists s', tick p s = Some (Er (rtAbort (ctx s') p AbortScript "step limit exceeded"), s').
Proof.
  unfold limit, used. intros H1 H2.
  exists (mkSt (set_steps (steps (ctx s) + 1) (ctx s)) (hp s) (exps s)). unfold tick. cbn [Lim steps set_steps].
  rewrite (proj2 (Z.ltb_lt _ _) H1).
  by rewrite (proj2 (Z.ltb_lt (MaxSteps (Lim (ctx s))) (steps (ctx s) + 1)) ltac:(lia)).
Qed.

(** ** The guarantees *)

Section guarantees.
Context `{World} `{HH : Host} `{!HostOk}.
Implicit Types (s : St) (y : Sys).

(** C1. Running a script terminates.  For any source text, well-formed or not, with
    any modules it uses, whatever the file system answers, and within a positive
    step limit, more levels of recursion than the limit has steps are enough for
    the run to end with a module or an error. *)
Theorem script_terminates n e cfg src pos y :
  sys_ok y -> layers_ok (hl (st y)) e cfg -> (0 < MaxSteps (e_Lim e) < Z.of_nat n)%Z ->
  exists r y', ExecModule n e cfg src pos y = Some (r, y').
Proof.
  intros Hy Hl Hn. destruct (esat_ExecModule n e cfg src pos y Hy Hl) as [-> Hs]. by eapply esat_total.
Qed.

(** Evaluating an expression of a request file terminates likewise, with a
    value or an error. *)
Theorem expression_terminates n e cfg src pos y :
  sys_ok y -> layers_ok (hl (st y)) e cfg -> (0 < MaxSteps (e_Lim e) < Z.of_nat n)%Z ->
  exists r y', Eval n e cfg src pos y = Some (r, y').
Proof.
  intros Hy Hl Hn. destruct (esat_Eval n e cfg src pos y Hy Hl) as [-> Hs]. by eapply esat_total.
Qed.

(** C2. The step budget is respected: a run that ends in anything but an abort has
    used at most [MaxSteps] steps, an abort comes at the latest with the step
    after, and the limits are those of the engine to the end. *)
Theorem step_budget_respected n e cfg src pos y r y' :
  sys_ok y -> layers_ok (hl (st y)) e cfg -> (0 < MaxSteps (e_Lim e))%Z ->
  ExecModule n e cfg src pos y = Some (r, y') ->
  (aborted r = false -> used (st y') <= MaxSteps (e_Lim e))%Z
  /\ (0 <= used (st y') <= MaxSteps (e_Lim e) + 1)%Z /\ Lim (ctx (st y')) = e_Lim e.
Proof.
  intros Hy Hl Hpos. destruct (esat_ExecModule n e cfg src pos y Hy Hl) as [-> Hs]. intros E.
  destruct (esat_run _ _ _ _ _ _ Hs E) as (_ & [_ (HL & _ & _ & _ & _ & Hu)] & Hb & Ho & _).
  unfold budget, overrun, limit, used in *. rewrite HL in *. simpl in *. specialize (Ho Hpos).
  split_and!; [auto|lia|lia|done].
Qed.


(** The call stack and the call depth are restored whatever the outcome: after
    an evaluation that succeeded, failed or was aborted in any nesting of
    calls, both are what they were before. *)
Theorem call_stack_restored n env ex s r s' :
  good s -> env < hl s -> vm_eval (vm_at n) env ex s = Some (r, s') ->
  stack (ctx s') = stack (ctx s) /\ depth (ctx s') = depth (ctx s) /\ Lim (ctx s') = Lim (ctx s).
Proof.
  intros Hg Henv E.
  by destruct (sat_run _ _ _ _ _ _ _ _ _ (ok_eval _ _ (vm_at_ok n) env ex s Hg Henv) E)
    as [_ (HL & _ & _ & Hd & Hst & _)].
Qed.

(** C30. A constant keeps its value: no statement, run in any environment and
    calling any closures and natives, changes a constant binding of an
    environment that existed before it. *)
Theorem constants_immutable n cs env exp st s r s' l e x v :
  wf_stmt cs st = true -> good s -> env < hl s ->
  vm_execStmt (vm_at n) env exp st s = Some (r, s') ->
  hp s !! l = Some e -> vars e !! x = Some (mkBinding v true) ->
  exists e', hp s' !! l = Some e' /\ vars e' !! x = Some (mkBinding v true).
Proof.
  intros Hwf Hg Henv E Hl Hx.
  destruct (sat_run _ _ _ _ _ _ _ _ _ (ok_stmt _ _ (vm_at_ok n) cs env exp st s Hwf Hg Henv) E)
    as [[_ K] _].
  destruct (K l e (lookup_lt_Some _ _ _ Hl) Hl) as (e' & Hl' & _ & Kx). exists e'. split; [done|].
  specialize (Kx x). by rewrite Hx in Kx.
Qed.

(** Evaluating an expression defines no name in any environment that exists
    already, and leaves the chain of environments as it is: what it may do is
    assign to variables, through the functions it calls. *)
Theorem expression_defines_no_name n env ex s r s' l e :
  good s -> env < hl s -> vm_eval (vm_at n) env ex s = Some (r, s') -> hp s !! l = Some e ->
  exists e', hp s' !! l = Some e' /\ up e' = up e /\ dom (vars e') = dom (vars e).
Proof.
  intros Hg Henv E Hl.
  destruct (sat_run _ _ _ _ _ _ _ _ _ (ok_eval _ _ (vm_at_ok n) env ex s Hg Henv) E)
    as [[_ K] _].
  destruct (K l e (lookup_lt_Some _ _ _ Hl) Hl) as (e' & Hl' & Hu & Kx). exists e'. split_and!; [done..|].
  apply set_eq. intros x. specialize (Kx x). rewrite !elem_of_dom.
  destruct (vars e !! x) as [[v []]|]; simpl in Kx.
  - rewrite Kx. split; eauto.
  - destruct Kx as [v' ->]. split; eauto.
  - by destruct Kx as [| ->].
Qed.

(** C3. No control signal strays: a statement of a parsed module, run at the top
    level, never ends in a [break] or a [continue], and neither does the body of
    any function value; so the errors "break outside loop or switch" and
    "continue outside loop" of the evaluator cannot occur. *)
Theorem signals_contained n path src pos m st env exp fn s :
  ParseModuleAt path src pos = Some (Ok m) -> st ∈ mod_stmts m ->
  good s -> env < hl s -> val_ok (hl s) (VFunc (Some fn)) ->
  (forall e s' p l, vm_execStmt (vm_at n) env exp st s = Some (Er e, s') ->
     e <> EBreak p l /\ e <> EContinue p l)
  /\ (forall e s' p l, execBlock (vm_at n) env false (fn_body fn) s = Some (Er e, s') ->
     e <> EBreak p l /\ e <> EContinue p l).
Proof.
  intros Hp Hst Hg Henv Hfn.
  assert (Hwf : wf_stmt [] st = true).
  { destruct (parseModuleAt_run path src pos) as (r & Hr & Hwf). rewrite Hp in Hr. injection Hr as <-.
    by eapply forallb_in. }
  assert (Hno : forall e h p l, err_ok (Some []) h e -> e <> EBreak p l /\ e <> EContinue p l).
  { intros e h p l He. split; intros ->; destruct He as (c & [= <-] & Hb);
      unfold break_ok, continue_ok in Hb; by case_bool_decide. }
  split; intros e s' p l E.
  - eapply Hno, sat_err; [exact (ok_stmt _ _ (vm_at_ok n) [] env exp st s Hwf Hg Henv)|exact E].
  - inversion Hfn; subst.
    eapply Hno, sat_err; [exact (sat_execBlock _ _ (vm_at_ok n) None 0 [] env false (fn_body fn) s
                                   ltac:(done) Hg Henv ltac:(lia))|exact E].
Qed.

(** The names that an evaluation sees come in layers, and the later layers win:
    overrides, locals, used modules, bindings, and at the bottom the standard
    library with the module bindings.  Bindings and used modules are added
    without a collision with what is below them; no layer above the base has a
    reserved word; and every use that has a path binds one name, its alias if it
    has one, to an object of the module. *)
Theorem prelude_layers n e cfg pos y pre y' :
  buildPre n e cfg pos y = Some (Ok pre, y') ->
  exists um uses,
    pre = named (Overrides cfg) ∪ (named (Locals cfg)
            ∪ stacked (modulePre e) (map named (Bindings cfg) ++ [um]))
    /\ apart (modulePre e) (map named (Bindings cfg) ++ [um])
    /\ Forall unreserved (map named (Bindings cfg) ++ [um; named (Locals cfg); named (Overrides cfg)])
    /\ Forall2 resolved (omap normUse (Uses cfg)) uses /\ NoDup (map use_Alias uses) /\ mod_layer uses um.
Proof.
  unfold buildPre. intros (c & y0 & _ & (p & y1 & Hp & (p2 & y2 & Hp2 & (p3 & y3 & Hp3 & Hr)%ebind_ok)%ebind_ok)%ebind_ok)%ebind_ok.
  injection Hp as Hp _. injection Hp3 as Hp3 _. injection Hr as Hr _.
  apply addAll_spec in Hp as (-> & Hub & Hab). apply overlayLocals_spec in Hp3 as [-> Hul], Hr as [-> Huo].
  unfold addUses in Hp2. apply ebind_ok in Hp2 as (uses & y4 & Hu & Hld).
  apply resolveLoop_spec in Hu as (new & -> & Hf & Hnd & Hk). simpl in Hld.
  apply loadUses_spec in Hld as (um & -> & Hum); [|done]. exists um, new. rewrite stacked_snoc.
  assert (Hin : forall x, is_Some (um !! x) -> x ∈ map use_Alias new).
  { intros x Hx%elem_of_dom. destruct Hum as [Hd _]. rewrite Hd in Hx. by apply elem_of_list_to_set in Hx. }
  split_and!; try done.
  - apply apart_snoc; [done|]. apply map_disjoint_spec. intros x v w Hx Hw.
    destruct (Hk x) as [Hs _]; [by eauto|]. by apply Hs, elem_of_dom.
  - apply Forall_app. split; [done|]. rewrite !Forall_cons, Forall_nil. split_and!; try done. intros x Hx. by apply Hk, Hin.
Qed.
End guarantees.

(** ** Aborts *)

Section aborts.
Context `{HH : Host} `{NN : Natives}.
Implicit Types (s : St).

(** An exhausted budget is final: once [MaxSteps] steps are used, every
    expression and statement, [try] included, ends at once in the abort "step
    limit exceeded", which no [try] around it can hide. *)
Theorem exhausted_budget_is_final n env ex exp st s :
  (0 < limit s)%Z -> (limit s <= used s)%Z ->
  (exists s', vm_eval (vm_at (S n)) env ex s
     = Some (Er (rtAbort (ctx s') (expr_pos ex) AbortScript "step limit exceeded"), s'))
  /\ (exists s', vm_execStmt (vm_at (S n)) env exp st s
     = Some (Er (rtAbort (ctx s') (stmt_pos st) AbortScript "step limit exceeded"), s')).
Proof.
  intros H1 H2. split.
  - destruct (tick_exhausted (expr_pos ex) s H1 H2) as [s' Hs]. exists s'.
    simpl. unfold eval, bind. by rewrite Hs.
  - destruct (tick_exhausted (stmt_pos st) s H1 H2) as [s' Hs]. exists s'.
    simpl. unfold execStmt, bind. by rewrite Hs.
Qed.
End aborts.
