(* ===== verification/EnvFacts.v ===== *)
(** * Name lookup and assignment; the order of switch clauses *)
From stdpp Require Import base list strings gmap.
From Stdlib Require Import Ascii ZArith Lia.
From S2P Require Import Prelude GoStd GoFloat Token Ast Parser Scope Value Vm VmFacts VmSound.

Set Warnings "-register-all".
Open Scope nat_scope.
Open Scope list_scope.

(** ** Lookup *)

(** The reference for [Get] and [Set]: the walk up the chain of environments
    to the first one that binds the name, with no bound on its length. *)
Inductive resolves (h : heap) (x : string) : option nat -> option (nat * Binding) -> Prop :=
  | res_end : resolves h x None None
  | res_here l e b : h !! l = Some e -> vars e !! x = Some b -> resolves h x (Some l) (Some (l, b))
  | res_up l e r : h !! l = Some e -> vars e !! x = None -> resolves h x (up e) r ->
                   resolves h x (Some l) r.

Definition below (cur : option nat) (n : nat) : Prop := match cur with Some l => l < n | None => True end.

Lemma env_find_resolves h x n cur :
  heap_ok h -> below cur n -> n <= length h -> resolves h x cur (env_find n h cur x).
Proof.
  intros Hh. revert cur. induction n as [|n IH]; intros [l|] Hb Hn; simpl in *; try lia; try constructor.
  destruct (lookup_lt_is_Some_2 h l ltac:(lia)) as [e He]. rewrite He.
  destruct (vars e !! x) as [b|] eqn:Ex; [by eapply res_here|].
  eapply res_up; [done..|]. apply IH; [|lia]. destruct (up e) as [u|] eqn:Eu; [|done].
  destruct (Hh l e He) as [Hu _]. specialize (Hu u Eu). simpl. lia.
Qed.

(** More rounds than the chain is long change nothing. *)
Lemma env_find_more h x cur r n :
  resolves h x cur r -> heap_ok h -> below cur n -> env_find n h cur x = r.
Proof.
  intros Hr Hh. revert n. induction Hr as [|l e b He Hx|l e r He Hx Hr IH]; intros n Hb.
  - by destruct n.
  - simpl in Hb. destruct n; [lia|]. simpl. by rewrite He, Hx.
  - simpl in Hb. destruct n; [lia|]. simpl. rewrite He, Hx. apply IH.
    destruct (Hh l e He) as [Hu _]. destruct (up e) as [u|] eqn:Eu; [|done]. specialize (Hu u eq_refl). simpl. lia.
Qed.

Lemma env_find_full h x l :
  heap_ok h -> l < length h -> resolves h x (Some l) (env_find (S (length h)) h (Some l) x).
Proof.
  intros Hh Hl. pose proof (env_find_resolves h x (length h) (Some l) Hh Hl ltac:(lia)) as Hr.
  rewrite (env_find_more _ _ _ _ (S (length h)) Hr Hh); [done|]. simpl. lia.
Qed.

(** Names resolve to the innermost binding: in a well-formed heap, [Get] returns
    the value, and [Set] finds the binding, that the unbounded walk up the chain
    of environments comes to; [Set] reports a constant and leaves it alone. *)
Theorem names_resolve_innermost h l x v :
  heap_ok h -> l < length h ->
  exists r, resolves h x (Some l) r
    /\ env_Get l x h = (b_val ∘ snd <$> r)
    /\ env_Set l x v h = match r with
                         | None => (false, false, h)
                         | Some (cur, b) => if b_const b then (true, true, h)
                                            else (true, false, DefWith cur x v false h)
                         end.
Proof.
  intros Hh Hl. eexists. split; [by apply env_find_full|]. split; [done|].
  unfold env_Set. destruct (env_find _ _ _ _) as [[cur b]|]; [|done]. by destruct (b_const b).
Qed.

Lemma resolves_found h x cur l b :
  resolves h x cur (Some (l, b)) -> exists e, h !! l = Some e /\ vars e !! x = Some b.
Proof.
  remember (Some (l, b)) as r eqn:Er. intros Hr.
  induction Hr as [|l' e b' He Hx|l' e r He Hx Hr IH]; subst; [done| |by apply IH].
  injection Er as -> ->. eauto.
Qed.

Lemma resolves_DefWith h cur b x v c l0 :
  resolves h x l0 (Some (cur, b)) -> resolves (DefWith cur x v c h) x l0 (Some (cur, mkBinding v c)).
Proof.
  remember (Some (cur, b)) as r eqn:Er. intros Hr. revert cur b Er.
  induction Hr as [|l e b' He Hx|l e r He Hx Hr IH]; intros cur b Er; subst; try done.
  - injection Er as -> ->. eapply res_here.
    + unfold DefWith. rewrite list_lookup_alter_eq, He. done.
    + simpl. apply lookup_insert_eq.
  - destruct (decide (l = cur)) as [->|Hne].
    + apply resolves_found in Hr as (e' & He' & Hx'). congruence.
    + eapply res_up; [unfold DefWith; rewrite list_lookup_alter_ne by done; exact He|done|by eapply IH].
Qed.

Lemma resolves_DefWith_ne h cur x y v c l0 r :
  x <> y -> resolves h y l0 r ->
  resolves (DefWith cur x v c h) y l0 r.
Proof.
  intros Hne Hr. induction Hr as [|l e b He Hx|l e r He Hx Hr IH]; [constructor| |].
  - destruct (decide (l = cur)) as [->|?].
    + eapply res_here; [unfold DefWith; rewrite list_lookup_alter_eq, He; done|].
      simpl. by rewrite lookup_insert_ne.
    + eapply res_here; [unfold DefWith; by rewrite list_lookup_alter_ne|done].
  - destruct (decide (l = cur)) as [->|?].
    + eapply res_up; [unfold DefWith; rewrite list_lookup_alter_eq, He; done| |exact IH].
      simpl. by rewrite lookup_insert_ne.
    + eapply res_up; [unfold DefWith; by rewrite list_lookup_alter_ne|done|done].
Qed.

Lemma heap_ok_DefWith h cur x v c : heap_ok h -> val_ok (length h) v -> heap_ok (DefWith cur x v c h).
Proof.
  intros Hh Hv. set (s := mkSt (mkCtx (mkLimits 0 0 0 0 0 0) (fun _ => 0%Z) (fun _ => None) 0 0 []) h ∅).
  apply (st_ok_def s cur x v c); [|done]. split; [done|]. intros y w Hy. by destruct (lookup_empty_Some y w Hy).
Qed.

(** An assignment is seen by every lookup it concerns and by no other: after a
    successful [Set], [Get] returns the new value at the same place, and names
    other than the one assigned keep their values everywhere. *)
Theorem assignment_updates_lookup h l x v h' :
  heap_ok h -> l < length h -> val_ok (length h) v -> env_Set l x v h = (true, false, h') ->
  env_Get l x h' = Some v
  /\ forall l' y, l' < length h -> y <> x -> env_Get l' y h' = env_Get l' y h.
Proof.
  intros Hh Hl Hv. unfold env_Set. pose proof (env_find_full h x l Hh Hl) as Hr.
  destruct (env_find _ _ _ _) as [[cur b]|]; [|done]. destruct (b_const b) eqn:Ec; [done|]. intros [= <-].
  assert (Hlen : length (DefWith cur x v false h) = length h) by apply length_alter.
  pose proof (heap_ok_DefWith h cur x v false Hh Hv) as Hh'. unfold env_Get. rewrite !Hlen. split.
  - rewrite (env_find_more _ _ _ _ _ (resolves_DefWith _ _ _ _ v false _ Hr) Hh'); [done|]. simpl. lia.
  - intros l' y Hl' Hne. pose proof (env_find_full h y l' Hh Hl') as Hy.
    rewrite (env_find_more _ _ _ _ _ (resolves_DefWith_ne _ cur x _ v false _ _ (not_eq_sym Hne) Hy) Hh'); [done|].
    simpl. lia.
Qed.

(** ** The default clause *)

Section switch.
Context `{HH : Host} `{NN : Natives}.
Variable vm : VM.

(** Two computations that agree in every state. *)
Definition same {A} (m1 m2 : M A) : Prop := forall s, m1 s = m2 s.

Lemma same_bind {A B} (m : M A) (f g : A -> M B) :
  (forall a, same (f a) (g a)) -> same (bind m f) (bind m g).
Proof. intros Hfg s. unfold bind. destruct (m s) as [[[a|e] s']|]; [apply Hfg|done|done]. Qed.

(** A default clause that has been seen may as well stand at the end. *)
Lemma execClauses_default up exp label tag p b def cls :
  forallb (fun c => negb (is_default c)) cls = true ->
  same (execClauses vm up exp label tag (Some b) cls)
       (execClauses vm up exp label tag def (cls ++ [mkClause p [] b])).
Proof.
  induction cls as [|[q es bd] cls IH]; intros Hd s; [done|].
  simpl in Hd. apply andb_true_iff in Hd as [Hne Hd]. destruct es as [|e es]; [done|].
  simpl. apply (same_bind (matchCase vm up tag (e :: es))). intros m s'. destruct m; [done|]. by apply IH.
Qed.

(** Where the default clause of a switch stands does not matter: it may be
    moved to the end, past any number of cases, and the switch behaves the same
    in every state, for every tag. *)
Theorem default_position_irrelevant up exp label tag cls1 p b cls2 :
  forallb (fun c => negb (is_default c)) (cls1 ++ cls2) = true ->
  same (execSwitch vm up exp label tag (cls1 ++ mkClause p [] b :: cls2))
       (execSwitch vm up exp label tag (cls1 ++ cls2 ++ [mkClause p [] b])).
Proof.
  intros Hd. apply same_bind. intros t. revert Hd. generalize (None (A:=Block)) as def.
  induction cls1 as [|[q es bd] cls1 IH]; intros def Hd s; simpl in Hd.
  - by apply execClauses_default.
  - apply andb_true_iff in Hd as [Hne Hd]. destruct es as [|e es]; [done|].
    simpl. apply (same_bind (matchCase vm up t (e :: es))). intros m s'. destruct m; [done|]. by apply IH.
Qed.
End switch.
