(* ===== verification/VmMono.v ===== *)
(** * Fuel does not matter

    A run that returns with [n] levels of recursion returns the same with more:
    the outcome of a script is a property of the script, not of the bound. *)
From stdpp Require Import base list strings gmap.
From Stdlib Require Import Ascii ZArith Lia.
From S2P Require Import Prelude GoStd GoFloat Token Ast Parser Value Vm Args Stdlib Module Engine.

Set Warnings "-register-all".
Open Scope nat_scope.
Open Scope list_scope.
Open Scope vm_scope.
Open Scope sys_scope.

(** [m'] returns whatever [m] returns. *)
Definition le {A} (m m' : M A) : Prop := forall s r, m s = Some r -> m' s = Some r.

Lemma le_refl {A} (m : M A) : le m m.
Proof. by intros s r. Qed.

Lemma le_bind {A B} (m m' : M A) (f f' : A -> M B) :
  le m m' -> (forall a, le (f a) (f' a)) -> le (bind m f) (bind m' f').
Proof.
  intros Hm Hf s r. unfold bind. destruct (m s) as [[[a|e] s']|] eqn:E; [| |done];
    rewrite (Hm _ _ E); [apply Hf|done].
Qed.

Lemma le_catch {A} (m m' : M A) : le m m' -> le (catch m) (catch m').
Proof.
  intros Hm s r. unfold catch. destruct (m s) as [[x s']|] eqn:E; [|done]. by rewrite (Hm _ _ E).
Qed.

Lemma le_mapM {A B} (f f' : A -> M B) l : (forall x, le (f x) (f' x)) -> le (mapM f l) (mapM f' l).
Proof.
  intros Hf. induction l as [|x l IH]; simpl; [apply le_refl|].
  apply le_bind; [done|]. intros y. apply le_bind; [done|]. intros. apply le_refl.
Qed.

Lemma le_forM {A} (f f' : A -> M unit) l : (forall x, le (f x) (f' x)) -> le (forM f l) (forM f' l).
Proof. intros Hf. induction l as [|x l IH]; simpl; [apply le_refl|]. by apply le_bind. Qed.

Lemma le_out_of_fuel {A} (m : M A) : le out_of_fuel m.
Proof. by intros s r. Qed.

#[export] Hint Resolve le_refl le_out_of_fuel : rts.

(** Goes through a method, to the calls it makes. *)
Ltac mono :=
  lazymatch goal with
  | |- le (bind _ _) (bind _ _) => apply le_bind; [mono|intros; mono]
  | |- le (catch _) (catch _) => apply le_catch; mono
  | |- le (mapM _ _) (mapM _ _) => apply le_mapM; intros; mono
  | |- le (forM _ _) (forM _ _) => apply le_forM; intros; mono
  | |- le (match ?x with _ => _ end) _ => destruct x; mono
  | |- le (deferred _ _) (deferred _ _) => unfold deferred; mono
  | |- _ => eauto with rts
  end.

(** What is asked of native functions. *)
Class NativesMono `{Natives} :=
  native_mono call call' nf p args :
    (forall p v a, le (call p v a) (call' p v a)) -> le (native_call call nf p args) (native_call call' nf p args).

Record vm_le (v v' : VM) : Prop := {
  le_eval env e : le (vm_eval v env e) (vm_eval v' env e);
  le_stmt env exp st : le (vm_execStmt v env exp st) (vm_execStmt v' env exp st);
  le_for env exp p l c q b : le (vm_forLoop v env exp p l c q b) (vm_forLoop v' env exp p l c q b);
  le_call p c a : le (vm_callVal v p c a) (vm_callVal v' p c a)
}.

Section methods.
Context `{HH : Host} `{NN : Natives} `{!NativesMono}.
Context (v v' : VM).
Hypothesis He : forall env e, le (vm_eval v env e) (vm_eval v' env e).
Hypothesis Hs : forall env exp st, le (vm_execStmt v env exp st) (vm_execStmt v' env exp st).
Hypothesis Hf : forall env exp p l c q b,
  le (vm_forLoop v env exp p l c q b) (vm_forLoop v' env exp p l c q b).
Hypothesis Hc : forall p c a, le (vm_callVal v p c a) (vm_callVal v' p c a).

Lemma execBlock_le env exp b : le (execBlock v env exp b) (execBlock v' env exp b).
Proof. unfold execBlock. mono. Qed.
#[local] Hint Resolve execBlock_le : rts.

Lemma execBlockOpt_le env exp b : le (execBlockOpt v env exp b) (execBlockOpt v' env exp b).
Proof. unfold execBlockOpt. mono. Qed.
#[local] Hint Resolve execBlockOpt_le : rts.

Lemma callVal_le p c a : le (callVal v p c a) (callVal v' p c a).
Proof.
  unfold callVal, callFn. mono.
Qed.
#[local] Hint Resolve callVal_le : rts.

Lemma evalOpt_le env e : le (evalOpt v env e) (evalOpt v' env e).
Proof. unfold evalOpt. mono. Qed.
#[local] Hint Resolve evalOpt_le : rts.

Lemma execElifs_le env exp l b : le (execElifs v env exp l b) (execElifs v' env exp l b).
Proof. induction l as [|[c bl] l IH]; simpl; mono. Qed.
#[local] Hint Resolve execElifs_le : rts.

Lemma matchCase_le env t es : le (matchCase v env t es) (matchCase v' env t es).
Proof. induction es as [|e es IH]; simpl; mono. Qed.
#[local] Hint Resolve matchCase_le : rts.

Lemma execClause_le env exp l b : le (execClause v env exp l b) (execClause v' env exp l b).
Proof. unfold execClause. mono. Qed.
#[local] Hint Resolve execClause_le : rts.

Lemma execClauses_le env exp l t d cls :
  le (execClauses v env exp l t d cls) (execClauses v' env exp l t d cls).
Proof. revert d. induction cls as [|[p [|e es] b] cls IH]; intros d; simpl; mono. Qed.
#[local] Hint Resolve execClauses_le : rts.

Lemma execLoopBlock_le env exp l b : le (execLoopBlock v env exp l b) (execLoopBlock v' env exp l b).
Proof. unfold execLoopBlock. mono. Qed.
#[local] Hint Resolve execLoopBlock_le : rts.

Lemma execOpt_le env exp s : le (execOpt v env exp s) (execOpt v' env exp s).
Proof. unfold execOpt. mono. Qed.
#[local] Hint Resolve execOpt_le : rts.

Lemma rangeOver_le env exp p l r b items : le (rangeOver v env exp p l r b items) (rangeOver v' env exp p l r b items).
Proof. induction items as [|[k x] items IH]; simpl; [apply le_refl|]. unfold execRangeStep. mono. Qed.
#[local] Hint Resolve rangeOver_le : rts.

Lemma execFor_le env exp p l i c q r b : le (execFor v env exp p l i c q r b) (execFor v' env exp p l i c q r b).
Proof. unfold execFor, execRange. mono. Qed.
#[local] Hint Resolve execFor_le : rts.

Lemma evalEntry_le env it : le (evalEntry v env it) (evalEntry v' env it).
Proof. unfold evalEntry. mono. Qed.
#[local] Hint Resolve evalEntry_le : rts.

Lemma methods_le : vm_le (mkVM (eval v) (execStmt v) (forLoop v) (callVal v))
                         (mkVM (eval v') (execStmt v') (forLoop v') (callVal v')).
Proof.
  split; intros; simpl; [| | |apply callVal_le].
  - unfold eval, evalBin. mono.
  - unfold execStmt, execLet, execFnDef, execSwitch. mono.
  - unfold forLoop. mono.
Qed.
End methods.

Section fuel.
Context `{HH : Host} `{NN : Natives} `{!NativesMono}.

Lemma vm_at_le n m : n <= m -> vm_le (vm_at n) (vm_at m).
Proof.
  revert m. induction n as [|n IH]; intros m Hm; [split; intros; apply le_out_of_fuel|].
  destruct m as [|m]; [lia|]. destruct (IH m ltac:(lia)). by apply methods_le.
Qed.

Lemma Exec_le n m md pre : n <= m -> le (Exec n md pre) (Exec m md pre).
Proof. intros Hm. pose proof (le_stmt _ _ (vm_at_le n m Hm)). unfold Exec. mono. Qed.
End fuel.

(** ** The standard library *)

Section std.
Context `{HH : Host}.

Lemma mapLoop_le call call' p fn out items :
  (forall p v a, le (call p v a) (call' p v a)) -> le (mapLoop call p fn out items) (mapLoop call' p fn out items).
Proof. intros Hc. revert out. induction items as [|x items IH]; intros out; simpl; mono. Qed.

Lemma filterLoop_le call call' p fn out items :
  (forall p v a, le (call p v a) (call' p v a)) ->
  le (filterLoop call p fn out items) (filterLoop call' p fn out items).
Proof. intros Hc. revert out. induction items as [|x items IH]; intros out; simpl; mono. Qed.

Lemma searchLoop_le call call' w p fn items :
  (forall p v a, le (call p v a) (call' p v a)) ->
  le (searchLoop call w p fn items) (searchLoop call' w p fn items).
Proof. intros Hc. induction items as [|x items IH]; simpl; mono. Qed.

#[local] Hint Resolve mapLoop_le filterLoop_le searchLoop_le : rts.

Definition fn_mono (f : NativeFunc) : Prop :=
  forall call call' p args, (forall p v a, le (call p v a) (call' p v a)) -> le (f call p args) (f call' p args).

Lemma list_mono : Forall (fun f => fn_mono f.2) listSpec.
Proof.
  unfold listSpec. rewrite !Forall_cons, Forall_nil. split_and!; try done; intros call call' p args Hc; simpl;
    first [apply le_refl | unfold listMap, listFilter, listAny, listAll; mono].
Qed.

Lemma pure_mono (l : list (string * NativeFunc)) :
  Forall (fun f => forall c c' p a, f.2 c p a = f.2 c' p a) l -> Forall (fun f => fn_mono f.2) l.
Proof.
  intros Hl. eapply Forall_impl; [exact Hl|]. intros f Hf call call' p args _. rewrite (Hf call call'). apply le_refl.
Qed.

Lemma stdFn_mono name : fn_mono (stdFn name).
Proof.
  unfold stdFn. destruct (table !! name) as [f|] eqn:E; [|intros call call' p args _; apply le_refl].
  apply elem_of_list_to_map_2 in E.
  assert (Hall : Forall (fun f => fn_mono f.2) (coreSpec
      ++ map (fun p => (qualify "list" p.1, p.2)) listSpec
      ++ map (fun p => (qualify "dict" p.1, p.2)) dictSpec
      ++ map (fun p => (qualify "math" p.1, p.2)) mathSpec)).
  { rewrite !Forall_app, !Forall_map. split_and!; [| apply list_mono| |]; apply pure_mono;
      unfold coreSpec, dictSpec, mathSpec; rewrite !Forall_cons, Forall_nil; by split_and!. }
  exact (proj1 (Forall_forall _ _) Hall (name, f) E).
Qed.

#[export] Instance std_natives_mono : NativesMono.
Proof.
  intros call call' [name|id] p args Hc; [|apply le_refl].
  unfold native_call, std_natives, NativeNamed. mono. by apply stdFn_mono.
Qed.
End std.

(** ** The engine *)

Section engine.
Context `{World} `{HH : Host}.

Definition ele {A} (m m' : E A) : Prop := forall y r, m y = Some r -> m' y = Some r.

Lemma ele_refl {A} (m : E A) : ele m m.
Proof. by intros y r. Qed.

Lemma ele_bind {A B} (m m' : E A) (f f' : A -> E B) :
  ele m m' -> (forall a, ele (f a) (f' a)) -> ele (ebind m f) (ebind m' f').
Proof.
  intros Hm Hf y r. unfold ebind. destruct (m y) as [[[a|e] y']|] eqn:E; [| |done];
    rewrite (Hm _ _ E); [apply Hf|done].
Qed.

Lemma ele_onVm {A} (m m' : M A) : le m m' -> ele (onVm m) (onVm m').
Proof. intros Hm y r. unfold onVm. destruct (m (st y)) as [[x s']|] eqn:E; [|done]. by rewrite (Hm _ _ E). Qed.

Lemma ele_inClone {A} (m m' : M A) : le m m' -> ele (inClone m) (inClone m').
Proof. intros Hm y r. unfold inClone. destruct (m _) as [[x s']|] eqn:E; [|done]. by rewrite (Hm _ _ E). Qed.

Lemma Exec_std_le n m md pre : n <= m -> le (Exec n md pre) (Exec m md pre).
Proof. apply Exec_le. Qed.

#[local] Hint Resolve ele_refl ele_onVm ele_inClone Exec_std_le : rts.

(** Goes through an operation of the engine, to the runs it starts. *)
Ltac emono :=
  lazymatch goal with
  | |- ele (ebind _ _) (ebind _ _) => apply ele_bind; [emono|intros; emono]
  | |- ele (match ?x with _ => _ end) _ => destruct x; emono
  | |- _ => eauto with rts
  end.

Lemma Load_ele n m std base path : n <= m -> ele (Load n std base path) (Load m std base path).
Proof. intros Hm. unfold Load, compile. emono. Qed.

Lemma loadUses_ele n m std base uses p : n <= m -> ele (loadUses n std base uses p) (loadUses m std base uses p).
Proof.
  intros Hm. revert p. induction uses as [|u uses IH]; intros p; cbn [loadUses]; [apply ele_refl|].
  apply ele_bind; [by apply Load_ele|]. intros r. apply IH.
Qed.

#[local] Hint Resolve loadUses_ele : rts.

Lemma buildPre_ele n m e cfg pos : n <= m -> ele (buildPre n e cfg pos) (buildPre m e cfg pos).
Proof. intros Hm. unfold buildPre, addUses. emono. Qed.

#[local] Hint Resolve buildPre_ele : rts.

Lemma execIn_le n m pre src site pos : n <= m -> le (execIn n pre src site pos) (execIn m pre src site pos).
Proof. intros Hm. pose proof (Exec_le n m) as He. unfold execIn, atSite. mono. Qed.

#[local] Hint Resolve execIn_le : rts.

Lemma ExecModule_ele n m e cfg src pos : n <= m -> ele (ExecModule n e cfg src pos) (ExecModule m e cfg src pos).
Proof. intros Hm. unfold ExecModule. emono. Qed.

(** The outcome of a run does not depend on the fuel: if two bounds on the
    recursion both let a script come to an end, it ends in the same result and
    the same state of the engine. *)
Theorem fuel_irrelevant n m e cfg src pos y r1 r2 :
  ExecModule n e cfg src pos y = Some r1 -> ExecModule m e cfg src pos y = Some r2 -> r1 = r2.
Proof.
  intros H1 H2. destruct (decide (n <= m)) as [Hd|Hd].
  - apply (ExecModule_ele _ _ _ _ _ _ Hd) in H1. congruence.
  - apply (ExecModule_ele m n _ _ _ _ ltac:(lia)) in H2. congruence.
Qed.
End engine.
