(* ===== verification/StdFacts.v ===== *)
(** * Laws of the [list] and [dict] functions *)
From stdpp Require Import base list strings gmap sorting.
From Stdlib Require Import Ascii ZArith Lia.
From S2P Require Import Prelude GoStd GoFloat Token Ast Value Vm VmFacts VmSound Args Stdlib.

Set Warnings "-register-all".
Open Scope string_scope.
Open Scope nat_scope.
Open Scope list_scope.
Open Scope vm_scope.

(** ** Inverting a computation *)

Lemma bind_ok {A B} (m : M A) (f : A -> M B) s b s' :
  bind m f s = Some (Ok b, s') -> exists a s1, m s = Some (Ok a, s1) /\ f a s1 = Some (Ok b, s').
Proof. unfold bind. destruct (m s) as [[[a|e] s1]|]; [eauto|done|done]. Qed.

Lemma bind_ext {A B} (m : M A) (f g : A -> M B) s :
  (forall a s', m s = Some (Ok a, s') -> f a s' = g a s') -> bind m f s = bind m g s.
Proof. intros Hfg. unfold bind. destruct (m s) as [[[a|e] s1]|]; auto. Qed.

Lemma bind_ok_l {A B} (a : A) (f : A -> M B) s : bind (ok a) f s = f a s.
Proof. done. Qed.

Lemma bind_assoc {A B C} (m : M A) (f : A -> M B) (g : B -> M C) s :
  bind (bind m f) g s = bind m (fun a => bind (f a) g) s.
Proof. unfold bind. by destruct (m s) as [[[a|e] s1]|]. Qed.

Lemma mapM_ok {A B} (f : A -> M B) (P : A -> B -> Prop) l s ys s' :
  (forall x s y s', f x s = Some (Ok y, s') -> P x y) ->
  mapM f l s = Some (Ok ys, s') -> Forall2 P l ys.
Proof.
  intros Hf. revert s ys s'. induction l as [|x l IH]; intros s ys s'; simpl.
  - intros [= <- _]. constructor.
  - intros (y & s1 & Hy & (ys' & s2 & Hys & [= <- _])%bind_ok)%bind_ok. constructor; eauto.
Qed.

Lemma raise_not_ok {A} p msg s (a : A) s' : raise p msg s <> Some (Ok a, s').
Proof. done. Qed.

(** A check leaves the state as it is. *)
Lemma check_ok {A} (b : bool) p msg (m : M A) s r :
  ((if b then raise p msg else ok tt) >> m) s = Some (Ok r.1, r.2) -> b = false /\ m s = Some (Ok r.1, r.2).
Proof. by destruct b. Qed.

Lemma CheckList_ok {A} p n (m : M A) s a s' :
  (CheckList p n >> m) s = Some (Ok a, s') ->
  over (MaxList (Lim (ctx s))) (Z.of_nat n) = false /\ m s = Some (Ok a, s').
Proof. unfold CheckList. intros H. by apply (check_ok _ _ _ _ s (a, s')) in H. Qed.

Lemma CheckDict_ok {A} p n (m : M A) s a s' :
  (CheckDict p n >> m) s = Some (Ok a, s') ->
  over (MaxDict (Lim (ctx s))) (Z.of_nat n) = false /\ m s = Some (Ok a, s').
Proof. unfold CheckDict. intros H. by apply (check_ok _ _ _ _ s (a, s')) in H. Qed.

Lemma CheckList_pass {A} p n (m : M A) s :
  over (MaxList (Lim (ctx s))) (Z.of_nat n) = false -> (CheckList p n >> m) s = m s.
Proof. intros H. unfold CheckList, bind, getCtx. by rewrite H. Qed.

Lemma tick_Lim p s r s' : tick p s = Some (r, s') -> Lim (ctx s') = Lim (ctx s).
Proof. unfold tick. repeat case_match; by intros [= _ <-]. Qed.

(** ** [list.slice] *)

(** The window of [list.slice].  Whatever the start and the end, the bounds
    that are used satisfy [0 <= a <= b <= len]; an index in range counts from
    the front, a negative one from the back; and the result consists of exactly
    the elements at [a], ..., [b - 1]. *)
Theorem slice_window (l : list Value) (st en : Z) :
  let n := Z.of_nat (length l) in
  exists a b, sliceIdx n st en = (a, b)
    /\ (0 <= a <= b)%Z /\ (b <= n)%Z
    /\ ((0 <= st <= n)%Z -> a = st) /\ ((- n <= st < 0)%Z -> a = (n + st)%Z)
    /\ ((a <= en <= n)%Z -> b = en) /\ ((- n <= en < 0)%Z -> b = Z.max a (n + en))
    /\ length (subslice l a b) = Z.to_nat (b - a)
    /\ forall i, (Z.of_nat i < b - a)%Z -> subslice l a b !! i = l !! (Z.to_nat a + i).
Proof.
  intros n. eexists _, _. split; [done|]. unfold subslice.
  assert (Hc : forall i, (0 <= clampIdx n i <= n)%Z).
  { intros i. unfold clampIdx. repeat case_match; lia. }
  assert (Hin : forall i, (0 <= i <= n)%Z -> clampIdx n i = i).
  { intros i Hi. unfold clampIdx. repeat case_match; lia. }
  assert (Hneg : forall i, (- n <= i < 0)%Z -> clampIdx n i = (n + i)%Z).
  { intros i Hi. unfold clampIdx. repeat case_match; lia. }
  pose proof (Hc st). pose proof (Hc en).
  split_and!; try lia; auto.
  - intros He. rewrite (Hin en); lia.
  - intros He. rewrite (Hneg en); lia.
  - rewrite length_take, length_drop. lia.
  - intros i Hi. rewrite lookup_take_lt by lia. by rewrite lookup_drop.
Qed.

Section list_facts.
Context `{HH : Host}.

(** ** [list.unique] *)

(** The key by which [list.unique] tells values apart. *)
Definition keyOf (v : Value) : option string :=
  match v with
  | VNull => Some "n:null"
  | VBool b => Some (if b then "b:true" else "b:false")
  | VNum n => if IsNaN n || IsInf n then None else Some ("f:" +:+ FormatG n)
  | VStr s => Some ("s:" +:+ s)
  | _ => None
  end.

Lemma keyVal_ok a v s k s' : keyVal a v s = Some (Ok k, s') -> keyOf v = Some k /\ s' = s.
Proof.
  destruct v; simpl; try done; try by intros [= <- <-].
  destruct (IsNaN n || IsInf n); [done|]. by intros [= <- <-].
Qed.

Lemma uniqueLoop_ok a seen out items s r s' :
  uniqueLoop a seen out items s = Some (Ok r, s') ->
  exists new ks, r = VList (out ++ new) /\ Forall2 (fun v k => keyOf v = Some k) new ks
    /\ sublist new items /\ NoDup ks /\ (forall k, k ∈ ks -> k ∉ seen)
    /\ Forall (fun it => exists k, keyOf it = Some k /\ (k ∈ seen \/ k ∈ ks)) items.
Proof.
  revert seen out s. induction items as [|it items IH]; intros seen out s; simpl.
  { intros [= <- _]. exists [], []. rewrite app_nil_r. split_and!; auto using NoDup_nil_2. by intros k ?%elem_of_nil. }
  intros (_ & s1 & _ & (k & s2 & [Hk ->]%keyVal_ok & Hr)%bind_ok)%bind_ok. case_bool_decide as Hin.
  - apply IH in Hr as (new & ks & -> & H2 & Hsub & Hnd & Hfr & Hall). exists new, ks.
    split_and!; try done; [by constructor|]. constructor; eauto.
  - apply CheckList_ok in Hr as [_ Hr].
    apply IH in Hr as (new & ks & -> & H2 & Hsub & Hnd & Hfr & Hall). exists (it :: new), (k :: ks).
    rewrite <- app_assoc. split_and!; [done|by constructor|by constructor| | |].
    + constructor; [|done]. intros Hki. apply (Hfr k Hki). set_solver.
    + intros k' [->|Hk']%elem_of_cons; [done|]. specialize (Hfr k' Hk'). set_solver.
    + constructor; [exists k; split; [done|right; left]|].
      eapply Forall_impl; [exact Hall|]. intros x (k' & Hx & Hor). exists k'. split; [done|]. set_solver.
Qed.

(** [list.unique] keeps one of each: its result is a sublist of the input, in
    order, no two of its elements have the same key, and every element of the
    input has the key of one that is kept. *)
Theorem unique_spec call p l s r s' :
  listUnique call p [VList l] s = Some (Ok r, s') ->
  exists out ks, r = VList out /\ sublist out l /\ Forall2 (fun v k => keyOf v = Some k) out ks
    /\ NoDup ks /\ Forall (fun it => exists k, keyOf it = Some k /\ k ∈ ks) l.
Proof.
  intros (_ & s0 & [= _ <-] & (items & s1 & Hl & Hr)%bind_ok)%bind_ok.
  unfold ListArg in Hl. apply CheckList_ok in Hl as [_ [= <- <-]].
  apply uniqueLoop_ok in Hr as (new & ks & -> & H2 & Hsub & Hnd & _ & Hall). exists new, ks.
  split_and!; try done. eapply Forall_impl; [exact Hall|]. intros x (k & Hx & Hor). exists k. set_solver.
Qed.

(** ** [list.map] and [list.filter] *)

Definition is_fn (v : Value) : bool := match v with VFunc _ | VNative _ => true | _ => false end.

Lemma over_le limit n m : (n <= m)%Z -> over limit m = false -> over limit n = false.
Proof. unfold over. intros Hle. rewrite !andb_false_iff, !Z.ltb_ge. lia. Qed.

Lemma mapLoop_mapM call p fn out items s :
  (forall p v a s r s', call p v a s = Some (r, s') -> Lim (ctx s') = Lim (ctx s)) ->
  over (MaxList (Lim (ctx s))) (Z.of_nat (length out + length items)) = false ->
  mapLoop call p fn out items s
  = (let* vs := mapM (fun it => tick p >> call p fn [it]) items in ok (VList (out ++ vs))) s.
Proof.
  intros Hc. revert out s. induction items as [|it items IH]; intros out s Hov.
  { simpl. unfold bind, ok. by rewrite app_nil_r. }
  simpl in Hov. simpl. rewrite !bind_assoc. apply bind_ext. intros [] s1 Et%tick_Lim.
  apply bind_ext. intros v s2 Ec%Hc. rewrite bind_assoc.
  assert (Hov2 : over (MaxList (Lim (ctx s2))) (Z.of_nat (length (out ++ [v]) + length items)) = false).
  { rewrite Ec, Et, length_app. simpl. eapply over_le; [|exact Hov]. lia. }
  rewrite CheckList_pass.
  - rewrite IH by exact Hov2. apply bind_ext. intros vs s3 _. unfold bind, ok. by rewrite <- app_assoc.
  - eapply over_le; [|exact Hov2]. rewrite length_app. simpl. lia.
Qed.

(** [list.map] is the plain traversal: it calls the function on the elements in
    order, one step charged for each, and its result has their outcomes in
    order; the size check on the growing result never fires, because the input
    has passed it. *)
Theorem map_is_traversal call p l fn s :
  (forall p v a s r s', call p v a s = Some (r, s') -> Lim (ctx s') = Lim (ctx s)) ->
  is_fn fn = true -> over (MaxList (Lim (ctx s))) (Z.of_nat (length l)) = false ->
  listMap call p [VList l; fn] s
  = (let* vs := mapM (fun it => tick p >> call p fn [it]) l in ok (VList vs)) s.
Proof.
  intros Hc Hfn Hov. transitivity (mapLoop call p fn [] l s); [|by apply (mapLoop_mapM call p fn [] l s)].
  unfold listMap, ListArg, FnArg, CheckFunc. simpl. unfold bind at 1. simpl. unfold bind at 1.
  rewrite CheckList_pass by done. simpl. by destruct fn.
Qed.

(** The elements whose flag is set. *)
Definition selected (l : list Value) (bs : list bool) : list Value := map fst (List.filter snd (zip l bs)).

Lemma filterLoop_mapM call p fn out items s :
  (forall p v a s r s', call p v a s = Some (r, s') -> Lim (ctx s') = Lim (ctx s)) ->
  over (MaxList (Lim (ctx s))) (Z.of_nat (length out + length items)) = false ->
  filterLoop call p fn out items s
  = (let* bs := mapM (fun it => tick p >> let* v := call p fn [it] in ok (IsTruthy v)) items in
     ok (VList (out ++ selected items bs))) s.
Proof.
  intros Hc. revert out s. induction items as [|it items IH]; intros out s Hov.
  { simpl. unfold bind, ok. by rewrite app_nil_r. }
  simpl in Hov. simpl. rewrite !bind_assoc. apply bind_ext. intros [] s1 Et%tick_Lim.
  rewrite bind_assoc. apply bind_ext. intros v s2 Ec%Hc. rewrite bind_ok_l, bind_assoc.
  assert (Hov2 : over (MaxList (Lim (ctx s2))) (Z.of_nat (S (length out) + length items)) = false).
  { rewrite Ec, Et. eapply over_le; [|exact Hov]. lia. }
  destruct (IsTruthy v).
  - rewrite CheckList_pass by (eapply over_le; [|exact Hov2]; lia).
    rewrite IH by (rewrite length_app; simpl; eapply over_le; [|exact Hov2]; lia).
    apply bind_ext. intros bs s3 _. unfold bind, ok, selected. simpl. by rewrite <- app_assoc.
  - rewrite IH by (eapply over_le; [|exact Hov2]; lia). apply bind_ext. intros bs s3 _. done.
Qed.

(** [list.filter] asks the function once about each element, in order, at one
    step each, and its result has exactly the elements it accepted, in order;
    the size check on the growing result never fires. *)
Theorem filter_is_selection call p l fn s :
  (forall p v a s r s', call p v a s = Some (r, s') -> Lim (ctx s') = Lim (ctx s)) ->
  is_fn fn = true -> over (MaxList (Lim (ctx s))) (Z.of_nat (length l)) = false ->
  listFilter call p [VList l; fn] s
  = (let* bs := mapM (fun it => tick p >> let* v := call p fn [it] in ok (IsTruthy v)) l in
     ok (VList (selected l bs))) s.
Proof.
  intros Hc Hfn Hov. transitivity (filterLoop call p fn [] l s); [|by apply (filterLoop_mapM call p fn [] l s)].
  unfold listFilter, ListArg, FnArg, CheckFunc. simpl. unfold bind at 1. simpl. unfold bind at 1.
  rewrite CheckList_pass by done. simpl. by destruct fn.
Qed.
End list_facts.

(** ** Sorted keys *)

Lemma sorted_keys_NoDup {A} (m : gmap string A) : NoDup (sorted_keys m).
Proof. rewrite sorted_keys_perm. apply NoDup_fst_map_to_list. Qed.

#[export] Instance string_le_total : Total string_le.
Proof. intros a b. unfold string_le, str_le. destruct (String.leb_total a b); auto. Qed.

Lemma string_le_alt a b : string_le a b <-> String.le a b.
Proof. unfold string_le, String.le, str_le. by rewrite Is_true_true. Qed.

#[export] Instance string_le_trans : Transitive string_le.
Proof. intros a b c. rewrite !string_le_alt. by transitivity b. Qed.

#[export] Instance string_le_antisymm : AntiSymm (=) string_le.
Proof. intros a b. rewrite !string_le_alt. apply (anti_symm String.le). Qed.

Lemma str_lt_le a b : str_lt a b = false <-> string_le b a.
Proof.
  unfold string_le, str_le, str_lt, String.ltb, String.leb. rewrite (String.compare_antisym b a).
  by destruct (String.compare a b).
Qed.

Lemma sorted_keys_Sorted {A} (m : gmap string A) : Sorted string_le (sorted_keys m).
Proof. apply Sorted_merge_sort. apply _. Qed.

Section dict_facts.
Context `{HH : Host}.

(** [dict.keys], [dict.values] and a [range] loop go over a dictionary in
    ascending key order and miss nothing: the keys are sorted, distinct, and
    exactly those of the dictionary, and the values stand in the order of their
    keys. *)
Theorem dict_order call p m s rk sk rv sv :
  dictKeys call p [VDict m] s = Some (Ok rk, sk) -> dictValues call p [VDict m] s = Some (Ok rv, sv) ->
  exists ks, rk = VList (map VStr ks) /\ rv = VList (map (at_key m) ks)
    /\ rangeItems (VDict m) = Some (map (fun k => (VStr k, at_key m k)) ks)
    /\ Sorted string_le ks /\ NoDup ks /\ (forall k, k ∈ ks <-> is_Some (m !! k)).
Proof.
  assert (Hgo : forall sig f r s', overKeys sig f call p [VDict m] s = Some (Ok r, s') ->
            r = VList (map (f m) (sorted_keys m))).
  { intros sig f r s' (_ & s0 & [= _ <-] & (d & s1 & [= <- <-] & (ks & s2 & Hk & [= <- _])%bind_ok)%bind_ok)%bind_ok. simpl in *. f_equal. f_equal.
    unfold sortedDictKeys in Hk. destruct (size m =? 0) eqn:E.
    - injection Hk as <- _. apply Nat.eqb_eq, map_size_empty_inv in E as ->. done.
    - by apply CheckList_ok in Hk as [_ [= <- _]]. }
  intros ->%Hgo ->%Hgo. exists (sorted_keys m).
  split_and!; [done|done|done|apply sorted_keys_Sorted|apply sorted_keys_NoDup|apply sorted_keys_elem].
Qed.

(** Reading back what was set: after [dict.set(d, k, v)], [dict.get] gives [v]
    for [k] and for any other key what [d] had. *)
Theorem dict_get_set call p m k v x s d s' :
  dictSet call p [VDict m; VStr k; v] s = Some (Ok d, s') ->
  dictGet call p [d; VStr x] s' = Some (Ok (if decide (x = k) then v else default VNull (m !! x)), s').
Proof.
  unfold dictSet. simpl. unfold bind at 1. simpl. unfold bind at 1. simpl.
  intros [_ [= <- <-]]%CheckDict_ok. unfold dictGet. simpl. unfold bind. simpl.
  case_decide as Hx; [subst; by rewrite lookup_insert_eq|by rewrite lookup_insert_ne].
Qed.

(** [dict.merge(a, b)] has the entries of both, and [b] wins; [dict.remove]
    takes one key away and nothing else. *)
Theorem dict_merge_remove call p a b k x s s1 s2 d d' :
  dictMerge call p [VDict a; VDict b] s = Some (Ok d, s1) ->
  dictRemove call p [d; VStr k] s1 = Some (Ok d', s2) ->
  exists m, d = VDict m
    /\ m !! x = match b !! x with Some v => Some v | None => a !! x end
    /\ d' = VDict (delete k m).
Proof.
  unfold dictMerge. simpl. unfold bind at 1. simpl. unfold bind at 1. simpl.
  intros [_ [= <- <-]]%CheckDict_ok. unfold dictRemove. simpl. unfold bind at 1. simpl. unfold bind at 1. simpl.
  intros [_ [= <- _]]%CheckDict_ok. eexists. split_and!; [done| |done].
  rewrite lookup_union. by destruct (b !! x), (a !! x).
Qed.

(** ** [dict.pick] and [dict.omit] *)

Lemma keyList_ok a i s ks s' l :
  Arg a i = VList l -> keyList a i s = Some (Ok ks, s') -> l = map VStr ks.
Proof.
  unfold keyList. intros ->. intros [_ Hk]%CheckList_ok.
  apply (mapM_ok _ (fun v k => v = VStr k)) in Hk.
  - by induction Hk as [|v k l ks -> _ IH]; [|simpl; f_equal].
  - intros v s1 k s2 (_ & s3 & _ & Hw)%bind_ok. unfold KeyOf in Hw. destruct v; try done.
    by injection Hw as <- _.
Qed.

Lemma pickLoop_ok p m out keys s r s' :
  pickLoop p m out keys s = Some (Ok r, s') ->
  forall x, r !! x = if decide (x ∈ keys) then (match m !! x with Some v => Some v | None => out !! x end)
                     else out !! x.
Proof.
  revert out s. induction keys as [|k keys IH]; intros out s; simpl.
  - by intros [= <- _] x.
  - intros (_ & s1 & _ & Hr)%bind_ok x. rewrite (IH _ _ Hr x).
    destruct (decide (x = k)) as [->|Hne].
    + rewrite (decide_True (P := k ∈ k :: keys)) by left.
      destruct (m !! k) eqn:E; case_decide; try done. apply lookup_insert_eq.
    + assert (Heq : (match m !! k with Some v => <[k:=v]> out | None => out end) !! x = out !! x).
      { destruct (m !! k); [by rewrite lookup_insert_ne|done]. }
      rewrite Heq. destruct (decide (x ∈ keys)) as [Hin|Hnin].
      * by rewrite (decide_True (P := x ∈ k :: keys)) by by right.
      * rewrite (decide_False (P := x ∈ k :: keys)); [done|]. set_solver.
Qed.

Lemma omitLoop_ok p out keys s r s' :
  omitLoop p out keys s = Some (Ok r, s') ->
  forall x, r !! x = if decide (x ∈ keys) then None else out !! x.
Proof.
  revert out s. induction keys as [|k keys IH]; intros out s; simpl.
  - by intros [= <- _] x.
  - intros (_ & s1 & _ & Hr)%bind_ok x. rewrite (IH _ _ Hr x).
    destruct (decide (x = k)) as [->|Hne].
    + rewrite (decide_True (P := k ∈ k :: keys)) by left. case_decide; [done|]. apply lookup_delete_eq.
    + rewrite lookup_delete_ne by done. destruct (decide (x ∈ keys)) as [Hin|Hnin].
      * by rewrite (decide_True (P := x ∈ k :: keys)) by by right.
      * rewrite (decide_False (P := x ∈ k :: keys)); [done|]. set_solver.
Qed.

(** [dict.pick] and [dict.omit] split a dictionary: for the same list of keys
    their results have no key in common, together they are the dictionary, and
    what is picked are the keys of the dictionary that the list names, whatever
    the order in which the Go map yields them. *)
Theorem dict_pick_omit_partition call p m ks s s1 s2 s3 a b :
  dictPick call p [VDict m; VList ks] s = Some (Ok (VDict a), s1) ->
  dictOmit call p [VDict m; VList ks] s2 = Some (Ok (VDict b), s3) ->
  a ##ₘ b /\ a ∪ b = m /\ forall x, is_Some (a !! x) <-> is_Some (m !! x) /\ VStr x ∈ ks.
Proof.
  assert (HinS : forall l x, VStr x ∈ map VStr l <-> x ∈ l).
  { intros l x. rewrite list_elem_of_fmap. split; [|eauto]. by intros (y & [= ->] & ?). }
  assert (Hset : forall l x, x ∈ elements (setOfStrings l) <-> x ∈ l).
  { intros l x. unfold setOfStrings. by rewrite elem_of_elements, elem_of_list_to_set. }
  intros (_ & ? & [= _ <-] & (d & ? & [= <- <-] & (ka & sa & Hka & Ha)%bind_ok)%bind_ok)%bind_ok
         (_ & ? & [= _ <-] & (d' & ? & [= <- <-] & (kb & sb & Hkb & Hb)%bind_ok)%bind_ok)%bind_ok.
  apply (keyList_ok _ _ _ _ _ ks) in Hka; [|done]. apply (keyList_ok _ _ _ _ _ ks) in Hkb; [|done]. subst ks. simpl in *.
  assert (Hinj : forall l l', map VStr l = map VStr l' -> l = l').
  { induction l as [|x l IH]; intros [|y l']; simpl; try done. intros [= -> ?%IH]. by f_equal. }
  apply Hinj in Hkb as <-.
  assert (Hla : forall x, a !! x = if decide (x ∈ ka) then m !! x else None).
  { destruct (_ || _) eqn:E in Ha.
    - injection Ha as <- _. intros x. apply orb_true_iff in E as [E%Nat.eqb_eq|E%Nat.eqb_eq].
      + by destruct ka; [rewrite decide_False by by apply not_elem_of_nil|].
      + apply map_size_empty_inv in E as ->. by case_decide.
    - apply bind_ok in Ha as (r & sr & Hr & [_ [= <- _]]%CheckDict_ok). intros x.
      rewrite (pickLoop_ok _ _ _ _ _ _ _ Hr x), lookup_empty.
      rewrite (decide_ext _ _ _ _ (Hset ka x)). case_decide; [by destruct (m !! x)|done]. }
  assert (Hlb : forall x, b !! x = if decide (x ∈ ka) then None else m !! x).
  { destruct (_ || _) eqn:E in Hb.
    - injection Hb as <- _. intros x. apply orb_true_iff in E as [E%Nat.eqb_eq|E%Nat.eqb_eq].
      + by destruct ka; [rewrite decide_False by by apply not_elem_of_nil|].
      + apply map_size_empty_inv in E as ->. by case_decide.
    - apply bind_ok in Hb as (r & sr & Hr & [_ [= <- _]]%CheckDict_ok). intros x.
      rewrite (omitLoop_ok _ _ _ _ _ _ Hr x).
      by rewrite (decide_ext _ _ _ _ (Hset ka x)). }
  split_and!.
  - apply map_disjoint_spec. intros x v w. rewrite Hla, Hlb. by case_decide.
  - apply map_eq. intros x. rewrite lookup_union, Hla, Hlb. case_decide; by destruct (m !! x).
  - intros x. rewrite Hla, HinS. case_decide; [|split; [by intros []|by intros []]].
    split; [done|by intros []].
Qed.
End dict_facts.

(** ** [list.sort] *)

(** What the code relies on from [sort.Slice]: on elements that the comparison
    orders (a strict weak order), the result is ascending. *)
Class SortOk `{Host} :=
  sort_slice_sorted (less : Value -> Value -> bool) (l : list Value) :
    (forall x y, x ∈ l -> y ∈ l -> less x y = true -> less y x = false) ->
    (forall x y z, x ∈ l -> y ∈ l -> z ∈ l -> less x y = false -> less y z = false -> less x z = false) ->
    Sorted (fun a b => less b a = false) (sort_slice less l).

Section sort_facts.
Context `{HH : Host} `{!HostOk} `{!SortOk}.

Definition strLess (x y : Value) : bool :=
  match x, y with VStr a, VStr b => str_lt a b | _, _ => false end.

Lemma sort_strings_unique l :
  sort_slice strLess (map VStr l) = map VStr (sort_strings l).
Proof.
  pose proof (sort_slice_perm strLess (map VStr l)) as Hp.
  apply Permutation_map_inv in Hp as (l' & Hl' & Hp). rewrite Hl'. f_equal.
  apply (Sorted_unique string_le); [|apply Sorted_merge_sort; apply _|].
  - assert (Hs : Sorted (fun a b => strLess b a = false) (map VStr l')).
    { rewrite <- Hl'. apply sort_slice_sorted.
      - intros x y (a & -> & _)%list_elem_of_fmap (b & -> & _)%list_elem_of_fmap. simpl. intros Hab.
        apply str_lt_le. unfold string_le, str_le, String.leb. unfold str_lt, String.ltb in Hab.
        by destruct (String.compare a b).
      - intros x y z (a & -> & _)%list_elem_of_fmap (b & -> & _)%list_elem_of_fmap (c & -> & _)%list_elem_of_fmap.
        simpl. rewrite !str_lt_le. intros. by transitivity b. }
    clear -Hs. induction l' as [|x l IH]; [constructor|]. simpl in Hs. inversion Hs as [|? ? Hs' Hh]; subst.
    constructor; [by apply IH|]. destruct l; constructor. inversion Hh; subst. by apply str_lt_le.
  - rewrite <- Hp. symmetry. apply merge_sort_Permutation.
Qed.

(** [list.sort] on strings returns exactly the ascending rearrangement of its
    input, for any list of strings within the size limit and whatever algorithm
    [sort.Slice] uses. *)
Theorem sort_strings_exact call p l s :
  over (MaxList (Lim (ctx s))) (Z.of_nat (length l)) = false ->
  listSort call p [VList (map VStr l)] s = Some (Ok (VList (map VStr (sort_strings l))), s).
Proof.
  intros Hov. rewrite <- sort_strings_unique.
  assert (Hk : forall x, forallb (fun w => (vkind w =? vkind (VStr x))%Z) (map VStr l) = true).
  { intros x. clear. by induction l. }
  unfold listSort, ListArg. simpl. unfold bind at 1. simpl. unfold bind at 1.
  rewrite CheckList_pass by by rewrite length_map. simpl.
  destruct l as [|x [|y l]]; simpl.
  - by rewrite (proj1 (Permutation_nil_r _) (sort_slice_perm strLess [])).
  - by rewrite (proj1 (Permutation_singleton_r _ _) (sort_slice_perm strLess [VStr x])).
  - simpl in Hk. rewrite (Hk x). done.
Qed.
End sort_facts.

(** ** Two places where the code does less than it says *)

Section divergences.
Context `{HH : Host}.

Definition neg_zero : float64 := f_neg f_zero.

(** [list.unique] is not the language's equality: [0] and [-0] are equal, yet
    it keeps both, whenever it returns. *)
Theorem unique_splits_zeros call p s r s' :
  listUnique call p [VList [VNum f_zero; VNum neg_zero]] s = Some (Ok r, s') ->
  ValueEqual (VNum f_zero) (VNum neg_zero) = true /\ r = VList [VNum f_zero; VNum neg_zero].
Proof.
  intros (_ & s0 & [= _ <-] & (items & s1 & Hl & Hr)%bind_ok)%bind_ok. split; [reflexivity|].
  unfold ListArg in Hl. apply CheckList_ok in Hl as [_ [= <- <-]].
  apply bind_ok in Hr as ([] & s2 & _ & Hr). change (keyVal _ (VNum f_zero)) with (ok "f:0") in Hr.
  apply bind_ok in Hr as (k & s3 & [= <- <-] & Hr). rewrite bool_decide_false in Hr by set_solver.
  apply CheckList_ok in Hr as [_ Hr]. apply bind_ok in Hr as ([] & s4 & _ & Hr).
  change (keyVal _ (VNum neg_zero)) with (ok "f:-0") in Hr.
  apply bind_ok in Hr as (k & s5 & [= <- <-] & Hr). rewrite bool_decide_false in Hr by set_solver.
  by apply CheckList_ok in Hr as [_ [= <- _]].
Qed.

(** [list.slice] accepts an end of 2^63, which no [int] holds: on amd64 the
    conversion yields the least integer and the window is empty, while the float
    below it selects everything. *)
Theorem slice_end_overflow call p v s :
  over (MaxList (Lim (ctx s))) 1 = false ->
  listSlice call p [VList [v]; VNum f_zero; VNum f2_63] s = Some (Ok (VList []), s)
  /\ listSlice call p [VList [v]; VNum f_zero; VNum (f_of_Z (2 ^ 63 - 1024))] s = Some (Ok (VList [v]), s).
Proof.
  intros Hov. split.
  - unfold listSlice, ListArg. simpl. unfold bind at 1. simpl. unfold bind at 1.
    rewrite CheckList_pass by done. vm_compute. reflexivity.
  - unfold listSlice, ListArg. simpl. unfold bind at 1. simpl. unfold bind at 1.
    rewrite CheckList_pass by done. simpl.
    assert (Hi : forall a i n z, Arg a i = VNum n -> IsNaN n || IsInf n = false -> f_eq (f_trunc n) n = true ->
              f_lt f2_63 n || f_lt n (f_sub (f_neg f2_63) (f_of_Z 1)) = false ->
              go_int (default 0%Z (f_to_Z n)) = z -> intNum a i s = Some (Ok z, s)).
    { intros a i n z Ha H1 H2 H3 <-. unfold intNum, FiniteNum, NumArg, bind, ok. rewrite Ha, H1.
      cbv beta iota. rewrite H2. cbn [negb]. rewrite H3. reflexivity. }
    unfold bind at 1. rewrite (Hi _ 1 f_zero 0%Z) by (vm_compute; reflexivity).
    unfold bind at 1. simpl.
    rewrite CheckList_pass by done. vm_compute. reflexivity.
Qed.
End divergences.
