(* ===== verification/Instances.v ===== *)
(** * The theorems at concrete scripts, values and hosts *)
From stdpp Require Import base list strings gmap sorting.
From Stdlib Require Import Ascii ZArith Lia.
From S2P Require Import Prelude GoStd GoFloat GoPath Token Lexer LexerFacts LexerText Group Ast Parser Scope ParserTotal HeadFacts Value Vm VmFacts VmSound Args Stdlib StdSound Module ModuleFacts Engine Layers CacheFacts PlainHost EngineFacts EnvFacts VmMono StdFacts.

Set Warnings "-register-all".
Open Scope string_scope.
Open Scope nat_scope.
Open Scope list_scope.

#[local] Existing Instances plain_host plain_host_ok.

(** ** Scripts *)

Definition small : Limits := mkLimits 60 8 100 10 10 0.
Definition s0 : St := idle small.
Definition pos0 : Pos := mkPos "demo.rts" 1 1.

Lemma s0_good : good s0.
Proof. apply idle_good. vm_compute. discriminate. Qed.

(** A directory with one module; its clock stands still. *)
Definition lib : list ascii := bytes "module lib; let n = 0; export fn next() { n = n + 1; return n }".

Definition demo_world : World := {|
  fs_stat := fun _ p => if bool_decide (p = "/w/lib.rts") then Ok (mkFP 7 64) else Er (p +:+ ": no such file");
  fs_read := fun _ p => if bool_decide (p = "/w/lib.rts") then Ok lib else Er (p +:+ ": no such file");
  getwd := fun _ => Ok "/w";
  clock := fun _ _ => 0%Z;
  done := fun _ _ => None
|}.
#[local] Existing Instance demo_world.

Definition e0 : Eng := mkEng small ∅ [].
Definition cfg0 : EvalConfig := mkConfig [] {["n" := VNum (f_of_Z 3)]} ∅ [mkUse " lib.rts " ""] "" "demo".
Definition y0 : Sys := mkSys s0 ∅ 0.

Lemma y0_ok : sys_ok y0.
Proof. split; [exact (proj1 (proj1 s0_good))|]. intros p e Hp. by destruct (lookup_empty_Some p e Hp). Qed.

Lemma cfg0_ok : layers_ok (hl (st y0)) e0 cfg0.
Proof.
  split; [exact (map_ok_empty _)|]. split; [by apply Forall_nil|]. split; [by apply Forall_nil|].
  split; [|exact (map_ok_empty _)].
  intros x v Hx. change (({["n" := VNum (f_of_Z 3)]} : gmap string Value) !! x = Some v) in Hx.
  apply lookup_singleton_Some in Hx as [_ <-]. constructor.
Qed.

(** A loop that never ends, under [try], calling the module. *)
Definition spin : list ascii := bytes "let r = 0; for true { r = try lib.next() }".

Example lib_works :
  match Eval 61 e0 cfg0 "[lib.next(), lib.next(), n]" pos0 y0 with
  | Some (Ok v, _) => ToIface v = IList (map (fun z => INum (f_of_Z z)) [1; 2; 3]%Z)
  | _ => False
  end.
Proof. vm_compute. reflexivity. Qed.

Lemma script_terminates_witness :
  exists r y', ExecModule 61 e0 cfg0 spin pos0 y0 = Some (r, y').
Proof.
  apply (script_terminates 61 e0 cfg0 spin pos0 y0 y0_ok cfg0_ok); split; vm_compute; reflexivity.
Defined.

Lemma expression_terminates_witness :
  exists r y', Eval 61 e0 cfg0 "n > 2 ? [n, n * n] : null" pos0 y0 = Some (r, y').
Proof.
  apply (expression_terminates 61 e0 cfg0 _ pos0 y0 y0_ok cfg0_ok); split; vm_compute; reflexivity.
Defined.

Lemma step_budget_respected_witness :
  exists r y', ExecModule 61 e0 cfg0 spin pos0 y0 = Some (r, y') /\ aborted r = true /\ (used (st y') <= 61)%Z.
Proof.
  assert (Hr : match ExecModule 61 e0 cfg0 spin pos0 y0 with Some (r, _) => aborted r | None => false end = true)
    by (vm_compute; reflexivity).
  destruct (ExecModule 61 e0 cfg0 spin pos0 y0) as [[r y']|] eqn:E; [|discriminate Hr].
  exists r, y'. split; [reflexivity|]. split; [exact Hr|].
  refine (proj2 (proj1 (proj2 (step_budget_respected 61 e0 cfg0 spin pos0 y0 r y' y0_ok cfg0_ok _ E)))).
  vm_compute. reflexivity.
Defined.


Lemma prelude_layers_witness :
  exists pre y' um, buildPre 61 e0 cfg0 pos0 y0 = Some (Ok pre, y')
    /\ pre = named ∅ ∪ (named (Locals cfg0) ∪ (um ∪ ∅)).
Proof.
  assert (Hr : match buildPre 61 e0 cfg0 pos0 y0 with Some (Ok _, _) => true | _ => false end = true)
    by (vm_compute; reflexivity).
  destruct (buildPre 61 e0 cfg0 pos0 y0) as [[[pre|] y']|] eqn:E; try discriminate Hr.
  destruct (prelude_layers 61 e0 cfg0 pos0 y0 pre y' E) as (um & uses & Hp & _).
  exists pre, y', um. split; [reflexivity|exact Hp].
Defined.

Lemma modHead_agrees_witness :
  exists m, ParseModule "/w/lib.rts" lib = Some (Ok m) /\ mod_name m = "lib"
            /\ modHead "/w/lib.rts" lib = Some (Ok ("lib", mod_namePos m)).
Proof.
  assert (Hr : match ParseModule "/w/lib.rts" lib with
               | Some (Ok m) => bool_decide (mod_name m = "lib") | _ => false end = true) by (vm_compute; reflexivity).
  destruct (ParseModule "/w/lib.rts" lib) as [[m|]|] eqn:E; try discriminate Hr.
  apply bool_decide_eq_true in Hr. exists m. split; [reflexivity|]. split; [exact Hr|]. rewrite <- Hr.
  apply (proj1 (proj2 (modHead_agrees "/w/lib.rts" lib) m E)). rewrite Hr. discriminate.
Defined.

(** What the only file of [demo_world] holds. *)
Lemma demo_steady : steady (fun _ _ => lib).
Proof.
  intros t p fp d. simpl. case_bool_decide; [|discriminate]. intros _ [= <-]. reflexivity.
Qed.

Lemma no_stale_module_witness :
  exists c p y', Load 61 ∅ "" "lib.rts" y0 = Some (Ok (c, p), y')
    /\ ParseModule p lib = Some (Ok (comp_Mod c)).
Proof.
  assert (Hr : match Load 61 ∅ "" "lib.rts" y0 with Some (Ok _, _) => true | _ => false end = true)
    by (vm_compute; reflexivity).
  destruct (Load 61 ∅ "" "lib.rts" y0) as [[[[c p]|] y']|] eqn:E; try discriminate Hr.
  exists c, p, y'. split; [reflexivity|].
  destruct (no_stale_module (fun _ _ => lib) 61 ∅ "" "lib.rts" y0 c p y' demo_steady (reach_new s0 0) E)
    as (fp & _ & Hm). exact Hm.
Defined.

Lemma module_run_once_witness :
  exists c p y1 y2, Load 61 ∅ "" "lib.rts" y0 = Some (Ok (c, p), y1)
    /\ Load 61 ∅ "" "lib.rts" y1 = Some (Ok (c, p), y2) /\ hp (st y2) = hp (st y1).
Proof.
  assert (Hr : match Load 61 ∅ "" "lib.rts" y0 with Some (Ok _, _) => true | _ => false end = true)
    by (vm_compute; reflexivity).
  destruct (Load 61 ∅ "" "lib.rts" y0) as [[[[c p]|] y1]|] eqn:E; try discriminate Hr.
  exists c, p, y1. eexists. split; [reflexivity|].
  split; [exact (module_run_once 61 ∅ "" "lib.rts" y0 c p y1 61 ∅ E eq_refl eq_refl)|reflexivity].
Defined.

(** One environment, with a constant and a variable. *)
Definition env1 : Env :=
  mkEnv None (<["c" := mkBinding (VBool true) true]> {["v" := mkBinding VNull false]}).
Definition s1 : St := mkSt (ctx s0) [env1] ∅.

Lemma env1_ok : heap_ok [env1].
Proof.
  intros l e Hl. destruct l as [|[|l]]; simpl in Hl; try discriminate Hl. injection Hl as <-.
  split; [discriminate|]. intros x b. simpl.
  intros [[_ <-]|[_ [_ <-]%lookup_singleton_Some]]%lookup_insert_Some; constructor.
Qed.

Lemma s1_good : good s1.
Proof.
  split; [|exact (proj2 s0_good)]. split; [exact env1_ok|]. intros x v Hx.
  by destruct (lookup_empty_Some x v Hx).
Qed.

Definition set_c : Stmt := AssignStmt pos0 "c" (Literal pos0 LitNull false f_zero EmptyString).

Lemma constants_immutable_witness :
  exists r s', vm_execStmt (vm_at 5) 0 false set_c s1 = Some (r, s')
    /\ exists e', hp s' !! 0 = Some e' /\ vars e' !! "c" = Some (mkBinding (VBool true) true).
Proof.
  assert (Hr : match vm_execStmt (vm_at 5) 0 false set_c s1 with Some _ => true | None => false end = true)
    by (vm_compute; reflexivity).
  destruct (vm_execStmt (vm_at 5) 0 false set_c s1) as [[r s']|] eqn:E; [|discriminate Hr].
  exists r, s'. split; [reflexivity|].
  apply (constants_immutable 5 [] 0 false set_c s1 r s' 0 env1 "c" (VBool true) eq_refl s1_good);
    [apply Nat.lt_0_1|exact E|reflexivity|vm_compute; reflexivity].
Defined.

Definition read_v : Expr := Ident pos0 "v".

Lemma expression_defines_no_name_witness :
  exists r s', vm_eval (vm_at 5) 0 read_v s1 = Some (r, s')
    /\ exists e', hp s' !! 0 = Some e' /\ up e' = up env1 /\ dom (vars e') = dom (vars env1).
Proof.
  assert (Hr : match vm_eval (vm_at 5) 0 read_v s1 with Some _ => true | None => false end = true)
    by (vm_compute; reflexivity).
  destruct (vm_eval (vm_at 5) 0 read_v s1) as [[r s']|] eqn:E; [|discriminate Hr].
  exists r, s'. split; [reflexivity|].
  apply (expression_defines_no_name 5 0 read_v s1 r s' 0 env1 s1_good); [apply Nat.lt_0_1|exact E|reflexivity].
Defined.

Definition demo_break : list ascii := bytes "for true { break }".
Definition demo_fn : Func := mkFunc "f" [] (mkBlock pos0 []) 0 pos0.

Lemma signals_contained_witness :
  exists m st, ParseModuleAt "m.rts" demo_break pos0 = Some (Ok m) /\ st ∈ mod_stmts m
    /\ forall e s' p l, vm_execStmt (vm_at 9) 0 true st s1 = Some (Er e, s') -> e <> EBreak p l.
Proof.
  assert (Hr : match ParseModuleAt "m.rts" demo_break pos0 with
               | Some (Ok m) => match mod_stmts m with [] => false | _ => true end
               | _ => false end = true) by (vm_compute; reflexivity).
  destruct (ParseModuleAt "m.rts" demo_break pos0) as [[m|]|] eqn:E; try discriminate Hr.
  destruct (mod_stmts m) as [|st sts] eqn:Es; [discriminate Hr|].
  assert (Hst : st ∈ mod_stmts m) by (rewrite Es; left).
  assert (Hfn : val_ok (hl s1) (VFunc (Some demo_fn))) by (constructor; [apply Nat.lt_0_1|reflexivity]).
  exists m, st. split; [reflexivity|]. split; [exact Hst|]. intros e s' p l H.
  exact (proj1 (proj1 (signals_contained 9 "m.rts" demo_break pos0 m st 0 true demo_fn s1 E Hst s1_good
                  Nat.lt_0_1 Hfn) e s' p l H)).
Defined.

Definition call_nope : Expr := Call pos0 (Ident pos0 "nope") [read_v].

Lemma call_stack_restored_witness :
  exists r s', vm_eval (vm_at 5) 0 call_nope s1 = Some (r, s') /\ stack (ctx s') = [].
Proof.
  assert (Hr : match vm_eval (vm_at 5) 0 call_nope s1 with Some _ => true | None => false end = true)
    by (vm_compute; reflexivity).
  destruct (vm_eval (vm_at 5) 0 call_nope s1) as [[r s']|] eqn:E; [|discriminate Hr].
  exists r, s'. split; [reflexivity|].
  exact (proj1 (call_stack_restored 5 0 call_nope s1 r s' s1_good Nat.lt_0_1 E)).
Defined.

Definition s_spent : St := mkSt (set_steps 60 (ctx s0)) [env1] ∅.

Lemma exhausted_budget_is_final_witness :
  exists s', vm_eval (vm_at 5) 0 (TryExpr pos0 read_v) s_spent
    = Some (Er (rtAbort (ctx s') pos0 AbortScript "step limit exceeded"), s').
Proof.
  apply (exhausted_budget_is_final 4 0 (TryExpr pos0 read_v) false set_c s_spent); vm_compute;
    [reflexivity|discriminate].
Defined.

(** ** Names and clauses *)

Lemma names_resolve_innermost_witness :
  exists r, resolves [env1] "c" (Some 0) r /\ env_Get 0 "c" [env1] = (b_val ∘ snd <$> r).
Proof.
  destruct (names_resolve_innermost [env1] 0 "c" VNull env1_ok Nat.lt_0_1) as (r & H1 & H2 & _).
  exists r. split; [exact H1|exact H2].
Defined.

Lemma assignment_updates_lookup_witness :
  env_Get 0 "v" (DefWith 0 "v" (VBool false) false [env1]) = Some (VBool false).
Proof.
  refine (proj1 (assignment_updates_lookup [env1] 0 "v" (VBool false) _ env1_ok Nat.lt_0_1 _ _)).
  - constructor.
  - vm_compute. reflexivity.
Defined.

Definition case1 : CaseClause := mkClause pos0 [read_v] (mkBlock pos0 []).

Lemma default_position_irrelevant_witness :
  same (execSwitch (vm_at 5) 0 false "" None [mkClause pos0 [] (mkBlock pos0 [set_c]); case1])
       (execSwitch (vm_at 5) 0 false "" None [case1; mkClause pos0 [] (mkBlock pos0 [set_c])]).
Proof.
  apply (default_position_irrelevant (vm_at 5) 0 false "" None [] pos0 (mkBlock pos0 [set_c]) [case1]).
  reflexivity.
Defined.

Lemma fuel_irrelevant_witness :
  exists r, ExecModule 61 e0 cfg0 spin pos0 y0 = Some r /\ ExecModule 90 e0 cfg0 spin pos0 y0 = Some r.
Proof.
  assert (H1 : match ExecModule 61 e0 cfg0 spin pos0 y0 with Some _ => true | None => false end = true)
    by (vm_compute; reflexivity).
  assert (H2 : match ExecModule 90 e0 cfg0 spin pos0 y0 with Some _ => true | None => false end = true)
    by (vm_compute; reflexivity).
  destruct (ExecModule 61 e0 cfg0 spin pos0 y0) as [r1|] eqn:E1; [|discriminate H1].
  destruct (ExecModule 90 e0 cfg0 spin pos0 y0) as [r2|] eqn:E2; [|discriminate H2].
  exists r1. split; [reflexivity|]. rewrite (fuel_irrelevant 61 90 e0 cfg0 spin pos0 y0 r1 r2 E1 E2). reflexivity.
Defined.

(** ** The standard library *)

Section sorting.
Context (less : Value -> Value -> bool).

Let R (a b : Value) : Prop := less b a = false.

Lemma insert_by_sorted x l :
  (forall y, y ∈ l -> less y x = true -> less x y = false) ->
  Sorted R l -> Sorted R (insert_by less x l).
Proof.
  induction l as [|y l IH]; intros Hasym Hs; simpl; [by repeat constructor|].
  inversion Hs as [|? ? Hs' Hh]; subst. destruct (less y x) eqn:E.
  - constructor; [apply IH; [intros z Hz; apply Hasym; by right|done]|].
    assert (Hyx : R y x) by (apply Hasym; [left|done]).
    destruct l as [|z l]; simpl; [by constructor|]. destruct (less z x); [|by constructor].
    inversion Hh; subst. by constructor.
  - by repeat constructor.
Qed.
End sorting.

#[local] Instance plain_sort_ok : @SortOk plain_host.
Proof.
  intros less l Hasym Htr. change (sort_slice less l) with (sort_by less l).
  induction l as [|x l IH]; simpl; [constructor|]. apply insert_by_sorted.
  - intros y Hy. rewrite sort_by_perm in Hy. apply Hasym; [by right|left].
  - apply IH; [intros a b Ha Hb; apply Hasym; by right|]. intros a b c Ha Hb Hc. apply Htr; by right.
Qed.

Definition words : list string := ["pear"; "fig"; "apple"; "fig"].
Definition no_call : Pos -> Value -> list Value -> M Value := fun _ _ _ => ok (VBool true).

Lemma sort_strings_exact_witness :
  listSort no_call pos0 [VList (map VStr words)] s0
  = Some (Ok (VList (map VStr ["apple"; "fig"; "fig"; "pear"])), s0).
Proof. exact (sort_strings_exact no_call pos0 words s0 eq_refl). Defined.

Lemma slice_window_witness :
  subslice (map VStr words) 1 3 !! 1 = Some (VStr "apple") /\ sliceIdx 4 (-3) (-1) = (1%Z, 3%Z).
Proof.
  destruct (slice_window (map VStr words) (-3) (-1)) as (a & b & H & _ & _ & _ & _ & _ & _ & _ & Hi).
  vm_compute in H. injection H as <- <-. split; [|reflexivity].
  rewrite (Hi 1); [reflexivity|reflexivity].
Defined.

Lemma unique_spec_witness :
  exists out, listUnique no_call pos0 [VList (map VStr words)] s0
              = Some (Ok (VList out), mkSt (set_steps 4 (ctx s0)) [] ∅)
              /\ sublist out (map VStr words).
Proof.
  assert (E : listUnique no_call pos0 [VList (map VStr words)] s0
              = Some (Ok (VList (map VStr ["pear"; "fig"; "apple"])), mkSt (set_steps 4 (ctx s0)) [] ∅))
    by (vm_compute; reflexivity).
  destruct (unique_spec no_call pos0 _ _ _ _ E) as (out & ks & H & Hs & _). injection H as <-.
  eexists. split; [exact E|exact Hs].
Defined.

Lemma map_is_traversal_witness :
  listMap no_call pos0 [VList (map VStr words); VNative None] s0
  = (bind (mapM (fun it => bind (tick pos0) (fun _ => no_call pos0 (VNative None) [it])) (map VStr words))
       (fun vs => ok (VList vs))) s0.
Proof.
  apply (map_is_traversal no_call pos0 (map VStr words) (VNative None) s0);
    [intros p v a s r s' H; injection H as _ <-; reflexivity|reflexivity|reflexivity].
Defined.

Lemma filter_is_selection_witness :
  listFilter no_call pos0 [VList (map VStr words); VNative None] s0
  = (bind (mapM (fun it => bind (tick pos0) (fun _ => bind (no_call pos0 (VNative None) [it])
              (fun v => ok (IsTruthy v)))) (map VStr words))
       (fun bs => ok (VList (selected (map VStr words) bs)))) s0.
Proof.
  apply (filter_is_selection no_call pos0 (map VStr words) (VNative None) s0);
    [intros p v a s r s' H; injection H as _ <-; reflexivity|reflexivity|reflexivity].
Defined.

Definition dict1 : gmap string Value := <["b" := VBool true]> {["a" := VStr "x"]}.

Lemma dict_order_witness :
  exists ks, dictKeys no_call pos0 [VDict dict1] s0 = Some (Ok (VList (map VStr ks)), s0)
             /\ Sorted string_le ks /\ NoDup ks.
Proof.
  assert (Ek : dictKeys no_call pos0 [VDict dict1] s0 = Some (Ok (VList [VStr "a"; VStr "b"]), s0))
    by (vm_compute; reflexivity).
  assert (Ev : dictValues no_call pos0 [VDict dict1] s0 = Some (Ok (VList [VStr "x"; VBool true]), s0))
    by (vm_compute; reflexivity).
  destruct (dict_order no_call pos0 dict1 s0 _ _ _ _ Ek Ev) as (ks & Hk & _ & _ & Hs & Hn & _).
  exists ks. rewrite <- Hk. split; [exact Ek|split; [exact Hs|exact Hn]].
Defined.

Lemma dict_get_set_witness :
  exists d, dictSet no_call pos0 [VDict dict1; VStr "c"; VNull] s0 = Some (Ok d, s0)
            /\ dictGet no_call pos0 [d; VStr "a"] s0 = Some (Ok (VStr "x"), s0).
Proof.
  exists (VDict (<["c" := VNull]> dict1)). split; [vm_compute; reflexivity|].
  apply (dict_get_set no_call pos0 dict1 "c" VNull "a" s0 _ s0). vm_compute. reflexivity.
Defined.

Lemma dict_merge_remove_witness :
  exists m, dictMerge no_call pos0 [VDict dict1; VDict {["a" := VNull]}] s0 = Some (Ok (VDict m), s0)
            /\ m !! "a" = Some VNull.
Proof.
  assert (E1 : dictMerge no_call pos0 [VDict dict1; VDict {["a" := VNull]}] s0
               = Some (Ok (VDict ({["a" := VNull]} ∪ dict1)), s0)) by (vm_compute; reflexivity).
  destruct (dict_merge_remove no_call pos0 dict1 {["a" := VNull]} "b" "a" s0 s0 s0
              (VDict ({["a" := VNull]} ∪ dict1)) (VDict (delete "b" ({["a" := VNull]} ∪ dict1))) E1)
    as (m & Hm & Ha & _); [vm_compute; reflexivity|].
  injection Hm as <-. eexists. split; [exact E1|]. rewrite Ha. reflexivity.
Defined.

Lemma dict_pick_omit_partition_witness :
  exists a b s1 s2, dictPick no_call pos0 [VDict dict1; VList [VStr "b"; VStr "z"]] s0 = Some (Ok (VDict a), s1)
    /\ dictOmit no_call pos0 [VDict dict1; VList [VStr "b"; VStr "z"]] s0 = Some (Ok (VDict b), s2)
    /\ a ∪ b = dict1.
Proof.
  assert (Ha : match dictPick no_call pos0 [VDict dict1; VList [VStr "b"; VStr "z"]] s0 with
               | Some (Ok (VDict _), _) => true | _ => false end = true) by (vm_compute; reflexivity).
  assert (Hb : match dictOmit no_call pos0 [VDict dict1; VList [VStr "b"; VStr "z"]] s0 with
               | Some (Ok (VDict _), _) => true | _ => false end = true) by (vm_compute; reflexivity).
  destruct (dictPick _ _ _ s0) as [[[[]|] s2]|] eqn:Ea; try discriminate Ha.
  destruct (dictOmit _ _ _ s0) as [[[[]|] s3]|] eqn:Eb; try discriminate Hb.
  exists m, m0, s2, s3. split; [reflexivity|]. split; [reflexivity|].
  exact (proj1 (proj2 (dict_pick_omit_partition no_call pos0 dict1 _ s0 s2 s0 s3 m m0 Ea Eb))).
Defined.

Lemma OpenGroup_innermost_witness : OpenGroup "f(a, [1, {b: 2}" = Some (Some "]"%char).
Proof.
  refine (proj2 (proj2 (OpenGroup_innermost "f(a, [1, {b: 2}" [IDENT; LPAREN; IDENT; COMMA]
            [NUMBER; COMMA; LBRACE; IDENT; COLON; NUMBER; RBRACE; AUTO_SEMI] LBRACK "]"%char)) _ _ _).
  - vm_compute. reflexivity.
  - right. left.
  - repeat (apply matched_tok; [reflexivity|intros; reflexivity|]).
    apply (matched_group LBRACE RBRACE [IDENT; COLON; NUMBER] [AUTO_SEMI]); [right; right; left| |];
      repeat (apply matched_tok; [reflexivity|intros; reflexivity|]); constructor.
Defined.

Lemma unique_splits_zeros_witness :
  exists s', listUnique no_call pos0 [VList [VNum f_zero; VNum neg_zero]] s0
             = Some (Ok (VList [VNum f_zero; VNum neg_zero]), s').
Proof.
  assert (Hr : match listUnique no_call pos0 [VList [VNum f_zero; VNum neg_zero]] s0 with
               | Some (Ok _, _) => true | _ => false end = true) by (vm_compute; reflexivity).
  destruct (listUnique no_call pos0 [VList [VNum f_zero; VNum neg_zero]] s0) as [[[r|e] s']|] eqn:E;
    try discriminate Hr.
  exists s'. rewrite (proj2 (unique_splits_zeros no_call pos0 s0 r s' E)). reflexivity.
Defined.

Lemma slice_end_overflow_witness :
  listSlice no_call pos0 [VList [VNull]; VNum f_zero; VNum f2_63] s0 = Some (Ok (VList []), s0).
Proof. exact (proj1 (slice_end_overflow no_call pos0 VNull s0 eq_refl)). Defined.
