(* ===== verification/Stream.v ===== *)
(** * Stream sessions (src/internal/stream/)

    Module [Ring]: the ring buffer of ringbuffer.go.  Module [Chan]: what the
    code uses of Go's buffered channels.  Module [Listener]: emit and close.
    Module [Session]: the fields of a session and its critical sections, each
    one definition.  The goroutines, the manager and the step relation are in
    StreamWorld.v.

    An event is published by pointer ([*Event]) and Publish writes into it, so
    buffers and channels hold pointers; the events themselves are in the heap of
    StreamWorld.v.  Times are nanoseconds and 0 stands for the zero time, which
    time.Now never returns.  [*listener] and [*Session] are pointers as well. *)
From stdpp Require Import base list strings gmap.
From Stdlib Require Import Ascii ZArith Lia.
From S2P Require Import Prelude.

Open Scope string_scope.
Open Scope nat_scope.
Open Scope list_scope.

(** uint64 arithmetic wraps around. *)
Definition u64 (z : Z) : Z := (z mod 2 ^ 64)%Z.

(** ** event.go *)

Inductive Kind := KindSSE | KindWebSocket | KindGRPC.

Inductive Direction := DirNA | DirSend | DirReceive.

Inductive State :=
  StateConnecting | StateOpen | StateClosing | StateClosed | StateFailed.

Record SSEMetadata := mkSSE { sseName : string; sseID : string; sseComment : string; sseRetry : Z }.

Record WSMetadata := mkWS { wsOpcode : Z; wsCode : Z; wsReason : string }.

Record Event := mkEvent {
  evKind : Kind;
  evDirection : Direction;
  evTimestamp : Z;
  evSequence : Z;
  evMetadata : gmap string string;
  evPayload : string;
  evSSE : SSEMetadata;
  evWS : WSMetadata
}.

#[global] Instance State_eq_dec : EqDecision State.
Proof. solve_decision. Defined.

#[global] Instance Kind_eq_dec : EqDecision Kind.
Proof. solve_decision. Defined.

(** A pointer is an index into the list of allocated objects. *)
Notation ptr := nat (only parsing).

(** ** ringbuffer.go *)

Module Ring.
Section ring.
Context {A : Type}.

(** [items] is a slice of pointers, nil where nothing was stored. *)
Record ringBuffer := mkRing {
  items : list (option A);
  size : nat;
  count : nat;
  head : nat
}.

Definition newRingBuffer (sz : Z) : ringBuffer :=
  let sz := if (sz <=? 0)%Z then 1%Z else sz in
  mkRing (replicate (Z.to_nat sz) None) (Z.to_nat sz) 0 0.

Definition append (r : ringBuffer) (evt : A) : ringBuffer :=
  if size r =? 0 then r
  else if count r <? size r then
    mkRing (<[(head r + count r) mod size r := Some evt]> (items r))
      (size r) (S (count r)) (head r)
  else
    mkRing (<[head r := Some evt]> (items r))
      (size r) (count r) ((head r + 1) mod size r).

(** The loop of snapshot; a slot that was never written reads as nil. *)
Definition slot (r : ringBuffer) (i : nat) : option A :=
  default None (items r !! ((head r + i) mod size r)).

Definition snapshot (r : ringBuffer) : list (option A) :=
  if count r =? 0 then [] else slot r <$> seq 0 (count r).
End ring.
Arguments ringBuffer A : clear implicits.
End Ring.

(** ** Go's buffered channels, as far as the code uses them *)

Module Chan.
Record chan := mkChan { ccap : nat; cbuf : list ptr; cclosed : bool }.

Definition makeChan (n : nat) : chan := mkChan n [] false.

(** [select { case c <- e: ... default: ... }]; a send on a closed channel
    panics. *)
Definition trySend (c : chan) (e : ptr) : res string (option chan) :=
  if cclosed c then Er "send on closed channel"
  else if length (cbuf c) <? ccap c then Ok (Some (mkChan (ccap c) (cbuf c ++ [e]) false))
  else Ok None.

(** [select { case <-c: default: }] *)
Definition tryRecv (c : chan) : chan := mkChan (ccap c) (drop 1 (cbuf c)) (cclosed c).

(** [n] receives by other goroutines. *)
Definition taken (n : nat) (c : chan) : chan := mkChan (ccap c) (drop n (cbuf c)) (cclosed c).

Definition closeChan (c : chan) : res string chan :=
  if cclosed c then Er "close of closed channel"
  else Ok (mkChan (ccap c) (cbuf c) true).
End Chan.

(** ** Configuration (session.go) *)

(** [type DropPolicy int] *)
Definition DropPolicy := Z.
Definition DropNewest : DropPolicy := 0%Z.
Definition DropOldest : DropPolicy := 1%Z.
Definition DropListener : DropPolicy := 2%Z.

Record Config := mkConfig {
  BufferSize : Z;
  ListenerBuffer : Z;
  cfgDropPolicy : DropPolicy
}.

Definition defaultConfig (cfg : Config) : Config :=
  let bs := if (BufferSize cfg <=? 0)%Z then 1024%Z else BufferSize cfg in
  let lb := if (ListenerBuffer cfg <=? 0)%Z then 64%Z else ListenerBuffer cfg in
  let p := cfgDropPolicy cfg in
  let dp :=
    if (p =? DropNewest)%Z || (p =? DropOldest)%Z || (p =? DropListener)%Z
    then p else DropOldest in
  mkConfig bs lb dp.

(** ** Listeners *)

Module Listener.
Import Chan.

Record listener := mkListener {
  lch : chan;
  dropCnt : Z;
  lpolicy : DropPolicy;
  lclosed : bool
}.

Definition new (cfg : Config) : listener :=
  mkListener (makeChan (Z.to_nat (ListenerBuffer cfg))) 0 (cfgDropPolicy cfg) false.

Definition with_ch (l : listener) (c : chan) : listener :=
  mkListener c (dropCnt l) (lpolicy l) (lclosed l).

Definition count_drop (l : listener) (c : chan) : listener :=
  mkListener c (u64 (dropCnt l + 1)) (lpolicy l) (lclosed l).

(** A successful close of the channel: [l.closed = true; close(l.ch)]. *)
Definition shut (l : listener) : res string listener :=
  match Chan.closeChan (lch l) with
  | Er m => Er m
  | Ok c => Ok (mkListener c (dropCnt l) (lpolicy l) true)
  end.

(** [emit] runs under the listener's mutex, so the only other goroutines that
    touch the channel meanwhile are receivers: [r1] of its events are received
    between the failed send and the discarding receive, [r2] between that and
    the second send. *)
Definition emit (r1 r2 : nat) (evt : ptr) (l : listener) : res string (bool * listener) :=
  if lclosed l then Ok (false, l)
  else match trySend (lch l) evt with
  | Er m => Er m
  | Ok (Some c) => Ok (true, with_ch l c)
  | Ok None =>
      if (lpolicy l =? DropNewest)%Z then Ok (false, count_drop l (lch l))
      else if (lpolicy l =? DropListener)%Z then
        match shut (count_drop l (lch l)) with
        | Er m => Er m
        | Ok l' => Ok (false, l')
        end
      else
        let c := taken r2 (tryRecv (taken r1 (lch l))) in
        match trySend c evt with
        | Er m => Er m
        | Ok (Some c') => Ok (true, with_ch l c')
        | Ok None => Ok (false, count_drop l c)
        end
  end.

Definition close (l : listener) : res string listener :=
  if lclosed l then Ok l else shut l.
End Listener.
Notation listener := Listener.listener.

(** ** Sessions *)

Module Session.
Import Ring.

(** [error]: nil or a message. *)
Definition error := option string.

Record Stats := mkStats {
  StartedAt : Z;
  EndedAt : Z;
  EventsTotal : Z;
  BytesTotal : Z;
  Dropped : Z
}.

Record Session := mkSession {
  id : string;
  kind : Kind;
  cancelled : bool;                (* the session's context *)
  cfg : Config;
  state : State;
  err : error;
  events : ringBuffer ptr;
  listeners : gmap nat ptr;        (* map[int]*listener *)
  nextLID : nat;
  done : bool;                     (* the channel done is closed *)
  stats : Stats;
  closeOnce : bool                 (* the Once has run *)
}.

Definition digits : string := "0123456789".

(** [for v > 0]: 20 rounds are enough for a uint64. *)
Definition itoa (v : Z) : string :=
  if (v =? 0)%Z then "0"
  else (Prelude.while 20 (fun '(v, buf) => (0 <? v)%Z)
    (fun '(v, buf) =>
       ((v / 10)%Z, String.append (String.substring (Z.to_nat (v mod 10)) 1 digits) buf))
    (v, "")).2.

(** [seq] is the new value of sessionCounter, [now] the formatted time. *)
Definition buildSessionID (kind : Kind) (now : string) (seq : Z) : string :=
  let prefix :=
    match kind with KindSSE => "sse" | KindWebSocket => "ws" | KindGRPC => "grpc" end in
  String.append prefix (String.append "-" (String.append now (String.append "-" (itoa seq)))).

Definition NewSession (k : Kind) (c : Config) (stamp : string) (seq now : Z) : Session :=
  let c := defaultConfig c in
  mkSession (buildSessionID k stamp seq) k false c StateConnecting None
    (newRingBuffer (BufferSize c)) ∅ 0 false (mkStats now 0 0 0 0) false.

Definition ended (s : Session) : bool := negb (EndedAt (stats s) =? 0)%Z.

(** [Cancel] *)
Definition cancel (s : Session) : Session :=
  mkSession (id s) (kind s) true (cfg s) (state s) (err s) (events s) (listeners s)
    (nextLID s) (done s) (stats s) (closeOnce s).

Definition setState (st : State) (e : error) (s : Session) : Session :=
  let err' :=
    match e with
    | Some _ => e
    | None => if decide (st = StateClosed) then None else err s
    end in
  mkSession (id s) (kind s) (cancelled s) (cfg s) st err' (events s) (listeners s)
    (nextLID s) (done s) (stats s) (closeOnce s).

Definition MarkOpen (s : Session) : Session := setState StateOpen None s.

Definition MarkClosing (s : Session) : Session := setState StateClosing None s.

Definition EventsSnapshot (s : Session) : list (option ptr) := snapshot (events s).

(** [Snapshot] of the state handed to a subscriber. *)
Record Snapshot := mkSnapshot { snEvents : list (option ptr); snState : State; snErr : error }.

Definition snapshotOf (s : Session) : Snapshot :=
  mkSnapshot (EventsSnapshot s) (state s) (err s).

(** The locked part of [Subscribe] on a live session: the new listener's
    pointer [l] is registered under the next id. *)
Definition addListener (l : ptr) (s : Session) : Session :=
  mkSession (id s) (kind s) (cancelled s) (cfg s) (state s) (err s) (events s)
    (<[nextLID s := l]> (listeners s)) (S (nextLID s)) (done s) (stats s) (closeOnce s).

(** The locked part of [removeListener]. *)
Definition dropListener (i : nat) (s : Session) : Session :=
  mkSession (id s) (kind s) (cancelled s) (cfg s) (state s) (err s) (events s)
    (delete i (listeners s)) (nextLID s) (done s) (stats s) (closeOnce s).

(** The locked part of [Publish], for an event with [n] bytes of payload. *)
Definition publishLocked (evt : ptr) (n : Z) (s : Session) : Session :=
  let st := stats s in
  mkSession (id s) (kind s) (cancelled s) (cfg s) (state s) (err s)
    (append (events s) evt) (listeners s) (nextLID s) (done s)
    (mkStats (StartedAt st) (EndedAt st) (u64 (EventsTotal st + 1))
       (u64 (BytesTotal st + n)) (Dropped st))
    (closeOnce s).

(** [s.stats.Dropped += uint64(dropped)] *)
Definition addDropped (n : nat) (s : Session) : Session :=
  let st := stats s in
  mkSession (id s) (kind s) (cancelled s) (cfg s) (state s) (err s) (events s)
    (listeners s) (nextLID s) (done s)
    (mkStats (StartedAt st) (EndedAt st) (EventsTotal st) (BytesTotal st)
       (u64 (Dropped st + Z.of_nat n)))
    (closeOnce s).

(** The locked part of [Close]: every listener leaves the map. *)
Definition closeLocked (now : Z) (e : error) (s : Session) : Session :=
  let st := stats s in
  let '(state', err', stats') :=
    if ended s then (state s, err s, st)
    else
      (match e with Some _ => StateFailed | None => StateClosed end, e,
       mkStats (StartedAt st) now (EventsTotal st) (BytesTotal st) (Dropped st)) in
  mkSession (id s) (kind s) (cancelled s) (cfg s) state' err' (events s) ∅
    (nextLID s) (done s) stats' (closeOnce s).

(** [s.closeOnce.Do(func() { close(s.done) })] *)
Definition closeDone (s : Session) : res string Session :=
  if closeOnce s then Ok s
  else if done s then Er "close of closed channel"
  else Ok (mkSession (id s) (kind s) (cancelled s) (cfg s) (state s) (err s) (events s)
    (listeners s) (nextLID s) true (stats s) true).
End Session.
Notation Session := Session.Session.
