(* ===== verification/StreamWorld.v ===== *)
(** * Goroutines over stream sessions (src/internal/stream/session.go, manager.go)

    The shared state [World] holds the events, sessions, listeners and managed
    sessions that were allocated, the two atomic counters, and one manager.  A
    [thread] is a goroutine inside one method of Session or Manager; each
    constructor is a point between two atomic sections of the method (an atomic
    counter, a section under a mutex, a receive) with the local variables it
    still needs.  [tstep] performs the next section.  What Go leaves open is a
    [Choice]: the time, the order in which a map is ranged over, and what
    receivers take while a listener's mutex is held.  [step] is the
    interleaving of all goroutines with new calls and receives.

    Manager.mu is the only mutex held across several sections (List reads its
    sessions under the read lock), so it is modelled by its number of readers;
    every other critical section is one step. *)
From stdpp Require Import base list strings gmap relations.
From Stdlib Require Import Ascii ZArith Lia.
From S2P Require Import Prelude Stream.

Open Scope string_scope.
Open Scope nat_scope.
Open Scope list_scope.

(** ** The state *)

Record SessionSummary := mkSummary {
  smID : string;
  smKind : Kind;
  smState : State;
  smErr : Session.error;
  smStartedAt : Z;
  smEndedAt : Z
}.

(** [CompletionHook] values are the caller's; a hook is known by a number. *)
Notation hook := nat (only parsing).

Record managedSession := mkManaged {
  msession : option ptr;
  mhooks : list hook;
  msummary : SessionSummary
}.

(** One call of a completion hook: the managed session it was added to, and
    its arguments. *)
Record hookCall := mkHookCall {
  hcManaged : ptr;
  hcHook : hook;
  hcSummary : SessionSummary;
  hcEvents : list (option ptr)
}.

(** The channel of a [Listener]: the shared closed channel, or its own. *)
Inductive chanRef := closedEvents | ownChan (l : ptr).

(** [Listener]; its Cancel is removeListener with the id, or does nothing. *)
Record ListenerVal := mkListenerVal {
  lvC : chanRef;
  lvCancel : option nat;
  lvSnapshot : Session.Snapshot
}.

(** What a method returns. *)
Inductive retval :=
  | RUnit
  | RListener (l : ListenerVal)
  | RBool (b : bool)
  | RSummary (s : SessionSummary)
  | RGet (s : option SessionSummary)
  | RList (l : list SessionSummary)
  | REvents (l : option (list (option ptr))).

(** Who continues with the result of currentSummary. *)
Inductive summaryCont :=
  | ForGet
  | ForList (todo : list ptr) (acc : list SessionSummary).

Inductive thread :=
  (* Session.Publish *)
  | PubStart (s : ptr) (evt : option ptr)
  | PubLock (s : ptr) (evt : ptr)
  | PubEmit (s : ptr) (evt : ptr) (todo : list ptr) (dropped : nat)
  (* Session.Subscribe *)
  | SubLock (s : ptr)
  (* Listener.Cancel *)
  | RemLock (s : ptr) (id : nat)
  | RemClose (l : ptr)
  (* Session.MarkOpen, MarkClosing *)
  | SetState (s : ptr) (st : State)
  (* Session.Cancel *)
  | CancelCtx (s : ptr)
  (* Session.Close *)
  | CloseStart (s : ptr) (e : Session.error)
  | CloseLock (s : ptr) (e : Session.error)
  | CloseEach (s : ptr) (todo : list ptr)
  (* Manager.Register *)
  | RegStart (s : option ptr)
  | RegStats (s : ptr) (st : State) (e : Session.error)
  | RegLock (s : ptr) (sum : SessionSummary)
  | RegGo (m : ptr) (sum : SessionSummary)
  (* Manager.watch *)
  | WatchStart (m : ptr)
  | WatchWait (m : ptr) (s : ptr)
  | WatchStats (m : ptr) (s : ptr) (st : State) (e : Session.error)
  | WatchEvents (m : ptr) (s : ptr) (sum : SessionSummary)
  | WatchLock (m : ptr) (s : ptr) (sum : SessionSummary) (evs : list (option ptr))
  | WatchHooks (m : ptr) (hooks : list hook) (sum : SessionSummary) (evs : list (option ptr))
  (* Manager.Cancel, AddCompletionHook, Snapshot, Get, List *)
  | MCancel (id : string)
  | MCancelDo (m : ptr)
  | MAddHook (id : string) (h : option hook)
  | MSnapshot (id : string)
  | MSnapshotDo (m : ptr)
  | MGet (id : string)
  | MList
  | CurCheck (m : ptr) (k : summaryCont)
  | CurState (m : ptr) (k : summaryCont)
  | CurStats (m : ptr) (k : summaryCont) (st : State) (e : Session.error)
  | CurID (m : ptr) (k : summaryCont) (st : State) (e : Session.error) (started ended : Z)
  (* the method has returned *)
  | Ret (v : retval).

Record World := mkWorld {
  wevents : list Event;
  wseq : Z;                          (* seqCounter *)
  wscount : Z;                       (* sessionCounter *)
  wsessions : list Session;
  wlisteners : list listener;
  wmanager : gmap string ptr;        (* Manager.sessions *)
  wreaders : nat;                    (* readers holding Manager.mu *)
  wmanaged : list managedSession;
  wcalls : list hookCall;
  wthreads : list thread
}.

Definition init : World := mkWorld [] 0 0 [] [] ∅ 0 [] [] [].

Definition set_events (f : list Event -> list Event) (w : World) : World :=
  mkWorld (f (wevents w)) (wseq w) (wscount w) (wsessions w) (wlisteners w)
    (wmanager w) (wreaders w) (wmanaged w) (wcalls w) (wthreads w).

Definition set_seq (z : Z) (w : World) : World :=
  mkWorld (wevents w) z (wscount w) (wsessions w) (wlisteners w)
    (wmanager w) (wreaders w) (wmanaged w) (wcalls w) (wthreads w).

Definition set_sessions (l : list Session) (w : World) : World :=
  mkWorld (wevents w) (wseq w) (wscount w) l (wlisteners w)
    (wmanager w) (wreaders w) (wmanaged w) (wcalls w) (wthreads w).

Definition set_listeners (l : list listener) (w : World) : World :=
  mkWorld (wevents w) (wseq w) (wscount w) (wsessions w) l
    (wmanager w) (wreaders w) (wmanaged w) (wcalls w) (wthreads w).

Definition set_manager (g : gmap string ptr) (n : nat) (l : list managedSession) (w : World) : World :=
  mkWorld (wevents w) (wseq w) (wscount w) (wsessions w) (wlisteners w)
    g n l (wcalls w) (wthreads w).

Definition set_threads (l : list thread) (w : World) : World :=
  mkWorld (wevents w) (wseq w) (wscount w) (wsessions w) (wlisteners w)
    (wmanager w) (wreaders w) (wmanaged w) (wcalls w) l.

Definition add_call (c : hookCall) (w : World) : World :=
  mkWorld (wevents w) (wseq w) (wscount w) (wsessions w) (wlisteners w)
    (wmanager w) (wreaders w) (wmanaged w) (wcalls w ++ [c]) (wthreads w).

Definition put_session (s : ptr) (x : Session) (w : World) : World :=
  set_sessions (<[s := x]> (wsessions w)) w.

Definition put_listener (l : ptr) (x : listener) (w : World) : World :=
  set_listeners (<[l := x]> (wlisteners w)) w.

Definition put_managed (m : ptr) (x : managedSession) (w : World) : World :=
  set_manager (wmanager w) (wreaders w) (<[m := x]> (wmanaged w)) w.

(** ** Steps of one goroutine *)

Record Choice := mkChoice {
  chNow : Z;             (* time.Now *)
  chOrder : list ptr;    (* the order of a range over a map *)
  chTaken1 : nat;        (* received between the first two selects of emit *)
  chTaken2 : nat         (* and between the last two *)
}.

(** The outcome of a step: it cannot happen now (or not with this choice), it
    panics, or it yields a new state and the goroutine's next point. *)
Inductive outcome :=
  | Blocked
  | Panics (msg : string)
  | Goes (w : World) (t : thread).

Definition nilDeref : string := "nil pointer dereference".

Definition with_session (s : ptr) (w : World) (k : Session -> outcome) : outcome :=
  match wsessions w !! s with Some x => k x | None => Panics nilDeref end.

Definition with_listener (l : ptr) (w : World) (k : listener -> outcome) : outcome :=
  match wlisteners w !! l with Some x => k x | None => Panics nilDeref end.

Definition with_managed (m : ptr) (w : World) (k : managedSession -> outcome) : outcome :=
  match wmanaged w !! m with Some x => k x | None => Panics nilDeref end.

(** [ms.session] is read and a method of it is called. *)
Definition with_msession (m : ptr) (w : World) (k : Session -> outcome) : outcome :=
  with_managed m w (fun x =>
    match msession x with Some s => with_session s w k | None => Panics nilDeref end).

(** A range over a map visits its values in some order. *)
Definition is_order {K} `{Countable K} (order : list ptr) (m : gmap K ptr) : bool :=
  bool_decide (order ≡ₚ (map_to_list m).*2).

(** nextSequence, and the fields Publish writes before it takes the lock. *)
Definition stamp (seq now : Z) (e : Event) : Event :=
  mkEvent (evKind e) (evDirection e)
    (if (evTimestamp e =? 0)%Z then now else evTimestamp e) seq
    (evMetadata e) (evPayload e) (evSSE e) (evWS e).

(** [len(evt.Payload)] *)
Definition payloadLen (evt : ptr) (w : World) : Z :=
  match wevents w !! evt with Some e => Z.of_nat (String.length (evPayload e)) | None => 0%Z end.

Definition publishStep (c : Choice) (w : World) (t : thread) : outcome :=
  match t with
  | PubStart s None => Goes w (Ret RUnit)
  | PubStart s (Some evt) =>
      let seq := u64 (wseq w + 1) in
      if (chNow c =? 0)%Z then Blocked
      else match wevents w !! evt with
      | None => Panics nilDeref
      | Some e => Goes (set_seq seq (set_events (<[evt := stamp seq (chNow c) e]>) w)) (PubLock s evt)
      end
  | PubLock s evt =>
      with_session s w (fun x =>
        if is_order (chOrder c) (Session.listeners x)
        then Goes (put_session s (Session.publishLocked evt (payloadLen evt w) x) w)
               (PubEmit s evt (chOrder c) 0)
        else Blocked)
  | PubEmit s evt (l :: todo) dropped =>
      with_listener l w (fun x =>
        match Listener.emit (chTaken1 c) (chTaken2 c) evt x with
        | Er m => Panics m
        | Ok (sent, x') =>
            Goes (put_listener l x' w)
              (PubEmit s evt todo (if sent then dropped else S dropped))
        end)
  | PubEmit s evt [] dropped =>
      if dropped =? 0 then Goes w (Ret RUnit)
      else with_session s w (fun x =>
             Goes (put_session s (Session.addDropped dropped x) w) (Ret RUnit))
  | _ => Blocked
  end.

(** Close: the context, the locked part, each listener, the done channel. *)
Definition closeStep (c : Choice) (w : World) (t : thread) : outcome :=
  match t with
  | CloseStart s e =>
      with_session s w (fun x =>
        Goes (put_session s (Session.cancel x) w) (CloseLock s e))
  | CloseLock s e =>
      with_session s w (fun x =>
        if (chNow c =? 0)%Z || negb (is_order (chOrder c) (Session.listeners x)) then Blocked
        else Goes (put_session s (Session.closeLocked (chNow c) e x) w)
               (CloseEach s (chOrder c)))
  | CloseEach s (l :: todo) =>
      with_listener l w (fun x =>
        match Listener.close x with
        | Er m => Panics m
        | Ok x' => Goes (put_listener l x' w) (CloseEach s todo)
        end)
  | CloseEach s [] =>
      with_session s w (fun x =>
        match Session.closeDone x with
        | Er m => Panics m
        | Ok x' => Goes (put_session s x' w) (Ret RUnit)
        end)
  | _ => Blocked
  end.

(** MarkOpen, MarkClosing and Cancel. *)
Definition stateStep (w : World) (t : thread) : outcome :=
  match t with
  | SetState s st =>
      with_session s w (fun x =>
        Goes (put_session s (Session.setState st None x) w) (Ret RUnit))
  | CancelCtx s =>
      with_session s w (fun x =>
        Goes (put_session s (Session.cancel x) w) (Ret RUnit))
  | _ => Blocked
  end.

(** Subscribe and the Cancel of a listener. *)
Definition subscribeStep (w : World) (t : thread) : outcome :=
  match t with
  | SubLock s =>
      with_session s w (fun x =>
        let snapshot := Session.snapshotOf x in
        if Session.ended x
        then Goes w (Ret (RListener (mkListenerVal closedEvents None snapshot)))
        else
          let l := length (wlisteners w) in
          let id := Session.nextLID x in
          Goes (set_listeners (wlisteners w ++ [Listener.new (Session.cfg x)])
                 (put_session s (Session.addListener l x) w))
            (Ret (RListener (mkListenerVal (ownChan l) (Some id) snapshot))))
  | RemLock s id =>
      with_session s w (fun x =>
        match Session.listeners x !! id with
        | Some l => Goes (put_session s (Session.dropListener id x) w) (RemClose l)
        | None => Goes w (Ret RUnit)
        end)
  | RemClose l =>
      with_listener l w (fun x =>
        match Listener.close x with
        | Er m => Panics m
        | Ok x' => Goes (put_listener l x' w) (Ret RUnit)
        end)
  | _ => Blocked
  end.

(** The summaries. *)
Definition zeroSummary : SessionSummary := mkSummary "" KindSSE StateConnecting None 0 0.

Definition registerStep (w : World) (t : thread) : outcome :=
  match t with
  | RegStart None => Goes w (Ret (RSummary zeroSummary))
  | RegStart (Some s) =>
      with_session s w (fun x => Goes w (RegStats s (Session.state x) (Session.err x)))
  | RegStats s st e =>
      with_session s w (fun x =>
        Goes w (RegLock s (mkSummary (Session.id x) (Session.kind x) st e
                             (Session.StartedAt (Session.stats x)) 0)))
  | RegLock s sum =>
      if negb (wreaders w =? 0) then Blocked
      else
        let m := length (wmanaged w) in
        Goes (set_manager (<[smID sum := m]> (wmanager w)) (wreaders w)
                (wmanaged w ++ [mkManaged (Some s) [] sum]) w)
          (RegGo m sum)
  | RegGo m sum => Goes (set_threads (wthreads w ++ [WatchStart m]) w) (Ret (RSummary sum))
  | _ => Blocked
  end.

Definition watchStep (w : World) (t : thread) : outcome :=
  match t with
  | WatchStart m =>
      with_managed m w (fun x =>
        match msession x with
        | None => Goes w (Ret RUnit)
        | Some s => Goes w (WatchWait m s)
        end)
  | WatchWait m s =>
      with_session s w (fun x =>
        if Session.done x then Goes w (WatchStats m s (Session.state x) (Session.err x))
        else Blocked)
  | WatchStats m s st e =>
      with_session s w (fun x =>
        Goes w (WatchEvents m s (mkSummary (Session.id x) (Session.kind x) st e
                  (Session.StartedAt (Session.stats x)) (Session.EndedAt (Session.stats x)))))
  | WatchEvents m s sum =>
      with_session s w (fun x => Goes w (WatchLock m s sum (Session.EventsSnapshot x)))
  | WatchLock m s sum evs =>
      if negb (wreaders w =? 0) then Blocked
      else with_managed m w (fun x =>
        Goes (set_manager (delete (smID sum) (wmanager w)) (wreaders w)
                (<[m := mkManaged None [] sum]> (wmanaged w)) w)
          (WatchHooks m (mhooks x) sum evs))
  | WatchHooks m (h :: hooks) sum evs =>
      Goes (add_call (mkHookCall m h sum evs) w) (WatchHooks m hooks sum evs)
  | WatchHooks m [] sum evs => Goes w (Ret RUnit)
  | _ => Blocked
  end.

(** currentSummary has its result. *)
Definition summaryDone (sum : SessionSummary) (k : summaryCont) (w : World) : outcome :=
  match k with
  | ForGet => Goes w (Ret (RGet (Some sum)))
  | ForList (m :: todo) acc => Goes w (CurCheck m (ForList todo (acc ++ [sum])))
  | ForList [] acc =>
      Goes (set_manager (wmanager w) (Nat.pred (wreaders w)) (wmanaged w) w)
        (Ret (RList (acc ++ [sum])))
  end.

(** currentSummary: it re-reads the session pointer at each use, and overwrites
    every field of the stored summary. *)
Definition currentStep (w : World) (t : thread) : outcome :=
  match t with
  | CurCheck m k =>
      with_managed m w (fun x =>
        match msession x with
        | None => summaryDone (msummary x) k w
        | Some _ => Goes w (CurState m k)
        end)
  | CurState m k =>
      with_msession m w (fun x => Goes w (CurStats m k (Session.state x) (Session.err x)))
  | CurStats m k st e =>
      with_msession m w (fun x =>
        Goes w (CurID m k st e (Session.StartedAt (Session.stats x)) (Session.EndedAt (Session.stats x))))
  | CurID m k st e sa ea =>
      with_msession m w (fun x =>
        summaryDone (mkSummary (Session.id x) (Session.kind x) st e sa ea) k w)
  | _ => Blocked
  end.

(** Cancel, AddCompletionHook, Snapshot, Get and List. *)
Definition managerStep (c : Choice) (w : World) (t : thread) : outcome :=
  match t with
  | MCancel id =>
      match wmanager w !! id with
      | None => Goes w (Ret (RBool false))
      | Some m => Goes w (MCancelDo m)
      end
  | MCancelDo m =>
      with_managed m w (fun x =>
        match msession x with
        | None => Panics nilDeref
        | Some s => with_session s w (fun x =>
            Goes (put_session s (Session.cancel x) w) (Ret (RBool true)))
        end)
  | MAddHook id None => Goes w (Ret (RBool false))
  | MAddHook id (Some h) =>
      if negb (wreaders w =? 0) then Blocked
      else match wmanager w !! id with
      | None => Goes w (Ret (RBool false))
      | Some m =>
          with_managed m w (fun x =>
            Goes (put_managed m (mkManaged (msession x) (mhooks x ++ [h]) (msummary x)) w)
              (Ret (RBool true)))
      end
  | MSnapshot id =>
      match wmanager w !! id with
      | None => Goes w (Ret (REvents None))
      | Some m => Goes w (MSnapshotDo m)
      end
  | MSnapshotDo m =>
      with_msession m w (fun x => Goes w (Ret (REvents (Some (Session.EventsSnapshot x)))))
  | MGet id =>
      match wmanager w !! id with
      | None => Goes w (Ret (RGet None))
      | Some m => Goes w (CurCheck m ForGet)
      end
  | MList =>
      if negb (is_order (chOrder c) (wmanager w)) then Blocked
      else match chOrder c with
      | [] => Goes w (Ret (RList []))
      | m :: todo =>
          Goes (set_manager (wmanager w) (S (wreaders w)) (wmanaged w) w)
            (CurCheck m (ForList todo []))
      end
  | _ => Blocked
  end.

(** The next section of a goroutine. *)
Definition tstep (c : Choice) (w : World) (t : thread) : outcome :=
  match t with
  | PubStart _ _ | PubLock _ _ | PubEmit _ _ _ _ => publishStep c w t
  | SubLock _ | RemLock _ _ | RemClose _ => subscribeStep w t
  | SetState _ _ | CancelCtx _ => stateStep w t
  | CloseStart _ _ | CloseLock _ _ | CloseEach _ _ => closeStep c w t
  | RegStart _ | RegStats _ _ _ | RegLock _ _ | RegGo _ _ => registerStep w t
  | WatchStart _ | WatchWait _ _ | WatchStats _ _ _ _ | WatchEvents _ _ _
  | WatchLock _ _ _ _ | WatchHooks _ _ _ _ => watchStep w t
  | CurCheck _ _ | CurState _ _ | CurStats _ _ _ _ | CurID _ _ _ _ _ _ => currentStep w t
  | Ret _ => Blocked
  | _ => managerStep c w t
  end.

(** ** Interleaving *)

(** A method that a caller can invoke, as the goroutine's first point. *)
Definition sess_ok (w : World) (s : ptr) : bool := s <? length (wsessions w).

Definition entry (w : World) (t : thread) : bool :=
  match t with
  | PubStart s evt =>
      sess_ok w s && match evt with Some p => p <? length (wevents w) | None => true end
  | SubLock s | RemLock s _ | CancelCtx s | CloseStart s _ => sess_ok w s
  | SetState s st => sess_ok w s && bool_decide (st = StateOpen \/ st = StateClosing)
  | RegStart s => match s with Some s => sess_ok w s | None => true end
  | MCancel _ | MAddHook _ _ | MSnapshot _ | MGet _ | MList => true
  | _ => false
  end.

(** The labels of the transition system.  A label settles every choice: the
    step of a goroutine names the point it was at, a receive the event. *)
Inductive label :=
  | LEvent (e : Event)                                    (* a caller allocates an event *)
  | LSession (k : Kind) (c : Config) (fmt : string) (now : Z)  (* NewSession *)
  | LCall (t : thread)                                    (* a goroutine calls a method *)
  | LStep (tid : nat) (c : Choice) (t : thread)           (* goroutine tid runs a section *)
  | LRecv (l : ptr) (e : ptr).                            (* a receive from a listener's channel *)

(** NewSession: the session counter, then the session. *)
Definition newSession (k : Kind) (c : Config) (fmt : string) (now : Z) (w : World) : World :=
  let n := u64 (wscount w + 1) in
  mkWorld (wevents w) (wseq w) n
    (wsessions w ++ [Session.NewSession k c fmt n now])
    (wlisteners w) (wmanager w) (wreaders w) (wmanaged w) (wcalls w) (wthreads w).

(** A receive takes the first event of the channel's buffer. *)
Definition received (rest : list ptr) (x : listener) : listener :=
  Listener.with_ch x
    (Chan.mkChan (Chan.ccap (Listener.lch x)) rest (Chan.cclosed (Listener.lch x))).

Inductive step (w : World) : label -> World -> Prop :=
  | step_event e :
      step w (LEvent e) (set_events (fun l => l ++ [e]) w)
  | step_session k c fmt now :
      now <> 0%Z ->
      step w (LSession k c fmt now) (newSession k c fmt now w)
  | step_call t :
      entry w t = true ->
      step w (LCall t) (set_threads (wthreads w ++ [t]) w)
  | step_thread tid c t w' t' :
      wthreads w !! tid = Some t ->
      tstep c w t = Goes w' t' ->
      step w (LStep tid c t) (set_threads (<[tid := t']> (wthreads w')) w')
  | step_recv l x e rest :
      wlisteners w !! l = Some x ->
      Chan.cbuf (Listener.lch x) = e :: rest ->
      step w (LRecv l e) (put_listener l (received rest x) w).

(** Executions, with the labels in order. *)
Inductive run : World -> list label -> World -> Prop :=
  | run_nil w : run w [] w
  | run_snoc w ls w1 l w2 : run w ls w1 -> step w1 l w2 -> run w (ls ++ [l]) w2.

Definition reachable (w : World) : Prop := exists ls, run init ls w.

(** ** What a trace did *)

(** The events published to session [s], in the order of the critical sections. *)
Definition published (s : ptr) (ls : list label) : list ptr :=
  omap (fun l => match l with
    | LStep _ _ (PubLock s' e) => if decide (s' = s) then Some e else None
    | _ => None end) ls.

(** The events that were offered to listener [l] (one call of emit each). *)
Definition handed (l : ptr) (ls : list label) : list ptr :=
  omap (fun x => match x with
    | LStep _ _ (PubEmit _ e (l' :: _) _) => if decide (l' = l) then Some e else None
    | _ => None end) ls.

(** The events received from listener [l]. *)
Definition consumed (l : ptr) (ls : list label) : list ptr :=
  omap (fun x => match x with
    | LRecv l' e => if decide (l' = l) then Some e else None
    | _ => None end) ls.

(** The events a goroutine in Publish still has to offer to [l]. *)
Definition pend (l : ptr) (t : thread) : list ptr :=
  match t with
  | PubEmit _ e todo _ => replicate (length (filter (fun l' => l' = l) todo)) e
  | _ => []
  end.

Definition pending (l : ptr) (w : World) : list ptr := wthreads w ≫= pend l.

(** ** Running a schedule

    [act] is [step] as a function, so that schedules can be evaluated. *)

(** The label that runs goroutine [tid] with the choice [c], if it can. *)
Definition go (tid : nat) (c : Choice) (w : World) : option (label * World) :=
  match wthreads w !! tid with
  | None => None
  | Some t =>
      match tstep c w t with
      | Goes w' t' => Some (LStep tid c t, set_threads (<[tid := t']> (wthreads w')) w')
      | _ => None
      end
  end.

(** What a schedule asks for. *)
Inductive action :=
  | AEvent (e : Event)
  | ASession (k : Kind) (c : Config) (fmt : string) (now : Z)
  | ACall (t : thread)
  | AGo (tid : nat) (c : Choice)
  | ARecv (l : ptr).

Definition act (a : action) (w : World) : option (label * World) :=
  match a with
  | AEvent e => Some (LEvent e, set_events (fun l => l ++ [e]) w)
  | ASession k c fmt now =>
      if (now =? 0)%Z then None else Some (LSession k c fmt now, newSession k c fmt now w)
  | ACall t =>
      if entry w t then Some (LCall t, set_threads (wthreads w ++ [t]) w) else None
  | AGo tid c => go tid c w
  | ARecv l =>
      match wlisteners w !! l with
      | None => None
      | Some x =>
          match Chan.cbuf (Listener.lch x) with
          | [] => None
          | e :: rest => Some (LRecv l e, put_listener l (received rest x) w)
          end
      end
  end.

(** The labels and the final state of a schedule. *)
Fixpoint schedule (acts : list action) (w : World) : option (list label * World) :=
  match acts with
  | [] => Some ([], w)
  | a :: acts' =>
      match act a w with
      | None => None
      | Some (l, w') =>
          match schedule acts' w' with
          | None => None
          | Some (ls, w'') => Some (l :: ls, w'')
          end
      end
  end.
