(* ===== verification/StreamFacts.v ===== *)
(** * Facts about streams: the transcript, the invariant, what subscribers see

    The ring buffer holds the last events; the invariant [inv] of the
    interleaving; no critical section panics; what a subscriber is offered. *)
From stdpp Require Import base list strings gmap relations.
From Stdlib Require Import Ascii ZArith Lia.
From S2P Require Import Prelude Stream StreamWorld.

Open Scope string_scope.
Open Scope nat_scope.
Open Scope list_scope.

(** ** The ring buffer is a window on a list *)

(** The last [n] elements. *)
Definition lastn {A} (n : nat) (l : list A) : list A := drop (length l - n) l.

Lemma lastn_all {A} n (l : list A) : length l <= n -> lastn n l = l.
Proof. intros Hn. unfold lastn. by replace (length l - n) with 0 by lia. Qed.

Lemma lastn_snoc {A} n (l : list A) (x : A) :
  lastn n (lastn n l ++ [x]) = lastn n (l ++ [x]).
Proof.
  unfold lastn. rewrite !length_app, length_drop. simpl.
  destruct (decide (length l <= n)) as [Hl|Hl].
  - replace (length l - n) with 0 by lia. by rewrite Nat.sub_0_r.
  - destruct n as [|n].
    + transitivity (@nil A); [|symmetry]; apply drop_ge;
        rewrite length_app, ?length_drop; simpl; lia.
    + rewrite !drop_app_le by (rewrite ?length_drop; lia).
      rewrite drop_drop. f_equal. f_equal. lia.
Qed.

Lemma lastn_length {A} n (l : list A) : length (lastn n l) = Nat.min n (length l).
Proof. unfold lastn. rewrite length_drop. lia. Qed.

Section ring.
Context {A : Type}.
Implicit Types (r : Ring.ringBuffer A) (e : A).
Import Ring.

Definition ring_wf r : Prop :=
  0 < size r /\ length (items r) = size r /\ count r <= size r /\ head r < size r.

(** [r] holds exactly [xs], oldest first. *)
Definition holds r (xs : list A) : Prop :=
  ring_wf r /\ length xs = count r /\
  forall i x, xs !! i = Some x -> slot r i = Some x.

Lemma mod_wrap a n : a < n + n -> a mod n = if a <? n then a else a - n.
Proof.
  intros Ha. destruct (Nat.ltb_spec a n); [by apply Nat.mod_small|].
  replace a with ((a - n) + 1 * n) at 1 by lia.
  rewrite Nat.Div0.mod_add. apply Nat.mod_small. lia.
Qed.

Lemma holds_snapshot r xs : holds r xs -> snapshot r = Some <$> xs.
Proof.
  intros (_ & Hlen & Hslot). unfold snapshot.
  destruct (Nat.eqb_spec (count r) 0) as [Hz|_].
  { destruct xs; [done|simpl in *; lia]. }
  apply list_eq; intros i. rewrite !list_lookup_fmap, <- Hlen.
  destruct (xs !! i) as [x|] eqn:Hx.
  - pose proof (lookup_lt_Some _ _ _ Hx).
    rewrite lookup_seq_lt by lia. simpl. f_equal. eauto.
  - apply lookup_ge_None in Hx. rewrite lookup_seq_ge by lia. done.
Qed.

Lemma holds_new sz : holds (newRingBuffer sz : ringBuffer A) [].
Proof.
  unfold newRingBuffer.
  split; [|split; [done|intros i x; by rewrite lookup_nil]].
  unfold ring_wf; simpl. rewrite length_replicate.
  destruct (Z.leb_spec sz 0); lia.
Qed.

Lemma append_size r e : size (append r e) = size r.
Proof. unfold append. by repeat case_match. Qed.

Lemma holds_append r xs e :
  holds r xs -> holds (append r e) (lastn (size r) (xs ++ [e])).
Proof.
  intros ((Hpos & Hitems & Hcount & Hhead) & Hlen & Hslot).
  unfold append. destruct (Nat.eqb_spec (size r) 0) as [|_]; [lia|].
  destruct (Nat.ltb_spec (count r) (size r)) as [Hlt|Hge].
  - rewrite lastn_all by (rewrite length_app; simpl; lia).
    split; [|split].
    + unfold ring_wf; simpl. rewrite length_insert. lia.
    + rewrite length_app; simpl; lia.
    + intros i x Hx. unfold slot; simpl.
      pose proof (lookup_lt_Some _ _ _ Hx) as Hi. rewrite length_app in Hi; simpl in Hi.
      destruct (decide (i = count r)) as [->|Hne].
      * rewrite list_lookup_insert_eq; [|rewrite Hitems; apply Nat.mod_upper_bound; lia].
        rewrite lookup_app_r, Hlen, Nat.sub_diag in Hx by lia. by simpl in *.
      * rewrite list_lookup_insert_ne.
        -- rewrite lookup_app_l in Hx by lia. by apply Hslot.
        -- rewrite !mod_wrap by lia. destruct (Nat.ltb_spec (head r + count r) (size r)),
             (Nat.ltb_spec (head r + i) (size r)); lia.
  - assert (Hc : count r = size r) by lia.
    split; [|split].
    + unfold ring_wf; simpl. rewrite length_insert.
      pose proof (Nat.mod_upper_bound (head r + 1) (size r)). lia.
    + rewrite lastn_length, length_app; simpl; lia.
    + intros i x Hx. unfold slot; simpl.
      pose proof (lookup_lt_Some _ _ _ Hx) as Hi.
      rewrite lastn_length, length_app in Hi; simpl in Hi.
      unfold lastn in Hx. rewrite lookup_drop, length_app in Hx; simpl in Hx.
      replace (length xs + 1 - size r + i) with (S i) in Hx by lia.
      assert (Hm : ((head r + 1) mod size r + i) mod size r =
        if S i =? size r then head r else (head r + S i) mod size r).
      { rewrite Nat.Div0.add_mod_idemp_l. replace (head r + 1 + i) with (head r + S i) by lia.
        destruct (Nat.eqb_spec (S i) (size r)) as [->|]; [|done].
        rewrite mod_wrap by lia. destruct (Nat.ltb_spec (head r + size r) (size r)); lia. }
      rewrite Hm. destruct (Nat.eqb_spec (S i) (size r)) as [Heq|Hne].
      * rewrite list_lookup_insert_eq by lia.
        rewrite lookup_app_r, Heq in Hx by lia.
        replace (size r - length xs) with 0 in Hx by lia. by simpl in *.
      * rewrite list_lookup_insert_ne.
        -- rewrite lookup_app_l in Hx by lia. by apply Hslot.
        -- rewrite mod_wrap by lia. destruct (Nat.ltb_spec (head r + S i) (size r)); lia.
Qed.
End ring.

(** ** The invariant of the shared state *)

(** A session of a state with [n] listeners. *)
Record sess_wf (n : nat) (x : Session) : Prop := {
  sw_ring : exists xs, holds (Session.events x) xs;
  sw_size : Ring.size (Session.events x) = Z.to_nat (BufferSize (Session.cfg x));
  sw_buffer : (0 < ListenerBuffer (Session.cfg x))%Z;
  sw_listeners : forall i l, Session.listeners x !! i = Some l -> i < Session.nextLID x /\ l < n;
  sw_ended : Session.ended x = true -> Session.listeners x = ∅;
  sw_once : Session.closeOnce x = Session.done x;
  sw_done : Session.done x = true -> Session.ended x = true
}.

(** A channel never holds more than its capacity, and the listener's flag says
    whether it is closed. *)
Record lis_wf (x : listener) : Prop := {
  lw_cap : 0 < Chan.ccap (Listener.lch x);
  lw_len : length (Chan.cbuf (Listener.lch x)) <= Chan.ccap (Listener.lch x);
  lw_flag : Listener.lclosed x = Chan.cclosed (Listener.lch x)
}.

Record data_wf (w : World) : Prop := {
  dw_sess : forall s x, wsessions w !! s = Some x -> sess_wf (length (wlisteners w)) x;
  dw_lis : forall l x, wlisteners w !! l = Some x -> lis_wf x;
  (* a listener is registered at most once *)
  dw_inj : forall s1 s2 x1 x2 i1 i2 l,
    wsessions w !! s1 = Some x1 -> wsessions w !! s2 = Some x2 ->
    Session.listeners x1 !! i1 = Some l -> Session.listeners x2 !! i2 = Some l ->
    s1 = s2 /\ i1 = i2;
  dw_managed : forall m x s, wmanaged w !! m = Some x -> msession x = Some s ->
    s < length (wsessions w);
  dw_manager : forall i m, wmanager w !! i = Some m -> m < length (wmanaged w)
}.

(** How the state grows. *)
Definition sess_ext (x x' : Session) : Prop :=
  Session.id x' = Session.id x /\
  Session.cfg x' = Session.cfg x /\
  (Session.ended x = true -> Session.ended x' = true) /\
  (Session.done x = true -> Session.done x' = true).

Record ext (w w' : World) : Prop := {
  ext_events : length (wevents w) <= length (wevents w');
  ext_sess : forall s x, wsessions w !! s = Some x ->
    exists x', wsessions w' !! s = Some x' /\ sess_ext x x';
  ext_lis : length (wlisteners w) <= length (wlisteners w');
  ext_managed : length (wmanaged w) <= length (wmanaged w')
}.

Definition has_session (w : World) (s : ptr) : Prop := is_Some (wsessions w !! s).

Definition session_is (w : World) (s : ptr) (P : Session -> Prop) : Prop :=
  exists x, wsessions w !! s = Some x /\ P x.

Definition cont_wf (w : World) (k : summaryCont) : Prop :=
  match k with
  | ForGet => True
  | ForList todo _ => Forall (fun m => m < length (wmanaged w)) todo
  end.

(** What a goroutine may rely on at each of its points. *)
Definition thr_wf (w : World) (t : thread) : Prop :=
  let lis l := l < length (wlisteners w) in
  let man m := m < length (wmanaged w) in
  match t with
  | PubStart s (Some e) | PubLock s e => has_session w s /\ e < length (wevents w)
  | PubEmit s e todo _ => has_session w s /\ Forall lis todo
  | SubLock s | RemLock s _ | CancelCtx s | CloseStart s _ | CloseLock s _ => has_session w s
  | SetState s st => has_session w s /\ (st = StateOpen \/ st = StateClosing)
  | RemClose l => lis l
  | CloseEach s todo => session_is w s (fun x => Session.ended x = true) /\ Forall lis todo
  | RegStart (Some s) | RegStats s _ _ => has_session w s
  | RegLock s sum => session_is w s (fun x => smID sum = Session.id x)
  | RegGo m _ | WatchStart m | WatchHooks m _ _ _ => man m
  | WatchWait m s => man m /\ has_session w s
  | WatchStats m s _ _ => man m /\ session_is w s (fun x => Session.done x = true)
  | WatchEvents m s sum | WatchLock m s sum _ =>
      man m /\ session_is w s (fun x => Session.done x = true /\ smID sum = Session.id x)
  | MCancelDo m | MSnapshotDo m => man m
  | CurCheck m k | CurState m k | CurStats m k _ _ | CurID m k _ _ _ _ => man m /\ cont_wf w k
  | _ => True
  end.

Record inv (w : World) : Prop := {
  inv_data : data_wf w;
  inv_threads : Forall (thr_wf w) (wthreads w)
}.

(** *** Growth *)

#[export] Instance sess_ext_refl : Reflexive sess_ext.
Proof. by intros x. Qed.

#[export] Instance ext_refl : Reflexive ext.
Proof. intros w; split; try done. intros s x Hx. by exists x. Qed.

Lemma ext_same w w' :
  wevents w' = wevents w -> wsessions w' = wsessions w ->
  wlisteners w' = wlisteners w -> length (wmanaged w) <= length (wmanaged w') -> ext w w'.
Proof.
  intros He Hs Hl Hm. split; rewrite ?He, ?Hs, ?Hl; try done. intros s x Hx. by exists x.
Qed.

Lemma session_is_ext w w' s (P Q : Session -> Prop) :
  ext w w' -> (forall x x', sess_ext x x' -> P x -> Q x') ->
  session_is w s P -> session_is w' s Q.
Proof.
  intros Hext HPQ (x & Hx & HP). destruct (ext_sess _ _ Hext _ _ Hx) as (x' & Hx' & He).
  exists x'. eauto.
Qed.

Lemma has_session_ext w w' s : ext w w' -> has_session w s -> has_session w' s.
Proof.
  intros Hext [x Hx]. destruct (ext_sess _ _ Hext _ _ Hx) as (x' & Hx' & _). by exists x'.
Qed.

Lemma Forall_lt_le (n m : nat) l : n <= m -> Forall (fun i => i < n) l -> Forall (fun i => i < m) l.
Proof. intros Hle H. eapply Forall_impl; [exact H|]. simpl; lia. Qed.

(** A goroutine's assumptions survive the steps of the others. *)
Lemma thr_wf_ext w w' t : ext w w' -> thr_wf w t -> thr_wf w' t.
Proof.
  intros Hext. pose proof (ext_events _ _ Hext). pose proof (ext_lis _ _ Hext).
  pose proof (ext_managed _ _ Hext).
  assert (Hk : forall k, cont_wf w k -> cont_wf w' k).
  { intros [|]; simpl; [done|]. by apply Forall_lt_le. }
  destruct t as [? []| | | | | | | | | | |[]| | | | | | | | | | | |? []| | | | | | | | |]; simpl;
    intuition (eauto using has_session_ext, Forall_lt_le with lia);
    (eapply session_is_ext; [done| |done]); unfold sess_ext; simpl; intuition congruence.
Qed.

(** *** Updates of one object *)

Lemma valid_lookup {A} (l : list A) i : i < length l -> is_Some (l !! i).
Proof. apply lookup_lt_is_Some_2. Qed.

Lemma put_session_wf w s x x' :
  wsessions w !! s = Some x -> sess_wf (length (wlisteners w)) x' -> sess_ext x x' ->
  Session.listeners x' ⊆ Session.listeners x ->
  data_wf w -> data_wf (put_session s x' w) /\ ext w (put_session s x' w).
Proof.
  intros Hx Hwf Hext Hsub [Hs Hl Hi Hm Hg]. split.
  - split; simpl; try done.
    + intros s' y Hy. apply list_lookup_insert_Some in Hy as [(-> & -> & _)|[_ Hy]]; eauto.
    + assert (Hold : forall s' y i l,
        <[s:=x']> (wsessions w) !! s' = Some y -> Session.listeners y !! i = Some l ->
        exists y0, wsessions w !! s' = Some y0 /\ Session.listeners y0 !! i = Some l).
      { intros s' y i l Hy Hil.
        apply list_lookup_insert_Some in Hy as [(-> & -> & _)|[_ Hy]]; [|eauto].
        exists x. split; [done|]. by eapply lookup_weaken. }
      intros s1 s2 x1 x2 i1 i2 l H1 H2 L1 L2.
      destruct (Hold _ _ _ _ H1 L1) as (y1 & ? & ?), (Hold _ _ _ _ H2 L2) as (y2 & ? & ?). eauto.
    + intros. rewrite length_insert. eauto.
  - split; simpl; try done. intros s' y Hy.
    destruct (decide (s = s')) as [<-|Hne].
    + exists x'. rewrite list_lookup_insert_eq by (by eapply lookup_lt_Some). split; [done|]. by simplify_eq.
    + exists y. by rewrite list_lookup_insert_ne.
Qed.

Lemma put_listener_wf w l x' :
  lis_wf x' -> data_wf w -> data_wf (put_listener l x' w) /\ ext w (put_listener l x' w).
Proof.
  intros Hwf [Hs Hl Hi Hm Hg]. split.
  - split; simpl; try done.
    + intros. rewrite length_insert. eauto.
    + intros l' y Hy. apply list_lookup_insert_Some in Hy as [(-> & -> & _)|[_ Hy]]; eauto.
  - split; simpl; rewrite ?length_insert; try done. intros s y Hy. by exists y.
Qed.

Lemma sess_wf_weaken n m x : n <= m -> sess_wf n x -> sess_wf m x.
Proof.
  intros Hle [H1 H2 H3 H4 H5 H6 H7]. split; try done.
  intros i l Hil. destruct (H4 _ _ Hil). lia.
Qed.

(** The same data under other threads, event contents and counters. *)
Lemma data_wf_same w w' :
  wsessions w' = wsessions w -> wlisteners w' = wlisteners w ->
  wmanager w' = wmanager w -> wmanaged w' = wmanaged w -> data_wf w -> data_wf w'.
Proof.
  intros E1 E2 E3 E4 [? ? ? ? ?]. split; rewrite ?E1, ?E2, ?E3, ?E4; done.
Qed.

(** A new listener, registered under the next id of a session that is live. *)
Lemma subscribe_wf w s x :
  wsessions w !! s = Some x -> Session.ended x = false -> data_wf w ->
  let w' := set_listeners (wlisteners w ++ [Listener.new (Session.cfg x)])
              (put_session s (Session.addListener (length (wlisteners w)) x) w) in
  data_wf w' /\ ext w w'.
Proof.
  intros Hx Hend [Hs Hl Hi Hm Hg]. simpl. set (n := length (wlisteners w)).
  pose proof (Hs _ _ Hx) as [H1 H2 H3 H4 H5 H6 H7].
  assert (Hfresh : forall s' y i, wsessions w !! s' = Some y -> Session.listeners y !! i = Some n -> False).
  { intros s' y i Hy Hin. destruct (sw_listeners _ _ (Hs _ _ Hy) _ _ Hin). lia. }
  split.
  - split; simpl; try done.
    + intros s' y Hy. rewrite length_app.
      apply list_lookup_insert_Some in Hy as [(<- & <- & _)|[_ Hy]].
      * split; simpl; try done; [|unfold Session.ended in *; simpl; congruence].
        intros i l Hil. apply lookup_insert_Some in Hil as [[<- <-]|[_ Hil]]; [lia|].
        destruct (H4 _ _ Hil); lia.
      * eapply sess_wf_weaken; [|by eauto]. lia.
    + intros l y Hy. apply lookup_app_Some in Hy as [Hy|[_ Hy]]; [by eauto|].
      apply list_lookup_singleton_Some in Hy as [_ <-]. split; simpl; lia.
    + assert (Hold : forall s' y i l,
        <[s:=Session.addListener n x]> (wsessions w) !! s' = Some y ->
        Session.listeners y !! i = Some l ->
        (s' = s /\ i = Session.nextLID x /\ l = n) \/
        exists y0, wsessions w !! s' = Some y0 /\ Session.listeners y0 !! i = Some l).
      { intros s' y i l Hy Hil.
        apply list_lookup_insert_Some in Hy as [(<- & <- & _)|[_ Hy]]; [|eauto].
        simpl in Hil. apply lookup_insert_Some in Hil as [[<- <-]|[_ Hil]]; eauto. }
      intros s1 s2 x1 x2 i1 i2 l G1 G2 L1 L2.
      destruct (Hold _ _ _ _ G1 L1) as [(-> & -> & ->)|(y1 & ? & ?)],
        (Hold _ _ _ _ G2 L2) as [(-> & -> & Heq)|(y2 & ? & ?)]; subst; first [done|by exfalso; eauto|by eauto].
    + intros. rewrite length_insert. eauto.
  - split; simpl; rewrite ?length_app; try lia.
    intros s' y Hy. destruct (decide (s = s')) as [<-|Hne].
    + eexists. rewrite list_lookup_insert_eq by (by eapply lookup_lt_Some).
      split; [done|]. simplify_eq. done.
    + exists y. by rewrite list_lookup_insert_ne.
Qed.

(** ** Every critical section keeps the invariant *)

Lemma emit_wf r1 r2 e x :
  lis_wf x -> exists b x', Listener.emit r1 r2 e x = Ok (b, x') /\ lis_wf x'.
Proof.
  intros [Hcap Hlen Hflag]. unfold Listener.emit, Listener.shut, Chan.trySend, Chan.closeChan.
  destruct x as [[cap buf cl] cnt pol fl]; simpl in *; subst fl.
  destruct cl; [eauto 10 using Build_lis_wf|].
  destruct (Nat.ltb_spec (length buf) cap).
  { do 2 eexists; split; [done|]. split; simpl; rewrite ?length_app; simpl; lia. }
  repeat case_match; simpl in *; simplify_eq;
    (do 2 eexists; split; [done|]; split; simpl;
     rewrite ?length_app, ?length_drop; simpl; rewrite ?length_drop; lia || done).
Qed.

Lemma close_wf x :
  lis_wf x -> exists x', Listener.close x = Ok x' /\ lis_wf x' /\ Listener.lclosed x' = true.
Proof.
  intros [Hcap Hlen Hflag]. unfold Listener.close, Listener.shut, Chan.closeChan.
  destruct x as [[cap buf cl] cnt pol fl]; simpl in *; subst fl.
  destruct cl; (eexists; split; [done|]; split; [split|]; done).
Qed.

Lemma sess_wf_new n k c fmt cnt now : sess_wf n (Session.NewSession k c fmt cnt now).
Proof.
  split; simpl; try done.
  - exists []. apply holds_new.
  - destruct (Z.leb_spec (BufferSize c) 0); simpl; [done|].
    unfold Ring.newRingBuffer; simpl. by destruct (Z.leb_spec (BufferSize c) 0); [lia|].
  - destruct (Z.leb_spec (ListenerBuffer c) 0); lia.
Qed.

(** The updates of a session that leave its listeners alone or drop some. *)
Lemma publishLocked_wf n e k x : sess_wf n x -> sess_wf n (Session.publishLocked e k x).
Proof.
  intros [[xs Hxs] H2 H3 H4 H5 H6 H7]. split; simpl; try done.
  - eexists. by apply holds_append.
  - by rewrite append_size.
Qed.

Lemma closeLocked_wf n now e x :
  now <> 0%Z -> sess_wf n x ->
  sess_wf n (Session.closeLocked now e x) /\
  Session.ended (Session.closeLocked now e x) = true /\
  sess_ext x (Session.closeLocked now e x).
Proof.
  intros Hnow [H1 H2 H3 H4 H5 H6 H7]. unfold Session.closeLocked, sess_ext.
  destruct (Session.ended x) eqn:He; unfold Session.ended; simpl.
  - split; [|done]. split; simpl; try done.
  - apply Z.eqb_neq in Hnow. rewrite Hnow. split; [|done].
    split; unfold Session.ended; simpl; rewrite ?Hnow; done.
Qed.

Lemma closeDone_wf n x :
  sess_wf n x -> Session.ended x = true ->
  exists x', Session.closeDone x = Ok x' /\ sess_wf n x' /\ sess_ext x x' /\
    Session.done x' = true /\ Session.listeners x' = Session.listeners x.
Proof.
  intros [H1 H2 H3 H4 H5 H6 H7] He. unfold Session.closeDone. rewrite H6.
  destruct (Session.done x) eqn:Hd.
  - exists x. split_and!; [done|split; (done || congruence)|done|done|done].
  - eexists. split; [done|]. unfold sess_ext. split; [split|]; done.
Qed.

(** The one panic the code can reach: the manager's readers that use
    [managed.session] after the lock is released. *)
Definition reads_unlocked (t : thread) : bool :=
  match t with
  | MCancelDo _ | MSnapshotDo _ => true
  | CurState _ ForGet | CurStats _ ForGet _ _ | CurID _ ForGet _ _ _ _ => true
  | _ => false
  end.

(** What a step leaves behind: the data, growth, the goroutine's next point,
    and the other goroutines, of which Register may have started one. *)
Record step_ok (w w' : World) (t' : thread) : Prop := {
  so_data : data_wf w';
  so_ext : ext w w';
  so_thr : thr_wf w' t';
  so_others : wthreads w' = wthreads w \/
    exists m, m < length (wmanaged w') /\ wthreads w' = wthreads w ++ [WatchStart m]
}.

(** A session step: an update, and the next point of the goroutine. *)
Lemma session_step w s x x' t' :
  data_wf w -> wsessions w !! s = Some x ->
  sess_wf (length (wlisteners w)) x' -> sess_ext x x' ->
  Session.listeners x' ⊆ Session.listeners x ->
  (ext w (put_session s x' w) -> thr_wf (put_session s x' w) t') ->
  step_ok w (put_session s x' w) t'.
Proof.
  intros Hd Hx Hwf Hext Hsub Ht.
  destruct (put_session_wf _ _ _ _ Hx Hwf Hext Hsub Hd) as [? ?].
  split; auto.
Qed.

Lemma listener_step w l x' t' :
  data_wf w -> lis_wf x' -> thr_wf w t' -> step_ok w (put_listener l x' w) t'.
Proof.
  intros Hd Hwf Ht. destruct (put_listener_wf _ l _ Hwf Hd) as [? ?].
  split; auto. by eapply thr_wf_ext.
Qed.

(** Steps that change neither sessions nor listeners. *)
Lemma same_step w w' t' :
  data_wf w -> wsessions w' = wsessions w -> wlisteners w' = wlisteners w ->
  length (wevents w) <= length (wevents w') ->
  wmanager w' = wmanager w -> wmanaged w' = wmanaged w -> wthreads w' = wthreads w ->
  (ext w w' -> thr_wf w' t') -> step_ok w w' t'.
Proof.
  intros Hd E1 E2 E3 E4 E5 E6 Ht.
  assert (Hext : ext w w').
  { split; rewrite ?E1, ?E2, ?E5; try done. intros s x Hx. by exists x. }
  split; eauto using data_wf_same.
Qed.

Lemma refl_step w t' : data_wf w -> thr_wf w t' -> step_ok w w t'.
Proof. intros. by apply same_step. Qed.

Lemma orders_listeners {K} `{EqDecision K, !Countable K} order (m : gmap K ptr) n :
  (forall i l, m !! i = Some l -> l < n) -> is_order order m = true ->
  Forall (fun l => l < n) order.
Proof.
  intros Hm Ho. apply bool_decide_eq_true_1 in Ho. rewrite Ho.
  apply Forall_forall. intros l Hl. apply list_elem_of_fmap in Hl as ([i l'] & -> & Hl).
  apply elem_of_map_to_list in Hl. eauto.
Qed.

Definition safe_outcome (w : World) (t : thread) (o : outcome) : Prop :=
  match o with
  | Blocked => True
  | Panics _ => reads_unlocked t = true
  | Goes w' t' => step_ok w w' t'
  end.

Lemma publishStep_ok c w t :
  data_wf w -> thr_wf w t -> safe_outcome w t (publishStep c w t).
Proof.
  intros Hd Ht. destruct t as [s [e|]|s e|s e [|l todo] n| | | | | | | | | | | | | | | | | | | | | | | | | | | | | |];
    try done; simpl in *.
  - destruct Ht as [Hs He]. case_match; [done|].
    destruct (valid_lookup _ _ He) as [ev Hev]. rewrite Hev. simpl.
    apply same_step; simpl; rewrite ?length_insert; try done.
  - apply refl_step; [done|done].
  - destruct Ht as [[x Hx] He]. unfold with_session. rewrite Hx. case_match; [|done].
    simpl. eapply session_step; try done; [by eapply publishLocked_wf, dw_sess|].
    intros Hext. split; [eapply has_session_ext; [done|by exists x]|].
    eapply orders_listeners; [|done]. intros i l Hl.
    by destruct (sw_listeners _ _ (dw_sess _ Hd _ _ Hx) _ _ Hl).
  - case_match; [by apply refl_step|]. destruct Ht as [[x Hx] _].
    unfold with_session. rewrite Hx. simpl. eapply session_step; try done.
    by destruct (dw_sess _ Hd _ _ Hx).
  - destruct Ht as [Hs [Hl Htodo]%Forall_cons]. unfold with_listener.
    destruct (valid_lookup _ _ Hl) as [x Hx]. rewrite Hx.
    destruct (emit_wf (chTaken1 c) (chTaken2 c) e x) as (b & x' & -> & Hwf);
      [by eapply dw_lis|]. simpl. by apply listener_step.
Qed.

(** The points of the methods of Session other than Publish. *)
Definition session_op (t : thread) : bool :=
  match t with
  | SubLock _ | RemLock _ _ | RemClose _ | SetState _ _ | CancelCtx _
  | CloseStart _ _ | CloseLock _ _ | CloseEach _ _ => true
  | _ => false
  end.

Lemma sessionStep_ok c w t :
  session_op t = true -> data_wf w -> thr_wf w t -> safe_outcome w t (tstep c w t).
Proof.
  intros Hop Hd Ht.
  destruct t as [| | |s|s i|l|s st|s|s e|s e|s [|l todo]| | | | | | | | | | | | | | | | | | | | | |];
    try done; simpl in *.
  - destruct Ht as [x Hx]. unfold with_session. rewrite Hx.
    destruct (Session.ended x) eqn:He; [by apply refl_step|]. simpl.
    destruct (subscribe_wf _ _ _ Hx He Hd). split; try done. by left.
  - destruct Ht as [x Hx]. unfold with_session. rewrite Hx.
    pose proof (dw_sess _ Hd _ _ Hx) as [H1 H2 H3 H4 H5 H6 H7].
    destruct (Session.listeners x !! i) as [l|] eqn:Hi; [|by apply refl_step].
    simpl. eapply session_step; try done; simpl.
    + split; simpl; try done.
      * intros j l' [_ Hj]%lookup_delete_Some. eauto.
      * intros He%H5. by rewrite He, delete_empty.
    + apply delete_subseteq.
    + intros _. simpl. by destruct (H4 _ _ Hi).
  - unfold with_listener. destruct (valid_lookup _ _ Ht) as [x Hx]. rewrite Hx.
    destruct (close_wf x) as (x' & -> & Hwf & _); [by eapply dw_lis|].
    simpl. by apply listener_step.
  - destruct Ht as [[x Hx] _]. unfold with_session. rewrite Hx. simpl.
    eapply session_step; try done. by destruct (dw_sess _ Hd _ _ Hx).
  - destruct Ht as [x Hx]. unfold with_session. rewrite Hx. simpl.
    eapply session_step; try done. by destruct (dw_sess _ Hd _ _ Hx).
  - destruct Ht as [x Hx]. unfold with_session. rewrite Hx. simpl.
    eapply session_step; try done; [by destruct (dw_sess _ Hd _ _ Hx)|].
    intros Hext. eapply has_session_ext; [done|by exists x].
  - destruct Ht as [x Hx]. unfold with_session. rewrite Hx.
    destruct (chNow c =? 0)%Z eqn:Hnow; [done|]. destruct (is_order _ _) eqn:Ho; [|done].
    apply Z.eqb_neq in Hnow. pose proof (dw_sess _ Hd _ _ Hx) as Hwf.
    destruct (closeLocked_wf _ (chNow c) e _ Hnow Hwf) as (? & He & ?).
    assert (Hnone : Session.listeners (Session.closeLocked (chNow c) e x) = ∅).
    { unfold Session.closeLocked. by destruct (Session.ended x). }
    simpl. eapply session_step; try done; [by rewrite Hnone; apply map_empty_subseteq|].
    intros _. split.
    + eexists. split; [|exact He]. simpl. apply list_lookup_insert_eq. by eapply lookup_lt_Some.
    + eapply orders_listeners; [|done]. intros i l Hl. by destruct (sw_listeners _ _ Hwf _ _ Hl).
  - destruct Ht as [(x & Hx & He) _]. unfold with_session. rewrite Hx.
    pose proof (dw_sess _ Hd _ _ Hx) as Hwf.
    destruct (closeDone_wf _ _ Hwf He) as (x' & -> & ? & ? & ? & Hl). simpl.
    eapply session_step; try done. by rewrite Hl.
  - destruct Ht as [Hs [Hl Htodo]%Forall_cons]. unfold with_listener.
    destruct (valid_lookup _ _ Hl) as [x Hx]. rewrite Hx.
    destruct (close_wf x) as (x' & -> & Hwf & _); [by eapply dw_lis|].
    simpl. by apply listener_step.
Qed.

(** *** The manager's sections *)

(** A step that changes only the manager. *)
Lemma manager_step w g n ms t' :
  data_wf w -> length (wmanaged w) <= length ms ->
  (forall i m, g !! i = Some m -> m < length ms) ->
  (forall m x s, ms !! m = Some x -> msession x = Some s -> s < length (wsessions w)) ->
  (ext w (set_manager g n ms w) -> thr_wf (set_manager g n ms w) t') ->
  step_ok w (set_manager g n ms w) t'.
Proof.
  intros [H1 H2 H3 H4 H5] Hlen Hg Hms Ht.
  assert (Hext : ext w (set_manager g n ms w)) by (by apply ext_same).
  split; [by split|done|auto|by left].
Qed.

Lemma registerStep_ok w t :
  data_wf w -> thr_wf w t -> safe_outcome w t (registerStep w t).
Proof.
  intros Hd Ht.
  destruct t as [| | | | | | | | | | |[s|]|s st e|s sum|m sum| | | | | | | | | | | | | | | | | |];
    try done; simpl in *.
  - destruct Ht as [x Hx]. unfold with_session. rewrite Hx. apply refl_step; [done|by exists x].
  - by apply refl_step.
  - destruct Ht as [x Hx]. unfold with_session. rewrite Hx. apply refl_step; [done|by exists x].
  - destruct Ht as (x & Hx & Hid). destruct (wreaders w =? 0) eqn:?; [|done]. simpl.
    apply manager_step; [done| | | |]; rewrite ?length_app; simpl; [lia| | |].
    + intros i m [[<- <-]|[_ Hm]]%lookup_insert_Some; [lia|].
      pose proof (dw_manager _ Hd _ _ Hm). lia.
    + intros m y s' [Hy|[_ Hy]]%lookup_app_Some Hs; [by eapply dw_managed|].
      apply list_lookup_singleton_Some in Hy as [_ <-]. simpl in Hs. simplify_eq.
      by eapply lookup_lt_Some.
    + intros _. rewrite length_app; simpl; lia.
  - split; [|apply ext_same; simpl; (done || lia)|done|by eauto]. by apply (data_wf_same w).
Qed.

Lemma watchStep_ok w t :
  data_wf w -> thr_wf w t -> safe_outcome w t (watchStep w t).
Proof.
  intros Hd Ht.
  destruct t as [| | | | | | | | | | | | | | |m|m s|m s st e|m s sum|m s sum evs|m [|h hooks] sum evs| | | | | | | | | | | |];
    try done; simpl in *.
  - unfold with_managed. destruct (valid_lookup _ _ Ht) as [x Hx]. rewrite Hx.
    destruct (msession x) as [s|] eqn:Hs; apply refl_step; try done. split; [done|].
    apply lookup_lt_is_Some_2. by eapply dw_managed.
  - destruct Ht as [Hm [x Hx]]. unfold with_session. rewrite Hx.
    destruct (Session.done x) eqn:?; [|done]. apply refl_step; [done|].
    split; [done|]. by exists x.
  - destruct Ht as [Hm (x & Hx & Hdone)]. unfold with_session. rewrite Hx.
    apply refl_step; [done|]. split; [done|]. by exists x.
  - destruct Ht as [Hm (x & Hx & Hdone & Hid)]. unfold with_session. rewrite Hx.
    apply refl_step; [done|]. split; [done|]. by exists x.
  - destruct Ht as [Hm _]. destruct (wreaders w =? 0) eqn:?; [|done]. simpl.
    unfold with_managed. destruct (valid_lookup _ _ Hm) as [x Hx]. rewrite Hx. simpl.
    apply manager_step; [done| | | |intros _; simpl; by rewrite length_insert]; rewrite ?length_insert; [done| |].
    + intros i m' [_ Hm']%lookup_delete_Some. by eapply dw_manager.
    + intros m' y s' Hy Hs.
      apply list_lookup_insert_Some in Hy as [(-> & <- & _)|[_ Hy]]; [done|by eapply dw_managed].
  - by apply refl_step.
  - by apply same_step.
Qed.

(** The session of [m] is still attached. *)
Definition msess (w : World) (m : ptr) : option ptr := wmanaged w !! m ≫= msession.

Definition attached (w : World) (m : ptr) : Prop := is_Some (msess w m).

(** What List relies on while it holds the read lock. *)
Definition list_wf (w : World) (t : thread) : Prop :=
  match t with
  | CurState m (ForList _ _) | CurStats m (ForList _ _) _ _ | CurID m (ForList _ _) _ _ _ _ =>
      attached w m
  | _ => True
  end.

Lemma summaryDone_ok w t sum k :
  data_wf w -> cont_wf w k -> safe_outcome w t (summaryDone sum k w).
Proof.
  intros Hd Hk. destruct k as [|[|m todo] acc]; simpl.
  - by apply refl_step.
  - apply manager_step; try done; [by apply (dw_manager _ Hd)|by apply (dw_managed _ Hd)].
  - apply Forall_cons in Hk as [??]. by apply refl_step.
Qed.

(** [with_msession] either panics in one of the unlocked readers, or reads a
    session. *)
Lemma with_msession_ok w t m k :
  data_wf w -> m < length (wmanaged w) -> (attached w m \/ reads_unlocked t = true) ->
  (forall x, safe_outcome w t (k x)) -> safe_outcome w t (with_msession m w k).
Proof.
  intros Hd Hm Hor Hk. unfold with_msession, with_managed, with_session.
  destruct (valid_lookup _ _ Hm) as [x Hx]. rewrite Hx.
  destruct (msession x) as [s|] eqn:Hs.
  - destruct (valid_lookup (wsessions w) s) as [y Hy]; [by eapply dw_managed|].
    rewrite Hy. apply Hk.
  - destruct Hor as [[s Hat]|?]; [|done]. unfold msess in Hat. rewrite Hx in Hat. simpl in *. congruence.
Qed.

(** The points of the methods of Manager other than Register. *)
Definition manager_op (t : thread) : bool :=
  match t with
  | MCancel _ | MCancelDo _ | MAddHook _ _ | MSnapshot _ | MSnapshotDo _ | MGet _ | MList
  | CurCheck _ _ | CurState _ _ | CurStats _ _ _ _ | CurID _ _ _ _ _ _ => true
  | _ => false
  end.

Lemma managerStep_ok c w t :
  manager_op t = true -> data_wf w -> thr_wf w t -> list_wf w t -> safe_outcome w t (tstep c w t).
Proof.
  intros Hop Hd Ht Hl.
  destruct t as [| | | | | | | | | | | | | | | | | | | | |i|m|i [h|]|i|m|i| |m k|m k|m k st e|m k st e sa ea|];
    try done; simpl in *.
  - destruct (wmanager w !! i) eqn:Hi; apply refl_step; try done. by eapply dw_manager.
  - unfold with_managed. destruct (valid_lookup _ _ Ht) as [x Hx]. rewrite Hx.
    destruct (msession x) as [s|] eqn:Hs; [|done]. unfold with_session.
    destruct (valid_lookup (wsessions w) s) as [y Hy]; [by eapply dw_managed|]. rewrite Hy. simpl.
    eapply session_step; try done. by destruct (dw_sess _ Hd _ _ Hy).
  - destruct (wreaders w =? 0); [|done]. simpl.
    destruct (wmanager w !! i) as [m|] eqn:Hi; [|by apply refl_step].
    unfold with_managed. destruct (valid_lookup _ _ (dw_manager _ Hd _ _ Hi)) as [x Hx].
    rewrite Hx. simpl. apply manager_step; try done; rewrite ?length_insert; try done.
    + by apply (dw_manager _ Hd).
    + intros m' y s' Hy Hs.
      apply list_lookup_insert_Some in Hy as [(-> & <- & _)|[_ Hy]]; by eapply dw_managed.
  - by apply refl_step.
  - destruct (wmanager w !! i) eqn:Hi; apply refl_step; try done. by eapply dw_manager.
  - apply with_msession_ok; [done|done|by right|]. intros x. by apply refl_step.
  - destruct (wmanager w !! i) eqn:Hi; apply refl_step; try done. split; [|done].
    by eapply dw_manager.
  - destruct (is_order (chOrder c) (wmanager w)) eqn:Ho; [|done]. simpl.
    apply (orders_listeners _ _ (length (wmanaged w))) in Ho; [|by apply (dw_manager _ Hd)].
    destruct (chOrder c) as [|m todo]; [by apply refl_step|].
    apply Forall_cons in Ho as [??].
    apply manager_step; try done; [by apply (dw_manager _ Hd)|by apply (dw_managed _ Hd)].
  - destruct Ht as [Hm Hk]. unfold with_managed. destruct (valid_lookup _ _ Hm) as [x Hx].
    rewrite Hx. destruct (msession x); [by apply refl_step|by apply summaryDone_ok].
  - destruct Ht as [Hm Hk]. apply with_msession_ok; [done|done| |].
    + destruct k; [by right|by left].
    + intros x. by apply refl_step.
  - destruct Ht as [Hm Hk]. apply with_msession_ok; [done|done| |].
    + destruct k; [by right|by left].
    + intros x. by apply refl_step.
  - destruct Ht as [Hm Hk]. apply with_msession_ok; [done|done| |].
    + destruct k; [by right|by left].
    + intros x. by apply summaryDone_ok.
Qed.

Lemma tstep_ok c w t :
  data_wf w -> thr_wf w t -> list_wf w t -> safe_outcome w t (tstep c w t).
Proof.
  intros Hd Ht Hl.
  destruct t; try (by apply sessionStep_ok); try (by apply managerStep_ok);
    cbn [tstep]; auto using publishStep_ok, registerStep_ok, watchStep_ok.
Qed.
