(* ===== verification/StreamSafe.v ===== *)
(** * The stream manager: which goroutine may panic, and completion hooks

    The full invariant of the interleaving and the safety theorems: no section
    of a session panics, channels stay within their capacity, and a completion
    hook that was accepted runs exactly once, in the order of acceptance. *)
From stdpp Require Import base list strings gmap relations.
From Stdlib Require Import Ascii ZArith Lia.
From S2P Require Import Prelude Stream StreamWorld StreamFacts.

Open Scope string_scope.
Open Scope nat_scope.
Open Scope list_scope.

(** ** Counting goroutines *)

Definition cnt (f : thread -> bool) (ts : list thread) : nat :=
  sum_list_with (fun t => if f t then 1 else 0) ts.

Lemma cnt_app f ts1 ts2 : cnt f (ts1 ++ ts2) = cnt f ts1 + cnt f ts2.
Proof. apply sum_list_with_app. Qed.

Lemma cnt_insert f ts i t t' :
  ts !! i = Some t ->
  cnt f (<[i := t']> ts) + (if f t then 1 else 0) = cnt f ts + (if f t' then 1 else 0).
Proof.
  intros Hi. rewrite <- (take_drop_middle ts i t Hi) at 2.
  rewrite insert_take_drop by (by eapply lookup_lt_Some).
  rewrite !cnt_app. unfold cnt; simpl. lia.
Qed.

Lemma cnt_pos f ts i t : ts !! i = Some t -> f t = true -> 0 < cnt f ts.
Proof.
  intros Hi Hf. rewrite <- (take_drop_middle ts i t Hi), cnt_app. unfold cnt; simpl.
  rewrite Hf. lia.
Qed.

Definition listing (t : thread) : bool :=
  match t with
  | CurCheck _ (ForList _ _) | CurState _ (ForList _ _) | CurStats _ (ForList _ _) _ _
  | CurID _ (ForList _ _) _ _ _ _ => true
  | _ => false
  end.

(** The goroutine that watches managed session [m], before it detaches it. *)
Definition watching (m : ptr) (t : thread) : bool :=
  match t with
  | RegGo m' _ | WatchStart m' | WatchWait m' _ | WatchStats m' _ _ _
  | WatchEvents m' _ _ | WatchLock m' _ _ _ => m' =? m
  | _ => false
  end.

Definition hooking (m : ptr) (t : thread) : bool :=
  match t with WatchHooks m' _ _ _ => m' =? m | _ => false end.

Definition attachedb (w : World) (m : ptr) : bool :=
  match msess w m with Some _ => true | None => false end.

(** The session a watcher read is the one of its managed session. *)
Definition watch_wf (w : World) (t : thread) : Prop :=
  match t with
  | WatchWait m s | WatchStats m s _ _ | WatchEvents m s _ | WatchLock m s _ _ =>
      msess w m = Some s
  | _ => True
  end.

Record man_wf (w : World) : Prop := {
  mw_readers : wreaders w = cnt listing (wthreads w);
  mw_list : Forall (list_wf w) (wthreads w);
  mw_watch : forall m, cnt (watching m) (wthreads w) = if attachedb w m then 1 else 0;
  mw_hook : forall m, cnt (hooking m) (wthreads w) + cnt (watching m) (wthreads w) <= 1;
  mw_key : forall i m, wmanager w !! i = Some m ->
    exists s y, msess w m = Some s /\ wsessions w !! s = Some y /\ Session.id y = i;
  mw_sess : Forall (watch_wf w) (wthreads w)
}.

Record wf (w : World) : Prop := {
  wf_inv : inv w;
  wf_man : man_wf w
}.

(** *** Steps that attach and detach nothing *)

Lemma list_wf_same w w' t :
  (forall m, msess w' m = msess w m) -> list_wf w t -> list_wf w' t.
Proof. intros E. unfold list_wf, attached. by destruct t as [| | | | | | | | | | | | | | | | | | | | | | | | | | | | |? []|? []|? []|]; rewrite ?E. Qed.

Lemma watch_wf_same w w' t :
  (forall m, msess w' m = msess w m) -> watch_wf w t -> watch_wf w' t.
Proof. intros E. unfold watch_wf. by destruct t; rewrite ?E. Qed.

(** A step of goroutine [tid] from [t] to [t'] that keeps the manager's map and
    every managed session's session. *)
Lemma man_wf_same w w' tid t t' :
  man_wf w -> wthreads w !! tid = Some t -> wthreads w' = wthreads w -> ext w w' ->
  wmanager w' = wmanager w -> (forall m, msess w' m = msess w m) ->
  wreaders w' + (if listing t then 1 else 0) = wreaders w + (if listing t' then 1 else 0) ->
  (forall m, watching m t' = watching m t) ->
  (forall m, hooking m t' = true -> hooking m t = true) ->
  list_wf w t' -> watch_wf w t' ->
  man_wf (set_threads (<[tid := t']> (wthreads w')) w').
Proof.
  intros [R1 R2 R3 R4 R5 R6] Ht Hth Hext E1 E2 Hl Hw Hh Hlt Hwt.
  rewrite Hth. split; simpl.
  - pose proof (cnt_insert listing _ _ _ t' Ht). lia.
  - apply Forall_insert; [|by apply (list_wf_same w)].
    eapply Forall_impl; [exact R2|]. intros. by apply (list_wf_same w).
  - intros m. pose proof (cnt_insert (watching m) _ _ _ t' Ht). rewrite Hw in *.
    replace (attachedb _ m) with (attachedb w m); [rewrite <- R3; lia|].
    unfold attachedb. change (msess (set_threads _ w') m) with (msess w' m). by rewrite E2.
  - intros m. pose proof (cnt_insert (watching m) _ _ _ t' Ht).
    pose proof (cnt_insert (hooking m) _ _ _ t' Ht). rewrite Hw in *. specialize (Hh m).
    specialize (R4 m). destruct (hooking m t'), (hooking m t); lia.
  - rewrite E1. intros i m Hm. destruct (R5 _ _ Hm) as (s & y & Hs & Hy & Hid).
    destruct (ext_sess _ _ Hext _ _ Hy) as (y' & Hy' & Hid' & _). exists s, y'.
    change (msess (set_threads _ w') m) with (msess w' m). rewrite E2. simpl. by rewrite <- Hid.
  - apply Forall_insert; [|by apply (watch_wf_same w)].
    eapply Forall_impl; [exact R6|]. intros. by apply (watch_wf_same w).
Qed.

(** What the counters see of a step: it is one of the "same" steps, or it
    starts or ends a managed session. *)
Definition man_same (w w' : World) (t t' : thread) : Prop :=
  wthreads w' = wthreads w /\ wmanager w' = wmanager w /\
  (forall m, msess w' m = msess w m) /\
  wreaders w' + (if listing t then 1 else 0) = wreaders w + (if listing t' then 1 else 0) /\
  (forall m, watching m t' = watching m t) /\
  (forall m, hooking m t' = true -> hooking m t = true) /\
  list_wf w t' /\ watch_wf w t'.

Ltac crush_same :=
  repeat match goal with
  | H : context [with_session _ _ _] |- _ => unfold with_session in H
  | H : context [with_listener _ _ _] |- _ => unfold with_listener in H
  | H : context [with_managed _ _ _] |- _ => unfold with_managed in H
  | H : context [match ?x with _ => _ end = Goes _ _] |- _ => destruct x eqn:?; try discriminate H
  | H : Goes _ _ = Goes _ _ |- _ => injection H as <- <-
  end; try done.

Lemma publishStep_same c w t w' t' : publishStep c w t = Goes w' t' -> man_same w w' t t'.
Proof.
  intros Hs. destruct t as [s [e|]|s e|s e [|l todo] n| | | | | | | | | | | | | | | | | | | | | | | | | | | | | |];
    try discriminate Hs; simpl in Hs; crush_same.
Qed.

Lemma sessionStep_same c w t w' t' :
  session_op t = true -> tstep c w t = Goes w' t' -> man_same w w' t t'.
Proof.
  intros Hop Hs.
  destruct t as [| | |s|s i|l|s st|s|s e|s e|s [|l todo]| | | | | | | | | | | | | | | | | | | | | |];
    try discriminate Hop; simpl in Hs; crush_same.
Qed.

(** [msess] after an update of one managed session. *)
Lemma msess_put w m x m' :
  m < length (wmanaged w) ->
  msess (put_managed m x w) m' = if decide (m = m') then msession x else msess w m'.
Proof.
  intros Hm. unfold msess; simpl. destruct (decide (m = m')) as [<-|Hne].
  - by rewrite list_lookup_insert_eq.
  - by rewrite list_lookup_insert_ne.
Qed.

Lemma msess_lt w m : attached w m -> m < length (wmanaged w).
Proof.
  intros [s Hs]. unfold msess in Hs. destruct (wmanaged w !! m) eqn:Hm; [|done].
  by eapply lookup_lt_Some.
Qed.

Lemma listing_pos w tid t :
  man_wf w -> wthreads w !! tid = Some t -> listing t = true -> 0 < wreaders w.
Proof. intros Hw Ht Hl. rewrite (mw_readers _ Hw). by eapply cnt_pos. Qed.

Lemma summaryDone_same w tid t sum k w' t' :
  man_wf w -> wthreads w !! tid = Some t ->
  listing t = (match k with ForGet => false | ForList _ _ => true end) ->
  (forall m, watching m t = false) ->
  summaryDone sum k w = Goes w' t' -> man_same w w' t t'.
Proof.
  intros Hw Ht Hl Hnw Hs. unfold man_same. rewrite Hl.
  destruct k as [|[|m todo] acc]; simpl in Hs; injection Hs as <- <-; simpl;
    pose proof (listing_pos _ _ _ Hw Ht) as Hp; rewrite Hl in Hp;
    repeat split; try done; try lia; intros; by rewrite Hnw.
Qed.

Lemma managerStep_same c w tid t w' t' :
  man_wf w -> data_wf w -> wthreads w !! tid = Some t ->
  manager_op t = true -> tstep c w t = Goes w' t' -> man_same w w' t t'.
Proof.
  intros Hw Hd Ht Hop Hs.
  destruct t as [| | | | | | | | | | | | | | | | | | | | |i|m|i [h|]|i|m|i| |m k|m k|m k st e|m k st e sa ea|];
    try discriminate Hop; simpl in Hs; unfold with_msession in Hs; crush_same.
  - repeat split; try done. intros m'. rewrite msess_put by (by eapply lookup_lt_Some). simpl.
    case_decide as Hm; [|done]. subst. unfold msess. by simplify_option_eq.
  - repeat split; simpl; try done; lia.
  - destruct k; repeat split; try done. all: eexists; unfold msess; by simplify_option_eq.
  - eapply summaryDone_same; [done|done| |done|done]. by destruct k.
  - destruct k; repeat split; try done. all: eexists; unfold msess; by simplify_option_eq.
  - destruct k; repeat split; try done. all: eexists; unfold msess; by simplify_option_eq.
  - eapply summaryDone_same; [done|done| |done|done]. by destruct k.
Qed.

Lemma msess_snoc w g n x m :
  msess (set_manager g n (wmanaged w ++ [x]) w) m =
  if decide (m = length (wmanaged w)) then msession x else msess w m.
Proof.
  unfold msess; simpl. case_decide as Hm.
  - subst. rewrite lookup_app_r, Nat.sub_diag by lia. done.
  - destruct (decide (m < length (wmanaged w))).
    + by rewrite lookup_app_l.
    + rewrite !(proj2 (lookup_ge_None _ m)); [done| |]; rewrite ?length_app; simpl; lia.
Qed.

(** No goroutine works on a managed session that does not exist yet. *)
Lemma fresh_unwatched w m :
  Forall (thr_wf w) (wthreads w) -> length (wmanaged w) <= m ->
  cnt (watching m) (wthreads w) = 0 /\ cnt (hooking m) (wthreads w) = 0.
Proof.
  intros Hall Hm. induction Hall as [|t ts Ht Hall [IH1 IH2]]; [done|].
  unfold cnt in *; simpl. rewrite IH1, IH2.
  destruct t; try done; simpl in *;
    try (match goal with |- context [?k =? m] => destruct (Nat.eqb_spec k m); [subst|done] end);
    intuition lia.
Qed.

(** Register stores a managed session. *)
Lemma man_reg w tid s x sum :
  wf w -> wthreads w !! tid = Some (RegLock s sum) ->
  wsessions w !! s = Some x -> smID sum = Session.id x ->
  let m := length (wmanaged w) in
  let w' := set_manager (<[smID sum := m]> (wmanager w)) (wreaders w)
              (wmanaged w ++ [mkManaged (Some s) [] sum]) w in
  man_wf (set_threads (<[tid := RegGo m sum]> (wthreads w')) w').
Proof.
  intros [[Hd Hall] [R1 R2 R3 R4 R5 R6]] Ht Hx Hid m w'.
  destruct (fresh_unwatched w m Hall) as [Hnw Hnh]; [done|].
  assert (Hms : forall m', msess w' m' = if decide (m' = m) then Some s else msess w m')
    by (intros; apply msess_snoc).
  assert (Hkeep : forall m' s', msess w m' = Some s' -> msess w' m' = Some s').
  { intros m' s' Hm'. rewrite Hms. destruct (decide (m' = m)) as [->|]; [|done].
    assert (m < length (wmanaged w)) by (apply msess_lt; by eexists). lia. }
  split; simpl.
  - pose proof (cnt_insert listing _ _ _ (RegGo m sum) Ht) as Hc. simpl in Hc. lia.
  - apply Forall_insert; [|done]. eapply Forall_impl; [exact R2|]. intros t.
    unfold list_wf, attached. destruct t as [| | | | | | | | | | | | | | | | | | | | | | | | | | | | |? []|? []|? []|];
      try done; intros [s' Hs']; exists s'; by apply Hkeep.
  - intros m'. pose proof (cnt_insert (watching m') _ _ _ (RegGo m sum) Ht) as Hc. simpl in Hc.
    unfold attachedb. change (msess (set_threads _ w') m') with (msess w' m'). rewrite Hms.
    destruct (decide (m' = m)) as [->|Hne].
    + rewrite Nat.eqb_refl, Hnw in Hc. lia.
    + destruct (Nat.eqb_spec m m'); [done|]. specialize (R3 m'). unfold attachedb in R3. lia.
  - intros m'. pose proof (cnt_insert (watching m') _ _ _ (RegGo m sum) Ht) as Hc.
    pose proof (cnt_insert (hooking m') _ _ _ (RegGo m sum) Ht) as Hc'. simpl in Hc, Hc'.
    specialize (R4 m'). destruct (Nat.eqb_spec m m') as [<-|].
    + rewrite Hnw in Hc. rewrite Hnh in Hc'. lia.
    + lia.
  - intros i m' [[<- <-]|[_ Hm']]%lookup_insert_Some.
    + exists s, x. change (msess (set_threads _ w') m) with (msess w' m). rewrite Hms.
      by rewrite decide_True.
    + destruct (R5 _ _ Hm') as (s' & y & Hs' & Hy & <-). exists s', y.
      split; [|done]. by apply Hkeep.
  - apply Forall_insert; [|done]. eapply Forall_impl; [exact R6|]. intros t.
    unfold watch_wf. destruct t; try done; apply Hkeep.
Qed.

(** Register starts the watcher. *)
Lemma man_go w tid m sum :
  man_wf w -> wthreads w !! tid = Some (RegGo m sum) ->
  man_wf (set_threads (<[tid := Ret (RSummary sum)]> (wthreads w ++ [WatchStart m])) w).
Proof.
  intros [R1 R2 R3 R4 R5 R6] Ht.
  assert (Hc : forall f, f (Ret (RSummary sum)) = false ->
    cnt f (<[tid := Ret (RSummary sum)]> (wthreads w ++ [WatchStart m])) +
      (if f (RegGo m sum) then 1 else 0) =
    cnt f (wthreads w) + (if f (WatchStart m) then 1 else 0)).
  { intros f Hf. rewrite insert_app_l by (by eapply lookup_lt_Some). rewrite cnt_app.
    pose proof (cnt_insert f _ _ _ (Ret (RSummary sum)) Ht). rewrite Hf in *.
    unfold cnt at 2; simpl. lia. }
  split; simpl.
  - specialize (Hc listing eq_refl). simpl in Hc. lia.
  - apply Forall_insert; [|done]. apply Forall_app. by split; [|constructor].
  - intros m'. specialize (Hc (watching m') eq_refl). simpl in Hc.
    specialize (R3 m'). unfold attachedb in *. change (msess (set_threads _ w) m') with (msess w m').
    destruct (m =? m'); lia.
  - intros m'. pose proof (Hc (watching m') eq_refl) as H1.
    pose proof (Hc (hooking m') eq_refl) as H2. simpl in H1, H2.
    specialize (R4 m'). destruct (m =? m'); lia.
  - done.
  - apply Forall_insert; [|done]. apply Forall_app. by split; [|constructor].
Qed.

(** The watcher detaches its managed session. *)
Lemma man_detach w tid m s x y sum evs :
  man_wf w -> wthreads w !! tid = Some (WatchLock m s sum evs) -> wreaders w = 0 ->
  wmanaged w !! m = Some x -> wsessions w !! s = Some y -> smID sum = Session.id y ->
  let w' := set_manager (delete (smID sum) (wmanager w)) (wreaders w)
              (<[m := mkManaged None [] sum]> (wmanaged w)) w in
  man_wf (set_threads (<[tid := WatchHooks m (mhooks x) sum evs]> (wthreads w')) w').
Proof.
  intros [R1 R2 R3 R4 R5 R6] Ht Hr Hx Hy Hid w'. set (t' := WatchHooks m (mhooks x) sum evs).
  assert (Hms : forall m', msess w' m' = if decide (m = m') then None else msess w m').
  { intros m'. transitivity (msess (put_managed m (mkManaged None [] sum) w) m'); [done|].
    apply msess_put. by eapply lookup_lt_Some. }
  assert (Hs : msess w m = Some s) by (apply (Forall_lookup_1 _ _ _ _ R6 Ht)).
  assert (Hone : forall tid2 t2, tid2 <> tid -> wthreads w !! tid2 = Some t2 -> watching m t2 = false).
  { intros tid2 t2 Hne Ht2. destruct (watching m t2) eqn:Hw2; [|done].
    pose proof (cnt_insert (watching m) _ _ _ (Ret RUnit) Ht) as Hc. simpl in Hc.
    rewrite Nat.eqb_refl in Hc. specialize (R3 m). unfold attachedb in R3. rewrite Hs in R3.
    assert (0 < cnt (watching m) (<[tid:=Ret RUnit]> (wthreads w))); [|lia].
    eapply cnt_pos; [|done]. by rewrite list_lookup_insert_ne. }
  assert (Hnl : cnt listing (wthreads w) = 0) by lia.
  split; simpl.
  - pose proof (cnt_insert listing _ _ _ t' Ht) as Hc. simpl in Hc. lia.
  - apply Forall_insert; [|done]. apply Forall_lookup. intros i t Hi.
    assert (Hl : listing t = false).
    { destruct (listing t) eqn:Hl; [|done]. pose proof (cnt_pos _ _ _ _ Hi Hl). lia. }
    unfold list_wf. by destruct t as [| | | | | | | | | | | | | | | | | | | | | | | | | | | | |? []|? []|? []|].
  - intros m'. pose proof (cnt_insert (watching m') _ _ _ t' Ht) as Hc. simpl in Hc.
    specialize (R3 m'). unfold attachedb in *.
    change (msess (set_threads _ w') m') with (msess w' m'). rewrite Hms.
    destruct (decide (m = m')) as [<-|Hne].
    + rewrite Nat.eqb_refl in Hc. rewrite Hs in R3. lia.
    + destruct (Nat.eqb_spec m m'); [done|]. lia.
  - intros m'. pose proof (cnt_insert (watching m') _ _ _ t' Ht) as H1.
    pose proof (cnt_insert (hooking m') _ _ _ t' Ht) as H2. simpl in H1, H2.
    specialize (R4 m'). destruct (m =? m'); lia.
  - intros i m' [Hne Hm']%lookup_delete_Some.
    destruct (R5 _ _ Hm') as (s' & y' & Hs' & Hy' & Hid'). exists s', y'. split; [|done].
    change (msess (set_threads _ w') m') with (msess w' m'). rewrite Hms.
    rewrite decide_False; [done|]. intros <-. congruence.
  - apply Forall_lookup. intros i t Hi.
    apply list_lookup_insert_Some in Hi as [(-> & <- & _)|[Hne Hi]]; [done|].
    pose proof (Forall_lookup_1 _ _ _ _ R6 Hi) as Hwf. apply Hone in Hi; [|done].
    unfold watch_wf in *. destruct t; try done; simpl in Hi; apply Nat.eqb_neq in Hi;
      change (msess (set_threads _ w') ?k) with (msess w' k); rewrite Hms, decide_False by done; done.
Qed.

(** ** The invariant holds in every reachable state *)

Lemma registerStep_man w tid t w' t' :
  wf w -> wthreads w !! tid = Some t -> registerStep w t = Goes w' t' -> ext w w' ->
  man_wf (set_threads (<[tid := t']> (wthreads w')) w').
Proof.
  intros Hwf Ht Hs Hext. pose proof (inv_threads _ (wf_inv _ Hwf)) as Hall.
  pose proof (Forall_lookup_1 _ _ _ _ Hall Ht) as Htw.
  destruct t as [| | | | | | | | | | |[s|]|s st e|s sum|m sum| | | | | | | | | | | | | | | | | |];
    try discriminate Hs; simpl in Hs.
  - crush_same. eapply (man_wf_same w w); [by apply wf_man|exact Ht|done..].
  - crush_same. eapply (man_wf_same w w); [by apply wf_man|exact Ht|done..].
  - crush_same. eapply (man_wf_same w w); [by apply wf_man|exact Ht|done..].
  - destruct (wreaders w =? 0); [|done]. injection Hs as <- <-.
    destruct Htw as (x & Hx & Hid). by eapply man_reg.
  - injection Hs as <- <-. exact (man_go _ _ _ _ (wf_man _ Hwf) Ht).
Qed.

Lemma watchStep_man w tid t w' t' :
  wf w -> wthreads w !! tid = Some t -> watchStep w t = Goes w' t' -> ext w w' ->
  man_wf (set_threads (<[tid := t']> (wthreads w')) w').
Proof.
  intros Hwf Ht Hs Hext. pose proof (wf_man _ Hwf) as Hm.
  pose proof (Forall_lookup_1 _ _ _ _ (inv_threads _ (wf_inv _ Hwf)) Ht) as Htw.
  pose proof (Forall_lookup_1 _ _ _ _ (mw_sess _ Hm) Ht) as Hw.
  destruct t as [| | | | | | | | | | | | | | |m|m s|m s st e|m s sum|m s sum evs|m [|h hooks] sum evs| | | | | | | | | | | |];
    try discriminate Hs; simpl in Hs.
  - unfold with_managed in Hs. destruct (wmanaged w !! m) as [x|] eqn:Hx; [|done].
    destruct (msession x) as [s|] eqn:Hsx; injection Hs as <- <-.
    + eapply (man_wf_same w w); [done|exact Ht|try done..]. simpl. unfold msess. by rewrite Hx.
    + pose proof (mw_watch _ Hm m) as Hc. unfold attachedb, msess in Hc. rewrite Hx in Hc.
      simpl in Hc. rewrite Hsx in Hc.
      pose proof (cnt_pos (watching m) _ _ _ Ht (Nat.eqb_refl m)). lia.
  - crush_same. eapply (man_wf_same w w); [done|exact Ht|done..].
  - crush_same. eapply (man_wf_same w w); [done|exact Ht|done..].
  - crush_same. eapply (man_wf_same w w); [done|exact Ht|done..].
  - destruct (wreaders w =? 0) eqn:Hr; [|done]. apply Nat.eqb_eq in Hr. crush_same.
    destruct Htw as (_ & y & Hy & _ & Hid). by eapply man_detach.
  - injection Hs as <- <-. eapply (man_wf_same w w); [done|exact Ht|done..].
  - injection Hs as <- <-. eapply man_wf_same; [done|exact Ht|done..].
Qed.

Lemma tstep_man c w tid t w' t' :
  wf w -> wthreads w !! tid = Some t -> tstep c w t = Goes w' t' -> ext w w' ->
  man_wf (set_threads (<[tid := t']> (wthreads w')) w').
Proof.
  intros Hwf Ht Hs Hext.
  assert (Hsame : man_same w w' t t' -> man_wf (set_threads (<[tid := t']> (wthreads w')) w')).
  { intros (E1 & E2 & E3 & E4 & E5 & E6 & E7 & E8).
    eapply man_wf_same; eauto using wf_man. }
  destruct t; try done;
    first [ by eapply Hsame, sessionStep_same
          | by eapply Hsame, managerStep_same; [apply wf_man|apply inv_data, wf_inv| | |]
          | by eapply registerStep_man | by eapply watchStep_man
          | by eapply Hsame, publishStep_same ].
Qed.

Lemma inv_threads_insert w w' tid t' :
  inv w -> step_ok w w' t' -> inv (set_threads (<[tid := t']> (wthreads w')) w').
Proof.
  intros [Hd Hall] [Hd' Hext Ht' Hoth]. split; [by apply (data_wf_same w')|]. simpl.
  assert (Hold : Forall (thr_wf (set_threads (<[tid := t']> (wthreads w')) w')) (wthreads w)).
  { eapply Forall_impl; [exact Hall|]. intros t Ht. exact (thr_wf_ext w w' t Hext Ht). }
  apply Forall_insert; [|done].
  destruct Hoth as [->|(m & Hm & ->)]; [done|].
  apply Forall_app. split; [done|]. by constructor.
Qed.

(** Steps that only allocate. *)
Lemma wf_grow w w' :
  wf w -> data_wf w' -> ext w w' -> wthreads w' = wthreads w -> wmanager w' = wmanager w ->
  wreaders w' = wreaders w -> wmanaged w' = wmanaged w -> wf w'.
Proof.
  intros [[Hd Hall] [R1 R2 R3 R4 R5 R6]] Hd' Hext E1 E2 E3 E4.
  assert (Hms : forall m, msess w' m = msess w m) by (intros; unfold msess; by rewrite E4).
  split; split; rewrite ?E1, ?E2, ?E3; try done.
  - eapply Forall_impl; [exact Hall|]. intros t. by apply thr_wf_ext.
  - eapply Forall_impl; [exact R2|]. intros t. by apply list_wf_same.
  - intros m. unfold attachedb. rewrite Hms. apply R3.
  - intros i m Hm. destruct (R5 _ _ Hm) as (s & y & Hs & Hy & Hid).
    destruct (ext_sess _ _ Hext _ _ Hy) as (y' & Hy' & Hid' & _). exists s, y'.
    rewrite Hms. by rewrite <- Hid.
  - eapply Forall_impl; [exact R6|]. intros t. by apply watch_wf_same.
Qed.

Lemma wf_event w e : wf w -> wf (set_events (fun l => l ++ [e]) w).
Proof.
  intros Hwf. eapply wf_grow; try done.
  - by eapply (data_wf_same w), inv_data, wf_inv.
  - split; simpl; rewrite ?length_app; try lia; try done. intros s x Hx. by exists x.
Qed.

Lemma wf_session w k c fmt now : wf w -> wf (newSession k c fmt now w).
Proof.
  intros Hwf. destruct (inv_data _ (wf_inv _ Hwf)) as [D1 D2 D3 D4 D5].
  set (x0 := Session.NewSession k c fmt (u64 (wscount w + 1)) now).
  eapply wf_grow; try done.
  - assert (Hold : forall s x i l, (wsessions w ++ [x0]) !! s = Some x ->
      Session.listeners x !! i = Some l -> wsessions w !! s = Some x).
    { intros s x i l [Hx|[_ Hx]]%lookup_app_Some Hi; [done|].
      apply list_lookup_singleton_Some in Hx as [_ <-]. by destruct (lookup_empty_Some i l Hi). }
    split; simpl; try done.
    + intros s x [Hx|[_ Hx]]%lookup_app_Some; [by eapply D1|].
      apply list_lookup_singleton_Some in Hx as [_ <-]. apply sess_wf_new.
    + intros s1 s2 x1 x2 i1 i2 l H1 H2 L1 L2. eauto.
    + intros m x s Hm Hs. rewrite length_app. pose proof (D4 _ _ _ Hm Hs). lia.
  - split; simpl; rewrite ?length_app; try lia; try done. intros s x Hx. exists x.
    by rewrite lookup_app_l by (by eapply lookup_lt_Some).
Qed.

Lemma entry_roles w t :
  entry w t = true -> thr_wf w t /\ list_wf w t /\ watch_wf w t /\
  listing t = false /\ (forall m, watching m t = false) /\ (forall m, hooking m t = false).
Proof.
  unfold entry, sess_ok.
  assert (Hv : forall s, (s <? length (wsessions w)) = true -> has_session w s).
  { intros s Hs%Nat.ltb_lt. by apply lookup_lt_is_Some_2. }
  intros He; destruct t as [? [e|]| | | | | | | | | | |[?|]| | | | | | | | | | | |? [|]| | | | | | | | |];
    try discriminate He; simpl; try (apply andb_true_iff in He as [??]);
    split_and!; auto.
  - by apply Nat.ltb_lt.
  - by eapply bool_decide_eq_true_1.
Qed.

Lemma wf_call w t : entry w t = true -> wf w -> wf (set_threads (wthreads w ++ [t]) w).
Proof.
  intros He [[Hd Hall] [R1 R2 R3 R4 R5 R6]].
  destruct (entry_roles _ _ He) as (T1 & T2 & T3 & T4 & T5 & T6).
  split; split; simpl; try done.
  - by apply (data_wf_same w).
  - apply Forall_app. split; [done|by constructor].
  - rewrite cnt_app. unfold cnt at 2; simpl. rewrite T4. lia.
  - apply Forall_app. split; [done|by constructor].
  - intros m. rewrite cnt_app. unfold cnt at 2; simpl. rewrite T5.
    specialize (R3 m). unfold attachedb in *. change (msess (set_threads _ w) m) with (msess w m). lia.
  - intros m. rewrite !cnt_app. unfold cnt at 2 4; simpl. rewrite T5, T6. specialize (R4 m). lia.
  - apply Forall_app. split; [done|by constructor].
Qed.

Lemma received_wf x e rest :
  lis_wf x -> Chan.cbuf (Listener.lch x) = e :: rest -> lis_wf (received rest x).
Proof. intros [H1 H2 H3] He. rewrite He in H2. simpl in H2. split; simpl; try done. lia. Qed.

Lemma step_wf w l w' : wf w -> step w l w' -> wf w'.
Proof.
  intros Hwf Hs. destruct Hs as [e|k c fmt now Hnow|t He|tid c t w' t' Ht Hs|l x e rest Hx He].
  - by apply wf_event.
  - by apply wf_session.
  - by apply wf_call.
  - pose proof (wf_inv _ Hwf) as Hinv. pose proof (inv_data _ Hinv) as Hd.
    pose proof (tstep_ok c w t Hd (Forall_lookup_1 _ _ _ _ (inv_threads _ Hinv) Ht)
      (Forall_lookup_1 _ _ _ _ (mw_list _ (wf_man _ Hwf)) Ht)) as Hok.
    rewrite Hs in Hok. split; [by eapply inv_threads_insert|].
    eapply tstep_man; eauto. apply Hok.
  - pose proof (inv_data _ (wf_inv _ Hwf)) as Hd.
    destruct (put_listener_wf w l (received rest x)) as [??]; [|done|].
    + by eapply received_wf, He; eapply dw_lis.
    + by eapply wf_grow.
Qed.

Lemma wf_init : wf init.
Proof.
  split; [split; [split|]|split]; try done. simpl. lia.
Qed.

Lemma run_wf w ls w' : wf w -> run w ls w' -> wf w'.
Proof. intros Hwf Hr. induction Hr; eauto using step_wf. Qed.

Lemma reachable_wf w : reachable w -> wf w.
Proof. intros [ls Hr]. eapply run_wf; [apply wf_init|done]. Qed.
