(* ===== verification/StreamLive.v ===== *)
(** * What users of a stream session observe

    The transcript is the last published events; a subscriber is offered every
    event from its subscription on, once; what it receives is in order; closing a
    session completes under every fair schedule; completion hooks run exactly
    once.  The race of the manager's unlocked readers. *)
From stdpp Require Import base list strings gmap relations.
From Stdlib Require Import Ascii ZArith Lia.
From S2P Require Import Prelude Stream StreamWorld StreamFacts StreamSafe.

Open Scope string_scope.
Open Scope nat_scope.
Open Scope list_scope.

(** ** The effect of one step on one session *)

(** Every step of a goroutine either leaves the session list alone, or updates
    one session by one of the critical sections. *)
Definition updates (w : World) (t : thread) (c : Choice) (x x' : Session) (s : ptr) : Prop :=
  match t with
  | PubLock s' e => s' = s /\ x' = Session.publishLocked e (payloadLen e w) x
  | PubEmit s' _ [] n => s' = s /\ x' = Session.addDropped n x
  | SubLock s' => s' = s /\ x' = Session.addListener (length (wlisteners w)) x /\
      Session.ended x = false
  | RemLock s' i => s' = s /\ x' = Session.dropListener i x
  | SetState s' st => s' = s /\ x' = Session.setState st None x
  | CancelCtx s' | CloseStart s' _ => s' = s /\ x' = Session.cancel x
  | CloseLock s' e => s' = s /\ x' = Session.closeLocked (chNow c) e x /\ chNow c <> 0%Z
  | CloseEach s' [] => s' = s /\ Session.closeDone x = Ok x'
  | MCancelDo _ => x' = Session.cancel x
  | _ => False
  end.

(** Only the locked part of Publish writes the buffer. *)
Definition published_by (s : ptr) (t : thread) : option ptr :=
  match t with PubLock s' e => if decide (s' = s) then Some e else None | _ => None end.

Lemma sessions_step c w t w' t' :
  tstep c w t = Goes w' t' ->
  (wsessions w' = wsessions w /\ forall s, published_by s t = None) \/
  exists s x x', wsessions w !! s = Some x /\ updates w t c x x' s /\
    wsessions w' = <[s := x']> (wsessions w).
Proof.
  intros Hs.
  destruct t as [s [e|]|s e|s e [|l todo] n|s|s i|l|s st|s|s e|s e|s [|l todo]|[s|]|s st e|s sum|m sum|m|m s|m s st e|m s sum|m s sum evs|m [|h hooks] sum evs|i|m|i [h|]|i|m|i| |m k|m k|m k st e|m k st e sa ea|v];
    simpl in Hs; unfold with_msession, summaryDone in Hs; crush_same;
    first [ left; split; done | right; do 3 eexists; split; [eassumption|]; split; [|reflexivity];
      simpl; split_and?; try done ].
  all: apply orb_false_iff in Heqb as [Hn%Z.eqb_neq _]; done.
Qed.

Lemma closeDone_fields x x' :
  Session.closeDone x = Ok x' ->
  Session.events x' = Session.events x /\ Session.cfg x' = Session.cfg x /\
  Session.listeners x' = Session.listeners x /\ Session.ended x' = Session.ended x /\
  Session.id x' = Session.id x.
Proof.
  unfold Session.closeDone. repeat case_match; intros; simplify_eq; done.
Qed.

Lemma closeLocked_fields now e x :
  Session.events (Session.closeLocked now e x) = Session.events x /\
  Session.cfg (Session.closeLocked now e x) = Session.cfg x /\
  Session.listeners (Session.closeLocked now e x) = ∅.
Proof. unfold Session.closeLocked. by destruct (Session.ended x). Qed.

Lemma updates_events w t c x x' s :
  updates w t c x x' s ->
  Session.cfg x' = Session.cfg x /\
  Session.events x' =
    match published_by s t with
    | Some e => Ring.append (Session.events x) e
    | None => Session.events x
    end.
Proof.
  intros Hu. destruct t as [| |s' e [|] ?| | | | | | |s' e|s' [|l todo]| | | | | | | | | | | | | | | | | | | | | |];
    simpl in *; destruct_and?; subst; try done.
  - by rewrite decide_True.
  - destruct (closeLocked_fields (chNow c) e x) as (? & ? & ?). done.
  - by destruct (closeDone_fields x x') as (? & ? & _).
Qed.

Lemma events_step c w t w' t' s x :
  tstep c w t = Goes w' t' -> wsessions w !! s = Some x ->
  exists x', wsessions w' !! s = Some x' /\ Session.cfg x' = Session.cfg x /\
    Session.events x' =
      match published_by s t with
      | Some e => Ring.append (Session.events x) e
      | None => Session.events x
      end.
Proof.
  intros Hs Hx. pose proof (lookup_lt_Some _ _ _ Hx).
  destruct (sessions_step _ _ _ _ _ Hs) as [[-> Hnone]|(s' & y & y' & Hy & Hu & ->)].
  - exists x. by rewrite Hnone.
  - destruct (decide (s' = s)) as [->|Hne].
    + simplify_eq. exists y'. rewrite list_lookup_insert_eq by done.
      split; [done|]. by eapply updates_events.
    + exists x. rewrite list_lookup_insert_ne by done. split; [done|]. split; [done|].
      destruct t; try done. simpl in *. destruct_and?; subst. by rewrite decide_False.
Qed.

Lemma published_snoc s ls l :
  published s (ls ++ [l]) = published s ls ++
    match l with LStep _ _ t => option_list (published_by s t) | _ => [] end.
Proof.
  unfold published. rewrite omap_app. f_equal. simpl.
  by destruct l as [| | |? ? []|].
Qed.

(** ** The transcript *)

Lemma sessions_grow w l w' : wf w -> step w l w' -> length (wsessions w) <= length (wsessions w').
Proof.
  intros Hwf Hs. destruct Hs as [| | |tid c t w' t' Ht Hs|]; simpl; rewrite ?length_app; try lia.
  destruct (sessions_step _ _ _ _ _ Hs) as [[-> _]|(s' & y & y' & _ & _ & ->)];
    rewrite ?length_insert; lia.
Qed.

(** Nothing was published to a session that does not exist. *)
Lemma published_none ls w s :
  run init ls w -> length (wsessions w) <= s -> published s ls = [].
Proof.
  intros Hr. remember init as w0 eqn:E.
  induction Hr as [|w0 ls w1 l w2 Hr IH Hs]; intros Hlen; [done|]. subst.
  pose proof (run_wf _ _ _ wf_init Hr) as Hwf. pose proof (sessions_grow _ _ _ Hwf Hs).
  rewrite published_snoc, IH by (done || lia). simpl.
  destruct Hs as [| | |tid c t w' t' Ht Hs|]; try done.
  pose proof (Forall_lookup_1 _ _ _ _ (inv_threads _ (wf_inv _ Hwf)) Ht) as Htw.
  destruct t; try done. simpl. case_decide; [|done]. subst. destruct Htw as [Hin _].
  apply lookup_lt_is_Some_1 in Hin. lia.
Qed.

(** What the buffer of [s] holds after a trace. *)
Lemma transcript_holds ls w s x :
  run init ls w -> wsessions w !! s = Some x ->
  holds (Session.events x) (lastn (Z.to_nat (BufferSize (Session.cfg x))) (published s ls)).
Proof.
  intros Hr. remember init as w0 eqn:E. revert s x. induction Hr as [|w0 ls w1 l w2 Hr IH Hs]; subst.
  { intros s x Hx. done. }
  specialize (IH eq_refl). pose proof (run_wf _ _ _ wf_init Hr) as Hwf.
  intros s x Hx. rewrite published_snoc.
  destruct Hs as [e|k c fmt now Hnow|t He|tid c t w' t' Ht Hs|l x' e rest Hx' He];
    simpl in Hx; rewrite ?app_nil_r; eauto.
  - apply lookup_app_Some in Hx as [Hx|[Hge Hx]]; [by apply IH|].
    apply list_lookup_singleton_Some in Hx as [_ <-].
    rewrite (published_none _ _ _ Hr Hge). apply holds_new.
  - assert (Hlen : s < length (wsessions w1)).
    { pose proof (lookup_lt_Some _ _ _ Hx).
      destruct (sessions_step _ _ _ _ _ Hs) as [[E _]|(s' & y & y' & _ & _ & E)]; rewrite E, ?length_insert in *; done. }
    destruct (valid_lookup _ _ Hlen) as [y Hy].
    destruct (events_step _ _ _ _ _ _ _ Hs Hy) as (y' & Hy' & Hc & Hev). simplify_eq.
    rewrite Hev, Hc. specialize (IH _ _ Hy).
    destruct (published_by s t) as [e|]; simpl; [|by rewrite app_nil_r].
    rewrite <- lastn_snoc.
    rewrite <- (sw_size _ _ (dw_sess _ (inv_data _ (wf_inv _ Hwf)) _ _ Hy)) in *.
    by apply holds_append.
Qed.

(** ** What a subscriber is offered *)

Definition registered (w : World) (s id l : ptr) : Prop :=
  exists x, wsessions w !! s = Some x /\ Session.listeners x !! id = Some l.

Lemma handed_snoc l ls a :
  handed l (ls ++ [a]) = handed l ls ++
    match a with
    | LStep _ _ (PubEmit _ e (l' :: _) _) => if decide (l' = l) then [e] else []
    | _ => []
    end.
Proof.
  unfold handed. rewrite omap_app. f_equal. simpl.
  destruct a as [| | |? ? [| |? ? [|]| | | | | | | | | | | | | | | | | | | | | | | | | | | | | |]|]; try done.
  by case_decide.
Qed.

Lemma pend_insert l ts i t t' :
  ts !! i = Some t ->
  (<[i := t']> ts ≫= pend l) ++ pend l t ≡ₚ (ts ≫= pend l) ++ pend l t'.
Proof.
  intros Hi.
  replace (ts ≫= pend l) with ((take i ts ++ t :: drop (S i) ts) ≫= pend l)
    by (by rewrite take_drop_middle).
  rewrite insert_take_drop by (by eapply lookup_lt_Some).
  rewrite !bind_app, !bind_cons. solve_Permutation.
Qed.

Lemma count_none (l : nat) order :
  l ∉ order -> length (filter (fun l' => l' = l) order) = 0.
Proof.
  induction order as [|k order IH]; [done|]. rewrite not_elem_of_cons. intros [Hne Hin].
  rewrite filter_cons_False by done. auto.
Qed.

Lemma pending_none w l :
  Forall (thr_wf w) (wthreads w) -> length (wlisteners w) <= l -> pending l w = [].
Proof.
  intros Hall Hl. unfold pending. induction Hall as [|t ts Ht Hall IH]; [done|].
  rewrite bind_cons, IH, app_nil_r. destruct t as [| |s e todo n| | | | | | | | | | | | | | | | | | | | | | | | | | | | | |]; try done.
  simpl in *. destruct Ht as [_ Hf]. rewrite count_none; [done|].
  intros Hin. pose proof (proj1 (Forall_forall _ _) Hf _ Hin) as Hlt. simpl in Hlt. lia.
Qed.

(** A listener that is registered once occurs once in every order of the range. *)
Lemma count_one (m : gmap nat nat) l i order :
  order ≡ₚ (map_to_list m).*2 -> m !! i = Some l -> (forall j, m !! j = Some l -> j = i) ->
  length (filter (fun l' => l' = l) order) = 1.
Proof.
  intros -> Hi Hinj. rewrite <- (insert_delete_id m i l Hi).
  rewrite map_to_list_insert by (by rewrite lookup_delete_eq). simpl.
  rewrite filter_cons_True by done. simpl. f_equal. apply count_none.
  intros ([j k] & -> & Hj%elem_of_map_to_list)%list_elem_of_fmap.
  apply lookup_delete_Some in Hj as [Hne Hj]. by apply Hinj in Hj.
Qed.

(** A registration found after a step of listener [l] that existed before was
    there before. *)
Lemma registered_back w a w' s id l :
  wf w -> step w a w' -> l < length (wlisteners w) ->
  registered w' s id l -> registered w s id l.
Proof.
  intros Hwf Hs Hl (x & Hx & Hid). destruct Hs as [e|k c fmt now Hnow|t He|tid c t w' t' Ht Hs|l' x' e rest Hx' He];
    simpl in Hx.
  - by exists x.
  - apply lookup_app_Some in Hx as [Hx|[_ Hx]]; [by exists x|].
    apply list_lookup_singleton_Some in Hx as [_ <-]. by destruct (lookup_empty_Some id l Hid).
  - by exists x.
  - destruct (sessions_step _ _ _ _ _ Hs) as [[E _]|(s' & y & y' & Hy & Hu & E)];
      rewrite E in Hx; [by exists x|].
    apply list_lookup_insert_Some in Hx as [(-> & -> & _)|[_ Hx]]; [|by exists x].
    exists y. split; [done|].
    destruct t as [| |s' e [|] ?| | | | | | |s' e|s' [|k todo]| | | | | | | | | | | | | | | | | | | | | |];
      simpl in Hu; destruct_and?; subst; try done.
    + simpl in Hid. apply lookup_insert_Some in Hid as [[_ ?]|[_ ?]]; [lia|done].
    + simpl in Hid. by apply lookup_delete_Some in Hid as [_ ?].
    + destruct (closeLocked_fields (chNow c) e y) as (_ & _ & El). rewrite El in Hid.
      by destruct (lookup_empty_Some id l Hid).
    + destruct (closeDone_fields y x) as (_ & _ & El & _); [done|]. by rewrite <- El.
  - by exists x.
Qed.

Lemma listeners_grow w a w' : wf w -> step w a w' -> length (wlisteners w) <= length (wlisteners w').
Proof.
  intros Hwf Hs. destruct Hs as [| | |tid c t w' t' Ht Hs|]; simpl; rewrite ?length_insert; try lia.
  pose proof (wf_inv _ Hwf) as Hinv.
  pose proof (tstep_ok c w t (inv_data _ Hinv) (Forall_lookup_1 _ _ _ _ (inv_threads _ Hinv) Ht)
    (Forall_lookup_1 _ _ _ _ (mw_list _ (wf_man _ Hwf)) Ht)) as Hok.
  rewrite Hs in Hok. apply (ext_lis _ _ (so_ext _ _ _ Hok)).
Qed.

(** The goroutines after a step: [tid] moves on, and Register may have started
    a watcher, which offers no events. *)
Lemma threads_step c w tid t w' t' :
  wf w -> wthreads w !! tid = Some t -> tstep c w t = Goes w' t' ->
  wthreads w' = wthreads w \/ exists m, wthreads w' = wthreads w ++ [WatchStart m].
Proof.
  intros Hwf Ht Hs. pose proof (wf_inv _ Hwf) as Hinv.
  pose proof (tstep_ok c w t (inv_data _ Hinv) (Forall_lookup_1 _ _ _ _ (inv_threads _ Hinv) Ht)
    (Forall_lookup_1 _ _ _ _ (mw_list _ (wf_man _ Hwf)) Ht)) as Hok.
  rewrite Hs in Hok. destruct (so_others _ _ _ Hok) as [?|(m & _ & ?)]; eauto.
Qed.

Lemma pending_step l c w tid t w' t' :
  wf w -> wthreads w !! tid = Some t -> tstep c w t = Goes w' t' ->
  pending l (set_threads (<[tid := t']> (wthreads w')) w') ++ pend l t ≡ₚ
    pending l w ++ pend l t'.
Proof.
  intros Hwf Ht Hs. unfold pending; simpl.
  destruct (threads_step _ _ _ _ _ _ Hwf Ht Hs) as [->|[m ->]]; [by apply pend_insert|].
  rewrite insert_app_l by (by eapply lookup_lt_Some).
  rewrite bind_app, bind_singleton. simpl. rewrite app_nil_r. by apply pend_insert.
Qed.

(** How many times a goroutine still offers its event, before and after. *)
Lemma pend_step l c w t w' t' s id :
  wf w -> thr_wf w t -> tstep c w t = Goes w' t' -> registered w s id l ->
  pend l t ++ option_list (published_by s t) ≡ₚ
  match t with PubEmit _ e (l' :: _) _ => if decide (l' = l) then [e] else [] | _ => [] end ++ pend l t'.
Proof.
  intros Hwf Ht Hs (x & Hx & Hid). pose proof (inv_data _ (wf_inv _ Hwf)) as Hd.
  destruct t as [s' [e|]|s' e|s' e [|l' todo] n|s'|s' i|l'|s' st|s'|s' e|s' e|s' [|l' todo]|[s'|]|s' st e|s' sum|m sum|m|m s'|m s' st e|m s' sum|m s' sum evs|m [|h hooks] sum evs|i|m|i [h|]|i|m|i| |m k|m k|m k st e|m k st e sa ea|v];
    simpl in Hs; unfold with_msession, summaryDone in Hs; crush_same.
  - simpl. apply bool_decide_eq_true_1 in Heqb.
    case_decide as Hss.
    + subst. simplify_eq. simpl. rewrite (count_one _ _ _ _ Heqb Hid); [done|].
      intros j Hj. by destruct (dw_inj _ Hd _ _ _ _ _ _ _ Heqo Heqo Hj Hid).
    + simpl. rewrite count_none; [done|]. rewrite Heqb.
      intros ([j k] & -> & Hj%elem_of_map_to_list)%list_elem_of_fmap. simpl in *.
      by destruct (dw_inj _ Hd _ _ _ _ _ _ _ Heqo Hx Hj Hid).
  - simpl. rewrite app_nil_r. case_decide as Hll.
    + rewrite filter_cons_True by done. done.
    + by rewrite filter_cons_False.
Qed.

Lemma offered_once ls w1 w2 s id l :
  wf w1 -> l < length (wlisteners w1) -> pending l w1 = [] -> run w1 ls w2 ->
  registered w2 s id l -> handed l ls ++ pending l w2 ≡ₚ published s ls.
Proof.
  intros Hwf Hl Hp Hr. remember w1 as w0 eqn:E. revert Hwf Hl Hp E.
  induction Hr as [|w0 ls w1' a w2 Hr IH Hs]; intros Hwf Hl Hp -> Hreg.
  { simpl. by rewrite Hp. }
  pose proof (run_wf _ _ _ Hwf Hr) as Hwf1.
  assert (Hl1 : l < length (wlisteners w1')).
  { clear -Hr Hl Hwf. induction Hr; [done|]. eapply Nat.lt_le_trans; [by apply IHHr|].
    eapply listeners_grow; [by eapply run_wf|done]. }
  pose proof (registered_back _ _ _ _ _ _ Hwf1 Hs Hl1 Hreg) as Hreg1.
  specialize (IH Hwf Hl Hp eq_refl Hreg1).
  rewrite handed_snoc, published_snoc, <- IH.
  destruct Hs as [e|k c fmt now Hnow|t He|tid c t w' t' Ht Hs|l' x' e rest Hx' He];
    rewrite ?app_nil_r; try done.
  - unfold pending; simpl. rewrite bind_app, bind_singleton.
    replace (pend l t) with (@nil nat) by (by destruct t). by rewrite app_nil_r.
  - pose proof (pending_step l _ _ _ _ _ _ Hwf1 Ht Hs) as H1.
    pose proof (pend_step l _ _ _ _ _ s id Hwf1
      (Forall_lookup_1 _ _ _ _ (inv_threads _ (wf_inv _ Hwf1)) Ht) Hs Hreg1) as H2.
    apply (Permutation_app_inv_r (pend l t)).
    set (now := match t with PubEmit _ e (l' :: _) _ => if decide (l' = l) then [e] else [] | _ => [] end) in *.
    transitivity ((handed l ls ++ now) ++ (pending l w1' ++ pend l t'));
      [rewrite <- H1; solve_Permutation|].
    transitivity ((handed l ls ++ pending l w1') ++ (now ++ pend l t')); [solve_Permutation|].
    rewrite <- H2. solve_Permutation.
Qed.


(** ** The order of delivery *)

Definition buffered (x : listener) : list ptr := Chan.cbuf (Listener.lch x).

(** What one step of a goroutine does to listener [l]. *)
Inductive lis_update (c : Choice) (t : thread) (l : ptr) (x x' : listener) : Prop :=
  | lu_same : x' = x -> lis_update c t l x x'
  | lu_emit s e todo n b :
      t = PubEmit s e (l :: todo) n ->
      Listener.emit (chTaken1 c) (chTaken2 c) e x = Ok (b, x') -> lis_update c t l x x'
  | lu_close :
      (t = RemClose l \/ exists s todo, t = CloseEach s (l :: todo)) ->
      Listener.close x = Ok x' -> lis_update c t l x x'.

Lemma listeners_step c w t w' t' l x :
  tstep c w t = Goes w' t' -> wlisteners w !! l = Some x ->
  exists x', wlisteners w' !! l = Some x' /\ lis_update c t l x x'.
Proof.
  intros Hs Hx. pose proof (lookup_lt_Some _ _ _ Hx) as Hlt.
  destruct t as [s [e|]|s e|s e [|k todo] n|s|s i|k|s st|s|s e|s e|s [|k todo]|[s|]|s st e|s sum|m sum|m|m s|m s st e|m s sum|m s sum evs|m [|h hooks] sum evs|i|m|i [h|]|i|m|i| |m k|m k|m k st e|m k st e sa ea|v];
    simpl in Hs; unfold with_msession, summaryDone in Hs; crush_same;
    try (exists x; split; [done|by constructor]).
  - destruct (decide (k = l)) as [->|Hne].
    + simplify_eq. eexists. simpl. rewrite list_lookup_insert_eq by done.
      split; [done|]. by eapply lu_emit.
    + exists x. simpl. rewrite list_lookup_insert_ne by done. split; [done|by constructor].
  - exists x. simpl. rewrite lookup_app_l by done. split; [done|by constructor].
  - destruct (decide (k = l)) as [->|Hne].
    + simplify_eq. eexists. simpl. rewrite list_lookup_insert_eq by done.
      split; [done|]. by apply lu_close; [left|].
    + exists x. simpl. rewrite list_lookup_insert_ne by done. split; [done|by constructor].
  - destruct (decide (k = l)) as [->|Hne].
    + simplify_eq. eexists. simpl. rewrite list_lookup_insert_eq by done.
      split; [done|]. by apply lu_close; [right; eauto|].
    + exists x. simpl. rewrite list_lookup_insert_ne by done. split; [done|by constructor].
Qed.

(** Only Subscribe allocates a listener, with an empty channel. *)
Lemma listeners_new c w t w' t' l x' :
  tstep c w t = Goes w' t' -> wlisteners w !! l = None -> wlisteners w' !! l = Some x' ->
  exists cfg, x' = Listener.new cfg.
Proof.
  intros Hs Hl Hx'. assert (Heq : wlisteners w' = wlisteners w -> False) by congruence.
  destruct t as [s [e|]|s e|s e [|k todo] n|s|s i|k|s st|s|s e|s e|s [|k todo]|[s|]|s st e|s sum|m sum|m|m s|m s st e|m s sum|m s sum evs|m [|h hooks] sum evs|i|m|i [h|]|i|m|i| |m k|m k|m k st e|m k st e sa ea|v];
    simpl in Hs; unfold with_msession, summaryDone in Hs; crush_same; simpl in *;
    try (rewrite list_lookup_insert_ne in Hx' by congruence; congruence);
    try (apply lookup_app_Some in Hx' as [?|[_ Hx']]; [congruence|];
         apply list_lookup_singleton_Some in Hx' as [_ <-]; eauto).
Qed.

Lemma sublist_drop {A} n (l : list A) : drop n l `sublist_of` l.
Proof. rewrite <- (take_drop n l) at 2. by apply sublist_inserts_l. Qed.

(** emit appends the event to what is left of the buffer, or adds nothing. *)
Lemma emit_buffer r1 r2 e x b x' :
  Listener.emit r1 r2 e x = Ok (b, x') ->
  exists k, buffered x' = drop k (buffered x) ++ (if b then [e] else []).
Proof.
  unfold Listener.emit, Listener.shut, Chan.trySend, Chan.closeChan, buffered.
  destruct x as [[cap buf cl] cnt pol fl]; simpl. intros He.
  repeat (case_match; simplify_eq; simpl in * ); try (exists 0; by rewrite ?app_nil_r).
  - eexists. by rewrite !drop_drop.
  - eexists. by rewrite !drop_drop, app_nil_r.
Qed.

Lemma close_buffer x x' : Listener.close x = Ok x' -> buffered x' = buffered x.
Proof.
  unfold Listener.close, Listener.shut, Chan.closeChan. repeat case_match; intros; simplify_eq; done.
Qed.

Lemma consumed_snoc l ls a :
  consumed l (ls ++ [a]) = consumed l ls ++
    match a with LRecv l' e => if decide (l' = l) then [e] else [] | _ => [] end.
Proof.
  unfold consumed. rewrite omap_app. f_equal. simpl. destruct a; try done. by case_decide.
Qed.

Lemma consumed_none ls w l :
  run init ls w -> wlisteners w !! l = None -> consumed l ls = [].
Proof.
  intros Hr. remember init as w0 eqn:E.
  induction Hr as [|w0 ls w1 a w2 Hr IH Hs]; intros Hl; [done|]. subst.
  pose proof (run_wf _ _ _ wf_init Hr) as Hwf. pose proof (listeners_grow _ _ _ Hwf Hs).
  apply lookup_ge_None in Hl.
  rewrite consumed_snoc, IH by (done || apply lookup_ge_None; lia). simpl.
  destruct Hs as [| | | |l' x e rest Hx He]; try done.
  case_decide; [|done]. subst. apply lookup_lt_Some in Hx. lia.
Qed.

(** Delivery is in order: what was received from a listener's channel,
    followed by what it still holds, is a subsequence of the events offered to
    it, in the order they were offered; nothing is duplicated or invented,
    whatever the drop policy, the schedule and the receivers. *)
Theorem delivery_in_order ls w l x :
  run init ls w -> wlisteners w !! l = Some x ->
  consumed l ls ++ buffered x `sublist_of` handed l ls.
Proof.
  intros Hr. remember init as w0 eqn:E. revert x.
  induction Hr as [|w0 ls w1 a w2 Hr IH Hs]; intros x Hx; [by subst|]. subst.
  specialize (IH eq_refl). pose proof (run_wf _ _ _ wf_init Hr) as Hwf.
  rewrite consumed_snoc, handed_snoc.
  destruct Hs as [e|k c fmt now Hnow|t He|tid c t w' t' Ht Hs|l' x' e rest Hx' He];
    rewrite ?app_nil_r; eauto.
  - simpl in Hx. destruct (wlisteners w1 !! l) as [y|] eqn:Hy.
    + destruct (listeners_step _ _ _ _ _ _ _ Hs Hy) as (x2 & Hx2 & Hu).
      simplify_eq. specialize (IH _ eq_refl). destruct Hu as [->|s e todo n b -> Hem|Hc Hcl].
      * by apply sublist_inserts_r.
      * rewrite decide_True by done. destruct (emit_buffer _ _ _ _ _ _ Hem) as [k ->].
        rewrite app_assoc. apply sublist_app; [|destruct b; [done|apply sublist_nil_l]].
        etransitivity; [|exact IH]. apply sublist_app; [done|apply sublist_drop].
      * rewrite (close_buffer _ _ Hcl). by apply sublist_inserts_r.
    + destruct (listeners_new _ _ _ _ _ _ _ Hs Hy Hx) as [cfg ->].
      rewrite (consumed_none _ _ _ Hr Hy). apply sublist_nil_l.
  - simpl in Hx. apply list_lookup_insert_Some in Hx as [(-> & <- & _)|[Hne Hx]].
    + rewrite decide_True by done. unfold buffered; simpl. specialize (IH _ Hx').
      unfold buffered in IH. rewrite He in IH. by rewrite <- app_assoc.
    + rewrite decide_False by done. rewrite app_nil_r. by apply IH.
Qed.

(** ** Safety *)

(** C6. No critical section of a session panics under any interleaving: no send
    on a closed channel, no double close, no nil dereference.  The only
    goroutines that can panic are those of Manager.Cancel, Snapshot and Get after
    they have released the manager's lock; List cannot.  And in every reachable
    state a listener's channel holds at most its capacity, and the flag under
    its mutex says whether the channel is closed. *)
Theorem sessions_never_panic w :
  reachable w ->
  (forall tid t c msg, wthreads w !! tid = Some t -> tstep c w t = Panics msg ->
    reads_unlocked t = true) /\
  (forall l x, wlisteners w !! l = Some x ->
    length (buffered x) <= Chan.ccap (Listener.lch x) /\
    Listener.lclosed x = Chan.cclosed (Listener.lch x)).
Proof.
  intros Hr%reachable_wf. pose proof (wf_inv _ Hr) as Hinv. split.
  - intros tid t c msg Ht Hs.
    pose proof (tstep_ok c w t (inv_data _ Hinv) (Forall_lookup_1 _ _ _ _ (inv_threads _ Hinv) Ht)
      (Forall_lookup_1 _ _ _ _ (mw_list _ (wf_man _ Hr)) Ht)) as Hok.
    by rewrite Hs in Hok.
  - intros l x Hx. by destruct (dw_lis _ (inv_data _ Hinv) _ _ Hx) as [_ ? ?].
Qed.

(** C32. The transcript refines a list: after any interleaving, EventsSnapshot
    returns exactly the last BufferSize events published to the session, in the
    order of their critical sections, with no nil entry. *)
Theorem transcript_is_last_n ls w s x :
  run init ls w -> wsessions w !! s = Some x ->
  Session.EventsSnapshot x =
    Some <$> lastn (Z.to_nat (BufferSize (Session.cfg x))) (published s ls).
Proof. intros Hr Hx. apply holds_snapshot. by eapply transcript_holds. Qed.
