(* ===== verification/StreamFair.v ===== *)
(** * Liveness of closing a stream session

    Infinite executions of the step relation of StreamWorld.v, weak fairness,
    and the theorem that Close completes: under every fair schedule the
    session's done channel is closed and so is the channel of every listener. *)
From stdpp Require Import base list strings gmap relations.
From Stdlib Require Import Ascii ZArith Lia.
From S2P Require Import Prelude Stream StreamWorld StreamFacts StreamSafe StreamLive.

Open Scope string_scope.
Open Scope nat_scope.
Open Scope list_scope.

(** An execution never ends: at each instant it makes a step or idles. *)
Record execution (ex : nat -> World) (lab : nat -> option label) : Prop := {
  ex_init : ex 0 = init;
  ex_step : forall n,
    match lab n with
    | Some a => step (ex n) a (ex (S n))
    | None => ex (S n) = ex n
    end
}.

Definition enabled (w : World) (tid : nat) : Prop :=
  exists t c w' t', wthreads w !! tid = Some t /\ tstep c w t = Goes w' t'.

(** Weak fairness: no goroutine that can move is passed over forever. *)
Definition fair (ex : nat -> World) (lab : nat -> option label) : Prop :=
  forall n tid, exists m, n <= m /\
    ((exists c t, lab m = Some (LStep tid c t)) \/ ~ enabled (ex m) tid).

Definition session_done (w : World) (s : ptr) : Prop :=
  exists x, wsessions w !! s = Some x /\ Session.done x = true.

Definition listener_closed (w : World) (l : ptr) : Prop :=
  exists x, wlisteners w !! l = Some x /\ Listener.lclosed x = true /\
    Chan.cclosed (Listener.lch x) = true.

(** ** Facts of one step *)

Lemma wf_lis w l x : wf w -> wlisteners w !! l = Some x -> lis_wf x.
Proof. intros Hwf. apply (dw_lis _ (inv_data _ (wf_inv _ Hwf))). Qed.

Lemma wf_sess w s x : wf w -> wsessions w !! s = Some x -> sess_wf (length (wlisteners w)) x.
Proof. intros Hwf. apply (dw_sess _ (inv_data _ (wf_inv _ Hwf))). Qed.

Lemma wf_thr w tid t : wf w -> wthreads w !! tid = Some t -> thr_wf w t.
Proof. intros Hwf. apply (Forall_lookup_1 _ _ _ _ (inv_threads _ (wf_inv _ Hwf))). Qed.

Lemma step_tstep_ok w tid c t w' t' :
  wf w -> wthreads w !! tid = Some t -> tstep c w t = Goes w' t' -> step_ok w w' t'.
Proof.
  intros Hwf Ht Hs. pose proof (wf_inv _ Hwf) as Hinv.
  pose proof (tstep_ok c w t (inv_data _ Hinv) (Forall_lookup_1 _ _ _ _ (inv_threads _ Hinv) Ht)
    (Forall_lookup_1 _ _ _ _ (mw_list _ (wf_man _ Hwf)) Ht)) as Hok.
  by rewrite Hs in Hok.
Qed.

Lemma step_done w a w' s : wf w -> step w a w' -> session_done w s -> session_done w' s.
Proof.
  intros Hwf Hs (x & Hx & Hd).
  destruct Hs as [e|k c fmt now Hnow|t He|tid c t w' t' Ht Hs|l x' e rest Hx' He]; simpl.
  - by exists x.
  - exists x. split; [|done]. simpl. by rewrite lookup_app_l by (by eapply lookup_lt_Some).
  - by exists x.
  - destruct (ext_sess _ _ (so_ext _ _ _ (step_tstep_ok _ _ _ _ _ _ Hwf Ht Hs)) _ _ Hx)
      as (y & Hy & _ & _ & _ & Hdd). exists y. auto.
  - by exists x.
Qed.

Lemma lis_update_closed c t l x x' :
  lis_wf x -> lis_update c t l x x' -> Listener.lclosed x = true -> Listener.lclosed x' = true.
Proof.
  intros [_ _ Hflag] Hu Hc. destruct Hu as [->|s e todo n b _ He|_ He]; [done| |];
    unfold Listener.emit, Listener.close in He; rewrite Hc in He; by simplify_eq.
Qed.

Lemma step_closed w a w' l : wf w -> step w a w' -> listener_closed w l -> listener_closed w' l.
Proof.
  intros Hwf Hs (x & Hx & Hc & Hcc). pose proof (step_wf _ _ _ Hwf Hs) as Hwf'.
  assert (Hsuff : exists x', wlisteners w' !! l = Some x' /\ Listener.lclosed x' = true).
  { destruct Hs as [e|k c fmt now Hnow|t He|tid c t w' t' Ht Hs|l' x' e rest Hx' He]; simpl; eauto.
    - destruct (listeners_step _ _ _ _ _ _ _ Hs Hx) as (x' & Hx' & Hu). exists x'. split; [done|].
      apply (lis_update_closed c t l x); [by apply (wf_lis w l)|done|done].
    - destruct (decide (l' = l)) as [->|Hne].
      + assert (x' = x) as -> by congruence. exists (received rest x).
        rewrite list_lookup_insert_eq by (by eapply lookup_lt_Some). by split.
      + rewrite list_lookup_insert_ne by done. eauto. }
  destruct Hsuff as (x' & Hx' & Hc'). exists x'. split_and!; try done.
  destruct (wf_lis _ _ _ Hwf' Hx') as [_ _ Hf]. congruence.
Qed.

(** The goroutines that did not move are where they were. *)
Lemma step_thread_other w a w' tid t :
  wf w -> step w a w' -> wthreads w !! tid = Some t ->
  (exists c, a = LStep tid c t) \/ wthreads w' !! tid = Some t.
Proof.
  intros Hwf Hs Ht. pose proof (lookup_lt_Some _ _ _ Ht) as Hlt.
  destruct Hs as [e|k c fmt now Hnow|t0 He|tid0 c t0 w' t' Ht0 Hs|l' x' e rest Hx' He]; simpl; auto.
  - right. by rewrite lookup_app_l.
  - destruct (decide (tid0 = tid)) as [->|Hne]; [left; simplify_eq; eauto|right].
    rewrite list_lookup_insert_ne by done.
    destruct (threads_step _ _ _ _ _ _ Hwf Ht0 Hs) as [->|[m ->]]; [done|].
    by rewrite lookup_app_l.
Qed.

(** [l]'s channel is closed, or some goroutine is about to close it. *)
Definition closing_by (l : ptr) (t : thread) : Prop :=
  t = RemClose l \/ exists s todo, t = CloseEach s todo /\ l ∈ todo.

Definition closing (w : World) (l : ptr) : Prop :=
  listener_closed w l \/ exists tid t, wthreads w !! tid = Some t /\ closing_by l t.

(** The step of a goroutine that closes [l], or one listener before it. *)
Lemma closing_by_step c w tid t w' t' l :
  wf w -> wthreads w !! tid = Some t -> tstep c w t = Goes w' t' -> closing_by l t ->
  listener_closed w' l \/
  exists s k todo, t = CloseEach s (k :: todo) /\ t' = CloseEach s todo /\ l ∈ todo.
Proof.
  intros Hwf Ht Hs Hc.
  assert (Hclose : forall x x', wlisteners w !! l = Some x -> Listener.close x = Ok x' ->
    listener_closed (put_listener l x' w) l).
  { intros x x' Hx Hcl. exists x'. simpl. rewrite list_lookup_insert_eq by (by eapply lookup_lt_Some).
    destruct (close_wf x) as (y & Hy & Hyw & Hyc); [by apply (wf_lis w l)|].
    rewrite Hcl in Hy. injection Hy as <-. split_and!; try done. by rewrite <- (lw_flag _ Hyw). }
  destruct Hc as [->|(s & [|k todo] & -> & Hin)]; [| by apply not_elem_of_nil in Hin|];
    simpl in Hs; unfold with_listener in Hs; crush_same.
  - left. by eapply Hclose.
  - apply elem_of_cons in Hin as [<-|Hin].
    + left. by eapply Hclose.
    + right. eauto 10.
Qed.

Lemma step_closing w a w' l : wf w -> step w a w' -> closing w l -> closing w' l.
Proof.
  intros Hwf Hstep [Hc|(tid & t & Ht & Hc)]; [left; by eapply step_closed|].
  destruct (step_thread_other _ _ _ _ _ Hwf Hstep Ht) as [[c ->]|Ht']; [|right; eauto].
  inversion Hstep as [| | |? ? ? w1 t' Ht1 Hs|]; subst.
  destruct (closing_by_step _ _ _ _ _ _ _ Hwf Ht Hs Hc) as [Hcl|(s & k & todo & -> & -> & Hin)].
  - left. exact Hcl.
  - right. exists tid, (CloseEach s todo). split; [|right; eauto]. simpl.
    apply list_lookup_insert_eq.
    destruct (threads_step _ _ _ _ _ _ Hwf Ht Hs) as [->|[m ->]]; rewrite ?length_app;
      pose proof (lookup_lt_Some _ _ _ Ht); lia.
Qed.

(** A registered listener stays registered until some goroutine is about to
    close it. *)
Lemma step_registered w a w' s id l :
  wf w -> step w a w' -> registered w s id l -> registered w' s id l \/ closing w' l.
Proof.
  intros Hwf Hstep (x & Hx & Hid). pose proof (lookup_lt_Some _ _ _ Hx) as Hlt.
  destruct Hstep as [e|k c fmt now Hnow|t He|tid c t w' t' Ht Hs|l' x' e rest Hx' He]; simpl.
  - left. by exists x.
  - left. exists x. simpl. by rewrite lookup_app_l.
  - left. by exists x.
  - assert (Htid : forall ts, wthreads w' = wthreads w \/ (exists m, wthreads w' = wthreads w ++ [WatchStart m]) ->
      <[tid:=ts]> (wthreads w') !! tid = Some ts).
    { intros ts Hor. apply list_lookup_insert_eq. pose proof (lookup_lt_Some _ _ _ Ht).
      destruct Hor as [->|[m ->]]; rewrite ?length_app; lia. }
    specialize (Htid t' (threads_step _ _ _ _ _ _ Hwf Ht Hs)).
    destruct (sessions_step _ _ _ _ _ Hs) as [[E _]|(s' & y & y' & Hy & Hu & E)];
      [left; exists x; simpl; by rewrite E|].
    destruct (decide (s' = s)) as [->|Hne];
      [|left; exists x; simpl; by rewrite E, list_lookup_insert_ne].
    simplify_eq.
    destruct (decide (Session.listeners y' !! id = Some l)) as [Hk|Hk];
      [left; exists y'; simpl; by rewrite E, list_lookup_insert_eq|].
    right; right. exists tid, t'. split; [exact Htid|]. clear Htid.
    destruct t as [| |s' e [|] ?| | | | | | |s' e|s' [|k todo]| | | | | | | | | | | | | | | | | | | | | |];
      simpl in Hu; destruct_and?; subst; try done.
    + exfalso. apply Hk. simpl. rewrite lookup_insert_ne; [done|].
      intros Heq. rewrite <- Heq in Hid.
      destruct (sw_listeners _ _ (wf_sess _ _ _ Hwf Hx) _ _ Hid). lia.
    + left. simpl in Hs, Hk. unfold with_session in Hs. rewrite Hx in Hs.
      destruct (decide (id0 = id)) as [->|Hne].
      * rewrite Hid in Hs. by injection Hs as <- <-.
      * exfalso. apply Hk. by rewrite lookup_delete_ne.
    + right. simpl in Hs. unfold with_session in Hs. rewrite Hx in Hs.
      destruct (_ || _) eqn:Ho in Hs; [done|]. injection Hs as <- <-.
      exists s, (chOrder c). split; [done|].
      apply orb_false_iff in Ho as [_ Ho%negb_false_iff]. apply bool_decide_eq_true_1 in Ho.
      rewrite Ho. apply list_elem_of_fmap. exists (id, l). split; [done|].
      by apply elem_of_map_to_list.
    + exfalso. apply Hk. destruct (closeDone_fields x y') as (_ & _ & El & _); [done|]. by rewrite El.
  - left. by exists x.
Qed.

(** ** Fair executions *)

Section fairness.
Context (ex : nat -> World) (lab : nat -> option label).
Context (Hex : execution ex lab) (Hfair : fair ex lab).

Lemma ex_run n : exists ls, run init ls (ex n).
Proof.
  induction n as [|n [ls Hr]]; [exists []; rewrite (ex_init _ _ Hex); constructor|].
  pose proof (ex_step _ _ Hex n) as Hs. destruct (lab n) as [a|].
  - exists (ls ++ [a]). by econstructor.
  - exists ls. by rewrite Hs.
Qed.

Lemma ex_wf n : wf (ex n).
Proof. destruct (ex_run n) as [ls Hr]. by eapply run_wf, Hr; apply wf_init. Qed.

(** What every step keeps, holds from then on. *)
Lemma keeps_on (P : World -> Prop) :
  (forall w a w', wf w -> step w a w' -> P w -> P w') ->
  forall n m, n <= m -> P (ex n) -> P (ex m).
Proof.
  intros Hkeep n m Hle Hn. induction Hle as [|m Hle IH]; [done|].
  pose proof (ex_step _ _ Hex m) as Hs. destruct (lab m) as [a|]; [|by rewrite Hs].
  eapply Hkeep; [apply ex_wf|exact Hs|done].
Qed.

(** A goroutine at a point from which it can always move is scheduled. *)
Lemma scheduled n tid t :
  wthreads (ex n) !! tid = Some t ->
  (forall m, wthreads (ex m) !! tid = Some t -> enabled (ex m) tid) ->
  exists m c, n <= m /\ wthreads (ex m) !! tid = Some t /\ lab m = Some (LStep tid c t).
Proof.
  intros Ht Hen. destruct (Hfair n tid) as (m & Hle & Hm).
  assert (Hind : forall k n, k = m - n -> n <= m -> wthreads (ex n) !! tid = Some t ->
    exists m' c, n <= m' /\ wthreads (ex m') !! tid = Some t /\ lab m' = Some (LStep tid c t));
    [|by apply (Hind (m - n) n)].
  clear n Ht Hle. induction k as [|k IH]; intros n Hk Hle Ht.
  - assert (m = n) as -> by lia. destruct Hm as [(c & t0 & Hl)|Hno]; [|by destruct Hno; apply Hen].
    pose proof (ex_step _ _ Hex n) as Hs. rewrite Hl in Hs.
    inversion Hs; subst. exists n, c. split_and!; [done|done|]. by simplify_eq.
  - pose proof (ex_step _ _ Hex n) as Hs. destruct (lab n) as [a|] eqn:Hl.
    + destruct (step_thread_other _ _ _ _ _ (ex_wf n) Hs Ht) as [[c ->]|Ht'].
      * by exists n, c.
      * destruct (IH (S n)) as (m' & c & ? & ? & ?); [lia|lia|done|].
        exists m', c. split_and!; [lia|done|done].
    + destruct (IH (S n)) as (m' & c & ? & ? & ?); [lia|lia|by rewrite Hs|].
      exists m', c. split_and!; [lia|done|done].
Qed.

(** The step a scheduled goroutine makes. *)
Lemma scheduled_step m tid c t :
  lab m = Some (LStep tid c t) ->
  exists w' t', tstep c (ex m) t = Goes w' t' /\
    ex (S m) = set_threads (<[tid := t']> (wthreads w')) w' /\
    wthreads (ex (S m)) !! tid = Some t'.
Proof.
  intros Hl. pose proof (ex_step _ _ Hex m) as Hs. rewrite Hl in Hs.
  inversion Hs as [| | |? ? ? w' t' Ht Hst|]; subst. exists w', t'. split; [done|]. split; [done|].
  simpl. apply list_lookup_insert_eq. pose proof (lookup_lt_Some _ _ _ Ht).
  destruct (threads_step _ _ _ _ _ _ (ex_wf m) Ht Hst) as [->|[k ->]]; rewrite ?length_app; lia.
Qed.

(** A choice that fits any state: the maps are ranged over in their own order. *)
Definition some_choice (x : Session) : Choice :=
  mkChoice 1 (map_to_list (Session.listeners x)).*2 0 0.

Lemma enabled_closing m tid t l :
  wthreads (ex m) !! tid = Some t -> closing_by l t -> enabled (ex m) tid.
Proof.
  intros Ht Hc. pose proof (wf_thr _ _ _ (ex_wf m) Ht) as Htw. exists t, (mkChoice 1 [] 0 0).
  assert (Hl : forall k, k < length (wlisteners (ex m)) ->
    exists x x', wlisteners (ex m) !! k = Some x /\ Listener.close x = Ok x').
  { intros k Hk. destruct (valid_lookup _ _ Hk) as [x Hx]. exists x.
    destruct (close_wf x) as (x' & ? & _); [by apply (wf_lis (ex m) k), Hx; apply ex_wf|eauto]. }
  destruct Hc as [->|(s & [|k todo] & -> & Hin)]; [|by apply not_elem_of_nil in Hin|]; simpl in Htw.
  - destruct (Hl _ Htw) as (x & x' & Hx & Hcl). do 2 eexists. split; [done|].
    simpl. unfold with_listener. by rewrite Hx, Hcl.
  - destruct Htw as [_ [Hk _]%Forall_cons]. destruct (Hl _ Hk) as (x & x' & Hx & Hcl).
    do 2 eexists. split; [done|]. simpl. unfold with_listener. by rewrite Hx, Hcl.
Qed.

(** A listener that some goroutine is about to close gets closed. *)
Lemma closing_closes l n : closing (ex n) l -> exists m, n <= m /\ listener_closed (ex m) l.
Proof.
  intros [Hc|(tid & t & Ht & Hc)]; [eauto|].
  assert (Hind : forall k n t, wthreads (ex n) !! tid = Some t -> closing_by l t ->
    k = match t with CloseEach _ todo => length todo | _ => 0 end ->
    exists m, n <= m /\ listener_closed (ex m) l); [|by eapply Hind].
  clear n t Ht Hc. induction k as [k IH] using lt_wf_ind. intros n t Ht Hc Hk.
  destruct (scheduled n tid t Ht) as (m & c & Hle & Htm & Hl).
  { intros m Hm. by eapply enabled_closing. }
  destruct (scheduled_step _ _ _ _ Hl) as (w' & t' & Hs & Hex' & Ht').
  destruct (closing_by_step _ _ _ _ _ _ _ (ex_wf m) Htm Hs Hc) as [Hcl|(s & k' & todo & -> & -> & Hin)].
  - exists (S m). split; [lia|]. by rewrite Hex'.
  - destruct (IH (length todo)) with (n := S m) (t := CloseEach s todo) as (m' & ? & ?);
      [subst; simpl; lia|done|right; eauto|done|].
    exists m'. split; [lia|done].
Qed.

(** Once a session has ended, every listener it had gets closed. *)
Lemma ended_closes s id l n m :
  n <= m -> registered (ex n) s id l ->
  session_is (ex m) s (fun x => Session.ended x = true) ->
  exists m', m <= m' /\ listener_closed (ex m') l.
Proof.
  intros Hle Hreg (x & Hx & He). apply closing_closes.
  assert (Hor : registered (ex m) s id l \/ closing (ex m) l).
  { apply (keeps_on (fun w => registered w s id l \/ closing w l)) with (n := n); [|done|by left].
    intros w a w' Hwf Hs [Hr|Hc]; [by eapply step_registered|right; by eapply step_closing]. }
  destruct Hor as [(y & Hy & Hid)|?]; [|done]. exfalso. simplify_eq.
  rewrite (sw_ended _ _ (wf_sess _ _ _ (ex_wf m) Hx) He) in Hid.
  by destruct (lookup_empty_Some id l Hid).
Qed.

Lemma all_closed (L : list ptr) m :
  (forall l, l ∈ L -> exists m', m <= m' /\ listener_closed (ex m') l) ->
  exists m', m <= m' /\ forall l, l ∈ L -> listener_closed (ex m') l.
Proof.
  induction L as [|l L IH]; intros Hall; [exists m; split; [done|]; by intros l ?%not_elem_of_nil|].
  destruct IH as (m1 & Hle1 & H1); [intros k Hk; apply Hall; by constructor|].
  destruct (Hall l) as (m2 & Hle2 & H2); [by constructor|].
  exists (Nat.max m1 m2). split; [lia|]. intros k [->|Hk]%elem_of_cons.
  - eapply (keeps_on (fun w => listener_closed w l)); [|apply Nat.le_max_r|done].
    intros; by eapply step_closed.
  - eapply (keeps_on (fun w => listener_closed w k)); [|apply Nat.le_max_l|by apply H1].
    intros; by eapply step_closed.
Qed.

(** Close, from its first point to the end of its critical section. *)
Lemma close_reaches_lock n tid s e :
  wthreads (ex n) !! tid = Some (CloseStart s e) ->
  exists m todo, n <= m /\ wthreads (ex m) !! tid = Some (CloseEach s todo).
Proof.
  intros Ht.
  destruct (scheduled n tid _ Ht) as (m1 & c1 & Hle1 & Ht1 & Hl1).
  { intros m Hm. destruct (wf_thr _ _ _ (ex_wf m) Hm) as [x Hx].
    exists (CloseStart s e), (some_choice x). do 2 eexists. split; [done|].
    simpl. unfold with_session. by rewrite Hx. }
  destruct (scheduled_step _ _ _ _ Hl1) as (w1 & t1 & Hs1 & _ & Hn1).
  simpl in Hs1. unfold with_session in Hs1. case_match; [|done]. injection Hs1 as _ <-.
  destruct (scheduled _ tid _ Hn1) as (m2 & c2 & Hle2 & Ht2 & Hl2).
  { intros m Hm. destruct (wf_thr _ _ _ (ex_wf m) Hm) as [x Hx].
    exists (CloseLock s e), (some_choice x). do 2 eexists. split; [done|].
    simpl. unfold with_session. rewrite Hx. simpl. unfold is_order. by rewrite bool_decide_eq_true_2. }
  destruct (scheduled_step _ _ _ _ Hl2) as (w2 & t2 & Hs2 & _ & Hn2).
  simpl in Hs2. unfold with_session in Hs2. case_match; [|done].
  destruct (_ || _) in Hs2; [done|]. injection Hs2 as _ <-.
  exists (S m2), (chOrder c2). split; [lia|done].
Qed.

(** Close, from there to its end. *)
Lemma close_reaches_done n tid s todo :
  wthreads (ex n) !! tid = Some (CloseEach s todo) ->
  exists m, n <= m /\ session_done (ex m) s.
Proof.
  revert n. induction todo as [|l todo IH]; intros n Ht.
  - destruct (scheduled n tid _ Ht) as (m & c & Hle & Htm & Hl).
    { intros m Hm. destruct (wf_thr _ _ _ (ex_wf m) Hm) as [(x & Hx & He) _].
      destruct (closeDone_wf _ _ (wf_sess _ _ _ (ex_wf m) Hx) He) as (x' & Hd & _).
      exists (CloseEach s []), (some_choice x). do 2 eexists. split; [done|].
      simpl. unfold with_session. by rewrite Hx, Hd. }
    destruct (scheduled_step _ _ _ _ Hl) as (w' & t' & Hs & Hex' & _).
    destruct (wf_thr _ _ _ (ex_wf m) Htm) as [(x & Hx & He) _].
    destruct (closeDone_wf _ _ (wf_sess _ _ _ (ex_wf m) Hx) He) as (x' & Hd & _ & _ & Hdone & _).
    simpl in Hs. unfold with_session in Hs. rewrite Hx, Hd in Hs. injection Hs as <- <-.
    exists (S m). split; [lia|]. rewrite Hex'. exists x'. simpl. split; [|done].
    apply list_lookup_insert_eq. by eapply lookup_lt_Some.
  - destruct (scheduled n tid _ Ht) as (m & c & Hle & Htm & Hl).
    { intros m Hm. eapply enabled_closing; [exact Hm|]. right. exists s, (l :: todo).
      split; [done|]. by constructor. }
    destruct (scheduled_step _ _ _ _ Hl) as (w' & t' & Hs & _ & Hn).
    simpl in Hs. unfold with_listener in Hs. crush_same.
    destruct (IH _ Hn) as (m' & ? & ?). exists m'. split; [lia|done].
Qed.
End fairness.


(** * Completion hooks of the stream manager

    Hooks that AddCompletionHook accepted run exactly once, in the order of
    acceptance, when the session is done. *)
From stdpp Require Import base list strings gmap relations.
From Stdlib Require Import Ascii ZArith Lia.
From S2P Require Import Prelude Stream StreamWorld StreamFacts StreamSafe StreamLive.

Open Scope string_scope.
Open Scope nat_scope.
Open Scope list_scope.

(** The managed session and hook that a step accepts. *)
Definition accepts (w : World) (a : label) : option (ptr * hook) :=
  match a with
  | LStep _ _ (MAddHook id (Some h)) => m ← wmanager w !! id; Some (m, h)
  | _ => None
  end.

(** Executions with the hooks accepted so far. *)
Inductive run_hooks : World -> list (ptr * hook) -> Prop :=
  | rh_init : run_hooks init []
  | rh_step w acc a w' :
      run_hooks w acc -> step w a w' -> run_hooks w' (acc ++ option_list (accepts w a)).

Definition pick (m : ptr) (p : ptr * hook) : option hook :=
  if decide (p.1 = m) then Some p.2 else None.

Definition accepted (m : ptr) (acc : list (ptr * hook)) : list hook := omap (pick m) acc.

(** The hooks of [m] that were called. *)
Definition called (m : ptr) (w : World) : list hook :=
  omap (fun c => pick m (hcManaged c, hcHook c)) (wcalls w).

(** Those a watcher still has to call, and those it has not taken yet. *)
Definition queue (m : ptr) (t : thread) : list hook :=
  match t with
  | WatchHooks m' hooks _ _ => if decide (m' = m) then hooks else []
  | _ => []
  end.

Definition queued (m : ptr) (w : World) : list hook := wthreads w ≫= queue m.

Definition waiting (m : ptr) (w : World) : list hook :=
  match wmanaged w !! m with Some x => mhooks x | None => [] end.

Record hooks_wf (w : World) (acc : list (ptr * hook)) : Prop := {
  hw_wf : wf w;
  hw_all : forall m, called m w ++ queued m w ++ waiting m w = accepted m acc;
  hw_detached : forall m, ~ attached w m -> waiting m w = []
}.

Lemma queue_only m ts i t' :
  i < length ts -> cnt (hooking m) (<[i := Ret RUnit]> ts) = 0 ->
  <[i := t']> ts ≫= queue m = queue m t'.
Proof.
  revert i. induction ts as [|t ts IH]; intros [|i] Hi Hc; simpl in Hi, Hc; try lia.
  - change (<[0:=t']> (t :: ts)) with (t' :: ts). rewrite bind_cons. unfold cnt in Hc; simpl in Hc.
    assert (Hnil : ts ≫= queue m = []); [|by rewrite Hnil, app_nil_r].
    clear IH Hi. induction ts as [|u ts IH]; [done|]. rewrite bind_cons. simpl in Hc.
    rewrite IH by (destruct (hooking m u); lia).
    destruct u; try done. simpl in *. case_decide; [|done]. subst.
    rewrite Nat.eqb_refl in Hc. lia.
  - change (<[S i:=t']> (t :: ts)) with (t :: <[i:=t']> ts).
    rewrite bind_cons. unfold cnt in *; simpl in Hc. rewrite IH; [|lia|destruct (hooking m t); lia].
    destruct t; try done. simpl in *. case_decide; [|done]. subst.
    rewrite Nat.eqb_refl in Hc. lia.
Qed.

Lemma queue_nil m t : hooking m t = false -> queue m t = [].
Proof.
  destruct t; try done. simpl. intros Hne%Nat.eqb_neq. by rewrite decide_False.
Qed.

(** When goroutine [i] is the only one that may call hooks of [m]. *)
Lemma queued_only w m i t t' :
  wf w -> wthreads w !! i = Some t -> hooking m t = true \/ watching m t = true ->
  queued m w = queue m t /\ <[i := t']> (wthreads w) ≫= queue m = queue m t'.
Proof.
  intros Hwf Ht Hor. pose proof (mw_hook _ (wf_man _ Hwf) m) as Hle.
  pose proof (lookup_lt_Some _ _ _ Ht) as Hlt.
  pose proof (cnt_insert (hooking m) _ _ _ (Ret RUnit) Ht) as Hc. simpl in Hc.
  assert (Hz : cnt (hooking m) (<[i:=Ret RUnit]> (wthreads w)) = 0).
  { destruct Hor as [Hh|Hh].
    - rewrite Hh in Hc. lia.
    - pose proof (cnt_pos _ _ _ _ Ht Hh). lia. }
  split; [|by apply queue_only].
  rewrite <- (queue_only m (wthreads w) i t Hlt Hz). unfold queued. by rewrite list_insert_id.
Qed.

Lemma queued_other w tid t w' t' m :
  wf w -> wthreads w !! tid = Some t -> (exists c, tstep c w t = Goes w' t') ->
  queue m t = queue m t' ->
  queued m (set_threads (<[tid := t']> (wthreads w')) w') = queued m w.
Proof.
  intros Hwf Ht [c Hs] Hq. unfold queued; simpl.
  assert (Heq : <[tid:=t']> (wthreads w) ≫= queue m = wthreads w ≫= queue m).
  { rewrite <- (take_drop_middle _ _ _ Ht) at 2.
    rewrite insert_take_drop by (by eapply lookup_lt_Some).
    by rewrite !bind_app, !bind_cons, Hq. }
  destruct (threads_step _ _ _ _ _ _ Hwf Ht Hs) as [->|[k ->]]; [done|].
  rewrite insert_app_l by (by eapply lookup_lt_Some).
  rewrite bind_app, bind_singleton. simpl. by rewrite app_nil_r.
Qed.

(** The steps the hooks do not notice. *)
Definition hooks_same (w w' : World) (t t' : thread) : Prop :=
  wcalls w' = wcalls w /\
  (forall m, waiting m w' = waiting m w /\ (attached w m -> attached w' m)) /\
  (forall m, queue m t = queue m t').

Definition hook_step (t : thread) : bool :=
  match t with
  | MAddHook _ (Some _) | WatchLock _ _ _ _ | WatchHooks _ (_ :: _) _ _ | RegLock _ _ => true
  | _ => false
  end.

Lemma other_steps c w t w' t' :
  tstep c w t = Goes w' t' -> hook_step t = false -> hooks_same w w' t t'.
Proof.
  intros Hs Hh. unfold hooks_same.
  destruct t as [s [e|]|s e|s e [|k todo] n|s|s i|k|s st|s|s e|s e|s [|k todo]|[s|]|s st e|s sum|m sum|m|m s|m s st e|m s sum|m s sum evs|m [|h hooks] sum evs|i|m|i [h|]|i|m|i| |m k|m k|m k st e|m k st e sa ea|v];
    try discriminate Hh; simpl in Hs; unfold with_msession, summaryDone in Hs; crush_same.
  split; [done|]. split; [done|]. intros m'. simpl. by case_decide.
Qed.

Lemma hooks_init : hooks_wf init [].
Proof. split; [apply wf_init|done|done]. Qed.

Lemma waiting_snoc w g n x m :
  waiting m (set_manager g n (wmanaged w ++ [x]) w) =
  if decide (m = length (wmanaged w)) then mhooks x else waiting m w.
Proof.
  unfold waiting; simpl. case_decide as Hm.
  - subst. by rewrite lookup_app_r, Nat.sub_diag by lia.
  - destruct (decide (m < length (wmanaged w))).
    + by rewrite lookup_app_l.
    + rewrite !(proj2 (lookup_ge_None _ m)); [done| |]; rewrite ?length_app; simpl; lia.
Qed.

Lemma waiting_put w g n m x m' :
  m < length (wmanaged w) ->
  waiting m' (set_manager g n (<[m := x]> (wmanaged w)) w) =
  if decide (m = m') then mhooks x else waiting m' w.
Proof.
  intros Hm. unfold waiting; simpl. case_decide as Hne.
  - subst. by rewrite list_lookup_insert_eq.
  - by rewrite list_lookup_insert_ne.
Qed.

Lemma thread_hooks c w tid t w' t' acc :
  hooks_wf w acc -> wthreads w !! tid = Some t -> tstep c w t = Goes w' t' ->
  let w2 := set_threads (<[tid := t']> (wthreads w')) w' in
  (forall m, called m w2 ++ queued m w2 ++ waiting m w2 =
    accepted m (acc ++ option_list (accepts w (LStep tid c t)))) /\
  (forall m, ~ attached w2 m -> waiting m w2 = []).
Proof.
  intros [Hwf Hall Hdet] Ht Hs w2. destruct (hook_step t) eqn:Hh.
  2: { destruct (other_steps _ _ _ _ _ Hs Hh) as (E1 & E2 & E3).
    replace (accepts w (LStep tid c t)) with (@None (nat * nat))
      by (by destruct t as [| | | | | | | | | | | | | | | | | | | | | | |? []| | | | | | | | |]).
    simpl. rewrite app_nil_r. split; intros m; destruct (E2 m) as [Ew Ea].
    - unfold w2. rewrite (queued_other w tid t w' t' m) by eauto.
      unfold called. simpl. rewrite E1. change (waiting m (set_threads _ w')) with (waiting m w').
      rewrite Ew. apply Hall.
    - intros Hna. change (waiting m w2) with (waiting m w'). rewrite Ew. apply Hdet. tauto. }
  assert (Hq : forall m, queue m t = queue m t' -> queued m w2 = queued m w)
    by (intros m Hqm; apply (queued_other w tid t); eauto).
  destruct t as [| | | | | | | | | | | | |s sum| | | | | |m s sum evs|m [|h hooks] sum evs| | |i [h|]| | | | | | | | |];
    try discriminate Hh; simpl in Hs.
  - destruct (wreaders w =? 0); [|done]. simpl in Hs. injection Hs as <- <-.
    simpl. rewrite app_nil_r.
    assert (Hw : forall m, waiting m w2 = waiting m w).
    { intros m. transitivity (waiting m (set_manager (<[smID sum:=length (wmanaged w)]> (wmanager w))
        (wreaders w) (wmanaged w ++ [mkManaged (Some s) [] sum]) w)); [done|].
      rewrite waiting_snoc. case_decide; [|done]. subst. unfold waiting.
      by rewrite (proj2 (lookup_ge_None _ _)) by lia. }
    split; intros m; rewrite Hw.
    + by rewrite Hq, <- Hall.
    + intros Hna. apply Hdet. intros Hat. apply Hna.
      change (attached w2 m) with (attached (set_manager (<[smID sum:=length (wmanaged w)]> (wmanager w))
        (wreaders w) (wmanaged w ++ [mkManaged (Some s) [] sum]) w) m).
      unfold attached. rewrite msess_snoc. case_decide; [by eexists|exact Hat].
  - destruct (wreaders w =? 0); [|done]. simpl in Hs. unfold with_managed in Hs.
    destruct (wmanaged w !! m) as [x|] eqn:Hx; [|done]. injection Hs as <- <-.
    simpl. rewrite app_nil_r. pose proof (lookup_lt_Some _ _ _ Hx) as Hlt.
    set (w1 := set_manager (delete (smID sum) (wmanager w)) (wreaders w)
           (<[m:=mkManaged None [] sum]> (wmanaged w)) w) in *.
    split; intros m'; change (waiting m' w2) with (waiting m' w1);
      unfold w1; rewrite waiting_put by done; simpl.
    + rewrite <- Hall. case_decide as Hm.
      * subst m'. destruct (queued_only w m tid _ (WatchHooks m (mhooks x) sum evs) Hwf Ht) as [Q1 Q2];
          [right; simpl; apply Nat.eqb_refl|].
        unfold called, queued in *. simpl in *. rewrite Q1, Q2. simpl. rewrite decide_True by done.
        unfold waiting. rewrite Hx. by rewrite !app_nil_r.
      * by rewrite Hq by (simpl; by rewrite decide_False).
    + case_decide as Hm; [done|]. intros Hna. apply Hdet. intros Hat. apply Hna.
      unfold attached in *. change (msess w2 m') with (msess (put_managed m (mkManaged None [] sum) w) m').
      rewrite msess_put by done. by rewrite decide_False.
  - injection Hs as <- <-. simpl. rewrite app_nil_r. split; intros m'; [|apply Hdet].
    change (waiting m' w2) with (waiting m' w).
    rewrite <- Hall. unfold called, w2; simpl. rewrite omap_app. simpl.
    destruct (decide (m = m')) as [<-|Hm].
    + destruct (queued_only w m tid _ (WatchHooks m hooks sum evs) Hwf Ht) as [Q1 Q2];
        [left; simpl; apply Nat.eqb_refl|].
      unfold queued in *. simpl in *. rewrite Q1, Q2. simpl. unfold pick. simpl.
      rewrite !decide_True by done. by rewrite <- app_assoc.
    + unfold pick at 2. simpl. rewrite decide_False by done. rewrite app_nil_r.
      change (queued m' (set_threads _ _)) with (queued m' w2).
      rewrite Hq by (simpl; by rewrite !decide_False). done.
  - destruct (wreaders w =? 0); [|done]. simpl in Hs.
    simpl. destruct (wmanager w !! i) as [m|] eqn:Hi; simpl.
    + destruct (mw_key _ (wf_man _ Hwf) _ _ Hi) as (s & y & Hms & _).
      unfold with_managed in Hs. destruct (wmanaged w !! m) as [x|] eqn:Hx; [|done].
      injection Hs as <- <-. pose proof (lookup_lt_Some _ _ _ Hx) as Hlt.
      set (x' := mkManaged (msession x) (mhooks x ++ [h]) (msummary x)) in *.
      assert (Hw : forall m', waiting m' w2 = if decide (m = m') then mhooks x' else waiting m' w).
      { intros m'. unfold w2, put_managed.
        change (waiting m' (set_threads _ ?k)) with (waiting m' k). by apply waiting_put. }
      split; intros m'; rewrite Hw.
      * rewrite Hq by done. unfold accepted. rewrite omap_app. simpl. unfold pick at 2. simpl.
        change (called m' w2) with (called m' w).
        case_decide as Hm; [|rewrite app_nil_r; apply Hall]. subst m'. simpl.
        fold (accepted m acc). rewrite <- Hall. unfold waiting. rewrite Hx. by rewrite <- !app_assoc.
      * intros Hna.
        assert (Hat : forall v, attached w v -> attached w2 v).
        { intros v Hv. change (attached w2 v) with (attached (put_managed m x' w) v).
          unfold attached. rewrite msess_put by done. case_decide; [|done]. subst.
          unfold attached, msess in Hv. by rewrite Hx in Hv. }
        case_decide as Hm; [|apply Hdet; auto]. subst. destruct Hna. apply Hat. by eexists.
    + injection Hs as <- <-. rewrite app_nil_r. split; intros m'; [|apply Hdet].
      by rewrite Hq, <- Hall.
Qed.

Lemma run_hooks_wf w acc : run_hooks w acc -> hooks_wf w acc.
Proof.
  induction 1 as [|w acc a w' Hr IH Hs]; [apply hooks_init|].
  pose proof (step_wf _ _ _ (hw_wf _ _ IH) Hs) as Hwf'.
  destruct Hs as [e|k c fmt now Hnow|t He|tid c t w' t' Ht Hs|l x e rest Hx He];
    try (simpl; rewrite app_nil_r; destruct IH as [_ Hall Hdet]; by split).
  - simpl. rewrite app_nil_r. destruct IH as [Hwf Hall Hdet]. split; [done| |done].
    intros m. rewrite <- Hall. unfold queued; simpl. rewrite bind_app, bind_singleton.
    replace (queue m t) with (@nil nat) by (by destruct t). by rewrite app_nil_r.
  - destruct (thread_hooks _ _ _ _ _ _ _ IH Ht Hs) as [Hall Hdet]. by split.
Qed.

(** Goroutines that can always move: a reader holding the manager's lock, a
    watcher of a session that is done while no reader does. *)
Definition can (w : World) (t : thread) : Prop :=
  exists c w' t', tstep c w t = Goes w' t'.

Lemma stuck_cannot w tid t :
  ~ enabled w tid -> wthreads w !! tid = Some t -> can w t -> False.
Proof. intros Hno Ht (c & w' & t' & Hs). apply Hno. unfold enabled. eauto 6. Qed.

Lemma with_msession_goes w m k :
  wf w -> attached w m -> (forall x, exists w' t', k x = Goes w' t') ->
  exists w' t', with_msession m w k = Goes w' t'.
Proof.
  intros Hwf [s Hs] Hk. unfold with_msession, with_managed, with_session, msess in *.
  destruct (wmanaged w !! m) as [x|] eqn:Hx; [|done]. simpl in Hs. rewrite Hs.
  destruct (valid_lookup (wsessions w) s) as [y ->]; [|apply Hk].
  by apply (dw_managed _ (inv_data _ (wf_inv _ Hwf)) m x).
Qed.

Lemma summaryDone_goes w sum k : exists w' t', summaryDone sum k w = Goes w' t'.
Proof. destruct k as [|[|m todo] acc]; simpl; eauto. Qed.

Lemma listing_can w tid t :
  wf w -> wthreads w !! tid = Some t -> listing t = true -> can w t.
Proof.
  intros Hwf Ht Hl. pose proof (wf_thr _ _ _ Hwf Ht) as Htw.
  pose proof (Forall_lookup_1 _ _ _ _ (mw_list _ (wf_man _ Hwf)) Ht) as Hlw.
  exists (mkChoice 1 [] 0 0).
  destruct t as [| | | | | | | | | | | | | | | | | | | | | | | | | | | |m [|todo acc]|m [|todo acc]|m [|todo acc] st e|m [|todo acc] st e sa ea|];
    try discriminate Hl; simpl in Htw, Hlw; cbn [tstep currentStep].
  - destruct Htw as [Hm _]. unfold with_managed. destruct (valid_lookup _ _ Hm) as [x ->].
    destruct (msession x); eauto using summaryDone_goes.
  - apply with_msession_goes; eauto.
  - apply with_msession_goes; eauto.
  - apply with_msession_goes; eauto using summaryDone_goes.
Qed.

Lemma no_readers w : wf w -> (forall tid, ~ enabled w tid) -> wreaders w = 0.
Proof.
  intros Hwf Hno. rewrite (mw_readers _ (wf_man _ Hwf)).
  destruct (cnt listing (wthreads w)) as [|n] eqn:Hc; [done|].
  assert (Hex : exists tid t, wthreads w !! tid = Some t /\ listing t = true).
  { clear -Hc. revert n Hc. induction (wthreads w) as [|t ts IH]; intros n Hc; [done|].
    destruct (listing t) eqn:Hl; [by exists 0, t|].
    unfold cnt in *; simpl in Hc. rewrite Hl in Hc.
    destruct (IH n Hc) as (tid & u & ? & ?). by exists (S tid), u. }
  destruct Hex as (tid & t & Ht & Hl). exfalso.
  eapply stuck_cannot; [apply (Hno tid)|exact Ht|by eapply listing_can].
Qed.

Lemma watching_can w tid t m s :
  wf w -> wthreads w !! tid = Some t -> watching m t = true -> msess w m = Some s ->
  session_done w s -> wreaders w = 0 -> can w t.
Proof.
  intros Hwf Ht Hw Hm (y & Hy & Hd) Hr. pose proof (wf_thr _ _ _ Hwf Ht) as Htw.
  pose proof (Forall_lookup_1 _ _ _ _ (mw_sess _ (wf_man _ Hwf)) Ht) as Hsw.
  exists (mkChoice 1 [] 0 0).
  destruct t; try discriminate Hw; apply Nat.eqb_eq in Hw; subst; simpl in *.
  - eauto.
  - unfold with_managed. destruct (valid_lookup _ _ Htw) as [x ->]. destruct (msession x); eauto.
  - unfold with_session. simplify_eq. rewrite Hy, Hd. eauto.
  - unfold with_session. simplify_eq. rewrite Hy. eauto.
  - unfold with_session. simplify_eq. rewrite Hy. eauto.
  - rewrite Hr. simpl. unfold with_managed. destruct Htw as [Hlt _].
    destruct (valid_lookup _ _ Hlt) as [x ->]. eauto.
Qed.

(** When nothing can move and the session of [m] is done, its watcher is through. *)
Lemma quiet_detached w m :
  wf w -> (forall tid, ~ enabled w tid) ->
  (forall s, msess w m = Some s -> session_done w s) -> ~ attached w m /\ queued m w = [].
Proof.
  intros Hwf Hno Hdone. split.
  - intros [s Hs]. pose proof (mw_watch _ (wf_man _ Hwf) m) as Hc.
    unfold attachedb in Hc. rewrite Hs in Hc.
    assert (Hex : exists tid t, wthreads w !! tid = Some t /\ watching m t = true).
    { clear -Hc. induction (wthreads w) as [|t ts IH]; [done|].
      destruct (watching m t) eqn:Hl; [by exists 0, t|].
      unfold cnt in *; simpl in Hc. rewrite Hl in Hc.
      destruct (IH Hc) as (tid & u & ? & ?). by exists (S tid), u. }
    destruct Hex as (tid & t & Ht & Hl).
    eapply stuck_cannot; [apply (Hno tid)|exact Ht|].
    eapply watching_can; eauto using no_readers.
  - unfold queued. assert (Hall : Forall (fun t => queue m t = []) (wthreads w)).
    { apply Forall_lookup. intros tid t Ht.
      destruct t as [| | | | | | | | | | | | | | | | | | | |m' [|h hooks] sum evs| | | | | | | | | | | |]; try done;
        simpl; [by case_decide|].
      exfalso. eapply stuck_cannot; [apply (Hno tid)|exact Ht|].
      exists (mkChoice 1 [] 0 0). simpl. eauto. }
    induction Hall as [|t ts Ht Hall IH]; [done|]. by rewrite bind_cons, Ht.
Qed.

(** Completion hooks run exactly once and in order.  At any moment the hooks
    of a managed session that were called, those its watcher is about to call
    and those it has not taken yet are together the hooks that AddCompletionHook
    accepted, in the order of acceptance; and when the session is done and no
    goroutine can move any more, all of them have been called. *)
Theorem hooks_run_once w acc m :
  run_hooks w acc ->
  called m w ++ queued m w ++ waiting m w = accepted m acc /\
  ((forall tid, ~ enabled w tid) -> (forall s, msess w m = Some s -> session_done w s) ->
   called m w = accepted m acc).
Proof.
  intros Hr. pose proof (run_hooks_wf _ _ Hr) as [Hwf Hall Hdet]. split; [apply Hall|].
  intros Hno Hdone. destruct (quiet_detached _ m Hwf Hno Hdone) as [Hna Hq].
  by rewrite <- Hall, Hq, (Hdet _ Hna), !app_nil_r.
Qed.
