(* ===== verification/StreamInstances.v ===== *)
(** * Streams at concrete schedules

    Schedules evaluated by the kernel: witnesses of the theorems on streams, and
    the race of the manager's readers that use a session after the lock is
    released. *)
From stdpp Require Import base list strings gmap relations.
From Stdlib Require Import Ascii ZArith Lia.
From S2P Require Import Prelude Stream StreamWorld StreamFacts StreamSafe StreamLive StreamFair.

Open Scope string_scope.
Open Scope nat_scope.
Open Scope list_scope.

(** ** Schedules are executions *)

Lemma act_step a w l w' : act a w = Some (l, w') -> step w l w'.
Proof.
  destruct a as [e|k c fmt now|t|tid c|k]; simpl; unfold go; intros Ha.
  - injection Ha as <- <-. constructor.
  - destruct (Z.eqb_spec now 0); [done|]. injection Ha as <- <-. by constructor.
  - destruct (entry w t) eqn:He; [|done]. injection Ha as <- <-. by constructor.
  - destruct (wthreads w !! tid) as [t|] eqn:Ht; [|done].
    destruct (tstep c w t) eqn:Hs; try done. injection Ha as <- <-. by econstructor.
  - destruct (wlisteners w !! k) as [x|] eqn:Hx; [|done].
    destruct (Chan.cbuf (Listener.lch x)) eqn:He; [done|]. injection Ha as <- <-. by constructor.
Qed.

Lemma run_cons w1 a w2 ls w3 : step w1 a w2 -> run w2 ls w3 -> run w1 (a :: ls) w3.
Proof.
  intros Hs Hr. induction Hr as [w|w ls w' b w'' Hr IH Hb].
  - apply (run_snoc w1 [] w1); [constructor|done].
  - change (a :: ls ++ [b]) with ((a :: ls) ++ [b]). econstructor; eauto.
Qed.

Lemma schedule_run acts w ls w' : schedule acts w = Some (ls, w') -> run w ls w'.
Proof.
  revert w ls. induction acts as [|a acts IH]; intros w ls Hs; simpl in Hs.
  - simplify_eq. constructor.
  - destruct (act a w) as [[l w1]|] eqn:Ha; [|done].
    destruct (schedule acts w1) as [[ls1 w2]|] eqn:Hr; [|done]. simplify_eq.
    eapply run_cons; [by eapply act_step|by eapply IH].
Qed.

Definition final (acts : list action) : World :=
  match schedule acts init with Some (_, w) => w | None => init end.

Definition trace (acts : list action) : list label :=
  match schedule acts init with Some (ls, _) => ls | None => [] end.

Definition ok (acts : list action) : bool :=
  match schedule acts init with Some _ => true | None => false end.

Lemma run_schedule acts : ok acts = true -> run init (trace acts) (final acts).
Proof.
  unfold ok, trace, final. destruct (schedule acts init) as [[ls w]|] eqn:Hs; [|done].
  intros _. by eapply schedule_run.
Qed.

Lemma reach_schedule acts : ok acts = true -> reachable (final acts).
Proof. intros Hok. exists (trace acts). by apply run_schedule. Qed.

(** ** A session with a small buffer *)

Definition ch (order : list ptr) : Choice := mkChoice 7 order 0 0.

Definition sampleEvent : Event :=
  mkEvent KindSSE DirReceive 0 0 ∅ "payload" (mkSSE "" "" "" 0) (mkWS 0 0 "").

(** Two events of transcript, one event of channel buffer, DropOldest. *)
Definition sampleConfig : Config := mkConfig 2 1 DropOldest.

Definition setup : list action :=
  [ ASession KindSSE sampleConfig "20250101T000000.000000Z" 5;
    AEvent sampleEvent; AEvent sampleEvent; AEvent sampleEvent ].

(** One publication by goroutine [tid], offered to the listeners [ls]. *)
Definition publish (tid : nat) (evt : ptr) (ls : list ptr) : list action :=
  [ACall (PubStart 0 (Some evt)); AGo tid (ch []); AGo tid (ch ls)] ++
  (const (AGo tid (ch [])) <$> ls) ++ [AGo tid (ch [])].

Definition subscribed : list action :=
  setup ++ publish 0 0 [] ++ [ACall (SubLock 0)].

Definition published3 : list action :=
  subscribed ++ [AGo 1 (ch [])] ++ publish 2 1 [0] ++ publish 3 2 [0].

Example published3_ok : ok published3 = true.
Proof. vm_compute. reflexivity. Qed.

Lemma transcript_is_last_n_witness :
  published 0 (trace published3) = [0; 1; 2] /\
  exists x, wsessions (final published3) !! 0 = Some x /\
    Session.EventsSnapshot x = [Some 1; Some 2].
Proof.
  split; [vm_compute; reflexivity|].
  destruct (wsessions (final published3) !! 0) as [x|] eqn:Hx; [|vm_compute in Hx; discriminate Hx].
  exists x. split; [reflexivity|].
  rewrite (transcript_is_last_n (trace published3) (final published3) 0 x
    (run_schedule _ published3_ok) Hx).
  vm_compute in Hx. injection Hx as <-. vm_compute. reflexivity.
Defined.

Lemma sessions_never_panic_witness :
  exists x, wlisteners (final published3) !! 0 = Some x /\ buffered x = [2] /\ length (buffered x) <= Chan.ccap (Listener.lch x).
Proof.
  assert (Hx : exists x, wlisteners (final published3) !! 0 = Some x /\ buffered x = [2])
    by (eexists; split; vm_compute; reflexivity).
  destruct Hx as (x & Hx & Hb). exists x. split; [done|]. split; [done|].
  apply (proj2 (sessions_never_panic _ (reach_schedule _ published3_ok)) 0 x Hx).
Defined.

(** With a channel of one event, DropOldest discards the older one, and the
    listener's drop counter stays at zero. *)
Lemma delivery_in_order_witness :
  exists x, wlisteners (final published3) !! 0 = Some x /\ buffered x = [2] /\
    Listener.dropCnt x = 0%Z /\
    consumed 0 (trace published3) ++ buffered x `sublist_of` [1; 2].
Proof.
  destruct (wlisteners (final published3) !! 0) as [x|] eqn:Hx; [|vm_compute in Hx; discriminate Hx].
  exists x. split; [reflexivity|].
  assert (Hb : buffered x = [2] /\ Listener.dropCnt x = 0%Z).
  { vm_compute in Hx. injection Hx as <-. split; reflexivity. }
  destruct Hb as [H1 H2]. split; [exact H1|]. split; [exact H2|].
  assert (Hh : handed 0 (trace published3) = [1; 2]) by (vm_compute; reflexivity).
  rewrite <- Hh.
  apply (delivery_in_order (trace published3) (final published3) 0 x
    (run_schedule _ published3_ok) Hx).
Defined.

(** The tail of a schedule from the state of its head. *)
Definition tail_ok (acts rest : list action) : bool :=
  match schedule rest (final acts) with Some _ => true | None => false end.

Definition tail_final (acts rest : list action) : World :=
  match schedule rest (final acts) with Some (_, w) => w | None => init end.

Definition tail_trace (acts rest : list action) : list label :=
  match schedule rest (final acts) with Some (ls, _) => ls | None => [] end.

Lemma run_tail acts rest :
  tail_ok acts rest = true -> run (final acts) (tail_trace acts rest) (tail_final acts rest).
Proof.
  unfold tail_ok, tail_trace, tail_final.
  destruct (schedule rest (final acts)) as [[ls w]|] eqn:Hs; [|done].
  intros _. by eapply schedule_run.
Qed.

Definition sub_step : World := tail_final subscribed [AGo 1 (ch [])].

Definition after_sub : list action := publish 2 1 [0] ++ [ACall (PubStart 0 (Some 2)); AGo 3 (ch []); AGo 3 (ch [0])].

Definition sub_last : World :=
  match schedule after_sub sub_step with Some (_, w) => w | None => init end.

Definition sub_labels : list label :=
  match schedule after_sub sub_step with Some (ls, _) => ls | None => [] end.


(** ** A fair execution in which a session is closed *)

Definition closed_run : list action :=
  setup ++ [ACall (SubLock 0); AGo 0 (ch []); ACall (CloseStart 0 None)] ++
  [AGo 1 (ch []); AGo 1 (ch [0]); AGo 1 (ch []); AGo 1 (ch [])].

(** The states and labels of a schedule, idling at its end. *)
Fixpoint states (acts : list action) (w : World) (n : nat) : World :=
  match n, acts with
  | O, _ | _, [] => w
  | S n', a :: acts' =>
      match act a w with Some (_, w') => states acts' w' n' | None => w end
  end.

Fixpoint labels (acts : list action) (w : World) (n : nat) : option label :=
  match acts with
  | [] => None
  | a :: acts' =>
      match act a w with
      | Some (l, w') => match n with O => Some l | S n' => labels acts' w' n' end
      | None => None
      end
  end.

Lemma states_step acts w n :
  match labels acts w n with
  | Some a => step (states acts w n) a (states acts w (S n))
  | None => states acts w (S n) = states acts w n
  end.
Proof.
  revert w n. induction acts as [|a acts IH]; intros w n; [by destruct n|].
  simpl. destruct (act a w) as [[l w']|] eqn:Ha; [|by destruct n; simpl; rewrite ?Ha].
  destruct n as [|n]; simpl.
  - replace (states acts w' 0) with w' by (by destruct acts). by apply (act_step a).
  - apply IH.
Qed.

Lemma states_end acts w n : length acts <= n -> states acts w n = states acts w (length acts).
Proof.
  revert w n. induction acts as [|a acts IH]; intros w n Hn; [by destruct n|].
  destruct n as [|n]; [simpl in Hn; lia|]. simpl in *. destruct (act a w) as [[l w']|]; [|done].
  apply IH. lia.
Qed.

Lemma quiet_enabled w tid :
  Forall (fun t => exists v, t = Ret v) (wthreads w) -> ~ enabled w tid.
Proof.
  intros Hall (t & c & w' & t' & Ht & Hs).
  destruct (Forall_lookup_1 _ _ _ _ Hall Ht) as [v ->]. discriminate Hs.
Qed.

Lemma states_fair acts :
  Forall (fun t => exists v, t = Ret v) (wthreads (states acts init (length acts))) ->
  fair (states acts init) (labels acts init).
Proof.
  intros Hall n tid. exists (Nat.max n (length acts)). split; [lia|]. right.
  rewrite states_end by lia. by apply quiet_enabled.
Qed.


(** ** The manager *)

Definition sid0 : string := "sse-20250101T000000.000000Z-1".

(** Register (goroutine 0), which starts the watcher (goroutine 1). *)
Definition managed_setup : list action :=
  setup ++ [ACall (RegStart (Some 0))] ++ replicate 4 (AGo 0 (ch [])).

(** Goroutine [tid] closes session 0, and the watcher detaches it. *)
Definition close_and_detach (tid : nat) : list action :=
  [ACall (CloseStart 0 None)] ++ replicate 3 (AGo tid (ch [])) ++ replicate 5 (AGo 1 (ch [])).

Definition race (reader : thread) (k : nat) : list action :=
  managed_setup ++ [ACall reader] ++ replicate k (AGo 2 (ch [])) ++ close_and_detach 3.

(** C40. Manager.Snapshot, Cancel and Get race with the watcher: each takes the
    managed session under the lock and uses its session pointer after releasing
    it, and in between a session that ends is detached.  There are reachable
    states in which each of the three panics on a nil session. *)
Theorem unlocked_readers_race :
  (exists w tid m, reachable w /\ wthreads w !! tid = Some (MSnapshotDo m) /\
    forall c, tstep c w (MSnapshotDo m) = Panics nilDeref) /\
  (exists w tid m, reachable w /\ wthreads w !! tid = Some (MCancelDo m) /\
    forall c, tstep c w (MCancelDo m) = Panics nilDeref) /\
  (exists w tid m, reachable w /\ wthreads w !! tid = Some (CurState m ForGet) /\
    forall c, tstep c w (CurState m ForGet) = Panics nilDeref).
Proof.
  split; [|split].
  - exists (final (race (MSnapshot sid0) 1)), 2, 0.
    split; [apply reach_schedule; vm_compute; reflexivity|].
    split; [vm_compute; reflexivity|]. intros c. vm_compute. reflexivity.
  - exists (final (race (MCancel sid0) 1)), 2, 0.
    split; [apply reach_schedule; vm_compute; reflexivity|].
    split; [vm_compute; reflexivity|]. intros c. vm_compute. reflexivity.
  - exists (final (race (MGet sid0) 2)), 2, 0.
    split; [apply reach_schedule; vm_compute; reflexivity|].
    split; [vm_compute; reflexivity|]. intros c. vm_compute. reflexivity.
Qed.

(** MarkOpen does not look whether the session has ended: a session that was
    closed can report StateOpen again. *)
Lemma terminal_state_overwritten :
  exists w x, reachable w /\ wsessions w !! 0 = Some x /\ Session.done x = true /\
    Session.state x = StateOpen.
Proof.
  set (acts := setup ++ [ACall (CloseStart 0 None)] ++ replicate 3 (AGo 0 (ch [])) ++
    [ACall (SetState 0 StateOpen); AGo 1 (ch [])]).
  exists (final acts).
  destruct (wsessions (final acts) !! 0) as [x|] eqn:Hx; [|vm_compute in Hx; discriminate Hx].
  exists x. split; [apply reach_schedule; vm_compute; reflexivity|]. split; [reflexivity|].
  vm_compute in Hx. injection Hx as <-. split; reflexivity.
Qed.

(** ** Two hooks *)

Definition hooks_actions : list action :=
  managed_setup ++
  [ACall (MAddHook sid0 (Some 8)); AGo 2 (ch []); ACall (MAddHook sid0 (Some 9)); AGo 3 (ch [])] ++
  close_and_detach 4 ++ replicate 3 (AGo 1 (ch [])).

(** Executions with their hooks, as a function. *)
Fixpoint hook_schedule (acts : list action) (w : World) (acc : list (ptr * hook)) : option (World * list (ptr * hook)) :=
  match acts with
  | [] => Some (w, acc)
  | a :: acts' =>
      match act a w with
      | Some (l, w') => hook_schedule acts' w' (acc ++ option_list (accepts w l))
      | None => None
      end
  end.

Lemma hook_schedule_run acts w acc w' acc' :
  run_hooks w acc -> hook_schedule acts w acc = Some (w', acc') -> run_hooks w' acc'.
Proof.
  revert w acc. induction acts as [|a acts IH]; intros w acc Hr Hs; simpl in Hs.
  - by injection Hs as <- <-.
  - destruct (act a w) as [[l w1]|] eqn:Ha; [|done].
    eapply IH; [|exact Hs]. econstructor; [exact Hr|by eapply act_step].
Qed.

Lemma hooks_run_once_witness :
  exists w acc, run_hooks w acc /\ called 0 w = [8; 9].
Proof.
  destruct (hook_schedule hooks_actions init []) as [[w acc]|] eqn:Hs; [|vm_compute in Hs; discriminate Hs].
  exists w, acc.
  assert (Hr : run_hooks w acc) by (eapply hook_schedule_run; [apply rh_init|exact Hs]).
  split; [exact Hr|].
  assert (Hacc : accepted 0 acc = [8; 9]).
  { vm_compute in Hs. injection Hs as <- <-. vm_compute. reflexivity. }
  rewrite <- Hacc. apply (proj2 (hooks_run_once w acc 0 Hr)).
  - intros tid. apply quiet_enabled. vm_compute in Hs. injection Hs as <- <-.
    repeat constructor; eexists; reflexivity.
  - intros s Hm. vm_compute in Hs. injection Hs as <- <-. discriminate Hm.
Defined.
