(* ===== verification/Template.v ===== *)
(** * Templates (src/internal/vars/template.go)

    CompileTemplate splits a text at the matches of the regular expression
    [\{\{([^}]+)\}\}], and [replace] rebuilds it.  The matching is that of
    regexp.FindAllStringSubmatchIndex for this expression: leftmost matches,
    none overlapping, [^}]+ running up to the first closing brace.  The class
    [^}] accepts every byte but the brace (a line feed and invalid UTF-8
    included), so the match is decided on bytes.  Rendering is in Resolver.v. *)
From stdpp Require Import base list strings gmap.
From Stdlib Require Import Ascii ZArith Lia.
From S2P Require Import Prelude GoStd GoPath.

Open Scope string_scope.
Open Scope nat_scope.
Open Scope list_scope.

Definition LBRACE : ascii := byte_of 123.
Definition RBRACE : ascii := byte_of 125.

(** [l[a:b]] *)
Definition slice (l : list ascii) (a b : nat) : list ascii := take (b - a) (drop a l).

(** ** The regular expression *)

(** The bytes before the first closing brace. *)
Fixpoint upToBrace (l : list ascii) : list ascii :=
  match l with
  | [] => []
  | c :: l' => if decide (c = RBRACE) then [] else c :: upToBrace l'
  end.

(** The length of the submatch, when the expression matches at the start. *)
Definition matchHere (l : list ascii) : option nat :=
  match l with
  | c1 :: c2 :: l' =>
      if decide (c1 = LBRACE /\ c2 = LBRACE) then
        let n := length (upToBrace l') in
        if (0 <? n) && bool_decide (take 2 (drop n l') = [RBRACE; RBRACE])
        then Some n else None
      else None
  | _ => None
  end.

(** FindAllStringSubmatchIndex from offset [i]: the bounds of each match and of
    its submatch. *)
Fixpoint findAll (fuel i : nat) (l : list ascii) : list (nat * nat * nat * nat) :=
  match fuel with
  | O => []
  | S fuel' =>
      match l with
      | [] => []
      | _ :: l' =>
          match matchHere l with
          | Some n => (i, i + n + 4, i + 2, i + n + 2) :: findAll fuel' (i + n + 4) (drop (n + 4) l)
          | None => findAll fuel' (S i) l'
          end
      end
  end.

Definition findAllIndex (input : string) : list (nat * nat * nat * nat) :=
  let l := bytes input in findAll (S (length l)) 0 l.

(** ** template.go *)

Record tplSeg := mkSeg {
  text : string;       (* literal text, or the raw match when ph is set *)
  name : string;       (* trimmed placeholder name *)
  ph : bool
}.

Definition Template := list tplSeg.

#[global] Instance tplSeg_eq_dec : EqDecision tplSeg.
Proof. solve_decision. Defined.

(** [strings.Contains(input, "{{")] *)
Fixpoint containsOpen (l : list ascii) : bool :=
  match l with
  | [] => false
  | c1 :: l' => bool_decide (c1 = LBRACE /\ head l' = Some LBRACE) || containsOpen l'
  end.

Definition HasPlaceholder (input : string) : bool := containsOpen (bytes input).

(** The loop over the matches: [last] is the end of the previous one. *)
Fixpoint segments (l : list ascii) (last : nat) (ms : list (nat * nat * nat * nat)) : Template :=
  match ms with
  | [] =>
      if last <? length l then [mkSeg (str (slice l last (length l))) "" false] else []
  | (m0, m1, m2, m3) :: ms' =>
      (if last <? m0 then [mkSeg (str (slice l last m0)) "" false] else []) ++
      mkSeg (str (slice l m0 m1)) (TrimSpace (str (slice l m2 m3))) true ::
      segments l m1 ms'
  end.

Definition CompileTemplate (input : string) : Template :=
  let ms := findAllIndex input in
  match ms with
  | [] => if decide (input = "") then [] else [mkSeg input "" false]
  | _ => segments (bytes input) 0 ms
  end.

(** [replace] with a callback that has no effects. *)
Definition replace (t : Template) (fn : string -> string -> string) : string :=
  match t with
  | [] => ""
  | [s] => if ph s then fn (text s) (name s) else text s
  | _ => foldr (fun s b => (if ph s then fn (text s) (name s) else text s) +:+ b) "" t
  end.

Definition ReplaceTemplateVars (input : string) (fn : option (string -> string -> string)) : string :=
  match fn with
  | None => input
  | Some f => replace (CompileTemplate input) f
  end.

(** The names a template asks for. *)
Definition placeholders (t : Template) : list string :=
  omap (fun s => if ph s then Some (name s) else None) t.

(** ** Facts *)

Lemma slice_app l a b c : a <= b -> b <= c -> slice l a b ++ slice l b c = slice l a c.
Proof.
  intros Hab Hbc. unfold slice.
  replace (drop b l) with (drop (b - a) (drop a l)) by (rewrite drop_drop; f_equal; lia).
  replace (c - a) with ((b - a) + (c - b)) by lia. by rewrite take_take_drop.
Qed.

Lemma slice_empty l a : slice l a a = [].
Proof. unfold slice. by rewrite Nat.sub_diag. Qed.

Lemma slice_all l : slice l 0 (length l) = l.
Proof. unfold slice. by rewrite drop_0, Nat.sub_0_r, firstn_all. Qed.

Lemma upToBrace_spec l :
  exists rest, l = upToBrace l ++ rest /\ (RBRACE ∉ upToBrace l) /\
    (rest = [] \/ head rest = Some RBRACE).
Proof.
  induction l as [|c l (rest & Heq & Hin & Hr)]; simpl.
  - exists []. split; [done|]. split; [apply not_elem_of_nil|by left].
  - case_decide as Hc.
    + subst. exists (RBRACE :: l). split; [done|]. split; [apply not_elem_of_nil|by right].
    + exists rest. split; [by simpl; f_equal|]. split; [|done].
      rewrite not_elem_of_cons. by split.
Qed.

(** The text of a match: an open, a body without closing brace, a close. *)
Lemma matchHere_spec l n :
  matchHere l = Some n <->
  0 < n /\ (exists body rest, length body = n /\ (RBRACE ∉ body) /\
    l = LBRACE :: LBRACE :: (body ++ RBRACE :: RBRACE :: rest)).
Proof.
  split.
  - destruct l as [|c1 [|c2 l']]; try done. simpl. case_decide as Hb; [|done].
    destruct Hb as [-> ->]. destruct (upToBrace_spec l') as (rest & Heq & Hin & _).
    destruct (0 <? length (upToBrace l')) eqn:Hn; [|done]. simpl.
    case_bool_decide as Htk; [|done]. intros [= <-]. apply Nat.ltb_lt in Hn. split; [done|].
    exists (upToBrace l'), (drop 2 rest). split; [done|]. split; [done|]. f_equal. f_equal.
    rewrite Heq in Htk at 2. rewrite drop_app_length in Htk.
    rewrite Heq at 1. f_equal. rewrite <- (take_drop 2 rest) at 1. by rewrite Htk.
  - intros (Hn & body & rest & Hlen & Hin & ->). cbn [matchHere]. rewrite decide_True by done.
    assert (Hu : upToBrace (body ++ RBRACE :: RBRACE :: rest) = body).
    { clear Hn Hlen. induction body as [|c body IH]; simpl; [done|].
      apply not_elem_of_cons in Hin as [Hne Hin]. rewrite decide_False by done. by rewrite IH. }
    rewrite Hu, Hlen, drop_app_length' by done. rewrite bool_decide_eq_true_2 by done.
    apply Nat.ltb_lt in Hn. by rewrite Hn.
Qed.

Lemma matchHere_length l n : matchHere l = Some n -> n + 4 <= length l.
Proof.
  intros (_ & body & rest & Hlen & _ & ->)%matchHere_spec. simpl.
  rewrite length_app. simpl. lia.
Qed.

(** Matches are in order, none overlaps the next, and all lie in the text. *)
Fixpoint ordered (last len : nat) (ms : list (nat * nat * nat * nat)) : Prop :=
  match ms with
  | [] => last <= len
  | (m0, m1, m2, m3) :: ms' =>
      last <= m0 /\ m0 + 2 = m2 /\ m2 < m3 /\ m3 + 2 = m1 /\ ordered m1 len ms'
  end.

Lemma ordered_weaken a b len ms : a <= b -> ordered b len ms -> ordered a len ms.
Proof. destruct ms as [|[[[m0 m1] m2] m3] ms]; simpl; intuition lia. Qed.

Lemma findAll_ordered fuel i l :
  ordered i (i + length l) (findAll fuel i l).
Proof.
  revert i l. induction fuel as [|fuel IH]; intros i l; [simpl; lia|].
  destruct l as [|c l]; [simpl; lia|]. cbn [findAll length]. destruct (matchHere (c :: l)) as [n|] eqn:Hm.
  - pose proof (matchHere_length _ _ Hm) as Hlen. simpl in Hlen.
    apply matchHere_spec in Hm as [Hn _]. simpl. split_and!; try lia.
    specialize (IH (i + n + 4) (drop (n + 4) (c :: l))).
    rewrite length_drop in IH. simpl in IH.
    replace (i + n + 4 + (S (length l) - (n + 4))) with (i + S (length l)) in IH by lia. done.
  - specialize (IH (S i) l). replace (i + S (length l)) with (S i + length l) by lia.
    eapply ordered_weaken; [|exact IH]. lia.
Qed.

(** The segments put together again. *)
Fixpoint joined (t : Template) : list ascii :=
  match t with [] => [] | s :: t' => bytes (text s) ++ joined t' end.

Lemma joined_app t1 t2 : joined (t1 ++ t2) = joined t1 ++ joined t2.
Proof. induction t1 as [|s t1 IH]; simpl; [done|]. by rewrite IH, app_assoc. Qed.

Lemma segments_join l last ms :
  ordered last (length l) ms -> joined (segments l last ms) = slice l last (length l).
Proof.
  revert last. induction ms as [|[[[m0 m1] m2] m3] ms IH]; intros last Ho; simpl in *.
  - destruct (Nat.ltb_spec last (length l)); simpl.
    + by rewrite app_nil_r, bytes_str.
    + assert (last = length l) as -> by lia. by rewrite slice_empty.
  - destruct Ho as (H1 & H2 & H3 & H4 & Ho).
    assert (Hm1 : m1 <= length l).
    { clear -Ho. revert m1 Ho. induction ms as [|[[[a b] c] d] ms IH]; simpl; [done|].
      intros m1 (? & ? & ? & ? & Ho). apply IH in Ho. lia. }
    rewrite joined_app. simpl. rewrite IH by done.
    rewrite bytes_str. rewrite slice_app by lia.
    destruct (Nat.ltb_spec last m0); simpl.
    + rewrite app_nil_r, bytes_str. by apply slice_app; lia.
    + replace m0 with last by lia. done.
Qed.

Lemma CompileTemplate_segments input :
  CompileTemplate input = segments (bytes input) 0 (findAllIndex input).
Proof.
  unfold CompileTemplate. destruct (findAllIndex input) as [|m ms]; [|done]. simpl.
  unfold segments. rewrite slice_all. destruct (Nat.ltb_spec 0 (length (bytes input))) as [Hl|Hl].
  - rewrite decide_False; [by rewrite str_bytes|]. intros ->. simpl in Hl. lia.
  - destruct (decide (input = "")) as [|Hne]; [done|]. destruct Hne.
    apply Nat.le_0_r, length_zero_iff_nil in Hl. rewrite <- (str_bytes input). by rewrite Hl.
Qed.

Lemma replace_joined t :
  bytes (replace t (fun m _ => m)) = joined t.
Proof.
  assert (Hf : forall t, bytes (foldr (fun s b => (if ph s then text s else text s) +:+ b) "" t) = joined t).
  { clear. induction t as [|s t IH]; [done|]. simpl.
    rewrite <- IH. unfold bytes.
    replace (if ph s then text s else text s) with (text s) by (by destruct (ph s)).
    generalize (text s) as a. intros a. induction a as [|c a IHa]; simpl; [done|]. by rewrite <- IHa. }
  destruct t as [|s [|s' t]]; [done| |apply Hf].
  simpl. rewrite app_nil_r. by destruct (ph s).
Qed.

(** Compiling a template loses nothing: putting the segments back together,
    with every placeholder as it was written, gives the input, for every input. *)
Theorem template_roundtrip input : replace (CompileTemplate input) (fun m _ => m) = input.
Proof.
  rewrite <- (str_bytes input) at 2. rewrite <- (str_bytes (replace _ _)). f_equal.
  rewrite replace_joined, CompileTemplate_segments, segments_join; [apply slice_all|].
  unfold findAllIndex. apply (findAll_ordered _ 0).
Qed.

(** Without an opening pair there is no placeholder. *)
Lemma no_open_no_match l : containsOpen l = false -> matchHere l = None.
Proof.
  destruct l as [|c1 [|c2 l]]; try done. simpl. case_decide as Hb; [|done].
  destruct Hb as [-> ->]. by rewrite bool_decide_eq_true_2.
Qed.

Lemma no_open_no_matches fuel i l : containsOpen l = false -> findAll fuel i l = [].
Proof.
  revert i l. induction fuel as [|fuel IH]; intros i l Hc; [done|].
  destruct l as [|c l]; [done|]. cbn [findAll]. rewrite (no_open_no_match _ Hc).
  apply IH. simpl in Hc. by apply orb_false_iff in Hc as [_ ?].
Qed.

(** HasPlaceholder is a sound shortcut: a text without an opening pair of
    braces has no placeholder, and compiles to itself. *)
Theorem no_placeholder_is_literal input :
  HasPlaceholder input = false ->
  placeholders (CompileTemplate input) = [] /\
  forall fn, replace (CompileTemplate input) fn = input.
Proof.
  intros Hp. unfold CompileTemplate, findAllIndex. cbv zeta. rewrite no_open_no_matches by done.
  destruct (decide (input = "")) as [->|]; done.
Qed.

(** Every placeholder's text is an opening pair, a body without closing brace and
    a closing pair, and its name is the trimmed body. *)
Definition well_formed_ph (s : tplSeg) : Prop :=
  ph s = true -> exists body, body <> [] /\ (RBRACE ∉ body) /\
    bytes (text s) = LBRACE :: LBRACE :: body ++ [RBRACE; RBRACE] /\ name s = TrimSpace (str body).

Lemma slice_drop l a b n : slice (drop n l) a b = slice l (n + a) (n + b).
Proof. unfold slice. rewrite drop_drop. f_equal. lia. Qed.

(** The placeholders of the text from [k] on. *)
Lemma segments_ph fuel full k l last :
  l = drop k full ->
  Forall well_formed_ph (segments full last (findAll fuel k l)).
Proof.
  revert k l last. induction fuel as [|fuel IH]; intros k l last Hl.
  - simpl. destruct (last <? length full); repeat constructor. by intros ?.
  - destruct l as [|c l'].
    { simpl. destruct (last <? length full); repeat constructor. by intros ?. }
    cbn [findAll]. destruct (matchHere (c :: l')) as [n|] eqn:Hm.
    + apply matchHere_spec in Hm as (Hn & body & rest & Hlen & Hin & Heq).
      simpl. apply Forall_app. split; [destruct (last <? k); repeat constructor; by intros ?|].
      constructor.
      * intros _. simpl. exists body. rewrite bytes_str.
        split; [intros ->; simpl in Hlen; lia|]. split; [done|].
        assert (H0 : slice full k (k + n + 4) = slice (c :: l') 0 (n + 4)).
        { rewrite Hl, slice_drop. f_equal; lia. }
        assert (H2 : slice full (k + 2) (k + n + 2) = slice (c :: l') 2 (n + 2)).
        { rewrite Hl, slice_drop. f_equal; lia. }
        rewrite H0, H2, Heq. unfold slice. simpl. split.
        -- replace (n + 4 - 0) with (S (S (n + 2))) by lia. simpl. f_equal. f_equal.
           rewrite take_app_ge by lia. f_equal. by replace (n + 2 - length body) with 2 by lia.
        -- f_equal. f_equal. replace (n + 2 - 2) with (length body) by lia. by rewrite drop_0, take_app_length.
      * apply IH. rewrite Hl, drop_drop. f_equal. lia.
    + apply IH. change l' with (drop 1 (c :: l')). rewrite Hl, drop_drop. f_equal. lia.
Qed.

(** What counts as a placeholder: every placeholder segment reads [{{body}}]
    with a body that is not empty and has no closing brace, and its name is that
    body without surrounding white space. *)
Theorem placeholders_well_formed input : Forall well_formed_ph (CompileTemplate input).
Proof.
  rewrite CompileTemplate_segments. unfold findAllIndex. by apply segments_ph.
Qed.

Example template_examples :
  placeholders (CompileTemplate "a {{ x }}{{{y}}}{{}}{{ }} {{z}") = ["x"; "{y"; ""] /\
  ReplaceTemplateVars "<{{ x }}>" (Some (fun _ n => n +:+ n)) = "<xx>".
Proof. vm_compute. done. Qed.
