(* ===== verification/Names.v ===== *)
(** * Variable names and traces (src/internal/vars/names.go, trace.go)

    Names are compared by [NameKey]: trimmed and in lower case.  strings.ToLower
    and strings.EqualFold need Unicode's case tables, which are a parameter here
    ([Unicode]); no theorem depends on them.  Instance: [ascii]. *)
From stdpp Require Import base list strings gmap.
From Stdlib Require Import Ascii ZArith Lia.
From S2P Require Import Prelude GoStd GoPath.

Open Scope string_scope.
Open Scope nat_scope.
Open Scope list_scope.

(** [strings.ToLower] and [strings.EqualFold] *)
Class Unicode := {
  ToLower : string -> string;
  EqualFold : string -> string -> bool
}.

Section names.
Context {unicode : Unicode}.

(** [norm] and [NameKey] *)
Definition NameKey (name : string) : string := ToLower (TrimSpace name).

(** ** names.go *)

(** [namedValue]: the display name and the value. *)
Definition namedValue (V : Type) : Type := string * V.

(** [NameMap]: entries by key. *)
Notation NameMap V := (gmap string (namedValue V)).

Inductive NameError :=
  | BlankName (name : string)
  | NameCollision (first second : string).

Section map.
Context {V : Type}.
Implicit Types (m : NameMap V) (name : string).

Definition Set_ name (value : V) m : bool * NameMap V :=
  let key := NameKey name in
  if decide (key = "") then (false, m)
  else (true, <[key := (TrimSpace name, value)]> m).

Definition Get name m : option V := snd <$> m !! NameKey name.

Definition Has name m : bool := bool_decide (is_Some (m !! NameKey name)).

Definition Delete name m : NameMap V := delete (NameKey name) m.

Definition Len m : nat := size m.

(** [SetMap]: in the order of the sorted names. *)
Definition SetMap (src : gmap string V) m : NameMap V :=
  foldl (fun m name =>
    match src !! name with Some v => (Set_ name v m).2 | None => m end) m (sorted_keys src).

Definition CollectNames (src : gmap string V) : NameMap V := SetMap src ∅.

(** [NewNameMap]: the loop over the sorted names. *)
Fixpoint newNames (src : gmap string V) (seen : gmap string string) (out : NameMap V)
  (names : list string) : res NameError (NameMap V) :=
  match names with
  | [] => Ok out
  | name :: rest =>
      let key := NameKey name in
      if decide (key = "") then Er (BlankName name)
      else match seen !! key with
      | Some first => Er (NameCollision first name)
      | None =>
          newNames src (<[key := name]> seen)
            (match src !! name with Some v => (Set_ name v out).2 | None => out end) rest
      end
  end.

Definition NewNameMap (src : gmap string V) : res NameError (NameMap V) :=
  newNames src ∅ ∅ (sorted_keys src).

(** [All] visits the entries in an order Go leaves open: [es] is any
    permutation of the entries. *)
Definition MergeIn (es : list (namedValue V)) m : NameMap V :=
  foldl (fun m e => (Set_ e.1 e.2 m).2) m es.

(** [Sorted]: by key. *)
Definition Sorted m : list (namedValue V) :=
  omap (fun k => m !! k) (sorted_keys m).

Definition Map m : gmap string V :=
  list_to_map ((fun e => (e.1, e.2)) <$> (map_to_list m).*2).
End map.

(** [Upsert] on a plain map. *)
Definition Upsert (m : gmap string string) (name value : string) : gmap string string :=
  let key := NameKey name in
  let name := TrimSpace name in
  <[name := value]> (filter (fun kv => kv.1 = name \/ NameKey kv.1 <> key) m).

Definition MergeInto (dst : gmap string string) (es : list (namedValue string)) : gmap string string :=
  foldl (fun m e => Upsert m e.1 e.2) dst es.

(** ** trace.go *)

Record ResolveTrace := mkTrace {
  trName : string;
  Source : string;
  trValue : string;
  Shadowed : list string;
  Uses : Z;
  trMissing : bool;
  Dynamic : bool
}.

(** [ord] and [items]; [items] are pointers the trace owns. *)
Record Trace := mkTraces {
  ord : list string;
  items : gmap string ResolveTrace
}.

Definition NewTrace : Trace := mkTraces [] ∅.

Definition containsTraceStr (xs : list string) (want : string) : bool :=
  existsb (fun x => EqualFold (TrimSpace x) want) xs.

(** The loop that adds the new shadowed sources. *)
Fixpoint addShadowed (cur : list string) (new : list string) : list string :=
  match new with
  | [] => cur
  | s :: rest =>
      let s := TrimSpace s in
      if decide (s = "") then addShadowed cur rest
      else if containsTraceStr cur s then addShadowed cur rest
      else addShadowed (cur ++ [s]) rest
  end.

Definition uses (it : ResolveTrace) : Z := if (Uses it <=? 0)%Z then 1%Z else Uses it.

(** The update of an entry that exists. *)
Definition again (cur it : ResolveTrace) : ResolveTrace :=
  let n := (Uses cur + uses it)%Z in
  let sh := addShadowed (Shadowed cur) (Shadowed it) in
  if trMissing cur && negb (trMissing it) then
    mkTrace (trName cur) (Source it) (trValue it) sh n false (Dynamic it)
  else if negb (trMissing it) then
    mkTrace (trName cur)
      (if decide (Source cur = "") then Source it else Source cur)
      (if decide (trValue cur = "") then trValue it else trValue cur)
      sh n (trMissing cur) (Dynamic cur || Dynamic it)
  else
    mkTrace (trName cur) (Source cur) (trValue cur) sh n (trMissing cur) (Dynamic cur).

Definition Add (it : ResolveTrace) (t : Trace) : Trace :=
  let name := TrimSpace (trName it) in
  if decide (name = "") then t
  else
    let key := NameKey name in
    match items t !! key with
    | None =>
        mkTraces (ord t ++ [key])
          (<[key := mkTrace name (Source it) (trValue it) (Shadowed it) (uses it)
                      (trMissing it) (Dynamic it)]> (items t))
    | Some cur => mkTraces (ord t) (<[key := again cur it]> (items t))
    end.

Definition Items (t : Trace) : list ResolveTrace := omap (fun k => items t !! k) (ord t).
End names.

(** ASCII letters in lower case, other bytes as they are. *)
Definition lowerByte (c : ascii) : ascii :=
  let n := byte_val c in
  if (65 <=? n)%N && (n <=? 90)%N then byte_of (n + 32) else c.

Definition lowerASCII (s : string) : string := str (map lowerByte (bytes s)).

Definition ascii : Unicode :=
  {| ToLower := lowerASCII;
     EqualFold := fun a b => bool_decide (lowerASCII a = lowerASCII b) |}.

(** ** Facts *)

Notation NameMap V := (gmap string (namedValue V)).

Section facts.
Context {unicode : Unicode}.

Lemma Get_Set {V} (m : NameMap V) name v x :
  NameKey name <> "" ->
  Get x (Set_ name v m).2 = if decide (NameKey x = NameKey name) then Some v else Get x m.
Proof.
  intros Hk. unfold Set_, Get. rewrite decide_False by done. simpl. case_decide as Hx.
  - rewrite Hx. by rewrite lookup_insert_eq.
  - by rewrite lookup_insert_ne.
Qed.

(** A NameMap is a map on names up to case and surrounding space: Set makes
    every spelling of the name read the value and no other name, a blank name is
    refused without effect, and Delete removes every spelling of a name. *)
Theorem name_map_laws {V} (m : NameMap V) name v x :
  (NameKey name <> "" ->
    (Set_ name v m).1 = true /\
    Get x (Set_ name v m).2 = if decide (NameKey x = NameKey name) then Some v else Get x m) /\
  (NameKey name = "" -> Set_ name v m = (false, m)) /\
  Get x (Delete name m) = (if decide (NameKey x = NameKey name) then None else Get x m) /\
  Has x m = bool_decide (is_Some (Get x m)).
Proof.
  split_and!.
  - intros Hk. split; [|by apply Get_Set]. unfold Set_. by rewrite decide_False.
  - intros Hk. unfold Set_. by rewrite decide_True.
  - unfold Get, Delete. case_decide as Hx.
    + by rewrite Hx, lookup_delete_eq.
    + by rewrite lookup_delete_ne.
  - unfold Has, Get. apply bool_decide_ext. by rewrite fmap_is_Some.
Qed.

(** *** NewNameMap *)

Definition names_done {V} (src : gmap string V) (done : list string) (out : NameMap V) : Prop :=
  (forall n v, n ∈ done -> src !! n = Some v -> NameKey n <> "" /\ Get n out = Some v) /\
  (forall k e, out !! k = Some e ->
     exists n, n ∈ done /\ src !! n = Some e.2 /\ NameKey n = k /\ e.1 = TrimSpace n).

Definition seen_ok (done : list string) (seen : gmap string string) : Prop :=
  (forall n, n ∈ done -> is_Some (seen !! NameKey n)) /\
  (forall k n, seen !! k = Some n -> n ∈ done /\ NameKey n = k).

Lemma newNames_spec {V} (src : gmap string V) rest seen out done :
  Forall (fun n => is_Some (src !! n)) (done ++ rest) -> NoDup (done ++ rest) ->
  seen_ok done seen -> names_done src done out ->
  match newNames src seen out rest with
  | Ok m => names_done src (done ++ rest) m
  | Er (BlankName n) => is_Some (src !! n) /\ NameKey n = ""
  | Er (NameCollision a b) =>
      a <> b /\ is_Some (src !! a) /\ is_Some (src !! b) /\ NameKey a = NameKey b
  end.
Proof.
  revert seen out done. induction rest as [|n rest IH]; intros seen out done Hsrc Hnd Hseen Hdone; simpl.
  { by rewrite app_nil_r. }
  rewrite Forall_app, Forall_cons in Hsrc. destruct Hsrc as (Hs1 & [v Hv] & Hs2).
  case_decide as Hk; [by rewrite Hv; eauto|].
  destruct (seen !! NameKey n) as [first|] eqn:Hf.
  { destruct (proj2 Hseen _ _ Hf) as [Hin Hkey]. split_and!; eauto.
    - intros ->. apply NoDup_app in Hnd as (_ & Hd & _). apply (Hd n Hin). by left.
    - by apply (proj1 (Forall_forall _ _) Hs1). }
  rewrite Hv. replace (done ++ n :: rest) with ((done ++ [n]) ++ rest) in * by (by rewrite <- app_assoc).
  apply IH; try done.
  - rewrite <- app_assoc. apply Forall_app. split; [done|]. by constructor; [exists v|].
  - split.
    + intros x [Hx|Hx]%elem_of_app.
      * destruct (decide (NameKey n = NameKey x)) as [->|]; [rewrite lookup_insert_eq; eauto|].
        rewrite lookup_insert_ne by done. by apply (proj1 Hseen).
      * apply list_elem_of_singleton in Hx as ->. rewrite lookup_insert_eq. eauto.
    + intros k x [[<- <-]|[_ Hx]]%lookup_insert_Some.
      * split; [|done]. apply elem_of_app. right. by apply list_elem_of_singleton.
      * destruct (proj2 Hseen _ _ Hx). split; [|done]. apply elem_of_app. by left.
  - destruct Hdone as [H1 H2]. split.
    + intros x w Hx Hw. rewrite Get_Set by done. apply elem_of_app in Hx as [Hx|Hx].
      * destruct (H1 _ _ Hx Hw) as [Hne Hg]. split; [done|]. rewrite decide_False; [done|].
        intros Heq. destruct (proj1 Hseen _ Hx) as [y Hy]. rewrite Heq in Hy. congruence.
      * apply list_elem_of_singleton in Hx as ->. rewrite decide_True by done. split; [done|congruence].
    + intros k e. unfold Set_. rewrite decide_False by done. simpl.
      intros [[<- <-]|[_ He]]%lookup_insert_Some.
      * exists n. simpl. split_and!; try done. apply elem_of_app. right. by apply list_elem_of_singleton.
      * destruct (H2 _ _ He) as (x & Hx & ?). exists x. split; [|done]. apply elem_of_app. by left.
Qed.

(** NewNameMap accepts a map exactly when its names are distinct identities:
    it either keeps every entry under its name and invents none, or reports a
    blank name or two different spellings of the same name that the map has. *)
Theorem new_name_map_spec {V} (src : gmap string V) :
  match NewNameMap src with
  | Ok m =>
      (forall n v, src !! n = Some v -> NameKey n <> "" /\ Get n m = Some v) /\
      (forall k e, m !! k = Some e ->
         exists n, src !! n = Some e.2 /\ NameKey n = k /\ e.1 = TrimSpace n)
  | Er (BlankName n) => is_Some (src !! n) /\ NameKey n = ""
  | Er (NameCollision a b) =>
      a <> b /\ is_Some (src !! a) /\ is_Some (src !! b) /\ NameKey a = NameKey b
  end.
Proof.
  pose proof (newNames_spec src (sorted_keys src) ∅ ∅ []) as H. unfold NewNameMap.
  assert (Hall : Forall (fun n => is_Some (src !! n)) (sorted_keys src)).
  { apply Forall_forall. intros n Hn. by apply sorted_keys_elem in Hn. }
  assert (Hnd : NoDup (sorted_keys src)).
  { rewrite sorted_keys_perm. apply NoDup_fst_map_to_list. }
  specialize (H Hall Hnd). simpl in H.
  assert (Hse : seen_ok [] ∅).
  { split; [by intros n ?%not_elem_of_nil|]. intros k n Hk. by destruct (lookup_empty_Some k n Hk). }
  assert (Hdo : names_done src [] (∅ : NameMap V)).
  { split; [by intros n v ?%not_elem_of_nil|]. intros k e Hk. by destruct (lookup_empty_Some k e Hk). }
  specialize (H Hse Hdo). destruct (newNames src ∅ ∅ (sorted_keys src)) as [m|e]; [|done].
  destruct H as [H1 H2]. split.
  - intros n v Hv. apply H1; [|done]. apply sorted_keys_elem. eauto.
  - intros k e He. destruct (H2 _ _ He) as (n & _ & ?). eauto.
Qed.

(** Upsert leaves exactly one spelling of a name: the trimmed one, with the
    new value; entries of other names are untouched. *)
Theorem upsert_unique m name value k v :
  Upsert m name value !! k = Some v <->
  (k = TrimSpace name /\ v = value) \/
  (k <> TrimSpace name /\ NameKey k <> NameKey name /\ m !! k = Some v).
Proof.
  unfold Upsert. rewrite lookup_insert_Some, map_lookup_filter_Some. simpl. intuition congruence.
Qed.

(** *** Traces *)

Definition key_of (it : ResolveTrace) : string := NameKey (TrimSpace (trName it)).

(** The additions that concern [k]. *)
Definition about (k : string) (its : list ResolveTrace) : list ResolveTrace :=
  filter (fun it => TrimSpace (trName it) <> "" /\ key_of it = k) its.

Definition total (its : list ResolveTrace) : Z := foldr (fun it n => (uses it + n)%Z) 0%Z its.

Record trace_ok (t : Trace) (its : list ResolveTrace) : Prop := {
  to_nodup : NoDup (ord t);
  to_ord : forall k, k ∈ ord t <-> is_Some (items t !! k);
  to_items : forall k,
    match items t !! k with
    | None => about k its = []
    | Some e =>
        about k its <> [] /\ Uses e = total (about k its) /\
        trMissing e = forallb trMissing (about k its)
    end
}.

Lemma total_snoc its it : total (its ++ [it]) = (total its + uses it)%Z.
Proof. induction its as [|x its IH]; simpl; [lia|]. rewrite IH. lia. Qed.

Lemma about_snoc k its it :
  about k (its ++ [it]) = about k its ++
    (if decide (TrimSpace (trName it) <> "" /\ key_of it = k) then [it] else []).
Proof. unfold about. by rewrite filter_app. Qed.

Lemma again_uses cur it : Uses (again cur it) = (Uses cur + uses it)%Z.
Proof. unfold again. by repeat case_match. Qed.

Lemma again_missing cur it : trMissing (again cur it) = trMissing cur && trMissing it.
Proof. unfold again. destruct (trMissing cur) eqn:?, (trMissing it) eqn:?; simpl; congruence. Qed.

Lemma Add_ok t its it : trace_ok t its -> trace_ok (Add it t) (its ++ [it]).
Proof.
  intros [H1 H2 H3]. unfold Add. case_decide as Hn.
  { split; [done|done|]. intros k. rewrite about_snoc, decide_False by tauto. rewrite app_nil_r. apply H3. }
  fold (key_of it). destruct (items t !! key_of it) as [cur|] eqn:Hc; split; simpl.
  - done.
  - intros k. rewrite H2. destruct (decide (key_of it = k)) as [<-|Hne].
    + rewrite lookup_insert_eq, Hc. split; eauto.
    + by rewrite lookup_insert_ne.
  - intros k. rewrite about_snoc. specialize (H3 k). destruct (decide (key_of it = k)) as [<-|Hne].
    + rewrite lookup_insert_eq, decide_True by done. rewrite Hc in H3.
      destruct H3 as (Ha & Hu & Hm). split_and!.
      * by intros [_ ?]%app_nil.
      * by rewrite again_uses, total_snoc, Hu.
      * rewrite again_missing, forallb_app, Hm. simpl. by rewrite andb_true_r.
    + rewrite lookup_insert_ne, decide_False by tauto. by rewrite app_nil_r.
  - apply NoDup_app. split_and!; [done| |apply NoDup_singleton].
    intros k Hk Hin. apply list_elem_of_singleton in Hin as ->. apply H2 in Hk as [? ?]. congruence.
  - intros k. rewrite elem_of_app, list_elem_of_singleton, H2.
    destruct (decide (key_of it = k)) as [<-|Hne].
    + rewrite lookup_insert_eq. split; eauto.
    + rewrite lookup_insert_ne by done. split; [by intros [?| ->]|by left].
  - intros k. rewrite about_snoc. specialize (H3 k). destruct (decide (key_of it = k)) as [<-|Hne].
    + rewrite lookup_insert_eq, decide_True by done. rewrite Hc in H3. rewrite H3. simpl.
      split_and!; [done|lia|by rewrite andb_true_r].
    + rewrite lookup_insert_ne, decide_False by tauto. by rewrite app_nil_r.
Qed.

Lemma adds_ok its : trace_ok (foldl (fun t it => Add it t) NewTrace its) its.
Proof.
  induction its as [|it its IH] using rev_ind.
  - split; simpl; [constructor| |done]. intros k.
    split; [by intros ?%not_elem_of_nil|]. intros [e He]. by destruct (lookup_empty_Some k e He).
  - rewrite foldl_app. simpl. by apply Add_ok.
Qed.

(** A trace accounts for every resolution: after any sequence of additions,
    Items lists each name once; its uses add up those of all the additions for
    that name, whatever their spelling, and it is missing only if every one of
    them was; and there is an item for every name that was added. *)
Theorem trace_accounts its :
  let t := foldl (fun t it => Add it t) NewTrace its in
  NoDup (ord t) /\ length (Items t) = length (ord t) /\
  forall k,
    match items t !! k with
    | None => k ∉ ord t /\ about k its = []
    | Some e =>
        k ∈ ord t /\ about k its <> [] /\ Uses e = total (about k its) /\
        trMissing e = forallb trMissing (about k its)
    end.
Proof.
  destruct (adds_ok its) as [H1 H2 H3]. simpl. split; [done|]. split.
  - unfold Items. set (t := foldl _ _ _) in *.
    assert (Hall : Forall (fun k => is_Some (items t !! k)) (ord t))
      by (apply Forall_forall; intros k; apply H2).
    clear -Hall. induction Hall as [|k ks [e He] Hall IH]; [done|].
    csimpl. rewrite He. csimpl. by rewrite IH.
  - intros k. specialize (H3 k). specialize (H2 k).
    destruct (items _ !! k) as [e|] eqn:He.
    + split; [apply H2; eauto|done].
    + split; [|done]. rewrite H2. by intros [? ?].
Qed.
End facts.
