(* ===== verification/Resolver.v ===== *)
(** * Variable resolution (src/internal/vars/resolver.go, template.go)

    A resolver asks its providers for a name, in order, and expands templates in
    the values of template providers, with a limit on nesting and a check for
    cycles.  State that is shared between the copies of a resolver is threaded:
    the memo store, the trace, and the number of calls made to code outside this
    component (the expression evaluator and the dynamic helpers), whose answers
    may differ from call to call.  Providers are functions; [MapProvider] and
    [ValueMapProvider] are defined from NameMaps.  A slice index out of range
    panics ([Panic]).

    [expandState] is pushed before a nested rendering and popped after it, on
    every path, so it is passed down as an argument. *)
From stdpp Require Import base list strings gmap.
From Stdlib Require Import Ascii ZArith Lia.
From S2P Require Import Prelude GoStd GoPath Template Names.

Open Scope string_scope.
Open Scope nat_scope.
Open Scope list_scope.

(** ** Values and providers *)

Record Value := mkValue { Text : string; Missing : bool; Final : bool }.

(** What [providerValue], [Label] and [expandableProvider] say of a provider. *)
Record Provider := mkProvider {
  providerValue : string -> option Value;
  Label : string;
  templateValues : bool
}.

Record ExprPos := mkExprPos { Path : string; Line : Z; Col : Z }.

(** Go errors, and whether [errors.Is(err, ErrUndefinedVariable)]. *)
Record verr := mkErr { isUndefined : bool; msg : string }.

(** Code outside this component; the number is that of the call.
    [dynamicResolve] answers [Er None] for dynamic.ErrUnknown. *)
Record Ext := mkExt {
  exprEval : option (string -> ExprPos -> nat -> res verr string);
  dynamicResolve : string -> nat -> res (option verr) string
}.

(** The variable a lookup selected: provider index and name key. *)
Notation variableKey := (nat * string)%type.

(** A variable, allowDynamic and allowExpr. *)
Notation memoKey := (variableKey * bool * bool)%type.

Definition maxExpandDepth : nat := 16.

(** The variables being expanded, and their names. *)
Record expandState := mkExpand { names : list variableKey; stack : list string }.

Record lookupHit := mkHit {
  val : Value;
  prov : Provider;
  idx : nat;
  subject : string;
  sources : list string
}.

(** What a rendering threads. *)
Record RState := mkRState {
  memo : gmap memoKey string;
  trace : option Trace;
  calls : nat
}.

(** ** Outcomes *)

Inductive out (A : Type) :=
  | Val (a : A)
  | Fail (e : verr)
  | Panic.
Arguments Val {A} a.
Arguments Fail {A} e.
Arguments Panic {A}.

(** [None]: the recursion is deeper than allowed. *)
Definition M (A : Type) : Type := RState -> option (out A * RState).

Definition ret {A} (a : A) : M A := fun s => Some (Val a, s).
Definition fail {A} (e : verr) : M A := fun s => Some (Fail e, s).

Definition bind {A B} (m : M A) (k : A -> M B) : M B := fun s =>
  match m s with
  | Some (Val a, s') => k a s'
  | Some (Fail e, s') => Some (Fail e, s')
  | Some (Panic, s') => Some (Panic, s')
  | None => None
  end.

Declare Scope resolver_scope.
Notation "x <-- m ;; k" := (bind m (fun x => k)) (at level 100, m at level 99, right associativity) : resolver_scope.
Open Scope resolver_scope.

Section resolver.
Context {unicode : Unicode}.

Definition key_of_hit (h : lookupHit) : variableKey := (idx h, NameKey (subject h)).

(** ** Providers *)

Definition newMapProvider (label : string) (values : NameMap string) (template : bool) : Provider :=
  mkProvider (fun name => (fun t => mkValue t false false) <$> Get name values) label template.

Definition NewMapProvider (label : string) (values : gmap string string) : Provider :=
  newMapProvider label (CollectNames values) false.

Definition NewTemplateProvider (label : string) (values : gmap string string) : Provider :=
  newMapProvider label (CollectNames values) true.

Definition ValueMapProvider (label : string) (values : NameMap Value) (template : bool) : Provider :=
  mkProvider (fun name => Get name values) label template.

Definition providerLabel (p : Provider) : string :=
  let label := TrimSpace (Label p) in
  if decide (label = "") then "provider" else label.

(** [strings.Contains(name, ".")] and the part before the first colon. *)
Definition hasDot (name : string) : bool := existsb (fun c => bool_decide (c = "."%char)) (bytes name).

Fixpoint beforeColon (l : list Ascii.ascii) : option (list Ascii.ascii) :=
  match l with
  | [] => None
  | c :: l' => if decide (c = ":"%char) then Some [] else cons c <$> beforeColon l'
  end.

Definition hasPrefix (pre s : string) : bool := String.prefix pre s.

(** The label that prefixes are matched against. *)
Definition prefixLabel (p : Provider) : string :=
  let label := TrimSpace (ToLower (Label p)) in
  match beforeColon (bytes label) with
  | Some before => TrimSpace (str before)
  | None => label
  end.

(** What a provider answers a lookup with: nothing, a value and the name it
    was found under, or a panic. *)
Inductive found := NotFound | Found (v : Value) (subject : string) | OutOfRange.

Definition lookupPrefixed (p : Provider) (name : string) : found :=
  let label := prefixLabel p in
  if decide (label = "") then NotFound
  else if negb (hasPrefix (label +:+ ".") (ToLower name)) then NotFound
  else if String.length name <? String.length label + 1 then OutOfRange
  else
    let subject := TrimSpace (str (drop (String.length label + 1) (bytes name))) in
    if decide (subject = "") then NotFound
    else match providerValue p subject with
         | Some v => Found v subject
         | None => NotFound
         end.

Definition lookupDirect (p : Provider) (name : string) : found :=
  match providerValue p name with Some v => Found v name | None => NotFound end.

Inductive lookupResult := NoHit | Hit (h : lookupHit) | LookupPanic.

Definition addSource (p : Provider) (h : lookupHit) : lookupHit :=
  mkHit (val h) (prov h) (idx h) (subject h) (sources h ++ [providerLabel p]).

(** [lookup]: the loop over the providers, from index [i]. *)
Fixpoint lookup (tracing : bool) (find : Provider -> found) (i : nat) (ps : list Provider)
  (hit : option lookupHit) : lookupResult :=
  match ps with
  | [] => match hit with Some h => Hit h | None => NoHit end
  | p :: ps' =>
      match find p with
      | OutOfRange => LookupPanic
      | NotFound => lookup tracing find (S i) ps' hit
      | Found v subject =>
          match hit with
          | Some h => lookup tracing find (S i) ps' (Some (addSource p h))
          | None =>
              let h := mkHit v p i subject [] in
              if tracing then lookup tracing find (S i) ps' (Some (addSource p h))
              else Hit h
          end
      end
  end.

Definition lookupValue (tracing : bool) (ps : list Provider) (name : string) : lookupResult :=
  match lookup tracing (fun p => lookupDirect p name) 0 ps None with
  | NoHit =>
      if hasDot name then lookup tracing (fun p => lookupPrefixed p name) 0 ps None
      else NoHit
  | r => r
  end.

(** ** Tracing, memo, expansion state *)

Definition tracing (s : RState) : bool := match trace s with Some _ => true | None => false end.

Definition traceVar (it : ResolveTrace) : M unit := fun s =>
  Some (Val tt, mkRState (memo s) (Add it <$> trace s) (calls s)).

Definition traceHit (name : string) (h : lookupHit) (value : string) (missing : bool) : M unit :=
  match sources h with
  | [] => ret tt
  | src :: shadowed => traceVar (mkTrace name src value shadowed 1 missing false)
  end.

Definition memoized (k : memoKey) : M (option string) := fun s => Some (Val (memo s !! k), s).

(** The first value stored for a key wins. *)
Definition memoize (k : memoKey) (candidate : string) : M string := fun s =>
  match memo s !! k with
  | Some v => Some (Val v, s)
  | None => Some (Val candidate, mkRState (<[k := candidate]> (memo s)) (trace s) (calls s))
  end.

Fixpoint joinArrow (l : list string) : string :=
  match l with
  | [] => ""
  | [x] => x
  | x :: l' => x +:+ " -> " +:+ joinArrow l'
  end.

Definition checkExpandState (name : string) (key : variableKey) (st : option expandState) : option verr :=
  match st with
  | None => None
  | Some st =>
      let chain := joinArrow (stack st ++ [name]) in
      if decide (key ∈ names st) then Some (mkErr false ("variable cycle: " +:+ chain))
      else if maxExpandDepth <=? length (stack st)
      then Some (mkErr false ("variable nesting deeper than " +:+ itoa (Z.of_nat maxExpandDepth) +:+ ": " +:+ chain))
      else None
  end.

Definition push (key : variableKey) (name : string) (st : option expandState) : expandState :=
  match st with
  | None => mkExpand [key] [name]
  | Some st => mkExpand (key :: names st) (stack st ++ [name])
  end.

Definition PreferStructural (firstErr : option verr) (err : verr) : option verr :=
  match firstErr with
  | None => Some err
  | Some f => if negb (isUndefined err) && isUndefined f then Some err else Some f
  end.

(** ** The resolver *)

Record Resolver := mkResolver {
  providers : list Provider;
  ext : Ext;
  exprPos : ExprPos;
  lenient : bool
}.

Record Expansion := mkExpansion { eValue : string; HasUndefinedVariables : bool }.

(** The arguments that renderings pass along: allowDynamic and allowExpr. *)
Record mode := mkMode { pos : ExprPos; allowDynamic : bool; allowExpr : bool }.

Section recursion.
Context (ps : list Provider) (x : Ext).

(** [render], one level of nesting down. *)
Context (render : mode -> expandState -> Template -> M (string * option verr)).

Definition expandValue (name raw : string) (key : variableKey) (m : mode) (st : option expandState) : M string :=
  out <-- render m (push key name st) (CompileTemplate raw) ;;
  match out with
  | (v, None) => ret v
  | (_, Some e) => fail (mkErr (isUndefined e) ("expand " +:+ name +:+ ": " +:+ msg e))
  end.

Definition doLookup (name : string) : M (option lookupHit) := fun s =>
  match lookupValue (tracing s) ps name with
  | NoHit => Some (Val None, s)
  | Hit h => Some (Val (Some h), s)
  | LookupPanic => Some (Panic, s)
  end.

(** Does the value of this lookup need expansion? *)
Definition expandable (h : lookupHit) : bool :=
  negb (Final (val h)) && templateValues (prov h) && HasPlaceholder (Text (val h)).

Definition expandHit (name : string) (h : lookupHit) (m : mode) (st : option expandState) : M string :=
  if expandable h then
    let variable := key_of_hit h in
    match checkExpandState name variable st with
    | Some e => fail e
    | None =>
        let key := (variable, allowDynamic m, allowExpr m) in
        cached <-- memoized key ;;
        match cached with
        | Some v => ret v
        | None =>
            expanded <-- expandValue name (Text (val h)) variable m st ;;
            memoize key expanded
        end
    end
  else ret (Text (val h)).

(** [resolve]; [Val None] is the result ("", false, nil). *)
Definition resolve (name : string) (m : mode) (st : option expandState) : M (option string) :=
  let name := TrimSpace name in
  if decide (name = "") then ret None
  else
    hit <-- doLookup name ;;
    match hit with
    | None => ret None
    | Some h =>
        if Missing (val h) then _ <-- traceHit name h "" true ;; ret None
        else
          resolved <-- expandHit name h m st ;;
          _ <-- traceHit name h resolved false ;;
          ret (Some resolved)
    end.

(** A call of the expression evaluator. *)
Definition callExpr (f : string -> ExprPos -> nat -> res verr string) (e : string) (p : ExprPos) : M string := fun s =>
  let s' := mkRState (memo s) (trace s) (S (calls s)) in
  match f e p (calls s) with
  | Ok v => Some (Val v, s')
  | Er err => Some (Fail err, s')
  end.

(** A call of dynamic.Resolve. *)
Definition callDynamic (name : string) : M (res (option verr) string) := fun s =>
  Some (Val (dynamicResolve x name (calls s)), mkRState (memo s) (trace s) (S (calls s))).

(** The last part of [resolveName]. *)
Definition resolvePlain (name : string) (m : mode) (st : option expandState) : M string :=
  v <-- resolve name m st ;;
  match v with
  | Some value => ret value
  | None =>
      _ <-- traceVar (mkTrace name "" "" [] 1 true false) ;;
      fail (mkErr true ("undefined variable: " +:+ name))
  end.

Definition resolveName (name : string) (m : mode) (st : option expandState) : M string :=
  if hasPrefix "=" name then
    if negb (allowExpr m) then fail (mkErr false "expressions not allowed")
    else
      let expr := TrimSpace (str (drop 1 (bytes name))) in
      if decide (expr = "") then fail (mkErr false "empty expression")
      else match exprEval x with
      | None => fail (mkErr false "expressions not enabled")
      | Some f => callExpr f expr (pos m)
      end
  else if allowDynamic m && hasPrefix "$" name then
    v <-- resolve name m st ;;
    match v with
    | Some value => ret value
    | None =>
        built <-- callDynamic name ;;
        match built with
        | Ok b => _ <-- traceVar (mkTrace name "dynamic" b [] 1 false true) ;; ret b
        | Er (Some e) => fail e
        | Er None => resolvePlain name m st
        end
    end
  else resolvePlain name m st.

(** The closure of [renderResult], on one placeholder: its text, the error to
    keep, and whether an undefined variable was met. *)
Definition place (lenientRoot : bool) (s : tplSeg) (m : mode) (st : option expandState)
  (firstErr : option verr) (undef : bool) : M (string * option verr * bool) := fun rs =>
  if decide (name s = "") then Some (Val (text s, firstErr, undef), rs)
  else match resolveName (name s) m st rs with
  | None => None
  | Some (Panic, rs') => Some (Panic, rs')
  | Some (Val v, rs') => Some (Val (v, firstErr, undef), rs')
  | Some (Fail e, rs') =>
      Some (Val (text s,
        (if lenientRoot && isUndefined e then firstErr else PreferStructural firstErr e),
        undef || isUndefined e), rs')
  end.

(** [replace] with that closure. *)
Fixpoint renderSegs (lenientRoot : bool) (t : Template) (m : mode) (st : option expandState)
  (firstErr : option verr) (undef : bool) : M (string * option verr * bool) :=
  match t with
  | [] => ret ("", firstErr, undef)
  | s :: t' =>
      if ph s then
        one <-- place lenientRoot s m st firstErr undef ;;
        let '(v, fe, u) := one in
        rest <-- renderSegs lenientRoot t' m st fe u ;;
        let '(b, fe', u') := rest in ret (v +:+ b, fe', u')
      else
        rest <-- renderSegs lenientRoot t' m st firstErr undef ;;
        let '(b, fe', u') := rest in ret (text s +:+ b, fe', u')
  end.

(** [len] is the resolver's lenient flag. *)
Definition renderResult (len : bool) (t : Template) (m : mode) (st : option expandState) : M (Expansion * option verr) :=
  let lenientRoot := match st with None => len | Some _ => false end in
  out <-- renderSegs lenientRoot t m st None false ;;
  let '(v, fe, u) := out in ret (mkExpansion v u, fe).
End recursion.

(** The knot: nested renderings have a state, so they are strict. *)
Fixpoint render_at (ps : list Provider) (x : Ext) (n : nat) (m : mode) (st : expandState) (t : Template) :
  M (string * option verr) :=
  match n with
  | O => fun _ => None
  | S n' =>
      out <-- renderResult ps x (render_at ps x n') false t m (Some st) ;;
      ret (eValue out.1, out.2)
  end.

(** Sixteen levels of nesting are enough: [checkExpandState] allows no more. *)
Definition nested (r : Resolver) : mode -> expandState -> Template -> M (string * option verr) :=
  render_at (providers r) (ext r) maxExpandDepth.

Definition renderRoot (r : Resolver) (t : Template) (m : mode) : M (Expansion * option verr) :=
  renderResult (providers r) (ext r) (nested r) (lenient r) t m None.

(** ** The exported operations *)

Definition ExpandTemplatesResult (r : Resolver) (input : string) : M (Expansion * option verr) :=
  renderRoot r (CompileTemplate input) (mkMode (exprPos r) true true).

Definition ExpandTemplatesAt (r : Resolver) (input : string) (p : ExprPos) : M (string * option verr) :=
  out <-- renderRoot r (CompileTemplate input) (mkMode p true true) ;; ret (eValue out.1, out.2).

Definition ExpandTemplates (r : Resolver) (input : string) : M (string * option verr) :=
  ExpandTemplatesAt r input (exprPos r).

Definition ExpandTemplatesStatic (r : Resolver) (input : string) : M (string * option verr) :=
  out <-- renderRoot r (CompileTemplate input) (mkMode (exprPos r) false false) ;; ret (eValue out.1, out.2).

(** [Resolve]: an error counts as not found. *)
Definition Resolve (r : Resolver) (name : string) : M (option string) := fun s =>
  match resolve (providers r) (nested r) name (mkMode (exprPos r) true true) None s with
  | Some (Fail _, s') => Some (Val None, s')
  | o => o
  end.

Definition Lenient (r : Resolver) : Resolver :=
  if lenient r then r else mkResolver (providers r) (ext r) (exprPos r) true.

Definition WithExprEval (f : option (string -> ExprPos -> nat -> res verr string)) (r : Resolver) : Resolver :=
  mkResolver (providers r) (mkExt f (dynamicResolve (ext r))) (exprPos r) (lenient r).

Definition WithProviders (ps : list Provider) (r : Resolver) : Resolver :=
  mkResolver ps (ext r) (exprPos r) (lenient r).
End resolver.
