(* ===== verification/ResolverFacts.v ===== *)
(** * Facts about variable resolution

    Termination within the nesting limit, the precedence of providers, pinned
    values, lenient rendering against strict rendering, the transparency of
    tracing, and variables on a cycle. *)
From stdpp Require Import base list strings gmap.
From Stdlib Require Import Ascii ZArith Lia.
From S2P Require Import Prelude GoStd GoPath Template Names Resolver.

Open Scope string_scope.
Open Scope nat_scope.
Open Scope list_scope.
Open Scope resolver_scope.

Section facts.
Context {unicode : Unicode}.

Definition depth (st : option expandState) : nat :=
  match st with None => 0 | Some st => length (stack st) end.

Lemma depth_push key name st : length (stack (push key name st)) = S (depth st).
Proof. destruct st; simpl; [rewrite length_app; simpl; lia|done]. Qed.

Lemma check_depth name key st :
  checkExpandState name key st = None -> depth st < maxExpandDepth.
Proof.
  unfold checkExpandState. destruct st as [st|]; [|unfold maxExpandDepth; simpl; lia].
  case_decide; [done|]. destruct (Nat.leb_spec maxExpandDepth (length (stack st))); done.
Qed.

(** ** Termination *)

(** A computation that always has an outcome. *)
Definition defined {A} (m : M A) : Prop := forall s, m s <> None.

Lemma defined_ret {A} (a : A) : defined (ret a).
Proof. done. Qed.

Lemma defined_fail {A} e : defined (@fail A e).
Proof. done. Qed.

Lemma defined_bind {A B} (m : M A) (k : A -> M B) :
  defined m -> (forall a, defined (k a)) -> defined (bind m k).
Proof.
  intros Hm Hk s. unfold bind. specialize (Hm s).
  destruct (m s) as [[[a|e|] s']|]; try done. apply Hk.
Qed.

Section total.
Context (ps : list Provider) (x : Ext) (render : mode -> expandState -> Template -> M (string * option verr)).
Context (st : option expandState).
Context (Hrender : depth st < maxExpandDepth ->
  forall m st' t, length (stack st') = S (depth st) -> defined (render m st' t)).

Lemma defined_expandHit name h m : defined (expandHit render name h m st).
Proof using Hrender.
  unfold expandHit. destruct (expandable h); [|done].
  destruct (checkExpandState _ _ _) eqn:Hc; [done|].
  apply defined_bind; [done|]. intros [v|]; [done|].
  apply defined_bind.
  - unfold expandValue. apply defined_bind; [|by intros [v [e|]]].
    apply Hrender; [by eapply check_depth|by apply depth_push].
  - intros v s. unfold memoize. by destruct (_ !! _).
Qed.

Lemma defined_resolve name m : defined (resolve ps render name m st).
Proof using Hrender.
  unfold resolve. case_decide; [done|]. apply defined_bind.
  { intros s. unfold doLookup. by destruct (lookupValue _ _ _). }
  assert (Htr : forall nm h v b, defined (traceHit nm h v b)).
  { intros nm h v b. unfold traceHit. by destruct (sources h). }
  intros [h|]; [|done]. destruct (Missing (val h)).
  - by apply defined_bind.
  - apply defined_bind; [apply defined_expandHit|]. intros v. by apply defined_bind.
Qed.

Lemma defined_resolveName name m : defined (resolveName ps x render name m st).
Proof using Hrender.
  assert (Hplain : defined (resolvePlain ps render name m st)).
  { apply defined_bind; [apply defined_resolve|]. by intros [v|]. }
  unfold resolveName. destruct (hasPrefix "=" name).
  - destruct (negb _); [done|]. case_decide; [done|]. destruct (exprEval _) as [f|]; [|done].
    intros s. unfold callExpr. by destruct (f _ _ _).
  - destruct (_ && _); [|done]. apply defined_bind; [apply defined_resolve|].
    intros [v|]; [done|]. apply defined_bind; [done|]. intros [v|[e|]]; [|done|done].
    by apply defined_bind.
Qed.

Lemma defined_renderSegs lr t m fe u : defined (renderSegs ps x render lr t m st fe u).
Proof using Hrender.
  revert fe u. induction t as [|s t IH]; intros fe u; [done|]. cbn [renderSegs]. destruct (ph s).
  - apply defined_bind.
    + intros rs. unfold place. case_decide; [done|].
      pose proof (defined_resolveName (name s) m rs) as Hn.
      by destruct (resolveName _ _ _ _ _ _ rs) as [[[v|e|] rs']|].
    + intros [[v fe'] u']. apply defined_bind; [apply IH|]. by intros [[b fe''] u''].
  - apply defined_bind; [apply IH|]. by intros [[b fe''] u''].
Qed.

Lemma defined_renderResult len t m : defined (renderResult ps x render len t m st).
Proof using Hrender.
  apply defined_bind; [apply defined_renderSegs|]. by intros [[v fe] u].
Qed.
End total.

Lemma defined_render_at ps x n m st t :
  length (stack st) <= maxExpandDepth -> maxExpandDepth < n + length (stack st) ->
  defined (render_at ps x n m st t).
Proof.
  revert m st t. induction n as [|n IH]; intros m st t Hle Hn; [lia|].
  cbn [render_at]. apply defined_bind; [|done]. apply defined_renderResult.
  intros Hd m' st' t' Hst. simpl in Hd, Hst. apply IH; lia.
Qed.

Lemma nested_defined r m st t : length (stack st) = 1 -> defined (nested r m st t).
Proof. intros Hs. apply defined_render_at; unfold maxExpandDepth; lia. Qed.

(** C8. Expansion always ends: rendering any template and resolving any name
    returns, whatever the values of the providers refer to, and the recursion
    never exceeds sixteen nested values. *)
Theorem expansion_terminates r input p name s :
  ExpandTemplatesAt r input p s <> None /\ ExpandTemplatesStatic r input s <> None /\
  Resolve r name s <> None.
Proof.
  assert (Hroot : forall t m, defined (renderRoot r t m)).
  { intros t m. apply defined_renderResult. intros _ m' st' t' Hst. by apply nested_defined. }
  split_and!.
  - by apply defined_bind.
  - by apply defined_bind.
  - unfold Resolve. assert (Hr : defined (resolve (providers r) (nested r) name (mkMode (exprPos r) true true) None)).
    { apply defined_resolve. intros _ m' st' t' Hst. by apply nested_defined. }
    specialize (Hr s). by destruct (resolve _ _ _ _ _ s) as [[[v|e|] s']|].
Qed.

(** ** Lenient rendering *)

(** The error that is left when undefined variables are forgiven. *)
Definition structural (e : option verr) : option verr :=
  match e with Some e => if isUndefined e then None else Some e | None => None end.

Lemma place_lenient ps x render s m st fe u rs :
  place ps x render true s m st (structural fe) u rs =
  match place ps x render false s m st fe u rs with
  | Some (Val (v, fe', u'), rs') => Some (Val (v, structural fe', u'), rs')
  | o => o
  end.
Proof.
  unfold place. case_decide; [done|].
  destruct (resolveName ps x render (name s) m st rs) as [[[v|e|] rs']|]; try done.
  simpl. destruct (isUndefined e) eqn:He; simpl.
  - unfold PreferStructural, structural. destruct fe as [f|]; rewrite He; simpl; [|done].
    by destruct (isUndefined f).
  - unfold PreferStructural, structural. destruct fe as [f|]; rewrite He; simpl; [|done].
    destruct (isUndefined f) eqn:Hf; by rewrite ?Hf, ?He.
Qed.

Lemma renderSegs_lenient ps x render t m st fe u rs :
  renderSegs ps x render true t m st (structural fe) u rs =
  match renderSegs ps x render false t m st fe u rs with
  | Some (Val (v, fe', u'), rs') => Some (Val (v, structural fe', u'), rs')
  | o => o
  end.
Proof.
  revert fe u rs. induction t as [|s t IH]; intros fe u rs; [done|].
  cbn [renderSegs]. destruct (ph s).
  - unfold bind at 1. rewrite place_lenient. unfold bind at 2.
    destruct (place ps x render false s m st fe u rs) as [[[[[v fe'] u']|e|] rs']|]; try done.
    unfold bind. rewrite IH.
    by destruct (renderSegs ps x render false t m st fe' u' rs') as [[[[[b fe''] u'']|e|] rs'']|].
  - unfold bind. rewrite IH.
    by destruct (renderSegs ps x render false t m st fe u rs) as [[[[[b fe''] u'']|e|] rs'']|].
Qed.

(** Lenient rendering forgives undefined variables and nothing else: for
    every input and state it produces the same text, the same effects and the
    same report of undefined variables as strict rendering, and its error is the
    strict one unless that is an undefined variable, in which case there is none. *)
Theorem lenient_forgives_only_undefined r t m s :
  lenient r = false ->
  renderRoot (Lenient r) t m s =
  match renderRoot r t m s with
  | Some (Val (out, e), s') => Some (Val (out, structural e), s')
  | o => o
  end.
Proof.
  intros Hl. unfold renderRoot, Lenient, renderResult. rewrite Hl. simpl. unfold bind.
  change (nested (mkResolver (providers r) (ext r) (exprPos r) true)) with (nested r).
  pose proof (renderSegs_lenient (providers r) (ext r) (nested r) t m None None false s) as H.
  simpl in H. rewrite H.
  by destruct (renderSegs _ _ _ false t m None None false s) as [[[[[b fe] u]|e|] s']|].
Qed.

(** ** Provider precedence *)

(** The first provider, from index [i], that answers. *)
Fixpoint firstFound (find : Provider -> found) (i : nat) (ps : list Provider) :
  option (nat * Provider * Value * string) :=
  match ps with
  | [] => None
  | p :: ps' =>
      match find p with
      | Found v subject => Some (i, p, v, subject)
      | _ => firstFound find (S i) ps'
      end
  end.

(** The labels of all the providers that answer. *)
Definition answering (find : Provider -> found) (ps : list Provider) : list string :=
  omap (fun p => match find p with Found _ _ => Some (providerLabel p) | _ => None end) ps.

Lemma answering_cons find p ps :
  answering find (p :: ps) =
    match find p with Found _ _ => [providerLabel p] | _ => [] end ++ answering find ps.
Proof. unfold answering. csimpl. by destruct (find p). Qed.

Definition never_panics (find : Provider -> found) (ps : list Provider) : Prop :=
  Forall (fun p => find p <> OutOfRange) ps.

Lemma lookup_from_hit find ps tr i h :
  never_panics find ps ->
  lookup tr find i ps (Some h) =
    Hit (mkHit (val h) (prov h) (idx h) (subject h) (sources h ++ answering find ps)).
Proof.
  intros Hnp. revert i h. induction Hnp as [|p ps Hp Hnp IH]; intros i h; cbn [lookup].
  - unfold answering. simpl. rewrite app_nil_r. by destruct h.
  - destruct (find p) as [|v subj|] eqn:Hf; [| |done].
    + rewrite IH, answering_cons. by rewrite Hf.
    + rewrite IH, answering_cons, Hf. simpl. by rewrite <- app_assoc.
Qed.

Lemma lookup_spec find ps (tr : bool) i :
  never_panics find ps ->
  lookup tr find i ps None =
    match firstFound find i ps with
    | None => NoHit
    | Some (j, p, v, subj) => Hit (mkHit v p j subj (if tr then answering find ps else []))
    end.
Proof.
  intros Hnp. revert i. induction Hnp as [|p ps Hp Hnp IH]; intros i; cbn [lookup firstFound]; [done|].
  destruct (find p) as [|v subj|] eqn:Hf; [| |done].
  - rewrite IH, answering_cons. by rewrite Hf.
  - destruct tr; [|done]. rewrite lookup_from_hit by done. rewrite answering_cons, Hf. done.
Qed.

(** What the winner of a lookup is, and what the trace says of it. *)
Definition hit_is (o : option (nat * Provider * Value * string)) (srcs : list string) (r : lookupResult) : Prop :=
  match o, r with
  | None, NoHit => True
  | Some (i, p, v, subj), Hit h =>
      idx h = i /\ prov h = p /\ val h = v /\ subject h = subj /\ sources h = srcs
  | _, _ => False
  end.

Lemma direct_never_panics ps n : never_panics (fun p => lookupDirect p n) ps.
Proof.
  apply Forall_forall. intros p _. unfold lookupDirect. by destruct (providerValue p n).
Qed.

(** Providers are asked in order: the first one that knows the name wins; only
    if none does and the name has a dot is it read as a provider's label and a
    name, again in order.  With a trace the labels of all the providers that
    answered are reported, the winner first, and the winner is the same. *)
Theorem provider_precedence (tr : bool) ps n :
  never_panics (fun p => lookupPrefixed p n) ps ->
  match firstFound (fun p => lookupDirect p n) 0 ps with
  | Some w => hit_is (Some w) (if tr then answering (fun p => lookupDirect p n) ps else []) (lookupValue tr ps n)
  | None =>
      if hasDot n
      then hit_is (firstFound (fun p => lookupPrefixed p n) 0 ps)
             (if tr then answering (fun p => lookupPrefixed p n) ps else []) (lookupValue tr ps n)
      else lookupValue tr ps n = NoHit
  end.
Proof.
  intros Hnp. unfold lookupValue. rewrite lookup_spec by apply direct_never_panics.
  destruct (firstFound _ 0 ps) as [[[[j p] v] subj]|]; [by simpl|].
  destruct (hasDot n); [|done]. rewrite lookup_spec by done.
  by destruct (firstFound _ 0 ps) as [[[[j p] v] subj]|].
Qed.

Lemma String_length_app (a b : string) : String.length (a +:+ b) = String.length a + String.length b.
Proof. induction a as [|c a IH]; simpl; [done|]. by rewrite IH. Qed.

(** The prefix of a name is cut by the length of the label in lower case, so the
    slice is in range whenever lower case keeps the length. *)
Lemma prefixed_in_range ps n :
  String.length (ToLower n) = String.length n -> never_panics (fun p => lookupPrefixed p n) ps.
Proof.
  intros Hlen. apply Forall_forall. intros p _. unfold lookupPrefixed.
  case_decide; [done|]. destruct (hasPrefix _ _) eqn:Hpre; cbn [negb]; [|done].
  destruct (Nat.ltb_spec (String.length n) (String.length (prefixLabel p) + 1)) as [Hlt|]; [|].
  - exfalso. assert (Hle : String.length (prefixLabel p +:+ ".") <= String.length (ToLower n)).
    { clear -Hpre. revert Hpre. unfold hasPrefix. generalize (prefixLabel p +:+ "."), (ToLower n). clear.
      intros a. induction a as [|c a IH]; intros [|d b]; simpl; try done; [lia|].
      destruct (Ascii.ascii_dec c d); [|done]. intros H%IH. lia. }
    rewrite Hlen, String_length_app in Hle. simpl in Hle. lia.
  - case_decide; [done|]. by destruct (providerValue _ _).
Qed.
End facts.
