(* ===== verification/ResolverCycles.v ===== *)
(** * Pinned values and cycles

    What the memo store of a resolver contains: values once stored never change,
    and a variable whose value refers to itself, directly or through others, is
    never stored and never resolves. *)
From stdpp Require Import base list strings gmap relations.
From Stdlib Require Import Ascii ZArith Lia.
From S2P Require Import Prelude GoStd GoPath Template Names Resolver.

Open Scope string_scope.
Open Scope nat_scope.
Open Scope list_scope.
Open Scope resolver_scope.

Section cycles.
Context {unicode : Unicode}.
Context (ps : list Provider) (x : Ext).

(** ** References between variables *)

(** The value a template provider declares for a variable. *)
Definition declared (vk : variableKey) (v : Value) : Prop :=
  exists p subj, ps !! vk.1 = Some p /\ templateValues p = true /\
    NameKey subj = vk.2 /\ providerValue p subj = Some v.

(** [n] selects the variable [vk], whose value needs expansion. *)
Definition selects (n : string) (vk : variableKey) : Prop :=
  exists h, TrimSpace n <> "" /\ lookupValue false ps (TrimSpace n) = Hit h /\
    Missing (val h) = false /\ expandable h = true /\ key_of_hit h = vk.

(** The value of one variable mentions another. *)
Definition refers (k k' : variableKey) : Prop :=
  exists v n, declared k v /\ n ∈ placeholders (CompileTemplate (Text v)) /\
    hasPrefix "=" n = false /\ selects n k'.

(** Template providers look names up by their key, as NameMaps do. *)
Definition by_key : Prop :=
  forall p a b, p ∈ ps -> templateValues p = true -> NameKey a = NameKey b ->
    providerValue p a = providerValue p b.

(** ** The invariant of the memo store *)

(** The variables of one mode are stored in an order in which every variable
    comes after those its value mentions. *)
Definition memo_wf (mm : gmap memoKey string) : Prop :=
  exists order : list memoKey,
    (forall k, is_Some (mm !! k) <-> k ∈ order) /\
    (forall i vk d e, order !! i = Some (vk, d, e) -> forall vk', refers vk vk' -> (vk', d, e) ∈ take i order).

(** Triples: the invariant and growth of the store, and a postcondition. *)
Definition post {A} (m : M A) (Q : A -> RState -> Prop) : Prop :=
  forall s o s', memo_wf (memo s) -> m s = Some (o, s') ->
    memo_wf (memo s') /\ memo s ⊆ memo s' /\ (forall a, o = Val a -> Q a s').

Lemma post_ret {A} (a : A) (Q : A -> RState -> Prop) : (forall s, Q a s) -> post (ret a) Q.
Proof. intros HQ s o s' Hwf [= <- <-]. split_and!; [done|done|]. by intros b [= <-]. Qed.

Lemma post_fail {A} e (Q : A -> RState -> Prop) : post (fail e) Q.
Proof. intros s o s' Hwf [= <- <-]. by split_and!. Qed.

Lemma post_weaken {A} (m : M A) (P Q : A -> RState -> Prop) :
  post m P -> (forall a s, P a s -> Q a s) -> post m Q.
Proof.
  intros Hm HPQ s o s' Hwf Hs. destruct (Hm s o s' Hwf Hs) as (? & ? & HP).
  split_and!; [done|done|]. eauto.
Qed.

(** Postconditions that only speak of stored values survive what follows. *)
Definition lasting {A} (P : A -> RState -> Prop) : Prop :=
  forall a s s', memo s ⊆ memo s' -> P a s -> P a s'.

Lemma post_bind {A B} (m : M A) (k : A -> M B) P Q :
  post m P -> lasting P ->
  (forall a, post (k a) (fun b s => P a s -> Q b s)) -> post (bind m k) Q.
Proof.
  intros Hm Hl Hk s o s' Hwf Hs. unfold bind in Hs.
  destruct (m s) as [[[a|e|] s1]|] eqn:Hms; [| | |done].
  - destruct (Hm _ _ _ Hwf Hms) as (Hwf1 & Hle1 & HP).
    destruct (Hk a _ _ _ Hwf1 Hs) as (Hwf2 & Hle2 & HQ).
    split_and!; [done|by transitivity (memo s1)|].
    intros b Hb. apply HQ; [done|]. eapply Hl; [exact Hle2|by apply HP].
  - injection Hs as <- <-. destruct (Hm _ _ _ Hwf Hms) as (? & ? & _). by split_and!.
  - injection Hs as <- <-. destruct (Hm _ _ _ Hwf Hms) as (? & ? & _). by split_and!.
Qed.

(** Steps that leave the store alone. *)
Lemma post_keep {A} (m : M A) :
  (forall s o s', m s = Some (o, s') -> memo s' = memo s) -> post m (fun _ _ => True).
Proof. intros Hm s o s' Hwf Hs. rewrite (Hm _ _ _ Hs). by split_and!. Qed.

(** The variable that [n] selects is stored. *)
Definition stored (n : string) (m : mode) (s : RState) : Prop :=
  forall vk, selects n vk -> is_Some (memo s !! (vk, allowDynamic m, allowExpr m)).

Lemma stored_le n m s s' : memo s ⊆ memo s' -> stored n m s -> stored n m s'.
Proof.
  intros Hle Hst vk Hsel. destruct (Hst vk Hsel) as [v Hv]. exists v. by eapply lookup_weaken.
Qed.

(** *** Lookups *)

Definition bare (h : lookupHit) : lookupHit := mkHit (val h) (prov h) (idx h) (subject h) [].

Lemma lookup_keeps find i l h h' :
  lookup true find i l (Some h) = Hit h' -> bare h' = bare h.
Proof.
  revert i h. induction l as [|p l IH]; intros i h; cbn [lookup]; [by intros [= <-]|].
  destruct (find p); [apply IH|intros Hl%IH; by rewrite Hl|done].
Qed.

Lemma lookup_bare find i l h :
  lookup true find i l None = Hit h -> lookup false find i l None = Hit (bare h).
Proof.
  revert i. induction l as [|p l IH]; intros i; cbn [lookup]; [done|].
  destruct (find p); [apply IH| |done]. intros Hl%lookup_keeps. by rewrite Hl.
Qed.

Lemma lookup_none find i l : lookup true find i l None = NoHit -> lookup false find i l None = NoHit.
Proof.
  assert (Hsome : forall i h, lookup true find i l (Some h) <> NoHit).
  { induction l as [|p l IH]; intros j h; cbn [lookup]; [done|]. destruct (find p); [apply IH|apply IH|done]. }
  clear Hsome. revert i. induction l as [|p l IH]; intros i; cbn [lookup]; [done|].
  destruct (find p) as [|v sj|]; [apply IH| |done]. intros Hl. exfalso.
  assert (Hsome : forall l i h, lookup true find i l (Some h) <> NoHit).
  { clear. induction l as [|p l IH]; intros j h; cbn [lookup]; [done|]. destruct (find p); [apply IH|apply IH|done]. }
  by eapply Hsome.
Qed.

(** With a trace, the same value is selected, unless the scan panics. *)
Lemma lookupValue_bare tr n h :
  lookupValue tr ps n = Hit h -> exists h', lookupValue false ps n = Hit h' /\ bare h' = bare h.
Proof.
  destruct tr; [|eauto]. unfold lookupValue.
  destruct (lookup true (fun p => lookupDirect p n) 0 ps None) as [|h1|] eqn:Hd; [| |done].
  - rewrite (lookup_none _ _ _ Hd). destruct (hasDot n); [|done].
    intros Hp%lookup_bare. rewrite Hp. eauto.
  - intros [= <-]. rewrite (lookup_bare _ _ _ _ Hd). eauto.
Qed.

Lemma lookupValue_none tr n : lookupValue tr ps n = NoHit -> lookupValue false ps n = NoHit.
Proof.
  destruct tr; [|done]. unfold lookupValue.
  destruct (lookup true (fun p => lookupDirect p n) 0 ps None) as [|h1|] eqn:Hd; [|done|done].
  rewrite (lookup_none _ _ _ Hd). destruct (hasDot n); [|done]. apply lookup_none.
Qed.

(** A lookup's hit is a declaration of its provider. *)
Lemma lookup_declared find i l h :
  (forall p v sj, find p = Found v sj -> providerValue p sj = Some v) ->
  lookup false find i l None = Hit h ->
  i <= idx h /\ l !! (idx h - i) = Some (prov h) /\ providerValue (prov h) (subject h) = Some (val h).
Proof.
  intros Hf. revert i. induction l as [|p l IH]; intros i; cbn [lookup]; [done|].
  destruct (find p) as [|v sj|] eqn:Hp; [| |done].
  - intros Hl%IH. destruct Hl as (Hle & Hl & Hv). split; [lia|]. split; [|done].
    by replace (idx h - i) with (S (idx h - S i)) by lia.
  - intros [= <-]. simpl. split; [done|]. split; [by rewrite Nat.sub_diag|by apply Hf].
Qed.

Lemma hit_declared n h :
  lookupValue false ps n = Hit h -> ps !! idx h = Some (prov h) /\
    providerValue (prov h) (subject h) = Some (val h).
Proof.
  assert (Hd : forall p v sj, lookupDirect p n = Found v sj -> providerValue p sj = Some v).
  { intros p v sj. unfold lookupDirect. destruct (providerValue p n) eqn:E; [|done]. by intros [= <- <-]. }
  assert (Hpre : forall p v sj, lookupPrefixed p n = Found v sj -> providerValue p sj = Some v).
  { intros p v sj. unfold lookupPrefixed. repeat case_match; try done. by intros [= <- <-]. }
  unfold lookupValue. destruct (lookup false (fun p => lookupDirect p n) 0 ps None) as [|h1|] eqn:E; [| |done].
  - destruct (hasDot n); [|done]. intros Hl%lookup_declared; [|done].
    destruct Hl as (_ & Hl & Hv). by rewrite Nat.sub_0_r in Hl.
  - intros [= <-]. apply lookup_declared in E as (_ & Hl & Hv); [|done]. by rewrite Nat.sub_0_r in Hl.
Qed.

(** ** The triples of the resolver's methods *)

Section recursion.
Context (Hkey : by_key).
Context (render : mode -> expandState -> Template -> M (string * option verr)).

(** After a nested rendering without error, what its placeholders select is
    stored. *)
Definition names_stored (t : Template) (m : mode) (s : RState) : Prop :=
  forall n, n ∈ placeholders t -> hasPrefix "=" n = false -> stored n m s.

Context (Hrender : forall m st t,
  post (render m st t) (fun out s => out.2 = None -> names_stored t m s)).

Lemma names_stored_le t m s s' : memo s ⊆ memo s' -> names_stored t m s -> names_stored t m s'.
Proof. intros Hle Hn n Hin He. eapply stored_le; [exact Hle|]. by apply Hn. Qed.

(** Storing a variable whose references are all stored. *)
Lemma memoize_post n h m v t :
  lookupValue false ps n = Hit h -> expandable h = true -> t = CompileTemplate (Text (val h)) ->
  forall s, names_stored t m s -> memo_wf (memo s) ->
  forall o s', memoize (key_of_hit h, allowDynamic m, allowExpr m) v s = Some (o, s') ->
  memo_wf (memo s') /\ memo s ⊆ memo s' /\
  (forall a, o = Val a -> memo s' !! (key_of_hit h, allowDynamic m, allowExpr m) = Some a).
Proof using Hkey.
  intros Hh He -> s Hn Hwf o s' Hs. unfold memoize in Hs.
  destruct (memo s !! (key_of_hit h, allowDynamic m, allowExpr m)) as [w|] eqn:Hm;
    injection Hs as <- <-; simpl; [split_and!; [done|done|by intros a [= <-]]|].
  split_and!; [|by apply insert_subseteq|intros a [= <-]; by rewrite lookup_insert_eq].
  destruct Hwf as (order & Hdom & Hord). exists (order ++ [(key_of_hit h, allowDynamic m, allowExpr m)]).
  split.
  - intros k. rewrite elem_of_app, list_elem_of_singleton, <- Hdom, lookup_insert_is_Some'. intuition congruence.
  - intros i vk d e Hi vk' Href. apply lookup_app_Some in Hi as [Hi|[Hge Hi]].
    + rewrite take_app_le by (apply lookup_lt_Some in Hi; lia). by eapply Hord.
    + apply list_lookup_singleton_Some in Hi as [Hz [= <- <- <-]].
      rewrite take_app_ge by lia. apply elem_of_app. left. apply Hdom.
      destruct Href as (w & n' & (p & subj & Hp & Ht & Hk & Hw) & Hin & Heq & Hsel).
      destruct (hit_declared _ _ Hh) as [Hp' Hv'].
      simpl in Hp, Hk. rewrite Hp' in Hp. injection Hp as <-.
      assert (Hsame : providerValue (prov h) subj = providerValue (prov h) (subject h)).
      { apply Hkey; [by eapply list_elem_of_lookup_2|done|done]. }
      rewrite Hsame, Hv' in Hw. injection Hw as <-. by apply (Hn n').
Qed.

Lemma expandHit_post n name h m st :
  lookupValue false ps n = Hit h ->
  post (expandHit render name h m st)
    (fun v s => expandable h = true -> memo s !! (key_of_hit h, allowDynamic m, allowExpr m) = Some v).
Proof using Hkey Hrender.
  intros Hh. unfold expandHit. destruct (expandable h) eqn:He; [|by apply post_ret].
  destruct (checkExpandState _ _ _); [apply post_fail|].
  intros s o s' Hwf Hs. unfold bind at 1, memoized in Hs.
  destruct (memo s !! (key_of_hit h, allowDynamic m, allowExpr m)) as [v|] eqn:Hm.
  { cbv beta iota in Hs. injection Hs as <- <-. split_and!; [done|done|]. by intros a [= <-] _. }
  cbv beta iota in Hs. unfold bind at 1, expandValue, bind at 1 in Hs.
  destruct (render m _ _ s) as [[[[v [e|]]|e|] s1]|] eqn:Hr; [| | | |done];
    destruct (Hrender _ _ _ _ _ _ Hwf Hr) as (Hwf1 & Hle1 & Hn).
  - injection Hs as <- <-. by split_and!.
  - specialize (Hn _ eq_refl eq_refl). simpl in Hs.
    destruct (memoize_post n h m v _ Hh He eq_refl _ Hn Hwf1 _ _ Hs) as (? & ? & ?).
    split_and!; [done|by transitivity (memo s1)|by auto].
  - injection Hs as <- <-. by split_and!.
  - injection Hs as <- <-. by split_and!.
Qed.

Lemma traceHit_keep name h v b : post (traceHit name h v b) (fun _ _ => True).
Proof.
  apply post_keep. intros s o s'. unfold traceHit. by destruct (sources h); intros [= <- <-].
Qed.

(** What [resolve] leaves: the selected variable is stored, with the value it
    answers. *)
Definition answered (name : string) (m : mode) (o : option string) (s : RState) : Prop :=
  stored name m s /\
  forall v vk, o = Some v -> selects name vk -> memo s !! (vk, allowDynamic m, allowExpr m) = Some v.

Lemma answered_le name m : lasting (answered name m).
Proof.
  intros o s s' Hle [Hst Hv]. split; [by eapply stored_le|].
  intros v vk Ho Hsel. eapply lookup_weaken; [by apply Hv|done].
Qed.

Lemma resolve_post name m st : post (resolve ps render name m st) (answered name m).
Proof using Hkey Hrender.
  assert (Hno : forall s o, (forall vk, ~ selects name vk) -> answered name m o s).
  { intros s o Hn. split; [intros vk Hsel; by destruct (Hn vk)|intros v vk _ Hsel; by destruct (Hn vk)]. }
  unfold resolve. case_decide as Hb.
  { apply post_ret. intros s. apply Hno. by intros vk (h & Hne & _). }
  intros s o s' Hwf Hs. unfold bind at 1, doLookup in Hs.
  destruct (lookupValue (tracing s) ps (TrimSpace name)) as [|h|] eqn:Hl.
  - injection Hs as <- <-. split_and!; [done|done|]. intros o _. apply Hno. intros vk (h & _ & Hh & _).
    by rewrite (lookupValue_none _ _ Hl) in Hh.
  - destruct (lookupValue_bare _ _ _ Hl) as (h' & Hh' & Hbare).
    assert (Hsel : forall vk, selects name vk ->
      Missing (val h) = false /\ expandable h' = true /\ key_of_hit h' = vk).
    { intros vk (h2 & _ & Hh2 & Hmi & Hex & Hk). rewrite Hh' in Hh2. injection Hh2 as <-.
      destruct h as [v0 p0 i0 sj0 src0], h' as [v1 p1 i1 sj1 src1].
      unfold bare in Hbare. simpl in Hbare. by simplify_eq. }
    destruct (Missing (val h)) eqn:Hmi.
    + assert (Hpost : post (bind (traceHit (TrimSpace name) h "" true) (fun _ => @ret (option string) None)) (answered name m)).
      { eapply post_bind; [apply traceHit_keep|done|]. intros ?. apply post_ret. intros s0 _.
        apply Hno. intros vk Hs0. by destruct (Hsel vk Hs0). }
      by apply (Hpost s).
    + assert (Hpost : post (bind (expandHit render (TrimSpace name) h m st) (fun resolved =>
          bind (traceHit (TrimSpace name) h resolved false) (fun _ => ret (Some resolved))))
          (answered name m)).
      { eapply post_bind.
        - assert (Hsame : forall nm, expandHit render nm h m st = expandHit render nm h' m st).
          { intros nm. destruct h as [v0 p0 i0 sj0 src0], h' as [v1 p1 i1 sj1 src1].
            unfold bare in Hbare. simpl in Hbare. by simplify_eq. }
          rewrite Hsame. exact (expandHit_post _ _ _ _ _ Hh').
        - intros a s1 s2 Hle Hp He. eapply lookup_weaken; [by apply Hp|done].
        - intros v. eapply post_bind; [apply traceHit_keep|done|]. intros ?.
          apply post_ret. intros s0 _ Hp. split.
          + intros vk Hs0. destruct (Hsel vk Hs0) as (_ & He & <-). eauto.
          + intros w vk [= <-] Hs0. destruct (Hsel vk Hs0) as (_ & He & <-). eauto. }
      by apply (Hpost s).
  - injection Hs as <- <-. by split_and!.
Qed.

Lemma resolveName_post name m st :
  post (resolveName ps x render name m st) (fun _ s => hasPrefix "=" name = false -> stored name m s).
Proof using Hkey Hrender.
  assert (Hplain : post (resolvePlain ps render name m st) (fun _ s => hasPrefix "=" name = false -> stored name m s)).
  { unfold resolvePlain. eapply post_bind; [apply resolve_post| |].
    - apply answered_le.
    - intros [v|]; [apply post_ret; by intros s [? _]|].
      eapply post_bind; [apply (post_keep (traceVar _)); by intros s o s' [= <- <-]|done|].
      intros ?. apply post_fail. }
  unfold resolveName. destruct (hasPrefix "=" name).
  - destruct (negb _); [apply post_fail|]. case_decide; [apply post_fail|].
    destruct (exprEval x) as [f|]; [|apply post_fail].
    eapply post_weaken; [apply post_keep|done].
    intros s o s'. unfold callExpr. by destruct (f _ _ _); intros [= <- <-].
  - destruct (_ && _); [|done]. eapply post_bind; [apply resolve_post| |].
    + apply answered_le.
    + intros [v|]; [apply post_ret; by intros s [? _]|].
      eapply post_bind; [apply (post_keep (callDynamic x name)); by intros s o s' [= <- <-]|done|].
      intros [b|[e|]]; [|apply post_fail|].
      * eapply post_bind; [apply (post_keep (traceVar _)); by intros s o s' [= <- <-]|done|].
        intros ?. apply post_ret. by intros s _ _ [? _].
      * eapply post_weaken; [exact Hplain|]. intros a s Hs _ _ . exact Hs.
Qed.

(** An error that was kept stays. *)
Lemma prefer_some fe e : PreferStructural fe e <> None.
Proof. unfold PreferStructural. destruct fe; [|done]. by destruct (_ && _). Qed.

Lemma renderSegs_post t m st fe u :
  post (renderSegs ps x render false t m st fe u)
    (fun out s => out.1.2 = None -> fe = None /\ names_stored t m s).
Proof using Hkey Hrender.
  revert fe u. induction t as [|sg t IH]; intros fe u.
  { apply post_ret. intros s Hfe. split; [done|]. by intros n ?%not_elem_of_nil. }
  cbn [renderSegs]. destruct (ph sg) eqn:Hph.
  - eapply (post_bind _ _ (fun one s => one.1.2 = None ->
      fe = None /\ (hasPrefix "=" (name sg) = false -> stored (name sg) m s))).
    + intros s o s' Hwf Hs. unfold place in Hs. case_decide as Hn.
      { injection Hs as <- <-. split_and!; [done|done|]. intros a [= <-] Hfe. split; [done|].
        intros _ vk (h & Hne & _). exfalso. rewrite Hn in Hne. apply Hne. reflexivity. }
      destruct (resolveName ps x render (name sg) m st s) as [[[v|e|] s1]|] eqn:Hr; [| | |done];
        destruct (resolveName_post _ _ _ _ _ _ Hwf Hr) as (? & ? & Hst); injection Hs as <- <-.
      * split_and!; [done|done|]. intros a [= <-]. simpl. intros ->. split; [done|]. exact (Hst _ eq_refl).
      * split_and!; [done|done|]. intros a [= <-]. simpl. intros Hbad. by destruct (prefer_some _ _ Hbad).
      * by split_and!.
    + intros a s s' Hle Hp Hfe. destruct (Hp Hfe) as [? Hs]. split; [done|].
      intros He. eapply stored_le; [exact Hle|by apply Hs].
    + intros [[v fe'] u']. eapply post_bind; [apply IH| |].
      * intros a s s' Hle Hp Hfe. destruct (Hp Hfe). split; [done|]. by eapply names_stored_le.
      * intros [[b fe''] u'']. apply post_ret. simpl. intros s Hrest Hone Hfe.
        destruct (Hrest Hfe) as [Hfe' Hns]. destruct (Hone Hfe') as [? Hst]. split; [done|].
        intros n Hin He. unfold placeholders in Hin. csimpl in Hin. rewrite Hph in Hin.
        apply elem_of_cons in Hin as [->|Hin]; [by apply Hst|by apply Hns].
  - eapply post_bind; [apply IH| |].
    + intros a s s' Hle Hp Hfe. destruct (Hp Hfe). split; [done|]. by eapply names_stored_le.
    + intros [[b fe''] u'']. apply post_ret. simpl. intros s Hrest Hfe.
      destruct (Hrest Hfe) as [? Hns]. split; [done|].
      intros n Hin He. unfold placeholders in Hin. csimpl in Hin. rewrite Hph in Hin. by apply Hns.
Qed.

Lemma renderSegs_wf lr t m st fe u : post (renderSegs ps x render lr t m st fe u) (fun _ _ => True).
Proof using Hkey Hrender.
  revert fe u. induction t as [|sg t IH]; intros fe u; [by apply post_ret|].
  cbn [renderSegs]. destruct (ph sg).
  - eapply (post_bind _ _ (fun _ _ => True)); [|done|].
    + intros s o s' Hwf Hs. unfold place in Hs.
      case_decide; [injection Hs as <- <-; by split_and!|].
      destruct (resolveName ps x render (name sg) m st s) as [[[v|e|] s1]|] eqn:Hr; [| | |done];
        destruct (resolveName_post _ _ _ _ _ _ Hwf Hr) as (? & ? & _); injection Hs as <- <-;
        by split_and!.
    + intros [[v fe'] u']. eapply post_bind; [apply IH|done|]. intros [[b fe''] u'']. by apply post_ret.
  - eapply post_bind; [apply IH|done|]. intros [[b fe''] u'']. by apply post_ret.
Qed.
End recursion.

Lemma render_at_post (Hkey : by_key) n m st t :
  post (render_at ps x n m st t) (fun out s => out.2 = None -> names_stored t m s).
Proof.
  revert m st t. induction n as [|n IH]; intros m st t; [by intros s o s' _|].
  cbn [render_at]. unfold renderResult. eapply post_bind.
  - eapply post_bind; [apply (renderSegs_post Hkey _ IH)| |].
    + intros a s s' Hle Hp Hfe. destruct (Hp Hfe). split; [done|]. by eapply names_stored_le.
    + intros [[v fe] u]. apply post_ret. intros s Hp.
      instantiate (1 := fun out s => out.2 = None -> names_stored t m s).
      simpl. intros Hfe. by apply Hp.
  - intros a s s' Hle Hp Hfe. eapply names_stored_le; [exact Hle|by apply Hp].
  - intros [ex fe]. apply post_ret. simpl. auto.
Qed.

(** *** Whole resolvers *)

Lemma resolve_root_post (Hkey : by_key) name m :
  post (resolve ps (render_at ps x maxExpandDepth) name m None) (answered name m).
Proof. apply resolve_post; [done|]. intros m' st t. by apply render_at_post. Qed.

Lemma render_root_post (Hkey : by_key) len t m :
  post (renderResult ps x (render_at ps x maxExpandDepth) len t m None) (fun _ _ => True).
Proof.
  unfold renderResult. eapply post_bind.
  - apply renderSegs_wf; [done|]. intros m' st t'. by apply render_at_post.
  - done.
  - intros [[v fe] u]. by apply post_ret.
Qed.

(** A variable that is stored is not on a cycle. *)
Lemma stored_acyclic mm vk d e v : memo_wf mm -> mm !! (vk, d, e) = Some v -> ~ tc refers vk vk.
Proof.
  intros (order & Hdom & Hord) Hv Htc.
  assert (Hbefore : forall vk1 vk2, tc refers vk1 vk2 -> forall i, order !! i = Some (vk1, d, e) ->
    exists j, j < i /\ order !! j = Some (vk2, d, e)).
  { intros vk1 vk2 H12. induction H12 as [vk1 vk2 Href|vk1 vk3 vk2 Href H32 IH]; intros i Hi.
    - destruct (proj1 (elem_of_take _ _ _) (Hord _ _ _ _ Hi _ Href)) as (j & ? & ?). eauto.
    - destruct (proj1 (elem_of_take _ _ _) (Hord _ _ _ _ Hi _ Href)) as (j & Hj & Hlt).
      destruct (IH _ Hj) as (k & ? & ?). exists k. split; [lia|done]. }
  assert (Hin : (vk, d, e) ∈ order) by (apply Hdom; eauto).
  apply list_elem_of_lookup in Hin as [i Hi]. clear Hdom Hord.
  induction i as [i IH] using lt_wf_ind. destruct (Hbefore _ _ Htc _ Hi) as (j & Hlt & Hj). eauto.
Qed.

(** The states of the store and trace that a resolver and its lenient copies
    reach: a fresh store, then any renderings and resolutions. *)
Inductive used : RState -> Prop :=
  | used_fresh tr n : used (mkRState ∅ tr n)
  | used_render len t m s o s' :
      used s -> renderResult ps x (render_at ps x maxExpandDepth) len t m None s = Some (o, s') -> used s'
  | used_resolve name m s o s' :
      used s -> resolve ps (render_at ps x maxExpandDepth) name m None s = Some (o, s') -> used s'.

Lemma used_wf (Hkey : by_key) s : used s -> memo_wf (memo s).
Proof.
  induction 1 as [tr n|len t m s o s' _ IH Hs|name m s o s' _ IH Hs].
  - exists []. split.
    + intros k. simpl. rewrite lookup_empty. split; [by intros [? ?]|by intros ?%not_elem_of_nil].
    + intros i vk d e Hi. by rewrite lookup_nil in Hi.
  - by destruct (render_root_post Hkey len t m s o s' IH Hs).
  - by destruct (resolve_root_post Hkey name m s o s' IH Hs).
Qed.

(** What follows a state. *)
Inductive later : RState -> RState -> Prop :=
  | later_refl s : later s s
  | later_render len t m s s1 o s' :
      later s s1 -> renderResult ps x (render_at ps x maxExpandDepth) len t m None s1 = Some (o, s') -> later s s'
  | later_resolve name m s s1 o s' :
      later s s1 -> resolve ps (render_at ps x maxExpandDepth) name m None s1 = Some (o, s') -> later s s'.

Lemma later_used s s' : used s -> later s s' -> used s'.
Proof. intros Hs. induction 1; eauto using used_render, used_resolve. Qed.

Lemma later_grows (Hkey : by_key) s s' : used s -> later s s' -> memo s ⊆ memo s'.
Proof.
  intros Hs Hl. induction Hl as [s|len t m s s1 o s' Hl IH Hr|name m s s1 o s' Hl IH Hr]; [done| |];
    pose proof (used_wf Hkey _ (later_used _ _ Hs Hl)) as Hwf; specialize (IH Hs).
  - destruct (render_root_post Hkey len t m _ _ _ Hwf Hr) as (_ & ? & _). by transitivity (memo s1).
  - destruct (resolve_root_post Hkey name m _ _ _ Hwf Hr) as (_ & ? & _). by transitivity (memo s1).
Qed.

(** C9. A variable on a cycle never resolves: if the value of a variable mentions
    itself, directly or through other variables, then in every state a resolver
    reaches no value is stored for it, and resolving any name that selects it
    gives no value. *)
Theorem cyclic_variables_never_resolve (Hkey : by_key) s vk :
  used s -> tc refers vk vk ->
  (forall d e, memo s !! (vk, d, e) = None) /\
  (forall name m v s', selects name vk ->
    resolve ps (render_at ps x maxExpandDepth) name m None s <> Some (Val (Some v), s')).
Proof.
  intros Hs Htc. pose proof (used_wf Hkey _ Hs) as Hwf. split.
  - intros d e. destruct (memo s !! (vk, d, e)) as [v|] eqn:Hv; [|done].
    by destruct (stored_acyclic _ _ _ _ _ Hwf Hv).
  - intros name m v s' Hsel Hr.
    destruct (resolve_root_post Hkey name m _ _ _ Hwf Hr) as (Hwf' & _ & Ha).
    destruct (Ha _ eq_refl) as [_ Hst]. specialize (Hst v vk eq_refl Hsel).
    by destruct (stored_acyclic _ _ _ _ _ Hwf' Hst).
Qed.

(** Values are pinned: once a variable with a template value has resolved,
    every later resolution of it in the same mode gives the same value, under
    whatever name it is selected, even if it contains random helpers or
    expressions. *)
Theorem values_are_pinned (Hkey : by_key) s s1 s2 s3 name1 name2 m1 m2 v1 v2 vk :
  used s -> selects name1 vk -> selects name2 vk ->
  allowDynamic m1 = allowDynamic m2 -> allowExpr m1 = allowExpr m2 ->
  resolve ps (render_at ps x maxExpandDepth) name1 m1 None s = Some (Val (Some v1), s1) ->
  later s1 s2 ->
  resolve ps (render_at ps x maxExpandDepth) name2 m2 None s2 = Some (Val (Some v2), s3) ->
  v1 = v2.
Proof.
  intros Hs Hsel1 Hsel2 Ed Ee Hr1 Hl Hr2.
  pose proof (used_resolve _ _ _ _ _ Hs Hr1) as Hs1. pose proof (later_used _ _ Hs1 Hl) as Hs2.
  destruct (resolve_root_post Hkey _ _ _ _ _ (used_wf Hkey _ Hs) Hr1) as (_ & _ & Ha1).
  destruct (resolve_root_post Hkey _ _ _ _ _ (used_wf Hkey _ Hs2) Hr2) as (_ & Hle2 & Ha2).
  destruct (Ha1 _ eq_refl) as [_ H1]. destruct (Ha2 _ eq_refl) as [_ H2].
  specialize (H1 _ _ eq_refl Hsel1). specialize (H2 _ _ eq_refl Hsel2).
  pose proof (later_grows Hkey _ _ Hs1 Hl) as Hle1.
  assert (H1' : memo s3 !! (vk, allowDynamic m1, allowExpr m1) = Some v1).
  { eapply lookup_weaken; [exact H1|]. by transitivity (memo s2). }
  rewrite Ed, Ee in H1'. congruence.
Qed.
End cycles.

(** * Variables at concrete inputs

    Witnesses of the theorems on templates, names and resolution, for ASCII case
    and a file with two variables that refer to each other and one that uses a
    dynamic helper. *)
From stdpp Require Import base list strings gmap relations.
From Stdlib Require Import Ascii ZArith Lia.
From S2P Require Import Prelude GoStd GoPath Template Names Resolver ResolverFacts.

Open Scope string_scope.
Open Scope nat_scope.
Open Scope list_scope.

#[local] Existing Instance ascii.

Lemma no_placeholder_is_literal_witness :
  HasPlaceholder "plain {text}" = false /\ replace (CompileTemplate "plain {text}") (fun _ n => n) = "plain {text}".
Proof.
  assert (Hp : HasPlaceholder "plain {text}" = false) by (vm_compute; reflexivity).
  split; [exact Hp|]. apply (proj2 (no_placeholder_is_literal _ Hp)).
Defined.

(** Providers made from maps look names up by their key. *)
Lemma map_providers_by_key ps :
  Forall (fun p => exists label values template, p = newMapProvider label values template) ps ->
  by_key ps.
Proof.
  intros Hall p a b Hin _ Hk. apply (proj1 (Forall_forall _ _) Hall) in Hin as (l & v & t & ->).
  simpl. unfold Get. by rewrite Hk.
Qed.

Definition fileVars : gmap string string :=
  list_to_map [("a", "1{{ B }}"); ("b", "2{{A}}"); ("c", "<{{d}}{{D}}>"); ("d", "{{$uuid}}")].

Definition sampleProviders : list Provider :=
  [NewMapProvider "response" (list_to_map [("token", "{{a}}")]); NewTemplateProvider "file:demo" fileVars].

Definition sampleExt : Ext :=
  mkExt None (fun n k => if decide (n = "$uuid") then Ok ("u" +:+ itoa (Z.of_nat k)) else Er None).

Definition sampleResolver (len : bool) : Resolver := mkResolver sampleProviders sampleExt (mkExprPos "" 0 0) len.

Definition fresh : RState := mkRState ∅ (Some NewTrace) 0.

Definition result (o : option (out (string * option verr) * RState)) : option (string * option string) :=
  match o with
  | Some (Val (v, e), _) => Some (v, msg <$> e)
  | _ => None
  end.

(** The helper runs once for [d]; runtime data is not expanded; cycles and
    undefined names are errors that leave the placeholder in place. *)
Example expand_examples :
  result (ExpandTemplates (sampleResolver false) "{{c}} {{file.D}}" fresh) = Some ("<u0u0> u0", None) /\
  result (ExpandTemplates (sampleResolver false) "{{token}}" fresh) = Some ("{{a}}", None) /\
  result (ExpandTemplates (sampleResolver false) "{{nope}} {{a}}" fresh) =
    Some ("{{nope}} {{a}}", Some "expand a: expand B: variable cycle: a -> B -> A") /\
  result (ExpandTemplates (sampleResolver true) "{{nope}}" fresh) = Some ("{{nope}}", None).
Proof. vm_compute. done. Qed.

Lemma lenient_forgives_only_undefined_witness :
  exists s', renderRoot (Lenient (sampleResolver false)) (CompileTemplate "{{nope}}{{d}}") (mkMode (mkExprPos "" 0 0) true true) fresh =
    Some (Val (mkExpansion "{{nope}}u0" true, None), s').
Proof.
  assert (Hs : exists s', renderRoot (sampleResolver false) (CompileTemplate "{{nope}}{{d}}") (mkMode (mkExprPos "" 0 0) true true) fresh =
    Some (Val (mkExpansion "{{nope}}u0" true, Some (mkErr true "undefined variable: nope")), s')).
  { eexists. vm_compute. reflexivity. }
  destruct Hs as [s' Hs]. exists s'.
  rewrite (lenient_forgives_only_undefined (sampleResolver false) _ _ _ eq_refl), Hs. reflexivity.
Defined.

Lemma provider_precedence_witness :
  hit_is (firstFound (fun p => lookupPrefixed p "FILE.d") 0 sampleProviders) ["file:demo"]
    (lookupValue true sampleProviders "FILE.d").
Proof.
  assert (Hnp : never_panics (fun p => lookupPrefixed p "FILE.d") sampleProviders).
  { repeat constructor; vm_compute; discriminate. }
  pose proof (provider_precedence true sampleProviders "FILE.d" Hnp) as H.
  assert (Hd : firstFound (fun p => lookupDirect p "FILE.d") 0 sampleProviders = None) by (vm_compute; reflexivity).
  assert (Hdot : hasDot "FILE.d" = true) by (vm_compute; reflexivity).
  assert (Ha : answering (fun p => lookupPrefixed p "FILE.d") sampleProviders = ["file:demo"]) by (vm_compute; reflexivity).
  rewrite Hd, Hdot, Ha in H. exact H.
Defined.

Lemma sample_by_key : by_key sampleProviders.
Proof. apply map_providers_by_key. repeat constructor; do 3 eexists; reflexivity. Qed.

Lemma sample_selects n vk :
  (match lookupValue false sampleProviders (TrimSpace n) with
   | Hit h => negb (Missing (val h)) && expandable h && bool_decide (key_of_hit h = vk) && bool_decide (TrimSpace n <> "")
   | _ => false
   end) = true -> selects sampleProviders n vk.
Proof.
  intros H. destruct (lookupValue false sampleProviders (TrimSpace n)) as [|h|] eqn:Hl;
    [discriminate H| |discriminate H].
  rewrite !andb_true_iff in H. destruct H as [[[Hm He] Hk] Hn].
  apply bool_decide_eq_true_1 in Hn. apply bool_decide_eq_true_1 in Hk. apply negb_true_iff in Hm.
  exact (ex_intro _ h (conj Hn (conj Hl (conj Hm (conj He Hk))))).
Qed.

Lemma sample_refers subj vk n vk' v :
  sampleProviders !! 1 = Some (NewTemplateProvider "file:demo" fileVars) ->
  NameKey subj = vk.2 -> vk.1 = 1 ->
  providerValue (NewTemplateProvider "file:demo" fileVars) subj = Some v ->
  bool_decide (n ∈ placeholders (CompileTemplate (Text v))) && negb (hasPrefix "=" n) = true ->
  selects sampleProviders n vk' -> refers sampleProviders vk vk'.
Proof.
  intros Hp Hk Hi Hv Hb Hsel. apply andb_true_iff in Hb as [Hin Hne].
  apply bool_decide_eq_true_1 in Hin. apply negb_true_iff in Hne. rewrite <- Hi in Hp.
  exact (ex_intro _ v (ex_intro _ n (conj (ex_intro _ _ (ex_intro _ subj
    (conj Hp (conj eq_refl (conj Hk Hv))))) (conj Hin (conj Hne Hsel))))).
Qed.

Lemma cyclic_variables_never_resolve_witness :
  tc (refers sampleProviders) (1, "a") (1, "a") /\
  forall m v s', resolve sampleProviders (render_at sampleProviders sampleExt maxExpandDepth) "A" m None fresh
    <> Some (Val (Some v), s').
Proof.
  assert (Htc : tc (refers sampleProviders) (1, "a") (1, "a")).
  { eapply (tc_l _ _ (1, "b")); [|apply tc_once].
    - apply (sample_refers "a" _ "B" _ (mkValue "1{{ B }}" false false)); try (vm_compute; reflexivity).
      apply sample_selects. vm_compute. reflexivity.
    - apply (sample_refers "b" _ "A" _ (mkValue "2{{A}}" false false)); try (vm_compute; reflexivity).
      apply sample_selects. vm_compute. reflexivity. }
  split; [exact Htc|]. intros m v s'.
  refine (proj2 (cyclic_variables_never_resolve sampleProviders sampleExt sample_by_key fresh (1, "a")
    (used_fresh _ _ _ _) Htc) "A" m v s' _).
  apply sample_selects. vm_compute. reflexivity.
Defined.

Lemma values_are_pinned_witness :
  exists s1, resolve sampleProviders (render_at sampleProviders sampleExt maxExpandDepth) "d" (mkMode (mkExprPos "" 0 0) true true) None fresh =
    Some (Val (Some "u0"), s1) /\
  forall v s2, resolve sampleProviders (render_at sampleProviders sampleExt maxExpandDepth) "file.D" (mkMode (mkExprPos "x" 1 1) true true) None s1 =
    Some (Val (Some v), s2) -> v = "u0".
Proof.
  destruct (resolve sampleProviders (render_at sampleProviders sampleExt maxExpandDepth) "d" (mkMode (mkExprPos "" 0 0) true true) None fresh)
    as [[[[v|]|e|] s1]|] eqn:Hr; try (vm_compute in Hr; discriminate Hr).
  assert (v = "u0") as -> by (vm_compute in Hr; by injection Hr as <- _).
  exists s1. split; [reflexivity|]. intros v s2 Hr2. symmetry.
  refine (values_are_pinned sampleProviders sampleExt sample_by_key fresh s1 s1 s2 "d" "file.D"
    (mkMode (mkExprPos "" 0 0) true true) (mkMode (mkExprPos "x" 1 1) true true) "u0" v (1, "d")
    (used_fresh _ _ _ _) _ _ eq_refl eq_refl Hr (later_refl _ _ _) Hr2);
    apply sample_selects; vm_compute; reflexivity.
Defined.
