(* ===== verification/MockNumber.v ===== *)
(** * Numbers in mock rules (src/internal/mock/number.go)

    Numbers in matchers and request bodies are compared as exact decimals: a
    numeral is brought to the form [0.digits * 10^exp], and two such forms are
    compared by sign, exponent and digits.  Exponents are int64, capped at
    10^18, so a numeral whose exponent has any number of digits costs nothing.
    [numeral_grammar] says which texts are numerals, and [number_order_exact]
    relates the comparison to the order of the decimals they denote. *)
From stdpp Require Import base list strings.
From Stdlib Require Import Ascii ZArith Lia.
From S2P Require Import Prelude GoStd.

Open Scope string_scope.
Open Scope nat_scope.
Open Scope list_scope.

(** Digits of a numeral, as bytes. *)
Definition isDigit (c : ascii) : bool := let n := byte_val c in (48 <=? n)%N && (n <=? 57)%N.
Definition digit (c : ascii) : Z := (Z.of_N (byte_val c) - 48)%Z.
Definition ZERO : ascii := byte_of 48.

(** [exponent]: an int64. *)
Definition expLimit : Z := (10 ^ 18)%Z.

Record number := mkNumber { neg : bool; digits : list ascii; exp : Z }.

Definition finite (e : Z) : bool := (- expLimit <? e)%Z && (e <? expLimit)%Z.

Definition shift (e : Z) (n : nat) (lead : nat) : Z :=
  Z.min (Z.max (e + (Z.of_nat n - Z.of_nat lead)) (- expLimit)) expLimit.

Fixpoint cutDigits (s : list ascii) : list ascii * list ascii :=
  match s with
  | [] => ([], [])
  | c :: s' => if isDigit c then let '(d, r) := cutDigits s' in (c :: d, r) else ([], s)
  end.

(** [strings.TrimLeft(s, "0")] and [strings.TrimRight(s, "0")] *)
Fixpoint trimLeft0 (s : list ascii) : list ascii :=
  match s with
  | [] => []
  | c :: s' => if bool_decide (c = ZERO) then trimLeft0 s' else s
  end.

Definition trimRight0 (s : list ascii) : list ascii := rev (trimLeft0 (rev s)).

Definition scanMax : Z := (4 * expLimit)%Z.

(** The loop that reads the exponent's digits, until it is beyond the cap. *)
Fixpoint scanExp (e : Z) (ds : list ascii) : Z :=
  match ds with
  | [] => e
  | c :: ds' => if (scanMax / 10 <? e)%Z then scanMax else scanExp (e * 10 + digit c) ds'
  end.

Definition isSign (c : ascii) : bool := bool_decide (c = "-"%char) || bool_decide (c = "+"%char).

Definition parseExponent (s : list ascii) : option Z :=
  match s with
  | [] => Some 0%Z
  | c :: s =>
      if bool_decide (c = "e"%char) || bool_decide (c = "E"%char) then
        let '(n, s) :=
          match s with
          | c' :: s' => if isSign c' then (bool_decide (c' = "-"%char), s') else (false, s)
          | [] => (false, s)
          end in
        let '(ds, rest) := cutDigits s in
        match ds, rest with
        | _ :: _, [] =>
            let e := Z.min (scanExp 0 (trimLeft0 ds)) scanMax in
            Some (if n then - e else e)%Z
        | _, _ => None
        end
      else None
  end.

Definition parseNumber (s : list ascii) : option number :=
  let '(n, s) :=
    match s with
    | c :: s' => if isSign c then (bool_decide (c = "-"%char), s') else (false, s)
    | [] => (false, s)
    end in
  let '(whole, s) := cutDigits s in
  match whole with
  | [] => None
  | _ :: _ =>
      let fraction :=
        match s with
        | "."%char :: rest =>
            let '(frac, s') := cutDigits rest in
            match frac with [] => None | _ => Some (frac, s') end
        | _ => Some ([], s)
        end in
      match fraction with
      | None => None
      | Some (frac, s) =>
          match parseExponent s with
          | None => None
          | Some e =>
              let ds := whole ++ frac in
              let lead := length ds - length (trimLeft0 ds) in
              let ds := trimRight0 (drop lead ds) in
              match ds with
              | [] => Some (mkNumber false [] 0)
              | _ => Some (mkNumber n ds (shift e (length whole) lead))
              end
          end
      end
  end.

(** [strings.Compare] *)
Fixpoint compareBytes (a b : list ascii) : comparison :=
  match a, b with
  | [], [] => Eq
  | [], _ => Lt
  | _, [] => Gt
  | x :: a', y :: b' =>
      match N.compare (byte_val x) (byte_val y) with
      | Eq => compareBytes a' b'
      | c => c
      end
  end.

Definition cmp (n o : number) : comparison :=
  if negb (Bool.eqb (neg n) (neg o)) then (if neg n then Lt else Gt)
  else match digits n, digits o with
  | [], [] => Eq
  | [], _ => Lt
  | _, [] => Gt
  | _, _ =>
      let c := Z.compare (exp n) (exp o) in
      let c :=
        match c with
        | Eq => if finite (exp n) then compareBytes (digits n) (digits o) else Eq
        | _ => c
        end in
      if neg n then CompOpp c else c
  end.

(** [relGT] and its siblings. *)
Inductive numberRelation := relGT | relGTE | relLT | relLTE.

Definition holds (rel : numberRelation) (c : comparison) : bool :=
  match rel, c with
  | relGT, Gt | relGTE, (Gt | Eq) | relLT, Lt | relLTE, (Lt | Eq) => true
  | _, _ => false
  end.

Definition equalJSONNumbers (want got : string) : bool :=
  if decide (want = got) then true
  else match parseNumber (bytes want), parseNumber (bytes got) with
       | Some x, Some y => bool_decide (cmp x y = Eq)
       | _, _ => false
       end.

Example parse_examples :
  (fun s => (fun n => (neg n, str (digits n), exp n)) <$> parseNumber (bytes s)) <$>
    ["0"; "-0.0e9"; "120"; "0.0012"; "-1.5E+3"; "1e99999999999999999999"; "1."; ".5"; "1e"; "01"; "+7"]
  = [Some (false, "", 0%Z); Some (false, "", 0%Z); Some (false, "12", 3%Z); Some (false, "12", (-2)%Z);
     Some (true, "15", 4%Z); Some (false, "1", (10 ^ 18)%Z); None; None; None; Some (false, "1", 1%Z);
     Some (false, "7", 1%Z)].
Proof. vm_compute. reflexivity. Qed.

(** ** The value of a numeral *)

(** The number a digit string denotes. *)
Definition dvalue (ds : list ascii) : Z := foldl (fun n c => (n * 10 + digit c)%Z) 0%Z ds.

(** A decimal [m * 10^k]. *)
Record decimal := mkDec { mant : Z; scale : Z }.

(** The order of two decimals: both at the smaller scale. *)
Definition dcompare (a b : decimal) : comparison :=
  let k := Z.min (scale a) (scale b) in
  Z.compare (mant a * 10 ^ (scale a - k))%Z (mant b * 10 ^ (scale b - k))%Z.

(** The value of [0.digits * 10^exp]. *)
Definition denotes (n : number) : decimal :=
  mkDec (if neg n then - dvalue (digits n) else dvalue (digits n))%Z
    (exp n - Z.of_nat (length (digits n))).

(** The parser's normal form. *)
Record normal (n : number) : Prop := {
  nm_digits : Forall (fun c => isDigit c = true) (digits n);
  nm_zero : digits n = [] -> neg n = false;
  nm_first : head (digits n) <> Some ZERO;
  nm_last : last (digits n) <> Some ZERO
}.

(** ** Digit strings *)

Definition all_digits (ds : list ascii) : Prop := Forall (fun c => isDigit c = true) ds.

Lemma digit_range c : isDigit c = true -> (0 <= digit c <= 9)%Z.
Proof.
  unfold isDigit, digit. rewrite andb_true_iff, !N.leb_le. lia.
Qed.

Lemma digit_zero c : isDigit c = true -> digit c = 0%Z -> c = ZERO.
Proof.
  unfold isDigit, digit, ZERO. rewrite andb_true_iff, !N.leb_le. intros [H1 H2] H0.
  assert (Hv : byte_val c = 48%N) by lia. unfold byte_val, byte_of in *.
  by rewrite <- (ascii_N_embedding c), Hv.
Qed.

Lemma dvalue_from z ds :
  foldl (fun n c => (n * 10 + digit c)%Z) z ds = (z * 10 ^ Z.of_nat (length ds) + dvalue ds)%Z.
Proof.
  unfold dvalue. revert z. induction ds as [|c ds IH]; intros z; [simpl; lia|].
  cbn [foldl length]. rewrite IH, (IH (0 * 10 + digit c)%Z), Nat2Z.inj_succ, Z.pow_succ_r by lia. lia.
Qed.

Lemma dvalue_cons c ds : dvalue (c :: ds) = (digit c * 10 ^ Z.of_nat (length ds) + dvalue ds)%Z.
Proof. unfold dvalue at 1. cbn [foldl]. rewrite dvalue_from. lia. Qed.

Lemma dvalue_app a b : dvalue (a ++ b) = (dvalue a * 10 ^ Z.of_nat (length b) + dvalue b)%Z.
Proof. unfold dvalue at 1. rewrite foldl_app. apply dvalue_from. Qed.

Lemma pow10_pos n : (0 < 10 ^ Z.of_nat n)%Z.
Proof. apply Z.pow_pos_nonneg; lia. Qed.

Lemma dvalue_range ds : all_digits ds -> (0 <= dvalue ds < 10 ^ Z.of_nat (length ds))%Z.
Proof.
  induction 1 as [|c ds Hc Hds IH]; [done|].
  rewrite dvalue_cons. cbn [length]. rewrite Nat2Z.inj_succ, Z.pow_succ_r by lia.
  pose proof (digit_range _ Hc). pose proof (pow10_pos (length ds)). nia.
Qed.

Lemma dvalue_pos ds : all_digits ds -> ds <> [] -> last ds <> Some ZERO -> (0 < dvalue ds)%Z.
Proof.
  intros Hds Hne Hl. destruct (last ds) as [c|] eqn:Hc; [|by apply last_None in Hc].
  apply last_Some in Hc as [ds' ->]. apply Forall_app in Hds as [Hds' Hc'].
  apply Forall_cons in Hc' as [Hc' _].
  rewrite dvalue_app. simpl. pose proof (dvalue_range _ Hds').
  assert (Hd : dvalue [c] = digit c) by (unfold dvalue; simpl; lia). rewrite Hd.
  pose proof (digit_range _ Hc'). assert (digit c <> 0%Z); [|lia].
  intros Hz. apply Hl. by rewrite (digit_zero _ Hc' Hz).
Qed.

(** The byte order of digit strings without trailing zeros is the order of the
    fractions they denote. *)
Lemma compareBytes_spec a b :
  all_digits a -> all_digits b -> last a <> Some ZERO -> last b <> Some ZERO ->
  compareBytes a b =
    Z.compare (dvalue a * 10 ^ Z.of_nat (length b))%Z (dvalue b * 10 ^ Z.of_nat (length a))%Z.
Proof.
  revert b. induction a as [|x a IH]; intros b Ha Hb Hla Hlb.
  - destruct b as [|y b]; [done|]. symmetry. apply Z.compare_lt_iff.
    pose proof (dvalue_pos _ Hb ltac:(done) Hlb). change (dvalue []) with 0%Z. cbn [length]. change (10 ^ Z.of_nat 0)%Z with 1%Z. lia.
  - destruct b as [|y b].
    { symmetry. apply Z.compare_gt_iff. pose proof (dvalue_pos _ Ha ltac:(done) Hla). change (dvalue []) with 0%Z. cbn [length]. change (10 ^ Z.of_nat 0)%Z with 1%Z. lia. }
    apply Forall_cons in Ha as [Hx Ha]. apply Forall_cons in Hb as [Hy Hb].
    cbn [compareBytes]. rewrite !dvalue_cons. cbn [length].
    rewrite !Nat2Z.inj_succ, !Z.pow_succ_r by lia.
    pose proof (dvalue_range _ Ha) as Ra. pose proof (dvalue_range _ Hb) as Rb.
    pose proof (pow10_pos (length a)) as Pa. pose proof (pow10_pos (length b)) as Pb.
    set (A := (10 ^ Z.of_nat (length a))%Z) in *. set (B := (10 ^ Z.of_nat (length b))%Z) in *.
    assert (Hxy : N.compare (byte_val x) (byte_val y) = Z.compare (digit x) (digit y)).
    { unfold digit. rewrite <- N2Z.inj_compare.
      destruct (Z.compare_spec (Z.of_N (byte_val x)) (Z.of_N (byte_val y))); symmetry;
        [apply Z.compare_eq_iff|apply Z.compare_lt_iff|apply Z.compare_gt_iff]; lia. }
    rewrite Hxy. destruct (Z.compare_spec (digit x) (digit y)) as [Heq|Hlt|Hgt].
    + rewrite IH; [|done|done| |].
      * rewrite Heq. fold A B.
        destruct (Z.compare_spec (dvalue a * B) (dvalue b * A)); symmetry;
          [apply Z.compare_eq_iff|apply Z.compare_lt_iff|apply Z.compare_gt_iff]; nia.
      * intros Hz. apply Hla. by destruct a.
      * intros Hz. apply Hlb. by destruct b.
    + symmetry. apply Z.compare_lt_iff. assert ((digit x + 1) * (A * B) <= digit y * (A * B))%Z by nia. nia.
    + symmetry. apply Z.compare_gt_iff. assert ((digit y + 1) * (A * B) <= digit x * (A * B))%Z by nia. nia.
Qed.

(** ** Decimals at a common scale *)

Definition at_scale (k : Z) (d : decimal) : Z := (mant d * 10 ^ (scale d - k))%Z.

Lemma dcompare_at k a b :
  (k <= scale a)%Z -> (k <= scale b)%Z -> dcompare a b = Z.compare (at_scale k a) (at_scale k b).
Proof.
  intros Ha Hb. unfold dcompare, at_scale. set (m := Z.min (scale a) (scale b)).
  assert (Hs : forall d, (m <= scale d)%Z ->
    (mant d * 10 ^ (scale d - k) = mant d * 10 ^ (scale d - m) * 10 ^ (m - k))%Z).
  { intros d Hd. rewrite <- Z.mul_assoc, <- Z.pow_add_r by lia. do 2 f_equal. lia. }
  rewrite (Hs a), (Hs b) by lia. apply Zmult_compare_compat_r.
  apply Z.lt_gt, Z.pow_pos_nonneg; lia.
Qed.

(** Two decimals of the same value. *)
Definition same_value (a b : decimal) : Prop := dcompare a b = Eq.

Lemma same_value_compare a a' b b' :
  same_value a a' -> same_value b b' -> dcompare a b = dcompare a' b'.
Proof.
  unfold same_value. set (k := Z.min (Z.min (scale a) (scale a')) (Z.min (scale b) (scale b'))).
  rewrite (dcompare_at k a a'), (dcompare_at k b b'), (dcompare_at k a b), (dcompare_at k a' b') by lia.
  rewrite !Z.compare_eq_iff. by intros -> ->.
Qed.

(** ** The order of numbers in normal form *)

Lemma first_digit_bound ds :
  all_digits ds -> ds <> [] -> head ds <> Some ZERO ->
  (10 ^ (Z.of_nat (length ds) - 1) <= dvalue ds)%Z.
Proof.
  intros Hds Hne Hh. destruct ds as [|c ds]; [done|]. apply Forall_cons in Hds as [Hc Hds].
  rewrite dvalue_cons. cbn [length]. replace (Z.of_nat (S (length ds)) - 1)%Z with (Z.of_nat (length ds)) by lia.
  pose proof (digit_range _ Hc). pose proof (dvalue_range _ Hds). pose proof (pow10_pos (length ds)).
  assert (digit c <> 0%Z); [|nia]. intros Hz. apply Hh. simpl. by rewrite (digit_zero _ Hc Hz).
Qed.

(** Positive values with different exponents: the exponent decides. *)
Lemma exponent_decides d1 d2 e1 e2 :
  all_digits d1 -> all_digits d2 -> d2 <> [] -> head d2 <> Some ZERO -> (e1 < e2)%Z ->
  forall k, (k <= e1 - Z.of_nat (length d1))%Z -> (k <= e2 - Z.of_nat (length d2))%Z ->
  (dvalue d1 * 10 ^ (e1 - Z.of_nat (length d1) - k) < dvalue d2 * 10 ^ (e2 - Z.of_nat (length d2) - k))%Z.
Proof.
  intros H1 H2 Hne Hh He k Hk1 Hk2.
  pose proof (dvalue_range _ H1) as [_ Hlt]. pose proof (first_digit_bound _ H2 Hne Hh) as Hge.
  apply Z.lt_le_trans with (10 ^ (e1 - k))%Z.
  - replace (e1 - k)%Z with (Z.of_nat (length d1) + (e1 - Z.of_nat (length d1) - k))%Z by lia.
    rewrite Z.pow_add_r by lia. apply Zmult_lt_compat_r; [|done]. apply Z.pow_pos_nonneg; lia.
  - apply Z.le_trans with (10 ^ (e2 - 1 - k))%Z; [apply Z.pow_le_mono_r; lia|].
    assert (Hl : (1 <= Z.of_nat (length d2))%Z) by (destruct d2; [done|simpl; lia]).
    replace (e2 - 1 - k)%Z with ((Z.of_nat (length d2) - 1) + (e2 - Z.of_nat (length d2) - k))%Z by lia.
    rewrite Z.pow_add_r by lia. apply Zmult_le_compat_r; [done|]. apply Z.lt_le_incl, Z.pow_pos_nonneg; lia.
Qed.

(** The comparison of two positive normal forms. *)
Lemma magnitude_exact n o :
  normal n -> normal o -> digits n <> [] -> digits o <> [] ->
  (exp n = exp o -> finite (exp n) = true) ->
  match Z.compare (exp n) (exp o) with
  | Eq => if finite (exp n) then compareBytes (digits n) (digits o) else Eq
  | _ => Z.compare (exp n) (exp o)
  end =
  dcompare (mkDec (dvalue (digits n)) (exp n - Z.of_nat (length (digits n))))
           (mkDec (dvalue (digits o)) (exp o - Z.of_nat (length (digits o)))).
Proof.
  intros [Dn _ Fn Ln] [Do _ Fo Lo] Hn Ho Hfin.
  set (k := Z.min (exp n - Z.of_nat (length (digits n))) (exp o - Z.of_nat (length (digits o)))).
  rewrite (dcompare_at k) by (simpl; lia). unfold at_scale; simpl.
  destruct (Z.compare_spec (exp n) (exp o)) as [He|He|He].
  - rewrite (Hfin He), compareBytes_spec by done.
    set (j := (exp n - Z.of_nat (length (digits n)) - Z.of_nat (length (digits o)))%Z).
    assert (H1 : dcompare (mkDec (dvalue (digits n)) (exp n - Z.of_nat (length (digits n))))
                          (mkDec (dvalue (digits o)) (exp o - Z.of_nat (length (digits o)))) =
      Z.compare (dvalue (digits n) * 10 ^ Z.of_nat (length (digits o)))
                (dvalue (digits o) * 10 ^ Z.of_nat (length (digits n)))).
    { rewrite (dcompare_at j) by (simpl; lia). unfold at_scale; simpl. f_equal; f_equal; f_equal; lia. }
    rewrite <- H1, (dcompare_at k) by (simpl; lia). done.
  - symmetry. apply Z.compare_lt_iff. apply exponent_decides; [done..|lia|lia].
  - symmetry. apply Z.compare_gt_iff. apply exponent_decides; [done..|lia|lia|lia].
Qed.

Lemma dcompare_opp m1 m2 k1 k2 :
  dcompare (mkDec (- m1) k1) (mkDec (- m2) k2) = CompOpp (dcompare (mkDec m1 k1) (mkDec m2 k2)).
Proof.
  unfold dcompare; simpl. rewrite !Z.mul_opp_l.
  rewrite <- Z.compare_antisym, Z.compare_opp. done.
Qed.

Lemma denotes_sign n : normal n -> digits n <> [] ->
  (0 < dvalue (digits n))%Z /\ mant (denotes n) = (if neg n then - dvalue (digits n) else dvalue (digits n))%Z.
Proof. intros [Dn _ Fn Ln] Hne. split; [by apply dvalue_pos|done]. Qed.

(** Comparison with a decimal of known sign. *)
Lemma dcompare_signs a b :
  (mant a < 0 -> 0 <= mant b -> dcompare a b = Lt)%Z /\
  (mant a <= 0 -> 0 < mant b -> dcompare a b = Lt)%Z /\
  (0 <= mant a -> mant b < 0 -> dcompare a b = Gt)%Z /\
  (0 < mant a -> mant b <= 0 -> dcompare a b = Gt)%Z /\
  (mant a = 0 -> mant b = 0 -> dcompare a b = Eq)%Z.
Proof.
  unfold dcompare. set (k := Z.min (scale a) (scale b)).
  assert (Ha : (0 < 10 ^ (scale a - k))%Z) by (apply Z.pow_pos_nonneg; lia).
  assert (Hb : (0 < 10 ^ (scale b - k))%Z) by (apply Z.pow_pos_nonneg; lia).
  split_and!; intros H1 H2;
    [apply Z.compare_lt_iff|apply Z.compare_lt_iff|apply Z.compare_gt_iff|apply Z.compare_gt_iff|apply Z.compare_eq_iff];
    nia.
Qed.

(** The exponents matter only through their order, and through finiteness when
    they are equal. *)
Lemma cmp_exact n o :
  normal n -> normal o -> (exp n = exp o -> finite (exp n) = true) ->
  cmp n o = dcompare (denotes n) (denotes o).
Proof.
  intros Hn Ho Hfn. unfold cmp.
  destruct (dcompare_signs (denotes n) (denotes o)) as (S1 & S2 & S3 & S4 & S5).
  destruct (digits n) as [|cn dn] eqn:Edn.
  - pose proof (nm_zero _ Hn Edn) as Zn. unfold denotes in S1, S2, S3, S4, S5 |- *. rewrite Zn, Edn in *. simpl in *.
    destruct (digits o) as [|co do_] eqn:Edo.
    + rewrite (nm_zero _ Ho Edo) in *. simpl in *. by rewrite S5.
    + destruct (denotes_sign o Ho) as [Hp _]; [by rewrite Edo|]. rewrite Edo in Hp.
      destruct (neg o); simpl in *; [rewrite S3; [done|done|lia]|by rewrite S2].
  - destruct (denotes_sign n Hn) as [Hpn _]; [by rewrite Edn|].
    destruct (digits o) as [|co do_] eqn:Edo.
    + unfold denotes in S1, S2, S3, S4, S5 |- *. rewrite (nm_zero _ Ho Edo), Edo, Edn in *. simpl in *.
      destruct (neg n); simpl in *; [rewrite S1; [done|lia|done]|by rewrite S4].
    + destruct (denotes_sign o Ho) as [Hpo _]; [by rewrite Edo|].
      pose proof (magnitude_exact n o Hn Ho ltac:(by rewrite Edn) ltac:(by rewrite Edo) Hfn) as Hm.
      rewrite Edn, Edo in Hm. rewrite Edn in Hpn. rewrite Edo in Hpo.
      unfold denotes in S1, S2, S3, S4, S5 |- *. rewrite Edn, Edo in *.
      destruct (neg n), (neg o); simpl negb; cbv iota.
      * etransitivity; [exact (f_equal CompOpp Hm)|]. symmetry. apply dcompare_opp.
      * cbn [mant] in *. rewrite S1; [done|lia|lia].
      * cbn [mant] in *. rewrite S3; [done|lia|lia].
      * exact Hm.
Qed.

(** ** The grammar of numerals *)

(** A numeral and its parts: sign, whole digits, fraction, and exponent with its
    letter and sign. *)
Record numeral := mkNumeral {
  sgn : option ascii;
  whole : list ascii;
  fraction : option (list ascii);
  expo : option (ascii * option ascii * list ascii)
}.

Definition sign_wf (o : option ascii) : Prop := from_option (fun c => isSign c = true) True o.
Definition digits_wf (ds : list ascii) : Prop := all_digits ds /\ ds <> [].

Definition numeral_wf (p : numeral) : Prop :=
  sign_wf (sgn p) /\ digits_wf (whole p) /\ from_option digits_wf True (fraction p) /\
  from_option (fun '(l, s, ds) =>
    (l = "e"%char \/ l = "E"%char) /\ sign_wf s /\ digits_wf ds) True (expo p).

Definition render_sign (o : option ascii) : list ascii := from_option (fun c => [c]) [] o.

Definition render_expo (o : option (ascii * option ascii * list ascii)) : list ascii :=
  from_option (fun '(l, s, ds) => l :: render_sign s ++ ds) [] o.

Definition render (p : numeral) : list ascii :=
  render_sign (sgn p) ++ whole p ++
  from_option (fun f => "."%char :: f) [] (fraction p) ++ render_expo (expo p).

Definition negative (o : option ascii) : bool := bool_decide (o = Some "-"%char).

(** The exponent that is written, of any size. *)
Definition exponent_of (o : option (ascii * option ascii * list ascii)) : Z :=
  from_option (fun '(_, s, ds) => if negative s then - dvalue ds else dvalue ds)%Z 0%Z o.

(** The decimal a numeral denotes. *)
Definition value (p : numeral) : decimal :=
  let f := default [] (fraction p) in
  let m := dvalue (whole p ++ f) in
  mkDec (if negative (sgn p) then - m else m)%Z (exponent_of (expo p) - Z.of_nat (length f)).

(** ** Cutting *)

Definition stops (r : list ascii) : Prop := from_option (fun c => isDigit c = false) True (head r).

Lemma cutDigits_app ds r : all_digits ds -> stops r -> cutDigits (ds ++ r) = (ds, r).
Proof.
  intros Hds Hr. induction Hds as [|c ds Hc Hds IH].
  - destruct r as [|c r]; [done|]. unfold stops in Hr. cbn in Hr. cbn [app cutDigits]. by rewrite Hr.
  - cbn [app cutDigits]. by rewrite Hc, IH.
Qed.

Lemma cutDigits_spec s d r : cutDigits s = (d, r) -> s = d ++ r /\ all_digits d /\ stops r.
Proof.
  revert d r. induction s as [|c s IH]; intros d r; cbn [cutDigits].
  - intros [= <- <-]. by repeat constructor.
  - destruct (isDigit c) eqn:Hc.
    + destruct (cutDigits s) as [d' r'] eqn:E. intros [= <- <-].
      destruct (IH d' r' eq_refl) as (-> & Hd & Hr). split_and!; [done|by constructor|done].
    + intros [= <- <-]. split_and!; [done|constructor|exact Hc].
Qed.

Lemma isSign_cases c : isSign c = true -> c = "-"%char \/ c = "+"%char.
Proof. unfold isSign. rewrite orb_true_iff, !bool_decide_eq_true. done. Qed.

Lemma digit_not_sign c : isDigit c = true -> isSign c = false.
Proof.
  intros Hc. destruct (isSign c) eqn:Hs; [|done]. by destruct (isSign_cases _ Hs) as [-> | ->].
Qed.

(** The optional sign, as both parsers read it. *)
Lemma sign_cut o ds r :
  sign_wf o -> digits_wf ds ->
  match render_sign o ++ ds ++ r with
  | c :: s' => if isSign c then (bool_decide (c = "-"%char), s') else (false, render_sign o ++ ds ++ r)
  | [] => (false, render_sign o ++ ds ++ r)
  end = (negative o, ds ++ r).
Proof.
  intros Ho [Hds Hne]. destruct o as [c|]; simpl in *.
  - rewrite Ho. f_equal. unfold negative. apply bool_decide_ext. split; [by intros ->|by intros [= ->]].
  - destruct ds as [|c ds]; [done|]. apply Forall_cons in Hds as [Hc _]. simpl.
    by rewrite (digit_not_sign _ Hc).
Qed.

Lemma sign_cut_inv s n r :
  match s with
  | c :: s' => if isSign c then (bool_decide (c = "-"%char), s') else (false, s)
  | [] => (false, s)
  end = (n, r) ->
  exists o, sign_wf o /\ s = render_sign o ++ r.
Proof.
  destruct s as [|c s]; [intros [= <- <-]; by exists None|].
  destruct (isSign c) eqn:Hc; intros [= <- <-]; [by exists (Some c)|by exists None].
Qed.

(** ** Trimming zeros *)

Lemma trimLeft0_spec ds :
  exists k, ds = replicate k ZERO ++ trimLeft0 ds /\ head (trimLeft0 ds) <> Some ZERO.
Proof.
  induction ds as [|c ds IH]; [by exists 0|]. cbn [trimLeft0]. case_bool_decide as Hc.
  - destruct IH as (k & Hk & Hh). exists (S k). split; [|done]. subst c. simpl. by f_equal.
  - exists 0. split; [done|]. simpl. congruence.
Qed.

Lemma rev_is_reverse {A} (l : list A) : rev l = reverse l.
Proof. apply List.rev_alt. Qed.

Lemma trimRight0_spec ds :
  exists k, ds = trimRight0 ds ++ replicate k ZERO /\ last (trimRight0 ds) <> Some ZERO.
Proof.
  unfold trimRight0. destruct (trimLeft0_spec (rev ds)) as (k & Hk & Hh). exists k. split.
  - apply (f_equal (@rev _)) in Hk. rewrite rev_involutive, rev_app_distr in Hk.
    rewrite Hk at 1. f_equal. rewrite rev_is_reverse. apply reverse_replicate.
  - by rewrite rev_is_reverse, last_reverse.
Qed.

Lemma dvalue_zeros k : dvalue (replicate k ZERO) = 0%Z.
Proof. induction k as [|k IH]; [done|]. cbn [replicate]. rewrite dvalue_cons, IH. done. Qed.

Lemma dvalue_trimLeft ds : dvalue (trimLeft0 ds) = dvalue ds.
Proof.
  destruct (trimLeft0_spec ds) as (k & Hk & _). rewrite Hk at 2. rewrite dvalue_app, dvalue_zeros. lia.
Qed.

Lemma trimLeft0_digits ds : all_digits ds -> all_digits (trimLeft0 ds).
Proof.
  destruct (trimLeft0_spec ds) as (k & Hk & _). unfold all_digits. rewrite Hk at 1. rewrite Forall_app. tauto.
Qed.

(** What the parser keeps of the digits. *)
Lemma trim_spec ds :
  let lead := length ds - length (trimLeft0 ds) in
  let m := trimRight0 (drop lead ds) in
  exists k, length ds = lead + length m + k /\ dvalue ds = (dvalue m * 10 ^ Z.of_nat k)%Z /\
    head m <> Some ZERO /\ last m <> Some ZERO /\ (all_digits ds -> all_digits m).
Proof.
  intros lead m. destruct (trimLeft0_spec ds) as (j & Hj & Hh).
  assert (Hlead : lead = j).
  { subst lead. rewrite Hj at 1. rewrite length_app, length_replicate. lia. }
  assert (Hm : m = trimRight0 (trimLeft0 ds)).
  { subst m. rewrite Hlead. rewrite Hj at 1. rewrite drop_app_length'; [done|by rewrite length_replicate]. }
  destruct (trimRight0_spec (trimLeft0 ds)) as (k & Hk & Hl). rewrite <- Hm in Hk, Hl.
  exists k. split_and!.
  - rewrite Hlead. rewrite Hj at 1. rewrite Hk at 1. rewrite !length_app, !length_replicate. lia.
  - rewrite <- dvalue_trimLeft, Hk, dvalue_app, dvalue_zeros, length_replicate. lia.
  - intros Hz. apply Hh. rewrite Hk. by destruct m.
  - done.
  - intros Hd%trimLeft0_digits. rewrite Hk in Hd. by apply Forall_app in Hd as [? _].
Qed.

(** ** The exponent *)

Lemma dvalue_from_mono e ds : all_digits ds -> (0 <= e)%Z ->
  (e <= foldl (fun n c => (n * 10 + digit c)%Z) e ds)%Z.
Proof.
  intros Hds He. rewrite dvalue_from. pose proof (dvalue_range _ Hds). pose proof (pow10_pos (length ds)). nia.
Qed.

Lemma scanExp_spec e ds : all_digits ds -> (0 <= e)%Z ->
  Z.min (scanExp e ds) scanMax = Z.min (foldl (fun n c => (n * 10 + digit c)%Z) e ds) scanMax.
Proof.
  intros Hds. revert e. induction Hds as [|c ds Hc Hds IH]; intros e He; [done|].
  cbn [scanExp foldl]. pose proof (digit_range _ Hc).
  destruct (scanMax / 10 <? e)%Z eqn:Hm.
  - apply Z.ltb_lt in Hm. change (scanMax / 10)%Z with (4 * 10 ^ 17)%Z in Hm.
    pose proof (dvalue_from_mono (e * 10 + digit c) ds Hds). unfold scanMax, expLimit in *. lia.
  - apply IH. lia.
Qed.

Definition expo_wf (o : option (ascii * option ascii * list ascii)) : Prop :=
  from_option (fun '(l, s, ds) =>
    (l = "e"%char \/ l = "E"%char) /\ sign_wf s /\ digits_wf ds) True o.

Definition cap (limit e : Z) : Z := Z.min (Z.max e (- limit)) limit.

Lemma parseExponent_render o :
  expo_wf o -> parseExponent (render_expo o) = Some (cap scanMax (exponent_of o)).
Proof.
  destruct o as [[[l s] ds]|]; [|done]. intros (Hl & Hs & Hds). cbn [render_expo from_option].
  unfold parseExponent. replace (bool_decide (l = "e"%char) || bool_decide (l = "E"%char)) with true
    by (by destruct Hl as [-> | ->]).
  pose proof (sign_cut s ds [] Hs Hds) as E. rewrite app_nil_r in E. rewrite E. clear E.
  destruct Hds as [Hds Hne]. pose proof (cutDigits_app ds [] Hds I) as E. rewrite app_nil_r in E. rewrite E.
  cbv iota. destruct ds as [|c ds']; [done|]. remember (c :: ds') as ds eqn:Eds. f_equal.
  rewrite scanExp_spec by (try apply trimLeft0_digits; done || lia).
  change (foldl _ 0%Z (trimLeft0 ds)) with (dvalue (trimLeft0 ds)). rewrite dvalue_trimLeft.
  cbn [exponent_of from_option]. pose proof (dvalue_range _ Hds). unfold cap, scanMax, expLimit.
  destruct (negative s); lia.
Qed.

Lemma parseExponent_inv s e : parseExponent s = Some e -> exists o, expo_wf o /\ s = render_expo o.
Proof.
  destruct s as [|l s]; [by exists None|]. cbn [parseExponent].
  destruct (bool_decide (l = "e"%char) || bool_decide (l = "E"%char)) eqn:Hl; [|done].
  rewrite orb_true_iff, !bool_decide_eq_true in Hl.
  destruct (match s with [] => _ | _ => _ end) as [n r] eqn:Es. apply sign_cut_inv in Es as (o & Ho & ->).
  destruct (cutDigits r) as [ds rest] eqn:Ec. apply cutDigits_spec in Ec as (-> & Hds & _).
  destruct ds as [|c ds]; [done|]. destruct rest; [|done]. intros _.
  exists (Some (l, o, c :: ds)). by rewrite app_nil_r.
Qed.

(** ** The parser *)

Lemma render_expo_stops o : expo_wf o -> stops (render_expo o).
Proof. destruct o as [[[l s] ds]|]; [|done]. intros ([-> | ->] & _); done. Qed.

(** What [parseNumber] builds from the parts. *)
Definition number_of (p : numeral) : number :=
  let ds := whole p ++ default [] (fraction p) in
  let lead := length ds - length (trimLeft0 ds) in
  let m := trimRight0 (drop lead ds) in
  if decide (m = []) then mkNumber false [] 0
  else mkNumber (negative (sgn p)) m
         (shift (cap scanMax (exponent_of (expo p))) (length (whole p)) lead).

Lemma parseNumber_render p : numeral_wf p -> parseNumber (render p) = Some (number_of p).
Proof.
  destruct p as [sg w f e]. intros (Hs & Hw & Hf & He). unfold parseNumber, render, number_of; cbn [sgn whole fraction expo] in *.
  rewrite sign_cut by done. destruct Hw as [Hw Hne].
  rewrite cutDigits_app; [|done|].
  2:{ destruct f; [done|]. by apply render_expo_stops. }
  destruct w as [|c w]; [done|]. remember (c :: w) as w' eqn:Ew. cbv zeta.
  assert (Hfin : forall ds, let lead := length ds - length (trimLeft0 ds) in
    match trimRight0 (drop lead ds) with
    | [] => Some (mkNumber false [] 0)
    | _ => Some (mkNumber (negative sg) (trimRight0 (drop lead ds))
             (shift (cap scanMax (exponent_of e)) (length w') lead))
    end = Some (if decide (trimRight0 (drop lead ds) = []) then mkNumber false [] 0
                else mkNumber (negative sg) (trimRight0 (drop lead ds))
                  (shift (cap scanMax (exponent_of e)) (length w') lead))).
  { intros ds lead. destruct (trimRight0 _); [done|]. by rewrite decide_False. }
  destruct f as [f|]; cbn [from_option app default]; unfold id.
  - destruct Hf as [Hf Hfne]. rewrite cutDigits_app by (try apply render_expo_stops; done).
    destruct f as [|d f]; [done|]. rewrite parseExponent_render by done. apply Hfin.
  - rewrite app_nil_r. pose proof (parseExponent_render e He) as Ep. rewrite <- Hfin. clear Hfin.
    destruct e as [[[l s] ds]|]; [destruct He as ([-> | ->] & _)|];
      cbn [render_expo from_option] in *; by rewrite Ep, ?app_nil_r.
Qed.

Lemma parseNumber_inv s n : parseNumber s = Some n -> exists p, numeral_wf p /\ s = render p.
Proof.
  unfold parseNumber. destruct (match s with [] => _ | _ => _ end) as [ng r] eqn:Es.
  apply sign_cut_inv in Es as (o & Ho & ->).
  destruct (cutDigits r) as [w r1] eqn:Ew. apply cutDigits_spec in Ew as (-> & Hw & _).
  destruct w as [|c w]; [done|].
  set (fr := match r1 with "."%char :: _ => _ | _ => _ end). intros H.
  assert (Hr : exists f r2, fr = Some (default [] f, r2) /\ from_option digits_wf True f /\
    r1 = from_option (fun f => "."%char :: f) [] f ++ r2).
  { subst fr. destruct (decide (head r1 = Some "."%char)) as [Hd|Hd].
    - destruct r1 as [|d r1]; [done|]. injection Hd as ->. cbv iota in *.
      destruct (cutDigits r1) as [f r2] eqn:Ef. apply cutDigits_spec in Ef as (-> & Hf & _).
      destruct f as [|d f]; [done|]. by exists (Some (d :: f)), r2.
    - exists None, r1. split_and!; [|done|done].
      destruct r1 as [|[[] [] [] [] [] [] [] []] r1]; [done|..]; try done. }
  destruct Hr as (f & r2 & Hfr & Hf & ->). rewrite Hfr in H. clear fr Hfr.
  destruct (parseExponent r2) as [e|] eqn:Ee; [|done]. apply parseExponent_inv in Ee as (e' & He & ->).
  exists (mkNumeral o (c :: w) f e'). split; [|done].
  split_and!; done.
Qed.

(** The number that is built denotes the numeral, up to the cap of its exponent. *)
Lemma number_of_spec p :
  numeral_wf p -> (Z.of_nat (length (whole p ++ default [] (fraction p))) < expLimit)%Z ->
  normal (number_of p) /\
  exists e, same_value (denotes (mkNumber (neg (number_of p)) (digits (number_of p)) e)) (value p) /\
    exp (number_of p) = cap expLimit e.
Proof.
  intros (_ & [Hw _] & Hf & _) Hlen. unfold number_of, value.
  set (ds := whole p ++ default [] (fraction p)) in *.
  assert (Hds : all_digits ds).
  { apply Forall_app. split; [done|]. destruct (fraction p); [by apply Hf|constructor]. }
  assert (Hl : length ds = length (whole p) + length (default [] (fraction p))) by apply length_app.
  destruct (trim_spec ds) as (k & Hk & Hv & Hh & Hla & Hm). specialize (Hm Hds).
  set (lead := length ds - length (trimLeft0 ds)) in *. set (m := trimRight0 (drop lead ds)) in *.
  case_decide as Hz.
  - split; [by constructor|]. exists 0%Z. split; [|done].
    rewrite Hz in Hv. change (dvalue []) with 0%Z in Hv. rewrite Z.mul_0_l in Hv. rewrite Hv.
    apply dcompare_signs; simpl; [done|by destruct (negative _)].
  - split; [by constructor|]. cbn [neg digits exp].
    exists (exponent_of (expo p) + (Z.of_nat (length (whole p)) - Z.of_nat lead))%Z. split.
    + unfold same_value, denotes. cbn [neg digits exp].
      set (j := (exponent_of (expo p) - Z.of_nat (length (default [] (fraction p))))%Z).
      rewrite (dcompare_at j) by (simpl; lia). unfold at_scale; cbn [mant scale]. rewrite Hv.
      apply Z.compare_eq_iff.
      replace (_ - j)%Z with (Z.of_nat k) by lia. rewrite Z.sub_diag.
      destruct (negative (sgn p)); lia.
    + unfold shift, cap, scanMax, expLimit in *. lia.
Qed.

Lemma cap_compare e1 e2 :
  finite (cap expLimit e1) = true \/ cap expLimit e1 <> cap expLimit e2 ->
  Z.compare (cap expLimit e1) (cap expLimit e2) = Z.compare e1 e2 /\
  (e1 = e2 -> finite e1 = true) /\ (cap expLimit e1 = cap expLimit e2 -> finite e1 = finite (cap expLimit e1)).
Proof.
  unfold finite, cap. rewrite andb_true_iff, !Z.ltb_lt. intros H. split_and!.
  - destruct (Z.compare_spec e1 e2);
      [apply Z.compare_eq_iff|apply Z.compare_lt_iff|apply Z.compare_gt_iff]; unfold expLimit in *; lia.
  - intros ->. rewrite andb_true_iff, !Z.ltb_lt. unfold expLimit in *. lia.
  - intros He. apply eq_true_iff_eq. rewrite !andb_true_iff, !Z.ltb_lt. unfold expLimit in *. lia.
Qed.

Lemma cmp_cap n o e1 e2 :
  exp n = cap expLimit e1 -> exp o = cap expLimit e2 ->
  finite (exp n) = true \/ exp n <> exp o ->
  cmp n o = cmp (mkNumber (neg n) (digits n) e1) (mkNumber (neg o) (digits o) e2).
Proof.
  intros H1 H2 Hf. rewrite H1, H2 in Hf. destruct (cap_compare _ _ Hf) as (Hc & _ & Hfe).
  unfold cmp. cbn [neg digits exp]. rewrite H1, H2, Hc.
  destruct (Z.compare_spec e1 e2) as [He|_|_]; [|done..]. subst e2. by rewrite (Hfe eq_refl).
Qed.

(** The numerals of the matcher language are exactly an optional sign, digits,
    an optional fraction and an optional exponent: [parseNumber] accepts every
    text of this shape, whatever the size of its exponent, and nothing else. *)
Theorem numeral_grammar s :
  is_Some (parseNumber s) <-> exists p, numeral_wf p /\ s = render p.
Proof.
  split.
  - intros [n Hn]. by apply parseNumber_inv in Hn.
  - intros (p & Hp & ->). rewrite parseNumber_render by done. eauto.
Qed.

(** C37. Comparison is exact: for two numerals (of fewer than 10^18 digits) whose
    exponents are not both beyond the cap at the same end, [cmp] is the order of
    the decimals they denote, [±digits * 10^exponent] with the exponent as
    written, however many digits it has.  No rounding, no overflow. *)
Theorem number_order_exact p q x y :
  numeral_wf p -> numeral_wf q ->
  (Z.of_nat (length (render p)) < expLimit)%Z -> (Z.of_nat (length (render q)) < expLimit)%Z ->
  parseNumber (render p) = Some x -> parseNumber (render q) = Some y ->
  finite (exp x) = true \/ exp x <> exp y ->
  cmp x y = dcompare (value p) (value q).
Proof.
  intros Hp Hq Lp Lq. rewrite !parseNumber_render by done. intros [= <-] [= <-] Hf.
  assert (Hr : forall r, (length (whole r ++ default [] (fraction r)) <= length (render r))).
  { intros r. unfold render. rewrite !length_app. destruct (fraction r); simpl; lia. }
  destruct (number_of_spec p Hp) as (Np & e1 & Vp & Ep); [pose proof (Hr p); lia|].
  destruct (number_of_spec q Hq) as (Nq & e2 & Vq & Eq); [pose proof (Hr q); lia|].
  rewrite (cmp_cap _ _ e1 e2 Ep Eq Hf), cmp_exact.
  - by apply same_value_compare.
  - destruct Np. by constructor.
  - destruct Nq. by constructor.
  - rewrite Ep, Eq in Hf. cbn [exp]. by destruct (cap_compare _ _ Hf) as (_ & H & _).
Qed.

Lemma number_order_exact_witness :
  let p := mkNumeral None (bytes "1") (Some (bytes "50")) (Some ("e"%char, Some "-"%char, bytes "99999999999999999")) in
  let q := mkNumeral None (bytes "0") (Some (bytes "0015")) (Some ("E"%char, None, bytes "99999999999999999999999")) in
  exists x y, parseNumber (render p) = Some x /\ parseNumber (render q) = Some y /\ cmp x y = Lt /\
    cmp x y = dcompare (value p) (value q).
Proof.
  intros p q. eexists _, _. split_and!; [vm_compute; reflexivity..|].
  assert (Hwf : numeral_wf p /\ numeral_wf q).
  { split; repeat split; try (by left); try (by right); try done; repeat constructor. }
  destruct Hwf. by apply number_order_exact; [done|done|vm_compute; reflexivity..|right].
Defined.
