(* ===== verification/MockMatch.v ===== *)
(** * Matching JSON bodies (src/internal/mock/json.go, json_rules.go)

    A mock scenario states what a request body must look like: a JSON text that
    is compared as a subset ([jsonSubset]), and rules with operators
    ([compileJSONRules]).  JSON values are those of encoding/json with numbers
    kept as text; an object is the list of its members in the order in which a
    run of the program happens to visit them.  Decoding the text is the standard
    library's work and comes before this file. *)
From stdpp Require Import base list strings gmap.
From Stdlib Require Import Ascii ZArith Lia.
From S2P Require Import Prelude GoStd MockNumber.

Open Scope string_scope.
Open Scope nat_scope.
Open Scope list_scope.

(** [any], as [decodeJSON] produces it. *)
Inductive any : Type :=
  | Null
  | Bool (b : bool)
  | Str (s : string)
  | Number (n : string)
  | Arr (l : list any)
  | Obj (m : list (string * any)).

Section any_ind.
Context (P : any -> Prop).
Context (HNull : P Null) (HBool : forall b, P (Bool b)) (HStr : forall s, P (Str s))
  (HNumber : forall n, P (Number n))
  (HArr : forall l, Forall P l -> P (Arr l)) (HObj : forall m, Forall (fun kv => P (kv.2)) m -> P (Obj m)).

Fixpoint any_rect' (v : any) : P v :=
  match v with
  | Null => HNull
  | Bool b => HBool b
  | Str s => HStr s
  | Number n => HNumber n
  | Arr l =>
      HArr l ((fix go (l : list any) : Forall P l :=
        match l with [] => List.Forall_nil _ | x :: l' => @List.Forall_cons _ _ _ _ (any_rect' x) (go l') end) l)
  | Obj m =>
      HObj m ((fix go (m : list (string * any)) : Forall (fun kv => P (kv.2)) m :=
        match m with
        | [] => List.Forall_nil _
        | (k, x) :: m' => @List.Forall_cons _ _ _ _ (any_rect' x : P ((k, x).2)) (go m')
        end) m)
  end.
End any_ind.

(** A member of an object. *)
Fixpoint member {A} (m : list (string * A)) (name : string) : option A :=
  match m with
  | [] => None
  | (k, v) :: m' => if decide (k = name) then Some v else member m' name
  end.

Definition names {A} (m : list (string * A)) : list string := m.*1.

(** What [decodeJSON] guarantees: keys are distinct and numbers are numerals, at
    every level. *)
Fixpoint any_wf (v : any) : Prop :=
  match v with
  | Number n => is_Some (parseNumber (bytes n))
  | Arr l => (fix go l := match l with [] => True | x :: l' => any_wf x /\ go l' end) l
  | Obj m =>
      NoDup (names m) /\
      (fix go m := match m with [] => True | (_, x) :: m' => any_wf x /\ go m' end) m
  | _ => True
  end.

(** ** json.go *)

Inductive jsonCompare := jsonSubset | jsonExact.

Fixpoint matches (c : jsonCompare) (want got : any) {struct want} : bool :=
  match want with
  | Obj want =>
      match got with
      | Obj obj =>
          if (match c with jsonExact => negb (length want =? length obj) | jsonSubset => false end) then false
          else (fix go (want : list (string * any)) : bool :=
                  match want with
                  | [] => true
                  | (name, v) :: want' =>
                      match member obj name with
                      | Some g => if matches c v g then go want' else false
                      | None => false
                      end
                  end) want
      | _ => false
      end
  | Arr want =>
      match got with
      | Arr l =>
          if negb (length want =? length l) then false
          else (fix go (want : list any) (l : list any) : bool :=
                  match want, l with
                  | v :: want', g :: l' => if matches c v g then go want' l' else false
                  | _, _ => true
                  end) want l
      | _ => false
      end
  | Number want => match got with Number n => equalJSONNumbers want n | _ => false end
  | Null => match got with Null => true | _ => false end
  | Bool b => match got with Bool b' => Bool.eqb b b' | _ => false end
  | Str s => match got with Str s' => bool_decide (s = s') | _ => false end
  end.

(** ** json_rules.go *)

Definition jsonPredicate : Type := any -> bool.
Definition RuleErr : Type := string.

Definition childPath (path name : string) : string :=
  if decide (path = "") then name else path +:+ "." +:+ name.

Definition ruleErr (path msg : string) : RuleErr :=
  if decide (path = "") then "invalid json-rules matcher: " +:+ msg
  else "invalid json-rules matcher at " +:+ path +:+ ": " +:+ msg.

Definition numberRule (rel : numberRelation) (operand : any) : string + jsonPredicate :=
  match operand with
  | Number text =>
      let want := default (mkNumber false [] 0) (parseNumber (bytes text)) in
      inr (fun got =>
        match got with
        | Number n =>
            match parseNumber (bytes n) with
            | Some v => holds rel (cmp v want)
            | None => false
            end
        | _ => false
        end)
  | _ => inl "operand must be a JSON number"
  end.

(** [oneOf] compares objects and arrays exactly. *)
Definition oneOfRule (operand : any) : string + jsonPredicate :=
  match operand with
  | Arr [] => inl "operand cannot be an empty array"
  | Arr allowed => inr (fun got => existsb (fun want => matches jsonExact want got) allowed)
  | _ => inl "operand must be an array"
  end.

(** [jsonRuleOps] *)
Definition jsonRuleOps (name : string) : option (any -> string + jsonPredicate) :=
  if decide (name = "gt") then Some (numberRule relGT)
  else if decide (name = "gte") then Some (numberRule relGTE)
  else if decide (name = "lt") then Some (numberRule relLT)
  else if decide (name = "lte") then Some (numberRule relLTE)
  else if decide (name = "oneOf") then Some oneOfRule
  else None.

Definition allOf (tests : list jsonPredicate) : jsonPredicate :=
  match tests with
  | [test] => test
  | _ => fun got => forallb (fun test => test got) tests
  end.

Definition isObject (v : any) : bool := match v with Obj _ => true | _ => false end.

(** [operatorLeaf]: a predicate, no leaf ([inr None]), or an error. *)
Fixpoint operatorLeaf (obj : list (string * any)) (ns : list string) (path : string)
    (ops : list jsonPredicate) : RuleErr + option jsonPredicate :=
  match ns with
  | [] => inr (Some (allOf ops))
  | name :: ns' =>
      match jsonRuleOps name with
      | None => inr None
      | Some compile =>
          let operand := default Null (member obj name) in
          match compile operand with
          | inl err =>
              if isObject operand then inr None
              else inl (ruleErr (childPath path name) err)
          | inr m => operatorLeaf obj ns' path (ops ++ [m])
          end
      end
  end.

Definition sortedNames {A} (obj : list (string * A)) : list string := sort_strings (names obj).

(** The loop that compiles the fields of a nested rule; [kids] are the compilers
    of the members. *)
Fixpoint compileFields (kids : list (string * (string -> RuleErr + jsonPredicate))) (ns : list string)
    (path : string) (fields : list (string * jsonPredicate)) : RuleErr + list (string * jsonPredicate) :=
  match ns with
  | [] => inr fields
  | name :: ns' =>
      match member kids name with
      | Some kid =>
          match kid (childPath path name) with
          | inl err => inl err
          | inr m => compileFields kids ns' path (fields ++ [(name, m)])
          end
      | None => inl (ruleErr (childPath path name) "expected a rule object or a known operator")
      end
  end.

Definition fieldsPredicate (fields : list (string * jsonPredicate)) : jsonPredicate :=
  fun got =>
    match got with
    | Obj body =>
        forallb (fun '(name, m) =>
          match member body name with Some v => m v | None => false end) fields
    | _ => false
    end.

Definition compileRuleObject (obj : list (string * any))
    (kids : list (string * (string -> RuleErr + jsonPredicate))) (path : string) : RuleErr + jsonPredicate :=
  match obj with
  | [] => inl (ruleErr path "rule object cannot be empty")
  | _ =>
      let ns := sortedNames obj in
      match operatorLeaf obj ns path [] with
      | inl err => inl err
      | inr (Some leaf) => inr leaf
      | inr None =>
          match compileFields kids ns path [] with
          | inl err => inl err
          | inr fields => inr (fieldsPredicate fields)
          end
      end
  end.

Fixpoint compileRuleNode (node : any) (path : string) : RuleErr + jsonPredicate :=
  match node with
  | Obj obj => compileRuleObject obj (map (fun '(k, v) => (k, compileRuleNode v)) obj) path
  | _ => inl (ruleErr path "expected a rule object or a known operator")
  end.

(** [compileJSONRules], from the decoded rules. *)
Definition compileJSONRules (node : any) : RuleErr + jsonPredicate :=
  match node with
  | Obj _ => compileRuleNode node ""
  | _ => inl (ruleErr "" "must be a JSON object")
  end.

(** [compileJSONBody], from the decoded subset and rules; [None] is no
    condition. *)
Definition compileJSONBody (subset rules : option any) : RuleErr + option jsonPredicate :=
  let literal := (fun pattern got => matches jsonSubset pattern got) <$> subset in
  match rules with
  | None => inr literal
  | Some node =>
      match compileJSONRules node with
      | inl err => inl err
      | inr m =>
          match literal with
          | None => inr (Some m)
          | Some lit => inr (Some (fun got => lit got && m got))
          end
      end
  end.

Example rule_examples :
  let body := Obj [("n", Number "10.0"); ("gt", Obj [("gt", Number "3")]); ("tag", Str "b")] in
  let run r := match compileJSONRules r with inl e => inl e | inr p => inr (p body) end in
  map run
    [Obj [("n", Obj [("gte", Number "1e1"); ("lt", Number "11")])];
     Obj [("gt", Obj [("gt", Obj [("lte", Number "3")])]); ("tag", Obj [("oneOf", Arr [Str "a"; Str "b"])])];
     Obj [("gt", Number "1")];
     Obj [("n", Obj [])];
     Obj [("n", Obj [("gt", Str "1")])];
     Obj [("n", Number "1")];
     Arr []]
  = [inr true; inr true; inr false;
     inl "invalid json-rules matcher at n: rule object cannot be empty";
     inl "invalid json-rules matcher at n.gt: operand must be a JSON number";
     inl "invalid json-rules matcher at n: expected a rule object or a known operator";
     inl "invalid json-rules matcher: must be a JSON object"].
Proof. vm_compute. reflexivity. Qed.

(** * Matching JSON bodies: theorems

    The exact comparison is an equivalence on JSON values and the subset
    comparison the preorder it comes from; a compiled rule holds of a body
    exactly when the rule, read as a statement, does. *)
From stdpp Require Import base list strings gmap sorting.
From Stdlib Require Import Ascii ZArith Lia.
From S2P Require Import Prelude GoStd MockNumber.

Open Scope string_scope.
Open Scope nat_scope.
Open Scope list_scope.

(** ** Members *)

Lemma member_elem {A} (m : list (string * A)) k v : member m k = Some v -> (k, v) ∈ m.
Proof.
  induction m as [|[k' v'] m IH]; simpl; [done|]. case_decide as Hk; [|rewrite elem_of_cons; auto].
  intros [= <-]. subst k'. apply list_elem_of_here.
Qed.

Lemma elem_member {A} (m : list (string * A)) k v : NoDup (names m) -> (k, v) ∈ m -> member m k = Some v.
Proof.
  induction m as [|[k' v'] m IH]; simpl; [by intros _ ?%elem_of_nil|].
  intros [Hk Hm]%NoDup_cons [[= -> ->]|Hin]%elem_of_cons; [by rewrite decide_True|].
  rewrite decide_False; [by apply IH|]. intros ->. apply Hk. apply list_elem_of_fmap. by exists (k, v).
Qed.

Lemma elem_names {A} (m : list (string * A)) k : k ∈ names m <-> exists v, (k, v) ∈ m.
Proof.
  unfold names. rewrite list_elem_of_fmap. split.
  - intros ([k' v] & -> & ?). eauto.
  - intros [v ?]. by exists (k, v).
Qed.

Lemma elem_member_Some {A} (m : list (string * A)) k : k ∈ names m -> is_Some (member m k).
Proof.
  induction m as [|[k' v'] m IH]; simpl; [by intros ?%elem_of_nil|].
  case_decide as Hk; [by eauto|]. intros [->|?]%elem_of_cons; [done|auto].
Qed.

Lemma any_wf_Arr l : any_wf (Arr l) <-> Forall any_wf l.
Proof. cbn [any_wf]. induction l as [|x l IH]; [by rewrite Forall_nil|]. rewrite Forall_cons. tauto. Qed.

Lemma any_wf_Obj m : any_wf (Obj m) <-> NoDup (names m) /\ Forall (fun kv => any_wf (kv.2)) m.
Proof.
  cbn [any_wf]. apply and_iff_compat_l.
  induction m as [|[k x] m IH]; [by rewrite Forall_nil|]. rewrite Forall_cons. simpl. tauto.
Qed.

Lemma wf_member m k v : any_wf (Obj m) -> (k, v) ∈ m -> any_wf v /\ member m k = Some v.
Proof.
  intros [Hn Hm]%any_wf_Obj Hin. split; [|by apply elem_member].
  rewrite Forall_forall in Hm. apply (Hm _ Hin).
Qed.

(** ** The comparison, as a statement *)

Lemma matches_Arr c w g : matches c (Arr w) (Arr g) = true <-> Forall2 (fun v x => matches c v x = true) w g.
Proof.
  cbn [matches]. destruct (length w =? length g) eqn:Hl; simpl.
  - apply Nat.eqb_eq in Hl. revert g Hl. induction w as [|v w IH]; intros [|x g] Hl; try done.
    rewrite Forall2_cons. simpl in Hl. rewrite <- IH by lia. destruct (matches c v x); naive_solver.
  - split; [done|]. intros HF%Forall2_length. apply Nat.eqb_neq in Hl. done.
Qed.

Definition same_size (c : jsonCompare) (n m : nat) : Prop :=
  match c with jsonExact => n = m | jsonSubset => True end.

Lemma matches_Obj c w g :
  matches c (Obj w) (Obj g) = true <->
  same_size c (length w) (length g) /\
  Forall (fun kv => exists x, member g (kv.1) = Some x /\ matches c (kv.2) x = true) w.
Proof.
  cbn [matches]. set (go := fix go (want : list (string * any)) : bool := _).
  assert (Hgo : go w = true <-> Forall (fun kv => exists x, member g (kv.1) = Some x /\ matches c (kv.2) x = true) w).
  { induction w as [|[k v] w IH]; [by rewrite Forall_nil|]. rewrite Forall_cons, <- IH. simpl.
    destruct (member g k) as [x|]; [|naive_solver]. destruct (matches c v x) eqn:E; naive_solver. }
  destruct c; simpl; [tauto|]. destruct (length w =? length g) eqn:Hl; simpl.
  - apply Nat.eqb_eq in Hl. tauto.
  - apply Nat.eqb_neq in Hl. naive_solver.
Qed.

(** ** Numbers *)

(** What [cmp] can tell apart. *)
Definition number_key (n : number) : bool * option (Z * option (list ascii)) :=
  (neg n, match digits n with
          | [] => None
          | ds => Some (exp n, if finite (exp n) then Some ds else None)
          end).

Lemma compareBytes_Eq a b : compareBytes a b = Eq <-> a = b.
Proof.
  revert b. induction a as [|x a IH]; intros [|y b]; simpl; try done.
  destruct (N.compare_spec (byte_val x) (byte_val y)) as [H|H|H].
  - rewrite IH. apply (f_equal ascii_of_N) in H. unfold byte_val in H. rewrite !ascii_N_embedding in H. subst y.
    naive_solver.
  - split; [done|]. intros [= -> ->]. lia.
  - split; [done|]. intros [= -> ->]. lia.
Qed.

Lemma cmp_Eq n o : cmp n o = Eq <-> number_key n = number_key o.
Proof.
  unfold cmp, number_key. destruct (Bool.eqb (neg n) (neg o)) eqn:Hn; simpl.
  2:{ apply Bool.eqb_false_iff in Hn. destruct (neg n), (neg o); naive_solver. }
  apply Bool.eqb_prop in Hn. rewrite Hn.
  destruct (digits n) as [|cn dn], (digits o) as [|co do]; try naive_solver.
  assert (Ho : forall b c, (if (b : bool) then CompOpp c else c) = Eq <-> c = Eq) by (by intros [] []).
  rewrite Ho. destruct (Z.compare_spec (exp n) (exp o)) as [He|He|He].
  - rewrite He. destruct (finite (exp o)); [|naive_solver]. rewrite compareBytes_Eq. naive_solver.
  - split; [done|]. intros [= ? _]. lia.
  - split; [done|]. intros [= ? _]. lia.
Qed.

(** A numeral's class: the numerals equal to it. *)
Definition numeral_class (s : string) : string + (bool * option (Z * option (list ascii))) :=
  match parseNumber (bytes s) with Some n => inr (number_key n) | None => inl s end.

Lemma equalJSONNumbers_class a b : equalJSONNumbers a b = true <-> numeral_class a = numeral_class b.
Proof.
  unfold equalJSONNumbers, numeral_class. case_decide as Hab; [by subst|].
  destruct (parseNumber (bytes a)), (parseNumber (bytes b)); rewrite ?bool_decide_eq_true, ?cmp_Eq;
    split; congruence.
Qed.

(** ** Order *)

Lemma Forall2_map_each {A B} (P Q : A -> B -> Prop) l g :
  Forall (fun v => forall x, P v x -> Q v x) l -> Forall2 P l g -> Forall2 Q l g.
Proof. intros Hl HP. induction HP; [done|]. apply Forall_cons in Hl as [? ?]. constructor; auto. Qed.

Lemma Forall2_compose {A B C} (P : A -> B -> Prop) (Q : B -> C -> Prop) (R : A -> C -> Prop) l m n :
  Forall (fun a => forall b c, P a b -> Q b c -> R a c) l -> Forall2 P l m -> Forall2 Q m n -> Forall2 R l n.
Proof.
  intros Hl HP. revert n. induction HP; intros n HQ; inversion HQ; subst; [done|].
  apply Forall_cons in Hl as [? ?]. constructor; eauto.
Qed.

Lemma matches_exact_subset a y : matches jsonExact a y = true -> matches jsonSubset a y = true.
Proof.
  revert y. induction a as [| | | |l IH|m IH] using any_rect'; intros y Hy; try exact Hy.
  - destruct y; try discriminate. rewrite matches_Arr in Hy |- *. eapply Forall2_map_each; [exact IH|exact Hy].
  - destruct y; try discriminate. rewrite matches_Obj in Hy |- *. destruct Hy as [_ Hy].
    split; [done|]. rewrite Forall_forall in IH, Hy |- *. naive_solver.
Qed.

Lemma matches_refl c v : any_wf v -> matches c v v = true.
Proof.
  induction v as [|b|s|n|l IH|m IH] using any_rect'; intros Hwf; cbn.
  - done.
  - by destruct b.
  - by rewrite bool_decide_eq_true.
  - by apply equalJSONNumbers_class.
  - apply matches_Arr. apply any_wf_Arr in Hwf. apply Forall_Forall2_diag.
    rewrite Forall_forall in IH, Hwf |- *. auto.
  - apply matches_Obj. split; [by destruct c|]. rewrite Forall_forall in IH |- *. intros [k v] Hin.
    destruct (wf_member _ _ _ Hwf Hin). exists v. split; [done|]. by apply (IH _ Hin).
Qed.

Lemma matches_trans c v x y : matches c v x = true -> matches c x y = true -> matches c v y = true.
Proof.
  revert x y. induction v as [|b|s|n|l IH|m IH] using any_rect'; intros x y.
  - by destruct x.
  - destruct x; try done. destruct y; try done. cbn. by destruct b, b0, b1.
  - destruct x; try done. destruct y; try done. cbn. rewrite !bool_decide_eq_true. congruence.
  - destruct x; try done. destruct y; try done. cbn. rewrite !equalJSONNumbers_class. congruence.
  - destruct x; try done. destruct y; try done. rewrite !matches_Arr. by apply Forall2_compose.
  - destruct x as [| | | | |mx]; try done. destruct y as [| | | | |my]; try done. rewrite !matches_Obj.
    intros [S1 H1] [S2 H2]. split; [destruct c; simpl in *; congruence|].
    rewrite Forall_forall in IH, H1, H2 |- *. intros [k v] Hin.
    destruct (H1 _ Hin) as (x & Hx & Hvx). apply member_elem in Hx as Hx'.
    destruct (H2 _ Hx') as (z & Hz & Hxz). exists z. split; [done|]. by eapply (IH _ Hin).
Qed.

(** Two objects with distinct keys, one's keys among the other's. *)
Lemma names_incl {A B} (m : list (string * A)) (g : list (string * B)) (P : string * A -> B -> Prop) :
  Forall (fun kv => exists x, member g (kv.1) = Some x /\ P kv x) m -> names m ⊆ names g.
Proof.
  intros HF k Hk. apply elem_names in Hk as [v Hin]. rewrite Forall_forall in HF.
  destruct (HF _ Hin) as (x & Hx & _). apply elem_names. exists x. by apply member_elem.
Qed.

Lemma names_length {A} (m : list (string * A)) : length (names m) = length m.
Proof. apply length_map. Qed.

Lemma matches_exact_sym v x :
  any_wf v -> any_wf x -> matches jsonExact v x = true -> matches jsonExact x v = true.
Proof.
  revert x. induction v as [|b|s|n|l IH|m IH] using any_rect'; intros x Hv Hx.
  - by destruct x.
  - destruct x; try done. cbn. by destruct b, b0.
  - destruct x; try done. cbn. rewrite !bool_decide_eq_true. congruence.
  - destruct x; try done. cbn. rewrite !equalJSONNumbers_class. congruence.
  - destruct x as [| | | |g|]; try done. rewrite !matches_Arr. intros HF. apply Forall2_flip.
    rewrite any_wf_Arr in Hv, Hx. clear -IH HF Hv Hx.
    induction HF; [done|]. rewrite Forall_cons in IH, Hv, Hx. constructor; naive_solver.
  - destruct x as [| | | | |g]; try done. rewrite !matches_Obj. cbn [same_size]. intros [Hl HF].
    split; [done|]. apply any_wf_Obj in Hv as Hv'. apply any_wf_Obj in Hx as Hx'.
    assert (Hin : names g ⊆ names m).
    { intros k Hk. rewrite (submseteq_length_Permutation (names m) (names g)); [done| |by rewrite !names_length; lia].
      apply NoDup_submseteq; [apply Hv'|]. apply (names_incl _ _ _ HF). }
    rewrite Forall_forall in IH, HF |- *. intros [k x] Hkx. simpl.
    destruct (elem_member_Some m k) as [v Hv0]; [apply Hin, elem_names; eauto|].
    exists v. split; [done|]. apply member_elem in Hv0 as Hkv.
    destruct (HF _ Hkv) as (x' & Hx0 & Hm). simpl in Hx0, Hm.
    destruct (wf_member _ _ _ Hv Hkv) as [Wv _]. destruct (wf_member _ _ _ Hx Hkx) as [Wx Hx1].
    assert (x' = x) as -> by congruence. by apply (IH _ Hkv).
Qed.

Lemma matches_subset_antisym v x :
  any_wf v -> any_wf x -> matches jsonSubset v x = true -> matches jsonSubset x v = true ->
  matches jsonExact v x = true.
Proof.
  revert x. induction v as [|b|s|n|l IH|m IH] using any_rect'; intros x Hv Hx; try (by destruct x).
  - destruct x as [| | | |g|]; try done. rewrite !matches_Arr. intros H1 H2%Forall2_flip.
    rewrite any_wf_Arr in Hv, Hx.
    induction H1; [done|]. rewrite Forall_cons in IH, Hv, Hx. rewrite Forall2_cons in H2. simpl in H2.
    constructor; naive_solver.
  - destruct x as [| | | | |g]; try done. rewrite !matches_Obj. cbn [same_size]. intros [_ H1] [_ H2].
    pose proof (proj1 (proj1 (any_wf_Obj _) Hv)) as Nv. pose proof (proj1 (proj1 (any_wf_Obj _) Hx)) as Nx.
    pose proof (names_incl _ _ _ H1) as I1. pose proof (names_incl _ _ _ H2) as I2. split.
    + rewrite <- !names_length. apply Nat.le_antisymm; by apply submseteq_length, NoDup_submseteq.
    + rewrite Forall_forall in IH, H1, H2 |- *. intros [k v] Hkv.
      destruct (H1 _ Hkv) as (x & Hx0 & Hvx). exists x. split; [done|].
      apply member_elem in Hx0 as Hkx. simpl in Hkx.
      destruct (H2 _ Hkx) as (v' & Hv0 & Hxv). simpl in Hv0, Hxv.
      destruct (wf_member _ _ _ Hv Hkv) as [Wv Hv1]. destruct (wf_member _ _ _ Hx Hkx) as [Wx _].
      assert (v' = v) as -> by congruence. by apply (IH _ Hkv).
Qed.

(** On decoded JSON values the subset comparison is a preorder (so a scenario
    that matches a body also matches every body that adds members to it), the
    exact comparison of oneOf is an equivalence, and the two agree: exact
    equality is inclusion both ways.  Numbers count by value, not by text. *)
Theorem json_matching_order u v w :
  any_wf u -> any_wf v ->
  (forall c, matches c u u = true) /\
  (forall c, matches c u v = true -> matches c v w = true -> matches c u w = true) /\
  (matches jsonExact u v = true -> matches jsonExact v u = true) /\
  (matches jsonExact u v = true <-> matches jsonSubset u v = true /\ matches jsonSubset v u = true).
Proof.
  intros Hu Hv. split_and!.
  - intros c. by apply matches_refl.
  - intros c. apply matches_trans.
  - by apply matches_exact_sym.
  - split.
    + intros He. split; apply matches_exact_subset; [done|by apply matches_exact_sym].
    + intros [H1 H2]. by apply matches_subset_antisym.
Qed.

Lemma json_matching_order_witness :
  let u := Obj [("a", Number "1.50"); ("b", Arr [Null; Str "x"])] in
  let v := Obj [("b", Arr [Null; Str "x"]); ("a", Number "15e-1")] in
  matches jsonExact u v = true /\ matches jsonExact v u = true.
Proof.
  intros u v. split; [vm_compute; reflexivity|].
  assert (Hwf : any_wf u /\ any_wf v).
  { split; cbn; repeat match goal with |- _ /\ _ => split end; try exact I;
      try (eexists; vm_compute; reflexivity); by apply (bool_decide_unpack _); vm_compute. }
  destruct Hwf as [Hu Hv]. destruct (json_matching_order u v v Hu Hv) as (_ & _ & Hsym & _).
  apply Hsym. vm_compute. reflexivity.
Defined.

(** ** Rules, as statements *)

Definition op_rel (name : string) : option numberRelation :=
  if decide (name = "gt") then Some relGT
  else if decide (name = "gte") then Some relGTE
  else if decide (name = "lt") then Some relLT
  else if decide (name = "lte") then Some relLTE
  else None.

(** [name: operand] is an operator with an operand it accepts. *)
Definition valid_op (name : string) (operand : any) : Prop :=
  (is_Some (op_rel name) /\ exists text, operand = Number text) \/
  (name = "oneOf" /\ exists x allowed, operand = Arr (x :: allowed)).

(** The operator holds of a value. *)
Definition op_holds (name : string) (operand got : any) : Prop :=
  (exists rel text n w v, op_rel name = Some rel /\ operand = Number text /\ got = Number n /\
     parseNumber (bytes text) = Some w /\ parseNumber (bytes n) = Some v /\ holds rel (cmp v w) = true) \/
  (name = "oneOf" /\ exists allowed want, operand = Arr allowed /\ want ∈ allowed /\ matches jsonExact want got = true).

(** The rules that compile: an object that is all operators, or an object of
    rules. *)
Fixpoint valid_rule (node : any) : Prop :=
  match node with
  | Obj obj =>
      obj <> [] /\
      (Forall (fun kv => valid_op (kv.1) (kv.2)) obj \/
       foldr (fun '(_, v) P => valid_rule v /\ P) True obj)
  | _ => False
  end.

(** A body satisfies a rule: every operator holds of it, or it is an object whose
    named members satisfy the nested rules. *)
Fixpoint satisfies (node got : any) {struct node} : Prop :=
  match node with
  | Obj obj =>
      (Forall (fun kv => valid_op (kv.1) (kv.2)) obj /\ Forall (fun kv => op_holds (kv.1) (kv.2) got) obj) \/
      (~ Forall (fun kv => valid_op (kv.1) (kv.2)) obj /\
       exists body, got = Obj body /\
         foldr (fun '(k, v) P => (exists x, member body k = Some x /\ satisfies v x) /\ P) True obj)
  | _ => False
  end.

Lemma valid_rule_Obj obj :
  valid_rule (Obj obj) <->
  obj <> [] /\ (Forall (fun kv => valid_op (kv.1) (kv.2)) obj \/ Forall (fun kv => valid_rule (kv.2)) obj).
Proof.
  cbn [valid_rule]. apply and_iff_compat_l, or_iff_compat_l.
  induction obj as [|[k v] m IH]; [by rewrite Forall_nil|]. rewrite Forall_cons, <- IH. done.
Qed.

Lemma satisfies_Obj obj got :
  satisfies (Obj obj) got <->
  (Forall (fun kv => valid_op (kv.1) (kv.2)) obj /\ Forall (fun kv => op_holds (kv.1) (kv.2) got) obj) \/
  (~ Forall (fun kv => valid_op (kv.1) (kv.2)) obj /\
   exists body, got = Obj body /\
     Forall (fun kv => exists x, member body (kv.1) = Some x /\ satisfies (kv.2) x) obj).
Proof.
  cbn [satisfies]. apply or_iff_compat_l, and_iff_compat_l.
  assert (H : forall body, foldr (fun '(k, v) P => (exists x, member body k = Some x /\ satisfies v x) /\ P) True obj
    <-> Forall (fun kv => exists x, member body (kv.1) = Some x /\ satisfies (kv.2) x) obj).
  { intros body. induction obj as [|[k v] m IH]; [by rewrite Forall_nil|]. rewrite Forall_cons, <- IH. done. }
  by setoid_rewrite H.
Qed.

(** ** Operators *)

(** The compiled operator, when the name and the operand are good. *)
Definition compileOp (name : string) (operand : any) : option jsonPredicate :=
  match jsonRuleOps name with
  | Some compile => match compile operand with inr m => Some m | inl _ => None end
  | None => None
  end.

Lemma jsonRuleOps_cases name :
  (exists rel, op_rel name = Some rel /\ jsonRuleOps name = Some (numberRule rel) /\ name <> "oneOf") \/
  (op_rel name = None /\ name = "oneOf" /\ jsonRuleOps name = Some oneOfRule) \/
  (op_rel name = None /\ jsonRuleOps name = None /\ name <> "oneOf").
Proof.
  unfold op_rel, jsonRuleOps. repeat case_decide; subst; try done; try (left; eexists; by split_and!); naive_solver.
Qed.

Lemma compileOp_valid name operand : is_Some (compileOp name operand) <-> valid_op name operand.
Proof.
  unfold compileOp, valid_op.
  destruct (jsonRuleOps_cases name) as [(rel & Hr & Ho & Hn)|[(Hr & Hn & Ho)|(Hr & Ho & Hn)]];
    rewrite Hr, Ho; destruct operand as [| | | |[|x l]|]; cbn; rewrite ?is_Some_alt; naive_solver.
Qed.

Lemma compileOp_holds name operand m :
  any_wf operand -> compileOp name operand = Some m -> forall got, m got = true <-> op_holds name operand got.
Proof.
  intros Hwf. unfold compileOp, op_holds.
  destruct (jsonRuleOps_cases name) as [(rel & Hr & Ho & Hn)|[(Hr & Hn & Ho)|(Hr & Ho & Hn)]]; rewrite Hr, Ho; [| |done].
  - destruct operand as [| | |text| |]; try done. intros [= <-] got. destruct Hwf as [w Hw]. rewrite Hw. simpl.
    split.
    + destruct got as [| | |n| |]; try done. destruct (parseNumber (bytes n)) as [v|] eqn:Ev; [|done].
      intros Hh. left. by exists rel, text, n, w, v.
    + intros [(rel' & text' & n & w' & v & [= <-] & [= <-] & -> & Hw' & -> & Hh)|[? _]]; [|done]. congruence.
  - destruct operand as [| | | |[|x l]|]; try done. intros [= <-] got.
    change (_ || _) with (existsb (fun want => matches jsonExact want got) (x :: l)). rewrite existsb_exists. split.
    + intros (y & Hy%list_elem_of_In & Hm). right. split; [done|]. by exists (x :: l), y.
    + intros [(rel' & ? & ? & ? & ? & ? & _)|(_ & allowed & y & [= <-] & Hy & Hm)]; [done|].
      exists y. split; [by apply list_elem_of_In|done].
Qed.

(** ** Compilation *)

Lemma compileOp_error name operand :
  compileOp name operand = None <->
  match jsonRuleOps name with Some compile => exists err, compile operand = inl err | None => True end.
Proof.
  unfold compileOp. destruct (jsonRuleOps name) as [compile|]; [|done].
  destruct (compile operand) eqn:E; naive_solver.
Qed.

Lemma allOf_spec tests got : allOf tests got = true <-> Forall (fun t : jsonPredicate => t got = true) tests.
Proof.
  unfold allOf. destruct tests as [|t [|t' ts]]; [by rewrite Forall_nil|by rewrite Forall_singleton|].
  rewrite forallb_forall, Forall_forall. by setoid_rewrite list_elem_of_In.
Qed.

(** What the scan for operators returns: all of them, or one that is none. *)
Lemma operatorLeaf_spec obj ns path ops :
  match operatorLeaf obj ns path ops with
  | inr (Some leaf) =>
      exists ms, Forall2 (fun n m => compileOp n (default Null (member obj n)) = Some m) ns ms /\ leaf = allOf (ops ++ ms)
  | inr None => exists n, n ∈ ns /\ compileOp n (default Null (member obj n)) = None
  | inl _ => exists n, n ∈ ns /\ compileOp n (default Null (member obj n)) = None /\
               isObject (default Null (member obj n)) = false
  end.
Proof.
  revert ops. induction ns as [|n ns IH]; intros ops; cbn [operatorLeaf].
  { exists []. by rewrite app_nil_r. }
  pose proof (eq_refl (compileOp n (default Null (member obj n)))) as Hc. unfold compileOp in Hc at 2.
  destruct (jsonRuleOps n) as [compile|].
  2:{ exists n. split; [apply list_elem_of_here|done]. }
  destruct (compile (default Null (member obj n))) as [err|m].
  - destruct (isObject (default Null (member obj n))) eqn:Hob; exists n; split_and?; auto using list_elem_of_here.
  - specialize (IH (ops ++ [m])). destruct (operatorLeaf obj ns path (ops ++ [m])) as [err|[leaf|]].
    + destruct IH as (n' & Hn' & Hx). exists n'. split; [by apply list_elem_of_further|done].
    + destruct IH as (ms & Hms & ->). exists (m :: ms). split; [by constructor|]. by rewrite <- app_assoc.
    + destruct IH as (n' & Hn' & Hx). exists n'. split; [by apply list_elem_of_further|done].
Qed.

Lemma compileFields_spec kids ns path fields :
  match compileFields kids ns path fields with
  | inr fs => exists gs, fs = fields ++ gs /\
      Forall2 (fun n f => f.1 = n /\ exists kid, member kids n = Some kid /\ kid (childPath path n) = inr (f.2)) ns gs
  | inl _ => exists n, n ∈ ns /\
      forall kid, member kids n = Some kid -> exists err, kid (childPath path n) = inl err
  end.
Proof.
  revert fields. induction ns as [|n ns IH]; intros fields; cbn [compileFields].
  { exists []. by rewrite app_nil_r. }
  destruct (member kids n) as [kid|] eqn:Hk.
  2:{ exists n. split; [apply list_elem_of_here|]. by rewrite Hk. }
  destruct (kid (childPath path n)) as [err|m] eqn:Hm.
  { exists n. split; [apply list_elem_of_here|]. rewrite Hk. intros ? [= <-]. eauto. }
  specialize (IH (fields ++ [(n, m)])). destruct (compileFields kids ns path (fields ++ [(n, m)])) as [err|fs].
  - destruct IH as (n' & Hn' & Hx). exists n'. split; [by apply list_elem_of_further|done].
  - destruct IH as (gs & -> & HF). exists ((n, m) :: gs). split; [by rewrite <- app_assoc|].
    constructor; [|done]. split; [done|]. by exists kid.
Qed.

Lemma sortedNames_elem {A} (obj : list (string * A)) n : n ∈ sortedNames obj <-> n ∈ names obj.
Proof. unfold sortedNames, sort_strings. by rewrite merge_sort_Permutation. Qed.

Lemma member_map {A B} (f : A -> B) (m : list (string * A)) k :
  member (map (fun '(k, v) => (k, f v)) m) k = f <$> member m k.
Proof. induction m as [|[k' v] m IH]; simpl; [done|]. by case_decide. Qed.

Lemma fieldsPredicate_spec fields body :
  fieldsPredicate fields (Obj body) = true <->
  Forall (fun f : string * jsonPredicate => exists x, member body (f.1) = Some x /\ (f.2 : jsonPredicate) x = true) fields.
Proof.
  cbn. rewrite forallb_forall, Forall_forall. setoid_rewrite list_elem_of_In.
  split; intros H [k m] Hin; specialize (H _ Hin); simpl in *.
  - destruct (member body k); [by eauto|done].
  - by destruct H as (x & -> & ?).
Qed.

Section rule_object.
Context (obj : list (string * any)) (Hwf : any_wf (Obj obj)).

Let operand n : any := default Null (member obj n).

Lemma operand_elem n v : (n, v) ∈ obj -> operand n = v /\ any_wf v.
Proof using Hwf. intros Hin. destruct (wf_member _ _ _ Hwf Hin) as [? Hm]. unfold operand. by rewrite Hm. Qed.

Lemma members_spec (P : string -> any -> Prop) :
  Forall (fun kv => P (kv.1) (kv.2)) obj <-> forall n, n ∈ sortedNames obj -> P n (operand n).
Proof using Hwf.
  rewrite Forall_forall. setoid_rewrite sortedNames_elem. split.
  - intros H n [v Hin]%elem_names. destruct (operand_elem _ _ Hin) as [-> _]. by apply (H _ Hin).
  - intros H [n v] Hin. destruct (operand_elem _ _ Hin) as [Ho _]. simpl. rewrite <- Ho.
    apply H, elem_names. eauto.
Qed.

Lemma operand_wf n : n ∈ sortedNames obj -> any_wf (operand n).
Proof using Hwf.
  rewrite sortedNames_elem. intros [v Hin]%elem_names. by destruct (operand_elem _ _ Hin) as [-> ?].
Qed.

Lemma invalid_op n :
  n ∈ sortedNames obj -> compileOp n (operand n) = None -> ~ Forall (fun kv => valid_op (kv.1) (kv.2)) obj.
Proof using Hwf.
  intros Hn Hc HF. apply (members_spec valid_op) with (n := n) in HF; [|done].
  apply compileOp_valid in HF as [m Hm]. congruence.
Qed.

(** An object whose scan gives a leaf. *)
Lemma leaf_exact ms :
  Forall2 (fun n m => compileOp n (operand n) = Some m) (sortedNames obj) ms ->
  Forall (fun kv => valid_op (kv.1) (kv.2)) obj /\
  forall got, allOf ms got = true <-> Forall (fun kv => op_holds (kv.1) (kv.2) got) obj.
Proof using Hwf.
  intros HF. split.
  - apply (members_spec valid_op). intros n Hn. apply compileOp_valid.
    apply list_elem_of_lookup in Hn as [i Hi]. destruct (Forall2_lookup_l _ _ _ _ _ HF Hi) as (m & _ & ->). eauto.
  - intros got. rewrite allOf_spec, (members_spec (fun k v => op_holds k v got)), Forall_forall.
    setoid_rewrite list_elem_of_lookup. split.
    + intros H n [i Hi]. destruct (Forall2_lookup_l _ _ _ _ _ HF Hi) as (m & Hm & Hc).
      apply (compileOp_holds _ _ _ (operand_wf n ltac:(by apply list_elem_of_lookup_2 in Hi)) Hc). eauto.
    + intros H m [i Hi]. destruct (Forall2_lookup_r _ _ _ _ _ HF Hi) as (n & Hn & Hc).
      apply (compileOp_holds _ _ _ (operand_wf n ltac:(by apply list_elem_of_lookup_2 in Hn)) Hc). eauto.
Qed.

(** An object of rules whose fields compiled. *)
Lemma nested_exact path (gs : list (string * jsonPredicate)) :
  Forall (fun kv => forall path, match compileRuleNode (kv.2) path with
    | inr p => valid_rule (kv.2) /\ forall got, p got = true <-> satisfies (kv.2) got
    | inl _ => ~ valid_rule (kv.2)
    end) obj ->
  Forall2 (fun n f => f.1 = n /\ exists kid, member (map (fun '(k, v) => (k, compileRuleNode v)) obj) n = Some kid /\
    kid (childPath path n) = inr (f.2)) (sortedNames obj) gs ->
  Forall (fun kv => valid_rule (kv.2)) obj /\
  forall body, fieldsPredicate gs (Obj body) = true <->
    Forall (fun kv => exists x, member body (kv.1) = Some x /\ satisfies (kv.2) x) obj.
Proof using Hwf.
  intros IH HF.
  assert (Hkid : forall n f, n ∈ sortedNames obj ->
    (exists kid, member (map (fun '(k, v) => (k, compileRuleNode v)) obj) n = Some kid /\
       kid (childPath path n) = inr f) ->
    valid_rule (operand n) /\ forall got, f got = true <-> satisfies (operand n) got).
  { intros n f [v Hin]%sortedNames_elem%elem_names (kid & Hk & Hf). destruct (operand_elem _ _ Hin) as [-> _].
    destruct (wf_member _ _ _ Hwf Hin) as [_ Hm]. rewrite member_map, Hm in Hk. injection Hk as <-.
    rewrite Forall_forall in IH. specialize (IH _ Hin (childPath path n)). simpl in IH. by rewrite Hf in IH. }
  split.
  - apply (members_spec (fun _ v => valid_rule v)). intros n Hn. apply list_elem_of_lookup in Hn as Hi. destruct Hi as [i Hi].
    destruct (Forall2_lookup_l _ _ _ _ _ HF Hi) as (f & _ & _ & Hf). by apply (Hkid n (f.2)).
  - intros body. rewrite fieldsPredicate_spec,
      (members_spec (fun k v => exists x, member body k = Some x /\ satisfies v x)), Forall_forall.
    split.
    + intros H n Hn. apply list_elem_of_lookup in Hn as Hi. destruct Hi as [i Hi].
      destruct (Forall2_lookup_l _ _ _ _ _ HF Hi) as (f & Hg & Hf1 & Hf).
      destruct (H f) as (x & Hx & Hp); [by apply list_elem_of_lookup_2 in Hg|]. rewrite Hf1 in Hx.
      exists x. split; [done|]. by apply (Hkid n (f.2) Hn Hf).
    + intros H f Hg. apply list_elem_of_lookup in Hg as [i Hg].
      destruct (Forall2_lookup_r _ _ _ _ _ HF Hg) as (n & Hn & Hf1 & Hf). apply list_elem_of_lookup_2 in Hn.
      destruct (H n Hn) as (x & Hx & Hp). rewrite Hf1. exists x. split; [done|]. by apply (Hkid n (f.2) Hn Hf).
Qed.
End rule_object.

(** Rule compilation is exact: [compileRuleNode] accepts precisely the objects
    that are all operators with fitting operands, or all nested rules (so a body
    field may be called gt or oneOf), and the predicate it builds holds of a body
    exactly when the body satisfies the rule, whatever the order in which the
    members are visited.  Everything else is an error, never a rule that
    silently matches. *)
Theorem rules_compiled_exact node path :
  any_wf node ->
  match compileRuleNode node path with
  | inr p => valid_rule node /\ forall got, p got = true <-> satisfies node got
  | inl _ => ~ valid_rule node
  end.
Proof.
  revert path. induction node as [| | | | |obj IH] using any_rect'; intros path Hwf; try (by intros []).
  cbn [compileRuleNode]. unfold compileRuleObject. destruct obj as [|kv0 obj0] eqn:Eobj.
  { intros [? _]%valid_rule_Obj. done. }
  rewrite <- Eobj in *. assert (Hne : obj <> []) by (by rewrite Eobj). clear kv0 obj0 Eobj.
  assert (IH' : Forall (fun kv => forall path, match compileRuleNode (kv.2) path with
    | inr p => valid_rule (kv.2) /\ forall got, p got = true <-> satisfies (kv.2) got
    | inl _ => ~ valid_rule (kv.2) end) obj).
  { rewrite Forall_forall in IH |- *. intros [k v] Hin p. apply (IH _ Hin). by apply (wf_member _ _ _ Hwf Hin). }
  pose proof (operatorLeaf_spec obj (sortedNames obj) path []) as HL.
  destruct (operatorLeaf obj (sortedNames obj) path []) as [err|[leaf|]].
  - destruct HL as (n & Hn & Hc & Hob). intros [_ [HF|HF]]%valid_rule_Obj; [by apply (invalid_op _ Hwf n)|].
    apply (members_spec _ Hwf (fun _ v => valid_rule v)) with (n := n) in HF; [|done].
    by destruct (default Null (member obj n)).
  - destruct HL as (ms & Hms & ->). destruct (leaf_exact _ Hwf _ Hms) as [Hv Hp]. split.
    + apply valid_rule_Obj. auto.
    + intros got. rewrite Hp, satisfies_Obj. naive_solver.
  - destruct HL as (n & Hn & Hc). pose proof (invalid_op _ Hwf n Hn Hc) as Hnv.
    pose proof (compileFields_spec (map (fun '(k, v) => (k, compileRuleNode v)) obj) (sortedNames obj) path []) as HC.
    destruct (compileFields _ _ _ _) as [err|fs].
    + destruct HC as (n' & Hn' & Hk). intros [_ [HF|HF]]%valid_rule_Obj; [done|].
      apply sortedNames_elem, elem_names in Hn' as [v Hin]. destruct (wf_member _ _ _ Hwf Hin) as [_ Hm].
      destruct (Hk (compileRuleNode v)) as [e He]; [by rewrite member_map, Hm|].
      rewrite Forall_forall in IH', HF. specialize (IH' _ Hin (childPath path n')). simpl in IH'. rewrite He in IH'.
      by apply IH', (HF _ Hin).
    + destruct HC as (gs & -> & HF). destruct (nested_exact _ Hwf _ _ IH' HF) as [Hv Hp]. split.
      * apply valid_rule_Obj. auto.
      * intros got. rewrite satisfies_Obj. destruct got as [| | | | |body];
          [naive_solver..|]. change ([] ++ gs) with gs. rewrite Hp. naive_solver.
Qed.

Lemma rules_compiled_exact_witness :
  let node := Obj [("gt", Obj [("gte", Number "1e1")]); ("tag", Obj [("oneOf", Arr [Str "a"; Null])])] in
  any_wf node /\ (exists p, compileRuleNode node "" = inr p /\ p (Obj [("tag", Null); ("gt", Number "10.5")]) = true) /\
  satisfies node (Obj [("tag", Null); ("gt", Number "10.5")]).
Proof.
  intros node. assert (Hwf : any_wf node).
  { cbn; repeat match goal with |- _ /\ _ => split end; try exact I;
      try (eexists; vm_compute; reflexivity); by apply (bool_decide_unpack _); vm_compute. }
  split; [done|]. pose proof (rules_compiled_exact node "" Hwf) as H.
  assert (Hp : match compileRuleNode node "" with
    | inr p => p (Obj [("tag", Null); ("gt", Number "10.5")]) = true | inl _ => False end) by (vm_compute; reflexivity).
  destruct (compileRuleNode node "") as [e|p]; [done|]. destruct H as [_ H]. split.
  - exists p. split; [done|exact Hp].
  - apply H, Hp.
Defined.
