(* ===== verification/MockRules.v ===== *)
(** * Query and header rules (src/internal/mock/value.go, rules.go, query.go,
    header.go; src/internal/restfile/mock_matcher.go, mock_query.go,
    mock_header.go)

    A rule of a [@match] block is an operator with its values.  [Check] is the
    validation restfile does when a rule is read, [compileRule] turns a rule into
    a predicate on the values a request carries for one name, and [compileRules]
    a block into a rule set.  Regular expressions and the header checks of
    golang.org/x/net are parameters. *)
From stdpp Require Import base list strings gmap.
From Stdlib Require Import Ascii ZArith Lia.
From S2P Require Import Prelude GoStd GoPath Stdlib Names MockNumber.

Open Scope string_scope.
Open Scope nat_scope.
Open Scope list_scope.

(** ** restfile *)

Inductive MockMatchOp : Type :=
  | MockOpUnknown | MockOpExact | MockOpPrefix | MockOpPresent | MockOpAbsent | MockOpContains
  | MockOpRegex | MockOpOneOf | MockOpGT | MockOpGTE | MockOpLT | MockOpLTE.

Instance MockMatchOp_eq_dec : EqDecision MockMatchOp.
Proof. solve_decision. Defined.

(** [MockRule]: the operator and its operand. *)
Record MockRule := mkRule { Op : MockMatchOp; Values : list string }.

(** The JSON shape of an operand. *)
Inductive operand := operandFlag | operandString | operandList | operandNumber | operandShorthand.

Record matcherSpec := mkSpec { specName : string; specOperand : operand; specVerify : bool }.

(** [matcherSpecs] and [specOf] *)
Definition specOf (op : MockMatchOp) : option matcherSpec :=
  match op with
  | MockOpUnknown => None
  | MockOpExact => Some (mkSpec "exact" operandShorthand false)
  | MockOpPrefix => Some (mkSpec "prefix" operandString false)
  | MockOpPresent => Some (mkSpec "present" operandFlag false)
  | MockOpAbsent => Some (mkSpec "absent" operandFlag false)
  | MockOpContains => Some (mkSpec "contains" operandString false)
  | MockOpRegex => Some (mkSpec "regex" operandString true)
  | MockOpOneOf => Some (mkSpec "oneOf" operandList false)
  | MockOpGT => Some (mkSpec "gt" operandNumber false)
  | MockOpGTE => Some (mkSpec "gte" operandNumber false)
  | MockOpLT => Some (mkSpec "lt" operandNumber false)
  | MockOpLTE => Some (mkSpec "lte" operandNumber false)
  end.

Definition opString (op : MockMatchOp) : string :=
  match specOf op with Some spec => specName spec | None => "unknown" end.

(** [matcherOps.spec] *)
Definition opsSpec (ops : list MockMatchOp) (op : MockMatchOp) : option matcherSpec :=
  if bool_decide (op ∈ ops) then specOf op else None.

(** [matcherOps.named] *)
Fixpoint named (ops : list MockMatchOp) (name : string) : option MockMatchOp :=
  match ops with
  | [] => None
  | op :: ops' =>
      match specOf op with
      | Some spec => if decide (specName spec = name) then Some op else named ops' name
      | None => named ops' name
      end
  end.

Definition mockQueryOps : list MockMatchOp :=
  [MockOpExact; MockOpPrefix; MockOpPresent; MockOpAbsent; MockOpContains; MockOpRegex; MockOpOneOf;
   MockOpGT; MockOpGTE; MockOpLT; MockOpLTE].

Definition mockHeaderOps : list MockMatchOp :=
  [MockOpExact; MockOpPrefix; MockOpPresent; MockOpAbsent; MockOpContains; MockOpRegex; MockOpOneOf].

(** A JSON number literal, the whole text: [isJSONNumber]. *)
Definition jsonFrac (s : list Ascii.ascii) : option (list Ascii.ascii) :=
  match s with
  | "."%char :: s' => match cutDigits s' with ([], _) => None | (_, r) => Some r end
  | _ => Some s
  end.

Definition isJSONNumber (s : string) : bool :=
  let l := match bytes s with "-"%char :: l => l | l => l end in
  match cutDigits l with
  | ([], _) => false
  | (w, r) =>
      if bool_decide (head w = Some ZERO) && (1 <? length w) then false
      else match jsonFrac r with
           | None => false
           | Some r => bool_decide (is_Some (parseExponent r))
           end
  end.

Section rules.
Context (regexpCompile : string -> string + (string -> bool)).
Context (ValidHeaderFieldName ValidHeaderFieldValue : string -> bool) (CanonicalHeaderKey : string -> string).

(** [matcherSpec.check]; [None] is no error. *)
Definition specCheck (s : matcherSpec) (values : list string) : option string :=
  let bad :=
    match specOperand s with
    | operandFlag =>
        if negb (length values =? 0) then Some (specName s +:+ " matcher cannot have values") else None
    | operandString =>
        match values with
        | [v] => if decide (v = "") then Some (specName s +:+ " matcher requires one non-empty value") else None
        | _ => Some (specName s +:+ " matcher requires one non-empty value")
        end
    | operandNumber =>
        match values with
        | [v] => if isJSONNumber v then None else Some (specName s +:+ " matcher requires one JSON number")
        | _ => Some (specName s +:+ " matcher requires one JSON number")
        end
    | operandList | operandShorthand =>
        if length values =? 0 then Some (specName s +:+ " matcher requires at least one value") else None
    end in
  match bad with
  | Some err => Some err
  | None =>
      if specVerify s then
        match values with
        | v :: _ =>
            match regexpCompile v with
            | inr _ => None
            | inl err => Some (specName s +:+ " matcher is not a valid regular expression: " +:+ err)
            end
        | [] => None
        end
      else None
  end.

(** [MockQueryRule.Check] *)
Definition checkQuery (r : MockRule) : option string :=
  match opsSpec mockQueryOps (Op r) with
  | None => Some "matcher operation is invalid"
  | Some spec => specCheck spec (Values r)
  end.

(** [MockHeaderRule.Check] *)
Definition checkHeader (r : MockRule) : option string :=
  match opsSpec mockHeaderOps (Op r) with
  | None => Some "matcher operation is invalid"
  | Some spec =>
      match List.find (fun v => negb (ValidHeaderFieldValue v)) (Values r) with
      | Some v => Some (specName spec +:+ " matcher value " +:+ quote v +:+ " is not a valid header value")
      | None => specCheck spec (Values r)
      end
  end.

(** ** value.go *)

(** The values of one name; [None] is nil, a name the request never sent. *)
Definition valuePredicate : Type := option (list string) -> bool.

Definition exactValues (want : list string) : valuePredicate :=
  fun got => match got with Some got => bool_decide (got = want) | None => false end.

Definition anyValue (test : string -> bool) : valuePredicate :=
  fun got => existsb test (default [] got).

Definition anyPrefix (prefix : string) : valuePredicate := anyValue (String.prefix prefix).
Definition anyContains (sub : string) : valuePredicate := anyValue (fun v => Contains v sub).

Definition anyRegex (pattern : string) : string + valuePredicate :=
  match regexpCompile pattern with
  | inl err => inl ("regex matcher is not a valid regular expression: " +:+ err)
  | inr match_string => inr (anyValue match_string)
  end.

Definition anyOneOf (values : list string) : valuePredicate :=
  let allowed : gset string := list_to_set values in
  anyValue (fun v => bool_decide (v ∈ allowed)).

Definition valuePresent : valuePredicate := fun got => 0 <? length (default [] got).
Definition valueAbsent : valuePredicate := fun got => length (default [] got) =? 0.

Definition anyNumber (rel : numberRelation) (operand : string) : valuePredicate :=
  let want := default (mkNumber false [] 0) (parseNumber (bytes operand)) in
  anyValue (fun v =>
    match parseNumber (bytes v) with Some got => holds rel (cmp got want) | None => false end).

(** ** rules.go *)

(** [values[0]], which panics on no values ([None]). *)
Definition first (values : list string) (k : string -> string + valuePredicate) :
    option (string + valuePredicate) := k <$> head values.

Definition compileRule (op : MockMatchOp) (values : list string) : option (string + valuePredicate) :=
  match op with
  | MockOpExact => Some (inr (exactValues values))
  | MockOpPrefix => first values (fun v => inr (anyPrefix v))
  | MockOpContains => first values (fun v => inr (anyContains v))
  | MockOpRegex => first values anyRegex
  | MockOpOneOf => Some (inr (anyOneOf values))
  | MockOpPresent => Some (inr valuePresent)
  | MockOpAbsent => Some (inr valueAbsent)
  | MockOpGT => first values (fun v => inr (anyNumber relGT v))
  | MockOpGTE => first values (fun v => inr (anyNumber relGTE v))
  | MockOpLT => first values (fun v => inr (anyNumber relLT v))
  | MockOpLTE => first values (fun v => inr (anyNumber relLTE v))
  | MockOpUnknown => Some (inl (opString op +:+ " matcher is not supported"))
  end.

(** [compileQueryRule] and [compileHeaderRule] *)
Definition compileChecked (check : MockRule -> option string) (r : MockRule) :
    option (string + (MockRule * valuePredicate)) :=
  match check r with
  | Some err => Some (inl err)
  | None =>
      match compileRule (Op r) (Values r) with
      | None => None
      | Some (inl err) => Some (inl err)
      | Some (inr m) => Some (inr (r, m))
      end
  end.

Definition compileQueryRule := compileChecked checkQuery.
Definition compileHeaderRule := compileChecked checkHeader.

(** Query names are used as written. *)
Definition canonQueryName (name : string) : string + string :=
  if decide (TrimSpace name = "") then inl "mock query matcher name cannot be empty" else inr name.

Definition canonHeaderName (key : string) : string + string :=
  let name := TrimSpace key in
  if ValidHeaderFieldName name then inr (CanonicalHeaderKey name)
  else inl ("invalid mock header matcher " +:+ quote name).

Definition selectorNameHeader : string := "X-Resterm-Mock".
Definition selectorStatusHeader : string := "X-Resterm-Mock-Status".

Definition isSelectorHeader `{Unicode} (name : string) : bool :=
  EqualFold name selectorNameHeader || EqualFold name selectorStatusHeader.

Definition canonMatchHeaderName `{Unicode} (key : string) : string + string :=
  match canonHeaderName key with
  | inl err => inl err
  | inr name =>
      if isSelectorHeader name then inl ("mock selector header " +:+ quote name +:+ " cannot be used as a matcher")
      else inr name
  end.

(** [headerOrHost]: net/http keeps Host apart from the other headers. *)
Definition headerOrHost `{Unicode} (h : gmap string (list string)) (host name : string) : option (list string) :=
  if EqualFold name "Host" then (if decide (host = "") then None else Some [host])
  else h !! CanonicalHeaderKey name.

End rules.

Section rule_sets.
Context {R : Type}.

Record rule := mkCompiled { ruleName : string; ruleSource : R; ruleMatch : valuePredicate }.

(** [ruleSet.matches] *)
Fixpoint matchesAll (rs : list rule) (values : string -> option (list string)) : bool :=
  match rs with
  | [] => true
  | r :: rs' => if ruleMatch r (values (ruleName r)) then matchesAll rs' values else false
  end.

(** [ruleSet.declared] *)
Definition declared (rs : list rule) : gmap string R :=
  foldl (fun out r => <[ruleName r := ruleSource r]> out) ∅ rs.

Context (kind : string) (canon : string -> string + string)
  (compile : R -> option (string + (R * valuePredicate))).

(** The loop of [compileRules] over the sorted names; [None] is a panic. *)
Fixpoint compileLoop (src : gmap string R) (keys : list string) (out : list rule) :
    option (string + list rule) :=
  match keys with
  | [] => Some (inr out)
  | key :: keys' =>
      match src !! key with
      | None => compileLoop src keys' out
      | Some r =>
          match canon key with
          | inl err => Some (inl err)
          | inr name =>
              match compile r with
              | None => None
              | Some (inl err) =>
                  Some (inl ("mock " +:+ kind +:+ " matcher " +:+ quote name +:+ ": " +:+ err))
              | Some (inr (kept, m)) =>
                  if existsb (fun r => bool_decide (ruleName r = name)) out then
                    Some (inl ("mock " +:+ kind +:+ " matcher " +:+ quote name +:+ " is repeated with different casing"))
                  else compileLoop src keys' (out ++ [mkCompiled name kept m])
              end
          end
      end
  end.

Definition compileRules (src : gmap string R) : option (string + list rule) :=
  compileLoop src (sorted_keys src) [].
End rule_sets.
Arguments rule : clear implicits.

Definition compileQueryRules (regexpCompile : string -> string + (string -> bool)) :
    gmap string MockRule -> option (string + list (rule MockRule)) :=
  compileRules "query" canonQueryName (compileQueryRule regexpCompile).

Example query_rule_examples :
  let src : gmap string MockRule :=
    {[ "page" := mkRule MockOpGTE ["10"]; "tag" := mkRule MockOpOneOf ["a"; "b"]; "q" := mkRule MockOpExact ["x"; "y"] ]} in
  let run (req : gmap string (list string)) :=
    match compileQueryRules (fun _ => inl "") src with
    | Some (inr rs) => Some (matchesAll rs (fun n => req !! n))
    | _ => None
    end in
  (run {[ "page" := ["9"; "1e1"]; "tag" := ["b"]; "q" := ["x"; "y"] ]},
   run {[ "page" := ["10"]; "tag" := ["b"]; "q" := ["y"; "x"] ]},
   map isJSONNumber ["10"; "-0.5e+3"; "010"; "+1"; "1."; "."; ""; "1e"])
  = (Some true, Some false, [true; true; false; false; false; false; false; false]).
Proof. vm_compute. reflexivity. Qed.

(** * Query and header rules: theorems *)
From stdpp Require Import base list strings gmap.
From Stdlib Require Import Ascii ZArith Lia.
From S2P Require Import Prelude GoStd GoPath Stdlib Names MockNumber.

Open Scope string_scope.
Open Scope nat_scope.
Open Scope list_scope.

(** ** JSON numbers are numerals *)

Lemma jsonFrac_split s r : jsonFrac s = Some r ->
  match s with
  | "."%char :: rest => exists c f, cutDigits rest = (c :: f, r)
  | _ => r = s
  end.
Proof.
  unfold jsonFrac. destruct s as [|[[] [] [] [] [] [] [] []] s]; try congruence.
  destruct (cutDigits s) as [[|c f] r']; [done|]. intros [= ->]. eauto.
Qed.

Lemma json_number_numeral s : isJSONNumber s = true -> is_Some (parseNumber (bytes s)).
Proof.
  unfold isJSONNumber. set (l := match bytes s with "-"%char :: _ => _ | _ => _ end).
  destruct (cutDigits l) as [w r] eqn:Ec. destruct w as [|c w]; [done|].
  destruct (_ && _); [done|]. destruct (jsonFrac r) as [r'|] eqn:Ef; [|done].
  rewrite bool_decide_eq_true. intros [e He].
  assert (Hs : exists n, match bytes s with
    | c :: s' => if isSign c then (bool_decide (c = "-"%char), s') else (false, bytes s)
    | [] => (false, bytes s) end = (n, l)).
  { assert (Hl : bytes s = "-"%char :: l \/ l = bytes s).
    { subst l. destruct (bytes s) as [|[[] [] [] [] [] [] [] []] s']; auto. }
    destruct Hl as [-> | <-]; [by eexists|]. clearbody l. apply cutDigits_spec in Ec as (-> & Hd & _).
    apply Forall_cons in Hd as [Hd _]. simpl. rewrite (digit_not_sign _ Hd). by eexists. }
  destruct Hs as [n Hn]. unfold parseNumber. rewrite Hn, Ec.
  apply jsonFrac_split in Ef.
  assert (Hfr : exists f, match r with
      | "."%char :: rest => let '(frac, s') := cutDigits rest in match frac with [] => None | _ => Some (frac, s') end
      | _ => Some ([], r) end = Some (f, r')).
  { destruct r as [|d r0]; [subst r'; by eexists|].
    destruct d as [[] [] [] [] [] [] [] []]; try (subst r'; by eexists).
    destruct Ef as (c' & f & ->). by eexists. }
  destruct Hfr as [f ->]. rewrite He. cbv zeta. destruct (trimRight0 _); by eexists.
Qed.

(** ** The meaning of a rule *)

Lemma anyValue_spec test got : anyValue test got = true <-> exists v, v ∈ default [] got /\ test v = true.
Proof. unfold anyValue. rewrite existsb_exists. by setoid_rewrite list_elem_of_In. Qed.

Lemma prefix_app pre v : String.prefix pre v = true <-> exists s, v = pre +:+ s.
Proof.
  revert v. induction pre as [|c pre IH]; intros v; simpl.
  - split; [by exists v|by destruct v].
  - destruct v as [|d v]; [split; [done|by intros [s ?]]|].
    cbn [String.prefix]. destruct (ascii_dec c d) as [->|Hcd].
    + rewrite IH. split; intros [s Hs]; exists s; [by rewrite Hs|by injection Hs].
    + split; [done|]. intros [s [= ? _]]. congruence.
Qed.

Lemma Contains_spec v sub :
  sub <> "" -> (Contains v sub = true <-> exists m, String.substring m (String.length sub) v = sub).
Proof.
  intros Hne. unfold Contains. rewrite bool_decide_eq_true. split.
  - intros [m Hm]. exists m. by eapply String.index_correct1.
  - intros [m Hm]. destruct (String.index 0 sub v) as [k|] eqn:Hi; [by eauto|].
    destruct (String.index_correct3 0 m sub v Hi Hne); [lia|done].
Qed.

Definition num_rel (op : MockMatchOp) : option numberRelation :=
  match op with
  | MockOpGT => Some relGT | MockOpGTE => Some relGTE
  | MockOpLT => Some relLT | MockOpLTE => Some relLTE
  | _ => None
  end.

Section meaning.
Context (regexpCompile : string -> string + (string -> bool)) (ValidHeaderFieldValue : string -> bool).

(** A rule, as a statement about the values of its name. *)
Definition rule_holds (op : MockMatchOp) (values : list string) (got : option (list string)) : Prop :=
  let vs := default [] got in
  match op with
  | MockOpUnknown => False
  | MockOpExact => got = Some values
  | MockOpPrefix => exists v pre s, v ∈ vs /\ values = [pre] /\ v = pre +:+ s
  | MockOpContains => exists v sub m, v ∈ vs /\ values = [sub] /\ String.substring m (String.length sub) v = sub
  | MockOpRegex => exists v pattern re, v ∈ vs /\ values = [pattern] /\ regexpCompile pattern = inr re /\ re v = true
  | MockOpOneOf => exists v, v ∈ vs /\ v ∈ values
  | MockOpPresent => vs <> []
  | MockOpAbsent => vs = []
  | MockOpGT | MockOpGTE | MockOpLT | MockOpLTE =>
      exists rel v text w x, num_rel op = Some rel /\ v ∈ vs /\ values = [text] /\
        parseNumber (bytes text) = Some w /\ parseNumber (bytes v) = Some x /\ holds rel (cmp x w) = true
  end.

(** What a passed check says of the operand. *)
Lemma specCheck_shape s values :
  specCheck regexpCompile s values = None ->
  match specOperand s with
  | operandFlag => values = []
  | operandString => exists v, values = [v] /\ v <> "" /\ (specVerify s = true -> exists re, regexpCompile v = inr re)
  | operandNumber => exists v, values = [v] /\ isJSONNumber v = true
  | operandList | operandShorthand => values <> []
  end.
Proof.
  unfold specCheck. destruct (specOperand s); destruct values as [|v [|v' vs]]; simpl; try done.
  - case_decide; [done|]. intros Hx. exists v. split_and!; [done..|]. intros Hv. rewrite Hv in Hx.
    destruct (regexpCompile v); [done|by eauto].
  - destruct (isJSONNumber v) eqn:E; [by eauto|done].
Qed.

Lemma anyNumber_spec rel text got :
  isJSONNumber text = true ->
  anyNumber rel text got = true <->
  exists v w x, v ∈ default [] got /\ parseNumber (bytes text) = Some w /\ parseNumber (bytes v) = Some x /\
    holds rel (cmp x w) = true.
Proof.
  intros [w Hw]%json_number_numeral. unfold anyNumber. rewrite anyValue_spec, Hw. simpl. split.
  - intros (v & Hv & Hm). destruct (parseNumber (bytes v)) as [x|] eqn:Hx; [|done]. by exists v, w, x.
  - intros (v & w' & x & Hv & [= <-] & Hx & Hm). exists v. by rewrite Hx.
Qed.

Lemma opsSpec_Some ops op s : opsSpec ops op = Some s -> op ∈ ops /\ specOf op = Some s.
Proof. unfold opsSpec. by case_bool_decide. Qed.

Lemma compileRule_exact op values s :
  specOf op = Some s -> specCheck regexpCompile s values = None ->
  exists p, compileRule regexpCompile op values = Some (inr p) /\
    forall got, p got = true <-> rule_holds op values got.
Proof.
  intros Hs Hc%specCheck_shape. destruct op; simpl in Hs; try done; injection Hs as <-; simpl in Hc.
  - eexists. split; [done|]. intros got. unfold exactValues, rule_holds. destruct got as [g|]; [|naive_solver].
    rewrite bool_decide_eq_true. naive_solver.
  - destruct Hc as (v & -> & Hv & _). eexists. split; [done|]. intros got. unfold anyPrefix, rule_holds.
    rewrite anyValue_spec. setoid_rewrite prefix_app. naive_solver.
  - subst. eexists. split; [done|]. intros got. unfold valuePresent, rule_holds. rewrite Nat.ltb_lt.
    destruct (default [] got); naive_solver (simpl; lia).
  - subst. eexists. split; [done|]. intros got. unfold valueAbsent, rule_holds. rewrite Nat.eqb_eq. apply length_zero_iff_nil.
  - destruct Hc as (v & -> & Hv & _). eexists. split; [done|]. intros got. unfold anyContains, rule_holds.
    rewrite anyValue_spec. setoid_rewrite (fun v' => Contains_spec v' v Hv). naive_solver.
  - destruct Hc as (v & -> & Hv & Hre). destruct (Hre eq_refl) as [re Hr].
    exists (anyValue re). split; [cbn; unfold anyRegex; rewrite Hr; reflexivity|]. intros got. unfold rule_holds.
    rewrite anyValue_spec. split.
    + intros (x & Hx & Hm). by exists x, v, re.
    + intros (x & pattern & re' & Hx & [= <-] & Hr' & Hm). exists x. split; [done|].
      rewrite Hr in Hr'. by injection Hr' as <-.
  - eexists. split; [done|]. intros got. unfold anyOneOf, rule_holds. rewrite anyValue_spec.
    setoid_rewrite bool_decide_eq_true. by setoid_rewrite elem_of_list_to_set.
  - destruct Hc as (v & -> & Hv). eexists. split; [done|]. intros got. unfold rule_holds.
    rewrite anyNumber_spec by done. naive_solver.
  - destruct Hc as (v & -> & Hv). eexists. split; [done|]. intros got. unfold rule_holds.
    rewrite anyNumber_spec by done. naive_solver.
  - destruct Hc as (v & -> & Hv). eexists. split; [done|]. intros got. unfold rule_holds.
    rewrite anyNumber_spec by done. naive_solver.
  - destruct Hc as (v & -> & Hv). eexists. split; [done|]. intros got. unfold rule_holds.
    rewrite anyNumber_spec by done. naive_solver.
Qed.

(** A rule that passes [Check] (for queries or for headers) always compiles:
    [compileRule] never indexes an empty operand and never fails, and its
    predicate holds of the values a request carries exactly when the rule, read
    as a statement, does. *)
Theorem checked_rule_exact r :
  checkQuery regexpCompile r = None \/ checkHeader regexpCompile ValidHeaderFieldValue r = None ->
  exists p, compileRule regexpCompile (Op r) (Values r) = Some (inr p) /\
    forall got, p got = true <-> rule_holds (Op r) (Values r) got.
Proof.
  unfold checkQuery, checkHeader. intros [H|H].
  - destruct (opsSpec mockQueryOps (Op r)) as [s|] eqn:E; [|done]. apply opsSpec_Some in E as [_ E].
    by apply (compileRule_exact _ _ s).
  - destruct (opsSpec mockHeaderOps (Op r)) as [s|] eqn:E; [|done]. apply opsSpec_Some in E as [_ E].
    destruct (List.find _ _); [done|]. by apply (compileRule_exact _ _ s).
Qed.
End meaning.

Lemma checked_rule_exact_witness :
  let r := mkRule MockOpGT ["-1.5e3"] in
  checkQuery (fun _ => inl "") r = None /\
  exists p, compileRule (fun _ => inl "") (Op r) (Values r) = Some (inr p) /\
    (forall got, p got = true <-> rule_holds (fun _ => inl "") (Op r) (Values r) got) /\
    p (Some ["abc"; "-1499"]) = true /\ p (Some ["-1500.0"]) = false.
Proof.
  intros r. assert (Hc : checkQuery (fun _ => inl "") r = None) by (vm_compute; reflexivity).
  split; [done|]. destruct (checked_rule_exact (fun _ => inl "") (fun _ => true) r (or_introl Hc)) as (p & Hp & Hm).
  exists p. split; [done|]. split; [done|]. injection Hp as <-. split; vm_compute; reflexivity.
Defined.

(** ** Blocks of rules *)

Section blocks.
Context {R : Type} (kind : string) (canon : string -> string + string)
  (compile : R -> option (string + (R * valuePredicate))).

Definition ruleNames (rs : list (rule R)) : list string := ruleName <$> rs.

(** The compiled rule of an entry. *)
Definition compiled_of (key : string) (r : R) (c : rule R) : Prop :=
  canon key = inr (ruleName c) /\ compile r = Some (inr (ruleSource c, ruleMatch c)).

Lemma matchesAll_spec rs values :
  matchesAll rs values = true <-> Forall (fun c : rule R => ruleMatch c (values (ruleName c)) = true) rs.
Proof.
  induction rs as [|c rs IH]; simpl; [by rewrite Forall_nil|]. rewrite Forall_cons, <- IH.
  destruct (ruleMatch c _); naive_solver.
Qed.

(** What the loop returns: the compiled entries, or an error that one of them
    causes. *)
Lemma compileLoop_spec src keys out :
  NoDup (ruleNames out) -> Forall (fun k => is_Some (src !! k)) keys ->
  match compileLoop kind canon compile src keys out with
  | Some (inr rs) => exists cs, rs = out ++ cs /\ NoDup (ruleNames rs) /\
      Forall2 (fun k c => exists r, src !! k = Some r /\ compiled_of k r c) keys cs
  | Some (inl _) =>
      (exists k r err, k ∈ keys /\ src !! k = Some r /\ (canon k = inl err \/ compile r = Some (inl err))) \/
      (exists k name, k ∈ keys /\ canon k = inr name /\ name ∈ ruleNames out) \/
      (exists i j k1 k2 name, keys !! i = Some k1 /\ keys !! j = Some k2 /\ i <> j /\ canon k1 = inr name /\ canon k2 = inr name)
  | None => exists k r, k ∈ keys /\ src !! k = Some r /\ compile r = None
  end.
Proof.
  revert out. induction keys as [|key keys IH]; intros out Hnd Hk; cbn [compileLoop].
  { exists []. split_and!; [by rewrite app_nil_r|done|constructor]. }
  apply Forall_cons in Hk as [[r Hr] Hk]. rewrite Hr.
  destruct (canon key) as [err|name] eqn:Hcan.
  { left. exists key, r, err. split_and!; auto using list_elem_of_here. }
  destruct (compile r) as [[err|[kept m]]|] eqn:Hcom.
  - left. exists key, r, err. split_and!; auto using list_elem_of_here.
  - destruct (existsb _ out) eqn:Hex.
    { right; left. apply existsb_exists in Hex as (c & Hc & Hn). apply bool_decide_eq_true in Hn.
      exists key, name. split_and!; [apply list_elem_of_here|done|]. rewrite <- Hn.
      by apply list_elem_of_fmap_2, list_elem_of_In. }
    assert (Hfresh : name ∉ ruleNames out).
    { intros (c & Hn & Hc)%list_elem_of_fmap. apply not_true_iff_false in Hex. apply Hex, existsb_exists.
      exists c. split; [by apply list_elem_of_In|]. by apply bool_decide_eq_true. }
    set (c := mkCompiled name kept m).
    assert (Hnd' : NoDup (ruleNames (out ++ [c]))).
    { unfold ruleNames. rewrite fmap_app. apply NoDup_app. split_and!; [done| |apply NoDup_singleton].
      intros x Hx ->%list_elem_of_singleton. done. }
    specialize (IH _ Hnd' Hk). destruct (compileLoop _ _ _ _ _ _) as [[err|rs]|].
    + destruct IH as [(k & r' & e & Hin & H)|[(k & n & Hin & Hcn & Hn)|(i & j & k1 & k2 & n & Hi & Hj & Hij & H)]].
      * left. exists k, r', e. split; [by apply list_elem_of_further|done].
      * unfold ruleNames in Hn. rewrite fmap_app, elem_of_app in Hn. destruct Hn as [Hn| ->%list_elem_of_singleton].
        -- right; left. exists k, n. split_and!; [by apply list_elem_of_further|done..].
        -- right; right. apply list_elem_of_lookup in Hin as [i Hi]. by exists 0, (S i), key, k, name.
      * right; right. exists (S i), (S j), k1, k2, n. split_and!; naive_solver.
    + destruct IH as (cs & -> & Hn & HF). exists (c :: cs). rewrite <- app_assoc. split_and!; [done| |].
      * by rewrite <- app_assoc in Hn.
      * constructor; [|done]. by exists r.
    + destruct IH as (k & r' & Hin & H). exists k, r'. split; [by apply list_elem_of_further|done].
  - exists key, r. split_and!; auto using list_elem_of_here.
Qed.

(** Compiling a block of rules is exact whatever the map's iteration order:
    it fails only because some name or some rule is rejected, or because two
    names fold onto one; otherwise every entry has exactly one compiled rule, no
    name occurs twice, and the block matches a request exactly when every rule
    holds of the values of its name.  It panics only if compiling a rule does. *)
Theorem block_compiled_exact src :
  match compileRules kind canon compile src with
  | Some (inr rs) =>
      NoDup (ruleNames rs) /\
      (forall values, matchesAll rs values = true <->
         forall k r, src !! k = Some r -> exists c, c ∈ rs /\ compiled_of k r c /\ ruleMatch c (values (ruleName c)) = true)
  | Some (inl _) =>
      (exists k r err, src !! k = Some r /\ (canon k = inl err \/ compile r = Some (inl err))) \/
      (exists k1 k2 name, is_Some (src !! k1) /\ is_Some (src !! k2) /\ k1 <> k2 /\ canon k1 = inr name /\ canon k2 = inr name)
  | None => exists k r, src !! k = Some r /\ compile r = None
  end.
Proof.
  unfold compileRules.
  assert (Hks : Forall (fun k => is_Some (src !! k)) (sorted_keys src)).
  { apply Forall_forall. intros k. apply sorted_keys_elem. }
  assert (Hnk : NoDup (sorted_keys src)) by (rewrite sorted_keys_perm; apply NoDup_fst_map_to_list).
  pose proof (compileLoop_spec src (sorted_keys src) [] (NoDup_nil_2) Hks) as H.
  destruct (compileLoop _ _ _ _ _ _) as [[err|rs]|].
  - destruct H as [(k & r & e & _ & H)|[(k & n & _ & _ & Hn%elem_of_nil)|(i & j & k1 & k2 & n & Hi & Hj & Hij & H1 & H2)]];
      [by eauto 10|done|].
    right. rewrite Forall_forall in Hks. exists k1, k2, n.
    split_and!; [by apply Hks, list_elem_of_lookup; eauto..| |done|done].
    intros ->. by apply Hij, (NoDup_lookup (sorted_keys src) i j k2).
  - destruct H as (cs & -> & Hn & HF). split; [done|]. intros values. cbn [app] in *.
    rewrite matchesAll_spec, Forall_forall. split.
    + intros Hall k r Hr. assert (Hk : k ∈ sorted_keys src) by (apply sorted_keys_elem; eauto).
      apply list_elem_of_lookup in Hk as [i Hi]. destruct (Forall2_lookup_l _ _ _ _ _ HF Hi) as (c & Hc & r' & Hr' & Hof).
      assert (r' = r) as -> by congruence. apply list_elem_of_lookup_2 in Hc. exists c. auto.
    + intros Hall c Hc. apply list_elem_of_lookup in Hc as [i Hi].
      destruct (Forall2_lookup_r _ _ _ _ _ HF Hi) as (k & Hk & r & Hr & Hof).
      destruct (Hall k r Hr) as (c' & Hc' & [Hn1 Hn2] & Hm). destruct Hof as [Hn3 Hn4].
      destruct c as [n1 s1 m1], c' as [n2 s2 m2]. simpl in *. congruence.
  - destruct H as (k & r & _ & H). by exists k, r.
Qed.
End blocks.
