(* ===== verification/MockServe.v ===== *)
(** * The mock server's state (src/internal/mock/journal.go, log.go, sequence.go,
    verify.go, select.go, match.go)

    [Journal]: the requests received, in bounded memory, and counting them.
    [Ring]: the event log.  [Sequence]: which response of a sequence comes next.
    [Select]: which scenario of a route answers a request; the probe, whose body
    is read at most once, is threaded through the matchers as the code threads
    it.  The text a body decodes to, the multiplexer and the clock are
    parameters. *)
From stdpp Require Import base list strings gmap.
From Stdlib Require Import Ascii ZArith Lia.
From S2P Require Import Prelude GoStd GoPath MockNumber MockMatch MockRules.

Open Scope string_scope.
Open Scope nat_scope.
Open Scope list_scope.

Module Journal.

Record requestRecord := mkRecord {
  method : string;
  path : string;
  rawPath : string;
  host : string;
  query : gmap string (list string);
  headers : gmap string (list string);
  body : string;
  bodyTruncated : bool;
  size : Z
}.

(** [retainedSize] *)
Definition valuesSize (m : gmap string (list string)) : Z :=
  map_fold (fun name values n => slen name + foldr (fun v n => slen v + n) 0 values + n)%Z 0%Z m.

Definition retainedSize (r : requestRecord) : Z :=
  (slen (method r) + slen (path r) + slen (rawPath r) + slen (host r) +
   valuesSize (query r) + valuesSize (headers r) + slen (body r))%Z.

Record requestJournal := mkJournal {
  entries : list requestRecord;
  entryLimit : Z;
  byteLimit : Z;
  bodyLimit : Z;
  retained : Z;
  isIncomplete : bool
}.

(** The journal's options; a limit that is not positive stands for the default. *)
Record Options := mkOptions { JournalEntries : Z; JournalBytes : Z; JournalBodyLimit : Z }.

Definition DefaultJournalEntries : Z := 2000.
Definition DefaultJournalBytes : Z := Z.shiftl 16 20.
Definition DefaultJournalBodyLimit : Z := Z.shiftl 64 10.
Definition MaxInt : Z := (2 ^ 63 - 1)%Z.

Definition newRequestJournal (opts : Options) : string + requestJournal :=
  let entryLimit := if (JournalEntries opts <=? 0)%Z then DefaultJournalEntries else JournalEntries opts in
  let byteLimit := if (JournalBytes opts <=? 0)%Z then DefaultJournalBytes else JournalBytes opts in
  let bodyLimit := if (JournalBodyLimit opts <=? 0)%Z then DefaultJournalBodyLimit else JournalBodyLimit opts in
  if (MaxInt <=? bodyLimit)%Z then inl "mock journal body limit is too large"
  else if (byteLimit <? bodyLimit)%Z then inl "mock journal body limit exceeds total byte limit"
  else inr (mkJournal [] entryLimit byteLimit bodyLimit 0 false).

Definition set_incomplete (j : requestJournal) : requestJournal :=
  mkJournal (entries j) (entryLimit j) (byteLimit j) (bodyLimit j) (retained j) true.

Definition dropOldest (j : requestJournal) : requestJournal :=
  match entries j with
  | [] => j
  | e :: es => mkJournal es (entryLimit j) (byteLimit j) (bodyLimit j) (retained j - size e) (isIncomplete j)
  end.

(** The condition of the loop in [add]. *)
Definition full (entry : requestRecord) (j : requestJournal) : bool :=
  (entryLimit j <=? Z.of_nat (length (entries j)))%Z || (byteLimit j - retained j <? size entry)%Z.

(** [add].  The loop runs at most once per entry ([journal_window]: that is
    enough). *)
Definition add (j : requestJournal) (entry : requestRecord) : requestJournal :=
  if (byteLimit j <? size entry)%Z then set_incomplete j
  else
    let j := while (length (entries j)) (full entry) (fun j => set_incomplete (dropOldest j)) j in
    mkJournal (entries j ++ [entry]) (entryLimit j) (byteLimit j) (bodyLimit j)
      (retained j + size entry) (isIncomplete j).

Definition clear (j : requestJournal) : requestJournal :=
  mkJournal [] (entryLimit j) (byteLimit j) (bodyLimit j) 0 false.

Inductive countError := PatternErr (e : string) | IncompleteError (reason : string) | CtxErr (e : string).

(** [count]: [compile] is [compileRequestPattern], whose result tests a record;
    [ctx i] is what [ctx.Err()] returns at the i-th entry. *)
Fixpoint countEntries (matches : requestRecord -> countError + bool) (ctx : nat -> option string)
    (i : nat) (es : list requestRecord) (n : N) : countError + N :=
  match es with
  | [] => inr n
  | e :: es' =>
      match ctx i with
      | Some err => inl (CtxErr err)
      | None =>
          match matches e with
          | inl err => inl err
          | inr true => countEntries matches ctx (S i) es' (n + 1)
          | inr false => countEntries matches ctx (S i) es' n
          end
      end
  end.

Definition count (compiled : string + (requestRecord -> countError + bool)) (ctx : nat -> option string)
    (j : requestJournal) : countError + N :=
  match compiled with
  | inl err => inl (PatternErr err)
  | inr matches =>
      if isIncomplete j then
        inl (IncompleteError "older requests were evicted or dropped; clear the journal to reset verification")
      else countEntries matches ctx 0 (entries j) 0
  end.

Record JournalStats := mkStats {
  stEntries : Z; stEntryLimit : Z; stRetained : Z; stByteLimit : Z; stComplete : bool
}.

Definition stats (j : requestJournal) : JournalStats :=
  mkStats (Z.of_nat (length (entries j))) (entryLimit j) (retained j) (byteLimit j) (negb (isIncomplete j)).

(** *** Matching a record (pattern.go) *)

(** [compiledPattern]; a condition that is absent is [None]. *)
Record compiledPattern := mkPattern {
  pmethod : string;
  ppath : option (string -> string -> bool);
  pquery : gmap string (list string) -> bool;
  pheaders : gmap string (list string) -> string -> bool;
  pjson : option jsonPredicate
}.

(** [compiledPattern.matches]: [media] is [isJSONMediaType] of the record's
    Content-Type, [decodeJSON] the decoder. *)
Definition matches (media : requestRecord -> bool) (decodeJSON : string -> option any)
    (p : compiledPattern) (entry : requestRecord) : countError + bool :=
  if negb (bool_decide (pmethod p = "")) && negb (bool_decide (method entry = pmethod p)) then inr false
  else if match ppath p with Some m => negb (m (path entry) (rawPath entry)) | None => false end then inr false
  else if negb (pquery p (query entry)) then inr false
  else if negb (pheaders p (headers entry) (host entry)) then inr false
  else match pjson p with
       | None => inr true
       | Some json =>
           if negb (media entry) then inr false
           else if bodyTruncated entry then inl (IncompleteError "request body was truncated")
           else match decodeJSON (body entry) with
                | None => inr false
                | Some v => inr (json v)
                end
       end.

(** *** Capturing a body *)

(** A reader: what it will deliver, and how it ends ([None] is EOF). *)
Record reader := mkReader { data : list ascii; ending : option string }.

(** [io.ReadAll(io.LimitReader(rd, n))]: the bytes, the error, what is left of
    [rd]. *)
Definition ReadAllLimited (n : nat) (rd : reader) : list ascii * option string * reader :=
  if n <=? length (data rd) then (take n (data rd), None, mkReader (drop n (data rd)) (ending rd))
  else (data rd, ending rd, mkReader [] (ending rd)).

(** [io.MultiReader(bytes.NewReader(b), rd)] *)
Definition MultiReader (b : list ascii) (rd : reader) : reader := mkReader (b ++ data rd) (ending rd).

(** [terminalErrorReader] *)
Definition terminalErrorReader (err : string) : reader := mkReader [] (Some err).

(** The body part of [capture]: the bytes kept, whether they are cut short, the
    request's new body, and the read error. *)
Definition captureBody (limit : Z) (rd : reader) : list ascii * bool * reader * option string :=
  let '(b, err, rest) := ReadAllLimited (Z.to_nat (limit + 1)) rd in
  let '(truncated, rd', readErr) :=
    match err with
    | Some e => (true, MultiReader b (terminalErrorReader e), Some ("read request journal body: " +:+ e))
    | None =>
        if (limit <? Z.of_nat (length b))%Z then (true, MultiReader b rest, None)
        else (false, mkReader b None, None)
    end in
  (if (limit <? Z.of_nat (length b))%Z then take (Z.to_nat limit) b else b, truncated, rd', readErr).

(** A request; the body is [None] for nil and [http.NoBody]. *)
Record Request := mkRequest {
  rMethod : string; rPath : string; rRawPath : string; rHost : string;
  rQuery : gmap string (list string); rHeader : gmap string (list string);
  rBody : option reader
}.

Definition capture (j : requestJournal) (r : Request) : requestRecord * Request * option string :=
  let entry b tr :=
    let e := mkRecord (rMethod r) (rPath r) (rRawPath r) (rHost r) (rQuery r) (rHeader r) b tr 0 in
    mkRecord (method e) (path e) (rawPath e) (host e) (query e) (headers e) (body e) (bodyTruncated e) (retainedSize e) in
  match rBody r with
  | None => (entry "" false, r, None)
  | Some rd =>
      let '(b, tr, rd', err) := captureBody (bodyLimit j) rd in
      (entry (str b) tr,
       mkRequest (rMethod r) (rPath r) (rRawPath r) (rHost r) (rQuery r) (rHeader r) (Some rd'), err)
  end.

(** *** verify.go *)

Record Expectation (P : Type) := mkExpectation { Pattern : P; Calls : N }.
Arguments mkExpectation {P}. Arguments Pattern {P}. Arguments Calls {P}.

Record VerificationResult (P : Type) := mkResult {
  vExpectation : Expectation P; Actual : N; Err : option countError; Passed : bool
}.
Arguments mkResult {P}. Arguments vExpectation {P}. Arguments Actual {P}. Arguments Err {P}. Arguments Passed {P}.

Definition Verify {P} (Count : P -> countError + N) (expectations : list (Expectation P)) :
    list (VerificationResult P) :=
  map (fun e =>
    match Count (Pattern e) with
    | inl err => mkResult e 0 (Some err) false
    | inr n => mkResult e n None (n =? Calls e)%N
    end) expectations.

End Journal.

Module Ring.

Record ring (E : Type) := mkRing { events : list E; head : nat; limit : nat }.
Arguments mkRing {E}. Arguments events {E}. Arguments head {E}. Arguments limit {E}.

Section ring.
Context {E : Type}.

Definition add (r : ring E) (e : E) : ring E :=
  if length (events r) <? limit r then mkRing (events r ++ [e]) (head r) (limit r)
  else mkRing (<[head r := e]> (events r)) ((head r + 1) mod limit r) (limit r).

(** [list] *)
Definition listEvents (r : ring E) : list E := drop (head r) (events r) ++ take (head r) (events r).

Definition clear (r : ring E) : ring E := mkRing [] 0 (limit r).
End ring.
End Ring.

Module Sequence.

(** [sequenceCursor]; the step numbers are uint64. *)
Record sequenceCursor := mkCursor { steps : gmap string N; limit : Z }.

Definition advance (c : sequenceCursor) (key : string) (last : N) : option N * sequenceCursor :=
  let next := default 0%N (steps c !! key) in
  let exist := bool_decide (is_Some (steps c !! key)) in
  if negb exist && negb (bool_decide (key = "")) && (limit c <=? Z.of_nat (base.size (steps c)))%Z then (None, c)
  else (Some (N.min next last), mkCursor (<[key := N.min (next + 1) last]> (steps c)) (limit c)).

Definition reset (c : sequenceCursor) : sequenceCursor := mkCursor ∅ (limit c).
Definition setLimit (limit : Z) (c : sequenceCursor) : sequenceCursor := mkCursor (steps c) limit.

End Sequence.

(** * The mock server's state: theorems

    The journal keeps the longest run of latest requests that fits its limits
    and says so exactly when it lost one; counting is therefore exact or refused.
    The event log keeps the last events; the sequence cursor hands out each
    key's steps in order and sticks at the last. *)
From stdpp Require Import base list strings gmap.
From Stdlib Require Import Ascii ZArith Lia.
From S2P Require Import Prelude GoStd MockNumber MockMatch MockRules.

Open Scope string_scope.
Open Scope nat_scope.
Open Scope list_scope.

(** ** The journal *)

Section journal.
Import Journal.

Definition total (es : list requestRecord) : Z := foldr (fun e n => size e + n)%Z 0%Z es.

Lemma total_app a b : total (a ++ b) = (total a + total b)%Z.
Proof. induction a as [|e a IH]; simpl; [done|]. rewrite IH. lia. Qed.

(** The operations, and the requests received since the last clear. *)
Inductive op := OAdd (e : requestRecord) | OClear.

Definition exec (j : requestJournal) (o : op) : requestJournal :=
  match o with OAdd e => add j e | OClear => clear j end.

Definition since (ops : list op) : list requestRecord :=
  foldl (fun log o => match o with OAdd e => log ++ [e] | OClear => [] end) [] ops.

Definition op_ok (o : op) : Prop := match o with OAdd e => (0 <= size e)%Z | OClear => True end.

(** The two limits. *)
Definition fits (j : requestJournal) (es : list requestRecord) : Prop :=
  (Z.of_nat (length es) <= entryLimit j)%Z /\ (total es <= byteLimit j)%Z.

(** The requests that can be kept at all. *)
Definition accepted (j : requestJournal) (log : list requestRecord) : list requestRecord :=
  filter (fun e => (size e <= byteLimit j)%Z) log.

(** [es] is the longest suffix of [log] that fits. *)
Definition longest (j : requestJournal) (es log : list requestRecord) : Prop :=
  fits j es /\ exists d, log = d ++ es /\
    forall d1 d2, d = d1 ++ d2 -> d2 <> [] -> ~ fits j (d2 ++ es).

Definition sizes_ok (es : list requestRecord) : Prop := Forall (fun e => 0 <= size e)%Z es.

Lemma total_nonneg es : sizes_ok es -> (0 <= total es)%Z.
Proof. induction 1; simpl; lia. Qed.

Definition same_limits (j j' : requestJournal) : Prop :=
  entryLimit j = entryLimit j' /\ byteLimit j = byteLimit j' /\ bodyLimit j = bodyLimit j'.

Lemma add_same_limits j e : same_limits (add j e) j.
Proof.
  unfold add. destruct (byteLimit j <? size e)%Z; [by repeat split|].
  assert (H : same_limits (while (length (entries j)) (full e) (fun j => set_incomplete (dropOldest j)) j) j).
  { apply (while_inv (fun j' => same_limits j' j)); [|by repeat split].
    intros j' Hj _. destruct Hj as (? & ? & ?). unfold dropOldest. by destruct (entries j'). }
  exact H.
Qed.

Lemma fits_limits j j' es : same_limits j j' -> fits j es <-> fits j' es.
Proof. intros (He & Hb & _). unfold fits. by rewrite He, Hb. Qed.

(** The journal's own invariant. *)
Record jinv (j : requestJournal) (log : list requestRecord) : Prop := {
  ji_limit : (0 < entryLimit j)%Z /\ (0 < byteLimit j)%Z;
  ji_sizes : sizes_ok log;
  ji_retained : retained j = total (entries j);
  ji_longest : longest j (entries j) (accepted j log);
  ji_flag : isIncomplete j = false <-> fits j log
}.

(** What the eviction loop leaves: the longest suffix of the entries next to
    which the new entry fits, and the flag if one was dropped. *)
Record evicted (e : requestRecord) (j j' : requestJournal) : Prop := {
  ev_limits : same_limits j' j;
  ev_retained : retained j' = total (entries j');
  ev_drop : exists d, entries j = d ++ entries j' /\
    (forall d1 d2, d = d1 ++ d2 -> d2 <> [] -> ~ fits j (d2 ++ entries j' ++ [e])) /\
    (isIncomplete j' = false <-> isIncomplete j = false /\ d = [])
}.

Lemma full_spec e j :
  retained j = total (entries j) -> (full e j = false <-> fits j (entries j ++ [e])).
Proof.
  intros Hr. unfold full, fits. rewrite orb_false_iff, Z.leb_gt, Z.ltb_ge, length_app, total_app, Hr.
  cbn [length total foldr]. lia.
Qed.

Lemma fits_suffix j d es : sizes_ok d -> fits j (d ++ es) -> fits j es.
Proof.
  intros Hd%total_nonneg [H1 H2]. rewrite length_app in H1. rewrite total_app in H2. unfold fits. lia.
Qed.

Lemma evict_step e j0 j :
  sizes_ok (entries j0) -> evicted e j0 j -> full e j = true -> (0 < entryLimit j)%Z -> (size e <= byteLimit j)%Z ->
  evicted e j0 (set_incomplete (dropOldest j)).
Proof.
  intros Hs [Hl Hr (d & Hd & Hmin & Hf)] Hfull Hel Hbl. unfold dropOldest.
  destruct (entries j) as [|x es] eqn:Ee.
  { exfalso. unfold full in Hfull. rewrite Ee, Hr in Hfull. cbn in Hfull.
    apply orb_true_iff in Hfull as [H%Z.leb_le|H%Z.ltb_lt]; lia. }
  split; cbn [entries retained isIncomplete set_incomplete entryLimit byteLimit bodyLimit]; [done| |].
  { rewrite Hr. simpl. lia. }
  exists (d ++ [x]). split; [by rewrite Hd, <- app_assoc|]. split.
  - intros d1 d2 Hdd Hne Hfit. rewrite (fits_limits _ _ _ (conj (eq_sym (proj1 Hl)) (conj (eq_sym (proj1 (proj2 Hl))) (eq_sym (proj2 (proj2 Hl)))))) in Hfit.
    destruct (exists_last Hne) as (d2' & y & ->). rewrite app_assoc in Hdd.
    apply app_inj_tail in Hdd as [Hdd <-].
    rewrite <- app_assoc in Hfit. cbn [app] in Hfit.
    apply fits_suffix in Hfit.
    + assert (Hnf : ~ fits j (entries j ++ [e])).
      { rewrite <- full_spec by (by rewrite Hr, Ee). by rewrite Hfull. }
      rewrite Ee in Hnf. by apply Hnf.
    + rewrite Hd, Hdd in Hs. apply Forall_app in Hs as [Hs _]. by apply Forall_app in Hs as [_ Hs].
  - split; [done|]. intros [_ Hnil]. by destruct d.
Qed.

Lemma evict_loop e j :
  sizes_ok (entries j) -> retained j = total (entries j) -> (0 < entryLimit j)%Z -> (size e <= byteLimit j)%Z ->
  let j' := while (length (entries j)) (full e) (fun j => set_incomplete (dropOldest j)) j in
  evicted e j j' /\ full e j' = false.
Proof.
  intros Hs Hr Hel Hbl.
  pose proof (while_spec (fun k => length (entries k))
    (fun k => evicted e j k /\ entryLimit k = entryLimit j /\ byteLimit k = byteLimit j)
    (full e) (fun j => set_incomplete (dropOldest j))) as W.
  destruct (W) with (n := length (entries j)) (s := j) as [(Hev & _) Hf].
  - intros k (Hk & H1 & H2) Hf. split; [split; [apply evict_step; [done..|lia|lia]|]|].
    + unfold dropOldest. by destruct (entries k).
    + unfold dropOldest. destruct (entries k) as [|x es] eqn:Ee; [|simpl; lia].
      exfalso. unfold full in Hf. rewrite (ev_retained _ _ _ Hk), Ee in Hf. cbn in Hf.
      apply orb_true_iff in Hf as [H%Z.leb_le|H%Z.ltb_lt]; lia.
  - split; [|done]. split; [by repeat split|done|]. exists []. split_and!; [done| |tauto].
    intros d1 d2 Hd Hne. symmetry in Hd. apply app_nil in Hd as [_ ->]. done.
  - done.
  - done.
Qed.

Lemma filter_snoc {A} (P : A -> Prop) `{forall x, Decision (P x)} (l : list A) x :
  filter P (l ++ [x]) = filter P l ++ (if decide (P x) then [x] else []).
Proof. by rewrite filter_app. Qed.

Lemma total_accepted j log : sizes_ok log -> (total (accepted j log) <= total log)%Z.
Proof.
  intros Hs. unfold accepted. induction Hs as [|e log He Hs IH]; [done|].
  rewrite filter_cons. case_decide; simpl; lia.
Qed.

(** If everything fits, nothing was refused or dropped. *)
Lemma fits_all j log es :
  sizes_ok log -> longest j es (accepted j log) -> fits j log -> es = log.
Proof.
  intros Hs [_ (d & Hd & Hmin)] Hfit.
  assert (Ha : accepted j log = log).
  { unfold accepted. clear -Hs Hfit. destruct Hfit as [_ Hfit].
    assert (HF : Forall (fun e => (size e <= byteLimit j)%Z) log).
    { induction Hs as [|e log He Hs IH]; [done|]. simpl in Hfit. pose proof (total_nonneg _ Hs).
      constructor; [lia|]. apply IH. lia. }
    clear -HF. induction HF as [|e log He HF IH]; [done|]. rewrite filter_cons_True by done. by f_equal. }
  rewrite Ha in Hd. destruct d as [|x d]; [done|].
  destruct (Hmin [] (x :: d) eq_refl ltac:(done)). by rewrite <- Hd.
Qed.

Lemma fits_snoc_inv j log e : sizes_ok (log ++ [e]) -> fits j (log ++ [e]) -> fits j log /\ (size e <= byteLimit j)%Z.
Proof.
  intros [Hs He]%Forall_app [H1 H2]. apply Forall_cons in He as [He _]. pose proof (total_nonneg _ Hs).
  rewrite length_app in H1. rewrite total_app in H2. cbn [length total foldr] in *. unfold fits. lia.
Qed.

Lemma fits_prefix j es e : (0 <= size e)%Z -> fits j (es ++ [e]) -> fits j es.
Proof. intros He [H1 H2]. rewrite length_app in H1. rewrite total_app in H2. cbn in *. unfold fits. lia. Qed.

(** Adding to the longest fitting suffix. *)
Lemma longest_snoc j log es d0 es' e :
  sizes_ok (es ++ [e]) -> longest j es log -> fits j (es' ++ [e]) -> es = d0 ++ es' ->
  (forall d1 d2, d0 = d1 ++ d2 -> d2 <> [] -> ~ fits j (d2 ++ es' ++ [e])) ->
  longest j (es' ++ [e]) (log ++ [e]).
Proof.
  intros Hs [_ (d & -> & Hmin)] Hfit -> Hmin0. split; [done|].
  exists (d ++ d0). split; [by rewrite <- !app_assoc|]. intros d1 d2 Hdd Hne Hbad.
  apply app_eq_app in Hdd as (l & [[-> ->]|[-> ->]]).
  - destruct l as [|x l]; [by apply (Hmin0 [] d0)|].
    apply (Hmin d1 (x :: l) eq_refl ltac:(done)). apply (fits_prefix j _ e).
    + apply Forall_app in Hs as [_ Hs]. by apply Forall_cons in Hs as [Hs _].
    + rewrite <- !app_assoc. rewrite <- !app_assoc in Hbad. exact Hbad.
  - by apply (Hmin0 l d2).
Qed.

Lemma add_inv j log e : (0 <= size e)%Z -> jinv j log -> jinv (add j e) (log ++ [e]).
Proof.
  intros He [[L1 L2] Hs Hr Hlong Hflag].
  pose proof (add_same_limits j e) as Hl. destruct Hl as (E1 & E2 & E3).
  assert (Hs' : sizes_ok (log ++ [e])) by (apply Forall_app; split; [done|by constructor]).
  assert (Hfl : forall es, fits (add j e) es <-> fits j es) by (intros es; by apply fits_limits).
  assert (Hacc : accepted (add j e) (log ++ [e]) =
    accepted j log ++ (if decide (size e <= byteLimit j)%Z then [e] else [])).
  { unfold accepted. by rewrite E2, filter_snoc. }
  assert (Hlg : forall es log', longest (add j e) es log' <-> longest j es log').
  { intros es log'. unfold longest. rewrite Hfl. by setoid_rewrite Hfl. }
  destruct Hlong as [Hf0 (d & Hd & Hmin)].
  assert (Hse : sizes_ok (entries j)).
  { unfold sizes_ok in *. rewrite Forall_forall in Hs |- *. intros x Hx. apply Hs.
    assert (Hxa : x ∈ accepted j log) by (rewrite Hd; apply elem_of_app; auto).
    by apply list_elem_of_filter in Hxa as [_ Hxa]. }
  split; [by rewrite E1, E2|done|..]; rewrite ?Hfl, ?Hlg, ?Hacc; unfold add; destruct (byteLimit j <? size e)%Z eqn:Hb.
  1,3,5: apply Z.ltb_lt in Hb.
  4-6: apply Z.ltb_ge in Hb; destruct (evict_loop e j) as [[Hl' Hr' (d0 & Hd0 & Hmin0 & Hfl0)] Hfull]; [done..|].
  - done.
  - rewrite decide_False by lia. rewrite app_nil_r. split; [done|]. by exists d.
  - split; [done|]. intros Hfit%fits_snoc_inv; [cbn in *; lia|done].
  - cbn [retained entries]. rewrite Hr', total_app. cbn. lia.
  - rewrite decide_True by done. set (j' := while _ _ _ _) in *. cbn [entries].
    apply longest_snoc with (es := entries j) (d0 := d0);
      [apply Forall_app; split; [done|by constructor]|by split; [|exists d]| |done|done].
    apply (fits_limits j' j _ Hl'). by apply full_spec.
  - cbn [isIncomplete]. rewrite Hfl0, Hflag. set (j' := while _ _ _ _) in *. split.
    + intros [Hfit ->]. rewrite <- (fits_all j log (entries j)) by (done || by split; [|exists d]).
      rewrite Hd0. apply (fits_limits j' j _ Hl'). by apply full_spec.
    + intros Hfit. destruct (fits_snoc_inv _ _ _ Hs' Hfit) as [Hfl1 _]. split; [done|].
      destruct d0 as [|x d0]; [done|]. destruct (Hmin0 [] (x :: d0) eq_refl ltac:(done)).
      rewrite app_assoc, <- Hd0. by rewrite (fits_all j log (entries j)) by (done || by split; [|exists d]).
Qed.

Lemma empty_inv el bl b : (0 < el)%Z -> (0 < bl)%Z -> jinv (mkJournal [] el bl b 0 false) [].
Proof.
  intros H1 H2. assert (Hf : fits (mkJournal [] el bl b 0 false) []) by (unfold fits; simpl; lia).
  split; [done|constructor|done| |done].
  split; [done|]. exists []. split; [done|]. intros d1 d2 Hd Hne. symmetry in Hd. by apply app_nil in Hd as [_ ->].
Qed.

Lemma clear_inv j log : jinv j log -> jinv (clear j) [].
Proof. intros [[L1 L2] _ _ _ _]. by apply empty_inv. Qed.

Lemma new_inv opts j : newRequestJournal opts = inr j -> jinv j [].
Proof.
  unfold newRequestJournal. destruct (MaxInt <=? _)%Z; [done|]. destruct (_ <? _)%Z; [done|]. intros [= <-].
  apply empty_inv; case_match; [done|by apply Z.leb_gt|done|by apply Z.leb_gt].
Qed.

Lemma exec_inv ops j log :
  Forall op_ok ops -> jinv j log ->
  jinv (foldl exec j ops) (foldl (fun log o => match o with OAdd e => log ++ [e] | OClear => [] end) log ops).
Proof.
  intros Hops. revert j log. induction Hops as [|o ops Ho Hops IH]; intros j log Hj; [done|].
  apply IH. destruct o as [e|]; [by apply add_inv|by eapply clear_inv].
Qed.

Lemma exec_limits ops j : entryLimit (foldl exec j ops) = entryLimit j /\ byteLimit (foldl exec j ops) = byteLimit j.
Proof.
  revert j. induction ops as [|[e|] ops IH]; intros j; [done|..]; cbn [foldl].
  - destruct (IH (exec j (OAdd e))) as [-> ->]. cbn [exec]. by destruct (add_same_limits j e) as (-> & -> & _).
  - by destruct (IH (exec j OClear)) as [-> ->].
Qed.

(** C34. Whatever requests arrive and whenever it is cleared, the journal holds
    the longest run of latest requests since the last clear that fits both of its
    limits (requests that alone exceed the byte limit apart), its retained bytes
    are their sizes, and it is marked incomplete exactly when the requests since
    the clear do not all fit.  The eviction loop always ends. *)
Theorem journal_window opts j0 ops :
  newRequestJournal opts = inr j0 -> Forall op_ok ops ->
  let j := foldl exec j0 ops in
  longest j0 (entries j) (accepted j0 (since ops)) /\
  retained j = total (entries j) /\
  (stComplete (stats j) = true <-> fits j0 (since ops)) /\
  (stComplete (stats j) = true -> entries j = since ops).
Proof.
  intros Hnew Hops j. pose proof (exec_inv ops j0 [] Hops (new_inv _ _ Hnew)) as [_ Hs Hr Hlong Hflag].
  destruct (exec_limits ops j0) as [E1 E2]. fold j in Hr, Hlong, Hflag, E1, E2.
  change (foldl _ [] ops) with (since ops) in *.
  assert (Hfl : forall es, fits j es <-> fits j0 es) by (intros es; unfold fits; by rewrite E1, E2).
  assert (Hacc : accepted j (since ops) = accepted j0 (since ops)) by (unfold accepted; by rewrite E2).
  assert (Hlg : forall es log, longest j es log <-> longest j0 es log).
  { intros es log. unfold longest. rewrite Hfl. by setoid_rewrite Hfl. }
  assert (Hc : stComplete (stats j) = true <-> fits j0 (since ops)).
  { simpl. by rewrite negb_true_iff, Hflag, Hfl. }
  split_and!; [by rewrite <- Hacc, <- Hlg|done|done|].
  intros Hcomp%Hc%Hfl. by apply (fits_all j).
Qed.

(** The pattern matches a request, without an error. *)
Definition accepts (matches : requestRecord -> countError + bool) (e : requestRecord) : bool :=
  match matches e with inr b => b | inl _ => false end.

Lemma countEntries_exact matches ctx i es n m :
  countEntries matches ctx i es n = inr m ->
  (m = n + N.of_nat (length (filter (fun e => accepts matches e = true) es)))%N /\
  Forall (fun e => exists b, matches e = inr b) es.
Proof.
  revert i n. induction es as [|e es IH]; intros i n; cbn [countEntries].
  { intros [= <-]. split; [simpl; lia|constructor]. }
  destruct (ctx i); [done|]. rewrite filter_cons, Forall_cons. destruct (matches e) as [err|[]] eqn:Em; [done|..].
  - intros [-> HF]%IH. rewrite decide_True by (by unfold accepts; rewrite Em). split; [simpl length; lia|eauto].
  - intros [-> HF]%IH. rewrite decide_False by (by unfold accepts; rewrite Em). split; [done|eauto].
Qed.

(** C10. Verification is never wrong: if an expectation passes, the requests
    received since the journal was last cleared number exactly the expected calls
    among those the pattern matches; if it fails without an error their number is
    the one reported and differs.  When a request was lost the answer is an
    error, not a count. *)
Theorem verification_exact opts j0 ops {P} (compile : P -> string + (requestRecord -> countError + bool)) ctx es r :
  newRequestJournal opts = inr j0 -> Forall op_ok ops ->
  r ∈ Verify (fun p => count (compile p) ctx (foldl exec j0 ops)) es ->
  vExpectation r ∈ es /\
  match Err r with
  | Some _ => Passed r = false
  | None => exists matches, compile (Pattern (vExpectation r)) = inr matches /\
      Actual r = N.of_nat (length (filter (fun e => accepts matches e = true) (since ops))) /\
      (Passed r = true <-> Actual r = Calls (vExpectation r))
  end.
Proof.
  intros Hnew Hops (e & -> & He)%list_elem_of_fmap.
  unfold count. destruct (compile (Pattern e)) as [err|matches] eqn:Ec; [done|].
  pose proof (exec_inv ops j0 [] Hops (new_inv _ _ Hnew)) as [_ Hs _ Hlong Hflag].
  change (foldl _ [] ops) with (since ops) in *. set (j := foldl exec j0 ops) in *.
  destruct (isIncomplete j); [done|].
  assert (Hes : entries j = since ops) by (apply (fits_all j); [done|done|by apply Hflag]).
  destruct (countEntries matches ctx 0 (entries j) 0) as [err|n] eqn:En; [done|].
  apply countEntries_exact in En as [Hn _]. cbn. split; [done|]. exists matches.
  rewrite <- Hes. split_and!; [done|lia|]. by rewrite N.eqb_eq.
Qed.

(** Capturing a request for the journal is invisible to the handler: the
    body it reads afterwards has the same bytes and the same end, error or EOF;
    the journal keeps the first bytes up to its limit and marks the entry
    truncated exactly when that is not the whole, error-free body. *)
Theorem capture_transparent limit rd b tr rd' err :
  (0 <= limit)%Z -> captureBody limit rd = (b, tr, rd', err) ->
  rd' = rd /\ b = take (Z.to_nat limit) (data rd) /\
  (tr = false <-> b = data rd /\ ending rd = None) /\
  (err = None <-> ending rd = None \/ (limit < Z.of_nat (length (data rd)))%Z).
Proof.
  intros Hl. unfold captureBody, ReadAllLimited. destruct rd as [d e]; cbn [data ending].
  destruct (Nat.leb_spec (Z.to_nat (limit + 1)) (length d)) as [Hn|Hn].
  - assert (Hlen : length (take (Z.to_nat (limit + 1)) d) = Z.to_nat (limit + 1)) by (rewrite length_take; lia).
    rewrite Hlen. replace (limit <? Z.of_nat (Z.to_nat (limit + 1)))%Z with true by (symmetry; apply Z.ltb_lt; lia).
    intros [= <- <- <- <-]. rewrite take_take. replace (Z.to_nat limit `min` _) with (Z.to_nat limit) by lia.
    split_and!; [unfold MultiReader; cbn; by rewrite take_drop|done| |split; [right; lia|done]].
    split; [done|]. intros [Ht _]. apply (f_equal length) in Ht. rewrite length_take in Ht. lia.
  - rewrite (take_ge d) by lia. replace (limit <? Z.of_nat (length d))%Z with false by (symmetry; apply Z.ltb_ge; lia).
    destruct e as [e|]; intros [= <- <- <- <-].
    + split_and!; [unfold MultiReader, terminalErrorReader; cbn; by rewrite app_nil_r|done|naive_solver|].
      split; [done|]. intros [?|?]; [done|lia].
    + split_and!; [done..|]. tauto.
Qed.
End journal.

(** ** The event log *)

Section ring.
Import Ring.
Context {E : Type}.

Definition lastn (n : nat) (l : list E) : list E := drop (length l - n) l.

Lemma tail_drop_S k (l : list E) : tail (drop k l) = drop (S k) l.
Proof. revert l. induction k as [|k IH]; intros [|x l]; simpl; try done. Qed.

Lemma ring_step n (r : ring E) es e :
  0 < n -> limit r = n -> length (events r) = Nat.min n (length es) -> head r < n ->
  (length es < n -> head r = 0) -> listEvents r = lastn n es ->
  let r' := add r e in
  limit r' = n /\ length (events r') = Nat.min n (length (es ++ [e])) /\ head r' < n /\
  (length (es ++ [e]) < n -> head r' = 0) /\ listEvents r' = lastn n (es ++ [e]).
Proof.
  intros Hn Hlim Hlen Hh Hz Hl. unfold add. rewrite Hlim, Hlen, length_app. simpl length.
  destruct (Nat.ltb_spec (Nat.min n (length es)) n) as [Hlt|Hge]; cbn [limit events head].
  - rewrite length_app, Hlen. simpl length. split_and!; [done|lia|done|intros; apply Hz; lia|].
    unfold listEvents, lastn in *. cbn [events head]. rewrite Hz in Hl |- * by lia.
    rewrite drop_0, take_0, app_nil_r in Hl |- *. rewrite Hl, length_app.
    replace (length es - n) with 0 by lia. replace (length es + length [e] - n) with 0 by (simpl; lia). done.
  - rewrite length_insert, Hlen. split_and!; [done|lia|apply Nat.mod_upper_bound; lia|lia|].
    assert (Hsplit : exists a x b, events r = a ++ x :: b /\ length a = head r).
    { destruct (lookup_lt_is_Some_2 (events r) (head r)) as [x Hx]; [lia|].
      exists (take (head r) (events r)), x, (drop (S (head r)) (events r)).
      split; [by rewrite take_drop_middle|]. rewrite length_take. lia. }
    destruct Hsplit as (a & x & b & Hev & Ha).
    unfold listEvents in Hl |- *. cbn [events head]. rewrite Hev, <- Ha in Hl |- *.
    rewrite drop_app_length, take_app_length in Hl. rewrite insert_app_r_alt, Nat.sub_diag by done. cbn [insert list_insert].
    assert (Htail : lastn n (es ++ [e]) = tail (lastn n es) ++ [e]).
    { unfold lastn. rewrite length_app. simpl length. replace (length es + 1 - n) with (S (length es - n)) by lia.
      rewrite drop_app_le by lia. by rewrite tail_drop_S. }
    rewrite Htail, <- Hl. cbn [tail app].
    rewrite Hev, length_app in Hlen. simpl length in Hlen.
    destruct (decide (length a + 1 = n)) as [Hw|Hw].
    + rewrite <- Hw, Nat.Div0.mod_same, drop_0, take_0. destruct b; [|simpl in *; lia]. by rewrite !app_nil_r.
    + rewrite Nat.mod_small by lia.
      replace (a ++ e :: b) with ((a ++ [e]) ++ b) by (by rewrite <- app_assoc).
      rewrite drop_app_length', take_app_length' by (rewrite length_app; simpl; lia). by rewrite app_assoc.
Qed.

Inductive ring_op := RAdd (e : E) | RClear.

Definition ring_exec (r : ring E) (o : ring_op) : ring E :=
  match o with RAdd e => add r e | RClear => clear r end.

Definition ring_since (ops : list ring_op) : list E :=
  foldl (fun log o => match o with RAdd e => log ++ [e] | RClear => [] end) [] ops.

(** The event log is a ring of fixed capacity that never grows past it and
    lists, oldest first, exactly the last events since it was cleared. *)
Theorem ring_keeps_last n ops :
  0 < n ->
  let r := foldl ring_exec (mkRing [] 0 n) ops in
  length (events r) <= n /\ listEvents r = lastn n (ring_since ops).
Proof.
  intros Hn.
  assert (H : forall r es, limit r = n -> length (events r) = Nat.min n (length es) -> head r < n ->
    (length es < n -> head r = 0) -> listEvents r = lastn n es ->
    let r' := foldl ring_exec r ops in
    length (events r') <= n /\
    listEvents r' = lastn n (foldl (fun log o => match o with RAdd e => log ++ [e] | RClear => [] end) es ops)).
  { induction ops as [|[e|] ops IH]; intros r es H1 H2 H3 H4 H5; cbn [foldl].
    - split; [lia|done].
    - destruct (ring_step n r es e) as (A1 & A2 & A3 & A4 & A5); [done..|]. by apply IH.
    - apply IH; try done. simpl. lia. }
  apply H; simpl; try done. lia.
Qed.
End ring.

Lemma ring_keeps_last_witness :
  let r := foldl ring_exec (Ring.mkRing [] 0 3) [RAdd 9; RClear; RAdd 1; RAdd 2; RAdd 3; RAdd 4; RAdd 5] in
  Ring.events r = [4; 5; 3] /\ Ring.listEvents r = [3; 4; 5].
Proof.
  intros r. split; [vm_compute; reflexivity|].
  apply (ring_keeps_last 3 [RAdd 9; RClear; RAdd 1; RAdd 2; RAdd 3; RAdd 4; RAdd 5]). lia.
Defined.

Lemma journal_window_witness :
  let e n := Journal.mkRecord "GET" "/" "" "h" ∅ ∅ "" false n in
  exists j0, Journal.newRequestJournal (Journal.mkOptions 2 10 5) = inr j0 /\
    let ops := [OAdd (e 4); OAdd (e 11); OAdd (e 3); OAdd (e 6)]%Z in
    let j := foldl exec j0 ops in
    Journal.entries j = [e 3; e 6]%Z /\ longest j0 (Journal.entries j) (accepted j0 (since ops)) /\
    Journal.stComplete (Journal.stats j) = false.
Proof.
  intros e. eexists. split; [vm_compute; reflexivity|]. intros ops j.
  split; [vm_compute; reflexivity|]. split; [|vm_compute; reflexivity].
  eapply (journal_window (Journal.mkOptions 2 10 5) _ ops); [vm_compute; reflexivity|].
  repeat (apply Forall_cons; split; [done|]). apply Forall_nil. done.
Defined.

Lemma verification_exact_witness :
  let e m := Journal.mkRecord m "/" "" "h" ∅ ∅ "" false 4 in
  let compile (p : string) : string + (Journal.requestRecord -> Journal.countError + bool) :=
    inr (fun r => inr (bool_decide (Journal.method r = p))) in
  exists j0, Journal.newRequestJournal (Journal.mkOptions 9 100 5) = inr j0 /\
    let ops := [OAdd (e "PUT"); OClear; OAdd (e "GET"); OAdd (e "PUT"); OAdd (e "GET")] in
    let results := Journal.Verify (fun p => Journal.count (compile p) (fun _ => None) (foldl exec j0 ops))
      [Journal.mkExpectation "GET" 2; Journal.mkExpectation "PUT" 2] in
    map Journal.Passed results = [true; false] /\
    exists r, r ∈ results /\ Journal.Passed r = true /\ Journal.vExpectation r ∈ [Journal.mkExpectation "GET" 2; Journal.mkExpectation "PUT" 2].
Proof.
  intros e compile. eexists. split; [vm_compute; reflexivity|]. intros ops results.
  split; [vm_compute; reflexivity|].
  exists (Journal.mkResult (Journal.mkExpectation "GET" 2) 2 None true).
  assert (Hr : Journal.mkResult (Journal.mkExpectation "GET" 2) 2 None true ∈ results) by (vm_compute; apply list_elem_of_here).
  split; [done|]. split; [done|].
  eapply (verification_exact (Journal.mkOptions 9 100 5) _ ops compile (fun _ => None)); [vm_compute; reflexivity| |exact Hr].
  repeat (apply Forall_cons; split; [done|]). apply Forall_nil. done.
Defined.

Lemma capture_transparent_witness :
  let rd := Journal.mkReader (bytes "abcdef") (Some "reset") in
  exists b tr rd' err, Journal.captureBody 3 rd = (b, tr, rd', err) /\ b = bytes "abc" /\ tr = true /\ err = None /\ rd' = rd.
Proof.
  intros rd. eexists _, _, _, _. split; [vm_compute; reflexivity|]. split; [reflexivity|]. split; [reflexivity|].
  split; [reflexivity|]. eapply (capture_transparent 3 rd); [done|vm_compute; reflexivity].
Defined.

(** ** Response sequences *)

Section sequence.
Import Sequence.
Context (last : N).

Inductive seq_op := AAdvance (key : string) | AReset.

(** The outcomes of a run; [None] is a refusal. *)
Fixpoint seq_run (c : sequenceCursor) (ops : list seq_op) : list (option N) :=
  match ops with
  | [] => []
  | AAdvance key :: ops' => let '(r, c') := advance c key last in r :: seq_run c' ops'
  | AReset :: ops' => seq_run (reset c) ops'
  end.

Definition times (served : list string) (key : string) : N :=
  N.of_nat (length (filter (fun k => k = key) served)).

(** The contract: given the keys served since the last reset, a key is refused
    only if it is new, not the empty key, and as many keys as the limit are
    known; otherwise it gets its own next step, the last one for ever. *)
Fixpoint seq_spec (limit : Z) (served : list string) (ops : list seq_op) : list (option N) :=
  match ops with
  | [] => []
  | AAdvance key :: ops' =>
      if bool_decide (key ∈ served) || bool_decide (key = "") ||
         (Z.of_nat (base.size (list_to_set served : gset string)) <? limit)%Z
      then Some (N.min (times served key) last) :: seq_spec limit (served ++ [key]) ops'
      else None :: seq_spec limit served ops'
  | AReset :: ops' => seq_spec limit [] ops'
  end.

Definition seq_inv (c : sequenceCursor) (served : list string) : Prop :=
  forall k, steps c !! k = if decide (k ∈ served) then Some (N.min (times served k) last) else None.

Lemma seq_inv_size c served :
  seq_inv c served -> base.size (steps c) = base.size (list_to_set served : gset string).
Proof.
  intros Hi. rewrite <- size_dom. f_equal. apply set_eq. intros k.
  rewrite elem_of_dom, elem_of_list_to_set, (Hi k). case_decide; split; try done; by intros [].
Qed.

Lemma times_snoc served k k' :
  times (served ++ [k]) k' = (times served k' + if decide (k = k') then 1 else 0)%N.
Proof.
  unfold times. rewrite filter_app, length_app, filter_cons. case_decide; simpl; lia.
Qed.

Lemma times_absent served k : k ∉ served -> times served k = 0%N.
Proof.
  intros Hk. unfold times. induction served as [|k' served IH]; [done|].
  apply not_elem_of_cons in Hk as [Hne Hk]. rewrite filter_cons, decide_False by congruence. by apply IH.
Qed.

(** A sequence cursor keeps its contract under every interleaving of keys and
    resets: each key is served the steps 0, 1, ... in order, then the last step
    for ever, independently of the other keys; a new key is refused exactly when
    the limit is reached, and a refusal changes nothing. *)
Theorem sequence_refines limit ops :
  seq_run (mkCursor ∅ limit) ops = seq_spec limit [] ops.
Proof.
  assert (H : forall c served, seq_inv c served -> Sequence.limit c = limit -> seq_run c ops = seq_spec limit served ops).
  { induction ops as [|[key|] ops IH]; intros c served Hi Hl; [done|..]; cbn [seq_run seq_spec].
    2:{ apply IH; [|done]. intros k. by rewrite decide_False by apply not_elem_of_nil. }
    unfold advance. rewrite (Hi key), (seq_inv_size _ _ Hi), Hl.
    assert (Hstep : seq_inv (mkCursor (<[key := N.min (default 0%N (steps c !! key) + 1) last]> (steps c)) limit) (served ++ [key])).
    { intros k. cbn [steps]. rewrite times_snoc. destruct (decide (key = k)) as [<-|Hk].
      - rewrite lookup_insert_eq, (Hi key), (decide_True (P := key ∈ served ++ [key])) by (apply elem_of_app; right; apply list_elem_of_here).
        case_decide as Hs; simpl; [f_equal; lia|]. by rewrite (times_absent _ _ Hs).
      - rewrite lookup_insert_ne, (Hi k), N.add_0_r by done.
        rewrite (decide_ext (k ∈ served ++ [key]) (k ∈ served)); [done|].
        rewrite elem_of_app, list_elem_of_singleton. naive_solver. }
    rewrite (Hi key) in Hstep. destruct (decide (key ∈ served)) as [Hs|Hs].
    - rewrite (bool_decide_true (key ∈ served)), bool_decide_true by (done || eauto). cbn [negb andb orb default].
      f_equal; [f_equal; unfold id; lia|by apply IH].
    - rewrite (bool_decide_false (key ∈ served)), bool_decide_false by (done || by intros []).
      cbn [negb andb orb default]. rewrite (times_absent _ _ Hs), N.min_0_l.
      destruct (bool_decide (key = "")); cbn [negb andb orb]; [f_equal; by apply IH|].
      rewrite Z.leb_antisym. destruct (_ <? limit)%Z; cbn [negb]; f_equal; by apply IH. }
  apply H; [|done]. intros k. by rewrite decide_False by apply not_elem_of_nil.
Qed.
End sequence.
