(* ===== verification/MockSelect.v ===== *)
(** * Choosing a response (src/internal/mock/select.go, match.go, sequence.go)

    A route has scenarios in order; [pick] chooses one for a request and a
    response of it.  The request's body can be read only once: the probe caches
    what it decoded to, and is threaded through the matchers.  Variants are
    pointers in the code, here their index in the route. *)
From stdpp Require Import base list strings gmap.
From Stdlib Require Import Ascii ZArith Lia.
From S2P Require Import Prelude GoStd GoPath Names MockNumber MockMatch MockRules MockServe.

Open Scope string_scope.
Open Scope nat_scope.
Open Scope list_scope.

Record problem := mkProblem { pStatus : Z; detail : string }.

(** A request, with its URL and cookies parsed and its headers under their
    canonical names; [pathValues] are the wildcards the multiplexer bound. *)
Record request := mkReq {
  qHost : string;
  qQuery : gmap string (list string);
  qHeader : gmap string (list string);
  qCookies : gmap string (list string);
  pathValues : gmap string string
}.

(** [http.Header.Get] of a canonical name *)
Definition headerGet (r : request) (name : string) : string :=
  default "" (list.head (default [] (qHeader r !! name))).

(** [probe]; [rd] is what is left of the request's body. *)
Record probe := mkProbe {
  req : request;
  loaded : bool;
  pBody : any;
  pOk : bool;
  pErr : option problem;
  rd : Journal.reader
}.

Definition maxMockRequestBody : Z := Z.shiftl 4 20.

Inductive matcher :=
  | queryMatcher (rules : list (rule MockRule))
  | headerMatcher (rules : list (rule MockRule))
  | jsonMatcher (want : jsonPredicate).

(** [MockSequenceKey]; [None] is the zero key. *)
Inductive keySource := KeyPath | KeyQuery | KeyHeader | KeyCookie.
Record sequenceKeySpec := mkKey { keySource_ : keySource; keyName : string }.

Record variant := mkVariant {
  vName : string;
  vSequence : string;
  vDef : bool;
  vMatchers : list matcher;
  vResponses : list Z;
  pathParams : gmap string string;
  vKey : option sequenceKeySpec;
  cursor : Sequence.sequenceCursor
}.

Definition ValidMockStatus (status : Z) : bool := (200 <=? status)%Z && (status <=? 599)%Z.

(** [strconv.Atoi] *)
Definition Atoi (s : string) : option Z :=
  let '(n, l) :=
    match bytes s with
    | c :: l => if isSign c then (bool_decide (c = "-"%char), l) else (false, bytes s)
    | [] => (false, [])
    end in
  match cutDigits l with
  | (c :: ds, []) =>
      let v := if n then (- dvalue (c :: ds))%Z else dvalue (c :: ds) in
      if (- 2 ^ 63 <=? v)%Z && (v <? 2 ^ 63)%Z then Some v else None
  | _ => None
  end.

Definition parseStatus (raw : string) : problem + Z :=
  let raw := TrimSpace raw in
  if decide (raw = "") then inr 0%Z
  else match Atoi raw with
       | Some status =>
           if ValidMockStatus status then inr status
           else inl (mkProblem 400 (selectorStatusHeader +:+ " must be a status between 200 and 599"))
       | None => inl (mkProblem 400 (selectorStatusHeader +:+ " must be a status between 200 and 599"))
       end.

(** [keyString]: [MockSequenceKey.String] of a valid key *)
Definition keyString (k : sequenceKeySpec) : string :=
  (match keySource_ k with KeyPath => "path" | KeyQuery => "query" | KeyHeader => "header" | KeyCookie => "cookie" end)
  +:+ "." +:+ keyName k.

Definition maxSequenceKeyBytes : Z := Z.shiftl 4 10.

Section select.
Context {unicode : Unicode}.
Context (isJSONMediaType : string -> bool) (decodeJSON : list Ascii.ascii -> string + any)
  (CanonicalHeaderKey : string -> string).

(** [probe.json] *)
Definition probeJSON (p : probe) : (any * bool * option problem) * probe :=
  if loaded p then ((pBody p, pOk p, pErr p), p)
  else
    let failed data err := ((Null, false, Some err), mkProbe (req p) true Null (pOk p) (Some err) data) in
    if negb (isJSONMediaType (headerGet (req p) "Content-Type"))
    then ((Null, false, None), mkProbe (req p) true (pBody p) (pOk p) (pErr p) (rd p))
    else
      let '(data, err, rest) := Journal.ReadAllLimited (Z.to_nat (maxMockRequestBody + 1)) (rd p) in
      match err with
      | Some e => failed rest (mkProblem 400 ("read JSON request body: " +:+ e))
      | None =>
          if (maxMockRequestBody <? Z.of_nat (length data))%Z
          then failed rest (mkProblem 413 "JSON request body exceeds 4 MiB limit")
          else match decodeJSON data with
               | inl e => failed rest (mkProblem 400 ("invalid JSON request body: " +:+ e))
               | inr v => ((v, true, None), mkProbe (req p) true v true (pErr p) rest)
               end
      end.

Definition runMatcher (m : matcher) (p : probe) : (bool * option problem) * probe :=
  match m with
  | queryMatcher rules => ((matchesAll rules (fun name => qQuery (req p) !! name), None), p)
  | headerMatcher rules =>
      ((matchesAll rules (headerOrHost CanonicalHeaderKey (qHeader (req p)) (qHost (req p))), None), p)
  | jsonMatcher want =>
      let '((v, ok, err), p) := probeJSON p in
      match err with
      | Some err => ((false, Some err), p)
      | None => ((ok && want v, None), p)
      end
  end.

(** [variant.matches] *)
Fixpoint runMatchers (ms : list matcher) (p : probe) : (bool * option problem) * probe :=
  match ms with
  | [] => ((true, None), p)
  | m :: ms' =>
      let '((ok, err), p) := runMatcher m p in
      match err with
      | Some err => ((false, Some err), p)
      | None => if ok then runMatchers ms' p else ((false, None), p)
      end
  end.

Definition variantMatches (v : variant) (p : probe) : (bool * option problem) * probe := runMatchers (vMatchers v) p.

Fixpoint findStep (status : Z) (rs : list Z) (i : nat) : option nat :=
  match rs with
  | [] => None
  | r :: rs' => if (r =? status)%Z then Some i else findStep status rs' (S i)
  end.

Definition stepFor (v : variant) (status : Z) : option nat := findStep status (vResponses v) 0.

(** [route.named] *)
Fixpoint routeNamed (vs : list (nat * variant)) (name : string) (status : Z) : problem + nat :=
  match vs with
  | [] => inl (mkProblem 404 ("mock scenario " +:+ quote name +:+ " was not found"))
  | (i, v) :: vs' =>
      if decide (vName v = name) then
        if (negb (status =? 0)%Z) && negb (bool_decide (is_Some (stepFor v status)))
        then inl (mkProblem 404 ("mock scenario " +:+ quote name +:+ " has no response with status " +:+ itoa status))
        else inr i
      else routeNamed vs' name status
  end.

(** The loop over the conditional variants. *)
Fixpoint firstMatch (vs : list (nat * variant)) (p : probe) : (problem + option nat) * probe :=
  match vs with
  | [] => (inr None, p)
  | (i, v) :: vs' =>
      match vMatchers v with
      | [] => firstMatch vs' p
      | _ =>
          let '((ok, err), p) := variantMatches v p in
          match err with
          | Some err => (inl err, p)
          | None => if ok then (inr (Some i), p) else firstMatch vs' p
          end
      end
  end.

Definition isNil {A} (l : list A) : bool := match l with [] => true | _ => false end.

Definition variantFor (variants : list variant) (name : string) (status : Z) (p : probe) : (problem + nat) * probe :=
  let all := imap pair variants in
  if negb (bool_decide (name = "")) then (routeNamed all name status, p)
  else
    let vs := if (status =? 0)%Z then all
              else filter (fun iv => is_Some (stepFor (iv.2) status)) all in
    if negb (status =? 0)%Z && isNil vs
    then (inl (mkProblem 404 ("mock status " +:+ itoa status +:+ " was not found for this route")), p)
    else
      let '(r, p) := firstMatch vs p in
      (match r with
       | inl err => inl err
       | inr (Some i) => inr i
       | inr None =>
           match List.find (fun iv => vDef (iv.2)) vs with
           | Some (i, _) => inr i
           | None =>
               match List.find (fun iv => isNil (vMatchers (iv.2))) vs with
               | Some (i, _) => inr i
               | None => inl (mkProblem 404 "no mock scenario matched the request")
               end
           end
       end, p).

(** [variant.sequenceKey] *)
Definition sequenceKey (v : variant) (p : probe) : problem + string :=
  match vKey v with
  | None => inr ""
  | Some key =>
      let value :=
        match keySource_ key with
        | KeyPath => default "" (pathValues (req p) !! default "" (pathParams v !! keyName key))
        | KeyQuery => default "" (list.head (default [] (qQuery (req p) !! keyName key)))
        | KeyHeader =>
            default "" (list.head (default [] (headerOrHost CanonicalHeaderKey (qHeader (req p)) (qHost (req p)) (keyName key))))
        | KeyCookie => default "" (list.head (default [] (qCookies (req p) !! keyName key)))
        end in
      if decide (value = "") then
        inl (mkProblem 400 ("mock sequence key " +:+ keyString key +:+ " is missing or empty"))
      else if (maxSequenceKeyBytes <? slen value)%Z then
        inl (mkProblem 400 ("mock sequence key " +:+ keyString key +:+ " exceeds the 4 KiB limit"))
      else inr value
  end.

(** [selectResponse]: the step and the variant, whose cursor may have moved. *)
Definition selectResponse (v : variant) (status : Z) (p : probe) : (problem + nat) * variant :=
  if negb (status =? 0)%Z then (inr (default 0 (stepFor v status)), v)
  else
    match sequenceKey v p with
    | inl err => (inl err, v)
    | inr key =>
        let '(step, c) := Sequence.advance (cursor v) key (N.of_nat (length (vResponses v) - 1)) in
        let v := mkVariant (vName v) (vSequence v) (vDef v) (vMatchers v) (vResponses v) (pathParams v) (vKey v) c in
        match step with
        | None => (inl (mkProblem 429 ("mock sequence " +:+ quote (vSequence v) +:+ " reached its sequence-key limit")), v)
        | Some n => (inr (N.to_nat n), v)
        end
    end.

(** [route.pick]: the variant and the step, and the route after it. *)
Definition pick (variants : list variant) (p : probe) : (problem + (nat * nat)) * list variant * probe :=
  let name := TrimSpace (headerGet (req p) selectorNameHeader) in
  match parseStatus (headerGet (req p) selectorStatusHeader) with
  | inl err => (inl err, variants, p)
  | inr status =>
      let '(r, p) := variantFor variants name status p in
      match r with
      | inl err => (inl err, variants, p)
      | inr i =>
          match variants !! i with
          | None => (inl (mkProblem 0 ""), variants, p)
          | Some v =>
              let '(step, v') := selectResponse v status p in
              (match step with inl err => inl err | inr n => inr (i, n) end, <[i := v']> variants, p)
          end
      end
  end.

End select.

(** * Choosing a response: theorems

    Sharing one probe among the scenarios of a route changes nothing: the body
    is decoded at most once and every scenario is judged as if it were alone.
    The choice follows the documented precedence, and the response it names
    exists. *)
From stdpp Require Import base list strings gmap.
From Stdlib Require Import Ascii ZArith Lia.
From S2P Require Import Prelude GoStd GoPath Names MockNumber MockMatch MockRules MockServe.

Open Scope string_scope.
Open Scope nat_scope.
Open Scope list_scope.

Section select.
Context {unicode : Unicode}.
Context (isJSONMediaType : string -> bool) (decodeJSON : list Ascii.ascii -> string + any)
  (CanonicalHeaderKey : string -> string).

Local Notation probeJSON := (probeJSON isJSONMediaType decodeJSON).
Local Notation runMatcher := (runMatcher isJSONMediaType decodeJSON CanonicalHeaderKey).
Local Notation runMatchers := (runMatchers isJSONMediaType decodeJSON CanonicalHeaderKey).
Local Notation variantMatches := (variantMatches isJSONMediaType decodeJSON CanonicalHeaderKey).
Local Notation firstMatch := (firstMatch isJSONMediaType decodeJSON CanonicalHeaderKey).
Local Notation variantFor := (variantFor isJSONMediaType decodeJSON CanonicalHeaderKey).
Local Notation pick := (pick isJSONMediaType decodeJSON CanonicalHeaderKey).

(** ** The shared probe *)

(** A probe as [serveHTTP] makes it. *)
Definition fresh (p : probe) : Prop := loaded p = false /\ pBody p = Null /\ pOk p = false /\ pErr p = None.

(** The states a fresh probe goes through: itself, or itself after one read. *)
Definition after (p q : probe) : Prop := q = p \/ q = snd (probeJSON p).

Lemma probeJSON_loaded p : fresh p -> loaded (snd (probeJSON p)) = true /\ req (snd (probeJSON p)) = req p.
Proof.
  intros (Hl & _). unfold MockSelect.probeJSON. rewrite Hl. destruct (negb _); [done|].
  destruct (Journal.ReadAllLimited _ _) as [[data err] rest]. destruct err; [done|].
  destruct (_ <? _)%Z; [done|]. by destruct (decodeJSON data).
Qed.

(** Asking again gives the same answer and changes nothing. *)
Lemma probeJSON_cached p :
  fresh p -> probeJSON (snd (probeJSON p)) = (fst (probeJSON p), snd (probeJSON p)).
Proof.
  intros (Hl & Hb & Ho & He). unfold MockSelect.probeJSON. rewrite Hl. destruct (negb _).
  { cbn. by rewrite Hb, Ho, He. }
  destruct (Journal.ReadAllLimited _ _) as [[data err] rest]. destruct err; [cbn; by rewrite Ho|].
  destruct (_ <? _)%Z; [cbn; by rewrite Ho|]. destruct (decodeJSON data); cbn; by rewrite ?Ho, ?He.
Qed.

Lemma after_req p q : fresh p -> after p q -> req q = req p.
Proof. intros Hf [-> | ->]; [done|]. by apply probeJSON_loaded. Qed.

Lemma runMatcher_after m p q :
  fresh p -> after p q -> fst (runMatcher m q) = fst (runMatcher m p) /\ after p (snd (runMatcher m q)).
Proof.
  intros Hf Ha. pose proof (after_req _ _ Hf Ha) as Hr. destruct m as [rules|rules|want]; cbn; rewrite ?Hr; [done..|].
  assert (Hq : probeJSON q = (fst (probeJSON p), snd (probeJSON p))).
  { destruct Ha as [-> | ->]; [by destruct (probeJSON p)|by apply probeJSON_cached]. }
  rewrite Hq. assert (Hp : after p (snd (probeJSON p))) by (by right).
  destruct (probeJSON p) as [[[v ok] err] p']. cbn in Hp |- *. by destruct err.
Qed.

Lemma runMatchers_after ms p q :
  fresh p -> after p q -> fst (runMatchers ms q) = fst (runMatchers ms p) /\ after p (snd (runMatchers ms q)).
Proof.
  intros Hf. revert q. enough (H : forall q q', after p q -> after p q' ->
    fst (runMatchers ms q) = fst (runMatchers ms q') /\ after p (snd (runMatchers ms q))).
  { intros q Ha. apply H; [done|by left]. }
  induction ms as [|m ms IH]; intros q q' Ha Ha'; [done|]. cbn [MockSelect.runMatchers].
  destruct (runMatcher_after m p q Hf Ha) as [H1 H2]. destruct (runMatcher_after m p q' Hf Ha') as [H1' H2'].
  destruct (runMatcher m q) as [[ok err] q1], (runMatcher m q') as [[ok' err'] q1']. cbn in *.
  rewrite <- H1' in H1. injection H1 as -> ->. destruct err'; [done|]. destruct ok'; [|done]. by apply IH.
Qed.

(** What one scenario says of the request, judged alone. *)
Definition verdict (p : probe) (v : variant) : bool * option problem := fst (variantMatches v p).

Lemma variantMatches_after v p q :
  fresh p -> after p q -> fst (variantMatches v q) = verdict p v /\ after p (snd (variantMatches v q)).
Proof. apply runMatchers_after. Qed.

(** ** Precedence *)

Definition conditional (v : variant) : Prop := vMatchers v <> [].

(** A scenario that passes a request on: without conditions, or with one that
    does not hold. *)
Definition passes_on (p : probe) (iv : nat * variant) : Prop :=
  conditional (iv.2) -> verdict p (iv.2) = (false, None).

Lemma firstMatch_spec vs p q :
  fresh p -> after p q ->
  after p (snd (firstMatch vs q)) /\
  match fst (firstMatch vs q) with
  | inl err => exists l1 iv l2, vs = l1 ++ iv :: l2 /\ Forall (passes_on p) l1 /\ conditional (iv.2) /\
                 exists ok, verdict p (iv.2) = (ok, Some err)
  | inr (Some i) => exists l1 v l2, vs = l1 ++ (i, v) :: l2 /\ Forall (passes_on p) l1 /\ conditional v /\
                      verdict p v = (true, None)
  | inr None => Forall (passes_on p) vs
  end.
Proof.
  intros Hf. revert q. induction vs as [|[i v] vs IH]; intros q Ha; [by split; [|apply Forall_nil]|]. cbn [MockSelect.firstMatch].
  destruct (vMatchers v) as [|m ms] eqn:Em.
  { destruct (IH q Ha) as [Hs H]. split; [done|].
    assert (Hv : passes_on p (i, v)) by (intros Hc; by destruct Hc).
    destruct (fst (firstMatch vs q)) as [err|[k|]].
    - destruct H as (l1 & iv & l2 & -> & Hl & H). exists ((i, v) :: l1), iv, l2. by rewrite Forall_cons.
    - destruct H as (l1 & w & l2 & -> & Hl & H). exists ((i, v) :: l1), w, l2. by rewrite Forall_cons.
    - by rewrite Forall_cons. }
  assert (Hc : conditional v) by (unfold conditional; by rewrite Em).
  destruct (variantMatches_after v p q Hf Ha) as [H1 H2].
  destruct (variantMatches v q) as [[ok err] q1]. cbn in H1, H2. destruct err as [err|].
  { split; [done|]. exists [], (i, v), vs. split_and!; [done|constructor|done|]. by exists ok. }
  destruct ok.
  { split; [done|]. exists [], v, vs. split_and!; [done|constructor|done|done]. }
  destruct (IH q1 H2) as [Hs H]. split; [done|].
  assert (Hv : passes_on p (i, v)) by (intros _; done).
  destruct (fst (firstMatch vs q1)) as [err|[k|]].
  - destruct H as (l1 & iv & l2 & -> & Hl & H). exists ((i, v) :: l1), iv, l2. by rewrite Forall_cons.
  - destruct H as (l1 & w & l2 & -> & Hl & H). exists ((i, v) :: l1), w, l2. by rewrite Forall_cons.
  - by rewrite Forall_cons.
Qed.

Lemma find_split {A} (f : A -> bool) l x :
  List.find f l = Some x -> exists l1 l2, l = l1 ++ x :: l2 /\ Forall (fun y => f y = false) l1 /\ f x = true.
Proof.
  induction l as [|y l IH]; simpl; [done|]. destruct (f y) eqn:E.
  - intros [= <-]. by exists [], l.
  - intros (l1 & l2 & -> & HF & Hx)%IH. exists (y :: l1), l2. by rewrite Forall_cons.
Qed.

Lemma find_none_all {A} (f : A -> bool) l : List.find f l = None -> Forall (fun y => f y = false) l.
Proof. intros H. apply Forall_forall. intros y Hy. apply (List.find_none _ _ H), list_elem_of_In, Hy. Qed.

(** The scenarios a request may get: those that can answer with the status it
    asks for, if it asks for one. *)
Definition candidates (variants : list variant) (status : Z) : list (nat * variant) :=
  if (status =? 0)%Z then imap pair variants
  else filter (fun iv => is_Some (stepFor (iv.2) status)) (imap pair variants).

(** C36. For a request that names no scenario, every scenario is judged as if it
    alone saw the request (the shared probe is invisible), and the choice is: the
    first whose conditions hold; else the first marked default; else the first
    without conditions; else 404.  An unreadable body is reported only when no
    earlier scenario already matched and one actually asks for it. *)
Theorem scenario_precedence variants status p :
  fresh p ->
  let cs := candidates variants status in
  match fst (variantFor variants "" status p) with
  | inr i =>
      exists l1 v l2, cs = l1 ++ (i, v) :: l2 /\
        ((conditional v /\ verdict p v = (true, None) /\ Forall (passes_on p) l1) \/
         (Forall (passes_on p) cs /\ vDef v = true /\ Forall (fun iv => vDef (iv.2) = false) l1) \/
         (Forall (passes_on p) cs /\ Forall (fun iv => vDef (iv.2) = false) cs /\ vMatchers v = [] /\
          Forall (fun iv => conditional (iv.2)) l1))
  | inl err =>
      (exists l1 iv l2 ok, cs = l1 ++ iv :: l2 /\ Forall (passes_on p) l1 /\ conditional (iv.2) /\
         verdict p (iv.2) = (ok, Some err)) \/
      (pStatus err = 404%Z /\ Forall (fun iv => passes_on p iv /\ vDef (iv.2) = false /\ conditional (iv.2)) cs)
  end.
Proof.
  intros Hf cs. unfold MockSelect.variantFor. cbn [negb]. rewrite bool_decide_true by done. cbn [negb].
  change (if (status =? 0)%Z then imap pair variants else _) with cs.
  destruct (negb (status =? 0)%Z && isNil cs) eqn:Hnil.
  { right. split; [done|]. apply andb_true_iff in Hnil as [_ Hnil]. by destruct cs. }
  destruct (firstMatch_spec cs p p Hf (or_introl eq_refl)) as [_ H].
  destruct (firstMatch cs p) as [r q]. cbn in H |- *. destruct r as [err|[i|]]; cbn.
  { left. destruct H as (l1 & iv & l2 & Hcs & Hl & Hc & ok & Hv). by exists l1, iv, l2, ok. }
  { destruct H as (l1 & v & l2 & Hcs & Hl & Hc & Hv). exists l1, v, l2. split; [done|]. by left. }
  destruct (List.find _ cs) as [[i v]|] eqn:Hd.
  { apply find_split in Hd as (l1 & l2 & Hcs & Hl & Hv). exists l1, v, l2. split; [done|]. right; left. done. }
  apply find_none_all in Hd.
  assert (Hcond : forall iv : nat * variant, isNil (vMatchers (iv.2)) = false <-> conditional (iv.2)).
  { intros [i v]. unfold conditional. simpl. by destruct (vMatchers v). }
  destruct (List.find (fun iv => isNil (vMatchers (iv.2))) cs) as [[i v]|] eqn:Hu.
  - apply find_split in Hu as (l1 & l2 & Hcs & Hl & Hv). exists l1, v, l2. split; [done|]. right; right.
    split_and!; [done|done|cbn in Hv; by destruct (vMatchers v)|].
    eapply Forall_impl; [exact Hl|]. intros iv. apply Hcond.
  - right. split; [done|]. apply find_none_all in Hu. rewrite Forall_forall in H, Hd, Hu |- *.
    intros iv Hin. split_and!; auto. by apply Hcond, Hu.
Qed.

(** ** The response exists *)

(** Compilation gives every scenario a response; the cursor never passes the
    last one. *)
Definition variant_ok (v : variant) : Prop :=
  vResponses v <> [] /\
  forall k n, Sequence.steps (cursor v) !! k = Some n -> (n <= N.of_nat (length (vResponses v) - 1))%N.

Lemma findStep_spec status rs i n :
  findStep status rs i = Some n -> i <= n /\ rs !! (n - i) = Some status.
Proof.
  revert i. induction rs as [|r rs IH]; intros i; cbn [findStep]; [done|].
  destruct (Z.eqb_spec r status) as [->|Hr].
  - intros [= ->]. by rewrite Nat.sub_diag.
  - intros [Hle Hl]%IH. split; [lia|]. replace (n - i) with (S (n - S i)) by lia. done.
Qed.

Lemma stepFor_spec v status n : stepFor v status = Some n -> vResponses v !! n = Some status.
Proof. intros [_ H]%findStep_spec. by rewrite Nat.sub_0_r in H. Qed.

Lemma advance_ok c key last :
  (forall k n, Sequence.steps c !! k = Some n -> n <= last)%N ->
  let '(r, c') := Sequence.advance c key last in
  (forall n, r = Some n -> n <= last)%N /\ (forall k n, Sequence.steps c' !! k = Some n -> n <= last)%N.
Proof.
  intros Hc. unfold Sequence.advance. destruct (_ && _); [done|]. split.
  - intros n [= <-]. lia.
  - cbn. intros k n [[_ <-]|[_ H]]%lookup_insert_Some; [lia|eauto].
Qed.

Lemma elem_imap_pair (l : list variant) i v : (i, v) ∈ imap pair l <-> l !! i = Some v.
Proof.
  rewrite list_elem_of_lookup. setoid_rewrite list_lookup_imap. split.
  - intros [j Hj]. destruct (l !! j) eqn:E; [|done]. cbn in Hj. injection Hj as -> ->. done.
  - intros H. exists i. by rewrite H.
Qed.

Lemma routeNamed_spec vs name status i :
  routeNamed vs name status = inr i ->
  exists v, (i, v) ∈ vs /\ vName v = name /\ (status <> 0%Z -> is_Some (stepFor v status)).
Proof.
  induction vs as [|[j v] vs IH]; cbn [routeNamed]; [done|]. case_decide as Hn.
  - destruct (negb (status =? 0)%Z && _) eqn:E; [done|]. intros [= ->]. exists v.
    split_and!; [apply list_elem_of_here|done|]. intros Hs. apply andb_false_iff in E as [E|E].
    + apply negb_false_iff, Z.eqb_eq in E. done.
    + apply negb_false_iff, bool_decide_eq_true in E. done.
  - intros (w & Hin & H)%IH. exists w. split; [by apply list_elem_of_further|done].
Qed.

Lemma candidate_spec variants status i v :
  (i, v) ∈ candidates variants status -> variants !! i = Some v /\ (status <> 0%Z -> is_Some (stepFor v status)).
Proof.
  unfold candidates. destruct (Z.eqb_spec status 0) as [->|Hs].
  - intros H%elem_imap_pair. done.
  - intros [Hi H]%list_elem_of_filter. by apply elem_imap_pair in H.
Qed.

Lemma variantFor_spec variants name status p i :
  fresh p -> fst (variantFor variants name status p) = inr i ->
  exists v, variants !! i = Some v /\ (name <> "" -> vName v = name) /\
    (status <> 0%Z -> is_Some (stepFor v status)).
Proof.
  intros Hf. destruct (decide (name = "")) as [->|Hn].
  - intros H. assert (Hc : exists l1 v l2, candidates variants status = l1 ++ (i, v) :: l2).
    { revert H. unfold MockSelect.variantFor. rewrite bool_decide_true by done. cbn [negb].
      change (if (status =? 0)%Z then imap pair variants else _) with (candidates variants status).
      destruct (_ && _); [done|].
      destruct (firstMatch_spec (candidates variants status) p p Hf (or_introl eq_refl)) as [_ H].
      destruct (firstMatch _ p) as [r q]. cbn in H |- *. destruct r as [err|[k|]]; cbn; [done|..].
      - intros [= ->]. destruct H as (l1 & v & l2 & H & _). eauto.
      - destruct (List.find _ _) as [[k v]|] eqn:Hd.
        + intros [= ->]. apply find_split in Hd as (l1 & l2 & H' & _). eauto.
        + destruct (List.find _ (candidates _ _)) as [[k v]|] eqn:Hu in |- *; [|done].
          intros [= ->]. apply find_split in Hu as (l1 & l2 & H' & _). eauto. }
    destruct Hc as (l1 & v & l2 & Hc). exists v.
    destruct (candidate_spec variants status i v) as [H1 H2].
    + rewrite Hc. apply elem_of_app. right. apply list_elem_of_here.
    + done.
  - unfold MockSelect.variantFor. rewrite bool_decide_false by done. cbn [negb fst].
    intros (v & Hin%elem_imap_pair & H1 & H2)%routeNamed_spec. exists v. done.
Qed.

(** C35. The response that is served exists: whatever the request and the state of
    the sequences, [pick] names a scenario of the route and a step of it (so
    serving it cannot index out of range); a scenario or a status forced by the
    selector headers is honoured; and the cursors stay within their sequences. *)
Theorem selection_in_range variants p :
  fresh p -> Forall variant_ok variants ->
  let '(r, variants', _) := pick variants p in
  Forall variant_ok variants' /\
  match r with
  | inl _ => True
  | inr (i, n) =>
      exists v status, variants !! i = Some v /\
        parseStatus (headerGet (req p) selectorStatusHeader) = inr status /\
        is_Some (vResponses v !! n) /\
        (status <> 0%Z -> vResponses v !! n = Some status) /\
        (TrimSpace (headerGet (req p) selectorNameHeader) <> "" ->
         vName v = TrimSpace (headerGet (req p) selectorNameHeader))
  end.
Proof.
  intros Hf Hok. unfold MockSelect.pick.
  destruct (parseStatus _) as [err|status] eqn:Es; [done|].
  pose proof (variantFor_spec variants (TrimSpace (headerGet (req p) selectorNameHeader)) status p) as Hv.
  destruct (variantFor _ _ _ _) as [[err|i] q]; [done|]. cbn in Hv.
  destruct (Hv i Hf eq_refl) as (v & Hi & Hn & Hs). rewrite Hi.
  assert (Hvok : variant_ok v) by (rewrite Forall_forall in Hok; apply Hok, list_elem_of_lookup; eauto).
  unfold selectResponse. destruct (Z.eqb_spec status 0) as [Hz|Hz]; cbn [negb].
  - destruct (sequenceKey _ v q) as [err|key]; [split; [by rewrite list_insert_id|done]|].
    destruct Hvok as [Hne Hcur]. pose proof (advance_ok (cursor v) key (N.of_nat (length (vResponses v) - 1)) Hcur) as Ha.
    destruct (Sequence.advance _ _ _) as [step c]. destruct Ha as [Ha1 Ha2].
    set (v' := mkVariant _ _ _ _ _ _ _ _).
    assert (Hv' : Forall variant_ok (<[i := v']> variants)) by (apply Forall_insert; [done|by split]).
    destruct step as [n|]; cbv iota; [|done]. split; [done|].
    exists v, status. split_and!; [done|done| |done|done].
    apply lookup_lt_is_Some. specialize (Ha1 n eq_refl). destruct (vResponses v); [done|]. simpl in *. lia.
  - split; [by rewrite list_insert_id|]. destruct (Hs Hz) as [n Hn']. rewrite Hn'. simpl.
    apply stepFor_spec in Hn'. exists v, status. split_and!; eauto.
Qed.
End select.

Lemma scenario_precedence_witness :
  let exact_q v := mkCompiled "q" (mkRule MockOpExact [v]) (exactValues [v]) in
  let mk n d ms := mkVariant n "" d ms [200%Z] ∅ None (Sequence.mkCursor ∅ 0) in
  let vs := [mk "plain" false []; mk "dflt" true [jsonMatcher (fun _ => false)]; mk "hit" false [queryMatcher [exact_q "1"]]] in
  let r q := mkReq "h" (<["q" := [q]]> ∅) (<["Content-Type" := ["application/json"]]> ∅) ∅ ∅ in
  let p q := mkProbe (r q) false Null false None (Journal.mkReader (bytes "1") None) in
  let choose q := fst (variantFor (unicode := Names.ascii) (fun _ => true) (fun _ => inr Null) (fun n => n) vs "" 0 (p q)) in
  choose "1" = inr 2 /\ choose "2" = inr 1 /\
  exists l1 v l2, candidates vs 0 = l1 ++ (2, v) :: l2 /\ vName v = "hit".
Proof.
  intros exact_q mk vs r p choose. split; [vm_compute; reflexivity|]. split; [vm_compute; reflexivity|].
  assert (Hf : fresh (p "1")) by repeat split.
  pose proof (scenario_precedence (unicode := Names.ascii) (fun _ => true) (fun _ => inr Null) (fun n => n) vs 0 (p "1") Hf) as H.
  cbv zeta in H. change (fst (variantFor (unicode := Names.ascii) (fun _ => true) (fun _ => inr Null) (fun n => n) vs "" 0 (p "1"))) with (choose "1") in H.
  replace (choose "1") with (@inr problem nat 2) in H by (vm_compute; reflexivity).
  destruct H as (l1 & v & l2 & Hcs & _). exists l1, v, l2. split; [exact Hcs|].
  assert (Hin : (2, v) ∈ candidates vs 0) by (rewrite Hcs; apply elem_of_app; right; apply list_elem_of_here).
  apply candidate_spec in Hin as [Hv _]. by injection Hv as <-.
Defined.

Lemma selection_in_range_witness :
  let v := mkVariant "seq" "seq" false [] [200%Z; 503%Z] ∅ None (Sequence.mkCursor ∅ 0) in
  let r := mkReq "h" ∅ (<["X-Resterm-Mock-Status" := [" 503 "]]> ∅) ∅ ∅ in
  let p := mkProbe r false Null false None (Journal.mkReader [] None) in
  Forall variant_ok [v] /\
  exists vs', pick (unicode := Names.ascii) (fun _ => true) (fun _ => inr Null) (fun n => n) [v] p = (inr (0, 1), vs', p) /\
    Forall variant_ok vs'.
Proof.
  intros v r p. assert (Hok : Forall variant_ok [v]).
  { apply Forall_cons. split; [|apply Forall_nil; exact I]. split; [done|]. intros k n H. cbn in H. by apply lookup_empty_Some in H. }
  split; [done|]. assert (Hf : fresh p) by repeat split.
  pose proof (selection_in_range (unicode := Names.ascii) (fun _ => true) (fun _ => inr Null) (fun n => n) [v] p Hf Hok) as H.
  exists [v]. assert (He : pick (unicode := Names.ascii) (fun _ => true) (fun _ => inr Null) (fun n => n) [v] p = (inr (0, 1), [v], p))
    by (vm_compute; reflexivity).
  split; [exact He|]. rewrite He in H. apply H.
Defined.
