(* ===== verification/Workflow.v ===== *)
(** * Workflow runs (src/internal/engine/core/wf.go, wf_evt.go, sink.go)

    A workflow is a list of steps: requests, for-each loops, @if and @switch.
    [RunPlan] runs them in order, tells a sink about every start and end, and
    decides after each step whether the run goes on.  What it calls (requests,
    conditions, expressions, the sink, the cancellation of its context) is the
    record [Dep]: functions of the number of the call, so they may answer
    differently every time.  A plan's document, environment and clock are
    constants of a run and are left out of events and calls. *)
From stdpp Require Import base list strings gmap.
From Stdlib Require Import Ascii ZArith Lia.
From S2P Require Import Prelude GoStd GoPath Names Value.

Open Scope string_scope.
Open Scope nat_scope.
Open Scope list_scope.

Module Wf.

(** An error, and whether [errors.Is(err, context.Canceled)]. *)
Record error := mkError { isCanceled : bool; text : string }.

(** [diag.WrapAs] keeps what it wraps. *)
Definition WrapAs (e : error) (operation : string) : error :=
  mkError (isCanceled e) (operation +:+ ": " +:+ text e).

Definition newErr (s : string) : error := mkError false s.

(** ** restfile *)

Inductive stepKind := KindRequest | KindIf | KindSwitch | KindForEach | KindDefault | KindOther (s : string).

Inductive failureMode := OnStop | OnContinue | OnUnset | OnOther (s : string).

Record ConditionSpec := mkCond { cExpression : string; cLine : Z; cNegate : bool }.

(** restfile.WorkflowForEach, restfile.ForEachSpec and request.ForEachSpec *)
Record ForEachSpec := mkForEach { fExpr : string; fVar : string; fLine : Z }.

(** restfile.WorkflowIfBranch ([bCond]) and WorkflowSwitchCase (its Expr) *)
Record branch := mkBranch { bCond : string; bRun : string; bFail : string; bLine : Z }.

Record WorkflowIf := mkIf { wThen : branch; wElifs : list branch; wElse : option branch }.
Record WorkflowSwitch := mkSwitch { wExpr : string; wCases : list branch; wDefault : option branch; wLine : Z }.

Record WorkflowExpect := mkExpect { eStatus : string; eStatusCode : option Z }.
Definition HasStatus (e : WorkflowExpect) : bool :=
  negb (bool_decide (eStatus e = "")) || bool_decide (is_Some (eStatusCode e)).

Record WorkflowStep := mkStep {
  sKind : stepKind;
  sName : string;
  sUsing : string;
  sOnFailure : failureMode;
  sExpect : WorkflowExpect;
  sVars : gmap string string;
  sWhen : option ConditionSpec;
  sIf : option WorkflowIf;
  sSwitch : option WorkflowSwitch;
  sForEach : option ForEachSpec
}.

(** The request of a step: its name, its for-each, what [engine.ReqTarget] shows,
    and the rest. *)
Record Request := mkRequest {
  rName : string;
  rForEach : option ForEachSpec;
  rTarget : string;
  rBody : string
}.

Record Workflow := mkWorkflow {
  wfName : string; wfDefaultOnFailure : failureMode; wfOptions : gmap string string; wfSteps : list WorkflowStep
}.

(** engine.RequestResult, as far as [evalReq] looks. *)
Record RequestResult := mkResult {
  resSkipped : bool;
  resSkipReason : string;
  resErr : option error;
  resScriptErr : option error;
  resTests : list bool;
  resResponse : option (string * Z);
  resGRPC : option Z;
  resStream : bool;
  resTranscript : string
}.

Definition emptyResult : RequestResult := mkResult false "" None None [] None None false "".
Definition failedResult (e : error) : RequestResult := mkResult false "" (Some e) None [] None None false "".
Definition skippedResult (reason : string) : RequestResult := mkResult true reason None None [] None None false "".

(** ** Plans and events *)

Record WorkflowStepRuntime := mkRuntime { rtStep : WorkflowStep; rtReq : option Request }.

(** [stepOutcome] *)
Inductive stepOutcome := stepFailed | stepPassed | stepSkipped | stepCanceled.

Record WorkflowPlan := mkPlan {
  plForEach : bool;             (* Run.Mode == ModeForEach *)
  plSteps : list WorkflowStepRuntime;
  plReqs : gmap string Request;
  plVars : gmap string string;
  plWfVars : bool
}.

Record StepMeta := mkMeta {
  Index : nat; mName : string; mKind : stepKind; Target : string; Branch : string; Iter : nat; Total : nat
}.

Inductive Evt :=
  | RunStart
  | RunDone (success skipped canceled : bool) (err : option error)
  | WfStepStart (m : StepMeta) (req : option Request)
  | WfStepDone (m : StepMeta) (res : RequestResult)
  | ReqStart (index : nat) (label : string) (req : Request)
  | ReqDone (index : nat) (label : string) (res : RequestResult).

(** Locals of an expression: [rts.Locals]. *)
Definition Locals := gmap string Value.

Record EvalInput := mkInput {
  inReq : option Request; inTag : string; inExpr : string; inLine : Z; inVars : gmap string string; inLocals : Locals
}.

(** [Dep], the sink and the context. *)
Record Dep := mkDep {
  ctxErr : nat -> option error;
  onEvt : nat -> Evt -> option error;
  CollectVariables : nat -> option Request -> gmap string string -> gmap string string;
  ExecuteWith : nat -> Request -> gmap string string -> Locals -> bool -> error + RequestResult;
  EvalCondition : nat -> Request -> ConditionSpec -> gmap string string -> Locals -> error + (bool * string);
  EvalForEachItems : nat -> Request -> ForEachSpec -> gmap string string -> error + list Value;
  EvalValue : nat -> EvalInput -> error + Value;
  ValueString : nat -> Request -> Z -> Value -> error + string
}.

(** ** The run *)

(** [wfRun], with the number of calls made and the events the sink was given. *)
Record wfRun := mkRun {
  idx : nat;
  seq : nat;
  rvars : NameMap string;
  done : bool;
  seen : bool;
  skip : bool;
  fail : bool;
  canceled : bool;
  calls : nat;
  sent : list Evt
}.

(** A method that can return an error. *)
Definition M (A : Type) : Type := wfRun -> (error + A) * wfRun.

Definition ret {A} (a : A) : M A := fun r => (inr a, r).
Definition throw {A} (e : error) : M A := fun r => (inl e, r).
Definition bind {A B} (m : M A) (k : A -> M B) : M B := fun r =>
  match m r with
  | (inl e, r') => (inl e, r')
  | (inr a, r') => k a r'
  end.
Definition get : M wfRun := fun r => (inr r, r).
Definition put (f : wfRun -> wfRun) : M unit := fun r => (inr tt, f r).

(** A call: the answer may depend on how many came before. *)
Definition call {A} (f : nat -> A) : M A := fun r =>
  (inr (f (calls r)),
   mkRun (idx r) (seq r) (rvars r) (done r) (seen r) (skip r) (fail r) (canceled r) (S (calls r)) (sent r)).

Definition set_vars (v : NameMap string) (r : wfRun) : wfRun :=
  mkRun (idx r) (seq r) v (done r) (seen r) (skip r) (fail r) (canceled r) (calls r) (sent r).
Definition next_idx (r : wfRun) : wfRun :=
  mkRun (S (idx r)) (seq r) (rvars r) (done r) (seen r) (skip r) (fail r) (canceled r) (calls r) (sent r).
Definition next_seq (r : wfRun) : wfRun :=
  mkRun (idx r) (S (seq r)) (rvars r) (done r) (seen r) (skip r) (fail r) (canceled r) (calls r) (sent r).
Definition set_canceled (r : wfRun) : wfRun :=
  mkRun (idx r) (seq r) (rvars r) (done r) (seen r) (skip r) (fail r) true (calls r) (sent r).
Definition set_done (r : wfRun) : wfRun :=
  mkRun (idx r) (seq r) (rvars r) true (seen r) (skip r) (fail r) (canceled r) (calls r) (sent r).
Definition deliver (e : Evt) (r : wfRun) : wfRun :=
  mkRun (idx r) (seq r) (rvars r) (done r) (seen r) (skip r) (fail r) (canceled r) (calls r) (sent r ++ [e]).

Declare Scope wf_scope.
Delimit Scope wf_scope with wf.
Notation "x <-- m ;; k" := (bind m (fun x => k)) (at level 100, m at level 99, right associativity) : wf_scope.
Notation "m ;;; k" := (bind m (fun _ => k)) (at level 100, right associativity) : wf_scope.
Open Scope wf_scope.

Definition wfTagWhen : string := "@when".
Definition wfTagForEach : string := "@for-each".
Definition wfTagIf : string := "@if".
Definition wfTagElif : string := "@elif".
Definition wfTagSwitch : string := "@switch".
Definition wfTagCase : string := "@case".

Definition stepOrDefault (s : WorkflowStep) : WorkflowStep :=
  match sKind s with
  | KindDefault =>
      mkStep KindRequest (sName s) (sUsing s) (sOnFailure s) (sExpect s) (sVars s) (sWhen s) (sIf s) (sSwitch s) (sForEach s)
  | _ => s
  end.

(** [WorkflowStep.Label] *)
Definition stepLabel (s : WorkflowStep) : string :=
  if negb (bool_decide (sName s = "")) then sName s
  else match sKind s with
       | KindIf => wfTagIf
       | KindSwitch => wfTagSwitch
       | KindForEach => if negb (bool_decide (sUsing s = "")) then sUsing s else wfTagForEach
       | _ => sUsing s
       end.

Definition StepLabel (s : WorkflowStep) (br : string) (iter total : nat) : string :=
  let lbl := stepLabel s in
  let lbl := if decide (lbl = "") then "step" else lbl in
  let lbl := if decide (br = "") then lbl else lbl +:+ " -> " +:+ br in
  if (0 <? iter) && (0 <? total)
  then lbl +:+ " (" +:+ itoa (Z.of_nat iter) +:+ "/" +:+ itoa (Z.of_nat total) +:+ ")"
  else lbl.

Definition stepMeta (i : nat) (s : WorkflowStep) (req : option Request) (br : string) (iter total : nat) : StepMeta :=
  let s := stepOrDefault s in
  mkMeta i (sName s) (sKind s) (match req with Some q => rTarget q | None => sUsing s end) br iter total.

(** [workflowForEach] *)
Definition workflowForEach (s : WorkflowStep) (req : option Request) : error + option ForEachSpec :=
  let wf :=
    match sKind s with
    | KindForEach => match sForEach s with None => inl (newErr "@for-each spec missing") | Some f => inr (Some f) end
    | _ => inr None
    end in
  match wf with
  | inl e => inl e
  | inr spec =>
      match req with
      | Some q =>
          match rForEach q with
          | Some f =>
              match spec with
              | Some _ => inl (newErr "cannot combine workflow @for-each with request @for-each")
              | None => inr (Some f)
              end
          | None => inr spec
          end
      | None => inr spec
      end
  end.

Definition IsWorkflowScopedVar (key : string) : bool := String.prefix "vars.workflow." key.

(** [WorkflowVarKeys] *)
Definition WorkflowVarKeys (name : string) (wf : bool) : string * string :=
  if decide (name = "") then ("", "")
  else ("vars.request." +:+ name, if wf then "vars.workflow." +:+ name else "").


Section run.
Context {unicode : Unicode} {host : Host}.
(** [codes.Code.String] of google.golang.org/grpc *)
Context (grpcCodeString : Z -> string).
Context (dep : Dep) (pl : WorkflowPlan).

(** [ctx.Err() != nil] *)
Definition ctxDone : M bool := e <-- call (ctxErr dep) ;; ret (bool_decide (is_Some e)).

(** [Emit] *)
Definition Emit (e : Evt) : M unit :=
  err <-- call (ctxErr dep) ;;
  match err with
  | Some e => throw e
  | None =>
      put (deliver e) ;;;
      answer <-- call (fun n => onEvt dep n e) ;;
      match answer with Some err => throw err | None => ret tt end
  end.

Definition emitRunStart : M unit := Emit RunStart.

Definition emitRunDone (err : option error) : M unit :=
  r <-- get ;;
  Emit (RunDone (done r && negb (skip r) && negb (fail r) && negb (canceled r)) (seen r && skip r) (canceled r) err).

Definition emitStepStart (i : nat) (s : WorkflowStep) (req : option Request) (br : string) (iter total : nat) : M unit :=
  Emit (WfStepStart (stepMeta i s req br iter total) req).

Definition emitStepDone (i : nat) (s : WorkflowStep) (req : option Request) (br : string) (iter total : nat)
    (res : RequestResult) : M unit :=
  Emit (WfStepDone (stepMeta i s req br iter total) res).

Definition emitReqStart (s : WorkflowStep) (req : Request) (br : string) (iter total : nat) : M unit :=
  put next_seq ;;;
  r <-- get ;;
  Emit (ReqStart (seq r) (StepLabel s br iter total) req).

Definition emitReqDone (s : WorkflowStep) (req : Request) (br : string) (iter total : nat) (res : RequestResult) : M unit :=
  r <-- get ;;
  Emit (ReqDone (seq r) (StepLabel s br iter total) res).

(** [evalReq] *)
Definition statusMatches (s : WorkflowStep) (res : RequestResult) : bool :=
  if decide (eStatus (sExpect s) = "") then true
  else
    let want := TrimSpace (eStatus (sExpect s)) in
    match resResponse res, resGRPC res with
    | Some (status, _), _ => EqualFold want (TrimSpace status)
    | None, Some code => EqualFold want (TrimSpace (grpcCodeString code))
    | None, None => false
    end.

Definition codeMatches (s : WorkflowStep) (res : RequestResult) : bool :=
  match eStatusCode (sExpect s) with
  | None => true
  | Some want =>
      match resResponse res, resGRPC res with
      | Some (_, got), _ => (got =? want)%Z
      | None, Some got => (got =? want)%Z
      | None, None => false
      end
  end.

Definition evalReq (s : WorkflowStep) (res : RequestResult) : stepOutcome :=
  if resSkipped res then stepSkipped
  else match resErr res with
  | Some e => if isCanceled e then stepCanceled else stepFailed
  | None =>
      match resScriptErr res with
      | Some _ => stepFailed
      | None =>
          if negb (forallb (fun passed => passed) (resTests res)) then stepFailed
          else if negb (statusMatches s res) then stepFailed
          else if negb (codeMatches s res) then stepFailed
          else match resResponse res with
               | Some (_, code) => if (400 <=? code)%Z && negb (HasStatus (sExpect s)) then stepFailed else stepPassed
               | None =>
                   if bool_decide (is_Some (resGRPC res)) || resStream res || negb (bool_decide (resTranscript res = ""))
                   then stepPassed else stepFailed
               end
      end
  end.

(** [note] *)
Definition note (out : stepOutcome) (r : wfRun) : wfRun :=
  match out with
  | stepSkipped => mkRun (idx r) (seq r) (rvars r) (done r) true (skip r) (fail r) (canceled r) (calls r) (sent r)
  | stepPassed => mkRun (idx r) (seq r) (rvars r) (done r) true false (fail r) (canceled r) (calls r) (sent r)
  | stepFailed => mkRun (idx r) (seq r) (rvars r) (done r) true false true (canceled r) (calls r) (sent r)
  | stepCanceled => mkRun (idx r) (seq r) (rvars r) (done r) true false true true (calls r) (sent r)
  end.

Definition execReq (s : WorkflowStep) (req : Request) (br : string) (iter total : nat)
    (extra : NameMap string) (locals : Locals) : M RequestResult :=
  emitReqStart s req br iter total ;;;
  out <-- call (fun n => ExecuteWith dep n req (Map extra) locals (plForEach pl)) ;;
  match out with
  | inl e => throw e
  | inr res => emitReqDone s req br iter total res ;;; ret res
  end.

Definition emitManualStep (s : WorkflowStep) (req : option Request) (br : string) (iter total : nat)
    (res : RequestResult) : M stepOutcome :=
  r <-- get ;;
  emitStepStart (idx r) s req br iter total ;;;
  emitStepDone (idx r) s req br iter total res ;;;
  let out := evalReq s res in
  put (note out) ;;; ret out.

Definition executeStepRequest (s : WorkflowStep) (req : Request) (br : string) (iter total : nat)
    (extra : NameMap string) (locals : Locals) : M stepOutcome :=
  r <-- get ;;
  emitStepStart (idx r) s (Some req) br iter total ;;;
  res <-- execReq s req br iter total extra locals ;;
  emitStepDone (idx r) s (Some req) br iter total res ;;;
  let out := evalReq s res in
  put (note out) ;;; ret out.

(** The policy of [finishStep]. *)
Definition stops (s : WorkflowStep) (out : stepOutcome) : bool :=
  match out with
  | stepCanceled => true
  | stepFailed => match sOnFailure s with OnContinue => false | _ => true end
  | _ => false
  end.

Definition finishStep (s : WorkflowStep) (out : stepOutcome) (advance : bool) : M bool :=
  (if advance then put next_idx else ret tt) ;;; ret (stops s out).

Definition manualFinish (s : WorkflowStep) (req : option Request) (br : string) (res : RequestResult) : M bool :=
  out <-- emitManualStep s req br 0 0 res ;;
  finishStep s out true.

(** [applyVars] and [stepExtras] *)
Definition applyVars (dst : NameMap string) (vals : gmap string string) : NameMap string :=
  foldl (fun m k => match vals !! k with Some v => if IsWorkflowScopedVar k then snd (Set_ k v m) else m | None => m end)
    dst (sorted_keys vals).

Definition stepExtras (base : NameMap string) (vals extra : gmap string string) : NameMap string :=
  SetMap extra (SetMap vals base).

Definition stepScope (s : WorkflowStep) (req : option Request) : M (NameMap string * gmap string string) :=
  r <-- get ;;
  put (set_vars (applyVars (rvars r) (sVars s))) ;;;
  r <-- get ;;
  let xv := stepExtras (rvars r) (sVars s) ∅ in
  vv <-- call (fun n => CollectVariables dep n req (Map xv)) ;;
  ret (xv, vv).

(** *** For-each *)

(** Cancellation seen at an error: [r.canceled = true; r.idx++; return true]. *)
Definition cancelAndAdvance : M bool := put set_canceled ;;; put next_idx ;;; ret true.

(** A manual iteration and its policy. *)
Definition manualIter (s : WorkflowStep) (req : Request) (br : string) (i total : nat) (e : error) : M bool :=
  out <-- emitManualStep s (Some req) br (S i) total (failedResult e) ;;
  finishStep s out false.

(** One iteration; the result is whether the run stops, in which case the index
    has been advanced. *)
Definition iteration (s : WorkflowStep) (req : Request) (br : string) (spec : ForEachSpec) (xv : NameMap string)
    (total i : nat) (item : Value) : M bool :=
  let stopOr (stop : bool) : M bool := if stop then put next_idx ;;; ret true else ret false in
  str <-- call (fun n => ValueString dep n req (fLine spec) item) ;;
  match str with
  | inl e =>
      c <-- ctxDone ;;
      if c then cancelAndAdvance
      else stop <-- manualIter s req br i total (WrapAs e wfTagForEach) ;; stopOr stop
  | inr itemStr =>
      let '(reqKey, wfKey) := WorkflowVarKeys (fVar spec) (plWfVars pl) in
      r <-- get ;;
      (if decide (wfKey = "") then ret tt else put (set_vars (snd (Set_ wfKey itemStr (rvars r))))) ;;;
      let loopVars := if decide (wfKey = "") then xv else snd (Set_ wfKey itemStr xv) in
      let loopVars := if decide (reqKey = "") then loopVars else snd (Set_ reqKey itemStr loopVars) in
      let loc : Locals := {[ fVar spec := item ]} in
      vv <-- call (fun n => CollectVariables dep n (Some req) (Map loopVars)) ;;
      let execute : M bool :=
        out <-- executeStepRequest s req br (S i) total loopVars loc ;;
        stop <-- finishStep s out false ;;
        stopOr stop in
      match sWhen s with
      | None => execute
      | Some w =>
          cond <-- call (fun n => EvalCondition dep n req w vv loc) ;;
          match cond with
          | inl e =>
              c <-- ctxDone ;;
              if c then cancelAndAdvance
              else stop <-- manualIter s req br i total (WrapAs e wfTagWhen) ;; stopOr stop
          | inr (false, reason) =>
              emitManualStep s (Some req) br (S i) total (skippedResult reason) ;;; ret false
          | inr (true, _) => execute
          end
      end
  end.

Fixpoint iterations (s : WorkflowStep) (req : Request) (br : string) (spec : ForEachSpec) (xv : NameMap string)
    (total i : nat) (items : list Value) : M bool :=
  match items with
  | [] => put next_idx ;;; ret false
  | item :: items' =>
      stop <-- iteration s req br spec xv total i item ;;
      if stop then ret true else iterations s req br spec xv total (S i) items'
  end.

(** *** Steps *)

(** [runReqStep] from the point where the step's condition holds. *)
Definition runForEach (s : WorkflowStep) (req : Request) (br : string) (xv : NameMap string)
    (vv : gmap string string) : M bool :=
  match workflowForEach s (Some req) with
  | inl e =>
      c <-- ctxDone ;;
      if c then cancelAndAdvance
      else manualFinish s (Some req) br (failedResult (WrapAs e wfTagForEach))
  | inr None =>
      out <-- executeStepRequest s req br 0 0 xv ∅ ;;
      finishStep s out true
  | inr (Some spec) =>
      items <-- call (fun n => EvalForEachItems dep n req spec vv) ;;
      match items with
      | inl e => manualFinish s (Some req) br (failedResult (WrapAs e wfTagForEach))
      | inr [] => manualFinish s (Some req) br (skippedResult "for-each produced no items")
      | inr items => iterations s req br spec xv (length items) 0 items
      end
  end.

Definition runReqStep (s : WorkflowStep) (req : option Request) (br : string) : M bool :=
  c <-- ctxDone ;;
  if c then put set_canceled ;;; ret true
  else match req with
  | None => manualFinish s None br (failedResult (newErr "workflow step missing request"))
  | Some req =>
      scope <-- stepScope s (Some req) ;;
      let '(xv, vv) := scope in
      match sWhen s with
      | None => runForEach s req br xv vv
      | Some w =>
          cond <-- call (fun n => EvalCondition dep n req w vv ∅) ;;
          match cond with
          | inl e =>
              c <-- ctxDone ;;
              if c then cancelAndAdvance
              else manualFinish s (Some req) br (failedResult (WrapAs e wfTagWhen))
          | inr (false, reason) => manualFinish s (Some req) br (skippedResult reason)
          | inr (true, _) => runForEach s req br xv vv
          end
      end
  end.

(** [evalStepValue], with the error as a value. *)
Definition evalStepValue (req : option Request) (line : Z) (tag expr : string) (vv : gmap string string)
    (locals : Locals) : M (error + Value) :=
  let expr := TrimSpace expr in
  if decide (expr = "") then ret (inl (newErr (tag +:+ " expression missing")))
  else call (fun n => EvalValue dep n (mkInput req tag expr line vv locals)).

Definition evalStepBool (req : option Request) (line : Z) (tag expr : string) (vv : gmap string string)
    (locals : Locals) : M (error + bool) :=
  v <-- evalStepValue req line tag expr vv locals ;;
  ret (match v with inl e => inl e | inr v => inr (IsTruthy v) end).

Definition resolveBranchRequest (run : string) : string * option Request :=
  let br := TrimSpace run in
  if decide (br = "") then ("", None) else (br, plReqs pl !! ToLower br).

Fixpoint selectElif (elifs : list branch) (vv : gmap string string) : M (error + option branch) :=
  match elifs with
  | [] => ret (inr None)
  | item :: elifs' =>
      ok <-- evalStepBool None (bLine item) wfTagElif (bCond item) vv ∅ ;;
      match ok with
      | inl e => ret (inl (WrapAs e wfTagElif))
      | inr true => ret (inr (Some item))
      | inr false => selectElif elifs' vv
      end
  end.

Definition selectIfBranch (w : WorkflowIf) (vv : gmap string string) : M (error + option branch) :=
  ok <-- evalStepBool None (bLine (wThen w)) wfTagIf (bCond (wThen w)) vv ∅ ;;
  match ok with
  | inl e => ret (inl (WrapAs e wfTagIf))
  | inr true => ret (inr (Some (wThen w)))
  | inr false =>
      br <-- selectElif (wElifs w) vv ;;
      ret (match br with inl e => inl e | inr (Some b) => inr (Some b) | inr None => inr (wElse w) end)
  end.

Fixpoint selectCase (base : Value) (cases : list branch) (vv : gmap string string) : M (error + option branch) :=
  match cases with
  | [] => ret (inr None)
  | item :: cases' =>
      let expr := TrimSpace (bCond item) in
      if decide (expr = "") then selectCase base cases' vv
      else
        v <-- evalStepValue None (bLine item) wfTagCase expr vv ∅ ;;
        match v with
        | inl e => ret (inl (WrapAs e wfTagCase))
        | inr v => if ValueEqual base v then ret (inr (Some item)) else selectCase base cases' vv
        end
  end.

Definition selectSwitchCase (w : WorkflowSwitch) (vv : gmap string string) : M (error + option branch) :=
  if decide (TrimSpace (wExpr w) = "") then ret (inl (newErr "@switch expression missing"))
  else
    base <-- evalStepValue None (wLine w) wfTagSwitch (wExpr w) vv ∅ ;;
    match base with
    | inl e => ret (inl (WrapAs e wfTagSwitch))
    | inr base =>
        br <-- selectCase base (wCases w) vv ;;
        ret (match br with inl e => inl e | inr (Some b) => inr (Some b) | inr None => inr (wDefault w) end)
    end.

(** The common tail of [runIf] and [runSwitch]: run the branch that was chosen. *)
Definition runBranch (s : WorkflowStep) (xv : NameMap string) (sel : error + option branch)
    (noBranch noRun : string) : M bool :=
  match sel with
  | inl e =>
      c <-- ctxDone ;;
      if c then put set_canceled ;;; ret true else manualFinish s None "" (failedResult e)
  | inr None => manualFinish s None "" (skippedResult noBranch)
  | inr (Some b) =>
      let msg := TrimSpace (bFail b) in
      if negb (bool_decide (msg = "")) then manualFinish s None "" (failedResult (newErr msg))
      else
        let '(br, req) := resolveBranchRequest (bRun b) in
        if decide (br = "") then manualFinish s None "" (skippedResult noRun)
        else match req with
             | None => manualFinish s None br (failedResult (newErr ("request " +:+ br +:+ " not found")))
             | Some req =>
                 out <-- executeStepRequest s req br 0 0 xv ∅ ;;
                 finishStep s out true
             end
  end.

Definition runIf (s : WorkflowStep) : M bool :=
  c <-- ctxDone ;;
  if c then put set_canceled ;;; ret true
  else match sIf s with
  | None => manualFinish s None "" (failedResult (newErr "workflow @if missing definition"))
  | Some w =>
      scope <-- stepScope s None ;;
      sel <-- selectIfBranch w (snd scope) ;;
      runBranch s (fst scope) sel "no @if branch matched" "no @if run target"
  end.

Definition runSwitch (s : WorkflowStep) : M bool :=
  c <-- ctxDone ;;
  if c then put set_canceled ;;; ret true
  else match sSwitch s with
  | None => manualFinish s None "" (failedResult (newErr "workflow @switch missing definition"))
  | Some w =>
      scope <-- stepScope s None ;;
      sel <-- selectSwitchCase w (snd scope) ;;
      runBranch s (fst scope) sel "no @switch case matched" "no @switch run target"
  end.

Definition kindText (k : stepKind) : string :=
  match k with
  | KindRequest => "step" | KindIf => "if" | KindSwitch => "switch" | KindForEach => "for-each"
  | KindDefault => "" | KindOther s => s
  end.

Definition runStep (rt : WorkflowStepRuntime) : M bool :=
  let s := stepOrDefault (rtStep rt) in
  match sKind s with
  | KindIf => runIf s
  | KindSwitch => runSwitch s
  | KindRequest | KindForEach => runReqStep s (rtReq rt) ""
  | k => manualFinish s (rtReq rt) "" (failedResult (newErr ("unknown workflow step kind " +:+ quote (kindText k))))
  end.

(** [run]: the loop over the steps, with fuel; [None] is running out of it. *)
Fixpoint runLoop (fuel : nat) : wfRun -> option ((error + unit) * wfRun) := fun r =>
  match plSteps pl !! idx r with
  | None => Some (inr tt, set_done r)
  | Some rt =>
      match fuel with
      | O => None
      | S fuel' =>
          match ctxDone r with
          | (inr true, r) => Some (inr tt, set_done (set_canceled r))
          | (inl e, r) => Some (inl e, r)
          | (inr false, r) =>
              match runStep rt r with
              | (inl e, r) => Some (inl e, r)
              | (inr true, r) => Some (inr tt, set_done r)
              | (inr false, r) => runLoop fuel' r
              end
          end
      end
  end.

Definition newRun : wfRun :=
  mkRun 0 0 (CollectNames (plVars pl)) false false true false false 0 [].

(** [RunPlan]: the error it returns ([inr None] is nil) and the final state. *)
Definition RunPlan (fuel : nat) : option (option error * wfRun) :=
  match emitRunStart newRun with
  | (inl e, r) => Some (Some e, r)
  | (inr _, r) =>
      match runLoop fuel r with
      | None => None
      | Some (res, r) =>
          let err := match res with inl e => Some e | inr _ => None end in
          match emitRunDone err r with
          | (inl derr, r) => Some (match err with Some e => Some e | None => Some derr end, r)
          | (inr _, r) => Some (err, r)
          end
      end
  end.

End run.

(** ** Preparing a plan *)

Section prepare.
Context {unicode : Unicode}.

(** [validateRun]: the branch's request exists; [None] is no error. *)
Definition validateRun (name : string) (i : nat) (reqs : gmap string Request) (run : string) : option error :=
  if decide (TrimSpace run = "") then None
  else match reqs !! ToLower (TrimSpace run) with
       | Some _ => None
       | None => Some (newErr ("workflow " +:+ name +:+ ": step " +:+ itoa (Z.of_nat i) +:+ " request " +:+ run +:+ " not found"))
       end.

Fixpoint validateRuns (name : string) (i : nat) (reqs : gmap string Request) (runs : list string) : option error :=
  match runs with
  | [] => None
  | run :: runs' =>
      match validateRun name i reqs run with Some e => Some e | None => validateRuns name i reqs runs' end
  end.

Definition opt_list {A} (o : option A) : list A := match o with Some a => [a] | None => [] end.

(** The body of the loop of [prepareWorkflow] for step [i] (from 1). *)
Definition prepareStep (name : string) (reqs : gmap string Request) (i : nat) (s : WorkflowStep) :
    error + WorkflowStepRuntime :=
  let s := stepOrDefault s in
  let missing what := inl (newErr ("workflow " +:+ name +:+ ": step " +:+ itoa (Z.of_nat i) +:+ " missing " +:+ what)) in
  match sKind s with
  | KindRequest | KindForEach =>
      let key := ToLower (TrimSpace (sUsing s)) in
      if decide (key = "") then missing "'using' request"
      else match reqs !! key with
           | None => inl (newErr ("workflow " +:+ name +:+ ": request " +:+ sUsing s +:+ " not found"))
           | Some req =>
               match sKind s, sForEach s with
               | KindForEach, None => missing "@for-each spec"
               | _, _ => inr (mkRuntime s (Some req))
               end
           end
  | KindIf =>
      match sIf s with
      | None => missing "@if definition"
      | Some w =>
          match validateRuns name i reqs (bRun (wThen w) :: map bRun (wElifs w) ++ map bRun (opt_list (wElse w))) with
          | Some e => inl e
          | None => inr (mkRuntime s None)
          end
      end
  | KindSwitch =>
      match sSwitch s with
      | None => missing "@switch definition"
      | Some w =>
          match validateRuns name i reqs (map bRun (wCases w) ++ map bRun (opt_list (wDefault w))) with
          | Some e => inl e
          | None => inr (mkRuntime s None)
          end
      end
  | k => inl (newErr ("workflow " +:+ name +:+ ": step " +:+ itoa (Z.of_nat i) +:+ " has unknown kind " +:+ quote (kindText k)))
  end.

Fixpoint prepareSteps (name : string) (reqs : gmap string Request) (i : nat) (steps : list WorkflowStep) :
    error + list WorkflowStepRuntime :=
  match steps with
  | [] => inr []
  | s :: steps' =>
      match prepareStep name reqs i s with
      | inl e => inl e
      | inr rt =>
          match prepareSteps name reqs (S i) steps' with inl e => inl e | inr rts => inr (rt :: rts) end
      end
  end.

(** The requests of the document by name, later ones winning. *)
Definition collectRequests (requests : list Request) : gmap string Request :=
  foldl (fun m q =>
    let name := ToLower (TrimSpace (rName q)) in
    if decide (name = "") then m else <[name := q]> m) ∅ requests.

Definition prepareWorkflow (requests : list Request) (wf : Workflow) :
    error + (list WorkflowStepRuntime * gmap string Request) :=
  if bool_decide (wfSteps wf = []) then inl (newErr ("workflow " +:+ wfName wf +:+ " has no steps"))
  else if bool_decide (length requests = 0) then inl (newErr ("workflow " +:+ wfName wf +:+ ": no requests defined"))
  else
    let reqs := collectRequests requests in
    match prepareSteps (wfName wf) reqs 1 (wfSteps wf) with
    | inl e => inl e
    | inr steps => inr (steps, reqs)
    end.

Definition normWfStep (f : failureMode) (s : WorkflowStep) : WorkflowStep :=
  mkStep (sKind s) (TrimSpace (sName s)) (TrimSpace (sUsing s))
    (match sOnFailure s with OnUnset => f | m => m end)
    (sExpect s) (sVars s) (sWhen s) (sIf s) (sSwitch s) (sForEach s).

Definition normWf (wf : Workflow) : Workflow :=
  mkWorkflow (TrimSpace (wfName wf)) (wfDefaultOnFailure wf) (wfOptions wf)
    (map (normWfStep (wfDefaultOnFailure wf)) (wfSteps wf)).

(** [PrepareWorkflow] and [PrepareForEach] *)
Definition PrepareWorkflow (requests : list Request) (wf : Workflow) : error + WorkflowPlan :=
  let wf := normWf wf in
  match prepareWorkflow requests wf with
  | inl e => inl e
  | inr (steps, reqs) =>
      inr (mkPlan false steps reqs (filter (fun kv => String.prefix "vars." (kv.1) = true) (wfOptions wf)) true)
  end.

Definition PrepareForEach (title : string) (req : Request) : WorkflowPlan :=
  mkPlan true
    [mkRuntime (mkStep KindRequest title "" OnStop (mkExpect "" None) ∅ None None None None) (Some req)]
    ∅ ∅ false.
End prepare.

End Wf.
