(* ===== verification/WorkflowFacts.v ===== *)
(** * What a workflow run reports (src/internal/engine/core/wf.go, wf_evt.go)

    The protocol of the events a run gives its sink, as an automaton over the
    plan ([legal], [follow]), and the proof that every run follows it: steps in
    order, starts paired with ends, requests inside their steps, nothing after
    the step that stops the run, and a verdict that is the one the outcomes of
    the steps give.  [wp] is the weakest precondition of the run's monad with
    what holds at an error fixed ([broken]). *)
From stdpp Require Import base list strings gmap.
From Stdlib Require Import Ascii ZArith Lia.
From S2P Require Import Prelude GoStd GoPath Names Value Workflow.

Open Scope string_scope.
Open Scope nat_scope.
Open Scope list_scope.

Module WfFacts.
Import Wf.

#[export] Instance error_eq : EqDecision error.
Proof. solve_decision. Defined.
#[export] Instance stepKind_eq : EqDecision stepKind.
Proof. solve_decision. Defined.
#[export] Instance StepMeta_eq : EqDecision StepMeta.
Proof. solve_decision. Defined.
#[export] Instance ForEachSpec_eq : EqDecision ForEachSpec.
Proof. solve_decision. Defined.
#[export] Instance Request_eq : EqDecision Request.
Proof. solve_decision. Defined.
#[export] Instance RequestResult_eq : EqDecision RequestResult.
Proof. solve_decision. Defined.

(** ** The protocol *)

Inductive stage :=
  | Before
  | Idle
  | InStep (m : StepMeta) (req : option Request)
  | InReq (m : StepMeta)
  | AfterReq (m : StepMeta) (res : RequestResult)
  | Stopped
  | Over.

(** Where the run is: the step to run next, how many iterations of how many it
    has done, the requests sent, and the outcomes of the steps that ended. *)
Record track := mkTrack {
  at_ : stage; next : nat; iter : nat; total : nat; reqs : nat; outs : list stepOutcome
}.

Definition goto (s : stage) (t : track) : track := mkTrack s (next t) (iter t) (total t) (reqs t) (outs t).

Definition running (s : stage) : bool := match s with Before | Over => false | _ => true end.

Definition isSkip (o : stepOutcome) : bool := match o with stepSkipped => true | _ => false end.
Definition isCanc (o : stepOutcome) : bool := match o with stepCanceled => true | _ => false end.
Definition good (o : stepOutcome) : bool := match o with stepPassed | stepSkipped => true | _ => false end.

Definition startTrack : track := mkTrack Before 0 0 0 0 [].

Section protocol.
Context {unicode : Unicode} {host : Host}.
Context (grpc : Z -> string) (pl : WorkflowPlan).

(** The step at an index, and the outcome a result is for it. *)
Definition stepAt (i : nat) : option WorkflowStep := stepOrDefault <$> (rtStep <$> (plSteps pl !! i)).

Definition outcomeOf (m : StepMeta) (res : RequestResult) : stepOutcome :=
  match stepAt (Index m) with Some s => evalReq grpc s res | None => stepFailed end.

Definition stopsAt (m : StepMeta) (res : RequestResult) : bool :=
  match stepAt (Index m) with Some s => stops s (evalReq grpc s res) | None => true end.

(** A step starts where the run is: fresh, or the next iteration. *)
Definition fits (t : track) (m : StepMeta) : bool :=
  if decide (iter t = 0)
  then bool_decide (Iter m = 0 /\ Total m = 0 \/ Iter m = 1 /\ 1 <= Total m)
  else bool_decide (Iter m = S (iter t) /\ Total m = total t).

Definition ended (t : track) (m : StepMeta) (res : RequestResult) : track :=
  let os := outs t ++ [outcomeOf m res] in
  let st := if stopsAt m res then Stopped else Idle in
  if decide (Iter m = Total m) then mkTrack st (S (next t)) 0 0 (reqs t) os
  else mkTrack st (next t) (Iter m) (Total m) (reqs t) os.

(** The verdict of a run whose steps had the outcomes of [t]. *)
Definition verdict (t : track) (success skipped cancel : bool) (err : option error) : bool :=
  match err with
  | Some _ => negb success
  | None =>
      Bool.eqb success (negb (forallb isSkip (outs t)) && forallb good (outs t) && negb cancel) &&
      Bool.eqb skipped (negb (bool_decide (outs t = [])) && forallb isSkip (outs t)) &&
      implb (existsb isCanc (outs t)) cancel &&
      (cancel || match at_ t with Stopped => true | Idle => length (plSteps pl) =? next t | _ => false end)
  end.

Definition legal (t : track) (e : Evt) : option track :=
  match e with
  | RunStart => match at_ t with Before => Some (goto Idle t) | _ => None end
  | WfStepStart m q =>
      match at_ t, stepAt (next t) with
      | Idle, Some s =>
          if bool_decide (Index m = next t /\ mName m = sName s /\ mKind m = sKind s) && fits t m
          then Some (goto (InStep m q) t) else None
      | _, _ => None
      end
  | ReqStart n lbl q =>
      match at_ t, stepAt (next t) with
      | InStep m (Some q'), Some s =>
          if bool_decide (n = S (reqs t) /\ q = q' /\ lbl = StepLabel s (Branch m) (Iter m) (Total m))
          then Some (mkTrack (InReq m) (next t) (iter t) (total t) n (outs t)) else None
      | _, _ => None
      end
  | ReqDone n lbl res =>
      match at_ t, stepAt (next t) with
      | InReq m, Some s =>
          if bool_decide (n = reqs t /\ lbl = StepLabel s (Branch m) (Iter m) (Total m))
          then Some (goto (AfterReq m res) t) else None
      | _, _ => None
      end
  | WfStepDone m res =>
      match at_ t with
      | InStep m' _ => if bool_decide (m = m') then Some (ended t m res) else None
      | AfterReq m' res' => if bool_decide (m = m' /\ res = res') then Some (ended t m res) else None
      | _ => None
      end
  | RunDone su sk ca err =>
      if running (at_ t) && verdict t su sk ca err then Some (goto Over t) else None
  end.

(** The automaton on a list of events. *)
Definition follow (evs : list Evt) : option track :=
  foldl (fun o e => t ← o; legal t e) (Some startTrack) evs.

Lemma follow_snoc evs e : follow (evs ++ [e]) = t ← follow evs; legal t e.
Proof. unfold follow. by rewrite foldl_app. Qed.

(** ** The run's state and the track *)

Context (dep : Dep).

(** The context was found cancelled, or was cancelled by the [n]-th call. *)
Definition cancelledBy (n : nat) : Prop := exists k, k < n /\ is_Some (ctxErr dep k).

Lemma cancelledBy_mono n n' : n <= n' -> cancelledBy n -> cancelledBy n'.
Proof. intros Hn (k & Hk & Hc). exists k. split; [lia|done]. Qed.

(** The flags say what the outcomes are. *)
Definition flags (os : list stepOutcome) (r : wfRun) : Prop :=
  seen r = negb (bool_decide (os = [])) /\ skip r = forallb isSkip os /\ fail r = negb (forallb good os) /\
  (existsb isCanc os = true -> canceled r = true) /\
  (canceled r = true -> existsb isCanc os = true \/ cancelledBy (calls r)).

Record matches (t : track) (r : wfRun) : Prop := {
  m_follow : follow (sent r) = Some t;
  m_running : running (at_ t) = true;
  m_reqs : reqs t = seq r;
  m_flags : flags (outs t) r;
  m_done : done r = false
}.

(** A run cancelled has a reason: a step's outcome, or its context. *)
Definition reason (t : track) (r : wfRun) : Prop :=
  canceled r = true -> existsb isCanc (outs t) = true \/ cancelledBy (calls r).

(** At an error: a prefix of the protocol, and the run not done. *)
Definition broken (r : wfRun) : Prop :=
  done r = false /\ exists t, follow (sent r) = Some t /\ running (at_ t) = true /\ reason t r.

Lemma matches_reason t r : matches t r -> reason t r.
Proof. intros [_ _ _ (_ & _ & _ & _ & Hb) _]. exact Hb. Qed.
Lemma matches_broken t r : matches t r -> broken r.
Proof. intros Hm. split; [apply Hm|]. exists t. split_and!; [apply Hm..|by apply matches_reason]. Qed.

Definition wp {A} (m : M A) (Q : A -> wfRun -> Prop) (r : wfRun) : Prop :=
  match m r with (inl _, r') => broken r' | (inr a, r') => Q a r' end.

Lemma wp_bind {A B} (m : M A) (k : A -> M B) Q r : wp m (fun a => wp (k a) Q) r -> wp (bind m k) Q r.
Proof. unfold wp, bind. by destruct (m r) as [[e|a] r']. Qed.
Lemma wp_mono {A} (m : M A) (P Q : A -> wfRun -> Prop) r : wp m P r -> (forall a r', P a r' -> Q a r') -> wp m Q r.
Proof. unfold wp. destruct (m r) as [[e|a] r']; auto. Qed.
Lemma wp_seq {A B} (m : M A) (k : A -> M B) P Q r :
  wp m P r -> (forall a r', P a r' -> wp (k a) Q r') -> wp (bind m k) Q r.
Proof. intros Hm Hk. apply wp_bind. by eapply wp_mono. Qed.

Definition with_calls (n : nat) (r : wfRun) : wfRun :=
  mkRun (idx r) (seq r) (rvars r) (done r) (seen r) (skip r) (fail r) (canceled r) n (sent r).

Lemma wp_call {A} (f : nat -> A) (Q : A -> wfRun -> Prop) r :
  Q (f (calls r)) (with_calls (S (calls r)) r) -> wp (call f) Q r.
Proof. done. Qed.

(** An event the automaton accepts is delivered, or the run breaks. *)
Lemma wp_Emit t t' e (Q : unit -> wfRun -> Prop) r :
  follow (sent r) = Some t -> running (at_ t) = true -> legal t e = Some t' -> running (at_ t') = true -> done r = false ->
  reason t r -> (existsb isCanc (outs t) = true -> existsb isCanc (outs t') = true) ->
  (forall n, calls r <= n -> Q tt (deliver e (with_calls n r))) -> wp (Emit dep e) Q r.
Proof.
  intros Hf Hrun Hl Hrun' Hd Hc Hmono HQ. unfold wp, Emit, bind, call, put. simpl.
  assert (Hc' : forall n, calls r <= n -> canceled r = true -> existsb isCanc (outs t) = true \/ cancelledBy n).
  { intros n Hn Hcan. destruct (Hc Hcan) as [?|?]; [by left|right; by eapply cancelledBy_mono]. }
  destruct (ctxErr dep (calls r)) as [err|]; simpl.
  - split; [done|]. exists t. split_and!; [done..|]. intros Hcan. apply Hc'; [simpl; lia|done].
  - destruct (onEvt dep (S (calls r)) e) as [err|]; simpl.
    + split; [done|]. exists t'. simpl. rewrite follow_snoc, Hf. split_and!; [done..|]. intros Hcan.
      destruct (Hc' (S (S (calls r)))) as [?|?]; [lia|done|left; auto|by right].
    + apply (HQ (S (S (calls r)))). lia.
Qed.

Lemma flags_calls os r n : flags os r -> calls r <= n -> flags os (with_calls n r).
Proof.
  intros (Hs & Hk & Hf & Hc & Hb) Hn. do 4 (split; [done|]). intros Hcan.
  destruct (Hb Hcan) as [?|?]; [by left|right]. by eapply cancelledBy_mono.
Qed.

Lemma flags_note os r out : flags os r -> flags (os ++ [out]) (note out r).
Proof.
  intros (Hs & Hk & Hf & Hc & Hb). unfold flags. rewrite !forallb_app, !existsb_app.
  rewrite bool_decide_eq_false_2 by (by destruct os). destruct out; simpl; rewrite ?andb_true_r, ?orb_false_r;
    rewrite ?andb_false_r, ?orb_true_r; (split; [done|]); (split; [done|]); auto.
Qed.

(** The parts of the state the track does not see may change. *)
Lemma matches_upd t r r' :
  matches t r -> sent r' = sent r -> seq r' = seq r -> seen r' = seen r -> skip r' = skip r -> fail r' = fail r ->
  canceled r' = canceled r -> done r' = done r -> calls r <= calls r' -> matches t r'.
Proof.
  intros [Hf Hr Hq (Hs & Hk & Hl & Hc & Hb) Hd] E1 E2 E3 E4 E5 E6 E7 Hn.
  constructor; unfold flags; rewrite ?E1, ?E2, ?E3, ?E4, ?E5, ?E6, ?E7; [done..| |done].
  do 4 (split; [done|]). intros Hcan. destruct (Hb Hcan) as [?|?]; [by left|right]. by eapply cancelledBy_mono.
Qed.

Lemma matches_calls t r n : matches t r -> calls r <= n -> matches t (with_calls n r).
Proof. intros Hm Hn. by apply (matches_upd t r). Qed.

(** A run cancelled by its context. *)
Lemma flags_cancel os r : flags os r -> cancelledBy (calls r) -> flags os (set_canceled r).
Proof. intros (Hs & Hk & Hl & Hc & Hb) Hcan. unfold flags. simpl. auto 10. Qed.

Lemma stepOrDefault_idem s : stepOrDefault (stepOrDefault s) = stepOrDefault s.
Proof. by destruct s as [[] ? ? ? ? ? ? ? ? ?]. Qed.
Lemma stepAt_default i s : stepAt i = Some s -> stepOrDefault s = s.
Proof.
  unfold stepAt. destruct (plSteps pl !! i) as [rt|]; simpl; intros [= <-]. apply stepOrDefault_idem.
Qed.
Lemma stepAt_at i rt : plSteps pl !! i = Some rt -> stepAt i = Some (stepOrDefault (rtStep rt)).
Proof. intros E. unfold stepAt. by rewrite E. Qed.

(** ** One step of the run *)

(** Delivering an event that moves the track without ending a step. *)
Lemma wp_event t t' e (Q : unit -> wfRun -> Prop) r :
  matches t r -> legal t e = Some t' -> running (at_ t') = true -> reqs t' = reqs t -> outs t' = outs t ->
  (forall r', matches t' r' -> idx r' = idx r -> Q tt r') -> wp (Emit dep e) Q r.
Proof.
  intros Hm Hl Hrun Hq Ho HQ. pose proof (matches_reason _ _ Hm) as Hc. destruct Hm as [Hf Hr Hs Hfl Hd].
  eapply wp_Emit; [done..|by rewrite Ho|]. intros n Hn. apply HQ; [|done]. constructor; simpl; [|done|congruence| |done].
  - by rewrite follow_snoc, Hf.
  - rewrite Ho. by apply flags_calls.
Qed.

Lemma wp_emitStepStart t s req br it tot (Q : unit -> wfRun -> Prop) r :
  matches t r -> at_ t = Idle -> next t = idx r -> stepAt (idx r) = Some s ->
  fits t (stepMeta (idx r) s req br it tot) = true ->
  (forall r', matches (goto (InStep (stepMeta (idx r) s req br it tot) req) t) r' -> idx r' = idx r -> Q tt r') ->
  wp (emitStepStart dep (idx r) s req br it tot) Q r.
Proof.
  intros Hm Hat Hn Hs Hfit HQ. eapply wp_event; [done| | | | |exact HQ]; [|done..].
  unfold legal. rewrite Hat, Hn, Hs, Hfit, bool_decide_eq_true_2; [done|].
  unfold stepMeta. rewrite (stepAt_default _ _ Hs). done.
Qed.

Lemma wp_emitReqStart t m s req br it tot (Q : unit -> wfRun -> Prop) r :
  matches (goto (InStep m (Some req)) t) r -> stepAt (next t) = Some s -> Branch m = br -> Iter m = it -> Total m = tot ->
  (forall r', matches (mkTrack (InReq m) (next t) (iter t) (total t) (S (reqs t)) (outs t)) r' ->
     idx r' = idx r -> Q tt r') ->
  wp (emitReqStart dep s req br it tot) Q r.
Proof.
  intros [Hf Hr Hs Hfl Hd] Hst Hb Hi Ht HQ. unfold emitReqStart. apply wp_bind. simpl. unfold wp, put, bind, get. simpl.
  fold (wp (Emit dep (ReqStart (S (seq r)) (StepLabel s br it tot) req)) Q (next_seq r)).
  eapply wp_Emit with (t' := mkTrack (InReq m) (next t) (iter t) (total t) (S (seq r)) (outs t));
    [exact Hf|done| |done|done|exact (proj2 (proj2 (proj2 (proj2 Hfl))))|done|].
  - simpl in *. rewrite Hst, bool_decide_eq_true_2; [done|]. subst. by rewrite Hs.
  - intros n Hn. simpl in Hs. apply HQ; [|done]. constructor; simpl; [|done|by rewrite Hs| |done].
    + rewrite follow_snoc, Hf. simpl. rewrite Hst, bool_decide_eq_true_2 by (subst; by rewrite ?Hs). by rewrite Hs.
    + by apply (flags_calls (outs t) (next_seq r)).
Qed.

Lemma wp_emitReqDone t m s req br it tot res (Q : unit -> wfRun -> Prop) r :
  matches (goto (InReq m) t) r -> stepAt (next t) = Some s -> Branch m = br -> Iter m = it -> Total m = tot ->
  (forall r', matches (goto (AfterReq m res) t) r' -> idx r' = idx r -> Q tt r') ->
  wp (emitReqDone dep s req br it tot res) Q r.
Proof.
  intros Hm Hst Hb Hi Ht HQ. unfold emitReqDone, wp, bind, get. simpl.
  fold (wp (Emit dep (ReqDone (seq r) (StepLabel s br it tot) res)) Q r).
  eapply wp_event; [exact Hm| | | | |exact HQ]; [|done..].
  simpl. rewrite Hst, bool_decide_eq_true_2; [done|]. split; [|by subst]. symmetry. exact (m_reqs _ _ Hm).
Qed.

(** The end of a step: its outcome is noted and the track has moved past it. *)
Definition stepped (s : WorkflowStep) (it tot : nat) (i : nat) (out : stepOutcome) (r' : wfRun) : Prop :=
  idx r' = i /\ exists t', matches t' r' /\ at_ t' = (if stops s out then Stopped else Idle) /\
  (if decide (it = tot) then next t' = S i /\ iter t' = 0 else next t' = i /\ iter t' = it /\ total t' = tot).

Lemma wp_endStep t st s req br it tot res r :
  let m := stepMeta (idx r) s req br it tot in
  matches (goto st t) r -> st = InStep m req \/ st = AfterReq m res -> next t = idx r -> stepAt (idx r) = Some s ->
  wp (emitStepDone dep (idx r) s req br it tot res ;;; put (note (evalReq grpc s res)) ;;; ret (evalReq grpc s res))
    (stepped s it tot (idx r)) r.
Proof.
  intros m Hm Hst Hn Hs. apply wp_bind. destruct Hm as [Hf Hr Hq Hfl Hd].
  assert (Hl : legal (goto st t) (WfStepDone m res) = Some (ended (goto st t) m res)).
  { destruct Hst as [-> | ->]; simpl; by rewrite bool_decide_eq_true_2. }
  assert (Hout : outcomeOf m res = evalReq grpc s res) by (unfold outcomeOf; simpl; by rewrite Hs).
  assert (Hstop : stopsAt m res = stops s (evalReq grpc s res)) by (unfold stopsAt; simpl; by rewrite Hs).
  assert (Hrun : running (at_ (ended (goto st t) m res)) = true).
  { unfold ended. by destruct (decide _), (stopsAt m res). }
  eapply wp_Emit; [exact Hf|done|exact Hl|exact Hrun|exact Hd|exact (proj2 (proj2 (proj2 (proj2 Hfl))))| |].
  { unfold ended. destruct (decide _); simpl; rewrite existsb_app; by intros ->. }
  intros n Hge. unfold wp, bind, put, ret. simpl. split; [by destruct (evalReq grpc s res)|].
  exists (ended (goto st t) m res). split; [|unfold ended; rewrite Hstop; simpl; rewrite Hn; by destruct (decide (it = tot))].
  assert (Ho : outs (ended (goto st t) m res) = outs t ++ [evalReq grpc s res]).
  { unfold ended. rewrite Hout. by destruct (decide _). }
  assert (Hrq : reqs (ended (goto st t) m res) = reqs t) by (unfold ended; by destruct (decide _)).
  constructor; rewrite ?Ho, ?Hrq.
  - replace (sent (note _ _)) with (sent r ++ [WfStepDone m res]) by (by destruct (evalReq grpc s res)).
    by rewrite follow_snoc, Hf.
  - done.
  - simpl in Hq. rewrite Hq. by destruct (evalReq grpc s res).
  - apply flags_note. by apply (flags_calls _ r n).
  - rewrite <- Hd. by destruct (evalReq grpc s res).
Qed.

(** [emitManualStep] and [executeStepRequest] report a whole step. *)
Lemma wp_emitManualStep t s req br it tot res r :
  matches t r -> at_ t = Idle -> next t = idx r -> stepAt (idx r) = Some s ->
  fits t (stepMeta (idx r) s req br it tot) = true ->
  wp (emitManualStep grpc dep s req br it tot res) (stepped s it tot (idx r)) r.
Proof.
  intros Hm Hat Hn Hs Hfit. unfold emitManualStep. apply wp_bind. change (wp (emitStepStart dep (idx r) s req br it tot ;;;
    emitStepDone dep (idx r) s req br it tot res ;;; put (note (evalReq grpc s res)) ;;; ret (evalReq grpc s res))
    (stepped s it tot (idx r)) r).
  apply wp_bind. eapply wp_emitStepStart; [done..|]. intros r' Hm' Hi. rewrite <- Hi.
  eapply wp_endStep; [exact Hm'|left; by rewrite Hi|by rewrite Hi|by rewrite Hi].
Qed.

Lemma wp_executeStepRequest t s req br it tot extra loc r :
  matches t r -> at_ t = Idle -> next t = idx r -> stepAt (idx r) = Some s ->
  fits t (stepMeta (idx r) s (Some req) br it tot) = true ->
  wp (executeStepRequest grpc dep pl s req br it tot extra loc) (stepped s it tot (idx r)) r.
Proof.
  intros Hm Hat Hn Hs Hfit. unfold executeStepRequest. apply wp_bind.
  change (wp (emitStepStart dep (idx r) s (Some req) br it tot ;;;
    res <-- execReq dep pl s req br it tot extra loc ;;
    emitStepDone dep (idx r) s (Some req) br it tot res ;;; put (note (evalReq grpc s res)) ;;; ret (evalReq grpc s res))
    (stepped s it tot (idx r)) r).
  apply wp_bind. eapply wp_emitStepStart; [done..|]. intros r1 Hm1 Hi1.
  apply wp_bind. unfold execReq. apply wp_bind.
  eapply wp_emitReqStart with (t := t); [exact Hm1|by rewrite Hn|done..|]. intros r2 Hm2 Hi2.
  apply wp_bind, wp_call. destruct (ExecuteWith _ _ _ _ _ _) as [e|res].
  - eapply (matches_broken _ (with_calls (S (calls r2)) r2)), matches_calls; [exact Hm2|lia].
  - apply wp_bind.
    eapply wp_emitReqDone with (t := mkTrack Idle (next t) (iter t) (total t) (S (reqs t)) (outs t));
      [apply matches_calls; [exact Hm2|lia]|simpl; by rewrite Hn|done..|].
    intros r3 Hm3 Hi3. simpl in Hi3. assert (Hi : idx r3 = idx r) by congruence.
    unfold wp at 1. simpl. rewrite <- Hi. eapply wp_endStep; [exact Hm3|by right; rewrite Hi|simpl; by rewrite Hn|by rewrite Hi].
Qed.

(** ** Results of a step *)

(** A run between steps, and a run that is over: stopped by the policy, or
    cancelled. *)
Definition ready (i : nat) (r : wfRun) : Prop :=
  idx r = i /\ exists t, matches t r /\ at_ t = Idle /\ next t = i /\ iter t = 0.
Definition over (r : wfRun) : Prop :=
  exists t, matches t r /\ (at_ t = Stopped \/ canceled r = true).

(** What a step leaves: [true] is an end of the run, [false] the next step. *)
Definition settled (i : nat) (stop : bool) (r : wfRun) : Prop := if stop then over r else ready (S i) r.

Lemma over_next r : over r -> over (next_idx r).
Proof. intros (t & Hm & Ho). exists t. split; [by eapply matches_upd|done]. Qed.

Lemma wp_cancel t i r : matches t r -> cancelledBy (calls r) -> wp (put set_canceled ;;; ret true) (settled i) r.
Proof.
  intros [Hf Hr Hq Hfl Hd] Hc. exists t. split; [|by right]. constructor; [done..| |done]. by apply flags_cancel.
Qed.
Lemma wp_cancelAndAdvance t i r : matches t r -> cancelledBy (calls r) -> wp cancelAndAdvance (settled i) r.
Proof. intros Hm Hc. apply over_next. by apply (wp_cancel t i r). Qed.

Lemma wp_ctxDone t (Q : bool -> wfRun -> Prop) r :
  matches t r ->
  (forall c r', matches t r' -> idx r' = idx r -> (c = true -> cancelledBy (calls r')) -> Q c r') ->
  wp (ctxDone dep) Q r.
Proof.
  intros Hm HQ. apply (HQ _ (with_calls (S (calls r)) r)); [apply matches_calls; [done|lia]|done|].
  intros Hc%bool_decide_eq_true. exists (calls r). simpl. split; [lia|done].
Qed.

Lemma wp_call_matches {A} t (f : nat -> A) (Q : A -> wfRun -> Prop) r :
  matches t r -> (forall a r', matches t r' -> idx r' = idx r -> Q a r') -> wp (call f) Q r.
Proof.
  intros Hm HQ. apply wp_call. apply HQ; [|done]. apply matches_calls; [done|lia].
Qed.

Lemma ready_fits i r s req br : ready i r -> exists t, matches t r /\ at_ t = Idle /\ next t = idx r /\
  fits t (stepMeta i s req br 0 0) = true /\ idx r = i /\ iter t = 0.
Proof.
  intros (Hi & t & Hm & Hat & Hn & Hit). exists t. split_and!; [done|done|congruence| |done|done].
  unfold fits. by rewrite decide_True.
Qed.

(** A whole step (no iterations), and [finishStep]. *)
Lemma wp_finish s i (m : M stepOutcome) r :
  wp m (stepped s 0 0 i) r -> wp (out <-- m ;; finishStep s out true) (settled i) r.
Proof.
  intros Hm. apply wp_bind. eapply wp_mono; [exact Hm|]. clear Hm r. intros out r (Hi & t & Hm & Hat & Hn & Hit).
  unfold wp, finishStep, bind, put, ret, settled. simpl. destruct (stops s out).
  - apply over_next. exists t. auto.
  - split; [simpl; by rewrite Hi|]. exists t. split_and!; [|done..]. by eapply matches_upd.
Qed.

Lemma wp_manualFinish s req br res i r :
  ready i r -> stepAt i = Some s -> wp (manualFinish grpc dep s req br res) (settled i) r.
Proof.
  intros Hr Hs. destruct (ready_fits i r s req br Hr) as (t & Hm & Hat & Hn & Hfit & <- & _).
  apply wp_finish. by eapply wp_emitManualStep.
Qed.

Lemma wp_executeFinish s req br extra loc i r :
  ready i r -> stepAt i = Some s ->
  wp (out <-- executeStepRequest grpc dep pl s req br 0 0 extra loc ;; finishStep s out true) (settled i) r.
Proof.
  intros Hr Hs. destruct (ready_fits i r s (Some req) br Hr) as (t & Hm & Hat & Hn & Hfit & <- & _).
  apply wp_finish. by eapply wp_executeStepRequest.
Qed.

(** ** For-each *)

(** [k] of [n] iterations of step [i] are done. *)
Definition mid (i k n : nat) (r : wfRun) : Prop :=
  idx r = i /\ exists t, matches t r /\ at_ t = Idle /\
  (if decide (k = n) then next t = S i /\ iter t = 0 else next t = i /\ iter t = k /\ (k = 0 \/ total t = n)).

Definition iterated (i k n : nat) (stop : bool) (r : wfRun) : Prop := if stop then over r else mid i (S k) n r.

Lemma mid_fits i k n r s req br : mid i k n r -> k < n -> exists t, matches t r /\ at_ t = Idle /\ next t = idx r /\
  fits t (stepMeta i s req br (S k) n) = true /\ idx r = i.
Proof.
  intros (Hi & t & Hm & Hat & Hp) Hk. rewrite decide_False in Hp by lia. destruct Hp as (Hn & Hit & Ht).
  exists t. split_and!; [done|done|congruence| |done].
  unfold fits. destruct (decide (iter t = 0)); apply bool_decide_eq_true_2; simpl; lia.
Qed.

(** An iteration's outcome, its policy, and the end it may be. *)
Lemma wp_stopOr s i k n (m : M stepOutcome) r :
  wp m (stepped s (S k) n i) r ->
  wp (out <-- m ;; (stop <-- finishStep s out false ;;
      if stop then put next_idx ;;; ret true else ret false)) (iterated i k n) r.
Proof.
  intros Hm. apply wp_bind. eapply wp_mono; [exact Hm|]. clear Hm r. intros out r (Hi & t & Hm & Hat & Hp).
  unfold wp, finishStep, bind, put, ret, iterated. simpl. destruct (stops s out); simpl.
  - apply over_next. exists t. auto.
  - split; [done|]. exists t. split_and!; [done|done|]. destruct (decide (S k = n)); [done|].
    destruct Hp as (Hn & Hit & Ht). auto.
Qed.

Lemma wp_mid_execute s req br extra loc i k n r :
  mid i k n r -> k < n -> stepAt i = Some s ->
  wp (out <-- executeStepRequest grpc dep pl s req br (S k) n extra loc ;; (stop <-- finishStep s out false ;;
      if stop then put next_idx ;;; ret true else ret false)) (iterated i k n) r.
Proof.
  intros Hr Hk Hs. destruct (mid_fits i k n r s (Some req) br Hr Hk) as (t & Hm & Hat & Hn & Hfit & <-).
  apply wp_stopOr. by eapply wp_executeStepRequest.
Qed.

Lemma wp_manualIter s req br i k n e r :
  mid i k n r -> k < n -> stepAt i = Some s ->
  wp (stop <-- manualIter grpc dep s req br k n e ;; if stop then put next_idx ;;; ret true else ret false)
    (iterated i k n) r.
Proof.
  intros Hr Hk Hs. destruct (mid_fits i k n r s (Some req) br Hr Hk) as (t & Hm & Hat & Hn & Hfit & <-).
  assert (H := wp_stopOr s (idx r) k n (emitManualStep grpc dep s (Some req) br (S k) n (failedResult e)) r
    (wp_emitManualStep t s (Some req) br (S k) n (failedResult e) r Hm Hat Hn Hs Hfit)).
  unfold manualIter. unfold wp, bind in *. by destruct (emitManualStep _ _ _ _ _ _ _ _ _) as [[?|?] ?].
Qed.

(** A skipped iteration goes on. *)
Lemma wp_skipIter s req br i k n reason r :
  mid i k n r -> k < n -> stepAt i = Some s ->
  wp (emitManualStep grpc dep s (Some req) br (S k) n (skippedResult reason) ;;; ret false) (iterated i k n) r.
Proof.
  intros Hr Hk Hs. destruct (mid_fits i k n r s (Some req) br Hr Hk) as (t & Hm & Hat & Hn & Hfit & <-).
  assert (H := wp_stopOr s (idx r) k n (emitManualStep grpc dep s (Some req) br (S k) n (skippedResult reason)) r
    (wp_emitManualStep t s (Some req) br (S k) n (skippedResult reason) r Hm Hat Hn Hs Hfit)).
  revert H. unfold wp, emitManualStep, bind, put, ret, finishStep. simpl.
  destruct (emitStepStart _ _ _ _ _ _ _ _) as [[?|[]] r1]; [done|].
  by destruct (emitStepDone _ _ _ _ _ _ _ _ _) as [[?|[]] r2].
Qed.

Lemma mid_upd i k n r r' :
  mid i k n r -> idx r' = idx r -> (forall t, matches t r -> matches t r') -> mid i k n r'.
Proof. intros (Hi & t & Hm & Hrest) Hi' Hup. split; [congruence|]. exists t. split; [by apply Hup|done]. Qed.

Lemma mid_calls i k n r : mid i k n r -> mid i k n (with_calls (S (calls r)) r).
Proof. intros Hr. eapply mid_upd; [done..|]. intros t Hm. apply matches_calls; [done|lia]. Qed.

Lemma mid_vars i k n v r : mid i k n r -> mid i k n (set_vars v r).
Proof. intros Hr. eapply mid_upd; [done..|]. intros t Hm. by apply (matches_upd t r). Qed.

Lemma wp_mid_ctxDone i k n (Q : bool -> wfRun -> Prop) r :
  mid i k n r -> (forall c r', mid i k n r' -> (c = true -> cancelledBy (calls r')) -> Q c r') -> wp (ctxDone dep) Q r.
Proof.
  intros Hr HQ. apply (HQ _ _ (mid_calls _ _ _ _ Hr)).
  intros Hc%bool_decide_eq_true. exists (calls r). simpl. split; [lia|done].
Qed.

(** An error of an iteration: the run's cancellation or a failed iteration. *)
Lemma wp_iterError s req br i k n e r :
  mid i k n r -> k < n -> stepAt i = Some s ->
  wp (c <-- ctxDone dep ;; (if c then cancelAndAdvance
      else stop <-- manualIter grpc dep s req br k n e ;; if stop then put next_idx ;;; ret true else ret false))
    (iterated i k n) r.
Proof.
  intros Hr Hk Hs. apply wp_bind. eapply wp_mid_ctxDone; [done|]. intros [] r' Hr' Hc; [|by apply wp_manualIter].
  destruct Hr' as (_ & t & Hm & _). exact (wp_cancelAndAdvance t i r' Hm (Hc eq_refl)).
Qed.

Lemma wp_iteration s req br spec xv i k n item r :
  mid i k n r -> k < n -> stepAt i = Some s ->
  wp (iteration grpc dep pl s req br spec xv n k item) (iterated i k n) r.
Proof.
  intros Hr Hk Hs. unfold iteration. apply wp_bind, wp_call. apply mid_calls in Hr.
  destruct (ValueString _ _ _ _ _) as [e|str]; [by apply wp_iterError|].
  destruct (WorkflowVarKeys (fVar spec) (plWfVars pl)) as [reqKey wfKey].
  set (r1 := with_calls _ _) in *. clearbody r1. apply wp_bind. unfold wp, get.
  set (r2 := if decide (wfKey = "") then r1 else set_vars (snd (Set_ wfKey str (rvars r1))) r1).
  assert (Hr2 : mid i k n r2) by (unfold r2; destruct (decide _); [done|by apply mid_vars]).
  apply wp_bind. unfold wp at 1.
  replace ((if decide (wfKey = "") then _ else _) r1) with (inr () : error + unit, r2)
    by (unfold r2; by destruct (decide (wfKey = ""))).
  clearbody r2. apply wp_bind, wp_call. apply mid_calls in Hr2.
  destruct (sWhen s) as [w|]; [|by apply wp_mid_execute].
  apply wp_bind, wp_call. apply mid_calls in Hr2.
  destruct (EvalCondition _ _ _ _ _ _) as [e|[[] reason]];
    [by apply wp_iterError|by apply wp_mid_execute|by apply wp_skipIter].
Qed.

Lemma wp_iterations s req br spec xv i n items k r :
  mid i k n r -> k + length items = n -> stepAt i = Some s ->
  wp (iterations grpc dep pl s req br spec xv n k items) (settled i) r.
Proof.
  revert k r. induction items as [|item items IH]; intros k r Hr Hk Hs; simpl in *.
  - destruct Hr as (Hi & t & Hm & Hat & Hp). rewrite decide_True in Hp by lia.
    unfold wp, bind, put, ret. split; [simpl; by rewrite Hi|]. exists t. split; [by apply (matches_upd t r)|done].
  - eapply wp_seq; [apply wp_iteration; [done|lia|done]|]. intros [] r' Hr'; [done|]. apply IH; [done|lia|done].
Qed.

(** ** Steps *)

Lemma ready_calls i r : ready i r -> ready i (with_calls (S (calls r)) r).
Proof.
  intros (Hi & t & Hm & Hrest). split; [done|]. exists t. split; [|done]. apply matches_calls; [done|lia].
Qed.
Lemma ready_vars i v r : ready i r -> ready i (set_vars v r).
Proof. intros (Hi & t & Hm & Hrest). split; [done|]. exists t. split; [by apply (matches_upd t r)|done]. Qed.

Lemma ready_mid i n r : ready i r -> 0 < n -> mid i 0 n r.
Proof.
  intros (Hi & t & Hm & Hat & Hn & Hit) Hlt. split; [done|]. exists t. split_and!; [done..|].
  rewrite decide_False by lia. auto.
Qed.

(** A check of the context before a step or after an error: the run is cancelled,
    or it goes on. *)
Lemma wp_unlessDone (mc m : M bool) i (R : bool -> wfRun -> Prop) r :
  ready i r ->
  (forall r', ready i r' -> cancelledBy (calls r') -> wp mc R r') ->
  (forall r', ready i r' -> wp m R r') ->
  wp (c <-- ctxDone dep ;; if c then mc else m) R r.
Proof.
  intros Hr Hc Hm. apply wp_bind. unfold ctxDone. apply wp_bind, wp_call. apply ready_calls in Hr.
  change (wp (if bool_decide (is_Some (ctxErr dep (calls r))) then mc else m) R (with_calls (S (calls r)) r)).
  case_bool_decide; [|by apply Hm]. apply Hc; [done|]. exists (calls r). simpl. split; [lia|done].
Qed.

Lemma wp_ready_cancel i r : ready i r -> cancelledBy (calls r) -> wp (put set_canceled ;;; ret true) (settled i) r.
Proof. intros (_ & t & Hm & _). by apply (wp_cancel t). Qed.
Lemma wp_ready_cancelAndAdvance i r : ready i r -> cancelledBy (calls r) -> wp cancelAndAdvance (settled i) r.
Proof. intros (_ & t & Hm & _). by apply (wp_cancelAndAdvance t). Qed.

(** The condition, the expression or the items of a step failed. *)
Lemma wp_stepError s req br res i r :
  ready i r -> stepAt i = Some s ->
  wp (c <-- ctxDone dep ;; if c then cancelAndAdvance else manualFinish grpc dep s req br res) (settled i) r.
Proof.
  intros Hr Hs. eapply wp_unlessDone; [done| |]; intros r' Hr'.
  - by apply wp_ready_cancelAndAdvance.
  - by apply wp_manualFinish.
Qed.

Lemma wp_runForEach s req br xv vv i r :
  ready i r -> stepAt i = Some s -> wp (runForEach grpc dep pl s req br xv vv) (settled i) r.
Proof.
  intros Hr Hs. unfold runForEach. destruct (workflowForEach s (Some req)) as [e|[spec|]].
  - by apply wp_stepError.
  - apply wp_bind, wp_call. apply ready_calls in Hr.
    destruct (EvalForEachItems _ _ _ _ _) as [e|[|item items]]; [by apply wp_manualFinish..|].
    eapply wp_iterations; [apply ready_mid; [done|simpl; lia]|done|done].
  - by apply wp_executeFinish.
Qed.

Lemma wp_stepScope s req (Q : NameMap string * gmap string string -> wfRun -> Prop) i r :
  ready i r -> (forall sc r', ready i r' -> Q sc r') -> wp (stepScope dep s req) Q r.
Proof.
  intros Hr HQ. unfold stepScope. apply wp_bind. unfold wp, get. apply wp_bind. unfold wp at 1, put.
  apply wp_bind. unfold wp, get. apply wp_bind, wp_call. apply HQ. by apply ready_calls, ready_vars.
Qed.

Lemma wp_runReqStep s req br i r :
  ready i r -> stepAt i = Some s -> wp (runReqStep grpc dep pl s req br) (settled i) r.
Proof.
  intros Hr Hs. eapply wp_unlessDone; [done|by apply wp_ready_cancel|]. clear r Hr. intros r Hr.
  destruct req as [req|]; [|by apply wp_manualFinish].
  apply wp_bind. eapply wp_stepScope; [done|]. clear r Hr. intros [xv vv] r Hr.
  destruct (sWhen s) as [w|]; [|by apply wp_runForEach].
  apply wp_bind, wp_call. apply ready_calls in Hr. destruct (EvalCondition _ _ _ _ _ _) as [e|[[] reason]].
  - by apply wp_stepError.
  - by apply wp_runForEach.
  - by apply wp_manualFinish.
Qed.

(** Choosing a branch only evaluates. *)
Definition quiet {A} (m : M A) : Prop := forall r, exists a n, calls r <= n /\ m r = (inr a, with_calls n r).

Lemma with_calls_id r : with_calls (calls r) r = r.
Proof. by destruct r. Qed.
Lemma quiet_ret {A} (a : A) : quiet (ret a).
Proof. intros r. exists a, (calls r). by rewrite with_calls_id. Qed.
Lemma quiet_call {A} (f : nat -> A) : quiet (call f).
Proof. intros r. exists (f (calls r)), (S (calls r)). split; [lia|done]. Qed.
Lemma quiet_bind {A B} (m : M A) (k : A -> M B) : quiet m -> (forall a, quiet (k a)) -> quiet (bind m k).
Proof.
  intros Hm Hk r. unfold bind. destruct (Hm r) as (a & n & Hn & ->).
  destruct (Hk a (with_calls n r)) as (b & n' & Hn' & ->). exists b, n'. simpl in *. split; [lia|done].
Qed.
Hint Resolve quiet_ret quiet_call quiet_bind : core.

Lemma quiet_evalStepValue req line tag expr vv loc : quiet (evalStepValue dep req line tag expr vv loc).
Proof. unfold evalStepValue. destruct (decide _); auto. Qed.
Hint Resolve quiet_evalStepValue : core.
Lemma quiet_evalStepBool req line tag expr vv loc : quiet (evalStepBool dep req line tag expr vv loc).
Proof. unfold evalStepBool. auto. Qed.
Hint Resolve quiet_evalStepBool : core.

Lemma quiet_selectIfBranch w vv : quiet (selectIfBranch dep w vv).
Proof.
  apply quiet_bind; [done|]. intros [e|[]]; auto. apply quiet_bind; [|by intros [?|[]]].
  induction (wElifs w) as [|b bs IH]; simpl; auto. apply quiet_bind; [done|]. intros [?|[]]; auto.
Qed.

Lemma quiet_selectSwitchCase w vv : quiet (selectSwitchCase dep w vv).
Proof.
  unfold selectSwitchCase. destruct (decide _); auto. apply quiet_bind; [done|]. intros [e|base]; auto.
  apply quiet_bind; [|by intros [?|[]]].
  induction (wCases w) as [|b bs IH]; simpl; auto. destruct (decide _); [done|].
  apply quiet_bind; [done|]. intros [?|v]; auto. destruct (ValueEqual base v); auto.
Qed.

Lemma wp_quiet {A} (m : M A) (Q : A -> wfRun -> Prop) i r :
  quiet m -> ready i r -> (forall a r', ready i r' -> Q a r') -> wp m Q r.
Proof.
  intros Hm (Hi & t & Hmt & Hrest) HQ. unfold wp. destruct (Hm r) as (a & n & Hn & ->). apply HQ.
  split; [done|]. exists t. split; [by apply matches_calls|done].
Qed.

Lemma wp_runBranch s xv sel noBranch noRun i r :
  ready i r -> stepAt i = Some s -> wp (runBranch grpc dep pl s xv sel noBranch noRun) (settled i) r.
Proof.
  intros Hr Hs. destruct sel as [e|[b|]]; simpl; [|destruct (negb _)|by apply wp_manualFinish].
  - eapply wp_unlessDone; [done|by apply wp_ready_cancel|]. intros r' Hr'. by apply wp_manualFinish.
  - by apply wp_manualFinish.
  - destruct (resolveBranchRequest pl (bRun b)) as [br [req|]]; destruct (decide (br = ""));
      [by apply wp_manualFinish|by apply wp_executeFinish|by apply wp_manualFinish..].
Qed.

Lemma wp_runStep rt i r :
  ready i r -> plSteps pl !! i = Some rt -> wp (runStep grpc dep pl rt) (settled i) r.
Proof.
  intros Hr Hrt%stepAt_at. unfold runStep. set (s := stepOrDefault (rtStep rt)) in *. clearbody s.
  destruct (sKind s); [by apply wp_runReqStep| | |by apply wp_runReqStep|by apply wp_manualFinish..];
    unfold runIf, runSwitch; (eapply wp_unlessDone; [done|by apply wp_ready_cancel|]); clear r Hr; intros r Hr.
  - destruct (sIf s) as [w|]; [|by apply wp_manualFinish].
    apply wp_bind. eapply wp_stepScope; [done|]. clear r Hr. intros sc r Hr.
    apply wp_bind. eapply wp_quiet; [apply quiet_selectIfBranch|done|]. intros sel r' Hr'. by apply wp_runBranch.
  - destruct (sSwitch s) as [w|]; [|by apply wp_manualFinish].
    apply wp_bind. eapply wp_stepScope; [done|]. clear r Hr. intros sc r Hr.
    apply wp_bind. eapply wp_quiet; [apply quiet_selectSwitchCase|done|]. intros sel r' Hr'. by apply wp_runBranch.
Qed.

(** ** The loop and the plan *)

(** The end of the loop: an error, or a run that stopped, was cancelled or came
    to the end of its steps. *)
Definition finished (res : error + unit) (r : wfRun) : Prop :=
  match res with
  | inl _ => broken r
  | inr _ => exists r0, r = set_done r0 /\ (over r0 \/ ready (length (plSteps pl)) r0)
  end.

(** The loop ends when it has as much fuel as there are steps left. *)
Lemma runLoop_spec fuel i r :
  ready i r -> i <= length (plSteps pl) -> length (plSteps pl) - i <= fuel ->
  exists res r', runLoop grpc dep pl fuel r = Some (res, r') /\ finished res r'.
Proof.
  revert i r. induction fuel as [|fuel IH]; intros i r Hr Hi Hf; simpl;
    (assert (Hidx : plSteps pl !! idx r = plSteps pl !! i) by (f_equal; apply Hr)); rewrite Hidx.
  - rewrite lookup_ge_None_2 by lia. replace i with (length (plSteps pl)) in Hr by lia. eexists _, _. split; [done|].
    exists r. auto.
  - destruct (plSteps pl !! i) as [rt|] eqn:Hrt.
    2:{ apply lookup_ge_None in Hrt. replace i with (length (plSteps pl)) in Hr by lia. eexists _, _.
        split; [done|]. exists r. auto. }
    pose proof (lookup_lt_Some _ _ _ Hrt). pose proof (ready_calls i r Hr) as Hr'.
    destruct (bool_decide (is_Some (ctxErr dep (calls r)))) eqn:Hc.
    + eexists _, _. split; [done|]. exists (set_canceled (with_calls (S (calls r)) r)). split; [done|]. left.
      apply (wp_ready_cancel i _ Hr'). exists (calls r). apply bool_decide_eq_true in Hc. simpl. split; [lia|done].
    + pose proof (wp_runStep rt i _ Hr' Hrt) as Hw. unfold wp in Hw.
      change (mkRun _ _ _ _ _ _ _ _ _ _) with (with_calls (S (calls r)) r).
      destruct (runStep grpc dep pl rt _) as [[e|[]] r1]; [eauto| |].
      * eexists _, _. split; [done|]. exists r1. auto.
      * apply (IH (S i)); [done|lia|lia].
Qed.

(** What the loop leaves: a track, and a verdict for it that is legal. *)
Lemma finished_verdict res r :
  finished res r ->
  exists t, follow (sent r) = Some t /\ running (at_ t) = true /\ reason t r /\
  verdict t (done r && negb (skip r) && negb (fail r) && negb (canceled r)) (seen r && skip r) (canceled r)
    (match res with inl e => Some e | inr _ => None end) = true.
Proof.
  destruct res as [e|[]]; simpl.
  - intros (Hd & t & Hf & Hr & Hc). exists t. rewrite Hd. auto.
  - intros (r0 & -> & Hend). simpl.
    assert (exists t, matches t r0 /\
      canceled r0 || match at_ t with Stopped => true | Idle => length (plSteps pl) =? next t | _ => false end = true)
      as (t & Hm & Hat).
    { destruct Hend as [(t & Hm & [Hst|Hca])|(Hi & t & Hm & Hat & Hn & _)]; exists t; (split; [done|]).
      - rewrite Hst. by rewrite orb_true_r.
      - by rewrite Hca.
      - rewrite Hat, Hn, Nat.eqb_refl. by rewrite orb_true_r. }
    pose proof (matches_reason _ _ Hm) as Hc. destruct Hm as [Hf Hr _ (Hs & Hk & Hl & Hca & _) _].
    exists t. split_and!; [done..|]. rewrite Hs, Hk, Hl, Hat, negb_involutive, !Bool.eqb_reflx. simpl.
    rewrite andb_true_r. destruct (existsb isCanc (outs t)); [by rewrite Hca|done].
Qed.

(** A context, once cancelled, stays cancelled. *)
Definition sticky : Prop := forall n n', n <= n' -> is_Some (ctxErr dep n) -> is_Some (ctxErr dep n').

Lemma sticky_by n : sticky -> cancelledBy n -> is_Some (ctxErr dep n).
Proof. intros Hst (k & Hk & Hc). apply (Hst k); [lia|done]. Qed.

(** A run ends, and its events follow the protocol; cancelled for a reason other
    than a step's outcome, it has not reported its end and returns an error. *)
Lemma RunPlan_spec fuel :
  length (plSteps pl) <= fuel ->
  exists res r t, RunPlan grpc dep pl fuel = Some (res, r) /\ follow (sent r) = Some t /\
  (sticky -> canceled r = true -> existsb isCanc (outs t) = true \/ (is_Some res /\ at_ t <> Over)).
Proof.
  intros Hfuel. unfold RunPlan, emitRunStart. set (r0 := newRun pl).
  assert (H0 : wp (Emit dep RunStart) (fun _ r => ready 0 r) r0 \/
               exists e r, Emit dep RunStart r0 = (inl e, r) /\ sent r = [] /\ canceled r = false).
  { unfold wp, Emit, bind, call, put. simpl. destruct (ctxErr dep 0) as [e|]; simpl; [right; eauto|left].
    assert (Hm : forall n, matches (goto Idle startTrack) (deliver RunStart (with_calls n r0))).
    { intros n. constructor; try done; try reflexivity. }
    destruct (onEvt dep 1 RunStart) as [e|]; simpl; [by apply (matches_broken _ _ (Hm 2))|].
    split; [done|]. exists (goto Idle startTrack). split; [exact (Hm 2)|done]. }
  destruct H0 as [H0|(e & r & -> & Hs & Hc)].
  2:{ eexists _, _, startTrack. split; [done|]. rewrite Hs, Hc. done. }
  unfold wp in H0. destruct (Emit dep RunStart r0) as [[e|[]] r].
  { destruct H0 as (_ & t & Hf & Hrun & Hc). exists (Some e), r, t. split_and!; [done..|]. intros _ _. right.
    split; [done|]. by intros E; rewrite E in Hrun. }
  destruct (runLoop_spec fuel 0 r H0) as (res & r1 & -> & Hfin); [lia..|].
  destruct (finished_verdict res r1 Hfin) as (t & Hf & Hrun & Hc & Hv).
  set (err := match res with inl e => Some e | inr _ => None end) in *.
  unfold emitRunDone, Emit, bind, get, call, put, throw, ret. simpl.
  destruct (ctxErr dep (calls r1)) as [e|] eqn:Hctx; simpl.
  { exists (match err with Some e' => Some e' | None => Some e end), (with_calls (S (calls r1)) r1), t. split_and!; [by destruct err|done|].
    intros _ _. right. split; [by destruct err|]. by intros E; rewrite E in Hrun. }
  match goal with |- context [onEvt dep (S (calls r1)) ?e] => set (ev := e) end.
  assert (Hfo : follow (sent r1 ++ [ev]) = Some (goto Over t)).
  { rewrite follow_snoc, Hf. simpl. by rewrite Hrun, Hv. }
  assert (Hca : sticky -> canceled r1 = true -> existsb isCanc (outs t) = true).
  { intros Hst Hcan. destruct (Hc Hcan) as [?|Hby]; [done|]. apply sticky_by in Hby; [|done].
    rewrite Hctx in Hby. by destruct Hby. }
  destruct (onEvt dep (S (calls r1)) ev) as [e|]; simpl;
    (eexists _, _, (goto Over t); split_and!; [done|exact Hfo|]; intros Hst Hcan; left; by apply Hca).
Qed.

End protocol.

End WfFacts.
