(* ===== verification/WorkflowRuns.v ===== *)
(** * The correctness of workflow runs (src/internal/engine/core/wf.go)

    What the protocol of WorkflowFacts.v means to a sink, the verdict of a run,
    its failure policy, its cancellation, and the plans [PrepareWorkflow]
    accepts. *)
From stdpp Require Import base list strings gmap.
From Stdlib Require Import Ascii ZArith Lia.
From S2P Require Import Prelude GoStd GoPath Names Value PlainHost ResolverCycles Workflow WorkflowFacts.

Open Scope string_scope.
Open Scope nat_scope.
Open Scope list_scope.

Import Wf WfFacts.

Section runs.
Context {unicode : Unicode} {host : Host}.
Context (grpc : Z -> string) (pl : WorkflowPlan) (dep : Dep).

(** The outcomes of the steps and iterations a sink was told have ended. *)
Definition outcomes (evs : list Evt) : list stepOutcome :=
  omap (fun e => match e with WfStepDone m res => Some (outcomeOf grpc pl m res) | _ => None end) evs.

Lemma outcomes_snoc evs e : outcomes (evs ++ [e]) = outcomes evs ++ outcomes [e].
Proof. unfold outcomes. by rewrite omap_app. Qed.

#[local] Abbreviation follow := (follow grpc pl).
#[local] Abbreviation legal := (legal grpc pl).

Lemma follow_None evs : foldl (fun o e => t ← o; legal t e) None evs = None.
Proof. by induction evs. Qed.

(** A list of events that follows the protocol does so up to any event. *)
Lemma follow_split pre e post t :
  follow (pre ++ e :: post) = Some t ->
  exists t1 t2, follow pre = Some t1 /\ legal t1 e = Some t2 /\ foldl (fun o e => t ← o; legal t e) (Some t2) post = Some t.
Proof.
  unfold WfFacts.follow. rewrite foldl_app. simpl. fold (follow pre). destruct (follow pre) as [t1|]; simpl.
  - destruct (legal t1 e) as [t2|] eqn:E; [eauto|by rewrite follow_None].
  - by rewrite follow_None.
Qed.

(** The cases of a legal event. *)
Ltac legal_cases H :=
  unfold WfFacts.legal in H;
  repeat match type of H with
         | context [match ?x with _ => _ end] => destruct x eqn:?; try discriminate H
         end;
  injection H as <-.

Lemma legal_outs t e t' : legal t e = Some t' -> outs t' = outs t ++ outcomes [e].
Proof.
  intros H. legal_cases H; simpl; rewrite ?app_nil_r; try done; unfold ended; by destruct (decide _).
Qed.

Lemma follow_outs evs t : follow evs = Some t -> outs t = outcomes evs.
Proof.
  revert t. induction evs as [|e evs IH] using rev_ind; intros t; [by intros [= <-]|].
  rewrite follow_snoc. destruct (follow evs) as [t0|]; [|done]. intros Hl.
  rewrite (legal_outs t0 e t Hl), outcomes_snoc. by rewrite (IH t0).
Qed.

(** A step is stopped only at an outcome that is not good. *)
Lemma stopsAt_bad m res : stopsAt grpc pl m res = true -> good (outcomeOf grpc pl m res) = false.
Proof.
  unfold stopsAt, outcomeOf. destruct (stepAt pl (Index m)); [|done]. by destruct (evalReq grpc _ res).
Qed.

Lemma legal_stopped t e t' :
  legal t e = Some t' -> at_ t' = Stopped -> forallb good (outs t') = false.
Proof.
  intros H. legal_cases H; try done; unfold ended; destruct (decide _); simpl;
    (destruct (stopsAt grpc pl m res) eqn:E; [|done]); intros _; rewrite forallb_app; simpl;
    rewrite (stopsAt_bad _ _ E); by rewrite andb_false_r.
Qed.

Lemma follow_stopped evs t : follow evs = Some t -> at_ t = Stopped -> forallb good (outs t) = false.
Proof.
  destruct evs as [|e evs _] using rev_ind; [by intros [= <-]|].
  rewrite follow_snoc. destruct (follow evs) as [t0|]; [|done]. apply legal_stopped.
Qed.

(** The last event of a step: the report of the step itself or of its last
    iteration. *)
Definition reported (evs : list Evt) (i : nat) : Prop :=
  exists m res, WfStepDone m res ∈ evs /\ Index m = i /\ Iter m = Total m.

(** Inside a step, the step is the one the track is at. *)
Definition inside (t : track) : Prop :=
  match at_ t with InStep m _ | InReq m | AfterReq m _ => Index m = next t | _ => True end.

Lemma legal_inside t e t' : legal t e = Some t' -> inside t -> inside t'.
Proof.
  intros H. unfold inside. legal_cases H; simpl; intros Hin; try done.
  - apply andb_true_iff in Heqb as [Hb%bool_decide_eq_true _]. tauto.
  - unfold ended. by destruct (decide _), (stopsAt grpc pl m res).
  - unfold ended. by destruct (decide _), (stopsAt grpc pl m res).
Qed.

(** Every step before the one the track is at has been reported. *)
Lemma legal_reported evs t e t' :
  legal t e = Some t' -> inside t -> (forall i, i < next t -> reported evs i) ->
  forall i, i < next t' -> reported (evs ++ [e]) i.
Proof.
  intros H Hin Hrep i Hi.
  assert (Hold : i < next t -> reported (evs ++ [e]) i).
  { intros Hlt. destruct (Hrep i Hlt) as (m & res & Hel & Hrest). exists m, res. split; [|done].
    apply elem_of_app. by left. }
  unfold inside in Hin. legal_cases H; simpl in *; auto; unfold ended in Hi; (destruct (decide (Iter m = Total m)); [|auto]);
    simpl in Hi; (destruct (decide (i < next t)); [auto|]); exists m, res;
    (split; [apply elem_of_app; right; by apply list_elem_of_singleton|]); (split; [|done]);
    apply bool_decide_eq_true in Heqb; [subst m0|destruct Heqb as [-> ->]]; lia.
Qed.

Lemma follow_reported evs t : follow evs = Some t -> inside t /\ forall i, i < next t -> reported evs i.
Proof.
  revert t. induction evs as [|e evs IH] using rev_ind; intros t.
  { intros [= <-]. split; [done|]. simpl. lia. }
  rewrite follow_snoc. destruct (follow evs) as [t0|]; [|done]. intros Hl. destruct (IH t0 eq_refl) as [Hin Hrep].
  split; [by eapply legal_inside|by eapply legal_reported].
Qed.

(** Nothing follows the end of a run. *)
Lemma legal_over t e : at_ t = Over -> legal t e = None.
Proof. intros Hat. unfold WfFacts.legal. rewrite Hat. by destruct e. Qed.

Lemma over_last post t t' : at_ t = Over -> foldl (fun o e => t ← o; legal t e) (Some t) post = Some t' -> post = [].
Proof. destruct post as [|e post]; [done|]. simpl. intros Hat. by rewrite (legal_over t e Hat), follow_None. Qed.

(** A delivered verdict is the last event, and the protocol's. *)
Lemma follow_verdict evs su sk ca err post t :
  follow (evs ++ RunDone su sk ca err :: post) = Some t ->
  post = [] /\ exists t0, follow evs = Some t0 /\ running (at_ t0) = true /\ verdict pl t0 su sk ca err = true.
Proof.
  intros (t1 & t2 & Hf & Hl & Hp)%follow_split. simpl in Hl.
  destruct (running (at_ t1) && verdict pl t1 su sk ca err) eqn:E; [|done]. injection Hl as <-.
  apply andb_true_iff in E as [Hr Hv]. split; [|by eexists].
  by apply (over_last post (goto Over t1) t).
Qed.

(** After a step that stops the run only its verdict is reported. *)
Lemma follow_after_stop pre m res post t :
  follow (pre ++ WfStepDone m res :: post) = Some t -> stopsAt grpc pl m res = true ->
  post = [] \/ exists su sk ca err, post = [RunDone su sk ca err].
Proof.
  intros (t1 & t2 & _ & Hl & Hp)%follow_split Hs.
  assert (Hat : at_ t2 = Stopped).
  { legal_cases Hl; unfold ended; rewrite Hs; by destruct (decide _). }
  destruct post as [|e post]; [by left|right]. simpl in Hp.
  destruct e as [|su sk ca err| | | |]; simpl in Hp; rewrite Hat in Hp; simpl in Hp; try (by rewrite follow_None in Hp).
  destruct (verdict pl t2 su sk ca err); [|by rewrite follow_None in Hp].
  exists su, sk, ca, err. f_equal. by eapply over_last in Hp.
Qed.

(** ** Runs *)

(** C11. A run ends, with as much fuel as the plan has steps, whatever the
    requests, conditions, expressions, the sink and the context do; and the
    events it gave the sink follow the protocol: the start of the run first; the
    steps in the order of the plan from the first on, none left out and none
    twice, a for-each iteration by iteration; every end of a step after its
    start; in a step at most one request, started and done with the next number,
    the step's label and the request it was given; the step reported with that
    request's result; at the end the verdict, and nothing after it. *)
Theorem workflow_run_ends_in_protocol fuel :
  length (plSteps pl) <= fuel ->
  exists res r t, RunPlan grpc dep pl fuel = Some (res, r) /\ follow (sent r) = Some t.
Proof. intros Hf. destruct (RunPlan_spec grpc pl dep fuel Hf) as (res & r & t & Hr & Ht & _). eauto. Qed.

(** C13. The failure policy has no exceptions: once a step (or an iteration) was
    reported whose outcome ends the run, a cancellation or a failure of a step
    that does not say to continue, no later step or request is started: the sink
    gets the verdict, or nothing. *)
Theorem nothing_runs_after_stop fuel res r pre m out post :
  length (plSteps pl) <= fuel -> RunPlan grpc dep pl fuel = Some (res, r) ->
  sent r = pre ++ WfStepDone m out :: post -> stopsAt grpc pl m out = true ->
  post = [] \/ exists su sk ca err, post = [RunDone su sk ca err].
Proof.
  intros Hf Hrun Hs Hstop. destruct (RunPlan_spec grpc pl dep fuel Hf) as (res' & r' & t & Hr & Ht & _).
  rewrite Hrun in Hr. injection Hr as <- <-. rewrite Hs in Ht. by eapply follow_after_stop.
Qed.

(** C12. The verdict a sink is given is the one the outcomes it was given
    determine: success exactly when the run ended without error, was not
    cancelled, no step failed and not every step was skipped; and then every step
    of the plan was reported to its end.  A run without error is called skipped
    exactly when there were steps and all of them were skipped. *)
Theorem verdict_exact fuel res r su sk ca err :
  length (plSteps pl) <= fuel -> RunPlan grpc dep pl fuel = Some (res, r) -> RunDone su sk ca err ∈ sent r ->
  let outs := outcomes (sent r) in
  (su = true <-> err = None /\ ca = false /\ forallb good outs = true /\ stepPassed ∈ outs) /\
  (su = true -> forall i, i < length (plSteps pl) -> reported (sent r) i) /\
  (err = None -> (sk = true <-> outs <> [] /\ forall o, o ∈ outs -> o = stepSkipped)).
Proof.
  intros Hf Hrun Hin outs. destruct (RunPlan_spec grpc pl dep fuel Hf) as (res' & r' & t & Hr & Ht & _).
  rewrite Hrun in Hr. injection Hr as <- <-. apply list_elem_of_split in Hin as (pre & post & Hs).
  rewrite Hs in Ht. apply follow_verdict in Ht as (-> & t0 & Hf0 & Hrun0 & Hv).
  assert (Ho : WfFacts.outs t0 = outs).
  { unfold outs. rewrite (follow_outs _ _ Hf0), Hs, outcomes_snoc. by rewrite app_nil_r. }
  destruct (follow_reported _ _ Hf0) as [_ Hrep]. pose proof (follow_stopped _ _ Hf0) as Hst.
  unfold verdict in Hv. rewrite Ho in *. clearbody outs. destruct err as [e|].
  { apply negb_true_iff in Hv as ->. split_and!; [split; [done|by intros []]|done|done]. }
  apply andb_true_iff in Hv as [[[Hsu Hsk]%andb_true_iff Himp]%andb_true_iff Hend].
  apply Bool.eqb_prop in Hsu, Hsk.
  assert (Hpass : forallb good outs = true -> negb (forallb isSkip outs) = true <-> stepPassed ∈ outs).
  { clear. induction outs as [|o outs IH]; simpl; [by rewrite elem_of_nil|]. rewrite elem_of_cons.
    intros [Ho Hos]%andb_true_iff. destruct o; simpl in *; try done; [by split; [left|]|].
    rewrite IH by done. by split; [right|intros [?|?]]. }
  split_and!.
  - rewrite Hsu, !andb_true_iff. split.
    + intros ((Hn & Hg) & Hca). rewrite <- Hpass by done. by destruct ca.
    + intros (_ & -> & Hg & Hp). by rewrite Hpass.
  - intros ->. symmetry in Hsu. apply andb_true_iff in Hsu as [[_ Hg]%andb_true_iff ->%negb_true_iff].
    simpl in Hend. destruct (at_ t0); try done.
    + apply Nat.eqb_eq in Hend. intros i Hi. destruct (Hrep i) as (m & o & Hel & Hrest); [lia|].
      exists m, o. split; [|done]. rewrite Hs. apply elem_of_app. by left.
    + by rewrite Hst in Hg.
  - intros _. rewrite Hsk, andb_true_iff, negb_true_iff, bool_decide_eq_false, forallb_forall.
    split; intros [Hn Hall]; (split; [done|]); intros o Hel.
    + apply list_elem_of_In, Hall in Hel. by destruct o.
    + apply list_elem_of_In in Hel. by rewrite (Hall o Hel).
Qed.

(** C15. A run cancelled by its context is never reported (a finding): for a
    context that stays cancelled, a run that ends cancelled although no step's own
    outcome was a cancellation gives the sink no verdict at all and returns an
    error, so [Canceled] of the verdict is only ever delivered for a cancellation
    a step reported. *)
Theorem cancelled_run_unreported fuel res r :
  sticky dep -> length (plSteps pl) <= fuel -> RunPlan grpc dep pl fuel = Some (res, r) -> canceled r = true ->
  stepCanceled ∉ outcomes (sent r) ->
  is_Some res /\ forall su sk ca err, RunDone su sk ca err ∉ sent r.
Proof.
  intros Hst Hf Hrun Hcan Hno. destruct (RunPlan_spec grpc pl dep fuel Hf) as (res' & r' & t & Hr & Ht & Hc).
  rewrite Hrun in Hr. injection Hr as <- <-. destruct (Hc Hst Hcan) as [Hex|[Hres Hat]].
  - exfalso. apply Hno. rewrite (follow_outs _ _ Ht) in Hex. apply existsb_exists in Hex as (o & Ho & Hcn).
    apply list_elem_of_In in Ho. by destruct o.
  - split; [done|]. intros su sk ca err (pre & post & Hs)%list_elem_of_split. rewrite Hs in Ht.
    pose proof Ht as (-> & _)%follow_verdict. rewrite follow_snoc in Ht. destruct (follow pre) as [t0|]; [|done].
    simpl in Ht. destruct (_ && _); [|done]. by injection Ht as <-.
Qed.
End runs.

(** ** Prepared plans *)

Section prepared.
Context {unicode : Unicode}.

(** A branch has no target, or one of the plan's requests. *)
Definition resolves (pl : WorkflowPlan) (b : branch) : Prop :=
  resolveBranchRequest pl (bRun b) = ("", None) \/
  exists req, resolveBranchRequest pl (bRun b) = (TrimSpace (bRun b), Some req).

(** A step can be run with what the plan has. *)
Definition runnable (pl : WorkflowPlan) (rt : WorkflowStepRuntime) : Prop :=
  let s := rtStep rt in
  match sKind s with
  | KindRequest => is_Some (rtReq rt) /\ rtReq rt = plReqs pl !! ToLower (TrimSpace (sUsing s))
  | KindForEach =>
      is_Some (rtReq rt) /\ rtReq rt = plReqs pl !! ToLower (TrimSpace (sUsing s)) /\ is_Some (sForEach s)
  | KindIf => exists w, sIf s = Some w /\ Forall (resolves pl) (wThen w :: wElifs w ++ opt_list (wElse w))
  | KindSwitch => exists w, sSwitch s = Some w /\ Forall (resolves pl) (wCases w ++ opt_list (wDefault w))
  | _ => False
  end.

Lemma validateRun_resolves pl name i b :
  validateRun name i (plReqs pl) (bRun b) = None -> resolves pl b.
Proof.
  unfold validateRun, resolves, resolveBranchRequest. destruct (decide _) as [|Hne]; [by left|].
  destruct (plReqs pl !! _) as [req|] eqn:E; [right; by exists req|done].
Qed.

Lemma validateRuns_resolve pl name i bs :
  validateRuns name i (plReqs pl) (map bRun bs) = None -> Forall (resolves pl) bs.
Proof.
  induction bs as [|b bs IH]; simpl; [constructor|].
  destruct (validateRun name i (plReqs pl) (bRun b)) eqn:E; [done|]. intros H. constructor; [|by apply IH].
  by eapply validateRun_resolves.
Qed.

Lemma map_opt_list {A B} (f : A -> B) (l : list A) (o : option A) :
  map f l ++ map f (opt_list o) = map f (l ++ opt_list o).
Proof. by rewrite map_app. Qed.

Lemma prepareStep_ok pl name i s rt :
  prepareStep name (plReqs pl) i s = inr rt -> rtStep rt = stepOrDefault s /\ runnable pl rt.
Proof.
  unfold prepareStep. set (s' := stepOrDefault s). unfold runnable.
  destruct (sKind s') eqn:K; try done.
  - destruct (decide _); [done|]. destruct (plReqs pl !! _) as [req|] eqn:E; [|done]. intros [= <-]. simpl.
    rewrite K. split; [done|]. split; [by eexists|by rewrite E].
  - destruct (sIf s') as [w|] eqn:W; [|done]. rewrite map_opt_list.
    change (bRun (wThen w) :: map bRun ?l) with (map bRun (wThen w :: l)).
    destruct (validateRuns _ _ _ _) eqn:E; [done|]. intros [= <-]. simpl. rewrite K. split; [done|].
    exists w. split; [done|]. by eapply validateRuns_resolve.
  - destruct (sSwitch s') as [w|] eqn:W; [|done]. rewrite map_opt_list.
    destruct (validateRuns _ _ _ _) eqn:E; [done|]. intros [= <-]. simpl. rewrite K. split; [done|].
    exists w. split; [done|]. by eapply validateRuns_resolve.
  - destruct (decide _); [done|]. destruct (plReqs pl !! _) as [req|] eqn:E; [|done].
    destruct (sForEach s') as [f|] eqn:F; [|done]. intros [= <-]. simpl.
    rewrite K. split; [done|]. split_and!; [by eexists|by rewrite E|by rewrite F].
Qed.

Lemma prepareSteps_ok pl name steps i rts :
  prepareSteps name (plReqs pl) i steps = inr rts ->
  Forall2 (fun s rt => rtStep rt = stepOrDefault s /\ runnable pl rt) steps rts.
Proof.
  revert i rts. induction steps as [|s steps IH]; intros i rts; simpl; [intros [= <-]; constructor|].
  destruct (prepareStep name (plReqs pl) i s) as [|rt] eqn:E; [done|].
  destruct (prepareSteps name (plReqs pl) (S i) steps) as [|rts'] eqn:E'; [done|]. intros [= <-].
  constructor; [by eapply prepareStep_ok|by eapply IH].
Qed.

Lemma collectRequests_sound requests k q :
  collectRequests requests !! k = Some q -> q ∈ requests /\ ToLower (TrimSpace (rName q)) = k /\ k <> "".
Proof.
  unfold collectRequests. induction requests as [|q' requests IH] using rev_ind; [done|].
  rewrite foldl_app. simpl. destruct (decide _) as [|Hne]; [|rewrite lookup_insert_Some].
  - intros (Hin & Hk)%IH. split; [apply elem_of_app; by left|done].
  - intros [(<- & <-)|(_ & (Hin & Hk)%IH)]; (split; [apply elem_of_app|done]).
    + right. by apply list_elem_of_singleton.
    + by left.
Qed.

(** C14. A plan [PrepareWorkflow] accepts has a step per step of the workflow,
    and nothing a step needs is missing when it runs: a request or for-each step
    has the document's request its [using] names (and a for-each its
    specification), an @if or @switch step has its definition and every target of
    its branches is empty or names a request of the plan; each request of the
    plan is one of the document under its own name; and the failure policy of a
    step that has none is the workflow's. *)
Theorem prepared_plan_resolves requests wf pl :
  PrepareWorkflow requests wf = inr pl ->
  Forall2 (fun s rt =>
    rtStep rt = stepOrDefault (normWfStep (wfDefaultOnFailure wf) s) /\ runnable pl rt /\
    (sOnFailure s = OnUnset -> sOnFailure (rtStep rt) = wfDefaultOnFailure wf))
    (wfSteps wf) (plSteps pl) /\
  (forall k q, plReqs pl !! k = Some q -> q ∈ requests /\ ToLower (TrimSpace (rName q)) = k).
Proof.
  unfold PrepareWorkflow, prepareWorkflow. destruct (bool_decide _); [done|]. destruct (bool_decide _); [done|].
  destruct (prepareSteps _ _ _ _) as [|rts] eqn:E; [done|]. intros [= <-]. split.
  - simpl. match goal with |- context [mkPlan false rts ?q ?v true] => set (pl := mkPlan false rts q v true) end.
    apply (prepareSteps_ok pl) in E. simpl in E. rewrite Forall2_fmap_l in E.
    eapply Forall2_impl; [exact E|]. intros s rt [Hs Hr]. split_and!; [done..|].
    intros Hon. rewrite Hs. unfold stepOrDefault, normWfStep. rewrite Hon. by destruct (sKind s).
  - simpl. intros k q (Hin & Hk & _)%collectRequests_sound. done.
Qed.
End prepared.

(** ** Concrete runs *)

#[local] Existing Instances Names.ascii plain_host.

Definition noCode (n : Z) : string := "".
Definition okResult (code : Z) : RequestResult := mkResult false "" None None [] (Some ("status", code)) None false "".

(** A dependency whose context is cancelled from the [k]-th call on, and whose
    requests answer by name. *)
Definition demoDep (k : nat) : Dep := mkDep
  (fun n => if n <? k then None else Some (mkError true "context canceled"))
  (fun _ _ => None)
  (fun _ _ m => m)
  (fun _ q _ _ _ => inr (okResult (if String.eqb (rName q) "bad" then 500 else 200)%Z))
  (fun _ _ _ _ _ => inr (true, ""))
  (fun _ _ _ _ => inr [VBool true; VBool false])
  (fun _ _ => inr (VBool true))
  (fun _ _ _ _ => inr "item").

Definition demoRequest (name : string) : Request := mkRequest name None name "".

Definition demoStep (k : stepKind) (target : string) (f : failureMode) : WorkflowStep :=
  mkStep k "" target f (mkExpect "" None) ∅ None
    (Some (mkIf (mkBranch "x" "Good" "" 1%Z) [] None)) None (Some (mkForEach "xs" "x" 1%Z)).

Definition demoWorkflow : Workflow := mkWorkflow "demo" OnStop ∅
  [demoStep KindDefault "good" OnUnset; demoStep KindForEach "good" OnUnset; demoStep KindIf "" OnUnset].

Definition demoPlan : WorkflowPlan :=
  match PrepareWorkflow [demoRequest "Good"; demoRequest "bad"] demoWorkflow with
  | inr pl => pl
  | inl _ => mkPlan false [] ∅ ∅ false
  end.

Definition stopPlan : WorkflowPlan :=
  match PrepareWorkflow [demoRequest "Good"; demoRequest "bad"]
    (mkWorkflow "stop" OnStop ∅ [demoStep KindDefault "bad" OnContinue; demoStep KindDefault "bad" OnUnset;
       demoStep KindDefault "good" OnUnset]) with
  | inr pl => pl
  | inl _ => mkPlan false [] ∅ ∅ false
  end.

Definition runOf (pl : WorkflowPlan) (k : nat) : option error * wfRun :=
  match RunPlan noCode (demoDep k) pl 3 with Some x => x | None => (None, newRun pl) end.

Lemma workflow_run_ends_in_protocol_witness :
  (exists res r t, RunPlan noCode (demoDep 100) demoPlan 3 = Some (res, r) /\ follow noCode demoPlan (sent r) = Some t) /\
  length (sent (snd (runOf demoPlan 100))) = 18.
Proof.
  split; [|vm_compute; reflexivity].
  apply (workflow_run_ends_in_protocol noCode demoPlan (demoDep 100) 3). vm_compute. lia.
Defined.

Lemma nothing_runs_after_stop_witness :
  exists m out post,
    sent (snd (runOf stopPlan 100)) = take 8 (sent (snd (runOf stopPlan 100))) ++ WfStepDone m out :: post /\
    (post = [] \/ exists su sk ca err, post = [RunDone su sk ca err]).
Proof.
  eexists _, _, _. split; [vm_compute; reflexivity|].
  eapply (nothing_runs_after_stop noCode stopPlan (demoDep 100) 3 (fst (runOf stopPlan 100)) (snd (runOf stopPlan 100))
    (take 8 (sent (snd (runOf stopPlan 100))))); [vm_compute; lia|vm_compute; reflexivity|vm_compute; reflexivity|].
  vm_compute. reflexivity.
Defined.

Lemma verdict_exact_witness :
  let r := snd (runOf demoPlan 100) in
  RunDone true false false None ∈ sent r /\ (forall i, i < 3 -> reported (sent r) i).
Proof.
  assert (Hin : RunDone true false false None ∈ sent (snd (runOf demoPlan 100))).
  { apply list_elem_of_lookup. exists 17. vm_compute. reflexivity. }
  split; [exact Hin|].
  apply (verdict_exact noCode demoPlan (demoDep 100) 3 (fst (runOf demoPlan 100)) (snd (runOf demoPlan 100))
    true false false None); [vm_compute; lia|vm_compute; reflexivity|exact Hin|reflexivity].
Defined.

Lemma demo_sticky k : sticky (demoDep k).
Proof.
  intros n n' Hn. simpl. destruct (Nat.ltb_spec n k); [by intros [? [=]]|].
  destruct (Nat.ltb_spec n' k); [lia|done].
Qed.

Lemma cancelled_run_unreported_witness :
  canceled (snd (runOf demoPlan 14)) = true /\ is_Some (fst (runOf demoPlan 14)) /\
  forall su sk ca err, RunDone su sk ca err ∉ sent (snd (runOf demoPlan 14)).
Proof.
  split; [vm_compute; reflexivity|].
  apply (cancelled_run_unreported noCode demoPlan (demoDep 14) 3 (fst (runOf demoPlan 14)) (snd (runOf demoPlan 14)));
    [apply demo_sticky|vm_compute; lia|vm_compute; reflexivity|vm_compute; reflexivity|].
  intros Hin. apply list_elem_of_In in Hin. vm_compute in Hin. decompose [or] Hin; discriminate || contradiction.
Defined.

Lemma prepared_plan_resolves_witness :
  length (plSteps demoPlan) = 3 /\ Forall (runnable demoPlan) (plSteps demoPlan).
Proof.
  split; [vm_compute; reflexivity|].
  destruct (prepared_plan_resolves [demoRequest "Good"; demoRequest "bad"] demoWorkflow demoPlan) as [H _];
    [vm_compute; reflexivity|].
  induction H as [|? ? ? ? (_ & Hr & _) _ IH]; [constructor|by constructor].
Defined.

