(* ===== verification/Compare.v ===== *)
(** * Compare and profile runs (src/internal/engine/core/cmp.go, cmp_spec.go, pro.go)

    A compare run sends one request to every target, a profile run sends it
    [Total] times; both report each send and a verdict.  Their context, the sink
    and the requests are functions of the number of the call, as for workflows.
    Both report through [emitCtx], a context without cancellation, so [Emit] is
    the sink's [OnEvt] ([deliver]). *)
From stdpp Require Import base list strings gmap.
From Stdlib Require Import Ascii ZArith Lia.
From S2P Require Import Prelude GoStd GoPath Names Workflow.

Open Scope string_scope.
Open Scope nat_scope.
Open Scope list_scope.

(** ** What both runs share: calls, events, and the flags of the verdict *)

Section io.
Context {Ev : Type} (onEvt : nat -> Ev -> option Wf.error).

(** The calls made and the events the sink was given. *)
Record io := mkIo { calls : nat; sent : list Ev }.

Definition deliver (e : Ev) (w : io) : option Wf.error * io :=
  (onEvt (calls w) e, mkIo (S (calls w)) (sent w ++ [e])).

Definition asked (w : io) : io := mkIo (S (calls w)) (sent w).
End io.
Arguments io : clear implicits.

(** The result of a run: an error, or the end. *)
Definition outcome := option Wf.error.

Module Cmp.

(** [vars.Target]: the environment is its label. *)
Record Target := mkTarget { Profile : string; EnvLabel : string }.

(** [Target.Name] *)
Definition Name (t : Target) : string := if negb (bool_decide (Profile t = "")) then Profile t else EnvLabel t.

Record RowMeta := mkRow { RIndex : nat; REnv : string; RProfile : string; RBase : bool; RTotal : nat }.

Inductive CmpEvt :=
  | CRunStart
  | CRunDone (success skipped canceled : bool) (err : option Wf.error)
  | CmpRowStart (row : RowMeta) (req : Wf.Request)
  | CmpRowDone (row : RowMeta) (res : Wf.RequestResult).

Record ComparePlan := mkPlan { Request : Wf.Request; Group : string; Baseline : string; Targets : list Target }.

Definition PrepareCompare (req : option Wf.Request) (ts : list Target) (group baseline : string) :
    Wf.error + ComparePlan :=
  match req with
  | None => inl (Wf.newErr "request is nil")
  | Some req =>
      if length ts <? 2 then inl (Wf.newErr "compare requires at least two environments")
      else inr (mkPlan req group baseline ts)
  end.

(** [cmpRun] *)
Record cmpRun := mkRun { seen : bool; skip : bool; fail : bool; canceled : bool; world : io CmpEvt }.

Definition on_world (w : io CmpEvt) (r : cmpRun) : cmpRun := mkRun (seen r) (skip r) (fail r) (canceled r) w.
Definition cancel_run (r : cmpRun) : cmpRun := mkRun (seen r) (skip r) (fail r) true (world r).

(** [note] *)
Definition note (ok skipped cancel : bool) (r : cmpRun) : cmpRun :=
  mkRun true (if negb skipped then false else skip r) (if negb skipped && negb ok then true else fail r)
    (if cancel then true else canceled r) (world r).

(** [compareOutcome]: passed, skipped, cancelled.  [codes.OK] is 0. *)
Definition compareOutcome (out : Wf.RequestResult) : bool * bool * bool :=
  if Wf.resSkipped out then (false, true, false)
  else match Wf.resErr out with
  | Some e => (false, false, Wf.isCanceled e)
  | None =>
      match Wf.resScriptErr out with
      | Some _ => (false, false, false)
      | None =>
          if negb (forallb (fun passed => passed) (Wf.resTests out)) then (false, false, false)
          else match Wf.resResponse out, Wf.resGRPC out with
               | Some (_, code), _ => ((code <? 400)%Z, false, false)
               | None, Some code => ((code =? 0)%Z, false, false)
               | None, None => (false, false, false)
               end
      end
  end.

Section run.
Context {unicode : Unicode}.
Context (ctxErr : nat -> option Wf.error) (onEvt : nat -> CmpEvt -> option Wf.error)
  (ExecuteWith : nat -> Wf.Request -> Target -> Wf.error + Wf.RequestResult).
Context (pl : ComparePlan).

(** [base] and [row] *)
Definition isBase (i : nat) (t : Target) : bool :=
  if bool_decide (Baseline pl = "") then i =? 0 else EqualFold (Name t) (Baseline pl).
Definition rowOf (i : nat) (t : Target) (total : nat) : RowMeta :=
  mkRow i (EnvLabel t) (Profile t) (isBase i t) total.

Definition emit (e : CmpEvt) (r : cmpRun) : outcome * cmpRun :=
  let '(err, w) := deliver onEvt e (world r) in (err, on_world w r).

(** The loop of [run] from target [i] on. *)
Fixpoint rows (total i : nat) (ts : list Target) (r : cmpRun) : outcome * cmpRun :=
  match ts with
  | [] => (None, r)
  | t :: ts' =>
      let done := bool_decide (is_Some (ctxErr (calls (world r)))) in
      let r := on_world (asked (world r)) r in
      if done then (None, cancel_run r)
      else
        match emit (CmpRowStart (rowOf i t total) (Request pl)) r with
        | (Some e, r) => (Some e, r)
        | (None, r) =>
            let out := ExecuteWith (calls (world r)) (Request pl) t in
            let r := on_world (asked (world r)) r in
            match out with
            | inl e => (Some e, r)
            | inr out =>
                match emit (CmpRowDone (rowOf i t total) out) r with
                | (Some e, r) => (Some e, r)
                | (None, r) =>
                    let '(ok, skipped, cancel) := compareOutcome out in
                    let r := note ok skipped cancel r in
                    if cancel then (None, r) else rows total (S i) ts' r
                end
            end
        end
  end.

(** [emitRunDone]; the run is done exactly when it ended without an error. *)
Definition emitRunDone (err : option Wf.error) (r : cmpRun) : outcome * cmpRun :=
  let done := bool_decide (err = None) in
  emit (CRunDone (done && negb (skip r) && negb (fail r) && negb (canceled r)) (seen r && skip r) (canceled r) err) r.

Definition newRun : cmpRun := mkRun false true false false (mkIo 0 []).

(** [RunCompare] *)
Definition RunCompare : outcome * cmpRun :=
  match emit CRunStart newRun with
  | (Some e, r) => (Some e, r)
  | (None, r) =>
      let '(err, r) := rows (length (Targets pl)) 0 (Targets pl) r in
      let '(derr, r) := emitRunDone err r in
      (match err with None => derr | Some _ => err end, r)
  end.
End run.

(** ** cmp_spec.go *)

Section spec.
Context {unicode : Unicode}.

Record CompareSpec := mkSpec { Environments : list string; SBaseline : string; SGroup : string }.

(** [normalizeCompareTargets], with the names seen so far. *)
Fixpoint normalizeLoop (seen : gset string) (targets : list string) : list string :=
  match targets with
  | [] => []
  | target :: targets' =>
      let val := TrimSpace target in
      if bool_decide (val = "") then normalizeLoop seen targets'
      else if bool_decide (ToLower val ∈ seen) then normalizeLoop seen targets'
      else val :: normalizeLoop ({[ToLower val]} ∪ seen) targets'
  end.
Definition normalizeCompareTargets (targets : list string) : list string := normalizeLoop ∅ targets.

Definition normalizeCompareBaseline (envs : list string) (baseline : string) : string :=
  let base := TrimSpace baseline in
  if bool_decide (base = "") then ""
  else match List.find (fun env => EqualFold env base) envs with Some env => env | None => base end.

Definition BuildCompareSpec (targets : list string) (base group : string) : option CompareSpec :=
  let envs := normalizeCompareTargets targets in
  if length envs <? 2 then None
  else
    let b := normalizeCompareBaseline envs base in
    Some (mkSpec envs (if bool_decide (b = "") then default "" (head envs) else b) (TrimSpace group)).

Definition NormalizeCompareSpec (spec : CompareSpec) : CompareSpec :=
  let envs := normalizeCompareTargets (Environments spec) in
  let b := normalizeCompareBaseline envs (SBaseline spec) in
  mkSpec envs (if (0 <? length envs) && bool_decide (b = "") then default "" (head envs) else b) (TrimSpace (SGroup spec)).

(** [CompareBaseIndex] and [CompareBaseline], over the rows' names. *)
Definition CompareBaseIndex (rows : list string) (want : string) : nat :=
  let want := TrimSpace want in
  if bool_decide (want = "") then 0
  else match list_find (fun row => EqualFold row want = true) rows with Some (i, _) => i | None => 0 end.

Definition CompareBaseline (rows : list string) (want : string) : string :=
  let want := TrimSpace want in
  if negb (bool_decide (want = "")) then want else default "" (head rows).
End spec.

End Cmp.

Module Pro.

(** restfile.ProfileSpec; the delay in nanoseconds.  Integers are 64 bits wide. *)
Record ProfileSpec := mkSpec { Count : Z; Warmup : Z; Delay : Z }.

Definition int (z : Z) : Z := ((z + 2 ^ 63) mod 2 ^ 64 - 2 ^ 63)%Z.

Record ProfilePlan := mkPlan { Request : Wf.Request; Spec : ProfileSpec; Total : Z }.

(** [normProfileSpec] *)
Definition normProfileSpec (profile : option ProfileSpec) : ProfileSpec :=
  let spec := default (mkSpec 0 0 0) profile in
  mkSpec (if (Count spec <=? 0)%Z then 10%Z else Count spec)
    (if (Warmup spec <? 0)%Z then 0%Z else Warmup spec)
    (if (Delay spec <? 0)%Z then 0%Z else Delay spec).

(** [PrepareProfile] for a request, whether it is a gRPC one, and its profile. *)
Definition PrepareProfile (req : option Wf.Request) (isGRPC : bool) (profile : option ProfileSpec) :
    Wf.error + ProfilePlan :=
  match req with
  | None => inl (Wf.newErr "request is nil")
  | Some req =>
      if isGRPC then inl (Wf.newErr "profiling is not supported for gRPC requests")
      else
        let spec := normProfileSpec profile in
        let total := int (Count spec + Warmup spec) in
        inr (mkPlan req spec (if (total <=? 0)%Z then Count spec else total))
  end.

Record IterMeta := mkIter {
  Index : Z; ITotal : Z; IWarmup : bool; WarmupIndex : Z; WarmupTotal : Z; RunIndex : Z; RunTotal : Z; IDelay : Z
}.

Inductive ProEvt :=
  | PRunStart
  | PRunDone (success skipped canceled : bool) (err : option Wf.error)
  | ProIterStart (it : IterMeta) (req : Wf.Request)
  | ProIterDone (it : IterMeta) (res : Wf.RequestResult).

(** [proRun] *)
Record proRun := mkRun { seen : bool; skip : bool; fail : bool; canceled : bool; ok : Z; world : io ProEvt }.

Definition on_world (w : io ProEvt) (r : proRun) : proRun := mkRun (seen r) (skip r) (fail r) (canceled r) (ok r) w.
Definition saw (r : proRun) : proRun := mkRun true (skip r) (fail r) (canceled r) (ok r) (world r).
Definition cancel_run (r : proRun) : proRun := mkRun (seen r) (skip r) (fail r) true (ok r) (world r).
Definition skip_run (r : proRun) : proRun := mkRun (seen r) true (fail r) (canceled r) (ok r) (world r).
Definition fail_run (r : proRun) : proRun := mkRun (seen r) (skip r) true (canceled r) (ok r) (world r).
Definition ok_run (r : proRun) : proRun := mkRun (seen r) (skip r) (fail r) (canceled r) (ok r + 1)%Z (world r).

(** The first result of [proOutcome]; its reason is not used by the run. *)
Definition proOutcome (out : Wf.RequestResult) : bool :=
  if Wf.resSkipped out then false
  else if bool_decide (is_Some (Wf.resErr out)) then false
  else match Wf.resResponse out with
  | Some (_, code) =>
      if (400 <=? code)%Z then false
      else negb (bool_decide (is_Some (Wf.resScriptErr out))) && forallb (fun passed => passed) (Wf.resTests out)
  | None => false
  end.

Section run.
Context (ctxErr : nat -> option Wf.error) (onEvt : nat -> ProEvt -> option Wf.error)
  (ExecuteWith : nat -> Wf.Request -> Wf.error + Wf.RequestResult)
  (** the [select] between the timer of a delay and the context: whether the
      context won *)
  (interrupted : nat -> bool).
Context (pl : ProfilePlan).

(** [iter] *)
Definition iter (i : Z) : IterMeta :=
  let spec := Spec pl in
  let warm := (i <? Warmup spec)%Z in
  mkIter i (Total pl) warm (if warm then i + 1 else 0)%Z (Warmup spec) (if warm then 0 else i - Warmup spec + 1)%Z
    (Count spec) (Delay spec).

Definition emit (e : ProEvt) (r : proRun) : outcome * proRun :=
  let '(err, w) := deliver onEvt e (world r) in (err, on_world w r).

(** The delay after iteration [i]; the result is whether the run was cancelled. *)
Definition delay (i : Z) (r : proRun) : bool * proRun :=
  if (0 <? Delay (Spec pl))%Z && (i + 1 <? Total pl)%Z then
    let lost := interrupted (calls (world r)) in
    let r := on_world (asked (world r)) r in
    (lost, if lost then cancel_run r else r)
  else (false, r).

(** What the loop does with the result of iteration [i]: whether it goes on. *)
Definition judge (i : Z) (out : Wf.RequestResult) (r : proRun) : bool * proRun :=
  let r := saw r in
  if bool_decide (Wf.isCanceled <$> Wf.resErr out = Some true) then (false, cancel_run r)
  else if Wf.resSkipped out then (false, skip_run r)
  else
    let r := if negb (proOutcome out) then fail_run r
             else if negb (IWarmup (iter i)) then ok_run r else r in
    let '(lost, r) := delay i r in
    (negb lost, r).

(** The loop of [run] from iteration [i], with [n] of [Total] left. *)
Fixpoint iters (n : nat) (i : Z) (r : proRun) : outcome * proRun :=
  match n with
  | O => (None, r)
  | S n' =>
      let done := bool_decide (is_Some (ctxErr (calls (world r)))) in
      let r := on_world (asked (world r)) r in
      if done then (None, cancel_run r)
      else
        match emit (ProIterStart (iter i) (Request pl)) r with
        | (Some e, r) => (Some e, r)
        | (None, r) =>
            let out := ExecuteWith (calls (world r)) (Request pl) in
            let r := on_world (asked (world r)) r in
            match out with
            | inl e => (Some e, r)
            | inr out =>
                match emit (ProIterDone (iter i) out) r with
                | (Some e, r) => (Some e, r)
                | (None, r) =>
                    let '(more, r) := judge i out r in
                    if more then iters n' (i + 1)%Z r else (None, r)
                end
            end
        end
  end.

Definition emitRunDone (err : option Wf.error) (r : proRun) : outcome * proRun :=
  let done := bool_decide (err = None) in
  emit (PRunDone (done && negb (skip r) && negb (fail r) && negb (canceled r) && (ok r =? Count (Spec pl))%Z)
    (seen r && skip r) (canceled r) err) r.

Definition newRun : proRun := mkRun false false false false 0 (mkIo 0 []).

(** [RunProfile] *)
Definition RunProfile : outcome * proRun :=
  match emit PRunStart newRun with
  | (Some e, r) => (Some e, r)
  | (None, r) =>
      let '(err, r) := iters (Z.to_nat (Total pl)) 0 r in
      let '(derr, r) := emitRunDone err r in
      (match err with None => derr | Some _ => err end, r)
  end.
End run.

End Pro.

(** * The correctness of compare and profile runs

    What a sink learns of a compare or profile run is exactly what happened: the
    rows or iterations in order, each start followed by its end, and a verdict
    the results determine, also when the run is cancelled. *)
From stdpp Require Import base list strings gmap.
From Stdlib Require Import Ascii ZArith Lia.
From S2P Require Import Prelude GoStd GoPath Names Workflow.

Open Scope string_scope.
Open Scope nat_scope.
Open Scope list_scope.

(** ** Compare *)

Section compare.
Import Cmp.
Context {unicode : Unicode}.
Context (ctxErr : nat -> option Wf.error) (onEvt : nat -> CmpEvt -> option Wf.error)
  (ExecuteWith : nat -> Wf.Request -> Target -> Wf.error + Wf.RequestResult).
Context (pl : ComparePlan).

Definition rowPassed (out : Wf.RequestResult) : bool := (compareOutcome out).1.1.
Definition rowSkipped (out : Wf.RequestResult) : bool := (compareOutcome out).1.2.
Definition rowCanceled (out : Wf.RequestResult) : bool := (compareOutcome out).2.
Definition rowGood (out : Wf.RequestResult) : bool := rowSkipped out || rowPassed out.

(** The events of the rows that were run, with their results. *)
Fixpoint reports (total i : nat) (ts : list Target) (outs : list Wf.RequestResult) {struct outs} : list CmpEvt :=
  match outs, ts with
  | out :: outs', t :: ts' =>
      CmpRowStart (rowOf pl i t total) (Request pl) :: CmpRowDone (rowOf pl i t total) out ::
      reports total (S i) ts' outs'
  | _, _ => []
  end.

(** The flags after rows with the results [outs]. *)
Record noted (n : nat) (outs : list Wf.RequestResult) (r r' : cmpRun) : Prop := {
  n_seen : seen r' = seen r || negb (bool_decide (outs = []));
  n_skip : skip r' = skip r && forallb rowSkipped outs;
  n_fail : fail r' = fail r || negb (forallb rowGood outs);
  n_canceled : canceled r' = canceled r || existsb rowCanceled outs || (length outs <? n)
}.

Lemma noted_cons n out outs r r' w :
  noted n outs (note (rowPassed out) (rowSkipped out) (rowCanceled out) (on_world w r)) r' ->
  noted (S n) (out :: outs) r r'.
Proof.
  intros [Hs Hk Hf Hc]. cbn in *. constructor; cbn; rewrite ?Hs, ?Hk, ?Hf, ?Hc; unfold rowGood.
  - by rewrite orb_true_r.
  - by destruct (rowSkipped out), (skip r).
  - by destruct (rowSkipped out), (rowPassed out), (fail r).
  - change (S (length outs) <? S n) with (length outs <? n). by destruct (rowCanceled out), (canceled r).
Qed.

Lemma emit_eq e r : emit onEvt e r =
  (onEvt (calls (world r)) e, on_world (mkIo (S (calls (world r))) (sent (world r) ++ [e])) r).
Proof. done. Qed.

Lemma rows_spec total ts i r err r' :
  rows ctxErr onEvt ExecuteWith pl total i ts r = (err, r') ->
  exists outs tail, sent (world r') = sent (world r) ++ reports total i ts outs ++ tail /\
  length outs <= length ts /\ (err = None -> tail = [] /\ noted (length ts) outs r r').
Proof.
  revert i r. induction ts as [|t ts IH]; intros i r; cbn [rows].
  { intros [= <- <-]. exists [], []. rewrite app_nil_r. split_and!; [done..|]. intros _. split; [done|].
    constructor; simpl; by rewrite ?orb_false_r, ?andb_true_r. }
  case_bool_decide as Hc.
  { intros [= <- <-]. exists [], []. rewrite app_nil_r. split_and!; [done|simpl; lia|]. intros _. split; [done|].
    constructor; simpl; by rewrite ?orb_false_r, ?andb_true_r, ?orb_true_r. }
  rewrite emit_eq. destruct (onEvt _ _) as [e|].
  { intros [= <- <-]. exists []. eexists. simpl. split_and!; [done|lia|done]. }
  destruct (ExecuteWith _ _ _) as [e|out].
  { intros [= <- <-]. exists []. eexists. simpl. split_and!; [done|lia|done]. }
  rewrite emit_eq. cbn [sent on_world world asked]. destruct (onEvt _ _) as [e|].
  { intros [= <- <-]. exists []. eexists. simpl. rewrite <- app_assoc. split_and!; [done|lia|done]. }
  destruct (compareOutcome out) as [[ok sk] ca] eqn:Ho. set (w := mkIo _ _).
  assert (Hn : note ok sk ca = note (rowPassed out) (rowSkipped out) (rowCanceled out)).
  { unfold rowPassed, rowSkipped, rowCanceled. by rewrite Ho. }
  assert (Hca : ca = rowCanceled out) by (unfold rowCanceled; by rewrite Ho).
  rewrite Hn, Hca. destruct (rowCanceled out) eqn:Hcan.
  - intros [= <- <-]. exists [out], []. simpl. rewrite <- !app_assoc. split_and!; [done|lia|]. intros _. split; [done|].
    apply (noted_cons _ _ _ _ _ w). rewrite Hcan. constructor; simpl; by rewrite ?orb_false_r, ?andb_true_r.
  - rewrite <- Hcan. intros (outs & tail & Hs & Hlen & Hok)%IH. exists (out :: outs), tail. split_and!.
    + rewrite Hs. simpl. by rewrite <- !app_assoc.
    + simpl. lia.
    + intros [Ht Hno]%Hok. split; [done|]. by apply (noted_cons _ _ _ _ _ w).
Qed.

Lemma good_passed outs :
  forallb rowGood outs = true -> forallb rowSkipped outs = false <-> exists out, out ∈ outs /\ rowPassed out = true.
Proof.
  induction outs as [|out outs IH]; simpl.
  - split; [done|]. intros (? & []%elem_of_nil & _).
  - intros [Hg Hgs]%andb_true_iff. specialize (IH Hgs). unfold rowGood in Hg.
    destruct (rowSkipped out) eqn:Hs; simpl in *.
    + rewrite IH. split; intros (o & Ho & Hp); exists o; (split; [|done]).
      * by apply list_elem_of_further.
      * apply elem_of_cons in Ho as [-> |?]; [|done]. unfold rowPassed, rowSkipped, compareOutcome in *. by repeat case_match.
    + split; [|done]. intros _. exists out. split; [apply list_elem_of_here|done].
Qed.

Lemma canceled_not_good out : rowCanceled out = true -> rowGood out = false.
Proof. unfold rowCanceled, rowGood, rowSkipped, rowPassed, compareOutcome. by repeat case_match. Qed.

Lemma good_not_canceled outs : forallb rowGood outs = true -> existsb rowCanceled outs = false.
Proof.
  induction outs as [|out outs IH]; [done|]. simpl. intros [Hg Hgs]%andb_true_iff. rewrite (IH Hgs), orb_false_r.
  destruct (rowCanceled out) eqn:E; [|done]. by rewrite (canceled_not_good out E) in Hg.
Qed.

(** C16. A compare run whose start the sink accepted always reports its end, also
    when its context was cancelled.  Its events are the rows in the order of the
    targets, each start followed by its end, and then the verdict.  A verdict
    without error says: cancelled exactly when a row's own result was a
    cancellation or not every target was run; success exactly when every target
    was run, no row failed and one passed; skipped exactly when rows were run and
    all of them skipped.  A verdict with an error is no success, and the error is
    the run's. *)
Theorem compare_run_exact res r :
  onEvt 0 CRunStart = None -> RunCompare ctxErr onEvt ExecuteWith pl = (res, r) ->
  exists outs tail su sk ca err,
  sent (world r) = CRunStart :: reports (length (Targets pl)) 0 (Targets pl) outs ++ tail ++ [CRunDone su sk ca err] /\
  length outs <= length (Targets pl) /\
  match err with
  | Some e => su = false /\ res = Some e
  | None =>
      tail = [] /\
      (ca = true <-> (exists out, out ∈ outs /\ rowCanceled out = true) \/ length outs < length (Targets pl)) /\
      (su = true <-> length outs = length (Targets pl) /\ forallb rowGood outs = true /\
                     exists out, out ∈ outs /\ rowPassed out = true) /\
      (sk = true <-> outs <> [] /\ forallb rowSkipped outs = true)
  end.
Proof.
  intros Hstart. unfold RunCompare. rewrite emit_eq. cbn [world newRun calls on_world]. rewrite Hstart.
  destruct (rows _ _ _ _ _ _ _ _) as [err r1] eqn:Hrows. apply rows_spec in Hrows as (outs & tail & Hs & Hlen & Hok).
  unfold emitRunDone. rewrite emit_eq. intros [= <- <-]. exists outs, tail. do 4 eexists.
  split. { cbn [world on_world sent]. rewrite Hs. cbn. by rewrite <- app_assoc. }
  split; [done|]. destruct err as [e|]; [done|]. destruct (Hok eq_refl) as [-> [Hn Hk Hf Hc]]. split; [done|].
  rewrite Hn, Hk, Hf, Hc, (bool_decide_eq_true_2 (None = None)) by done.
  cbn [orb andb on_world newRun seen skip fail canceled]. rewrite negb_involutive. split_and!.
  - rewrite orb_true_iff, existsb_exists, Nat.ltb_lt. setoid_rewrite <- list_elem_of_In. done.
  - pose proof (good_passed outs) as Hp. pose proof (good_not_canceled outs) as Hnc. split.
    + intros [[Hsk Hg]%andb_true_iff Hca]%andb_true_iff. rewrite (Hnc Hg) in Hca. apply negb_true_iff in Hsk.
      destruct (Nat.ltb_spec (length outs) (length (Targets pl))); [done|]. split_and!; [lia|done|by apply Hp].
    + intros (Hl & Hg & Hpass). rewrite Hg, (Hnc Hg). apply Hp in Hpass; [|done].
      by rewrite Hpass, Hl, Nat.ltb_irrefl.
  - rewrite andb_true_iff, negb_true_iff, bool_decide_eq_false. done.
Qed.
End compare.

(** ** Profiles *)

Section profile.
Import Pro.
Context (ctxErr : nat -> option Wf.error) (onEvt : nat -> ProEvt -> option Wf.error)
  (ExecuteWith : nat -> Wf.Request -> Wf.error + Wf.RequestResult) (interrupted : nat -> bool).
Context (pl : ProfilePlan).

Fixpoint iterReports (i : Z) (outs : list Wf.RequestResult) : list ProEvt :=
  match outs with
  | [] => []
  | out :: outs' => ProIterStart (iter pl i) (Request pl) :: ProIterDone (iter pl i) out :: iterReports (i + 1)%Z outs'
  end.

(** The measured iterations among [outs], from iteration [i], that passed. *)
Fixpoint measured (i : Z) (outs : list Wf.RequestResult) : Z :=
  match outs with
  | [] => 0
  | out :: outs' => ((if proOutcome out && negb (i <? Warmup (Spec pl))%Z then 1 else 0) + measured (i + 1) outs')%Z
  end.

Record profiled (n : nat) (i : Z) (outs : list Wf.RequestResult) (r r' : proRun) : Prop := {
  p_seen : seen r' = seen r || negb (bool_decide (outs = []));
  p_ok : ok r' = (ok r + measured i outs)%Z;
  p_good : negb (skip r') && negb (fail r') && negb (canceled r') =
           negb (skip r) && negb (fail r) && negb (canceled r) && forallb proOutcome outs && (length outs =? n);
  p_cut : length outs < n -> canceled r' = true \/ skip r' = true;
  p_skip : skip r' = true -> skip r = true \/ exists out, out ∈ outs /\ Wf.resSkipped out = true
}.

Lemma profiled_nil i r : profiled 0 i [] r r.
Proof.
  constructor; simpl; rewrite ?orb_false_r, ?andb_true_r, ?Z.add_0_r; [done..|lia|by left].
Qed.

Lemma pro_emit_eq e r : emit onEvt e r =
  (onEvt (calls (world r)) e, on_world (mkIo (S (calls (world r))) (sent (world r) ++ [e])) r).
Proof. done. Qed.

Lemma proOutcome_plain out : proOutcome out = true -> Wf.resSkipped out = false /\ Wf.resErr out = None.
Proof. unfold proOutcome. destruct (Wf.resSkipped out); [done|]. by destruct (Wf.resErr out). Qed.

(** A run that goes on after an iteration with the result [out]. *)
Lemma profiled_cons n i out outs r r1 r' :
  seen r1 = true -> skip r1 = skip r -> fail r1 = fail r || negb (proOutcome out) -> canceled r1 = canceled r ->
  ok r1 = (ok r + (if proOutcome out && negb (i <? Warmup (Spec pl))%Z then 1 else 0))%Z ->
  profiled n (i + 1) outs r1 r' -> profiled (S n) i (out :: outs) r r'.
Proof.
  intros H1 H2 H3 H4 H6 [Hs1 Hok Hg Hcut Hsk]. constructor; simpl.
  - by rewrite Hs1, H1, orb_true_r.
  - rewrite Hok, H6. lia.
  - rewrite Hg, H2, H3, H4. by destruct (proOutcome out), (skip r), (fail r), (canceled r).
  - intros. apply Hcut. lia.
  - rewrite H2 in Hsk. intros [?|(o & Ho & Hsko)]%Hsk; [by left|right]. exists o.
    split; [by apply list_elem_of_further|done].
Qed.

(** One iteration's result. *)
Lemma judge_spec n i out r more r1 :
  judge interrupted pl i out r = (more, r1) -> (i + Z.of_nat (S n) = Total pl)%Z ->
  sent (world r1) = sent (world r) /\
  if more then forall outs r', profiled n (i + 1) outs r1 r' -> profiled (S n) i (out :: outs) r r'
  else profiled (S n) i [out] r r1.
Proof.
  unfold judge. intros Hj Hi.
  destruct (bool_decide _) eqn:Hc.
  { injection Hj as <- <-. apply bool_decide_eq_true in Hc. split; [done|].
    assert (Hb : proOutcome out = false).
    { destruct (proOutcome out) eqn:E; [|done]. apply proOutcome_plain in E as [_ E]. by rewrite E in Hc. }
    constructor; simpl; rewrite ?Hb, ?orb_true_r, ?andb_false_r, ?Z.add_0_r; auto. }
  destruct (Wf.resSkipped out) eqn:Hs.
  { injection Hj as <- <-. split; [done|].
    assert (Hb : proOutcome out = false) by (unfold proOutcome; by rewrite Hs).
    constructor; simpl; rewrite ?Hb, ?orb_true_r, ?andb_false_r, ?Z.add_0_r; auto.
    intros _. right. exists out. split; [apply list_elem_of_here|done]. }
  set (r0 := if negb (proOutcome out) then _ else _) in Hj.
  assert (Hr0 : seen r0 = true /\ skip r0 = skip r /\ fail r0 = fail r || negb (proOutcome out) /\
    canceled r0 = canceled r /\ world r0 = world r /\
    ok r0 = (ok r + (if proOutcome out && negb (i <? Warmup (Spec pl))%Z then 1 else 0))%Z).
  { unfold r0. destruct (proOutcome out); simpl; [destruct (i <? _)%Z|]; simpl;
      rewrite ?orb_false_r, ?orb_true_r, ?Z.add_0_r; done. }
  clearbody r0. destruct Hr0 as (H1 & H2 & H3 & H4 & H5 & H6). unfold delay in Hj.
  destruct ((0 <? Delay (Spec pl))%Z && (i + 1 <? Total pl)%Z) eqn:Hd;
    [destruct (interrupted (calls (world r0)))|]; injection Hj as <- <-; simpl; (split; [by rewrite H5|]).
  - apply andb_true_iff in Hd as [_ Hd%Z.ltb_lt]. destruct n as [|n]; [lia|].
    constructor; simpl; rewrite ?H1, ?H2, ?H3, ?H4, ?H6, ?orb_true_r, ?andb_false_r, ?Z.add_0_r; auto.
  - intros outs r'. by apply profiled_cons.
  - intros outs r'. by apply profiled_cons.
Qed.

Lemma iters_spec n i r err r' :
  iters ctxErr onEvt ExecuteWith interrupted pl n i r = (err, r') -> (i + Z.of_nat n = Total pl)%Z ->
  exists outs tail, sent (world r') = sent (world r) ++ iterReports i outs ++ tail /\
  length outs <= n /\ (err = None -> tail = [] /\ profiled n i outs r r').
Proof.
  revert i r. induction n as [|n IH]; intros i r; cbn [iters].
  { intros [= <- <-] _. exists [], []. rewrite app_nil_r. split_and!; [done..|]. intros _. split; [done|].
    apply profiled_nil. }
  case_bool_decide as Hc.
  { intros [= <- <-] _. exists [], []. rewrite app_nil_r. split_and!; [done|simpl; lia|]. intros _. split; [done|].
    constructor; simpl; rewrite ?orb_false_r, ?andb_false_r, ?Z.add_0_r; auto. }
  rewrite pro_emit_eq. destruct (onEvt _ _) as [e|].
  { intros [= <- <-] _. exists []. eexists. simpl. split_and!; [done|lia|done]. }
  destruct (ExecuteWith _ _) as [e|out].
  { intros [= <- <-] _. exists []. eexists. simpl. split_and!; [done|lia|done]. }
  rewrite pro_emit_eq. cbn [sent on_world world asked]. destruct (onEvt _ _) as [e|].
  { intros [= <- <-] _. exists []. eexists. simpl. rewrite <- app_assoc. split_and!; [done|lia|done]. }
  set (w := mkIo _ _). destruct (judge _ _ _ _ _) as [more r1] eqn:Hj. intros Hit Hi.
  destruct (judge_spec n i out _ more r1 Hj Hi) as [Hs1 Hp]. destruct more.
  - apply IH in Hit as (outs & tail & Hs & Hlen & Hok); [|lia]. exists (out :: outs), tail. split_and!.
    + rewrite Hs, Hs1. simpl. by rewrite <- !app_assoc.
    + simpl. lia.
    + intros [Ht Hpr]%Hok. split; [done|]. destruct (Hp _ _ Hpr). by constructor.
  - injection Hit as <- <-. exists [out], []. split_and!.
    + rewrite Hs1. simpl. by rewrite <- !app_assoc.
    + simpl. lia.
    + intros _. split; [done|]. destruct Hp. by constructor.
Qed.

(** With no iteration before them, as many of the iterations as are not warm-ups
    are measured. *)
Lemma measured_all i outs :
  forallb proOutcome outs = true ->
  measured i outs = Z.max 0 (i + Z.of_nat (length outs) - Z.max i (Warmup (Spec pl))).
Proof.
  revert i. induction outs as [|out outs IH]; intros i; simpl; [lia|].
  intros [-> Hg]%andb_true_iff. rewrite (IH _ Hg). simpl. destruct (Z.ltb_spec i (Warmup (Spec pl))); simpl; lia.
Qed.

Lemma prepared_profile req isGRPC profile :
  PrepareProfile req isGRPC profile = inr pl ->
  (1 <= Count (Spec pl) /\ 0 <= Warmup (Spec pl) /\ 0 <= Delay (Spec pl))%Z /\
  ((Count (Spec pl) + Warmup (Spec pl) < 2 ^ 63)%Z -> Total pl = (Count (Spec pl) + Warmup (Spec pl))%Z).
Proof.
  unfold PrepareProfile. destruct req as [q|]; [|done]. destruct isGRPC; [done|]. intros Hpl%(inj inr).
  assert (Hb : (1 <= Count (normProfileSpec profile) /\ 0 <= Warmup (normProfileSpec profile) /\
                0 <= Delay (normProfileSpec profile))%Z).
  { unfold normProfileSpec. simpl. repeat case_match; lia. }
  rewrite <- Hpl. cbn [Spec Total]. split; [done|]. intros Hlt.
  assert (Hint : int (Count (normProfileSpec profile) + Warmup (normProfileSpec profile)) =
                 (Count (normProfileSpec profile) + Warmup (normProfileSpec profile))%Z).
  { unfold int. change (2 ^ 64)%Z with 18446744073709551616%Z. change (2 ^ 63)%Z with 9223372036854775808%Z in *.
    rewrite Z.mod_small; lia. }
  rewrite Hint. destruct (Z.leb_spec (Count (normProfileSpec profile) + Warmup (normProfileSpec profile)) 0); lia.
Qed.

(** A profile run whose start the sink accepted always reports its end, also
    when it is cancelled during a delay.  Its events are the iterations in order,
    the warm-ups first, each start followed by its end, and then the verdict; at
    most [Warmup + Count] requests are sent.  A verdict without error is a success
    exactly when all [Warmup + Count] iterations were run and passed, the warm-ups
    too; a run cut short is called cancelled or skipped, and skipped only when an
    iteration was skipped.  A verdict with an error is no success, and the error
    is the run's. *)
Theorem profile_run_exact req isGRPC profile res r :
  PrepareProfile req isGRPC profile = inr pl -> (Count (Spec pl) + Warmup (Spec pl) < 2 ^ 63)%Z ->
  onEvt 0 PRunStart = None -> RunProfile ctxErr onEvt ExecuteWith interrupted pl = (res, r) ->
  let n := Z.to_nat (Count (Spec pl) + Warmup (Spec pl)) in
  exists outs tail su sk ca err,
  sent (world r) = PRunStart :: iterReports 0 outs ++ tail ++ [PRunDone su sk ca err] /\ length outs <= n /\
  match err with
  | Some e => su = false /\ res = Some e
  | None =>
      tail = [] /\
      (su = true <-> length outs = n /\ forallb proOutcome outs = true) /\
      (length outs < n -> ca = true \/ sk = true) /\
      (sk = true -> exists out, out ∈ outs /\ Wf.resSkipped out = true)
  end.
Proof.
  intros Hprep Hover Hstart. destruct (prepared_profile _ _ _ Hprep) as [(HC & HW & HD) HT].
  specialize (HT Hover). unfold RunProfile. rewrite pro_emit_eq. cbn [world newRun calls on_world]. rewrite Hstart, HT.
  destruct (iters _ _ _ _ _ _ _ _) as [err r1] eqn:Hit. intros Hrun.
  set (n := Z.to_nat (Count (Spec pl) + Warmup (Spec pl))) in *.
  apply iters_spec in Hit as (outs & tail & Hs & Hlen & Hok); [|rewrite HT; lia].
  revert Hrun. unfold emitRunDone. rewrite pro_emit_eq. intros [= <- <-]. exists outs, tail. do 4 eexists.
  split. { cbn [world on_world sent]. rewrite Hs. cbn. by rewrite <- app_assoc. }
  split; [done|]. destruct err as [e|]; [done|]. destruct (Hok eq_refl) as [-> [Hn Hok' Hg Hcut Hsk]].
  cbn in Hn, Hok', Hg, Hsk. split; [done|]. rewrite bool_decide_eq_true_2 by done. cbn [andb]. rewrite Hg.
  assert (Hsk' : skip r1 = true -> exists out, out ∈ outs /\ Wf.resSkipped out = true).
  { intros [?|?]%Hsk; done. }
  split_and!.
  - rewrite !andb_true_iff, Nat.eqb_eq, Z.eqb_eq. split; [tauto|]. intros [Hl Hall]. split_and!; [done..|].
    rewrite Hok', (measured_all 0 outs Hall), Hl. unfold n. lia.
  - intros Hlt. destruct (Hcut Hlt) as [?|Hskip]; [by left|right]. rewrite Hn, Hskip.
    destruct (Hsk' Hskip) as (o & Ho & _). by destruct outs; [apply elem_of_nil in Ho|].
  - by intros [_ ?%Hsk']%andb_true_iff.
Qed.
End profile.

(** ** The targets of a compare *)

Section targets.
Import Cmp.
Context {unicode : Unicode}.

Lemma normalizeLoop_spec seen targets :
  let out := normalizeLoop seen targets in
  NoDup (ToLower <$> out) /\ (forall name, name ∈ out -> name <> "" /\ ToLower name ∉ seen) /\
  sublist out (TrimSpace <$> targets) /\
  forall target, target ∈ targets -> TrimSpace target <> "" ->
    ToLower (TrimSpace target) ∈ seen \/ ToLower (TrimSpace target) ∈ ToLower <$> out.
Proof.
  revert seen. induction targets as [|t ts IH]; intros seen; simpl.
  { split_and!; [constructor|by intros ? []%elem_of_nil|constructor|by intros ? []%elem_of_nil]. }
  case_bool_decide as Hempty; [|case_bool_decide as Hseen]; simpl.
  - destruct (IH seen) as (Hnd & Hin & Hsub & Hall). split_and!; [done..|by constructor|].
    intros target [->|Ht]%elem_of_cons; [done|by apply Hall].
  - destruct (IH seen) as (Hnd & Hin & Hsub & Hall). split_and!; [done..|by constructor|].
    intros target [->|Ht]%elem_of_cons; [by left|by apply Hall].
  - destruct (IH ({[ToLower (TrimSpace t)]} ∪ seen)) as (Hnd & Hin & Hsub & Hall). split_and!.
    + constructor; [|done]. intros (name & Heq & Hname)%list_elem_of_fmap. apply Hin in Hname as [_ Hno].
      rewrite <- Heq in Hno. set_solver.
    + intros name [->|Hname]%elem_of_cons; [done|]. apply Hin in Hname as [? Hno]. set_solver.
    + by constructor.
    + intros target [->|Ht]%elem_of_cons Hne; [right; apply list_elem_of_here|].
      destruct (Hall target Ht Hne) as [Hs|Hs]; [|right; by apply list_elem_of_further].
      apply elem_of_union in Hs as [->%elem_of_singleton|Hs]; [right; apply list_elem_of_here|by left].
Qed.

(** The targets of a compare, up to case, are those named, each once and in the
    order of its first mention, and its baseline is never empty. *)
Theorem compare_spec_targets targets base group spec :
  BuildCompareSpec targets base group = Some spec ->
  2 <= length (Environments spec) /\ NoDup (ToLower <$> Environments spec) /\
  sublist (Environments spec) (TrimSpace <$> targets) /\
  (forall target, target ∈ targets -> TrimSpace target <> "" ->
    ToLower (TrimSpace target) ∈ ToLower <$> Environments spec) /\
  SBaseline spec <> "".
Proof.
  unfold BuildCompareSpec. destruct (normalizeLoop_spec ∅ targets) as (Hnd & Hin & Hsub & Hall).
  fold (normalizeCompareTargets targets) in *. set (envs := normalizeCompareTargets targets) in *. clearbody envs.
  destruct (Nat.ltb_spec (length envs) 2); [done|]. intros [= <-]. simpl. split_and!; [done..| |].
  - intros target Ht Hne. destruct (Hall target Ht Hne) as [Hs|Hs]; [set_solver|done].
  - case_bool_decide as Hb; [|done]. destruct envs as [|e envs]; simpl in *; [lia|].
    apply (Hin e), list_elem_of_here.
Qed.
End targets.

(** ** Concrete runs *)

#[local] Existing Instance Names.ascii.

Definition demoResponse (code : Z) : Wf.RequestResult := Wf.mkResult false "" None None [] (Some ("", code)) None false "".
Definition demoPing : Wf.Request := Wf.mkRequest "ping" None "ping" "".
Definition demoTargets : Cmp.ComparePlan :=
  Cmp.mkPlan demoPing "" "" [Cmp.mkTarget "" "dev"; Cmp.mkTarget "" "stage"; Cmp.mkTarget "" "prod"].
Definition demoCompare (k : nat) : outcome * Cmp.cmpRun :=
  Cmp.RunCompare (fun n => if n <? k then None else Some (Wf.mkError true "context canceled")) (fun _ _ => None)
    (fun _ _ t => inr (demoResponse (if String.eqb (Cmp.EnvLabel t) "stage" then 500 else 200)%Z)) demoTargets.

Lemma compare_run_exact_witness :
  exists outs tail su sk ca err,
    sent (Cmp.world (snd (demoCompare 8))) =
      Cmp.CRunStart :: reports demoTargets 3 0 (Cmp.Targets demoTargets) outs ++ tail ++ [Cmp.CRunDone su sk ca err] /\
    length outs <= 3.
Proof.
  destruct (compare_run_exact (fun n => if n <? 8 then None else Some (Wf.mkError true "context canceled"))
    (fun _ _ => None) (fun _ _ t => inr (demoResponse (if String.eqb (Cmp.EnvLabel t) "stage" then 500 else 200)%Z))
    demoTargets (fst (demoCompare 8)) (snd (demoCompare 8))) as (outs & tail & su & sk & ca & err & Hs & Hl & _);
    [reflexivity|vm_compute; reflexivity|].
  exists outs, tail, su, sk, ca, err. split; [exact Hs|exact Hl].
Defined.

Definition demoProfile : Pro.ProfilePlan := Pro.mkPlan demoPing (Pro.mkSpec 2 1 5) 3.
Definition demoProfileRun : outcome * Pro.proRun :=
  Pro.RunProfile (fun _ => None) (fun _ _ => None) (fun _ _ => inr (demoResponse 200)) (fun _ => false) demoProfile.

Lemma profile_run_exact_witness :
  exists outs tail su sk ca err,
    sent (Pro.world (snd demoProfileRun)) =
      Pro.PRunStart :: iterReports demoProfile 0 outs ++ tail ++ [Pro.PRunDone su sk ca err] /\ length outs <= 3.
Proof.
  destruct (profile_run_exact (fun _ => None) (fun _ _ => None) (fun _ _ => inr (demoResponse 200)) (fun _ => false)
    demoProfile (Some demoPing) false (Some (Pro.mkSpec 2 1 5)) (fst demoProfileRun) (snd demoProfileRun))
    as (outs & tail & su & sk & ca & err & Hs & Hl & _); [reflexivity|reflexivity|reflexivity|vm_compute; reflexivity|].
  exists outs, tail, su, sk, ca, err. split; [exact Hs|exact Hl].
Defined.
