(* ===== verification/Text.v ===== *)
(** * Text scanning: runes, strings.Cut, strings.Split, strings.IndexFunc

    Texts are lists of bytes.  A rune is the list of bytes that encodes it, so
    writing a rune is appending it; an invalid byte is read as the three bytes of
    U+FFFD and takes one, as Go's [range] reads it.  Last come lemmas on
    strings.TrimSpace (idempotent; it leaves a text alone that starts and ends with
    something else) and strconv.Itoa (numerals determine their numbers). *)
From stdpp Require Import base list strings.
From Stdlib Require Import Ascii ZArith Lia.
From S2P Require Import Prelude GoStd GoPath.

Open Scope string_scope.
Open Scope nat_scope.
Open Scope list_scope.

Notation bytestr := (list Ascii.ascii).
Notation rune := (list Ascii.ascii).

(** The rune at the head of a non-empty text, and how many bytes it takes. *)
Definition headRune (l : bytestr) : rune * nat :=
  match decode_rune l with Some (_, n) => (take n l, n) | None => (bytes RUNE_ERROR, 1) end.

(** [unicode.IsSpace] *)
Definition IsSpace (r : rune) : bool := bool_decide (r ∈ spaces).

(** A rune that is the ASCII character [c]. *)
Definition isChar (c : Ascii.ascii) (r : rune) : bool := bool_decide (r = [c]).

(** A predicate on ASCII characters as one on runes. *)
Definition asciiRune (p : Ascii.ascii -> bool) (r : rune) : bool :=
  match r with [c] => p c | _ => false end.

Definition EQ : Ascii.ascii := "="%char.

(** [strings.TrimLeftFunc]: a rune takes a byte at least. *)
Fixpoint trimLeftLoop (fuel : nat) (p : rune -> bool) (l : bytestr) : bytestr :=
  match fuel, l with
  | S fuel', _ :: _ => let '(r, n) := headRune l in if p r then trimLeftLoop fuel' p (drop n l) else l
  | _, _ => l
  end.
Definition trimLeftFunc (p : rune -> bool) (l : bytestr) : bytestr := trimLeftLoop (length l) p l.

(** [strings.TrimRightFunc(s, unicode.IsSpace)] *)
Definition trimRightSpace (l : bytestr) : bytestr :=
  rev (trimFront (length l) (map (@rev Ascii.ascii) spaces) (rev l)).

(** [strconv.Atoi]: an optional sign and decimal digits, in the range of int. *)
Fixpoint digitsOf (l : bytestr) (acc : Z) : option Z :=
  match l with
  | [] => Some acc
  | c :: l' =>
      if ((48 <=? byte_val c) && (byte_val c <=? 57))%N then digitsOf l' (acc * 10 + (Z.of_N (byte_val c) - 48))%Z
      else None
  end.
Definition inInt64 (z : Z) : option Z := if ((- 2 ^ 63 <=? z) && (z <? 2 ^ 63))%Z then Some z else None.
Definition Atoi (l : bytestr) : option Z :=
  match l with
  | [] => None
  | c :: l' =>
      if bool_decide (c = "-"%char) then
        if bool_decide (l' = []) then None else match digitsOf l' 0 with Some n => inInt64 (- n) | None => None end
      else if bool_decide (c = "+"%char) then
        if bool_decide (l' = []) then None else match digitsOf l' 0 with Some n => inInt64 n | None => None end
      else match digitsOf l 0 with Some n => inInt64 n | None => None end
  end.

(** [strings.TrimSpace] on bytes. *)
Definition trim (l : bytestr) : bytestr := bytes (TrimSpace (str l)).

(** [strings.IndexByte] and [strings.Cut]: what is before the first [c], and what
    is after it. *)
Fixpoint cutAt (c : Ascii.ascii) (l : bytestr) : option (bytestr * bytestr) :=
  match l with
  | [] => None
  | b :: l' =>
      if bool_decide (b = c) then Some ([], l')
      else match cutAt c l' with Some (x, y) => Some (b :: x, y) | None => None end
  end.

(** [strings.Split] at one byte. *)
Fixpoint splitAt (c : Ascii.ascii) (l : bytestr) : list bytestr :=
  match l with
  | [] => [[]]
  | b :: l' =>
      if bool_decide (b = c) then [] :: splitAt c l'
      else match splitAt c l' with [] => [[b]] | x :: r => (b :: x) :: r end
  end.

(** [strings.IndexFunc] as a cut: what is before the first rune that satisfies
    [p], and the rest from it.  A rune takes a byte at least. *)
Fixpoint cutFuncLoop (fuel : nat) (p : rune -> bool) (l : bytestr) : option (bytestr * bytestr) :=
  match fuel, l with
  | O, _ | _, [] => None
  | S fuel', _ =>
      let '(r, n) := headRune l in
      if p r then Some ([], l)
      else match cutFuncLoop fuel' p (drop n l) with Some (x, y) => Some (take n l ++ x, y) | None => None end
  end.
Definition cutFunc (p : rune -> bool) (l : bytestr) : option (bytestr * bytestr) := cutFuncLoop (length l) p l.

(** [strings.Index] and [strings.LastIndex] *)
Fixpoint indexOf (sub l : bytestr) : option nat :=
  match cut sub l with
  | Some _ => Some 0
  | None => match l with [] => None | _ :: l' => match indexOf sub l' with Some i => Some (S i) | None => None end end
  end.
Fixpoint lastIndexOf (sub l : bytestr) : option nat :=
  match l with
  | [] => match cut sub [] with Some _ => Some 0 | None => None end
  | _ :: l' =>
      match lastIndexOf sub l' with
      | Some i => Some (S i)
      | None => match cut sub l with Some _ => Some 0 | None => None end
      end
  end.

(** [strings.FieldsFunc]: [cur] is the field being read. *)
Fixpoint fieldsLoop (fuel : nat) (p : rune -> bool) (l cur : bytestr) : list bytestr :=
  match fuel, l with
  | S fuel', _ :: _ =>
      let '(r, n) := headRune l in
      if p r then match cur with [] => fieldsLoop fuel' p (drop n l) [] | _ => cur :: fieldsLoop fuel' p (drop n l) [] end
      else fieldsLoop fuel' p (drop n l) (cur ++ take n l)
  | _, _ => match cur with [] => [] | _ => [cur] end
  end.
Definition fieldsFunc (p : rune -> bool) (l : bytestr) : list bytestr := fieldsLoop (length l) p l [].

(** ** Valid UTF-8 *)

(** An encoding of one rune. *)
Definition validRune (r : rune) : Prop := r <> [] /\ exists v, decode_rune r = Some (v, length r).

(** A text made of valid runes. *)
Definition validText (l : bytestr) : Prop := exists rs, Forall validRune rs /\ l = mjoin rs.

Lemma decode_rune_app r t v n : decode_rune r = Some (v, n) -> decode_rune (r ++ t) = Some (v, n).
Proof.
  destruct r as [|b0 [|b1 [|b2 [|b3 r]]]]; unfold decode_rune; simpl; intros H; try done;
    repeat case_match; simplify_eq; try done; congruence.
Qed.

Lemma decode_rune_width l v n : decode_rune l = Some (v, n) -> 1 <= n <= length l.
Proof.
  destruct l as [|b0 [|b1 [|b2 [|b3 r]]]]; unfold decode_rune; simpl; intros H; try done;
    repeat case_match; simplify_eq; lia.
Qed.

Lemma decode_rune_prefix l v n : decode_rune l = Some (v, n) -> decode_rune (take n l) = Some (v, n).
Proof.
  destruct l as [|b0 [|b1 [|b2 [|b3 r]]]]; unfold decode_rune; intros H; try done;
    repeat case_match; simplify_eq; try done; simpl in *; simplify_eq; repeat case_match; congruence.
Qed.

Lemma headRune_valid r t : validRune r -> headRune (r ++ t) = (r, length r).
Proof.
  intros [_ [v Hv]]. unfold headRune. rewrite (decode_rune_app _ t _ _ Hv). by rewrite take_app_length.
Qed.

Lemma headRune_width l : l <> [] -> 1 <= (headRune l).2 <= length l.
Proof.
  intros Hl. unfold headRune. destruct (decode_rune l) as [[v n]|] eqn:E; simpl; [by eapply decode_rune_width|].
  destruct l; [done|simpl; lia].
Qed.

Lemma drop_valid (r t : bytestr) : drop (length r) (r ++ t) = t.
Proof. by rewrite drop_app_length. Qed.

(** An ASCII character is a valid rune. *)
Lemma validRune_ascii c : (byte_val c < 128)%N -> validRune [c].
Proof.
  intros Hc. split; [done|]. exists (Z.of_N (byte_val c)). unfold decode_rune.
  rewrite (proj2 (Z.ltb_lt _ _)) by lia. done.
Qed.
#[export] Hint Resolve validRune_ascii : rts.

(** A check of every byte. *)
Lemma all_bytes (p : Ascii.ascii -> bool) :
  forallb (fun n => p (byte_of (N.of_nat n))) (seq 0 256) = true -> forall c, p c = true.
Proof.
  intros Hall c. rewrite forallb_forall in Hall. specialize (Hall (N.to_nat (byte_val c))).
  rewrite N2Nat.id in Hall. unfold byte_of, byte_val in Hall. rewrite ascii_N_embedding in Hall. apply Hall, in_seq.
  pose proof (N_ascii_bounded c). split; [lia|]. change (0 + 256) with (N.to_nat 256). lia.
Qed.

Lemma space_valid r : r ∈ spaces -> validRune r.
Proof.
  intros Hr. assert (Hall : forallb (fun r => match decode_rune r with Some (_, n) => n =? length r | None => false end) spaces = true)
    by (vm_compute; reflexivity).
  assert (Hne : forallb (fun r : rune => match r with [] => false | _ => true end) spaces = true) by (vm_compute; reflexivity).
  rewrite forallb_forall in Hall, Hne. apply list_elem_of_In in Hr. specialize (Hall r Hr). specialize (Hne r Hr).
  split; [by destruct r|]. destruct (decode_rune r) as [[v n]|]; [|done]. apply Nat.eqb_eq in Hall as ->. by exists v.
Qed.

Lemma cutFuncLoop_valid fuel p rs r t :
  Forall validRune rs -> Forall (fun r => p r = false) rs -> validRune r -> p r = true ->
  length (mjoin rs ++ r ++ t) <= fuel ->
  cutFuncLoop fuel p (mjoin rs ++ r ++ t) = Some (mjoin rs, r ++ t).
Proof.
  intros Hrs Hp Hr Hpr. revert fuel. induction Hrs as [|x rs Hx _ IH]; intros fuel Hfuel.
  - destruct Hr as [Hne Hv]. destruct r as [|b r]; [done|]. destruct fuel; [simpl in Hfuel; lia|]. cbn [mjoin list_join app cutFuncLoop].
    change (b :: r ++ t) with ((b :: r) ++ t). rewrite headRune_valid by (by split). by rewrite Hpr.
  - apply Forall_cons in Hp as [Hpx Hp]. pose proof Hx as [Hne _]. destruct x as [|b x]; [done|].
    change (mjoin ((b :: x) :: rs)) with ((b :: x) ++ mjoin rs) in *. rewrite <- app_assoc in *.
    destruct fuel; [simpl in Hfuel; lia|]. cbn [app cutFuncLoop].
    change (b :: x ++ mjoin rs ++ r ++ t) with ((b :: x) ++ mjoin rs ++ r ++ t).
    rewrite headRune_valid by done. rewrite Hpx, drop_valid, IH; [|done|rewrite length_app in Hfuel; simpl in Hfuel; lia].
    by rewrite take_app_length.
Qed.

Lemma cutFunc_valid p rs r t :
  Forall validRune rs -> Forall (fun r => p r = false) rs -> validRune r -> p r = true ->
  cutFunc p (mjoin rs ++ r ++ t) = Some (mjoin rs, r ++ t).
Proof. intros. by apply cutFuncLoop_valid. Qed.

Lemma cutFunc_none p rs :
  Forall validRune rs -> Forall (fun r => p r = false) rs -> cutFunc p (mjoin rs) = None.
Proof.
  unfold cutFunc. intros Hrs Hp. remember (length (mjoin rs)) as fuel eqn:E. assert (Hf : length (mjoin rs) <= fuel) by lia.
  clear E. revert fuel Hf. induction Hrs as [|x rs Hx _ IH]; intros fuel Hf; [by destruct fuel|].
  apply Forall_cons in Hp as [Hpx Hp]. pose proof Hx as [Hne _]. destruct x as [|b x]; [done|].
  change (mjoin ((b :: x) :: rs)) with ((b :: x) ++ mjoin rs) in *.
  destruct fuel; [done|]. cbn [app cutFuncLoop].
  change (b :: x ++ mjoin rs) with ((b :: x) ++ mjoin rs). rewrite headRune_valid by done.
  rewrite Hpx, drop_valid, IH; [done..|]. rewrite length_app in Hf. simpl in Hf. lia.
Qed.

Lemma trimLeftFunc_stop p r t : validRune r -> p r = false -> trimLeftFunc p (r ++ t) = r ++ t.
Proof.
  intros Hr Hp. pose proof Hr as [Hne _]. unfold trimLeftFunc. destruct r as [|b r]; [done|]. cbn [length app trimLeftLoop].
  change (b :: r ++ t) with ((b :: r) ++ t). rewrite headRune_valid by done. by rewrite Hp.
Qed.

Lemma trimLeftLoop_fuel p f l : length l <= f -> trimLeftLoop f p l = trimLeftFunc p l.
Proof.
  unfold trimLeftFunc. revert l. assert (Hgen : forall n l, length l <= n -> forall f, length l <= f -> trimLeftLoop f p l = trimLeftLoop n p l).
  { induction n as [|n IH]; intros l Hl g Hg; [destruct l; [by destruct g|simpl in Hl; lia]|].
    destruct l as [|b l]; [by destruct g|]. destruct g; [simpl in Hg; lia|]. cbn [trimLeftLoop].
    pose proof (headRune_width (b :: l) ltac:(done)) as Hw. destruct (headRune (b :: l)) as [r w]. cbn [snd] in Hw.
    destruct (p r); [|done]. apply IH; rewrite length_drop; lia. }
  intros l Hl. by apply Hgen.
Qed.

Lemma trimLeftFunc_skip p r t : validRune r -> p r = true -> trimLeftFunc p (r ++ t) = trimLeftFunc p t.
Proof.
  intros Hr Hp. pose proof Hr as [Hne _]. unfold trimLeftFunc at 1. destruct r as [|b r]; [done|]. cbn [length app trimLeftLoop].
  change (b :: r ++ t) with ((b :: r) ++ t). rewrite headRune_valid by done. rewrite Hp, drop_valid.
  apply trimLeftLoop_fuel. rewrite length_app. lia.
Qed.

Lemma cutAt_app c l r : c ∉ l -> cutAt c (l ++ c :: r) = Some (l, r).
Proof.
  induction l as [|a l IH]; intros Hc; simpl.
  - by rewrite bool_decide_eq_true_2.
  - apply not_elem_of_cons in Hc as [Hne Hl]. by rewrite bool_decide_eq_false_2, (IH Hl).
Qed.

(** ** strings.TrimSpace and strconv.Itoa *)

Lemma cut_stop w l c r : c ∉ w -> cut w l = None -> cut w (l ++ c :: r) = None.
Proof.
  revert l. induction w as [|a w IH]; intros [|b l] Hc; simpl; [done..| |].
  - intros _. rewrite bool_decide_eq_false_2; [done|]. intros ->. by apply Hc, list_elem_of_here.
  - case_bool_decide; [|done]. apply IH. by apply not_elem_of_cons in Hc as [_ ?].
Qed.

Lemma cutAny_stop ws l c r : Forall (fun w => c ∉ w) ws -> cutAny ws l = None -> cutAny ws (l ++ c :: r) = None.
Proof.
  induction 1 as [|w ws Hw _ IH]; simpl; [done|]. destruct (cut w l) eqn:E; [done|].
  intros Hl. rewrite (cut_stop w l c r Hw E). by apply IH.
Qed.

Lemma trimFront_None n ws l : cutAny ws l = None -> trimFront n ws l = l.
Proof. destruct n; simpl; [done|]. by intros ->. Qed.

Lemma cut_length w l l' : cut w l = Some l' -> length l = length w + length l'.
Proof.
  revert l. induction w as [|a w IH]; intros [|b l]; simpl; try (by intros [= <-]); try done.
  case_bool_decide; [|done]. intros H1%IH. lia.
Qed.

Lemma cutAny_length ws l l' : Forall (fun w => w <> []) ws -> cutAny ws l = Some l' -> length l' < length l.
Proof.
  induction 1 as [|w ws Hw _ IH]; simpl; [done|]. destruct (cut w l) as [l0|] eqn:E; [|done].
  intros [= <-]. apply cut_length in E. destruct w; [done|]. simpl in E. lia.
Qed.

Lemma trimFront_length n ws l : Forall (fun w => w <> []) ws -> length (trimFront n ws l) <= length l.
Proof.
  intros Hws. revert l. induction n as [|n IH]; intros l; simpl; [done|].
  destruct (cutAny ws l) as [l'|] eqn:E; [|done]. apply cutAny_length in E; [|done]. specialize (IH l'). lia.
Qed.

Lemma spaces_nonempty : Forall (fun w => w <> []) spaces /\ Forall (fun w => w <> []) (map (@rev Ascii.ascii) spaces).
Proof. split; repeat constructor; discriminate. Qed.

Lemma length_bytes s : length (bytes s) = String.length s.
Proof. unfold bytes. induction s; simpl; auto. Qed.

(** A name that trimming leaves alone starts with no space. *)
Lemma bytes_app a b : bytes (a +:+ b) = bytes a ++ bytes b.
Proof. unfold bytes. induction a as [|c a IH]; [done|]. simpl. by rewrite IH. Qed.
Lemma bytes_inj a b : bytes a = bytes b -> a = b.
Proof. intros E. rewrite <- (str_bytes a), <- (str_bytes b). by rewrite E. Qed.

Lemma trimmed_front s : TrimSpace s = s -> s <> "" -> cutAny spaces (bytes s) = None.
Proof.
  intros Ht Hne. destruct (cutAny spaces (bytes s)) as [l'|] eqn:E; [|done]. exfalso.
  apply (f_equal (fun x => length (bytes x))) in Ht. unfold TrimSpace in Ht. rewrite bytes_str, length_rev in Ht.
  destruct spaces_nonempty as [H1 H2].
  pose proof (trimFront_length (length (trimFront (String.length s) spaces (bytes s))) _
    (rev (trimFront (String.length s) spaces (bytes s))) H2) as Hb. rewrite length_rev in Hb.
  assert (Hs : 0 < String.length s) by (destruct s; [done|simpl; lia]).
  destruct (String.length s) as [|n] eqn:Hn; [lia|]. cbn [trimFront] in Ht, Hb. rewrite E in Ht, Hb.
  pose proof (trimFront_length n spaces l' H1). apply cutAny_length in E; [|done]. lia.
Qed.

Lemma cut_prefix w l r : cut w l <> None -> cut w (l ++ r) <> None.
Proof.
  revert l. induction w as [|a w IH]; intros [|b l]; simpl; try done. case_bool_decide; [apply IH|done].
Qed.

Lemma cutAny_prefix ws l r : cutAny ws (l ++ r) = None -> cutAny ws l = None.
Proof.
  induction ws as [|w ws IH]; simpl; [done|]. destruct (cut w (l ++ r)) eqn:E; [done|].
  destruct (cut w l) eqn:E'; [|done]. exfalso. apply (cut_prefix w l r); [by rewrite E'|done].
Qed.

(** With as many rounds as bytes nothing is left to trim. *)
Lemma trimFront_done n ws l :
  Forall (fun w => w <> []) ws -> length l <= n -> cutAny ws (trimFront n ws l) = None.
Proof.
  intros Hws. revert l. induction n as [|n IH]; intros l Hl; simpl.
  - destruct l; [|simpl in Hl; lia]. clear -Hws. induction Hws as [|[|a w] ws Hw _ IH]; simpl; done.
  - destruct (cutAny ws l) as [l'|] eqn:E; [|done]. apply IH. apply cutAny_length in E; [lia|done].
Qed.

Lemma trimFront_suffix n ws l : exists p, l = p ++ trimFront n ws l.
Proof.
  revert l. induction n as [|n IH]; intros l; simpl; [by exists []|].
  destruct (cutAny ws l) as [l'|] eqn:E; [|by exists []]. destruct (IH l') as [p Hp].
  assert (exists q, l = q ++ l') as [q ->].
  { clear -E. induction ws as [|w ws IH]; simpl in E; [done|]. destruct (cut w l) as [l0|] eqn:C; [|by apply IH].
    injection E as <-. exists w. clear -C. revert l C. induction w as [|a w IH]; intros [|b l]; simpl; try (by intros [= <-]); try done.
    case_bool_decide; [|done]. subst. by intros ->%IH. }
  exists (q ++ p). rewrite <- app_assoc. by f_equal.
Qed.

(** The bytes of a trimmed text start and end with no space. *)
Lemma TrimSpace_edges s :
  cutAny spaces (bytes (TrimSpace s)) = None /\ cutAny (map (@rev Ascii.ascii) spaces) (rev (bytes (TrimSpace s))) = None.
Proof.
  destruct spaces_nonempty as [H1 H2]. unfold TrimSpace. rewrite bytes_str, rev_involutive.
  set (l := trimFront (String.length s) spaces (bytes s)).
  assert (Hl : cutAny spaces l = None) by (apply trimFront_done; [done|by rewrite length_bytes]).
  destruct (trimFront_suffix (length l) (map (@rev Ascii.ascii) spaces) (rev l)) as [p Hp]. split.
  - apply (cutAny_prefix _ _ (rev p)). by rewrite <- rev_app_distr, <- Hp, rev_involutive.
  - apply trimFront_done; [done|by rewrite length_rev].
Qed.

Lemma TrimSpace_fixed s :
  cutAny spaces (bytes s) = None -> cutAny (map (@rev Ascii.ascii) spaces) (rev (bytes s)) = None -> TrimSpace s = s.
Proof.
  intros H1 H2. unfold TrimSpace. rewrite !(trimFront_None _ spaces _ H1), trimFront_None by done.
  by rewrite rev_involutive, str_bytes.
Qed.

Lemma TrimSpace_idem s : TrimSpace (TrimSpace s) = TrimSpace s.
Proof. destruct (TrimSpace_edges s). by apply TrimSpace_fixed. Qed.

(** A text that trimming leaves alone, by its edges. *)
Lemma trim_fixed l : trim l = l <-> cutAny spaces l = None /\ cutAny (map (@rev Ascii.ascii) spaces) (rev l) = None.
Proof.
  unfold trim. split.
  - intros E. pose proof (TrimSpace_edges (str l)) as H. rewrite E in H. done.
  - intros [H1 H2]. rewrite TrimSpace_fixed; rewrite ?bytes_str; done.
Qed.

Lemma trim_idem l : trim (trim l) = trim l.
Proof. unfold trim. by rewrite str_bytes, TrimSpace_idem. Qed.

Lemma trim_space v : trim v = v -> trim (" "%char :: v) = v.
Proof.
  intros Hv. destruct v as [|c v]; [reflexivity|].
  assert (Hs : TrimSpace (str (c :: v)) = str (c :: v)) by (rewrite <- Hv at 2; unfold trim; by rewrite str_bytes).
  pose proof (TrimSpace_edges (str (c :: v))) as [He1 He2]. rewrite Hs, bytes_str in He1, He2.
  unfold trim, TrimSpace. rewrite !bytes_str. change (String.length (str (" "%char :: c :: v))) with (S (String.length (str (c :: v)))).
  cbn [trimFront]. assert (cutAny spaces (" "%char :: c :: v) = Some (c :: v)) as -> by reflexivity.
  rewrite !(trimFront_None _ spaces _ He1), trimFront_None by done. by rewrite rev_involutive.
Qed.

(** A space inside a text does not matter to its edges. *)
Lemma cut_spaced ws a r :
  Forall (fun w => w = [" "%char] \/ " "%char ∉ w) ws -> a <> [] -> cutAny ws a = None -> cutAny ws (a ++ " "%char :: r) = None.
Proof.
  intros Hws Ha. induction Hws as [|w ws Hw _ IH]; [done|]. cbn [cutAny]. destruct (cut w a) eqn:E; [done|]. intros Hn.
  assert (cut w (a ++ " "%char :: r) = None) as ->; [|by apply IH].
  destruct Hw as [->|Hw]; [|by apply cut_stop]. destruct a as [|c a]; [done|]. cbn in E |- *. by case_bool_decide.
Qed.

(** No space starts with the byte. *)
Definition noSpaceByte (c : Ascii.ascii) : bool := forallb (fun w => negb (bool_decide (head w = Some c))) spaces.

Lemma cutAny_first c l : noSpaceByte c = true -> cutAny spaces (c :: l) = None.
Proof.
  unfold noSpaceByte. generalize spaces_nonempty. intros [H _]. induction H as [|w ws Hw _ IH]; [done|]. cbn [forallb cutAny].
  intros [H1 H2]%andb_true_iff. apply negb_true_iff, bool_decide_eq_false in H1. destruct w as [|a w]; [done|]. cbn [cut].
  rewrite bool_decide_eq_false_2; [by apply IH|]. cbn in H1. congruence.
Qed.

Lemma spaces_spaced : Forall (fun w => w = [" "%char] \/ " "%char ∉ w) (map (@rev Ascii.ascii) spaces).
Proof. apply Forall_forall. intros w Hw. apply (bool_decide_unpack _). revert w Hw. apply Forall_forall. vm_compute. repeat constructor. Qed.

Lemma trim_around c l v : noSpaceByte c = true -> trim v = v -> v <> [] -> trim (c :: l ++ " "%char :: v) = c :: l ++ " "%char :: v.
Proof.
  intros Hc [_ Hv]%trim_fixed Hne. apply trim_fixed. split; [by apply cutAny_first|]. rewrite app_comm_cons, rev_app_distr. cbn [rev].
  rewrite <- app_assoc. cbn [app]. apply cut_spaced; [apply spaces_spaced| |done].
  intros E%(f_equal (@rev Ascii.ascii)). by rewrite rev_involutive in E.
Qed.

(** Trimming keeps a last byte that ends no space, and a first that starts none. *)
Lemma cutAny_Some ws l l' : cutAny ws l = Some l' -> exists w, w ∈ ws /\ l = w ++ l'.
Proof.
  induction ws as [|w ws IH]; cbn [cutAny]; [done|]. destruct (cut w l) as [x|] eqn:E.
  - intros [= <-]. exists w. split; [apply list_elem_of_here|]. clear IH. revert l E. induction w as [|a w IHw]; intros [|b l]; cbn [cut]; try (by intros [= <-]); try done.
    case_bool_decide; [|done]. subst. by intros ->%IHw.
  - intros (x & Hx & ->)%IH. exists x. split; [by apply list_elem_of_further|done].
Qed.

Lemma trimFront_last n ws l c : Forall (fun w => last w <> Some c) ws -> exists l', trimFront n ws (l ++ [c]) = l' ++ [c].
Proof.
  intros Hws. revert l. induction n as [|n IH]; intros l; cbn [trimFront]; [by eexists|].
  destruct (cutAny ws (l ++ [c])) as [l'|] eqn:E; [|by eexists]. apply cutAny_Some in E as (w & Hw & E).
  rewrite Forall_forall in Hws. specialize (Hws w Hw). destruct l' as [|x l' _] using rev_ind.
  - rewrite app_nil_r in E. subst w. by rewrite last_snoc in Hws.
  - rewrite app_assoc in E. apply app_inj_tail in E as [_ <-]. apply IH.
Qed.

Lemma trim_head c l : noSpaceByte c = true -> exists l', trim (c :: l) = c :: l'.
Proof.
  intros Hc. unfold trim, TrimSpace. rewrite !bytes_str, (trimFront_None _ spaces (c :: l)) by by apply cutAny_first. cbn [rev].
  destruct (trimFront_last (length (c :: l)) (map (@rev Ascii.ascii) spaces) (rev l) c) as [l' ->].
  - unfold noSpaceByte in Hc. rewrite forallb_forall in Hc. apply Forall_fmap, Forall_forall. intros w Hw.
    specialize (Hc w (proj1 (list_elem_of_In _ _) Hw)). apply negb_true_iff, bool_decide_eq_false in Hc. cbn. destruct w as [|a w]; [done|].
    cbn [rev]. by rewrite last_snoc.
  - rewrite rev_app_distr. cbn. by eexists.
Qed.

(** ** Numerals *)

Definition digitChars (l : list Ascii.ascii) : Prop :=
  Forall (fun c => (48 <= byte_val c)%N /\ (byte_val c <= 57)%N) l.
Definition digitsValue (l : list Ascii.ascii) : Z :=
  foldl (fun a c => a * 10 + (Z.of_N (byte_val c) - 48))%Z 0%Z l.

Lemma digit_char_val d : (0 <= d < 10)%Z -> byte_val (digit_char d) = Z.to_N (48 + d).
Proof. intros Hd. unfold digit_char, byte_val, byte_of. apply N_ascii_embedding. lia. Qed.

Lemma udigits_spec fuel z acc :
  (0 <= z < 2 ^ Z.of_nat fuel)%Z -> 0 < fuel ->
  exists ds, udigits fuel z acc = ds ++ acc /\ digitChars ds /\ digitsValue ds = z.
Proof.
  revert z acc. induction fuel as [|fuel IH]; intros z acc Hz Hf; [lia|]. cbn [udigits].
  pose proof (Z.mod_pos_bound z 10). pose proof (Z.div_mod z 10).
  assert (Hd : digitChars [digit_char (z mod 10)]).
  { constructor; [|constructor]. rewrite digit_char_val; lia. }
  destruct (Z.ltb_spec z 10).
  - exists [digit_char (z mod 10)]. split_and!; [done..|]. unfold digitsValue. simpl. rewrite digit_char_val; lia.
  - rewrite Nat2Z.inj_succ, Z.pow_succ_r in Hz by lia.
    destruct (IH (z / 10)%Z (digit_char (z mod 10) :: acc)) as (ds & -> & Hc & Hv); [lia| |].
    + destruct fuel; [simpl in Hz; lia|lia].
    + exists (ds ++ [digit_char (z mod 10)]). rewrite <- app_assoc. split_and!; [done|by apply Forall_app|].
      unfold digitsValue in *. rewrite foldl_app, Hv. simpl. rewrite digit_char_val; lia.
Qed.

Lemma itoa_spec z : (0 <= z)%Z -> digitChars (bytes (itoa z)) /\ digitsValue (bytes (itoa z)) = z.
Proof.
  intros Hz. unfold itoa. destruct (Z.ltb_spec z 0); [lia|]. rewrite bytes_str, Z.abs_eq by done.
  destruct (udigits_spec (S (Z.to_nat (Z.log2 z))) z []) as (ds & -> & Hc & Hv); [|lia|by rewrite app_nil_r].
  split; [done|]. rewrite Nat2Z.inj_succ, Z2Nat.id by apply Z.log2_nonneg.
  destruct (decide (z = 0)%Z) as [->|]; [simpl; lia|]. apply Z.log2_spec. lia.
Qed.

Lemma itoa_inj a b : (0 <= a)%Z -> (0 <= b)%Z -> itoa a = itoa b -> a = b.
Proof. intros Ha Hb E. rewrite <- (proj2 (itoa_spec a Ha)), <- (proj2 (itoa_spec b Hb)). by rewrite E. Qed.
