(* ===== verification/DotEnv.v ===== *)
(** * Dotenv files (src/internal/vars/dotenv.go)

    A file is read line by line ([bufio.Scanner]); each line assigns a key a
    value, quoted or plain, in which references to earlier keys or to the
    process's environment are replaced.  The process's environment is a function
    and so is [strings.ToUpper]. *)
From stdpp Require Import base list strings gmap.
From Stdlib Require Import Ascii ZArith Lia.
From S2P Require Import Prelude GoStd GoPath Names Text.

Open Scope string_scope.
Open Scope nat_scope.
Open Scope list_scope.

Module DotEnv.

Definition dotEnvDefaultName : string := "default".

Inductive quoteMode := quoteModeNone | quoteModeSingle | quoteModeDouble.

Definition HASH : Ascii.ascii := "#"%char.
Definition SEMI : Ascii.ascii := ";"%char.
Definition SPACE : Ascii.ascii := " "%char.
Definition DOLLAR : Ascii.ascii := "$"%char.
Definition LBRACE : Ascii.ascii := byte_of 123.
Definition RBRACE : Ascii.ascii := byte_of 125.
Definition EQUALS : Ascii.ascii := "="%char.

Definition lineErr (n : nat) (what : string) : string :=
  "dotenv line " +:+ itoa (Z.of_nat n) +:+ ": " +:+ what.

(** ** Bytes *)

(** [strings.TrimLeft(raw, " \t")] *)
Fixpoint trimBlanks (l : bytestr) : bytestr :=
  match l with
  | c :: l' => if bool_decide (c = SPACE \/ c = TAB) then trimBlanks l' else l
  | [] => []
  end.

(** [bufio.Scanner] with [ScanLines] and a buffer of [maxToken] bytes: the lines,
    without their ends, and whether it stopped at a line that is too long. *)
Definition maxToken : N := 1024 * 1024.

Definition dropCR (l : bytestr) : bytestr :=
  match rev l with
  | c :: r => if bool_decide (c = CR) then rev r else l
  | [] => l
  end.

Fixpoint scanLines (fuel : nat) (data : bytestr) : list bytestr * bool :=
  match fuel with
  | O => ([], false)
  | S fuel' =>
      match data with
      | [] => ([], false)
      | _ =>
          match cutAt LF data with
          | Some (line, rest) =>
              if (maxToken <=? N.of_nat (length line))%N then ([], true)
              else let '(ls, long) := scanLines fuel' rest in (dropCR line :: ls, long)
          | None => if (maxToken <=? N.of_nat (length data))%N then ([], true) else ([dropCR data], false)
          end
      end
  end.

(** ** Values *)

Definition resolveDoubleQuoteEscape (ch : Ascii.ascii) : Ascii.ascii :=
  if bool_decide (ch = "n"%char) then LF
  else if bool_decide (ch = "r"%char) then CR
  else if bool_decide (ch = "t"%char) then TAB
  else if bool_decide (ch = "0"%char) then NUL
  else if bool_decide (ch = DQUOTE) then DQUOTE
  else if bool_decide (ch = BACKSLASH) then BACKSLASH
  else if bool_decide (ch = "b"%char) then byte_of 8
  else if bool_decide (ch = "f"%char) then byte_of 12
  else ch.

(** The loop of [parseQuotedValue] over the bytes after the opening quote. *)
Fixpoint quotedLoop (q : Ascii.ascii) (double : bool) (line : nat) (l : bytestr) (out : bytestr) : res string bytestr :=
  match l with
  | [] => Er (lineErr line "unterminated quoted value")
  | ch :: l' =>
      if bool_decide (ch = BACKSLASH) then
        match l' with
        | [] => Er (lineErr line "unfinished escape")
        | next :: l'' =>
            quotedLoop q double line l'' (out ++ [if double then resolveDoubleQuoteEscape next else next])
        end
      else if bool_decide (ch = q) then
        match trim l' with
        | c :: _ =>
            if bool_decide (c = HASH \/ c = SEMI) then Ok out
            else Er (lineErr line "unexpected content after quoted value")
        | [] => Ok out
        end
      else quotedLoop q double line l' (out ++ [ch])
  end.

Definition parseQuotedValue (input : bytestr) (mode : quoteMode) (line : nat) : res string bytestr :=
  let single := match mode with quoteModeSingle => true | _ => false end in
  let double := match mode with quoteModeDouble => true | _ => false end in
  quotedLoop (if single then SQUOTE else DQUOTE) double line (drop 1 input) [].

(** The loop of [stripInlineComment]: [i] bytes of [value] are behind. *)
Fixpoint stripLoop (value : bytestr) (i : nat) (inWhitespace : bool) (l : bytestr) : bytestr :=
  match l with
  | [] => trim value
  | c :: l' =>
      if bool_decide (c = SPACE \/ c = TAB) then stripLoop value (S i) true l'
      else if bool_decide (c = HASH \/ c = SEMI) then
        if (i =? 0) || inWhitespace then trim (take i value) else stripLoop value (S i) false l'
      else stripLoop value (S i) false l'
  end.
Definition stripInlineComment (value : bytestr) : bytestr := stripLoop value 0 false value.

Definition parseDotEnvValue (raw : bytestr) (line : nat) : res string (bytestr * quoteMode) :=
  let leading := trimBlanks raw in
  match leading with
  | [] => Ok ([], quoteModeNone)
  | c :: _ =>
      if bool_decide (c = DQUOTE) then
        match parseQuotedValue leading quoteModeDouble line with Ok v => Ok (v, quoteModeDouble) | Er e => Er e end
      else if bool_decide (c = SQUOTE) then
        match parseQuotedValue leading quoteModeSingle line with Ok v => Ok (v, quoteModeSingle) | Er e => Er e end
      else Ok (stripInlineComment leading, quoteModeNone)
  end.

Definition isDotEnvNameChar (ch : Ascii.ascii) : bool :=
  let n := byte_val ch in
  ((97 <=? n) && (n <=? 122))%N || ((65 <=? n) && (n <=? 90))%N || ((48 <=? n) && (n <=? 57))%N || (n =? 95)%N.

(** The longest run of name characters, and the rest. *)
Fixpoint spanName (l : bytestr) : bytestr * bytestr :=
  match l with
  | c :: l' => if isDotEnvNameChar c then let '(a, b) := spanName l' in (c :: a, b) else ([], l)
  | [] => ([], [])
  end.

Section dotenv.
Context {unicode : Unicode} (ToUpper : string -> string) (LookupEnv : string -> option string).

(** refs.go: [lookupEnv] *)
Definition lookupEnv (key : string) : option string :=
  match LookupEnv key with Some v => Some v | None => LookupEnv (ToUpper key) end.

Definition resolveDotEnvRef (name : string) (resolved : gmap string string) (line : nat) : res string string :=
  match resolved !! name with
  | Some v => Ok v
  | None =>
      match lookupEnv name with
      | Some v => Ok v
      | None => Er (lineErr line ("variable " +:+ quote name +:+ " is not defined"))
      end
  end.

(** The loop of [expandDotEnvValue] on the bytes that are left; every round takes
    one at least, so as many rounds as bytes are enough. *)
Fixpoint expandLoop (fuel : nat) (resolved : gmap string string) (line : nat) (l : bytestr) (out : bytestr) :
    res string bytestr :=
  match fuel, l with
  | O, _ | _, [] => Ok out
  | S fuel', ch :: l' =>
      match l' with
      | next :: l'' =>
          if bool_decide (ch = BACKSLASH /\ next = DOLLAR) then expandLoop fuel' resolved line l'' (out ++ [DOLLAR])
          else if negb (bool_decide (ch = DOLLAR)) then expandLoop fuel' resolved line l' (out ++ [ch])
          else if bool_decide (next = LBRACE) then
            match cutAt RBRACE l'' with
            | None => Er (lineErr line ("missing closing brace for $" +:+ str [LBRACE]))
            | Some (inner, rest) =>
                let name := TrimSpace (str inner) in
                if bool_decide (name = "") then Er (lineErr line "empty variable name")
                else match resolveDotEnvRef name resolved line with
                     | Er e => Er e
                     | Ok v => expandLoop fuel' resolved line rest (out ++ bytes v)
                     end
            end
          else if isDotEnvNameChar next then
            let '(name, rest) := spanName l' in
            match resolveDotEnvRef (str name) resolved line with
            | Er e => Er e
            | Ok v => expandLoop fuel' resolved line rest (out ++ bytes v)
            end
          else expandLoop fuel' resolved line l' (out ++ [ch])
      | [] => expandLoop fuel' resolved line l' (out ++ [ch])
      end
  end.

Definition expandDotEnvValue (value : bytestr) (resolved : gmap string string) (line : nat) : res string bytestr :=
  expandLoop (length value) resolved line value [].

(** ** Lines *)

Definition parseDotEnvAssignment (line : string) (n : nat) : res string (string * bytestr) :=
  let lower := ToLower line in
  let line :=
    if String.prefix "export " lower || String.prefix (str (bytes "export" ++ [TAB])) lower
    then TrimSpace (str (drop 6 (bytes line))) else line in
  match cutAt EQUALS (bytes line) with
  | None => Er (lineErr n "expected KEY=value")
  | Some (key, value) =>
      let key := TrimSpace (str key) in
      if bool_decide (key = "") then Er (lineErr n "missing key") else Ok (key, value)
  end.

Definition isWorkspaceKey (key : string) : bool := EqualFold (TrimSpace key) "workspace".

(** What the loop of [parseDotEnv] does with line [n]. *)
Definition parseLine (n : nat) (line : bytestr) (st : gmap string string * bool) : res string (gmap string string * bool) :=
  let '(values, workspaceSeen) := st in
  let trimmed := TrimSpace (str line) in
  match bytes trimmed with
  | [] => Ok st
  | c :: _ =>
      if bool_decide (c = HASH \/ c = SEMI) then Ok st
      else
        match parseDotEnvAssignment trimmed n with
        | Er e => Er e
        | Ok (key, rawValue) =>
            match parseDotEnvValue rawValue n with
            | Er e => Er e
            | Ok (value, mode) =>
                let expanded :=
                  match mode with
                  | quoteModeSingle => Ok value
                  | _ => expandDotEnvValue value values n
                  end in
                match expanded with
                | Er e => Er e
                | Ok value =>
                    if isWorkspaceKey key && workspaceSeen then
                      Er (lineErr n "workspace defined multiple times")
                    else Ok (<[key := str value]> values, workspaceSeen || isWorkspaceKey key)
                end
            end
        end
  end.

Fixpoint parseLines (n : nat) (lines : list bytestr) (st : gmap string string * bool) :
    res string (gmap string string * bool) :=
  match lines with
  | [] => Ok st
  | line :: lines' =>
      match parseLine n line st with Ok st' => parseLines (S n) lines' st' | Er e => Er e end
  end.

(** [parseDotEnv] of a file's contents. *)
Definition parseDotEnv (path : string) (data : string) : res string (gmap string string) :=
  let '(lines, long) := scanLines (S (String.length data)) (bytes data) in
  match parseLines 1 lines (∅, false) with
  | Er e => Er e
  | Ok (values, _) =>
      if long then Er ("read env file " +:+ path +:+ ": bufio.Scanner: token too long") else Ok values
  end.

(** ** The environment's name *)

(** [filepath.Base] on Unix. *)
Fixpoint dropSep (l : bytestr) : bytestr :=
  match l with c :: l' => if bool_decide (c = SEP) then dropSep l' else l | [] => [] end.
Fixpoint untilSep (l : bytestr) : bytestr :=
  match l with c :: l' => if bool_decide (c = SEP) then [] else c :: untilSep l' | [] => [] end.

Definition Base (path : string) : string :=
  if bool_decide (path = "") then "."
  else match dropSep (rev (bytes path)) with [] => "/" | r => str (rev (untilSep r)) end.

(** [strings.TrimSuffix(base, filepath.Ext(base))] for a [base] without separators:
    what is before the last dot, or all of it. *)
Definition trimExt (base : string) : string :=
  match cutAt "."%char (rev (bytes base)) with Some (_, r) => str (rev r) | None => base end.

Definition hasSuffix (suffix s : string) : bool :=
  bool_decide (drop (String.length s - String.length suffix) (bytes s) = bytes suffix) &&
  (String.length suffix <=? String.length s).

(** [workspaceName]: the first that the iteration over the map meets. *)
Definition workspaceName (order : list (string * string)) : string :=
  default "" (snd <$> list_find (fun name => name <> "")
    (map (fun kv => TrimSpace (kv.2)) (List.filter (fun kv => isWorkspaceKey (kv.1)) order))).

Definition deriveDotEnvName (order : list (string * string)) (path : string) : string :=
  let name := workspaceName order in
  if negb (bool_decide (name = "")) then name
  else
    let base := Base path in
    let lower := ToLower base in
    if bool_decide (lower = ".env") then dotEnvDefaultName
    else if String.prefix ".env." lower && (5 <? String.length base) then TrimSpace (str (drop 5 (bytes base)))
    else if hasSuffix ".env" lower && (4 <? String.length base)
    then TrimSpace (str (take (String.length base - 4) (bytes base)))
    else
      let stem := TrimSpace (trimExt base) in
      if bool_decide (stem = "") || EqualFold stem ".env" then dotEnvDefaultName else stem.

(** [loadDotEnvEnvironment] of a file that could be read: one environment. *)
Definition loadDotEnvEnvironment (path data : string) (order : gmap string string -> list (string * string)) :
    res string (gmap string (gmap string string)) :=
  match parseDotEnv path data with
  | Er e => Er e
  | Ok values =>
      let name := deriveDotEnvName (order values) path in
      Ok {[ (if bool_decide (name = "") then dotEnvDefaultName else name) := values ]}
  end.

Definition IsDotEnvPath (path : string) : bool :=
  let base := ToLower (Base path) in
  if hasSuffix ".json" base then false
  else bool_decide (base = ".env") || String.prefix ".env." base || hasSuffix ".env" base.
End dotenv.

(** The file of the repository's test. *)
Example dotenv_file :
  let data := "
# comment
workspace=stage
BASE_URL = https://api.example.com
API_URL=${BASE_URL}/v1
TOKEN=" +:+ String DQUOTE ("${API_URL}/token" +:+ String DQUOTE "
LITERAL='${API_URL}'
TIMEOUT=30 # seconds
REGION = ${CLI_REGION}
") in
  @parseDotEnv Names.ascii (fun s => s) (fun k => if bool_decide (k = "CLI_REGION") then Some "us-east-1" else None) "p" data
  = Ok (list_to_map [("workspace", "stage"); ("BASE_URL", "https://api.example.com");
      ("API_URL", "https://api.example.com/v1"); ("TOKEN", "https://api.example.com/v1/token");
      ("LITERAL", "${API_URL}"); ("TIMEOUT", "30"); ("REGION", "us-east-1")]).
Proof. vm_compute. reflexivity. Qed.

Example dotenv_names :
  map (fun p => @deriveDotEnvName Names.ascii [] p) ["/w/.env"; ".env.prod"; "a/prod.env/"; "conf.txt"; "/"; ".ENV.x"]
  = ["default"; "prod"; "prod"; "conf"; "/"; "x"].
Proof. vm_compute. reflexivity. Qed.

End DotEnv.

(** * The correctness of dotenv files (src/internal/vars/dotenv.go)

    Any values can be written so that they are read back ([writeFile]); the name
    of the environment does not depend on the iteration over its values. *)
From stdpp Require Import base list strings gmap.
From Stdlib Require Import Ascii ZArith Lia.
From S2P Require Import Prelude GoStd GoPath Names Text.

Open Scope string_scope.
Open Scope nat_scope.
Open Scope list_scope.

Import DotEnv.

(** ** Writing a value *)

(** A dollar sign is escaped from interpolation, then the text is quoted. *)
Definition escDollar (v : bytestr) : bytestr :=
  mjoin (map (fun c => if bool_decide (c = DOLLAR) then [BACKSLASH; DOLLAR] else [c]) v).

Definition escByte (c : Ascii.ascii) : bytestr :=
  if bool_decide (c = DQUOTE) then [BACKSLASH; DQUOTE]
  else if bool_decide (c = BACKSLASH) then [BACKSLASH; BACKSLASH]
  else if bool_decide (c = LF) then [BACKSLASH; "n"%char]
  else [c].

Definition quoted (v : bytestr) : bytestr := DQUOTE :: mjoin (map escByte (escDollar v)) ++ [DQUOTE].

Definition writeLine (kv : string * string) : bytestr := bytes kv.1 ++ EQUALS :: quoted (bytes kv.2).

Definition writeFile (kvs : list (string * string)) : string :=
  str (mjoin (map (fun kv => writeLine kv ++ [LF]) kvs)).

(** ** Reading it *)

Lemma quotedLoop_esc line v out :
  quotedLoop DQUOTE true line (mjoin (map escByte v) ++ [DQUOTE]) out = Ok (out ++ v).
Proof.
  revert out. induction v as [|c v IH]; intros out.
  { simpl. by rewrite app_nil_r. }
  change (mjoin (map escByte (c :: v))) with (escByte c ++ mjoin (map escByte v)). rewrite <- app_assoc.
  replace (out ++ c :: v) with ((out ++ [c]) ++ v) by (by rewrite <- app_assoc). rewrite <- IH. unfold escByte.
  repeat case_bool_decide; subst; try reflexivity. simpl.
  rewrite bool_decide_eq_false_2, bool_decide_eq_false_2 by done. done.
Qed.

Lemma expandLoop_esc ToUpper LookupEnv resolved line v : forall fuel out,
  length (escDollar v) <= fuel ->
  expandLoop ToUpper LookupEnv fuel resolved line (escDollar v) out = Ok (out ++ v).
Proof.
  induction v as [|c v IH]; intros fuel out Hf.
  { destruct fuel; simpl; by rewrite app_nil_r. }
  replace (out ++ c :: v) with ((out ++ [c]) ++ v) by (by rewrite <- app_assoc).
  assert (Hc : escDollar (c :: v) = (if bool_decide (c = DOLLAR) then [BACKSLASH; DOLLAR] else [c]) ++ escDollar v) by done.
  rewrite Hc in *. rewrite length_app in Hf. case_bool_decide as Hd.
  - simpl in Hf. destruct fuel as [|fuel]; [lia|]. subst c. simpl.
    apply IH. lia.
  - simpl in Hf. destruct fuel as [|fuel]; [lia|]. simpl.
    assert (Hstep : expandLoop ToUpper LookupEnv fuel resolved line (escDollar v) (out ++ [c]) = Ok ((out ++ [c]) ++ v))
      by (apply IH; lia).
    destruct (escDollar v) as [|next l] eqn:Hv; [done|].
    rewrite (bool_decide_eq_false_2 (c = DOLLAR)) by done. simpl.
    rewrite bool_decide_eq_false_2; [done|]. intros [-> ->]. destruct v as [|d v]; [done|].
    revert Hv. change (escDollar (d :: v)) with ((if bool_decide (d = DOLLAR) then [BACKSLASH; DOLLAR] else [d]) ++ escDollar v).
    case_bool_decide; simpl; [intros [= ? ?]|intros [= ? ?]; subst]; done.
Qed.

Lemma read_quoted ToUpper LookupEnv resolved line v :
  parseDotEnvValue (quoted v) line = Ok (escDollar v, quoteModeDouble) /\
  expandDotEnvValue ToUpper LookupEnv (escDollar v) resolved line = Ok v.
Proof.
  split; [|unfold expandDotEnvValue; by rewrite expandLoop_esc].
  unfold parseDotEnvValue, quoted, parseQuotedValue. set (w := mjoin _ ++ _). simpl. unfold w. rewrite drop_0. by rewrite quotedLoop_esc.
Qed.

(** ** Trimming *)

(** Between such a front and a quote there is nothing to trim. *)
Lemma trim_line k c r :
  TrimSpace k = k -> k <> "" -> c = EQUALS -> TrimSpace (str (bytes k ++ c :: r ++ [DQUOTE])) = str (bytes k ++ c :: r ++ [DQUOTE]).
Proof.
  intros Ht Hne ->. unfold TrimSpace. rewrite bytes_str.
  assert (Hf : cutAny spaces (bytes k ++ EQUALS :: r ++ [DQUOTE]) = None).
  { apply cutAny_stop; [|by apply trimmed_front]. repeat constructor; vm_compute; set_solver. }
  rewrite !(trimFront_None _ spaces _ Hf). f_equal. rewrite trimFront_None; [by rewrite rev_involutive|].
  rewrite rev_app_distr. simpl. rewrite rev_app_distr. reflexivity.
Qed.

(** ** Lines and files *)

Lemma no_LF_quoted v : LF ∉ quoted v.
Proof.
  unfold quoted. apply not_elem_of_cons. split; [done|]. apply not_elem_of_app. split; [|vm_compute; set_solver].
  induction (escDollar v) as [|c l IH]; [by apply not_elem_of_nil|].
  change (mjoin (map escByte (c :: l))) with (escByte c ++ mjoin (map escByte l)). apply not_elem_of_app.
  split; [|done]. unfold escByte. repeat case_bool_decide; subst; rewrite ?not_elem_of_cons; split_and!; try done;
    apply not_elem_of_nil.
Qed.

Section files.
Context {unicode : Unicode} (ToUpper : string -> string) (LookupEnv : string -> option string).

(** A key that reads back: nothing to trim, no separator or line end, no comment,
    no [export] and not the name of the environment. *)
Record validKey (k : string) : Prop := {
  k_trim : TrimSpace k = k;
  k_nonempty : k <> "";
  k_equals : EQUALS ∉ bytes k;
  k_lf : LF ∉ bytes k;
  k_comment : head (bytes k) <> Some HASH /\ head (bytes k) <> Some SEMI;
  k_export : forall rest, String.prefix "export " (ToLower (k +:+ "=" +:+ rest)) = false /\
    String.prefix (str (bytes "export" ++ [TAB])) (ToLower (k +:+ "=" +:+ rest)) = false;
  k_plain : isWorkspaceKey k = false
}.


Lemma str_app_bytes a l : str (bytes a ++ l) = a +:+ str l.
Proof. rewrite <- (str_bytes (a +:+ str l)), bytes_app, bytes_str. done. Qed.

Lemma parse_written n kv values seen :
  validKey kv.1 ->
  parseLine ToUpper LookupEnv n (writeLine kv) (values, seen) = Ok (<[kv.1 := kv.2]> values, seen).
Proof.
  destruct kv as [k v]. cbn [fst snd]. intros [Ht Hne Heq Hlf [Hh Hsemi] Hex Hpl].
  assert (Hline : TrimSpace (str (writeLine (k, v))) = str (writeLine (k, v))).
  { unfold writeLine, quoted. cbn [fst snd]. rewrite app_comm_cons. by apply trim_line. }
  unfold parseLine. rewrite Hline, bytes_str.
  destruct (writeLine (k, v)) as [|c l] eqn:Hw.
  { exfalso. unfold writeLine in Hw. simpl in Hw. by destruct (bytes k). }
  assert (Hc : head (bytes k) = Some c).
  { unfold writeLine in Hw. simpl in Hw. destruct (bytes k) as [|c' bk] eqn:Hb; simpl in Hw.
    - exfalso. apply Hne. by rewrite <- (str_bytes k), Hb.
    - by injection Hw as -> _. }
  rewrite Hc in Hh, Hsemi. rewrite bool_decide_eq_false_2 by (intros [-> | ->]; done). rewrite <- Hw. clear Hc Hh Hsemi.
  assert (Hasg : parseDotEnvAssignment (str (writeLine (k, v))) n = Ok (k, quoted (bytes v))).
  { unfold parseDotEnvAssignment, writeLine. cbn [fst snd]. rewrite (str_app_bytes k).
    replace (str (EQUALS :: quoted (bytes v))) with ("=" +:+ str (quoted (bytes v))) by done.
    destruct (Hex (str (quoted (bytes v)))) as [-> ->]. cbn [orb].
    rewrite bytes_app. change (bytes ("=" +:+ str (quoted (bytes v)))) with (EQUALS :: bytes (str (quoted (bytes v)))).
    rewrite bytes_str, cutAt_app by done. rewrite str_bytes, Ht. by rewrite bool_decide_eq_false_2. }
  rewrite Hasg. destruct (read_quoted ToUpper LookupEnv values n (bytes v)) as [-> ->]. rewrite Hpl. cbn [andb].
  by rewrite str_bytes, orb_false_r.
Qed.

Lemma parse_written_lines n kvs values seen :
  Forall (fun kv => validKey kv.1) kvs ->
  parseLines ToUpper LookupEnv n (map writeLine kvs) (values, seen) =
  Ok (foldl (fun m kv => <[kv.1 := kv.2]> m) values kvs, seen).
Proof.
  intros Hv. revert n values. induction Hv as [|kv kvs Hk _ IH]; intros n values; cbn [map parseLines foldl]; [done|].
  rewrite parse_written by done. apply IH.
Qed.

Lemma dropCR_quote l : dropCR (l ++ [DQUOTE]) = l ++ [DQUOTE].
Proof. unfold dropCR. by rewrite rev_app_distr. Qed.

Lemma scan_written kvs fuel :
  Forall (fun kv => validKey kv.1 /\ (N.of_nat (length (writeLine kv)) < maxToken)%N) kvs -> length kvs < fuel ->
  scanLines fuel (mjoin (map (fun kv => writeLine kv ++ [LF]) kvs)) = (map writeLine kvs, false).
Proof.
  intros Hv. revert fuel. induction Hv as [|kv kvs [Hk Hlen] _ IH]; intros [|fuel] Hf; simpl in Hf; try lia; [done|].
  change (mjoin (map ?f (kv :: kvs))) with (f kv ++ mjoin (map f kvs)). cbn beta. rewrite <- app_assoc. cbn [app].
  set (rest := mjoin _) in *. cbn [scanLines].
  assert (Hcut : cutAt LF (writeLine kv ++ LF :: rest) = Some (writeLine kv, rest)).
  { apply cutAt_app. unfold writeLine. apply not_elem_of_app. split; [apply Hk|]. apply not_elem_of_cons.
    split; [done|apply no_LF_quoted]. }
  destruct (writeLine kv ++ LF :: rest) as [|c l] eqn:E; [by destruct (writeLine kv)|].
  rewrite Hcut. apply N.leb_gt in Hlen. rewrite Hlen. rewrite IH by lia. f_equal. simpl. f_equal.
  unfold writeLine, quoted. rewrite !app_comm_cons, app_assoc. apply dropCR_quote.
Qed.

Lemma file_length kvs : length kvs < S (String.length (writeFile kvs)).
Proof.
  unfold writeFile. rewrite <- length_bytes, bytes_str. induction kvs as [|kv kvs IH]; [simpl; lia|].
  change (mjoin (map ?f (kv :: kvs))) with (f kv ++ mjoin (map f kvs)). cbn beta.
  rewrite !length_app. simpl. lia.
Qed.

(** C29. Round trip of dotenv files: whatever bytes the values are, a file that
    writes them double quoted, with the dollar sign escaped from interpolation,
    reads back as these values, later assignments of a key winning. *)
Theorem dotenv_roundtrip path kvs :
  Forall (fun kv => validKey kv.1 /\ (N.of_nat (length (writeLine kv)) < maxToken)%N) kvs ->
  parseDotEnv ToUpper LookupEnv path (writeFile kvs) = Ok (foldl (fun m kv => <[kv.1 := kv.2]> m) ∅ kvs).
Proof.
  intros Hv. unfold parseDotEnv. unfold writeFile at 2. rewrite bytes_str, scan_written; [|done|apply file_length].
  rewrite parse_written_lines; [done|]. eapply Forall_impl; [exact Hv|]. by intros ? [? _].
Qed.
End files.

(** ** The name of the environment *)

Section names.
Context {unicode : Unicode} (ToUpper : string -> string) (LookupEnv : string -> option string).

(** One key at most names the environment, and the flag knows of it. *)
Definition oneWorkspace (st : gmap string string * bool) : Prop :=
  (forall k1 k2, is_Some (st.1 !! k1) -> is_Some (st.1 !! k2) ->
    isWorkspaceKey k1 = true -> isWorkspaceKey k2 = true -> k1 = k2) /\
  (st.2 = false -> forall k, is_Some (st.1 !! k) -> isWorkspaceKey k = false).

Lemma parseLine_workspace n line st st' :
  oneWorkspace st -> parseLine ToUpper LookupEnv n line st = Ok st' -> oneWorkspace st'.
Proof.
  destruct st as [values seen]. intros Hone. unfold parseLine.
  destruct (bytes _) as [|c l]; [by intros [= <-]|]. case_bool_decide; [by intros [= <-]|].
  destruct (parseDotEnvAssignment _ n) as [[key raw]|e]; [|done].
  destruct (parseDotEnvValue raw n) as [[value mode]|e]; [|done].
  destruct (match mode with quoteModeSingle => _ | _ => _ end) as [v|e]; [|done].
  destruct (isWorkspaceKey key && seen) eqn:Hws; [done|]. intros [= <-]. destruct Hone as [Hone Hnone].
  cbn [fst snd] in *. split; cbn [fst snd].
  - intros k1 k2 H1 H2 W1 W2. rewrite !lookup_insert_is_Some in *.
    destruct (decide (key = k1)) as [<-|N1], (decide (key = k2)) as [<-|N2]; [done| | |].
    + destruct H2 as [|[_ H2]]; [done|]. rewrite W1 in Hws. simpl in Hws. by rewrite (Hnone Hws k2 H2) in W2.
    + destruct H1 as [|[_ H1]]; [done|]. rewrite W2 in Hws. simpl in Hws. by rewrite (Hnone Hws k1 H1) in W1.
    + destruct H1 as [|[_ H1]], H2 as [|[_ H2]]; try done. by apply Hone.
  - intros [Hs Hk]%orb_false_iff k Hin. apply lookup_insert_is_Some in Hin as [<-|[_ Hin]]; [done|by apply Hnone].
Qed.

Lemma parseLines_workspace n lines st st' :
  oneWorkspace st -> parseLines ToUpper LookupEnv n lines st = Ok st' -> oneWorkspace st'.
Proof.
  revert n st. induction lines as [|line lines IH]; intros n st Hone; simpl; [by intros [= <-]|].
  destruct (parseLine _ _ n line st) as [st1|e] eqn:E; [|done]. apply IH. by eapply parseLine_workspace.
Qed.

Lemma parseDotEnv_workspace path data values :
  parseDotEnv ToUpper LookupEnv path data = Ok values -> oneWorkspace (values, true).
Proof.
  unfold parseDotEnv. destruct (scanLines _ _) as [lines long].
  destruct (parseLines _ _ 1 lines _) as [[v s]|e] eqn:E; [|done]. apply parseLines_workspace in E as [H1 _].
  - destruct long; [done|]. by intros [= <-].
  - split; simpl; [intros k1 k2 [? H1]|intros _ k [? H1]]; by apply lookup_empty_Some in H1.
Qed.

Lemma filter_perm {A} (f : A -> bool) (l l' : list A) : l ≡ₚ l' -> List.filter f l ≡ₚ List.filter f l'.
Proof.
  induction 1 as [|x l l' _ IH|x y l|]; simpl; [done| | |by etrans].
  - destruct (f x); [by constructor|done].
  - destruct (f x), (f y); try done. by constructor.
Qed.

(** The name of a dotenv file's environment is determined by the file: the
    iteration over its values, in whatever order the map gives them, finds the
    same [workspace] entry, as a file that has two is refused. *)
Theorem environment_name_order path file data values order :
  parseDotEnv ToUpper LookupEnv file data = Ok values -> order ≡ₚ map_to_list values ->
  deriveDotEnvName order path = deriveDotEnvName (map_to_list values) path.
Proof.
  intros [Hone _]%parseDotEnv_workspace Hp. cbn [fst] in Hone. unfold deriveDotEnvName.
  assert (Heq : List.filter (fun kv => isWorkspaceKey (kv.1)) order =
                List.filter (fun kv => isWorkspaceKey (kv.1)) (map_to_list values)); [|unfold workspaceName; by rewrite Heq].
  apply (filter_perm (fun kv => isWorkspaceKey (kv.1))) in Hp. revert Hp.
  destruct (List.filter _ (map_to_list values)) as [|a [|b l]] eqn:E; intros Hp.
  - by apply Permutation_nil_r in Hp.
  - by apply Permutation_singleton_r in Hp.
  - exfalso. assert (Hin : forall x, x ∈ a :: b :: l -> x ∈ map_to_list values /\ isWorkspaceKey x.1 = true).
    { intros x. rewrite <- E, !list_elem_of_In. intros [? ?]%List.filter_In. done. }
    assert (Hnd : NoDup (a :: b :: l)).
    { rewrite <- E. apply NoDup_ListNoDup, List.NoDup_filter, NoDup_ListNoDup, NoDup_map_to_list. }
    destruct (Hin a) as [Ha Wa]; [set_solver|]. destruct (Hin b) as [Hb Wb]; [set_solver|].
    destruct a as [k1 v1], b as [k2 v2]. apply elem_of_map_to_list in Ha, Hb.
    assert (k1 = k2) as -> by (apply Hone; eauto). rewrite Ha in Hb. injection Hb as ->.
    apply NoDup_cons in Hnd as [Hni _]. set_solver.
Qed.
End names.

(** In double quotes a backslash does not keep a dollar sign from being expanded,
    although the same text outside quotes does: the quotes' own escapes are
    removed first (a finding). *)
Lemma double_quoted_dollar_expands :
  let read data := @parseDotEnv Names.ascii (fun s => s) (fun _ => None) "p" data in
  read ("A=1" +:+ str [LF] +:+ "B=\$A") = Ok (list_to_map [("A", "1"); ("B", "$A")]) /\
  read ("A=1" +:+ str [LF] +:+ "B=" +:+ str [DQUOTE] +:+ "\$A" +:+ str [DQUOTE]) =
    Ok (list_to_map [("A", "1"); ("B", "1")]).
Proof. split; vm_compute; reflexivity. Qed.

(** ** Concrete files *)

Lemma demo_key k :
  k = "Token" \/ k = "a_b" -> @validKey Names.ascii k.
Proof.
  intros [-> | ->]; constructor; try (vm_compute; reflexivity); try discriminate; try (vm_compute; set_solver);
    try (split; discriminate); intros rest; split; reflexivity.
Qed.

Lemma dotenv_roundtrip_witness :
  let kvs := [("Token", "p$a\n" +:+ str [DQUOTE; LF; BACKSLASH; DOLLAR]); ("a_b", " x "); ("Token", "${Q}")] in
  @parseDotEnv Names.ascii (fun s => s) (fun _ => None) "p" (writeFile kvs) =
  Ok (list_to_map [("Token", "${Q}"); ("a_b", " x ")]).
Proof.
  intros kvs. apply (@dotenv_roundtrip Names.ascii (fun s => s) (fun _ => None) "p" kvs).
  repeat constructor; try (apply demo_key; auto); vm_compute; reflexivity.
Defined.

Lemma environment_name_order_witness :
  @deriveDotEnvName Names.ascii [("a_b", ""); ("WORKSPACE", "stage"); ("c", "3")] ".env" = "stage".
Proof.
  rewrite (@environment_name_order Names.ascii (fun s => s) (fun _ => None) ".env" ".env"
    ("a_b=" +:+ str [LF] +:+ "WORKSPACE=stage" +:+ str [LF] +:+ "c=3")
    (list_to_map [("a_b", ""); ("WORKSPACE", "stage"); ("c", "3")]));
    [vm_compute; reflexivity|vm_compute; reflexivity|].
  symmetry. apply map_to_list_to_map. vm_compute. repeat constructor; set_solver.
Defined.

