(* ===== verification/Catalog.v ===== *)
(** * Environment catalogs (src/internal/vars/catalog.go, selection.go, scope.go, targets.go, intent.go)

    A catalog is the selectable environments of one file: named environments, or
    groups of which one profile each is chosen.  It is built with checks of its
    names, selections are resolved against it, and a resolved environment has its
    merged values, a label and a scope key that owns persisted state.

    The order in which Go's [range] visits a map is the function [iter], any
    permutation of the entries; SHA-256 in hexadecimal is [sha256]. *)
From stdpp Require Import base list strings gmap sorting.
From Stdlib Require Import Ascii ZArith Lia.
From S2P Require Import Prelude GoStd GoPath Names.

Open Scope string_scope.
Open Scope nat_scope.
Open Scope list_scope.

Module Catalog.

Definition SharedEnvKey : string := "$shared".
Definition GroupsEnvKey : string := "$groups".
Definition DefaultEnvKey : string := "$default".

(** A variable map and [EnvironmentSet]. *)
Notation vals := (gmap string string).
Notation EnvironmentSet := (gmap string (gmap string string)).

Record Group := mkGroup { GName : string; GDefault : string; Profiles : EnvironmentSet }.

(** [entry] *)
Definition entry : Type := string * gmap string string.

Record Catalog := mkCatalog { envs : list entry; groups : list Group; shared : vals; source : string }.

(** The zero value. *)
Definition empty : Catalog := mkCatalog [] [] ∅ "".

Record Selection := mkSel { sname : string; profiles : vals }.

Record Environment := mkEnv { values : vals; label : string; scope : string; sel : Selection }.

(** A permutation of a map's entries. *)
Definition Iter : Type := forall A : Type, gmap string A -> list (string * A).
Definition legalIter (iter : Iter) : Prop := forall A (m : gmap string A), iter A m ≡ₚ map_to_list m.

Section catalog.
Context {unicode : Unicode} (iter : Iter) (sha256 : string -> string).

Definition norm (s : string) : string := NameKey s.

Definition IsReservedEnvironment (name : string) : bool :=
  let n := norm name in
  bool_decide (n = SharedEnvKey) || bool_decide (n = GroupsEnvKey) || bool_decide (n = DefaultEnvKey).

Definition reservedName (kind name : string) : string := kind +:+ " name " +:+ quote name +:+ " is reserved".

(** [names.add]: the names seen so far, by key. *)
Definition addName (kind : string) (seen : vals) (raw : string) : res string (string * vals) :=
  let name := TrimSpace raw in
  let key := norm name in
  if bool_decide (key = "") then Er (kind +:+ " name cannot be blank")
  else match seen !! key with
       | Some prev => Er ("duplicate " +:+ kind +:+ " names " +:+ quote prev +:+ " and " +:+ quote name)
       | None => Ok (name, <[key := name]> seen)
       end.

(** [mapName]: the first name the iteration meets. *)
Definition mapName {A} (m : gmap string A) (name : string) : option string :=
  snd <$> list_find (fun n => EqualFold n (TrimSpace name) = true) (map fst (iter A m)).

(** refs.go: [EnvRefKey] *)
Definition EnvRefKey (raw : string) : option string :=
  let trimmed := TrimSpace raw in
  if (String.length trimmed <? 4) || negb (EqualFold (str (take 4 (bytes trimmed))) "env:") then None
  else Some (TrimSpace (str (drop 4 (bytes trimmed)))).

(** [checkEnvRefs], [None] for no error. *)
Fixpoint checkRefs (sc : string) (vs : vals) (names : list string) : option string :=
  match names with
  | [] => None
  | name :: names' =>
      if bool_decide (EnvRefKey (default "" (vs !! name)) = Some "")
      then Some (sc +:+ ": " +:+ quote name +:+ " has an env: reference with no variable name")
      else checkRefs sc vs names'
  end.
Definition checkEnvRefs (sc : string) (vs : vals) : option string := checkRefs sc vs (sorted_keys vs).

Fixpoint checkAll (l : list (string * vals)) : option string :=
  match l with
  | [] => None
  | (sc, vs) :: l' => match checkEnvRefs sc vs with Some e => Some e | None => checkAll l' end
  end.

(** [mergeValues] and [collapseNames] *)
Definition mergeValues (layers : list vals) : vals := Map (foldl (fun m layer => SetMap layer m) ∅ layers).
Definition collapseNames (vs : vals) : vals := Map (CollectNames vs).

(** [slices.SortFunc] with [cmpFold]; the names sorted differ in lower case, so
    how it treats equal ones does not matter. *)
Definition foldLe (a b : string) : Prop := str_le (ToLower a) (ToLower b) = true.
#[export] Instance foldLe_dec a b : Decision (foldLe a b).
Proof. unfold foldLe. apply _. Defined.
Definition byName {A} (f : A -> string) (a b : A) : Prop := foldLe (f a) (f b).
#[export] Instance byName_dec {A} (f : A -> string) a b : Decision (byName f a b).
Proof. unfold byName. apply _. Defined.

(** [NewCatalog]: the loop over the set. *)
Fixpoint catalogLoop (order : list entry) (seen : vals) (out : list entry) (sh : option vals) :
    res string (list entry * option vals) :=
  match order with
  | [] => Ok (out, sh)
  | (raw, vs) :: order' =>
      match addName "environment" seen raw with
      | Er e => Er e
      | Ok (name, seen) =>
          if bool_decide (norm name = SharedEnvKey) then catalogLoop order' seen out (Some vs)
          else if IsReservedEnvironment name then Er (reservedName "environment" name)
          else catalogLoop order' seen (out ++ [(name, vs)]) sh
      end
  end.

Definition NewCatalog (set : EnvironmentSet) : res string Catalog :=
  match catalogLoop (iter _ set) ∅ [] None with
  | Er e => Er e
  | Ok (es, sh) =>
      if bool_decide (is_Some sh) && bool_decide (es = []) then
        Er ("environment set defines only " +:+ quote SharedEnvKey +:+ "; add an environment")
      else
        let sorted := merge_sort (byName fst) es in
        let sharedValues := default ∅ sh in
        match checkAll ((SharedEnvKey, sharedValues) :: sorted) with
        | Some e => Er e
        | None => Ok (mkCatalog (map (fun e => (e.1, mergeValues [sharedValues; e.2])) sorted) [] ∅ "")
        end
  end.

(** [buildGroup] *)
Fixpoint profileLoop (group : string) (order : list entry) (seen : vals) (set : EnvironmentSet) :
    res string EnvironmentSet :=
  match order with
  | [] => Ok set
  | (raw, vs) :: order' =>
      match addName "profile" seen raw with
      | Er e => Er ("group " +:+ quote group +:+ ": " +:+ e)
      | Ok (p, seen) =>
          if IsReservedEnvironment p then Er (reservedName "profile" p)
          else profileLoop group order' seen (<[p := vs]> set)
      end
  end.

Definition groupDefault (name : string) (set : EnvironmentSet) (dflt : string) : res string string :=
  let def := TrimSpace dflt in
  if bool_decide (def = "") then
    match iter _ set with
    | [(p, _)] => Ok p
    | _ => Er ("group " +:+ quote name +:+ " requires " +:+ quote DefaultEnvKey)
    end
  else match mapName set def with
       | Some p => Ok p
       | None => Er ("default profile " +:+ quote def +:+ " does not exist in group " +:+ quote name)
       end.

Definition buildGroup (g : Group) (seen : vals) : res string (Group * vals) :=
  match addName "group" seen (GName g) with
  | Er e => Er e
  | Ok (name, seen) =>
      if IsReservedEnvironment name then Er (reservedName "group" name)
      else if bool_decide ("="%char ∈ bytes name) then Er ("group name " +:+ quote name +:+ " cannot contain '='")
      else if bool_decide (Profiles g = ∅) then Er ("group " +:+ quote name +:+ " requires a profile")
      else
        match profileLoop name (iter _ (Profiles g)) ∅ ∅ with
        | Er e => Er e
        | Ok set =>
            match groupDefault name set (GDefault g) with
            | Er e => Er e
            | Ok def => Ok (mkGroup name def set, seen)
            end
        end
  end.

Fixpoint buildGroups (gs : list Group) (seen : vals) : res string (list Group) :=
  match gs with
  | [] => Ok []
  | g :: gs' =>
      match buildGroup g seen with
      | Er e => Er e
      | Ok (g, seen) => match buildGroups gs' seen with Ok out => Ok (g :: out) | Er e => Er e end
      end
  end.

(** [collision]: whether two profiles share a name in lower case; which one is
    reported depends on the iteration. *)
Definition collision (a b : vals) : bool :=
  existsb (fun n => bool_decide (ToLower n ∈ map ToLower (sorted_keys a))) (sorted_keys b).

Definition groupsCollide (a b : Group) : bool :=
  existsb (fun p => existsb (fun q => collision p.2 q.2) (map_to_list (Profiles b))) (map_to_list (Profiles a)).

(** [checkCollisions] *)
Fixpoint checkCollisions (gs : list Group) : bool :=
  match gs with
  | [] => false
  | g :: gs' => existsb (groupsCollide g) gs' || checkCollisions gs'
  end.

(** The scopes whose references are checked: the shared one, then every profile. *)
Definition groupScopes (gs : list Group) : list (string * vals) :=
  mjoin (map (fun g => map (fun p => (GName g +:+ "." +:+ p, default ∅ (Profiles g !! p))) (sorted_keys (Profiles g))) gs).

Definition NewGroupedCatalog (sh : vals) (gs : list Group) : res string Catalog :=
  if bool_decide (gs = []) then Er "grouped environments require a group"
  else
    match buildGroups gs ∅ with
    | Er e => Er e
    | Ok out =>
        let out := merge_sort (byName GName) out in
        if checkCollisions out then Er "variable collides"
        else match checkAll ((SharedEnvKey, sh) :: groupScopes out) with
             | Some e => Er e
             | None => Ok (mkCatalog [] out sh "")
             end
    end.

Definition Grouped (c : Catalog) : bool := negb (bool_decide (groups c = [])).
Definition Empty (c : Catalog) : bool := bool_decide (envs c = []) && bool_decide (groups c = []).
Definition CatalogNames (c : Catalog) : list string := map fst (envs c).

Definition findEnv (c : Catalog) (name : string) : option entry :=
  snd <$> list_find (fun e => EqualFold (e.1) (TrimSpace name) = true) (envs c).
Definition findGroup (c : Catalog) (name : string) : option Group :=
  snd <$> list_find (fun g => EqualFold (GName g) (TrimSpace name) = true) (groups c).

(** ** selection.go *)

Definition defaultEnvNames : list string := ["dev"; "default"; "local"].

Definition DefaultSelection (c : Catalog) : Selection :=
  if negb (Grouped c) then
    match omap (findEnv c) defaultEnvNames with
    | e :: _ => mkSel e.1 ∅
    | [] => mkSel (default "" (fst <$> head (envs c))) ∅
    end
  else mkSel "" (list_to_map (map (fun g => (GName g, GDefault g)) (rev (groups c)))).

(** The loop of [Select] over the profiles asked for. *)
Fixpoint selectLoop (c : Catalog) (order : list (string * string)) (seen : vals) (ps : vals) : res string vals :=
  match order with
  | [] => Ok ps
  | (rawGroup, rawProfile) :: order' =>
      match addName "selected group" seen rawGroup with
      | Er e => Er e
      | Ok (gname, seen) =>
          match findGroup c gname with
          | None => Er ("unknown environment group " +:+ quote gname)
          | Some g =>
              match mapName (Profiles g) rawProfile with
              | None => Er ("unknown profile " +:+ quote (TrimSpace rawProfile) +:+ " in group " +:+ quote (GName g))
              | Some p => selectLoop c order' seen (<[GName g := p]> ps)
              end
          end
      end
  end.

Definition Select (c : Catalog) (name : string) (ps : vals) : res string Selection :=
  if negb (Grouped c) then
    if negb (bool_decide (ps = ∅)) then Er "group selection requires grouped environments"
    else
      let name := TrimSpace name in
      if bool_decide (name = "") then Ok (DefaultSelection c)
      else match findEnv c name with
           | Some e => Ok (mkSel e.1 ∅)
           | None =>
               if bool_decide (envs c = []) then Ok (mkSel name ∅)
               else Er ("unknown environment " +:+ quote name)
           end
  else if negb (bool_decide (TrimSpace name = "")) then
    Er "environment name cannot be combined with grouped environments"
  else
    match selectLoop c (iter _ ps) ∅ (profiles (DefaultSelection c)) with
    | Ok out => Ok (mkSel "" out)
    | Er e => Er e
    end.

(** [WithGroup] and [Selection.Profile] *)
Definition WithGroup (s : Selection) (group profile : string) : Selection :=
  let name := TrimSpace group in
  let name := default name (mapName (profiles s) name) in
  mkSel "" (<[name := TrimSpace profile]> (profiles s)).

Definition ProfileOf (s : Selection) (group : string) : option string :=
  match mapName (profiles s) group with Some g => Some (default "" (profiles s !! g)) | None => None end.

(** ** scope.go *)

Definition withSource (c : Catalog) (abs : string -> option string) (path : string) : Catalog :=
  let path := TrimSpace path in
  if bool_decide (path = "") then c
  else mkCatalog (envs c) (groups c) (shared c) (Clean (default path (abs path))).

Definition scopeDigestLen : nat := 16.
Definition sourceDigest (src : string) : string := str (take scopeDigestLen (bytes (sha256 src))).

Definition flatScope (name src : string) : string :=
  if bool_decide (src = "") then "f1:" +:+ name else "f2:" +:+ name +:+ "@" +:+ sourceDigest src.

(** [writePart]: a length, a colon, the bytes. *)
Definition writePart (s : string) : string := itoa (Z.of_nat (String.length s)) +:+ ":" +:+ s.

Definition writeParts (parts : list string) : string := foldr (fun p acc => writePart p +:+ acc) "" parts.

Definition groupParts (gs : list Group) (s : Selection) : list string :=
  mjoin (map (fun g => [ToLower (GName g); ToLower (default "" (profiles s !! GName g))]) gs).

Definition groupScope (gs : list Group) (s : Selection) (src : string) : string :=
  if bool_decide (src = "") then "g1:" +:+ sha256 (writeParts (groupParts gs s))
  else "g2:" +:+ sha256 (writeParts (groupParts gs s ++ [src])).

Definition SourcedScope (sc : string) : bool := String.prefix "g2:" sc || String.prefix "f2:" sc.

(** ** Resolving *)

Fixpoint joinComma (l : list string) : string :=
  match l with [] => "" | [s] => s | s :: l' => s +:+ ", " +:+ joinComma l' end.

Definition Resolve (c : Catalog) (s : Selection) : res string Environment :=
  match Select c (sname s) (profiles s) with
  | Er e => Er e
  | Ok next =>
      if negb (Grouped c) then
        let vs := match findEnv c (sname next) with Some e => collapseNames e.2 | None => ∅ end in
        Ok (mkEnv vs (sname next) (flatScope (sname next) (source c)) next)
      else
        let chosen g := default "" (profiles next !! GName g) in
        Ok (mkEnv
          (mergeValues (shared c :: map (fun g => default ∅ (Profiles g !! chosen g)) (groups c)))
          (joinComma (map (fun g => GName g +:+ "=" +:+ chosen g) (groups c)))
          (groupScope (groups c) next (source c)) next)
  end.

(** [Intent], [Intent.Resolve] and [IntentFor] *)
Definition IntentFor (c : Catalog) (e : Environment) : string * vals :=
  if Grouped c then ("", profiles (sel e)) else (sname (sel e), ∅).
Definition ResolveIntent (c : Catalog) (i : string * vals) : option Selection :=
  match Select c i.1 i.2 with Ok s => Some s | Er _ => None end.

(** [Target.Name] and [CompareTargets] *)
Definition targetName (t : string * Environment) : string := if bool_decide (t.1 = "") then label t.2 else t.1.

Fixpoint targetLoop (c : Catalog) (base : Selection) (group : string) (names : list string) :
    res string (list (string * Environment)) :=
  match names with
  | [] => Ok []
  | name :: names' =>
      let s := if negb (bool_decide (group = "")) then Select c "" (profiles (WithGroup base group name))
               else Select c name ∅ in
      match s with
      | Er e => Er e
      | Ok s =>
          match Resolve c s with
          | Er e => Er e
          | Ok env =>
              let p := if negb (bool_decide (group = "")) then default "" (ProfileOf (sel env) group) else "" in
              match targetLoop c base group names' with
              | Ok out => Ok ((p, env) :: out)
              | Er e => Er e
              end
          end
      end
  end.

Definition CompareTargets (c : Catalog) (base : Selection) (group baseline : string) (names : list string) :
    res string (list (string * Environment)) :=
  let group := TrimSpace group in
  let baseline := TrimSpace baseline in
  if Grouped c && bool_decide (group = "") then Er "grouped compare requires a group"
  else if negb (Grouped c) && negb (bool_decide (group = "")) then Er "compare group requires grouped environments"
  else
    match (if Grouped c then match findGroup c group with Some g => Ok (GName g) | None => Er ("unknown environment group " +:+ quote group) end
           else Ok group) with
    | Er e => Er e
    | Ok group =>
        match targetLoop c base group names with
        | Er e => Er e
        | Ok out =>
            if bool_decide (baseline = "") || existsb (fun t => EqualFold (targetName t) baseline) out then Ok out
            else Er ("compare baseline " +:+ quote baseline +:+ " must match a compare target")
        end
    end.

End catalog.
End Catalog.
