(* ===== verification/CatalogFacts.v ===== *)
(** * The correctness of environment catalogs

    Catalogs are well formed, so that every name in them is found by any of its
    spellings and by one entry only; selections are stable, environments are
    their layers, and scope keys tell environments apart.

    [fold_lower] states what lookups (by [EqualFold]) need of names compared by
    [ToLower]: it holds of the names of most scripts, and [fold_ambiguity] shows
    what happens where it does not. *)
From stdpp Require Import base list strings gmap sorting.
From Stdlib Require Import Ascii ZArith Lia.
From S2P Require Import Prelude GoStd GoPath Text Names Catalog.

Open Scope string_scope.
Open Scope nat_scope.
Open Scope list_scope.

Import Catalog.

Section facts.
Context {unicode : Unicode} (iter : Iter).
Context (iter_legal : legalIter iter).
Context (fold_lower : forall a b, EqualFold a b = bool_decide (ToLower a = ToLower b)) (lower_nil : ToLower "" = "").

(** ** Names *)

(** A name as catalogs keep it. *)
Definition goodName (n : string) : Prop := TrimSpace n = n /\ norm n <> "".

Lemma norm_trim n : norm (TrimSpace n) = norm n.
Proof. unfold norm, NameKey. by rewrite TrimSpace_idem. Qed.

Lemma matches_iff n name : goodName n -> EqualFold n (TrimSpace name) = true <-> norm n = norm name.
Proof.
  intros [Ht _]. rewrite fold_lower, bool_decide_eq_true. unfold norm, NameKey. by rewrite Ht.
Qed.

Definition wfNames {A} (f : A -> string) (l : list A) : Prop :=
  Forall (fun x => goodName (f x)) l /\ NoDup ((fun x => norm (f x)) <$> l).

(** The keys of a map of profiles. *)
Definition wfKeys {A} (m : gmap string A) : Prop :=
  (forall k, is_Some (m !! k) -> goodName k) /\
  (forall k1 k2, is_Some (m !! k1) -> is_Some (m !! k2) -> norm k1 = norm k2 -> k1 = k2).

Lemma wfNames_inj {A} (f : A -> string) l x y :
  wfNames f l -> x ∈ l -> y ∈ l -> norm (f x) = norm (f y) -> x = y.
Proof.
  intros [_ Hnd] [i Hi]%list_elem_of_lookup [j Hj]%list_elem_of_lookup Heq.
  assert (i = j) as ->; [|congruence].
  apply (NoDup_lookup _ i j (norm (f x)) Hnd); rewrite list_lookup_fmap; [by rewrite Hi|rewrite Hj; simpl; congruence].
Qed.

(** A lookup by name finds the entry of that name. *)
Lemma find_name {A} (f : A -> string) l name x :
  wfNames f l ->
  (snd <$> list_find (fun y => EqualFold (f y) (TrimSpace name) = true) l) = Some x <->
  x ∈ l /\ norm (f x) = norm name.
Proof.
  intros Hwf. pose proof Hwf as [Hgood _]. rewrite Forall_forall in Hgood. split.
  - intros ([i y] & (Hi & He & _)%list_find_Some & ->)%fmap_Some. simpl.
    apply list_elem_of_lookup_2 in Hi. split; [done|]. apply (matches_iff (f y)); auto.
  - intros [Hx Hn]. destruct (list_find _ l) as [[i y]|] eqn:E.
    + apply list_find_Some in E as (Hi & He & _). apply list_elem_of_lookup_2 in Hi. simpl. f_equal.
      apply matches_iff in He; [|auto]. apply (wfNames_inj f l); [done..|congruence].
    + exfalso. apply list_find_None in E. rewrite Forall_forall in E. apply (E x Hx). apply matches_iff; auto.
Qed.

Lemma iter_keys {A} (m : gmap string A) n : n ∈ map fst (iter A m) <-> is_Some (m !! n).
Proof.
  rewrite (list_elem_of_fmap fst). split.
  - intros ([k v] & -> & Hin). exists v. apply elem_of_map_to_list. by rewrite <- (iter_legal A m).
  - intros [v Hv]. exists (n, v). split; [done|]. rewrite (iter_legal A m). by apply elem_of_map_to_list.
Qed.

Lemma wfKeys_names {A} (m : gmap string A) : wfKeys m -> wfNames id (map fst (iter A m)).
Proof.
  intros [Hg Hi]. split.
  - apply Forall_forall. intros n Hn%iter_keys. by apply Hg.
  - unfold id. apply NoDup_fmap_2_strong.
    + intros x y Hx%iter_keys Hy%iter_keys. by apply Hi.
    + change (map fst (iter A m)) with (fst <$> iter A m). rewrite (iter_legal A m). apply NoDup_fst_map_to_list.
Qed.

Lemma mapName_iff {A} (m : gmap string A) name n :
  wfKeys m -> mapName iter m name = Some n <-> is_Some (m !! n) /\ norm n = norm name.
Proof.
  intros Hwf. unfold mapName. rewrite <- iter_keys. apply (find_name id), wfKeys_names, Hwf.
Qed.

Lemma addName_Ok kind seen raw name seen' :
  addName kind seen raw = Ok (name, seen') ->
  name = TrimSpace raw /\ goodName name /\ seen !! norm name = None /\ seen' = <[norm name := name]> seen.
Proof.
  unfold addName. case_bool_decide as Hk; [done|]. destruct (seen !! _) eqn:E; [done|]. intros [= <- <-].
  split_and!; [done|split; [apply TrimSpace_idem|done]|done|done].
Qed.

Lemma addName_good kind seen n :
  goodName n -> seen !! norm n = None -> addName kind seen n = Ok (n, <[norm n := n]> seen).
Proof. intros [Ht Hn] Hs. unfold addName. by rewrite Ht, bool_decide_eq_false_2, Hs. Qed.

(** The names added are distinct. *)
Definition seenOf (seen : vals) (names : list string) : Prop :=
  forall n, n ∈ names -> is_Some (seen !! norm n).

(** ** Well-formed catalogs *)

Definition wfGroup (g : Group) : Prop := wfKeys (Profiles g) /\ is_Some (Profiles g !! GDefault g).

Record wfCatalog (c : Catalog) : Prop := {
  wf_envs : wfNames fst (envs c);
  wf_groups : wfNames GName (groups c);
  wf_profiles : Forall wfGroup (groups c);
  wf_kind : envs c = [] \/ groups c = []
}.

Lemma wfNames_perm {A} (f : A -> string) l l' : l ≡ₚ l' -> wfNames f l -> wfNames f l'.
Proof. intros Hp [Hg Hn]. split; [by rewrite <- Hp|]. by rewrite <- Hp. Qed.

Lemma wfNames_snoc {A} (f : A -> string) l x :
  wfNames f l -> goodName (f x) -> (forall y, y ∈ l -> norm (f y) <> norm (f x)) -> wfNames f (l ++ [x]).
Proof.
  intros [Hg Hn] Hx Hne. split; [apply Forall_app; auto|]. rewrite fmap_app. apply NoDup_app. split_and!; [done| |apply NoDup_singleton].
  intros k (y & -> & Hy)%list_elem_of_fmap. simpl. rewrite list_elem_of_singleton. by apply Hne.
Qed.

Lemma catalogLoop_wf order seen out sh es sh' :
  wfNames fst out -> seenOf seen (map fst out) -> catalogLoop order seen out sh = Ok (es, sh') -> wfNames fst es.
Proof.
  revert seen out sh. induction order as [|[raw vs] order IH]; intros seen out sh Hwf Hseen; simpl; [by intros [= <- <-]|].
  destruct (addName _ _ _) as [[name seen']|] eqn:E; [|done]. apply addName_Ok in E as (-> & Hgood & Hnew & ->).
  assert (Hseen' : seenOf (<[norm (TrimSpace raw) := TrimSpace raw]> seen) (map fst out)).
  { intros n Hn. destruct (decide (norm (TrimSpace raw) = norm n)) as [->|]; [by rewrite lookup_insert_eq|].
    rewrite lookup_insert_ne by done. by apply Hseen. }
  case_bool_decide; [by apply IH|]. destruct (IsReservedEnvironment _); [done|]. apply IH.
  - apply wfNames_snoc; [done..|]. intros y Hy Heq. assert (Hin : is_Some (seen !! norm (fst y))).
    { apply Hseen. apply (list_elem_of_fmap_2 fst), Hy. }
    simpl in Heq. rewrite Heq, Hnew in Hin. by destruct Hin.
  - intros n. rewrite map_app. intros [Hn|Hn]%elem_of_app; [by apply Hseen'|].
    apply list_elem_of_singleton in Hn as ->. simpl. by rewrite lookup_insert_eq.
Qed.

Lemma NewCatalog_wf set c : NewCatalog iter set = Ok c -> wfCatalog c.
Proof.
  unfold NewCatalog. destruct (catalogLoop _ _ _ _) as [[es sh]|] eqn:E; [|done].
  destruct (_ && _); [done|]. destruct (checkAll _) as [e|]; [done|]. intros [= <-].
  apply catalogLoop_wf in E; [|split; [constructor|apply NoDup_nil_2]|by intros n []%elem_of_nil].
  constructor; simpl; [|split; [constructor|apply NoDup_nil_2]|constructor|by right].
  apply (wfNames_perm _ _ (merge_sort (byName fst) es)) in E; [|symmetry; apply merge_sort_Permutation].
  destruct E as [Hg Hn]. split.
  - apply Forall_map. eapply Forall_impl; [exact Hg|]. by intros [].
  - rewrite <- list_fmap_compose. exact Hn.
Qed.

Lemma profileLoop_wf group order seen set out :
  wfKeys set -> (forall k, is_Some (set !! k) -> is_Some (seen !! norm k)) ->
  profileLoop group order seen set = Ok out -> wfKeys out.
Proof.
  revert seen set. induction order as [|[raw vs] order IH]; intros seen set Hwf Hseen; simpl; [by intros [= <-]|].
  destruct (addName _ _ _) as [[p seen']|] eqn:E; [|done]. apply addName_Ok in E as (-> & Hgood & Hnew & ->).
  destruct (IsReservedEnvironment _); [done|]. apply IH.
  - destruct Hwf as [Hg Hi]. split.
    + intros k Hk%lookup_insert_is_Some. destruct Hk as [<-|[_ Hk]]; [done|by apply Hg].
    + assert (Hfresh : forall k, is_Some (set !! k) -> norm k <> norm (TrimSpace raw)).
      { intros k Hk Heq. apply Hseen in Hk. rewrite Heq, Hnew in Hk. by destruct Hk. }
      intros k1 k2 H1%lookup_insert_is_Some H2%lookup_insert_is_Some Heq.
      destruct H1 as [<-|[_ H1]], H2 as [<-|[_ H2]]; [done| | |by apply Hi].
      * by destruct (Hfresh k2 H2).
      * by destruct (Hfresh k1 H1).
  - intros k Hk%lookup_insert_is_Some. destruct Hk as [<-|[_ Hk]]; [by rewrite lookup_insert_eq|].
    apply Hseen in Hk. destruct (decide (norm (TrimSpace raw) = norm k)) as [->|]; [by rewrite lookup_insert_eq|].
    by rewrite lookup_insert_ne.
Qed.

Lemma groupDefault_in name set dflt p :
  wfKeys set -> groupDefault iter name set dflt = Ok p -> is_Some (set !! p).
Proof.
  intros Hwf. unfold groupDefault. case_bool_decide.
  - destruct (iter _ set) as [|[q vs] [|]] eqn:E; try done. intros [= <-]. apply iter_keys. rewrite E. apply list_elem_of_here.
  - destruct (mapName iter set _) eqn:E; [|done]. intros [= <-]. by apply mapName_iff in E as [? _].
Qed.

Lemma buildGroup_wf g seen g' seen' :
  buildGroup iter g seen = Ok (g', seen') ->
  wfGroup g' /\ goodName (GName g') /\ seen !! norm (GName g') = None /\ seen' = <[norm (GName g') := GName g']> seen.
Proof.
  unfold buildGroup. destruct (addName _ _ _) as [[name seen1]|] eqn:E; [|done].
  apply addName_Ok in E as (-> & Hgood & Hnew & ->).
  destruct (IsReservedEnvironment _); [done|]. case_bool_decide; [done|]. case_bool_decide; [done|].
  destruct (profileLoop _ _ _ _) as [set|] eqn:Ep; [|done].
  destruct (groupDefault _ _ _ _) as [def|] eqn:Ed; [|done]. intros [= <- <-]. simpl.
  assert (Hwf : wfKeys set).
  { eapply profileLoop_wf; [| |exact Ep]; [split|]; intros k; [intros [? Hk]|intros k2 [? Hk]|intros [? Hk]];
      by apply lookup_empty_Some in Hk. }
  split_and!; [split; [done|by eapply groupDefault_in]|done..].
Qed.

Lemma buildGroups_wf gs seen out :
  buildGroups iter gs seen = Ok out ->
  wfNames GName out /\ Forall wfGroup out /\ forall g, g ∈ out -> seen !! norm (GName g) = None.
Proof.
  revert seen out. induction gs as [|g gs IH]; intros seen out; simpl.
  - intros [= <-]. split_and!; [split; [constructor|apply NoDup_nil_2]|constructor|by intros ? []%elem_of_nil].
  - destruct (buildGroup iter g seen) as [[g' seen']|] eqn:E; [|done].
    destruct (buildGroups iter gs seen') as [out'|] eqn:E'; [|done]. intros [= <-].
    apply buildGroup_wf in E as (Hwf & Hgood & Hnew & ->). destruct (IH _ _ E') as ([Hg Hn] & Hall & Hfresh).
    assert (Hfresh' : forall h, h ∈ out' -> norm (GName h) <> norm (GName g') /\ seen !! norm (GName h) = None).
    { intros h Hh%Hfresh. by apply lookup_insert_None in Hh as [? ?]. }
    split_and!.
    + split; [by constructor|]. simpl. constructor; [|done].
      intros (h & Heq & Hh)%list_elem_of_fmap. by apply Hfresh' in Hh as [? _].
    + by constructor.
    + intros h [->|Hh]%elem_of_cons; [done|by apply Hfresh'].
Qed.

Lemma NewGroupedCatalog_wf sh gs c : NewGroupedCatalog iter sh gs = Ok c -> wfCatalog c.
Proof.
  unfold NewGroupedCatalog. case_bool_decide; [done|]. destruct (buildGroups _ _ _) as [out|] eqn:E; [|done].
  destruct (checkCollisions _); [done|]. destruct (checkAll _); [done|]. intros [= <-].
  apply buildGroups_wf in E as (Hn & Hp & _). pose proof (merge_sort_Permutation (byName GName) out) as Hperm.
  constructor; simpl; [split; [constructor|apply NoDup_nil_2]| | |by left].
  - by apply (wfNames_perm _ out).
  - by rewrite Hperm.
Qed.

Lemma withSource_wf c abs path : wfCatalog c -> wfCatalog (withSource c abs path).
Proof. intros [? ? ? ?]. unfold withSource. case_bool_decide; by constructor. Qed.

(** ** Selections *)

(** A selection a catalog can be asked for again: its name, or a profile of
    each of its groups. *)
Definition stable (c : Catalog) (s : Selection) : Prop :=
  if Grouped c then
    sname s = "" /\ (forall k, is_Some (profiles s !! k) -> exists g, g ∈ groups c /\ GName g = k) /\
    forall g, g ∈ groups c -> exists p, profiles s !! GName g = Some p /\ is_Some (Profiles g !! p)
  else
    profiles s = ∅ /\
    match envs c with [] => TrimSpace (sname s) = sname s | _ => exists e, e ∈ envs c /\ e.1 = sname s end.

Lemma findEnv_iff c name e : wfCatalog c -> findEnv c name = Some e <-> e ∈ envs c /\ norm e.1 = norm name.
Proof. intros [Hwf _ _ _]. apply (find_name fst), Hwf. Qed.
Lemma findGroup_iff c name g : wfCatalog c -> findGroup c name = Some g <-> g ∈ groups c /\ norm (GName g) = norm name.
Proof. intros [_ Hwf _ _]. apply (find_name GName), Hwf. Qed.

Lemma DefaultSelection_stable c : wfCatalog c -> stable c (DefaultSelection c).
Proof.
  intros Hwf. unfold stable, DefaultSelection. destruct (Grouped c) eqn:Hg; cbn [negb].
  - simpl. split; [done|]. pose proof (wf_groups c Hwf) as Hn. pose proof (wf_profiles c Hwf) as Hp.
    rewrite Forall_forall in Hp. split.
    + intros k [p Hk]. apply elem_of_list_to_map_2 in Hk. change (map ?f ?l) with (f <$> l) in Hk.
      apply list_elem_of_fmap in Hk as (g & [= -> ->] & Hin). exists g. split; [|done].
      by apply list_elem_of_In, in_rev, list_elem_of_In.
    + intros g Hin. exists (GDefault g). split; [|by apply Hp]. apply elem_of_list_to_map_1'.
      * intros p Hin'. change (map ?f ?l) with (f <$> l) in Hin'. apply list_elem_of_fmap in Hin' as (h & [= Hhn ->] & Hh).
        apply list_elem_of_In, in_rev, list_elem_of_In in Hh.
        assert (g = h) as ->; [|done]. apply (wfNames_inj GName (groups c)); [done..|congruence].
      * change (map ?f ?l) with (f <$> l). apply (list_elem_of_fmap_2 (fun g => (GName g, GDefault g))).
        by apply list_elem_of_In, in_rev; rewrite rev_involutive; apply list_elem_of_In.
  - destruct (omap (findEnv c) defaultEnvNames) as [|e es] eqn:E; simpl; (split; [done|]).
    + destruct (envs c) as [|e es]; simpl; [reflexivity|]. exists e. split; [apply list_elem_of_here|done].
    + assert (He : e ∈ omap (findEnv c) defaultEnvNames) by (rewrite E; apply list_elem_of_here).
      apply list_elem_of_omap in He as (name & _ & He). apply findEnv_iff in He as [He _]; [|done].
      destruct (envs c); [by apply elem_of_nil in He|]. by exists e.
Qed.

(** What one entry of the profiles asked for selects. *)
Definition asked (c : Catalog) (kv : string * string) : option (string * string) :=
  match findGroup c (TrimSpace kv.1) with
  | Some g => match mapName iter (Profiles g) kv.2 with Some p => Some (GName g, p) | None => None end
  | None => None
  end.

Definition overlay (ps : vals) (l : list (string * string)) : vals := foldl (fun m kp => <[kp.1 := kp.2]> m) ps l.

Lemma asked_iff c raw rp k p :
  wfCatalog c ->
  asked c (raw, rp) = Some (k, p) <->
  exists g, g ∈ groups c /\ GName g = k /\ norm k = norm raw /\ is_Some (Profiles g !! p) /\ norm p = norm rp.
Proof.
  intros Hwf. pose proof (wf_profiles c Hwf) as Hp. rewrite Forall_forall in Hp. unfold asked. simpl. split.
  - destruct (findGroup c _) as [g|] eqn:E; [|done]. destruct (mapName _ _ _) as [q|] eqn:Em; [|done].
    intros [= <- <-]. apply findGroup_iff in E as [Hg Hn]; [|done]. rewrite norm_trim in Hn.
    apply mapName_iff in Em as [Hq Hnq]; [|by apply Hp]. by exists g.
  - intros (g & Hg & <- & Hn & Hq & Hnq).
    assert (findGroup c (TrimSpace raw) = Some g) as ->.
    { apply findGroup_iff; [done|]. by rewrite norm_trim. }
    assert (mapName iter (Profiles g) rp = Some p) as ->; [|done]. apply mapName_iff; [by apply Hp|done].
Qed.

Lemma selectLoop_iff c order seen ps out :
  selectLoop iter c order seen ps = Ok out <->
  (forall kv, kv ∈ order -> norm kv.1 <> "" /\ seen !! norm kv.1 = None /\ is_Some (asked c kv)) /\
  NoDup ((fun kv => norm kv.1) <$> order) /\ out = overlay ps (omap (asked c) order).
Proof.
  revert seen ps. induction order as [|[raw rp] order IH]; intros seen ps; simpl.
  { split; [intros [= <-]|by intros (_ & _ & ->)]. split_and!; [by intros ? []%elem_of_nil|apply NoDup_nil_2|done]. }
  assert (Hraw : norm (TrimSpace raw) = norm raw) by apply norm_trim. split.
  - destruct (addName _ _ _) as [[gname seen']|] eqn:E; [|done]. apply addName_Ok in E as (-> & [_ Hk] & Hnew & ->).
    rewrite Hraw in *. unfold asked at 2. simpl. destruct (findGroup c (TrimSpace raw)) as [g|] eqn:Eg; [|done].
    destruct (mapName iter (Profiles g) rp) as [p|] eqn:Ep; [|done]. intros (Hall & Hnd & ->)%IH. split_and!.
    + intros kv [->|Hin]%elem_of_cons; [split_and!; [done..|]; unfold asked; simpl; by rewrite Eg, Ep|].
      destruct (Hall kv Hin) as (? & [? _]%lookup_insert_None & ?). done.
    + constructor; [|done]. intros (kv & Heq & Hin)%list_elem_of_fmap.
      destruct (Hall kv Hin) as (_ & [_ ?]%lookup_insert_None & _). done.
    + done.
  - intros (Hall & [Hni Hnd]%NoDup_cons & ->). destruct (Hall (raw, rp)) as (Hk & Hs & [[k p] Ha]); [apply list_elem_of_here|].
    simpl in *. unfold addName. rewrite Hraw, bool_decide_eq_false_2, Hs by done.
    pose proof Ha as Ha'. unfold asked in Ha'. simpl in Ha'. destruct (findGroup c _) as [g|]; [|done].
    destruct (mapName _ _ rp) as [q|]; [|done]. injection Ha' as <- <-. apply IH. rewrite Ha. split_and!; [|done|done].
    intros kv Hin. destruct (Hall kv) as (? & ? & ?); [by apply list_elem_of_further|]. split_and!; [done| |done].
    rewrite lookup_insert_ne; [done|]. intros Heq. apply Hni. rewrite Heq.
    by apply (list_elem_of_fmap_2 (fun kv => norm kv.1)).
Qed.

Lemma overlay_lookup l ps k :
  NoDup l.*1 ->
  (forall p, (k, p) ∈ l -> overlay ps l !! k = Some p) /\ (k ∉ l.*1 -> overlay ps l !! k = ps !! k).
Proof.
  revert ps. induction l as [|[k' p'] l IH]; intros ps Hnd; simpl.
  { split; [by intros ? []%elem_of_nil|done]. }
  apply NoDup_cons in Hnd as [Hni Hnd]. destruct (IH (<[k' := p']> ps) Hnd) as [H1 H2]. split.
  - intros p [[= -> ->]|Hin]%elem_of_cons; [|by apply H1]. rewrite H2 by done. apply lookup_insert_eq.
  - intros [Hne Hnl]%not_elem_of_cons. rewrite H2 by done. by apply lookup_insert_ne.
Qed.

Lemma omap_asked_nodup c order :
  wfCatalog c -> NoDup ((fun kv => norm kv.1) <$> order) -> NoDup (omap (asked c) order).*1.
Proof.
  intros Hwf. induction order as [|[raw rp] order IH]; simpl; [constructor|]. intros [Hni Hnd]%NoDup_cons.
  destruct (asked c (raw, rp)) as [[k p]|] eqn:E; [|by apply IH]. simpl. constructor; [|by apply IH].
  intros ([k' p'] & Heq & ([raw' rp'] & Hin & Ha)%list_elem_of_omap)%list_elem_of_fmap. simpl in Heq. subst k'.
  apply asked_iff in E as (g & _ & _ & Hn & _); [|done]. apply asked_iff in Ha as (g' & _ & _ & Hn' & _); [|done].
  apply Hni. simpl. rewrite <- Hn, Hn'. by apply (list_elem_of_fmap_2 (fun kv => norm kv.1) _ (raw', rp')).
Qed.

Lemma Select_stable c name ps s : wfCatalog c -> Select iter c name ps = Ok s -> stable c s.
Proof.
  intros Hwf. pose proof (DefaultSelection_stable c Hwf) as Hd. unfold Select. destruct (Grouped c) eqn:Hg; cbn [negb].
  - destruct (bool_decide (TrimSpace name = "")) eqn:Hb; cbn [negb]; [|done].
    destruct (selectLoop iter c _ _ _) as [out|] eqn:E; [|done]. intros [= <-].
    apply selectLoop_iff in E as (Hall & Hnd & ->). unfold stable in *. rewrite Hg in *. simpl. split; [done|].
    destruct Hd as (_ & Hdom & Hdef). pose proof (omap_asked_nodup c _ Hwf Hnd) as Hnd'.
    set (l := omap (asked c) (iter string ps)) in *.
    assert (Hl : forall k p, (k, p) ∈ l -> exists g, g ∈ groups c /\ GName g = k /\ is_Some (Profiles g !! p)).
    { intros k p ([raw rp] & _ & Ha)%list_elem_of_omap. apply asked_iff in Ha as (g & ? & ? & _ & ? & _); [|done]. by exists g. }
    assert (Hcase : forall k, (exists p, (k, p) ∈ l /\ overlay (profiles (DefaultSelection c)) l !! k = Some p) \/
                              overlay (profiles (DefaultSelection c)) l !! k = profiles (DefaultSelection c) !! k).
    { intros k. destruct (overlay_lookup l (profiles (DefaultSelection c)) k Hnd') as [H1 H2].
      destruct (decide (k ∈ l.*1)) as [([k' p] & -> & Hin)%list_elem_of_fmap|]; [left; exists p; auto|right; auto]. }
    split.
    + intros k Hk. destruct (Hcase k) as [(p & Hin & _)|Heq].
      * destruct (Hl k p Hin) as (g & ? & ? & _). by exists g.
      * rewrite Heq in Hk. by apply Hdom.
    + intros g Hin. destruct (Hcase (GName g)) as [(p & Hinp & Hp)|Heq].
      * exists p. split; [done|]. destruct (Hl _ p Hinp) as (h & Hh & Hn & Hsome).
        assert (g = h) as ->; [|done]. apply (wfNames_inj GName (groups c)); [apply Hwf|done..|congruence].
      * rewrite Heq. by apply Hdef.
  - case_bool_decide as Hps; cbn [negb]; [|done]. case_bool_decide; [by intros [= <-]|].
    destruct (findEnv c _) as [e|] eqn:E.
    + intros [= <-]. unfold stable. rewrite Hg. simpl. split; [done|]. apply findEnv_iff in E as [He _]; [|done].
      destruct (envs c); [by apply elem_of_nil in He|]. by exists e.
    + case_bool_decide as He; [|done]. intros [= <-]. unfold stable. rewrite Hg, He. simpl. split; [done|apply TrimSpace_idem].
Qed.

(** A stable selection selects itself. *)
Lemma stable_Select c s : wfCatalog c -> stable c s -> Select iter c (sname s) (profiles s) = Ok s.
Proof.
  intros Hwf. pose proof (DefaultSelection_stable c Hwf) as Hd. unfold stable, Select in *. destruct s as [name ps]. simpl.
  destruct (Grouped c) eqn:Hg; cbn [negb].
  - intros (-> & Hdom & Hall). change (TrimSpace "") with "". cbn [bool_decide negb]. rewrite bool_decide_eq_true_2 by done. cbn [negb].
    assert (Hin : forall kv, kv ∈ iter string ps -> ps !! kv.1 = Some kv.2).
    { intros [k p] Hin. rewrite (iter_legal _ ps) in Hin. by apply elem_of_map_to_list in Hin. }
    assert (Hself : forall kv, kv ∈ iter string ps -> exists g, g ∈ groups c /\ GName g = kv.1 /\ is_Some (Profiles g !! kv.2)).
    { intros [k p] Hkv%Hin. simpl in *. destruct (Hdom k) as (g & Hgin & <-); [by eexists|].
      exists g. split_and!; [done..|]. destruct (Hall g Hgin) as (p' & Hp' & Hs). by replace p with p' by congruence. }
    assert (Hask : forall kv, kv ∈ iter string ps -> asked c kv = Some kv).
    { intros [k p] Hkv. destruct (Hself _ Hkv) as (g & Hgin & Hn & Hs). apply asked_iff; [done|]. by exists g. }
    assert (Homap : omap (asked c) (iter string ps) = iter string ps).
    { clear -Hask. induction (iter string ps) as [|kv l IH]; simpl; [done|].
      rewrite (Hask kv) by apply list_elem_of_here. f_equal. apply IH. intros kv' Hkv'. by apply Hask, list_elem_of_further. }
    assert (Hndk : NoDup (iter string ps).*1) by (rewrite (iter_legal _ ps); apply NoDup_fst_map_to_list).
    assert (Hsel : selectLoop iter c (iter string ps) ∅ (profiles (DefaultSelection c)) =
                   Ok (overlay (profiles (DefaultSelection c)) (iter string ps))).
    { apply selectLoop_iff. rewrite Homap. split_and!; [| |done].
      - intros kv Hkv. rewrite (Hask kv Hkv). split_and!; [|apply lookup_empty|by eexists].
        destruct (Hself kv Hkv) as (g & Hgin & <- & _). destruct (wf_groups c Hwf) as [Hgood _].
        rewrite Forall_forall in Hgood. by apply Hgood.
      - change ((fun kv => norm kv.1) <$> iter string ps) with ((norm ∘ fst) <$> iter string ps).
        rewrite (list_fmap_compose fst norm). apply NoDup_fmap_2_strong; [|done].
        intros k1 k2 ([? p1] & -> & H1)%list_elem_of_fmap ([? p2] & -> & H2)%list_elem_of_fmap Heq.
        destruct (Hself _ H1) as (g1 & Hg1 & Hn1 & _), (Hself _ H2) as (g2 & Hg2 & Hn2 & _). simpl in *.
        assert (g1 = g2) as ->; [|congruence]. apply (wfNames_inj GName (groups c)); [apply Hwf|done..|congruence]. }
    rewrite Hsel. f_equal. f_equal. apply map_eq. intros k.
    destruct (overlay_lookup (iter string ps) (profiles (DefaultSelection c)) k Hndk) as [H1 H2].
    destruct (decide (k ∈ (iter string ps).*1)) as [([k' p] & -> & Hkv)%list_elem_of_fmap|Hno]; simpl in *.
    + rewrite (H1 p Hkv). symmetry. apply (Hin _ Hkv).
    + rewrite (H2 Hno). destruct Hd as (_ & Hddom & _).
      destruct (ps !! k) as [p|] eqn:Ep.
      * exfalso. apply Hno. apply (list_elem_of_fmap_2 fst _ (k, p)). rewrite (iter_legal _ ps). by apply elem_of_map_to_list.
      * destruct (profiles (DefaultSelection c) !! k) eqn:Edk; [|done].
        destruct (Hddom k) as (g & Hgin & <-); [by eexists|]. destruct (Hall g Hgin) as (? & ? & _). congruence.
  - intros [-> Hname]. rewrite bool_decide_eq_true_2 by done. cbn [negb]. destruct (envs c) as [|e0 es] eqn:He.
    + rewrite Hname. case_bool_decide as Hn.
      * subst name. unfold DefaultSelection. rewrite Hg, He. simpl. unfold findEnv. by rewrite He.
      * unfold findEnv. rewrite He. reflexivity.
    + destruct Hname as (e & Hin & <-). rewrite <- He in Hin. destruct (wf_envs c Hwf) as [Hgood _]. rewrite Forall_forall in Hgood.
      destruct (Hgood e Hin) as [Ht Hnn]. rewrite Ht, bool_decide_eq_false_2.
      * assert (findEnv c e.1 = Some e) as ->; [|done]. by apply findEnv_iff.
      * intros E. apply Hnn. unfold norm, NameKey. by rewrite Ht, E, lower_nil.
Qed.

(** The catalogs the program makes. *)
Inductive built : Catalog -> Prop :=
  | built_empty : built Catalog.empty
  | built_flat set c : NewCatalog iter set = Ok c -> built c
  | built_grouped sh gs c : NewGroupedCatalog iter sh gs = Ok c -> built c
  | built_source c abs path : built c -> built (withSource c abs path).

Lemma built_wf c : built c -> wfCatalog c.
Proof.
  induction 1.
  - constructor; simpl; [split; [constructor|apply NoDup_nil_2]..|constructor|by left].
  - by eapply NewCatalog_wf.
  - by eapply NewGroupedCatalog_wf.
  - by apply withSource_wf.
Qed.

Lemma Resolve_stable sha c s :
  wfCatalog c -> stable c s -> exists e, Resolve iter sha c s = Ok e /\ sel e = s.
Proof.
  intros Hwf Hst. unfold Resolve. rewrite (stable_Select c s Hwf Hst). destruct (negb (Grouped c)); by eexists.
Qed.

(** Selections are stable: what a catalog the program built selects, under
    any spelling of the names asked for and with the defaults filled in, it
    resolves without an error to an environment with this selection, and the
    selection asked for again, as it is or through the intent the environment
    stands for, gives itself. *)
Theorem selection_stable sha c name ps s :
  built c -> Select iter c name ps = Ok s ->
  Select iter c (sname s) (profiles s) = Ok s /\
  exists e, Resolve iter sha c s = Ok e /\ sel e = s /\ ResolveIntent iter c (IntentFor c e) = Some s.
Proof.
  intros Hwf%built_wf Hs. pose proof (Select_stable c name ps s Hwf Hs) as Hst.
  pose proof (stable_Select c s Hwf Hst) as Hsel. split; [done|].
  destruct (Resolve_stable sha c s Hwf Hst) as (e & He & Hse). exists e. split_and!; [done..|].
  unfold ResolveIntent, IntentFor. rewrite Hse. unfold stable in Hst. destruct (Grouped c); simpl.
  - destruct Hst as (Hn & _). rewrite Hn in Hsel. by rewrite Hsel.
  - destruct Hst as (Hp & _). rewrite Hp in Hsel. by rewrite Hsel.
Qed.

(** ** Scope keys *)


Lemma digits_colon l1 l2 (r1 r2 : list Ascii.ascii) :
  digitChars l1 -> digitChars l2 -> l1 ++ ":"%char :: r1 = l2 ++ ":"%char :: r2 -> l1 = l2 /\ r1 = r2.
Proof.
  assert (Hc : ~ ((48 <= byte_val ":"%char)%N /\ (byte_val ":"%char <= 57)%N)) by (intros [_ H]; vm_compute in H; by apply H).
  revert l2. induction l1 as [|a l1 IH]; intros [|b l2] H1 H2; simpl.
  - by intros [= ->].
  - intros [= <- _]. by apply Forall_cons in H2 as [? _].
  - intros [= -> _]. by apply Forall_cons in H1 as [? _].
  - intros [= -> E]. apply Forall_cons in H1 as [_ H1], H2 as [_ H2]. by destruct (IH l2 H1 H2 E) as [-> ->].
Qed.

(** The parts of a group scope can be told apart: each carries its length. *)
Lemma writePart_inj a b (r1 r2 : string) :
  writePart a +:+ r1 = writePart b +:+ r2 -> a = b /\ r1 = r2.
Proof.
  intros E. apply (f_equal bytes) in E. unfold writePart in E. rewrite !bytes_app in E. rewrite <- !app_assoc in E.
  change (bytes ":") with [":"%char] in E. simpl in E.
  apply digits_colon in E as [En Er]; [|apply itoa_spec; lia..].
  apply bytes_inj, itoa_inj in En; [|lia..]. apply Nat2Z.inj in En. rewrite <- !length_bytes in En.
  apply app_inj_1 in Er as [Ea Eb]; [|done]. split; by apply bytes_inj.
Qed.

Lemma writeParts_inj l1 l2 : writeParts l1 = writeParts l2 -> l1 = l2.
Proof.
  assert (Hne : forall p r, "" <> writePart p +:+ r).
  { intros p r E. apply (f_equal bytes) in E. unfold writePart in E. rewrite !bytes_app in E. simpl in E.
    apply (f_equal length) in E. rewrite !length_app in E. simpl in E. lia. }
  revert l2. induction l1 as [|a l1 IH]; intros [|b l2]; simpl; intros E; [done|by destruct (Hne _ _ E)| |].
  - symmetry in E. by destruct (Hne _ _ E).
  - apply writePart_inj in E as [-> E]. f_equal. by apply IH.
Qed.

Section scopes.
Context (sha : string -> string) (sha_length : forall s, String.length (sha s) = 64).

Lemma sourceDigest_length s : length (bytes (sourceDigest sha s)) = 16.
Proof. unfold sourceDigest. rewrite bytes_str, length_take, length_bytes, sha_length. done. Qed.

Lemma prefix_cases (a b c d : Ascii.ascii) (r1 r2 : string) :
  String a (String b (String ":" r1)) = String c (String d (String ":" r2)) -> a = c /\ b = d /\ r1 = r2.
Proof. by intros [= -> -> ->]. Qed.

(** The names of a flat scope end before its digest. *)
Lemma flat_inj n1 n2 s1 s2 :
  n1 +:+ "@" +:+ sourceDigest sha s1 = n2 +:+ "@" +:+ sourceDigest sha s2 ->
  n1 = n2 /\ sourceDigest sha s1 = sourceDigest sha s2.
Proof.
  intros E. apply (f_equal bytes) in E. rewrite !bytes_app in E.
  apply app_inj_2 in E as [En E]; [|by rewrite !length_app, !sourceDigest_length].
  apply app_inj_1 in E as [_ E]; [|done]. split; by apply bytes_inj.
Qed.

Lemma sourced_prefix s : SourcedScope ("g2:" +:+ s) = true /\ SourcedScope ("f2:" +:+ s) = true.
Proof. by destruct s. Qed.

(** What the key of a grouped environment digests. *)
Definition preimage (c : Catalog) (e : Environment) : string :=
  writeParts (groupParts (groups c) (sel e) ++ if bool_decide (source c = "") then [] else [source c]).

(** Scope keys identify environments: if two resolved environments have the
    same scope key, and the digests involved do not collide, then both come from
    flat catalogs or both from grouped ones, with the same source, and they are
    the same named environment, or the same groups with the same profiles up to
    case; and a scope key says whether it has a source. *)
Theorem scope_identity c1 c2 s1 s2 e1 e2 :
  Resolve iter sha c1 s1 = Ok e1 -> Resolve iter sha c2 s2 = Ok e2 -> scope e1 = scope e2 ->
  (sourceDigest sha (source c1) = sourceDigest sha (source c2) -> source c1 = source c2) ->
  (sha (preimage c1 e1) = sha (preimage c2 e2) -> preimage c1 e1 = preimage c2 e2) ->
  Grouped c1 = Grouped c2 /\ source c1 = source c2 /\
  (if Grouped c1 then groupParts (groups c1) (sel e1) = groupParts (groups c2) (sel e2)
   else sname (sel e1) = sname (sel e2)) /\
  SourcedScope (scope e1) = negb (bool_decide (source c1 = "")).
Proof.
  intros H1 H2 Hscope Hdig Hsha.
  assert (Hform : forall c s e, Resolve iter sha c s = Ok e ->
    scope e = if Grouped c then groupScope sha (groups c) (sel e) (source c) else flatScope sha (sname (sel e)) (source c)).
  { intros c s e. unfold Resolve. destruct (Select iter c _ _) as [next|]; [|done].
    destruct (Grouped c); by intros [= <-]. }
  rewrite (Hform _ _ _ H1), (Hform _ _ _ H2) in Hscope. rewrite (Hform _ _ _ H1). clear H1 H2 Hform.
  unfold groupScope, flatScope, preimage in *. destruct (Grouped c1), (Grouped c2);
    repeat case_bool_decide; (apply prefix_cases in Hscope as (Ha & Hb & Hrest); try discriminate);
    (split; [done|]); try (split; [congruence|]).
  - rewrite !app_nil_r in Hsha. split; [|done]. by apply Hsha, writeParts_inj in Hrest.
  - apply Hsha, writeParts_inj in Hrest. apply app_inj_tail in Hrest as [Hp Hs].
    split_and!; [done|done|apply sourced_prefix].
  - by split.
  - apply flat_inj in Hrest as [Hn Hs]. split_and!; [by apply Hdig|done|apply sourced_prefix].
Qed.
End scopes.

(** ** The values of an environment *)

(** The value a layer gives a variable name, as [SetMap] leaves it. *)
Definition layerGet (vs : vals) (x : string) : option string := Get x (SetMap vs ∅).

Definition setNames (vs : vals) (m : NameMap string) (names : list string) : NameMap string :=
  foldl (fun m name => match vs !! name with Some v => (Set_ name v m).2 | None => m end) m names.

Lemma Get_Set_any (m : NameMap string) name v x :
  NameKey x <> "" -> Get x (Set_ name v m).2 = if decide (NameKey x = NameKey name) then Some v else Get x m.
Proof.
  intros Hx. destruct (decide (NameKey name = "")) as [E|E]; [|by apply Get_Set].
  unfold Set_. rewrite decide_True by done. simpl. rewrite decide_False; [done|congruence].
Qed.

Lemma setNames_get vs m names x :
  NameKey x <> "" ->
  Get x (setNames vs m names) = match Get x (setNames vs ∅ names) with Some v => Some v | None => Get x m end.
Proof.
  intros Hx. induction names as [|n names IH] using rev_ind; [done|]. unfold setNames in *. rewrite !foldl_app. simpl.
  destruct (vs !! n) as [v|]; [|done]. rewrite !Get_Set_any by done. by case_decide.
Qed.

Lemma Get_SetMap vs m x :
  NameKey x <> "" -> Get x (SetMap vs m) = match layerGet vs x with Some v => Some v | None => Get x m end.
Proof. apply setNames_get. Qed.

Lemma setNames_Some vs names x v :
  Get x (setNames vs ∅ names) = Some v -> exists n, vs !! n = Some v /\ NameKey n = NameKey x.
Proof.
  induction names as [|n names IH] using rev_ind; [done|]. unfold setNames in *. rewrite foldl_app. simpl.
  destruct (vs !! n) as [w|] eqn:E; [|done]. unfold Set_, Get. case_decide as Hk; [done|]. simpl.
  destruct (decide (NameKey n = NameKey x)) as [Heq|Hne].
  - rewrite Heq, lookup_insert_eq. intros [= ->]. by exists n.
  - by rewrite lookup_insert_ne.
Qed.

Lemma setNames_None vs names x n v :
  NameKey x <> "" -> n ∈ names -> vs !! n = Some v -> NameKey n = NameKey x -> is_Some (Get x (setNames vs ∅ names)).
Proof.
  intros Hx. induction names as [|n' names IH] using rev_ind; [by intros []%elem_of_nil|].
  unfold setNames in *. rewrite foldl_app. simpl. intros Hin Hv Hk. destruct (vs !! n') as [w|] eqn:E.
  - rewrite Get_Set_any by done. case_decide as Hd; [by eexists|]. apply elem_of_app in Hin as [Hin|Hin]; [by apply IH|].
    apply list_elem_of_singleton in Hin as ->. congruence.
  - apply elem_of_app in Hin as [Hin|Hin]; [by apply IH|]. apply list_elem_of_singleton in Hin as ->. congruence.
Qed.

Lemma layerGet_iff vs x :
  NameKey x <> "" -> is_Some (layerGet vs x) <-> exists n, is_Some (vs !! n) /\ NameKey n = NameKey x.
Proof.
  intros Hx. split.
  - intros [v (n & Hn & Hk)%setNames_Some]. exists n. split; [by eexists|done].
  - intros (n & [v Hv] & Hk). apply (setNames_None vs (sorted_keys vs) x n v); [done| |done..].
    apply sorted_keys_elem. by eexists.
Qed.

(** A map of names by which entries are found. *)
Definition keyed (m : NameMap string) : Prop := forall k n v, m !! k = Some (n, v) -> NameKey n = k.

Lemma setNames_keyed vs m names : keyed m -> keyed (setNames vs m names).
Proof.
  intros Hm. induction names as [|n names IH] using rev_ind; [done|]. unfold setNames in *. rewrite foldl_app. simpl.
  destruct (vs !! n) as [w|]; [|done]. unfold Set_. case_decide; [done|]. simpl.
  intros k n' v'. rewrite lookup_insert_Some. intros [[<- [= <- <-]]|[_ ?]]; [|by eapply IH].
  unfold NameKey. by rewrite TrimSpace_idem.
Qed.

Lemma Map_lookup (m : NameMap string) n v : keyed m -> Map m !! n = Some v <-> m !! NameKey n = Some (n, v).
Proof.
  intros Hm. assert (Hl : Map m = list_to_map ((map_to_list m).*2)).
  { unfold Map. f_equal. induction (map_to_list m) as [|[? []] l IH]; simpl; [done|by f_equal]. }
  rewrite Hl, <- elem_of_list_to_map.
  - rewrite list_elem_of_fmap. split.
    + intros ([k [n' v']] & [= -> ->] & Hin%elem_of_map_to_list). by rewrite (Hm _ _ _ Hin).
    + intros Hin. exists (NameKey n, (n, v)). split; [done|by apply elem_of_map_to_list].
  - rewrite <- list_fmap_compose. apply NoDup_fmap_2_strong; [|apply NoDup_map_to_list].
    intros [k1 [n1 v1]] [k2 [n2 v2]] H1%elem_of_map_to_list H2%elem_of_map_to_list. simpl. intros <-.
    pose proof (Hm _ _ _ H1). pose proof (Hm _ _ _ H2). congruence.
Qed.

(** Reading the collapsed values is reading the names. *)
Lemma layerGet_Map (m : NameMap string) x : keyed m -> NameKey x <> "" -> layerGet (Map m) x = Get x m.
Proof.
  intros Hm Hx. destruct (layerGet (Map m) x) as [v|] eqn:E.
  - apply setNames_Some in E as (n & Hn & Hk). apply Map_lookup in Hn; [|done]. unfold Get. by rewrite <- Hk, Hn.
  - unfold Get. destruct (m !! NameKey x) as [[n v]|] eqn:Em; [|done]. exfalso.
    pose proof (Hm _ _ _ Em) as Hk. assert (Hs : is_Some (layerGet (Map m) x)).
    { apply layerGet_iff; [done|]. exists n. split; [|done]. exists v. apply Map_lookup; [done|]. by rewrite Hk. }
    rewrite E in Hs. by destruct Hs.
Qed.

Definition mergedNames (layers : list vals) : NameMap string := foldl (fun m layer => SetMap layer m) ∅ layers.

Lemma mergedNames_keyed layers : keyed (mergedNames layers).
Proof.
  induction layers as [|l layers IH] using rev_ind; [done|].
  unfold mergedNames in *. rewrite foldl_app. simpl. by apply setNames_keyed.
Qed.

Lemma mergedNames_last layers1 l layers2 x v :
  NameKey x <> "" -> layerGet l x = Some v -> Forall (fun l' => layerGet l' x = None) layers2 ->
  Get x (mergedNames (layers1 ++ l :: layers2)) = Some v.
Proof.
  intros Hx Hl H2. unfold mergedNames. induction layers2 as [|l2 layers2 IH] using rev_ind.
  - rewrite foldl_app. simpl. by rewrite Get_SetMap, Hl.
  - apply Forall_app in H2 as [H2 [Hn _]%Forall_cons]. rewrite app_comm_cons, app_assoc, foldl_app. simpl.
    rewrite Get_SetMap, Hn by done. by apply IH.
Qed.

(** ** Layers do not collide *)

Lemma collision_iff a b :
  collision a b = true <-> exists n1 n2, is_Some (a !! n1) /\ is_Some (b !! n2) /\ ToLower n1 = ToLower n2.
Proof.
  unfold collision. rewrite existsb_exists. split.
  - intros (n2 & Hin & Hb%bool_decide_eq_true). apply list_elem_of_In, sorted_keys_elem in Hin.
    apply (list_elem_of_fmap ToLower) in Hb as (n1 & Heq & Hn1%sorted_keys_elem).
    by exists n1, n2.
  - intros (n1 & n2 & H1 & H2 & Heq). exists n2. split; [by apply list_elem_of_In, sorted_keys_elem|].
    apply bool_decide_eq_true. rewrite <- Heq. by apply (list_elem_of_fmap_2 ToLower), sorted_keys_elem.
Qed.

Lemma groupsCollide_iff g h :
  groupsCollide g h = true <->
  exists p q a b, Profiles g !! p = Some a /\ Profiles h !! q = Some b /\ collision a b = true.
Proof.
  unfold groupsCollide. rewrite existsb_exists. split.
  - intros ([p a] & Hp & ([q b] & Hq & Hc)%existsb_exists). apply list_elem_of_In, elem_of_map_to_list in Hp, Hq.
    by exists p, q, a, b.
  - intros (p & q & a & b & Hp & Hq & Hc). exists (p, a). split; [by apply list_elem_of_In, elem_of_map_to_list|].
    apply existsb_exists. exists (q, b). split; [by apply list_elem_of_In, elem_of_map_to_list|done].
Qed.

Lemma checkCollisions_pair gs1 g gs2 h :
  checkCollisions (gs1 ++ g :: gs2) = false -> h ∈ gs2 -> groupsCollide g h = false.
Proof.
  induction gs1 as [|g0 gs1 IH]; simpl; intros [Hc Hr]%orb_false_iff Hh; [|by apply IH].
  destruct (groupsCollide g h) eqn:E; [|done]. rewrite <- Hc. symmetry. apply existsb_exists. exists h.
  split; [by apply list_elem_of_In|done].
Qed.

Lemma built_no_collision c : built c -> checkCollisions (groups c) = false.
Proof.
  induction 1 as [|set c Hc|sh gs c Hc|c abs path _ IH].
  - done.
  - unfold NewCatalog in Hc. repeat case_match; try done. by injection Hc as <-.
  - unfold NewGroupedCatalog in Hc. case_bool_decide; [done|]. destruct (buildGroups _ _ _); [|done].
    destruct (checkCollisions _) eqn:E; [done|]. destruct (checkAll _); [done|]. injection Hc as <-. exact E.
  - unfold withSource. by case_bool_decide.
Qed.

(** The profile of a group that a selection chooses. *)
Definition chosen (g : Group) (s : Selection) : vals := default ∅ (Profiles g !! default "" (profiles s !! GName g)).

(** The variable names of the groups have no space around them. *)
Definition trimmedVars (c : Catalog) : Prop :=
  forall g p vs n, g ∈ groups c -> Profiles g !! p = Some vs -> is_Some (vs !! n) -> TrimSpace n = n.

Lemma chosen_apart c gs1 g gs2 h s x v :
  checkCollisions (groups c) = false -> trimmedVars c -> groups c = gs1 ++ g :: gs2 -> h ∈ gs2 -> NameKey x <> "" ->
  layerGet (chosen g s) x = Some v -> layerGet (chosen h s) x = None.
Proof.
  intros Hnc Htrim Hgs Hh Hx Hg. destruct (layerGet (chosen h s) x) as [w|] eqn:Ew; [|done]. exfalso.
  assert (H1 : is_Some (layerGet (chosen g s) x)) by (by eexists).
  assert (H2 : is_Some (layerGet (chosen h s) x)) by (by eexists).
  apply layerGet_iff in H1 as (n1 & Hn1 & Hk1), H2 as (n2 & Hn2 & Hk2); [|done..].
  unfold chosen in *. destruct (Profiles g !! default "" (profiles s !! GName g)) as [a|] eqn:Ea;
    [|by destruct Hn1].
  destruct (Profiles h !! default "" (profiles s !! GName h)) as [b|] eqn:Eb; [|by destruct Hn2].
  simpl in *. assert (Hc : groupsCollide g h = true).
  { apply groupsCollide_iff. do 4 eexists. split; [exact Ea|]. split; [exact Eb|]. apply collision_iff.
    exists n1, n2. split_and!; [done..|].
    assert (Hing : g ∈ groups c) by (rewrite Hgs; apply elem_of_app; right; apply list_elem_of_here).
    assert (Hinh : h ∈ groups c) by (rewrite Hgs; apply elem_of_app; right; by apply list_elem_of_further).
    rewrite <- (Htrim g _ a n1 Hing Ea Hn1), <- (Htrim h _ b n2 Hinh Eb Hn2). unfold NameKey in *. congruence. }
  rewrite Hgs in Hnc. by rewrite (checkCollisions_pair gs1 g gs2 h Hnc Hh) in Hc.
Qed.

End facts.

(** ** Concrete catalogs *)

Definition mapIter : Iter := fun A m => map_to_list m.
Definition revIter : Iter := fun A m => rev (map_to_list m).

Lemma mapIter_legal : legalIter mapIter.
Proof. by intros A m. Qed.
Lemma revIter_legal : legalIter revIter.
Proof. intros A m. unfold revIter. symmetry. apply Permutation_rev. Qed.

(** 64 characters in place of a digest's. *)
Definition demoSha (s : string) : string := str (take 64 (bytes s ++ repeat "0"%char 64)).
Lemma demoSha_length s : String.length (demoSha s) = 64.
Proof. unfold demoSha. rewrite <- length_bytes, bytes_str, length_take, length_app, repeat_length. lia. Qed.

Lemma ascii_fold a b : @EqualFold Names.ascii a b = bool_decide (@ToLower Names.ascii a = @ToLower Names.ascii b).
Proof. done. Qed.

Definition demoProfiles (l : list (string * list (string * string))) : gmap string (gmap string string) :=
  list_to_map (map (fun p => (p.1, list_to_map p.2)) l).

Definition demoGroups : list Group :=
  [mkGroup "Region" " EU" (demoProfiles [("eu ", [("zone", "e")]); ("us", [("Zone", "u"); ("tax", "7")])]);
   mkGroup "env" "" (demoProfiles [("Dev", [("URL", "d"); ("base", "b")])])].

Definition demoCatalog : Catalog :=
  match @NewGroupedCatalog Names.ascii mapIter (list_to_map [("Base", "s"); ("token", "t")]) demoGroups with
  | Ok c => c
  | Er _ => Catalog.empty
  end.

Definition demoSelection : Selection := mkSel "" (list_to_map [("Region", "us"); ("env", "Dev")]).
Definition demoResolve (s : Selection) : Environment :=
  match @Resolve Names.ascii mapIter demoSha demoCatalog s with Ok e => e | Er _ => mkEnv ∅ "" "" demoSelection end.

Lemma demo_built : @built Names.ascii mapIter demoCatalog.
Proof.
  apply (@built_grouped _ _ (list_to_map [("Base", "s"); ("token", "t")]) demoGroups). vm_compute. reflexivity.
Qed.

Lemma trimmedVars_check c :
  forallb (fun g => forallb (fun p => forallb (fun n => bool_decide (TrimSpace n.1 = n.1)) (map_to_list p.2))
    (map_to_list (Profiles g))) (groups c) = true -> trimmedVars c.
Proof.
  intros Hall g p vs n Hg Hp [v Hn].
  rewrite forallb_forall in Hall. apply list_elem_of_In, Hall in Hg as Hps.
  rewrite forallb_forall in Hps. specialize (Hps (p, vs)). cbn [snd] in Hps.
  assert (Hvs : forallb (fun n => bool_decide (TrimSpace n.1 = n.1)) (map_to_list vs) = true)
    by (apply Hps, list_elem_of_In; by apply elem_of_map_to_list).
  rewrite forallb_forall in Hvs. specialize (Hvs (n, v)). apply (bool_decide_eq_true_1 _), Hvs.
  apply list_elem_of_In. by apply elem_of_map_to_list.
Qed.

Lemma selection_stable_witness :
  exists e, @Resolve Names.ascii mapIter demoSha demoCatalog demoSelection = Ok e /\ sel e = demoSelection /\
    @ResolveIntent Names.ascii mapIter demoCatalog (IntentFor demoCatalog e) = Some demoSelection.
Proof.
  apply (@selection_stable Names.ascii mapIter mapIter_legal ascii_fold eq_refl demoSha demoCatalog ""
    {["region" := "US "]} demoSelection demo_built). vm_compute. reflexivity.
Defined.

Lemma scope_identity_witness :
  @groupParts Names.ascii (groups demoCatalog) (sel (demoResolve demoSelection)) = ["env"; "dev"; "region"; "us"] /\
  SourcedScope (scope (demoResolve demoSelection)) = false.
Proof.
  destruct (@scope_identity Names.ascii mapIter demoSha demoSha_length demoCatalog demoCatalog demoSelection
    (mkSel "" {["REGION" := "us"]}) (demoResolve demoSelection) (demoResolve (mkSel "" {["REGION" := "us"]})))
    as (_ & _ & Hparts & Hs); try (vm_compute; reflexivity).
  assert (Hg : Grouped demoCatalog = true) by (vm_compute; reflexivity). rewrite Hg in Hparts.
  split; [rewrite Hparts; vm_compute; reflexivity|rewrite Hs; vm_compute; reflexivity].
Defined.

Lemma demo_trimmed : trimmedVars demoCatalog.
Proof. apply trimmedVars_check. vm_compute. reflexivity. Qed.
Lemma demo_resolved : @Resolve Names.ascii mapIter demoSha demoCatalog demoSelection = Ok (demoResolve demoSelection).
Proof. vm_compute. reflexivity. Qed.

Lemma demo_no_token :
  Forall (fun g => @layerGet Names.ascii (chosen g (sel (demoResolve demoSelection))) "Token" = None) (groups demoCatalog).
Proof.
  assert (H : forallb (fun g => bool_decide
    (@layerGet Names.ascii (chosen g (sel (demoResolve demoSelection))) "Token" = None)) (groups demoCatalog) = true)
    by (vm_compute; reflexivity).
  rewrite forallb_forall in H. apply Forall_forall. intros g Hg.
  apply list_elem_of_In, H, bool_decide_eq_true in Hg. exact Hg.
Qed.


(** ** Two findings *)

(** A case table in which the letters s and "x" are folded together, as Unicode
    folds s and the long s, although each is its own lower case. *)
Definition foldedLetters : Unicode :=
  {| ToLower := fun s => s;
     EqualFold := fun a b => bool_decide (a = b) || (bool_decide (a ∈ ["s"; "x"]) && bool_decide (b ∈ ["s"; "x"])) |}.

(** Names are told apart by their lower case but looked up by case folding: where
    the two differ a group may have two profiles that match one name, and which
    one is selected depends on the iteration over the map (a finding). *)
Lemma fold_ambiguity :
  let build iter := @NewGroupedCatalog foldedLetters iter ∅
    [mkGroup "g" "s" (demoProfiles [("s", [("a", "1")]); ("x", [("a", "2")])])] in
  match build mapIter, build revIter with
  | Ok c1, Ok c2 => GDefault <$> groups c1 <> GDefault <$> groups c2
  | _, _ => False
  end.
Proof. vm_compute. discriminate. Qed.

(** The check for variables in two groups does not trim names although merging
    does: two groups may have one variable, and the last group's value is used
    (a finding). *)
Lemma collision_ignores_space :
  match @NewGroupedCatalog Names.ascii mapIter ∅
    [mkGroup "a" "p" (demoProfiles [("p", [("x", "1")])]); mkGroup "b" "q" (demoProfiles [("q", [("x ", "2")])])] with
  | Ok c =>
      match @Resolve Names.ascii mapIter demoSha c (@DefaultSelection Names.ascii c) with
      | Ok e => values e = {["x" := "2"]}
      | Er _ => False
      end
  | Er _ => False
  end.
Proof. vm_compute. reflexivity. Qed.
