(* ===== verification/Directive.v ===== *)
(** * Directives (src/internal/directive)

    The grammar of directive lines: the lexer of option lists, words and their
    quoting, options with repeats and aliases, calls, values and scopes, and the
    table of directives.  The lexer is the code's struct; [next] reads one token,
    its loop over runes is [nextLoop].  Last come the writers of
    src/internal/restwriter/directives.go, which the grammar reads back. *)
From stdpp Require Import base list strings gmap.
From Stdlib Require Import Ascii ZArith Lia.
From S2P Require Import Prelude GoStd GoPath Names Text.

Open Scope string_scope.
Open Scope nat_scope.
Open Scope list_scope.

Module Directive.

(** ** value.go: character classes *)

Definition isAlpha (c : Ascii.ascii) : bool :=
  ((65 <=? byte_val c) && (byte_val c <=? 90))%N || ((97 <=? byte_val c) && (byte_val c <=? 122))%N.
Definition isDigit (c : Ascii.ascii) : bool := ((48 <=? byte_val c) && (byte_val c <=? 57))%N.
Definition isIdentStart (c : Ascii.ascii) : bool := bool_decide (c = "_"%char) || isAlpha c.
Definition IsIdentRune (c : Ascii.ascii) : bool := isIdentStart c || isDigit c.
Definition IsKeyRune (c : Ascii.ascii) : bool :=
  IsIdentRune c || bool_decide (c = "-"%char) || bool_decide (c = "."%char).

(** [IsIdent]: a byte that is not ASCII is no part of an identifier, so runes and
    bytes make no difference. *)
Definition IsIdent (value : bytestr) : bool :=
  match value with [] => false | c :: r => isIdentStart c && forallb IsIdentRune r end.

(** ** lexer.go *)

Inductive nameState := inKey | inName | inText.
#[export] Instance nameState_dec : EqDecision nameState.
Proof. solve_decision. Defined.

(** A token with the span it came from. *)
Record token := mkToken { val : bytestr; tstart : nat; tend : nat }.

(** [quote] is empty for the code's rune 0; [closers] has the innermost bracket
    first. *)
Record lexer := mkLexer {
  src : bytestr;
  pos : nat;
  escapes : bool;
  tok : bytestr;
  last : rune;
  quote : rune;
  escaped : bool;
  begun : bool;
  start : nat;
  closers : list rune;
  inString : bool;
  strEsc : bool;
  state : nameState
}.

(** [&lexer{src: input, escapes: esc}] *)
Definition newLexer (esc : bool) (input : bytestr) : lexer :=
  mkLexer input 0 esc [] [] [] false false 0 [] false false inKey.

Definition set_pos (p : nat) (l : lexer) : lexer :=
  mkLexer (src l) p (escapes l) (tok l) (last l) (quote l) (escaped l) (begun l) (start l) (closers l) (inString l) (strEsc l) (state l).
Definition set_quote (q : rune) (l : lexer) : lexer :=
  mkLexer (src l) (pos l) (escapes l) (tok l) (last l) q (escaped l) (begun l) (start l) (closers l) (inString l) (strEsc l) (state l).
Definition set_escaped (b : bool) (l : lexer) : lexer :=
  mkLexer (src l) (pos l) (escapes l) (tok l) (last l) (quote l) b (begun l) (start l) (closers l) (inString l) (strEsc l) (state l).
Definition set_begun (i : nat) (l : lexer) : lexer :=
  mkLexer (src l) (pos l) (escapes l) (tok l) (last l) (quote l) (escaped l) true i (closers l) (inString l) (strEsc l) (state l).
Definition set_closers (cs : list rune) (l : lexer) : lexer :=
  mkLexer (src l) (pos l) (escapes l) (tok l) (last l) (quote l) (escaped l) (begun l) (start l) cs (inString l) (strEsc l) (state l).
Definition set_string (i e : bool) (l : lexer) : lexer :=
  mkLexer (src l) (pos l) (escapes l) (tok l) (last l) (quote l) (escaped l) (begun l) (start l) (closers l) i e (state l).
Definition set_state (s : nameState) (l : lexer) : lexer :=
  mkLexer (src l) (pos l) (escapes l) (tok l) (last l) (quote l) (escaped l) (begun l) (start l) (closers l) (inString l) (strEsc l) s.

(** [reset] leaves [start]. *)
Definition reset (l : lexer) : lexer :=
  mkLexer (src l) (pos l) (escapes l) [] [] [] false false (start l) [] false false inKey.

Definition write (r : rune) (l : lexer) : lexer :=
  mkLexer (src l) (pos l) (escapes l) (tok l ++ r) r (quote l) (escaped l) (begun l) (start l) (closers l) (inString l) (strEsc l) (state l).

Definition LBRACK : Ascii.ascii := "["%char.
Definition RBRACK : Ascii.ascii := "]"%char.
Definition LCURLY : Ascii.ascii := byte_of 123.
Definition RCURLY : Ascii.ascii := byte_of 125.
Definition LPAREN : Ascii.ascii := "("%char.
Definition RPAREN : Ascii.ascii := ")"%char.

Definition opens (l : lexer) (r : rune) : bool :=
  if isChar LBRACK r || isChar LCURLY r then isChar EQ (last l)
  else if isChar LPAREN r then bool_decide (state l = inName) && negb (isChar EQ (last l))
  else false.

Definition name (r : rune) (l : lexer) : lexer :=
  match state l with
  | inKey => if isChar EQ r && negb (bool_decide (tok l = [])) then set_state inName l else l
  | inName => if negb (asciiRune IsKeyRune r) then set_state inText l else l
  | inText => l
  end.

Definition startsValue (l : lexer) : bool := bool_decide (tok l = []) || isChar EQ (last l).

Definition isOpener (r : rune) : bool := isChar LBRACK r || isChar LCURLY r || isChar LPAREN r.

Definition push (r : rune) (l : lexer) : lexer :=
  if isChar LBRACK r then set_closers ([RBRACK] :: closers l) l
  else if isChar LCURLY r then set_closers ([RCURLY] :: closers l) l
  else if isChar LPAREN r then set_closers ([RPAREN] :: closers l) l
  else l.

Definition pop (r : rune) (l : lexer) : lexer :=
  match closers l with
  | c :: cs => if bool_decide (c = r) then set_closers cs l else l
  | [] => l
  end.

Definition group (r : rune) (l : lexer) : lexer :=
  let l := write r l in
  if inString l then
    if strEsc l then set_string true false l
    else if isChar BACKSLASH r then set_string true true l
    else if isChar DQUOTE r then set_string false false l
    else l
  else if isChar DQUOTE r then set_string true (strEsc l) l
  else if isOpener r then push r l
  else pop r l.

(** The switch of [next]; [None] when a space ends the token. *)
Definition feed (r : rune) (l : lexer) : option lexer :=
  if negb (bool_decide (closers l = [])) then Some (group r l)
  else if escaped l then
    let l := set_escaped false l in
    let l := if negb (bool_decide (quote l = [])) && negb (bool_decide (r = quote l)) && negb (isChar BACKSLASH r)
             then write [BACKSLASH] l else l in
    Some (write r l)
  else if escapes l && isChar BACKSLASH r then Some (set_escaped true l)
  else if negb (bool_decide (quote l = [])) then
    if bool_decide (r = quote l) then Some (set_quote [] l) else Some (write r l)
  else if opens l r then Some (push r (write r l))
  else if (isChar DQUOTE r || isChar SQUOTE r) && startsValue l then Some (set_quote r l)
  else if IsSpace r then if bool_decide (tok l = []) then Some l else None
  else Some (write r (name r l)).

(** What [next] does before the switch. *)
Definition begin (i : nat) (r : rune) (l : lexer) : lexer :=
  if negb (begun l) && negb (IsSpace r) then set_begun i l else l.

(** The loop of [next] over the runes left, [i] being the offset of the first,
    and the lines after it.  A rune takes a byte at least, so as many rounds as
    bytes are enough. *)
Fixpoint nextLoop (fuel : nat) (l : lexer) (i : nat) (rest : bytestr) : option token * lexer :=
  match fuel, rest with
  | S fuel', _ :: _ =>
      let '(r, n) := headRune rest in
      let l := begin i r l in
      match feed r l with
      | None => (Some (mkToken (tok l) (start l) i), set_pos (i + length r) l)
      | Some l => nextLoop fuel' l (i + n) (drop n rest)
      end
  | _, _ =>
      let l := set_pos (length (src l)) l in
      let l := if escaped l then write [BACKSLASH] l else l in
      if bool_decide (tok l = []) then (None, l) else (Some (mkToken (tok l) (start l) (length (src l))), l)
  end.

Definition next (l : lexer) : option token * lexer :=
  let l := reset l in nextLoop (length (src l)) l (pos l) (drop (pos l) (src l)).

(** The tokens [next] gives in turn with the lexer after each.  A token takes a
    byte at least. *)
Fixpoint tokens (fuel : nat) (l : lexer) : list (token * lexer) :=
  match fuel with
  | O => []
  | S fuel' => match next l with (Some t, l) => (t, l) :: tokens fuel' l | (None, _) => [] end
  end.

Definition lexAll (esc : bool) (input : bytestr) : list (token * lexer) :=
  tokens (S (length input)) (newLexer esc input).

(** [collect] *)
Definition Fields (input : bytestr) : list bytestr := map (fun t => val t.1) (lexAll false input).
Definition fieldsEscaped (input : bytestr) : list bytestr := map (fun t => val t.1) (lexAll true input).

(** [OptionsOpen]: the delimiter that is missing after the last token, if any. *)
Definition openCloser (l : lexer) : rune :=
  match closers l with c :: _ => c | [] => quote l end.
Definition OptionsOpen (input : bytestr) : rune :=
  foldl (fun _ t => openCloser t.2) [] (lexAll true input).

(** [optionEq]: the offset of the equals sign that makes the text an option. *)
Fixpoint optionEqLoop (i : nat) (l : bytestr) : option nat :=
  match l with
  | [] => None
  | c :: l' =>
      if bool_decide (c = EQ) then
        if (0 <? i) && negb (bool_decide (head l' = Some EQ)) then Some i else None
      else if IsKeyRune c then optionEqLoop (S i) l' else None
  end.
Definition optionEq (raw : bytestr) : option nat := optionEqLoop 0 raw.
Definition isOption (raw : bytestr) : bool := bool_decide (is_Some (optionEq raw)).

(** [FieldSpan]; [Eq] is [None] for the code's -1. *)
Record FieldSpan := mkSpan { Start : nat; End : nat; Eq : option nat }.

Definition FieldSpans (input : bytestr) : list FieldSpan :=
  map (fun t : token * lexer =>
    let '(s, e) := (tstart t.1, tend t.1) in
    mkSpan s e ((fun eq => eq + s) <$> optionEq (take (e - s) (drop s input)))) (lexAll true input).

(** ** word.go *)

Definition needsQuote (r : rune) : bool :=
  IsSpace r || isChar DQUOTE r || isChar SQUOTE r || isChar BACKSLASH r || isChar EQ r.

(** The loop of [Quote] over the runes. *)
Fixpoint quoteLoop (fuel : nat) (l : bytestr) : bytestr :=
  match fuel, l with
  | S fuel', _ :: _ =>
      let '(r, n) := headRune l in
      (if isChar DQUOTE r || isChar BACKSLASH r then BACKSLASH :: r else r) ++ quoteLoop fuel' (drop n l)
  | _, _ => []
  end.

Definition Quote (value : bytestr) : bytestr :=
  if bool_decide (value = []) || bool_decide (cutFunc needsQuote value = None) then value
  else DQUOTE :: quoteLoop (length value) value ++ [DQUOTE].

(** [cutQuoted] after the opening quote. *)
Fixpoint cutQuotedLoop (fuel : nat) (q : Ascii.ascii) (l : bytestr) (esc : bool) (b : bytestr) : option (bytestr * bytestr) :=
  match fuel, l with
  | S fuel', _ :: _ =>
      let '(r, n) := headRune l in
      let l' := drop n l in
      if esc then cutQuotedLoop fuel' q l' false ((if negb (isChar q r) && negb (isChar BACKSLASH r) then b ++ [BACKSLASH] else b) ++ r)
      else if isChar BACKSLASH r then cutQuotedLoop fuel' q l' true b
      else if isChar q r then Some (b, l')
      else cutQuotedLoop fuel' q l' false (b ++ r)
  | _, _ => None
  end.
Definition cutQuoted (input : bytestr) (q : Ascii.ascii) : option (bytestr * bytestr) :=
  cutQuotedLoop (length input) q (drop 1 input) false [].

Definition cutBare (rest : bytestr) : bytestr * bytestr :=
  match cutFunc IsSpace rest with Some (a, b) => (a, b) | None => (rest, []) end.

Definition CutName (input : bytestr) : bytestr * bytestr :=
  let rest := trimLeftFunc IsSpace input in
  match rest with
  | [] => ([], input)
  | q :: _ =>
      if isOption rest then ([], input)
      else if bool_decide (q = DQUOTE \/ q = SQUOTE) then
        match cutQuoted rest q with Some (w, tail) => (w, tail) | None => cutBare rest end
      else cutBare rest
  end.

(** ** option.go *)

(** The errors of options; [errors.Join] of several is their list. *)
Inductive optError :=
  | UnknownOptionsError (d : string) (keys : list string)
  | RepeatedOptionsError (d : string) (keys : list string)
  | AliasConflictError (d : string) (keys : list string)
  | OtherError (msg : string).    (* of a caller of [ApplyOptions] *)

(** [Options] *)
Record Options := mkOptions { vals : gmap string string; clash : gmap string (list string) }.
Definition newOptions : Options := mkOptions ∅ ∅.

Definition Lookup (o : Options) (key : string) : option string := vals o !! key.
Definition Has (o : Options) (key : string) : bool := bool_decide (is_Some (vals o !! key)).
Definition Keys (o : Options) : list string := sorted_keys (vals o).
Definition Get (o : Options) (key : string) : string := default "" (vals o !! key).

Fixpoint join (sep : string) (l : list string) : string :=
  match l with [] => "" | [s] => s | s :: l' => s +:+ sep +:+ join sep l' end.

Definition quoteKeys (keys : list string) : string := join ", " (map GoStd.quote keys).
Definition Tag (d : string) : string := "@" +:+ d.
Definition Comment (d : string) : string := "# " +:+ Tag d.

Definition optError_Error (e : optError) : string :=
  match e with
  | UnknownOptionsError d keys =>
      match keys with
      | [_] => "unknown " +:+ Tag d +:+ " option " +:+ quoteKeys keys
      | _ => "unknown " +:+ Tag d +:+ " options " +:+ quoteKeys keys
      end
  | RepeatedOptionsError d keys =>
      match keys with
      | [_] => Tag d +:+ " option " +:+ quoteKeys keys +:+ " is repeated"
      | _ => Tag d +:+ " options " +:+ quoteKeys keys +:+ " are repeated"
      end
  | AliasConflictError d keys => Tag d +:+ " options " +:+ quoteKeys keys +:+ " are the same option"
  | OtherError msg => msg
  end.

Definition UnknownOption (d : string) (keys : list string) : list optError :=
  if bool_decide (keys = []) then [] else [UnknownOptionsError d keys].
Definition RepeatedOption (d : string) (keys : list string) : list optError :=
  if bool_decide (keys = []) then [] else [RepeatedOptionsError d keys].

(** [repeats.add] and [repeats.err] *)
Definition repeats_add (r : list string) (key : string) : list string :=
  if negb (bool_decide (key = "")) && negb (bool_decide (key ∈ r)) then r ++ [key] else r.
Definition repeats_err (d : string) (r : list string) : list optError := RepeatedOption d (sort_strings r).

Definition noteClash (keys : list string) (o : Options) : Options :=
  if length keys <? 2 then o
  else let set := sort_strings keys in mkOptions (vals o) (<[join " " set := set]> (clash o)).

(** [given] and [present]: the keys written, with what is noted of them. *)
Definition given (keys : list string) (o : Options) : list string * Options :=
  let written := List.filter (Has o) keys in
  let set := List.filter (fun k => negb (bool_decide (Get o k = ""))) written in
  (written, noteClash set o).
Definition present (keys : list string) (o : Options) : list string * Options :=
  let written := List.filter (Has o) keys in (written, noteClash written o).

Definition remove (key : string) (o : Options) : Options := mkOptions (delete key (vals o)) (clash o).

Definition First (keys : list string) (o : Options) : option string * Options :=
  (head (List.filter (fun v => negb (bool_decide (v = ""))) (map (Get o) keys)), (given keys o).2).
Definition Aliases_ (keys : list string) (o : Options) : Options := (given keys o).2.
Definition Pop (key : string) (o : Options) : string * Options := (Get o key, remove key o).

(** The loop of [PopKey]: the first key with a value, and every key removed. *)
Fixpoint popLoop (written : list string) (found : option (string * string)) (o : Options) : option (string * string) * Options :=
  match written with
  | [] => (found, o)
  | key :: rest =>
      let v := Get o key in
      let found := match found with
                   | None => if negb (bool_decide (v = "")) then Some (key, v) else None
                   | Some _ => found
                   end in
      popLoop rest found (remove key o)
  end.
Definition PopKey (keys : list string) (o : Options) : option (string * string) * Options :=
  let '(written, o) := given keys o in popLoop written None o.
Definition PopAny (keys : list string) (o : Options) : option string * Options :=
  let '(r, o) := PopKey keys o in (snd <$> r, o).

Section unicode.
Context {unicode : Unicode}.

(** [put]: the options and the key if it is there already. *)
Definition put (key v : bytestr) (o : Options) : string * Options :=
  let key := ToLower (TrimSpace (str key)) in
  if bool_decide (key = "") then ("", o)
  else (if Has o key then key else "", mkOptions (<[key := TrimSpace (str v)]> (vals o)) (clash o)).

(** The loop of [collectOptions]. *)
Fixpoint collectLoop (bareIsTrue : bool) (toks : list bytestr) (o : Options) (rep : list string) : Options * list string :=
  match toks with
  | [] => (o, rep)
  | t :: toks' =>
      match cutAt EQ t with
      | Some (key, v) => let '(k, o) := put key v o in collectLoop bareIsTrue toks' o (repeats_add rep k)
      | None =>
          if bareIsTrue then let '(k, o) := put t (bytes "true") o in collectLoop bareIsTrue toks' o (repeats_add rep k)
          else collectLoop bareIsTrue toks' o rep
      end
  end.

Definition collectOptions (d : string) (toks : list bytestr) (bareIsTrue : bool) : Options * list optError :=
  let '(o, rep) := collectLoop bareIsTrue toks newOptions [] in (o, repeats_err d rep).

Definition OptionFields (d : string) (fields : list bytestr) := collectOptions d fields false.
Definition parseOptions (d : string) (toks : list bytestr) := collectOptions d toks true.
Definition ParseOptions (d : string) (input : bytestr) := parseOptions d (fieldsEscaped input).

Definition RepeatedNames (d : string) (names : list bytestr) : list optError :=
  repeats_err d (foldl (fun st n => let '(k, o) := put n [] st.1 in (o, repeats_add st.2 k)) (newOptions, []) names).2.

Definition Conflicts (d : string) (o : Options) : list optError :=
  omap (fun g => AliasConflictError d <$> clash o !! g) (sorted_keys (clash o)).
Definition Unknown (d : string) (o : Options) : list optError :=
  if bool_decide (vals o = ∅) then [] else UnknownOption d (Keys o).
Definition Leftover (d : string) (o : Options) : list optError := Conflicts d o ++ Unknown d o.

(** [ApplyOptions]; [apply] changes a state of the caller's. *)
Section apply.
Context {St : Type} (apply : string -> string -> St -> St * list optError).
Definition ApplyOptions (d : string) (raw : bytestr) (aliases : list (list string)) (st : St) : St * list optError :=
  let '(o, errs) := ParseOptions d raw in
  let o := foldl (fun o keys => Aliases_ keys o) o aliases in
  let '(st, errs) := foldl (fun acc key => let '(st, e) := apply key (Get o key) acc.1 in (st, acc.2 ++ e)) (st, errs) (Keys o) in
  (st, errs ++ Conflicts d o).
End apply.

(** ** value.go *)

Definition ParseBool (raw : string) : option bool :=
  let v := ToLower (TrimSpace raw) in
  if bool_decide (v ∈ ["true"; "t"; "1"; "yes"; "on"]) then Some true
  else if bool_decide (v ∈ ["false"; "f"; "0"; "no"; "off"]) then Some false
  else None.

Definition ParseSwitch (args : string) : option bool :=
  if bool_decide (TrimSpace args = "") then Some true else ParseBool args.

Definition IsOff (raw : string) : bool :=
  match ParseBool raw with
  | Some v => negb v
  | None => bool_decide (ToLower (TrimSpace raw) ∈ ["disable"; "disabled"])
  end.

(** [PopBool]: the value, and the raw text if it is no boolean. *)
Definition PopBool (keys : list string) (o : Options) : option (bool * string) * Options :=
  let '(written, o) := present keys o in
  let o' := foldl (fun o key => remove key o) o written in
  (match written with
   | [] => None
   | key :: _ =>
       let raw := Get o key in
       if bool_decide (raw = "") then Some (true, "")
       else match ParseBool raw with Some b => Some (b, "") | None => Some (true, raw) end
   end, o').

Definition ParseNonNegativeInt (raw : string) : res string Z :=
  let tr := TrimSpace raw in
  if bool_decide (tr = "") then Er "empty value"
  else match Atoi (bytes tr) with
       | None => Er ("value must be a number: " +:+ GoStd.quote tr)
       | Some n => if (n <? 0)%Z then Er ("value must be non-negative: " +:+ itoa n) else Ok n
       end.

(** ** scope.go *)

Inductive Scope := ScopeRequest | ScopeFile | ScopeGlobal.
#[export] Instance Scope_dec : EqDecision Scope.
Proof. solve_decision. Defined.

Definition Scope_String (s : Scope) : string :=
  match s with ScopeFile => "file" | ScopeGlobal => "global" | ScopeRequest => "request" end.

Definition ParseScope (token : string) : option Scope :=
  let v := ToLower (TrimSpace token) in
  if bool_decide (v = "request") then Some ScopeRequest
  else if bool_decide (v = "file") then Some ScopeFile
  else if bool_decide (v = "global") then Some ScopeGlobal
  else None.

(** [strings.CutSuffix] *)
Definition cutSuffix (suffix l : bytestr) : option bytestr :=
  match cut (rev suffix) (rev l) with Some l => Some (rev l) | None => None end.

Definition ParseSecretScope (token : string) : option Scope * bool :=
  let tok := ToLower (TrimSpace token) in
  match cutSuffix (bytes "-secret") (bytes tok) with
  | Some base => (ParseScope (str base), true)
  | None => (ParseScope tok, false)
  end.

(** [ProfileHeader] *)
Record ProfileHeader := mkHeader { hScope : Scope; hName : string; hOptions : Options }.

Definition hasEq (t : bytestr) : bool := bool_decide (EQ ∈ t).

Definition ParseProfileHeader (d : string) (rest : bytestr) : option ProfileHeader * list optError :=
  match fieldsEscaped rest with
  | [] => (None, [])
  | (f :: fields') as fields =>
      let '(scope, fields) := match ParseScope (str f) with
                              | Some s => (s, fields')
                              | None => (ScopeRequest, fields)
                              end in
      let '(nm, fields) := match fields with
                           | n :: r => if hasEq n then ("", fields) else (TrimSpace (str n), r)
                           | [] => ("", [])
                           end in
      let '(opts, errs) := parseOptions d fields in
      (Some (mkHeader scope nm opts), errs)
  end.
End unicode.

(** [strings.TrimSpace], [SplitCSV], [Value] *)
Definition SplitCSV (value : bytestr) : list bytestr :=
  let value := trim value in
  if bool_decide (value = []) then [] else filter (fun p => p <> []) (map trim (splitAt ","%char value)).

Definition TrimQuotes (value : bytestr) : bytestr :=
  if length value <? 2 then value
  else match head value, List.last value NUL with
       | Some f, l =>
           if bool_decide (f = DQUOTE /\ l = DQUOTE) || bool_decide (f = SQUOTE /\ l = SQUOTE)
           then take (length value - 2) (drop 1 value) else value
       | None, _ => value
       end.
Definition Value (args : bytestr) : bytestr := TrimQuotes (trim args).
Definition HasValue (args : bytestr) : bool := negb (bool_decide (trim (Value args) = [])).

(** [ParseNameValue]; the key runes are ASCII, so the first other one is found by
    its first byte. *)
Fixpoint spanKey (l : bytestr) : bytestr * bytestr :=
  match l with
  | c :: l' => if IsKeyRune c then let '(a, b) := spanKey l' in (c :: a, b) else ([], l)
  | [] => ([], [])
  end.

Fixpoint trimBlanks (l : bytestr) : bytestr :=
  match l with
  | c :: l' => if bool_decide (c = " "%char \/ c = TAB) then trimBlanks l' else l
  | [] => []
  end.

Definition ParseNameValue (input : bytestr) : bytestr * bytestr :=
  let tr := trim input in
  let '(nm, sep) := spanKey tr in
  match nm, sep with
  | [], [] => (tr, [])
  | [], _ => ([], [])
  | _, [] => (tr, [])
  | _, _ =>
      let v := trimBlanks sep in
      match v with
      | c :: v' =>
          if bool_decide (c = ":"%char \/ c = EQ) then (nm, trim v')
          else if length v =? length sep then ([], []) else (nm, trim v)
      | [] => (nm, [])
      end
  end.

(** ** call.go *)

Definition IsArgSep (r : rune) : bool := isChar ":"%char r || IsSpace r.

Record Call := mkCall { cName : string; Spelling : string; cArgs : bytestr; ArgOffset : nat }.

(** [CutToken] and [CutKey] *)
Definition CutToken (text : bytestr) : bytestr * bytestr :=
  let tr := trim text in
  match cutFunc IsSpace tr with Some (a, b) => (a, trim b) | None => (tr, []) end.

Fixpoint dropColons (l : bytestr) : bytestr :=
  match l with c :: l' => if bool_decide (c = ":"%char) then dropColons l' else l | [] => [] end.

Definition CutKey {unicode : Unicode} (text : bytestr) : string * bytestr :=
  let '(tok, rest) := CutToken text in (ToLower (str (rev (dropColons (rev tok)))), rest).

(** ** spec.go *)

Inductive ArgKind := ArgNone | ArgToken | ArgText | ArgSetting | ArgOptions.
Inductive Repeat := repeatUnset | Once | Many.
#[export] Instance Repeat_dec : EqDecision Repeat.
Proof. solve_decision. Defined.

(** continuation.go *)
Inductive Continuation := ContinueNone | ContinueOptions | ContinueExpr | ContinueCapture.

(** [Spec] without the texts shown to users. *)
Record Spec := mkSpec {
  sName : string;
  sAliases : list string;
  sArgs : ArgKind;
  sRepeat : Repeat;
  sContinues : Continuation;
  sValueRequired : bool;
  sResets : list string
}.

Definition specs : list Spec := [
  mkSpec "mock" [] ArgOptions Many ContinueNone false [];
  mkSpec "match" [] ArgOptions Many ContinueOptions false [];
  mkSpec "expect" [] ArgOptions Once ContinueNone false [];
  mkSpec "name" [] ArgToken Once ContinueNone true [];
  mkSpec "description" ["desc"] ArgText Many ContinueNone false [];
  mkSpec "tag" ["tags"] ArgText Many ContinueNone false [];
  mkSpec "no-log" ["nolog"] ArgNone Once ContinueNone false [];
  mkSpec "log-sensitive-headers" ["log-secret-headers"] ArgToken Once ContinueNone false [];
  mkSpec "auth" [] ArgToken Once ContinueNone false [];
  mkSpec "setting" [] ArgSetting Many ContinueNone false [];
  mkSpec "settings" [] ArgOptions Many ContinueNone false [];
  mkSpec "timeout" [] ArgToken Once ContinueNone false [];
  mkSpec "body" [] ArgText Many ContinueNone false [];
  mkSpec "var" [] ArgText Many ContinueNone false [];
  mkSpec "request" [] ArgText Many ContinueNone false [];
  mkSpec "request-secret" [] ArgText Many ContinueNone false [];
  mkSpec "file" [] ArgText Many ContinueNone false [];
  mkSpec "file-secret" [] ArgText Many ContinueNone false [];
  mkSpec "global" [] ArgText Many ContinueNone false [];
  mkSpec "global-secret" [] ArgText Many ContinueNone false [];
  mkSpec "const" [] ArgText Many ContinueNone false [];
  mkSpec "use" [] ArgText Many ContinueNone false [];
  mkSpec "script" [] ArgToken Many ContinueNone false [];
  mkSpec "rts" [] ArgToken Many ContinueNone false [];
  mkSpec "patch" [] ArgText Many ContinueExpr false [];
  mkSpec "apply" [] ArgText Many ContinueExpr false [];
  mkSpec "when" ["skip-if"] ArgText Once ContinueExpr false [];
  mkSpec "capture" [] ArgText Many ContinueCapture false [];
  mkSpec "assert" [] ArgText Many ContinueExpr false [];
  mkSpec "trace" [] ArgOptions Once ContinueNone false [];
  mkSpec "profile" [] ArgOptions Once ContinueNone false [];
  mkSpec "compare" [] ArgOptions Once ContinueNone false [];
  mkSpec "ssh" [] ArgOptions Many ContinueNone false [];
  mkSpec "k8s" [] ArgOptions Many ContinueNone false [];
  mkSpec "workflow" [] ArgText Many ContinueNone false [];
  mkSpec "step" [] ArgText Many ContinueNone false [];
  mkSpec "if" [] ArgText Many ContinueExpr false [];
  mkSpec "elif" [] ArgText Many ContinueExpr false [];
  mkSpec "else" [] ArgOptions Many ContinueNone false [];
  mkSpec "switch" [] ArgText Many ContinueExpr false [];
  mkSpec "case" [] ArgText Many ContinueExpr false [];
  mkSpec "default" [] ArgOptions Many ContinueNone false [];
  mkSpec "for-each" [] ArgText Once ContinueExpr false [];
  mkSpec "graphql" [] ArgToken Many ContinueNone false ["graphql-operation"; "variables"; "query"];
  mkSpec "graphql-operation" ["operation"] ArgToken Once ContinueNone true [];
  mkSpec "variables" ["graphql-variables"] ArgText Once ContinueNone false [];
  mkSpec "query" ["graphql-query"] ArgText Once ContinueNone false [];
  mkSpec "grpc" [] ArgText Once ContinueNone false [];
  mkSpec "grpc-descriptor" [] ArgText Once ContinueNone true [];
  mkSpec "grpc-reflection" [] ArgToken Once ContinueNone false [];
  mkSpec "grpc-plaintext" [] ArgToken Once ContinueNone false [];
  mkSpec "grpc-authority" [] ArgText Once ContinueNone true [];
  mkSpec "grpc-metadata" [] ArgText Many ContinueNone true [];
  mkSpec "sse" [] ArgOptions Many ContinueNone false [];
  mkSpec "websocket" [] ArgOptions Many ContinueNone false [];
  mkSpec "ws" [] ArgText Many ContinueNone false []].

(** [index]: later entries win. *)
Definition index : gmap string Spec :=
  foldl (fun ix sp => foldl (fun ix alias => <[alias := sp]> ix) (<[sName sp := sp]> ix) (sAliases sp)) ∅ specs.

Definition Known (n : string) : bool := bool_decide (is_Some (index !! n)).
Definition Canonical (n : string) : string := match index !! n with Some sp => sName sp | None => n end.
Definition DeclaredOnce (n : string) : bool :=
  match index !! n with Some sp => bool_decide (sRepeat sp = Once) | None => false end.
Definition ValueRequired (n : string) : bool := match index !! n with Some sp => sValueRequired sp | None => false end.
Definition Resets (n : string) : list string := match index !! n with Some sp => sResets sp | None => [] end.
Definition continuationOf (n : string) : Continuation :=
  match index !! n with Some sp => sContinues sp | None => ContinueNone end.

(** [Parse] *)
Definition Parse {unicode : Unicode} (text : bytestr) : option Call :=
  match text with
  | c :: body =>
      if negb (bool_decide (c = "@"%char)) then None
      else
        let rest := trimLeftFunc IsSpace body in
        let lead := length body - length rest in
        let '(sp, tail) := default (rest, []) (cutFunc IsArgSep rest) in
        let spelling := ToLower (str sp) in
        if bool_decide (spelling = "") then None
        else
          let args := trimLeftFunc IsArgSep tail in
          let gap := length tail - length args in
          Some (mkCall (Canonical spelling) spelling (trimRightSpace args) (1 + lead + length sp + gap))
  | [] => None
  end.

(** ** restwriter/directives.go *)

(** [commentLines] *)
Definition commentLines (arg : bytestr) : bytestr :=
  match splitAt LF arg with
  | first :: lines =>
      first ++ mjoin (map (fun ln => LF :: "#"%char :: (match ln with c :: r => if bool_decide (c = " "%char) then r else ln | [] => [] end)) lines)
  | [] => []
  end.

(** [directiveWriter.head], [option] and [end], as what they append. *)
Definition head_ (d : string) (arg : bytestr) : bytestr :=
  bytes (Comment d) ++ (if bool_decide (arg = []) then [] else " "%char :: commentLines arg).
Definition option_ (key value : bytestr) : bytestr := " "%char :: key ++ EQ :: Quote value.

(** Several options in turn, and [workflowWriter.writeOptions]. *)
Definition options_ (kvs : list (bytestr * bytestr)) : bytestr := mjoin (map (fun kv => option_ kv.1 kv.2) kvs).
Definition writeOptions (prefix : string) (opts : gmap string string) : bytestr :=
  options_ (map (fun key => (bytes (prefix +:+ key), bytes (default "" (opts !! key)))) (sorted_keys opts)).

End Directive.

(** ** Examples of the repository's tests *)

Import Directive.

Example cut_name_cases :
  map (fun s => (str (CutName (bytes s)).1, str (CutName (bytes s)).2))
    ["Create using=First"; "a==b x=1"; "using=First x=1"; "'Create Account' x=1"; "Path\Name x=1"; ""]
  = [("Create", " using=First"); ("a==b", " x=1"); ("", "using=First x=1"); ("Create Account", " x=1");
     ("Path\Name", " x=1"); ("", "")].
Proof. vm_compute. reflexivity. Qed.

Example fields_cases :
  map (map str) [Fields (bytes "a b='c d' latency=random(1s, 2s) x=[1, 2] y"); fieldsEscaped (bytes "a\ b 'x \y' f=(a b)")]
  = [["a"; "b=c d"; "latency=random(1s, 2s)"; "x=[1, 2]"; "y"]; ["a b"; "x \y"; "f=(a"; "b)"]].
Proof. vm_compute. reflexivity. Qed.

Example spans_case :
  FieldSpans (bytes "  a b=c d==e")
  = [mkSpan 2 3 None; mkSpan 4 7 (Some 5); mkSpan 8 12 None].
Proof. vm_compute. reflexivity. Qed.

Example parse_case :
  @Parse Names.ascii (bytes "@ Desc:  a b: ") = Some (mkCall "description" "desc" (bytes "a b:") 9).
Proof. vm_compute. reflexivity. Qed.
