(* ===== verification/DirectiveFacts.v ===== *)
(** * The correctness of the directive grammar

    Words and options that the writers render are read back; the lexer's tokens
    lie in the text as their spans say, each as if it stood alone. *)
From stdpp Require Import base list strings gmap.
From Stdlib Require Import Ascii ZArith Lia.
From S2P Require Import Prelude GoStd GoPath Names Text Directive.

Open Scope string_scope.
Open Scope nat_scope.
Open Scope list_scope.

Import Directive.

(** ** Words *)

(** What [Quote] writes for a rune between the quotes. *)
Definition quoted (r : rune) : bytestr := if isChar DQUOTE r || isChar BACKSLASH r then BACKSLASH :: r else r.

Lemma isChar_iff c r : isChar c r = true <-> r = [c].
Proof. apply bool_decide_eq_true. Qed.

Lemma validRune_quote : validRune [DQUOTE] /\ validRune [BACKSLASH] /\ validRune [EQ].
Proof. split_and!; by apply validRune_ascii. Qed.

Lemma quoteLoop_valid fuel rs :
  Forall validRune rs -> length (mjoin rs) <= fuel -> quoteLoop fuel (mjoin rs) = mjoin (map quoted rs).
Proof.
  intros Hrs. revert fuel. induction Hrs as [|r rs Hr _ IH]; intros fuel Hf; [by destruct fuel|].
  pose proof Hr as [Hne _]. destruct r as [|b r]; [done|]. change (mjoin ((b :: r) :: rs)) with ((b :: r) ++ mjoin rs) in *.
  destruct fuel; [simpl in Hf; lia|]. cbn [app quoteLoop]. change (b :: r ++ mjoin rs) with ((b :: r) ++ mjoin rs).
  rewrite headRune_valid by done. rewrite drop_valid, IH; [done|]. rewrite length_app in Hf. simpl in Hf. lia.
Qed.

(** A word is bare or between quotes. *)
Lemma Quote_bare rs : Forall validRune rs -> Forall (fun r => needsQuote r = false) rs -> Quote (mjoin rs) = mjoin rs.
Proof. intros Hrs Hn. unfold Quote. rewrite (cutFunc_none _ _ Hrs Hn). by rewrite orb_true_r. Qed.

Lemma first_such {A} (p : A -> bool) l : Forall (fun x => p x = false) l \/
  exists l1 x l2, l = l1 ++ x :: l2 /\ Forall (fun x => p x = false) l1 /\ p x = true.
Proof.
  induction l as [|x l [IH|(l1 & y & l2 & -> & IH & Hy)]]; [by left|destruct (p x) eqn:E..].
  - right. by exists [], x, l.
  - left. by constructor.
  - right. by exists [], x, (l1 ++ y :: l2).
  - right. exists (x :: l1), y, l2. split_and!; [done|by constructor|done].
Qed.

Lemma Quote_quoted rs :
  Forall validRune rs -> ~ Forall (fun r => needsQuote r = false) rs ->
  Quote (mjoin rs) = DQUOTE :: mjoin (map quoted rs) ++ [DQUOTE].
Proof.
  intros Hrs Hn. destruct (first_such needsQuote rs) as [|(l1 & x & l2 & -> & H1 & Hx)]; [done|]. unfold Quote.
  rewrite quoteLoop_valid by done. apply Forall_app in Hrs as [Hr1 [Hrx Hr2]%Forall_cons].
  rewrite join_app. change (mjoin (x :: l2)) with (x ++ mjoin l2) in *. rewrite cutFunc_valid by done.
  rewrite bool_decide_eq_false_2; [done|]. destruct Hrx as [Hne _]. destruct l1 as [|y l1]; [by destruct x|].
  apply Forall_cons in Hr1 as [[Hney _] _]. by destruct y.
Qed.

(** ** CutName *)

Lemma cutQuotedLoop_quoted fuel rs t b :
  Forall validRune rs -> length (mjoin (map quoted rs)) + 1 <= fuel ->
  cutQuotedLoop fuel DQUOTE (mjoin (map quoted rs) ++ DQUOTE :: t) false b = Some (b ++ mjoin rs, t).
Proof.
  destruct validRune_quote as (HQ & HB & _).
  intros Hrs. revert fuel b. induction Hrs as [|r rs Hr _ IH]; intros fuel b Hf.
  - destruct fuel; [simpl in Hf; lia|]. cbn [map mjoin list_join app cutQuotedLoop].
    change (DQUOTE :: t) with ([DQUOTE] ++ t). rewrite headRune_valid by done. rewrite drop_valid. cbn. by rewrite app_nil_r.
  - change (mjoin (map quoted (r :: rs))) with (quoted r ++ mjoin (map quoted rs)) in *.
    change (mjoin (r :: rs)) with (r ++ mjoin rs). rewrite length_app in Hf. rewrite <- app_assoc.
    set (rest := mjoin (map quoted rs) ++ DQUOTE :: t) in *. assert (Hq : quoted r = if isChar DQUOTE r || isChar BACKSLASH r then BACKSLASH :: r else r) by done.
    rewrite Hq in *. clear Hq. pose proof Hr as [Hne _]. destruct (isChar DQUOTE r || isChar BACKSLASH r) eqn:E.
    + destruct fuel as [|[|fuel]]; [simpl in Hf; lia..|destruct r; [done|simpl in Hf; lia]|].
      cbn [app cutQuotedLoop]. change (BACKSLASH :: r ++ rest) with ([BACKSLASH] ++ r ++ rest).
      rewrite headRune_valid by done. rewrite drop_valid. change (isChar BACKSLASH [BACKSLASH]) with true. cbn iota.
      destruct r as [|c r]; [done|]. cbn [app cutQuotedLoop]. change (c :: r ++ rest) with ((c :: r) ++ rest).
      rewrite headRune_valid by done. rewrite drop_valid.
      assert (Hb : negb (isChar DQUOTE (c :: r)) && negb (isChar BACKSLASH (c :: r)) = false)
        by (destruct (isChar DQUOTE (c :: r)), (isChar BACKSLASH (c :: r)); done).
      rewrite Hb, IH; [by rewrite <- app_assoc|]. simpl in Hf. lia.
    + apply orb_false_iff in E as [E1 E2]. destruct r as [|c r]; [done|]. destruct fuel; [simpl in Hf; lia|].
      cbn [app cutQuotedLoop]. change (c :: r ++ rest) with ((c :: r) ++ rest). rewrite headRune_valid by done.
      rewrite drop_valid, E2, E1, IH; [by rewrite <- app_assoc|]. simpl in Hf. lia.
Qed.

(** What may follow a word: nothing, or a space. *)
Definition ends (t : bytestr) : Prop := t = [] \/ exists sp t', sp ∈ spaces /\ t = sp ++ t'.

Lemma space_head sp : sp ∈ spaces -> exists c r, sp = c :: r /\ IsKeyRune c = false /\ c <> EQ /\ c <> DQUOTE /\ c <> SQUOTE.
Proof.
  intros Hsp. assert (Hall : forallb (fun sp : rune => match sp with [] => false | c :: _ =>
    negb (IsKeyRune c) && negb (bool_decide (c = EQ)) && negb (bool_decide (c = DQUOTE)) && negb (bool_decide (c = SQUOTE)) end) spaces = true)
    by (vm_compute; reflexivity).
  rewrite forallb_forall in Hall. apply list_elem_of_In in Hsp. specialize (Hall sp Hsp). destruct sp as [|c r]; [done|].
  apply andb_true_iff in Hall as [[[H1 H2]%andb_true_iff H3]%andb_true_iff H4]. rewrite negb_true_iff in H1, H2, H3, H4.
  exists c, r. split_and!; [done|done|by apply bool_decide_eq_false in H2|by apply bool_decide_eq_false in H3|by apply bool_decide_eq_false in H4].
Qed.

Lemma needsQuote_false r :
  needsQuote r = false -> r ∉ spaces /\ r <> [DQUOTE] /\ r <> [SQUOTE] /\ r <> [BACKSLASH] /\ r <> [EQ].
Proof.
  unfold needsQuote, IsSpace, isChar. rewrite !orb_false_iff, !bool_decide_eq_false. tauto.
Qed.

(** A key byte that starts a valid rune is all of it. *)
Lemma valid_ascii c r : validRune (c :: r) -> (byte_val c < 128)%N -> r = [].
Proof.
  intros [_ [v Hv]] Hc. unfold decode_rune in Hv. rewrite (proj2 (Z.ltb_lt _ _)) in Hv by lia.
  destruct r; [done|simpl in Hv; congruence].
Qed.

Lemma IsKeyRune_ascii c : IsKeyRune c = true -> (byte_val c < 128)%N.
Proof.
  unfold IsKeyRune, IsIdentRune, isIdentStart, isAlpha, isDigit. rewrite !orb_true_iff, !andb_true_iff, !bool_decide_eq_true, !N.leb_le.
  intros [[[[->|[?|?]]|?]| ->]| ->]; try lia; reflexivity.
Qed.

Lemma optionEq_none i rs t :
  Forall validRune rs -> Forall (fun r => needsQuote r = false) rs -> ends t -> optionEqLoop i (mjoin rs ++ t) = None.
Proof.
  intros Hrs Hn Ht. revert i. induction Hrs as [|r rs Hr _ IH]; intros i.
  - destruct Ht as [->|(sp & t' & Hsp & ->)]; [done|]. destruct (space_head sp Hsp) as (c & r & -> & Hk & He & _).
    cbn. by rewrite bool_decide_eq_false_2, Hk.
  - apply Forall_cons in Hn as [Hnr Hn]. apply needsQuote_false in Hnr as (_ & _ & _ & _ & Hne).
    change (mjoin (r :: rs)) with (r ++ mjoin rs). rewrite <- app_assoc. pose proof Hr as [Hnil _].
    destruct r as [|c r]; [done|]. cbn [app optionEqLoop]. case_bool_decide as Hc.
    { subst c. by rewrite (valid_ascii EQ r Hr eq_refl) in Hne. }
    destruct (IsKeyRune c) eqn:Ek; [|done]. apply IsKeyRune_ascii in Ek. rewrite (valid_ascii c r Hr Ek). by apply IH.
Qed.

Lemma cutBare_valid rs t :
  Forall validRune rs -> Forall (fun r => needsQuote r = false) rs -> ends t -> cutBare (mjoin rs ++ t) = (mjoin rs, t).
Proof.
  intros Hrs Hn Ht. assert (Hs : Forall (fun r => IsSpace r = false) rs).
  { eapply Forall_impl; [exact Hn|]. intros r Hr. apply needsQuote_false in Hr as [Hr _]. by apply bool_decide_eq_false. }
  unfold cutBare. destruct Ht as [->|(sp & t' & Hsp & ->)].
  - rewrite app_nil_r. by rewrite cutFunc_none.
  - rewrite cutFunc_valid; [done..| |]; [by apply space_valid|by apply bool_decide_eq_true].
Qed.

Lemma needsQuote_dec rs : Decision (Forall (fun r => needsQuote r = false) rs).
Proof. apply _. Defined.

(** A name written by [Quote] is the name [CutName] reads, with what follows. *)
Lemma CutName_Quote rs t :
  Forall validRune rs -> rs <> [] -> ends t -> CutName (Quote (mjoin rs) ++ t) = (mjoin rs, t).
Proof.
  intros Hrs Hne Ht. destruct validRune_quote as (HQ & _ & _). unfold CutName. destruct (needsQuote_dec rs) as [Hn|Hn].
  - rewrite (Quote_bare rs Hrs Hn). destruct rs as [|r rs]; [done|]. pose proof Hrs as [Hr _]%Forall_cons.
    pose proof Hn as [Hnr _]%Forall_cons. apply needsQuote_false in Hnr as (Hsp & Hdq & Hsq & _ & _).
    assert (Hlead : trimLeftFunc IsSpace (mjoin (r :: rs) ++ t) = mjoin (r :: rs) ++ t).
    { change (mjoin (r :: rs)) with (r ++ mjoin rs). rewrite <- app_assoc. apply trimLeftFunc_stop; [done|].
      by apply bool_decide_eq_false. }
    rewrite Hlead. pose proof (optionEq_none 0 _ t Hrs Hn Ht) as Ho. pose proof (cutBare_valid _ t Hrs Hn Ht) as Hcut.
    destruct (mjoin (r :: rs) ++ t) as [|c l] eqn:E; [by destruct Hr as [? _], r|].
    unfold isOption, optionEq. rewrite Ho, bool_decide_eq_false_2 by (by intros []).
    rewrite bool_decide_eq_false_2; [done|]. intros Hc. destruct Hr as [Hnil Hv]. destruct r as [|c' r]; [done|].
    injection E as -> _. assert (r = []) as -> by (apply (valid_ascii c r); [by split|destruct Hc as [-> | ->]; reflexivity]).
    by destruct Hc as [-> | ->].
  - rewrite (Quote_quoted rs Hrs Hn). set (q := mjoin (map quoted rs)). cbn [app]. rewrite <- app_assoc.
    change (DQUOTE :: q ++ [DQUOTE] ++ t) with ([DQUOTE] ++ q ++ DQUOTE :: t).
    rewrite trimLeftFunc_stop by done. cbn [app]. change (isOption (DQUOTE :: q ++ DQUOTE :: t)) with false. cbn iota.
    rewrite bool_decide_eq_true_2 by (by left). unfold cutQuoted. change (drop 1 (DQUOTE :: ?l)) with l.
    subst q. rewrite cutQuotedLoop_quoted; [done..|]. cbn [length]. rewrite length_app. simpl. lia.
Qed.

(** ** Runs of the lexer *)

Lemma nextLoop_fuel f l i rest : length rest <= f -> nextLoop f l i rest = nextLoop (length rest) l i rest.
Proof.
  assert (Hgen : forall n rest l i, length rest <= n -> forall f, length rest <= f -> nextLoop f l i rest = nextLoop n l i rest).
  { clear. induction n as [|n IH]; intros rest l i Hn f Hf; [destruct rest; [by destruct f|simpl in Hn; lia]|].
    destruct rest as [|b rest]; [by destruct f|]. destruct f; [simpl in Hf; lia|]. cbn [nextLoop].
    pose proof (headRune_width (b :: rest) ltac:(done)) as Hw. destruct (headRune (b :: rest)) as [r w]. cbn [snd] in Hw.
    destruct (feed _ _); [|done]. apply IH; rewrite length_drop; lia. }
  intros Hf. by apply Hgen.
Qed.

(** [nextLoop] with fuel enough. *)
Definition run (l : lexer) (i : nat) (rest : bytestr) : option token * lexer := nextLoop (length rest) l i rest.

Lemma run_rune l i r t :
  validRune r ->
  run l i (r ++ t) =
  match feed r (begin i r l) with
  | None => (Some (mkToken (tok (begin i r l)) (start (begin i r l)) i), set_pos (i + length r) (begin i r l))
  | Some l' => run l' (i + length r) t
  end.
Proof.
  intros Hr. pose proof Hr as [Hne _]. unfold run. destruct r as [|b r]; [done|]. cbn [app length nextLoop].
  change (b :: r ++ t) with ((b :: r) ++ t). rewrite headRune_valid by done. rewrite drop_valid.
  destruct (feed _ _) as [l'|]; [|done]. apply nextLoop_fuel. rewrite length_app. lia.
Qed.

(** No bracket is open, no quote, no escape. *)
Definition idle (l : lexer) : Prop := closers l = [] /\ escaped l = false /\ quote l = [].
(** The same text and mode. *)
Definition same (l l' : lexer) : Prop := src l' = src l /\ escapes l' = escapes l.

Lemma same_begin i r l : same l (begin i r l).
Proof. unfold begin. by destruct (_ && _). Qed.
Lemma begin_eqs i r l :
  tok (begin i r l) = tok l /\ last (begin i r l) = last l /\ state (begin i r l) = state l /\
  closers (begin i r l) = closers l /\ escaped (begin i r l) = escaped l /\ quote (begin i r l) = quote l.
Proof. unfold begin. by destruct (_ && _). Qed.

Lemma feed_bare l r :
  idle l -> needsQuote r = false -> opens l r = false -> feed r l = Some (write r (name r l)).
Proof.
  intros (Hc & He & Hq) Hn Ho. apply needsQuote_false in Hn as (Hs & Hdq & Hsq & Hb & Heq). unfold feed.
  rewrite Hc, He, Hq, Ho. cbn. unfold isChar, IsSpace. rewrite !(bool_decide_eq_false_2 (r = _)) by done.
  rewrite (bool_decide_eq_false_2 (r ∈ spaces)) by done. by rewrite andb_false_r.
Qed.

Lemma name_eqs r l :
  tok (name r l) = tok l /\ src (name r l) = src l /\ escapes (name r l) = escapes l /\
  closers (name r l) = closers l /\ escaped (name r l) = escaped l /\ quote (name r l) = quote l.
Proof. unfold name. destruct (state l); try case_match; done. Qed.

(** Reading a bare text: the token grows by it.  [Q] is what keeps brackets from
    opening a group. *)
Lemma run_bare (Q : lexer -> list rune -> Prop) l i rs t :
  (forall l r rs, Q l (r :: rs) -> opens l r = false) ->
  (forall l r rs, Q l (r :: rs) -> needsQuote r = false -> Q (write r (name r l)) rs) ->
  (forall l i r rs, Q l rs -> Q (begin i r l) rs) ->
  idle l -> Q l rs -> Forall validRune rs -> Forall (fun r => needsQuote r = false) rs ->
  exists l', run l i (mjoin rs ++ t) = run l' (i + length (mjoin rs)) t /\ idle l' /\ same l l' /\
    tok l' = tok l ++ mjoin rs /\ Q l' [].
Proof.
  intros Hopen Hstep Hbegin Hid HQ Hrs Hn. revert l i Hid HQ. induction Hrs as [|r rs Hr _ IH]; intros l i Hid HQ.
  - exists l. rewrite Nat.add_0_r, app_nil_r. by split_and!.
  - apply Forall_cons in Hn as [Hnr Hn]. change (mjoin (r :: rs)) with (r ++ mjoin rs). rewrite <- app_assoc, run_rune by done.
    destruct (begin_eqs i r l) as (Ht & Hl & Hs & Hc & He & Hq). destruct (same_begin i r l) as [Hsrc Hesc].
    assert (Hidb : idle (begin i r l)) by (destruct Hid as (? & ? & ?); split_and!; congruence).
    rewrite feed_bare; [|done..|by eapply Hopen, Hbegin].
    destruct (name_eqs r (begin i r l)) as (Ht' & Hsrc' & Hesc' & Hc' & He' & Hq').
    destruct (IH Hn (write r (name r (begin i r l))) (i + length r)) as (l' & Hrun & Hid' & [Hs1 Hs2] & Htok & HQ').
    + destruct Hid as (? & ? & ?). split_and!; simpl; congruence.
    + by apply Hstep; [apply Hbegin|].
    + exists l'. rewrite Hrun, length_app, Nat.add_assoc. split_and!; try done.
      * split; simpl in *; congruence.
      * rewrite Htok. simpl. rewrite Ht', Ht. by rewrite app_assoc.
Qed.

(** In a key no bracket opens a group. *)
Definition keyOk (l : lexer) (_ : list rune) : Prop := state l = inKey /\ last l <> [EQ].
(** In a value, only one right after the equals sign, or a parenthesis. *)
Definition valueOk (l : lexer) (rs : list rune) : Prop :=
  Forall (fun r => r <> [LPAREN]) rs /\ (last l = [EQ] -> match rs with r :: _ => r <> [LBRACK] /\ r <> [LCURLY] | [] => True end).

Lemma opens_key l r : state l = inKey -> last l <> [EQ] -> opens l r = false.
Proof.
  intros Hs Hl. unfold opens. rewrite Hs. unfold isChar at 3. rewrite (bool_decide_eq_false_2 (last l = [EQ])) by done.
  destruct (isChar LBRACK r || isChar LCURLY r); [done|]. by destruct (isChar LPAREN r).
Qed.

Lemma run_key l i rs t :
  idle l -> keyOk l rs -> Forall validRune rs -> Forall (fun r => needsQuote r = false) rs ->
  exists l', run l i (mjoin rs ++ t) = run l' (i + length (mjoin rs)) t /\ idle l' /\ same l l' /\
    tok l' = tok l ++ mjoin rs /\ keyOk l' [].
Proof.
  apply (run_bare keyOk); unfold keyOk.
  - intros ? ? _ [? ?]. by apply opens_key.
  - intros l' r _ [Hst _] (_ & _ & _ & _ & Heq)%needsQuote_false. split; [|done]. simpl. unfold name. rewrite Hst.
    unfold isChar. by rewrite (bool_decide_eq_false_2 (r = [EQ])).
  - intros l' j r _ [? ?]. destruct (begin_eqs j r l') as (_ & ? & ? & _). split; congruence.
Qed.

Lemma run_value l i rs t :
  idle l -> valueOk l rs -> Forall validRune rs -> Forall (fun r => needsQuote r = false) rs ->
  exists l', run l i (mjoin rs ++ t) = run l' (i + length (mjoin rs)) t /\ idle l' /\ same l l' /\
    tok l' = tok l ++ mjoin rs /\ valueOk l' [].
Proof.
  apply (run_bare valueOk); unfold valueOk.
  - intros l' r rs' [Hp Hb]. apply Forall_cons in Hp as [Hp _]. unfold opens, isChar.
    rewrite (bool_decide_eq_false_2 (r = [LPAREN])) by done. case_bool_decide as E1; simpl.
    { destruct (decide (last l' = [EQ])) as [E|E]; [by destruct (Hb E)|by apply bool_decide_eq_false]. }
    case_bool_decide as E2; simpl; [|done].
    destruct (decide (last l' = [EQ])) as [E|E]; [by destruct (Hb E)|by apply bool_decide_eq_false].
  - intros l' r rs' [Hp _] (_ & _ & _ & _ & Heq)%needsQuote_false. apply Forall_cons in Hp as [_ Hp]. by split.
  - intros l' j r rs' [Hp Hb]. destruct (begin_eqs j r l') as (_ & Hl & _). rewrite Hl. by split.
Qed.

(** Inside double quotes. *)
Definition inQuote (esc : bool) (l : lexer) : Prop :=
  closers l = [] /\ escaped l = esc /\ quote l = [DQUOTE] /\ escapes l = true.

Lemma inQuote_begin esc i r l : inQuote esc l -> inQuote esc (begin i r l).
Proof.
  destruct (begin_eqs i r l) as (_ & _ & _ & ? & ? & ?). destruct (same_begin i r l) as [_ ?].
  intros (? & ? & ? & ?). unfold inQuote. split_and!; congruence.
Qed.

Lemma feed_backslash l : inQuote false l -> feed [BACKSLASH] l = Some (set_escaped true l).
Proof. intros (Hc & He & Hq & Hes). unfold feed. by rewrite Hc, He, Hes. Qed.
Lemma feed_close l : inQuote false l -> feed [DQUOTE] l = Some (set_quote [] l).
Proof. intros (Hc & He & Hq & Hes). unfold feed. by rewrite Hc, He, Hes, Hq. Qed.
Lemma feed_in l r :
  inQuote false l -> isChar DQUOTE r = false -> isChar BACKSLASH r = false -> feed r l = Some (write r l).
Proof.
  intros (Hc & He & Hq & Hes) Hd Hb. unfold feed. rewrite Hc, He, Hes, Hq, Hb. cbn -[write DQUOTE BACKSLASH].
  unfold isChar in Hd. by rewrite Hd.
Qed.
Lemma feed_escaped l r :
  inQuote true l -> isChar DQUOTE r || isChar BACKSLASH r = true -> feed r l = Some (write r (set_escaped false l)).
Proof.
  intros (Hc & He & Hq & Hes) Hr. unfold feed. rewrite Hc, He. cbn -[write DQUOTE BACKSLASH]. rewrite Hq. cbn -[write DQUOTE BACKSLASH].
  unfold isChar in *. apply orb_true_iff in Hr as [-> | ->]; [done|by rewrite andb_false_r].
Qed.

(** Reading what [Quote] wrote between the quotes. *)
Lemma run_quoted l i rs t :
  inQuote false l -> Forall validRune rs ->
  exists l', run l i (mjoin (map quoted rs) ++ DQUOTE :: t) = run l' (i + length (mjoin (map quoted rs)) + 1) t /\
    idle l' /\ same l l' /\ tok l' = tok l ++ mjoin rs.
Proof.
  destruct validRune_quote as (HQ & HB & _). intros Hin Hrs. revert l i Hin.
  induction Hrs as [|r rs Hr _ IH]; intros l i Hin.
  - cbn [map mjoin list_join app length]. change (DQUOTE :: t) with ([DQUOTE] ++ t). rewrite run_rune by done.
    pose proof (inQuote_begin false i [DQUOTE] l Hin) as Hb. rewrite feed_close by done. rewrite Nat.add_0_r.
    exists (set_quote [] (begin i [DQUOTE] l)). destruct Hb as (? & ? & _). destruct (begin_eqs i [DQUOTE] l) as (Ht & _).
    split; [done|]. split; [by split_and!|]. split; [by apply same_begin|]. simpl. by rewrite Ht, app_nil_r.
  - change (mjoin (map quoted (r :: rs))) with (quoted r ++ mjoin (map quoted rs)). change (mjoin (r :: rs)) with (r ++ mjoin rs).
    rewrite <- app_assoc, length_app. set (rest := mjoin (map quoted rs) ++ DQUOTE :: t) in *.
    assert (Hqr : quoted r = if isChar DQUOTE r || isChar BACKSLASH r then BACKSLASH :: r else r) by done. rewrite Hqr.
    destruct (isChar DQUOTE r || isChar BACKSLASH r) eqn:E.
    + change ((BACKSLASH :: r) ++ rest) with ([BACKSLASH] ++ r ++ rest). rewrite run_rune by done.
      set (b := begin i [BACKSLASH] l). assert (Hb : inQuote false b) by by apply inQuote_begin. rewrite (feed_backslash b Hb).
      rewrite run_rune by done. set (b' := set_escaped true b).
      assert (Hb' : inQuote true (begin (i + length [BACKSLASH]) r b'))
        by (apply inQuote_begin; destruct Hb as (? & ? & ? & ?); by split_and!).
      rewrite (feed_escaped _ _ Hb' E). set (b2 := write r (set_escaped false (begin (i + length [BACKSLASH]) r b'))).
      destruct (IH b2 (i + length [BACKSLASH] + length r)) as (l' & Hrun & Hid & [Hs5 Hs6] & Htok);
        [destruct Hb' as (? & ? & ? & ?); by split_and!|].
      exists l'. rewrite Hrun. split; [f_equal; simpl; lia|]. split; [done|].
      destruct (same_begin i [BACKSLASH] l) as [Hs1 Hs2], (same_begin (i + length [BACKSLASH]) r b') as [Hs3 Hs4].
      destruct (begin_eqs i [BACKSLASH] l) as (Ht & _), (begin_eqs (i + length [BACKSLASH]) r b') as (Ht2 & _).
      clear Hb'. subst b2 b' b. simpl in *. split; [split; simpl in *; congruence|]. rewrite Htok, Ht2, <- app_assoc. by rewrite Ht.
    + rewrite run_rune by done. apply orb_false_iff in E as [E1 E2]. pose proof (inQuote_begin false i r l Hin) as Hb.
      rewrite (feed_in _ _ Hb E1 E2).
      destruct (IH (write r (begin i r l)) (i + length r)) as (l' & Hrun & Hid & [Hs5 Hs6] & Htok);
        [destruct Hb as (? & ? & ? & ?); by split_and!|].
      exists l'. rewrite Hrun. split; [f_equal; lia|]. split; [done|].
      destruct (same_begin i r l) as [Hs1 Hs2], (begin_eqs i r l) as (Ht & _).
      split; [split; simpl in *; congruence|]. rewrite Htok. simpl. by rewrite Ht, <- app_assoc.
Qed.

(** ** Options *)

(** A key as options have it, in one rune per byte. *)
Definition keyText (k : bytestr) : Prop := k <> [] /\ forallb IsKeyRune k = true.

(** A value that [Quote] makes readable after an equals sign: it is valid UTF-8,
    and it is quoted unless it has no bracket that opens a group there. *)
Definition readable (v : bytestr) : Prop :=
  exists rs, v = mjoin rs /\ Forall validRune rs /\
    (Forall (fun r => needsQuote r = false) rs ->
     Forall (fun r => r <> [LPAREN]) rs /\ match rs with r :: _ => r <> [LBRACK] /\ r <> [LCURLY] | [] => True end).

Lemma mjoin_singles (k : bytestr) : mjoin (map (fun c => [c]) k) = k.
Proof. induction k as [|c k IH]; [done|]. change (mjoin (map _ (c :: k))) with (c :: mjoin (map (fun c => [c]) k)). by rewrite IH. Qed.

Lemma key_plain c : IsKeyRune c = true -> validRune [c] /\ needsQuote [c] = false.
Proof.
  intros Hc. pose proof (IsKeyRune_ascii c Hc) as Ha. split; [by apply validRune_ascii|].
  assert (H : implb (IsKeyRune c) (negb (needsQuote [c])) = true)
    by (revert c Hc Ha; intros c _ _; apply (all_bytes (fun c => implb (IsKeyRune c) (negb (needsQuote [c])))); vm_compute; reflexivity).
  rewrite Hc in H. by apply negb_true_iff.
Qed.

Lemma key_runes k :
  forallb IsKeyRune k = true ->
  Forall validRune (map (fun c => [c]) k) /\ Forall (fun r => needsQuote r = false) (map (fun c => [c]) k).
Proof.
  induction k as [|c k IH]; simpl; intros H; [done|]. apply andb_true_iff in H as [Hc Hk].
  destruct (key_plain c Hc), (IH Hk). by split; constructor.
Qed.

Lemma feed_eq l : idle l -> tok l <> [] -> state l = inKey -> feed [EQ] l = Some (write [EQ] (set_state inName l)).
Proof.
  intros (Hc & He & Hq) Ht Hs. unfold feed. rewrite Hc, He, Hq. cbn. rewrite andb_false_r.
  unfold name. rewrite Hs. rewrite bool_decide_eq_false_2 by done. done.
Qed.

Lemma feed_dquote l : idle l -> last l = [EQ] -> feed [DQUOTE] l = Some (set_quote [DQUOTE] l).
Proof.
  intros (Hc & He & Hq) Hl. unfold feed. rewrite Hc, He, Hq. cbn. rewrite andb_false_r.
  unfold startsValue. rewrite Hl. by rewrite orb_true_r.
Qed.

(** An option read from where a token begins. *)
Lemma run_option l i k v t :
  idle l -> keyOk l [] -> tok l = [] -> escapes l = true -> keyText k -> readable v ->
  exists l', run l i (k ++ EQ :: Quote v ++ t) = run l' (i + length (k ++ EQ :: Quote v)) t /\ idle l' /\ same l l' /\
    tok l' = k ++ EQ :: v.
Proof.
  intros Hid Hk Htok Hesc [Hkne Hkt] (rs & -> & Hrs & Hopen). destruct validRune_quote as (HQ & _ & HE).
  destruct (key_runes k Hkt) as [Hkv Hkn].
  assert (Hkey : forall x, k ++ x = mjoin (map (fun c => [c]) k) ++ x) by (intros; by rewrite mjoin_singles).
  rewrite (Hkey (EQ :: Quote (mjoin rs) ++ t)).
  destruct (run_key l i (map (fun c => [c]) k) (EQ :: Quote (mjoin rs) ++ t) Hid Hk Hkv Hkn) as (l1 & Hrun1 & Hid1 & [Hs1 He1] & Ht1 & [Hst1 Hla1]).
  rewrite Hrun1. rewrite mjoin_singles, Htok in *. cbn [app] in Ht1. clear Hrun1.
  change (EQ :: ?x) with ([EQ] ++ x). rewrite run_rune by done.
  destruct (begin_eqs (i + length k) [EQ] l1) as (Hbt & Hbl & Hbs & Hbc & Hbe & Hbq). destruct (same_begin (i + length k) [EQ] l1) as [Hss1 Hss2].
  set (b := begin (i + length k) [EQ] l1) in *. destruct Hid1 as (Hc1 & Hesc1 & Hq1).
  rewrite feed_eq; [|split_and!; congruence|congruence|congruence]. set (l2 := write [EQ] (set_state inName b)).
  assert (Hid2 : idle l2) by (split_and!; simpl; congruence).
  assert (Ht2 : tok l2 = k ++ [EQ]) by (simpl; congruence).
  assert (Hsm : same l l2) by (split; simpl; congruence).
  assert (Hlen : forall (q : bytestr), i + length (k ++ EQ :: q) = i + length k + length [EQ] + length q)
    by (intros q; rewrite length_app; simpl; lia).
  destruct (needsQuote_dec rs) as [Hn|Hn].
  - rewrite (Quote_bare rs Hrs Hn). destruct (Hopen Hn) as [Hp Hb]. clear Hopen.
    destruct (run_value l2 (i + length k + length [EQ]) rs t Hid2) as (l' & Hrun & Hid' & [Hs Hes] & Htk & _); [by split|done..|].
    exists l'. rewrite Hrun. split; [by rewrite <- Hlen|]. split; [done|]. destruct Hsm. split; [split; congruence|].
    by rewrite Htk, Ht2, <- app_assoc.
  - rewrite (Quote_quoted rs Hrs Hn) in *. cbn [app]. rewrite <- app_assoc.
    change (DQUOTE :: ?x) with ([DQUOTE] ++ x) at 1. rewrite run_rune by done.
    set (j := i + length k + length [EQ]). destruct (begin_eqs j [DQUOTE] l2) as (Hct & Hcl & Hcs & Hcc & Hce & Hcq).
    destruct (same_begin j [DQUOTE] l2) as [Hss3 Hss4]. set (b3 := begin j [DQUOTE] l2) in *. destruct Hid2 as (? & ? & ?).
    rewrite feed_dquote; [|split_and!; congruence|by rewrite Hcl].
    destruct Hsm as [Hsm1 Hsm2].
    destruct (run_quoted (set_quote [DQUOTE] b3) (j + length [DQUOTE]) rs t) as (l' & Hrun & Hid' & [Hs Hes] & Htk);
      [split_and!; simpl; congruence|done|].
    cbn [app]. rewrite Hrun. exists l'. split; [f_equal; rewrite Hlen; unfold j; cbn [length]; rewrite length_app; simpl; lia|].
    split; [done|]. split; [split; simpl in *; congruence|]. rewrite Htk. simpl. by rewrite Hct, Ht2, <- app_assoc.
Qed.

(** A token ends at the end of the text or at a space. *)
Definition SP : bytestr := [" "%char].

Lemma run_end l i : idle l -> tok l <> [] ->
  run l i [] = (Some (mkToken (tok l) (start l) (length (src l))), set_pos (length (src l)) l).
Proof.
  intros (Hc & He & Hq) Ht. unfold run. cbn [length nextLoop]. simpl. rewrite He. simpl. by rewrite bool_decide_eq_false_2.
Qed.

Lemma feed_space l : idle l -> feed SP l = if bool_decide (tok l = []) then Some l else None.
Proof.
  intros (Hc & He & Hq). unfold feed. rewrite Hc, He, Hq. cbn. rewrite andb_false_r. done.
Qed.

Lemma run_space l i t : idle l -> tok l <> [] ->
  exists l', run l i (SP ++ t) = (Some (mkToken (tok l) (start l') i), l') /\ idle l' /\ same l l' /\ pos l' = i + 1.
Proof.
  intros Hid Ht. assert (HS : validRune SP) by by apply validRune_ascii. rewrite run_rune by done.
  destruct (begin_eqs i SP l) as (Hbt & _ & _ & Hbc & Hbe & Hbq). destruct (same_begin i SP l) as [H1 H2].
  destruct Hid as (? & ? & ?). rewrite feed_space by (split_and!; congruence). rewrite bool_decide_eq_false_2 by congruence.
  rewrite Hbt. exists (set_pos (i + length SP) (begin i SP l)). split; [done|]. split; [by split_and!; simpl; congruence|].
  by split.
Qed.

(** The text of the options from where the first begins. *)
Definition body (kvs : list (bytestr * bytestr)) : bytestr :=
  match kvs with [] => [] | kv :: r => kv.1 ++ EQ :: Quote kv.2 ++ options_ r end.
Lemma options_body kvs : options_ kvs = match kvs with [] => [] | _ => SP ++ body kvs end.
Proof.
  destruct kvs as [|[k v] r]; [done|]. unfold options_. change (mjoin (map ?f (?x :: r))) with (f x ++ mjoin (map f r)).
  cbn beta. unfold option_. cbn [fst snd]. unfold body, SP. cbn [fst snd app]. by rewrite <- app_assoc.
Qed.

Definition okOption (kv : bytestr * bytestr) : Prop := keyText kv.1 /\ readable kv.2.

Lemma reset_fresh l : idle (reset l) /\ keyOk (reset l) [] /\ tok (reset l) = [] /\ same l (reset l).
Proof. by split_and!. Qed.

Lemma run_skip l i t : idle l -> tok l = [] -> begun l = false -> run l i (SP ++ t) = run l (i + 1) t.
Proof.
  intros Hid Ht Hb. assert (HS : validRune SP) by by apply validRune_ascii. rewrite run_rune by done.
  unfold begin. rewrite Hb. change (IsSpace SP) with true. cbn [negb andb]. by rewrite feed_space, bool_decide_eq_true_2.
Qed.

Lemma next_run l : next l = run (reset l) (pos l) (drop (pos l) (src l)).
Proof. unfold next. apply nextLoop_fuel. rewrite length_drop. simpl. lia. Qed.

Lemma next_option l pre k v r :
  (pre = [] \/ pre = SP) -> escapes l = true -> keyText k -> readable v ->
  drop (pos l) (src l) = pre ++ k ++ EQ :: Quote v ++ options_ r ->
  exists t l', next l = (Some t, l') /\ val t = k ++ EQ :: v /\ src l' = src l /\ escapes l' = true /\ idle l' /\
    drop (pos l') (src l') = body r.
Proof.
  intros Hpre Hesc Hk Hv Hd. rewrite next_run, Hd. destruct (reset_fresh l) as (Hid & Hko & Htok & [Hs He]).
  set (j := pos l + length pre). rewrite <- He in Hesc.
  assert (Hstart : run (reset l) (pos l) (pre ++ k ++ EQ :: Quote v ++ options_ r) = run (reset l) j (k ++ EQ :: Quote v ++ options_ r)).
  { unfold j. destruct Hpre as [-> | ->]; [by rewrite Nat.add_0_r|]. by apply run_skip. }
  rewrite Hstart. destruct (run_option (reset l) j k v (options_ r) Hid Hko Htok Hesc Hk Hv) as (l' & Hrun & Hid' & [Hs' He'] & Ht').
  assert (Hne : tok l' <> []) by (rewrite Ht'; by destruct k).
  rewrite Hrun, options_body. destruct r as [|kv r].
  - rewrite run_end by done. exists (mkToken (tok l') (start l') (length (src l'))), (set_pos (length (src l')) l').
    split; [done|]. split; [done|]. split; [simpl; congruence|]. split; [simpl; congruence|]. split; [done|].
    simpl. by rewrite drop_all.
  - destruct (run_space l' (j + length (k ++ EQ :: Quote v)) (body (kv :: r)) Hid' Hne) as (l2 & Hr2 & Hid2 & [Hs2 He2] & Hp2).
    rewrite Hr2. eexists _, l2. split; [done|]. split; [done|]. split; [congruence|]. split; [congruence|]. split; [done|].
    rewrite Hp2, Hs2, Hs', Hs. unfold j. rewrite <- !Nat.add_assoc, <- drop_drop, Hd, options_body.
    assert (Hlen : length pre + (length (k ++ EQ :: Quote v) + 1) = length (pre ++ (k ++ EQ :: Quote v) ++ SP))
      by (rewrite !length_app; simpl; lia).
    rewrite Hlen. change (EQ :: Quote v ++ SP ++ body (kv :: r)) with ((EQ :: Quote v) ++ SP ++ body (kv :: r)).
    rewrite !app_assoc, <- (app_assoc pre k), <- (app_assoc pre (k ++ EQ :: Quote v)). apply drop_app_length.
Qed.

Lemma tokens_options kvs : forall l fuel pre,
  Forall okOption kvs -> (pre = [] \/ pre = SP /\ kvs <> []) -> escapes l = true -> drop (pos l) (src l) = pre ++ body kvs ->
  length kvs < fuel ->
  map (fun t : token * lexer => val t.1) (tokens fuel l) = map (fun kv => kv.1 ++ EQ :: kv.2) kvs /\
  Forall (fun t : token * lexer => openCloser t.2 = []) (tokens fuel l).
Proof.
  induction kvs as [|[k v] r IH]; intros l fuel pre Hok Hpre Hesc Hd Hf; (destruct fuel; [lia|]).
  - destruct Hpre as [-> |[_ ?]]; [|done]. cbn [tokens]. rewrite next_run, Hd. unfold run. by cbn.
  - apply Forall_cons in Hok as [[Hk Hv] Hok]. cbn [fst snd] in *.
    destruct (next_option l pre k v r) as (t & l' & Hn & Ht & Hs & He & (Hc & _ & Hq) & Hd'); [naive_solver|done..|].
    cbn [tokens]. rewrite Hn. cbn [map fst snd]. destruct (IH l' fuel [] Hok) as [Hm Ha]; [by left|done..|simpl in Hf; lia|].
    split; [by rewrite Hm, Ht|]. constructor; [|done]. simpl. unfold openCloser. by rewrite Hc.
Qed.

Lemma lexAll_options kvs :
  Forall okOption kvs ->
  fieldsEscaped (options_ kvs) = map (fun kv => kv.1 ++ EQ :: kv.2) kvs /\ OptionsOpen (options_ kvs) = [].
Proof.
  intros Hok. destruct (tokens_options kvs (newLexer true (options_ kvs)) (S (length (options_ kvs)))
    (match kvs with [] => [] | _ => SP end) Hok) as [Hm Ha].
  - destruct kvs; [by left|by right].
  - done.
  - simpl. rewrite options_body at 1. by destruct kvs.
  - assert (H : length kvs <= length (options_ kvs)); [|lia]. unfold options_. clear Hok. induction kvs as [|kv kvs IH]; [done|].
    change (mjoin (map ?f (kv :: kvs))) with (f kv ++ mjoin (map f kvs)). cbn beta. rewrite length_app. simpl. lia.
  - split; [done|]. unfold OptionsOpen, lexAll. clear Hm. revert Ha. generalize (tokens (S (length (options_ kvs))) (newLexer true (options_ kvs))).
    intros l. induction l as [|t l' _] using rev_ind; intros Ha; [done|]. rewrite foldl_app. simpl.
    by apply Forall_app in Ha as [_ [? _]%Forall_cons].
Qed.

(** ** The last rune of a text *)

Definition contByte (c : Ascii.ascii) : bool := ((128 <=? byte_val c) && (byte_val c <=? 191))%N.

Lemma in_range_cont b lo hi : in_range b lo hi = true -> (128 <= lo)%Z -> (hi <= 191)%Z -> contByte b = true.
Proof. unfold in_range, contByte. rewrite !andb_true_iff, !Z.leb_le, !N.leb_le. lia. Qed.

Lemma if_between (c : bool) (x y lo hi : Z) :
  (lo <= x <= hi)%Z -> (lo <= y <= hi)%Z -> (lo <= (if c then x else y) <= hi)%Z.
Proof. by destruct c. Qed.

Lemma validRune_bytes b r : validRune (b :: r) -> contByte b = false /\ Forall (fun c => contByte c = true) r.
Proof.
  intros [_ [v Hv]]. unfold decode_rune in Hv. unfold contByte at 1.
  destruct (Z.of_N (byte_val b) <? 128)%Z eqn:E1.
  { apply Z.ltb_lt in E1. destruct r; [|simpl in Hv; congruence]. split; [|done].
    apply andb_false_iff. left. apply N.leb_gt. lia. }
  destruct (Z.of_N (byte_val b) <? 194)%Z eqn:E2; [done|]. apply Z.ltb_ge in E2.
  split; [apply andb_false_iff; right; apply N.leb_gt; lia|].
  destruct (Z.of_N (byte_val b) <? 224)%Z; [|destruct (Z.of_N (byte_val b) <? 240)%Z; [|destruct (Z.of_N (byte_val b) <? 245)%Z; [|done]]].
  - destruct r as [|b1 [|? ?]]; try (simpl in Hv; repeat case_match; congruence).
    destruct (in_range b1 128 191) eqn:H1; [|done]. repeat constructor. apply (in_range_cont _ _ _ H1); lia.
  - destruct r as [|b1 [|b2 [|? ?]]]; try (simpl in Hv; repeat case_match; congruence).
    set (lo := if (Z.of_N (byte_val b) =? 224)%Z then 160%Z else 128%Z) in *.
    set (hi := if (Z.of_N (byte_val b) =? 237)%Z then 159%Z else 191%Z) in *.
    assert (128 <= lo <= 191)%Z by (apply if_between; lia). assert (128 <= hi <= 191)%Z by (apply if_between; lia).
    destruct (in_range b1 lo hi && in_range b2 128 191) eqn:H1; [|done]. apply andb_true_iff in H1 as [H1 H2].
    repeat constructor; [apply (in_range_cont _ _ _ H1); lia|apply (in_range_cont _ _ _ H2); lia].
  - destruct r as [|b1 [|b2 [|b3 [|? ?]]]]; try (simpl in Hv; repeat case_match; congruence).
    set (lo := if (Z.of_N (byte_val b) =? 240)%Z then 144%Z else 128%Z) in *.
    set (hi := if (Z.of_N (byte_val b) =? 244)%Z then 143%Z else 191%Z) in *.
    assert (128 <= lo <= 191)%Z by (apply if_between; lia). assert (128 <= hi <= 191)%Z by (apply if_between; lia).
    destruct (in_range b1 lo hi && in_range b2 128 191 && in_range b3 128 191) eqn:H1; [|done].
    apply andb_true_iff in H1 as [[H1 H2]%andb_true_iff H3].
    repeat constructor; [apply (in_range_cont _ _ _ H1); lia|apply (in_range_cont _ _ _ H2); lia|apply (in_range_cont _ _ _ H3); lia].
Qed.

(** Two runes that end one text are the same. *)
Lemma last_runes (p q r1 r2 : bytestr) : validRune r1 -> validRune r2 -> p ++ r1 = q ++ r2 -> r1 = r2.
Proof.
  assert (Hshort : forall p q r1 r2 : bytestr, validRune r1 -> validRune r2 -> p ++ r1 = q ++ r2 -> length p <= length q -> r1 = r2).
  { clear. intros p q r1 r2 H1 H2 E Hl. assert (Hq : q = p ++ drop (length p) q).
    { rewrite <- (take_drop (length p) q) at 1. f_equal. apply (f_equal (take (length p))) in E.
      rewrite take_app_length, take_app_le in E by lia. done. }
    rewrite Hq, <- app_assoc in E. apply app_inj_1 in E as [_ E]; [|done]. destruct (drop (length p) q) as [|c x]; [done|].
    exfalso. destruct r1 as [|b1 r1]; [by destruct H1|]. injection E as -> E. apply validRune_bytes in H1 as [_ H1].
    destruct r2 as [|b2 r2]; [by destruct H2|]. apply validRune_bytes in H2 as [H2 _]. rewrite E in H1.
    apply Forall_app in H1 as [_ [H1 _]%Forall_cons]. congruence. }
  intros H1 H2 E. destruct (Nat.le_ge_cases (length p) (length q)); [by eapply Hshort|symmetry; by eapply Hshort].
Qed.

Lemma cut_Some w l t : cut w l = Some t -> l = w ++ t.
Proof.
  revert l. induction w as [|a w IH]; intros l; simpl; [by intros [= ->]|]. destruct l as [|b l]; [done|].
  case_bool_decide; [|done]. intros E. by rewrite (IH _ E); subst.
Qed.

(** A text that ends with a rune that is no space has no space at its end. *)
Lemma lastRune_space p r : validRune r -> r ∉ spaces -> cutAny (map (@rev Ascii.ascii) spaces) (rev (p ++ r)) = None.
Proof.
  intros Hr Hs. assert (Hgen : forall ws, (forall w, w ∈ ws -> w ∈ spaces) -> cutAny (map (@rev Ascii.ascii) ws) (rev (p ++ r)) = None).
  { induction ws as [|w ws IH]; intros Hws; [done|]. cbn [map cutAny]. destruct (cut (rev w) (rev (p ++ r))) as [t|] eqn:E.
    - exfalso. apply cut_Some in E. apply (f_equal (@rev _)) in E. rewrite rev_involutive, rev_app_distr, rev_involutive in E.
      assert (Hw : w ∈ spaces) by (apply Hws, list_elem_of_here).
      pose proof (last_runes p (rev t) r w Hr (space_valid w Hw) E). by subst.
    - apply IH. intros w' Hw'. by apply Hws, list_elem_of_further. }
  by apply Hgen.
Qed.

(** ** Options and lines read back *)

Section roundtrip.
Context {unicode : Unicode}.

(** An option that [put] keeps as it is: a key in lower case, a trimmed value. *)
Definition goodOption (kv : bytestr * bytestr) : Prop :=
  okOption kv /\ ToLower (str kv.1) = str kv.1 /\ TrimSpace (str kv.2) = str kv.2.

Definition setAll (kvs : list (bytestr * bytestr)) (m : gmap string string) : gmap string string :=
  foldl (fun m kv => <[str kv.1 := str kv.2]> m) m kvs.

Lemma trim_key k : keyText k -> TrimSpace (str k) = str k /\ str k <> "" /\ EQ ∉ k.
Proof.
  intros [Hne Hk]. rewrite forallb_forall in Hk. split_and!.
  - assert (Hsp : forall c r, In c k -> forall ws, Forall (fun w : rune => match head w with Some c => IsKeyRune c = false | None => False end) ws ->
      cutAny ws (c :: r) = None).
    { intros c r Hc ws. induction 1 as [|w ws Hw _ IH]; [done|]. cbn [cutAny]. destruct w as [|a w]; [done|]. cbn in Hw.
      cbn [cut]. rewrite bool_decide_eq_false_2; [done|]. intros ->. by rewrite (Hk c Hc) in Hw. }
    apply TrimSpace_fixed; rewrite bytes_str.
    + destruct k as [|c k]; [done|]. apply Hsp; [by left|].
      apply Forall_forall. intros w Hw. destruct (space_head w Hw) as (a & r & -> & Ha & _). exact Ha.
    + destruct (rev k) as [|c r] eqn:E; [by rewrite <- (rev_involutive k), E in Hne|].
      apply Hsp; [apply in_rev; rewrite E; by left|]. assert (Hall : forallb (fun w : rune =>
        match head w with Some c => negb (IsKeyRune c) | None => false end) (map (@rev Ascii.ascii) spaces) = true) by (vm_compute; reflexivity).
      rewrite forallb_forall in Hall. apply Forall_forall. intros w Hw. apply list_elem_of_In, Hall in Hw.
      destruct (head w); [by apply negb_true_iff|done].
  - by destruct k.
  - intros Hin. apply list_elem_of_In, Hk in Hin. done.
Qed.

Lemma collect_good kvs : forall o,
  Forall goodOption kvs -> NoDup (map fst kvs) -> (forall k, k ∈ map fst kvs -> vals o !! str k = None) ->
  collectLoop true (map (fun kv => kv.1 ++ EQ :: kv.2) kvs) o [] = (mkOptions (setAll kvs (vals o)) (clash o), []).
Proof.
  induction kvs as [|[k v] kvs IH]; intros o Hok Hnd Hnew; [by destruct o|]. cbn [map collectLoop fst snd].
  apply Forall_cons in Hok as [[[Hk _] [Hlow Htrim]] Hok]. cbn [fst snd] in *. destruct (trim_key k Hk) as (Htk & Hne & Heq).
  rewrite cutAt_app by done. unfold put. rewrite Htk, Hlow. rewrite bool_decide_eq_false_2 by done.
  apply NoDup_cons in Hnd as [Hni Hnd]. unfold Has. rewrite (Hnew k) by apply list_elem_of_here.
  rewrite bool_decide_eq_false_2 by (by intros []). cbn [repeats_add]. rewrite Htrim. unfold repeats_add. cbn.
  rewrite IH; [done|done..|]. intros k' Hk'. simpl. rewrite lookup_insert_ne; [apply Hnew; by apply list_elem_of_further|].
  intros Heq'. apply (f_equal bytes) in Heq'. rewrite !bytes_str in Heq'. by subst.
Qed.

Lemma options_read d kvs :
  Forall goodOption kvs -> NoDup (map fst kvs) ->
  ParseOptions d (options_ kvs) = (mkOptions (setAll kvs ∅) ∅, []).
Proof.
  intros Hok Hnd. unfold ParseOptions, parseOptions, collectOptions.
  destruct (lexAll_options kvs) as [-> _]; [eapply Forall_impl; [exact Hok|]; by intros ? [? _]|].
  by rewrite collect_good.
Qed.

Lemma splitAt_none c l : c ∉ l -> splitAt c l = [l].
Proof.
  induction l as [|a l IH]; intros Hc; [done|]. apply not_elem_of_cons in Hc as [Hne Hl]. simpl.
  by rewrite bool_decide_eq_false_2, IH.
Qed.

(** What ends a written line is no space: a key, an equals sign or a quote. *)
Lemma Quote_noLF rs : Forall validRune rs -> LF ∉ mjoin rs -> LF ∉ Quote (mjoin rs).
Proof.
  intros Hrs Hl. destruct (needsQuote_dec rs) as [Hn|Hn]; [by rewrite Quote_bare|]. rewrite Quote_quoted by done.
  rewrite not_elem_of_cons, not_elem_of_app. split_and!; [done| |by intros ?%list_elem_of_singleton].
  clear Hn. induction Hrs as [|r rs _ _ IH]; [by intros []%elem_of_nil|].
  change (mjoin (r :: rs)) with (r ++ mjoin rs) in Hl. change (mjoin (map quoted (r :: rs))) with (quoted r ++ mjoin (map quoted rs)).
  apply not_elem_of_app in Hl as [Hr Hl]. rewrite not_elem_of_app. split; [|by apply IH].
  unfold quoted. destruct (_ || _); [by apply not_elem_of_cons|done].
Qed.

(** The text of a call read back: a directive's name, a space and an argument
    that neither starts with a separator nor ends with a space. *)
Definition firstRune (l : bytestr) (r : rune) : Prop := validRune r /\ exists t, l = r ++ t.
Definition lastRune (l : bytestr) (r : rune) : Prop := validRune r /\ exists p, l = p ++ r.

Lemma key_noSep k : forallb IsKeyRune k = true -> Forall (fun r => IsArgSep r = false) (map (fun c => [c]) k).
Proof.
  intros Hk. apply Forall_forall. intros r Hr. apply list_elem_of_fmap in Hr as (c & -> & Hc).
  assert (Hck : IsKeyRune c = true) by (rewrite forallb_forall in Hk; by apply Hk, list_elem_of_In).
  destruct (key_plain c Hck) as [_ (Hs & _)%needsQuote_false]. unfold IsArgSep, IsSpace, isChar.
  rewrite (bool_decide_eq_false_2 (_ ∈ _)) by done. rewrite bool_decide_eq_false_2; [done|]. intros [= ->]. done.
Qed.

Lemma Parse_text d arg :
  keyText (bytes d) -> ToLower d = d -> trimLeftFunc IsArgSep arg = arg -> trimRightSpace arg = arg ->
  Parse (bytes (Tag d) ++ SP ++ arg) = Some (mkCall (Canonical d) d arg (2 + String.length d)).
Proof.
  intros [Hne Hk] Hlow Hleft Hright.
  change (bytes (Tag d)) with ("@"%char :: bytes d). cbn [app Parse].
  change (negb (bool_decide ("@"%char = "@"%char))) with false. cbn iota.
  destruct (key_runes _ Hk) as [Hkv Hkn]. set (ks := map (fun c => [c]) (bytes d)) in *.
  assert (Hd : bytes d = mjoin ks) by (symmetry; apply mjoin_singles).
  assert (Hlead : trimLeftFunc IsSpace (bytes d ++ SP ++ arg) = bytes d ++ SP ++ arg).
  { destruct (bytes d) as [|c l] eqn:E; [done|]. change ((c :: l) ++ SP ++ arg) with ([c] ++ l ++ SP ++ arg).
    simpl in Hk. apply andb_true_iff in Hk as [Hc _]. destruct (key_plain c Hc) as [Hv (Hs & _)%needsQuote_false].
    apply trimLeftFunc_stop; [done|]. by apply bool_decide_eq_false. }
  rewrite Hlead, Nat.sub_diag.
  assert (HS : validRune SP) by by apply validRune_ascii.
  rewrite Hd, cutFunc_valid by (done || by apply key_noSep). cbn [from_option id]. rewrite <- Hd, str_bytes, Hlow.
  rewrite bool_decide_eq_false_2 by (intros ->; done).
  rewrite trimLeftFunc_skip, Hleft, Hright by done.
  f_equal. f_equal. rewrite length_app, length_bytes. simpl. lia.
Qed.

Lemma Parse_bare d : keyText (bytes d) -> ToLower d = d -> Parse (bytes (Tag d)) = Some (mkCall (Canonical d) d [] (1 + String.length d)).
Proof.
  intros [Hne Hk] Hlow. change (bytes (Tag d)) with ("@"%char :: bytes d). cbn [Parse].
  change (negb (bool_decide ("@"%char = "@"%char))) with false. cbn iota.
  destruct (key_runes _ Hk) as [Hkv Hkn]. assert (Hd : bytes d = mjoin (map (fun c => [c]) (bytes d))) by (symmetry; apply mjoin_singles).
  assert (Hlead : trimLeftFunc IsSpace (bytes d) = bytes d).
  { destruct (bytes d) as [|c l] eqn:E; [done|]. change (c :: l) with ([c] ++ l).
    simpl in Hk. apply andb_true_iff in Hk as [Hc _]. destruct (key_plain c Hc) as [Hv (Hs & _)%needsQuote_false].
    apply trimLeftFunc_stop; [done|]. by apply bool_decide_eq_false. }
  rewrite Hlead, Nat.sub_diag. rewrite Hd, cutFunc_none by (done || by apply key_noSep). cbn [from_option default id]. rewrite <- Hd, str_bytes, Hlow.
  rewrite bool_decide_eq_false_2 by (intros ->; done). f_equal. f_equal. rewrite length_bytes. simpl. lia.
Qed.

Lemma Parse_call d arg r1 r2 :
  keyText (bytes d) -> ToLower d = d -> firstRune arg r1 -> IsArgSep r1 = false -> lastRune arg r2 -> r2 ∉ spaces ->
  Parse (bytes (Tag d) ++ SP ++ arg) = Some (mkCall (Canonical d) d arg (2 + String.length d)).
Proof.
  intros Hd Hlow [Hr1 [t Ht]] Hsep [Hr2 [p Hp]] Hr2s. apply Parse_text; [done..| |].
  - rewrite Ht. by apply trimLeftFunc_stop.
  - unfold trimRightSpace. rewrite trimFront_None; [by rewrite rev_involutive|]. rewrite Hp. by apply lastRune_space.
Qed.

Lemma Quote_last rs : Forall validRune rs -> rs <> [] -> exists r, lastRune (Quote (mjoin rs)) r /\ r ∉ spaces.
Proof.
  intros Hrs Hne. destruct (needsQuote_dec rs) as [Hn|Hn].
  - rewrite Quote_bare by done. destruct rs as [|r rs _] using rev_ind; [done|]. exists r.
    apply Forall_app in Hrs as [_ [Hr _]%Forall_cons]. apply Forall_app in Hn as [_ [(Hs & _)%needsQuote_false _]%Forall_cons].
    split; [|done]. split; [done|]. exists (mjoin rs). rewrite join_app. f_equal. apply app_nil_r.
  - rewrite Quote_quoted by done. exists [DQUOTE]. split; [|vm_compute; set_solver]. split; [apply validRune_quote|].
    by exists (DQUOTE :: mjoin (map quoted rs)).
Qed.

Lemma options_last kvs : Forall okOption kvs -> kvs <> [] -> exists r, lastRune (options_ kvs) r /\ r ∉ spaces.
Proof.
  destruct kvs as [|[k v] kvs _] using rev_ind; [done|]. intros [_ [[_ (rs & Hv & Hrs & _)] _]%Forall_cons]%Forall_app _.
  cbn [snd] in Hv. subst v.
  unfold options_. rewrite map_app, join_app. cbn [map mjoin list_join fst snd]. rewrite app_nil_r. unfold option_.
  set (p := mjoin (map (fun kv : bytestr * bytestr => option_ kv.1 kv.2) kvs)). cbn [fst snd]. destruct rs as [|r rs].
  - exists [EQ]. split; [|vm_compute; set_solver]. split; [apply validRune_quote|]. exists (p ++ " "%char :: k).
    change (Quote (mjoin [])) with (@nil Ascii.ascii). by rewrite <- app_assoc.
  - destruct (Quote_last (r :: rs) Hrs ltac:(done)) as (x & [Hx (q & ->)] & Hxs). exists x. split; [|done]. split; [done|].
    exists (p ++ " "%char :: k ++ EQ :: q). rewrite <- app_assoc. cbn [app]. do 2 f_equal. by rewrite <- app_assoc.
Qed.

Lemma Quote_first rs t :
  Forall validRune rs -> rs <> [] -> (Forall (fun r => needsQuote r = false) rs -> head rs <> Some [":"%char]) ->
  exists r, firstRune (Quote (mjoin rs) ++ t) r /\ IsArgSep r = false.
Proof.
  intros Hrs Hne Hcol. destruct (needsQuote_dec rs) as [Hn|Hn].
  - rewrite Quote_bare by done. destruct rs as [|r rs]; [done|]. exists r. pose proof Hrs as [Hr _]%Forall_cons.
    pose proof Hn as [(Hs & _)%needsQuote_false _]%Forall_cons. split.
    + split; [done|]. exists (mjoin rs ++ t). change (mjoin (r :: rs)) with (r ++ mjoin rs). by rewrite <- app_assoc.
    + unfold IsArgSep, IsSpace, isChar. rewrite (bool_decide_eq_false_2 (_ ∈ _)) by done.
      rewrite bool_decide_eq_false_2; [done|]. intros ->. by apply (Hcol Hn).
  - rewrite Quote_quoted by done. exists [DQUOTE]. split; [|done]. split; [apply validRune_quote|].
    by exists ((mjoin (map quoted rs) ++ [DQUOTE]) ++ t).
Qed.

Lemma ends_options kvs : ends (options_ kvs).
Proof.
  rewrite options_body. destruct kvs as [|kv kvs]; [by left|]. right. exists SP, (body (kv :: kvs)). split; [|done].
  vm_compute. set_solver.
Qed.

End roundtrip.

(** ** A concrete line *)

Lemma key_demo k : forallb IsKeyRune k = true -> k <> [] -> keyText k.
Proof. by split. Qed.

Definition demoOptions : list (bytestr * bytestr) :=
  [(bytes "using", bytes "First"); (bytes "vars.request.q", bytes "f(a b) \"); (bytes "on-failure", [])].

Lemma valid_ascii_text s : forallb (fun c => (byte_val c <? 128)%N) (bytes s) = true ->
  exists rs, bytes s = mjoin rs /\ Forall validRune rs /\ rs = map (fun c => [c]) (bytes s).
Proof.
  intros H. exists (map (fun c => [c]) (bytes s)). split; [by rewrite mjoin_singles|]. split; [|done].
  apply Forall_forall. intros r Hr. apply list_elem_of_fmap in Hr as (c & -> & Hc). apply validRune_ascii.
  rewrite forallb_forall in H. apply N.ltb_lt, H. by apply list_elem_of_In.
Qed.

Lemma demo_good : Forall (@goodOption Names.ascii) demoOptions.
Proof.
  assert (Hr : forall s, forallb (fun c => (byte_val c <? 128)%N) (bytes s) = true ->
    forallb (fun c => negb (needsQuote [c])) (bytes s) = false \/ forallb (fun c => negb (isOpener [c])) (bytes s) = true ->
    readable (bytes s)).
  { intros s Ha Hs. destruct (valid_ascii_text s Ha) as (rs & Hm & Hv & ->). exists (map (fun c => [c]) (bytes s)).
    split; [done|]. split; [done|]. intros Hn. destruct Hs as [Hs|Hs].
    - exfalso. rewrite <- not_true_iff_false in Hs. apply Hs, forallb_forall. intros c Hc. apply negb_true_iff.
      rewrite Forall_forall in Hn. apply Hn. apply list_elem_of_In in Hc. by apply (list_elem_of_fmap_2 (fun c => [c])).
    - rewrite forallb_forall in Hs. split.
      + apply Forall_forall. intros r Hr ->. apply list_elem_of_fmap in Hr as (c & [= <-] & Hc). apply list_elem_of_In, Hs in Hc. done.
      + destruct (bytes s) as [|c l]; [done|]. specialize (Hs c (or_introl eq_refl)). simpl. split; intros [= ->]; done. }
  assert (Hg : forall k v, keyText k -> readable v -> @ToLower Names.ascii (str k) = str k -> TrimSpace (str v) = str v ->
    @goodOption Names.ascii (k, v)) by (intros; split; [split|split]; done).
  unfold demoOptions. constructor; [|constructor; [|constructor; [|constructor]]];
    (apply Hg; [apply key_demo; [reflexivity|discriminate]| |vm_compute; reflexivity|vm_compute; reflexivity]).
  - apply (Hr "First"); [vm_compute; reflexivity|right; vm_compute; reflexivity].
  - apply (Hr "f(a b) \"); [vm_compute; reflexivity|left; vm_compute; reflexivity].
  - apply (Hr ""); [vm_compute; reflexivity|right; vm_compute; reflexivity].
Qed.


(** ** Two findings *)

(** [Quote] leaves a value bare that has no space, quote, backslash or equals
    sign, but after an equals sign the lexer opens a group at a bracket: an option
    with an unmatched one swallows the options after it (a finding). *)
Lemma bracket_value_swallows :
  @ParseOptions Names.ascii "step" (options_ [(bytes "vars.q", bytes "f(a"); (bytes "on-failure", bytes "stop")])
  = (mkOptions {["vars.q" := "f(a on-failure=stop"]} ∅, []).
Proof. vm_compute. reflexivity. Qed.

(** A name that starts with a colon stays bare, but [Parse] takes the colon for a
    separator after the directive's name (a finding). *)
Lemma colon_name_lost :
  match @Parse Names.ascii (drop 2 (head_ "step" (Quote (bytes ":a")) ++ options_ [(bytes "using", bytes "r")])) with
  | Some call => CutName (cArgs call) = (bytes "a", bytes " using=r")
  | None => False
  end.
Proof. vm_compute. reflexivity. Qed.
