(* ===== verification/DirectiveSpans.v ===== *)
(** * Tokens and their spans

    The lexer's tokens lie in the text where their spans say, in order and
    separated by spaces, and the text of a span alone lexes to the same token:
    what a field means does not depend on the fields around it. *)
From stdpp Require Import base list strings gmap.
From Stdlib Require Import Ascii ZArith Lia.
From S2P Require Import Prelude GoStd GoPath Names Text Directive DirectiveFacts.

Open Scope string_scope.
Open Scope nat_scope.
Open Scope list_scope.

Import Directive.

(** ** A lexer at another place *)

(** The same lexer on another text, at other offsets. *)
Definition place (s : bytestr) (p st : nat) (l : lexer) : lexer :=
  mkLexer s p (escapes l) (tok l) (last l) (quote l) (escaped l) (begun l) st (closers l) (inString l) (strEsc l) (state l).

Lemma group_place s p st r l : group r (place s p st l) = place s p st (group r l).
Proof. unfold group, push, pop. destruct l; simpl. repeat case_match; done. Qed.
Lemma push_place s p st r l : push r (place s p st l) = place s p st (push r l).
Proof. unfold push. repeat case_match; done. Qed.
Lemma name_place s p st r l : name r (place s p st l) = place s p st (name r l).
Proof. unfold name. destruct l; simpl. repeat case_match; done. Qed.
Lemma write_place s p st r l : write r (place s p st l) = place s p st (write r l).
Proof. done. Qed.

Lemma feed_place s p st r l : feed r (place s p st l) = place s p st <$> feed r l.
Proof.
  unfold feed. change (closers (place s p st l)) with (closers l). change (escaped (place s p st l)) with (escaped l).
  change (escapes (place s p st l)) with (escapes l). change (quote (place s p st l)) with (quote l).
  change (tok (place s p st l)) with (tok l). change (opens (place s p st l) r) with (opens l r).
  change (startsValue (place s p st l)) with (startsValue l).
  destruct (negb _); [by rewrite group_place|]. destruct (escaped l).
  - change (quote (set_escaped false (place s p st l))) with (quote l). change (quote (set_escaped false l)) with (quote l).
    by destruct (_ && _).
  - destruct (_ && _); [done|]. destruct (negb _); [by destruct (bool_decide _)|].
    destruct (opens l r); [by rewrite write_place, push_place|]. destruct (_ && _); [done|].
    destruct (IsSpace r); [by destruct (bool_decide _)|]. by rewrite name_place.
Qed.

(** A token that a space ends. *)
Lemma feed_None l r : feed r l = None -> closers l = [] /\ escaped l = false /\ quote l = [] /\ tok l <> [] /\ IsSpace r = true.
Proof.
  unfold feed. destruct (bool_decide (closers l = [])) eqn:Ec; [|done]. apply bool_decide_eq_true in Ec. cbn [negb].
  destruct (escaped l); [by destruct (_ && _)|]. destruct (_ && _); [done|].
  destruct (bool_decide (quote l = [])) eqn:Eq; cbn [negb]; [|by destruct (bool_decide (r = quote l))].
  apply bool_decide_eq_true in Eq. destruct (opens l r); [done|]. destruct (_ && _); [done|].
  destruct (IsSpace r); [|done]. case_bool_decide; [done|]. done.
Qed.

(** Feeding keeps the place. *)
Lemma feed_same l r l' :
  feed r l = Some l' -> src l' = src l /\ escapes l' = escapes l /\ start l' = start l /\ begun l' = begun l.
Proof.
  intros H. assert (Hp : place (src l) (pos l) (start l) l = l) by by destruct l.
  pose proof (feed_place (src l) (pos l) (start l) r l) as Hf. rewrite Hp, H in Hf. injection Hf as Hf.
  assert (Hesc : escapes l' = escapes l /\ begun l' = begun l).
  { clear -H. revert H. unfold feed, group, push, pop, name, write. repeat case_match; intros [= <-]; done. }
  destruct Hesc as [He Hb]. split; [by rewrite Hf|]. split; [done|]. split; [by rewrite Hf|done].
Qed.

(** A space is the rune its bytes encode. *)
Lemma headRune_split l : l <> [] ->
  l = take (headRune l).2 l ++ drop (headRune l).2 l /\ (IsSpace (headRune l).1 = true -> (headRune l).1 = take (headRune l).2 l).
Proof.
  intros Hl. split; [by rewrite take_drop|]. unfold headRune. destruct (decode_rune l) as [[v n]|]; [done|].
  intros H%bool_decide_eq_true. exfalso. revert H. vm_compute. set_solver.
Qed.

(** What a rune reads as does not depend on the text after it. *)
Lemma headRune_take l k : l <> [] -> (headRune l).2 <= k -> headRune (take k l) = headRune l.
Proof.
  intros Hl Hk. unfold headRune in *. destruct (decode_rune l) as [[v n]|] eqn:E; cbn [snd] in Hk.
  - pose proof (decode_rune_prefix _ _ _ E) as Hp. pose proof (decode_rune_width _ _ _ E) as Hw.
    assert (Ht : take k l = take n l ++ drop n (take k l)).
    { rewrite <- (take_drop n (take k l)) at 1. by rewrite take_take, Nat.min_l. }
    rewrite Ht. rewrite (decode_rune_app _ _ _ _ Hp). by rewrite take_app_length' by (rewrite length_take; lia).
  - destruct (decode_rune (take k l)) as [[v n]|] eqn:E2; [|done]. exfalso.
    pose proof (decode_rune_app _ (drop k l) _ _ E2) as H. rewrite take_drop in H. congruence.
Qed.

(** ** Tokens *)

(** Nothing is left, or a space. *)
Definition stops (rest : bytestr) : Prop := rest = [] \/ exists sp rest', sp ∈ spaces /\ rest = sp ++ rest'.

(** A token that has begun: it ends where its span says, and its text alone, from
    any place, gives the same token. *)
Definition alone (l : lexer) (body : bytestr) (v : bytestr) : Prop :=
  forall s p st j, j + length body = length s ->
  exists l2, run (place s p st l) j body = (Some (mkToken v st (j + length body)), l2) /\ same (place s p st l) l2 /\ pos l2 = length s.

Definition stopsAt (rest : bytestr) (k : nat) : Prop :=
  rest = [] /\ k = 0 \/ exists sp rest', sp ∈ spaces /\ rest = sp ++ rest' /\ k = length sp.

Lemma alone_end l : escaped l = false -> tok l <> [] -> alone l [] (tok l).
Proof.
  intros He Ht s p st j Hj. unfold run. cbn. rewrite He. cbn. rewrite bool_decide_eq_false_2 by done.
  simpl in Hj. rewrite Nat.add_0_r in Hj |- *. rewrite Hj. by eexists.
Qed.

Lemma alone_escaped l : escaped l = true -> alone l [] (tok l ++ [BACKSLASH]).
Proof.
  intros He s p st j Hj. unfold run. cbn. rewrite He. cbn. rewrite bool_decide_eq_false_2 by by destruct (tok l).
  simpl in Hj. rewrite Nat.add_0_r in Hj |- *. rewrite Hj. by eexists.
Qed.

Lemma alone_step l r text l1 body v :
  text <> [] -> (headRune text).1 = r -> begun l = true -> feed r l = Some l1 -> take (length body) (drop (headRune text).2 text) = body ->
  alone l1 body v -> alone l (take (headRune text).2 text ++ body) v.
Proof.
  intros Hne Hr Hb Hf Hbody Hal s p st j Hj. pose proof (headRune_width text Hne) as Hw. destruct (headRune text) as [r' w] eqn:Eh.
  cbn [fst snd] in *. subst r'. assert (Hwl : length (take w text) = w) by (rewrite length_take; lia).
  rewrite length_app, Hwl in Hj |- *. destruct (Hal s p st (j + w) ltac:(lia)) as (l2 & Hrun2 & Hs2 & Hp2). exists l2.
  assert (Hall : take w text ++ body = take (w + length body) text).
  { rewrite <- (take_drop w text) at 2. rewrite take_app_add' by done. by rewrite Hbody. }
  assert (Hhead : headRune (take w text ++ body) = (r, w)) by (rewrite Hall, headRune_take; [done|done|rewrite Eh; simpl; lia]).
  assert (Hdr : drop w (take w text ++ body) = body) by (apply drop_app_length'; lia).
  unfold run. assert (Hl : length (take w text ++ body) = w + length body) by (rewrite length_app; lia).
  destruct (take w text ++ body) as [|c' x]; [simpl in Hl; lia|]. cbn [length nextLoop].
  rewrite Hhead. assert (Hbeg2 : begin j r (place s p st l) = place s p st l) by (unfold begin; simpl; by rewrite Hb).
  rewrite Hbeg2, feed_place, Hf. cbn [fmap option_fmap option_map]. rewrite nextLoop_fuel by (rewrite Hdr; simpl in Hl; lia).
  rewrite Hdr. fold (run (place s p st l1) (j + w) body). rewrite Hrun2, Nat.add_assoc.
  destruct Hs2 as [Hs2 He2]. split; [done|]. split; [|done]. split; [done|].
  destruct (feed_same _ _ _ Hf) as (_ & He1 & _). simpl in *. congruence.
Qed.

Lemma run_token : forall n l i rest t l',
  length rest <= n -> begun l = true -> i + length rest = length (src l) -> run l i rest = (Some t, l') ->
  exists body rest' k, rest = body ++ rest' /\ stopsAt rest' k /\ tstart t = start l /\ tend t = i + length body /\
    same l l' /\ pos l' = tend t + k /\ alone l body (val t) /\ (body = [] \/ (headRune rest).2 <= length body).
Proof.
  induction n as [|n IH]; intros l i rest t l' Hn Hb Hi Hrun.
  - destruct rest; [|simpl in Hn; lia]. unfold run in Hrun. cbn in Hrun. exists [], [], 0. simpl in Hi. rewrite Nat.add_0_r in Hi.
    destruct (escaped l) eqn:Ee; cbn in Hrun; case_bool_decide as Ht; try done; injection Hrun as <- <-; simpl;
      rewrite !Nat.add_0_r; (split; [done|]); (split; [by left|]); (split; [done|]); (split; [done|]); (split; [done|]); (split; [done|]); (split; [|by left]).
    + by apply alone_escaped.
    + by apply alone_end.
  - destruct rest as [|c rest].
    { apply (IH l i [] t l'); [simpl; lia|done..]. }
    set (text := c :: rest) in *. assert (Hne : text <> []) by done. pose proof (headRune_width text Hne) as Hw.
    destruct (headRune_split text Hne) as [Hsplit Hspace]. unfold run in Hrun. unfold text in Hrun at 1. cbn [length nextLoop] in Hrun.
    fold text in Hrun. destruct (headRune text) as [r w] eqn:Eh. cbn [fst snd] in *.
    assert (Hbeg : begin i r l = l) by (unfold begin; by rewrite Hb). rewrite Hbeg in Hrun.
    assert (Hwl : length (take w text) = w) by (rewrite length_take; lia).
    assert (Hlen : length (drop w text) <= n) by (rewrite length_drop; simpl in Hn; unfold text; simpl; lia).
    destruct (feed r l) as [l1|] eqn:Ef.
    + pose proof (feed_same _ _ _ Ef) as (Hs1 & He1 & Hst1 & Hb1).
      rewrite nextLoop_fuel in Hrun by (rewrite length_drop; unfold text; simpl; lia). fold (run l1 (i + w) (drop w text)) in Hrun.
      apply IH in Hrun as (body & rest' & k & Hd & Hstop & Hts & Hte & [Hsrc Hesc] & Hpos & Halone & _);
        [|done|congruence|rewrite length_drop, Hs1; unfold text in *; simpl in *; lia].
      exists (take w text ++ body), rest', k. rewrite length_app, Hwl. split; [by rewrite <- app_assoc, <- Hd, take_drop|].
      split; [done|]. split; [congruence|]. split; [lia|]. split; [split; congruence|]. split; [done|].
      split; [|right; simpl; lia].
      replace w with (headRune text).2 by (by rewrite Eh). eapply alone_step; [done..|by rewrite Eh|done|exact Ef| |done].
      rewrite Eh. cbn [snd]. by rewrite Hd, take_app_length.
    + injection Hrun as <- <-. destruct (feed_None _ _ Ef) as (Hc & He & Hq & Ht & Hsp). pose proof (Hspace Hsp) as Hr.
      assert (Hrl : length r = w) by (by rewrite Hr). exists [], text, w. cbn [length tstart tend val]. rewrite Nat.add_0_r, Hrl.
      split; [done|]. split; [right; exists r, (drop w text); split; [by apply bool_decide_eq_true in Hsp|split; [by rewrite Hr|done]]|].
      split; [done|]. split; [done|]. split; [done|]. split; [done|]. split; [by apply alone_end|by left].
Qed.

(** ** Gaps *)

Lemma space_plain r : r ∈ spaces ->
  isChar BACKSLASH r = false /\ isChar DQUOTE r = false /\ isChar SQUOTE r = false /\ isOpener r = false.
Proof.
  intros Hr. assert (Hall : forallb (fun r => negb (isChar BACKSLASH r) && negb (isChar DQUOTE r) && negb (isChar SQUOTE r) &&
    negb (isOpener r)) spaces = true) by (vm_compute; reflexivity).
  rewrite forallb_forall in Hall. apply list_elem_of_In, Hall in Hr. rewrite !andb_true_iff, !negb_true_iff in Hr. naive_solver.
Qed.

Lemma opens_plain l r : isOpener r = false -> opens l r = false.
Proof. unfold isOpener, opens. by intros [[-> ->]%orb_false_iff ->]%orb_false_iff. Qed.

Lemma feed_gap l r : idle l -> tok l = [] -> r ∈ spaces -> feed r l = Some l.
Proof.
  intros (Hc & He & Hq) Ht Hr. destruct (space_plain r Hr) as (Hb & Hd & Hs & Ho). unfold feed. rewrite Hc, He, Hq, Hb, Hd, Hs, andb_false_r.
  rewrite (opens_plain l r Ho). unfold IsSpace. rewrite (bool_decide_eq_true_2 (r ∈ spaces)) by done. cbn. by rewrite bool_decide_eq_true_2.
Qed.

(** Before a token there are spaces only. *)
Lemma run_gap : forall n l i rest t l',
  length rest <= n -> idle l -> tok l = [] -> begun l = false -> run l i rest = (Some t, l') ->
  exists gaps text, Forall (.∈ spaces) gaps /\ rest = mjoin gaps ++ text /\ text <> [] /\ IsSpace (headRune text).1 = false /\
    run (set_begun (i + length (mjoin gaps)) l) (i + length (mjoin gaps)) text = (Some t, l').
Proof.
  induction n as [|n IH]; intros l i rest t l' Hn Hid Ht Hb Hrun.
  - destruct rest; [|simpl in Hn; lia]. destruct Hid as (_ & He & _). unfold run in Hrun. cbn in Hrun. rewrite He in Hrun. cbn in Hrun. by rewrite Ht in Hrun.
  - destruct rest as [|c rest]; [apply (IH l i [] t l'); [simpl; lia|done..]|]. set (text := c :: rest) in *.
    assert (Hne : text <> []) by done. pose proof (headRune_width text Hne) as Hw. destruct (headRune_split text Hne) as [Hsplit Hspace].
    destruct (IsSpace (headRune text).1) eqn:Es.
    + specialize (Hspace eq_refl). destruct (headRune text) as [r w] eqn:Eh. cbn [fst snd] in *.
      assert (Hr : r ∈ spaces) by (by apply bool_decide_eq_true in Es). rewrite Hsplit, <- Hspace, run_rune in Hrun by by apply space_valid.
      assert (Hbeg : begin i r l = l) by (unfold begin; by rewrite Es, andb_false_r). rewrite Hbeg, feed_gap in Hrun by done.
      assert (Hrl : length r = w) by (rewrite Hspace, length_take; lia).
      apply IH in Hrun as (gaps & text' & Hg & Hd & Hne' & Hs' & Hrun); [|rewrite length_drop; unfold text in *; simpl in *; lia|done..].
      exists (r :: gaps), text'. change (mjoin (r :: gaps)) with (r ++ mjoin gaps). rewrite length_app, Nat.add_assoc.
      split; [by constructor|]. split; [by rewrite <- app_assoc, <- Hd, Hspace, take_drop|]. done.
    + exists [], text. split; [done|]. split; [done|]. split; [done|]. split; [done|]. cbn [mjoin list_join length]. rewrite Nat.add_0_r.
      rewrite <- Hrun. unfold run, text. cbn [length nextLoop]. fold text. destruct (headRune text) as [r w]. cbn [fst] in Es.
      assert (Hb1 : begin i r (set_begun i l) = set_begun i l) by done. rewrite Hb1. unfold begin. by rewrite Hb, Es.
Qed.

(** A text without tokens is spaces and quotes that hold nothing. *)
Definition gapRune (r : rune) : Prop := r ∈ spaces \/ r = [DQUOTE] \/ r = [SQUOTE].
Definition quoteOk (l : lexer) : Prop := quote l = [] \/ quote l = [DQUOTE] \/ quote l = [SQUOTE].

Lemma headRune_ne text : text <> [] -> (headRune text).1 <> [].
Proof.
  intros Hne. unfold headRune. destruct (decode_rune text) as [[v n]|] eqn:E; [|done]. apply decode_rune_width in E.
  destruct text; [done|]. by destruct n; [lia|].
Qed.

Lemma headRune_own text : text <> [] -> gapRune (headRune text).1 -> (headRune text).1 = take (headRune text).2 text.
Proof.
  intros Hne. unfold headRune. destruct (decode_rune text) as [[v n]|]; [done|]. intros [H|[H|H]]; exfalso; revert H; vm_compute; set_solver.
Qed.

Lemma tok_group r l : tok (group r l) = tok l ++ r.
Proof. unfold group, push, pop. repeat case_match; done. Qed.
Lemma tok_push r l : tok (push r l) = tok l.
Proof. unfold push. by repeat case_match. Qed.

(** What leaves the token empty. *)
Lemma feed_empty l r l1 :
  r <> [] -> quoteOk l -> feed r l = Some l1 -> tok l1 = [] -> escaped l1 = false -> gapRune r /\ tok l = [] /\ escaped l = false /\ quoteOk l1.
Proof.
  intros Hr Hqo. assert (Hw : forall l2, tok (write r l2) <> []) by (intros l2 E; by apply app_eq_nil in E as [_ ?]).
  unfold feed. destruct (negb _).
  { intros [= <-]. rewrite tok_group. by intros [_ ?]%app_eq_nil. }
  destruct (escaped l) eqn:Ee; [intros [= <-] H; by apply Hw in H|]. destruct (_ && _); [by intros [= <-]|].
  destruct (bool_decide (quote l = [])) eqn:Eq; cbn [negb].
  - apply bool_decide_eq_true in Eq. destruct (opens l r); [intros [= <-]; rewrite tok_push; intros H; by apply Hw in H|].
    destruct ((isChar DQUOTE r || isChar SQUOTE r) && startsValue l) eqn:Es.
    + intros [= <-] Ht _. apply andb_true_iff in Es as [Es%orb_true_iff _]. rewrite !isChar_iff in Es. unfold gapRune, quoteOk. simpl. tauto.
    + destruct (IsSpace r) eqn:Esp; [|intros [= <-] H; by apply Hw in H]. case_bool_decide as Ht; [|done]. intros [= <-] _ _.
      split; [left; by apply bool_decide_eq_true in Esp|done].
  - apply bool_decide_eq_false in Eq. destruct (bool_decide (r = quote l)) eqn:Erq; [|intros [= <-] H; by apply Hw in H].
    apply bool_decide_eq_true in Erq as ->. intros [= <-] Ht _. unfold gapRune, quoteOk in *. simpl. tauto.
Qed.

Lemma run_none : forall n l i rest l',
  length rest <= n -> quoteOk l -> run l i rest = (None, l') ->
  tok l = [] /\ escaped l = false /\ exists rs, rest = mjoin rs /\ Forall gapRune rs.
Proof.
  induction n as [|n IH]; intros l i rest l' Hn Hq Hrun.
  - destruct rest; [|simpl in Hn; lia]. unfold run in Hrun. cbn in Hrun. destruct (escaped l) eqn:Ee; cbn in Hrun; case_bool_decide as Ht; try done.
    + exfalso. by destruct (tok l).
    + split; [done|]. split; [done|]. by exists [].
  - destruct rest as [|c rest]; [apply (IH l i [] l'); [simpl; lia|done..]|]. set (text := c :: rest) in *.
    assert (Hne : text <> []) by done. pose proof (headRune_width text Hne) as Hw. pose proof (headRune_own text Hne) as Hown.
    pose proof (headRune_ne text Hne) as Hrne. unfold run in Hrun. unfold text in Hrun at 1. cbn [length nextLoop] in Hrun. fold text in Hrun.
    destruct (headRune text) as [r w] eqn:Eh. cbn [fst snd] in *. destruct (feed r (begin i r l)) as [l1|] eqn:Ef; [|done].
    rewrite nextLoop_fuel in Hrun by (rewrite length_drop; unfold text; simpl; lia). fold (run l1 (i + w) (drop w text)) in Hrun.
    destruct (begin_eqs i r l) as (Ht & _ & _ & _ & He & Hqb).
    assert (Hq1 : feed r (begin i r l) = Some l1 -> tok l1 = [] -> escaped l1 = false -> gapRune r /\ tok l = [] /\ escaped l = false /\ quoteOk l1).
    { intros _ ? ?. rewrite <- Ht, <- He. apply (feed_empty _ r l1); [done| |done..]. unfold quoteOk. by rewrite Hqb. }
    assert (Hqo : quoteOk l1).
    { clear -Hq Hqb Ef. unfold quoteOk in *. rewrite <- Hqb in Hq. revert Ef. generalize (begin i r l) Hq. clear. intros l Hq. unfold feed.
      assert (Hg : quote (group r l) = quote l) by (unfold group, push, pop; repeat case_match; done).
      destruct (negb _); [intros [= <-]; by rewrite Hg|]. destruct (escaped l); [intros [= <-]; by destruct (_ && _)|].
      destruct (_ && _); [by intros [= <-]|]. destruct (negb _); [destruct (bool_decide _); intros [= <-]; simpl; tauto|].
      destruct (opens l r); [intros [= <-]; unfold push; by repeat case_match|].
      destruct ((isChar DQUOTE r || isChar SQUOTE r) && _) eqn:Es.
      { intros [= <-]. apply andb_true_iff in Es as [Es%orb_true_iff _]. rewrite !isChar_iff in Es. simpl. tauto. }
      destruct (IsSpace r); [case_bool_decide; [by intros [= <-]|done]|]. intros [= <-]. simpl.
      destruct (name_eqs r l) as (_ & _ & _ & _ & _ & ->). done. }
    apply IH in Hrun as (Ht1 & He1 & rs & Hd & Hrs); [|rewrite length_drop; unfold text in *; simpl in *; lia|done].
    destruct (Hq1 Ef Ht1 He1) as (Hg & Htl & Hel & _). split; [done|]. split; [done|]. exists (r :: rs).
    change (mjoin (r :: rs)) with (r ++ mjoin rs). split; [|by constructor]. by rewrite <- Hd, (Hown Hg), take_drop.
Qed.

(** ** The layout of a text *)

(** [layout esc i text ts]: the tokens [ts] are those of [text], which begins at
    offset [i].  Before a token are spaces and it ends at a space or the end of
    the text; its span is its place, and lexed alone it is the same token.
    After the last token are only spaces and empty quotes. *)
Inductive layout (esc : bool) : nat -> bytestr -> list token -> Prop :=
  | layout_end i rs : Forall gapRune rs -> layout esc i (mjoin rs) []
  | layout_token i gaps field rest t ts :
      Forall (.∈ spaces) gaps -> field <> [] -> IsSpace (headRune field).1 = false ->
      (rest = [] \/ exists sp rest', sp ∈ spaces /\ rest = sp ++ rest') ->
      tstart t = i + length (mjoin gaps) -> tend t = tstart t + length field ->
      map (fun u => val u.1) (lexAll esc field) = [val t] ->
      layout esc (tend t) rest ts ->
      layout esc i (mjoin gaps ++ field ++ rest) (t :: ts).

Lemma layout_space esc i sp rest ts : sp ∈ spaces -> layout esc (i + length sp) rest ts -> layout esc i (sp ++ rest) ts.
Proof.
  intros Hsp Hl. inversion Hl as [j rs Hrs|j gaps field rest' t ts' Hg Hf Hs Hr Hst Hen Hal Hrest]; subst.
  - change (sp ++ mjoin rs) with (mjoin (sp :: rs)). apply layout_end. constructor; [by left|done].
  - rewrite app_assoc. change (sp ++ mjoin gaps) with (mjoin (sp :: gaps)). apply layout_token; [by constructor|done..| |done|done|done].
    rewrite Hst. change (mjoin (sp :: gaps)) with (sp ++ mjoin gaps). rewrite length_app. lia.
Qed.

(** A field alone: [alone] is about one run, so the token is the only one. *)
Lemma alone_lex esc l field v :
  idle l -> keyOk l [] -> tok l = [] -> escapes l = esc -> last l = [] -> inString l = false -> strEsc l = false ->
  field <> [] -> IsSpace (headRune field).1 = false -> alone (set_begun 0 l) field v ->
  map (fun u => val u.1) (lexAll esc field) = [v].
Proof.
  intros (Hc & He & Hq) [Hst _] Ht Hes Hla Hin Hse Hne Hs Hal.
  destruct (Hal field 0 0 0 eq_refl) as (l2 & Hrun & [Hs2 He2] & Hp2).
  assert (Hpl : place field 0 0 (set_begun 0 l) = set_begun 0 (newLexer esc field)).
  { unfold place, set_begun, newLexer. simpl. by rewrite Hc, He, Hq, Hst, Ht, Hes, Hla, Hin, Hse. }
  assert (Hfirst : next (newLexer esc field) = (Some (mkToken v 0 (0 + length field)), l2)).
  { rewrite next_run. change (reset (newLexer esc field)) with (newLexer esc field). change (drop _ (src (newLexer esc field))) with field.
    change (pos (newLexer esc field)) with 0. rewrite <- Hrun, Hpl. destruct field as [|c x]; [done|]. unfold run. cbn [length nextLoop].
    destruct (headRune (c :: x)) as [r w]. cbn [fst] in Hs.
    assert (Hb : begin 0 r (newLexer esc (c :: x)) = set_begun 0 (newLexer esc (c :: x))) by (unfold begin; simpl; by rewrite Hs).
    by rewrite Hb. }
  unfold lexAll. cbn [tokens]. rewrite Hfirst. cbn [map fst]. f_equal.
  assert (Hnext : forall f, tokens f l2 = []).
  { intros [|f]; [done|]. cbn [tokens]. rewrite next_run. simpl in Hs2. rewrite Hs2, Hp2, drop_all. by unfold run; cbn. }
  by rewrite Hnext.
Qed.

Lemma tokens_layout esc : forall fuel l,
  escapes l = esc -> pos l <= length (src l) -> length (src l) - pos l < fuel ->
  layout esc (pos l) (drop (pos l) (src l)) (map fst (tokens fuel l)).
Proof.
  induction fuel as [|fuel IH]; intros l Hesc Hpos Hf; [lia|]. cbn [tokens]. rewrite next_run.
  destruct (reset_fresh l) as (Hid & Hko & Htok & [Hsr Her]). destruct (run (reset l) (pos l) (drop (pos l) (src l))) as [[t|] l'] eqn:Hrun.
  - apply (run_gap _ _ _ _ t l' (Nat.le_refl _)) in Hrun as (gaps & text & Hg & Hd & Hne & Hs & Hrun); [|done..].
    set (i := pos l + length (mjoin gaps)) in *.
    assert (Hlen : i + length text = length (src l)).
    { apply (f_equal length) in Hd. rewrite length_drop, length_app in Hd. unfold i. lia. }
    apply (run_token _ _ _ _ t l' (Nat.le_refl _)) in Hrun as (field & rest & k & Ht & Hstop & Hts & Hte & [Hs' He'] & Hp & Hal & Hw); [|done..].
    assert (Hfne : field <> []).
    { intros ->. destruct Hstop as [[-> _]|(sp & r & Hsp & -> & _)]; [done|]. rewrite Ht in Hs. cbn [app] in Hs.
      rewrite headRune_valid in Hs by by apply space_valid. cbn [fst] in Hs. by apply bool_decide_eq_false in Hs. }
    destruct Hw as [?|Hw]; [done|]. rewrite Hd, Ht. cbn [map fst].
    assert (Hhead : headRune field = headRune text) by (rewrite <- (headRune_take text (length field) Hne Hw), Ht, take_app_length; done).
    simpl in Hs', Hts. assert (Hsrc : drop (pos l') (src l') = drop k rest).
    { rewrite Hp, Hte, Hs'. unfold i. rewrite <- !Nat.add_assoc, <- drop_drop, Hd, Ht.
      replace (length (mjoin gaps) + (length field + k)) with (length (mjoin gaps ++ field) + k) by (rewrite length_app; lia).
      by rewrite app_assoc, <- drop_drop, drop_app_length. }
    assert (Hk : k <= length rest) by (destruct Hstop as [[-> ->]|(sp & r & _ & -> & ->)]; [done|rewrite length_app; lia]).
    assert (Hl1 : 1 <= length field) by (destruct field; [done|simpl; lia]).
    assert (Htl : length text = length field + length rest) by (by rewrite Ht, length_app).
    assert (Hrest : layout esc (pos l') (drop (pos l') (src l')) (map fst (tokens fuel l'))).
    { apply IH; rewrite ?Hs', ?Hp, ?Hte; [simpl in *; congruence|unfold i in *; lia..]. }
    rewrite Hsrc in Hrest. apply layout_token; [done..|by rewrite Hhead| |by rewrite Hts|lia| |].
    + destruct Hstop as [[-> _]|(sp & r & Hsp & -> & _)]; [by left|right; eauto].
    + apply (alone_lex esc (reset l)); [done..|by rewrite Her| | | |done|by rewrite Hhead|]; try done.
    + destruct Hstop as [[-> ->]|(sp & r & Hsp & -> & ->)]; [by rewrite Hp, Nat.add_0_r in Hrest|].
      apply layout_space; [done|]. rewrite drop_app_length in Hrest. by rewrite <- Hp.
  - apply (run_none _ _ _ _ l' (Nat.le_refl _)) in Hrun as (_ & _ & rs & Hd & Hrs); [|by left]. rewrite Hd. by apply layout_end.
Qed.

(** Option lists are read field by field: whatever the text, the lexer's tokens
    are in order, each starts at the first rune that is no space and ends at a
    space or the end of the text, its span being its place, and lexed alone it is
    the same single token; what no token covers is spaces and empty quotes.
    [Fields], [fieldsEscaped] and [FieldSpans] report these tokens. *)
Theorem spans_exact input :
  exists ts us, layout false 0 input ts /\ Fields input = map val ts /\
    layout true 0 input us /\ fieldsEscaped input = map val us /\
    map (fun s => (Start s, End s)) (FieldSpans input) = map (fun u => (tstart u, tend u)) us.
Proof.
  assert (H : forall esc, layout esc 0 input (map fst (lexAll esc input))).
  { intros esc. apply (tokens_layout esc (S (length input)) (newLexer esc input)); [done|simpl; lia..]. }
  exists (map fst (lexAll false input)), (map fst (lexAll true input)). unfold Fields, fieldsEscaped, FieldSpans.
  rewrite !map_map. split_and!; [apply H|done|apply H|done|]. apply map_ext. by intros [t l].
Qed.
