(* ===== verification/WorkflowText.v ===== *)
(** * Workflows in request files (src/internal/parser/workflow.go, src/internal/restwriter/workflow.go)

    A workflow in a file is a run of directives.  [builder] is the code's
    workflowBuilder: the workflow so far, the @when or @for-each that waits for
    its step, and the open @switch or @if.  Each method returns the builder it
    leaves, also when it fails, as parsing goes on after an error.  The writer
    renders a workflow as directives again.

    The order in which [range] visits the options of a step is [iter], any
    permutation of the entries.  The columns of expressions, always 1, are left
    out. *)
From stdpp Require Import base list strings gmap.
From Stdlib Require Import Ascii ZArith Lia.
From S2P Require Import Prelude GoStd GoPath Names Text Token Lexer Group Directive Workflow Catalog.

Open Scope string_scope.
Open Scope nat_scope.
Open Scope list_scope.

Module Wb.
Import Directive.

(** ** restfile *)

(** A step as the parser makes it: what the engine runs, and the rest. *)
Record step := mkWStep {
  core : Wf.WorkflowStep;
  extra : gmap string string;     (* Expect.Extra *)
  options : gmap string string;
  line : Z
}.

Record workflow := mkWf {
  wName : string;
  wDescription : string;
  wTags : list string;
  wDefault : Wf.failureMode;
  wOptions : gmap string string;
  wSteps : list step;
  wRange : Z * Z
}.

(** An error is what it says or an error of options; several are joined, none is
    nil. *)
Inductive item := Msg (s : string) | Opt (e : optError).
Definition err : Type := list item.
Definition opts_err (l : list optError) : err := map Opt l.

(** ** The builder *)

Record switchBuilder := mkSw { swExpr : string; swCases : list Wf.branch; swDef : option Wf.branch; swLine : Z }.
Record ifBuilder := mkIfb { ifThen : Wf.branch; ifElifs : list Wf.branch; ifEls : option Wf.branch; ifLine : Z }.

Record builder := mkB {
  bStart : Z;
  bEnd : Z;
  wf : workflow;
  pendWhen : option Wf.ConditionSpec;
  pendEach : option Wf.ForEachSpec;
  sw : option switchBuilder;
  ifb : option ifBuilder
}.

Definition touch (ln : Z) (b : builder) : builder :=
  mkB (bStart b) (Z.max ln (bEnd b)) (wf b) (pendWhen b) (pendEach b) (sw b) (ifb b).
Definition set_wf (w : workflow) (b : builder) : builder :=
  mkB (bStart b) (bEnd b) w (pendWhen b) (pendEach b) (sw b) (ifb b).
Definition set_pend (c : option Wf.ConditionSpec) (e : option Wf.ForEachSpec) (b : builder) : builder :=
  mkB (bStart b) (bEnd b) (wf b) c e (sw b) (ifb b).
Definition set_sw (s : option switchBuilder) (b : builder) : builder :=
  mkB (bStart b) (bEnd b) (wf b) (pendWhen b) (pendEach b) s (ifb b).
Definition set_ifb (i : option ifBuilder) (b : builder) : builder :=
  mkB (bStart b) (bEnd b) (wf b) (pendWhen b) (pendEach b) (sw b) i.

Definition addStepTo (s : step) (w : workflow) : workflow :=
  mkWf (wName w) (wDescription w) (wTags w) (wDefault w) (wOptions w) (wSteps w ++ [s]) (wRange w).

Section unicode.
Context {unicode : Unicode} (iter : Catalog.Iter).

Definition newWorkflowBuilder (ln : Z) (name : string) : builder :=
  mkB ln ln (mkWf (TrimSpace name) "" [] Wf.OnStop ∅ [] (0, 0)%Z) None None None None.

(** [parseWorkflowFailureMode] with the table of aliases. *)
Definition parseWorkflowFailureMode (value : string) : option Wf.failureMode :=
  let s := TrimSpace (ToLower value) in
  if bool_decide (s = "") then None
  else if bool_decide (s ∈ ["stop"; "fail"; "abort"]) then Some Wf.OnStop
  else if bool_decide (s ∈ ["continue"; "skip"]) then Some Wf.OnContinue
  else None.

(** [applyOptions] *)
Definition applyOptions (o : Options) (b : builder) : err * builder :=
  if bool_decide (vals o = ∅) then ([], b)
  else
    let '(v, o) := PopAny ["on-failure"; "onfailure"] o in
    let w := wf b in
    let mode := match v with
                | Some v => default (wDefault w) (parseWorkflowFailureMode v)
                | None => wDefault w
                end in
    (opts_err (Conflicts "workflow" o),
     set_wf (mkWf (wName w) (wDescription w) (wTags w) mode (vals o ∪ wOptions w) (wSteps w) (wRange w)) b).

(** *** Flows *)

Definition emptyExpect : Wf.WorkflowExpect := Wf.mkExpect "" None.

(** [flushFlow] *)
Definition flushSwitch (ln : Z) (b : builder) : err * builder :=
  match sw b with
  | None => ([], b)
  | Some s =>
      if bool_decide (swCases s = []) && bool_decide (swDef s = None) then ([Msg "@switch requires at least one @case or @default"], b)
      else
        let st := mkWStep (Wf.mkStep Wf.KindSwitch "" "" (wDefault (wf b)) emptyExpect ∅ None None
                     (Some (Wf.mkSwitch (swExpr s) (swCases s) (swDef s) (swLine s))) None) ∅ ∅ (swLine s) in
        ([], touch ln (set_sw None (set_wf (addStepTo st (wf b)) b)))
  end.

Definition flushIf (ln : Z) (b : builder) : builder :=
  match ifb b with
  | None => b
  | Some i =>
      let st := mkWStep (Wf.mkStep Wf.KindIf "" "" (wDefault (wf b)) emptyExpect ∅ None
                   (Some (Wf.mkIf (ifThen i) (ifElifs i) (ifEls i))) None None) ∅ ∅ (ifLine i) in
      touch ln (set_ifb None (set_wf (addStepTo st (wf b)) b))
  end.

Definition flushFlow (ln : Z) (b : builder) : err * builder :=
  match flushSwitch ln b with
  | ([], b) => ([], flushIf ln b)
  | (e, b) => (e, b)
  end.

Definition flushOpen (name : string) (ln : Z) (b : builder) : err * builder :=
  if bool_decide (is_Some (sw b)) && negb (bool_decide (name = "case")) && negb (bool_decide (name = "default"))
  then flushFlow ln b
  else if bool_decide (is_Some (ifb b)) && negb (bool_decide (name = "elif")) && negb (bool_decide (name = "else"))
  then flushFlow ln b
  else ([], b).

Definition requireNoPending (b : builder) : err :=
  if bool_decide (is_Some (pendWhen b)) then [Msg "@when must be followed by @step"]
  else if bool_decide (is_Some (pendEach b)) then [Msg "@for-each must be followed by @step"]
  else [].

(** *** Arguments *)

(** [rts.Mask]; it always answers (Group.Mask_keeps_offsets). *)
Definition maskText (text : bytestr) : bytestr :=
  match Mask (str text) with Some m => bytes m | None => text end.

(** [cutBranch] *)
Definition firstOption (spans : list FieldSpan) : option FieldSpan :=
  head (List.filter (fun f => bool_decide (is_Some (Eq f))) spans).
Definition cutBranch (rest : bytestr) : bytestr * bytestr :=
  match firstOption (FieldSpans (maskText rest)) with
  | Some f => (trim (take (Start f) rest), drop (Start f) rest)
  | None => (trim rest, [])
  end.

(** [parseWorkflowRunOptions]: run and fail. *)
Definition parseWorkflowRunOptions (name : string) (o : Options) : err + (string * string) :=
  let '(run, o) := First ["run"; "using"] o in
  let run := default "" run in
  let fail := Get o "fail" in
  match Conflicts name o with
  | [] =>
      if bool_decide (run = "") && bool_decide (fail = "") then inl [Msg "missing a run= or fail= option"]
      else if negb (bool_decide (run = "")) && negb (bool_decide (fail = "")) then inl [Msg "cannot combine run and fail"]
      else inr (run, fail)
  | cs => inl (opts_err cs)
  end.

Definition parseRun (name : string) (text : bytestr) (expr : string) (ln : Z) : err + Wf.branch :=
  match ParseOptions name text with
  | (_, (_ :: _) as es) => inl (opts_err es)
  | (o, []) =>
      match parseWorkflowRunOptions name o with
      | inl e => inl e
      | inr (run, fail) => inr (Wf.mkBranch expr run fail ln)
      end
  end.

(** [parseExprRun] as the branch its callers make of it. *)
Definition parseExprRun (name : string) (rest : bytestr) (miss : string) (ln : Z) : err + Wf.branch :=
  let '(expr, tail) := cutBranch rest in
  if bool_decide (expr = []) then inl [Msg miss] else parseRun name tail (str expr) ln.

(** directive.go: [parseConditionSpec] and [parseForEachSpec] *)
Definition parseConditionSpec (rest : bytestr) (ln : Z) (negate : bool) : err + Wf.ConditionSpec :=
  let expr := trim rest in
  if bool_decide (expr = []) then inl [Msg "@when expression missing"] else inr (Wf.mkCond (str expr) ln negate).

Definition cutForEach (rest : bytestr) : bytestr * bytestr * string :=
  let rest := trim rest in
  let mask := maskText rest in
  match lastIndexOf (bytes " as ") mask with
  | Some i => (trim (take i rest), trim (drop (i + 4) rest), "'<expr> as <name>'")
  | None =>
      match indexOf (bytes " in ") mask with
      | Some i => (trim (drop (i + 4) rest), trim (take i rest), "'<name> in <expr>'")
      | None => (rest, [], "")
      end
  end.

Definition checkRTSBinding (kind : string) (name : bytestr) : err :=
  if negb (IsIdent name) then [Msg (kind +:+ " " +:+ GoStd.quote (str name) +:+ " is invalid")]
  else if IsKeyword (str name) then [Msg (kind +:+ " " +:+ GoStd.quote (str name) +:+ " is a reserved word")]
  else [].

Definition parseForEachSpec (rest : bytestr) (ln : Z) : err + Wf.ForEachSpec :=
  let '(expr, name, form) := cutForEach rest in
  if bool_decide (expr = []) && bool_decide (name = []) then inl [Msg "@for-each expression missing"]
  else if bool_decide (form = "") then inl [Msg "@for-each must use 'as' or 'in'"]
  else if bool_decide (expr = []) || bool_decide (name = []) then inl [Msg ("@for-each requires " +:+ form)]
  else match checkRTSBinding "@for-each name" name with
       | [] => inr (Wf.mkForEach (str expr) (str name) ln)
       | e => inl e
       end.

(** [parseTagList]: [strings.FieldsFunc] at spaces and commas. *)
Definition parseTagList (text : bytestr) : list bytestr :=
  fieldsFunc (fun r => IsSpace r || isChar ","%char r) text.

(** metadata.go *)
Definition appendDesc (existing add : string) : string :=
  (if bool_decide (existing = "") then existing else existing +:+ str [LF]) +:+ add.
Definition appendTagsFold (dst : list string) (tags : list bytestr) : list string :=
  foldl (fun dst tag =>
    let tag := TrimSpace (str tag) in
    if bool_decide (tag = "") then dst
    else if existsb (fun it => EqualFold it tag) dst then dst else dst ++ [tag]) dst tags.

(** *** Directives *)

Definition isWorkflowDirective (name : string) : bool :=
  bool_decide (name ∈ ["description"; "tag"; "when"; "for-each"; "switch"; "case"; "default"; "if"; "elif"; "else"]).

Definition set_meta (desc : string) (tags : list string) (b : builder) : builder :=
  let w := wf b in set_wf (mkWf (wName w) desc tags (wDefault w) (wOptions w) (wSteps w) (wRange w)) b.

(** The handlers answer [None] when the directive is not theirs. *)
Definition handleWorkflowMeta (name : string) (rest : bytestr) (ln : Z) (b : builder) : option (err * builder) :=
  if bool_decide (name = "description") then
    if bool_decide (rest = []) then Some ([], b)
    else Some ([], touch ln (set_meta (appendDesc (wDescription (wf b)) (str rest)) (wTags (wf b)) b))
  else if bool_decide (name = "tag") then
    let tags := parseTagList rest in
    if bool_decide (tags = []) then Some ([], b)
    else Some ([], touch ln (set_meta (wDescription (wf b)) (appendTagsFold (wTags (wf b)) tags) b))
  else None.

Definition handleWorkflowCondition (call : Call) (ln : Z) (b : builder) : option (err * builder) :=
  if bool_decide (cName call = "when") then
    Some match requireNoPending b with
         | [] =>
             match parseConditionSpec (cArgs call) ln (bool_decide (Spelling call = "skip-if")) with
             | inl e => (e, b)
             | inr spec =>
                 if bool_decide (is_Some (pendWhen b)) then ([Msg "@when directive already defined for next step"], b)
                 else ([], touch ln (set_pend (Some spec) (pendEach b) b))
             end
         | e => (e, b)
         end
  else if bool_decide (cName call = "for-each") then
    Some match requireNoPending b with
         | [] =>
             match parseForEachSpec (cArgs call) ln with
             | inl e => (e, b)
             | inr spec =>
                 if bool_decide (is_Some (pendEach b)) then ([Msg "@for-each directive already defined for next step"], b)
                 else ([], touch ln (set_pend (pendWhen b) (Some spec) b))
             end
         | e => (e, b)
         end
  else None.

Definition addCase (rest : bytestr) (ln : Z) (s : switchBuilder) : err + switchBuilder :=
  match parseExprRun "case" rest "@case expression missing" ln with
  | inl e => inl e
  | inr br => inr (mkSw (swExpr s) (swCases s ++ [br]) (swDef s) (swLine s))
  end.

Definition addDefault (rest : bytestr) (ln : Z) (s : switchBuilder) : err + switchBuilder :=
  if bool_decide (is_Some (swDef s)) then inl [Msg "@default already defined"]
  else match parseRun "default" rest "" ln with
       | inl e => inl e
       | inr br => inr (mkSw (swExpr s) (swCases s) (Some br) (swLine s))
       end.

Definition handleWorkflowSwitch (name : string) (rest : bytestr) (ln : Z) (b : builder) : option (err * builder) :=
  if bool_decide (name = "switch") then
    Some match requireNoPending b with
         | [] =>
             match flushFlow ln b with
             | ([], b) =>
                 let expr := trim rest in
                 if bool_decide (expr = []) then ([Msg "@switch expression missing"], b)
                 else ([], touch ln (set_sw (Some (mkSw (str expr) [] None ln)) b))
             | (e, b) => (e, b)
             end
         | e => (e, b)
         end
  else if bool_decide (name = "case") then
    Some match sw b with
         | None => ([Msg "@case without @switch"], b)
         | Some s => match addCase rest ln s with inl e => (e, b) | inr s => ([], touch ln (set_sw (Some s) b)) end
         end
  else if bool_decide (name = "default") then
    Some match sw b with
         | None => ([Msg "@default without @switch"], b)
         | Some s => match addDefault rest ln s with inl e => (e, b) | inr s => ([], touch ln (set_sw (Some s) b)) end
         end
  else None.

Definition handleWorkflowIf (name : string) (rest : bytestr) (ln : Z) (b : builder) : option (err * builder) :=
  if bool_decide (name = "if") then
    Some match requireNoPending b with
         | [] =>
             match flushFlow ln b with
             | ([], b) =>
                 match parseExprRun "if" rest "@if expression missing" ln with
                 | inl e => (e, b)
                 | inr br => ([], touch ln (set_ifb (Some (mkIfb br [] None ln)) b))
                 end
             | (e, b) => (e, b)
             end
         | e => (e, b)
         end
  else if bool_decide (name = "elif") then
    Some match ifb b with
         | None => ([Msg "@elif without @if"], b)
         | Some i =>
             match parseExprRun "elif" rest "@elif expression missing" ln with
             | inl e => (e, b)
             | inr br => ([], touch ln (set_ifb (Some (mkIfb (ifThen i) (ifElifs i ++ [br]) (ifEls i) (ifLine i))) b))
             end
         end
  else if bool_decide (name = "else") then
    Some match ifb b with
         | None => ([Msg "@else without @if"], b)
         | Some i =>
             if bool_decide (is_Some (ifEls i)) then ([Msg "@else already defined"], b)
             else match parseRun "else" rest "" ln with
                  | inl e => (e, b)
                  | inr br => ([], touch ln (set_ifb (Some (mkIfb (ifThen i) (ifElifs i) (Some br) (ifLine i))) b))
                  end
         end
  else None.

(** [handleDirective]: [None] when the workflow does not take it. *)
Definition handleDirective (call : Call) (ln : Z) (b : builder) : option (err * builder) :=
  if negb (isWorkflowDirective (cName call)) then None
  else match flushOpen (cName call) ln b with
       | ([], b) =>
           match handleWorkflowMeta (cName call) (cArgs call) ln b with
           | Some r => Some r
           | None =>
               match handleWorkflowCondition call ln b with
               | Some r => Some r
               | None =>
                   match handleWorkflowSwitch (cName call) (cArgs call) ln b with
                   | Some r => Some r
                   | None => handleWorkflowIf (cName call) (cArgs call) ln b
                   end
               end
           end
       | (e, b) => Some (e, b)
       end.

(** *** Steps *)

(** [parseStepSpec] *)
Definition parseStepSpec (rest : bytestr) : err + (string * Options) :=
  if bool_decide (trim rest = []) then inl [Msg "@step missing content"]
  else
    let '(nm, tail) := CutName rest in
    match ParseOptions "step" tail with
    | (_, (_ :: _) as es) => inl (opts_err es)
    | (o, []) =>
        let '(n, o) := Pop "name" o in
        inr (if bool_decide (nm = []) then n else str nm, o)
    end.

(** What [applyStepOpts] collects: the expectation, the variables, the options
    left and the messages. *)
Record stepOpts := mkSO {
  soStatus : string;
  soCode : option Z;
  soExtra : gmap string string;
  soVars : gmap string string;
  soLeft : gmap string string;
  soErrs : list string
}.

Definition cutPrefix (p l : string) : option string := str <$> cut (bytes p) (bytes l).

(** The loop of [applyStepOpts] for one option. *)
Definition stepOpt (a : stepOpts) (kv : string * string) : stepOpts :=
  let '(key, v) := kv in
  match cutPrefix "expect." key with
  | Some suf =>
      if bool_decide (suf = "") then a
      else if bool_decide (suf = "status") then
        if bool_decide (TrimSpace v = "")
        then mkSO (soStatus a) (soCode a) (soExtra a) (soVars a) (soLeft a) (soErrs a ++ ["expect.status requires a value"])
        else mkSO v (soCode a) (soExtra a) (soVars a) (soLeft a) (soErrs a)
      else if bool_decide (suf = "statuscode") then
        let t := TrimSpace v in
        if bool_decide (t = "")
        then mkSO (soStatus a) (soCode a) (soExtra a) (soVars a) (soLeft a) (soErrs a ++ ["expect.statuscode requires a value"])
        else match Atoi (bytes t) with
             | None => mkSO (soStatus a) (soCode a) (soExtra a) (soVars a) (soLeft a)
                         (soErrs a ++ ["expect.statuscode must be an integer, got " +:+ GoStd.quote v])
             | Some n => mkSO (soStatus a) (Some n) (soExtra a) (soVars a) (soLeft a) (soErrs a)
             end
      else mkSO (soStatus a) (soCode a) (<[suf := v]> (soExtra a)) (soVars a) (soLeft a) (soErrs a)
  | None =>
      match cutPrefix "vars." key with
      | Some _ =>
          let key := TrimSpace key in
          if bool_decide (key = "") then a
          else mkSO (soStatus a) (soCode a) (soExtra a) (<[key := v]> (soVars a)) (soLeft a) (soErrs a)
      | None => mkSO (soStatus a) (soCode a) (soExtra a) (soVars a) (<[key := v]> (soLeft a)) (soErrs a)
      end
  end.

Definition applyStepOpts (o : Options) : stepOpts :=
  foldl stepOpt (mkSO "" None ∅ ∅ ∅ []) (iter string (vals o)).

Fixpoint joinSemi (l : list string) : string :=
  match l with [] => "" | [s] => s | s :: l' => s +:+ "; " +:+ joinSemi l' end.

(** [addStep], with [applyPending]. *)
Definition addStep (ln : Z) (rest : bytestr) (b : builder) : err * builder :=
  match flushFlow ln b with
  | ([], b) =>
      match parseStepSpec rest with
      | inl e => (e, b)
      | inr (name, o) =>
          let '(use, o) := PopAny ["using"; "run"] o in
          let use := default "" use in
          if bool_decide (use = "") then ([Msg "@step missing using request"], b)
          else
            let '(v, o) := Pop "on-failure" o in
            let mode := if bool_decide (v = "") then wDefault (wf b)
                        else default (wDefault (wf b)) (parseWorkflowFailureMode v) in
            let a := applyStepOpts o in
            let e := opts_err (Conflicts "step" o) ++
                     (if bool_decide (soErrs a = []) then [] else [Msg (joinSemi (soErrs a))]) in
            let kind := if bool_decide (is_Some (pendEach b)) then Wf.KindForEach else Wf.KindRequest in
            let st := mkWStep (Wf.mkStep kind name use mode (Wf.mkExpect (soStatus a) (soCode a)) (soVars a)
                         (pendWhen b) None None (pendEach b)) (soExtra a) (soLeft a) ln in
            (e, touch ln (set_pend None None (set_wf (addStepTo st (wf b)) b)))
      end
  | (e, b) => (e, b)
  end.

(** [build] *)
Definition build (ln : Z) (b : builder) : workflow :=
  let b := if (0 <? ln)%Z then touch ln b else b in
  let w := wf b in
  mkWf (wName w) (wDescription w) (wTags w) (wDefault w) (wOptions w) (wSteps w) (bStart b, Z.max (bEnd b) (bStart b)).

(** ** document.go and dispatch.go, outside a request *)

(** [startWorkflow] after what came before was flushed: [None] when the line has
    no name. *)
Definition startWorkflow (ln : Z) (rest : bytestr) : option (err * builder) :=
  let '(nm, remainder) := CutToken rest in
  if bool_decide (nm = []) || hasEq nm then None
  else
    let b := newWorkflowBuilder ln (str nm) in
    let '(o, es) := ParseOptions "workflow" remainder in
    let '(e, b) := applyOptions o b in
    Some (opts_err es ++ e, touch ln b).

(** [flushWorkflow]: the errors, and the workflow if it has steps. *)
Definition flushWorkflow (ln : Z) (b : builder) : err * option workflow :=
  let '(e1, b) := flushFlow ln b in
  let e2 := requireNoPending b in
  let scene := build ln b in
  (e1 ++ e2, if bool_decide (wSteps scene = []) then None else Some scene).

(** A directive that reaches an open workflow: [handleWorkflowStart] has @step,
    [handleWorkflowDirective] the rest, which touches the last line. *)
Definition workflowCall (call : Call) (lines : Z * Z) (b : builder) : option (err * builder) :=
  if bool_decide (cName call = "step") then Some (addStep lines.1 (cArgs call) b)
  else match handleDirective call lines.1 b with
       | Some (e, b) => Some (e, touch lines.2 b)
       | None => None
       end.

(** ** The writer *)

Definition modeText (m : Wf.failureMode) : string :=
  match m with Wf.OnStop => "stop" | Wf.OnContinue => "continue" | Wf.OnUnset => "" | Wf.OnOther s => s end.

Definition line_ (d : string) (arg : bytestr) : bytestr := head_ d arg ++ [LF].

Definition conditionArg (c : Wf.ConditionSpec) : string * bytestr :=
  (if Wf.cNegate c then "skip-if" else "when", bytes (Wf.cExpression c)).
Definition stepForEachArg (f : Wf.ForEachSpec) : string * bytestr :=
  ("for-each", bytes (Wf.fExpr f +:+ " as " +:+ Wf.fVar f)).

(** [writeRequest] *)
Definition stepOptions (fail : Wf.failureMode) (s : step) : list (bytestr * bytestr) :=
  let c := core s in
  let all prefix (m : gmap string string) :=
    map (fun key => (bytes (prefix +:+ key), bytes (default "" (m !! key)))) (sorted_keys m) in
  [(bytes "using", bytes (Wf.sUsing c))] ++
  (if bool_decide (modeText (Wf.sOnFailure c) = modeText fail) then [] else [(bytes "on-failure", bytes (modeText (Wf.sOnFailure c)))]) ++
  (if bool_decide (Wf.eStatus (Wf.sExpect c) = "") then [] else [(bytes "expect.status", bytes (Wf.eStatus (Wf.sExpect c)))]) ++
  (match Wf.eStatusCode (Wf.sExpect c) with Some n => [(bytes "expect.statuscode", bytes (itoa n))] | None => [] end) ++
  all "expect." (extra s) ++ all "" (Wf.sVars c) ++ all "" (options s).

Definition writeRequest (fail : Wf.failureMode) (s : step) : bytestr :=
  let c := core s in
  (match Wf.sWhen c with Some w => let '(d, arg) := conditionArg w in line_ d arg | None => [] end) ++
  (match Wf.sForEach c with Some f => let '(d, arg) := stepForEachArg f in line_ d arg | None => [] end) ++
  head_ "step" (Quote (trim (bytes (Wf.sName c)))) ++ options_ (stepOptions fail s) ++ [LF].

Definition writeBranch (d : string) (arg : bytestr) (br : Wf.branch) : bytestr :=
  head_ d arg ++
  (if negb (bool_decide (Wf.bRun br = "")) then option_ (bytes "run") (bytes (Wf.bRun br))
   else if negb (bool_decide (Wf.bFail br = "")) then option_ (bytes "fail") (bytes (Wf.bFail br))
   else []) ++ [LF].

Definition writeIf (f : Wf.WorkflowIf) : bytestr :=
  writeBranch "if" (bytes (Wf.bCond (Wf.wThen f))) (Wf.wThen f) ++
  mjoin (map (fun br => writeBranch "elif" (bytes (Wf.bCond br)) br) (Wf.wElifs f)) ++
  (match Wf.wElse f with Some br => writeBranch "else" (bytes (Wf.bCond br)) br | None => [] end).

Definition writeSwitch (f : Wf.WorkflowSwitch) : bytestr :=
  line_ "switch" (bytes (Wf.wExpr f)) ++
  mjoin (map (fun br => writeBranch "case" (bytes (Wf.bCond br)) br) (Wf.wCases f)) ++
  (match Wf.wDefault f with Some br => writeBranch "default" (bytes (Wf.bCond br)) br | None => [] end).

Definition writeStep (fail : Wf.failureMode) (s : step) : bytestr :=
  match Wf.sKind (core s) with
  | Wf.KindIf => match Wf.sIf (core s) with Some f => writeIf f | None => [] end
  | Wf.KindSwitch => match Wf.sSwitch (core s) with Some f => writeSwitch f | None => [] end
  | _ => writeRequest fail s
  end.

Definition writeWorkflowOptions (w : workflow) : bytestr :=
  (match wDefault w with Wf.OnContinue => option_ (bytes "on-failure") (bytes "continue") | _ => [] end) ++
  options_ (map (fun key => (bytes key, bytes (default "" (wOptions w !! key))))
    (List.filter (fun key => String.prefix "vars." key) (sorted_keys (wOptions w)))).

Definition renderDescription (desc : string) : bytestr :=
  mjoin (map (fun l => let t := trim l in if bool_decide (t = []) then [] else line_ "description" t) (splitAt LF (trim (bytes desc)))).

Fixpoint joinSpace (l : list bytestr) : bytestr :=
  match l with [] => [] | [s] => s | s :: l' => s ++ " "%char :: joinSpace l' end.
Definition renderTags (tags : list string) : bytestr :=
  match filter (fun t => t <> []) (map (fun t => trim (bytes t)) tags) with
  | [] => []
  | out => line_ "tag" (joinSpace out)
  end.

(** [strings.TrimRight(s, "\n")] *)
Fixpoint dropLF (l : bytestr) : bytestr :=
  match l with c :: l' => if bool_decide (c = LF) then dropLF l' else l | [] => [] end.

Definition RenderWorkflow (w : workflow) (fallback : string) : bytestr :=
  let name := trim (bytes (wName w)) in
  let name := if bool_decide (name = []) then trim (bytes fallback) else name in
  let name := if bool_decide (name = []) then bytes "workflow" else name in
  rev (dropLF (rev (head_ "workflow" name ++ writeWorkflowOptions w ++ [LF] ++ renderDescription (wDescription w) ++
    renderTags (wTags w) ++ mjoin (map (writeStep (wDefault w)) (wSteps w))))).
End unicode.
End Wb.
