(* ===== verification/WorkflowTextFacts.v ===== *)
(** * The correctness of workflow parsing

    Whatever directives a file has, the workflows the parser builds are well
    formed and the engine can prepare them when the requests they name exist. *)
From stdpp Require Import base list strings gmap.
From Stdlib Require Import Ascii ZArith Lia.
From S2P Require Import Prelude GoStd GoPath Names Text Directive DirectiveFacts Workflow Catalog CatalogFacts WorkflowText.

Open Scope string_scope.
Open Scope nat_scope.
Open Scope list_scope.

Import Wb.

(** ** Well-formed workflows *)

Definition modeOk (m : Wf.failureMode) : Prop := m = Wf.OnStop \/ m = Wf.OnContinue.

(** A branch has a run or a fail, not both. *)
Definition oneTarget (br : Wf.branch) : Prop :=
  Wf.bRun br <> "" /\ Wf.bFail br = "" \/ Wf.bRun br = "" /\ Wf.bFail br <> "".
Definition branchOk (br : Wf.branch) : Prop := Wf.bCond br <> "" /\ oneTarget br.

Definition optOk {A} (P : A -> Prop) (o : option A) : Prop := match o with Some a => P a | None => True end.

Definition ifOk (f : Wf.WorkflowIf) : Prop :=
  branchOk (Wf.wThen f) /\ Forall branchOk (Wf.wElifs f) /\ optOk oneTarget (Wf.wElse f).
Definition switchOk (f : Wf.WorkflowSwitch) : Prop :=
  Wf.wExpr f <> "" /\ (Wf.wCases f <> [] \/ is_Some (Wf.wDefault f)) /\ Forall branchOk (Wf.wCases f) /\ optOk oneTarget (Wf.wDefault f).

(** What the engine needs of a step of each kind. *)
Definition coreOk (c : Wf.WorkflowStep) : Prop :=
  modeOk (Wf.sOnFailure c) /\
  match Wf.sKind c with
  | Wf.KindRequest => Wf.sUsing c <> "" /\ Wf.sForEach c = None /\ Wf.sIf c = None /\ Wf.sSwitch c = None
  | Wf.KindForEach => Wf.sUsing c <> "" /\ is_Some (Wf.sForEach c) /\ Wf.sIf c = None /\ Wf.sSwitch c = None
  | Wf.KindIf => exists f, Wf.sIf c = Some f /\ ifOk f /\ Wf.sSwitch c = None
  | Wf.KindSwitch => exists f, Wf.sSwitch c = Some f /\ switchOk f /\ Wf.sIf c = None
  | _ => False
  end.

(** The workflow as the engine gets it. *)
Definition toWf (w : workflow) : Wf.Workflow := Wf.mkWorkflow (wName w) (wDefault w) (wOptions w) (map core (wSteps w)).

Definition within (b : builder) (ln : Z) : Prop := (bStart b <= ln <= bEnd b)%Z.

(** The builder's invariant: at most one of a switch, an if and a pending
    condition or loop is open, and all that was built is well formed. *)
Record builderOk (b : builder) : Prop := {
  ok_steps : Forall (fun s => coreOk (core s) /\ within b (line s)) (wSteps (wf b));
  ok_mode : modeOk (wDefault (wf b));
  ok_range : (bStart b <= bEnd b)%Z;
  ok_sw : optOk (fun s => swExpr s <> "" /\ Forall branchOk (swCases s) /\ optOk oneTarget (swDef s) /\ within b (swLine s)) (sw b);
  ok_if : optOk (fun i => branchOk (ifThen i) /\ Forall branchOk (ifElifs i) /\ optOk oneTarget (ifEls i) /\ within b (ifLine i)) (ifb b);
  ok_flow : sw b = None \/ ifb b = None;
  ok_pend : (is_Some (pendWhen b) \/ is_Some (pendEach b)) -> sw b = None /\ ifb b = None;
  ok_one : pendWhen b = None \/ pendEach b = None
}.

Lemma within_touch ln b x : within b x -> within (touch ln b) x.
Proof. unfold within. simpl. lia. Qed.

Lemma touch_ok ln b : builderOk b -> builderOk (touch ln b).
Proof.
  intros [H1 H2 H3 H4 H5 H6 H7 H8]. constructor; simpl; try done; [|lia| |].
  - eapply Forall_impl; [exact H1|]. intros s [? ?]. split; [done|by apply within_touch].
  - destruct (sw b); simpl in *; [|done]. destruct H4 as (? & ? & ? & ?). split_and!; try done. by apply within_touch.
  - destruct (ifb b); simpl in *; [|done]. destruct H5 as (? & ? & ? & ?). split_and!; try done. by apply within_touch.
Qed.

(** A new step is kept when its line is in range once touched. *)
Lemma touch_step ln b st :
  builderOk b -> coreOk (core st) -> (bStart b <= line st <= Z.max ln (bEnd b))%Z ->
  builderOk (touch ln (set_wf (addStepTo st (wf b)) b)).
Proof.
  intros Hok Hst Hl. pose proof (touch_ok ln b Hok) as [H1 H2 H3 H4 H5 H6 H7 H8]. constructor; try done.
  simpl. apply Forall_app. split; [exact H1|]. constructor; [|done]. by split.
Qed.

Section facts.
Context {unicode : Unicode} (iter : Catalog.Iter).

(** *** Arguments *)

Lemma runOptions_ok name o r f :
  parseWorkflowRunOptions name o = inr (r, f) -> r <> "" /\ f = "" \/ r = "" /\ f <> "".
Proof.
  unfold parseWorkflowRunOptions. destruct (Directive.First _ o) as [run o']. destruct (Directive.Conflicts name o'); [|done].
  destruct (bool_decide (default "" run = "")) eqn:E1, (bool_decide (Directive.Get o' "fail" = "")) eqn:E2; simpl; try done;
    apply bool_decide_eq_true in E1 || apply bool_decide_eq_false in E1;
    apply bool_decide_eq_true in E2 || apply bool_decide_eq_false in E2; intros [= <- <-]; [by right|by left].
Qed.

Lemma parseRun_ok name text expr ln br :
  parseRun name text expr ln = inr br -> oneTarget br /\ Wf.bCond br = expr /\ Wf.bLine br = ln.
Proof.
  unfold parseRun. destruct (Directive.ParseOptions name text) as [o [|? ?]]; [|done].
  destruct (parseWorkflowRunOptions name o) as [|[r f]] eqn:E; [done|]. intros [= <-]. split; [|done].
  by apply runOptions_ok in E.
Qed.

Lemma parseExprRun_ok name rest miss ln br : parseExprRun name rest miss ln = inr br -> branchOk br /\ Wf.bLine br = ln.
Proof.
  unfold parseExprRun. destruct (cutBranch rest) as [expr tail]. case_bool_decide as He; [done|].
  intros (H1 & H2 & H3)%parseRun_ok. split; [|done]. split; [|done]. rewrite H2. by destruct expr.
Qed.

(** *** Flows *)

Lemma flushSwitch_ok ln b e b' :
  builderOk b -> flushSwitch ln b = (e, b') -> builderOk b' /\ bStart b' = bStart b /\ (e = [] -> sw b' = None) /\
    pendWhen b' = pendWhen b /\ pendEach b' = pendEach b /\ ifb b' = ifb b.
Proof.
  intros Hok. unfold flushSwitch. destruct (sw b) as [s|] eqn:Es; [|intros [= <- <-]; by split_and!].
  case_match eqn:Ec; [intros [= <- <-]; by split_and!|]. intros [= <- <-]. split; [|by split_and!].
  pose proof Hok as [_ Hm _ Hsw _ _ _ _]. rewrite Es in Hsw. destruct Hsw as (He & Hc & Hd & Hl).
  assert (Hok0 : builderOk (set_sw None b)).
  { destruct Hok. constructor; simpl; try done; [by left|]. intros Hp. by destruct (ok_pend0 Hp). }
  apply (touch_step ln (set_sw None b)); [done| |unfold within in Hl; simpl; lia].
  split; [done|]. simpl. eexists. split; [done|]. split; [|done]. split; [done|]. simpl. split; [|by split].
  apply andb_false_iff in Ec as [Ec|Ec]; apply bool_decide_eq_false in Ec; [by left|right].
  destruct (swDef s); [by eexists|done].
Qed.

Lemma flushIf_ok ln b :
  builderOk b -> builderOk (flushIf ln b) /\ bStart (flushIf ln b) = bStart b /\ ifb (flushIf ln b) = None /\
    pendWhen (flushIf ln b) = pendWhen b /\ pendEach (flushIf ln b) = pendEach b /\ sw (flushIf ln b) = sw b.
Proof.
  intros Hok. unfold flushIf. destruct (ifb b) as [i|] eqn:Ei; [|by split_and!]. split; [|by split_and!].
  pose proof Hok as [_ Hm _ _ Hif _ _ _]. rewrite Ei in Hif. destruct Hif as (H1 & H2 & H3 & Hl).
  assert (Hok0 : builderOk (set_ifb None b)).
  { destruct Hok. constructor; simpl; try done; [by right|]. intros Hp. by destruct (ok_pend0 Hp). }
  apply (touch_step ln (set_ifb None b)); [done| |unfold within in Hl; simpl; lia].
  split; [done|]. simpl. eexists. split; [done|]. by split.
Qed.

Lemma flushFlow_ok ln b e b' :
  builderOk b -> flushFlow ln b = (e, b') -> builderOk b' /\ bStart b' = bStart b /\ (e = [] -> sw b' = None /\ ifb b' = None) /\
    pendWhen b' = pendWhen b /\ pendEach b' = pendEach b.
Proof.
  intros Hok. unfold flushFlow. destruct (flushSwitch ln b) as [e1 b1] eqn:E1.
  destruct (flushSwitch_ok ln b e1 b1 Hok E1) as (Hok1 & Hs1 & Hsw & Hw & He & Hi).
  destruct e1; [|intros [= <- <-]; by split_and!]. intros [= <- <-].
  destruct (flushIf_ok ln b1 Hok1) as (Hok2 & Hs2 & Hi2 & Hw2 & He2 & Hsw2).
  split; [done|]. split; [congruence|]. split; [|split; congruence]. intros _. split; [|done]. rewrite Hsw2. by apply Hsw.
Qed.

Lemma flushOpen_ok name ln b e b' :
  builderOk b -> flushOpen name ln b = (e, b') -> builderOk b' /\ bStart b' = bStart b /\
    (e = [] -> name <> "case" -> name <> "default" -> sw b' = None) /\
    (e = [] -> name <> "elif" -> name <> "else" -> ifb b' = None).
Proof.
  intros Hok. unfold flushOpen. pose proof (ok_flow b Hok) as Hflow.
  destruct (bool_decide (is_Some (sw b)) && _ && _) eqn:E1; [|destruct (bool_decide (is_Some (ifb b)) && _ && _) eqn:E2].
  - intros Hf. destruct (flushFlow_ok _ _ _ _ Hok Hf) as (? & ? & Hn & _). split_and!; try done; naive_solver.
  - intros Hf. destruct (flushFlow_ok _ _ _ _ Hok Hf) as (? & ? & Hn & _). split_and!; try done; naive_solver.
  - intros [= <- <-]. split_and!; [done..| |]; intros _ N1 N2.
    + destruct (sw b); [|done]. rewrite bool_decide_eq_true_2 in E1 by (by eexists). simpl in E1.
      rewrite !bool_decide_eq_false_2 in E1 by done. done.
    + destruct (ifb b); [|done]. rewrite bool_decide_eq_true_2 in E2 by (by eexists). simpl in E2.
      rewrite !bool_decide_eq_false_2 in E2 by done. done.
Qed.

Lemma noPending_none b : requireNoPending b = [] -> pendWhen b = None /\ pendEach b = None.
Proof.
  unfold requireNoPending. destruct (pendWhen b), (pendEach b); simpl; try done;
    rewrite ?bool_decide_eq_true_2 by (by eexists); done.
Qed.

(** *** Every directive keeps the invariant *)

Definition keeps (b : builder) (r : option (err * builder)) : Prop :=
  match r with Some (_, b') => builderOk b' /\ bStart b' = bStart b | None => True end.

Lemma meta_ok desc tags b : builderOk b -> builderOk (set_meta desc tags b).
Proof. intros [H1 H2 H3 H4 H5 H6 H7 H8]. by constructor. Qed.

Lemma handleWorkflowMeta_ok name rest ln b : builderOk b -> keeps b (handleWorkflowMeta name rest ln b).
Proof.
  intros Hok. unfold handleWorkflowMeta. destruct (bool_decide (name = "description")); [|destruct (bool_decide (name = "tag")); [|done]];
    case_match; simpl; (split; [|done]); try done; by apply touch_ok, meta_ok.
Qed.

Lemma condition_ok call ln b :
  builderOk b -> (Directive.cName call = "when" \/ Directive.cName call = "for-each" -> sw b = None /\ ifb b = None) ->
  keeps b (handleWorkflowCondition call ln b).
Proof.
  intros Hok Hfree. assert (Hp : forall w e, (w = None \/ e = None) -> sw b = None -> ifb b = None -> builderOk (touch ln (set_pend w e b))).
  { intros w e Hone Hs Hi. apply touch_ok. destruct Hok. constructor; simpl; try done. }
  unfold handleWorkflowCondition. case_bool_decide as En; [|case_bool_decide as En'; [|done]].
  - destruct (Hfree (or_introl En)) as [Hs Hi]. destruct (requireNoPending b) eqn:Er; [|by split].
    apply noPending_none in Er as [Hw He]. destruct (parseConditionSpec _ _ _); [by split|].
    destruct (bool_decide (is_Some (pendWhen b))); [by split|]. split; [|done]. apply Hp; [by right|done..].
  - destruct (Hfree (or_intror En')) as [Hs Hi]. destruct (requireNoPending b) eqn:Er; [|by split].
    apply noPending_none in Er as [Hw He]. destruct (parseForEachSpec _ _); [by split|].
    destruct (bool_decide (is_Some (pendEach b))); [by split|]. split; [|done]. apply Hp; [by left|done..].
Qed.


Lemma switch_ok call_name rest ln b :
  builderOk b -> (bStart b <= ln)%Z -> (call_name = "switch" -> sw b = None /\ ifb b = None) ->
  keeps b (handleWorkflowSwitch call_name rest ln b).
Proof.
  intros Hok Hln Hfree. assert (Hset : forall s, sw b <> None -> swExpr s <> "" -> Forall branchOk (swCases s) -> optOk oneTarget (swDef s) ->
    within b (swLine s) -> builderOk (touch ln (set_sw (Some s) b))).
  { intros s Hs H1 H2 H3 H4. apply touch_ok. destruct Hok. constructor; simpl; try done; [by destruct ok_flow0; [|right]|].
    intros Hp. by destruct (ok_pend0 Hp) as [? _]. }
  unfold handleWorkflowSwitch. case_bool_decide as E1; [|case_bool_decide as E2; [|case_bool_decide as E3; [|done]]].
  - destruct (Hfree E1) as [Hs Hi]. destruct (requireNoPending b) eqn:Er; [|by split]. apply noPending_none in Er as [Hw He].
    assert (Hf : flushFlow ln b = ([], b)) by (unfold flushFlow, flushSwitch, flushIf; rewrite Hs; simpl; by rewrite Hi).
    rewrite Hf. case_bool_decide as Ee; [by split|]. split; [|done].
    destruct (touch_ok ln b Hok) as [H1 H2 H3 H4 H5 H6 H7 H8]. constructor; simpl in *; try done.
    + split; [by destruct (trim rest)|]. split; [done|]. split; [done|]. unfold within. simpl. pose proof (ok_range b Hok). lia.
    + by right.
    + rewrite Hw, He. by intros [[]|[]].
  - destruct (sw b) as [s|] eqn:Es; [|by split]. pose proof (ok_sw b Hok) as Hsw. rewrite Es in Hsw. destruct Hsw as (H1 & H2 & H3 & H4).
    unfold addCase. destruct (parseExprRun _ _ _ _) as [|br] eqn:Ep; [by split|]. apply parseExprRun_ok in Ep as [Hbr _].
    split; [|done]. apply Hset; try done. simpl. apply Forall_app. by split; [|constructor].
  - destruct (sw b) as [s|] eqn:Es; [|by split]. pose proof (ok_sw b Hok) as Hsw. rewrite Es in Hsw. destruct Hsw as (H1 & H2 & H3 & H4).
    unfold addDefault. case_bool_decide; [by split|]. destruct (parseRun _ _ _ _) as [|br] eqn:Ep; [by split|].
    apply parseRun_ok in Ep as [Hbr _]. split; [|done]. by apply Hset.
Qed.

Lemma if_ok call_name rest ln b :
  builderOk b -> (bStart b <= ln)%Z -> (call_name = "if" -> sw b = None /\ ifb b = None) ->
  keeps b (handleWorkflowIf call_name rest ln b).
Proof.
  intros Hok Hln Hfree. assert (Hset : forall i, ifb b <> None -> branchOk (ifThen i) -> Forall branchOk (ifElifs i) -> optOk oneTarget (ifEls i) ->
    within b (ifLine i) -> builderOk (touch ln (set_ifb (Some i) b))).
  { intros s Hs H1 H2 H3 H4. apply touch_ok. destruct Hok. constructor; simpl; try done; [by destruct ok_flow0; [left|]|].
    intros Hp. by destruct (ok_pend0 Hp) as [_ ?]. }
  unfold handleWorkflowIf. case_bool_decide as E1; [|case_bool_decide as E2; [|case_bool_decide as E3; [|done]]].
  - destruct (Hfree E1) as [Hs Hi]. destruct (requireNoPending b) eqn:Er; [|by split]. apply noPending_none in Er as [Hw He].
    assert (Hf : flushFlow ln b = ([], b)) by (unfold flushFlow, flushSwitch, flushIf; rewrite Hs; simpl; by rewrite Hi).
    rewrite Hf. destruct (parseExprRun _ _ _ _) as [|br] eqn:Ep; [by split|]. apply parseExprRun_ok in Ep as [Hbr _]. split; [|done].
    destruct (touch_ok ln b Hok) as [H1 H2 H3 H4 H5 H6 H7 H8]. constructor; simpl in *; try done.
    + split; [done|]. split; [done|]. split; [done|]. unfold within. simpl. pose proof (ok_range b Hok). lia.
    + by left.
    + rewrite Hw, He. by intros [[]|[]].
  - destruct (ifb b) as [s|] eqn:Es; [|by split]. pose proof (ok_if b Hok) as Hi. rewrite Es in Hi. destruct Hi as (H1 & H2 & H3 & H4).
    destruct (parseExprRun _ _ _ _) as [|br] eqn:Ep; [by split|]. apply parseExprRun_ok in Ep as [Hbr _].
    split; [|done]. apply Hset; try done. simpl. apply Forall_app. by split; [|constructor].
  - destruct (ifb b) as [s|] eqn:Es; [|by split]. pose proof (ok_if b Hok) as Hi. rewrite Es in Hi. destruct Hi as (H1 & H2 & H3 & H4).
    case_bool_decide; [by split|]. destruct (parseRun _ _ _ _) as [|br] eqn:Ep; [by split|].
    apply parseRun_ok in Ep as [Hbr _]. split; [|done]. by apply Hset.
Qed.

Lemma handleDirective_ok call ln b : builderOk b -> (bStart b <= ln)%Z -> keeps b (handleDirective call ln b).
Proof.
  intros Hok Hln. unfold handleDirective. destruct (negb _); [done|]. destruct (flushOpen (Directive.cName call) ln b) as [e b1] eqn:Ef.
  destruct (flushOpen_ok _ _ _ _ _ Hok Ef) as (Hok1 & Hst & Hsw & Hif). destruct e; [|by split].
  assert (Hln1 : (bStart b1 <= ln)%Z) by (by rewrite Hst).
  assert (Hkeep : forall r, keeps b1 r -> keeps b r) by (intros [[? b2]|]; [|done]; simpl; rewrite Hst; done).
  pose proof (handleWorkflowMeta_ok (Directive.cName call) (Directive.cArgs call) ln b1 Hok1) as H1.
  destruct (handleWorkflowMeta _ _ _ _); [by apply Hkeep|].
  assert (Hfree : forall n, Directive.cName call = n -> n <> "case" -> n <> "default" -> n <> "elif" -> n <> "else" ->
    sw b1 = None /\ ifb b1 = None) by (intros n <- ? ? ? ?; split; [by apply Hsw|by apply Hif]).
  pose proof (condition_ok call ln b1 Hok1) as H2. destruct (handleWorkflowCondition _ _ _).
  { apply Hkeep, H2. intros [Hn|Hn]; by eapply Hfree. }
  pose proof (switch_ok (Directive.cName call) (Directive.cArgs call) ln b1 Hok1 Hln1) as H3. destruct (handleWorkflowSwitch _ _ _ _).
  { apply Hkeep, H3. intros Hn. by eapply Hfree. }
  apply Hkeep, if_ok; [done|done|]. intros Hn. by eapply Hfree.
Qed.

Lemma mode_ok v m : modeOk m -> modeOk (default m (parseWorkflowFailureMode v)).
Proof. intros Hm. unfold parseWorkflowFailureMode. repeat case_bool_decide; simpl; first [done|by left|by right]. Qed.

Lemma addStep_ok ln rest b : builderOk b -> (bStart b <= ln)%Z -> keeps b (Some (addStep iter ln rest b)).
Proof.
  intros Hok Hln. unfold addStep. destruct (flushFlow ln b) as [e b1] eqn:Ef.
  destruct (flushFlow_ok _ _ _ _ Hok Ef) as (Hok1 & Hst & Hnone & _). destruct e; [|by split].
  destruct (parseStepSpec rest) as [|[name o]]; [by split|]. destruct (Directive.PopAny _ o) as [use o1].
  case_bool_decide as Hu; [by split|]. destruct (Directive.Pop "on-failure" o1) as [v o2].
  split; [|done]. destruct (Hnone eq_refl) as [Hsw Hif].
  set (mode := if bool_decide (v = "") then _ else _).
  assert (Hm : modeOk mode) by (unfold mode; case_bool_decide; [by apply ok_mode|by apply mode_ok, ok_mode]).
  assert (Hok2 : builderOk (set_pend None None b1)).
  { destruct Hok1. constructor; simpl; try done. by left. }
  apply (touch_step ln (set_pend None None b1)); [done| |simpl; pose proof (ok_range b1 Hok1); lia].
  split; [done|]. destruct (pendEach b1) as [f|]; simpl; split_and!; try done; by eexists.
Qed.

Lemma workflowCall_ok call lines b :
  builderOk b -> (bStart b <= lines.1)%Z -> keeps b (workflowCall iter call lines b).
Proof.
  intros Hok Hl. unfold workflowCall. case_bool_decide; [by apply addStep_ok|].
  pose proof (handleDirective_ok call lines.1 b Hok Hl) as H1. destruct (handleDirective _ _ _) as [[e1 b1]|]; [|done].
  destruct H1. split; [by apply touch_ok|done].
Qed.

(** The builders the parser can reach from a @workflow line: any directives, valid
    or not, on the lines after it. *)
Inductive reached : builder -> Prop :=
  | reached_start ln rest e b : startWorkflow ln rest = Some (e, b) -> reached b
  | reached_call call lines b e b' :
      reached b -> (bStart b <= lines.1 <= lines.2)%Z -> workflowCall iter call lines b = Some (e, b') -> reached b'.

Lemma reached_ok b : reached b -> builderOk b.
Proof.
  induction 1 as [ln rest e b Hs|call lines b e b' _ IH Hl Hc].
  - unfold startWorkflow in Hs. destruct (Directive.CutToken rest) as [nm r]. destruct (_ || _); [done|].
    destruct (Directive.ParseOptions "workflow" r) as [o es]. destruct (applyOptions o _) as [e' b'] eqn:Ea. injection Hs as _ <-.
    apply touch_ok. assert (Hnew : builderOk (newWorkflowBuilder ln (str nm))).
    { constructor; simpl; try done; by left. }
    unfold applyOptions in Ea. case_bool_decide; [by injection Ea as _ <-|]. destruct (Directive.PopAny _ o) as [v o'].
    injection Ea as _ <-. destruct Hnew. constructor; simpl; try done.
    destruct v as [v|]; [by apply mode_ok|done].
  - pose proof (workflowCall_ok call lines b IH ltac:(lia)) as H1. rewrite Hc in H1. apply H1.
Qed.

(** *** What the engine makes of it *)

(** The names of requests in a step are found: a branch may have none. *)
Definition named (reqs : gmap string Wf.Request) (run : string) : Prop := is_Some (reqs !! ToLower (TrimSpace run)).
Definition branchRuns (c : Wf.WorkflowStep) : list string :=
  match Wf.sIf c, Wf.sSwitch c with
  | Some f, _ => Wf.bRun (Wf.wThen f) :: map Wf.bRun (Wf.wElifs f) ++ map Wf.bRun (Wf.opt_list (Wf.wElse f))
  | None, Some f => map Wf.bRun (Wf.wCases f) ++ map Wf.bRun (Wf.opt_list (Wf.wDefault f))
  | None, None => []
  end.
Definition resolves (reqs : gmap string Wf.Request) (c : Wf.WorkflowStep) : Prop :=
  match Wf.sKind c with
  | Wf.KindRequest | Wf.KindForEach => named reqs (Wf.sUsing c)
  | _ => Forall (fun run => TrimSpace run = "" \/ named reqs run) (branchRuns c)
  end.

Lemma collect_nonempty requests : Wf.collectRequests requests !! "" = None.
Proof.
  unfold Wf.collectRequests. cut (forall m : gmap string Wf.Request, m !! "" = None ->
    foldl (fun m q => let name := ToLower (TrimSpace (Wf.rName q)) in if decide (name = "") then m else <[name := q]> m) m requests !! "" = None).
  { intros H. by apply H. }
  induction requests as [|q qs IH]; intros m Hm; [done|]. simpl. apply IH. case_decide; [done|]. by rewrite lookup_insert_ne.
Qed.

Lemma validateRuns_iff name i reqs runs :
  Wf.validateRuns name i reqs runs = None <-> Forall (fun run => TrimSpace run = "" \/ named reqs run) runs.
Proof.
  induction runs as [|run runs IH]; [done|]. rewrite Forall_cons, <- IH. simpl. unfold Wf.validateRun, named.
  destruct (decide (TrimSpace run = "")) as [E|E].
  - split; [intros H; split; [by left|done]|by intros [_ H]].
  - destruct (reqs !! ToLower (TrimSpace run)); split; [intros H; split; [right; by eexists|done]|by intros [_ H]|done|].
    by intros [[?|[? ?]] _].
Qed.

Lemma prepareStep_iff name requests i f c :
  coreOk c -> let reqs := Wf.collectRequests requests in
  (exists rt, Wf.prepareStep name reqs i (Wf.normWfStep f c) = inr rt) <-> resolves reqs c.
Proof.
  intros [_ Hc] reqs. unfold Wf.prepareStep, resolves, branchRuns, Wf.stepOrDefault, Wf.normWfStep. cbn -[Wf.validateRuns TrimSpace].
  assert (Hkey : forall m, reqs !! ToLower (TrimSpace m) <> None -> ToLower (TrimSpace m) <> "").
  { intros m Hm E. rewrite E in Hm. apply Hm, collect_nonempty. }
  destruct (Wf.sKind c); cbn -[Wf.validateRuns TrimSpace]; try done.
  - unfold named. rewrite TrimSpace_idem. destruct (reqs !! ToLower (TrimSpace (Wf.sUsing c))) eqn:E.
    + rewrite decide_False by (apply Hkey; by rewrite E). split; [|by eexists]. intros _. by eexists.
    + split; [|by intros [? ?]]. case_decide; by intros [? ?].
  - destruct Hc as (w & -> & _). cbn -[Wf.validateRuns TrimSpace]. rewrite <- validateRuns_iff with (name := name) (i := i). destruct (Wf.validateRuns _ _ _ _).
    + split; [by intros [? ?]|done].
    + split; [done|by eexists].
  - destruct Hc as (w & -> & _ & ->). cbn -[Wf.validateRuns TrimSpace]. rewrite <- validateRuns_iff with (name := name) (i := i). destruct (Wf.validateRuns _ _ _ _).
    + split; [by intros [? ?]|done].
    + split; [done|by eexists].
  - destruct Hc as (_ & [fe ->] & _). unfold named. rewrite TrimSpace_idem. destruct (reqs !! ToLower (TrimSpace (Wf.sUsing c))) eqn:E.
    + rewrite decide_False by (apply Hkey; by rewrite E). split; [|by eexists]. intros _. by eexists.
    + split; [|by intros [? ?]]. case_decide; by intros [? ?].
Qed.

Lemma prepareSteps_iff name requests i f cs :
  Forall coreOk cs -> let reqs := Wf.collectRequests requests in
  (exists rts, Wf.prepareSteps name reqs i (map (Wf.normWfStep f) cs) = inr rts) <-> Forall (resolves reqs) cs.
Proof.
  intros Hcs reqs. revert i. induction Hcs as [|c cs Hc _ IH]; intros i; simpl; [split; [done|by eexists]|].
  rewrite Forall_cons, <- (IH (S i)). pose proof (prepareStep_iff name requests i f c Hc) as Hs. fold reqs in Hs. simpl in Hs. rewrite <- Hs.
  destruct (Wf.prepareStep _ _ _ _) as [|rt]; [split; [by intros [? ?]|by intros [[? ?] _]]|].
  destruct (Wf.prepareSteps _ _ _ _) as [|rts].
  - split; [by intros [? ?]|by intros [_ [? ?]]].
  - split; [|by eexists]. intros _. split; by eexists.
Qed.

Lemma flushed_ok ln b e w :
  builderOk b -> flushWorkflow ln b = (e, Some w) ->
  Forall (fun s => coreOk (core s) /\ ((wRange w).1 <= line s <= (wRange w).2)%Z) (wSteps w) /\ wSteps w <> [].
Proof.
  intros Hok. unfold flushWorkflow. destruct (flushFlow ln b) as [e1 b1] eqn:Ef. destruct (flushFlow_ok _ _ _ _ Hok Ef) as (Hok1 & _).
  case_bool_decide as Hs; [done|]. intros [= _ <-]. split; [|done]. unfold build in *. set (b2 := if (0 <? ln)%Z then _ else _).
  assert (Hok2 : builderOk b2) by (unfold b2; case_match; [by apply touch_ok|done]).
  eapply Forall_impl; [apply (ok_steps b2 Hok2)|]. intros s [H1 H2]. split; [done|]. unfold within in H2. simpl. lia.
Qed.

End facts.

(** Its range starts where the builder did. *)
Lemma flushed_range {unicode : Unicode} (ln : Z) (b : builder) (e : err) (w : workflow) :
  builderOk b -> flushWorkflow ln b = (e, Some w) -> (wRange w).1 = bStart b /\ ((wRange w).1 <= (wRange w).2)%Z.
Proof.
  intros Hok. unfold flushWorkflow. destruct (flushFlow ln b) as [e1 b1] eqn:Ef. destruct (flushFlow_ok _ _ _ _ Hok Ef) as (_ & Hst & _).
  case_bool_decide; [done|]. intros [= _ <-]. unfold build. case_match; cbn; (split; [done|lia]).
Qed.

(** What the engine makes of a workflow the parser keeps: it prepares it exactly when
    the names in it are those of requests. *)
Lemma flushed_prepares {unicode : Unicode} (requests : list Wf.Request) (b : builder) (ln : Z) (e : err) (w : workflow) :
  builderOk b -> flushWorkflow ln b = (e, Some w) ->
  Forall (fun s => ((wRange w).1 <= line s <= (wRange w).2)%Z) (wSteps w) /\
  ((exists plan, Wf.PrepareWorkflow requests (toWf w) = inr plan) <->
   requests <> [] /\ Forall (fun s => resolves (Wf.collectRequests requests) (core s)) (wSteps w)).
Proof.
  intros Hb Hf. destruct (flushed_ok _ _ _ _ Hb Hf) as [Hs Hne].
  split; [by eapply Forall_impl; [exact Hs|]; intros ? [_ ?]|].
  rewrite <- (Forall_map core). unfold Wf.PrepareWorkflow, Wf.prepareWorkflow, toWf. simpl.
  rewrite <- (prepareSteps_iff (TrimSpace (wName w)) requests 1 (wDefault w)).
  2:{ apply Forall_map. eapply Forall_impl; [exact Hs|]. by intros ? [? _]. }
  rewrite bool_decide_eq_false_2 by (destruct (wSteps w); done). case_bool_decide as Hr.
  - split; [by intros [? ?]|]. intros [Hne' _]. by destruct requests.
  - destruct (Wf.prepareSteps _ _ _ _) as [|rts]; [split; [by intros [? ?]|by intros [_ [? ?]]]|split; [|by eexists]].
    intros _. split; [by intros ->|by eexists].
Qed.

(** Decided, for examples *)
Definition resolvesb (reqs : gmap string Wf.Request) (c : Wf.WorkflowStep) : bool :=
  let found run := bool_decide (is_Some (reqs !! ToLower (Unicode := Names.ascii) (TrimSpace run))) in
  match Wf.sKind c with
  | Wf.KindRequest | Wf.KindForEach => found (Wf.sUsing c)
  | _ => forallb (fun run => bool_decide (TrimSpace run = "") || found run) (branchRuns c)
  end.
Lemma resolvesb_ok reqs c : resolvesb reqs c = true -> resolves (unicode := Names.ascii) reqs c.
Proof.
  unfold resolvesb, resolves, named. intros H. destruct (Wf.sKind c); try by apply bool_decide_eq_true in H.
  all: apply Forall_forall; intros run Hrun; apply list_elem_of_In in Hrun; rewrite forallb_forall in H; specialize (H run Hrun);
    apply orb_prop in H as [H|H]; apply bool_decide_eq_true in H; [by left|by right].
Qed.

(** A line without a name starts nothing and reports nothing, so the steps after it
    join the workflow before it (a finding). *)
Lemma unnamed_workflow_ignored : startWorkflow (unicode := Names.ascii) 7 (bytes "on-failure=stop") = None.
Proof. vm_compute. reflexivity. Qed.
