(* ===== verification/Units.v ===== *)
(** * Sizes and durations (src/internal/bytesize/parse.go, src/internal/duration/parse.go)

    [ByteSize.Parse] reads a size such as 1.5MiB, [Duration.Parse] a duration such
    as 1h30m or 2d3h, in nanoseconds.  math/big's rationals are exact: here the
    digits with the number of those after the point.  [time.ParseDuration], which
    [Duration.Parse] tries first, is given as the Standard Library has it. *)
From stdpp Require Import base list strings.
From Stdlib Require Import Ascii ZArith Lia.
From S2P Require Import Prelude GoStd GoFloat GoPath Names Text.

Open Scope string_scope.
Open Scope nat_scope.
Open Scope list_scope.

Definition isDigit (c : Ascii.ascii) : bool := ((48 <=? byte_val c) && (byte_val c <=? 57))%N.
Definition isASCIILetter (c : Ascii.ascii) : bool :=
  ((97 <=? byte_val c) && (byte_val c <=? 122) || (65 <=? byte_val c) && (byte_val c <=? 90))%N.

(** The longest prefix of digits, and the rest. *)
Fixpoint spanDigits (l : bytestr) : bytestr * bytestr :=
  match l with
  | c :: l' => if isDigit c then let '(a, b) := spanDigits l' in (c :: a, b) else ([], l)
  | [] => ([], [])
  end.

Definition POINT : Ascii.ascii := "."%char.

(** ** bytesize *)

Module ByteSize.

Definition kibibyte : Z := 2 ^ 10.
Definition mebibyte : Z := 2 ^ 20.
Definition gibibyte : Z := 2 ^ 30.
Definition maxInt64Digits : nat := 19.

(** [splitValue]: the number and the suffix. *)
Definition splitValue (input : bytestr) : string + (bytestr * bytestr) :=
  match input with
  | c :: _ =>
      if bool_decide (c = "-"%char) then inl "value must be non-negative"
      else
        let '(sign, l) := if bool_decide (c = "+"%char) then (take 1 input, drop 1 input) else ([], input) in
        let '(whole, l) := spanDigits l in
        let '(point, fraction, l) :=
          match l with
          | p :: l' => if bool_decide (p = POINT) then let '(f, r) := spanDigits l' in ([p], f, r) else ([], [], l)
          | [] => ([], [], l)
          end in
        if bool_decide (whole = []) && bool_decide (fraction = []) then inl "expected a decimal number"
        else
          let suffix := trim l in
          if negb (forallb isASCIILetter suffix) then inl "suffix must contain only letters"
          else inr (sign ++ whole ++ point ++ fraction, suffix)
  | [] => inl "expected a decimal number"
  end.

Fixpoint trimZeros (l : bytestr) : bytestr :=
  match l with c :: l' => if bool_decide (c = "0"%char) then trimZeros l' else l | [] => [] end.

(** [bits.TrailingZeros64] of a positive number *)
Fixpoint trailingZeros (p : positive) : nat := match p with xO p' => S (trailingZeros p') | _ => 0 end.

(** [scaleDecimal]: [big.Rat] reads the whole part and the fraction, and the
    product is [n * scale / 10^k]. *)
Definition scaleDecimal (number : bytestr) (scale : Z) : string + Z :=
  let number := match number with c :: l => if bool_decide (c = "+"%char) then l else number | [] => [] end in
  let '(whole, fraction) := match cutAt POINT number with Some (w, f) => (w, f) | None => (number, []) end in
  let whole := trimZeros whole in
  let fraction := rev (trimZeros (rev fraction)) in
  let whole := if bool_decide (whole = []) then ["0"%char] else whole in
  if maxInt64Digits <? length whole then inl "value exceeds the maximum byte size"
  else if trailingZeros (Z.to_pos scale) <? length fraction then inl "value resolves to a fractional byte"
  else match digitsOf (whole ++ fraction) 0 with
       | None => inl "expected a decimal number"
       | Some n =>
           let d := (10 ^ Z.of_nat (length fraction))%Z in
           if negb ((n * scale) mod d =? 0)%Z then inl "value resolves to a fractional byte"
           else match inInt64 (n * scale / d)%Z with
                | None => inl "value exceeds the maximum byte size"
                | Some size => inr size
                end
       end.

Section unicode.
Context {unicode : Unicode}.

Definition scaleForSuffix (suffix : bytestr) : option Z :=
  let s := ToLower (str suffix) in
  if bool_decide (s ∈ [""; "b"]) then Some 1%Z
  else if bool_decide (s ∈ ["kb"; "kib"]) then Some kibibyte
  else if bool_decide (s ∈ ["mb"; "mib"]) then Some mebibyte
  else if bool_decide (s ∈ ["gb"; "gib"]) then Some gibibyte
  else None.

Definition Parse (raw : bytestr) : string + Z :=
  let input := trim raw in
  let invalid what := inl ("invalid size " +:+ quote (str raw) +:+ ": " +:+ what) in
  if bool_decide (input = []) then inl "empty value"
  else match splitValue input with
       | inl e => invalid e
       | inr (number, suffix) =>
           match scaleForSuffix suffix with
           | None => invalid ("unknown suffix " +:+ quote (str suffix))
           | Some scale => match scaleDecimal number scale with inl e => invalid e | inr size => inr size end
           end
       end.
End unicode.
End ByteSize.

(** ** duration *)

Module Duration.

Definition second : Z := 1000000000.

(** *** time.ParseDuration *)

(** [leadingInt]: the digits' value and the rest; [None] on overflow. *)
Fixpoint leadingInt (l : bytestr) (x : Z) : option (Z * bytestr) :=
  match l with
  | c :: l' =>
      if negb (isDigit c) then Some (x, l)
      else if (2 ^ 63 / 10 <? x)%Z then None
      else
        let x := (x * 10 + (Z.of_N (byte_val c) - 48))%Z in
        if (2 ^ 63 <? x)%Z then None else leadingInt l' x
  | [] => Some (x, [])
  end.

(** [leadingFraction]: the digits that fit, the power of ten they are over, and
    the rest. *)
Fixpoint leadingFraction (l : bytestr) (x : Z) (scale : float64) (overflow : bool) : Z * float64 * bytestr :=
  match l with
  | c :: l' =>
      if negb (isDigit c) then (x, scale, l)
      else if overflow then leadingFraction l' x scale overflow
      else if ((2 ^ 63 - 1) / 10 <? x)%Z then leadingFraction l' x scale true
      else
        let y := (x * 10 + (Z.of_N (byte_val c) - 48))%Z in
        if (2 ^ 63 <? y)%Z then leadingFraction l' x scale true
        else leadingFraction l' y (f_mul scale (f_of_Z 10)) overflow
  | [] => (x, scale, [])
  end.

(** The unit: what comes before a point or a digit. *)
Fixpoint spanUnit (l : bytestr) : bytestr * bytestr :=
  match l with
  | c :: l' => if isDigit c || bool_decide (c = POINT) then ([], l) else let '(a, b) := spanUnit l' in (c :: a, b)
  | [] => ([], [])
  end.

Definition MICRO (c : N) : bytestr := [byte_of (if (c =? 181)%N then 194 else 206)%N; byte_of (if (c =? 181)%N then 181 else 188)%N; "s"%char].
Definition unitMap (u : bytestr) : option Z :=
  if bool_decide (u = bytes "ns") then Some 1%Z
  else if bool_decide (u ∈ [bytes "us"; MICRO 181; MICRO 956]) then Some 1000%Z
  else if bool_decide (u = bytes "ms") then Some 1000000%Z
  else if bool_decide (u = bytes "s") then Some second
  else if bool_decide (u = bytes "m") then Some (60 * second)%Z
  else if bool_decide (u = bytes "h") then Some (3600 * second)%Z
  else None.

(** One round of its loop adds to [d], a uint64. *)
Definition component (s : bytestr) (d : Z) : option (Z * bytestr) :=
  match s with
  | c :: _ =>
      if negb (isDigit c || bool_decide (c = POINT)) then None
      else match leadingInt s 0 with
           | None => None
           | Some (v, s1) =>
               let pre := negb (length s =? length s1) in
               let '(f, scale, s2, post) :=
                 match s1 with
                 | p :: s1' =>
                     if bool_decide (p = POINT) then
                       let '(f, scale, r) := leadingFraction s1' 0 (f_of_Z 1) false in (f, scale, r, negb (length s1' =? length r))
                     else (0%Z, f_of_Z 1, s1, false)
                 | [] => (0%Z, f_of_Z 1, s1, false)
                 end in
               if negb pre && negb post then None
               else
                 let '(u, s3) := spanUnit s2 in
                 match unitMap u with
                 | None => None
                 | Some unit =>
                     if (2 ^ 63 / unit <? v)%Z then None
                     else
                       let v := (v * unit)%Z in
                       let v := if (0 <? f)%Z
                                then (v + default 0 (f_to_Z (f_mul (f_of_Z f) (f_div (f_of_Z unit) scale))))%Z else v in
                       if (2 ^ 63 <? v)%Z then None
                       else
                         let d := ((d + v) mod 2 ^ 64)%Z in
                         if (2 ^ 63 <? d)%Z then None else Some (d, s3)
                 end
           end
  | [] => None
  end.

Fixpoint components (fuel : nat) (s : bytestr) (d : Z) : option Z :=
  match s, fuel with
  | [], _ => Some d
  | _, O => None
  | _, S fuel' => match component s d with Some (d, s) => components fuel' s d | None => None end
  end.

Definition ParseDuration (s : bytestr) : option Z :=
  let '(neg, l) :=
    match s with
    | c :: l => if bool_decide (c = "-"%char) then (true, l) else if bool_decide (c = "+"%char) then (false, l) else (false, s)
    | [] => (false, s)
    end in
  if bool_decide (l = ["0"%char]) then Some 0%Z
  else if bool_decide (l = []) then None
  else match components (length l) l 0 with
       | None => None
       | Some d => if neg then Some (- d)%Z else if (2 ^ 63 - 1 <? d)%Z then None else Some d
       end.

(** *** duration.go *)

(** [float64(^uint64(0) >> 1)] *)
Definition maxDurationFloat : float64 := f_of_Z (2 ^ 63 - 1).

Definition unitTable (u : string) : option Z :=
  if bool_decide (u = "ns") then Some 1%Z
  else if bool_decide (u = "us") then Some 1000%Z
  else if bool_decide (u = "ms") then Some 1000000%Z
  else if bool_decide (u = "s") then Some second
  else if bool_decide (u = "m") then Some (60 * second)%Z
  else if bool_decide (u = "h") then Some (3600 * second)%Z
  else if bool_decide (u = "d") then Some (24 * 3600 * second)%Z
  else if bool_decide (u = "w") then Some (7 * 24 * 3600 * second)%Z
  else None.

(** [scanNumber] as a cut: digits with at most one point; [None] without digits. *)
Fixpoint scanNumberLoop (l : bytestr) (dotSeen digitSeen : bool) : option (bytestr * bytestr) :=
  match l with
  | c :: l' =>
      if isDigit c then match scanNumberLoop l' dotSeen true with Some (a, b) => Some (c :: a, b) | None => None end
      else if bool_decide (c = POINT) && negb dotSeen then
        match scanNumberLoop l' true digitSeen with Some (a, b) => Some (c :: a, b) | None => None end
      else if digitSeen then Some ([], l) else None
  | [] => if digitSeen then Some ([], []) else None
  end.
Definition scanNumber (l : bytestr) : option (bytestr * bytestr) := scanNumberLoop l false false.

Fixpoint scanUnit (l : bytestr) : bytestr * bytestr :=
  match l with
  | c :: l' => if isASCIILetter c then let '(a, b) := scanUnit l' in (c :: a, b) else ([], l)
  | [] => ([], [])
  end.

(** [time.Duration] of a float, as amd64 converts it. *)
Definition toDuration (f : float64) : Z :=
  match f_to_Z f with Some z => default (- 2 ^ 63)%Z (inInt64 z) | None => (- 2 ^ 63)%Z end.

Definition exceeds (total : float64) : bool := f_lt maxDurationFloat (f_abs total).

Section unicode.
Context {unicode : Unicode}.

(** The loop of [parseExtended]: the total and whether anything was parsed. *)
Fixpoint extendedLoop (fuel : nat) (s : bytestr) (total : float64) (parsed : bool) : option (float64 * bool) :=
  match fuel with
  | O => None
  | S fuel' =>
      let s := trim s in
      if bool_decide (s = []) then Some (total, parsed)
      else match scanNumber s with
           | None => None
           | Some (numStr, rest) =>
               match ParseNumber (str numStr) with
               | None => None
               | Some n =>
                   let '(unit, rest) := scanUnit rest in
                   if bool_decide (unit = []) then None
                   else match unitTable (ToLower (str unit)) with
                        | None => None
                        | Some scale =>
                            let part := f_mul n (f_of_Z scale) in
                            if IsNaN part || IsInf part then None
                            else
                              let total := f_add total part in
                              if exceeds total then None else extendedLoop fuel' rest total true
                        end
               end
           end
  end.

Definition parseExtended (input : bytestr) : option Z :=
  let s := trim input in
  let '(sign, s) :=
    match s with
    | c :: l => if bool_decide (c = "-"%char) then (f_of_Z (-1), trim l)
                else if bool_decide (c = "+"%char) then (f_of_Z 1, trim l) else (f_of_Z 1, s)
    | [] => (f_of_Z 1, s)
    end in
  if bool_decide (s = []) then None
  else match extendedLoop (S (length s)) s f_zero false with
       | Some (total, true) =>
           let total := f_mul total sign in
           if exceeds total then None else Some (toDuration (f_round total))
       | _ => None
       end.

Definition Parse (value : bytestr) : option Z :=
  let trimmed := trim value in
  if bool_decide (trimmed = []) then None
  else match ParseDuration trimmed with Some d => Some d | None => parseExtended trimmed end.
End unicode.

Example unit_examples :
  map (fun s => Parse (unicode := Names.ascii) (bytes s)) ["1h30m"; "2d3h"; "-1.5s"; "1w 2D"; "1.5"; "5x"; "0"]
  = [Some 5400000000000; Some 183600000000000; Some (-1500000000); Some 777600000000000; None; None; Some 0]%Z.
Proof. vm_compute. reflexivity. Qed.
End Duration.

(** * Byte sizes are exact

    [ByteSize.Parse] accepts a text exactly when it is a decimal with a known
    suffix whose product is a whole number of bytes that an int64 holds, and the
    shortcuts that spare it large rationals never change the answer. *)
From stdpp Require Import base list strings.
From Stdlib Require Import Ascii ZArith Lia.
From S2P Require Import Prelude GoStd GoFloat GoPath Names Text.

Open Scope string_scope.
Open Scope nat_scope.
Open Scope list_scope.

Import ByteSize.

(** ** Digits *)

Lemma isDigit_chars l : Forall (fun c => isDigit c = true) l <-> digitChars l.
Proof. unfold digitChars, isDigit. split; intros H; (eapply Forall_impl; [exact H|]); intros c; simpl; rewrite andb_true_iff, !N.leb_le; tauto. Qed.

Lemma digitsOf_spec l acc :
  digitChars l -> digitsOf l acc = Some (foldl (fun a c => a * 10 + (Z.of_N (byte_val c) - 48)) acc l)%Z.
Proof.
  intros H. revert acc. induction H as [|c l [H1 H2] _ IH]; intros acc; [done|]. simpl.
  apply N.leb_le in H1, H2. rewrite H1, H2. simpl. apply IH.
Qed.

Lemma digitsValue_app l m :
  digitChars m -> digitsValue (l ++ m) = (digitsValue l * 10 ^ Z.of_nat (length m) + digitsValue m)%Z.
Proof.
  unfold digitsValue. rewrite foldl_app. generalize (foldl (fun a c => a * 10 + (Z.of_N (byte_val c) - 48))%Z 0%Z l). intros a Hm.
  assert (H : forall m a b, (foldl (fun a c => a * 10 + (Z.of_N (byte_val c) - 48)) (a + b) m =
    a * 10 ^ Z.of_nat (length m) + foldl (fun a c => a * 10 + (Z.of_N (byte_val c) - 48)) b m)%Z).
  { clear. induction m as [|c m IH]; intros a b; cbn [foldl length]; [simpl; lia|]. rewrite Nat2Z.inj_succ, Z.pow_succ_r by lia.
    replace ((a + b) * 10 + (Z.of_N (byte_val c) - 48))%Z with (a * 10 + (b * 10 + (Z.of_N (byte_val c) - 48)))%Z by lia. rewrite IH. lia. }
  specialize (H m a 0%Z). by rewrite Z.add_0_r in H.
Qed.

Lemma digitsValue_bounds l : digitChars l -> (0 <= digitsValue l < 10 ^ Z.of_nat (length l))%Z.
Proof.
  induction l as [|c l IH] using rev_ind; intros H; [unfold digitsValue; simpl; lia|]. apply Forall_app in H as [Hl Hc].
  rewrite digitsValue_app, length_app by done. change (10 ^ Z.of_nat (length [c]))%Z with 10%Z. change (length [c]) with 1. rewrite Nat.add_1_r, Nat2Z.inj_succ, Z.pow_succ_r by lia. specialize (IH Hl).
  apply Forall_inv in Hc. assert (Hv : digitsValue [c] = (Z.of_N (byte_val c) - 48)%Z) by done. rewrite Hv. lia.
Qed.

Lemma digitsValue_zeros n : digitsValue (repeat "0"%char n) = 0%Z.
Proof. unfold digitsValue. induction n; [done|]. simpl. exact IHn. Qed.

Lemma zeros_digits n : digitChars (repeat "0"%char n).
Proof. apply Forall_forall. intros c Hc. apply list_elem_of_In, repeat_spec in Hc as ->. by vm_compute. Qed.

Lemma trimZeros_spec l : exists n, l = repeat "0"%char n ++ trimZeros l /\ head (trimZeros l) <> Some "0"%char.
Proof.
  induction l as [|c l (n & Hl & Hh)]; [by exists 0|]. simpl. case_bool_decide as Hc.
  - subst c. exists (S n). split; [simpl; by f_equal|done].
  - exists 0. split; [done|]. simpl. congruence.
Qed.

Lemma spanDigits_app l m :
  digitChars l -> (forall c m', m = c :: m' -> isDigit c = false) -> spanDigits (l ++ m) = (l, m).
Proof.
  intros Hl Hm. induction Hl as [|c l H _ IH]; simpl.
  - destruct m as [|c m]; [done|]. simpl. by rewrite (Hm c m).
  - assert (Hc : isDigit c = true) by (unfold isDigit; apply andb_true_iff; by rewrite !N.leb_le). by rewrite Hc, IH.
Qed.

Lemma spanDigits_spec l : digitChars (spanDigits l).1 /\ l = (spanDigits l).1 ++ (spanDigits l).2 /\
  (forall c m', (spanDigits l).2 = c :: m' -> isDigit c = false).
Proof.
  induction l as [|c l IH]; [split_and!; [constructor|done|done]|]. simpl. destruct (isDigit c) eqn:E.
  - destruct (spanDigits l) as [a b]. simpl in *. destruct IH as (H1 & -> & H3). split_and!; [|done|done].
    constructor; [|done]. unfold isDigit in E. apply andb_prop in E as [?%N.leb_le ?%N.leb_le]. done.
  - split_and!; [constructor|done|]. by intros ? ? [= <- <-].
Qed.

(** ** The shortcuts *)

(** A number with its leading and trailing zeros. *)
Lemma whole_too_long w scale k z :
  digitChars w -> head w <> Some "0"%char -> 19 < length w -> (0 < scale)%Z -> (0 <= k)%Z ->
  (z * 10 ^ k = digitsValue w * 10 ^ k * scale)%Z -> (2 ^ 63 <= z)%Z.
Proof.
  intros Hw Hh Hl Hs Hk E. destruct w as [|c w]; [simpl in Hl; lia|]. simpl in Hh, Hl.
  assert (Hp : (0 < 10 ^ k)%Z) by (apply Z.pow_pos_nonneg; lia). assert (z = digitsValue (c :: w) * scale)%Z as -> by nia.
  change (c :: w) with ([c] ++ w). apply Forall_cons in Hw as [Hc Hw]. rewrite digitsValue_app by done.
  pose proof (digitsValue_bounds w Hw). assert (1 <= digitsValue [c])%Z.
  { unfold digitsValue. simpl. destruct (decide (byte_val c = 48%N)) as [E48|]; [|lia]. destruct Hh. f_equal.
    rewrite <- (Ascii.ascii_N_embedding c). change (Ascii.N_of_ascii c) with (byte_val c). by rewrite E48. }
  assert (10 ^ 19 <= 10 ^ Z.of_nat (length w))%Z by (apply Z.pow_le_mono_r; lia).
  change (10 ^ 19)%Z with 10000000000000000000%Z in *. change (2 ^ 63)%Z with 9223372036854775808%Z. nia.
Qed.

Lemma digit_nonzero c : digitChars [c] -> c <> "0"%char -> (1 <= digitsValue [c] <= 9)%Z.
Proof.
  intros H Hc. pose proof (digitsValue_bounds [c] H) as Hb. change (10 ^ Z.of_nat (length [c]))%Z with 10%Z in Hb.
  assert (digitsValue [c] <> 0)%Z; [|lia]. intros E. apply Hc. apply Forall_inv in H. unfold digitsValue in E. simpl in E.
  assert (byte_val c = 48%N) as E48 by lia. rewrite <- (Ascii.ascii_N_embedding c).
  change (Ascii.N_of_ascii c) with (byte_val c). by rewrite E48.
Qed.

Lemma fraction_too_long w g c t z :
  digitChars (w ++ g ++ [c]) -> c <> "0"%char -> t < length (g ++ [c]) ->
  (z * 10 ^ Z.of_nat (length (g ++ [c])) = digitsValue (w ++ g ++ [c]) * 2 ^ Z.of_nat t)%Z -> False.
Proof.
  intros Hd Hc Ht E. rewrite app_assoc in Hd, E. apply Forall_app in Hd as [_ Hd]. rewrite digitsValue_app in E by done.
  pose proof (digit_nonzero c Hd Hc) as Hv. change (10 ^ Z.of_nat (length [c]))%Z with 10%Z in E.
  set (m := length (g ++ [c])) in *. set (a := digitsValue (w ++ g)) in *. set (v := digitsValue [c]) in *.
  assert (Hm : (10 ^ Z.of_nat m = 2 ^ Z.of_nat t * (10 * (2 ^ Z.of_nat (m - t - 1) * 5 ^ Z.of_nat (m - 1))))%Z).
  { replace (2 ^ Z.of_nat t * (10 * (2 ^ Z.of_nat (m - t - 1) * 5 ^ Z.of_nat (m - 1))))%Z
      with ((2 ^ Z.of_nat t * 2 ^ 1 * 2 ^ Z.of_nat (m - t - 1)) * (5 ^ 1 * 5 ^ Z.of_nat (m - 1)))%Z by (simpl (2 ^ 1)%Z; simpl (5 ^ 1)%Z; ring).
    rewrite <- !Z.pow_add_r by lia.
    replace (Z.of_nat t + 1 + Z.of_nat (m - t - 1))%Z with (Z.of_nat m) by lia. replace (1 + Z.of_nat (m - 1))%Z with (Z.of_nat m) by lia.
    by rewrite <- Z.pow_mul_l. }
  rewrite Hm in E. set (q := (2 ^ Z.of_nat (m - t - 1) * 5 ^ Z.of_nat (m - 1))%Z) in *.
  assert (Hp : (0 < 2 ^ Z.of_nat t)%Z) by (apply Z.pow_pos_nonneg; lia).
  assert (H : (z * (10 * q) = a * 10 + v)%Z) by nia. assert (v = 10 * (z * q - a))%Z by lia. lia.
Qed.

Lemma trailingZeros_pow t : trailingZeros (Z.to_pos (2 ^ Z.of_nat t)) = t.
Proof.
  induction t as [|t IH]; [done|]. rewrite Nat2Z.inj_succ, Z.pow_succ_r by lia.
  assert (Hp : (0 < 2 ^ Z.of_nat t)%Z) by (apply Z.pow_pos_nonneg; lia). destruct (2 ^ Z.of_nat t)%Z as [|p|p]; [done| |done].
  change (Z.to_pos (2 * Z.pos p)) with (xO p). change (Z.to_pos (Z.pos p)) with p in IH. cbn [trailingZeros]. by rewrite IH.
Qed.

(** ** The reference *)

(** [z] is the value of [w.f] times [scale], in the range of an int64. *)
Definition sizeOf (w f : bytestr) (scale z : Z) : Prop :=
  (0 <= z < 2 ^ 63)%Z /\ (z * 10 ^ Z.of_nat (length f) = digitsValue (w ++ f) * scale)%Z.

Lemma sizeOf_leading n w f scale z : digitChars (w ++ f) -> sizeOf (repeat "0"%char n ++ w) f scale z <-> sizeOf w f scale z.
Proof. intros Hd. unfold sizeOf. rewrite <- app_assoc, digitsValue_app by done. by rewrite digitsValue_zeros. Qed.

Lemma sizeOf_trailing n w f scale z : sizeOf w (f ++ repeat "0"%char n) scale z <-> sizeOf w f scale z.
Proof.
  unfold sizeOf. rewrite app_assoc, (digitsValue_app _ (repeat _ _)), digitsValue_zeros, length_app, repeat_length by apply zeros_digits.
  rewrite Nat2Z.inj_add, Z.pow_add_r by lia. assert (0 < 10 ^ Z.of_nat n)%Z by (apply Z.pow_pos_nonneg; lia).
  split; intros [H1 H2]; (split; [done|]); [|rewrite Z.add_0_r, Z.mul_assoc, H2; ring]. apply Z.mul_reg_r with (10 ^ Z.of_nat n)%Z; [lia|].
  rewrite <- Z.mul_assoc, H2. ring.
Qed.

Lemma scaled_spec w f scale t z :
  digitChars w -> digitChars f -> head w <> Some "0"%char -> head (rev f) <> Some "0"%char -> scale = (2 ^ Z.of_nat t)%Z ->
  (if maxInt64Digits <? length (if bool_decide (w = []) then ["0"%char] else w) then inl "value exceeds the maximum byte size"
   else if trailingZeros (Z.to_pos scale) <? length f then inl "value resolves to a fractional byte"
   else match digitsOf ((if bool_decide (w = []) then ["0"%char] else w) ++ f) 0 with
        | None => inl "expected a decimal number"
        | Some n =>
            if negb ((n * scale) mod (10 ^ Z.of_nat (length f)) =? 0)%Z then inl "value resolves to a fractional byte"
            else match inInt64 (n * scale / 10 ^ Z.of_nat (length f))%Z with
                 | None => inl "value exceeds the maximum byte size" | Some size => inr size
                 end
        end) = inr z <-> sizeOf w f scale z.
Proof.
  intros Hw Hf Hh Hr ->. set (w' := if bool_decide (w = []) then _ else w).
  assert (Hw' : digitChars w' /\ sizeOf w' f (2 ^ Z.of_nat t) z <-> digitChars w' /\ sizeOf w f (2 ^ Z.of_nat t) z).
  { unfold w'. case_bool_decide; [subst w|done]. apply and_iff_compat_l. apply (sizeOf_leading 1). by rewrite app_nil_l. }
  assert (Hdw : digitChars w') by (unfold w'; case_bool_decide; [apply (zeros_digits 1)|done]).
  assert (Hsize : sizeOf w' f (2 ^ Z.of_nat t) z <-> sizeOf w f (2 ^ Z.of_nat t) z) by tauto. rewrite <- Hsize. clear Hw' Hsize.
  assert (Hp : (0 < 2 ^ Z.of_nat t)%Z) by (apply Z.pow_pos_nonneg; lia).
  assert (Hq : (0 < 10 ^ Z.of_nat (length f))%Z) by (apply Z.pow_pos_nonneg; lia).
  destruct (Nat.ltb_spec maxInt64Digits (length w')) as [Hl|Hl].
  { split; [done|]. intros [Hz E]. exfalso. assert (w' = w) as Ew.
    { unfold w' in *. case_bool_decide; [unfold maxInt64Digits in Hl; simpl in Hl; lia|done]. }
    rewrite Ew in *. rewrite digitsValue_app in E by done. pose proof (digitsValue_bounds f Hf).
    pose proof (whole_too_long w (2 ^ Z.of_nat t) 0 (digitsValue w * 2 ^ Z.of_nat t) Hw Hh Hl Hp ltac:(lia) ltac:(lia)).
    nia. }
  rewrite trailingZeros_pow. destruct (Nat.ltb_spec t (length f)) as [Ht|Ht].
  { split; [done|]. intros [_ E]. exfalso. destruct f as [|c g _] using rev_ind; [simpl in Ht; lia|].
    rewrite rev_app_distr in Hr. apply (fraction_too_long w' g c t z); [by apply Forall_app|simpl in Hr; congruence|done|done]. }
  rewrite digitsOf_spec by by apply Forall_app. change (foldl _ 0%Z (w' ++ f)) with (digitsValue (w' ++ f)).
  set (n := digitsValue (w' ++ f)). assert (Hn : (0 <= n)%Z) by (apply digitsValue_bounds; by apply Forall_app).
  unfold sizeOf. fold n. destruct (Z.eqb_spec ((n * 2 ^ Z.of_nat t) mod 10 ^ Z.of_nat (length f)) 0) as [E|E]; simpl.
  - apply Z.mod_divide in E as [q Eq]; [|lia]. rewrite Eq, Z.div_mul by lia. unfold inInt64. assert (0 <= q)%Z by nia.
    destruct (Z.leb_spec (- 2 ^ 63) q); [|lia]. destruct (Z.ltb_spec q (2 ^ 63)); simpl.
    + split; [intros [= <-]; done|]. intros [_ Ez]. f_equal. nia.
    + split; [done|]. intros [Hz Ez]. exfalso. assert (z = q) by nia. lia.
  - split; [done|]. intros [_ Ez]. destruct E. rewrite <- Ez. apply Z.mod_mul. lia.
Qed.

(** The parts of a number: sign, whole digits, point and fraction. *)
Record numeral (sign w pt f : bytestr) : Prop := {
  num_sign : sign = [] \/ sign = ["+"%char];
  num_whole : digitChars w;
  num_fraction : digitChars f;
  num_point : pt = [] /\ f = [] \/ pt = [POINT];
  num_digits : w ++ f <> []
}.

Lemma point_digits l : digitChars l -> POINT ∉ l.
Proof. intros H Hin. unfold digitChars in H. rewrite Forall_forall in H. destruct (H _ Hin) as [H1 _]. by vm_compute in H1. Qed.

Lemma cutAt_none c l : c ∉ l -> cutAt c l = None.
Proof.
  induction l as [|b l IH]; [done|]. intros H. apply not_elem_of_cons in H as [H1 H2]. simpl.
  rewrite bool_decide_eq_false_2 by done. by rewrite IH.
Qed.

Lemma numeral_head sign w pt f c l : numeral sign w pt f -> w ++ pt ++ f = c :: l -> c <> "+"%char /\ c <> "-"%char.
Proof.
  intros [_ Hw Hf Hp Hne] E. destruct w as [|d w].
  - destruct Hp as [[-> ->]| ->]; [done|]. simpl in E. injection E as <- _. split; by vm_compute.
  - simpl in E. injection E as <- _. apply Forall_inv in Hw as [H1 H2]. split; intros ->; by vm_compute in H1.
Qed.

Lemma scaleDecimal_spec sign w pt f scale t z :
  numeral sign w pt f -> scale = (2 ^ Z.of_nat t)%Z -> scaleDecimal (sign ++ w ++ pt ++ f) scale = inr z <-> sizeOf w f scale z.
Proof.
  intros Hn Hs. pose proof Hn as [Hsg Hw Hf Hp Hne]. unfold scaleDecimal.
  assert (Hsign : match sign ++ w ++ pt ++ f with c :: l => if bool_decide (c = "+"%char) then l else sign ++ w ++ pt ++ f | [] => [] end = w ++ pt ++ f).
  { destruct Hsg as [-> | ->]; [|done]. simpl. destruct (w ++ pt ++ f) as [|c l] eqn:E; [done|].
    destruct (numeral_head [] w pt f c l) as [Hc _]; [done..|]. by rewrite bool_decide_eq_false_2. }
  rewrite Hsign. clear Hsign Hsg.
  assert (Hcut : match cutAt POINT (w ++ pt ++ f) with Some (w, f) => (w, f) | None => (w ++ pt ++ f, []) end = (w, f)).
  { destruct Hp as [[-> ->]| ->]; rewrite ?app_nil_r; simpl.
    - by rewrite cutAt_none by by apply point_digits.
    - by rewrite cutAt_app by by apply point_digits. }
  rewrite Hcut. clear Hcut Hp Hne. destruct (trimZeros_spec w) as (n & Ew & Hhw). destruct (trimZeros_spec (rev f)) as (m & Ef & Hhf).
  set (w0 := trimZeros w) in *. set (f0 := rev (trimZeros (rev f))). assert (Ef' : f = f0 ++ repeat "0"%char m).
  { unfold f0. rewrite <- (rev_involutive f), Ef at 1. rewrite rev_app_distr. f_equal. clear. induction m; [done|]. simpl. rewrite IHm.
    clear. induction m; [done|]. simpl. by f_equal. }
  rewrite Ew in Hw. rewrite Ef' in Hf. apply Forall_app in Hw as [_ Hw]. apply Forall_app in Hf as [Hf _].
  rewrite (scaled_spec w0 f0 scale t z) by (done || by unfold f0; rewrite rev_involutive).
  rewrite Ew, Ef'. rewrite sizeOf_trailing. symmetry. apply sizeOf_leading. by apply Forall_app.
Qed.

(** ** Splitting *)

Definition lettersText (l : bytestr) : Prop := forallb isASCIILetter l = true.

(** What follows a number does not go on with it. *)
Definition stops (pt l : bytestr) : Prop := forall c l', l = c :: l' -> isDigit c = false /\ (pt = [] -> c <> POINT).

Lemma splitValue_numeral sign w pt f l :
  numeral sign w pt f -> lettersText (trim l) -> stops pt l ->
  splitValue (sign ++ w ++ pt ++ f ++ l) = inr (sign ++ w ++ pt ++ f, trim l).
Proof.
  intros Hn Hl Hh. pose proof Hn as [Hsg Hw Hf Hp Hne].
  assert (Hstart : forall X : string + (bytestr * bytestr),
    match sign ++ w ++ pt ++ f ++ l with
    | c :: _ => if bool_decide (c = "-"%char) then inl "value must be non-negative" else X
    | [] => inl "expected a decimal number" end = X /\
    match sign ++ w ++ pt ++ f ++ l with
    | c :: _ => if bool_decide (c = "+"%char) then (take 1 (sign ++ w ++ pt ++ f ++ l), drop 1 (sign ++ w ++ pt ++ f ++ l)) else ([], sign ++ w ++ pt ++ f ++ l)
    | [] => ([], []) end = (sign, w ++ pt ++ f ++ l)).
  { intros X. destruct Hsg as [-> | ->]; [|done]. simpl. rewrite !(app_assoc w), !(app_assoc (w ++ pt)) in *.
    destruct ((w ++ pt) ++ f) as [|c m] eqn:E; [destruct Hne; destruct w, pt, f; done|].
    destruct (numeral_head [] w pt f c m) as [Hc Hc']; [done|by rewrite app_assoc|]. simpl. by rewrite !bool_decide_eq_false_2. }
  unfold splitValue. destruct (sign ++ w ++ pt ++ f ++ l) as [|c0 l0] eqn:E0.
  { destruct (Hstart (inr ([], []))) as [H _]. done. }
  destruct (Hstart (inr ([], []))) as [H1 H2]. destruct (bool_decide (c0 = "-"%char)); [done|]. rewrite H2. clear H1 H2 Hstart.
  assert (Hsp : spanDigits (w ++ pt ++ f ++ l) = (w, pt ++ f ++ l)).
  { apply spanDigits_app; [done|]. intros c m' E. destruct Hp as [[-> ->]| ->]; simpl in E.
    - by destruct (Hh c m' E).
    - injection E as <- _. by vm_compute. }
  rewrite Hsp. assert (Hrest : match pt ++ f ++ l with
      | p :: l' => if bool_decide (p = POINT) then let '(f, r) := spanDigits l' in ([p], f, r) else ([], [], pt ++ f ++ l)
      | [] => ([], [], pt ++ f ++ l) end = (pt, f, l)).
  { destruct Hp as [[-> ->]| ->]; simpl.
    - destruct l as [|c l]; [done|]. destruct (Hh c l eq_refl) as [_ Hc]. by rewrite bool_decide_eq_false_2 by by apply Hc.
    - rewrite spanDigits_app; [done|done|]. intros c m' E. by destruct (Hh c m' E). }
  rewrite Hrest. destruct (bool_decide (w = []) && bool_decide (f = [])) eqn:E.
  { apply andb_prop in E as [->%bool_decide_eq_true ->%bool_decide_eq_true]. done. }
  unfold lettersText in Hl. rewrite Hl. done.
Qed.

Lemma splitValue_inv input number suffix :
  splitValue input = inr (number, suffix) ->
  exists sign w pt f l, numeral sign w pt f /\ number = sign ++ w ++ pt ++ f /\ input = number ++ l /\
    suffix = trim l /\ lettersText suffix /\ stops pt l.
Proof.
  unfold splitValue. destruct input as [|c0 l0]; [done|]. case_bool_decide; [done|].
  destruct (if bool_decide (c0 = "+"%char) then _ else _) as [sign m] eqn:Es.
  assert (Hsg : (sign = [] \/ sign = ["+"%char]) /\ c0 :: l0 = sign ++ m).
  { case_bool_decide; injection Es as <- <-; [subst; by split; [right|]|by split; [left|]]. }
  destruct (spanDigits_spec m) as (Hw & Em & Hm). destruct (spanDigits m) as [w m1]. simpl in *.
  destruct (match m1 with p :: l' => _ | [] => _ end) as [[pt f] l] eqn:Ep.
  assert (Hp : digitChars f /\ (pt = [] /\ f = [] \/ pt = [POINT]) /\ m1 = pt ++ f ++ l /\ stops pt l).
  { destruct m1 as [|p m1]; [injection Ep as <- <- <-; split_and!; [constructor|by left|done|done]|].
    case_bool_decide; [|injection Ep as <- <- <-; split_and!; [constructor|by left|done|]].
    - subst p. destruct (spanDigits_spec m1) as (Hf & Ef & Hr). destruct (spanDigits m1) as [f' r]. injection Ep as <- <- <-. simpl in *.
      split_and!; [done|by right|by f_equal|]. intros c l' E. split; [by eapply Hr|done].
    - intros c l' [= <- <-]. split; [by eapply Hm|done]. }
  destruct Hp as (Hf & Hp & Em1 & Hstop). destruct (bool_decide (w = []) && bool_decide (f = [])) eqn:E; [done|].
  destruct (forallb isASCIILetter (trim l)) eqn:El; [|done]. simpl. intros [= <- <-]. exists sign, w, pt, f, l.
  split_and!; [constructor; try done; [by destruct Hsg|]|done| |done|done|done].
  - intros Hnil. apply app_eq_nil in Hnil as [-> ->]. done.
  - destruct Hsg as [_ ->]. rewrite Em, Em1, <- !app_assoc. done.
Qed.

Section unicode.
Context {unicode : Unicode}.

Lemma scale_pow suffix scale : scaleForSuffix suffix = Some scale -> exists t, scale = (2 ^ Z.of_nat t)%Z.
Proof.
  unfold scaleForSuffix. repeat case_bool_decide; intros [= <-]; [by exists 0|by exists 10|by exists 20|by exists 30].
Qed.

End unicode.

(** C22. A text is read as a size of [z] bytes exactly when it is a decimal number,
    possibly with a plus sign, and a known suffix, such that the number times the
    suffix's scale is the whole number [z] and fits in an int64: nothing is
    rounded, nothing that is exact is refused, whatever zeros are written and
    however long the number is. *)
Theorem size_exact {unicode : Unicode} (raw : bytestr) (z : Z) :
  ByteSize.Parse raw = inr z <->
  exists sign w pt f l scale, trim raw = sign ++ w ++ pt ++ f ++ l /\ numeral sign w pt f /\ stops pt l /\
    lettersText (trim l) /\ scaleForSuffix (trim l) = Some scale /\ sizeOf w f scale z.
Proof.
  unfold Parse. split.
  - case_bool_decide; [done|]. destruct (splitValue (trim raw)) as [|[number suffix]] eqn:E; [done|].
    apply splitValue_inv in E as (sign & w & pt & f & l & Hn & -> & Ei & -> & Hl & Hstop).
    destruct (scaleForSuffix (trim l)) as [scale|] eqn:Es; [|done]. destruct (scale_pow _ _ Es) as [t Ht].
    destruct (scaleDecimal _ scale) as [|z'] eqn:Ed; [done|]. intros [= ->]. rewrite (scaleDecimal_spec _ _ _ _ _ t) in Ed by done.
    exists sign, w, pt, f, l, scale. split_and!; try done. by rewrite Ei, <- !app_assoc.
  - intros (sign & w & pt & f & l & scale & Ei & Hn & Hstop & Hl & Es & Hz). rewrite Ei.
    rewrite splitValue_numeral by done. rewrite bool_decide_eq_false_2.
    2:{ intros E. apply (num_digits _ _ _ _ Hn). destruct sign, w, pt, f; done. }
    rewrite Es. destruct (scale_pow _ _ Es) as [t Ht]. apply (scaleDecimal_spec sign w pt f scale t z Hn Ht) in Hz. by rewrite Hz.
Qed.

(** Trailing zeros and a long fraction: 0.50000000000000000000 KiB. *)
Example size_demo :
  map (fun s => ByteSize.Parse (unicode := Names.ascii) (bytes s))
    ["0.500000000000000000000 KiB"; "000000000000000000000009223372036854775807"; "9223372036854775808"; "0.3GB"; "1k b"]
  = [inr 512%Z; inr 9223372036854775807%Z; inl ("invalid size " +:+ quote "9223372036854775808" +:+ ": value exceeds the maximum byte size");
     inl ("invalid size " +:+ quote "0.3GB" +:+ ": value resolves to a fractional byte");
     inl ("invalid size " +:+ quote "1k b" +:+ ": suffix must contain only letters")].
Proof. vm_compute. reflexivity. Qed.

(** [maxDurationFloat] is 2^63, so a total of 2^63 nanoseconds passes the check of
    the range and becomes the least duration (a finding). *)
Lemma duration_overflow :
  Duration.Parse (unicode := Names.ascii) (bytes "9223372036854775808ns") = Some (- 2 ^ 63)%Z /\
  Duration.Parse (unicode := Names.ascii) (bytes "106751d23h47m16.854775808s") = Some (- 2 ^ 63)%Z.
Proof. vm_compute. split; reflexivity. Qed.
