(* ===== verification/Lines.v ===== *)
(** * Lines of request files (src/internal/parser/line.go, bodyref/ref.go, src/internal/capture/capture.go, src/internal/http/version/version.go)

    What a single line is: a separator, a comment with the text behind its marker,
    a part of a script, a reference to a file with a body.  Then the scanner of
    template markers in capture expressions, and HTTP versions.  Offsets and
    columns are in bytes, as in the code.  What Go's tables say of letters and
    digits, and [strings.ToUpper], are parameters. *)
From stdpp Require Import base list strings gmap.
From Stdlib Require Import Ascii ZArith Lia.
From S2P Require Import Prelude GoStd GoPath Names Text.

Open Scope string_scope.
Open Scope nat_scope.
Open Scope list_scope.

(** ** strings *)

Class UnicodeTables := {
  ToUpper : string -> string;
  IsLetter : rune -> bool;
  IsDigit : rune -> bool
}.

Definition hasPrefix (p l : bytestr) : bool := bool_decide (is_Some (cut p l)).
Definition trimLeftSpace (l : bytestr) : bytestr := trimLeftFunc IsSpace l.

(** [strings.Fields], [strings.Join], [strings.ReplaceAll] of two bytes by one *)
Definition fields (l : bytestr) : list bytestr := fieldsFunc IsSpace l.
Fixpoint joinWith (sep : bytestr) (ls : list bytestr) : bytestr :=
  match ls with [] => [] | [l] => l | l :: ls' => l ++ sep ++ joinWith sep ls' end.
Definition joinLines (ls : list bytestr) : bytestr := joinWith [LF] ls.
Fixpoint replaceCRLF (l : bytestr) : bytestr :=
  match l with
  | c :: ((d :: l') as r) => if bool_decide (c = CR) && bool_decide (d = LF) then LF :: replaceCRLF l' else c :: replaceCRLF r
  | _ => l
  end.

(** util.TrimLeadingOnce *)
Definition TrimLeadingOnce (s : bytestr) : bytestr :=
  match s with
  | [] => []
  | _ => let '(r, n) := headRune s in if IsSpace r then drop n s else s
  end.

Definition isBlank (c : Ascii.ascii) : bool := bool_decide (c = " "%char) || bool_decide (c = TAB).
Fixpoint trimBlanksLeft (l : bytestr) : bytestr :=
  match l with c :: l' => if isBlank c then trimBlanksLeft l' else l | [] => [] end.

(** ** line.go *)

Module Ln.

Record line := mkLine { no : Z; raw : bytestr; text : bytestr }.
Definition makeLine (n : Z) (r : bytestr) : line := mkLine n r (trim r).

Definition isSeparator (ln : line) : bool := hasPrefix (bytes "###") (text ln).
Definition hasScriptMarker (ln : line) : bool := hasPrefix (bytes ">") (text ln).
Definition isBlockCommentStart (ln : line) : bool := hasPrefix (bytes "/*") (text ln).

(** The text of a comment and its column, from 1. *)
Definition stripComment (t : bytestr) : option (bytestr * nat) :=
  let marker := if hasPrefix (bytes "//") t then Some 2
                else if hasPrefix (bytes "#") t then Some 1
                else if hasPrefix (bytes "--") t then Some 2 else None in
  match marker with
  | None => None
  | Some n =>
      let body := drop n t in
      let lead := length body - length (trimBlanksLeft body) in
      Some (trim body, n + lead + 1)
  end.

Definition isComment (ln : line) : bool := bool_decide (is_Some (stripComment (text ln))).

(** The column is in the raw line. *)
Definition comment (ln : line) : option (bytestr * Z) :=
  match stripComment (text ln) with
  | None => None
  | Some (t, col) =>
      Some (t, match indexOf (text ln) (raw ln) with Some i => Z.of_nat i | None => -1 end + Z.of_nat col)%Z
  end.

Fixpoint dropStars (fuel : nat) (w : bytestr) : bytestr :=
  match fuel, w with
  | S fuel', c :: w' => if bool_decide (c = "*"%char) then dropStars fuel' (trim w') else w
  | _, _ => w
  end.

(** The content of a line of a block comment, and whether it closes it. *)
Definition parseBlockCommentLine (t : bytestr) : bytestr * bool :=
  let '(working, closed) := match indexOf (bytes "*/") t with Some i => (take i t, true) | None => (t, false) end in
  let working := trim working in
  (dropStars (length working) working, closed).

Definition cutBlockCommentStart (t : bytestr) : bytestr * bool :=
  parseBlockCommentLine (default t (cut (bytes "/*") t)).

Definition isScriptBlockStart (ln : line) : bool :=
  hasScriptMarker ln && bool_decide (trim (default (text ln) (cut (bytes ">") (text ln))) = bytes "{%").

Definition isScriptBlockEnd (ln : line) : bool :=
  let t := match cut (bytes ">") (text ln) with Some after => trimLeftSpace after | None => text ln end in
  match cut (bytes "%}") t with
  | None => false
  | Some rest =>
      if bool_decide (rest = []) then true
      else
        let rest := trimLeftSpace rest in
        if bool_decide (rest = []) then true else bool_decide (is_Some (stripComment rest))
  end.

(** The script behind the marker and its column. *)
Definition cutScriptMarker (ln : line) : option (bytestr * nat) :=
  let s := trimLeftSpace (raw ln) in
  match cut (bytes ">") s with
  | None => None
  | Some after =>
      let col := length (raw ln) - length s + 2 in
      let b := TrimLeadingOnce after in
      Some (trimRightSpace b, col + (length after - length b))
  end.
End Ln.

(** ** bodyref *)

Module BodyRef.
Section tables.
Context {tables : UnicodeTables}.

Inductive Location := Line | Inline.

Definition hasLeadingSpace (s : bytestr) : bool :=
  match s with [] => false | _ => IsSpace (headRune s).1 end.

Definition parsePath (s : bytestr) : option bytestr :=
  if negb (hasLeadingSpace s) then None
  else let p := trim s in if bool_decide (p = []) then None else Some p.

Definition parseLinePath (s : bytestr) : option bytestr :=
  match cut (bytes "<") s with Some r => parsePath r | None => None end.

Definition isDirectiveRune (r : rune) : bool :=
  IsLetter r || IsDigit r || isChar "-"%char r || isChar "_"%char r || isChar "."%char r.

(** The loop of [isDirectiveHead]. *)
Fixpoint headLoop (fuel : nat) (p : rune -> bool) (l : bytestr) : bool :=
  match fuel, l with
  | S fuel', _ :: _ => let '(r, n) := headRune l in p r && headLoop fuel' isDirectiveRune (drop n l)
  | _, _ => true
  end.
Definition isDirectiveHead (s : bytestr) : bool :=
  match cut (bytes "@") s with
  | Some ((_ :: _) as l) => headLoop (length l) IsLetter l
  | _ => false
  end.

Definition parseInlinePath (s : bytestr) : option bytestr :=
  if negb (hasPrefix (bytes "@") s) then None
  else match cutFunc IsSpace s with
       | None => None
       | Some (head, tail) =>
           if length head <=? 1 then None
           else if negb (isDirectiveHead head) then None
           else match cut (bytes "<") (trimLeftSpace tail) with
                | Some rest => parsePath rest
                | None => None
                end
       end.

Definition Parse (l : bytestr) (loc : Location) (forceInline : bool) : option bytestr :=
  if forceInline then None
  else let s := trim l in match loc with Line => parseLinePath s | Inline => parseInlinePath s end.

Definition ParseBodyFile (l : bytestr) (forceInline : bool) : option bytestr :=
  match Parse l Line forceInline with Some f => Some f | None => Parse l Inline forceInline end.

Definition IncludeLine (l : bytestr) : option bytestr :=
  let t := trim l in
  if (length t <=? 1) || negb (hasPrefix (bytes "@") t) || hasPrefix (bytes "@{") t then None
  else let p := trim (drop 1 t) in if bool_decide (p = []) then None else Some p.
End tables.
End BodyRef.

(** ** capture.go: markers in expressions *)

Module Capture.

(** exprScanner without its text: the open quote and whether a backslash came. *)
Record scanner := mkSc { q : option Ascii.ascii; esc : bool }.
Definition newScanner : scanner := mkSc None false.

Definition isQuote (c : Ascii.ascii) : bool := bool_decide (c = DQUOTE) || bool_decide (c = SQUOTE).

(** [inQuoted] and [openQuote]: whether they took the byte, and the scanner. *)
Definition inQuoted (c : Ascii.ascii) (sc : scanner) : bool * scanner :=
  match q sc with
  | None => (false, sc)
  | Some d =>
      if esc sc then (true, mkSc (q sc) false)
      else if bool_decide (c = BACKSLASH) then (true, mkSc (q sc) true)
      else if bool_decide (c = d) then (true, mkSc None (esc sc))
      else (true, sc)
  end.
Definition openQuote (c : Ascii.ascii) (sc : scanner) : bool * scanner :=
  if isQuote c then (true, mkSc (Some c) (esc sc)) else (false, sc).

(** A byte inside a quote or opening one. *)
Definition quoted (c : Ascii.ascii) (sc : scanner) : bool * scanner :=
  match inQuoted c sc with (true, sc) => (true, sc) | (false, sc) => openQuote c sc end.

Record templateScan := mkScan { rem : bytestr; has : bool; open : bool }.

Fixpoint scanLoop (fuel : nat) (sc : scanner) (l : bytestr) (b : bytestr) (h : bool) : templateScan :=
  match fuel, l with
  | S fuel', c :: l' =>
      match quoted c sc with
      | (true, sc) => scanLoop fuel' sc l' (b ++ [c]) h
      | (false, sc) =>
          match cut (bytes "{{") l with
          | None => scanLoop fuel' sc l' (b ++ [c]) h
          | Some body =>
              match indexOf (bytes "}}") body with
              | None => mkScan b h true
              | Some e => scanLoop fuel' sc (drop (e + 2) body) b true
              end
          end
      end
  | _, _ => mkScan b h false
  end.

Definition scanTemplates (ex : bytestr) : templateScan :=
  let s := trim ex in scanLoop (length s) newScanner s [] false.

Definition HasUnquotedTemplateMarker (ex : bytestr) : bool := has (scanTemplates ex).
Definition OpenMarker (ex : bytestr) : string := if open (scanTemplates ex) then "}}" else "".

(** [mixedTemplateCallPattern]: a dotted name and a parenthesis, with ASCII space
    before them. *)
Definition isReSpace (c : Ascii.ascii) : bool :=
  let n := byte_val c in (n =? 32)%N || (n =? 9)%N || (n =? 10)%N || (n =? 12)%N || (n =? 13)%N.
Fixpoint dropReSpace (l : bytestr) : bytestr :=
  match l with c :: l' => if isReSpace c then dropReSpace l' else l | [] => [] end.
Definition isAlpha (c : Ascii.ascii) : bool :=
  let n := byte_val c in ((97 <=? n) && (n <=? 122) || (65 <=? n) && (n <=? 90))%N.
Definition ident (c : Ascii.ascii) : bool :=
  let n := byte_val c in isAlpha c || ((48 <=? n) && (n <=? 57))%N || bool_decide (c = "_"%char).
Fixpoint dropName (l : bytestr) : bytestr :=
  match l with c :: l' => if ident c || bool_decide (c = "."%char) then dropName l' else l | [] => [] end.
Definition mixedTemplateCall (s : bytestr) : bool :=
  match dropReSpace s with
  | c :: l => (isAlpha c || bool_decide (c = "_"%char)) && hasPrefix (bytes "(") (dropReSpace (dropName l))
  | [] => false
  end.

Definition MixedTemplateRTSCall (ex : bytestr) : bool :=
  let scan := scanTemplates ex in if negb (has scan) then false else mixedTemplateCall (trim (rem scan)).

Section unicode.
Context {unicode : Unicode}.

Definition jsonDoubleDotPrefixes : list string := ["response.json.."; "last.json.."].

(** [hasJSONDoubleDotPrefix] at a place with [prev] before it. *)
Definition doubleDotAt (prev : option Ascii.ascii) (l : bytestr) : bool :=
  existsb (fun p =>
    let n := String.length p in
    (n <=? length l) && EqualFold (str (take n l)) p &&
    match prev with Some c => negb (ident c || bool_decide (c = "."%char)) | None => true end) jsonDoubleDotPrefixes.

Fixpoint doubleDotLoop (sc : scanner) (prev : option Ascii.ascii) (l : bytestr) : bool :=
  match l with
  | [] => false
  | c :: l' =>
      match quoted c sc with
      | (true, sc) => doubleDotLoop sc (Some c) l'
      | (false, sc) => doubleDotAt prev l || doubleDotLoop sc (Some c) l'
      end
  end.
Definition HasJSONPathDoubleDot (ex : bytestr) : bool := doubleDotLoop newScanner None (trim ex).
End unicode.
End Capture.

(** ** http/version *)

Module Version.
Inductive HTTP := Unknown | V10 | V11 | V2.
Definition Key : string := "http-version".

Section unicode.
Context {unicode : Unicode}.

Definition parse (raw : bytestr) (allowBare : bool) : option HTTP :=
  let s := trim raw in
  if bool_decide (s = []) then None
  else
    let s := bytes (ToLower (str s)) in
    let known t := if bool_decide (t = bytes "1.0") then Some V10
                   else if bool_decide (t = bytes "1.1") then Some V11
                   else if bool_decide (t = bytes "2") || bool_decide (t = bytes "2.0") then Some V2 else None in
    match cut (bytes "http/") s with
    | Some after => known after
    | None => if allowBare then known s else None
    end.
Definition ParseToken (raw : bytestr) : option HTTP := parse raw false.

Definition SplitToken (fs : list bytestr) : list bytestr * HTTP :=
  match last fs with
  | None => (fs, Unknown)
  | Some l => match ParseToken l with Some v => (take (length fs - 1) fs, v) | None => (fs, Unknown) end
  end.

Definition Format (v : HTTP) : string :=
  match v with V10 => "1.0" | V11 => "1.1" | V2 => "2" | Unknown => "" end.

Definition hasKey (m : gmap string bytestr) (key : string) : bool :=
  existsb (fun k => EqualFold k key) (map fst (map_to_list m)).

Definition SetIfMissing (m : gmap string bytestr) (v : HTTP) : gmap string bytestr :=
  match v with
  | Unknown => m
  | _ => if hasKey m Key then m else <[Key := bytes (Format v)]> m
  end.
End unicode.
End Version.

Example capture_examples :
  (Capture.MixedTemplateRTSCall (bytes "json.parse({{body}})"), Capture.HasUnquotedTemplateMarker (bytes "'{{a}}'"),
   Capture.OpenMarker (bytes "x {{a"), Capture.HasJSONPathDoubleDot (unicode := Names.ascii) (bytes "response.json..a"))
  = (true, false, "}}", true).
Proof. vm_compute. reflexivity. Qed.

Example line_examples :
  let l s := Ln.makeLine 1 (bytes s) in
  (Ln.comment (l "  //  @name x "), Ln.cutBlockCommentStart (bytes "/** @name x */"), Ln.isScriptBlockStart (l "> {%"),
   Ln.isScriptBlockEnd (l "%} // end"), Ln.cutScriptMarker (l " >  a b "))
  = (Some (bytes "@name x", 7%Z), (bytes "@name x", true), true, true, Some (bytes " a b", 4)).
Proof. vm_compute. reflexivity. Qed.
