(* ===== verification/Protocols.v ===== *)
(** * The protocols of a request (src/internal/parser/builder/)

    Each protocol has a builder that collects what the lines of a request say of
    it: Module Http (http/builder.go), GraphQL, GRPC, SSE, WebSocket.  A directive
    is offered to the builders through the interface [Feature], the code's
    featureBuilder.  net/http's canonical header keys and x/net's check of header
    names are parameters. *)
From stdpp Require Import base list strings gmap.
From Stdlib Require Import Ascii ZArith Lia.
From S2P Require Import Prelude GoStd GoPath Names Text Directive Units Lines.

Open Scope string_scope.
Open Scope nat_scope.
Open Scope list_scope.

Class HttpLib := {
  ValidHeaderFieldName : string -> bool;
  CanonicalHeaderKey : string -> string
}.

(** An error is a list: none is nil, several are joined. *)
Definition perr : Type := list Directive.optError.
Definition msg (s : string) : perr := [Directive.OtherError s].

(** [featureBuilder]: whether the directive was handled, whether it resets, the
    error and the builder. *)
Class Feature (B : Type) := { HandleDirective : string -> bytestr -> B -> bool * bool * perr * B }.

(** ** HTTP *)

Module Http.

Record Builder := mkB {
  method : bytestr;
  url : bytestr;
  headers : gmap string (list bytestr);
  headerDone : bool;
  bodyLines : list bytestr;
  bodyFromFile : bytestr;
  mimeType : bytestr
}.
Definition New : Builder := mkB [] [] ∅ false [] [] [].

(** [methodRe]: the match is without regard to case, in which the long s is an S;
    [\b] compares the runes around it, of which only ASCII ones are words. *)
Definition methods : list bytestr :=
  map bytes ["GET"; "POST"; "PUT"; "PATCH"; "DELETE"; "HEAD"; "OPTIONS"; "TRACE"; "CONNECT"; "WS"; "WSS"].
Definition longS : rune := [byte_of 197; byte_of 191].
Definition foldsTo (c : Ascii.ascii) (r : rune) : bool :=
  isChar c r || isChar (byte_of (byte_val c + 32)%N) r || (bool_decide (c = "S"%char) && bool_decide (r = longS)).
Definition isWord (r : rune) : bool := asciiRune Directive.IsIdentRune r.
Fixpoint matchFold (w : bytestr) (prev : rune) (l : bytestr) : option (rune * bytestr) :=
  match w, l with
  | [], _ => Some (prev, l)
  | c :: w', _ :: _ => let '(r, n) := headRune l in if foldsTo c r then matchFold w' r (drop n l) else None
  | _ :: _, [] => None
  end.
Definition boundary (prev : rune) (l : bytestr) : bool :=
  negb (Bool.eqb (isWord prev) (match l with [] => false | _ => isWord (headRune l).1 end)).
Definition isMethodLine (l : bytestr) : bool :=
  existsb (fun w => match matchFold w [] l with Some (prev, rest) => boundary prev rest | None => false end) methods.

Section unicode.
Context {unicode : Unicode} {tables : UnicodeTables} {lib : HttpLib}.

Definition UpperTrim (s : bytestr) : bytestr := bytes (ToUpper (TrimSpace (str s))).
Definition normMethod (m : bytestr) : bytestr :=
  let m := UpperTrim m in if bool_decide (m = bytes "WS" \/ m = bytes "WSS") then bytes "GET" else m.

Definition ParseMethodLine (l : bytestr) : option (bytestr * bytestr * Version.HTTP) :=
  if negb (isMethodLine l) then None
  else match fields l with
       | m :: ((_ :: _) as rest) =>
           let '(urlFields, ver) := Version.SplitToken rest in
           if bool_decide (urlFields = []) then None
           else Some (normMethod m, joinWith [" "%char] urlFields, ver)
       | _ => None
       end.

Definition ParseWebSocketURLLine (l : bytestr) : option bytestr :=
  let s := trim l in
  if bool_decide (s = []) then None
  else let lower := bytes (ToLower (str s)) in
       if hasPrefix (bytes "ws://") lower || hasPrefix (bytes "wss://") lower then Some s else None.

Definition HasMethod (b : Builder) : bool := negb (bool_decide (method b = [])).
Definition SetMethodAndURL (m u : bytestr) (b : Builder) : Builder :=
  mkB (normMethod m) (trim u) (headers b) (headerDone b) (bodyLines b) (bodyFromFile b) (mimeType b).

(** [AddHeader] with [http.Header.Add]. *)
Definition AddHeader (name value : bytestr) (b : Builder) : Builder :=
  let key := CanonicalHeaderKey (str name) in
  mkB (method b) (url b) (<[key := default [] (headers b !! key) ++ [value]]> (headers b)) (headerDone b) (bodyLines b) (bodyFromFile b)
    (if EqualFold (str name) "Content-Type" then value else mimeType b).
Definition MarkHeadersDone (b : Builder) : Builder :=
  mkB (method b) (url b) (headers b) true (bodyLines b) (bodyFromFile b) (mimeType b).
Definition AppendBodyLine (l : bytestr) (b : Builder) : Builder :=
  mkB (method b) (url b) (headers b) (headerDone b) (bodyLines b ++ [l]) (bodyFromFile b) (mimeType b).
Definition SetBodyFromFile (path : bytestr) (b : Builder) : Builder :=
  mkB (method b) (url b) (headers b) (headerDone b) [] (trim path) (mimeType b).
Definition BodyText (b : Builder) : bytestr := joinLines (bodyLines b).
End unicode.
End Http.

(** ** GraphQL *)

Module GraphQL.

Record Builder := mkB {
  enabled : bool;
  operation : bytestr;
  collectVariables : bool;
  variablesLines : list bytestr;
  variablesFile : bytestr;
  queryLines : list bytestr;
  queryFile : bytestr
}.
Definition New : Builder := mkB false [] false [] [] [] [].

Record Body := mkBody { Query : bytestr; OperationName : bytestr; Variables : bytestr; QueryFile : bytestr; VariablesFile : bytestr }.

Section unicode.
Context {unicode : Unicode} {tables : UnicodeTables}.

Definition setEnabled (on : bool) (b : Builder) : Builder :=
  mkB on (operation b) (collectVariables b) (variablesLines b) (variablesFile b) (queryLines b) (queryFile b).

(** [disable] *)
Definition disable (b : Builder) : Builder := New.

Definition toggle (rest : bytestr) (b : Builder) : bool * perr * Builder :=
  if bool_decide (rest = []) then (false, [], setEnabled true b)
  else if Directive.IsOff (str rest) then (true, [], disable b)
  else match Directive.ParseBool (str rest) with
       | None => (false, msg ("invalid @graphql " +:+ quote (str rest) +:+ ": expected true or false"), b)
       | Some on => (false, [], setEnabled on b)
       end.

(** The first line that a directive brings: a file or text. *)
Definition opening (rest : bytestr) : list bytestr * bytestr :=
  let rest := trim rest in
  if bool_decide (rest = []) then ([], [])
  else match BodyRef.Parse rest BodyRef.Line false with
       | Some file => ([], file)
       | None => ([rest], [])
       end.

Definition handle (name : string) (rest : bytestr) (b : Builder) : bool * bool * perr * Builder :=
  if bool_decide (name = "graphql") then
    let '(reset, err, b) := toggle (trim rest) b in (true, reset, err, b)
  else if bool_decide (name = "graphql-operation") then
    (enabled b, false, [], if enabled b
       then mkB (enabled b) rest (collectVariables b) (variablesLines b) (variablesFile b) (queryLines b) (queryFile b) else b)
  else if bool_decide (name = "variables") then
    if negb (enabled b) then (false, false, [], b)
    else let '(ls, file) := opening rest in
         (true, false, [], mkB (enabled b) (operation b) true ls file (queryLines b) (queryFile b))
  else if bool_decide (name = "query") then
    if negb (enabled b) then (false, false, [], b)
    else let '(ls, file) := opening rest in
         (true, false, [], mkB (enabled b) (operation b) false (variablesLines b) (variablesFile b) ls file)
  else (false, false, [], b).

Definition HandleBodyLine (l : bytestr) (forceInline : bool) (b : Builder) : bool * Builder :=
  if negb (enabled b) then (false, b)
  else
    let file := BodyRef.ParseBodyFile l forceInline in
    if collectVariables b then
      (true, match file with
             | Some f => mkB (enabled b) (operation b) (collectVariables b) [] f (queryLines b) (queryFile b)
             | None => mkB (enabled b) (operation b) (collectVariables b) (variablesLines b ++ [l]) (variablesFile b) (queryLines b) (queryFile b)
             end)
    else
      (true, match file with
             | Some f => mkB (enabled b) (operation b) (collectVariables b) (variablesLines b) (variablesFile b) [] f
             | None => mkB (enabled b) (operation b) (collectVariables b) (variablesLines b) (variablesFile b) (queryLines b ++ [l]) (queryFile b)
             end).

Definition Finalize (existingMime : bytestr) (b : Builder) : option (Body * bytestr) :=
  if negb (enabled b) then None
  else Some (mkBody (trim (joinLines (queryLines b))) (trim (operation b)) (trim (joinLines (variablesLines b))) (queryFile b) (variablesFile b),
             if bool_decide (existingMime = []) then bytes "application/json" else existingMime).

#[global] Instance feature : Feature Builder := { HandleDirective := handle }.
End unicode.
End GraphQL.

(** ** gRPC *)

Module GRPC.

Record Request := mkReq {
  Target : bytestr;
  Package : bytestr;
  Service : bytestr;
  Method : bytestr;
  FullMethod : bytestr;
  DescriptorSet : bytestr;
  UseReflection : bool;
  Plaintext : option bool;
  Authority : bytestr;
  Metadata : list (bytestr * bytestr);
  Message : bytestr;
  MessageFile : bytestr
}.

Record Builder := mkB { request : option Request; messageLines : list bytestr; messageFromFile : bytestr }.
Definition New : Builder := mkB None [] [].

Section unicode.
Context {unicode : Unicode} {tables : UnicodeTables}.

Definition IsMethodLine (l : bytestr) : bool :=
  match fields l with f :: _ :: _ => EqualFold (str f) "GRPC" | _ => false end.

Definition emptyRequest : Request := mkReq [] [] [] [] [] [] true None [] [] [] [].
(** [EnsureRequest] and a change of the request *)
Definition EnsureRequest (b : Builder) : Request := default emptyRequest (request b).
Definition update (f : Request -> Request) (b : Builder) : Builder :=
  mkB (Some (f (EnsureRequest b))) (messageLines b) (messageFromFile b).

Definition SetTarget (target : bytestr) : Builder -> Builder :=
  update (fun r => mkReq (trim target) (Package r) (Service r) (Method r) (FullMethod r) (DescriptorSet r) (UseReflection r)
    (Plaintext r) (Authority r) (Metadata r) (Message r) (MessageFile r)).

Definition parseMethod (spec : bytestr) : bytestr * bytestr * bytestr :=
  let working := trim spec in
  if bool_decide (working = []) then ([], [], [])
  else match splitAt "/"%char (default working (cut (bytes "/") working)) with
       | p0 :: p1 :: _ =>
           let serviceFQN := trim p0 in
           let method := trim p1 in
           if bool_decide (serviceFQN = []) || bool_decide (method = []) then ([], [], [])
           else match lastIndexOf (bytes ".") serviceFQN with
                | Some i => (take i serviceFQN, drop (i + 1) serviceFQN, method)
                | None => ([], serviceFQN, method)
                end
       | _ => ([], [], [])
       end.

Definition fullMethod (pkg service method : bytestr) : bytestr :=
  let service := if bool_decide (pkg = []) then service else pkg ++ bytes "." ++ service in
  bytes "/" ++ service ++ bytes "/" ++ method.

Definition parseSwitch (name : string) (rest : bytestr) : perr + bool :=
  match Directive.ParseSwitch (str rest) with
  | Some on => inr on
  | None => inl (msg ("invalid " +:+ Directive.Tag name +:+ " " +:+ quote (str rest) +:+ ": expected true or false"))
  end.

Definition parseMetadata (name : string) (rest : bytestr) : perr + (bytestr * bytestr) :=
  let bad := inl (msg ("invalid " +:+ Directive.Tag name +:+ " " +:+ quote (str rest) +:+ ", use key: value")) in
  match cutAt ":"%char rest with
  | Some (before, after) => let key := trim before in if bool_decide (key = []) then bad else inr (key, trim after)
  | None => bad
  end.

Definition handle (name : string) (rest : bytestr) (b : Builder) : bool * bool * perr * Builder :=
  if bool_decide (name = "grpc") then
    if bool_decide (rest = []) then (true, false, [], update id b)
    else
      let '(pkg, service, method) := parseMethod rest in
      if bool_decide (service = []) || bool_decide (method = [])
      then (true, false, msg ("invalid @grpc method " +:+ quote (str rest) +:+ ", use package.Service/Method"), b)
      else (true, false, [], update (fun r => mkReq (Target r) pkg service method (fullMethod pkg service method) (DescriptorSet r)
             (UseReflection r) (Plaintext r) (Authority r) (Metadata r) (Message r) (MessageFile r)) b)
  else if bool_decide (name = "grpc-descriptor") then
    (true, false, [], if bool_decide (rest = []) then b else update (fun r => mkReq (Target r) (Package r) (Service r) (Method r)
       (FullMethod r) rest (UseReflection r) (Plaintext r) (Authority r) (Metadata r) (Message r) (MessageFile r)) b)
  else if bool_decide (name = "grpc-reflection") then
    match parseSwitch name rest with
    | inl e => (true, false, e, b)
    | inr on => (true, false, [], update (fun r => mkReq (Target r) (Package r) (Service r) (Method r) (FullMethod r) (DescriptorSet r)
        on (Plaintext r) (Authority r) (Metadata r) (Message r) (MessageFile r)) b)
    end
  else if bool_decide (name = "grpc-plaintext") then
    match parseSwitch name rest with
    | inl e => (true, false, e, b)
    | inr on => (true, false, [], update (fun r => mkReq (Target r) (Package r) (Service r) (Method r) (FullMethod r) (DescriptorSet r)
        (UseReflection r) (Some on) (Authority r) (Metadata r) (Message r) (MessageFile r)) b)
    end
  else if bool_decide (name = "grpc-authority") then
    (true, false, [], if bool_decide (rest = []) then b else update (fun r => mkReq (Target r) (Package r) (Service r) (Method r)
       (FullMethod r) (DescriptorSet r) (UseReflection r) (Plaintext r) rest (Metadata r) (Message r) (MessageFile r)) b)
  else if bool_decide (name = "grpc-metadata") then
    if bool_decide (rest = []) then (true, false, [], b)
    else match parseMetadata name rest with
         | inl e => (true, false, e, b)
         | inr kv => (true, false, [], update (fun r => mkReq (Target r) (Package r) (Service r) (Method r) (FullMethod r)
             (DescriptorSet r) (UseReflection r) (Plaintext r) (Authority r) (Metadata r ++ [kv]) (Message r) (MessageFile r)) b)
         end
  else (false, false, [], b).

Definition HandleBodyLine (l : bytestr) (forceInline : bool) (b : Builder) : bool * Builder :=
  match request b with
  | None => (false, b)
  | Some _ =>
      if bool_decide (trim l = []) then (false, b)
      else match BodyRef.ParseBodyFile l forceInline with
           | Some file => (true, mkB (request b) [] file)
           | None => (true, mkB (request b) (messageLines b ++ [l]) (messageFromFile b))
           end
  end.

(** The request with its message, and the body as a file and a text. *)
Definition Finalize (existingMime : bytestr) (b : Builder) : option (Request * (bytestr * bytestr) * bytestr) :=
  match request b with
  | None => None
  | Some r =>
      let '(message, file) := if negb (bool_decide (messageFromFile b = [])) then ([], messageFromFile b)
                              else if negb (bool_decide (messageLines b = [])) then (joinLines (messageLines b), MessageFile r)
                              else (Message r, MessageFile r) in
      let r := mkReq (Target r) (Package r) (Service r) (Method r) (FullMethod r) (DescriptorSet r) (UseReflection r) (Plaintext r)
                 (Authority r) (Metadata r) message file in
      let body := if negb (bool_decide (file = [])) then (file, [])
                  else if negb (bool_decide (trim message = [])) then ([], message) else ([], []) in
      Some (r, body, existingMime)
  end.

#[global] Instance feature : Feature Builder := { HandleDirective := handle }.
End unicode.
End GRPC.

(** ** Server-sent events *)

Module SSE.

Record Options := mkO { TotalTimeout : Z; IdleTimeout : Z; MaxEvents : Z; MaxBytes : Z }.
Definition noOptions : Options := mkO 0 0 0 0.

Record Builder := mkB { enabled : bool; options : Options }.
Definition New : Builder := mkB false noOptions.

Section unicode.
Context {unicode : Unicode}.

Definition sseDuration (name value : string) : perr + Z :=
  match Duration.Parse (bytes value) with
  | Some d => if (0 <=? d)%Z then inr d
              else inl (msg ("invalid @sse " +:+ name +:+ " " +:+ quote value +:+ ": expected a non-negative duration"))
  | None => inl (msg ("invalid @sse " +:+ name +:+ " " +:+ quote value +:+ ": expected a non-negative duration"))
  end.

Definition applyOption (name value : string) (b : Builder) : Builder * perr :=
  let o := options b in
  let invalid e := (b, msg ("invalid @sse " +:+ name +:+ " " +:+ quote value +:+ ": " +:+ e)) in
  if bool_decide (name ∈ ["duration"; "timeout"]) then
    match sseDuration name value with
    | inl e => (b, e)
    | inr d => (mkB (enabled b) (mkO d (IdleTimeout o) (MaxEvents o) (MaxBytes o)), [])
    end
  else if bool_decide (name ∈ ["idle"; "idle-timeout"]) then
    match sseDuration name value with
    | inl e => (b, e)
    | inr d => (mkB (enabled b) (mkO (TotalTimeout o) d (MaxEvents o) (MaxBytes o)), [])
    end
  else if bool_decide (name = "max-events") then
    match Directive.ParseNonNegativeInt value with
    | Er e => invalid e
    | Ok n => (mkB (enabled b) (mkO (TotalTimeout o) (IdleTimeout o) n (MaxBytes o)), [])
    end
  else if bool_decide (name ∈ ["max-bytes"; "limit-bytes"]) then
    match ByteSize.Parse (bytes value) with
    | inl e => invalid e
    | inr size => (mkB (enabled b) (mkO (TotalTimeout o) (IdleTimeout o) (MaxEvents o) size), [])
    end
  else (b, Directive.UnknownOption "sse" [name]).

Definition sseAliases : list (list string) := [["duration"; "timeout"]; ["idle"; "idle-timeout"]; ["max-bytes"; "limit-bytes"]].

Definition handle (name : string) (rest : bytestr) (b : Builder) : bool * bool * perr * Builder :=
  if negb (bool_decide (name = "sse")) then (false, false, [], b)
  else
    let rest := trim rest in
    if bool_decide (rest = []) then (true, false, [], mkB true (options b))
    else if Directive.IsOff (str rest) then (true, true, [], mkB false noOptions)
    else let '(b, errs) := Directive.ApplyOptions applyOption "sse" rest sseAliases (mkB true (options b)) in (true, false, errs, b).

Definition Finalize (b : Builder) : option Options := if enabled b then Some (options b) else None.

#[global] Instance feature : Feature Builder := { HandleDirective := handle }.
End unicode.
End SSE.

(** ** WebSocket *)

Module WebSocket.

Inductive StepType := SendText | SendJSON | SendBase64 | SendFile | Ping | Pong | Wait | Close.
Record Step := mkStep { sType : StepType; Value : bytestr; File : bytestr; sDuration : Z; Code : Z; Reason : bytestr }.

Record Options := mkO {
  HandshakeTimeout : Z;
  IdleTimeout : Z;
  MaxMessageBytes : Z;
  Subprotocols : list bytestr;
  Compression : option bool
}.
Definition noOptions : Options := mkO 0 0 0 [] None.

Record Builder := mkB { on : bool; opts : Options; steps : list Step }.
Definition New : Builder := mkB false noOptions [].
Definition reset (b : Builder) : Builder := New.

Definition wsCloseOK : Z := 1000.
Definition wsCloseStandard : Z := 1014.
Definition wsCloseAppMin : Z := 3000.
Definition wsCloseAppMax : Z := 4999.
Definition validWSCloseCode (code : Z) : bool :=
  if bool_decide (code ∈ [1004; 1005; 1006; 1015]%Z) then false
  else ((wsCloseOK <=? code) && (code <=? wsCloseStandard) || (wsCloseAppMin <=? code) && (code <=? wsCloseAppMax))%Z.

Section unicode.
Context {unicode : Unicode}.

Definition wsDuration (name value : string) : perr + Z :=
  match Duration.Parse (bytes value) with
  | Some d => if (0 <=? d)%Z then inr d
              else inl (msg ("invalid @websocket " +:+ name +:+ " " +:+ quote value +:+ ": expected a non-negative duration"))
  | None => inl (msg ("invalid @websocket " +:+ name +:+ " " +:+ quote value +:+ ": expected a non-negative duration"))
  end.

Definition applyOption (name value : string) (b : Builder) : Builder * perr :=
  let o := opts b in
  let set o := (mkB (on b) o (steps b), []) in
  let invalid e := (b, msg ("invalid @websocket " +:+ name +:+ " " +:+ quote value +:+ ": " +:+ e)) in
  if bool_decide (name = "timeout") then
    match wsDuration name value with
    | inl e => (b, e)
    | inr d => set (mkO d (IdleTimeout o) (MaxMessageBytes o) (Subprotocols o) (Compression o))
    end
  else if bool_decide (name ∈ ["idle"; "idle-timeout"]) then
    match wsDuration name value with
    | inl e => (b, e)
    | inr d => set (mkO (HandshakeTimeout o) d (MaxMessageBytes o) (Subprotocols o) (Compression o))
    end
  else if bool_decide (name = "max-message-bytes") then
    match ByteSize.Parse (bytes value) with
    | inl e => invalid e
    | inr size => set (mkO (HandshakeTimeout o) (IdleTimeout o) size (Subprotocols o) (Compression o))
    end
  else if bool_decide (name ∈ ["subprotocol"; "subprotocols"]) then
    match Directive.SplitCSV (bytes value) with
    | [] => invalid "expected at least one subprotocol"
    | list => set (mkO (HandshakeTimeout o) (IdleTimeout o) (MaxMessageBytes o) list (Compression o))
    end
  else if bool_decide (name = "compression") then
    match Directive.ParseBool value with
    | None => invalid "expected true or false"
    | Some v => set (mkO (HandshakeTimeout o) (IdleTimeout o) (MaxMessageBytes o) (Subprotocols o) (Some v))
    end
  else (b, Directive.UnknownOption "websocket" [name]).

Definition wsAliases : list (list string) := [["idle"; "idle-timeout"]; ["subprotocol"; "subprotocols"]].

Definition handleWebSocket (rest : bytestr) (b : Builder) : bool * perr * Builder :=
  let t := trim rest in
  if bool_decide (t = []) then (false, [], mkB true (opts b) (steps b))
  else if Directive.IsOff (str t) then (true, [], reset b)
  else let '(b, errs) := Directive.ApplyOptions applyOption "websocket" t wsAliases (mkB true (opts b) (steps b)) in (false, errs, b).

Definition text_ (ty : StepType) (rest : bytestr) : perr + Step := inr (mkStep ty rest [] 0 0 []).

Definition parseWSSendFile (rest : bytestr) : perr + Step :=
  let rest := match cut (bytes "<") rest with Some after => trim after | None => rest end in
  if bool_decide (rest = []) then inl (msg "@ws send-file requires a path") else inr (mkStep SendFile [] rest 0 0 []).

Definition parseWSWait (rest : bytestr) : perr + Step :=
  if bool_decide (rest = []) then inl (msg "@ws wait requires a duration")
  else
    let bad := inl (msg ("invalid @ws wait duration " +:+ quote (str rest) +:+ ": expected a non-negative duration")) in
    match Duration.Parse rest with
    | Some d => if (0 <=? d)%Z then inr (mkStep Wait [] [] d 0 []) else bad
    | None => bad
    end.

Definition parseWSClose (rest : bytestr) : perr + Step :=
  if bool_decide (rest = []) then inr (mkStep Close [] [] 0 wsCloseOK [])
  else
    let '(codeTok, tail) := Directive.CutToken rest in
    if bool_decide (codeTok = []) then inr (mkStep Close [] [] 0 wsCloseOK [])
    else match Atoi codeTok with
         | Some code =>
             if negb (validWSCloseCode code)
             then inl (msg ("invalid @ws close code " +:+ quote (str codeTok) +:+ ": expected an allowed WebSocket close code"))
             else inr (mkStep Close [] [] 0 code (trim tail))
         | None => inr (mkStep Close [] [] 0 wsCloseOK (trim rest))
         end.

(** [wsStepParsers] *)
Definition wsStepParsers (act : string) : option (bytestr -> perr + Step) :=
  if bool_decide (act = "send") then Some (text_ SendText)
  else if bool_decide (act = "send-json") then Some (text_ SendJSON)
  else if bool_decide (act = "send-base64") then Some (text_ SendBase64)
  else if bool_decide (act = "send-file") then Some parseWSSendFile
  else if bool_decide (act = "ping") then Some (text_ Ping)
  else if bool_decide (act = "pong") then Some (text_ Pong)
  else if bool_decide (act = "wait") then Some parseWSWait
  else if bool_decide (act = "close") then Some parseWSClose
  else None.

Definition handleStep (rest : bytestr) (b : Builder) : perr * Builder :=
  let t := trim rest in
  if bool_decide (t = []) then (msg "@ws requires an action", b)
  else
    let b := mkB true (opts b) (steps b) in
    let '(act, rem) := Directive.CutToken t in
    if bool_decide (act = []) then (msg "@ws requires an action", b)
    else
      let act := ToLower (TrimSpace (str act)) in
      match wsStepParsers act with
      | None => (msg ("unknown @ws action " +:+ quote act), b)
      | Some parse =>
          match parse (trim rem) with
          | inl e => (e, b)
          | inr step => ([], mkB (on b) (opts b) (steps b ++ [step]))
          end
      end.

Definition handle (name : string) (rest : bytestr) (b : Builder) : bool * bool * perr * Builder :=
  if bool_decide (name = "websocket") then let '(r, e, b) := handleWebSocket rest b in (true, r, e, b)
  else if bool_decide (name = "ws") then let '(e, b) := handleStep rest b in (true, false, e, b)
  else (false, false, [], b).

Definition Finalize (b : Builder) : option (Options * list Step) := if on b then Some (opts b, steps b) else None.

#[global] Instance feature : Feature Builder := { HandleDirective := handle }.
End unicode.
End WebSocket.

(** ** Examples *)

Example grpc_methods :
  map (fun s => GRPC.parseMethod (bytes s)) ["pkg.sub.Svc/Do"; "/Svc/Do"; "Svc"; "a./m/x"]
  = [(bytes "pkg.sub", bytes "Svc", bytes "Do"); ([], bytes "Svc", bytes "Do"); ([], [], []); (bytes "a", [], bytes "m")].
Proof. vm_compute. reflexivity. Qed.

Example method_lines :
  map (fun s => Http.isMethodLine (bytes s)) ["GET /x"; "get"; "GETx"; " GET /"; "WSS://h"; "Options *"]
  = [true; true; false; false; true; true].
Proof. vm_compute. reflexivity. Qed.
