(* ===== verification/Specs.v ===== *)
(** * What directives say (src/internal/parser/directive.go, metadata.go, script.go)

    The arguments of the directives of requests and files, read into the records of
    src/internal/restfile/types.go: settings, captures, assertions, patches, modules,
    authentication, scripts, profiles, traces and comparisons.  Each reader answers
    a value, an error, or both where the code does.  Conditions, loops and branches
    are in WorkflowText.v.  The columns of expressions are left out. *)
From stdpp Require Import base list strings gmap.
From Stdlib Require Import Ascii ZArith Lia.
From S2P Require Import Prelude GoStd GoPath Names Text Directive Workflow Compare Catalog WorkflowText Units Lines Protocols.

Open Scope string_scope.
Open Scope nat_scope.
Open Scope list_scope.

Module Sp.
Import Directive.

(** ** restfile *)

Record VarDecl := mkVar { vName : bytestr; vValue : bytestr; vLine : Z; vScope : Scope; vSecret : bool }.
Record Constant := mkConst { cstName : bytestr; cstValue : bytestr; cstLine : Z }.

Record ScriptLine := mkSL { slLine : Z; slCol : nat }.
Record ScriptBlock := mkScript { sbKind : string; sbLang : string; sbBody : bytestr; sbFile : bytestr; sbLines : list ScriptLine }.

Inductive CaptureMode := ModeRTS | ModeTemplate.
Record CaptureSpec := mkCapture {
  capScope : Scope; capName : bytestr; capExpr : bytestr; capMode : CaptureMode; capSecret : bool; capLine : Z
}.
Record AssertSpec := mkAssert { asExpr : bytestr; asMessage : bytestr; asLine : Z }.
(** The profiles that are applied, or an expression. *)
Record ApplySpec := mkApply { apUses : list bytestr; apExpr : bytestr; apLine : Z }.
Record UseSpec := mkUse { usePath : bytestr; useAlias : bytestr; useLine : Z }.
Record PatchProfile := mkPatch { paScope : Scope; paName : bytestr; paExpr : bytestr; paLine : Z }.
Record AuthSpec := mkAuth { auType : string; auParams : gmap string string; auLine : Z }.
Record AuthProfile := mkAuthProfile { apScope : Scope; apSpec : AuthSpec; apfLine : Z }.
Record TraceBudget := mkBudget { Total : Z; Tolerance : Z; Phases : gmap string Z }.
Record TraceSpec := mkTrace { Enabled : bool; Budgets : TraceBudget }.

Section unicode.
Context {unicode : Unicode} {tables : UnicodeTables}.

(** ** metadata.go *)

(** [applySettingsTokens]; the name is the directive's. *)
Definition applySettingsTokens (dst : gmap string bytestr) (raw : bytestr) (name : string) : gmap string bytestr * perr :=
  let '(o, err) := ParseOptions name raw in
  if bool_decide (vals o = ∅) then (dst, err)
  else ((bytes <$> filter (fun kv : string * string => kv.1 <> "") (vals o)) ∪ dst, err).

Definition putSetting (dst : gmap string bytestr) (rest : bytestr) : gmap string bytestr * perr :=
  let '(key, v) := CutKey rest in
  if bool_decide (key = "") then (dst, [])
  else if hasEq (bytes key) then applySettingsTokens dst rest "setting"
  else (<[key := if bool_decide (v = []) then bytes "true" else v]> dst, []).

(** directive.go: [cutAssign] *)
Definition cutAssign (s : bytestr) : bytestr :=
  let s := trim s in match cut (bytes "=") s with Some after => trim after | None => s end.

Definition cutCapture (rest : bytestr) : string * bytestr * bytestr :=
  let '(scope, rem) := CutKey rest in
  let '(name, rem) := CutToken rem in
  (scope, name, cutAssign rem).

(** [parseCaptureDirective]: the warning or the capture. *)
Definition parseCaptureDirective (rest : bytestr) (ln : Z) : string + CaptureSpec :=
  let '(scopeToken, name, expression) := cutCapture rest in
  if bool_decide (scopeToken = "") then inl "@capture missing scope (use request, file, or global)"
  else match ParseSecretScope scopeToken with
       | (None, _) => inl ("@capture scope " +:+ GoStd.quote scopeToken +:+ " is invalid (use request, file, global, with optional -secret)")
       | (Some sc, secret) =>
           if bool_decide (name = []) then inl "@capture missing '<name> <expression>'"
           else if bool_decide (expression = []) then inl "@capture missing expression after capture name"
           else inr (mkCapture sc name expression
                  (if Capture.HasUnquotedTemplateMarker expression then ModeTemplate else ModeRTS) secret ln)
       end.

Definition splitAssert (text : bytestr) : bytestr * bytestr :=
  let s := trim text in
  match indexOf (bytes "=>") (Wb.maskText s) with
  | None => (s, [])
  | Some i => (trim (take i s), TrimQuotes (trim (drop (i + 2) s)))
  end.

Definition parseAssertDirective (rest : bytestr) (ln : Z) : option AssertSpec :=
  let '(expr, message) := splitAssert rest in
  if bool_decide (expr = []) then None else Some (mkAssert expr message ln).

(** ** directive.go *)

Definition namesProfiles (raw : bytestr) : bool := hasPrefix (bytes "use=") (bytes (ToLower (str raw))).
Definition applyExpr (rest : bytestr) : bytestr := let raw := cutAssign rest in if namesProfiles raw then [] else raw.

(** The loop of [validPatchName]: other runes than key runes start with a byte that
    is none. *)
Definition validPatchName (n : bytestr) : bool :=
  let n := trim n in negb (bool_decide (n = [])) && forallb IsKeyRune n.

Fixpoint parseApplyUses (ps : list bytestr) : string + list bytestr :=
  match ps with
  | [] => inr []
  | p :: ps' =>
      let p := trim p in
      if bool_decide (p = []) then inl "@apply has an empty use token"
      else
        let bad : string + list bytestr := inl ("@apply token " +:+ GoStd.quote (str p) +:+ " must be use=<name>") in
        match cutAt EQ p with
        | None => bad
        | Some (k, v) =>
            if negb (EqualFold (TrimSpace (str k)) "use") then bad
            else
              let n := trim (TrimQuotes v) in
              if negb (validPatchName n) then inl ("@apply use name " +:+ GoStd.quote (str n) +:+ " is invalid")
              else match parseApplyUses ps' with inl e => inl e | inr us => inr (n :: us) end
        end
  end.

Definition parseApplySpec (rest : bytestr) (ln : Z) : string + ApplySpec :=
  let raw := cutAssign rest in
  if bool_decide (raw = []) then inl "@apply expression missing"
  else if namesProfiles raw then
    match parseApplyUses (splitAt ","%char raw) with inl e => inl e | inr us => inr (mkApply us [] ln) end
  else inr (mkApply [] raw ln).

Definition cutPatch (rest : bytestr) : bytestr * bytestr * bytestr :=
  let '(scope, rem) := CutToken rest in
  let '(name, rem) := CutToken rem in
  (scope, name, cutAssign rem).

Definition parsePatchScope (tok : bytestr) : option Scope :=
  match ParseScope (str tok) with
  | Some ScopeRequest | None => None
  | Some sc => Some sc
  end.

Definition parsePatchSpec (rest : bytestr) (ln : Z) : string + PatchProfile :=
  let '(scTok, n, ex) := cutPatch rest in
  if bool_decide (scTok = []) then inl "@patch requires '<scope> <name> <expression>'"
  else match parsePatchScope scTok with
       | None => inl "@patch scope must be file or global"
       | Some sc =>
           if negb (validPatchName n) then inl ("@patch name " +:+ GoStd.quote (str n) +:+ " is invalid")
           else if bool_decide (ex = []) then inl ("@patch " +:+ GoStd.quote (str n) +:+ " expression missing")
           else inr (mkPatch sc n ex ln)
       end.

Definition parseUseSpec (rest : bytestr) (ln : Z) : string + UseSpec :=
  match Fields rest with
  | [] => inl "@use requires a path"
  | [f] => let p := trim f in
           if bool_decide (p = []) then inl "@use requires a non-empty path" else inr (mkUse p [] ln)
  | [_; w] => if EqualFold (str w) "as" then inl "@use requires an alias after 'as'"
              else inl "@use must be '<path>' or '<path> as <alias>'"
  | [f; w; al] =>
      if negb (EqualFold (str w) "as") then inl "@use must use 'as' to define an alias"
      else
        let p := trim f in
        let a := trim al in
        if bool_decide (p = []) || bool_decide (a = []) then inl "@use requires a non-empty path and alias"
        else match Wb.checkRTSBinding "@use alias" a with
             | Wb.Msg e :: _ => inl e
             | Wb.Opt e :: _ => inl (optError_Error e)
             | [] => inr (mkUse p a ln)
             end
  | _ => inl "@use has too many tokens"
  end.

(** restfile/auth.go: [AuthKind.Canonical] *)
Definition AuthDisableWord : string := "none".
Definition authKind (k : string) : string :=
  let k := ToLower (TrimSpace k) in if bool_decide (k = "api-key") then "apikey" else k.

Definition joinFields (fs : list bytestr) : string := str (joinWith [" "%char] fs).

(** [parseAuthSpec]: an error, or the specification if there is one. *)
Definition parseAuthSpec (fs : list bytestr) : perr + option (string * gmap string string) :=
  let found (ty : string) (params : gmap string string) : perr + option (string * gmap string string) :=
    inr (if bool_decide (params = ∅) then None else Some (ty, params)) in
  let options required (defaults : gmap string string -> gmap string string) ty (rest : list bytestr) :=
    if bool_decide (rest = []) then inr None
    else match OptionFields "auth" rest with
         | (o, []) => if bool_decide (Get o required = "") && bool_decide (Get o "cache_key" = "") then inr None
                      else found ty (defaults (vals o))
         | (_, err) => inl err
         end in
  match fs with
  | [] => inr None
  | f :: rest =>
      let ty := authKind (str f) in
      if bool_decide (ty = "basic") then
        match rest with
        | user :: ((_ :: _) as pw) => found ty {["username" := str user; "password" := joinFields pw]}
        | _ => inr None
        end
      else if bool_decide (ty = "bearer") then
        match rest with [] => inr None | _ => found ty {["token" := joinFields rest]} end
      else if bool_decide (ty = "apikey") then
        match rest with
        | place :: name :: ((_ :: _) as v) => found ty {["placement" := ToLower (str place); "name" := str name; "value" := joinFields v]}
        | _ => inr None
        end
      else if bool_decide (ty = "oauth2") then
        options "token_url" (fun params =>
          let put k v (m : gmap string string) := if bool_decide (default "" (m !! k) = "") then <[k := v]> m else m in
          put "client_auth" "basic" (put "grant" "client_credentials" params)) ty rest
      else if bool_decide (ty = "command") then options "argv" id ty rest
      else match rest with
           | [] => inr None
           | _ => found "header" {["header" := str f; "value" := joinFields rest]}
           end
  end.

(** [parseAuthDirective]: the scope, and a specification unless it disables. *)
Definition errAuthSpec : perr := msg "@auth requires a valid auth spec".
Definition parseAuthDirective (rest : bytestr) : perr + (Scope * option (string * gmap string string)) :=
  match Fields rest with
  | [] => inl errAuthSpec
  | (f :: fs') as fs =>
      let '(sc, explicit, fs) := match ParseScope (str f) with Some s => (s, true, fs') | None => (ScopeRequest, false, fs) end in
      match fs with
      | [] => inl (msg ("@auth " +:+ Scope_String sc +:+ " scope requires an auth spec"))
      | g :: more =>
          if EqualFold (str g) AuthDisableWord then
            if negb (bool_decide (sc = ScopeRequest)) then inl (msg ("@auth " +:+ Scope_String sc +:+ " scope does not support none"))
            else if negb (bool_decide (more = [])) then inl (msg "@auth none does not accept additional tokens")
            else inr (sc, None)
          else match parseAuthSpec fs with
               | inl e => inl e
               | inr None => inl (if explicit then msg ("@auth " +:+ Scope_String sc +:+ " scope requires a valid auth spec") else errAuthSpec)
               | inr (Some spec) => inr (sc, Some spec)
               end
      end
  end.

(** [parseProfileSpec] *)
Definition parseProfileSpec (rest : bytestr) : perr + Pro.ProfileSpec :=
  let rest := trim rest in
  if bool_decide (rest = []) then inr (Pro.mkSpec 10 0 0)
  else
    let fs := Fields rest in
    match OptionFields "profile" fs with
    | (o, []) =>
        let number key (ok : Z -> bool) := match Lookup o key with
                             | Some raw => match Atoi (trim (bytes raw)) with Some n => if ok n then n else 0%Z | None => 0%Z end
                             | None => 0%Z
                             end in
        let count := number "count" (fun n => 0 <? n)%Z in
        let count := match fs with
                     | [f] => if bool_decide (count = 0%Z) && negb (hasEq f)
                              then match Atoi f with Some n => if (0 <? n)%Z then n else 0%Z | None => 0%Z end else count
                     | _ => count
                     end in
        let warmup := number "warmup" (fun n => 0 <=? n)%Z in
        let delay := match Lookup o "delay" with
                     | Some raw => match Duration.Parse (bytes raw) with Some d => if (0 <=? d)%Z then d else 0%Z | None => 0%Z end
                     | None => 0%Z
                     end in
        inr (Pro.mkSpec (if (count <=? 0)%Z then 10 else count) (if (warmup <? 0)%Z then 0 else warmup) delay)
    | (_, err) => inl err
    end.

(** tracebudget: [NormalizePhase] *)
Definition TotalPhase : string := "total".
Definition NormalizePhase (n : string) : string :=
  let n := ToLower (TrimSpace n) in
  if bool_decide (n ∈ ["dns"; "lookup"; "name"]) then "dns"
  else if bool_decide (n ∈ ["connect"; "dial"]) then "connect"
  else if bool_decide (n ∈ ["tls"; "handshake"]) then "tls"
  else if bool_decide (n ∈ ["headers"; "request_headers"; "req_headers"; "header"]) then "request_headers"
  else if bool_decide (n ∈ ["body"; "request_body"; "req_body"]) then "request_body"
  else if bool_decide (n ∈ ["ttfb"; "first_byte"; "wait"]) then "ttfb"
  else if bool_decide (n ∈ ["transfer"; "download"]) then "transfer"
  else if bool_decide (n ∈ ["total"; "overall"]) then TotalPhase
  else n.

Definition parseDuration (value : bytestr) : Z := default 0%Z (Duration.Parse value).

Definition setTracePhaseBudget (name : string) (dur : Z) (spec : TraceSpec) : TraceSpec :=
  let b := Budgets spec in
  mkTrace (Enabled spec) (if bool_decide (name = TotalPhase) then mkBudget dur (Tolerance b) (Phases b)
                          else mkBudget (Total b) (Tolerance b) (<[name := dur]> (Phases b))).

Definition applyTraceOption (key : string) (v : bytestr) (spec : TraceSpec) : string * TraceSpec :=
  let b := Budgets spec in
  if bool_decide (key = "enabled") then
    match ParseBool (str v) with Some e => (key, mkTrace e b) | None => ("", spec) end
  else if bool_decide (key = "total") then
    let dur := parseDuration v in
    if (0 <? dur)%Z then (TotalPhase, mkTrace (Enabled spec) (mkBudget dur (Tolerance b) (Phases b))) else ("", spec)
  else if bool_decide (key ∈ ["tolerance"; "allowance"; "grace"]) then
    let dur := parseDuration v in
    if (0 <=? dur)%Z then ("tolerance", mkTrace (Enabled spec) (mkBudget (Total b) dur (Phases b))) else ("", spec)
  else
    let dur := parseDuration v in
    if (dur <=? 0)%Z then ("", spec)
    else
      let name := NormalizePhase key in
      if bool_decide (name = "") then ("", spec) else (name, setTracePhaseBudget name dur spec).

(** The name that was set, and the specification. *)
Definition applyTraceToken (value : bytestr) (spec : TraceSpec) : string * TraceSpec :=
  let low := ToLower (str value) in
  if bool_decide (low ∈ ["off"; "disable"; "disabled"; "false"]) then ("", mkTrace false (Budgets spec))
  else if bool_decide (low ∈ ["on"; "enable"; "enabled"; "true"]) then ("", mkTrace true (Budgets spec))
  else match indexOf (bytes "<=") value with
       | Some i =>
           let name := NormalizePhase (str (take i value)) in
           let dur := parseDuration (drop (i + 2) value) in
           if bool_decide (name = "") || (dur <=? 0)%Z then ("", spec) else (name, setTracePhaseBudget name dur spec)
       | None =>
           match cutAt EQ value with
           | Some (before, after) => applyTraceOption (ToLower (TrimSpace (str before))) (trim after) spec
           | None => ("", spec)
           end
       end.

Definition parseTraceSpec (rest : bytestr) : perr + TraceSpec :=
  let '(set, spec) :=
    foldl (fun acc field =>
      let value := trim field in
      if bool_decide (value = []) then acc
      else let '(target, spec) := applyTraceToken value acc.2 in
           (if bool_decide (target = "") then acc.1 else acc.1 ++ [bytes target], spec))
      ([], mkTrace true (mkBudget 0 0 ∅)) (if bool_decide (trim rest = []) then [] else Fields (trim rest)) in
  match RepeatedNames "trace" set with
  | [] => inr spec
  | err => inl err
  end.

(** [parseCompareDirective] *)
Definition compareBaselineKeys : list string := ["base"; "baseline"; "primary"; "ref"].

Definition compareOption (keys : list string) (o : Options) : perr + (string * Options) :=
  match List.find (fun key => bool_decide (TrimSpace <$> Lookup o key = Some "")) keys with
  | Some key => inl (msg ("@compare " +:+ key +:+ " cannot be empty"))
  | None => let '(v, o) := PopAny keys o in inr (default "" v, o)
  end.

Fixpoint compareEnvironments (fs : list bytestr) (seen : list string) : perr + list string :=
  match fs with
  | [] => inr []
  | field :: fs' =>
      let env := trim field in
      if bool_decide (env = []) || hasEq env then compareEnvironments fs' seen
      else if Catalog.IsReservedEnvironment (str env)
      then inl (msg ("@compare environment " +:+ GoStd.quote (str env) +:+ " is reserved for shared defaults"))
      else
        let lowered := ToLower (str env) in
        if bool_decide (lowered ∈ seen) then inl (msg ("@compare duplicate environment " +:+ GoStd.quote (str env)))
        else match compareEnvironments fs' (lowered :: seen) with inl e => inl e | inr es => inr (str env :: es) end
  end.

Definition parseCompareDirective (rest : bytestr) : perr + Cmp.CompareSpec :=
  let fs := Fields rest in
  match OptionFields "compare" fs with
  | (o, []) =>
      match compareOption compareBaselineKeys o with
      | inl e => inl e
      | inr (baseline, o) =>
          match compareOption ["group"] o with
          | inl e => inl e
          | inr (group, o) =>
              match Leftover "compare" o with
              | [] =>
                  if Catalog.IsReservedEnvironment baseline
                  then inl (msg ("@compare baseline " +:+ GoStd.quote baseline +:+ " is reserved for shared defaults"))
                  else if Catalog.IsReservedEnvironment group
                  then inl (msg ("@compare group " +:+ GoStd.quote group +:+ " is reserved"))
                  else match compareEnvironments fs [] with
                       | inl e => inl e
                       | inr ((e0 :: _ :: _) as envs) =>
                           if bool_decide (baseline = "") then inr (Cmp.mkSpec envs e0 group)
                           else match List.find (fun env => EqualFold env baseline) envs with
                                | Some env => inr (Cmp.mkSpec envs env group)
                                | None => inl (msg ("@compare baseline " +:+ GoStd.quote baseline +:+ " must match one of the environments"))
                                end
                       | inr _ => inl (msg "@compare requires at least two environments")
                       end
              | err => inl err
              end
          end
      end
  | (_, err) => inl err
  end.

(** ** script.go *)

Definition normScriptKind (kind : bytestr) : string :=
  let out := ToLower (TrimSpace (str kind)) in if bool_decide (out = "") then "test" else out.

Definition normScriptLang (lang : bytestr) : string :=
  let out := ToLower (TrimSpace (str lang)) in
  if bool_decide (out = "") || bool_decide (out = "javascript") then "js"
  else if bool_decide (out = "restermlang") then "rts" else out.

Definition scriptLangToken (tok : bytestr) : option string :=
  let out := ToLower (TrimSpace (str tok)) in
  if bool_decide (out ∈ ["js"; "javascript"]) then Some "js"
  else if bool_decide (out ∈ ["rts"; "restermlang"]) then Some "rts" else None.

Definition scriptLangKeys : list string := ["lang"; "language"].

(** The loop of [parseScriptSpec]: the first word is the kind, the first language
    word after it the language. *)
Fixpoint scriptWords (fs : list bytestr) (kind : bytestr) (lang : string) : bytestr * string :=
  match fs with
  | [] => (kind, lang)
  | f :: fs' =>
      if hasEq f then scriptWords fs' kind lang
      else if bool_decide (kind = []) then scriptWords fs' f lang
      else if bool_decide (lang = "")
           then scriptWords fs' kind (default lang (scriptLangToken f))
           else scriptWords fs' kind lang
  end.

Definition parseScriptSpec (rest : bytestr) : string * string * perr :=
  let fs := Fields rest in
  let '(kind, lang) := scriptWords fs [] "" in
  let '(o, err) := OptionFields "script" fs in
  let '(v, o) := First scriptLangKeys o in
  (normScriptKind kind, normScriptLang (bytes (default lang v)), err ++ Conflicts "script" o).

Definition errRTSTestUnsupported : perr :=
  msg "@rts test is not supported, use @assert for RTS response checks or @script test for JavaScript tests".
Definition errRTSLangUnsupported : perr :=
  msg "@rts only supports RestermScript, remove lang=js or use @script for JavaScript".
Definition errRTSModeRequired : perr := msg "@rts requires a mode, use '@rts pre-request'".
Definition errRTSModeUnsupported : perr := msg "@rts supports only pre-request mode, use '@rts pre-request'".
Definition errRTSMultipleModes : perr := msg "@rts accepts only one mode, use '@rts pre-request'".

Definition parseRTSScriptKind (field : bytestr) : perr + string :=
  let kind := normScriptKind field in
  if bool_decide (kind = "pre-request") then inr kind
  else if bool_decide (kind ∈ ["test"; "tests"]) then inl errRTSTestUnsupported
  else inl errRTSModeUnsupported.

(** The loop of [parseRTSScriptSpec]. *)
Fixpoint rtsWords (fs : list bytestr) (kind : option string) : perr + option string :=
  match fs with
  | [] => inr kind
  | f :: fs' =>
      if hasEq f then rtsWords fs' kind
      else match scriptLangToken f with
           | Some lang => if bool_decide (lang = "rts") then rtsWords fs' kind else inl errRTSLangUnsupported
           | None =>
               match parseRTSScriptKind f with
               | inl e => inl e
               | inr next => match kind with Some _ => inl errRTSMultipleModes | None => rtsWords fs' (Some next) end
               end
           end
  end.

Definition validateRTSScriptLangOptions (fs : list bytestr) : perr :=
  match OptionFields "rts" fs with
  | (o, []) =>
      let '(v, o) := First scriptLangKeys o in
      match v with
      | Some v => if bool_decide (normScriptLang (bytes v) = "rts") then Conflicts "rts" o else errRTSLangUnsupported
      | None => Conflicts "rts" o
      end
  | (_, err) => err
  end.

Definition parseRTSScriptSpec (rest : bytestr) : perr + (string * string) :=
  let fs := Fields rest in
  match rtsWords fs None with
  | inl e => inl e
  | inr kind =>
      match validateRTSScriptLangOptions fs with
      | [] => match kind with None => inl errRTSModeRequired | Some k => inr (k, "rts") end
      | e => inl e
      end
  end.

Definition scriptInc (body : bytestr) : option bytestr :=
  match cut (bytes "<") (trimLeftSpace body) with
  | None => None
  | Some r => let p := trim r in if bool_decide (p = []) then None else Some p
  end.
End unicode.
End Sp.
