(* ===== verification/Requests.v ===== *)
(** * Building a request (src/internal/parser/request.go, body.go, script.go)

    [builder] is the code's requestBuilder with the fields of its struct: what the
    lines of a request have said so far.  Its methods return the builder they
    leave.  [build] makes the request.  Tunnels are an interface: the types of what
    @ssh and @k8s declare. *)
From stdpp Require Import base list strings gmap.
From Stdlib Require Import Ascii ZArith Lia.
From S2P Require Import Prelude GoStd GoPath Names Text Directive Workflow Compare WorkflowText Lines Protocols Specs.

Open Scope string_scope.
Open Scope nat_scope.
Open Scope list_scope.

(** What the builders of tunnels give (parser/builder/ssh, k8s): the specification
    of a request and the profile of a file. *)
Record TunnelResult (Spec Profile : Type) := mkTunnel {
  tScope : Directive.Scope;
  tSpec : option Spec;
  tProfile : Profile;
  tPersistIgnored : bool
}.
Arguments mkTunnel {_ _}. Arguments tScope {_ _}. Arguments tSpec {_ _}. Arguments tProfile {_ _}. Arguments tPersistIgnored {_ _}.

Class Tunnels := {
  SSHSpec : Type;
  SSHProfile : Type;
  K8sSpec : Type;
  K8sProfile : Type;
  ParseSSH : bytestr -> TunnelResult SSHSpec SSHProfile * perr;
  (* an invalid profile of a file comes with the error *)
  ParseK8s : bytestr -> TunnelResult K8sSpec K8sProfile * perr * option (Directive.Scope * K8sProfile);
  (* the scope, the line and the error of a profile *)
  SSHAt : Directive.Scope -> SSHProfile -> SSHProfile;
  K8sAt : Directive.Scope -> Z -> K8sProfile -> K8sProfile;
  K8sInvalid : Z -> string -> K8sProfile -> K8sProfile
}.

Module Rq.
Import Sp.

Record BodyOptions := mkBO { ExpandTemplates : bool; ForceInline : bool }.

Record Metadata := mkMeta {
  Name : bytestr;
  Description : string;
  Tags : list string;
  NoLog : bool;
  AllowSensitiveHeaders : bool;
  Auth : option AuthSpec;
  AuthDisabled : bool;
  Scripts : list ScriptBlock;
  Uses : list UseSpec;
  Applies : list ApplySpec;
  When : option Wf.ConditionSpec;
  ForEach : option Wf.ForEachSpec;
  Asserts : list AssertSpec;
  Captures : list CaptureSpec;
  Profile : option Pro.ProfileSpec;
  Trace : option TraceSpec;
  Compare : option Cmp.CompareSpec
}.
Definition noMetadata : Metadata :=
  mkMeta [] "" [] false false None false [] [] [] None None [] [] None None None.

(** body.go: [multipartSpan]; an unknown boundary leaves the delimiter bare. *)
Record multipartSpan := mkSpan { delimiter : bytestr; opened : bool; closed : bool }.

Section unicode.
Context {unicode : Unicode} {tables : UnicodeTables} {lib : HttpLib}.

Definition DASHES : bytestr := bytes "--".

(** [strings.Trim] of double quotes *)
Fixpoint dropQuotes (l : bytestr) : bytestr :=
  match l with c :: l' => if bool_decide (c = DQUOTE) then dropQuotes l' else l | [] => [] end.
Definition trimQuoteChars (l : bytestr) : bytestr := rev (dropQuotes (rev (dropQuotes l))).

Definition boundaryParam (ct : bytestr) : bytestr :=
  match List.find (fun p => match cutAt EQ p with Some (k, _) => EqualFold (TrimSpace (str k)) "boundary" | None => false end)
      (drop 1 (splitAt ";"%char ct)) with
  | Some p => match cutAt EQ p with Some (_, v) => trimQuoteChars (trim v) | None => [] end
  | None => []
  end.

(** restfile: [IsMultipartMime] *)
Definition IsMultipartMime (ct : bytestr) : bool :=
  let ct := trim ct in (10 <=? length ct) && EqualFold (str (take 10 ct)) "multipart/".

Definition newMultipartSpan (ct : bytestr) : multipartSpan := mkSpan (DASHES ++ boundaryParam ct) false false.

(** Whether the line is content of the body, and the span after it. *)
Definition bodyLine (text : bytestr) (s : multipartSpan) : bool * multipartSpan :=
  if bool_decide (delimiter s = DASHES) then (hasPrefix DASHES text, s)
  else if closed s then (false, s)
  else if bool_decide (text = delimiter s ++ DASHES) then (true, mkSpan (delimiter s) (opened s) true)
  else if bool_decide (text = delimiter s) then (true, mkSpan (delimiter s) true (closed s))
  else (opened s, s).
End unicode.

(** ** requestBuilder *)

Section builder.
Context {tunnels : Tunnels}.

(** The buffer of the script in progress: its kind is empty when there is none. *)
Record scriptBuffer := mkSB { bufKind : string; bufLang : string; bufLocs : list ScriptLine; bufLines : list bytestr }.
Definition noScript : scriptBuffer := mkSB "" "" [] [].

Record builder := mkR {
  startLine : Z;
  metadata : Metadata;
  variables : list VarDecl;
  originalLines : list bytestr;
  currentScriptKind : string;
  currentScriptLang : string;
  discardScript : bool;
  script : scriptBuffer;
  settings : gmap string bytestr;
  http : Http.Builder;
  graphql : GraphQL.Builder;
  grpc : GRPC.Builder;
  sse : SSE.Builder;
  websocket : WebSocket.Builder;
  bodyOptions : BodyOptions;
  multipart : option multipartSpan;
  ssh : option SSHSpec;
  k8s : option K8sSpec;
  declared : gset string
}.

(** document.go: what [ensureRequest] makes *)
Definition newRequest (line : Z) : builder :=
  mkR line noMetadata [] [] "test" "js" false noScript ∅ Http.New GraphQL.New GRPC.New SSE.New WebSocket.New
    (mkBO false false) None None None ∅.

(** One field changed. *)
Definition set_metadata (m : Metadata) (r : builder) : builder :=
  mkR (startLine r) m (variables r) (originalLines r) (currentScriptKind r) (currentScriptLang r) (discardScript r) (script r)
    (settings r) (http r) (graphql r) (grpc r) (sse r) (websocket r) (bodyOptions r) (multipart r) (ssh r) (k8s r) (declared r).
Definition addVariable (v : VarDecl) (r : builder) : builder :=
  mkR (startLine r) (metadata r) (variables r ++ [v]) (originalLines r) (currentScriptKind r) (currentScriptLang r) (discardScript r)
    (script r) (settings r) (http r) (graphql r) (grpc r) (sse r) (websocket r) (bodyOptions r) (multipart r) (ssh r) (k8s r) (declared r).
Definition addLines (ls : list bytestr) (r : builder) : builder :=
  mkR (startLine r) (metadata r) (variables r) (originalLines r ++ ls) (currentScriptKind r) (currentScriptLang r) (discardScript r)
    (script r) (settings r) (http r) (graphql r) (grpc r) (sse r) (websocket r) (bodyOptions r) (multipart r) (ssh r) (k8s r) (declared r).
Definition set_current (kind lang : string) (discard : bool) (r : builder) : builder :=
  mkR (startLine r) (metadata r) (variables r) (originalLines r) kind lang discard (script r) (settings r) (http r) (graphql r) (grpc r)
    (sse r) (websocket r) (bodyOptions r) (multipart r) (ssh r) (k8s r) (declared r).
Definition set_script (b : scriptBuffer) (r : builder) : builder :=
  mkR (startLine r) (metadata r) (variables r) (originalLines r) (currentScriptKind r) (currentScriptLang r) (discardScript r) b
    (settings r) (http r) (graphql r) (grpc r) (sse r) (websocket r) (bodyOptions r) (multipart r) (ssh r) (k8s r) (declared r).
Definition set_settings (s : gmap string bytestr) (r : builder) : builder :=
  mkR (startLine r) (metadata r) (variables r) (originalLines r) (currentScriptKind r) (currentScriptLang r) (discardScript r) (script r)
    s (http r) (graphql r) (grpc r) (sse r) (websocket r) (bodyOptions r) (multipart r) (ssh r) (k8s r) (declared r).
Definition set_http (h : Http.Builder) (r : builder) : builder :=
  mkR (startLine r) (metadata r) (variables r) (originalLines r) (currentScriptKind r) (currentScriptLang r) (discardScript r) (script r)
    (settings r) h (graphql r) (grpc r) (sse r) (websocket r) (bodyOptions r) (multipart r) (ssh r) (k8s r) (declared r).
Definition set_protocols (q : GraphQL.Builder) (g : GRPC.Builder) (s : SSE.Builder) (w : WebSocket.Builder) (r : builder) : builder :=
  mkR (startLine r) (metadata r) (variables r) (originalLines r) (currentScriptKind r) (currentScriptLang r) (discardScript r) (script r)
    (settings r) (http r) q g s w (bodyOptions r) (multipart r) (ssh r) (k8s r) (declared r).
Definition set_body (o : BodyOptions) (m : option multipartSpan) (r : builder) : builder :=
  mkR (startLine r) (metadata r) (variables r) (originalLines r) (currentScriptKind r) (currentScriptLang r) (discardScript r) (script r)
    (settings r) (http r) (graphql r) (grpc r) (sse r) (websocket r) o m (ssh r) (k8s r) (declared r).
Definition set_tunnels (s : option SSHSpec) (k : option K8sSpec) (r : builder) : builder :=
  mkR (startLine r) (metadata r) (variables r) (originalLines r) (currentScriptKind r) (currentScriptLang r) (discardScript r) (script r)
    (settings r) (http r) (graphql r) (grpc r) (sse r) (websocket r) (bodyOptions r) (multipart r) s k (declared r).
Definition set_declared (d : gset string) (r : builder) : builder :=
  mkR (startLine r) (metadata r) (variables r) (originalLines r) (currentScriptKind r) (currentScriptLang r) (discardScript r) (script r)
    (settings r) (http r) (graphql r) (grpc r) (sse r) (websocket r) (bodyOptions r) (multipart r) (ssh r) (k8s r) d.

(** *** Scripts *)

Definition addScript (s : ScriptBlock) (m : Metadata) : Metadata :=
  mkMeta (Name m) (Description m) (Tags m) (NoLog m) (AllowSensitiveHeaders m) (Auth m) (AuthDisabled m) (Scripts m ++ [s]) (Uses m)
    (Applies m) (When m) (ForEach m) (Asserts m) (Captures m) (Profile m) (Trace m) (Compare m).

Definition flushPendingScript (r : builder) : builder :=
  let b := script r in
  if bool_decide (bufLines b = []) then r
  else set_script noScript (set_metadata (addScript (mkScript (bufKind b) (bufLang b) (joinLines (bufLines b)) [] (bufLocs b)) (metadata r)) r).

(** The path of the source is the same for every line of a file. *)
Definition appendScriptLine (kind lang : string) (body : bytestr) (loc : ScriptLine) (r : builder) : builder :=
  if discardScript r then r
  else
    let b := script r in
    let r := if negb (bool_decide (bufKind b = "")) && (negb (bool_decide (bufKind b = kind)) || negb (bool_decide (bufLang b = lang)))
             then flushPendingScript r else r in
    let b := script r in
    let b := if bool_decide (bufKind b = "") then mkSB kind lang (bufLocs b) (bufLines b) else b in
    set_script (mkSB (bufKind b) (bufLang b) (bufLocs b ++ [loc]) (bufLines b ++ [body])) r.

Definition appendScriptInclude (kind lang : string) (path : bytestr) (r : builder) : builder :=
  if discardScript r then r
  else let r := flushPendingScript r in set_metadata (addScript (mkScript kind lang [] path []) (metadata r)) r.

Section protocols.
Context {unicode : Unicode} {tables : UnicodeTables} {lib : HttpLib}.

(** [setScript] and [setRTSScript]; the first keeps its settings after an error. *)
Definition setScript (rest : bytestr) (r : builder) : perr * builder :=
  let '(k, l, err) := parseScriptSpec rest in (err, set_current k l false r).
Definition setRTSScript (rest : bytestr) (r : builder) : perr * builder :=
  match parseRTSScriptSpec rest with
  | inl e => (e, flushPendingScript (set_current (currentScriptKind r) (currentScriptLang r) true r))
  | inr (k, l) => ([], set_current k l false r)
  end.

(** *** Protocols *)

Definition clearDeclared (name : string) (r : builder) : builder :=
  set_declared (declared r ∖ list_to_set (Directive.Resets name)) r.

(** One round of the loop of [protoDirective]: a builder of the request and where
    to put it back. *)
Definition offer {B} {f : Feature B} (name : string) (args : bytestr) (b : B) (put : B -> builder -> builder) (r : builder) :
    option (perr * builder) :=
  let '(handled, reset, err, b) := HandleDirective name args b in
  if negb handled then None
  else Some (err, if reset then clearDeclared name (put b r) else put b r).

Definition protoDirective (name : string) (args : bytestr) (r : builder) : option (perr * builder) :=
  match offer name args (grpc r) (fun g r => set_protocols (graphql r) g (sse r) (websocket r) r) r with
  | Some x => Some x
  | None =>
      match offer name args (websocket r) (fun w r => set_protocols (graphql r) (grpc r) (sse r) w r) r with
      | Some x => Some x
      | None =>
          match offer name args (sse r) (fun s r => set_protocols (graphql r) (grpc r) s (websocket r) r) r with
          | Some x => Some x
          | None => offer name args (graphql r) (fun q r => set_protocols q (grpc r) (sse r) (websocket r) r) r
          end
      end
  end.

Definition protoBodyLine (raw : bytestr) (r : builder) : bool * builder :=
  match GraphQL.HandleBodyLine raw (ForceInline (bodyOptions r)) (graphql r) with
  | (true, q) => (true, set_protocols q (grpc r) (sse r) (websocket r) r)
  | (false, _) =>
      match GRPC.HandleBodyLine raw (ForceInline (bodyOptions r)) (grpc r) with
      | (true, g) => (true, set_protocols (graphql r) g (sse r) (websocket r) r)
      | (false, _) => (false, r)
      end
  end.

(** *** Bodies *)

Definition markHeadersDone (r : builder) : builder :=
  if Http.headerDone (http r) then r
  else
    let r := set_http (Http.MarkHeadersDone (http r)) r in
    let ct := Http.mimeType (http r) in
    if IsMultipartMime ct then set_body (bodyOptions r) (Some (newMultipartSpan ct)) r else r.

(** [handleBodyLine] of the document builder *)
Definition handleBodyLine (raw : bytestr) (r : builder) : builder :=
  match protoBodyLine raw r with
  | (true, r) => r
  | (false, r) =>
      match BodyRef.Parse raw BodyRef.Line (ForceInline (bodyOptions r)) with
      | Some file => set_http (Http.SetBodyFromFile file (http r)) r
      | None => set_http (Http.AppendBodyLine raw (http r)) r
      end
  end.

Definition handleBodyDirective (rest : bytestr) (r : builder) : option builder :=
  let rs := trim rest in
  if bool_decide (rs = []) then None
  else
    let '(k, v) := Directive.CutKey rs in
    if bool_decide (k = "") then None
    else
      let enabled := if bool_decide (trim v = []) then Some true else Directive.ParseBool (str v) in
      let o := bodyOptions r in
      if bool_decide (k ∈ ["expand"; "expand-templates"]) then
        (fun e => set_body (mkBO e (ForceInline o)) (multipart r) r) <$> enabled
      else if bool_decide (k ∈ ["inline"; "raw"]) then
        (fun e => set_body (mkBO (ExpandTemplates o) e) (multipart r) r) <$> enabled
      else None.

(** *** The request *)

Record Body := mkBody { Text : bytestr; FilePath : bytestr; MimeType : bytestr; BodyGraphQL : option GraphQL.Body; Options : BodyOptions }.

Record Request := mkRequest {
  rMetadata : Metadata;
  Method : bytestr;
  URL : bytestr;
  Headers : gmap string (list bytestr);
  rBody : Body;
  rVariables : list VarDecl;
  rSettings : gmap string bytestr;
  rRange : Z * Z;
  OriginalText : bytestr;
  rGRPC : option GRPC.Request;
  rSSE : option SSE.Options;
  rWebSocket : option (WebSocket.Options * list WebSocket.Step);
  rSSH : option SSHSpec;
  rK8s : option K8sSpec
}.

Definition applyHTTPBody (r : builder) (b : Body) : Body :=
  let file := Http.bodyFromFile (http r) in
  let text := Http.BodyText (http r) in
  let mime := Http.mimeType (http r) in
  let b := if negb (bool_decide (file = [])) then mkBody (Text b) file (MimeType b) (BodyGraphQL b) (Options b)
           else if negb (bool_decide (text = [])) then mkBody text (FilePath b) (MimeType b) (BodyGraphQL b) (Options b) else b in
  if negb (bool_decide (mime = [])) then mkBody (Text b) (FilePath b) mime (BodyGraphQL b) (Options b) else b.

Definition build (r : builder) : Request :=
  let r := flushPendingScript r in
  let none := mkBO false false in
  let empty := mkBody [] [] [] None none in
  let ws := WebSocket.Finalize (websocket r) in
  let sse := SSE.Finalize (sse r) in
  let finish grpcReq body :=
    mkRequest (metadata r) (Http.method (http r)) (trim (Http.url (http r))) (Http.headers (http r)) body (variables r) (settings r)
      (startLine r, startLine r + Z.of_nat (length (originalLines r)) - 1)%Z (joinLines (originalLines r)) grpcReq sse ws (ssh r) (k8s r) in
  if bool_decide (is_Some ws) || bool_decide (is_Some sse) then finish None (applyHTTPBody r empty)
  else match GRPC.Finalize (Http.mimeType (http r)) (grpc r) with
       | Some (g, (file, text), mime) => finish (Some g) (mkBody text file mime None (bodyOptions r))
       | None =>
           match GraphQL.Finalize (Http.mimeType (http r)) (graphql r) with
           | Some (gql, mime) => finish None (applyHTTPBody r (mkBody [] [] mime (Some gql) none))
           | None =>
               let b := applyHTTPBody r empty in
               finish None (mkBody (Text b) (FilePath b) (MimeType b) (BodyGraphQL b) (bodyOptions r))
           end
       end.
End protocols.
End builder.
End Rq.
