(* ===== verification/MockText.v ===== *)
(** * Mocks in request files (src/internal/parser/mock.go)

    A @mock directive opens a block that a separator ends: directives, a status
    line, headers and a body, or several such responses with delimiters between
    them.  [builder] is the code's mockBuilder; a step answers the errors it
    reports, in order, and the builder.  JSON matchers, paths, sequence keys and
    delays are an interface. *)
From stdpp Require Import base list strings gmap.
From Stdlib Require Import Ascii ZArith Lia.
From S2P Require Import Prelude GoStd GoPath Names Text Directive Lines Protocols Requests.

Open Scope string_scope.
Open Scope nat_scope.
Open Scope list_scope.

(** What @match declares, sequence keys, paths and delays. *)
Class MockParsers := {
  Match : Type;
  noMatch : Match;
  addMatch : Directive.Options -> Match -> list string * Match;
  SequenceKey : Type;
  parseMockSequenceKey : string -> string -> string + SequenceKey;
  ValidateMockPath : string -> option string;
  Delay : Type;
  ParseDelay : string -> string + Delay;
  ValidHeaderFieldValue : string -> bool
}.

Module Mb.
Import Directive.

Section mocks.
Context {unicode : Unicode} {tables : UnicodeTables} {lib : HttpLib} {parsers : MockParsers}.

Record Body := mkBody { Text : bytestr; FilePath : bytestr; MimeType : bytestr }.
Record Response := mkResponse { Status : Z; Headers : gmap string (list bytestr); rBody : Body }.
Record Mock := mkMock {
  Title : bytestr;
  Name : string;
  Sequence : string;
  mKey : option SequenceKey;
  Method : string;
  Path : string;
  Latency : option Delay;
  Default : bool;
  mMatch : Match;
  Expectation : option (Z * Z);
  Responses : list Response;
  DisableInterpolation : bool;
  Range : Z * Z
}.

(** [status] is 0 before the status line; [delimLine] 0 without a delimiter. *)
Record builder := mkB {
  startLine : Z;
  endLine : Z;
  title : bytestr;
  method : string;
  path : string;
  name : string;
  sequence : string;
  sequenceKey : option SequenceKey;
  latency : option Delay;
  isDefault : bool;
  disableInterpolation : bool;
  matches : Match;
  expectation : option (Z * Z);
  responses : list Response;
  status : Z;
  headers : gmap string (list bytestr);
  inBody : bool;
  body : list bytestr;
  delimLine : Z
}.

(** Fields changed together *)
Definition set_response (st : Z) (h : gmap string (list bytestr)) (inb : bool) (bd : list bytestr) (rs : list Response) (b : builder) : builder :=
  mkB (startLine b) (endLine b) (title b) (method b) (path b) (name b) (sequence b) (sequenceKey b) (latency b) (isDefault b)
    (disableInterpolation b) (matches b) (expectation b) rs st h inb bd (delimLine b).
Definition set_endLine (n : Z) (b : builder) : builder :=
  mkB (startLine b) n (title b) (method b) (path b) (name b) (sequence b) (sequenceKey b) (latency b) (isDefault b)
    (disableInterpolation b) (matches b) (expectation b) (responses b) (status b) (headers b) (inBody b) (body b) (delimLine b).
Definition set_delimLine (n : Z) (b : builder) : builder :=
  mkB (startLine b) (endLine b) (title b) (method b) (path b) (name b) (sequence b) (sequenceKey b) (latency b) (isDefault b)
    (disableInterpolation b) (matches b) (expectation b) (responses b) (status b) (headers b) (inBody b) (body b) n.
Definition set_matches (m : Match) (e : option (Z * Z)) (b : builder) : builder :=
  mkB (startLine b) (endLine b) (title b) (method b) (path b) (name b) (sequence b) (sequenceKey b) (latency b) (isDefault b)
    (disableInterpolation b) m e (responses b) (status b) (headers b) (inBody b) (body b) (delimLine b).

(** restfile: [ValidMockName], [ValidMockStatus], [IsMockSequenceDelimiter] *)
Definition ValidMockName (n : string) : bool := negb (bool_decide (n = "")) && forallb IsKeyRune (bytes n).
Definition ValidMockStatus (st : Z) : bool := (200 <=? st)%Z && (st <=? 599)%Z.
Definition IsMockSequenceDelimiter (l : bytestr) : bool := bool_decide (trim l = bytes "---").

Definition errorsOf (err : perr) : list string := if bool_decide (err = []) then [] else [join (str [LF]) (map optError_Error err)].

Definition checkMockOptions (d : string) (o : Options) (known : list string) : list string :=
  map (fun key => "unknown " +:+ Tag d +:+ " option " +:+ GoStd.quote key) (List.filter (fun key => negb (bool_decide (key ∈ known))) (Keys o)).

Definition mockBool (o : Options) (key : string) : list string * option bool :=
  match Lookup o key with
  | None => ([], None)
  | Some raw => match ParseBool raw with Some v => ([], Some v) | None => (["@mock " +:+ key +:+ " must be true or false"], None) end
  end.

Definition checkMockRoute (b : builder) : list string :=
  (if bool_decide (method b = "") then ["@mock method is required"]
   else if negb (ValidHeaderFieldName (method b)) then ["invalid @mock method " +:+ GoStd.quote (method b)] else []) ++
  (if bool_decide (path b = "") then ["@mock path is required"]
   else match ValidateMockPath (path b) with Some e => [e] | None => [] end) ++
  (if negb (bool_decide (name b = "")) && negb (ValidMockName (name b))
   then ["@mock name may contain only letters, digits, '.', '_' and '-'"] else []) ++
  (if negb (bool_decide (sequence b = "")) && negb (ValidMockName (sequence b))
   then ["@mock sequence may contain only letters, digits, '.', '_' and '-'"] else []) ++
  (if negb (bool_decide (name b = "")) && negb (bool_decide (sequence b = "")) then ["@mock name and sequence cannot be combined"] else []).

(** [startMock]: the pending title is the mock's. *)
Definition startMock (line : Z) (raw : bytestr) (pendingTitle : bytestr) : list string * builder :=
  let '(o, err) := ParseOptions "mock" raw in
  let e1 := errorsOf err ++
    checkMockOptions "mock" o ["method"; "path"; "name"; "sequence"; "sequence-key"; "default"; "latency"; "interpolate"] in
  let seq := Get o "sequence" in
  let b := mkB line line pendingTitle (ToUpper (Get o "method")) (Get o "path") (Get o "name") seq None None false false noMatch None [] 0 ∅ false [] 0 in
  let e2 := checkMockRoute b in
  let e3 := if Has o "sequence" && bool_decide (seq = "") then ["@mock sequence name cannot be empty"] else [] in
  let '(e4, key) := match Lookup o "sequence-key" with
                    | None => ([], None)
                    | Some raw =>
                        if bool_decide (seq = "") then (["@mock sequence-key requires sequence"], None)
                        else match parseMockSequenceKey raw (path b) with
                             | inl e => (["@mock sequence-key " +:+ e], None)
                             | inr k => ([], Some k)
                             end
                    end in
  let '(e5, dflt) := mockBool o "default" in
  let '(e6, lat) := match Lookup o "latency" with
                    | None => ([], None)
                    | Some raw => match ParseDelay raw with inl e => (["@mock latency " +:+ e], None) | inr d => ([], Some d) end
                    end in
  let '(e7, interp) := mockBool o "interpolate" in
  (e1 ++ e2 ++ e3 ++ e4 ++ e5 ++ e6 ++ e7,
   mkB line line pendingTitle (method b) (path b) (name b) seq key lat (stdpp.option.default false dflt) (negb (stdpp.option.default true interp)) noMatch None [] 0 ∅ false [] 0).

Definition started (b : builder) : bool := negb (bool_decide (status b = 0%Z)) || negb (bool_decide (body b = [])).

(** Only the last line, if it is blank, and it is the separator's. *)
Definition trimStructuralBlankLine (b : builder) : builder :=
  match head (rev (body b)) with
  | Some [] => set_response (status b) (headers b) (inBody b) (take (length (body b) - 1) (body b)) (responses b) b
  | _ => b
  end.

Definition AllBlank (ls : list bytestr) : bool := forallb (fun l => bool_decide (trim l = [])) ls.

Definition finishResponse (line : Z) (b : builder) : list string * builder :=
  let e := if bool_decide (status b = 0%Z) then ["@mock response status line is missing"] else [] in
  let mime := default [] (head (default [] (headers b !! CanonicalHeaderKey "Content-Type"))) in
  let bd := match body b with
            | [] => mkBody [] [] mime
            | l :: ls =>
                match BodyRef.Parse l BodyRef.Line false with
                | Some file => if AllBlank ls then mkBody [] file mime else mkBody (joinLines (body b)) [] mime
                | None => mkBody (joinLines (body b)) [] mime
                end
            end in
  (e, set_response 0 ∅ false [] (responses b ++ [mkResponse (status b) (headers b) bd]) b).

(** [parseMockStatusLine]: [None] when the line is none. *)
Definition parseMockStatusLine (line : bytestr) : option (string + Z) :=
  match fields line with
  | [] => None
  | f :: rest =>
      let version := bytes (ToUpper (str f)) in
      if negb (hasPrefix (bytes "HTTP/") version) then None
      else match rest with
           | code :: _ =>
               if negb (bool_decide (version = bytes "HTTP/1.0" \/ version = bytes "HTTP/1.1")) then Some (inl "invalid mock response status line")
               else if negb (length code =? 3) then Some (inl "mock response status must be a three-digit number between 200 and 599")
               else match Atoi code with
                    | Some st => if ValidMockStatus st then Some (inr st) else Some (inl "mock response status must be between 200 and 599")
                    | None => Some (inl "mock response status must be between 200 and 599")
                    end
           | [] => Some (inl "invalid mock response status line")
           end
  end.

Definition addHeader (line : bytestr) (b : builder) : list string * builder :=
  if hasPrefix (bytes " ") line || hasPrefix [TAB] line then (["folded response headers are not supported"], b)
  else
    let bad := (["invalid mock response header"], b) in
    match cutAt ":"%char line with
    | None => bad
    | Some (n, v) =>
        let n := str (trim n) in
        let v := trim v in
        if negb (ValidHeaderFieldName n) then bad
        else if negb (ValidHeaderFieldValue (str v)) then (["invalid value for mock response header " +:+ GoStd.quote n], b)
        else
          let key := CanonicalHeaderKey n in
          ([], set_response (status b) (<[key := default [] (headers b !! key) ++ [v]]> (headers b)) (inBody b) (body b) (responses b) b)
    end.

(** [strconv.ParseUint(s, 10, 64)] *)
Definition ParseUint (s : string) : option Z :=
  match bytes s with
  | [] => None
  | l => match digitsOf l 0 with Some n => if (n <? 2 ^ 64)%Z then Some n else None | None => None end
  end.

Definition addExpectation (line : Z) (raw : bytestr) (b : builder) : list string * builder :=
  let '(o, err) := ParseOptions "expect" raw in
  let e := errorsOf err ++ checkMockOptions "expect" o ["calls"] in
  if bool_decide (is_Some (expectation b)) then (e ++ ["@expect is already defined for this mock"], b)
  else
    let calls := Get o "calls" in
    if bool_decide (calls = "") then (e ++ ["@expect calls is required"], b)
    else match ParseUint calls with
         | None => (e ++ ["@expect calls must be a non-negative integer"], b)
         | Some n => (e, set_matches (matches b) (Some (n, line)) b)
         end.

Definition addMatch_ (raw : bytestr) (b : builder) : list string * builder :=
  let '(o, err) := ParseOptions "match" raw in
  let '(e, m) := addMatch o (matches b) in
  (errorsOf err ++ checkMockOptions "match" o ["query"; "headers"; "json"; "json-rules"] ++ e, set_matches m (expectation b) b).

(** [declare]: a directive before the first response. *)
Definition declare (call : Call) (line : Z) (b : builder) : list string * builder :=
  let first := bool_decide (responses b = []) in
  if bool_decide (cName call = "match") && first then addMatch_ (cArgs call) b
  else if bool_decide (cName call = "expect") && first then addExpectation line (cArgs call) b
  else if bool_decide (cName call = "match") || bool_decide (cName call = "expect")
  then ([Tag (cName call) +:+ " must be declared before the first sequence response"], b)
  else (["directive " +:+ Tag (Spelling call) +:+ " is not valid before a mock response"], b).

(** What [parsePreamble] does with a line that is neither blank nor a comment. *)
Definition statusLine (text : bytestr) (b : builder) : list string * builder :=
  match parseMockStatusLine text with
  | None => (["expected an HTTP response status line in @mock block"], b)
  | Some (inl e) => ([e], b)
  | Some (inr st) => ([], set_response st (headers b) (inBody b) (body b) (responses b) b)
  end.

(** [flushMock]: errors with their lines, and the mock. *)
Definition flushMock (b : builder) : list (Z * string) * Mock :=
  let at_ line es := map (fun e => (line, e)) es in
  let e1 := if (0 <? delimLine b)%Z && negb (started b) then at_ (delimLine b) ["@mock sequence ends with a dangling delimiter"] else [] in
  let '(e2, b) := if started b || bool_decide (responses b = []) then finishResponse (endLine b) b else ([], b) in
  let e3 := if negb (bool_decide (sequence b = "")) && (length (responses b) <? 2)
            then at_ (endLine b) ["@mock sequence must define at least two responses"] else [] in
  (e1 ++ at_ (endLine b) e2 ++ e3,
   mkMock (title b) (name b) (sequence b) (sequenceKey b) (method b) (path b) (latency b) (isDefault b) (matches b) (expectation b)
     (responses b) (disableInterpolation b) (startLine b, endLine b)).
End mocks.
End Mb.
