(* ===== verification/Document.v ===== *)
(** * The parser of request files (src/internal/parser/parser.go, document.go, dispatch.go, continuation.go, comment.go, metadata.go, variables.go, tunnel.go)

    A file is read line by line by a state machine: [St] is the code's
    documentBuilder.  A line is a separator, a comment with a directive, part of a
    script, a variable, a method line, a header or part of a body, depending on
    what is open.  inRequest and request are one option, as the code sets them
    together; a method answers the state it leaves, and whether it took the line.
    Errors and warnings gather in the document. *)
From stdpp Require Import base list strings gmap.
From Stdlib Require Import Ascii ZArith Lia.
From S2P Require Import Prelude GoStd GoPath Names Group Text DotEnv Directive Workflow Catalog WorkflowText Lines Protocols Specs Requests MockText.

Open Scope string_scope.
Open Scope nat_scope.
Open Scope list_scope.

Module Doc.
Import Sp.
Import Ln.

Section document.
Context {unicode : Unicode} {tables : UnicodeTables} {lib : HttpLib} {tunnels : Tunnels} {parsers : MockParsers}
  (iter : Catalog.Iter).

(** ** The document and the state *)

Record ParseError := mkErr { eLine : Z; Message : string; MockError : bool }.

Record Document := mkDoc {
  Requests : list Rq.Request;
  Workflows : list Wb.workflow;
  Mocks : list Mb.Mock;
  Errors : list ParseError;
  Warnings : list ParseError;
  Variables : list VarDecl;
  Globals : list VarDecl;
  Constants : list Constant;
  Auth : list AuthProfile;
  Uses : list UseSpec;
  SSH : list SSHProfile;
  K8s : list K8sProfile;
  Patches : list PatchProfile;
  Settings : gmap string bytestr
}.
Definition noDoc : Document := mkDoc [] [] [] [] [] [] [] [] [] [] [] [] [] ∅.

Record fileScope := mkFile {
  vars : list VarDecl;
  globals : list VarDecl;
  settings : gmap string bytestr;
  consts : list Constant;
  auth : list AuthProfile;
  ssh : list SSHProfile;
  k8s : list K8sProfile;
  patches : list PatchProfile;
  uses : list UseSpec
}.
Definition noFile : fileScope := mkFile [] [] ∅ [] [] [] [] [] [].

(** A directive with the lines it covers. *)
Record parsedDirective := mkPD { call : Directive.Call; lines : Z * Z }.
Record openDirective := mkOpen { od : parsedDirective; closer : string }.

Record St := mkSt {
  doc : Document;
  request : option Rq.builder;
  mock : option Mb.builder;
  workflow : option Wb.builder;
  open : option openDirective;
  openLines : list bytestr;
  pendingTitle : bytestr;
  file : fileScope;
  inBlock : bool;
  inScriptBlock : bool;
  scriptBlockStartLine : Z
}.
Definition start : St := mkSt noDoc None None None None [] [] noFile false false 0.

Definition inRequest (b : St) : bool := bool_decide (is_Some (request b)).

(** One field changed. *)
Definition set_doc (d : Document) (b : St) : St :=
  mkSt d (request b) (mock b) (workflow b) (open b) (openLines b) (pendingTitle b) (file b) (inBlock b) (inScriptBlock b) (scriptBlockStartLine b).
Definition set_request (r : option Rq.builder) (b : St) : St :=
  mkSt (doc b) r (mock b) (workflow b) (open b) (openLines b) (pendingTitle b) (file b) (inBlock b) (inScriptBlock b) (scriptBlockStartLine b).
Definition set_mock (m : option Mb.builder) (b : St) : St :=
  mkSt (doc b) (request b) m (workflow b) (open b) (openLines b) (pendingTitle b) (file b) (inBlock b) (inScriptBlock b) (scriptBlockStartLine b).
Definition set_workflow (w : option Wb.builder) (b : St) : St :=
  mkSt (doc b) (request b) (mock b) w (open b) (openLines b) (pendingTitle b) (file b) (inBlock b) (inScriptBlock b) (scriptBlockStartLine b).
Definition set_open (o : option openDirective) (ls : list bytestr) (b : St) : St :=
  mkSt (doc b) (request b) (mock b) (workflow b) o ls (pendingTitle b) (file b) (inBlock b) (inScriptBlock b) (scriptBlockStartLine b).
Definition set_title (t : bytestr) (b : St) : St :=
  mkSt (doc b) (request b) (mock b) (workflow b) (open b) (openLines b) t (file b) (inBlock b) (inScriptBlock b) (scriptBlockStartLine b).
Definition set_file (f : fileScope) (b : St) : St :=
  mkSt (doc b) (request b) (mock b) (workflow b) (open b) (openLines b) (pendingTitle b) f (inBlock b) (inScriptBlock b) (scriptBlockStartLine b).
Definition set_inBlock (i : bool) (b : St) : St :=
  mkSt (doc b) (request b) (mock b) (workflow b) (open b) (openLines b) (pendingTitle b) (file b) i (inScriptBlock b) (scriptBlockStartLine b).
Definition set_scriptBlock (i : bool) (n : Z) (b : St) : St :=
  mkSt (doc b) (request b) (mock b) (workflow b) (open b) (openLines b) (pendingTitle b) (file b) (inBlock b) i n.

(** Parts of the document appended to *)
Definition addTo (rs : list Rq.Request) (ws : list Wb.workflow) (ms : list Mb.Mock) (es wns : list ParseError) (b : St) : St :=
  let d := doc b in
  set_doc (mkDoc (Requests d ++ rs) (Workflows d ++ ws) (Mocks d ++ ms) (Errors d ++ es) (Warnings d ++ wns) (Variables d) (Globals d)
    (Constants d) (Auth d) (Uses d) (SSH d) (K8s d) (Patches d) (Settings d)) b.

Definition addError (line : Z) (message : string) (b : St) : St :=
  let m := TrimSpace message in
  if bool_decide (m = "") then b else addTo [] [] [] [mkErr line m false] [] b.
Definition addWarning (line : Z) (message : string) (b : St) : St :=
  let m := TrimSpace message in
  if bool_decide (m = "") then b else addTo [] [] [] [] [mkErr line m false] b.
Definition addMockError (line : Z) (message : string) (b : St) : St := addTo [] [] [] [mkErr line message true] [] b.
Definition addMockErrors (line : Z) (messages : list string) (b : St) : St := foldl (fun b m => addMockError line m b) b messages.

(** Errors of options that are unknown are warnings. *)
Definition isUnknown (e : Directive.optError) : bool :=
  match e with Directive.UnknownOptionsError _ _ => true | _ => false end.
Definition report (line : Z) (err : perr) (b : St) : St :=
  foldl (fun b e => if isUnknown e then addWarning line (Directive.optError_Error e) b
                    else addError line (Directive.optError_Error e) b) b err.
Definition fatalErr (err : perr) : bool := existsb (fun e => negb (isUnknown e)) err.

(** The text of an error, joined ones on lines of their own. *)
Definition errText (err : perr) : string := Directive.join (str [LF]) (map Directive.optError_Error err).
Definition itemOf (i : Wb.item) : Directive.optError := match i with Wb.Msg s => Directive.OtherError s | Wb.Opt e => e end.
Definition wbErr (e : Wb.err) : perr := map itemOf e.

(** [fileScope.flushSettings] and [fileScope.apply] *)
Definition set_fileSettings (s : gmap string bytestr) (b : St) : St :=
  let f := file b in
  set_file (mkFile (vars f) (globals f) s (consts f) (auth f) (ssh f) (k8s f) (patches f) (uses f)) b.
Definition flushSettings (b : St) : St :=
  let d := doc b in
  let s := settings (file b) in
  if bool_decide (s = ∅) then b
  else set_fileSettings ∅ (set_doc (mkDoc (Requests d) (Workflows d) (Mocks d) (Errors d) (Warnings d) (Variables d) (Globals d)
         (Constants d) (Auth d) (Uses d) (SSH d) (K8s d) (Patches d) (s ∪ Settings d)) b).
Definition apply (b : St) : St :=
  let d := doc b in
  let f := file b in
  set_doc (mkDoc (Requests d) (Workflows d) (Mocks d) (Errors d) (Warnings d) (Variables d ++ vars f) (Globals d ++ globals f)
    (Constants d ++ consts f) (Auth d ++ auth f) (Uses d ++ uses f) (SSH d ++ ssh f) (K8s d ++ k8s f) (Patches d ++ patches f) (Settings d)) b.

(** *** Requests, workflows and mocks begin and end *)

Definition on_request (f : Rq.builder -> Rq.builder) (b : St) : St :=
  match request b with Some r => set_request (Some (f r)) b | None => b end.

Definition flushWorkflow (line : Z) (b : St) : St :=
  match workflow b with
  | None => b
  | Some w =>
      let '(e1, w1) := Wb.flushFlow line w in
      let b := if bool_decide (e1 = []) then b else addError line (errText (wbErr e1)) b in
      let e2 := Wb.requireNoPending w1 in
      let b := if bool_decide (e2 = []) then b else addError line (errText (wbErr e2)) b in
      let scene := Wb.build line w1 in
      set_workflow None (if bool_decide (Wb.wSteps scene = []) then b else addTo [] [scene] [] [] [] b)
  end.

Definition ensureRequest (line : Z) (b : St) : St :=
  if inRequest b then b
  else set_request (Some (Rq.newRequest line)) (flushWorkflow (line - 1) b).

Definition appendLine (raw : bytestr) (b : St) : St :=
  match request b with
  | Some r => set_request (Some (Rq.addLines [raw] r)) b
  | None => match open b with Some o => set_open (Some o) (openLines b ++ [raw]) b | None => b end
  end.

Definition endScriptBlock (b : St) : St :=
  if negb (inScriptBlock b) then b else on_request Rq.flushPendingScript (set_scriptBlock false 0 b).

Definition lintRequestCaptures (req : Rq.Request) (b : St) : St :=
  foldl (fun b c =>
    let name := GoStd.quote (str (capName c)) in
    let b := if Capture.HasJSONPathDoubleDot (capExpr c)
             then addWarning (capLine c) ("@capture " +:+ name +:+ " expression " +:+ GoStd.quote (str (capExpr c)) +:+
                    " has double dot after json (use response.json.<field>)") b else b in
    match capMode c with
    | ModeTemplate =>
        if Capture.MixedTemplateRTSCall (capExpr c)
        then addWarning (capLine c) ("@capture " +:+ name +:+ " mixes template markers with RTS call syntax; use pure RTS or {{= ... }}") b else b
    | ModeRTS => b
    end) b (Rq.Captures (Rq.rMetadata req)).

Definition flushRequest (b : St) : St :=
  if negb (inRequest b) then b
  else
    let b := if inScriptBlock b then addError (scriptBlockStartLine b) "script block missing %}" b else b in
    let b := on_request Rq.flushPendingScript (endScriptBlock b) in
    match request b with
    | None => b
    | Some r =>
        let req := Rq.build r in
        let b := lintRequestCaptures req b in
        let b := if negb (bool_decide (Rq.Method req = [])) && negb (bool_decide (Rq.URL req = [])) then addTo [req] [] [] [] [] b else b in
        set_inBlock false (set_request None b)
    end.

Definition flushMock (b : St) : St :=
  match mock b with
  | None => b
  | Some m =>
      let '(errs, mk) := Mb.flushMock m in
      let b := foldl (fun b e => addMockError e.1 e.2 b) b errs in
      set_mock None (addTo [] [] [mk] [] [] b)
  end.

Definition handleSeparator (ln : line) (b : St) : bool * St :=
  if negb (isSeparator ln) then (false, b)
  else
    let b := flushMock b in
    let b := match workflow b with Some _ => flushWorkflow (no ln - 1) b | None => b end in
    let b := flushSettings (flushRequest b) in
    (true, set_title (trim (default (text ln) (cut (bytes "###") (text ln)))) b).

(** ** continuation.go *)

Definition closerText (r : rune) : string := str r.
(** [rts.OpenGroup] as text; it always answers (Group.OpenGroup_innermost). *)
Definition openGroup (expr : bytestr) : string :=
  match OpenGroup (str expr) with Some (Some c) => str [c] | _ => "" end.

Definition captureCloser (expr : bytestr) : string :=
  let c := Capture.OpenMarker expr in
  if negb (bool_decide (c = "")) then c
  else if Capture.HasUnquotedTemplateMarker expr then "" else openGroup expr.

Definition argExpr (name : string) (args : bytestr) : bytestr :=
  if bool_decide (name = "assert") then (splitAssert args).1
  else if bool_decide (name = "capture") then (cutCapture args).2
  else if bool_decide (name = "patch") then (cutPatch args).2
  else if bool_decide (name = "apply") then applyExpr args
  else if bool_decide (name = "for-each") then (Wb.cutForEach args).1.1
  else if bool_decide (name ∈ ["if"; "elif"; "case"]) then (Wb.cutBranch args).1
  else args.

Definition openCloser (name : string) (args : bytestr) : string :=
  match Directive.continuationOf name with
  | Directive.ContinueOptions => closerText (Directive.OptionsOpen args)
  | Directive.ContinueExpr => openGroup (argExpr name args)
  | Directive.ContinueCapture => captureCloser (argExpr name args)
  | Directive.ContinueNone => ""
  end.

Definition failOpenDirective (b : St) : St :=
  match open b with
  | None => b
  | Some o =>
      let b := set_open None [] b in
      let err := Directive.Tag (Directive.Spelling (call (od o))) +:+ " is missing a closing " +:+ GoStd.quote (closer o) in
      let line := (lines (od o)).1 in
      match mock b with Some _ => addMockError line err b | None => addError line err b end
  end.

Definition growDirective (n : Z) (col : Z) (t : bytestr) (o : openDirective) (b : St) : option parsedDirective * St :=
  let c := call (od o) in
  let padding := Z.to_nat (Z.max (col - 1) 0) in
  let padding := if padding =? 0 then
                   match Directive.continuationOf (Directive.cName c) with
                   | Directive.ContinueExpr | Directive.ContinueCapture => 1
                   | _ => padding
                   end
                 else padding in
  let args := Directive.cArgs c ++ [LF] ++ repeat " "%char padding ++ t in
  let d := mkPD (Directive.mkCall (Directive.cName c) (Directive.Spelling c) args (Directive.ArgOffset c)) ((lines (od o)).1, n) in
  let cl := openCloser (Directive.cName c) args in
  if negb (bool_decide (cl = "")) then (None, set_open (Some (mkOpen d cl)) (openLines b) b)
  else (Some d, set_open None (openLines b) b).

(** The directive that is complete with this text, if any. *)
Definition readDirective (n : Z) (col : Z) (t : bytestr) (b : St) : option parsedDirective * St :=
  let parsed := Directive.Parse t in
  let fresh b :=
    match parsed with
    | None => (None, b)
    | Some c =>
        let d := mkPD c (n, n) in
        let cl := openCloser (Directive.cName c) (Directive.cArgs c) in
        if negb (bool_decide (cl = "")) then (None, set_open (Some (mkOpen d cl)) (openLines b) b) else (Some d, b)
    end in
  match open b with
  | None => fresh b
  | Some o =>
      if match parsed with Some c => negb (Directive.Known (Directive.cName c)) | None => true end then growDirective n col t o b
      else fresh (failOpenDirective b)
  end.

Definition closeOpenDirective (ln : line) (b : St) : St :=
  match open b with
  | None => b
  | Some _ => if inBlock b || (negb (isSeparator ln) && isComment ln) then b else failOpenDirective b
  end.

Definition flushOpenLines (b : St) : St :=
  let held := openLines b in
  on_request (Rq.addLines held) (set_open (open b) [] b).

(** ** Directives *)

Inductive outcome := Ignored | Applied | Rejected.

Definition name_ (d : parsedDirective) : string := Directive.cName (call d).
Definition args_ (d : parsedDirective) : bytestr := Directive.cArgs (call d).
Definition start_ (d : parsedDirective) : Z := (lines d).1.

Definition reject (d : parsedDirective) (message : string) (b : St) : outcome * St := (Rejected, addError (start_ d) message b).

(** *** Variables, constants, modules, patches, settings: the file or the request *)

Definition checkEnvRef (line : Z) (value : bytestr) (b : St) : St :=
  if bool_decide (Catalog.EnvRefKey (str value) = Some "") then addError line "env: reference is missing a variable name" b else b.

Definition add_file (f : fileScope -> fileScope) (b : St) : St := set_file (f (file b)) b.

Definition addScopedVariable (name value : bytestr) (line : Z) (scope : Directive.Scope) (secret : bool) (b : St) : St :=
  if bool_decide (name = []) then b
  else
    let b := checkEnvRef line value b in
    let v := mkVar name value line scope secret in
    match scope with
    | Directive.ScopeGlobal =>
        add_file (fun f => mkFile (vars f) (globals f ++ [v]) (settings f) (consts f) (auth f) (ssh f) (k8s f) (patches f) (uses f)) b
    | Directive.ScopeFile =>
        add_file (fun f => mkFile (vars f ++ [v]) (globals f) (settings f) (consts f) (auth f) (ssh f) (k8s f) (patches f) (uses f)) b
    | Directive.ScopeRequest => on_request (Rq.addVariable v) (ensureRequest line b)
    end.

Definition handleScopedVariableDirective (d : parsedDirective) (b : St) : outcome * St :=
  let '(token, args) := if bool_decide (name_ d = "var") then let '(t, a) := Directive.CutToken (args_ d) in (str t, a)
                        else (name_ d, args_ d) in
  if bool_decide (name_ d = "var") && bool_decide (token = "") then (Ignored, b)
  else match Directive.ParseSecretScope token with
       | (None, _) => (Ignored, b)
       | (Some scope, secret) =>
           let '(name, value) := Directive.ParseNameValue args in
           (Applied, addScopedVariable name value (start_ d) scope secret b)
       end.

Definition handleConstDirective (d : parsedDirective) (b : St) : outcome * St :=
  if negb (bool_decide (name_ d = "const")) then (Ignored, b)
  else
    let '(name, value) := Directive.ParseNameValue (args_ d) in
    (Applied, if bool_decide (name = []) then b
              else add_file (fun f => mkFile (vars f) (globals f) (settings f) (consts f ++ [mkConst name value (start_ d)]) (auth f) (ssh f)
                     (k8s f) (patches f) (uses f)) (checkEnvRef (start_ d) value b)).

Definition add_use (u : UseSpec) (m : Rq.Metadata) : Rq.Metadata :=
  Rq.mkMeta (Rq.Name m) (Rq.Description m) (Rq.Tags m) (Rq.NoLog m) (Rq.AllowSensitiveHeaders m) (Rq.Auth m) (Rq.AuthDisabled m)
    (Rq.Scripts m) (Rq.Uses m ++ [u]) (Rq.Applies m) (Rq.When m) (Rq.ForEach m) (Rq.Asserts m) (Rq.Captures m) (Rq.Profile m)
    (Rq.Trace m) (Rq.Compare m).
Definition on_meta (f : Rq.Metadata -> Rq.Metadata) : St -> St := on_request (fun r => Rq.set_metadata (f (Rq.metadata r)) r).

Definition handleUseDirective (d : parsedDirective) (b : St) : outcome * St :=
  if negb (bool_decide (name_ d = "use")) then (Ignored, b)
  else match parseUseSpec (args_ d) (start_ d) with
       | inl e => reject d e b
       | inr spec =>
           (Applied, if inRequest b then on_meta (add_use spec) b
                     else add_file (fun f => mkFile (vars f) (globals f) (settings f) (consts f) (auth f) (ssh f) (k8s f) (patches f)
                            (uses f ++ [spec])) b)
       end.

Definition handlePatchDirective (d : parsedDirective) (b : St) : outcome * St :=
  if negb (bool_decide (name_ d = "patch")) then (Ignored, b)
  else if inRequest b then reject d "@patch must be declared outside a request" b
  else match parsePatchSpec (args_ d) (start_ d) with
       | inl e => reject d e b
       | inr spec => (Applied, add_file (fun f => mkFile (vars f) (globals f) (settings f) (consts f) (auth f) (ssh f) (k8s f)
                        (patches f ++ [spec]) (uses f)) b)
       end.

Definition handleFileSettingsDirective (d : parsedDirective) (b : St) : outcome * St :=
  if inRequest b then (Ignored, b)
  else
    let put r := let '(s, err) := r in (Applied, report (start_ d) err (set_fileSettings s b)) in
    if bool_decide (name_ d = "setting") then put (putSetting (settings (file b)) (args_ d))
    else if bool_decide (name_ d = "settings") then put (applySettingsTokens (settings (file b)) (args_ d) "settings")
    else (Ignored, b).

(** *** Authentication and tunnels *)

Definition set_auth (a : option AuthSpec) (disabled : bool) (m : Rq.Metadata) : Rq.Metadata :=
  Rq.mkMeta (Rq.Name m) (Rq.Description m) (Rq.Tags m) (Rq.NoLog m) (Rq.AllowSensitiveHeaders m) a disabled
    (Rq.Scripts m) (Rq.Uses m) (Rq.Applies m) (Rq.When m) (Rq.ForEach m) (Rq.Asserts m) (Rq.Captures m) (Rq.Profile m)
    (Rq.Trace m) (Rq.Compare m).

Definition handleAuthDirective (d : parsedDirective) (b : St) : outcome * St :=
  if negb (bool_decide (name_ d = "auth")) then (Ignored, b)
  else match parseAuthDirective (args_ d) with
       | inl e => reject d (errText e) b
       | inr (Directive.ScopeRequest, spec) =>
           let b := ensureRequest (start_ d) b in
           (Applied, match spec with
                     | None => on_meta (set_auth None true) b
                     | Some (ty, params) => on_meta (set_auth (Some (mkAuth ty params (start_ d))) false) b
                     end)
       | inr (scope, spec) =>
           if inRequest b then reject d ("@auth " +:+ Directive.Scope_String scope +:+ " scope must be declared outside a request") b
           else (Applied, match spec with
                          | None => b
                          | Some (ty, params) =>
                              add_file (fun f => mkFile (vars f) (globals f) (settings f) (consts f)
                                (auth f ++ [mkAuthProfile scope (mkAuth ty params (start_ d)) (start_ d)]) (ssh f) (k8s f) (patches f) (uses f)) b
                          end)
       end.

Definition hasSSH (b : St) : bool := match request b with Some r => bool_decide (is_Some (Rq.ssh r)) | None => false end.
Definition hasK8s (b : St) : bool := match request b with Some r => bool_decide (is_Some (Rq.k8s r)) | None => false end.

Definition handleSSHDirective (d : parsedDirective) (b : St) : outcome * St :=
  if negb (bool_decide (name_ d = "ssh")) then (Ignored, b)
  else
    let '(res, err) := ParseSSH (args_ d) in
    let b := report (start_ d) err b in
    if fatalErr err then (Rejected, b)
    else match tScope res with
         | Directive.ScopeRequest =>
             let b := ensureRequest (start_ d) b in
             if hasK8s b then (Rejected, addError (start_ d) "@ssh cannot be combined with @k8s on the same request" b)
             else if hasSSH b then (Rejected, addError (start_ d) "@ssh already defined for this request" b)
             else
               let b := if tPersistIgnored res then addWarning (start_ d) "@ssh request scope ignores persist" b else b in
               (Applied, on_request (fun r => Rq.set_tunnels (tSpec res) (Rq.k8s r) r) b)
         | scope => (Applied, add_file (fun f => mkFile (vars f) (globals f) (settings f) (consts f) (auth f)
                       (ssh f ++ [SSHAt scope (tProfile res)]) (k8s f) (patches f) (uses f)) b)
         end.

Definition add_k8s (p : K8sProfile) : St -> St :=
  add_file (fun f => mkFile (vars f) (globals f) (settings f) (consts f) (auth f) (ssh f) (k8s f ++ [p]) (patches f) (uses f)).

Definition addInvalidK8sProfile (line : Z) (prof : Directive.Scope * K8sProfile) (message : string) (b : St) : St :=
  match prof.1 with
  | Directive.ScopeRequest => b
  | _ => add_k8s (K8sInvalid line message prof.2) b
  end.

Definition handleK8sDirective (d : parsedDirective) (b : St) : outcome * St :=
  if negb (bool_decide (name_ d = "k8s")) then (Ignored, b)
  else
    let '(res, err, invalid) := ParseK8s (args_ d) in
    let b := report (start_ d) err b in
    if fatalErr err then
      (Rejected, match invalid with Some prof => addInvalidK8sProfile (start_ d) prof (errText err) b | None => b end)
    else match tScope res with
         | Directive.ScopeRequest =>
             let b := ensureRequest (start_ d) b in
             if hasSSH b then (Rejected, addError (start_ d) "@k8s cannot be combined with @ssh on the same request" b)
             else if hasK8s b then (Rejected, addError (start_ d) "@k8s already defined for this request" b)
             else
               let b := if tPersistIgnored res then addWarning (start_ d) "@k8s request scope ignores persist" b else b in
               (Applied, on_request (fun r => Rq.set_tunnels (Rq.ssh r) (tSpec res) r) b)
         | scope => (Applied, add_k8s (K8sAt scope (start_ d) (tProfile res)) b)
         end.

(** *** Workflows and mocks *)

Definition startWorkflow (line : Z) (rest : bytestr) (b : St) : St :=
  let b := if inRequest b then flushRequest b else b in
  match Wb.startWorkflow line rest with
  | None => b
  | Some (err, w) => set_workflow (Some w) (report line (wbErr err) (flushWorkflow (line - 1) b))
  end.

Definition handleWorkflowStart (d : parsedDirective) (b : St) : outcome * St :=
  if bool_decide (name_ d = "workflow") then (Applied, startWorkflow (start_ d) (args_ d) b)
  else if bool_decide (name_ d = "step") then
    match workflow b with
    | None => (Ignored, b)
    | Some w =>
        match Wb.addStep iter (start_ d) (args_ d) w with
        | ([], w) => (Applied, set_workflow (Some w) b)
        | (err, w) => reject d (errText (wbErr err)) (set_workflow (Some w) b)
        end
    end
  else (Ignored, b).

Definition handleWorkflowDirective (d : parsedDirective) (b : St) : outcome * St :=
  match workflow b with
  | None => (Ignored, b)
  | Some w =>
      if inRequest b then (Ignored, b)
      else match Wb.handleDirective (call d) (start_ d) w with
           | None => (Ignored, b)
           | Some (err, w) =>
               let b := set_workflow (Some (Wb.touch (lines d).2 w)) b in
               if bool_decide (err = []) then (Applied, b) else reject d (errText (wbErr err)) b
           end
  end.

Definition startMock (line : Z) (raw : bytestr) (b : St) : St :=
  let '(errs, m) := Mb.startMock line raw (pendingTitle b) in
  set_mock (Some m) (addMockErrors line errs (set_title [] b)).

Definition handleMockDirective (d : parsedDirective) (b : St) : outcome * St :=
  if bool_decide (name_ d = "mock") then
    if inRequest b then (Rejected, addMockError (start_ d) "@mock must start a new block after a ### separator" b)
    else match workflow b with
         | Some _ => (Rejected, addMockError (start_ d) "@mock cannot be declared inside a workflow" b)
         | None => (Applied, startMock (start_ d) (args_ d) b)
         end
  else if bool_decide (name_ d ∈ ["match"; "expect"])
       then (Rejected, addMockError (start_ d) (Directive.Tag (name_ d) +:+ " must follow an @mock directive") b)
  else (Ignored, b).

(** *** Directives of a request *)

(** One field of the metadata changed; [None] leaves it. *)
Definition edit (nm : option bytestr) (desc : option string) (tags : option (list string)) (log sens : option bool) (m : Rq.Metadata) : Rq.Metadata :=
  Rq.mkMeta (default (Rq.Name m) nm) (default (Rq.Description m) desc) (default (Rq.Tags m) tags) (default (Rq.NoLog m) log)
    (default (Rq.AllowSensitiveHeaders m) sens) (Rq.Auth m) (Rq.AuthDisabled m) (Rq.Scripts m) (Rq.Uses m) (Rq.Applies m) (Rq.When m)
    (Rq.ForEach m) (Rq.Asserts m) (Rq.Captures m) (Rq.Profile m) (Rq.Trace m) (Rq.Compare m).
Definition addSpecs (ap : list ApplySpec) (cs : list CaptureSpec) (asr : list AssertSpec) (m : Rq.Metadata) : Rq.Metadata :=
  Rq.mkMeta (Rq.Name m) (Rq.Description m) (Rq.Tags m) (Rq.NoLog m) (Rq.AllowSensitiveHeaders m) (Rq.Auth m) (Rq.AuthDisabled m)
    (Rq.Scripts m) (Rq.Uses m) (Rq.Applies m ++ ap) (Rq.When m) (Rq.ForEach m) (Rq.Asserts m ++ asr) (Rq.Captures m ++ cs)
    (Rq.Profile m) (Rq.Trace m) (Rq.Compare m).
Definition set_flow (w : option Wf.ConditionSpec) (e : option Wf.ForEachSpec) (p : option Compare.Pro.ProfileSpec) (t : option TraceSpec)
    (c : option Compare.Cmp.CompareSpec) (m : Rq.Metadata) : Rq.Metadata :=
  let or {A} (x y : option A) := match x with Some _ => x | None => y end in
  Rq.mkMeta (Rq.Name m) (Rq.Description m) (Rq.Tags m) (Rq.NoLog m) (Rq.AllowSensitiveHeaders m) (Rq.Auth m) (Rq.AuthDisabled m)
    (Rq.Scripts m) (Rq.Uses m) (Rq.Applies m) (or w (Rq.When m)) (or e (Rq.ForEach m)) (Rq.Asserts m) (Rq.Captures m)
    (or p (Rq.Profile m)) (or t (Rq.Trace m)) (or c (Rq.Compare m)).

Definition on_settings (f : gmap string bytestr -> gmap string bytestr * perr) (line : Z) (b : St) : St :=
  match request b with
  | None => b
  | Some r => let '(s, err) := f (Rq.settings r) in report line err (set_request (Some (Rq.set_settings s r)) b)
  end.

Definition addRequestTags (rest : bytestr) (m : Rq.Metadata) : Rq.Metadata :=
  let tags := match fields rest with [] => splitAt ","%char rest | fs => fs end in
  edit None None (Some (Wb.appendTagsFold (Rq.Tags m) tags)) None None m.

Definition addRequestVar (line : Z) (rest : bytestr) (b : St) : St :=
  let '(name, value) := Directive.ParseNameValue rest in
  if bool_decide (name = []) then b
  else on_request (Rq.addVariable (mkVar name value line Directive.ScopeRequest false)) (checkEnvRef line value b).

Definition run_script (f : Rq.builder -> perr * Rq.builder) (b : St) : perr * St :=
  match request b with
  | None => ([], b)
  | Some r => let '(err, r) := f r in (err, set_request (Some r) b)
  end.

Definition msgErr (e : Wb.err) : string := errText (wbErr e).

Definition handleRequestMetadataDirective (d : parsedDirective) (b : St) : outcome * St :=
  let rest := args_ d in
  let line := start_ d in
  let name := name_ d in
  let meta f := (Applied, on_meta f b) in
  if bool_decide (name = "name") then meta (edit (Some (Directive.Value rest)) None None None None)
  else if bool_decide (name = "description") then
    meta (fun m => edit None (Some (Wb.appendDesc (Rq.Description m) (str rest))) None None None m)
  else if bool_decide (name = "tag") then meta (addRequestTags rest)
  else if bool_decide (name = "no-log") then meta (edit None None None (Some true) None)
  else if bool_decide (name = "log-sensitive-headers") then
    match Directive.ParseSwitch (str rest) with
    | None => reject d (Directive.Tag (Directive.Spelling (call d)) +:+ " must be true or false") b
    | Some allow => meta (edit None None None None (Some allow))
    end
  else if bool_decide (name = "settings") then (Applied, on_settings (fun s => applySettingsTokens s rest "settings") line b)
  else if bool_decide (name = "setting") then (Applied, on_settings (fun s => putSetting s rest) line b)
  else if bool_decide (name = "timeout") then
    (Applied, on_request (fun r => Rq.set_settings (<["timeout" := rest]> (Rq.settings r)) r) b)
  else if bool_decide (name = "var") then (Applied, addRequestVar line rest b)
  else if bool_decide (name = "script") then
    if bool_decide (rest = []) then
      (Applied, on_request (fun r => Rq.set_current (Rq.currentScriptKind r) (Rq.currentScriptLang r) false r) b)
    else let '(err, b) := run_script (Rq.setScript rest) b in
         if bool_decide (err = []) then (Applied, b) else (Rejected, report line err b)
  else if bool_decide (name = "rts") then
    let '(err, b) := run_script (Rq.setRTSScript rest) b in
    if bool_decide (err = []) then (Applied, b) else reject d (errText err) b
  else if bool_decide (name = "apply") then
    match parseApplySpec rest line with inl e => reject d e b | inr s => meta (addSpecs [s] [] []) end
  else if bool_decide (name = "capture") then
    match parseCaptureDirective rest line with
    | inl w => (Rejected, addWarning line w b)
    | inr s => meta (addSpecs [] [s] [])
    end
  else if bool_decide (name = "assert") then
    match parseAssertDirective rest line with
    | None => reject d "@assert expression missing" b
    | Some s => meta (addSpecs [] [] [s])
    end
  else if bool_decide (name = "when") then
    match Wb.parseConditionSpec rest line (bool_decide (Directive.Spelling (call d) = "skip-if")) with
    | inl e => reject d (msgErr e) b
    | inr s => meta (set_flow (Some s) None None None None)
    end
  else if bool_decide (name = "for-each") then
    match Wb.parseForEachSpec rest line with
    | inl e => reject d (msgErr e) b
    | inr s => meta (set_flow None (Some s) None None None)
    end
  else if bool_decide (name = "profile") then
    match parseProfileSpec rest with
    | inl e => (Rejected, report line e b)
    | inr s => meta (set_flow None None (Some s) None None)
    end
  else if bool_decide (name = "trace") then
    match parseTraceSpec rest with
    | inl e => (Rejected, report line e b)
    | inr s => meta (set_flow None None None (Some s) None)
    end
  else if bool_decide (name = "compare") then
    match parseCompareDirective rest with
    | inl e => reject d (errText e) b
    | inr s => meta (set_flow None None None None (Some s))
    end
  else (Ignored, b).

Definition applyRequestDirective (d : parsedDirective) (b : St) : outcome * St :=
  match request b with
  | None => (Ignored, b)
  | Some r =>
      match Rq.protoDirective (name_ d) (args_ d) r with
      | Some (err, r) =>
          let b := report (start_ d) err (set_request (Some r) b) in
          (if fatalErr err then Rejected else Applied, b)
      | None =>
          match (if bool_decide (name_ d = "body") then Rq.handleBodyDirective (args_ d) r else None) with
          | Some r => (Applied, set_request (Some r) b)
          | None => handleRequestMetadataDirective d b
          end
      end
  end.

(** The probe is a state of its own with a new request. *)
Definition handleRequestDirective (d : parsedDirective) (b : St) : outcome * St :=
  if inRequest b then applyRequestDirective d b
  else
    let '(out, probe) := applyRequestDirective d (ensureRequest (start_ d) start) in
    match out with
    | Ignored => (out, b)
    | _ =>
        let b := set_request (request probe) (flushWorkflow (start_ d - 1) b) in
        (out, addTo [] [] [] (Errors (doc probe)) (Warnings (doc probe)) b)
    end.

(** ** dispatch.go *)

Definition directiveHandlers : list (parsedDirective -> St -> outcome * St) :=
  [handleMockDirective; handleWorkflowStart; handleUseDirective; handleWorkflowDirective; handleScopedVariableDirective;
   handleConstDirective; handleAuthDirective; handleSSHDirective; handleK8sDirective; handlePatchDirective;
   handleFileSettingsDirective; handleRequestDirective].

Fixpoint claim (hs : list (parsedDirective -> St -> outcome * St)) (d : parsedDirective) (b : St) : outcome * St :=
  match hs with
  | [] => (Ignored, b)
  | h :: hs' => match h d b with (Ignored, b) => claim hs' d b | r => r end
  end.
Definition claimDirective : parsedDirective -> St -> outcome * St := claim directiveHandlers.

Definition ignoredDirectiveWarning (c : Directive.Call) : string :=
  let tag := Directive.Tag (Directive.Spelling c) in
  if Directive.Known (Directive.cName c) then tag +:+ " is not valid in the current context and was ignored"
  else tag +:+ " is not a known Resterm directive and was ignored".

Definition routeDirective (d : parsedDirective) (b : St) : outcome * St :=
  if negb (Directive.Known (name_ d)) then (Ignored, addWarning (start_ d) (ignoredDirectiveWarning (call d)) b)
  else match claimDirective d b with
       | (Ignored, b) => (Ignored, addWarning (start_ d) (ignoredDirectiveWarning (call d)) b)
       | (Applied, b) =>
           if Directive.ValueRequired (name_ d) && negb (Directive.HasValue (args_ d))
           then (Rejected, addError (start_ d) (Directive.Tag (Directive.Spelling (call d)) +:+ " value missing") b) else (Applied, b)
       | r => r
       end.

Definition redeclared (d : parsedDirective) (b : St) : bool * St :=
  match request b with
  | Some r => if bool_decide (name_ d ∈ Rq.declared r)
              then (true, addError (start_ d) (Directive.Tag (name_ d) +:+ " directive already defined for this request") b) else (false, b)
  | None => (false, b)
  end.

Definition markDeclared (d : parsedDirective) (b : St) : St :=
  if Directive.DeclaredOnce (name_ d) then on_request (fun r => Rq.set_declared ({[name_ d]} ∪ Rq.declared r) r) b else b.

(** ** comment.go *)

Definition handleComment (n baseCol : Z) (t : bytestr) (b : St) : St :=
  match readDirective n baseCol t b with
  | (None, b) => b
  | (Some d, b) =>
      let b := match redeclared d b with
               | (true, b) => b
               | (false, b) => match routeDirective d b with (Applied, b) => markDeclared d b | (_, b) => b end
               end in
      flushOpenLines b
  end.

Definition handleBlockComment (ln : line) (b : St) : bool * St :=
  let take content b := if bool_decide (content = []) then b else handleComment (no ln) 0 content b in
  if inBlock b then
    let '(content, cl) := parseBlockCommentLine (text ln) in
    let b := appendLine (raw ln) (take content b) in
    (true, if cl then set_inBlock false b else b)
  else if isBlockCommentStart ln then
    let '(content, cl) := cutBlockCommentStart (text ln) in
    let b := appendLine (raw ln) (take content b) in
    (true, if negb cl then set_inBlock true b else b)
  else (false, b).

Definition handleCommentLine (ln : line) (b : St) : bool * St :=
  match comment ln with
  | None => (false, b)
  | Some (t, col) => (true, appendLine (raw ln) (handleComment (no ln) col t b))
  end.

(** ** script.go *)

Definition flushScriptIfNeeded (ln : line) (b : St) : St :=
  if hasScriptMarker ln then b else on_request Rq.flushPendingScript b.

Definition addScriptLine (n : Z) (col : nat) (body : bytestr) (b : St) : St :=
  on_request (fun r => Rq.appendScriptLine (Rq.currentScriptKind r) (Rq.currentScriptLang r) body (mkSL n col) r) (ensureRequest n b).

Definition handleScriptLine (ln : line) (b : St) : bool * St :=
  if negb (hasScriptMarker ln) then (false, b)
  else
    let b := match cutScriptMarker ln with
             | None => b
             | Some (body, col) =>
                 let b := ensureRequest (no ln) b in
                 match scriptInc body with
                 | Some p => on_request (fun r => Rq.appendScriptInclude (Rq.currentScriptKind r) (Rq.currentScriptLang r) p r) b
                 | None => addScriptLine (no ln) col body b
                 end
             end in
    (true, appendLine (raw ln) b).

Definition handleScriptBlockStart (ln : line) (b : St) : bool * St :=
  if negb (isScriptBlockStart ln) then (false, b)
  else (true, appendLine (raw ln) (set_scriptBlock true (no ln) (ensureRequest (no ln) b))).

Definition handleScriptBlockLine (ln : line) (b : St) : St :=
  if isScriptBlockEnd ln then endScriptBlock (appendLine (raw ln) b)
  else match handleSeparator ln b with
       | (true, b) => b
       | (false, b) =>
           let '(body, col) := match cutScriptMarker ln with Some x => x | None => (trimRightSpace (raw ln), 1) end in
           appendLine (raw ln) (addScriptLine (no ln) col body b)
       end.

(** ** variables.go *)

(** [variableLineRe] on a trimmed text: the scope, the name and the value. *)
Definition nameChar (c : Ascii.ascii) : bool := Directive.IsKeyRune c.
Fixpoint spanName (l : bytestr) : bytestr * bytestr :=
  match l with
  | c :: l' => if nameChar c then let '(a, b) := spanName l' in (c :: a, b) else ([], l)
  | [] => ([], [])
  end.
Definition nameValue (l : bytestr) : option (bytestr * bytestr) :=
  let '(name, rest) := spanName l in
  if bool_decide (name = []) then None
  else
    let spaced := match rest with
                  | c :: _ => if Capture.isReSpace c
                              then match Capture.dropReSpace rest with [] => None | v => Some (name, v) end else None
                  | [] => None
                  end in
    match Capture.dropReSpace rest with
    | c :: tail =>
        if bool_decide (c = ":"%char \/ c = EQ) then
          match Capture.dropReSpace tail with [] => spaced | v => Some (name, v) end
        else spaced
    | [] => None
    end.
Definition scopedName (keyword : string) (l : bytestr) : option (bytestr * bytestr) :=
  match cut (bytes keyword) l with
  | Some ((c :: _) as rest) => if Capture.isReSpace c then nameValue (Capture.dropReSpace rest) else None
  | _ => None
  end.
Fixpoint firstScoped (keywords : list string) (l : bytestr) : option (string * (bytestr * bytestr)) :=
  match keywords with
  | [] => None
  | k :: ks => match scopedName k l with Some nv => Some (k, nv) | None => firstScoped ks l end
  end.
Definition matchVariableLine (t : bytestr) : option (string * bytestr * bytestr) :=
  match cut (bytes "@") t with
  | None => None
  | Some l =>
      match firstScoped ["global-secret"; "global"; "file-secret"; "file"; "request-secret"; "request"] l with
      | Some (k, (n, v)) => Some (k, n, v)
      | None => match nameValue l with Some (n, v) => Some ("", n, v) | None => None end
      end
  end.

Definition handleVariableLine (ln : line) (b : St) : bool * St :=
  match matchVariableLine (text ln) with
  | None => (false, b)
  | Some (token, name, v) =>
      let '(scope, secret) := match Directive.ParseSecretScope token with
                              | (Some s, secret) => (s, secret)
                              | (None, secret) => (if inRequest b then Directive.ScopeRequest else Directive.ScopeFile, secret)
                              end in
      (true, appendLine (raw ln) (addScopedVariable name (trim v) (no ln) scope secret b))
  end.

(** ** body.go: the lines of a request *)

Definition on_http (f : Http.Builder -> Http.Builder) : St -> St := on_request (fun r => Rq.set_http (f (Rq.http r)) r).

(** [protoBodyLine] of the request *)
Definition protoLine (raw : bytestr) (b : St) : bool * St :=
  match request b with
  | None => (false, b)
  | Some r => let '(took, r) := Rq.protoBodyLine raw r in (took, set_request (Some r) b)
  end.

Definition handleMultipartBodyLine (ln : line) (b : St) : bool * St :=
  match request b with
  | Some r =>
      match Rq.multipart r with
      | Some s =>
          if bool_decide (text ln = []) then (false, b)
          else
            let '(took, s) := Rq.bodyLine (text ln) s in
            let b := set_request (Some (Rq.set_body (Rq.bodyOptions r) (Some s) r)) b in
            if took then (true, appendLine (raw ln) (on_http (Http.AppendBodyLine (raw ln)) b)) else (false, b)
      | None => (false, b)
      end
  | None => (false, b)
  end.

Definition handleBlankLine (ln : line) (b : St) : bool * St :=
  if negb (bool_decide (text ln = [])) then (false, b)
  else match request b with
       | None => (true, b)
       | Some r =>
           (true, appendLine (raw ln)
             (if negb (Http.HasMethod (Rq.http r)) then b
              else if negb (Http.headerDone (Rq.http r)) then on_request Rq.markHeadersDone b
              else match protoLine (raw ln) b with
                   | (true, b) => b
                   | (false, b) => on_http (Http.AppendBodyLine []) b
                   end))
       end.

Definition handleBodyContinuation (ln : line) (b : St) : bool * St :=
  match request b with
  | Some r =>
      if Http.HasMethod (Rq.http r) && Http.headerDone (Rq.http r)
      then (true, appendLine (raw ln) (on_request (Rq.handleBodyLine (raw ln)) b)) else (false, b)
  | None => (false, b)
  end.

Definition handleMethodLine (ln : line) (b : St) : bool * St :=
  if GRPC.IsMethodLine (raw ln) then
    match fields (raw ln) with
    | f :: rest =>
        let target := joinWith [" "%char] rest in
        (true, appendLine (raw ln) (on_request (fun r =>
           let r := Rq.set_http (Http.SetMethodAndURL (bytes (ToUpper (str f))) target (Rq.http r)) r in
           Rq.set_protocols (Rq.graphql r) (GRPC.SetTarget target (Rq.grpc r)) (Rq.sse r) (Rq.websocket r) r) (ensureRequest (no ln) b)))
    | [] => (false, b)
    end
  else match Http.ParseMethodLine (raw ln) with
       | Some (method, url, ver) =>
           (true, appendLine (raw ln) (on_request (fun r =>
              Rq.set_settings (Version.SetIfMissing (Rq.settings r) ver) (Rq.set_http (Http.SetMethodAndURL method url (Rq.http r)) r))
              (ensureRequest (no ln) b)))
       | None =>
           match Http.ParseWebSocketURLLine (raw ln) with
           | Some url => (true, appendLine (raw ln) (on_http (Http.SetMethodAndURL (bytes "GET") url) (ensureRequest (no ln) b)))
           | None => (false, b)
           end
       end.

Definition handleHeaderLine (ln : line) (b : St) : bool * St :=
  match request b with
  | None => (false, b)
  | Some r =>
      if negb (Http.HasMethod (Rq.http r)) || Http.headerDone (Rq.http r) then (false, b)
      else
        let b' :=
          match cutAt ":"%char (raw ln) with
          | Some (before, after) =>
              let name := trim before in
              let value := trim after in
              if ValidHeaderFieldName (str name) then on_http (Http.AddHeader name value) b
              else match protoLine (raw ln) b with
                   | (true, b) => on_request Rq.markHeadersDone b
                   | (false, b) =>
                       let b := addError (no ln) ("header name " +:+ GoStd.quote (str name) +:+ " is not an HTTP field name") b in
                       if bool_decide (name = []) then b else on_http (Http.AddHeader name value) b
                   end
          | None => match protoLine (raw ln) b with (true, b) => on_request Rq.markHeadersDone b | (false, b) => b end
          end in
        (true, appendLine (raw ln) b')
  end.

(** metadata.go *)
Definition handleDescriptionLine (ln : line) (b : St) : St :=
  let b := ensureRequest (no ln) b in
  match request b with
  | Some r =>
      if Http.HasMethod (Rq.http r) then b
      else appendLine (raw ln) (on_meta (fun m => edit None (Some (Wb.appendDesc (Rq.Description m) (str (text ln)))) None None None m) b)
  | None => b
  end.

(** ** mock.go: the lines of a block *)

Definition handleMockPreamble (m : Mb.builder) (ln : line) (b : St) : St :=
  if bool_decide (text ln = []) then b
  else match comment ln with
       | Some (t, col) =>
           match readDirective (no ln) col t b with
           | (Some d, b) =>
               let '(errs, m) := Mb.declare (call d) (start_ d) m in set_mock (Some m) (addMockErrors (start_ d) errs b)
           | (None, b) => b
           end
       | None => let '(errs, m) := Mb.statusLine (text ln) m in set_mock (Some m) (addMockErrors (no ln) errs b)
       end.

Definition handleMockBlockLine (m : Mb.builder) (ln : line) (b : St) : St :=
  if isSeparator ln then (handleSeparator ln (set_mock (Some (Mb.trimStructuralBlankLine m)) b)).2
  else
    let m := Mb.set_endLine (no ln) m in
    let put errs m b := set_mock (Some m) (addMockErrors (no ln) errs b) in
    if negb (bool_decide (Mb.sequence m = "")) && Mb.IsMockSequenceDelimiter (text ln) then
      let m := Mb.set_delimLine (no ln) m in
      if negb (Mb.started m) then put ["@mock sequence has an empty response"] m b
      else let '(errs, m) := Mb.finishResponse (no ln) (Mb.trimStructuralBlankLine m) in put errs m b
    else if Mb.inBody m then
      put [] (Mb.set_response (Mb.status m) (Mb.headers m) true (Mb.body m ++ [raw ln]) (Mb.responses m) m) b
    else if bool_decide (Mb.status m = 0%Z) then handleMockPreamble m ln (set_mock (Some m) b)
    else if bool_decide (text ln = []) then
      put [] (Mb.set_response (Mb.status m) (Mb.headers m) true (Mb.body m) (Mb.responses m) m) b
    else let '(errs, m) := Mb.addHeader (raw ln) m in put errs m b.

(** ** parser.go *)

(** The handlers of a line in turn, until one takes it. *)
Fixpoint firstHandler (hs : list (line -> St -> bool * St)) (ln : line) (b : St) : bool * St :=
  match hs with
  | [] => (false, b)
  | h :: hs' => match h ln b with (true, b) => (true, b) | (false, b) => firstHandler hs' ln b end
  end.

Definition lineHandlers : list (line -> St -> bool * St) :=
  [handleSeparator; handleMultipartBodyLine; handleBlockComment; handleCommentLine; handleScriptLine; handleVariableLine;
   handleBlankLine; handleBodyContinuation; handleMethodLine; handleHeaderLine].

Definition processLine (n : Z) (r : bytestr) (b : St) : St :=
  let ln := makeLine n r in
  let b := closeOpenDirective ln b in
  match mock b with
  | Some m => handleMockBlockLine m ln b
  | None =>
      if inBlock b then (handleBlockComment ln b).2
      else if inScriptBlock b then handleScriptBlockLine ln b
      else match handleScriptBlockStart ln b with
           | (true, b) => b
           | (false, b) =>
               match firstHandler lineHandlers ln (flushScriptIfNeeded ln b) with
               | (true, b) => b
               | (false, b) => handleDescriptionLine ln b
               end
           end
  end.

Fixpoint processLines (n : Z) (ls : list bytestr) (b : St) : St :=
  match ls with [] => b | l :: ls' => processLines (n + 1) ls' (processLine n l b) end.

Definition finish (b : St) : St :=
  let b := failOpenDirective b in
  apply (flushSettings (flushWorkflow 0 (flushRequest (flushMock b)))).

(** [bufio.Scanner] is that of dotenv files, with the same limit of a token. *)
Definition Parse (data : bytestr) : Document :=
  let '(ls, long) := DotEnv.scanLines (S (length data)) (replaceCRLF data) in
  let b := processLines 1 ls start in
  let n := Z.of_nat (length ls) in
  let b := if long then
             let b := match mock b with Some m => set_mock (Some (Mb.set_endLine (n + 1) m)) b | None => b end in
             addError (n + 1) "parse error: line exceeds 1048576 bytes" b
           else b in
  doc (finish b).
End document.
End Doc.
