(* ===== verification/DocumentFrame.v ===== *)
(** * What a line does not depend on (lemmas for src/internal/parser/document.go)

    The builder of a document only adds to the document and to the file's
    declarations, and reads neither: put before it a document and declarations that
    were gathered earlier ([frame]), every handler does the same and answers the
    same.  [frames] is that law, for the handlers that answer something. *)
From stdpp Require Import base list strings gmap.
From Stdlib Require Import Ascii ZArith Lia.
From S2P Require Import Prelude GoStd GoPath Names Group Text Directive Workflow Catalog WorkflowText Lines Protocols Specs Requests MockText Document.

Open Scope list_scope.

Section frame.
Context {unicode : Unicode} {tables : UnicodeTables} {lib : HttpLib} {tunnels : Tunnels} {parsers : MockParsers}
  (iter : Catalog.Iter) (d0 : Doc.Document) (f0 : Doc.fileScope).
Import Doc.

(** The lists gathered before come first; settings found later win. *)
Definition frameDoc (d : Document) : Document :=
  mkDoc (Requests d0 ++ Requests d) (Workflows d0 ++ Workflows d) (Mocks d0 ++ Mocks d) (Errors d0 ++ Errors d) (Warnings d0 ++ Warnings d)
    (Variables d0 ++ Variables d) (Globals d0 ++ Globals d) (Constants d0 ++ Constants d) (Auth d0 ++ Auth d) (Uses d0 ++ Uses d)
    (SSH d0 ++ SSH d) (K8s d0 ++ K8s d) (Patches d0 ++ Patches d) (Settings d ∪ Settings d0).
Definition frameFile (f : fileScope) : fileScope :=
  mkFile (vars f0 ++ vars f) (globals f0 ++ globals f) (settings f) (consts f0 ++ consts f) (auth f0 ++ auth f) (ssh f0 ++ ssh f)
    (k8s f0 ++ k8s f) (patches f0 ++ patches f) (uses f0 ++ uses f).
Definition frame (b : St) : St :=
  mkSt (frameDoc (doc b)) (request b) (mock b) (workflow b) (open b) (openLines b) (pendingTitle b) (frameFile (file b)) (inBlock b)
    (inScriptBlock b) (scriptBlockStartLine b).
Definition lift {A} (r : A * St) : A * St := (r.1, frame r.2).

(** The laws: what is seen through a frame, and operations that keep to it. *)
Class Seen {A} (h : St -> A) : Prop := seen b : h (frame b) = h b.
Class Framed (h : St -> St) : Prop := framed b : h (frame b) = frame (h b).
Class Frames {A} (h : St -> A * St) : Prop := frames b : h (frame b) = lift (h b).

#[global] Instance framed_foldl {A} (h : A -> St -> St) l : (forall a, Framed (h a)) -> Framed (fun b => foldl (fun b a => h a b) b l).
Proof. intros Hh. induction l as [|a l IH]; intros b; [done|]. cbn. rewrite (framed (h := h a)). apply IH. Qed.

#[global] Instance request_seen : Seen request. Proof. done. Qed.
#[global] Instance mock_seen : Seen mock. Proof. done. Qed.
#[global] Instance workflow_seen : Seen workflow. Proof. done. Qed.
#[global] Instance open_seen : Seen open. Proof. done. Qed.
#[global] Instance openLines_seen : Seen openLines. Proof. done. Qed.
#[global] Instance title_seen : Seen pendingTitle. Proof. done. Qed.
#[global] Instance inBlock_seen : Seen inBlock. Proof. done. Qed.
#[global] Instance inScript_seen : Seen inScriptBlock. Proof. done. Qed.
#[global] Instance scriptStart_seen : Seen scriptBlockStartLine. Proof. done. Qed.
#[global] Instance inRequest_seen : Seen inRequest. Proof. done. Qed.
#[global] Instance hasSSH_seen : Seen hasSSH. Proof. done. Qed.
#[global] Instance hasK8s_seen : Seen hasK8s. Proof. done. Qed.

#[global] Instance set_request_framed r : Framed (set_request r). Proof. done. Qed.
#[global] Instance set_mock_framed m : Framed (set_mock m). Proof. done. Qed.
#[global] Instance set_workflow_framed w : Framed (set_workflow w). Proof. done. Qed.
#[global] Instance set_open_framed o ls : Framed (set_open o ls). Proof. done. Qed.
#[global] Instance set_title_framed t : Framed (set_title t). Proof. done. Qed.
#[global] Instance set_inBlock_framed i : Framed (set_inBlock i). Proof. done. Qed.
#[global] Instance set_scriptBlock_framed i n : Framed (set_scriptBlock i n). Proof. done. Qed.
#[global] Instance set_fileSettings_framed s : Framed (set_fileSettings s). Proof. done. Qed.
#[global] Instance addTo_framed rs ws ms es wns : Framed (addTo rs ws ms es wns).
Proof. intros b. unfold addTo, frame, frameDoc, set_doc. cbn. by rewrite !app_assoc. Qed.
End frame.

(** Both sides look at the same things: follow them. *)
Ltac frame_push :=
  repeat match goal with
  | |- context [?h (frame ?d0 ?f0 ?x)] =>
      first [rewrite (seen d0 f0 (h := h) x) | rewrite (framed d0 f0 (h := h) x) | rewrite (frames d0 f0 (h := h) x); destruct (h x); cbn [lift fst snd]]
  end.
Ltac frame_cases :=
  frame_push;
  repeat (match goal with |- context [match ?x with _ => _ end] =>
            lazymatch x with context [match _ with _ => _ end] => fail | _ => destruct x end end; frame_push);
  try reflexivity.

Section handlers.
Context {unicode : Unicode} {tables : UnicodeTables} {lib : HttpLib} {tunnels : Tunnels} {parsers : MockParsers}
  (iter : Catalog.Iter) (d0 : Doc.Document) (f0 : Doc.fileScope).
Import Doc.
Notation fr := (frame d0 f0).
Notation Framed := (Framed d0 f0).
Notation Frames := (Frames d0 f0).

#[global] Instance addError_framed l m : Framed (addError l m).
Proof. intros b. unfold addError. frame_cases. Qed.
#[global] Instance addWarning_framed l m : Framed (addWarning l m).
Proof. intros b. unfold addWarning. frame_cases. Qed.
#[global] Instance addMockError_framed l m : Framed (addMockError l m).
Proof. intros b. unfold addMockError. frame_cases. Qed.
#[global] Instance addMockErrors_framed l ms : Framed (addMockErrors l ms).
Proof. apply (framed_foldl d0 f0 (addMockError l)). apply _. Qed.

#[global] Instance report_framed l e : Framed (report l e).
Proof. apply (framed_foldl d0 f0 (fun o b => if isUnknown o then addWarning l (Directive.optError_Error o) b else _)). intros o b. frame_cases. Qed.
#[global] Instance on_request_framed f : Framed (on_request f).
Proof. intros b. unfold on_request. frame_cases. Qed.
#[global] Instance flushSettings_framed : Framed flushSettings.
Proof.
  intros b. unfold flushSettings. cbn. case_bool_decide; [done|].
  unfold set_fileSettings, set_doc, set_file, frame, frameDoc, frameFile. cbn. by rewrite (assoc_L (∪)).
Qed.
#[global] Instance flushWorkflow_framed l : Framed (flushWorkflow l).
Proof. intros b. unfold flushWorkflow. frame_cases. Qed.

#[global] Instance ensureRequest_framed l : Framed (ensureRequest l).
Proof. intros b. unfold ensureRequest. frame_cases. Qed.
#[global] Instance appendLine_framed r : Framed (appendLine r).
Proof. intros b. unfold appendLine. frame_cases. Qed.
#[global] Instance endScriptBlock_framed : Framed endScriptBlock.
Proof. intros b. unfold endScriptBlock. frame_cases. Qed.
#[global] Instance lint_framed req : Framed (lintRequestCaptures req).
Proof. unfold lintRequestCaptures. apply (framed_foldl d0 f0 (fun c b => _)). intros c b. frame_cases. Qed.
#[global] Instance flushRequest_framed : Framed flushRequest.
Proof. intros b. unfold flushRequest. cbv zeta. frame_cases. Qed.
#[global] Instance flushMock_framed : Framed flushMock.
Proof.
  intros b. unfold flushMock. frame_push. destruct (mock b) as [m|]; [|done].
  destruct (Mb.flushMock m) as [errs mk]. rewrite (framed_foldl d0 f0 (fun e b => addMockError e.1 e.2 b)) by (intros a; apply _).
  frame_cases.
Qed.
#[global] Instance handleSeparator_framed ln : Frames (handleSeparator ln).
Proof. intros b. unfold handleSeparator. frame_cases. Qed.

(** ** Directives *)

#[global] Instance failOpenDirective_framed : Framed failOpenDirective.
Proof. intros b. unfold failOpenDirective. frame_cases. Qed.
#[global] Instance growDirective_framed n c t o : Frames (growDirective n c t o).
Proof. intros b. unfold growDirective. cbv zeta. frame_push. case_match; done. Qed.
#[global] Instance readDirective_framed n c t : Frames (readDirective n c t).
Proof. intros b. unfold readDirective. cbv zeta. frame_cases. Qed.
#[global] Instance closeOpenDirective_framed ln : Framed (closeOpenDirective ln).
Proof. intros b. unfold closeOpenDirective. frame_cases. Qed.
#[global] Instance flushOpenLines_framed : Framed flushOpenLines.
Proof. intros b. unfold flushOpenLines. cbv zeta. frame_cases. Qed.
#[global] Instance reject_framed d m : Frames (reject d m).
Proof. intros b. unfold reject. frame_cases. Qed.
#[global] Instance checkEnvRef_framed l v : Framed (checkEnvRef l v).
Proof. intros b. unfold checkEnvRef. frame_cases. Qed.

(** Declarations of the file are added behind the frame's. *)
Class Adds (g : fileScope -> fileScope) : Prop := adds f : g (frameFile f0 f) = frameFile f0 (g f).
#[global] Instance add_file_framed g : Adds g -> Framed (add_file g).
Proof. intros Hg b. unfold add_file, set_file, frame. cbn. by rewrite Hg. Qed.
#[local] Hint Extern 1 (Adds _) => (intros f; unfold frameFile; cbn; by rewrite ?app_assoc) : typeclass_instances.
#[global] Instance addScopedVariable_framed nm v l sc se : Framed (addScopedVariable nm v l sc se).
Proof. intros b. unfold addScopedVariable. cbv zeta. destruct sc; frame_cases. Qed.
#[global] Instance scopedVariable_framed d : Frames (handleScopedVariableDirective d).
Proof. intros b. unfold handleScopedVariableDirective. frame_cases. Qed.
#[global] Instance const_framed d : Frames (handleConstDirective d).
Proof. intros b. unfold handleConstDirective. cbv zeta. destruct (Directive.ParseNameValue _). frame_cases. Qed.
#[global] Instance on_meta_framed f : Framed (on_meta f).
Proof. intros b. unfold on_meta. frame_cases. Qed.
#[global] Instance use_framed d : Frames (handleUseDirective d).
Proof. intros b. unfold handleUseDirective. frame_cases. Qed.
#[global] Instance patch_framed d : Frames (handlePatchDirective d).
Proof. intros b. unfold handlePatchDirective. frame_cases. Qed.
#[global] Instance fileSettings_framed d : Frames (handleFileSettingsDirective d).
Proof.
  intros b. unfold handleFileSettingsDirective. cbv zeta. change (settings (file (fr b))) with (settings (file b)). frame_cases.
Qed.
#[global] Instance auth_framed d : Frames (handleAuthDirective d).
Proof.
  intros b. unfold handleAuthDirective. cbv zeta. frame_cases.
Qed.
#[global] Instance ssh_framed d : Frames (handleSSHDirective d).
Proof.
  intros b. unfold handleSSHDirective. destruct (ParseSSH _) as [res err]. cbv zeta. destruct (tScope res); frame_cases.
Qed.
#[global] Instance add_k8s_framed p : Framed (add_k8s p).
Proof. intros b. unfold add_k8s. frame_cases. Qed.
#[global] Instance invalidK8s_framed l p m : Framed (addInvalidK8sProfile l p m).
Proof. intros b. unfold addInvalidK8sProfile. frame_cases. Qed.
#[global] Instance k8s_framed d : Frames (handleK8sDirective d).
Proof.
  intros b. unfold handleK8sDirective. destruct (ParseK8s _) as [[res err] invalid]. cbv zeta. frame_cases.
Qed.
#[global] Instance startWorkflow_framed l r : Framed (startWorkflow l r).
Proof. intros b. unfold startWorkflow. cbv zeta. frame_cases. Qed.
#[global] Instance workflowStart_framed d : Frames (handleWorkflowStart iter d).
Proof. intros b. unfold handleWorkflowStart. frame_cases. Qed.
#[global] Instance workflow_framed d : Frames (handleWorkflowDirective d).
Proof. intros b. unfold handleWorkflowDirective. cbv zeta. frame_cases. Qed.
#[global] Instance startMock_framed l r : Framed (startMock l r).
Proof. intros b. unfold startMock. frame_cases. Qed.
#[global] Instance mock_framed d : Frames (handleMockDirective d).
Proof. intros b. unfold handleMockDirective. frame_cases. Qed.
#[global] Instance on_settings_framed f l : Framed (on_settings f l).
Proof. intros b. unfold on_settings. frame_cases. Qed.
#[global] Instance addRequestVar_framed l r : Framed (addRequestVar l r).
Proof. intros b. unfold addRequestVar. frame_cases. Qed.
#[global] Instance run_script_framed f : Frames (run_script f).
Proof. intros b. unfold run_script. frame_cases. Qed.

(** ** Directives of a request, dispatch *)

#[global] Instance requestMetadata_framed d : Frames (handleRequestMetadataDirective d).
Proof. intros b. unfold handleRequestMetadataDirective. cbv zeta. frame_cases. Qed.
#[global] Instance applyRequest_framed d : Frames (applyRequestDirective d).
Proof. intros b. unfold applyRequestDirective. cbv zeta. frame_cases. Qed.
#[global] Instance requestDirective_framed d : Frames (handleRequestDirective d).
Proof. intros b. unfold handleRequestDirective. cbv zeta. frame_cases. Qed.

#[global] Instance claim_framed hs d : Forall (fun h => Frames (h d)) hs -> Frames (claim hs d).
Proof. induction 1 as [|h hs Hh _ IH]; intros b; [done|]. cbn. frame_cases. Qed.
#[global] Instance claimDirective_framed d : Frames (claimDirective iter d).
Proof. apply claim_framed. unfold directiveHandlers. repeat (constructor; [apply _|]). constructor. Qed.
#[global] Instance routeDirective_framed d : Frames (routeDirective iter d).
Proof. intros b. unfold routeDirective. frame_cases. Qed.
#[global] Instance redeclared_framed d : Frames (redeclared d).
Proof. intros b. unfold redeclared. frame_cases. Qed.
#[global] Instance markDeclared_framed d : Framed (markDeclared d).
Proof. intros b. unfold markDeclared. frame_cases. Qed.

(** ** Lines *)

#[global] Instance handleComment_framed n c t : Framed (handleComment iter n c t).
Proof. intros b. unfold handleComment. cbv zeta. frame_cases. Qed.
#[global] Instance blockComment_framed ln : Frames (handleBlockComment iter ln).
Proof. intros b. unfold handleBlockComment. cbv zeta. frame_cases. Qed.
#[global] Instance commentLine_framed ln : Frames (handleCommentLine iter ln).
Proof. intros b. unfold handleCommentLine. frame_cases. Qed.
#[global] Instance flushScript_framed ln : Framed (flushScriptIfNeeded ln).
Proof. intros b. unfold flushScriptIfNeeded. frame_cases. Qed.
#[global] Instance addScriptLine_framed n c t : Framed (addScriptLine n c t).
Proof. intros b. unfold addScriptLine. frame_cases. Qed.
#[global] Instance scriptLine_framed ln : Frames (handleScriptLine ln).
Proof. intros b. unfold handleScriptLine. cbv zeta. frame_cases. Qed.
#[global] Instance scriptBlockStart_framed ln : Frames (handleScriptBlockStart ln).
Proof. intros b. unfold handleScriptBlockStart. frame_cases. Qed.
#[global] Instance scriptBlockLine_framed ln : Framed (handleScriptBlockLine ln).
Proof. intros b. unfold handleScriptBlockLine. frame_cases. Qed.
#[global] Instance variableLine_framed ln : Frames (handleVariableLine ln).
Proof. intros b. unfold handleVariableLine. frame_cases. Qed.
#[global] Instance on_http_framed f : Framed (on_http f).
Proof. intros b. unfold on_http. frame_cases. Qed.
#[global] Instance protoLine_framed r : Frames (protoLine r).
Proof. intros b. unfold protoLine. frame_cases. Qed.
#[global] Instance multipart_framed ln : Frames (handleMultipartBodyLine ln).
Proof. intros b. unfold handleMultipartBodyLine. cbv zeta. frame_cases. Qed.
#[global] Instance blankLine_framed ln : Frames (handleBlankLine ln).
Proof. intros b. unfold handleBlankLine. frame_cases. Qed.
#[global] Instance bodyContinuation_framed ln : Frames (handleBodyContinuation ln).
Proof. intros b. unfold handleBodyContinuation. frame_cases. Qed.
#[global] Instance methodLine_framed ln : Frames (handleMethodLine ln).
Proof. intros b. unfold handleMethodLine. cbv zeta. frame_cases. Qed.
#[global] Instance headerLine_framed ln : Frames (handleHeaderLine ln).
Proof. intros b. unfold handleHeaderLine. cbv zeta. frame_cases. Qed.
#[global] Instance descriptionLine_framed ln : Framed (handleDescriptionLine ln).
Proof. intros b. unfold handleDescriptionLine. cbv zeta. frame_cases. Qed.
#[global] Instance mockPreamble_framed m ln : Framed (handleMockPreamble m ln).
Proof. intros b. unfold handleMockPreamble. frame_cases. Qed.
#[global] Instance mockBlockLine_framed m ln : Framed (handleMockBlockLine m ln).
Proof. intros b. unfold handleMockBlockLine. cbv zeta. frame_cases. Qed.
#[global] Instance firstHandler_framed hs ln : Forall (fun h => Frames (h ln)) hs -> Frames (firstHandler hs ln).
Proof. induction 1 as [|h hs Hh _ IH]; intros b; [done|]. cbn. frame_cases. Qed.
#[global] Instance lineHandlers_framed ln : Frames (firstHandler (lineHandlers iter) ln).
Proof. apply firstHandler_framed. unfold lineHandlers. repeat (constructor; [apply _|]). constructor. Qed.

(** A line, and the lines of a file *)
#[global] Instance processLine_framed n r : Framed (processLine iter n r).
Proof. intros b. unfold processLine. cbv zeta. frame_cases. Qed.
Lemma processLines_framed n ls : Framed (processLines iter n ls).
Proof. revert n. induction ls as [|l ls IH]; intros n b; [done|]. cbn [processLines]. frame_push. reflexivity. Qed.
End handlers.
