(* ===== verification/DocumentShape.v ===== *)
(** * The lines a document's parts are made of (lemmas for src/internal/parser/document.go)

    [shape] forgets what a request says and keeps where it lies: its first line and
    the lines it has, the lines held for an open directive, the workflow in
    progress, and the requests and workflows done.  Most operations are [Quiet]:
    they leave the shape alone.  The others are moves of an abstract machine
    ([begin], [endReq], [closeWf], [addLine]), and a directive makes one [turn]. *)
From stdpp Require Import base list strings gmap.
From Stdlib Require Import Ascii ZArith Lia.
From S2P Require Import Prelude GoStd GoPath Names Group Text Directive Workflow Catalog WorkflowText WorkflowTextFacts Lines Protocols Specs Requests MockText Document.

Open Scope list_scope.

Section shape.
Context {unicode : Unicode} {tables : UnicodeTables} {lib : HttpLib} {tunnels : Tunnels} {parsers : MockParsers}
  (iter : Catalog.Iter).
Import Doc.

(** A request that is done: its lines and its text. *)
Definition placed : Type := (Z * Z) * bytestr.

Record Shape := mkShape {
  sReq : option (Z * list bytestr);
  sMock : bool;
  sWf : option Wb.builder;
  sOpen : option Z;
  sHeld : list bytestr;
  sBlock : bool;
  sScript : bool;
  sScriptLine : Z;
  sReqs : list placed;
  sWfs : list Wb.workflow
}.

Definition rshape (r : Rq.builder) : Z * list bytestr := (Rq.startLine r, Rq.originalLines r).
Definition place (r : Rq.Request) : placed := (Rq.rRange r, Rq.OriginalText r).
Definition shape (b : St) : Shape :=
  mkShape (rshape <$> request b) (bool_decide (is_Some (mock b))) (workflow b) ((fun o => (lines (od o)).1) <$> open b) (openLines b)
    (inBlock b) (inScriptBlock b) (scriptBlockStartLine b) (place <$> Requests (doc b)) (Workflows (doc b)).

(** ** The moves *)

Definition closed (ln : Z) (w : option Wb.builder) : list Wb.workflow :=
  match w with Some b => option_list (Wb.flushWorkflow ln b).2 | None => [] end.
Definition closeWf (ln : Z) (x : Shape) : Shape :=
  mkShape (sReq x) (sMock x) None (sOpen x) (sHeld x) (sBlock x) (sScript x) (sScriptLine x) (sReqs x) (sWfs x ++ closed ln (sWf x)).
Definition begin (ln : Z) (x : Shape) : Shape :=
  match sReq x with
  | Some _ => x
  | None => mkShape (Some (ln, [])) (sMock x) None (sOpen x) (sHeld x) (sBlock x) (sScript x) (sScriptLine x) (sReqs x)
              (sWfs x ++ closed (ln - 1) (sWf x))
  end.
Definition with_req (f : list bytestr -> list bytestr) (x : Shape) : Shape :=
  mkShape (prod_map id f <$> sReq x) (sMock x) (sWf x) (sOpen x) (sHeld x) (sBlock x) (sScript x) (sScriptLine x) (sReqs x) (sWfs x).
Definition with_open (o : option Z) (ls : list bytestr) (x : Shape) : Shape :=
  mkShape (sReq x) (sMock x) (sWf x) o ls (sBlock x) (sScript x) (sScriptLine x) (sReqs x) (sWfs x).
Definition with_wf (w : option Wb.builder) (x : Shape) : Shape :=
  mkShape (sReq x) (sMock x) w (sOpen x) (sHeld x) (sBlock x) (sScript x) (sScriptLine x) (sReqs x) (sWfs x).
Definition with_mock (m : bool) (x : Shape) : Shape :=
  mkShape (sReq x) m (sWf x) (sOpen x) (sHeld x) (sBlock x) (sScript x) (sScriptLine x) (sReqs x) (sWfs x).
Definition with_block (i : bool) (x : Shape) : Shape :=
  mkShape (sReq x) (sMock x) (sWf x) (sOpen x) (sHeld x) i (sScript x) (sScriptLine x) (sReqs x) (sWfs x).
Definition with_script (i : bool) (n : Z) (x : Shape) : Shape :=
  mkShape (sReq x) (sMock x) (sWf x) (sOpen x) (sHeld x) (sBlock x) i n (sReqs x) (sWfs x).
Definition endScript (x : Shape) : Shape := if sScript x then with_script false 0 x else x.
Definition addLine (r : bytestr) (x : Shape) : Shape :=
  match sReq x, sOpen x with
  | Some _, _ => with_req (fun ls => ls ++ [r]) x
  | None, Some _ => with_open (sOpen x) (sHeld x ++ [r]) x
  | None, None => x
  end.
Definition flushHeld (x : Shape) : Shape := with_open (sOpen x) [] (with_req (fun ls => ls ++ sHeld x) x).

(** Where a request of these lines lies. *)
Definition placeOf (r : Z * list bytestr) : placed := ((r.1, r.1 + Z.of_nat (length r.2) - 1)%Z, joinLines r.2).
(** A request ends; it is kept when it has a method and a URL. *)
Definition endReq (keep : bool) (x : Shape) : Shape :=
  match sReq x with
  | None => x
  | Some r =>
      let x := endScript x in
      mkShape None (sMock x) (sWf x) (sOpen x) (sHeld x) false (sScript x) (sScriptLine x) (sReqs x ++ (if keep then [placeOf r] else [])) (sWfs x)
  end.

(** ** Quiet operations *)

Class Quiet (h : St -> St) : Prop := quiet b : shape (h b) = shape b.
(** Operations on a request that keep its lines *)
Class Keeps (f : Rq.builder -> Rq.builder) : Prop := keeps r : rshape (f r) = rshape r.

#[global] Instance quiet_foldl {A} (h : A -> St -> St) l : (forall a, Quiet (h a)) -> Quiet (fun b => foldl (fun b a => h a b) b l).
Proof. intros Hh. induction l as [|a l IH]; intros b; [done|]. cbn. rewrite IH. apply (quiet (h := h a)). Qed.

#[global] Instance set_title_quiet t : Quiet (set_title t). Proof. done. Qed.
#[global] Instance set_file_quiet f : Quiet (set_file f). Proof. done. Qed.
#[global] Instance set_fileSettings_quiet f : Quiet (set_fileSettings f). Proof. done. Qed.
#[global] Instance add_file_quiet f : Quiet (add_file f). Proof. done. Qed.
#[global] Instance addErrors_quiet ms es wns : Quiet (addTo [] [] ms es wns).
Proof. intros b. unfold addTo, shape, set_doc. cbn. by rewrite !app_nil_r. Qed.

#[global] Instance addError_quiet l m : Quiet (addError l m).
Proof. intros b. unfold addError. case_match; [done|]. apply quiet. Qed.
#[global] Instance addWarning_quiet l m : Quiet (addWarning l m).
Proof. intros b. unfold addWarning. case_match; [done|]. apply quiet. Qed.
#[global] Instance addMockError_quiet l m : Quiet (addMockError l m).
Proof. intros b. unfold addMockError. apply quiet. Qed.
#[global] Instance addMockErrors_quiet l ms : Quiet (addMockErrors l ms).
Proof. apply (quiet_foldl (addMockError l)). apply _. Qed.
#[global] Instance report_quiet l e : Quiet (report l e).
Proof. apply (quiet_foldl (fun o b => if isUnknown o then addWarning l (Directive.optError_Error o) b else _)). intros o b. case_match; apply quiet. Qed.
#[global] Instance flushSettings_quiet : Quiet flushSettings.
Proof. intros b. unfold flushSettings. cbv zeta. by case_match. Qed.
#[global] Instance apply_quiet : Quiet apply. Proof. done. Qed.
#[global] Instance on_request_quiet f : Keeps f -> Quiet (on_request f).
Proof. intros Hf b. unfold on_request, shape. destruct (request b) as [r|] eqn:E; [|by rewrite E]. cbn. by rewrite Hf. Qed.
End shape.

(** Rewrites with the innermost quiet operation, or looks at what is matched on. *)
Ltac quiet_push := repeat match goal with |- context [shape (?h ?x)] => rewrite (quiet (h := h) x) end.
Ltac quiet_cases :=
  quiet_push;
  repeat (match goal with |- context [match ?x with _ => _ end] =>
            lazymatch x with context [match _ with _ => _ end] => fail | _ => destruct x eqn:? end end; cbn [fst snd]; quiet_push);
  try reflexivity.
#[global] Hint Extern 2 (Keeps _) => (intros ?; reflexivity) : typeclass_instances.

Section moves.
Context {unicode : Unicode} {tables : UnicodeTables} {lib : HttpLib} {tunnels : Tunnels} {parsers : MockParsers}
  (iter : Catalog.Iter).
Import Doc.

(** ** What a builder of a request keeps *)

#[global] Instance flushPendingScript_keeps : Keeps Rq.flushPendingScript.
Proof. intros r. unfold Rq.flushPendingScript. cbv zeta. by case_match. Qed.
#[global] Instance appendScriptLine_keeps k l body loc : Keeps (Rq.appendScriptLine k l body loc).
Proof. intros r. unfold Rq.appendScriptLine. cbv zeta. repeat case_match; rewrite <- ?(keeps (f := Rq.flushPendingScript) r) at 1; done. Qed.
#[global] Instance appendScriptInclude_keeps k l p : Keeps (Rq.appendScriptInclude k l p).
Proof. intros r. unfold Rq.appendScriptInclude. cbv zeta. case_match; [done|]. apply (keeps (f := Rq.flushPendingScript) r). Qed.
Lemma setScript_keeps rest r : rshape (Rq.setScript rest r).2 = rshape r.
Proof. unfold Rq.setScript. by repeat case_match. Qed.
Lemma setRTSScript_keeps rest r : rshape (Rq.setRTSScript rest r).2 = rshape r.
Proof. unfold Rq.setRTSScript. repeat case_match; [|done]. cbn [snd]. by rewrite (keeps (f := Rq.flushPendingScript)). Qed.
Lemma offer_keeps {B} {f : Feature B} name args (x : B) put r err r' :
  (forall y r, rshape (put y r) = rshape r) -> Rq.offer name args x put r = Some (err, r') -> rshape r' = rshape r.
Proof.
  intros Hp. unfold Rq.offer. destruct (HandleDirective name args x) as [[[handled reset] e] y]. destruct handled; [|done].
  intros [= <- <-]. destruct reset; [|apply Hp]. unfold Rq.clearDeclared. rewrite <- (Hp y r). done.
Qed.
Lemma protoDirective_keeps name args r err r' : Rq.protoDirective name args r = Some (err, r') -> rshape r' = rshape r.
Proof.
  unfold Rq.protoDirective. intros H.
  do 3 (match type of H with match ?o with _ => _ end = _ => destruct o as [x|] eqn:E end; [rewrite H in E; refine (offer_keeps _ _ _ _ _ _ _ _ E); done|clear E]). refine (offer_keeps _ _ _ _ _ _ _ _ H); done.
Qed.
Lemma protoBodyLine_keeps raw r : rshape (Rq.protoBodyLine raw r).2 = rshape r.
Proof. unfold Rq.protoBodyLine. by repeat case_match. Qed.
#[global] Instance markHeadersDone_keeps : Keeps Rq.markHeadersDone.
Proof. intros r. unfold Rq.markHeadersDone. cbv zeta. by repeat case_match. Qed.
#[global] Instance handleBodyLine_keeps raw : Keeps (Rq.handleBodyLine raw).
Proof.
  intros r. unfold Rq.handleBodyLine. pose proof (protoBodyLine_keeps raw r) as H. destruct (Rq.protoBodyLine raw r) as [[] r']; [done|].
  rewrite <- H. by case_match.
Qed.
Lemma handleBodyDirective_keeps rest r r' : Rq.handleBodyDirective rest r = Some r' -> rshape r' = rshape r.
Proof.
  unfold Rq.handleBodyDirective. case_match; [done|]. destruct (Directive.CutKey _) as [k v]. repeat case_match; try done;
    intros ([? ?] & ? & ?)%fmap_Some || intros (? & ? & ?)%fmap_Some; by subst.
Qed.
Lemma build_place r : place (Rq.build r) = placeOf (rshape r).
Proof.
  unfold Rq.build. set (r' := Rq.flushPendingScript r). assert (Hr : rshape r' = rshape r) by apply (keeps (f := Rq.flushPendingScript) r).
  rewrite <- Hr. clearbody r'. cbv zeta. repeat case_match; done.
Qed.

(** ** The operations that move *)

Lemma set_request_quiet b r r' : request b = Some r -> rshape r' = rshape r -> shape (set_request (Some r') b) = shape b.
Proof. intros E H. unfold shape. cbn. rewrite E. cbn. by rewrite H. Qed.

Lemma shape_flushWorkflow l b : shape (flushWorkflow l b) = closeWf l (shape b).
Proof.
  unfold flushWorkflow, closeWf, closed. destruct (workflow b) as [w|] eqn:E; cbn [shape sWf]; rewrite E.
  2:{ unfold shape. cbn. by rewrite app_nil_r, E. }
  unfold Wb.flushWorkflow. destruct (Wb.flushFlow l w) as [e1 w1]. cbv zeta. cbn [snd].
  match goal with |- shape (set_workflow None ?y) = _ => set (b' := y) end.
  set (q := if bool_decide (Wb.requireNoPending w1 = []) then _ else _) in b'.
  assert (Hq : shape q = shape b) by (unfold q; repeat case_match; quiet_push; done). clearbody q.
  assert (Hb : shape (set_workflow None q) = with_wf None (shape b)) by (rewrite <- Hq; done).
  unfold b'. case_bool_decide; cbn [option_list].
  - rewrite Hb. unfold shape, with_wf. cbn. by rewrite app_nil_r.
  - unfold shape in *. cbn in *. rewrite app_nil_r. injection Hq as -> -> ? -> -> -> -> -> -> ->. done.
Qed.

Lemma shape_ensureRequest l b : shape (ensureRequest l b) = begin l (shape b).
Proof.
  unfold ensureRequest, begin, inRequest. cbn [shape sReq]. destruct (request b) as [r|] eqn:E; cbn; [done|].
  pose proof (shape_flushWorkflow (l - 1) b) as H. unfold shape, closeWf in *. cbn in *. injection H as ? -> -> -> -> -> -> -> -> ->. done.
Qed.

Lemma shape_endScriptBlock b : shape (endScriptBlock b) = endScript (shape b).
Proof. unfold endScriptBlock, endScript. cbn [shape sScript]. destruct (inScriptBlock b); [|done]. cbn [negb]. by quiet_push. Qed.

#[global] Instance lint_quiet req : Quiet (lintRequestCaptures req).
Proof. unfold lintRequestCaptures. apply (quiet_foldl (fun c b => _)). intros c b. quiet_cases. Qed.

Lemma shape_flushRequest b : exists k, shape (flushRequest b) = endReq k (shape b).
Proof.
  unfold flushRequest, inRequest. destruct (request b) as [r0|] eqn:E; [|exists false; unfold endReq; cbn; by rewrite E]. cbv zeta.
  rewrite (bool_decide_eq_true_2 (is_Some (Some r0))) by done. cbn [negb].
  set (b1 := on_request _ _). assert (H1 : shape b1 = endScript (shape b)).
  { unfold b1. quiet_push. rewrite shape_endScriptBlock. case_match; by quiet_push. }
  clearbody b1. destruct (request b1) as [r|] eqn:Er.
  2:{ exfalso. apply (f_equal sReq) in H1. unfold endScript in H1. case_match; cbn in H1; by rewrite E, Er in H1. }
  assert (Hr : rshape r = rshape r0).
  { apply (f_equal sReq) in H1. unfold endScript in H1. case_match; cbn in H1; rewrite E, Er in H1; by apply (inj Some) in H1. }
  set (b2 := lintRequestCaptures _ _). assert (H2 : shape b2 = shape b1) by apply quiet. clearbody b2.
  exists (negb (bool_decide (Rq.Method (Rq.build r) = [])) && negb (bool_decide (Rq.URL (Rq.build r) = []))).
  rewrite H1 in H2. unfold endReq. cbn [shape sReq]. rewrite E. cbn [fmap option_fmap option_map]. rewrite <- Hr, <- build_place.
  case_match; rewrite <- H2; unfold shape; cbn; rewrite ?app_nil_r, ?fmap_app; done.
Qed.

Lemma shape_flushMock b : shape (flushMock b) = with_mock false (shape b).
Proof.
  unfold flushMock. destruct (mock b) as [m|] eqn:E; [|unfold shape, with_mock; cbn; by rewrite E].
  destruct (Mb.flushMock m) as [errs mk]. set (b1 := foldl _ _ _).
  assert (H : shape b1 = shape b) by (apply (quiet_foldl (fun e b => addMockError e.1 e.2 b)); intros a; apply _). clearbody b1.
  rewrite <- H. unfold shape, with_mock. cbn. by rewrite !app_nil_r.
Qed.
Lemma shape_appendLine r b : shape (appendLine r b) = addLine r (shape b).
Proof. unfold appendLine, addLine. destruct (request b) as [q|] eqn:E, (open b) as [o|] eqn:Eo; unfold shape; cbn; rewrite ?E, ?Eo; done. Qed.
Lemma shape_flushOpenLines b : shape (flushOpenLines b) = flushHeld (shape b).
Proof. unfold flushOpenLines, on_request. cbn. destruct (request b) as [q|] eqn:E; unfold shape; cbn; rewrite ?E; done. Qed.
Lemma shape_failOpenDirective b : (open b = None -> openLines b = []) -> shape (failOpenDirective b) = with_open None [] (shape b).
Proof. intros H. unfold failOpenDirective. destruct (open b) as [o|] eqn:E; [quiet_cases|]. unfold shape, with_open. cbn. by rewrite E, H. Qed.
End moves.

(** ** The turn of a directive that starts at line [s] *)

Section turns.
Context {unicode : Unicode} {tables : UnicodeTables} {lib : HttpLib} {tunnels : Tunnels} {parsers : MockParsers}
  (iter : Catalog.Iter).
Import Doc.

Inductive turn (s : Z) : Shape -> Shape -> Prop :=
  | turn_none x : turn s x x
  | turn_begin x : turn s x (begin s x)
  | turn_end x k : turn s x (endReq k x)
  | turn_workflow x k w : builderOk w -> Wb.bStart w = s -> turn s x (with_wf (Some w) (closeWf (s - 1) (endReq k x)))
  | turn_step x w w' :
      sWf x = Some w -> (builderOk w -> (Wb.bStart w <= s)%Z -> builderOk w' /\ Wb.bStart w' = Wb.bStart w) ->
      turn s x (with_wf (Some w') x)
  | turn_mock x : sReq x = None -> sWf x = None -> turn s x (with_mock true x).

(** A handler that ignores a directive leaves the state as it was. *)
Definition turned (s : Z) (b : St) (r : outcome * St) : Prop :=
  match r with (Ignored, b') => b' = b | (_, b') => turn s (shape b) (shape b') end.
Class Turns (h : parsedDirective -> St -> outcome * St) : Prop := turns d b : turned (start_ d) b (h d b).

Lemma turn_quiet s b b' : shape b' = shape b -> turn s (shape b) (shape b').
Proof. intros ->. constructor. Qed.
Lemma turn_begun s b b' : shape b' = begin s (shape b) -> turn s (shape b) (shape b').
Proof. intros ->. constructor. Qed.
End turns.

(** What a handler returns, looked at until its moves are seen. *)
Ltac turn_cases :=
  repeat (match goal with |- context [match ?x with _ => _ end] =>
            lazymatch x with context [match _ with _ => _ end] => fail | _ => destruct x eqn:? end end; cbn [fst snd]);
  unfold turned, Doc.reject;
  first [reflexivity | apply turn_quiet; quiet_push; rewrite ?shape_ensureRequest; quiet_push; reflexivity
        | apply turn_begun; quiet_push; rewrite ?shape_ensureRequest; quiet_push; rewrite ?shape_ensureRequest; reflexivity | idtac].

Section handlers.
Context {unicode : Unicode} {tables : UnicodeTables} {lib : HttpLib} {tunnels : Tunnels} {parsers : MockParsers}
  (iter : Catalog.Iter).
Import Doc.

#[global] Instance checkEnvRef_quiet l v : Quiet (checkEnvRef l v).
Proof. intros b. unfold checkEnvRef. quiet_cases. Qed.
#[global] Instance on_meta_quiet f : Quiet (on_meta f).
Proof. intros b. unfold on_meta. apply quiet. Qed.
#[global] Instance add_k8s_quiet p : Quiet (add_k8s p).
Proof. intros b. apply quiet. Qed.
#[global] Instance invalidK8s_quiet l p m : Quiet (addInvalidK8sProfile l p m).
Proof. intros b. unfold addInvalidK8sProfile. quiet_cases. Qed.

Lemma addScopedVariable_shape nm v l sc se b :
  shape (addScopedVariable nm v l sc se b) = shape b \/ shape (addScopedVariable nm v l sc se b) = begin l (shape b).
Proof.
  unfold addScopedVariable. case_match; [by left|]. cbv zeta. destruct sc; [right|left|left]; quiet_push; rewrite ?shape_ensureRequest; by quiet_push.
Qed.
#[global] Instance scopedVariable_turns : Turns handleScopedVariableDirective.
Proof.
  intros d b. unfold handleScopedVariableDirective. turn_cases; match goal with |- turn _ _ (shape (addScopedVariable ?n ?v ?l ?sc ?se ?b)) =>
    destruct (addScopedVariable_shape n v l sc se b); [by apply turn_quiet|by apply turn_begun] end.
Qed.
#[global] Instance const_turns : Turns handleConstDirective.
Proof. intros d b. unfold handleConstDirective. turn_cases. Qed.
#[global] Instance use_turns : Turns handleUseDirective.
Proof. intros d b. unfold handleUseDirective. turn_cases. Qed.
#[global] Instance patch_turns : Turns handlePatchDirective.
Proof. intros d b. unfold handlePatchDirective. turn_cases. Qed.
#[global] Instance fileSettings_turns : Turns handleFileSettingsDirective.
Proof. intros d b. unfold handleFileSettingsDirective. turn_cases. Qed.
#[global] Instance auth_turns : Turns handleAuthDirective.
Proof. intros d b. unfold handleAuthDirective. cbv zeta. turn_cases. Qed.
#[global] Instance ssh_turns : Turns handleSSHDirective.
Proof. intros d b. unfold handleSSHDirective. cbv zeta. turn_cases. Qed.
#[global] Instance k8s_turns : Turns handleK8sDirective.
Proof. intros d b. unfold handleK8sDirective. cbv zeta. turn_cases. Qed.

Lemma inRequest_false b : inRequest b = false -> request b = None.
Proof. unfold inRequest. destruct (request b) as [r|]; [|done]. by rewrite bool_decide_eq_true_2. Qed.

Lemma startWorkflow_builder ln rest e w : Wb.startWorkflow ln rest = Some (e, w) -> builderOk w /\ Wb.bStart w = ln.
Proof.
  intros H. split; [eapply (reached_ok iter), reached_start, H|]. unfold Wb.startWorkflow in H. destruct (Directive.CutToken rest) as [nm r].
  destruct (_ || _); [done|]. destruct (Directive.ParseOptions "workflow" r) as [o es]. destruct (Wb.applyOptions o _) as [e' b'] eqn:Ea.
  injection H as _ <-. unfold Wb.applyOptions in Ea. case_bool_decide; [by injection Ea as _ <-|].
  destruct (Directive.PopAny _ o) as [v o']. by injection Ea as _ <-.
Qed.

Lemma startWorkflow_turn l r b : turn l (shape b) (shape (startWorkflow l r b)).
Proof.
  unfold startWorkflow. set (b1 := if inRequest b then _ else b). assert (H1 : exists k, shape b1 = endReq k (shape b)).
  { unfold b1. destruct (inRequest b) eqn:E; [apply shape_flushRequest|]. exists false. unfold endReq. cbn.
    by rewrite (inRequest_false b E). }
  clearbody b1. destruct H1 as [k H1]. cbv zeta. destruct (Wb.startWorkflow l r) as [[e w]|] eqn:Ew; [|rewrite H1; constructor].
  apply startWorkflow_builder in Ew as [Hok Hs]. pose proof (turn_workflow l (shape b) k w Hok Hs) as H. rewrite <- H1 in H.
  rewrite <- shape_flushWorkflow in H. set (b2 := flushWorkflow (l - 1) b1) in *.
  replace (shape (set_workflow (Some w) (report l (wbErr e) b2))) with (with_wf (Some w) (shape b2)); [done|].
  rewrite <- (quiet (h := report l (wbErr e)) b2). done.
Qed.

Lemma set_workflow_turn s b w w' :
  workflow b = Some w -> (builderOk w -> (Wb.bStart w <= s)%Z -> builderOk w' /\ Wb.bStart w' = Wb.bStart w) ->
  turn s (shape b) (shape (set_workflow (Some w') b)).
Proof. intros Hw Hk. by apply (turn_step s (shape b) w w'). Qed.

#[global] Instance workflowStart_turns : Turns (handleWorkflowStart iter).
Proof.
  intros d b. unfold handleWorkflowStart. case_bool_decide; [apply startWorkflow_turn|]. case_bool_decide; [|done].
  destruct (workflow b) as [w|] eqn:Ew; [|done]. destruct (Wb.addStep iter (start_ d) (args_ d) w) as [e w'] eqn:Ea.
  assert (H' : turn (start_ d) (shape b) (shape (set_workflow (Some w') b))).
  { apply set_workflow_turn with w; [done|]. intros Hok Hs. pose proof (addStep_ok iter (start_ d) (args_ d) w Hok Hs) as Hk. by rewrite Ea in Hk. }
  destruct e; [done|]. unfold reject, turned. by quiet_push.
Qed.
#[global] Instance workflow_turns : Turns handleWorkflowDirective.
Proof.
  intros d b. unfold handleWorkflowDirective. destruct (workflow b) as [w|] eqn:Ew; [|done]. destruct (inRequest b); [done|].
  destruct (Wb.handleDirective (call d) (start_ d) w) as [[e w']|] eqn:Ea; [|done]. cbv zeta.
  assert (H' : turn (start_ d) (shape b) (shape (set_workflow (Some (Wb.touch (lines d).2 w')) b))).
  { apply set_workflow_turn with w; [done|]. intros Hok Hs. pose proof (handleDirective_ok (call d) (start_ d) w Hok Hs) as Hk.
    rewrite Ea in Hk. destruct Hk. split; [by apply touch_ok|done]. }
  case_bool_decide; [done|]. unfold reject, turned. by quiet_push.
Qed.
#[global] Instance mock_turns : Turns handleMockDirective.
Proof.
  intros d b. unfold handleMockDirective. case_bool_decide; [|case_bool_decide; [|done]; unfold turned; apply turn_quiet; by quiet_push].
  destruct (inRequest b) eqn:Er; [apply turn_quiet; by quiet_push|]. destruct (workflow b) eqn:Ew; [apply turn_quiet; by quiet_push|].
  unfold startMock, turned. destruct (Mb.startMock _ _ _) as [errs m].
  pose proof (inRequest_false b Er) as Hr.
  assert (Hx : shape (set_mock (Some m) (addMockErrors (start_ d) errs (set_title [] b))) = with_mock true (shape b)).
  { rewrite <- (quiet (h := set_title []) b). by rewrite <- (quiet (h := addMockErrors (start_ d) errs) (set_title [] b)). }
  rewrite Hx. constructor; cbn; by rewrite ?Hr.
Qed.

(** Inside a request directives leave its lines alone. *)
Definition calm (b : St) (r : outcome * St) : Prop := match r with (Ignored, b') => b' = b | (_, b') => shape b' = shape b end.

#[global] Instance addRequestVar_quiet l r : Quiet (addRequestVar l r).
Proof. intros b. unfold addRequestVar. quiet_cases. Qed.
#[global] Instance on_settings_quiet f l : Quiet (on_settings f l).
Proof. intros b. unfold on_settings. destruct (request b) as [r|] eqn:E; [|done]. destruct (f _). quiet_push. by apply (set_request_quiet b r). Qed.
Lemma run_script_quiet f b : (forall r, rshape (f r).2 = rshape r) -> shape (run_script f b).2 = shape b.
Proof. intros Hf. unfold run_script. destruct (request b) as [r|] eqn:E; [|done]. specialize (Hf r). destruct (f r). by apply (set_request_quiet b r). Qed.

Ltac calm_cases :=
  repeat (match goal with |- context [match ?x with _ => _ end] =>
            lazymatch x with context [match _ with _ => _ end] => fail | _ => destruct x eqn:? end end; cbn [fst snd]);
  unfold calm, reject; first [reflexivity | quiet_push; reflexivity | idtac].

Lemma requestMetadata_calm d b : calm b (handleRequestMetadataDirective d b).
Proof.
  unfold handleRequestMetadataDirective. cbv zeta.
  pose proof (run_script_quiet (Rq.setScript (args_ d)) b (setScript_keeps _)) as H1.
  pose proof (run_script_quiet (Rq.setRTSScript (args_ d)) b (setRTSScript_keeps _)) as H2.
  destruct (run_script (Rq.setScript _) b) as [e1 b1], (run_script (Rq.setRTSScript _) b) as [e2 b2]. cbn [snd] in H1, H2. calm_cases.
  all: quiet_push; done.
Qed.

Lemma applyRequest_calm d b : calm b (applyRequestDirective d b).
Proof.
  unfold applyRequestDirective. destruct (request b) as [r|] eqn:E; [|done].
  destruct (Rq.protoDirective (name_ d) (args_ d) r) as [[err r']|] eqn:Ep.
  - apply protoDirective_keeps in Ep. cbv zeta. assert (H : shape (report (start_ d) err (set_request (Some r') b)) = shape b).
    { quiet_push. by apply (set_request_quiet b r). }
    by destruct (fatalErr err).
  - destruct (if bool_decide _ then _ else None) as [r'|] eqn:Eb; [|apply requestMetadata_calm]. case_bool_decide; [|done].
    apply handleBodyDirective_keeps in Eb. unfold calm. by apply (set_request_quiet b r).
Qed.

#[global] Instance requestDirective_turns : Turns handleRequestDirective.
Proof.
  intros d b. unfold handleRequestDirective. destruct (inRequest b) eqn:Er.
  - pose proof (applyRequest_calm d b) as H. destruct (applyRequestDirective d b) as [[] b']; cbn in *; [done|by apply turn_quiet..].
  - pose proof (applyRequest_calm d (ensureRequest (start_ d) start)) as H.
    destruct (applyRequestDirective d _) as [out probe]. cbv zeta.
    pose proof (inRequest_false b Er) as Hr.
    assert (Hp : out <> Ignored -> rshape <$> request probe = Some (start_ d, [])).
    { intros Ho. unfold calm in H. destruct out; [done|..]; by apply (f_equal sReq) in H. }
    destruct out; [done|..]; specialize (Hp ltac:(done)); apply turn_begun; quiet_push; unfold begin; cbn [shape sReq]; rewrite Hr; cbn [fmap option_fmap option_map];
      pose proof (shape_flushWorkflow (start_ d - 1) b) as H2; unfold shape, closeWf in *; cbn in *; injection H2 as ? -> -> -> -> -> -> -> -> ->;
      by rewrite Hp.
Qed.

Lemma claim_turns d b : turned (start_ d) b (claimDirective iter d b).
Proof.
  assert (H : Forall (fun h => Turns h) (directiveHandlers iter)) by (unfold directiveHandlers; repeat (constructor; [apply _|]); constructor).
  unfold claimDirective. induction H as [|h hs Hh _ IH]; [done|]. cbn. pose proof (Hh d b) as H1.
  destruct (h d b) as [[] b']; cbn in H1; [subst b'; exact IH|done..].
Qed.

(** A directive that is complete: one turn. *)
Lemma route_turn d b : turn (start_ d) (shape b) (shape (routeDirective iter d b).2).
Proof.
  unfold routeDirective. case_match; [cbn [snd]; quiet_push; constructor|]. pose proof (claim_turns d b) as Ht.
  destruct (claimDirective iter d b) as [[] b']; cbn in Ht |- *; [subst b'; quiet_push; constructor| |done].
  case_match; cbn [snd]; by quiet_push.
Qed.

(** ** Lines *)

#[global] Instance markDeclared_quiet d : Quiet (markDeclared d).
Proof. intros b. unfold markDeclared. case_match; [|done]. apply quiet. Qed.
Lemma redeclared_quiet d b : shape (redeclared d b).2 = shape b.
Proof. unfold redeclared. repeat case_match; cbn [snd]; quiet_push; done. Qed.

(** A comment at line [n]: the first line of a directive that is complete with it. *)
Inductive read (n : Z) : Shape -> option Z -> Shape -> Prop :=
  | read_nothing x : read n x None x
  | read_opened x : sOpen x = None -> read n x None (with_open (Some n) (sHeld x) x)
  | read_whole x : sOpen x = None -> read n x (Some n) x
  | read_grown x s : sOpen x = Some s -> read n x (Some s) (with_open None (sHeld x) x)
  | read_failed x r x' : read n (with_open None [] x) r x' -> read n x r x'.

Lemma fail_shape b : is_Some (open b) -> shape (failOpenDirective b) = with_open None [] (shape b).
Proof. intros [o E]. unfold failOpenDirective. rewrite E. cbv zeta. case_match; by quiet_push. Qed.

Lemma grow_read n c t o b : open b = Some o -> read n (shape b) (start_ <$> (growDirective n c t o b).1) (shape (growDirective n c t o b).2).
Proof.
  intros Eo. unfold growDirective. cbv zeta. match goal with |- context [if ?c then (None, _) else _] => destruct c end; cbn.
  - match goal with |- read _ _ _ ?y => assert (Hy : y = shape b) by (unfold shape; cbn; by rewrite Eo); rewrite Hy; constructor end.
  - apply (read_grown n (shape b)). cbn. by rewrite Eo.
Qed.

Lemma readDirective_read n c t b : read n (shape b) (start_ <$> (readDirective n c t b).1) (shape (readDirective n c t b).2).
Proof.
  unfold readDirective. cbv zeta.
  assert (Hf : forall b, open b = None -> let r := match Directive.Parse t with
    | None => (None, b)
    | Some c =>
        if negb (bool_decide (openCloser (Directive.cName c) (Directive.cArgs c) = ""%string))
        then (None, set_open (Some (mkOpen (mkPD c (n, n)) (openCloser (Directive.cName c) (Directive.cArgs c)))) (openLines b) b)
        else (Some (mkPD c (n, n)), b)
    end in read n (shape b) (start_ <$> r.1) (shape r.2)).
  { intros b' Ho. cbv zeta. destruct (Directive.Parse t) as [cl|]; [|constructor].
    destruct (negb _); cbn; [apply (read_opened n (shape b'))|apply (read_whole n (shape b'))]; cbn; by rewrite Ho. }
  cbv zeta in Hf. destruct (open b) as [o|] eqn:Eo; [|by apply Hf].
  match goal with |- context [if ?c then growDirective _ _ _ _ _ else _] => destruct c end; [by apply grow_read|].
  apply read_failed. rewrite <- fail_shape by by eexists. apply Hf.
  assert (Hs : is_Some (open b)) by by eexists. apply fail_shape, (f_equal sOpen) in Hs. cbn in Hs. by destruct (open (failOpenDirective b)).
Qed.

Inductive commented (n : Z) : Shape -> Shape -> Prop :=
  | commented_open x x' : read n x None x' -> commented n x x'
  | commented_turn x s x1 x2 : read n x (Some s) x1 -> turn s x1 x2 -> commented n x (flushHeld x2).

Lemma handleComment_shape n c t b : commented n (shape b) (shape (handleComment iter n c t b)).
Proof.
  unfold handleComment. pose proof (readDirective_read n c t b) as H. destruct (readDirective n c t b) as [[d|] b1]; cbn in H; [|by constructor].
  cbv zeta. rewrite shape_flushOpenLines. eapply commented_turn; [exact H|]. pose proof (redeclared_quiet d b1) as Hr.
  destruct (redeclared d b1) as [[] b2]; cbn in Hr; [rewrite Hr; constructor|]. rewrite <- Hr.
  pose proof (route_turn d b2) as Ht. destruct (routeDirective iter d b2) as [[] b3]; cbn in Ht; [done| |done]. by quiet_push.
Qed.
End handlers.
