(* ===== verification/DocumentPlaces.v ===== *)
(** * Lines as steps of the abstract machine (lemmas for src/internal/parser/parser.go)

    [stepped n r] is what line [n] with the text [r] can do to a shape; every line
    does such a step ([processLine_stepped]).  The invariants of the machine follow
    by induction on its steps: where requests lie, and that workflows are well
    formed. *)
From stdpp Require Import base list strings gmap.
From Stdlib Require Import Ascii ZArith Lia.
From S2P Require Import Prelude GoStd GoPath Names Group Text Directive Workflow Catalog WorkflowText WorkflowTextFacts Lines Protocols Specs Requests MockText Document DocumentShape.

Open Scope list_scope.

#[global] Hint Extern 3 (Keeps _) => (intros ?; cbv beta; match goal with |- rshape (?f ?r) = _ => apply (keeps (f := f)) end) : typeclass_instances.

Section steps.
Context {unicode : Unicode} {tables : UnicodeTables} {lib : HttpLib} {tunnels : Tunnels} {parsers : MockParsers}
  (iter : Catalog.Iter).
Import Doc.

Definition separate (k : bool) (n : Z) (x : Shape) : Shape := endReq k (closeWf (n - 1) (with_mock false x)).

Inductive stepped (n : Z) (r : bytestr) : Shape -> Shape -> Prop :=
  | st_mock x x' : sMock x = true -> x' = x \/ (exists o, read n x o x') -> stepped n r x x'
  | st_comment x x1 i : sMock x = false -> x1 = x \/ commented n x x1 -> stepped n r x (with_block i (addLine r x1))
  | st_line x x1 :
      sMock x = false -> sOpen x = None \/ is_Some (sReq x) -> x1 = x \/ x1 = begin n x \/ x1 = with_script true n (begin n x) ->
      stepped n r x (addLine r x1)
  | st_endscript x : sMock x = false -> sOpen x = None \/ is_Some (sReq x) -> stepped n r x (endScript (addLine r x))
  | st_separator x k : sBlock x = false \/ sMock x = true -> sOpen x = None \/ sBlock x = true -> stepped n r x (separate k n x)
  | st_close x x' : is_Some (sOpen x) -> stepped n r (with_open None [] x) x' -> stepped n r x x'.

(** A line that was taken made a step; otherwise the shape is as before. *)
Definition stepping (ln : Ln.line) (b : St) (res : bool * St) : Prop :=
  match res with (true, b') => stepped (Ln.no ln) (Ln.raw ln) (shape b) (shape b') | (false, b') => shape b' = shape b end.

Lemma line_quiet ln b y :
  mock b = None -> open b = None \/ is_Some (request b) -> shape y = shape b -> stepped (Ln.no ln) (Ln.raw ln) (shape b) (shape (appendLine (Ln.raw ln) y)).
Proof.
  intros Hm Ho Hy. rewrite shape_appendLine, Hy. apply st_line; [cbn; by rewrite Hm| |by left]. cbn.
  destruct Ho as [->|[q ->]]; [by left|right; by eexists].
Qed.
Lemma line_begun ln b y :
  mock b = None -> open b = None \/ is_Some (request b) -> shape y = begin (Ln.no ln) (shape b) ->
  stepped (Ln.no ln) (Ln.raw ln) (shape b) (shape (appendLine (Ln.raw ln) y)).
Proof.
  intros Hm Ho Hy. rewrite shape_appendLine, Hy. apply st_line; [cbn; by rewrite Hm| |by right; left]. cbn.
  destruct Ho as [->|[q ->]]; [by left|right; by eexists].
Qed.

Lemma separator_shape ln b :
  Ln.isSeparator ln = true -> exists k, (handleSeparator ln b).1 = true /\ shape (handleSeparator ln b).2 = separate k (Ln.no ln) (shape b).
Proof.
  intros Hs. unfold handleSeparator. rewrite Hs. cbn [negb]. cbv zeta.
  set (b1 := match workflow (flushMock b) with Some _ => _ | None => _ end).
  assert (H1 : shape b1 = closeWf (Ln.no ln - 1) (with_mock false (shape b))).
  { unfold b1. destruct (workflow (flushMock b)) eqn:E; [by rewrite shape_flushWorkflow, shape_flushMock|].
    rewrite <- shape_flushMock. unfold closeWf. cbn. rewrite E. cbn. rewrite app_nil_r. unfold shape. by rewrite E. }
  clearbody b1. destruct (shape_flushRequest b1) as [k Hk]. exists k. split; [done|]. cbn [snd]. quiet_push. unfold separate. by rewrite Hk, H1.
Qed.
Lemma not_separator ln b : Ln.isSeparator ln = false -> handleSeparator ln b = (false, b).
Proof. intros H. unfold handleSeparator. by rewrite H. Qed.

Lemma separator_steps ln b : mock b = None -> inBlock b = false -> open b = None \/ Ln.isSeparator ln = false -> stepping ln b (handleSeparator ln b).
Proof.
  intros Hm Hb Ho. destruct (Ln.isSeparator ln) eqn:Es; [|by rewrite not_separator].
  destruct Ho as [Ho|]; [|done]. destruct (separator_shape ln b Es) as (k & H1 & H2). destruct (handleSeparator ln b) as [[] b']; [|done].
  cbn in H2 |- *. rewrite H2. apply st_separator; cbn; [by left|by rewrite Ho; left].
Qed.

Lemma multipart_steps ln b : mock b = None -> stepping ln b (handleMultipartBodyLine ln b).
Proof.
  intros Hm. unfold handleMultipartBodyLine. destruct (request b) as [r|] eqn:Er; [|done]. destruct (Rq.multipart r) as [s|]; [|done].
  case_bool_decide; [done|]. destruct (Rq.bodyLine _ s) as [took s']. cbv zeta.
  assert (Hq : shape (set_request (Some (Rq.set_body (Rq.bodyOptions r) (Some s') r)) b) = shape b) by (by apply (set_request_quiet b r)).
  destruct took; [|done]. apply line_quiet; [done|right; rewrite Er; by eexists|]. unfold on_http. by quiet_push.
Qed.

Lemma comment_shape n r (b b1 y : St) i :
  mock b = None -> b1 = b \/ commented n (shape b) (shape b1) -> shape y = with_block i (shape (appendLine r b1)) -> stepped n r (shape b) (shape y).
Proof. intros Hm Hc Hy. rewrite Hy, shape_appendLine. apply st_comment; [cbn; by rewrite Hm|]. destruct Hc as [->|]; [by left|by right]. Qed.

Lemma blockComment_steps ln b : mock b = None -> stepping ln b (handleBlockComment iter ln b).
Proof.
  intros Hm. unfold handleBlockComment. cbv zeta.
  assert (Ht : forall content, (if bool_decide (content = []) then b else handleComment iter (Ln.no ln) 0 content b) = b \/
     commented (Ln.no ln) (shape b) (shape (if bool_decide (content = []) then b else handleComment iter (Ln.no ln) 0 content b))).
  { intros content. case_bool_decide; [by left|right; apply handleComment_shape]. }
  destruct (inBlock b) eqn:Eb; [|destruct (Ln.isBlockCommentStart ln); [|done]].
  - destruct (Ln.parseBlockCommentLine (Ln.text ln)) as [content cl]. unfold stepping.
    destruct cl; [by apply comment_shape with (1 := Hm) (2 := Ht content) (i := false)|].
    eapply comment_shape with (1 := Hm) (2 := Ht content). by instantiate (1 := inBlock _).
  - destruct (Ln.cutBlockCommentStart (Ln.text ln)) as [content cl]. unfold stepping.
    destruct cl; cbn [negb]; [|by apply comment_shape with (1 := Hm) (2 := Ht content) (i := true)].
    eapply comment_shape with (1 := Hm) (2 := Ht content). by instantiate (1 := inBlock _).
Qed.
Lemma commentLine_steps ln b : mock b = None -> stepping ln b (handleCommentLine iter ln b).
Proof.
  intros Hm. unfold handleCommentLine. destruct (Ln.comment ln) as [[t col]|]; [|done]. unfold stepping.
  eapply comment_shape with (1 := Hm) (b1 := handleComment iter (Ln.no ln) col t b); [right; apply handleComment_shape|]. by instantiate (1 := inBlock _).
Qed.

(** The handlers after comments run with nothing open. *)
#[global] Instance on_http_quiet f : Quiet (on_http f).
Proof. intros b. unfold on_http. apply quiet. Qed.
Lemma protoLine_quiet r b : shape (protoLine r b).2 = shape b.
Proof.
  unfold protoLine. destruct (request b) as [q|] eqn:E; [|done]. pose proof (protoBodyLine_keeps r q) as H.
  destruct (Rq.protoBodyLine r q). by apply (set_request_quiet b q).
Qed.

Lemma begin_begin n m x : begin n (begin m x) = begin m x.
Proof. unfold begin. destruct (sReq x) eqn:E; [by rewrite E|done]. Qed.
Lemma addScriptLine_shape n c t b : shape (addScriptLine n c t b) = begin n (shape b).
Proof. unfold addScriptLine. quiet_push. apply shape_ensureRequest. Qed.

Lemma scriptLine_steps ln b : mock b = None -> open b = None -> stepping ln b (handleScriptLine ln b).
Proof.
  intros Hm Ho. unfold handleScriptLine. case_match; [done|]. cbv zeta. unfold stepping.
  destruct (Ln.cutScriptMarker ln) as [[body col]|]; [|by apply line_quiet; [|left|]].
  apply line_begun; [done|by left|]. case_match; [|by rewrite addScriptLine_shape, shape_ensureRequest, begin_begin].
  quiet_push. apply shape_ensureRequest.
Qed.
Lemma scriptBlockStart_steps ln b : mock b = None -> open b = None \/ is_Some (request b) -> stepping ln b (handleScriptBlockStart ln b).
Proof.
  intros Hm Ho. unfold handleScriptBlockStart. case_match; [done|]. unfold stepping. rewrite shape_appendLine.
  apply st_line; [cbn; by rewrite Hm|cbn; by destruct Ho as [->|[? ->]]; [left|right; by eexists]|]. right. right. by rewrite <- shape_ensureRequest.
Qed.
Lemma variableLine_steps ln b : mock b = None -> open b = None -> stepping ln b (handleVariableLine ln b).
Proof.
  intros Hm Ho. unfold handleVariableLine. destruct (matchVariableLine _) as [[[tok nm] v]|]; [|done].
  destruct (match Directive.ParseSecretScope tok with (Some s, secret) => (s, secret) | (None, secret) => _ end) as [sc se].
  destruct (addScopedVariable_shape nm (trim v) (Ln.no ln) sc se b); [apply line_quiet|apply line_begun]; try done; by left.
Qed.
Lemma blankLine_steps ln b : mock b = None -> open b = None -> stepping ln b (handleBlankLine ln b).
Proof.
  intros Hm Ho. unfold handleBlankLine. case_match; [done|]. destruct (request b) as [r|] eqn:Er.
  - apply line_quiet; [done|by left|]. case_match; [done|]. case_match; [by quiet_push|].
    pose proof (protoLine_quiet (Ln.raw ln) b) as Hp. destruct (protoLine (Ln.raw ln) b) as [[] b']; [done|]. quiet_push. done.
  - unfold stepping. pose proof (line_quiet ln b b Hm (or_introl Ho) eq_refl) as Hl. rewrite shape_appendLine in Hl.
    unfold addLine in Hl. cbn in Hl. by rewrite Er, Ho in Hl.
Qed.
Lemma bodyContinuation_steps ln b : mock b = None -> open b = None -> stepping ln b (handleBodyContinuation ln b).
Proof.
  intros Hm Ho. unfold handleBodyContinuation. destruct (request b) as [r|] eqn:Er; [|done]. case_match; [|done].
  apply line_quiet; [done|by left|]. by quiet_push.
Qed.
Lemma methodLine_steps ln b : mock b = None -> open b = None -> stepping ln b (handleMethodLine ln b).
Proof.
  intros Hm Ho. unfold handleMethodLine. cbv zeta.
  repeat (case_match; try done); unfold stepping; apply line_begun; try done; try (by left); quiet_push; apply shape_ensureRequest.
Qed.
Lemma headerLine_steps ln b : mock b = None -> open b = None -> stepping ln b (handleHeaderLine ln b).
Proof.
  intros Hm Ho. unfold handleHeaderLine. destruct (request b) as [r|] eqn:Er; [|done]. case_match; [done|]. cbv zeta.
  apply line_quiet; [done|by left|]. pose proof (protoLine_quiet (Ln.raw ln) b) as Hp. destruct (protoLine (Ln.raw ln) b) as [[] b']; cbn in Hp;
    destruct (cutAt _ _) as [[before after]|]; try (case_match; quiet_push; done); quiet_push; try done.
  case_match; [quiet_push; done|]. case_match; quiet_push; done.
Qed.

Lemma descriptionLine_steps ln b :
  mock b = None -> open b = None -> (forall r, request b = Some r -> Http.HasMethod (Rq.http r) = false) ->
  stepped (Ln.no ln) (Ln.raw ln) (shape b) (shape (handleDescriptionLine ln b)).
Proof.
  intros Hm Ho Hmeth. unfold handleDescriptionLine. cbv zeta. set (b1 := ensureRequest (Ln.no ln) b).
  assert (H1 : shape b1 = begin (Ln.no ln) (shape b)) by apply shape_ensureRequest.
  assert (Hr : exists r, request b1 = Some r /\ Http.HasMethod (Rq.http r) = false).
  { unfold b1, ensureRequest. destruct (inRequest b) eqn:E; [|by eexists]. unfold inRequest in E. apply bool_decide_eq_true in E as [r Hr].
    exists r. split; [done|by apply Hmeth]. }
  destruct Hr as (r & -> & ->). apply line_begun; [done|by left|]. by quiet_push.
Qed.

(** ** A whole line *)

Lemma comment_isComment ln : Ln.isComment ln = bool_decide (is_Some (Ln.comment ln)).
Proof. unfold Ln.isComment, Ln.comment. destruct (Ln.stripComment (Ln.text ln)) as [[]|]; [|done]. by rewrite !bool_decide_eq_true_2 by by eexists. Qed.

(** What follows comments in the list of handlers *)
Definition plainHandlers : list (Ln.line -> St -> bool * St) :=
  [handleScriptLine; handleVariableLine; handleBlankLine; handleBodyContinuation; handleMethodLine; handleHeaderLine].

Lemma firstHandler_app hs hs' ln b :
  firstHandler (hs ++ hs') ln b = match firstHandler hs ln b with (true, b') => (true, b') | (false, b') => firstHandler hs' ln b' end.
Proof. revert b. induction hs as [|h hs IH]; intros b; [done|]. cbn. destruct (h ln b) as [[] b']; [done|apply IH]. Qed.

Lemma shape_agrees b b' : shape b' = shape b -> (mock b = None <-> mock b' = None) /\ (open b = None <-> open b' = None) /\ (request b = None <-> request b' = None).
Proof.
  intros H. split_and!.
  - apply (f_equal sMock) in H. cbn in H. destruct (mock b), (mock b'); try done.
  - apply (f_equal sOpen) in H. cbn in H. by destruct (open b), (open b').
  - apply (f_equal sReq) in H. cbn in H. by destruct (request b), (request b').
Qed.

Lemma firstHandler_steps hs ln b :
  Forall (fun h => forall b, mock b = None -> open b = None -> stepping ln b (h ln b)) hs -> mock b = None -> open b = None ->
  stepping ln b (firstHandler hs ln b).
Proof.
  intros H. revert b. induction H as [|h hs Hh _ IH]; intros b Hm Ho; [done|]. cbn. pose proof (Hh b Hm Ho) as H1.
  destruct (h ln b) as [[] b']; [done|]. cbn in H1. destruct (shape_agrees b b' H1) as (H2 & H3 & _).
  pose proof (IH b' (proj1 H2 Hm) (proj1 H3 Ho)) as H4. unfold stepping in *. destruct (firstHandler hs ln b') as [[] b2]; by rewrite <- H1.
Qed.

Lemma plain_steps ln b : mock b = None -> open b = None -> stepping ln b (firstHandler plainHandlers ln b).
Proof.
  intros Hm Ho. apply firstHandler_steps; [|done..]. unfold plainHandlers.
  repeat (constructor; [intros b' Hm' Ho'; first [by apply scriptLine_steps|by apply variableLine_steps|by apply blankLine_steps
    |by apply bodyContinuation_steps|by apply methodLine_steps|by apply headerLine_steps]|]). constructor.
Qed.

(** Once all have refused a line, the request has no method. *)
Lemma refused_no_method ln b b' r : firstHandler plainHandlers ln b = (false, b') -> request b' = Some r -> Http.HasMethod (Rq.http r) = false.
Proof.
  unfold plainHandlers. change [handleScriptLine; ?a; ?c; ?d; ?e; ?f] with ([handleScriptLine; a; c] ++ [d; e; f]).
  rewrite firstHandler_app. destruct (firstHandler [_; _; _] ln b) as [[] b1]; [done|]. cbn.
  destruct (handleBodyContinuation ln b1) as [[] b2] eqn:E1; [done|]. destruct (handleMethodLine ln b2) as [[] b3] eqn:E2; [done|].
  destruct (handleHeaderLine ln b3) as [[] b4] eqn:E3; [done|]. intros [= <-] Hr.
  assert (H1 : b2 = b1) by (unfold handleBodyContinuation in E1; destruct (request b1); [case_match|]; by injection E1).
  assert (H2 : b3 = b2).
  { unfold handleMethodLine in E2. cbv zeta in E2. repeat (case_match; try done); by injection E2. }
  unfold handleHeaderLine in E3. destruct (request b3) as [q|] eqn:Eq; [|injection E3 as <-; congruence].
  destruct (negb (Http.HasMethod (Rq.http q)) || Http.headerDone (Rq.http q)) eqn:Ec; [|done]. injection E3 as <-.
  assert (q = r) as -> by congruence. unfold handleBodyContinuation in E1. rewrite <- H1, <- H2, Eq in E1.
  destruct (Http.HasMethod (Rq.http r)); [|done]. cbn in Ec. by rewrite Ec in E1.
Qed.

(** Markers of scripts do not look like comments. *)
Lemma marker_not_comment ln : Ln.hasScriptMarker ln = true -> Ln.isComment ln = false.
Proof.
  unfold Ln.hasScriptMarker, Ln.isComment, Ln.stripComment, hasPrefix. intros H%bool_decide_eq_true. apply bool_decide_eq_false.
  destruct (Ln.text ln) as [|c t]; cbn in *; [by destruct H|]. case_decide as E; [|by destruct H]. subst c. cbn. intros [? ?]. done.
Qed.
Lemma end_not_comment ln : Ln.isScriptBlockEnd ln = true -> Ln.isComment ln = false.
Proof.
  unfold Ln.isScriptBlockEnd. destruct (cut (bytes ">") (Ln.text ln)) as [after|] eqn:E.
  - intros _. apply marker_not_comment. unfold Ln.hasScriptMarker, hasPrefix. rewrite E. by apply bool_decide_eq_true_2.
  - destruct (cut (bytes "%}") (Ln.text ln)) as [rest|] eqn:E2; [|done]. intros _.
    unfold Ln.isComment, Ln.stripComment, hasPrefix. apply bool_decide_eq_false.
    destruct (Ln.text ln) as [|c t]; cbn in *; [done|]. destruct (decide (c = "%"%char)) as [->|]; [|by case_decide].
    cbn. by intros [? ?].
Qed.

(** A directive is open only where a comment can go on with it. *)
Definition openWhere (ln : Ln.line) (b : St) : Prop := inBlock b = true \/ open b = None \/ (Ln.isSeparator ln = false /\ Ln.isComment ln = true).

Lemma mockLine_stepped ln m b : mock b = Some m -> openWhere ln b -> stepped (Ln.no ln) (Ln.raw ln) (shape b) (shape (handleMockBlockLine m ln b)).
Proof.
  intros Hm Hw. assert (Hs : forall m' b', shape b' = shape b -> shape (set_mock (Some m') b') = shape b).
  { intros m' b' H. unfold shape in *. cbn. rewrite Hm in *. cbn in *. injection H as ? ? ? ? ? ? ? ? ? ?. congruence. }
  assert (Hput : forall m' l es, stepped (Ln.no ln) (Ln.raw ln) (shape b) (shape (set_mock (Some m') (addMockErrors l es b)))).
  { intros m' l es. rewrite Hs by apply quiet. apply st_mock; [cbn; by rewrite Hm|by left]. }
  unfold handleMockBlockLine. destruct (Ln.isSeparator ln) eqn:Es.
  { destruct (separator_shape ln (set_mock (Some (Mb.trimStructuralBlankLine m)) b) Es) as (k & _ & ->). rewrite Hs by done.
    apply st_separator; [right; cbn; by rewrite Hm|]. cbn. destruct Hw as [?|[->|[? ?]]]; [by right|by left|congruence]. }
  cbv zeta. destruct (negb _ && _).
  { destruct (negb (Mb.started _)); [apply Hput|]. destruct (Mb.finishResponse _ _). apply Hput. }
  destruct (Mb.inBody _); [apply Hput|]. case_bool_decide.
  - unfold handleMockPreamble. set (m' := Mb.set_endLine _ _). case_bool_decide; [apply (Hput m' 0%Z [])|].
    destruct (Ln.comment ln) as [[t col]|].
    + pose proof (readDirective_read (Ln.no ln) col t (set_mock (Some m') b)) as Hread. rewrite (Hs m' b eq_refl) in Hread.
      destruct (readDirective (Ln.no ln) col t (set_mock (Some m') b)) as [d b'] eqn:Er. cbn [fst snd] in Hread.
      assert (Hx : stepped (Ln.no ln) (Ln.raw ln) (shape b) (shape b')) by (apply st_mock; [cbn; by rewrite Hm|right; by eexists]).
      destruct d as [d|]; [|done]. destruct (Mb.declare _ _ _) as [errs m2].
      assert (Hmb : exists q, mock b' = Some q).
      { assert (Hq : forall x o x', read (Ln.no ln) x o x' -> sMock x' = sMock x) by (induction 1; done).
        apply Hq in Hread. cbn in Hread. rewrite Hm in Hread. destruct (mock b'); [by eexists|done]. }
      destruct Hmb as [q Hmb]. replace (shape (set_mock (Some m2) _)) with (shape b'); [done|].
      rewrite <- (quiet (h := addMockErrors (start_ d) errs) b'). unfold shape. cbn.
      assert (Hk : forall y, sMock (shape y) = sMock (shape b') -> bool_decide (is_Some (mock y)) = true) by (intros y Hy; cbn in Hy; by rewrite Hy, Hmb).
      rewrite (Hk (addMockErrors (start_ d) errs b')); [done|]. by rewrite (quiet (h := addMockErrors (start_ d) errs) b').
    + destruct (Mb.statusLine _ _) as [errs m2]. rewrite Hs; [apply st_mock; [cbn; by rewrite Hm|by left]|]. quiet_push. by apply Hs.
  - case_bool_decide; [apply Hput|]. destruct (Mb.addHeader _ _). apply Hput.
Qed.

Lemma scriptLine_stepped ln b :
  mock b = None -> inBlock b = false -> is_Some (request b) -> openWhere ln b ->
  stepped (Ln.no ln) (Ln.raw ln) (shape b) (shape (handleScriptBlockLine ln b)).
Proof.
  intros Hm Hb Hr Hw. unfold handleScriptBlockLine. destruct (Ln.isScriptBlockEnd ln) eqn:Ee.
  { rewrite shape_endScriptBlock, shape_appendLine. apply st_endscript; [cbn; by rewrite Hm|]. right. cbn. destruct Hr as [q ->]. by eexists. }
  pose proof (separator_steps ln b Hm Hb) as Hsep. destruct (handleSeparator ln b) as [[] b'].
  - apply Hsep. destruct Hw as [?|[?|[? ?]]]; [congruence|by left|by right].
  - assert (Hq : shape b' = shape b).
    { apply Hsep. destruct Hw as [?|[?|[? ?]]]; [congruence|by left|by right]. }
    destruct (match Ln.cutScriptMarker ln with Some x => x | None => _ end) as [body col].
    apply line_begun; [done|by right|]. by rewrite addScriptLine_shape, Hq.
Qed.

Lemma line_stepped ln b :
  (inScriptBlock b = true -> is_Some (request b)) -> openWhere ln b ->
  stepped (Ln.no ln) (Ln.raw ln) (shape b) (shape
    match mock b with
    | Some m => handleMockBlockLine m ln b
    | None =>
        if inBlock b then (handleBlockComment iter ln b).2
        else if inScriptBlock b then handleScriptBlockLine ln b
        else match handleScriptBlockStart ln b with
             | (true, b) => b
             | (false, b) =>
                 match firstHandler (lineHandlers iter) ln (flushScriptIfNeeded ln b) with
                 | (true, b) => b
                 | (false, b) => handleDescriptionLine ln b
                 end
             end
    end).
Proof.
  intros Hscr Hw. destruct (mock b) as [m|] eqn:Hm; [by apply mockLine_stepped|].
  destruct (inBlock b) eqn:Hb.
  { pose proof (blockComment_steps ln b Hm) as H. unfold stepping in H. destruct (handleBlockComment iter ln b) as [[] b'] eqn:E; [done|].
    unfold handleBlockComment in E. rewrite Hb in E. destruct (Ln.parseBlockCommentLine _) as [? []]; by injection E. }
  destruct (inScriptBlock b) eqn:Hs; [by apply scriptLine_stepped; auto|].
  assert (Hopen : open b = None \/ (Ln.isSeparator ln = false /\ Ln.isComment ln = true)) by (destruct Hw as [?|?]; [congruence|done]).
  destruct (handleScriptBlockStart ln b) as [[] b1] eqn:Estart.
  { pose proof (scriptBlockStart_steps ln b Hm) as H. rewrite Estart in H. apply H. left. destruct Hopen as [?|[_ Hc]]; [done|].
    unfold handleScriptBlockStart, Ln.isScriptBlockStart in Estart. destruct (Ln.hasScriptMarker ln) eqn:Em; [|done].
    apply marker_not_comment in Em. congruence. }
  assert (b1 = b) as -> by (unfold handleScriptBlockStart in Estart; case_match; by injection Estart).
  assert (H0 : shape (flushScriptIfNeeded ln b) = shape b) by (unfold flushScriptIfNeeded; case_match; quiet_push; done).
  set (b0 := flushScriptIfNeeded ln b) in *. clearbody b0. rewrite <- H0. destruct (shape_agrees b b0 H0) as (Hm0 & Ho0 & _).
  apply Hm0 in Hm. assert (Hb0 : inBlock b0 = false) by (apply (f_equal sBlock) in H0; cbn in H0; congruence).
  rewrite Ho0 in Hopen. clear Hscr Hw Hb Hs Estart H0 Hm0 Ho0 b. rename b0 into b.
  change (lineHandlers iter) with ([handleSeparator; handleMultipartBodyLine; handleBlockComment iter; handleCommentLine iter] ++ plainHandlers).
  rewrite firstHandler_app. cbn [firstHandler].
  pose proof (separator_steps ln b Hm Hb0) as H1. destruct (handleSeparator ln b) as [[] b1]; [apply H1; tauto|].
  assert (Hq1 : shape b1 = shape b) by (apply H1; tauto). clear H1. rewrite <- Hq1.
  destruct (shape_agrees b b1 Hq1) as (Hm1 & Ho1 & _). apply Hm1 in Hm. rewrite Ho1 in Hopen. clear Hb0 Hq1 Hm1 Ho1 b. rename b1 into b.
  pose proof (multipart_steps ln b Hm) as H1. destruct (handleMultipartBodyLine ln b) as [[] b1]; [done|].
  cbn in H1. rewrite <- H1. destruct (shape_agrees b b1 H1) as (Hm1 & Ho1 & _). apply Hm1 in Hm. rewrite Ho1 in Hopen.
  pose proof (blockComment_steps ln b1 Hm) as H2. destruct (handleBlockComment iter ln b1) as [[] b2]; [done|].
  cbn in H2. rewrite <- H2. destruct (shape_agrees b1 b2 H2) as (Hm2 & Ho2 & _). apply Hm2 in Hm. rewrite Ho2 in Hopen.
  pose proof (commentLine_steps ln b2 Hm) as H3. pose proof (comment_isComment ln) as Hc. unfold handleCommentLine in *.
  destruct (Ln.comment ln) as [[t col]|]; [done|]. rewrite Hc in Hopen. destruct Hopen as [Ho|[_ ?]]; [|done].
  pose proof (plain_steps ln b2 Hm Ho) as H4. destruct (firstHandler plainHandlers ln b2) as [[] b3] eqn:Ef; [done|].
  cbn in H4. rewrite <- H4. destruct (shape_agrees b2 b3 H4) as (Hm4 & Ho4 & _).
  apply descriptionLine_steps; [by apply Hm4|by apply Ho4|]. intros r Hr. by eapply refused_no_method.
Qed.

Lemma processLine_stepped n r b :
  (inScriptBlock b = true -> is_Some (request b)) -> stepped n r (shape b) (shape (processLine iter n r b)).
Proof.
  intros Hscr. unfold processLine. cbv zeta. set (ln := Ln.makeLine n r). change n with (Ln.no ln) at 1. change r with (Ln.raw ln) at 1.
  unfold closeOpenDirective. destruct (open b) as [o|] eqn:Eo; [|apply line_stepped; [done|by right; left]].
  destruct (inBlock b || negb (Ln.isSeparator ln) && Ln.isComment ln) eqn:Ec.
  - apply line_stepped; [done|]. apply orb_true_iff in Ec as [Ec|Ec]; [by left|right; right].
    apply andb_true_iff in Ec as [Ec ?]. by apply negb_true_iff in Ec.
  - assert (Hf : shape (failOpenDirective b) = with_open None [] (shape b)) by (apply fail_shape; by eexists).
    apply st_close; [cbn; rewrite Eo; by eexists|]. rewrite <- Hf. apply line_stepped.
    + intros Hs. apply (f_equal sScript) in Hf as Hf1. apply (f_equal sReq) in Hf. cbn in Hf, Hf1. rewrite Hf1 in Hs. destruct (Hscr Hs) as [q Hq].
      rewrite Hq in Hf. destruct (request (failOpenDirective b)); [by eexists|done].
    + right. left. apply (f_equal sOpen) in Hf. cbn in Hf. by destruct (open (failOpenDirective b)).
Qed.
End steps.

(** ** Where requests lie *)

Section places.
Implicit Types (x : Shape) (ls : list bytestr).

(** The lines [i] to [j], from 1. *)
Definition slice (ls : list bytestr) (i j : Z) : list bytestr := take (Z.to_nat (j - i + 1)) (drop (Z.to_nat (i - 1)) ls).
Definition from (ls : list bytestr) (i : Z) : list bytestr := drop (Z.to_nat (i - 1)) ls.
Definition placedIn (ls : list bytestr) (p : placed) : Prop :=
  (1 <= p.1.1 <= p.1.2)%Z /\ (p.1.2 <= Z.of_nat (length ls))%Z /\ p.2 = joinLines (slice ls p.1.1 p.1.2).
(** In order, one behind the other, between two lines *)
Fixpoint chain (lo : Z) (ps : list placed) (hi : Z) : Prop :=
  match ps with [] => (lo < hi)%Z | p :: ps' => (lo < p.1.1 <= p.1.2)%Z /\ chain p.1.2 ps' hi end.

(** The line the next request can start at *)
Definition ceiling (ls : list bytestr) (x : Shape) : Z :=
  match sReq x with
  | Some r => r.1
  | None => match sOpen x with Some s => s | None => Z.of_nat (length ls) + 1 end
  end.

(** What holds of a shape after the lines [ls]: what is open starts at [top] or
    before, and has the lines from there on. *)
Record places (ls : list bytestr) (top : Z) (x : Shape) : Prop := {
  p_req : forall s l, sReq x = Some (s, l) -> (1 <= s <= top)%Z /\ l = from ls s /\ sHeld x = [];
  p_mock : sMock x = true -> sReq x = None /\ sHeld x = [];
  p_open : forall s, sOpen x = Some s -> (1 <= s <= top)%Z;
  p_held : sReq x = None -> sMock x = false -> forall s, sOpen x = Some s -> sHeld x = from ls s;
  p_none : sOpen x = None -> sHeld x = [];
  p_chain : chain 0 (sReqs x) (ceiling ls x);
  p_reqs : Forall (placedIn ls) (sReqs x)
}.

Lemma chain_mono lo ps hi hi' : chain lo ps hi -> (hi <= hi')%Z -> chain lo ps hi'.
Proof. revert lo. induction ps as [|p ps IH]; intros lo; cbn; [lia|]. intros [? ?] ?. split; [done|by apply IH]. Qed.
Lemma chain_snoc lo ps p hi : chain lo ps p.1.1 -> (p.1.1 <= p.1.2 < hi)%Z -> chain lo (ps ++ [p]) hi.
Proof.
  revert lo. induction ps as [|q ps IH]; intros lo; cbn; [intros; split; lia|]. intros [? ?] ?. split; [done|by apply IH].
Qed.

Lemma from_app ls r s : (1 <= s <= Z.of_nat (length ls) + 1)%Z -> from (ls ++ [r]) s = from ls s ++ [r].
Proof. intros H. unfold from. rewrite drop_app_le by lia. done. Qed.
Lemma from_all ls s : (1 <= s)%Z -> slice ls s (Z.of_nat (length ls)) = from ls s.
Proof. intros H. unfold slice, from. apply take_ge. rewrite length_drop. lia. Qed.
Lemma from_end ls : from ls (Z.of_nat (length ls) + 1) = [].
Proof. unfold from. apply drop_ge. lia. Qed.
Lemma placedIn_app ls ls' p : placedIn ls p -> placedIn (ls ++ ls') p.
Proof.
  intros (H1 & H2 & H3). split; [done|]. rewrite length_app. split; [lia|]. rewrite H3. f_equal. unfold slice.
  rewrite drop_app_le by lia. rewrite take_app_le; [done|]. rewrite length_drop. lia.
Qed.

Lemma places_top ls top top' x : places ls top x -> (top <= top')%Z -> places ls top' x.
Proof.
  intros [H1 H2 H3 H4 H5 H6 H7] Ht. constructor; try done.
  - intros s l Hs. destruct (H1 s l Hs) as (? & ? & ?). split; [lia|done].
  - intros s Hs. specialize (H3 s Hs). lia.
Qed.

(** A request that was open before the line ends: its last line is the last one. *)
Lemma placeOf_in ls s : (1 <= s <= Z.of_nat (length ls))%Z ->
  placedIn ls (placeOf (s, from ls s)) /\ (placeOf (s, from ls s)).1 = (s, Z.of_nat (length ls)).
Proof.
  intros H. assert (Hp : (placeOf (s, from ls s)).1 = (s, Z.of_nat (length ls))).
  { unfold placeOf, from. cbn. rewrite length_drop. f_equal. lia. }
  split; [|done]. unfold placedIn. rewrite Hp. cbn [fst snd]. split; [lia|]. split; [done|]. by rewrite from_all by lia.
Qed.

Notation size ls := (Z.of_nat (length ls)).

Lemma endReq_places ls k x :
  places ls (size ls) x -> sOpen x = None ->
  sReq (endReq k x) = None /\ chain 0 (sReqs (endReq k x)) (size ls + 1) /\ Forall (placedIn ls) (sReqs (endReq k x)) /\
    sHeld (endReq k x) = [] /\ sOpen (endReq k x) = None /\ sMock (endReq k x) = sMock x.
Proof.
  intros [H1 H2 H3 H4 H5 H6 H7] Ho. unfold endReq, ceiling in *. destruct (sReq x) as [[s l]|] eqn:E.
  - destruct (H1 s l eq_refl) as (Hs & -> & Hh). destruct (placeOf_in ls s Hs) as [Hp Hq]. cbn in H6.
    unfold endScript. destruct (sScript x); cbn; (split; [done|]);
      (destruct k; [split; [apply chain_snoc; rewrite Hq; [done|cbn; lia]|split; [apply Forall_app; auto|auto]]
                  |rewrite app_nil_r; split; [eapply chain_mono; [exact H6|lia]|auto]]).
  - rewrite Ho in H6. split_and!; auto.
Qed.

(** After a directive that starts at [s] was read, and after its turn *)
Record ready (ls : list bytestr) (s : Z) (x : Shape) : Prop := {
  r_start : (1 <= s <= size ls + 1)%Z;
  r_places : is_Some (sReq x) -> places ls (size ls) x;
  r_none : sReq x = None -> sHeld x = from ls s /\ chain 0 (sReqs x) s /\ Forall (placedIn ls) (sReqs x);
  r_open : sOpen x = None;
  r_mock : sMock x = false
}.
Record acted (ls : list bytestr) (x : Shape) : Prop := {
  a_req : forall s l, sReq x = Some (s, l) -> (1 <= s <= size ls + 1)%Z /\ l ++ sHeld x = from ls s;
  a_open : sOpen x = None;
  a_mock : sMock x = true -> sReq x = None;
  a_chain : chain 0 (sReqs x) (ceiling ls x);
  a_reqs : Forall (placedIn ls) (sReqs x)
}.

Lemma read_places ls x o x' :
  places ls (size ls) x -> read (size ls + 1) x o x' ->
  match o with None => places ls (size ls + 1) x' | Some s => sMock x = false -> ready ls s x' end /\ sMock x' = sMock x.
Proof.
  intros Hp Hr. assert (Hceil : forall y, sReq y = sReq x -> sReqs y = sReqs x -> sReq x = None -> (ceiling ls y <= size ls + 1)%Z ->
     (ceiling ls x <= ceiling ls y)%Z -> chain 0 (sReqs y) (ceiling ls y)).
  { intros y _ -> _ _ Hle. eapply chain_mono; [apply (p_chain _ _ _ Hp)|done]. }
  revert Hp Hceil. induction Hr as [x|x Ho|x Ho|x s Ho|x r x' _ IH]; intros Hp Hceil.
  - split; [|done]. apply places_top with (size ls); [done|lia].
  - split; [|done]. pose proof (p_none _ _ _ Hp Ho) as Hh. destruct Hp as [H1 H2 H3 H4 H5 H6 H7]. constructor; cbn; try done.
    + intros s l Hs. destruct (H1 s l Hs) as (? & ? & ?). split; [lia|done].
    + intros s [= <-]. lia.
    + intros _ _ s [= <-]. by rewrite Hh, from_end.
    + unfold ceiling in *. cbn. destruct (sReq x); [done|by rewrite Ho in H6].
  - split; [|done]. intros Hm. constructor; [lia|done| |done|done]. intros Hr. destruct Hp as [H1 H2 H3 H4 H5 H6 H7].
    rewrite H5, from_end by done. unfold ceiling in H6. rewrite Hr, Ho in H6. done.
  - split; [|done]. intros Hm. pose proof (p_open _ _ _ Hp s Ho) as Hs. constructor; [lia| |..|done|done].
    + intros [[s' l] Hr]. destruct Hp as [H1 H2 H3 H4 H5 H6 H7]. cbn in Hr. constructor; cbn; try done.
      * intros _. by destruct (H1 s' l Hr) as (? & ? & ?).
      * unfold ceiling in *. cbn. by rewrite Hr in *.
    + cbn. intros Hr. split; [by apply (p_held _ _ _ Hp)|]. destruct Hp as [H1 H2 H3 H4 H5 H6 H7].
      unfold ceiling in H6. by rewrite Hr, Ho in H6.
  - assert (Hc : places ls (size ls) (with_open None [] x)).
    { destruct Hp as [H1 H2 H3 H4 H5 H6 H7]. constructor; cbn; try done.
      - intros s l Hs. destruct (H1 s l Hs) as (? & ? & ?). done.
      - intros Hm. by destruct (H2 Hm).
      - unfold ceiling in *. cbn. destruct (sReq x); [done|]. destruct (sOpen x) as [s|]; [|done].
        eapply chain_mono; [exact H6|]. specialize (H3 s eq_refl). lia. }
    apply IH; [done|]. intros y H1 -> H2 _ Hle. eapply chain_mono; [apply (p_chain _ _ _ Hc)|done].
Qed.

Lemma closeWf_ready ln x : sReq (closeWf ln x) = sReq x /\ sReqs (closeWf ln x) = sReqs x. Proof. done. Qed.

Lemma turn_acted ls s x x' : ready ls s x -> turn s x x' -> acted ls x'.
Proof.
  intros [Hs Hp Hn Ho Hm] Ht.
  assert (Hstay : acted ls x).
  { destruct (sReq x) as [[s' l]|] eqn:E.
    - destruct (Hp ltac:(by eexists)) as [H1 H2 H3 H4 H5 H6 H7]. constructor; try done; [|congruence].
      intros s0 l0 Hs0. destruct (H1 s0 l0 Hs0) as (? & -> & ->). rewrite app_nil_r. split; [lia|done].
    - destruct (Hn eq_refl) as (Hh & Hc & Hr). constructor; try done; [congruence|]. unfold ceiling. rewrite E, Ho.
      eapply chain_mono; [exact Hc|lia]. }
  assert (Hend : forall k, acted ls (endReq k x) /\ sReq (endReq k x) = None).
  { intros k. destruct (sReq x) as [[s' l]|] eqn:E.
    - destruct (endReq_places ls k x (Hp ltac:(by eexists)) Ho) as (H1 & H2 & H3 & H4 & H5 & H6).
      split; [|done]. constructor; try done; [congruence|]. unfold ceiling. by rewrite H1, H5.
    - unfold endReq. rewrite E. done. }
  destruct Ht as [x|x|x k|x k w _ _|x w w' _ _|x Hr _].
  - done.
  - unfold begin. destruct (sReq x) as [[s' l]|] eqn:E; [done|]. destruct (Hn eq_refl) as (Hh & Hc & Hr).
    constructor; cbn; try done; [|congruence]. intros s0 l0 [= <- <-]. done.
  - apply Hend.
  - destruct (Hend k) as [[H1 H2 H3 H4 H5] H6]. constructor; cbn; try done.
  - destruct Hstay as [H1 H2 H3 H4 H5]. constructor; cbn; done.
  - destruct Hstay as [H1 H2 H3 H4 H5]. constructor; cbn; done.
Qed.

Lemma flushHeld_places ls x : acted ls x -> places ls (size ls + 1) (flushHeld x).
Proof.
  intros [H1 H2 H3 H4 H5]. constructor; cbn; try done.
  - intros s l Hs. destruct (sReq x) as [[s' l']|]; [|done]. cbn in Hs. injection Hs as <- <-. destruct (H1 s' l' eq_refl). done.
  - intros Hm. by rewrite (H3 Hm).
  - intros s Hs. congruence.
  - intros _ _ s Hs. congruence.
  - unfold ceiling in *. cbn. by destruct (sReq x) as [[]|].
Qed.

Lemma commented_places ls x x' :
  places ls (size ls) x -> sMock x = false -> commented (size ls + 1) x x' -> places ls (size ls + 1) x'.
Proof.
  intros Hp Hm Hc. destruct Hc as [x x' Hr|x s x1 x2 Hr Ht].
  - by apply read_places in Hr as [? _].
  - apply read_places in Hr as [Hr _]; [|done]. apply flushHeld_places. eapply turn_acted; [by apply Hr|done].
Qed.

Lemma addLine_places ls r x :
  places ls (size ls + 1) x -> (sMock x = true -> sOpen x = None) -> places (ls ++ [r]) (size (ls ++ [r])) (addLine r x).
Proof.
  intros [H1 H2 H3 H4 H5 H6 H7] Hmo. rewrite length_app. cbn [length]. replace (Z.of_nat (length ls + 1)) with (size ls + 1)%Z by lia.
  assert (H7' : Forall (placedIn (ls ++ [r])) (sReqs x)) by (eapply Forall_impl; [exact H7|]; intros; by apply placedIn_app).
  assert (Hc : chain 0 (sReqs x) (ceiling (ls ++ [r]) x)).
  { eapply chain_mono; [exact H6|]. unfold ceiling. rewrite length_app. cbn. destruct (sReq x); [done|]. destruct (sOpen x); lia. }
  unfold addLine. destruct (sReq x) as [[s l]|] eqn:E; [|destruct (sOpen x) as [s|] eqn:Eo].
  - destruct (H1 s l eq_refl) as (Hs & Hl & Hh). constructor; cbn; rewrite ?E; try done.
    + intros s0 l0 [= <- <-]. split; [done|]. split; [|done]. by rewrite from_app, Hl by lia.
    + intros Hm. by destruct (H2 Hm).
    + unfold ceiling in *. cbn. rewrite E in *. done.
  - constructor; cbn; rewrite ?E; try done.
    + intros Hm. by specialize (Hmo Hm).
    + intros _ Hm s0 [= ->]. rewrite from_app by (specialize (H3 s0 eq_refl); lia). by rewrite (H4 eq_refl Hm s0 eq_refl).
    + unfold ceiling in *. cbn. rewrite E in *. by rewrite Eo in Hc.
  - constructor; rewrite ?E, ?Eo; try done.
Qed.

(** A block of a mock inside an open block comment *)
Definition tangled (x : Shape) : bool := sMock x && sBlock x.

Lemma read_mock n x o x' : read n x o x' -> sMock x' = sMock x /\ (is_Some o -> sOpen x' = None) /\ sBlock x' = sBlock x.
Proof. induction 1; cbn in *; split_and!; try done; try tauto; by intros [? ?]. Qed.

Lemma close_places ls top x : places ls top x -> (top <= size ls + 1)%Z -> places ls top (with_open None [] x).
Proof.
  intros [H1 H2 H3 H4 H5 H6 H7] Ht. constructor; cbn; try done.
  - intros s l Hs. destruct (H1 s l Hs) as (? & ? & ?). done.
  - intros Hm. by destruct (H2 Hm).
  - unfold ceiling in *. cbn. destruct (sReq x); [done|]. destruct (sOpen x) as [s|]; [|done].
    eapply chain_mono; [exact H6|]. specialize (H3 s eq_refl). lia.
Qed.

(** A mock holds no lines, whatever its comments say. *)
Lemma read_places_mock ls x o x' : places ls (size ls) x -> sMock x = true -> read (size ls + 1) x o x' -> places ls (size ls + 1) x'.
Proof.
  intros Hp Hm Hr. revert Hp Hm. induction Hr as [x|x Ho|x Ho|x s Ho|x r x' _ IH]; intros Hp Hm.
  1, 3: apply places_top with (size ls); [done|lia].
  - apply (proj1 (read_places ls x None _ Hp (read_opened _ x Ho))).
  - destruct (p_mock _ _ _ Hp Hm) as [Hr Hh]. rewrite Hh. apply places_top with (size ls); [|lia]. apply close_places; [done|lia].
  - apply IH; [|done]. apply close_places; [done|lia].
Qed.

Lemma begin_places ls x : places ls (size ls + 1) x -> sOpen x = None \/ is_Some (sReq x) -> sMock x = false -> places ls (size ls + 1) (begin (size ls + 1) x).
Proof.
  intros Hp Ho Hm. unfold begin. destruct (sReq x) as [q|] eqn:E; [done|]. destruct Ho as [Ho|[? ?]]; [|done].
  destruct Hp as [H1 H2 H3 H4 H5 H6 H7]. constructor; cbn; try done; [|congruence|].
  - intros s l [= <- <-]. rewrite from_end. split; [lia|]. by rewrite H5.
  - unfold ceiling in *. cbn. by rewrite E, Ho in H6.
Qed.

Lemma begin_mock n x : sMock (begin n x) = sMock x.
Proof. unfold begin. by destruct (sReq x). Qed.
Lemma with_block_places ls top i x : places ls top x -> places ls top (with_block i x).
Proof. intros [H1 H2 H3 H4 H5 H6 H7]. by constructor. Qed.
Lemma with_script_places ls top i n x : places ls top x -> places ls top (with_script i n x).
Proof. intros [H1 H2 H3 H4 H5 H6 H7]. by constructor. Qed.

Lemma separate_places ls k x :
  places ls (size ls) x -> sOpen x = None -> let y := separate k (size ls + 1) x in
  places ls (size ls) y /\ sReq y = None /\ sMock y = false /\ sOpen y = None /\ sHeld y = [].
Proof.
  intros Hp Ho y. assert (H0 : places ls (size ls) (closeWf (size ls) (with_mock false x))).
  { destruct Hp as [H1 H2 H3 H4 H5 H6 H7]. constructor; cbn; try done; congruence. }
  unfold y, separate. replace (size ls + 1 - 1)%Z with (size ls) by lia.
  destruct (endReq_places ls k _ H0 Ho) as (H1 & H2 & H3 & H4 & H5 & H6). split_and!; try done.
  constructor; rewrite ?H1, ?H4, ?H5; try done. unfold ceiling. by rewrite H1, H5.
Qed.

Lemma commented_mock n x x' : commented n x x' -> sMock x = false -> sMock x' = true -> sOpen x' = None.
Proof.
  intros Hc H1 H2. destruct Hc as [x x1 Hr|x s x1 x2 Hr Ht].
  - apply read_mock in Hr as (Hm & _). congruence.
  - apply read_mock in Hr as (Hm & Ho & _). specialize (Ho ltac:(by eexists)). cbn.
    destruct Ht; cbn in *; try done; unfold begin, endReq, endScript in *; repeat case_match; done.
Qed.

Lemma step_places ls r x x' :
  places ls (size ls) x -> tangled x = false -> stepped (size ls + 1) r x x' -> places (ls ++ [r]) (size (ls ++ [r])) x'.
Proof.
  intros Hp Ht Hs.
  assert (Hlen : (size (ls ++ [r]) = size ls + 1)%Z) by (rewrite length_app; cbn; lia).
  assert (Hgrow : forall y, sReq y = None -> sMock y = true \/ sOpen y = None -> places ls (size ls + 1) y -> places (ls ++ [r]) (size (ls ++ [r])) y).
  { intros y Hr Hmo [H1 H2 H3 H4 H5 H6 H7]. rewrite Hlen. constructor; try done; [congruence| | |].
    - intros _ Hm s Hs'. destruct Hmo; congruence.
    - eapply chain_mono; [exact H6|]. unfold ceiling. rewrite Hr, Hlen. destruct (sOpen y); lia.
    - eapply Forall_impl; [exact H7|]. intros; by apply placedIn_app. }
  induction Hs as [x x' Hm Hx|x x1 i Hm Hc|x x1 Hm Ho Hx|x Hm Ho|x k Hb Ho|x x' Ho Hs IH];
    pose proof (places_top _ _ (size ls + 1) _ Hp ltac:(lia)) as Hp1.
  - destruct (p_mock _ _ _ Hp Hm) as [Hr0 _].
    assert (Hx' : places ls (size ls + 1) x' /\ sMock x' = true).
    { destruct Hx as [->|[o Hr]]; [done|]. split; [by eapply read_places_mock|]. apply read_mock in Hr as (-> & _). done. }
    destruct Hx' as [Hx' Hm']. apply Hgrow; [by apply (p_mock _ _ _ Hx')|by left|done].
  - apply with_block_places, addLine_places; [destruct Hc as [->|Hc]; [done|by eapply commented_places]|].
    intros Hm1. destruct Hc as [->|Hc]; [congruence|by eapply commented_mock].
  - apply addLine_places; [|intros Hm1; exfalso; destruct Hx as [->|[->| ->]]; cbn in Hm1; rewrite ?begin_mock in Hm1; congruence].
    destruct Hx as [->|[->| ->]]; [done|by apply begin_places|by apply with_script_places, begin_places].
  - unfold endScript. assert (places (ls ++ [r]) (size (ls ++ [r])) (addLine r x)) by (apply addLine_places; [done|congruence]).
    case_match; [by apply with_script_places|done].
  - assert (Ho' : sOpen x = None).
    { destruct Ho as [?|Hb']; [done|]. unfold tangled in Ht. destruct Hb as [Hb|Hm]; [congruence|]. by rewrite Hm, Hb' in Ht. }
    destruct (separate_places ls k x Hp Ho') as (Hq & Hr & Hm & Hoo & _). apply Hgrow; [done|by right|].
    apply places_top with (size ls); [done|lia].
  - apply IH; [|done]. apply close_places; [done|lia].
Qed.

(** ** Scripts belong to a request *)

Definition scripted (x : Shape) : Prop :=
  (sScript x = true -> is_Some (sReq x)) /\ (sScript x = false -> sScriptLine x = 0%Z).

Lemma begin_scripted n x : scripted x -> scripted (begin n x).
Proof. unfold begin. destruct (sReq x) eqn:E; [done|]. intros [H1 H2]. split; cbn; [by eexists|done]. Qed.
Lemma endReq_scripted k x : scripted x -> scripted (endReq k x) /\ sScript (endReq k x) = false.
Proof.
  intros [H1 H2]. unfold endReq, endScript. destruct (sReq x) as [q|] eqn:E.
  - destruct (sScript x) eqn:Es; cbn; repeat split; cbn; try done; rewrite Es; done.
  - destruct (sScript x) eqn:Es; [by destruct H1|]. split; [|done]. split; [congruence|]. intros _. by apply H2.
Qed.
Lemma addLine_scripted r x : scripted x -> scripted (addLine r x).
Proof.
  unfold addLine. intros [H1 H2]. destruct (sReq x) eqn:E, (sOpen x) eqn:Eo; split; cbn; rewrite ?E; try done; intros _; by eexists.
Qed.
Lemma flushHeld_scripted x : scripted x -> scripted (flushHeld x).
Proof. unfold scripted. cbn. intros [H1 H2]. split; [|done]. intros Hs. by destruct (H1 Hs) as [? ->]. Qed.
Lemma turn_scripted s x x' : turn s x x' -> scripted x -> scripted x'.
Proof.
  destruct 1 as [x|x|x k|x k w _ _|x w w' _ _|x Hr _]; intros Hx; try done; [by apply begin_scripted|by apply endReq_scripted|].
  by destruct (endReq_scripted k x Hx).
Qed.
Lemma read_scripted n x o x' : read n x o x' -> scripted x -> scripted x'.
Proof. induction 1; auto. Qed.
Lemma endScript_scripted x : scripted x -> scripted (endScript x).
Proof. unfold endScript. destruct (sScript x) eqn:Es; [|done]. by split. Qed.
Lemma commented_scripted n x x' : commented n x x' -> scripted x -> scripted x'.
Proof.
  destruct 1 as [x x' Hr|x s x1 x2 Hr Ht]; intros Hx; [by eapply read_scripted|].
  eapply flushHeld_scripted, turn_scripted; [exact Ht|]. by eapply read_scripted.
Qed.
Lemma step_scripted n r x x' : stepped n r x x' -> scripted x -> scripted x'.
Proof.
  induction 1 as [x x' Hm Hx|x x1 i Hm Hc|x x1 Hm Ho Hx|x Hm Ho|x k Hb Ho|x x' Ho Hs IH]; intros H.
  - destruct Hx as [->|[o Hr]]; [done|by eapply read_scripted].
  - apply (addLine_scripted r x1). destruct Hc as [->|Hc]; [done|by eapply commented_scripted].
  - apply addLine_scripted. destruct Hx as [->|[->| ->]]; [done|by apply begin_scripted|].
    split; [|done]. intros _. cbn. unfold begin. destruct (sReq x) eqn:E; [rewrite E|]; by eexists.
  - by apply endScript_scripted, addLine_scripted.
  - by apply endReq_scripted.
  - by apply IH.
Qed.

(** ** Workflows *)

(** What a finished workflow is *)
Definition wfOk {unicode : Unicode} (w : Wb.workflow) : Prop :=
  exists b ln e, builderOk b /\ (1 <= Wb.bStart b)%Z /\ Wb.flushWorkflow ln b = (e, Some w).

Section flows.
Context {unicode : Unicode}.

Record flows (top : Z) (x : Shape) : Prop := {
  f_wf : forall w, sWf x = Some w -> builderOk w /\ (1 <= Wb.bStart w <= top)%Z /\ (forall s, sOpen x = Some s -> (Wb.bStart w <= s)%Z);
  f_open : forall s, sOpen x = Some s -> (1 <= s <= top)%Z;
  f_done : Forall wfOk (sWfs x)
}.

Lemma closed_ok ln w : (forall b, w = Some b -> builderOk b /\ (1 <= Wb.bStart b)%Z) -> Forall wfOk (closed ln w).
Proof.
  intros H. unfold closed. destruct w as [b|]; [|done]. destruct (H b eq_refl) as [Hok Hb]. destruct (Wb.flushWorkflow ln b) as [e [w|]] eqn:E; [|done].
  constructor; [|done]. by exists b, ln, e.
Qed.
Lemma flows_top top top' x : flows top x -> (top <= top')%Z -> flows top' x.
Proof.
  intros [H1 H2 H3] Ht. constructor; [|intros s Hs; specialize (H2 s Hs); lia|done].
  intros w Hw. destruct (H1 w Hw) as (? & ? & ?). split_and!; [done|lia|lia|done].
Qed.
(** A shape with the same workflow, done workflows, and no other open directive *)
Lemma flows_same top x y : flows top x -> sWf y = sWf x -> sWfs y = sWfs x -> sOpen y = None \/ sOpen y = sOpen x -> flows top y.
Proof.
  intros [H1 H2 H3] Hw Hws Ho. constructor; [|destruct Ho as [-> | ->]; [done|done]|by rewrite Hws].
  rewrite Hw. intros w E. destruct (H1 w E) as (? & ? & ?). split_and!; try done; try lia. destruct Ho as [-> | ->]; done.
Qed.
Lemma flows_closed ln top x y : flows top x -> sWf y = None -> sWfs y = sWfs x ++ closed ln (sWf x) -> sOpen y = None \/ sOpen y = sOpen x -> flows top y.
Proof.
  intros [H1 H2 H3] Hw Hws Ho. constructor; [by rewrite Hw|destruct Ho as [-> | ->]; done|]. rewrite Hws. apply Forall_app. split; [done|].
  apply closed_ok. intros b Hb. destruct (H1 b Hb) as (? & ? & ?). split; [done|lia].
Qed.

Lemma begin_flows n top x : flows top x -> flows top (begin n x).
Proof. intros H. unfold begin. destruct (sReq x); [done|]. by eapply (flows_closed (n - 1)); [exact H| | |right]. Qed.
Lemma endReq_same k x : sWf (endReq k x) = sWf x /\ sWfs (endReq k x) = sWfs x /\ sOpen (endReq k x) = sOpen x.
Proof. unfold endReq, endScript. repeat case_match; done. Qed.
Lemma addLine_flows r top x : flows top x -> flows top (addLine r x).
Proof. intros H. apply flows_same with x; [done|..]; unfold addLine; repeat case_match; cbn; auto. Qed.

Lemma read_flows n x o x' : flows n x -> read n x o x' -> (1 <= n)%Z ->
  flows n x' /\ forall s, o = Some s -> (1 <= s <= n)%Z /\ sOpen x' = None /\ forall w, sWf x' = Some w -> (Wb.bStart w <= s)%Z.
Proof.
  intros H Hr Hn. revert H. induction Hr as [x|x Ho|x Ho|x s Ho|x r x' _ IH]; intros H.
  - by split.
  - split; [|done]. destruct H as [H1 H2 H3]. constructor; cbn; [|intros s [= <-]; lia|done].
    intros w Hw. destruct (H1 w Hw) as (? & ? & ?). split_and!; [done|lia|lia|]. intros s [= <-]. lia.
  - split; [done|]. intros s [= <-]. split_and!; [lia|lia|done|]. intros w Hw. destruct (f_wf _ _ H w Hw) as (? & ? & ?). lia.
  - split; [apply flows_same with x; auto|]. intros s' [= <-]. pose proof (f_open _ _ H s Ho). split_and!; [lia|lia|done|].
    intros w Hw. destruct (f_wf _ _ H w Hw) as (_ & _ & H1). by apply H1.
  - apply IH. apply flows_same with x; auto.
Qed.
Lemma turn_flows n s x x' :
  flows n x -> (1 <= s <= n)%Z -> sOpen x = None -> (forall w, sWf x = Some w -> (Wb.bStart w <= s)%Z) -> turn s x x' -> flows n x'.
Proof.
  intros H Hs Ho Hb Ht. destruct Ht as [x|x|x k|x k w Hok Hw|x w w' Hw Hk|x Hr _]; try done.
  - by apply begin_flows.
  - destruct (endReq_same k x) as (H1 & H2 & H3). apply flows_same with x; auto.
  - destruct (endReq_same k x) as (H1 & H2 & H3).
    assert (Hc : flows n (closeWf (s - 1) (endReq k x))).
    { apply (flows_closed (s - 1) n x); cbn; [done|done|by rewrite H1, H2|by right]. }
    destruct Hc as [_ H5 H6]. constructor; cbn; [|by rewrite H3, Ho|done]. intros w0 [= <-]. rewrite H3, Ho. split_and!; [done|lia|lia|done].
  - destruct H as [H1 H2 H3]. constructor; cbn; try done. intros w0 [= <-]. destruct (H1 w Hw) as (Hok & Hl & _).
    destruct (Hk Hok (Hb w Hw)) as [Hok' Hst]. rewrite Ho, Hst. split_and!; [done|lia|lia|done].
  - apply flows_same with x; auto.
Qed.
Lemma commented_flows n x x' : (1 <= n)%Z -> flows n x -> commented n x x' -> flows n x'.
Proof.
  intros Hn H Hc. destruct Hc as [x x1 Hr|x s x1 x2 Hr Ht].
  - by apply (read_flows _ _ _ _ H Hr Hn).
  - destruct (read_flows _ _ _ _ H Hr Hn) as [H1 H2]. destruct (H2 s eq_refl) as (H3 & H4 & H5).
    apply flows_same with x2; cbn; auto. eapply (turn_flows n s x1); auto.
Qed.
Lemma step_flows n r x x' : (1 <= n)%Z -> flows n x -> stepped n r x x' -> flows n x'.
Proof.
  intros Hn H Hs. revert H. induction Hs as [x x' Hm Hx|x x1 i Hm Hc|x x1 Hm Ho Hx|x Hm Ho|x k Hb Ho|x x' Ho Hs IH]; intros H.
  - destruct Hx as [->|[o Hr]]; [done|]. by apply (read_flows _ _ _ _ H Hr Hn).
  - apply flows_same with (addLine r x1); cbn; auto. apply addLine_flows. destruct Hc as [->|Hc]; [done|by eapply commented_flows].
  - apply addLine_flows. destruct Hx as [->|[->| ->]]; [done|by apply begin_flows|]. apply flows_same with (begin n x); cbn; auto. by apply begin_flows.
  - apply flows_same with (addLine r x); [by apply addLine_flows|..]; unfold endScript; case_match; cbn; auto.
  - unfold separate. set (y := closeWf _ _). destruct (endReq_same k y) as (H1 & H2 & H3).
    apply (flows_closed (n - 1) n x); [done|by rewrite H1|by rewrite H2|rewrite H3; by right].
  - apply IH. apply flows_same with x; cbn; auto.
Qed.
End flows.
End places.
