(* ===== verification/DocumentFacts.v ===== *)
(** * What the parser of request files promises

    Requests lie where they say they do; a section between separators is read the
    same whatever comes before it; the workflows of a document are those the engine
    can prepare. *)
From stdpp Require Import base list strings gmap.
From Stdlib Require Import Ascii ZArith Lia Sorted.
From S2P Require Import Prelude GoStd GoPath Names Group Text DotEnv Directive Workflow Catalog CatalogFacts WorkflowText WorkflowTextFacts Lines Protocols Specs Requests MockText Document DocumentFrame DocumentShape DocumentPlaces.

Open Scope list_scope.

Section facts.
Context {unicode : Unicode} {tables : UnicodeTables} {lib : HttpLib} {tunnels : Tunnels} {parsers : MockParsers}
  (iter : Catalog.Iter).
Import Doc.

(** ** Runs *)

(** No block of a mock is open inside a block comment, on the way. *)
Fixpoint untangled (n : Z) (ls : list bytestr) (b : St) : bool :=
  negb (tangled (shape b)) && match ls with [] => true | l :: ls' => untangled (n + 1) ls' (processLine iter n l b) end.

Lemma scripted_shape b : scripted (shape b) -> inScriptBlock b = true -> is_Some (request b).
Proof. intros [H _] Hs. destruct (H Hs) as [x Hx]. cbn in Hx. destruct (request b); [by eexists|done]. Qed.

Lemma run_scripted n ls b : scripted (shape b) -> scripted (shape (processLines iter n ls b)).
Proof.
  revert n b. induction ls as [|l ls IH]; intros n b H; [done|]. cbn [processLines]. apply IH. eapply step_scripted; [|exact H].
  apply processLine_stepped. by apply scripted_shape.
Qed.

Lemma run_flows n ls b : (1 <= n)%Z -> scripted (shape b) -> flows n (shape b) -> exists n', flows n' (shape (processLines iter n ls b)).
Proof.
  revert n b. induction ls as [|l ls IH]; intros n b Hn Hs H; [by exists n|]. cbn [processLines].
  pose proof (processLine_stepped iter n l b (scripted_shape b Hs)) as Hst. apply IH; [lia|by eapply step_scripted|].
  apply flows_top with n; [|lia]. by eapply step_flows.
Qed.

Notation size ls := (Z.of_nat (length ls)).

Lemma run_places done_ ls b :
  scripted (shape b) -> places done_ (size done_) (shape b) -> untangled (size done_ + 1) ls b = true ->
  let b' := processLines iter (size done_ + 1) ls b in
  places (done_ ++ ls) (size (done_ ++ ls)) (shape b') /\ tangled (shape b') = false.
Proof.
  revert done_ b. induction ls as [|l ls IH]; intros done_ b Hs Hp Hu; cbn [untangled processLines] in *.
  - apply andb_true_iff in Hu as [Hu _]. apply negb_true_iff in Hu. by rewrite app_nil_r.
  - apply andb_true_iff in Hu as [Hu Hrest]. apply negb_true_iff in Hu.
    pose proof (processLine_stepped iter (size done_ + 1) l b (scripted_shape b Hs)) as Hst.
    assert (Hlen : (size done_ + 1 + 1 = size (done_ ++ [l]) + 1)%Z) by (rewrite length_app; cbn; lia).
    replace (done_ ++ l :: ls) with ((done_ ++ [l]) ++ ls) by (by rewrite <- app_assoc). rewrite Hlen in *.
    apply IH; [by eapply step_scripted|by eapply step_places|done].
Qed.

Lemma start_places : places [] 0 (shape start).
Proof. constructor; cbn; try done; lia. Qed.
Lemma start_scripted : scripted (shape start).
Proof. done. Qed.
Lemma start_flows : flows 1 (shape start).
Proof. by constructor. Qed.

(** ** The end of a file *)

Lemma finish_shape b :
  (open b = None -> openLines b = []) ->
  exists k, shape (finish b) = closeWf 0 (endReq k (with_mock false (with_open None [] (shape b)))).
Proof.
  intros Ho. unfold finish. cbv zeta. destruct (shape_flushRequest (flushMock (failOpenDirective b))) as [k Hk]. exists k.
  quiet_push. rewrite shape_flushWorkflow, Hk, shape_flushMock. by rewrite shape_failOpenDirective.
Qed.

Lemma held_none ls top b : places ls top (shape b) -> open b = None -> openLines b = [].
Proof. intros H Ho. apply (p_none _ _ _ H). cbn. by rewrite Ho. Qed.

Lemma finish_places ls b :
  places ls (size ls) (shape b) ->
  Forall (placedIn ls) (place <$> Requests (doc (finish b))) /\ chain 0 (place <$> Requests (doc (finish b))) (size ls + 1).
Proof.
  intros H. destruct (finish_shape b (held_none _ _ _ H)) as [k Hk].
  change (place <$> Requests (doc (finish b))) with (sReqs (shape (finish b))). rewrite Hk. unfold closeWf. cbn [sReqs].
  set (y := with_mock false (with_open None [] (shape b))).
  assert (Hy : places ls (size ls) y).
  { pose proof (close_places ls _ _ H ltac:(lia)) as [H1 H2 H3 H4 H5 H6 H7]. constructor; cbn; try done. }
  by destruct (endReq_places ls k y Hy eq_refl) as (_ & ? & ? & _).
Qed.

(** *** A file *)

Definition sourceLines (data : bytestr) : list bytestr := (DotEnv.scanLines (S (length data)) (replaceCRLF data)).1.
Definition tidy (data : bytestr) : bool := untangled 1 (sourceLines data) start.

(** The state at the end of the lines, as [Parse] has it *)
Lemma Parse_finish data : exists b, Parse iter data = doc (finish b) /\ shape b = shape (processLines iter 1 (sourceLines data) start).
Proof.
  unfold Parse, sourceLines. destruct (DotEnv.scanLines _ _) as [ls long]. cbn [fst]. cbv zeta. set (b := processLines iter 1 ls start).
  eexists. split; [reflexivity|]. destruct long; [|done]. quiet_push. destruct (mock b) as [m|] eqn:E; [|done]. unfold shape. cbn. by rewrite E.
Qed.

(** The workflow in progress is the last one. *)
Lemma finish_flows n b : flows n (shape b) -> flows n (shape (finish b)).
Proof.
  intros H. unfold finish. cbv zeta. quiet_push. rewrite shape_flushWorkflow. set (y := flushRequest _).
  assert (Hy : flows n (shape y)).
  { unfold y. destruct (shape_flushRequest (flushMock (failOpenDirective b))) as [k ->]. rewrite shape_flushMock.
    set (x := with_mock _ _). destruct (endReq_same k x) as (H1 & H2 & H3). apply flows_same with (shape (failOpenDirective b)); rewrite ?H1, ?H2, ?H3; auto.
    destruct (open b) as [o|] eqn:E; [|unfold failOpenDirective; by rewrite E]. rewrite fail_shape by by eexists. apply flows_same with (shape b); auto. }
  by apply (flows_closed 0 n (shape y)); [..|right].
Qed.
Lemma chain_sorted lo ps hi : chain lo ps hi -> StronglySorted (fun p q : placed => (p.1.2 < q.1.1)%Z) ps /\ Forall (fun p : placed => (lo < p.1.1)%Z) ps.
Proof.
  revert lo. induction ps as [|p ps IH]; intros lo; cbn; [intros _; split; constructor|]. intros [Hp Hc]. destruct (IH _ Hc) as [H1 H2].
  split; [by constructor|]. constructor; [lia|]. eapply Forall_impl; [exact H2|]. cbn. intros. lia.
Qed.

(** *** Separators *)

(** What a separator leaves: its title, and what was gathered. *)
Definition titleOf (ln : Ln.line) : bytestr := trim (default (Ln.text ln) (cut (bytes "###") (Ln.text ln))).
Definition fresh (n : Z) (l : bytestr) : St := set_title (titleOf (Ln.makeLine n l)) start.

(** The lines of a file, and those of one section of it that starts after line [n] *)
Definition parseLines (ls : list bytestr) : Document := doc (finish (processLines iter 1 ls start)).
Definition parseSection (n : Z) (separator : bytestr) (ls : list bytestr) : Document :=
  doc (finish (processLines iter (n + 1) ls (fresh n separator))).

Lemma processLines_app n ls ls' b : processLines iter n (ls ++ ls') b = processLines iter (n + size ls) ls' (processLines iter n ls b).
Proof.
  revert n b. induction ls as [|l ls IH]; intros n b; cbn [app processLines length].
  - f_equal. cbn. lia.
  - rewrite IH. f_equal. lia.
Qed.

Lemma separator_marks ln : Ln.isSeparator ln = true -> Ln.hasScriptMarker ln = false /\ Ln.isScriptBlockEnd ln = false.
Proof.
  unfold Ln.isSeparator, Ln.hasScriptMarker, Ln.isScriptBlockEnd, hasPrefix. intros H%bool_decide_eq_true.
  destruct (Ln.text ln) as [|c t]; cbn in *; [by destruct H|]. case_bool_decide; [|by destruct H]. subst c. done.
Qed.

(** Outside block comments a separator line is handled as one, with nothing open. *)
Lemma separator_line n l b :
  Ln.isSeparator (Ln.makeLine n l) = true -> inBlock b = false -> (open b = None -> openLines b = []) ->
  exists y, processLine iter n l b = (handleSeparator (Ln.makeLine n l) y).2 /\ shape y = with_open None [] (shape b).
Proof.
  intros Hs Hb Ho. set (ln := Ln.makeLine n l) in *. destruct (separator_marks ln Hs) as [Hm He].
  set (c := closeOpenDirective ln b). assert (Hc : shape c = with_open None [] (shape b)).
  { unfold c, closeOpenDirective. destruct (open b) eqn:E; [rewrite Hb, Hs; apply fail_shape; rewrite E; by eexists|].
    unfold shape, with_open. cbn. by rewrite E, (Ho eq_refl). }
  unfold processLine. fold ln. cbv zeta. fold c. destruct (mock c) as [m|] eqn:Em.
  { exists (set_mock (Some (Mb.trimStructuralBlankLine m)) c). unfold handleMockBlockLine. rewrite Hs. split; [done|].
    rewrite <- Hc. unfold shape. cbn. by rewrite Em. }
  assert (Hbc : inBlock c = false) by (apply (f_equal sBlock) in Hc; cbn in Hc; congruence). rewrite Hbc.
  assert (Hsep : forall y, handleSeparator ln y = (true, (handleSeparator ln y).2)).
  { intros y. destruct (separator_shape ln y Hs) as (k & H1 & _). destruct (handleSeparator ln y); cbn in *; congruence. }
  destruct (inScriptBlock c).
  - exists c. unfold handleScriptBlockLine. rewrite He, Hsep. done.
  - exists (flushScriptIfNeeded ln c). unfold handleScriptBlockStart, Ln.isScriptBlockStart. rewrite Hm. cbn [andb negb].
    unfold lineHandlers. cbn [firstHandler]. rewrite Hsep. split; [done|]. unfold flushScriptIfNeeded. rewrite Hm. by quiet_push.
Qed.

Lemma flushSettings_none b : settings (file (flushSettings b)) = ∅.
Proof. unfold flushSettings. cbv zeta. by case_bool_decide. Qed.

(** A shape with nothing in progress *)
Definition idle (x : Shape) : Prop :=
  sReq x = None /\ sMock x = false /\ sWf x = None /\ sOpen x = None /\ sHeld x = [] /\ sBlock x = false /\ sScript x = false /\ sScriptLine x = 0%Z.

Lemma separate_idle k n x : sOpen x = None -> sHeld x = [] -> sBlock x = false -> scripted x -> idle (separate k n x).
Proof.
  intros Ho Hh Hb [H1 H2]. unfold separate, endReq, endScript. cbn. destruct (sReq x) eqn:Er; destruct (sScript x) eqn:Es; unfold idle; cbn;
    split_and!; auto; by destruct H1.
Qed.

(** A state is what was gathered before a fresh one when nothing is in progress. *)
Lemma idle_frame n l b :
  idle (shape b) -> pendingTitle b = titleOf (Ln.makeLine n l) -> settings (file b) = ∅ -> b = frame (doc b) (file b) (fresh n l).
Proof.
  intros (Hr & Hm & Hw & Ho & Hh & Hb & Hs & Hl) Ht Hset. destruct b as [d r mo w o ol t f ib isc sl]. cbn in *. subst.
  destruct r; [done|]. destruct o; [done|]. destruct mo; [by rewrite bool_decide_eq_true_2 in Hm|].
  unfold frame, frameDoc, frameFile, fresh. cbn. rewrite !app_nil_r, (left_id_L ∅ (∪)).
  destruct d, f. cbn in *. by subst.
Qed.

Lemma separator_frame n l b :
  Ln.isSeparator (Ln.makeLine n l) = true -> inBlock b = false -> (open b = None -> openLines b = []) -> scripted (shape b) ->
  let b' := processLine iter n l b in b' = frame (doc b') (file b') (fresh n l).
Proof.
  intros Hs Hb Ho Hsc. destruct (separator_line n l b Hs Hb Ho) as (y & Hy & Hsh). cbv zeta. rewrite Hy.
  destruct (separator_shape (Ln.makeLine n l) y Hs) as (k & _ & Hk). apply idle_frame.
  - rewrite Hk, Hsh. by apply separate_idle.
  - unfold handleSeparator. rewrite Hs. done.
  - unfold handleSeparator. rewrite Hs. cbn [negb snd]. apply flushSettings_none.
Qed.

Lemma finish_frame d0 f0 b : exists d, doc (finish (frame d0 f0 b)) = d /\
  Requests d = Requests (frameDoc d0 (doc (finish b))) /\ Workflows d = Workflows (frameDoc d0 (doc (finish b))) /\
  Mocks d = Mocks (frameDoc d0 (doc (finish b))) /\ Errors d = Errors (frameDoc d0 (doc (finish b))) /\ Warnings d = Warnings (frameDoc d0 (doc (finish b))).
Proof.
  eexists. split; [reflexivity|]. unfold finish. cbv zeta.
  rewrite (framed d0 f0 (h := failOpenDirective) b), (framed d0 f0 (h := flushMock)), (framed d0 f0 (h := flushRequest)),
    (framed d0 f0 (h := flushWorkflow 0)), (framed d0 f0 (h := flushSettings)). done.
Qed.
End facts.

(** C18. Requests lie where they say: in any file, however malformed, whose block
    comments hold no open mock, every request of the parsed document has a range of
    lines of the file, its original text is exactly those lines, and the ranges of
    the requests follow one another without overlap, in the order of the document. *)
Theorem requests_lie_where_they_say {unicode : Unicode} {tables : UnicodeTables} {lib : HttpLib} {tunnels : Tunnels} {parsers : MockParsers}
    (iter : Catalog.Iter) (data : bytestr) :
  tidy iter data = true ->
  let ls := sourceLines data in
  let rs := Doc.Requests (Doc.Parse iter data) in
  Forall (fun r => let '(i, j) := Rq.rRange r in (1 <= i <= j)%Z /\ (j <= Z.of_nat (length ls))%Z /\ Rq.OriginalText r = joinLines (slice ls i j)) rs /\
  StronglySorted (fun r r' => ((Rq.rRange r).2 < (Rq.rRange r').1)%Z) rs.
Proof.
  intros Ht ls rs. destruct (Parse_finish iter data) as (b & Hb & Hs).
  pose proof (run_places iter [] ls Doc.start start_scripted start_places Ht) as [Hp _].
  change (Z.of_nat (length (@nil bytestr)) + 1)%Z with 1%Z in Hp. cbn [app] in Hp. fold ls in Hs. rewrite <- Hs in Hp.
  destruct (finish_places ls b Hp) as [H1 H2]. rewrite <- Hb in H1, H2. fold rs in H1, H2. split.
  - rewrite Forall_fmap in H1. eapply Forall_impl; [exact H1|]. intros r. unfold placedIn, place. cbn. by destruct (Rq.rRange r).
  - apply chain_sorted in H2 as [H2 _]. clear -H2. induction rs as [|r rs IH]; [constructor|]. cbn in H2. inversion H2 as [|? ? H3 H4]; subst.
    constructor; [by apply IH|]. rewrite Forall_fmap in H4. exact H4.
Qed.

(** C20. The workflows of a parsed file are fit to run: whatever its lines are, every
    workflow of the document has steps, they lie inside its range of lines, and the
    engine prepares it exactly when the document has requests and the names in the
    workflow are names of theirs: no other check of [PrepareWorkflow] (a step
    without a request, an unknown kind, a for-each without its loop, an @if or
    @switch without a definition) can fail.  [view] is what the engine sees of a
    request. *)
Theorem document_workflows_prepare {unicode : Unicode} {tables : UnicodeTables} {lib : HttpLib} {tunnels : Tunnels} {parsers : MockParsers}
    (iter : Catalog.Iter) (view : Rq.Request -> Wf.Request) (data : bytestr) :
  let d := Doc.Parse iter data in
  let requests := view <$> Doc.Requests d in
  Forall (fun w =>
    Wb.wSteps w <> [] /\ (1 <= (Wb.wRange w).1 <= (Wb.wRange w).2)%Z /\
    Forall (fun s => ((Wb.wRange w).1 <= Wb.line s <= (Wb.wRange w).2)%Z) (Wb.wSteps w) /\
    ((exists plan, Wf.PrepareWorkflow requests (toWf w) = inr plan) <->
     requests <> [] /\ Forall (fun s => resolves (Wf.collectRequests requests) (Wb.core s)) (Wb.wSteps w))) (Doc.Workflows d).
Proof.
  cbv zeta. destruct (Parse_finish iter data) as (b & Hd & Hs).
  assert (Hf : Forall wfOk (Doc.Workflows (Doc.Parse iter data))).
  { rewrite Hd. destruct (run_flows iter 1 (sourceLines data) Doc.start ltac:(lia) start_scripted start_flows) as [n Hn].
    rewrite <- Hs in Hn. apply finish_flows in Hn. exact (f_done _ _ Hn). }
  generalize (view <$> Doc.Requests (Doc.Parse iter data)). intros requests. eapply Forall_impl; [exact Hf|].
  intros w (wb & ln & e & Hok & Hstart & Hfl). destruct (flushed_ok _ _ _ _ Hok Hfl) as [_ Hne].
  destruct (flushed_prepares requests wb ln e w Hok Hfl) as [Hin Hp]. split_and!; [done|..|done|done]; destruct (flushed_range ln wb e w Hok Hfl) as [H1 H2]; lia.
Qed.

(** C19. Sections are isolated: when a separator line is not inside a block comment,
    the document of a file is the one of the lines up to it followed by the one of
    the lines after it, read on their own: requests, workflows, mocks, errors and
    warnings after a separator do not depend on the lines before it, whatever was
    open or wrong there, but for their line numbers. *)
Theorem separator_isolates {unicode : Unicode} {tables : UnicodeTables} {lib : HttpLib} {tunnels : Tunnels} {parsers : MockParsers}
    (iter : Catalog.Iter) (before : list bytestr) (separator : bytestr) (after : list bytestr) :
  let n := (Z.of_nat (length before) + 1)%Z in
  Ln.isSeparator (Ln.makeLine n separator) = true ->
  untangled iter 1 before Doc.start = true ->
  Doc.inBlock (Doc.processLines iter 1 before Doc.start) = false ->
  let whole := parseLines iter (before ++ separator :: after) in
  let first := parseLines iter (before ++ [separator]) in
  let rest := parseSection iter n separator after in
  Doc.Requests whole = Doc.Requests first ++ Doc.Requests rest /\ Doc.Workflows whole = Doc.Workflows first ++ Doc.Workflows rest /\
  Doc.Mocks whole = Doc.Mocks first ++ Doc.Mocks rest /\
  Doc.Errors whole = Doc.Errors first ++ Doc.Errors rest /\ Doc.Warnings whole = Doc.Warnings first ++ Doc.Warnings rest.
Proof.
  intros n Hsep Hu Hb whole first rest.
  pose proof (run_places iter [] before Doc.start start_scripted start_places Hu) as [Hp _].
  change (Z.of_nat (length (@nil bytestr)) + 1)%Z with 1%Z in Hp. cbn [app] in Hp.
  pose proof (run_scripted iter 1 before Doc.start start_scripted) as Hsc.
  set (b := Doc.processLines iter 1 before Doc.start) in *.
  pose proof (separator_frame iter n separator b Hsep Hb (held_none _ _ _ Hp) Hsc) as Hfr. cbv zeta in Hfr.
  set (b' := Doc.processLine iter n separator b) in *.
  assert (Hcut : forall ls, parseLines iter (before ++ separator :: ls) = Doc.doc (Doc.finish (Doc.processLines iter (n + 1) ls b'))).
  { intros ls. unfold parseLines. rewrite processLines_app. cbn [Doc.processLines]. fold b. by rewrite (Z.add_comm 1). }
  unfold whole, first, rest, parseSection. rewrite !Hcut. cbn [Doc.processLines].
  rewrite Hfr. clearbody b'. rewrite (processLines_framed iter _ _ (n + 1) after).
  destruct (finish_frame (Doc.doc b') (Doc.file b') (Doc.processLines iter (n + 1) after (fresh n separator))) as (d1 & -> & H1).
  destruct (finish_frame (Doc.doc b') (Doc.file b') (fresh n separator)) as (d2 & -> & H2).
  destruct H1 as (-> & -> & -> & -> & ->), H2 as (-> & -> & -> & -> & ->). cbn. by rewrite !app_nil_r.
Qed.

(** ** A sample file, for ASCII texts *)

Definition upperAscii (s : string) : string :=
  str (map (fun c => if ((97 <=? byte_val c) && (byte_val c <=? 122))%N then byte_of (byte_val c - 32)%N else c) (bytes s)).
#[local] Instance sampleUnicode : Unicode := Names.ascii.
#[local] Instance sampleTables : UnicodeTables :=
  {| ToUpper := upperAscii; IsLetter := asciiRune Directive.isAlpha; IsDigit := asciiRune Directive.isDigit |}.
#[local] Instance sampleHttp : HttpLib :=
  {| ValidHeaderFieldName := fun s => negb (bool_decide (s = ""%string)) && forallb Directive.IsKeyRune (bytes s); CanonicalHeaderKey := id |}.
#[local] Instance sampleTunnels : Tunnels :=
  {| SSHSpec := bytestr; SSHProfile := bytestr; K8sSpec := bytestr; K8sProfile := bytestr;
     ParseSSH := fun l => (mkTunnel Directive.ScopeRequest (Some l) l false, []);
     ParseK8s := fun l => (mkTunnel Directive.ScopeRequest (Some l) l false, [], None);
     SSHAt := fun _ p => p; K8sAt := fun _ _ p => p; K8sInvalid := fun _ _ p => p |}.
#[local] Instance sampleMocks : MockParsers :=
  {| Match := unit; noMatch := tt; addMatch := fun _ m => ([], m); SequenceKey := string; parseMockSequenceKey := fun r _ => inr r;
     ValidateMockPath := fun _ => None; Delay := string; ParseDelay := inr; ValidHeaderFieldValue := fun _ => true |}.

Open Scope string_scope.
Open Scope list_scope.
Definition text (ls : list string) : bytestr := bytes (Directive.join (str [LF]) ls).

(** A directive over two lines, a body, a comment, a stray header, an open script
    and a workflow *)
Definition sample : bytestr := text
  ["@host = http://x"; "### one"; "# @capture request tok ("; "#   response.json)"; "GET {{host}}/a HTTP/1.1"; "A: b"; ""; "body"; "# note";
   "> {%"; "x()"; "### two"; "# @workflow all"; "# @step s using=one"; "POST /b"; "not a header"; "###"; "/*"; " * @name three"; " */"; "DELETE /c"].

Lemma requests_lie_where_they_say_witness :
  map Rq.rRange (Doc.Requests (Doc.Parse mapIter sample)) = [(3, 11); (15, 16); (19, 21)]%Z /\
  Forall (fun r => let '(i, j) := Rq.rRange r in
    (1 <= i <= j)%Z /\ (j <= Z.of_nat (length (sourceLines sample)))%Z /\ Rq.OriginalText r = joinLines (slice (sourceLines sample) i j))
    (Doc.Requests (Doc.Parse mapIter sample)).
Proof.
  split; [vm_compute; reflexivity|].
  exact (proj1 (@requests_lie_where_they_say sampleUnicode sampleTables sampleHttp sampleTunnels sampleMocks mapIter sample ltac:(vm_compute; reflexivity))).
Defined.

Definition sampleBefore : list bytestr := map bytes ["# @assert (1 =="; "GET http://x"; "A b"; "> {%"; "x("].
Definition sampleAfter : list bytestr := map bytes ["POST /b"; "x: y"].
Lemma separator_isolates_witness :
  let whole := parseLines mapIter (sampleBefore ++ bytes "### next" :: sampleAfter) in
  (length (Doc.Requests whole), length (Doc.Errors whole)) = (2, 2) /\
  Doc.Requests whole = Doc.Requests (parseLines mapIter (sampleBefore ++ [bytes "### next"])) ++ Doc.Requests (parseSection mapIter 6 (bytes "### next") sampleAfter).
Proof.
  split; [vm_compute; reflexivity|].
  exact (proj1 (@separator_isolates sampleUnicode sampleTables sampleHttp sampleTunnels sampleMocks mapIter sampleBefore (bytes "### next") sampleAfter
    ltac:(vm_compute; reflexivity) ltac:(vm_compute; reflexivity) ltac:(vm_compute; reflexivity))).
Defined.

(** The engine's view of the workflow in it *)
Example sample_workflow :
  map (fun w => (Wb.wName w, Wb.wRange w, length (Wb.wSteps w))) (Doc.Workflows (Doc.Parse mapIter sample)) = [("all", (13, 14)%Z, 1)].
Proof. vm_compute. reflexivity. Qed.

(** ** What the code does with comments and assignments (findings) *)

Definition methods (d : Doc.Document) : list string := map (fun r => str (Rq.Method r)) (Doc.Requests d).

(** An assignment without a value takes the sign itself as the value. *)
Lemma empty_assignment_is_sign :
  map (fun v => (str (Sp.vName v), str (Sp.vValue v))) (Doc.Variables (Doc.Parse mapIter (text ["@a ="]))) = [("a", "=")].
Proof. vm_compute. reflexivity. Qed.

(** A workflow in a block comment of a request ends the comment: what follows in it
    is read as lines of the file. *)
Lemma workflow_ends_comment :
  let d := Doc.Parse mapIter (text ["GET http://x"; "/*"; "@workflow w"; "@step s using=b"; "*/"]) in
  map (fun v => str (Sp.vName v)) (Doc.Variables d) = ["step"] /\ Doc.Workflows d = [].
Proof. vm_compute. split; reflexivity. Qed.

(** A mock in a block comment takes the end of the comment, which stays open over
    the separator: the requests after it are not in the document, and no error says
    so.  It is the state [tangled] excludes. *)
Lemma mock_in_comment_swallows :
  let lines := ["/*"; "@mock method=GET path=/x"; "*/"; "HTTP/1.1 200 OK"; "### next"; "GET /y"; ""; "### again"; "GET /z"] in
  methods (Doc.Parse mapIter (text lines)) = [] /\ tidy mapIter (text lines) = false /\
  methods (Doc.Parse mapIter (text (drop 4 lines))) = ["GET"; "GET"].
Proof. vm_compute. repeat split; reflexivity. Qed.
