(* ===== verification/JsonPath.v ===== *)
(** * JSON paths (src/internal/jsonpath/path.go)

    Module Jp: a path names a place in a decoded JSON document by keys and
    indices; [Get] follows it and [Valid] says whether it is well written.  Indices
    into the path are suffixes of it.  [Get] is lenient: it skips what [Valid]
    rejects. *)
From stdpp Require Import base list strings gmap.
From Stdlib Require Import Ascii ZArith Lia.
From S2P Require Import Prelude GoStd GoFloat GoPath Names Text Units Lines DirectiveFacts.

Set Warnings "-register-all".
Open Scope string_scope.
Open Scope nat_scope.
Open Scope list_scope.

Module Jp.

Record segment := mkSegment { key : bytestr; index : Z; isIdx : bool }.
Definition keySegment (k : bytestr) : segment := mkSegment k 0 false.
Definition indexSegment (n : Z) : segment := mkSegment [] n true.

(** A segmentResult or an indexResult: [stop], not [ok] with what is left, or [ok].
    What is left begins at the closing bracket. *)
Inductive result (A : Type) :=
  | Stop
  | Skip (next : bytestr)
  | Found (a : A) (next : bytestr).
Arguments Stop {A}.
Arguments Skip {A} next.
Arguments Found {A} a next.

Definition DOT : Ascii.ascii := "."%char.
Definition OPEN : Ascii.ascii := "["%char.
Definition CLOSE : Ascii.ascii := "]"%char.

Definition unescape (b : Ascii.ascii) : Ascii.ascii :=
  if bool_decide (b = "n"%char) then LF
  else if bool_decide (b = "r"%char) then CR
  else if bool_decide (b = "t"%char) then TAB
  else b.

Fixpoint skipSpace (l : bytestr) : bytestr :=
  match l with
  | c :: l' => if bool_decide (c ∈ [" "%char; TAB; LF; CR]) then skipSpace l' else l
  | [] => []
  end.

(** [readQuoted] after the opening quote; [buf] is what has been written. *)
Fixpoint readQuoted (q : Ascii.ascii) (buf l : bytestr) : option (bytestr * bytestr) :=
  match l with
  | [] => None
  | ch :: l' =>
      if bool_decide (ch = BACKSLASH) then
        match l' with [] => None | b :: l'' => readQuoted q (buf ++ [unescape b]) l'' end
      else if bool_decide (ch = q) then
        let r := skipSpace l' in
        match r with c :: _ => if bool_decide (c = CLOSE) then Some (buf, r) else None | [] => None end
      else readQuoted q (buf ++ [ch]) l'
  end.

Definition readIndex (l : bytestr) : result Z :=
  match cutAt CLOSE l with
  | None => Stop
  | Some (t, r) => match Atoi (trim t) with Some n => Found n (CLOSE :: r) | None => Skip (CLOSE :: r) end
  end.

Definition isQuote (q : Ascii.ascii) : bool := bool_decide (q = DQUOTE) || bool_decide (q = SQUOTE).

(** [readSegment] after the opening bracket. *)
Definition readSegment (l : bytestr) : result segment :=
  match l with
  | [] => Stop
  | q :: l' =>
      if isQuote q then
        match readQuoted q [] l' with Some (k, next) => Found (keySegment k) next | None => Stop end
      else match readIndex l with
           | Stop => Stop
           | Skip next => Skip next
           | Found n next => Found (indexSegment n) next
           end
  end.

Definition add (out : list segment) (buf : bytestr) : list segment :=
  match buf with [] => out | _ => out ++ [keySegment buf] end.

(** The loop of [split]: every turn takes a byte at least. *)
Fixpoint splitLoop (fuel : nat) (out : list segment) (buf l : bytestr) : list segment :=
  match fuel, l with
  | S fuel', c :: l' =>
      if bool_decide (c = DOT) then splitLoop fuel' (add out buf) [] l'
      else if bool_decide (c = OPEN) then
        match readSegment l' with
        | Stop => add out buf
        | Skip next => splitLoop fuel' (add out buf) [] (drop 1 next)
        | Found s next => splitLoop fuel' (add out buf ++ [s]) [] (drop 1 next)
        end
      else splitLoop fuel' out (buf ++ [c]) l'
  | _, _ => add out buf
  end.
Definition split (path : bytestr) : list segment := splitLoop (length path) [] [] path.

(** One turn of the loop of [Get]. *)
Definition step (cur : Iface) (s : segment) : option Iface :=
  if isIdx s then
    match cur with
    | IList items =>
        if ((index s <? 0) || (Z.of_nat (length items) <=? index s))%Z then None else items !! Z.to_nat (index s)
    | _ => None
    end
  else match cur with IMap obj => obj !! str (key s) | _ => None end.

Fixpoint follow (cur : Iface) (segs : list segment) : option Iface :=
  match segs with
  | [] => Some cur
  | s :: segs' => match step cur s with Some v => follow v segs' | None => None end
  end.

Definition trimPrefix (w l : bytestr) : bytestr := default l (cut w l).

Definition Get (v : Iface) (path : bytestr) : option Iface :=
  let p := trim path in
  if bool_decide (p = []) then Some v
  else
    let p := match cut (bytes "$") p with Some after => trimPrefix [DOT] after | None => p end in
    follow v (split p).

(** [unicode.IsControl] *)
Definition IsControl (r : Z) : bool := ((r <? 32) || ((127 <=? r) && (r <? 160)))%Z.

(** The loop over the runes of a key: what is left, unless a rune is refused. *)
Fixpoint keyLoop (fuel : nat) (l : bytestr) : option bytestr :=
  match fuel, l with
  | S fuel', c :: _ =>
      if bool_decide (c = DOT) || bool_decide (c = OPEN) then Some l
      else match decode_rune l with
           | None => None
           | Some (r, size) =>
               if isChar CLOSE (take size l) || IsSpace (take size l) || IsControl r then None
               else keyLoop fuel' (drop size l)
           end
  | _, _ => Some l
  end.

(** [validBracket]: what is left after the closing bracket. *)
Definition validBracket (l : bytestr) : option bytestr :=
  match l with
  | [] => None
  | q :: l' =>
      if isQuote q then match readQuoted q [] l' with Some (_, next) => Some (drop 1 next) | None => None end
      else match readIndex l with Found n next => if (0 <=? n)%Z then Some (drop 1 next) else None | _ => None end
  end.

Fixpoint validLoop (fuel : nat) (needKey : bool) (l : bytestr) : bool :=
  match fuel, l with
  | S fuel', c :: l' =>
      if bool_decide (c = DOT) then if needKey then false else validLoop fuel' true l'
      else if bool_decide (c = OPEN) then
        match validBracket l' with Some rest => validLoop fuel' false rest | None => false end
      else if negb needKey then false
      else match keyLoop (length l) l with
           | Some rest => if length rest =? length l then false else validLoop fuel' false rest
           | None => false
           end
  | _, _ => negb needKey
  end.

Definition Valid (path : bytestr) : bool :=
  let p := trim path in
  match p with
  | [] => true
  | _ =>
      match cut (bytes "$") p with
      | None => validLoop (length p) true p
      | Some [] => true
      | Some ((c :: p') as p) =>
          if bool_decide (c = DOT) then match p' with [] => false | _ => validLoop (length p') true p' end
          else if negb (bool_decide (c = OPEN)) then false
          else validLoop (length p) true p
      end
  end.

End Jp.

(** ** The language of paths *)

Import Jp.

(** What is between two quotes [q], and the key it writes. *)
Inductive Quoted (q : Ascii.ascii) : bytestr -> bytestr -> Prop :=
  | Quoted_nil : Quoted q [] []
  | Quoted_escape b t k : Quoted q t k -> Quoted q (BACKSLASH :: b :: t) (unescape b :: k)
  | Quoted_char c t k : c <> BACKSLASH -> c <> q -> Quoted q t k -> Quoted q (c :: t) (c :: k).

(** What is behind an opening bracket. *)
Inductive Bracket : bytestr -> segment -> Prop :=
  | Bracket_key q t k ws :
      isQuote q = true -> Quoted q t k -> Forall (fun c => c ∈ [" "%char; TAB; LF; CR]) ws ->
      Bracket (q :: t ++ q :: ws ++ [CLOSE]) (keySegment k)
  | Bracket_index c t n :
      isQuote c = false -> CLOSE ∉ c :: t -> Atoi (trim (c :: t)) = Some n -> (0 <= n)%Z ->
      Bracket (c :: t ++ [CLOSE]) (indexSegment n).

(** A rune of a key that stands without quotes. *)
Definition plainRune (r : rune) : Prop :=
  r ≠ [DOT] /\ r ≠ [OPEN] /\ r ≠ [CLOSE] /\ IsSpace r = false /\
  exists v, decode_rune r = Some (v, length r) /\ IsControl v = false.

(** The rest of a path; [due] when a key must follow. *)
Inductive Rest : bool -> bytestr -> list segment -> Prop :=
  | Rest_end : Rest false [] []
  | Rest_dot l segs : Rest true l segs -> Rest false (DOT :: l) segs
  | Rest_bracket due t l s segs : Bracket t s -> Rest false l segs -> Rest due (OPEN :: t ++ l) (s :: segs)
  | Rest_key rs l segs :
      rs <> [] -> Forall plainRune rs -> Rest false l segs -> Rest true (mjoin rs ++ l) (keySegment (mjoin rs) :: segs).

Inductive Path : bytestr -> list segment -> Prop :=
  | Path_empty : Path [] []
  | Path_root : Path ["$"%char] []
  | Path_dot l segs : Rest true l segs -> Path ("$"%char :: DOT :: l) segs
  | Path_open l segs : Rest true (OPEN :: l) segs -> Path ("$"%char :: OPEN :: l) segs
  | Path_bare l segs : cut (bytes "$") l = None -> Rest true l segs -> Path l segs.

(** The value [w] at the place [segs] of the document [v]. *)
Inductive At : Iface -> list segment -> Iface -> Prop :=
  | At_here v : At v [] v
  | At_key m k v segs w : m !! str k = Some v -> At v segs w -> At (IMap m) (keySegment k :: segs) w
  | At_index items n v segs w :
      items !! n = Some v -> At v segs w -> At (IList items) (indexSegment (Z.of_nat n) :: segs) w.

(** ** Brackets *)

Lemma rune_ascii r c : validRune r -> (byte_val c < 128)%N -> c ∈ r -> r = [c].
Proof.
  intros Hr Hc. destruct r as [|b r]; [by intros ?%elem_of_nil|]. intros [->|Hin]%elem_of_cons.
  - by rewrite (valid_ascii _ _ Hr Hc).
  - destruct (validRune_bytes _ _ Hr) as [_ Hcont]. rewrite Forall_forall in Hcont. specialize (Hcont c Hin).
    unfold contByte in Hcont. apply andb_true_iff in Hcont as [Hge%N.leb_le _]. lia.
Qed.

Lemma skipSpace_run ws l : Forall (fun c => c ∈ [" "%char; TAB; LF; CR]) ws -> skipSpace (ws ++ CLOSE :: l) = CLOSE :: l.
Proof. induction 1 as [|c ws Hc _ IH]; [done|]. simpl. by rewrite bool_decide_eq_true_2. Qed.

Lemma skipSpace_split l : exists ws, Forall (fun c => c ∈ [" "%char; TAB; LF; CR]) ws /\ l = ws ++ skipSpace l.
Proof.
  induction l as [|c l (ws & Hws & Hl)]; [by exists []|]. simpl. case_bool_decide; [|by exists []].
  exists (c :: ws). split; [by constructor|]. by rewrite Hl at 1.
Qed.

Lemma readQuoted_quoted q t k ws l : isQuote q = true -> Quoted q t k ->
  Forall (fun c => c ∈ [" "%char; TAB; LF; CR]) ws ->
  forall buf, readQuoted q buf (t ++ q :: ws ++ CLOSE :: l) = Some (buf ++ k, CLOSE :: l).
Proof.
  intros Hq Ht Hws. induction Ht as [|b t k _ IH|c t k Hb Hc _ IH]; intros buf; cbn [app readQuoted].
  - rewrite bool_decide_eq_false_2 by (by intros ->). by rewrite bool_decide_eq_true_2, (skipSpace_run _ _ Hws), app_nil_r.
  - by rewrite bool_decide_eq_true_2, IH, <- app_assoc.
  - by rewrite !bool_decide_eq_false_2, IH, <- app_assoc.
Qed.

Lemma readQuoted_inv q k next : forall n l buf, length l <= n -> readQuoted q buf l = Some (k, next) ->
  exists t k' ws rest, Quoted q t k' /\ k = buf ++ k' /\ Forall (fun c => c ∈ [" "%char; TAB; LF; CR]) ws /\
    next = CLOSE :: rest /\ l = t ++ q :: ws ++ next.
Proof.
  induction n as [|n IH]; intros [|c l] buf Hn; cbn [length] in Hn; try lia; cbn [readQuoted]; try done.
  case_bool_decide as Hb; [subst c; destruct l as [|b l]; [done|]|case_bool_decide as Hq].
  - intros H. apply IH in H as (t & k' & ws & rest & Ht & -> & Hws & -> & ->); [|cbn [length] in Hn; lia].
    exists (BACKSLASH :: b :: t), (unescape b :: k'), ws, rest. rewrite <- app_assoc. by split_and!; [constructor|..].
  - subst c. destruct (skipSpace_split l) as (ws & Hws & Hl). destruct (skipSpace l) as [|d r]; [done|].
    case_bool_decide as Hd; [|done]. intros ?; simplify_eq. exists [], [], ws, r. rewrite app_nil_r. cbn [app].
    by split_and!; [constructor|..].
  - intros H. apply IH in H as (t & k' & ws & rest & Ht & -> & Hws & -> & ->); [|lia].
    exists (c :: t), (c :: k'), ws, rest. rewrite <- app_assoc. by split_and!; [constructor|..].
Qed.

Lemma cutAt_inv c l x y : cutAt c l = Some (x, y) -> c ∉ x /\ l = x ++ c :: y.
Proof.
  revert x y. induction l as [|b l IH]; intros x y; [done|]. cbn [cutAt]. case_bool_decide as Hb.
  - intros ?; simplify_eq. split; [apply not_elem_of_nil|done].
  - destruct (cutAt c l) as [[x' y']|]; [|done]. intros ?; simplify_eq. destruct (IH _ _ eq_refl) as [Hx ->].
    split; [|done]. apply not_elem_of_cons. by split.
Qed.

Lemma bracket_read t s l : Bracket t s ->
  readSegment (t ++ l) = Found s (CLOSE :: l) /\ validBracket (t ++ l) = Some l.
Proof.
  intros [q t' k ws Hq Ht Hws|c t' n Hc Hclose Hn Hpos].
  - replace ((q :: t' ++ q :: ws ++ [CLOSE]) ++ l) with (q :: t' ++ q :: ws ++ CLOSE :: l)
      by (cbn [app]; rewrite <- !app_assoc; cbn [app]; by rewrite <- app_assoc).
    unfold readSegment, validBracket. rewrite Hq, (readQuoted_quoted _ _ _ _ _ Hq Ht Hws). done.
  - replace ((c :: t' ++ [CLOSE]) ++ l) with ((c :: t') ++ CLOSE :: l) by (cbn [app]; by rewrite <- app_assoc).
    assert (Hr : readIndex ((c :: t') ++ CLOSE :: l) = Found n (CLOSE :: l))
      by (unfold readIndex; by rewrite cutAt_app, Hn).
    unfold readSegment, validBracket. cbn [app] in *. rewrite Hc, Hr, (proj2 (Z.leb_le _ _) Hpos). done.
Qed.

Lemma bracket_inv l rest : validBracket l = Some rest -> exists t s, Bracket t s /\ l = t ++ rest.
Proof.
  unfold validBracket. destruct l as [|c l]; [done|]. destruct (isQuote c) eqn:Hq.
  - destruct (readQuoted c [] l) as [[k next]|] eqn:H; [|done]. intros ?; simplify_eq.
    apply (readQuoted_inv c k next (length l)) in H as (t & k' & ws & r & Ht & _ & Hws & -> & ->); [|done].
    exists (c :: t ++ c :: ws ++ [CLOSE]), (keySegment k'). split; [by constructor|].
    cbn [app drop]. rewrite <- !app_assoc. cbn [app]. by rewrite <- app_assoc.
  - unfold readIndex. destruct (cutAt CLOSE (c :: l)) as [[t r]|] eqn:H; [|done].
    destruct (Atoi (trim t)) as [n|] eqn:Hn; [|done]. destruct (0 <=? n)%Z eqn:Hpos; [|done]. intros ?; simplify_eq.
    apply cutAt_inv in H as [Hclose Hl]. destruct t as [|d t]; [vm_compute in Hn; done|]. cbn [app] in Hl. simplify_eq.
    exists (d :: t ++ [CLOSE]), (indexSegment n). apply Z.leb_le in Hpos. split; [by constructor|].
    cbn [app drop]. by rewrite <- app_assoc.
Qed.

(** ** Keys *)

Lemma plainRune_valid r : plainRune r -> validRune r.
Proof. intros (_ & _ & _ & _ & v & Hv & _). split; [by intros ->|eauto]. Qed.

(** What follows a key: the end, a dot or a bracket. *)
Definition keyEnds (l : bytestr) : Prop := match l with [] => True | c :: _ => c = DOT \/ c = OPEN end.

Lemma rest_keyEnds l segs : Rest false l segs -> keyEnds l.
Proof. intros H. inversion H; subst; simpl; auto. Qed.

Lemma keyLoop_plain rs l : Forall plainRune rs -> keyEnds l ->
  forall fuel, length (mjoin rs ++ l) <= fuel -> keyLoop fuel (mjoin rs ++ l) = Some l.
Proof.
  intros Hrs Hl. induction Hrs as [|r rs Hr _ IH]; intros fuel Hf.
  - destruct l as [|c l], fuel; try done. cbn [mjoin list_join app keyLoop].
    destruct Hl as [->| ->]; [|rewrite orb_true_r]; done.
  - pose proof (plainRune_valid _ Hr) as Hv. destruct Hr as (Hd & Ho & Hc & Hs & v & Hdec & Hctl).
    destruct r as [|b r]; [by destruct Hv|]. change (mjoin ((b :: r) :: rs)) with ((b :: r) ++ mjoin rs) in *.
    rewrite <- app_assoc in *. destruct fuel; [simpl in Hf; lia|]. cbn [app keyLoop].
    change (b :: r ++ mjoin rs ++ l) with ((b :: r) ++ mjoin rs ++ l) in *.
    rewrite !bool_decide_eq_false_2 by (intros ->; apply valid_ascii in Hv as ->; [done|compute; done]). cbn [orb].
    rewrite (decode_rune_app _ _ _ _ Hdec), take_app_length, drop_app_length, Hs, Hctl.
    assert (isChar CLOSE (b :: r) = false) as -> by (by apply bool_decide_eq_false_2). cbn [orb].
    apply IH. rewrite length_app in Hf. simpl in Hf. lia.
Qed.

Lemma keyLoop_inv rest : forall fuel l, length l <= fuel -> keyLoop fuel l = Some rest ->
  exists rs, Forall plainRune rs /\ keyEnds rest /\ l = mjoin rs ++ rest.
Proof.
  induction fuel as [|fuel IH]; intros [|c l] Hf; cbn [length] in Hf; try lia; cbn [keyLoop];
    [intros ?; simplify_eq; by exists [] ..|].
  destruct (bool_decide (c = DOT) || bool_decide (c = OPEN)) eqn:Hc.
  { intros ?; simplify_eq. exists []. apply orb_true_iff in Hc. rewrite !bool_decide_eq_true in Hc. by split_and!. }
  destruct (decode_rune (c :: l)) as [[v n]|] eqn:Hdec; [|done].
  destruct (isChar CLOSE (take n (c :: l)) || IsSpace (take n (c :: l)) || IsControl v) eqn:Hp; [done|].
  apply orb_false_iff in Hc as [Hd%bool_decide_eq_false Ho%bool_decide_eq_false].
  apply orb_false_iff in Hp as [[Hcl%bool_decide_eq_false Hs]%orb_false_iff Hctl].
  pose proof (decode_rune_width _ _ _ Hdec) as Hw. intros H. apply IH in H as (rs & Hrs & He & Hl); [|rewrite length_drop; simpl; lia].
  exists (take n (c :: l) :: rs). split_and!; [|done|].
  - constructor; [|done]. destruct n as [|n]; [lia|]. cbn [take] in *. split_and!; [congruence..|done|done|].
    exists v. split; [|done]. rewrite (decode_rune_prefix _ _ _ Hdec : decode_rune (c :: take n l) = _).
    cbn [length] in *. rewrite length_take. do 2 f_equal. lia.
  - change (mjoin (take n (c :: l) :: rs)) with (take n (c :: l) ++ mjoin rs). by rewrite <- app_assoc, <- Hl, take_drop.
Qed.

(** ** Reading a path *)

Lemma rest_due_nonempty l segs : Rest true l segs -> l <> [].
Proof.
  intros H. inversion H as [| | |rs ? ? Hne Hrs]; subst; [done|]. destruct rs as [|r rs]; [done|].
  apply Forall_cons in Hrs as [Hr _]. apply plainRune_valid in Hr as [Hr _]. by destruct r.
Qed.

Lemma validLoop_rest due l segs : Rest due l segs -> forall fuel, length l <= fuel -> validLoop fuel due l = true.
Proof.
  induction 1 as [|l segs H IH|due t l s segs Ht H IH|rs l segs Hne Hrs H IH]; intros fuel Hf; [by destruct fuel|..].
  - destruct fuel; [simpl in Hf; lia|]. cbn [validLoop]. rewrite bool_decide_eq_true_2 by done. apply IH. simpl in Hf. lia.
  - destruct fuel; [simpl in Hf; lia|]. cbn [validLoop]. rewrite bool_decide_eq_false_2, bool_decide_eq_true_2 by done.
    rewrite (proj2 (bracket_read _ _ l Ht)). apply IH. rewrite length_cons, length_app in Hf. lia.
  - pose proof (keyLoop_plain rs l Hrs (rest_keyEnds _ _ H)) as Hk. pose proof Hrs as Hrs'.
    destruct rs as [|r rs]; [done|]. apply Forall_cons in Hrs' as [Hr _].
    pose proof (plainRune_valid _ Hr) as Hv. destruct r as [|b r]; [by destruct Hv|].
    destruct Hr as (Hd & Ho & _). assert (Hlen : length (mjoin ((b :: r) :: rs) ++ l) <> length l)
      by (change (mjoin ((b :: r) :: rs)) with ((b :: r) ++ mjoin rs); rewrite !length_app; simpl; lia).
    specialize (Hk _ (le_n _)). destruct fuel; [simpl in Hf; lia|].
    change (mjoin ((b :: r) :: rs) ++ l) with (b :: (r ++ mjoin rs) ++ l) in *. cbn [validLoop].
    rewrite !bool_decide_eq_false_2 by (intros ->; apply valid_ascii in Hv as ->; [done|compute; done]). cbn [negb].
    rewrite Hk, (proj2 (Nat.eqb_neq _ _)) by done. apply IH. cbn [length] in Hf. rewrite !length_app in Hf. lia.
Qed.

Lemma validLoop_inv : forall fuel due l, length l <= fuel -> validLoop fuel due l = true -> exists segs, Rest due l segs.
Proof.
  induction fuel as [|fuel IH]; intros due [|c l] Hf; cbn [length] in Hf; try lia; cbn [validLoop];
    [destruct due; [done|]; intros _; exists []; constructor..|].
  case_bool_decide as Hd; [subst c; destruct due; [done|]; intros H; apply IH in H as [segs H]; [|lia]; exists segs; by constructor|].
  case_bool_decide as Ho.
  { subst c. destruct (validBracket l) as [rest|] eqn:Hb; [|done]. apply bracket_inv in Hb as (t & s & Ht & ->).
    intros H. apply IH in H as [segs H]; [|rewrite length_app in Hf; lia]. exists (s :: segs). by constructor. }
  destruct due; [|done]. cbn [negb]. destruct (keyLoop (length (c :: l)) (c :: l)) as [rest|] eqn:Hk; [|done].
  destruct (length rest =? length (c :: l)) eqn:Hlen; [done|]. apply Nat.eqb_neq in Hlen.
  apply keyLoop_inv in Hk as (rs & Hrs & He & Hl); [|done].
  assert (Hne : rs <> []) by (intros ->; by rewrite Hl in Hlen).
  intros H. apply IH in H as [segs H].
  - exists (keySegment (mjoin rs) :: segs). rewrite Hl. by constructor.
  - apply (f_equal length) in Hl. rewrite length_app in Hl. cbn [length] in *. lia.
Qed.

Lemma add_flush out buf segs : add out buf ++ segs = out ++ add [] buf ++ segs.
Proof. by destruct buf; simpl; rewrite <- ?app_assoc. Qed.

Lemma plain_bytes rs c : Forall plainRune rs -> c ∈ [DOT; OPEN] -> c ∉ mjoin rs.
Proof.
  intros Hrs Hc Hin. apply list_elem_of_join in Hin as (r & Hcr & Hr). rewrite Forall_forall in Hrs. specialize (Hrs r Hr).
  assert (Hb : (byte_val c < 128)%N) by (apply elem_of_cons in Hc as [->|[->|[]%elem_of_nil]%elem_of_cons]; done).
  pose proof (rune_ascii r c (plainRune_valid _ Hrs) Hb Hcr) as ->. destruct Hrs as (Hd & Ho & _).
  apply elem_of_cons in Hc as [->|[->|[]%elem_of_nil]%elem_of_cons]; done.
Qed.

Lemma splitLoop_plain k l : DOT ∉ k -> OPEN ∉ k -> forall fuel out buf,
  splitLoop (length k + fuel) out buf (k ++ l) = splitLoop fuel out (buf ++ k) l.
Proof.
  induction k as [|c k IH]; intros Hd Ho fuel out buf; [by rewrite app_nil_r|].
  apply not_elem_of_cons in Hd as [Hcd Hd]. apply not_elem_of_cons in Ho as [Hco Ho]. cbn [length plus app splitLoop].
  rewrite !bool_decide_eq_false_2 by congruence. by rewrite IH, <- app_assoc.
Qed.

Lemma splitLoop_rest due l segs : Rest due l segs -> forall fuel out buf, length l <= fuel -> (due = true -> buf = []) ->
  splitLoop fuel out buf l = add out buf ++ segs.
Proof.
  induction 1 as [|l segs H IH|due t l s segs Ht H IH|rs l segs Hne Hrs H IH]; intros fuel out buf Hf Hbuf.
  - by destruct fuel; rewrite app_nil_r.
  - destruct fuel; [simpl in Hf; lia|]. cbn [splitLoop]. rewrite bool_decide_eq_true_2 by done.
    by rewrite IH by (simpl in Hf; auto with lia).
  - destruct fuel; [simpl in Hf; lia|]. cbn [splitLoop]. rewrite bool_decide_eq_false_2, bool_decide_eq_true_2 by done.
    rewrite (proj1 (bracket_read _ _ l Ht)). cbn [drop]. rewrite drop_0.
    rewrite IH by (rewrite ?length_cons, ?length_app in Hf; auto with lia). cbn [add]. by rewrite <- app_assoc.
  - rewrite (Hbuf eq_refl). rewrite length_app in Hf.
    replace fuel with (length (mjoin rs) + (fuel - length (mjoin rs))) by lia.
    rewrite splitLoop_plain by (apply plain_bytes; [done|]; repeat constructor). rewrite IH by (done || lia).
    pose proof (rest_due_nonempty _ _ (Rest_key rs [] [] Hne Hrs Rest_end)) as Hk. rewrite app_nil_r in Hk.
    destruct (mjoin rs) as [|c k]; [done|]. simpl. by rewrite <- app_assoc.
Qed.

Lemma split_rest l segs : Rest true l segs -> split l = segs.
Proof. intros H. unfold split. by rewrite (splitLoop_rest _ _ _ H) by done. Qed.

(** The segments of a path: keys and indices that are not negative. *)
Definition canonical (s : segment) : Prop := (exists k, s = keySegment k) \/ (exists n, (0 <= n)%Z /\ s = indexSegment n).

Lemma rest_canonical due l segs : Rest due l segs -> Forall canonical segs.
Proof.
  induction 1 as [|l segs H IH|due t l s segs Ht H IH|rs l segs Hne Hrs H IH]; [done|done| |].
  - constructor; [|done]. destruct Ht as [q t k ws|c t n]; [left|right]; eauto.
  - constructor; [|done]. left. eauto.
Qed.

Lemma path_canonical p segs : Path p segs -> Forall canonical segs.
Proof. destruct 1; try done; by eapply rest_canonical. Qed.

Lemma follow_at segs w : Forall canonical segs -> forall v, follow v segs = Some w <-> At v segs w.
Proof.
  induction 1 as [|s segs Hs _ IH]; intros v; [split; [intros [= ->]; constructor|by inversion 1]|]. cbn [follow].
  destruct Hs as [[k ->]|[n [Hn ->]]].
  - split.
    + destruct v; try done. cbn [step isIdx key keySegment]. destruct (m !! str k) eqn:Hm; [|done]. intros Hf. econstructor; [exact Hm|by apply IH].
    + intros H. inversion H as [|? ? ? ? ? Hm Hat|? ? ? ? ? Hm Hat]; subst. cbn [step isIdx key keySegment]. rewrite Hm. by apply IH.
  - split.
    + destruct v as [| | | |items|]; try done. cbn.
      destruct ((n <? 0) || (Z.of_nat (length items) <=? n))%Z eqn:Hr; [done|]. destruct (items !! Z.to_nat n) eqn:Hi; [|done].
      intros Hf. rewrite <- (Z2Nat.id n) by done. econstructor; [exact Hi|by apply IH].
    + intros H. inversion H as [| |items i ? ? ? Hi Hat]; subst. cbn. pose proof (lookup_lt_Some _ _ _ Hi) as Hlt.
      rewrite (proj2 (Z.ltb_ge _ _)) by lia. rewrite (proj2 (Z.leb_gt _ _)) by lia. rewrite Nat2Z.id, Hi. by apply IH.
Qed.

Lemma Valid_path path segs : Path (trim path) segs -> Valid path = true.
Proof.
  unfold Valid. intros H. destruct H as [| |l segs H|l segs H|l segs Hcut H]; [done|done| | |].
  - pose proof (rest_due_nonempty _ _ H) as Hne. cbn [cut bytes String.list_ascii_of_string].
    rewrite !bool_decide_eq_true_2 by done. destruct l as [|c l]; [done|]. by eapply validLoop_rest.
  - cbn [cut bytes String.list_ascii_of_string]. rewrite bool_decide_eq_true_2, bool_decide_eq_false_2, bool_decide_eq_true_2 by done.
    cbn [negb]. exact (validLoop_rest _ _ _ H _ (le_n _)).
  - pose proof (rest_due_nonempty _ _ H) as Hne. rewrite Hcut. destruct l as [|c l]; [done|]. by eapply validLoop_rest.
Qed.

Lemma Valid_inv path : Valid path = true -> exists segs, Path (trim path) segs.
Proof.
  unfold Valid. destruct (trim path) as [|c p]; [intros _; exists []; constructor|].
  destruct (cut (bytes "$") (c :: p)) as [rest|] eqn:Hcut.
  - cbn in Hcut. case_bool_decide as Hc; [subst c; simplify_eq|done]. rename rest into p. destruct p as [|d p]; [intros _; exists []; constructor|].
    case_bool_decide as Hd; [subst d; destruct p as [|e p]; [done|]|case_bool_decide as Ho; [subst d|done]];
      intros H; apply validLoop_inv in H as [segs H]; try done; exists segs; by constructor.
  - intros H. apply validLoop_inv in H as [segs H]; [|done]. exists segs. by constructor.
Qed.

Lemma Get_path v path segs : Path (trim path) segs -> Get v path = follow v segs.
Proof.
  unfold Get. intros H. destruct H as [| |l segs H|l segs H|l segs Hcut H]; [done|done| | |].
  - rewrite bool_decide_eq_false_2 by done. change (follow v (split l) = follow v segs). by rewrite (split_rest _ _ H).
  - rewrite bool_decide_eq_false_2 by done. change (follow v (split (OPEN :: l)) = follow v segs). by rewrite (split_rest _ _ H).
  - pose proof (rest_due_nonempty _ _ H) as Hne. rewrite bool_decide_eq_false_2, Hcut by done. by rewrite (split_rest _ _ H).
Qed.

(** C23. A path is accepted exactly when it belongs to the language of paths (keys
    and indices, quoted or bare), and an accepted path is read without loss: its
    value in a document is the value at the place it names, and there is none
    exactly when the document has no such place. *)
Theorem paths_exact path :
  Valid path = true <->
  exists segs, Path (trim path) segs /\ forall v w, Get v path = Some w <-> At v segs w.
Proof.
  split.
  - intros [segs Hp]%Valid_inv. exists segs. split; [done|]. intros v w. rewrite (Get_path _ _ _ Hp).
    by apply follow_at, (path_canonical (trim path)).
  - intros (segs & Hp & _). by eapply Valid_path.
Qed.

(** ** Writing the path of a place *)

Definition escapeKey (c : Ascii.ascii) : bytestr :=
  if bool_decide (c = BACKSLASH) || bool_decide (c = DQUOTE) then [BACKSLASH; c] else [c].
Definition writeSegment (s : segment) : bytestr :=
  OPEN :: if isIdx s then bytes (itoa (index s)) ++ [CLOSE]
          else DQUOTE :: mjoin (map escapeKey (key s)) ++ [DQUOTE; CLOSE].
Definition write (segs : list segment) : bytestr := "$"%char :: mjoin (map writeSegment segs).

(** A byte that neither begins nor ends white space. *)
Definition innerByte (c : Ascii.ascii) : bool :=
  forallb (fun w => negb (bool_decide (head w = Some c)) && negb (bool_decide (last w = Some c))) spaces.

Lemma cutAny_head ws c l : Forall (fun w => w <> [] /\ head w <> Some c) ws -> cutAny ws (c :: l) = None.
Proof.
  induction 1 as [|w ws [Hne Hw] _ IH]; [done|]. destruct w as [|a w]; [done|]. cbn [cutAny cut].
  rewrite bool_decide_eq_false_2; [done|]. intros ->. by apply Hw.
Qed.

Lemma trim_inner c l d m : c :: l = m ++ [d] -> innerByte c = true -> innerByte d = true -> trim (c :: l) = c :: l.
Proof.
  assert (Hs : forall c, innerByte c = true -> Forall (fun w => head w <> Some c /\ last w <> Some c) spaces).
  { intros b Hb. apply Forall_forall. intros w Hw%list_elem_of_In. unfold innerByte in Hb. rewrite forallb_forall in Hb.
    specialize (Hb w Hw). by rewrite andb_true_iff, !negb_true_iff, !bool_decide_eq_false in Hb. }
  destruct spaces_nonempty as [Hn1 Hn2]. intros Heq Hc%Hs Hd%Hs. unfold trim. rewrite TrimSpace_fixed, bytes_str; rewrite ?bytes_str; [done| |].
  - apply cutAny_head. rewrite !Forall_forall in *. intros w Hw. split; [by apply Hn1|by apply Hc].
  - rewrite Heq, rev_app_distr. apply cutAny_head. rewrite !Forall_forall in *. intros w Hw. split; [by apply Hn2|].
    apply list_elem_of_fmap in Hw as (u & -> & Hu). rewrite (rev_alt u). change (rev_append u []) with (reverse u). rewrite head_reverse. by apply Hd.
Qed.

Lemma digits_inner l : digitChars l -> Forall (fun c => innerByte c = true /\ isQuote c = false /\ c <> CLOSE) l.
Proof.
  intros H. eapply Forall_impl; [exact H|]. intros c [H1 H2]. revert c H1 H2.
  assert (Hall : forall c, implb ((48 <=? byte_val c) && (byte_val c <=? 57))%N
      (innerByte c && negb (isQuote c) && negb (bool_decide (c = CLOSE))) = true) by (apply all_bytes; vm_compute; reflexivity).
  intros c H1%N.leb_le H2%N.leb_le. specialize (Hall c). rewrite H1, H2 in Hall. cbn [andb implb] in Hall.
  by rewrite !andb_true_iff, !negb_true_iff, bool_decide_eq_false in Hall; destruct Hall as [[? ?] ?].
Qed.

Lemma trim_digits l : digitChars l -> l <> [] -> trim l = l.
Proof.
  intros Hl%digits_inner Hne. destruct l as [|c l]; [done|]. destruct (exists_last Hne) as (m & d & Heq).
  apply (trim_inner c l d m Heq); [by apply Forall_cons in Hl as [[? _] _]|]. rewrite Heq in Hl.
  apply Forall_app in Hl as [_ Hd]. by apply Forall_cons in Hd as [[? _] _].
Qed.

Lemma udigits_nonempty fuel : forall z c acc, udigits fuel z (c :: acc) <> [].
Proof. induction fuel as [|fuel IH]; intros z c acc; [done|]. cbn [udigits]. by destruct (z <? 10)%Z. Qed.

Lemma itoa_nonempty n : (0 <= n)%Z -> bytes (itoa n) <> [].
Proof.
  intros Hn. unfold itoa. rewrite (proj2 (Z.ltb_ge _ _)) by lia. rewrite bytes_str. cbn [udigits].
  destruct (Z.abs n <? 10)%Z; [done|]. apply udigits_nonempty.
Qed.

Lemma Atoi_itoa n : (0 <= n < 2 ^ 63)%Z -> Atoi (trim (bytes (itoa n))) = Some n /\
  exists c l, bytes (itoa n) = c :: l /\ isQuote c = false /\ CLOSE ∉ c :: l.
Proof.
  intros Hn. destruct (itoa_spec n ltac:(lia)) as [Hd Hv].
  assert (Hne : bytes (itoa n) <> []) by (apply itoa_nonempty; lia).
  rewrite trim_digits by done. pose proof (digits_inner _ Hd) as Hi. pose proof (digitsOf_spec _ 0%Z Hd) as Hof.
  fold (digitsValue (bytes (itoa n))) in Hof. rewrite Hv in Hof. destruct (bytes (itoa n)) as [|c l]; [done|]. split.
  - unfold Atoi. apply Forall_cons in Hd as [[H1 H2] _].
    rewrite !bool_decide_eq_false_2 by (intros ->; vm_compute in H1; congruence). rewrite Hof. unfold inInt64.
    rewrite (proj2 (Z.leb_le _ _)) by lia. by rewrite (proj2 (Z.ltb_lt _ _)) by lia.
  - exists c, l. split_and!; [done| |].
    + by apply Forall_cons in Hi as [(_ & ? & _) _].
    + intros Hin. rewrite Forall_forall in Hi. by apply Hi in Hin as (_ & _ & ?).
Qed.

Lemma escaped_quoted k : Quoted DQUOTE (mjoin (map escapeKey k)) k.
Proof.
  induction k as [|c k IH]; [constructor|].
  change (mjoin (map escapeKey (c :: k))) with (escapeKey c ++ mjoin (map escapeKey k)). unfold escapeKey at 1.
  destruct (bool_decide (c = BACKSLASH) || bool_decide (c = DQUOTE)) eqn:Hc.
  - assert (Hu : c = unescape c) by (apply orb_true_iff in Hc; rewrite !bool_decide_eq_true in Hc; by destruct Hc as [->| ->]).
    cbn [app]. rewrite Hu at 2. by apply Quoted_escape.
  - apply orb_false_iff in Hc. rewrite !bool_decide_eq_false in Hc. destruct Hc. by apply Quoted_char.
Qed.

(** An index of a Go list is an int. *)
Definition smallIndex (s : segment) : Prop := (index s < 2 ^ 63)%Z.

Lemma written_bracket s : canonical s -> smallIndex s -> exists t, writeSegment s = OPEN :: t /\ Bracket t s.
Proof.
  intros [[k ->]|[n [Hn ->]]] Hs; unfold writeSegment; cbn [isIdx key index keySegment indexSegment]; eexists; (split; [done|]).
  - apply (Bracket_key DQUOTE _ k []); [done|apply escaped_quoted|done].
  - destruct (Atoi_itoa n) as [Ha (c & l & Hl & Hq & Hc)]; [by split|]. rewrite Hl in *. cbn [app]. by constructor.
Qed.

Lemma written_rest segs : Forall canonical segs -> Forall smallIndex segs ->
  Rest false (mjoin (map writeSegment segs)) segs /\ (segs <> [] -> Rest true (mjoin (map writeSegment segs)) segs).
Proof.
  induction 1 as [|s segs Hc _ IH]; intros Hs; [split; [constructor|done]|]. apply Forall_cons in Hs as [Hi Hs].
  destruct (written_bracket s Hc Hi) as (t & Ht & Hb). destruct (IH Hs) as [Hr _].
  change (mjoin (map writeSegment (s :: segs))) with (writeSegment s ++ mjoin (map writeSegment segs)). rewrite Ht.
  cbn [app]. split; intros; by constructor.
Qed.

Lemma at_canonical v segs w : At v segs w -> Forall canonical segs.
Proof. induction 1; constructor; try done; [left; eauto|right; eexists; split; [|done]; lia]. Qed.

Lemma written_last segs : segs <> [] -> exists m, write segs = m ++ [CLOSE].
Proof.
  intros Hne. destruct (exists_last Hne) as (segs' & s & ->). unfold write. rewrite map_app, join_app. cbn [map mjoin list_join].
  rewrite app_nil_r. assert (exists t, writeSegment s = t ++ [CLOSE]) as [t ->].
  { unfold writeSegment. destruct (isIdx s); [by exists (OPEN :: bytes (itoa (index s)))|].
    exists (OPEN :: DQUOTE :: mjoin (map escapeKey (key s)) ++ [DQUOTE]). cbn [app]. by rewrite <- app_assoc. }
  exists ("$"%char :: mjoin (map writeSegment segs') ++ t). cbn [app]. by rewrite <- app_assoc.
Qed.

(** C24. Every place of a document has a path: whatever bytes its keys are made of
    (dots, brackets, quotes, invalid UTF-8), the path written for it is accepted
    and reads the value at that place. *)
Theorem every_place_has_a_path v segs w :
  At v segs w -> Forall smallIndex segs ->
  Valid (write segs) = true /\ Get v (write segs) = Some w.
Proof.
  intros Hat Hs. pose proof (at_canonical _ _ _ Hat) as Hc. destruct (written_rest _ Hc Hs) as [_ Hr].
  assert (Hp : Path (trim (write segs)) segs).
  { destruct segs as [|s segs]; [constructor|]. destruct (written_bracket s) as (t & Ht & Hb);
      [by apply Forall_cons in Hc as [? _]|by apply Forall_cons in Hs as [? _]|].
    specialize (Hr ltac:(done)). destruct (written_last (s :: segs)) as [m Hm]; [done|].
    unfold write in *. rewrite (trim_inner _ _ CLOSE m Hm) by done.
    change (mjoin (map writeSegment (s :: segs))) with (writeSegment s ++ mjoin (map writeSegment segs)) in *.
    rewrite Ht in *. by constructor. }
  split; [by eapply Valid_path|]. rewrite (Get_path _ _ _ Hp). by apply follow_at.
Qed.

(** ** Examples *)

Definition doc : Iface :=
  IMap {["items" := IList [IMap {["display.name" := IStr "Ada"; "" := IBool true]}; INil]]}.

Example test_valid :
  map (fun p => Valid (bytes p))
    ["user.id"; "items[0].id"; "items.[0].id"; "$['display.name']"; "user..id"; "items[invalid-index]"; "items[-1]"; "items[0"; "$user"; "user."; "$."]
  = [true; true; true; true; false; false; false; false; false; false; false].
Proof. vm_compute. reflexivity. Qed.

Example test_get : Get doc (bytes "$['items'][0]['display.name']") = Some (IStr "Ada").
Proof. vm_compute. reflexivity. Qed.

(** [Get] does not ask [Valid]: what is malformed is left out, so that these paths
    read more than they name. *)
Lemma malformed_path_reads_more :
  Valid (bytes "items[0") = false /\ Get doc (bytes "items[0") = Get doc (bytes "items") /\
  Valid (bytes "items[x]") = false /\ Get doc (bytes "items[x]") = Get doc (bytes "items") /\
  is_Some (Get doc (bytes "items")).
Proof. split_and!; [vm_compute; reflexivity..|]. eexists. vm_compute. reflexivity. Qed.

Definition samplePlace : list segment := [keySegment (bytes "items"); indexSegment 0; keySegment (bytes "display.name")].

Lemma every_place_has_a_path_witness :
  Valid (write samplePlace) = true /\ Get doc (write samplePlace) = Some (IStr "Ada").
Proof.
  apply every_place_has_a_path.
  - eapply At_key; [vm_compute; reflexivity|]. apply (At_index _ 0 (IMap {["display.name" := IStr "Ada"; "" := IBool true]})); [reflexivity|].
    eapply At_key; [vm_compute; reflexivity|]. constructor.
  - repeat (constructor; [vm_compute; reflexivity|]). constructor.
Defined.
