(* ===== verification/Curl.v ===== *)
(** * cURL commands (src/internal/curl/)

    A shell command line that calls curl becomes requests.  Module Cu: the
    tokenizer (token_state.go, tokenizer.go), options and positional arguments
    (parse_cmd.go), the options' meaning and the request they build (options.go,
    body.go, norm.go, warnings.go, parser.go), the extraction of commands from a
    text (scan.go) and the document an import makes of them (importer/service.go).

    The runes of a text are the bytes that encode them.  A position in a slice is
    the suffix from it.  net/url's parser, strconv.ParseFloat and SHA-256 are
    parameters. *)
From stdpp Require Import base list strings gmap.
From Stdlib Require Import Ascii ZArith Lia.
From S2P Require Import Prelude GoStd GoFloat GoPath Names DotEnv Text Units Lines Protocols Specs Requests.

Open Scope string_scope.
Open Scope nat_scope.
Open Scope list_scope.

Module Cu.

(** ** token_state.go *)

Record TokenState := mkToken { inSingle : bool; inDouble : bool; inANSI : bool; escape : bool; skipLF : bool }.
Definition noToken : TokenState := mkToken false false false false false.

Definition TokenOpen (s : TokenState) : bool := inSingle s || inDouble s || inANSI s.
Definition InQuote (s : TokenState) : bool := inSingle s || inDouble s.
Definition ResetEscape (s : TokenState) : TokenState := mkToken (inSingle s) (inDouble s) (inANSI s) false false.
Definition set_escape (b : bool) (s : TokenState) : TokenState := mkToken (inSingle s) (inDouble s) (inANSI s) b (skipLF s).
Definition set_skipLF (b : bool) (s : TokenState) : TokenState := mkToken (inSingle s) (inDouble s) (inANSI s) (escape s) b.
Definition set_ANSI (b : bool) (s : TokenState) : TokenState := mkToken (inSingle s) (inDouble s) b (escape s) (skipLF s).

Record tokenOptions := mkTokenOptions { decodeANSI : bool; allowLineContinuation : bool }.

(** A tokenStep: not handled, or handled with or without a rune to write. *)
Inductive tokenStep := Unhandled | Silent | Emit (r : rune).

(** [utf8.AppendRune] of a rune below 2^16: a surrogate is written as U+FFFD. *)
Definition byteZ (n : Z) : Ascii.ascii := byte_of (Z.to_N n).
Definition encodeRune (v : Z) : rune :=
  if (v <? 128)%Z then [byteZ v]
  else if (v <? 2048)%Z then [byteZ (192 + v / 64); byteZ (128 + v mod 64)]
  else if ((55296 <=? v) && (v <? 57344))%Z then bytes RUNE_ERROR
  else [byteZ (224 + v / 4096); byteZ (128 + (v / 64) mod 64); byteZ (128 + v mod 64)].

Definition hexVal (r : rune) : option Z :=
  match r with
  | [c] =>
      let n := Z.of_N (byte_val c) in
      if ((48 <=? n) && (n <=? 57))%Z then Some (n - 48)%Z
      else if ((97 <=? n) && (n <=? 102))%Z then Some (n - 97 + 10)%Z
      else if ((65 <=? n) && (n <=? 70))%Z then Some (n - 65 + 10)%Z
      else None
  | _ => None
  end.

(** [readHex]: [n] digits of what follows. *)
Fixpoint hexDigits (rs : list rune) (val : Z) : option Z :=
  match rs with
  | [] => Some val
  | r :: rs' => match hexVal r with Some d => hexDigits rs' (val * 16 + d) | None => None end
  end.
Definition readHex (n : nat) (rs : list rune) : string + (rune * list rune) :=
  if length rs <? n then inl "invalid hex escape"
  else match hexDigits (take n rs) 0 with
       | Some val => inr (encodeRune val, drop n rs)
       | None => inl "invalid hex escape"
       end.

Definition ansiEsc (r : rune) (rs : list rune) : string + (rune * list rune) :=
  if isChar "n" r then inr ([LF], rs)
  else if isChar "r" r then inr ([CR], rs)
  else if isChar "t" r then inr ([TAB], rs)
  else if isChar "x" r then readHex 2 rs
  else if isChar "u" r then readHex 4 rs
  else inr (r, rs).

Definition isLineBreak (r : rune) : bool := isChar LF r || isChar CR r.
Definition isWhitespace (r : rune) : bool := isChar " " r || isChar TAB r || isChar LF r || isChar CR r.

(** [advance] at the rune [r] with [rs] behind it: the state, the step and what is
    left to read. *)
Definition advance (opts : tokenOptions) (s : TokenState) (r : rune) (rs : list rune)
    : string + (TokenState * tokenStep * list rune) :=
  let skip := skipLF s in
  let s := if skip then set_skipLF false s else s in
  if skip && isChar LF r then inr (s, Silent, rs)
  else if escape s then
    let s := set_escape false s in
    if inANSI s then
      if decodeANSI opts then
        match ansiEsc r rs with inl e => inl e | inr (v, rs) => inr (s, Emit v, rs) end
      else inr (s, Emit r, rs)
    else if allowLineContinuation opts && isLineBreak r then
      inr (if isChar CR r then set_skipLF true s else s, Silent, rs)
    else inr (s, Emit r, rs)
  else if inANSI s then
    if isChar BACKSLASH r then inr (set_escape true s, Silent, rs)
    else if isChar SQUOTE r then inr (set_ANSI false s, Silent, rs)
    else inr (s, Emit r, rs)
  else if isChar BACKSLASH r then
    if inSingle s then inr (s, Emit r, rs) else inr (set_escape true s, Silent, rs)
  else if isChar SQUOTE r then
    if negb (inDouble s) then inr (mkToken (negb (inSingle s)) (inDouble s) (inANSI s) (escape s) (skipLF s), Silent, rs)
    else inr (s, Emit r, rs)
  else if isChar DQUOTE r then
    if negb (inSingle s) then inr (mkToken (inSingle s) (negb (inDouble s)) (inANSI s) (escape s) (skipLF s), Silent, rs)
    else inr (s, Emit r, rs)
  else
    match rs with
    | r' :: rs' =>
        if negb (inSingle s) && negb (inDouble s) && isChar "$" r && isChar SQUOTE r' then inr (set_ANSI true s, Silent, rs')
        else inr (s, Unhandled, rs)
    | [] => inr (s, Unhandled, rs)
    end.

(** ** tokenizer.go *)

(** [[]rune(s)] *)
Fixpoint runesLoop (fuel : nat) (l : bytestr) : list rune :=
  match fuel, l with
  | S fuel', _ :: _ => let '(r, n) := headRune l in r :: runesLoop fuel' (drop n l)
  | _, _ => []
  end.
Definition runesOf (l : bytestr) : list rune := runesLoop (length l) l.

Record lexState := mkLex { token : TokenState; buf : bytestr; out : list bytestr }.
Definition lex_add (r : rune) (st : lexState) : lexState := mkLex (token st) (buf st ++ r) (out st).
Definition lex_flush (st : lexState) : lexState :=
  match buf st with [] => st | _ => mkLex (token st) [] (out st ++ [buf st]) end.

Definition splitOptions : tokenOptions := mkTokenOptions true true.

(** The loop: every turn takes a rune at least. *)
Fixpoint lexLoop (fuel : nat) (st : lexState) (rs : list rune) : string + lexState :=
  match fuel, rs with
  | S fuel', r :: rs' =>
      match advance splitOptions (token st) r rs' with
      | inl e => inl e
      | inr (t, stp, rs') =>
          let st := mkLex t (buf st) (out st) in
          lexLoop fuel'
            match stp with
            | Emit v => lex_add v st
            | Silent => st
            | Unhandled =>
                if isWhitespace r then if InQuote t then lex_add r st else lex_flush st
                else lex_add r st
            end rs'
      end
  | _, _ => inr st
  end.

Definition splitTokens (input : bytestr) : string + list bytestr :=
  let rs := runesOf input in
  match lexLoop (length rs) (mkLex noToken [] []) rs with
  | inl e => inl e
  | inr st =>
      if escape (token st) then inl "unterminated escape sequence"
      else if TokenOpen (token st) then inl "unterminated quoted string"
      else inr (out (lex_flush st))
  end.

(** ** ast.go *)

Record Opt := mkOpt { Key : string; Val : bytestr }.
Record Item := mkItem { ItemOpt : Opt; Pos : bytestr; IsOpt : bool }.
Record Seg := mkSeg { Items : list Item; Unk : list bytestr }.

Definition optItem (key : string) (val : bytestr) : Item := mkItem (mkOpt key val) [] true.
Definition posItem (val : bytestr) : Item := mkItem (mkOpt "" []) val false.

(** ** options.go: the table of options *)

Inductive optKind := optNone | optVal.

(** The functions of the table, by name; [optFn_run] is what they do. *)
Inductive optFn :=
  | optReq | optHdr | optUser | optHdrKey (k : string) | optHead | optComp | optURL | optJSON | optData | optDataRaw
  | optDataBin | optDataURL | optForm | optFormStr | optUp | optGet | optSet (key : string) | optSetConst (key val : string)
  | optSetDur (key : string) | optConnTimeout | optMaxRedirs | optRetry | optWarn (flag : string) | optWarnVal (flag : string)
  | optWarnDur (name : string).

Record optDef := mkDef { key : string; kind : optKind; fn : optFn }.

Definition defs : list optDef :=
  [mkDef "request" optVal optReq; mkDef "header" optVal optHdr; mkDef "user" optVal optUser;
   mkDef "user-agent" optVal (optHdrKey "User-Agent"); mkDef "referer" optVal (optHdrKey "Referer");
   mkDef "cookie" optVal (optHdrKey "Cookie"); mkDef "head" optNone optHead; mkDef "compressed" optNone optComp;
   mkDef "url" optVal optURL; mkDef "json" optVal optJSON; mkDef "data-json" optVal optJSON; mkDef "data" optVal optData;
   mkDef "data-raw" optVal optDataRaw; mkDef "data-binary" optVal optDataBin; mkDef "data-urlencode" optVal optDataURL;
   mkDef "form" optVal optForm; mkDef "form-string" optVal optFormStr; mkDef "upload-file" optVal optUp;
   mkDef "get" optNone optGet; mkDef "insecure" optNone (optSetConst "http-insecure" "true");
   mkDef "proxy" optVal (optSet "proxy"); mkDef "location" optNone (optSetConst "followredirects" "true");
   mkDef "max-time" optVal (optSetDur "timeout"); mkDef "connect-timeout" optVal optConnTimeout;
   mkDef "max-redirs" optVal optMaxRedirs; mkDef "retry" optVal optRetry;
   mkDef "retry-delay" optVal (optWarnDur "retry-delay"); mkDef "retry-max-time" optVal (optWarnDur "retry-max-time");
   mkDef "retry-connrefused" optNone (optWarn "--retry-connrefused"); mkDef "cacert" optVal (optSet "http-root-cas");
   mkDef "cert" optVal (optSet "http-client-cert"); mkDef "key" optVal (optSet "http-client-key");
   mkDef "silent" optNone (optWarn "--silent"); mkDef "silent-short" optNone (optWarn "-s");
   mkDef "show-error" optNone (optWarn "--show-error"); mkDef "show-error-short" optNone (optWarn "-S");
   mkDef "verbose" optNone (optWarn "--verbose"); mkDef "verbose-short" optNone (optWarn "-v");
   mkDef "include" optNone (optWarn "--include"); mkDef "include-short" optNone (optWarn "-i");
   mkDef "output" optVal (optWarnVal "--output"); mkDef "output-short" optVal (optWarnVal "-o");
   mkDef "remote-name" optNone (optWarn "--remote-name"); mkDef "remote-name-short" optNone (optWarn "-O");
   mkDef "dump-header" optVal (optWarnVal "--dump-header"); mkDef "dump-header-short" optVal (optWarnVal "-D");
   mkDef "stderr" optVal (optWarnVal "--stderr"); mkDef "trace" optVal (optWarnVal "--trace");
   mkDef "trace-ascii" optVal (optWarnVal "--trace-ascii"); mkDef "http1.1" optNone (optWarn "--http1.1");
   mkDef "http2" optNone (optWarn "--http2"); mkDef "http2-prior-knowledge" optNone (optWarn "--http2-prior-knowledge");
   mkDef "http3" optNone (optWarn "--http3"); mkDef "resolve" optVal (optWarnVal "--resolve");
   mkDef "connect-to" optVal (optWarnVal "--connect-to"); mkDef "interface" optVal (optWarnVal "--interface");
   mkDef "dns-servers" optVal (optWarnVal "--dns-servers")].

Definition findDef (k : string) : option optDef := List.find (fun d => bool_decide (key d = k)) defs.

(** [longDefs]: every option but the ones of short flags, under its own name, and
    one under two. *)
Definition longNames : list string :=
  ["request"; "header"; "user"; "user-agent"; "referer"; "cookie"; "head"; "compressed"; "url"; "json"; "data-json"; "data";
   "data-ascii"; "data-urlencode"; "data-raw"; "data-binary"; "form"; "form-string"; "upload-file"; "get"; "insecure"; "proxy";
   "location"; "max-time"; "connect-timeout"; "max-redirs"; "retry"; "retry-delay"; "retry-max-time"; "retry-connrefused";
   "cacert"; "cert"; "key"; "silent"; "show-error"; "verbose"; "include"; "output"; "remote-name"; "dump-header"; "stderr";
   "trace"; "trace-ascii"; "http1.1"; "http2"; "http2-prior-knowledge"; "http3"; "resolve"; "connect-to"; "interface"; "dns-servers"].
Definition longDefs (name : string) : option optDef :=
  if bool_decide (name ∈ longNames) then findDef (if bool_decide (name = "data-ascii") then "data" else name) else None.

Definition shortNames : list (Ascii.ascii * string) :=
  [("X"%char, "request"); ("H"%char, "header"); ("u"%char, "user"); ("A"%char, "user-agent"); ("e"%char, "referer"); ("b"%char, "cookie"); ("I"%char, "head");
   ("d"%char, "data"); ("F"%char, "form"); ("G"%char, "get"); ("T"%char, "upload-file"); ("k"%char, "insecure"); ("x"%char, "proxy"); ("L"%char, "location");
   ("m"%char, "max-time"); ("s"%char, "silent-short"); ("S"%char, "show-error-short"); ("v"%char, "verbose-short"); ("i"%char, "include-short");
   ("o"%char, "output-short"); ("O"%char, "remote-name-short"); ("D"%char, "dump-header-short")].
Definition shortDefs (ch : Ascii.ascii) : option optDef :=
  match List.find (fun p => bool_decide (p.1 = ch)) shortNames with Some (_, k) => findDef k | None => None end.

(** ** parse_cmd.go *)

Definition consumeNext (flag : bytestr) (tok : list bytestr) : string + (bytestr * list bytestr) :=
  match tok with
  | v :: tok' => inr (v, tok')
  | [] => inl ("missing argument for " +:+ str flag)
  end.

(** The name, the value and whether there is one; the name is empty when [t] is
    no long option. *)
Definition splitLong (t : bytestr) : bytestr * bytestr * bool :=
  if negb (hasPrefix (bytes "--") t) || (length t <? 3) then ([], [], false)
  else
    let raw := drop 2 t in
    match cutAt EQ raw with Some (before, after) => (before, after, true) | None => (raw, [], false) end.

(** [parseLong]: the item if the option is known, and the tokens left. *)
Definition parseLong (t : bytestr) (tok : list bytestr) : string + (option Item * list bytestr) :=
  let '(name, val, hasVal) := splitLong t in
  if bool_decide (name = []) then inr (None, tok)
  else match longDefs (str name) with
       | None => inr (None, tok)
       | Some def =>
           match kind def, hasVal with
           | optVal, false =>
               match consumeNext (bytes "--" ++ name) tok with
               | inl e => inl e
               | inr (val, tok) => inr (Some (optItem (key def) val), tok)
               end
           | _, _ => inr (Some (optItem (key def) val), tok)
           end
       end.

(** The loop of [parseShort] over the bytes behind the dash. *)
Definition shortFlag (ch : Ascii.ascii) : bytestr := "-"%char :: encodeRune (Z.of_N (byte_val ch)).
Fixpoint shortLoop (raw : bytestr) (tok : list bytestr) (its : list Item) (unk : list bytestr) (ok : bool)
    : string + (list Item * list bytestr * bool * list bytestr) :=
  match raw with
  | [] => inr (its, unk, ok, tok)
  | ch :: raw' =>
      match shortDefs ch with
      | None => shortLoop raw' tok its (unk ++ [shortFlag ch]) ok
      | Some def =>
          match kind def with
          | optNone => shortLoop raw' tok (its ++ [optItem (key def) []]) unk true
          | optVal =>
              match raw' with
              | _ :: _ => inr (its ++ [optItem (key def) raw'], unk, true, tok)
              | [] =>
                  match consumeNext (shortFlag ch) tok with
                  | inl e => inl e
                  | inr (val, tok) => inr (its ++ [optItem (key def) val], unk, true, tok)
                  end
              end
          end
      end
  end.
Definition parseShort (t : bytestr) (tok : list bytestr) : string + (list Item * list bytestr * bool * list bytestr) :=
  if (length t <? 2) || negb (hasPrefix (bytes "-") t) then inr ([], [], false, tok)
  else shortLoop (drop 1 t) tok [] [] false.

Definition addSeg (segs : list Seg) (seg : Seg) : list Seg :=
  match Items seg, Unk seg with [], [] => segs | _, _ => segs ++ [seg] end.
Definition addItems (its : list Item) (unk : list bytestr) (seg : Seg) : Seg := mkSeg (Items seg ++ its) (Unk seg ++ unk).

(** The loop of [parseCmd]: every turn takes a token at least. *)
Fixpoint cmdLoop (fuel : nat) (segs : list Seg) (seg : Seg) (posOnly : bool) (tok : list bytestr) : string + list Seg :=
  match fuel, tok with
  | S fuel', t :: tok' =>
      let positional := cmdLoop fuel' segs (addItems [posItem t] [] seg) posOnly tok' in
      if bool_decide (t = []) then cmdLoop fuel' segs seg posOnly tok'
      else if posOnly then positional
      else if bool_decide (t = bytes "--") then cmdLoop fuel' segs seg true tok'
      else if bool_decide (t = bytes "--next") then cmdLoop fuel' (addSeg segs seg) (mkSeg [] []) false tok'
      else if hasPrefix (bytes "--") t then
        match parseLong t tok' with
        | inl e => inl e
        | inr (Some it, tok') => cmdLoop fuel' segs (addItems [it] [] seg) posOnly tok'
        | inr (None, tok') => cmdLoop fuel' segs (addItems [] [t] seg) posOnly tok'
        end
      else if hasPrefix (bytes "-") t && negb (bool_decide (t = bytes "-")) then
        match parseShort t tok' with
        | inl e => inl e
        | inr (its, unk, ok, tok'') =>
            let seg := addItems (if ok then its else []) unk seg in
            if ok || negb (bool_decide (unk = [])) then cmdLoop fuel' segs seg posOnly tok''
            else cmdLoop fuel' segs (addItems [posItem t] [] seg) posOnly tok''
        end
      else positional
  | _, _ => inr (addSeg segs seg)
  end.

(** ** Prefixes of a command (parser.go) *)

Definition promptPrefixes : list Ascii.ascii := ["$"%char; "%"%char; ">"%char; "!"%char].
Definition stripPromptPrefix (tok : bytestr) : bytestr :=
  foldl (fun trimmed prefix => match trimmed with c :: l => if bool_decide (c = prefix) then trim l else trimmed | [] => trimmed end)
    (trim tok) promptPrefixes.

(** [strings.Trim(raw, urlQuoteChars)] *)
Fixpoint trimQuotesLeft (l : bytestr) : bytestr :=
  match l with c :: l' => if bool_decide (c = DQUOTE) || bool_decide (c = SQUOTE) then trimQuotesLeft l' else l | [] => [] end.
Definition sanitizeURL (raw : bytestr) : bytestr := rev (trimQuotesLeft (rev (trimQuotesLeft raw))).

Definition splitHeader (header : bytestr) : bytestr * bytestr :=
  let '(before, value) := match cutAt ":"%char header with Some (a, b) => (a, trim b) | None => (header, []) end in
  let name := trim before in
  match name with [] => ([], []) | _ => (name, value) end.

(** ** base64.StdEncoding, url.QueryEscape, hex.EncodeToString, time.Duration.String *)

Definition base64Char (n : Z) : Ascii.ascii :=
  nth (Z.to_nat n) (bytes "ABCDEFGHIJKLMNOPQRSTUVWXYZabcdefghijklmnopqrstuvwxyz0123456789+/") NUL.
Fixpoint base64 (l : bytestr) : bytestr :=
  let v c := Z.of_N (byte_val c) in
  match l with
  | a :: b :: c :: l' =>
      let n := (v a * 65536 + v b * 256 + v c)%Z in
      [base64Char (n / 262144); base64Char ((n / 4096) mod 64); base64Char ((n / 64) mod 64); base64Char (n mod 64)] ++ base64 l'
  | [a; b] =>
      let n := (v a * 65536 + v b * 256)%Z in
      [base64Char (n / 262144); base64Char ((n / 4096) mod 64); base64Char ((n / 64) mod 64); "="%char]
  | [a] => let n := (v a * 65536)%Z in [base64Char (n / 262144); base64Char ((n / 4096) mod 64); "="%char; "="%char]
  | [] => []
  end.

Definition unreserved (c : Ascii.ascii) : bool :=
  isASCIILetter c || isDigit c || bool_decide (c ∈ ["-"%char; "_"%char; "."%char; "~"%char]).
Definition upperHex (n : Z) : Ascii.ascii := byteZ (if (n <? 10)%Z then 48 + n else 55 + n).
Definition QueryEscape (l : bytestr) : bytestr :=
  mjoin (map (fun c =>
    if unreserved c then [c]
    else if bool_decide (c = " "%char) then ["+"%char]
    else let n := Z.of_N (byte_val c) in ["%"%char; upperHex (n / 16); upperHex (n mod 16)]) l).

Definition hexEncode (l : bytestr) : bytestr :=
  mjoin (map (fun c => let n := Z.of_N (byte_val c) in [hex_char (n / 16); hex_char (n mod 16)]) l).

(** [fmtFrac]: the [prec] lowest digits of [v] behind a point, without the zeros
    they end in. *)
Fixpoint lowDigits (prec : nat) (v : Z) : bytestr :=
  match prec with O => [] | S p => lowDigits p (v / 10) ++ [digit_char (v mod 10)] end.
Fixpoint dropZeros (l : bytestr) : bytestr :=
  match l with c :: l' => if bool_decide (c = "0"%char) then dropZeros l' else l | [] => [] end.
Definition fmtFrac (prec : nat) (v : Z) : bytestr :=
  match dropZeros (rev (lowDigits prec v)) with [] => [] | ds => POINT :: rev ds end.
Definition DurationString (d : Z) : bytestr :=
  let u := Z.abs d in
  let neg := if (d <? 0)%Z then ["-"%char] else [] in
  let num n := bytes (itoa n) in
  if (u =? 0)%Z then bytes "0s"
  else if (u <? 1000)%Z then neg ++ num u ++ bytes "ns"
  else if (u <? 1000000)%Z then neg ++ num (u / 1000)%Z ++ fmtFrac 3 u ++ Duration.MICRO 181
  else if (u <? 1000000000)%Z then neg ++ num (u / 1000000)%Z ++ fmtFrac 6 u ++ bytes "ms"
  else
    let s := (u / 1000000000)%Z in
    let secs := num (s mod 60)%Z ++ fmtFrac 9 u ++ bytes "s" in
    let m := (s / 60)%Z in
    if (m =? 0)%Z then neg ++ secs
    else let h := (m / 60)%Z in
         if (h =? 0)%Z then neg ++ num (m mod 60)%Z ++ bytes "m" ++ secs
         else neg ++ num h ++ bytes "h" ++ num (m mod 60)%Z ++ bytes "m" ++ secs.

(** ** body.go *)

Inductive bodyKind := bodyKindNone | bodyKindRaw | bodyKindForm | bodyKindMultipart | bodyKindFile.
#[global] Instance bodyKind_eq_dec : EqDecision bodyKind.
Proof. solve_decision. Defined.
Definition bodyKind_String (k : bodyKind) : string :=
  match k with
  | bodyKindNone => "none" | bodyKindRaw => "raw" | bodyKindForm => "form"
  | bodyKindMultipart => "multipart" | bodyKindFile => "file"
  end.

Record formField := mkField { fieldName : bytestr; fieldVal : bytestr; encVal : bool }.
Record multipartPart := mkPart { pname : bytestr; pval : bytestr; pfile : bytestr; ctype : bytestr; fname : bytestr; fileMode : bool }.
Record bodyBuilder := mkBody { bkind : bodyKind; braw : list bytestr; bform : list formField; bmulti : list multipartPart; bfile : bytestr }.
Definition newBodyBuilder : bodyBuilder := mkBody bodyKindNone [] [] [] [].

Definition ensureKind (k : bodyKind) (b : bodyBuilder) : string + bodyBuilder :=
  if bool_decide (bkind b = bodyKindNone) then inr (mkBody k (braw b) (bform b) (bmulti b) (bfile b))
  else if bool_decide (bkind b = k) then inr b
  else inl ("conflicting body flags: cannot use " +:+ bodyKind_String (bkind b) +:+ " with " +:+ bodyKind_String k).

Definition addRaw (val : bytestr) (b : bodyBuilder) : string + bodyBuilder :=
  match ensureKind bodyKindRaw b with
  | inl e => inl e
  | inr b => inr (mkBody (bkind b) (braw b ++ [val]) (bform b) (bmulti b) (bfile b))
  end.
Definition addJSON := addRaw.

Definition addFile (path : bytestr) (b : bodyBuilder) : string + bodyBuilder :=
  let clean := trim path in
  if bool_decide (clean = []) then inl "empty body file reference"
  else if negb (bool_decide (bkind b = bodyKindNone)) && negb (bool_decide (bkind b = bodyKindFile)) then
    inl "file body conflicts with other data"
  else inr (mkBody bodyKindFile (braw b) (bform b) (bmulti b) clean).

Definition splitFormPair (raw : bytestr) : bytestr * bytestr :=
  match cutAt EQ raw with None => (trim raw, []) | Some (before, after) => (trim before, after) end.
Definition looksLikeForm (v : bytestr) : bool :=
  if bool_decide (LF ∈ v) || bool_decide (CR ∈ v) then false else bool_decide ("&"%char ∈ v) || bool_decide (EQ ∈ v).

Definition addFields (fs : list formField) (b : bodyBuilder) : string + bodyBuilder :=
  match ensureKind bodyKindForm b with
  | inl e => inl e
  | inr b => inr (mkBody (bkind b) (braw b) (bform b ++ fs) (bmulti b) (bfile b))
  end.
Definition addFormValues (raw : bytestr) : bodyBuilder -> string + bodyBuilder :=
  addFields (map (fun part => let '(name, val) := splitFormPair part in mkField name val false) (splitAt "&"%char raw)).
Definition addURLEncoded (raw : bytestr) : bodyBuilder -> string + bodyBuilder :=
  addFields (map (fun part => match cutAt EQ part with
                              | Some (before, after) => mkField (trim before) after true
                              | None => mkField [] part true
                              end) (filter (fun part => part <> []) (splitAt "&"%char raw))).

Definition AT : Ascii.ascii := "@"%char.
Definition addData (val : bytestr) (guess : bool) (b : bodyBuilder) : string + bodyBuilder :=
  match guess, cut [AT] (trim val) with
  | true, Some file => addFile file b
  | _, _ => if guess && looksLikeForm val then addFormValues val b else addRaw val b
  end.
Definition addBinary (val : bytestr) (b : bodyBuilder) : string + bodyBuilder :=
  match cut [AT] (trim val) with Some after => addFile after b | None => addRaw val b end.

Definition hasContent (b : bodyBuilder) : bool :=
  match bkind b with
  | bodyKindRaw => negb (bool_decide (braw b = []))
  | bodyKindForm => match bform b with [] => false | _ => true end
  | bodyKindMultipart => match bmulti b with [] => false | _ => true end
  | bodyKindFile => negb (bool_decide (bfile b = []))
  | bodyKindNone => false
  end.

Definition encodeField (f : formField) : bytestr :=
  let val := if encVal f then QueryEscape (fieldVal f) else fieldVal f in
  match fieldName f with [] => val | name => name ++ EQ :: val end.
Definition AMP : bytestr := ["&"%char].

Definition query (b : bodyBuilder) : string + bytestr :=
  match bkind b with
  | bodyKindNone => inr []
  | bodyKindRaw => inr (joinWith AMP (braw b))
  | bodyKindForm => inr (joinWith AMP (map encodeField (bform b)))
  | bodyKindMultipart => inl "multipart body cannot be mapped to query"
  | bodyKindFile => inl "file body cannot be mapped to query"
  end.

Definition escapeQuotes (v : bytestr) : bytestr := mjoin (map (fun c => if bool_decide (c = DQUOTE) then [BACKSLASH; DQUOTE] else [c]) v).

Definition mimeOctetStream : bytestr := bytes "application/octet-stream".

Section lib.
Context {unicode : Unicode} {tables : UnicodeTables}.

(** The options behind the value of a part. *)
Fixpoint partOptions (opts : list bytestr) (p : multipartPart) : multipartPart :=
  match opts with
  | [] => p
  | o :: opts' =>
      let opt := trim o in
      if bool_decide (opt = []) then partOptions opts' p
      else
        let '(k, value) := match cutAt EQ opt with Some (a, b) => (a, trim b) | None => (opt, []) end in
        let k := ToLower (str (trim k)) in
        partOptions opts'
          (if bool_decide (k = "type") then mkPart (pname p) (pval p) (pfile p) value (fname p) (fileMode p)
           else if bool_decide (k = "filename") then mkPart (pname p) (pval p) (pfile p) (ctype p) value (fileMode p)
           else p)
  end.

Definition parseMultipartPart (raw : bytestr) (literal : bool) : string + multipartPart :=
  let content := trim raw in
  if bool_decide (content = []) then inl "empty multipart field"
  else match cutAt EQ content with
       | None | Some ([], _) => inl ("invalid multipart field " +:+ quote (str raw))
       | Some (before, remain) =>
           let name := trim before in
           match splitAt ";"%char remain with
           | [] => inl EmptyString
           | seg0 :: opts =>
               let val := trim seg0 in
               if bool_decide (name = []) then inl "multipart field missing name"
               else
                 let isFile := negb literal && match val with c :: _ => bool_decide (c = AT) || bool_decide (c = "<"%char) | [] => false end in
                 let file := trim (drop 1 val) in
                 if isFile && bool_decide (file = []) then inl "multipart file field missing path"
                 else
                   let p := partOptions opts (mkPart name (if isFile then [] else val) (if isFile then file else []) [] [] isFile) in
                   inr (if fileMode p then
                          mkPart (pname p) (pval p) (pfile p)
                            (if bool_decide (ctype p = []) then mimeOctetStream else ctype p)
                            (if bool_decide (fname p = []) then bytes (DotEnv.Base (str (pfile p))) else fname p) true
                        else p)
           end
       end.

Definition addFormPart (raw : bytestr) (literal : bool) (b : bodyBuilder) : string + bodyBuilder :=
  match ensureKind bodyKindMultipart b with
  | inl e => inl e
  | inr b =>
      match parseMultipartPart raw literal with
      | inl e => inl e
      | inr part => inr (mkBody (bkind b) (braw b) (bform b) (bmulti b ++ [part]) (bfile b))
      end
  end.

End lib.

(** [net/http], [net/url], [strconv] and [crypto/sha256]: [ParseURL] gives the
    scheme, the raw query and the text of the URL with another raw query. *)
Class CurlLib := {
  ParseFloat : bytestr -> option float64;
  ParseURL : bytestr -> option (bytestr * bytestr * (bytestr -> bytestr));
  Sum256 : bytestr -> bytestr
}.

Section curl.
Context {unicode : Unicode} {tables : UnicodeTables} {lib : HttpLib} {curl : CurlLib} {tunnels : Tunnels}.

(** ** http.Header *)

Definition Header : Type := gmap string (list bytestr).
Definition headerGet (k : string) (h : Header) : bytestr := default [] (h !! CanonicalHeaderKey k ≫= head).
Definition headerSet (k : string) (v : bytestr) (h : Header) : Header := <[CanonicalHeaderKey k := [v]]> h.
Definition headerAdd (k : string) (v : bytestr) (h : Header) : Header :=
  let k := CanonicalHeaderKey k in <[k := default [] (h !! k) ++ [v]]> h.

(** ** The body of a request (body.go) *)

Definition hashPart (p : multipartPart) : bytestr :=
  let field v := v ++ [NUL] in
  field (pname p) ++ field (pval p) ++ field (pfile p) ++ field (ctype p) ++ field (fname p) ++
  [if fileMode p then byte_of 1 else NUL].
Definition makeBoundary (parts : list multipartPart) : bytestr :=
  match parts with
  | [] => bytes "resterm-boundary"
  | _ => bytes "resterm-" ++ hexEncode (take 12 (Sum256 (mjoin (map hashPart parts))))
  end.

Definition CRLF : bytestr := [CR; LF].
Definition writePart (boundary : bytestr) (p : multipartPart) : bytestr :=
  bytes "--" ++ boundary ++ CRLF ++
  bytes "Content-Disposition: form-data; name=" ++ DQUOTE :: escapeQuotes (pname p) ++ [DQUOTE] ++
  (if fileMode p then bytes "; filename=" ++ DQUOTE :: escapeQuotes (fname p) ++ [DQUOTE] else []) ++ CRLF ++
  (if bool_decide (ctype p = []) then [] else bytes "Content-Type: " ++ ctype p ++ CRLF) ++ CRLF ++
  (if fileMode p then AT :: pfile p else pval p) ++ CRLF.
Definition buildMultipartBody (parts : list multipartPart) : bytestr * bytestr :=
  match parts with
  | [] => ([], [])
  | _ =>
      let boundary := makeBoundary parts in
      (mjoin (map (writePart boundary) parts) ++ bytes "--" ++ boundary ++ bytes "--" ++ CRLF, boundary)
  end.

Definition noBody : Rq.Body := Rq.mkBody [] [] [] None (Rq.mkBO false false).
Definition textBody (t : bytestr) : Rq.Body := Rq.mkBody t [] [] None (Rq.mkBO false false).
Definition fileBody (p : bytestr) : Rq.Body := Rq.mkBody [] p [] None (Rq.mkBO false false).

(** [apply]: the request's body and its headers. *)
Definition applyBody (b : bodyBuilder) (h : Header) : string + (Rq.Body * Header) :=
  let typed (body : Rq.Body) (h : Header) :=
    let ct := headerGet "Content-Type" h in
    (if bool_decide (ct = []) then body
     else Rq.mkBody (Rq.Text body) (Rq.FilePath body) ct (Rq.BodyGraphQL body) (Rq.Options body), h) in
  if negb (hasContent b) then inr (noBody, h)
  else match bkind b with
       | bodyKindFile => inr (typed (fileBody (bfile b)) h)
       | bodyKindRaw => inr (typed (textBody (joinWith [LF] (braw b))) h)
       | bodyKindForm =>
           let h := if bool_decide (headerGet "Content-Type" h = [])
                    then headerSet "Content-Type" (bytes "application/x-www-form-urlencoded") h else h in
           inr (typed (textBody (joinWith AMP (map encodeField (bform b)))) h)
       | bodyKindMultipart =>
           let '(body, boundary) := buildMultipartBody (bmulti b) in
           if bool_decide (boundary = []) then inl "multipart body is empty"
           else inr (typed (textBody body) (headerSet "Content-Type" (bytes "multipart/form-data; boundary=" ++ boundary) h))
       | bodyKindNone => inr (typed noBody h)
       end.

(** ** warnings.go: the messages seen *)

Definition WarningCollector : Type := gset string.
Definition warn_Add (msg : string) (c : WarningCollector) : WarningCollector :=
  let msg := TrimSpace msg in if bool_decide (msg = "") then c else {[msg]} ∪ c.
Definition warn_Flag (flag : string) (c : WarningCollector) : WarningCollector :=
  let flag := TrimSpace flag in
  if bool_decide (flag = "") then c else warn_Add ("unsupported flag " +:+ flag +:+ " (ignored)") c.
Definition warn_Setting (k : string) (c : WarningCollector) : WarningCollector :=
  let k := TrimSpace k in
  if bool_decide (k = "") then c else warn_Add ("unsupported setting " +:+ k +:+ " (ignored)") c.
Definition UnknownFlags (flags : list bytestr) (c : WarningCollector) : WarningCollector :=
  foldl (fun c f => warn_Flag (str f) c) c flags.
Definition warn_List (c : WarningCollector) : list string := sort_strings (elements c).

(** ** internal/settings/keys.go *)

Definition IsHTTPKey (k : string) : bool :=
  let k := ToLower (TrimSpace k) in
  bool_decide (k ∈ ["timeout"; "proxy"; "followredirects"; "insecure"; "no-cookies"]) || String.prefix "http-" k.

(** ** The state of a segment (norm.go) and the options' functions (options.go) *)

Record segState := mkState {
  m : bytestr; exp : bool; hdr : Header; body : bodyBuilder; url : bytestr; usr : bytestr;
  zip : bool; get : bool; set : gmap string bytestr; warn : WarningCollector
}.
Definition set_method (v : bytestr) (e : bool) (s : segState) := mkState v e (hdr s) (body s) (url s) (usr s) (zip s) (get s) (set s) (warn s).
Definition set_hdr (h : Header) (s : segState) := mkState (m s) (exp s) h (body s) (url s) (usr s) (zip s) (get s) (set s) (warn s).
Definition set_body (b : bodyBuilder) (s : segState) := mkState (m s) (exp s) (hdr s) b (url s) (usr s) (zip s) (get s) (set s) (warn s).
Definition set_url (u : bytestr) (s : segState) := mkState (m s) (exp s) (hdr s) (body s) u (usr s) (zip s) (get s) (set s) (warn s).
Definition set_usr (u : bytestr) (s : segState) := mkState (m s) (exp s) (hdr s) (body s) (url s) u (zip s) (get s) (set s) (warn s).
Definition set_zip (s : segState) := mkState (m s) (exp s) (hdr s) (body s) (url s) (usr s) true (get s) (set s) (warn s).
Definition set_get (s : segState) := mkState (bytes "GET") true (hdr s) (body s) (url s) (usr s) (zip s) true (set s) (warn s).
Definition set_set (f : gmap string bytestr) (s : segState) := mkState (m s) (exp s) (hdr s) (body s) (url s) (usr s) (zip s) (get s) f (warn s).
Definition set_warn (w : WarningCollector) (s : segState) := mkState (m s) (exp s) (hdr s) (body s) (url s) (usr s) (zip s) (get s) (set s) w.

Definition on_body (f : bodyBuilder -> string + bodyBuilder) (s : segState) : string + segState :=
  match f (body s) with inl e => inl e | inr b => inr (set_body b s) end.

Definition addHeader (raw : bytestr) (h : Header) : Header :=
  let '(name, value) := splitHeader raw in
  if bool_decide (name = []) then h else headerAdd (str name) value h.
Definition ensureJSONHeader (h : Header) : Header :=
  if bool_decide (headerGet "Content-Type" h = []) then headerSet "Content-Type" (bytes "application/json") h else h.
Definition setHdr (k : string) (v : bytestr) (h : Header) : Header :=
  if bool_decide (TrimSpace k = "") || bool_decide (trim v = []) then h else headerSet k v h.

Definition setKV (k : string) (v : bytestr) (s : segState) : segState :=
  let key := TrimSpace k in
  let val := trim v in
  if bool_decide (key = "") || bool_decide (val = []) then s
  else if negb (IsHTTPKey key) then set_warn (warn_Setting key (warn s)) s
  else set_set (<[key := val]> (set s)) s.

Definition durSec (val : bytestr) : string + bytestr :=
  let raw := trim val in
  if bool_decide (raw = []) then inl "empty timeout"
  else match ParseFloat raw with
       | Some f => inr (DurationString (Duration.toDuration (f_mul f (f_of_Z Duration.second))))
       | None => match Duration.ParseDuration raw with
                 | Some d => inr (DurationString d)
                 | None => inl ("time: invalid duration " +:+ quote (str raw))
                 end
       end.
Definition warnDur (n : string) (val : bytestr) (s : segState) : string + segState :=
  match durSec val with inl e => inl e | inr _ => inr (set_warn (warn_Flag ("--" +:+ n) (warn s)) s) end.
Definition warnInt (n : string) (val : bytestr) (s : segState) : string + segState :=
  let raw := trim val in
  if bool_decide (raw = []) then inl ("empty " +:+ n)
  else match Atoi raw with
       | None => inl ("invalid " +:+ n +:+ " " +:+ quote (str raw))
       | Some _ => inr (set_warn (warn_Flag ("--" +:+ n) (warn s)) s)
       end.

(** [strings.TrimLeft(flag, "-")] *)
Fixpoint trimDashes (l : bytestr) : bytestr :=
  match l with c :: l' => if bool_decide (c = "-"%char) then trimDashes l' else l | [] => [] end.

Definition optFn_run (f : optFn) (val : bytestr) (s : segState) : string + segState :=
  match f with
  | optReq => inr (set_method (bytes (ToUpper (str val))) true s)
  | optHdr => inr (set_hdr (addHeader val (hdr s)) s)
  | optUser => inr (set_usr val s)
  | optHdrKey k => inr (set_hdr (setHdr k val (hdr s)) s)
  | optHead => inr (set_method (bytes "HEAD") true s)
  | optComp => inr (set_zip s)
  | optURL => inr (set_url val s)
  | optJSON =>
      match on_body (addJSON val) s with inl e => inl e | inr s => inr (set_hdr (ensureJSONHeader (hdr s)) s) end
  | optData => on_body (addData val true) s
  | optDataRaw => on_body (addRaw val) s
  | optDataBin => on_body (addBinary val) s
  | optDataURL => on_body (addURLEncoded val) s
  | optForm => on_body (addFormPart val false) s
  | optFormStr => on_body (addFormPart val true) s
  | optUp => on_body (addFile val) (if exp s then s else set_method (bytes "PUT") true s)
  | optGet => inr (set_get s)
  | optSet k => inr (setKV k val s)
  | optSetConst k v => inr (setKV k (bytes v) s)
  | optSetDur k => match durSec val with inl e => inl e | inr v => inr (setKV k v s) end
  | optConnTimeout => warnDur "connect-timeout" val s
  | optMaxRedirs => warnInt "max-redirs" val s
  | optRetry => warnInt "retry" val s
  | optWarn flag => inr (set_warn (warn_Flag flag (warn s)) s)
  | optWarnVal flag =>
      if bool_decide (trim val = []) then inl ("empty " +:+ str (trimDashes (bytes flag)))
      else inr (set_warn (warn_Flag flag (warn s)) s)
  | optWarnDur n => warnDur n val s
  end.

Definition applyOpt (o : Opt) (s : segState) : string + segState :=
  match findDef (Key o) with Some def => optFn_run (fn def) (Val o) s | None => inr s end.
Definition applyPos (val : bytestr) (s : segState) : string + segState :=
  if bool_decide (url s = []) then inr (set_url val s) else on_body (addRaw val) s.

Fixpoint applyItems (its : list Item) (s : segState) : string + segState :=
  match its with
  | [] => inr s
  | it :: its' =>
      match (if IsOpt it then applyOpt (ItemOpt it) s else applyPos (Pos it) s) with
      | inl e => inl e
      | inr s => applyItems its' s
      end
  end.

(** ** norm.go *)

Definition addQuery (raw q : bytestr) : bytestr :=
  if bool_decide (q = []) then raw
  else
    let plain := raw ++ (if bool_decide ("?"%char ∈ raw) then AMP else ["?"%char]) ++ q in
    match ParseURL raw with
    | None => plain
    | Some (scheme, rawQuery, withQuery) =>
        if bool_decide (scheme = []) then plain
        else withQuery (if bool_decide (rawQuery = []) then q else rawQuery ++ AMP ++ q)
    end.

Definition applyGet (s : segState) : string + segState :=
  if negb (hasContent (body s)) then inr s
  else match query (body s) with
       | inl e => inl e
       | inr q => inr (set_body newBodyBuilder (set_url (addQuery (url s) q) s))
       end.

Definition buildBasicAuthHeader (creds : bytestr) : bytestr := bytes "Basic " ++ base64 creds.

(** [applyUser]: the credentials, or the headers with them. *)
Definition applyUser (usr : bytestr) (h : Header) : option Sp.AuthSpec * Header :=
  if bool_decide (trim usr = []) then (None, h)
  else if negb (bool_decide (headerGet "Authorization" h = [])) then (None, h)
  else match cutAt ":"%char usr with
       | Some (user, pass) => (Some (Sp.mkAuth "basic" {["username" := str user; "password" := str pass]} 0), h)
       | None => (None, headerSet "Authorization" (buildBasicAuthHeader usr) h)
       end.

Definition authMetadata (a : option Sp.AuthSpec) : Rq.Metadata :=
  Rq.mkMeta [] "" [] false false a false [] [] [] None None [] [] None None None.

Definition initState (unk : list bytestr) : segState :=
  mkState (bytes "GET") false ∅ newBodyBuilder [] [] false false ∅ (UnknownFlags unk ∅).

(** [normSeg] once the options are applied. *)
Definition finishSeg (s : segState) : string + (Rq.Request * list string) :=
  if bool_decide (url s = []) then inl "curl command missing URL"
  else
    match (if get s then applyGet s else inr s) with
    | inl e => inl e
    | inr s =>
        let method := if hasContent (body s) && negb (exp s) && EqualFold (str (m s)) "GET" then bytes "POST" else m s in
        match applyBody (body s) (hdr s) with
        | inl e => inl e
        | inr (b, h) =>
            let h := if zip s && bool_decide (headerGet "Accept-Encoding" h = [])
                     then headerSet "Accept-Encoding" (bytes "gzip, deflate, br") h else h in
            let '(auth, h) := applyUser (usr s) h in
            inr (Rq.mkRequest (authMetadata auth) method (sanitizeURL (url s)) h b [] (set s) (0, 0)%Z [] None None None None None,
                 warn_List (warn s))
        end
    end.
Definition normSeg (seg : Seg) : string + (Rq.Request * list string) :=
  match applyItems (Items seg) (initState (Unk seg)) with inl e => inl e | inr s => finishSeg s end.

Fixpoint normCmdRes (segs : list Seg) : string + list (Rq.Request * list string) :=
  match segs with
  | [] => inr []
  | seg :: segs' =>
      match normSeg seg with
      | inl e => inl e
      | inr r => match normCmdRes segs' with inl e => inl e | inr rs => inr (r :: rs) end
      end
  end.
Definition normCmd (segs : list Seg) : string + list Rq.Request :=
  match normCmdRes segs with inl e => inl e | inr rs => inr (map fst rs) end.

(** ** parser.go, info.go *)

(** [findCurlIndex]: the tokens behind the first that is curl. *)
Fixpoint afterCurl (tok : list bytestr) : option (list bytestr) :=
  match tok with
  | [] => None
  | t :: tok' =>
      let trimmed := trim (stripPromptPrefix t) in
      if bool_decide (trimmed = []) then afterCurl tok'
      else if bool_decide (ToLower (str trimmed) = "curl") then Some tok' else afterCurl tok'
  end.
Definition parseCmd (tok : list bytestr) : string + list Seg :=
  match afterCurl tok with
  | None => inl "not a curl command"
  | Some rest => cmdLoop (length rest) [] (mkSeg [] []) false rest
  end.

Definition ParseCommandsInfo (command : bytestr) : string + list (Rq.Request * list string) :=
  match splitTokens command with
  | inl e => inl e
  | inr tok => match parseCmd tok with inl e => inl e | inr segs => normCmdRes segs end
  end.
Definition ParseCommands (command : bytestr) : string + list Rq.Request :=
  match splitTokens command with
  | inl e => inl e
  | inr tok => match parseCmd tok with inl e => inl e | inr segs => normCmd segs end
  end.
Definition ParseCommand (command : bytestr) : string + Rq.Request :=
  match ParseCommands command with
  | inl e => inl e
  | inr [] => inl "curl command missing URL"
  | inr (r :: _) => inr r
  end.

End curl.

(** ** scan.go *)

(** Without decoding and continuation [advance] does not fail; where it did, the
    rune is kept. *)
Definition scanOptions : tokenOptions := mkTokenOptions false false.
Definition scanStep (s : TokenState) (r : rune) (rs : list rune) : TokenState * tokenStep * list rune :=
  match advance scanOptions s r rs with inl _ => (s, Unhandled, rs) | inr x => x end.

(** [scanState.consume] *)
Fixpoint consumeLoop (fuel : nat) (s : TokenState) (rs : list rune) : TokenState :=
  match fuel, rs with
  | S fuel', r :: rs' => let '(s, _, rs') := scanStep s r rs' in consumeLoop fuel' s rs'
  | _, _ => s
  end.
Definition consume (v : bytestr) (s : TokenState) : TokenState := let rs := runesOf v in consumeLoop (length rs) s rs.

(** An odd number of backslashes ends the line. *)
Fixpoint leadingBackslashes (l : bytestr) : nat :=
  match l with c :: l' => if bool_decide (c = BACKSLASH) then S (leadingBackslashes l') else 0 | [] => 0 end.
Definition lineContinues (v : bytestr) : bool := Nat.odd (leadingBackslashes (rev v)).

Definition isAssign (tok : bytestr) : bool :=
  match tok with [] => false | c :: _ => if bool_decide (c = EQ) then false else bool_decide (EQ ∈ tok) end.

(** [nextTok]: a token and what follows the blanks behind it. *)
Fixpoint nextTokLoop (fuel : nat) (s : TokenState) (b : bytestr) (rs : list rune) : bytestr * list rune :=
  match fuel, rs with
  | S fuel', r :: rs' =>
      match scanStep s r rs' with
      | (s, Emit v, rs') => nextTokLoop fuel' s (b ++ v) rs'
      | (s, Silent, rs') => nextTokLoop fuel' s b rs'
      | (s, Unhandled, rs') => if negb (InQuote s) && isWhitespace r then (b, rs) else nextTokLoop fuel' s (b ++ r) rs'
      end
  | _, _ => (b, rs)
  end.
Definition nextTok (line : bytestr) : bytestr * bytestr :=
  let line := trimBlanksLeft line in
  let rs := runesOf line in
  let '(tok, rest) := nextTokLoop (length rs) noToken [] rs in
  (tok, trimBlanksLeft (mjoin rest)).

Definition hasOptVal (tok : bytestr) : bool :=
  if hasPrefix (bytes "--") tok then bool_decide (EQ ∈ tok) else (3 <=? length tok) && hasPrefix (bytes "-") tok.

(** [sudoOptArg], [envOptArg], [timeOptArg]: whether the option takes the token
    behind it. *)
Definition optArg (long : list string) (short : list Ascii.ascii) (tok : bytestr) : bool :=
  if hasPrefix (bytes "--") tok then negb (bool_decide (EQ ∈ tok)) && bool_decide (str tok ∈ long)
  else match tok with
       | d :: c :: _ => bool_decide (d = "-"%char) && bool_decide (c ∈ short) && (length tok =? 2)
       | _ => false
       end.
Definition sudoOptArg : bytestr -> bool :=
  optArg ["--user"; "--group"; "--host"; "--prompt"; "--close-from"; "--command"; "--chdir"; "--login-class"] (bytes "ughpCcU").
Definition envOptArg : bytestr -> bool := optArg ["--unset"; "--chdir"] (bytes "uC").
Definition timeOptArg : bytestr -> bool := optArg ["--format"; "--output"] (bytes "fo").

Definition skipOpt (rest tok : bytestr) (need : bool) : bytestr :=
  if negb need || hasOptVal tok then rest else (nextTok rest).2.

(** [stripWithRule]: [None] when the fuel runs out. *)
Fixpoint stripRuleLoop (fuel : nat) (rule : bytestr -> bool) (skipAssign : bool) (line : bytestr) : option bytestr :=
  match fuel with
  | O => None
  | S fuel' =>
      let '(tok, rest) := nextTok line in
      if bool_decide (tok = []) then Some []
      else if bool_decide (tok = bytes "--") then Some (trim rest)
      else if hasPrefix (bytes "-") tok then stripRuleLoop fuel' rule skipAssign (skipOpt rest tok (rule tok))
      else if skipAssign && isAssign tok then stripRuleLoop fuel' rule skipAssign rest
      else Some line
  end.
Definition stripWithRule (rule : bytestr -> bool) (skipAssign : bool) (line : bytestr) : option bytestr :=
  let line := trim line in stripRuleLoop (S (length line)) rule skipAssign line.

Section scan.
Context {unicode : Unicode} {tables : UnicodeTables} {lib : HttpLib} {curl : CurlLib} {tunnels : Tunnels}.

Fixpoint stripPrefixesLoop (fuel : nat) (line : bytestr) : option bytestr :=
  match fuel with
  | O => None
  | S fuel' =>
      let '(tok, rest) := nextTok line in
      if bool_decide (tok = []) then Some []
      else
        let name := ToLower (str tok) in
        let next := if bool_decide (name = "sudo") then Some (stripWithRule sudoOptArg false rest)
                    else if bool_decide (name = "command") then Some (stripWithRule (fun _ => false) false rest)
                    else if bool_decide (name = "time") then Some (stripWithRule timeOptArg false rest)
                    else if bool_decide (name = "noglob") then Some (Some (trim rest))
                    else if bool_decide (name = "env") then Some (stripWithRule envOptArg true rest)
                    else None in
        match next with
        | None => Some line
        | Some None => None
        | Some (Some line) => stripPrefixesLoop fuel' line
        end
  end.
Definition stripCurlPrefixes (line : bytestr) : option bytestr :=
  let line := trim line in stripPrefixesLoop (S (length line)) line.

(** [IsStartLine]: [None] when it does not return. *)
Definition IsStartLine_run (line : bytestr) : option bool :=
  let line := trim line in
  if bool_decide (line = []) then Some false
  else match stripCurlPrefixes (stripPromptPrefix line) with
       | None => None
       | Some line => let line := trim line in Some (hasPrefix (bytes "curl ") line || bool_decide (line = bytes "curl"))
       end.
Definition IsStartLine (line : bytestr) : bool := default false (IsStartLine_run line).

(** The first loop of [ExtractCommand], from the cursor up; the lines from the
    cursor upwards are [above], the first of them at index [i]. *)
Fixpoint findStart (atCursor : bool) (i : nat) (above : list bytestr) : option nat :=
  match above with
  | [] => None
  | line :: above' =>
      let trimmed := trim line in
      if bool_decide (trimmed = []) then if atCursor then findStart false (i - 1) above' else None
      else if IsStartLine trimmed then Some i
      else findStart false (i - 1) above'
  end.

Definition trimBlanks (l : bytestr) : bytestr := rev (trimBlanksLeft (rev (trimBlanksLeft l))).

(** The second loop: [i] is the index of the first line. *)
Fixpoint extractLoop (first : bool) (i last : nat) (st : TokenState) (b : bytestr) (lines : list bytestr) : nat * bytestr :=
  match lines with
  | [] => (last, b)
  | line :: lines' =>
      let openBefore := TokenOpen st in
      if bool_decide (trim line = []) && negb first && negb openBefore then (last, b)
      else
        let seg := if openBefore then line else trimBlanks line in
        let cont := lineContinues seg in
        let seg := if cont then removelast seg else seg in
        let sep := match b with [] => [] | _ => if openBefore then [LF] else [" "%char] end in
        let b := b ++ sep ++ seg in
        let st := consume seg st in
        if cont then extractLoop false (S i) i (ResetEscape st) b lines'
        else if TokenOpen st then extractLoop false (S i) i st b lines'
        else (i, b)
  end.

(** [ExtractCommand] at a line of the text. *)
Definition ExtractCommand (lines : list bytestr) (cursor : nat) : option (nat * nat * bytestr) :=
  match findStart true cursor (reverse (take (S cursor) lines)) with
  | None => None
  | Some start => let '(last, b) := extractLoop true start start noToken [] (drop start lines) in Some (start, last, trim b)
  end.

(** The loop of [SplitCommands]: every turn takes a line at least. *)
Fixpoint splitCommandsLoop (fuel : nat) (lines : list bytestr) (i : nat) (out : list bytestr) : list bytestr :=
  match fuel, lines !! i with
  | S fuel', Some line =>
      let line := trim line in
      if bool_decide (line = []) || negb (IsStartLine line) then splitCommandsLoop fuel' lines (S i) out
      else match ExtractCommand lines i with
           | None => splitCommandsLoop fuel' lines (S i) out
           | Some (_, e, cmd) =>
               let out := if bool_decide (cmd = []) then out else out ++ [cmd] in
               splitCommandsLoop fuel' lines (if e <=? i then S i else S e) out
           end
  | _, _ => out
  end.
Definition SplitCommands (src : bytestr) : list bytestr :=
  let lines := splitAt LF src in splitCommandsLoop (length lines) lines 0 [].

(** ** importer/service.go *)

Definition uniqSorted (l : list string) : list string :=
  let l := sort_strings (filter (fun t => t <> "") (map TrimSpace l)) in
  foldr (fun v out => match out with w :: _ => if bool_decide (v = w) then out else v :: out | [] => [v] end) [] l.

Fixpoint buildLoop (i : nat) (cmds : list bytestr) (reqs : list Rq.Request) (warn : list string) : string + (list Rq.Request * list string) :=
  match cmds with
  | [] => inr (reqs, uniqSorted warn)
  | cur :: cmds' =>
      match ParseCommandsInfo cur with
      | inl e => inl ("curl command " +:+ itoa (Z.of_nat i + 1) +:+ ": " +:+ e)
      | inr res => buildLoop (S i) cmds' (reqs ++ map fst res) (warn ++ mjoin (map snd res))
      end
  end.
Definition buildDoc (cmd : bytestr) : string + (list Rq.Request * list string) :=
  buildLoop 0 (match SplitCommands cmd with [] => [cmd] | cmds => cmds end) [] [].

Definition appendLines (raw : bytestr) : list bytestr := filter (fun t => t <> []) (map trim (splitAt LF raw)).
Definition sourceLines (cmd : bytestr) : list bytestr :=
  let cmd := trim cmd in
  if bool_decide (cmd = []) then [] else bytes "Source:" :: appendLines cmd.
Definition buildHeader (base cmd : bytestr) (warn : list string) : bytestr :=
  joinWith [LF] (appendLines base ++ sourceLines cmd ++
    map (fun t => bytes "Warning: " ++ bytes t) (filter (fun t => t <> "") (map TrimSpace warn))).

End scan.

End Cu.
