(* ===== verification/CurlFacts.v ===== *)
(** * What importing cURL commands guarantees

    Module Cu of Curl.v.  First the tokenizer against words as a shell writes them,
    then commands read back, the body of an imported request, and the extraction of
    commands from a text. *)
From stdpp Require Import base list strings gmap sorting.
From Stdlib Require Import Ascii ZArith Lia.
From S2P Require Import Prelude GoStd GoFloat GoPath Names Text Directive Units Lines Protocols Specs Requests Curl.

Open Scope string_scope.
Open Scope nat_scope.
Open Scope list_scope.

Import Cu.

(** ** A sample of the parameters, for ASCII texts *)

Definition upperAscii (s : string) : string :=
  str (map (fun c => if ((97 <=? byte_val c) && (byte_val c <=? 122))%N then byte_of (byte_val c - 32)%N else c) (bytes s)).
Definition sampleUnicode : Unicode := Names.ascii.
Definition sampleTables : UnicodeTables :=
  {| ToUpper := upperAscii; IsLetter := asciiRune Directive.isAlpha; IsDigit := asciiRune Directive.isDigit |}.
Definition sampleHttp : HttpLib :=
  {| ValidHeaderFieldName := fun s => negb (bool_decide (s = "")) && forallb Directive.IsKeyRune (bytes s); CanonicalHeaderKey := fun s => s |}.
Definition sampleCurl : CurlLib :=
  {| ParseFloat := fun l => ParseNumber (str l);
     ParseURL := fun l => if hasPrefix (bytes "https:") l then Some (bytes "https", [], fun q => l ++ "?"%char :: q) else None;
     Sum256 := fun l => replicate 32 (byte_of (N.of_nat (length l))) |}.
Definition sampleTunnels : Tunnels :=
  {| SSHSpec := bytestr; SSHProfile := bytestr; K8sSpec := bytestr; K8sProfile := bytestr;
     ParseSSH := fun l => (mkTunnel Directive.ScopeRequest (Some l) l false, []);
     ParseK8s := fun l => (mkTunnel Directive.ScopeRequest (Some l) l false, [], None);
     SSHAt := fun _ p => p; K8sAt := fun _ _ p => p; K8sInvalid := fun _ _ p => p |}.

Definition sampleParse (command : string) : string + list Rq.Request :=
  @ParseCommands sampleUnicode sampleTables sampleHttp sampleCurl sampleTunnels (bytes command).

(** Method, URL, headers, text, file, settings *)
Definition gist (r : string + list (@Rq.Request sampleTunnels)) :=
  match r with
  | inl e => inl e
  | inr rs => inr (map (fun r => (str (Rq.Method r), str (Rq.URL r), map (fun p => (p.1, map str p.2)) (map_to_list (Rq.Headers r)),
                                  str (Rq.Text (Rq.rBody r)), str (Rq.FilePath (Rq.rBody r)))) rs)
  end.
Definition one (x : string * string * list (string * list string) * string * string) : string + list _ := inr [x].

Example test_commands :
  map (fun c => gist (sampleParse c))
    ["curl https://example.com"; "curl https://example.com --data name=resterm"; "curl https://example.com --data @payload.json";
     "$ curl https://api.example.com"; "sudo curl -I https://example.com"; "curl https://example.com --data name=resterm --data mode=test";
     "curl https://example.com --data-urlencode 'note=hello world'"; "curl -G https://example.com -d filter=active"; "echo";
     "curl https://example.com --data-raw alpha --data-raw beta"; "curl https://example.com -T payload.json"]
  = [one ("GET", "https://example.com", [], "", "");
     one ("POST", "https://example.com", [("Content-Type", ["application/x-www-form-urlencoded"])], "name=resterm", "");
     one ("POST", "https://example.com", [], "", "payload.json");
     one ("GET", "https://api.example.com", [], "", "");
     one ("HEAD", "https://example.com", [], "", "");
     one ("POST", "https://example.com", [("Content-Type", ["application/x-www-form-urlencoded"])], "name=resterm&mode=test", "");
     one ("POST", "https://example.com", [("Content-Type", ["application/x-www-form-urlencoded"])], "note=hello+world", "");
     one ("GET", "https://example.com?filter=active", [], "", "");
     inl "not a curl command";
     one ("POST", "https://example.com", [], "alpha" +:+ str [LF] +:+ "beta", "");
     one ("PUT", "https://example.com", [], "", "payload.json")].
Proof. vm_compute. reflexivity. Qed.

Example test_settings :
  match sampleParse "curl https://example.com -k -L -x http://proxy --max-time 2.5 --connect-timeout 3 --max-redirs 7 --retry 2" with
  | inr [r] => map (fun k => str <$> Rq.rSettings r !! k) ["http-insecure"; "followredirects"; "proxy"; "timeout"; "retry"]
  | _ => []
  end = [Some "true"; Some "true"; Some "http://proxy"; Some "2.5s"; None].
Proof. vm_compute. reflexivity. Qed.

Example test_tokens :
  map (fun c => splitTokens (bytes c)) ["curl $'first\nsecond'"; "curl $'pre\x41post'"; "a 'b"; "a \"; "a $'\x4'"; "a''b '' c"]
  = [inr [bytes "curl"; bytes "first" ++ LF :: bytes "second"]; inr [bytes "curl"; bytes "preApost"];
     inl "unterminated quoted string"; inl "unterminated escape sequence"; inl "invalid hex escape"; inr (map bytes ["ab"; "c"])].
Proof. vm_compute. reflexivity. Qed.

Definition sampleSplit (ls : list string) : list string :=
  map str (@SplitCommands sampleUnicode (bytes (Directive.join (str [LF]) ls))).
Example test_split :
  (sampleSplit ["curl https://a.test"; ""; "curl https://b.test"], sampleSplit ["sudo -u root curl https://a.test"; ""; "env -u P A=b curl x"],
   sampleSplit ["curl https://a.test -d '{"; ""; "}'"; ""; "# no"; "curl https://b.test \"; "  -k"],
   sampleSplit ["curl a -d $'one"; "\'two"; "'"; "time -p curl b"])
  = (["curl https://a.test"; "curl https://b.test"], ["sudo -u root curl https://a.test"; "env -u P A=b curl x"],
     [Directive.join (str [LF]) ["curl https://a.test -d '{"; ""; "}'"]; "curl https://b.test  -k"],
     [Directive.join (str [LF]) ["curl a -d $'one"; "\'two"; "'"]; "time -p curl b"]).
Proof. vm_compute. reflexivity. Qed.

(** ** The loop over runes *)

Lemma advance_left o s r rs t stp rs' : advance o s r rs = inr (t, stp, rs') -> length rs' <= length rs.
Proof.
  unfold advance, ansiEsc, readHex. intros H. repeat case_match; simplify_eq; rewrite ?length_drop; simpl; lia.
Qed.

Lemma lexLoop_fuel f : forall g st rs, length rs <= f -> length rs <= g -> lexLoop f st rs = lexLoop g st rs.
Proof.
  induction f as [|f IH]; intros g st [|r rs] Hf Hg; cbn [length] in *; try lia; [by destruct g..|]. destruct g as [|g]; [lia|].
  cbn [lexLoop]. destruct (advance splitOptions (token st) r rs) as [e|[[t stp] rs']] eqn:Ha; [done|].
  apply advance_left in Ha. apply IH; lia.
Qed.

(** The whole loop from a state, and what one rune does to it. *)
Definition lexAll (st : lexState) (rs : list rune) : string + lexState := lexLoop (length rs) st rs.

Definition taken (stp : tokenStep) (r : rune) (st : lexState) : lexState :=
  match stp with
  | Emit v => lex_add v st
  | Silent => st
  | Unhandled => if isWhitespace r then if InQuote (token st) then lex_add r st else lex_flush st else lex_add r st
  end.

Lemma lexAll_step t b o r rs t' stp rs' : advance splitOptions t r rs = inr (t', stp, rs') ->
  lexAll (mkLex t b o) (r :: rs) = lexAll (taken stp r (mkLex t' b o)) rs'.
Proof.
  intros Ha. unfold lexAll. cbn [length lexLoop token]. rewrite Ha. apply advance_left in Ha.
  rewrite (lexLoop_fuel (length rs) (length rs')) by lia. by destruct stp.
Qed.

(** ** Words as a shell writes them *)

Inductive ansiEscape := Newline | Return | Tab | Hex2 (a b : rune) | Hex4 (a b c d : rune) | Other (r : rune).
(** A piece of a double-quoted or a $'-quoted text. *)
Inductive piece := Plain (r : rune) | Escaped (r : rune).
Inductive ansiPiece := AnsiPlain (r : rune) | AnsiEscaped (e : ansiEscape).

Inductive fragment :=
  | Bare (r : rune)
  | Backslashed (r : rune)
  | Continued (br : list rune)
  | Single (rs : list rune)
  | Double (ps : list piece)
  | Ansi (ps : list ansiPiece).
Definition word : Type := list fragment.

Definition BS : rune := [BACKSLASH].
Definition SQ : rune := [SQUOTE].
Definition DQ : rune := [DQUOTE].
Definition ch (c : Ascii.ascii) : rune := [c].

Definition escapeText (e : ansiEscape) : list rune :=
  match e with
  | Newline => [ch "n"] | Return => [ch "r"] | Tab => [ch "t"]
  | Hex2 a b => [ch "x"; a; b] | Hex4 a b c d => [ch "u"; a; b; c; d] | Other r => [r]
  end.
Definition escapeMeaning (e : ansiEscape) : bytestr :=
  match e with
  | Newline => [LF] | Return => [CR] | Tab => [TAB]
  | Hex2 a b => encodeRune (default 0 (hexDigits [a; b] 0)) | Hex4 a b c d => encodeRune (default 0 (hexDigits [a; b; c; d] 0))
  | Other r => r
  end%Z.
Definition escapeOk (e : ansiEscape) : Prop :=
  match e with
  | Newline | Return | Tab => True
  | Hex2 a b => Forall (fun r => is_Some (hexVal r)) [a; b]
  | Hex4 a b c d => Forall (fun r => is_Some (hexVal r)) [a; b; c; d]
  | Other r => validRune r /\ ~ r ∈ map ch ["n"; "r"; "t"; "x"; "u"]%char
  end.

Definition pieceText (p : piece) : list rune := match p with Plain r => [r] | Escaped r => [BS; r] end.
Definition pieceMeaning (p : piece) : bytestr := match p with Plain r | Escaped r => r end.
Definition pieceOk (p : piece) : Prop :=
  match p with Plain r => validRune r /\ r <> BS /\ r <> DQ | Escaped r => validRune r /\ isLineBreak r = false end.

Definition ansiText (p : ansiPiece) : list rune := match p with AnsiPlain r => [r] | AnsiEscaped e => BS :: escapeText e end.
Definition ansiMeaning (p : ansiPiece) : bytestr := match p with AnsiPlain r => r | AnsiEscaped e => escapeMeaning e end.
Definition ansiOk (p : ansiPiece) : Prop :=
  match p with AnsiPlain r => validRune r /\ r <> BS /\ r <> SQ | AnsiEscaped e => escapeOk e end.

Definition fragmentText (f : fragment) : list rune :=
  match f with
  | Bare r => [r]
  | Backslashed r => [BS; r]
  | Continued br => BS :: br
  | Single rs => SQ :: rs ++ [SQ]
  | Double ps => DQ :: mjoin (map pieceText ps) ++ [DQ]
  | Ansi ps => ch "$" :: SQ :: mjoin (map ansiText ps) ++ [SQ]
  end.
Definition fragmentMeaning (f : fragment) : bytestr :=
  match f with
  | Bare r | Backslashed r => r
  | Continued _ => []
  | Single rs => mjoin rs
  | Double ps => mjoin (map pieceMeaning ps)
  | Ansi ps => mjoin (map ansiMeaning ps)
  end.
Definition fragmentOk (f : fragment) : Prop :=
  match f with
  | Bare r => validRune r /\ isWhitespace r = false /\ ~ r ∈ [BS; SQ; DQ; ch "$"]
  | Backslashed r => validRune r /\ isLineBreak r = false
  | Continued br => br = [ch LF] \/ br = [ch CR; ch LF]
  | Single rs => Forall (fun r => validRune r /\ r <> SQ) rs
  | Double ps => Forall pieceOk ps
  | Ansi ps => Forall ansiOk ps
  end.

Definition wordText (w : word) : list rune := mjoin (map fragmentText w).
Definition meaning (w : word) : bytestr := mjoin (map fragmentMeaning w).
Definition wordOk (w : word) : Prop := Forall fragmentOk w.

(** ** Reading one fragment *)

Lemma isChar_ne c r : r <> [c] -> isChar c r = false.
Proof. intros H. by apply bool_decide_eq_false_2. Qed.
Lemma isChar_not c r (l : list rune) : ~ r ∈ l -> [c] ∈ l -> isChar c r = false.
Proof. intros Hr Hc. apply isChar_ne. by intros ->. Qed.

Definition inS : TokenState := mkToken true false false false false.
Definition inD : TokenState := mkToken false true false false false.
Definition inA : TokenState := mkToken false false true false false.

Ltac step H := erewrite lexAll_step by (exact H || (unfold advance; simpl; reflexivity)); cbn [taken lex_add token buf out].
Ltac lists := cbn [app]; rewrite <- ?app_assoc; cbn [app].

Lemma adv_bare r rs : fragmentOk (Bare r) -> advance splitOptions noToken r rs = inr (noToken, Unhandled, rs).
Proof.
  intros (_ & _ & Hr). unfold advance. simpl. rewrite !(isChar_not _ r _ Hr) by (repeat constructor). by destruct rs.
Qed.

Lemma adv_single r rs : r <> SQ -> advance splitOptions inS r rs = inr (inS, if isChar BACKSLASH r || isChar DQUOTE r then Emit r else Unhandled, rs).
Proof.
  intros Hr. unfold advance. simpl. rewrite (isChar_ne SQUOTE r) by done. destruct (isChar BACKSLASH r); [done|]. simpl.
  destruct (isChar DQUOTE r); [done|]. by destruct rs.
Qed.

Lemma adv_double r rs : r <> BS -> r <> DQ -> advance splitOptions inD r rs = inr (inD, if isChar SQUOTE r then Emit r else Unhandled, rs).
Proof.
  intros Hb Hd. unfold advance. simpl. rewrite (isChar_ne BACKSLASH r), (isChar_ne DQUOTE r) by done.
  destruct (isChar SQUOTE r); [done|]. by destruct rs.
Qed.

Lemma taken_quoted r t b o (c : bool) : InQuote t = true ->
  taken (if c then Emit r else Unhandled) r (mkLex t b o) = mkLex t (b ++ r) o.
Proof. intros Ht. destruct c; simpl; [done|]. rewrite Ht. by destruct (isWhitespace r). Qed.

Lemma lex_single rs rest b o : Forall (fun r => validRune r /\ r <> SQ) rs ->
  lexAll (mkLex inS b o) (rs ++ SQ :: rest) = lexAll (mkLex noToken (b ++ mjoin rs) o) rest.
Proof.
  intros Hrs. revert b. induction Hrs as [|r rs [_ Hr] _ IH]; intros b; cbn [app].
  - step idtac. by rewrite app_nil_r.
  - erewrite lexAll_step by (by apply adv_single). rewrite taken_quoted, IH by done.
    change (mjoin (r :: rs)) with (r ++ mjoin rs). by rewrite app_assoc.
Qed.

Lemma lex_double ps rest b o : Forall pieceOk ps ->
  lexAll (mkLex inD b o) (mjoin (map pieceText ps) ++ DQ :: rest) = lexAll (mkLex noToken (b ++ mjoin (map pieceMeaning ps)) o) rest.
Proof.
  intros Hps. revert b. induction Hps as [|p ps Hp _ IH]; intros b.
  - cbn [map mjoin list_join app]. step idtac. by rewrite app_nil_r.
  - change (mjoin (map pieceText (p :: ps))) with (pieceText p ++ mjoin (map pieceText ps)).
    change (mjoin (map pieceMeaning (p :: ps))) with (pieceMeaning p ++ mjoin (map pieceMeaning ps)).
    destruct p as [r|r]; cbn [pieceText pieceMeaning]; lists.
    + destruct Hp as (_ & Hb & Hd). erewrite lexAll_step by (by apply adv_double). rewrite taken_quoted, IH by done. by lists.
    + destruct Hp as [_ Hr]. step idtac. erewrite lexAll_step by (unfold advance; simpl; rewrite Hr; reflexivity). etrans; [apply IH|]. by lists.
Qed.

(** In a $'-quoted text, behind the backslash. *)
Definition inE : TokenState := mkToken false false true true false.

Lemma hex_some rs acc : Forall (fun r => is_Some (hexVal r)) rs -> is_Some (hexDigits rs acc).
Proof.
  intros H. revert acc. induction H as [|r rs [d Hd] _ IH]; intros acc; cbn [hexDigits]; [eauto|]. rewrite Hd. apply IH.
Qed.

Lemma hex_read n rs rest : length rs = n -> Forall (fun r => is_Some (hexVal r)) rs ->
  readHex n (rs ++ rest) = inr (encodeRune (default 0%Z (hexDigits rs 0)), rest).
Proof.
  intros <- Hh. unfold readHex. rewrite (proj2 (Nat.ltb_ge _ _)) by (rewrite length_app; lia).
  rewrite take_app_length, drop_app_length. by destruct (hex_some rs 0%Z Hh) as [v ->].
Qed.

Lemma lex_escape e rest b o : escapeOk e ->
  lexAll (mkLex inE b o) (escapeText e ++ rest) = lexAll (mkLex inA (b ++ escapeMeaning e) o) rest.
Proof.
  intros He. destruct e as [| | |a1 a2|a1 a2 a3 a4|r]; cbn [escapeText app escapeMeaning].
  1-3: by step idtac.
  - pose proof (hex_read 2 [a1; a2] rest eq_refl He) as Hx. cbn [app] in Hx.
    erewrite lexAll_step by (unfold advance, ansiEsc; simpl; rewrite Hx; reflexivity). done.
  - pose proof (hex_read 4 [a1; a2; a3; a4] rest eq_refl He) as Hx. cbn [app] in Hx.
    erewrite lexAll_step by (unfold advance, ansiEsc; simpl; rewrite Hx; reflexivity). done.
  - destruct He as [_ He]. erewrite lexAll_step by (unfold advance, ansiEsc; simpl;
      rewrite !(isChar_not _ r _ He) by (repeat constructor); reflexivity). done.
Qed.

Lemma lex_ansi ps rest b o : Forall ansiOk ps ->
  lexAll (mkLex inA b o) (mjoin (map ansiText ps) ++ SQ :: rest) = lexAll (mkLex noToken (b ++ mjoin (map ansiMeaning ps)) o) rest.
Proof.
  intros Hps. revert b. induction Hps as [|p ps Hp _ IH]; intros b.
  - cbn [map mjoin list_join app]. step idtac. by rewrite app_nil_r.
  - change (mjoin (map ansiText (p :: ps))) with (ansiText p ++ mjoin (map ansiText ps)).
    change (mjoin (map ansiMeaning (p :: ps))) with (ansiMeaning p ++ mjoin (map ansiMeaning ps)).
    destruct p as [r|e]; cbn [ansiText ansiMeaning]; lists.
    + destruct Hp as (_ & Hb & Hs). erewrite lexAll_step by (unfold advance; simpl;
        rewrite (isChar_ne BACKSLASH r), (isChar_ne SQUOTE r) by done; reflexivity). etrans; [apply IH|]. by lists.
    + step idtac. rewrite lex_escape, IH by done. by lists.
Qed.

Lemma lex_fragment f rest b o : fragmentOk f ->
  lexAll (mkLex noToken b o) (fragmentText f ++ rest) = lexAll (mkLex noToken (b ++ fragmentMeaning f) o) rest.
Proof.
  intros Hf. destruct f as [r|r|br|rs|ps|ps]; cbn [fragmentText fragmentMeaning]; lists.
  - erewrite lexAll_step by (by apply adv_bare). destruct Hf as (_ & Hw & _). cbn [taken]. by rewrite Hw.
  - destruct Hf as [_ Hr]. step idtac. by erewrite lexAll_step by (unfold advance; simpl; rewrite Hr; reflexivity).
  - destruct Hf as [->| ->]; cbn [app]; rewrite app_nil_r; repeat step idtac; done.
  - step idtac. by apply lex_single.
  - step idtac. by apply lex_double.
  - step idtac. by apply lex_ansi.
Qed.

Lemma lex_word w rest b o : wordOk w ->
  lexAll (mkLex noToken b o) (wordText w ++ rest) = lexAll (mkLex noToken (b ++ meaning w) o) rest.
Proof.
  intros Hw. revert b. induction Hw as [|f w Hf _ IH]; intros b.
  - cbn. by rewrite app_nil_r.
  - change (wordText (f :: w)) with (fragmentText f ++ wordText w). change (meaning (f :: w)) with (fragmentMeaning f ++ meaning w).
    rewrite <- app_assoc, lex_fragment, IH by done. by rewrite app_assoc.
Qed.

(** White space ends a word. *)
Definition blanks (sep : list rune) : Prop := Forall (fun r => r ∈ map ch [" "%char; TAB; LF; CR]) sep.

Lemma lex_blank r rest b o : r ∈ map ch [" "%char; TAB; LF; CR] ->
  lexAll (mkLex noToken b o) (r :: rest) = lexAll (lex_flush (mkLex noToken b o)) rest.
Proof.
  cbn [map]. rewrite !elem_of_cons, elem_of_nil. intros Hr.
  assert (advance splitOptions noToken r rest = inr (noToken, Unhandled, rest) /\ isWhitespace r = true) as [Ha Hw]
    by (destruct Hr as [->|[->|[->|[->|[]]]]]; (split; [by destruct rest|done])).
  erewrite lexAll_step by exact Ha. cbn [taken]. by rewrite Hw.
Qed.

Lemma lex_blanks sep rest b o : blanks sep -> sep <> [] ->
  lexAll (mkLex noToken b o) (sep ++ rest) = lexAll (lex_flush (mkLex noToken b o)) rest.
Proof.
  intros Hsep. revert b o. induction Hsep as [|r sep Hr _ IH]; intros b o; [done|]. intros _. cbn [app]. rewrite lex_blank by done.
  destruct sep as [|r' sep]; [done|]. destruct b as [|c b]; cbn [lex_flush buf token out]; rewrite IH; done.
Qed.

(** ** A command line *)

(** Words, each behind white space, and white space behind the last. *)
Definition shellRunes (ws : list (list rune * word)) (trail : list rune) : list rune :=
  mjoin (map (fun p => p.1 ++ wordText p.2) ws) ++ trail.
Definition shellText (ws : list (list rune * word)) (trail : list rune) : bytestr := mjoin (shellRunes ws trail).
Definition shellOk (ws : list (list rune * word)) (trail : list rune) : Prop :=
  Forall (fun p => blanks p.1 /\ wordOk p.2) ws /\ Forall (fun p => p.1 <> []) (tail ws) /\ blanks trail.
Definition meanings (ws : list (list rune * word)) : list bytestr := map (fun p => meaning p.2) ws.

Lemma runesLoop_valid rs : Forall validRune rs -> forall fuel, length (mjoin rs) <= fuel -> runesLoop fuel (mjoin rs) = rs.
Proof.
  induction 1 as [|r rs Hr _ IH]; intros fuel Hf; [by destruct fuel|]. pose proof Hr as [Hne _]. destruct r as [|c r]; [done|].
  change (mjoin ((c :: r) :: rs)) with ((c :: r) ++ mjoin rs) in *. destruct fuel; [simpl in Hf; lia|]. cbn [app runesLoop].
  change (c :: r ++ mjoin rs) with ((c :: r) ++ mjoin rs). rewrite headRune_valid, drop_app_length by done.
  rewrite IH; [done|]. rewrite length_app in Hf. simpl in Hf. lia.
Qed.

Lemma runesOf_valid rs : Forall validRune rs -> runesOf (mjoin rs) = rs.
Proof. intros Hrs. by apply runesLoop_valid. Qed.

Lemma hexVal_valid r : is_Some (hexVal r) -> validRune r.
Proof.
  destruct r as [|c [|d r]]; [by intros []|..|by intros []]. intros Hc. apply validRune_ascii.
  destruct (N.lt_ge_cases (byte_val c) 128) as [|Hge]; [done|]. exfalso. destruct Hc as [v Hv]. cbn in Hv.
  rewrite !(proj2 (Z.leb_gt (Z.of_N (byte_val c)) _)), !andb_false_r in Hv by lia. done.
Qed.

Lemma ascii_valid l : Forall (fun c => (byte_val c < 128)%N) l -> Forall validRune (map ch l).
Proof. intros H. apply Forall_map. eapply Forall_impl; [exact H|]. intros c Hc. by apply validRune_ascii. Qed.

Ltac valids := repeat first [assumption | apply Forall_nil_2 | apply Forall_cons_2].

Lemma fragment_valid f : fragmentOk f -> Forall validRune (fragmentText f).
Proof.
  assert (Hj : forall {A} (ok : A -> Prop) (text : A -> list rune) l,
    (forall x, ok x -> Forall validRune (text x)) -> Forall ok l -> Forall validRune (mjoin (map text l))).
  { intros A ok text l Ht. induction 1 as [|x l Hx _ IH]; [constructor|].
    change (mjoin (map text (x :: l))) with (text x ++ mjoin (map text l)). apply Forall_app. split; [by apply Ht|done]. }
  assert (Hx : validRune BS /\ validRune SQ /\ validRune DQ /\ validRune (ch "$"%char)) by (split_and!; apply validRune_ascii; done).
  destruct Hx as (Hbs & Hsq & Hdq & Hd).
  intros Hf. destruct f as [r|r|br|rs|ps|ps]; cbn [fragmentText].
  - destruct Hf as [? _]; valids.
  - destruct Hf as [? _]; valids.
  - constructor; [done|]. destruct Hf as [->| ->]; [apply (ascii_valid [LF])|apply (ascii_valid [CR; LF])]; by repeat constructor.
  - constructor; [done|]. apply Forall_app. split; [|valids]. eapply Forall_impl; [exact Hf|]. by intros r [? _].
  - constructor; [done|]. apply Forall_app. split; [|valids]. apply (Hj _ pieceOk); [|done].
    intros [r|r] Hp; cbn [pieceText]; [destruct Hp as (? & _)|destruct Hp as [? _]]; valids.
  - do 2 (constructor; [done|]). apply Forall_app. split; [|valids]. apply (Hj _ ansiOk); [|done].
    intros [r|e] Hp; cbn [ansiText]; [destruct Hp as (? & _); valids|]. constructor; [done|].
    destruct e as [| | |a1 a2|a1 a2 a3 a4|r]; cbn [escapeText].
    1-3: by (constructor; [by apply validRune_ascii|constructor]).
    1-2: constructor; [by apply validRune_ascii|]; eapply Forall_impl; [exact Hp|]; intros r Hr; by apply hexVal_valid.
    destruct Hp as [? _]; valids.
Qed.

Lemma blanks_valid sep : blanks sep -> Forall validRune sep.
Proof.
  intros H. eapply Forall_impl; [exact H|]. intros r Hr.
  pose proof (ascii_valid [" "%char; TAB; LF; CR] ltac:(by repeat constructor)) as Hv. rewrite Forall_forall in Hv. by apply Hv.
Qed.

Lemma shellRunes_cons sep w ws trail : shellRunes ((sep, w) :: ws) trail = sep ++ wordText w ++ shellRunes ws trail.
Proof. unfold shellRunes. cbn. by rewrite <- !app_assoc. Qed.

Lemma word_valid w : wordOk w -> Forall validRune (wordText w).
Proof.
  induction 1 as [|f w Hf _ IH]; [constructor|]. change (wordText (f :: w)) with (fragmentText f ++ wordText w).
  apply Forall_app. split; [by apply fragment_valid|done].
Qed.

Lemma shell_valid ws trail : shellOk ws trail -> Forall validRune (shellRunes ws trail).
Proof.
  intros (Hws & _ & Ht). induction Hws as [|[sep w] ws [Hs Hw] _ IH]; [by apply blanks_valid|]. rewrite shellRunes_cons, !Forall_app.
  split_and!; [by apply blanks_valid|by apply word_valid|done].
Qed.

Definition kept (l : list bytestr) : list bytestr := filter (fun t => t <> []) l.

Lemma flush_kept b o : lex_flush (mkLex noToken b o) = mkLex noToken [] (o ++ kept [b]).
Proof. destruct b; unfold kept; cbn; [by rewrite app_nil_r|done]. Qed.

Lemma lex_words ws trail : Forall (fun p => blanks p.1 /\ wordOk p.2) ws -> Forall (fun p => p.1 <> []) ws -> blanks trail ->
  forall b o, exists st, lexAll (mkLex noToken b o) (shellRunes ws trail) = inr st /\ token st = noToken /\
    out (lex_flush st) = o ++ kept (b :: meanings ws).
Proof.
  intros Hws. induction Hws as [|[sep w] ws [Hs Hw] _ IH]; intros Hne Ht b o.
  - unfold shellRunes. cbn [map mjoin list_join app]. destruct trail as [|r trail].
    + exists (mkLex noToken b o). split_and!; [done|done|]. by rewrite flush_kept.
    + rewrite <- (app_nil_r (r :: trail)), lex_blanks, flush_kept by done. eexists. split_and!; [done|done|].
      rewrite flush_kept. cbn. by rewrite app_nil_r.
  - apply Forall_cons in Hne as [Hsep Hne]. cbn [fst snd] in *.
    rewrite shellRunes_cons, lex_blanks, flush_kept, lex_word by done. cbn [app].
    destruct (IH Hne Ht (meaning w) (o ++ kept [b])) as (st & Hst & Htok & Hout). exists st. split_and!; [done|done|].
    rewrite Hout, <- app_assoc. f_equal. unfold kept. by rewrite <- filter_app.
Qed.

Lemma split_words ws trail : shellOk ws trail ->
  exists st, lexAll (mkLex noToken [] []) (shellRunes ws trail) = inr st /\ token st = noToken /\ out (lex_flush st) = kept (meanings ws).
Proof.
  intros (Hws & Hne & Ht). destruct ws as [|[sep w] ws]; [by apply lex_words|]. cbn [tail] in Hne. destruct sep as [|r sep].
  - apply Forall_cons in Hws as [[_ Hw] Hws]. rewrite shellRunes_cons. cbn [app]. rewrite lex_word by done.
    by apply (lex_words ws trail Hws Hne Ht (meaning w) []).
  - apply (lex_words ((r :: sep, w) :: ws) trail Hws); [by constructor|done].
Qed.

Lemma tokens_read ws trail : shellOk ws trail -> splitTokens (shellText ws trail) = inr (kept (meanings ws)).
Proof.
  intros Hok. unfold splitTokens, shellText. rewrite (runesOf_valid _ (shell_valid _ _ Hok)).
  fold (lexAll (mkLex noToken [] []) (shellRunes ws trail)). destruct (split_words ws trail Hok) as (st & -> & Htok & Hout).
  rewrite Htok. cbn. by rewrite Hout.
Qed.


(** ** Arguments *)

(** The ways to write an option, and a positional argument; [flags] are the short
    options without value in front of another. *)
Inductive arg :=
  | Long (name : string) (val : bytestr)
  | LongEq (name : string) (val : bytestr)
  | LongFlag (name : string)
  | Short (flags : bytestr) (c : Ascii.ascii) (val : bytestr)
  | Glued (flags : bytestr) (c : Ascii.ascii) (val : bytestr)
  | Flags (c : Ascii.ascii) (flags : bytestr)
  | Positional (p : bytestr).

Definition argTokens (a : arg) : list bytestr :=
  match a with
  | Long n v => [bytes "--" ++ bytes n; v]
  | LongEq n v => [bytes "--" ++ bytes n ++ EQ :: v]
  | LongFlag n => [bytes "--" ++ bytes n]
  | Short fs c v => ["-"%char :: fs ++ [c]; v]
  | Glued fs c v => ["-"%char :: fs ++ c :: v]
  | Flags c fs => ["-"%char :: c :: fs]
  | Positional p => [p]
  end.

Definition keyOf (d : option optDef) : string := default "" (key <$> d).
Definition flagItems (fs : bytestr) : list Item := map (fun c => optItem (keyOf (shortDefs c)) []) fs.
Definition argItems (a : arg) : list Item :=
  match a with
  | Long n v | LongEq n v => [optItem (keyOf (longDefs n)) v]
  | LongFlag n => [optItem (keyOf (longDefs n)) []]
  | Short fs c v | Glued fs c v => flagItems fs ++ [optItem (keyOf (shortDefs c)) v]
  | Flags c fs => flagItems (c :: fs)
  | Positional p => [posItem p]
  end.

Definition ofKind (k : optKind) (d : option optDef) : Prop := kind <$> d = Some k.
Definition argOk (a : arg) : Prop :=
  match a with
  | Long n _ => ofKind optVal (longDefs n)
  | LongEq n _ => is_Some (longDefs n)
  | LongFlag n => ofKind optNone (longDefs n)
  | Short fs c _ => Forall (fun c => ofKind optNone (shortDefs c)) fs /\ ofKind optVal (shortDefs c)
  | Glued fs c v => Forall (fun c => ofKind optNone (shortDefs c)) fs /\ ofKind optVal (shortDefs c) /\ v <> []
  | Flags c fs => Forall (fun c => ofKind optNone (shortDefs c)) (c :: fs)
  | Positional p => p <> [] /\ (head p <> Some "-"%char \/ p = bytes "-")
  end.

Lemma shortLoop_left raw : forall tok its unk ok its' unk' ok' tok',
  shortLoop raw tok its unk ok = inr (its', unk', ok', tok') -> length tok' <= length tok.
Proof.
  induction raw as [|c raw IH]; intros tok its unk ok its' unk' ok' tok'; cbn [shortLoop]; [intros ?; by simplify_eq|].
  destruct (shortDefs c) as [d|]; [|apply IH]. destruct (kind d); [apply IH|]. destruct raw; [|intros ?; by simplify_eq].
  destruct tok; cbn; [done|]. intros ?; simplify_eq. lia.
Qed.

Lemma parseLong_left t tok it tok' : parseLong t tok = inr (it, tok') -> length tok' <= length tok.
Proof. unfold parseLong, consumeNext. intros H. repeat case_match; simplify_eq; simpl; lia. Qed.

Lemma cmdLoop_fuel f : forall g segs seg pos tok, length tok <= f -> length tok <= g ->
  cmdLoop f segs seg pos tok = cmdLoop g segs seg pos tok.
Proof.
  induction f as [|f IH]; intros g segs seg pos [|t tok] Hf Hg; cbn [length] in *; try lia; [by destruct g..|].
  destruct g as [|g]; [lia|]. cbn [cmdLoop]. assert (Hp : forall s p, cmdLoop f segs s p tok = cmdLoop g segs s p tok) by (intros; apply IH; lia).
  rewrite !Hp, (IH g _ _ _ tok) by lia. destruct (bool_decide (t = [])); [done|]. destruct pos; [done|].
  destruct (bool_decide (t = bytes "--")); [done|]. destruct (bool_decide (t = bytes "--next")); [done|].
  destruct (hasPrefix (bytes "--") t).
  - destruct (parseLong t tok) as [e|[[it|] tok']] eqn:Hl; [done|..]; apply parseLong_left in Hl; apply IH; lia.
  - destruct (hasPrefix (bytes "-") t && _); [|done]. unfold parseShort. destruct (_ || _); [cbn; apply IH; lia|].
    destruct (shortLoop (drop 1 t) tok [] [] false) as [e|[[[its unk] ok] tok']] eqn:Hs; [done|].
    apply shortLoop_left in Hs. destruct (ok || _); apply IH; lia.
Qed.

Definition cmdAll (segs : list Seg) (seg : Seg) (tok : list bytestr) : string + list Seg := cmdLoop (length tok) segs seg false tok.

Lemma cmdAll_cons segs seg t tok : cmdAll segs seg (t :: tok) = cmdLoop (S (length tok)) segs seg false (t :: tok).
Proof. done. Qed.

Lemma long_names n : is_Some (longDefs n) -> EQ ∉ bytes n /\ n <> "" /\ n <> "next".
Proof.
  unfold longDefs. case_bool_decide as Hn; [intros _|by intros []].
  assert (Hall : forallb (fun n => negb (bool_decide (EQ ∈ bytes n)) && negb (bool_decide (n = "")) && negb (bool_decide (n = "next"))) longNames = true)
    by (vm_compute; reflexivity).
  rewrite forallb_forall in Hall. apply list_elem_of_In, Hall in Hn. rewrite !andb_true_iff, !negb_true_iff, !bool_decide_eq_false in Hn. tauto.
Qed.

Lemma short_names c : is_Some (shortDefs c) -> c <> "-"%char.
Proof. intros [d Hd] ->. vm_compute in Hd. done. Qed.

Lemma ofKind_inv k d : ofKind k d -> exists x, d = Some x /\ kind x = k.
Proof. unfold ofKind. destruct d as [x|]; [|done]. intros [= Hk]. eauto. Qed.

Lemma cutAt_absent c l : c ∉ l -> cutAt c l = None.
Proof.
  induction l as [|b l IH]; [done|]. intros [Hb Hl]%not_elem_of_cons. cbn [cutAt]. rewrite bool_decide_eq_false_2 by done. by rewrite IH.
Qed.

Lemma dashed n : hasPrefix (bytes "--") (bytes "--" ++ n) = true /\ hasPrefix (bytes "-") (bytes "--" ++ n) = true.
Proof. split; apply bool_decide_eq_true; cbn; rewrite ?drop_0; eauto. Qed.

Lemma splitLong_name n : is_Some (longDefs n) -> splitLong (bytes "--" ++ bytes n) = (bytes n, [], false).
Proof.
  intros (Heq & Hne & _)%long_names. unfold splitLong. rewrite (proj1 (dashed _)). cbn [negb orb].
  destruct (bytes n) as [|c l] eqn:Hn; [by apply (f_equal str) in Hn; rewrite str_bytes in Hn|]. rewrite (proj2 (Nat.ltb_ge _ _)) by (simpl; lia).
  change (drop 2 (bytes "--" ++ c :: l)) with (c :: l). by rewrite cutAt_absent.
Qed.

Lemma splitLong_value n v : is_Some (longDefs n) -> splitLong (bytes "--" ++ bytes n ++ EQ :: v) = (bytes n, v, true).
Proof.
  intros (Heq & Hne & _)%long_names. unfold splitLong. rewrite (proj1 (dashed _)). cbn [negb orb].
  rewrite (proj2 (Nat.ltb_ge _ _)) by (rewrite !length_app; destruct (bytes n); simpl; lia).
  change (drop 2 (bytes "--" ++ bytes n ++ EQ :: v)) with (bytes n ++ EQ :: v). by rewrite cutAt_app.
Qed.

Lemma parseLong_name n tok d : longDefs n = Some d ->
  parseLong (bytes "--" ++ bytes n) tok =
    match kind d with
    | optVal => match tok with [] => inl ("missing argument for " +:+ str (bytes "--" ++ bytes n)) | v :: tok => inr (Some (optItem (key d) v), tok) end
    | optNone => inr (Some (optItem (key d) []), tok)
    end.
Proof.
  intros Hd. unfold parseLong. rewrite splitLong_name by eauto. destruct (long_names n ltac:(eauto)) as (_ & Hne & _).
  rewrite bool_decide_eq_false_2, str_bytes, Hd by (intros E; apply (f_equal str) in E; by rewrite str_bytes in E).
  destruct (kind d); [done|]. by destruct tok.
Qed.

Lemma parseLong_value n v tok d : longDefs n = Some d ->
  parseLong (bytes "--" ++ bytes n ++ EQ :: v) tok = inr (Some (optItem (key d) v), tok).
Proof.
  intros Hd. unfold parseLong. rewrite splitLong_value by eauto. destruct (long_names n ltac:(eauto)) as (_ & Hne & _).
  rewrite bool_decide_eq_false_2, str_bytes, Hd by (intros E; apply (f_equal str) in E; by rewrite str_bytes in E).
  by destruct (kind d).
Qed.

(** A turn of the loop at a long option, and at short ones. *)
Lemma cmdAll_long segs seg n tail tok it tok' :
  is_Some (longDefs n) -> tail = [] \/ head tail = Some EQ ->
  parseLong (bytes "--" ++ bytes n ++ tail) tok = inr (Some it, tok') ->
  cmdAll segs seg ((bytes "--" ++ bytes n ++ tail) :: tok) = cmdAll segs (addItems [it] [] seg) tok'.
Proof.
  intros Hn Htail Hp. destruct (long_names n Hn) as (Heq & Hne & Hnext). rewrite cmdAll_cons. cbn [cmdLoop].
  assert (Hb : bytes n <> []) by (intros E; apply (f_equal str) in E; by rewrite str_bytes in E).
  rewrite bool_decide_eq_false_2 by done.
  rewrite bool_decide_eq_false_2 by (cbn; intros [= E]; by apply app_eq_nil in E as [? _]).
  rewrite bool_decide_eq_false_2.
  - rewrite (proj1 (dashed _)), Hp. apply parseLong_left in Hp. apply cmdLoop_fuel; lia.
  - intros E. apply (app_inv_head (bytes "--") _ (bytes "next")) in E. destruct Htail as [->|Htail].
    + rewrite app_nil_r in E. by apply bytes_inj in E.
    + destruct tail as [|c tail]; [done|]. injection Htail as ->. assert (Hin : EQ ∈ bytes "next") by (rewrite <- E; apply elem_of_app; right; by left).
      by apply (bool_decide_eq_true_2 (EQ ∈ bytes "next")) in Hin.
Qed.

Lemma cmdAll_short segs seg c raw tok its tok' :
  c <> "-"%char -> shortLoop (c :: raw) tok [] [] false = inr (its, [], true, tok') ->
  cmdAll segs seg (("-"%char :: c :: raw) :: tok) = cmdAll segs (addItems its [] seg) tok'.
Proof.
  intros Hc Hs. rewrite cmdAll_cons. cbn [cmdLoop]. rewrite !bool_decide_eq_false_2 by (cbn; congruence).
  assert (hasPrefix (bytes "--") ("-"%char :: c :: raw) = false) as ->.
  { apply bool_decide_eq_false. cbn. rewrite bool_decide_eq_true_2, bool_decide_eq_false_2 by done. by intros []. }
  assert (hasPrefix (bytes "-") ("-"%char :: c :: raw) = true) as -> by (apply bool_decide_eq_true; cbn; eauto). cbn [negb andb].
  unfold parseShort. assert (hasPrefix (bytes "-") ("-"%char :: c :: raw) = true) as -> by (apply bool_decide_eq_true; cbn; eauto).
  cbn [length Nat.ltb Nat.leb negb orb drop]. rewrite Hs. cbn [orb]. apply shortLoop_left in Hs. apply cmdLoop_fuel; lia.
Qed.

Lemma shortLoop_flags fs raw tok unk : Forall (fun c => ofKind optNone (shortDefs c)) fs -> forall its ok,
  shortLoop (fs ++ raw) tok its unk ok = shortLoop raw tok (its ++ flagItems fs) unk (ok || negb (bool_decide (fs = []))).
Proof.
  induction 1 as [|c fs Hc Hfs IH]; intros its ok; [by rewrite app_nil_r, orb_false_r|].
  apply ofKind_inv in Hc as (d & Hd & Hk). cbn [app shortLoop]. rewrite Hd, Hk, IH. cbn [flagItems map]. rewrite Hd, <- app_assoc.
  cbn [keyOf fmap option_fmap option_map default]. by rewrite orb_true_l, (bool_decide_eq_false_2 (c :: fs = [])), orb_true_r.
Qed.

(** The bytes behind a dash: flags and an option with a value. *)
Lemma cmdAll_flags segs seg fs c raw tok its tok' :
  Forall (fun c => ofKind optNone (shortDefs c)) fs -> is_Some (shortDefs c) ->
  shortLoop (c :: raw) tok (flagItems fs) [] (negb (bool_decide (fs = []))) = inr (its, [], true, tok') ->
  cmdAll segs seg (("-"%char :: fs ++ c :: raw) :: tok) = cmdAll segs (addItems its [] seg) tok'.
Proof.
  intros Hfs Hc Hs. pose proof (shortLoop_flags fs (c :: raw) tok [] Hfs [] false) as He. cbn [app orb] in He. rewrite Hs in He.
  destruct fs as [|c' fs]; (apply cmdAll_short; [apply short_names|exact He]); [done|].
  apply Forall_cons in Hfs as [Hfs _]. apply ofKind_inv in Hfs as (d & -> & _). eauto.
Qed.

Lemma cmdAll_arg a segs seg tok : argOk a -> cmdAll segs seg (argTokens a ++ tok) = cmdAll segs (addItems (argItems a) [] seg) tok.
Proof.
  destruct a as [n v|n v|n|fs c v|fs c v|c fs|p]; cbn [argTokens argItems argOk app].
  - intros (d & Hd & Hk)%ofKind_inv. rewrite <- (app_nil_r (bytes n)). apply cmdAll_long; [eauto|by left|].
    rewrite app_nil_r, (parseLong_name _ _ _ Hd), Hk, Hd. done.
  - intros [d Hd]. apply cmdAll_long; [eauto|by right|]. by rewrite (parseLong_value _ _ _ _ Hd), Hd.
  - intros (d & Hd & Hk)%ofKind_inv. rewrite <- (app_nil_r (bytes n)). apply cmdAll_long; [eauto|by left|].
    rewrite app_nil_r, (parseLong_name _ _ _ Hd), Hk, Hd. done.
  - intros [Hfs (d & Hd & Hk)%ofKind_inv]. apply cmdAll_flags; [done|eauto|]. cbn [shortLoop]. by rewrite Hd, Hk.
  - intros (Hfs & (d & Hd & Hk)%ofKind_inv & Hv). apply cmdAll_flags; [done|eauto|]. cbn [shortLoop]. rewrite Hd, Hk. by destruct v.
  - intros [Hc Hfs]%Forall_cons. pose proof (ofKind_inv _ _ Hc) as (d & Hd & Hk). apply cmdAll_short; [apply short_names; eauto|].
    pose proof (shortLoop_flags (c :: fs) [] tok [] ltac:(by constructor) [] false) as He. rewrite app_nil_r in He. exact He.
  - intros [Hne Hp]. rewrite cmdAll_cons. cbn [cmdLoop]. rewrite bool_decide_eq_false_2 by done.
    destruct Hp as [Hp| ->]; [|reflexivity].
    assert (Hd : forall w, head w = Some "-"%char -> hasPrefix w p = false).
    { intros [|d w] [= ->]. destruct p as [|c p]; [done|]. apply bool_decide_eq_false. cbn.
      rewrite bool_decide_eq_false_2 by (intros <-; by apply Hp). by intros []. }
    rewrite !bool_decide_eq_false_2 by (intros ->; by apply Hp). by rewrite !Hd.
Qed.

Lemma addItems_app a b seg : addItems b [] (addItems a [] seg) = addItems (a ++ b) [] seg.
Proof. unfold addItems. cbn. by rewrite !app_nil_r, app_assoc. Qed.

Lemma cmdAll_args args segs tok : Forall argOk args -> forall seg,
  cmdAll segs seg (mjoin (map argTokens args) ++ tok) = cmdAll segs (addItems (mjoin (map argItems args)) [] seg) tok.
Proof.
  induction 1 as [|a args Ha _ IH]; intros seg.
  - cbn. unfold addItems. rewrite !app_nil_r. by destruct seg.
  - change (mjoin (map argTokens (a :: args))) with (argTokens a ++ mjoin (map argTokens args)).
    change (mjoin (map argItems (a :: args))) with (argItems a ++ mjoin (map argItems args)).
    by rewrite <- app_assoc, cmdAll_arg, IH, addItems_app.
Qed.

(** The arguments of several requests, with --next between them. *)
Fixpoint segTokens (segs : list (list arg)) : list bytestr :=
  match segs with
  | [] => []
  | [args] => mjoin (map argTokens args)
  | args :: segs' => mjoin (map argTokens args) ++ bytes "--next" :: segTokens segs'
  end.
Definition segOf (args : list arg) : Seg := mkSeg (mjoin (map argItems args)) [].

Lemma argItems_nonempty a : argItems a <> [].
Proof. destruct a; cbn; try done; by destruct (flagItems _). Qed.

Lemma segs_read segs : Forall (fun args => args <> [] /\ Forall argOk args) segs -> forall acc,
  cmdAll acc (mkSeg [] []) (segTokens segs) = inr (acc ++ map segOf segs).
Proof.
  assert (Hadd : forall acc args, args <> [] -> addSeg acc (segOf args) = acc ++ [segOf args]).
  { intros acc [|a args]; [done|]. intros _. unfold addSeg, segOf. cbn [Items Unk].
    change (mjoin (map argItems (a :: args))) with (argItems a ++ mjoin (map argItems args)).
    pose proof (argItems_nonempty a). by destruct (argItems a). }
  induction 1 as [|args segs [Hne Hargs] _ IH]; intros acc; [by rewrite app_nil_r|]. destruct segs as [|args' segs].
  - cbn [segTokens]. rewrite <- (app_nil_r (mjoin (map argTokens args))), cmdAll_args by done. unfold cmdAll. cbn [length cmdLoop].
    unfold addItems. cbn [Items Unk app]. fold (segOf args). by rewrite Hadd.
  - change (segTokens (args :: args' :: segs)) with (mjoin (map argTokens args) ++ bytes "--next" :: segTokens (args' :: segs)).
    rewrite cmdAll_args by done. unfold addItems. cbn [Items Unk app].
    change (cmdAll acc (mkSeg (mjoin (map argItems args)) []) (bytes "--next" :: segTokens (args' :: segs)))
      with (cmdAll (addSeg acc (segOf args)) (mkSeg [] []) (segTokens (args' :: segs))).
    rewrite Hadd, IH by done. by rewrite <- app_assoc.
Qed.

(** ** Commands read back *)

(** What a browser copies as cURL. *)
Record call := mkCall {
  cURL : bytestr; cMethod : option bytestr; cHeaders : list (bytestr * bytestr); cCookie : option bytestr;
  cBody : option bytestr; cCompressed : bool; cInsecure : bool
}.
Definition headerArg (kv : bytestr * bytestr) : bytestr := kv.1 ++ bytes ": " ++ kv.2.
Definition callItems (c : call) : list Item :=
  [posItem (cURL c)] ++ from_option (fun v => [optItem "request" v]) [] (cMethod c) ++
  map (fun kv => optItem "header" (headerArg kv)) (cHeaders c) ++
  from_option (fun v => [optItem "cookie" v]) [] (cCookie c) ++
  from_option (fun v => [optItem "data-raw" v]) [] (cBody c) ++
  (if cCompressed c then [optItem "compressed" []] else []) ++ (if cInsecure c then [optItem "insecure" []] else []).
Definition callOk (c : call) : Prop :=
  cURL c <> [] /\ sanitizeURL (cURL c) = cURL c /\
  Forall (fun kv => kv.1 <> [] /\ trim kv.1 = kv.1 /\ ":"%char ∉ kv.1 /\ trim kv.2 = kv.2) (cHeaders c) /\
  from_option (fun v => trim v <> []) True (cCookie c).

Section commands.
Context {unicode : Unicode} {tables : UnicodeTables} {lib : HttpLib} {curl : CurlLib} {tunnels : Tunnels}.

(** What strings.ToLower and strings.EqualFold make of three ASCII words. *)
Definition asciiCase : Prop :=
  ToLower "curl" = "curl" /\ ToLower "http-insecure" = "http-insecure" /\ EqualFold "GET" "GET" = true.

Definition callHeaders (c : call) : Header :=
  let h := foldl (fun h kv => headerAdd (str kv.1) kv.2 h) ∅ (cHeaders c) in
  from_option (fun v => headerSet "Cookie" v h) h (cCookie c).
Definition callMethod (c : call) : bytestr :=
  match cMethod c, cBody c with
  | Some v, _ => bytes (ToUpper (str v))
  | None, Some _ => bytes "POST"
  | None, None => bytes "GET"
  end.
Definition callRequest (c : call) : Rq.Request :=
  let h := callHeaders c in
  Rq.mkRequest (authMetadata None) (callMethod c) (cURL c)
    (if cCompressed c && bool_decide (headerGet "Accept-Encoding" h = []) then headerSet "Accept-Encoding" (bytes "gzip, deflate, br") h else h)
    (from_option (fun b => Rq.mkBody b [] (headerGet "Content-Type" h) None (Rq.mkBO false false)) noBody (cBody c))
    [] (if cInsecure c then {["http-insecure" := bytes "true"]} else ∅) (0, 0)%Z [] None None None None None.

Lemma splitHeader_arg kv : kv.1 <> [] -> trim kv.1 = kv.1 -> ":"%char ∉ kv.1 -> trim kv.2 = kv.2 -> splitHeader (headerArg kv) = kv.
Proof.
  destruct kv as [k v]. cbn [fst snd]. intros Hne Hk Hc Hv. unfold splitHeader, headerArg. cbn [fst snd].
  change (k ++ bytes ": " ++ v) with (k ++ ":"%char :: " "%char :: v). rewrite cutAt_app by done. rewrite Hk.
  assert (trim (" "%char :: v) = v) as -> by (by apply trim_space). by destruct k.
Qed.

Lemma applyItems_app a b s : applyItems (a ++ b) s = match applyItems a s with inl e => inl e | inr s => applyItems b s end.
Proof.
  revert s. induction a as [|it a IH]; intros s; [done|]. cbn [app applyItems].
  destruct (if IsOpt it then applyOpt (ItemOpt it) s else applyPos (Pos it) s); [done|apply IH].
Qed.

Lemma applyItems_then a b s s' : applyItems a s = inr s' -> applyItems (a ++ b) s = applyItems b s'.
Proof. intros H. by rewrite applyItems_app, H. Qed.

Lemma apply_headers hs : Forall (fun kv => kv.1 <> [] /\ trim kv.1 = kv.1 /\ ":"%char ∉ kv.1 /\ trim kv.2 = kv.2) hs -> forall s,
  applyItems (map (fun kv => optItem "header" (headerArg kv)) hs) s =
  inr (set_hdr (foldl (fun h kv => headerAdd (str kv.1) kv.2 h) (hdr s) hs) s).
Proof.
  induction 1 as [|kv hs (Hne & Hk & Hc & Hv) _ IH]; intros s; [by destruct s|].
  change (applyItems (optItem "header" (headerArg kv) :: map (fun kv => optItem "header" (headerArg kv)) hs) s =
    inr (set_hdr (foldl (fun h kv => headerAdd (str kv.1) kv.2 h) (headerAdd (str kv.1) kv.2 (hdr s)) hs) s)).
  cbn [applyItems optItem IsOpt ItemOpt].
  assert (applyOpt (mkOpt "header" (headerArg kv)) s = inr (set_hdr (headerAdd (str kv.1) kv.2 (hdr s)) s)) as ->.
  { change (applyOpt (mkOpt "header" (headerArg kv)) s) with (@inr string segState (set_hdr (addHeader (headerArg kv) (hdr s)) s)).
    unfold addHeader. rewrite splitHeader_arg by done. destruct kv as [k v]. cbn [fst snd] in *. by rewrite bool_decide_eq_false_2. }
  by rewrite IH.
Qed.

Definition callBody (c : call) : bodyBuilder := from_option (fun v => mkBody bodyKindRaw [v] [] [] []) newBodyBuilder (cBody c).
Definition callSettings (c : call) : gmap string bytestr := if cInsecure c then {["http-insecure" := bytes "true"]} else ∅.
Definition callState (c : call) : segState :=
  mkState (from_option (fun v => bytes (ToUpper (str v))) (bytes "GET") (cMethod c)) (bool_decide (is_Some (cMethod c)))
    (callHeaders c) (callBody c) (cURL c) [] (cCompressed c) false (callSettings c) ∅.

Lemma apply_cookie v s : trim v <> [] -> applyItems [optItem "cookie" v] s = inr (set_hdr (headerSet "Cookie" v (hdr s)) s).
Proof.
  intros Hv. change (applyItems [optItem "cookie" v] s) with (@inr string segState (set_hdr (setHdr "Cookie" v (hdr s)) s)).
  unfold setHdr. rewrite (bool_decide_eq_false_2 (TrimSpace "Cookie" = "")), (bool_decide_eq_false_2 (trim v = [])) by done. done.
Qed.

Lemma apply_insecure s : ToLower "http-insecure" = "http-insecure" ->
  applyItems [optItem "insecure" []] s = inr (set_set (<["http-insecure" := bytes "true"]> (set s)) s).
Proof.
  intros Hl. change (applyItems [optItem "insecure" []] s) with (@inr string segState (setKV "http-insecure" (bytes "true") s)).
  unfold setKV. assert (TrimSpace "http-insecure" = "http-insecure") as -> by reflexivity.
  assert (trim (bytes "true") = bytes "true") as -> by reflexivity. rewrite !bool_decide_eq_false_2 by done. cbn [orb].
  unfold IsHTTPKey. assert (TrimSpace "http-insecure" = "http-insecure") as -> by reflexivity. by rewrite Hl.
Qed.

Lemma apply_call c : asciiCase -> callOk c -> applyItems (callItems c) (initState []) = inr (callState c).
Proof.
  intros (_ & Hins & _) (Hu & _ & Hh & Hck). destruct c as [u om hs oc ob z i]. cbn [cURL cHeaders cCookie] in *. unfold callItems.
  cbn [cURL cMethod cHeaders cCookie cBody cCompressed cInsecure].
  rewrite (applyItems_then _ _ _ (set_url u (initState []))) by done.
  rewrite (applyItems_then _ _ _ (mkState (from_option (fun v => bytes (ToUpper (str v))) (bytes "GET") om) (bool_decide (is_Some om)) ∅
    newBodyBuilder u [] false false ∅ ∅)) by (destruct om; reflexivity).
  rewrite (applyItems_then _ _ _ _ (apply_headers hs Hh _)). unfold callState, callHeaders, callBody, callSettings.
  cbn [hdr cURL cMethod cHeaders cCookie cBody cCompressed cInsecure]. set (h := foldl _ ∅ hs). set (t := from_option _ (bytes "GET") om).
  set (e := bool_decide _). rewrite (applyItems_then _ _ _ (mkState t e (from_option (fun v => headerSet "Cookie" v h) h oc) newBodyBuilder u [] false false ∅ ∅))
    by (destruct oc as [v|]; [by apply apply_cookie|done]).
  set (h' := from_option _ h oc).
  rewrite (applyItems_then _ _ _ (mkState t e h' (from_option (fun v => mkBody bodyKindRaw [v] [] [] []) newBodyBuilder ob) u [] false false ∅ ∅))
    by (destruct ob; reflexivity).
  set (b := from_option _ newBodyBuilder ob).
  rewrite (applyItems_then _ _ _ (mkState t e h' b u [] z false ∅ ∅)) by (destruct z; reflexivity).
  destruct i; [by rewrite apply_insecure|done].
Qed.

Lemma finish_call c : asciiCase -> callOk c -> finishSeg (callState c) = inr (callRequest c, []).
Proof.
  intros (_ & _ & Hget) (Hu & Hs & _). unfold finishSeg, callState. cbn [url get]. rewrite bool_decide_eq_false_2 by done.
  cbn [body m exp hdr zip usr set warn]. unfold applyUser. rewrite (bool_decide_eq_true_2 (trim [] = [])) by done.
  unfold callRequest, callMethod, callBody. rewrite Hs.
  assert (warn_List ∅ = []) as -> by reflexivity.
  destruct c as [u om hs oc ob z i]. cbn [cURL cMethod cHeaders cCookie cBody cCompressed cInsecure callSettings from_option] in *.
  destruct ob as [b|].
  - cbn [from_option hasContent bkind braw]. rewrite (bool_decide_eq_false_2 ([b] = [])) by done. cbn [negb andb].
    unfold applyBody. cbn [hasContent bkind braw]. rewrite (bool_decide_eq_false_2 ([b] = [])) by done. cbn [negb joinWith].
    assert (Hb : (if bool_decide (headerGet "Content-Type" (callHeaders (mkCall u om hs oc (Some b) z i)) = []) then textBody b
      else Rq.mkBody b [] (headerGet "Content-Type" (callHeaders (mkCall u om hs oc (Some b) z i))) None (Rq.mkBO false false)) =
      Rq.mkBody b [] (headerGet "Content-Type" (callHeaders (mkCall u om hs oc (Some b) z i))) None (Rq.mkBO false false))
      by (case_bool_decide as E; [by rewrite E|done]).
    unfold textBody in *. cbn [Rq.Text Rq.FilePath Rq.BodyGraphQL Rq.Options]. rewrite Hb.
    destruct om as [v|]; [by rewrite bool_decide_eq_true_2 by eauto|]. rewrite bool_decide_eq_false_2 by (by intros []). cbn [negb from_option andb].
    change (str (bytes "GET")) with "GET". by rewrite Hget.
  - by destruct om.
Qed.

Lemma norm_call c : asciiCase -> callOk c -> normSeg (mkSeg (callItems c) []) = inr (callRequest c, []).
Proof. intros Ha Hc. unfold normSeg. cbn [Items Unk]. by rewrite apply_call, finish_call. Qed.

Lemma norm_calls calls : asciiCase -> Forall callOk calls ->
  normCmdRes (map (fun c => mkSeg (callItems c) []) calls) = inr (map (fun c => (callRequest c, [])) calls).
Proof.
  intros Ha. induction 1 as [|c calls Hc _ IH]; [reflexivity|]. cbn [map normCmdRes]. rewrite (norm_call c Ha Hc), IH. reflexivity.
Qed.

End commands.

(** ** Sample commands *)

Definition asciiText (p : Ascii.ascii -> bool) (l : bytestr) : bool := forallb (fun c => (byte_val c <? 128)%N && p c) l.
Definition quoted (s : string) : word := [Single (map ch (bytes s))].
Definition bare (s : string) : word := map (fun c => Bare (ch c)) (bytes s).

Lemma quoted_ok s : asciiText (fun c => negb (bool_decide (c = SQUOTE))) (bytes s) = true -> wordOk (quoted s).
Proof.
  intros H. constructor; [|constructor]. apply Forall_map, Forall_forall. intros c Hc%list_elem_of_In. unfold asciiText in H.
  rewrite forallb_forall in H. specialize (H c Hc). rewrite andb_true_iff, negb_true_iff, bool_decide_eq_false, N.ltb_lt in H.
  destruct H as [Hb Hn]. split; [by apply validRune_ascii|]. unfold ch, SQ. congruence.
Qed.

Lemma bare_ok s : asciiText (fun c => negb (isWhitespace [c]) && negb (bool_decide ([c] ∈ [BS; SQ; DQ; ch "$"%char]))) (bytes s) = true -> wordOk (bare s).
Proof.
  intros H. apply Forall_map, Forall_forall. intros c Hc%list_elem_of_In. unfold asciiText in H.
  rewrite forallb_forall in H. specialize (H c Hc). rewrite !andb_true_iff, !negb_true_iff, bool_decide_eq_false, N.ltb_lt in H.
  destruct H as (Hb & Hw & Hn). split_and!; [by apply validRune_ascii|done|done].
Qed.

Definition SP : list rune := [ch " "%char].
(** A quote inside single quotes, a line continued, a word that means nothing *)
Definition sampleWords : list (list rune * word) :=
  [([], bare "curl"); (SP, quoted "it" ++ [Backslashed SQ] ++ quoted "s"); (SP ++ SP, [Continued [ch LF]; Double [Plain (ch "a"%char); Escaped DQ; Plain (ch " "%char)]]);
   (SP, quoted ""); ([ch LF], [Ansi [AnsiEscaped (Hex2 (ch "4"%char) (ch "1"%char)); AnsiEscaped Newline; AnsiPlain (ch "b"%char)]])].

Lemma sampleWords_ok : shellOk sampleWords SP.
Proof.
  assert (Hr : forall c, (byte_val c < 128)%N -> validRune (ch c)) by (intros; by apply validRune_ascii).
  unfold sampleWords. split_and!; [|by repeat constructor|by repeat constructor].
  repeat (apply Forall_cons_2; [split; [by repeat constructor|]|]); try apply Forall_nil_2.
  - by apply bare_ok.
  - apply Forall_app; split; [by apply quoted_ok|]. constructor; [split; [by apply Hr|done]|by apply quoted_ok].
  - constructor; [by left|]. constructor; [|constructor].
    constructor; [split_and!; [by apply Hr|done..]|]. constructor; [split; [by apply Hr|done]|].
    constructor; [split_and!; [by apply Hr|done..]|]. constructor.
  - by apply quoted_ok.
  - constructor; [|constructor]. constructor; [by repeat constructor; eexists|]. constructor; [done|].
    constructor; [split_and!; [by apply Hr|done..]|]. constructor.
Qed.

Definition dq : string := str [DQUOTE].

Definition sampleCalls : list call :=
  [mkCall (bytes "https://h/a?b=1&c=d") (Some (bytes "put")) [(bytes "Accept", bytes "*/*"); (bytes "X-A", bytes "it's: 1")] (Some (bytes "a=b"))
     (Some (bytes "{ q: [1, 2] }")) true true;
   mkCall (bytes "http://x") None [] None None false false].
Definition sampleSegs : list (list arg) :=
  [[Positional (bytes "https://h/a?b=1&c=d"); Short [] "X"%char (bytes "put"); Long "header" (bytes "Accept: */*"); Glued [] "H"%char (bytes "X-A: it's: 1");
    LongEq "cookie" (bytes "a=b"); LongEq "data-raw" (bytes "{ q: [1, 2] }"); LongFlag "compressed"; Flags "k"%char []]; [Positional (bytes "http://x")]].
Definition sampleCommand : list (list rune * word) :=
  [([], bare "curl"); (SP, quoted "https://h/a?b=1&c=d"); (SP, bare "-X"); (SP, bare "put"); (SP, bare "--header"); (SP, quoted "Accept: */*");
   (SP, quoted "-HX-A: it" ++ [Backslashed SQ] ++ quoted "s: 1"); (SP, bare "--cookie=a=b"); (SP, bare "--data-raw=" ++ quoted "{ q: [1, 2] }");
   (SP, bare "--compressed"); (SP, bare "-k"); (SP, bare "--next"); (SP, bare "http://x")].

Lemma sampleCommand_ok : shellOk sampleCommand [].
Proof.
  unfold sampleCommand. split_and!; [|by repeat constructor|by repeat constructor].
  repeat (apply Forall_cons_2; [split; [by repeat constructor|];
    cbn [snd]; repeat match goal with
      | |- wordOk (bare _) => by apply bare_ok
      | |- wordOk (quoted _) => by apply quoted_ok
      | |- wordOk (_ ++ _) => apply Forall_app; split
      | |- Forall fragmentOk (_ ++ _) => apply Forall_app; split
      | |- Forall fragmentOk (bare _) => by apply bare_ok
      | |- Forall fragmentOk (quoted _) => by apply quoted_ok
      | |- Forall fragmentOk [Backslashed SQ] => constructor; [split; [by apply validRune_ascii|done]|constructor]
      end|]); apply Forall_nil_2.
Qed.

Lemma Forall_bool {A} (P : A -> Prop) `{!forall x, Decision (P x)} l : Forall P l <-> forallb (fun x => bool_decide (P x)) l = true.
Proof.
  rewrite forallb_forall, Forall_forall. split; intros Hall x Hx.
  - apply bool_decide_eq_true, Hall. by apply list_elem_of_In.
  - by apply (bool_decide_eq_true (P x)), Hall, list_elem_of_In.
Qed.

Lemma sampleSegs_ok : Forall (fun args => args <> [] /\ Forall argOk args) sampleSegs.
Proof.
  assert (Hl : forall n, longDefs n <> None -> is_Some (longDefs n)) by (intros n; destruct (longDefs n); [eauto|done]).
  unfold sampleSegs. repeat apply Forall_cons_2; try apply Forall_nil_2; split; try done;
    repeat apply Forall_cons_2; try apply Forall_nil_2; cbn [argOk].
  - split; [done|by left].
  - split; [constructor|reflexivity].
  - reflexivity.
  - split_and!; [constructor|reflexivity|done].
  - apply Hl. by vm_compute.
  - apply Hl. by vm_compute.
  - reflexivity.
  - repeat constructor.
  - split; [done|by left].
Qed.

Lemma sampleCalls_ok : Forall callOk sampleCalls.
Proof.
  unfold sampleCalls. repeat apply Forall_cons_2; try apply Forall_nil_2; unfold callOk; cbn [cURL cHeaders cCookie from_option].
  - split_and!; [done|reflexivity| |by vm_compute].
    apply (proj2 (Forall_bool _ _)). vm_compute. reflexivity.
  - split_and!; [done|reflexivity|constructor|done].
Qed.


(** ** Where an imported command is not the one curl runs *)

Definition sampleBody (command : string) : string + list string :=
  match sampleParse command with inl e => inl e | inr rs => inr (map (fun r => str (Rq.Text (@Rq.rBody sampleTunnels r))) rs) end.

(** A word that means nothing is no token: -d takes the URL as its value. *)
Lemma empty_words_are_lost : sampleBody "curl -d '' http://x" = inl "curl command missing URL" /\
  sampleBody "curl --data= http://x" = inr [""].
Proof. by vm_compute. Qed.

(** curl sends the data as they are: [a&b=1], [=x], [q=a%26b]. *)
Lemma form_data_change :
  map sampleBody ["curl http://x -d 'a&b=1'"; "curl http://x -d '=x'"; "curl http://x --data-urlencode 'q=a&b'"] =
  [inr ["a=&b=1"]; inr ["x"]; inr ["q=a&b"]].
Proof. by vm_compute. Qed.
