(* ===== verification/RestWriter.v ===== *)
(** * Writing request files (src/internal/restwriter/writer.go, directives.go, mock.go, body.go)

    [Render] writes a document as the text of a request file.  A function of the
    code that writes to the builder is here the text it appends, and one that can
    fail answers the error or the text.  The lines of directives are in
    Directive.v, workflows in WorkflowText.v.  Of mocks, the JSON of matchers and
    the texts of keys and delays are an interface, as where they are read
    (MockText.v); so is net/http's table of status texts.  Writing the file is
    left out.  What is written is read back in WriterFacts.v and WriterRead.v. *)
From stdpp Require Import base list strings gmap.
From Stdlib Require Import Ascii ZArith Lia.
From S2P Require Import Prelude GoStd GoPath Names Text Directive Workflow Catalog WorkflowText Lines Protocols Specs Requests MockText Document.

Open Scope string_scope.
Open Scope nat_scope.
Open Scope list_scope.

Module Rw.
Import Directive.
Import Sp.

(** What the writer of mocks calls; net/http: [StatusText]. *)
Class MockWriter {parsers : MockParsers} := {
  matchFields : Match -> string + list bytestr;
  SequenceKey_String : SequenceKey -> string;
  Delay_String : Delay -> string;
  StatusText : Z -> string
}.

(** An error or a text, and texts in turn. *)
Definition written : Type := string + bytestr.
Definition andThen (a b : written) : written :=
  match a with inl e => inl e | inr x => match b with inl e => inl e | inr y => inr (x ++ y) end end.
Fixpoint allOf (ws : list written) : written :=
  match ws with [] => inr [] | w :: ws' => andThen w (allOf ws') end.

Definition sp (a b : bytestr) : bytestr := a ++ " "%char :: b.
Definition line_ : string -> bytestr -> bytestr := Wb.line_.

Section unicode.
Context {unicode : Unicode} {tables : UnicodeTables}.

(** ** directives.go *)

Definition title (text : bytestr) : bytestr := bytes "### " ++ text ++ [LF].

(** [writeEach] and [writeOne] *)
Definition writeEach {A} (arg : A -> string * bytestr) (specs : list A) : bytestr :=
  mjoin (map (fun s => let '(d, a) := arg s in line_ d a) specs).
Definition writeOne {A} (arg : A -> string * bytestr) (spec : option A) : bytestr :=
  match spec with Some s => let '(d, a) := arg s in line_ d a | None => [] end.

Definition scopeToken (scope : Scope) (secret : bool) : string :=
  if secret then Scope_String scope +:+ "-secret" else Scope_String scope.

Definition patchArg (p : PatchProfile) : string * bytestr :=
  ("patch", sp (sp (bytes (Scope_String (paScope p))) (paName p)) (paExpr p)).
Definition renderPatch (p : PatchProfile) : written :=
  match paScope p with
  | ScopeFile | ScopeGlobal => let '(d, a) := patchArg p in inr (line_ d a)
  | ScopeRequest => inl ("writer: @patch " +:+ GoStd.quote (str (paName p)) +:+ " scope must be file or global")
  end.
Definition renderPatches (ps : list PatchProfile) : written := allOf (map renderPatch ps).

Definition applyArg (a : ApplySpec) : string * bytestr :=
  ("apply", if bool_decide (apUses a = []) then apExpr a
            else joinWith (bytes ", ") (map (fun n => bytes "use=" ++ n) (apUses a))).

Definition captureArg (c : CaptureSpec) : string * bytestr :=
  ("capture", sp (sp (bytes (scopeToken (capScope c) (capSecret c))) (capName c)) (capExpr c)).

Definition assertMessage (msg : bytestr) : bytestr :=
  if bool_decide (msg = []) then []
  else if negb (bool_decide (TrimQuotes msg = msg)) || negb (bool_decide (trim msg = msg)) then DQUOTE :: msg ++ [DQUOTE]
  else msg.
Definition assertArg (a : AssertSpec) : string * bytestr :=
  let msg := assertMessage (asMessage a) in
  ("assert", if bool_decide (msg = []) then asExpr a else sp (sp (asExpr a) (bytes "=>")) msg).

(** ** writer.go *)

Definition renderHeader (text : bytestr) : bytestr :=
  let text := trim text in
  if bool_decide (text = []) then []
  else mjoin (map (fun line => bytes "# " ++ trim line ++ [LF]) (splitAt LF text)) ++ [LF].

Definition renderScopeVariables (vars : list VarDecl) : bytestr :=
  mjoin (map (fun v =>
    let val := trim (vValue v) in
    if bool_decide (vScope v = ScopeGlobal)
    then line_ (if vSecret v then "global-secret" else "global") (sp (vName v) val)
    else line_ "var" (sp (sp (bytes (scopeToken (vScope v) (vSecret v))) (vName v)) val)) vars).

Definition renderSettings (set : gmap string bytestr) : bytestr :=
  mjoin (map (fun key => let val := trim (default [] (set !! key)) in
    if bool_decide (val = []) then [] else line_ "setting" (sp (bytes key) val)) (sorted_keys set)).

Definition renderLoggingDirectives (m : Rq.Metadata) : bytestr :=
  (if Rq.NoLog m then line_ "no-log" [] else []) ++
  (if Rq.AllowSensitiveHeaders m then line_ "log-sensitive-headers" (bytes "true") else []).

(** restfile: [ReservedAuthWord] *)
Definition authKeywords : list string := ["basic"; "bearer"; "apikey"; "command"; "oauth2"].
Definition ReservedAuthWord (word : string) : bool :=
  let word := TrimSpace word in
  EqualFold word AuthDisableWord || bool_decide (is_Some (ParseScope word)) || bool_decide (authKind word ∈ authKeywords).

Definition oauthParamOrder : list string :=
  ["token_url"; "auth_url"; "redirect_uri"; "client_id"; "client_secret"; "scope"; "audience"; "resource"; "grant"; "username";
   "password"; "client_auth"; "cache_key"; "code_verifier"; "code_challenge_method"; "state"].
Definition commandParamOrder : list string :=
  ["argv"; "format"; "header"; "scheme"; "token_path"; "type_path"; "expiry_path"; "expires_in_path"; "cache_key"; "ttl"; "timeout"].

Definition formatAuthParam (key : string) (val : bytestr) : bytestr :=
  let val := if negb (bool_decide (" "%char ∈ val)) && negb (bool_decide (TAB ∈ val)) then val
             else if negb (bool_decide (SQUOTE ∈ val)) then SQUOTE :: val ++ [SQUOTE]
             else if negb (bool_decide (DQUOTE ∈ val)) then DQUOTE :: val ++ [DQUOTE] else val in
  bytes key ++ EQ :: val.

(** [strings.ReplaceAll(key, "-", "_")] *)
Definition underscores (key : string) : string := str (map (fun c => if bool_decide (c = "-"%char) then "_"%char else c) (bytes key)).

Definition formatOrderedParams (params : gmap string string) (ordered : list string) : list bytestr :=
  let val key := trim (bytes (default "" (params !! key))) in
  let seen := List.filter (fun key => negb (bool_decide (val key = []))) ordered in
  let extra := omap (fun kv : string * string =>
    let lower := ToLower (underscores kv.1) in
    let v := trim (bytes kv.2) in
    if bool_decide (lower ∈ seen) || bool_decide (v = []) then None else Some (str (formatAuthParam lower v))) (map_to_list params) in
  map (fun key => formatAuthParam key (val key)) seen ++ map bytes (sort_strings extra).

Definition authFormArgs (kind : string) (params : list bytestr) : string + list bytestr :=
  if bool_decide (params = []) then inl ("writer: @auth " +:+ kind +:+ " has no parameters") else inr (bytes kind :: params).

Definition authArgs (auth : AuthSpec) : string + list bytestr :=
  let p key := trim (bytes (default "" (auParams auth !! key))) in
  let or v d := if bool_decide (v = []) then bytes d else v in
  let kind := authKind (auType auth) in
  if bool_decide (kind = "basic") then inr [bytes "basic"; p "username"; p "password"]
  else if bool_decide (kind = "bearer") then inr [bytes "bearer"; p "token"]
  else if bool_decide (kind = "apikey") then inr [bytes "apikey"; or (p "placement") "header"; or (p "name") "X-API-Key"; p "value"]
  else if bool_decide (kind = "header") then
    let name := p "header" in
    let value := p "value" in
    if bool_decide (name = []) then inl "writer: @auth custom header form has no header name"
    else if bool_decide (value = []) then inl ("writer: @auth custom header " +:+ GoStd.quote (str name) +:+ " has no value")
    else if ReservedAuthWord (str name)
         then inl ("writer: @auth custom header " +:+ GoStd.quote (str name) +:+ " would be read back as a different form")
    else inr [name; value]
  else if bool_decide (kind = "oauth2") then authFormArgs kind (formatOrderedParams (auParams auth) oauthParamOrder)
  else if bool_decide (kind = "command") then authFormArgs kind (formatOrderedParams (auParams auth) commandParamOrder)
  else inl ("writer: @auth type " +:+ GoStd.quote (auType auth) +:+ " cannot be written").

Definition renderAuth (auth : option AuthSpec) : written :=
  match auth with
  | None => inr []
  | Some a => match authArgs a with
              | inl e => inl e
              | inr args => inr (if bool_decide (args = []) then [] else line_ "auth" (joinWith [" "%char] args))
              end
  end.

Definition renderRequestVariables (vars : list VarDecl) : bytestr :=
  mjoin (map (fun v =>
    if bool_decide (vScope v = ScopeRequest) then
      let arg := sp (bytes (scopeToken (vScope v) (vSecret v))) (vName v) in
      let val := trim (vValue v) in
      line_ "var" (if bool_decide (val = []) then arg else sp arg val)
    else []) vars).

(** An inline body whose first line reads as a reference to a file *)
Definition bodyTextNeedsInlineDirective (b : Rq.Body) : bool :=
  if negb (bool_decide (trim (Rq.FilePath b) = [])) then false
  else
    let text := trim (Rq.Text b) in
    if bool_decide (text = []) then false
    else bool_decide (is_Some (BodyRef.Parse (default [] (head (splitAt LF text))) BodyRef.Line false)).

Definition renderBodyOptions (b : Rq.Body) : bytestr :=
  (if Rq.ExpandTemplates (Rq.Options b) then line_ "body" (bytes "expand") else []) ++
  (if Rq.ForceInline (Rq.Options b) || bodyTextNeedsInlineDirective b then line_ "body" (bytes "inline") else []).

Definition renderHeaders (hdr : gmap string (list bytestr)) : bytestr :=
  mjoin (map (fun name => mjoin (map (fun val => bytes name ++ bytes ": " ++ val ++ [LF]) (default [] (hdr !! name)))) (sorted_keys hdr)).

Definition renderBody (b : Rq.Body) : bytestr :=
  if negb (bool_decide (Rq.FilePath b = [])) then bytes "< " ++ trim (Rq.FilePath b) ++ [LF]
  else if negb (bool_decide (trim (Rq.Text b) = []))
       then Rq.Text b ++ (if bool_decide (List.last (Rq.Text b) NUL = LF) then [] else [LF]) else [].

Section requests.
Context {tunnels : Tunnels}.

Definition reqLine (req : Rq.Request) : bytestr :=
  let m := bytes (ToUpper (TrimSpace (str (Rq.Method req)))) in
  sp (if bool_decide (m = []) then bytes "GET" else m) (trim (Rq.URL req)) ++ [LF].

Definition requestTitle (req : Rq.Request) : bytestr :=
  let name := Rq.Name (Rq.rMetadata req) in
  if bool_decide (name = []) then sp (bytes (ToUpper (str (Rq.Method req)))) (Rq.URL req) else name.

Definition renderRequest (req : Rq.Request) : written :=
  let m := Rq.rMetadata req in
  andThen (inr (title (requestTitle req) ++ (if bool_decide (Rq.Name m = []) then [] else line_ "name" (Rq.Name m)) ++
      Wb.renderDescription (Rq.Description m) ++ Wb.renderTags (Rq.Tags m) ++ renderLoggingDirectives m))
    (andThen (renderAuth (Rq.Auth m))
      (inr (renderSettings (Rq.rSettings req) ++ renderRequestVariables (Rq.rVariables req) ++
        writeOne Wb.conditionArg (Rq.When m) ++ writeOne Wb.stepForEachArg (Rq.ForEach m) ++ writeEach applyArg (Rq.Applies m) ++
        writeEach captureArg (Rq.Captures m) ++ writeEach assertArg (Rq.Asserts m) ++ renderBodyOptions (Rq.rBody req) ++
        reqLine req ++ renderHeaders (Rq.Headers req) ++ [LF] ++ renderBody (Rq.rBody req)))).
End requests.

(** ** body.go *)

Definition maxBodyLineLen : N := 1048576.

(** [utf8.ValidString] *)
Fixpoint validLoop (fuel : nat) (l : bytestr) : bool :=
  match fuel, l with
  | S fuel', _ :: _ => match decode_rune l with Some (_, n) => validLoop fuel' (drop n l) | None => false end
  | _, _ => true
  end.
Definition ValidString (l : bytestr) : bool := validLoop (length l) l.

(** [unicode.IsControl]: the category Cc *)
Definition IsControl (r : rune) : bool :=
  match r with
  | [c] => (byte_val c <? 32)%N || (byte_val c =? 127)%N
  | [a; b] => (byte_val a =? 194)%N && (128 <=? byte_val b)%N && (byte_val b <=? 159)%N
  | _ => false
  end.
Definition isBodyControl (r : rune) : bool := IsControl r && negb (isChar TAB r).

Definition lineError (line : bytestr) : option string :=
  if (maxBodyLineLen <=? N.of_nat (length line))%N then Some "body contains a line longer than the parser limit"
  else if hasPrefix (bytes "###") (trim line) then Some "body contains a request separator"
  else if bool_decide (is_Some (cutFunc isBodyControl line)) then Some "body contains control characters"
  else None.
Definition CheckInlineBody (body : bytestr) : written :=
  if negb (ValidString body) then inl "body is not valid UTF-8"
  else
    let body := replaceCRLF body in
    match omap lineError (splitAt LF body) with e :: _ => inl e | [] => inr body end.

Definition CheckMockBody (body : bytestr) : written :=
  match CheckInlineBody body with
  | inl e => inl e
  | inr [] => inr []
  | inr body =>
      match splitAt LF body with
      | first :: rest =>
          if bool_decide (is_Some (BodyRef.Parse first BodyRef.Line false)) && Mb.AllBlank rest
          then inl "mock body looks like a file reference" else inr body
      | [] => inr body
      end
  end.

(** ** mock.go *)

Section mocks.
Context {lib : HttpLib} {tunnels : Tunnels} {parsers : MockParsers} {writer : MockWriter}.

(** restfile: [CheckShape], [ResponseAllowsBody] *)
Definition CheckShape (m : Mb.Mock) : option string :=
  let keyed := bool_decide (is_Some (Mb.mKey m)) in
  let sequence := negb (bool_decide (Mb.Sequence m = "")) in
  if negb (bool_decide (Mb.Name m = "")) && sequence then Some "mock name and sequence cannot be combined"
  else if keyed && bool_decide (from_option SequenceKey_String "" (Mb.mKey m) = "") then Some "mock sequence key is invalid"
  else if keyed && negb sequence then Some "mock sequence key requires a sequence"
  else if negb sequence && negb (length (Mb.Responses m) =? 1) then Some "mock must define exactly one response"
  else if sequence && (length (Mb.Responses m) <? 2) then Some "mock sequence must define at least two responses"
  else None.
Definition ResponseAllowsBody (status : Z) : bool := negb (bool_decide (status ∈ [204; 205; 304]%Z)).

Definition writeTitle (m : Mb.Mock) : bytestr :=
  let t := joinWith [" "%char] (fields (Mb.Title m)) in
  title (if bool_decide (t = []) then bytes ("Mock " +:+ ToUpper (Mb.Method m) +:+ " " +:+ Mb.Path m) else t).

Definition opt (key value : string) : bytestr := option_ (bytes key) (bytes value).
Definition optUnlessEmpty (key value : string) : bytestr := if bool_decide (value = "") then [] else opt key value.

Definition writeDeclaration (m : Mb.Mock) : bytestr :=
  head_ "mock" [] ++ opt "method" (ToUpper (TrimSpace (Mb.Method m))) ++ opt "path" (TrimSpace (Mb.Path m)) ++
  (if negb (bool_decide (Mb.Sequence m = ""))
   then opt "sequence" (Mb.Sequence m) ++ optUnlessEmpty "sequence-key" (from_option SequenceKey_String "" (Mb.mKey m))
   else optUnlessEmpty "name" (Mb.Name m)) ++
  (if Mb.Default m then opt "default" "true" else []) ++
  optUnlessEmpty "latency" (from_option Delay_String "" (Mb.Latency m)) ++
  (if Mb.DisableInterpolation m then opt "interpolate" "false" else []) ++ [LF].

Definition writeExpectation (e : option (Z * Z)) : bytestr :=
  match e with Some (calls, _) => head_ "expect" [] ++ opt "calls" (itoa calls) ++ [LF] | None => [] end.

(** Conditions are what has fields. *)
Definition writeMatch (m : Match) : written :=
  match matchFields m with
  | inl e => inl e
  | inr fs => inr (if bool_decide (fs = []) then [] else line_ "match" (joinWith [" "%char] fs))
  end.

Definition writeStatusLine (status : Z) : bytestr :=
  bytes ("HTTP/1.1 " +:+ itoa status +:+ (if bool_decide (StatusText status = "") then "" else " " +:+ StatusText status)) ++ [LF].

(** The file, or the text, with what follows the blank line. *)
Definition responseBody (sequence : bool) (r : Mb.Response) : written :=
  let file := trim (Mb.FilePath (Mb.rBody r)) in
  if negb (bool_decide (file = [])) then inr (bytes "< " ++ file ++ [LF])
  else if bool_decide (Mb.Text (Mb.rBody r) = []) then inr []
  else if negb (ResponseAllowsBody (Mb.Status r)) then inl ("status " +:+ itoa (Mb.Status r) +:+ " cannot have a response body")
  else match CheckMockBody (Mb.Text (Mb.rBody r)) with
       | inl e => inl e
       | inr body =>
           if sequence && existsb Mb.IsMockSequenceDelimiter (splitAt LF body)
           then inl "mock sequence body contains a response delimiter"
           else inr (if bool_decide (body = []) then [] else body ++ [LF])
       end.
Definition writeResponse (sequence : bool) (r : Mb.Response) : written :=
  match responseBody sequence r with
  | inl e => inl e
  | inr body => inr (writeStatusLine (Mb.Status r) ++ renderHeaders (Mb.Headers r) ++ [LF] ++ body)
  end.
Fixpoint writeResponses (sequence first : bool) (rs : list Mb.Response) : written :=
  match rs with
  | [] => inr []
  | r :: rs' => andThen (inr (if first then [] else bytes "---" ++ [LF])) (andThen (writeResponse sequence r) (writeResponses sequence false rs'))
  end.

Definition renderMock (m : Mb.Mock) : written :=
  match CheckShape m with
  | Some e => inl ("writer: " +:+ e)
  | None =>
      match andThen (inr (writeTitle m ++ writeDeclaration m ++ writeExpectation (Mb.Expectation m)))
          (andThen (writeMatch (Mb.mMatch m)) (writeResponses (negb (bool_decide (Mb.Sequence m = ""))) true (Mb.Responses m))) with
      | inl e => inl ("writer: " +:+ e)
      | inr t => inr t
      end
  end.

(** ** Render *)

(** Blocks with an empty line between them, [n] having been written before. *)
Fixpoint blocks (n : nat) (bs : list written) : written :=
  match bs with
  | [] => inr []
  | b :: bs' => andThen (inr (if 0 <? n then [LF] else [])) (andThen b (blocks (S n) bs'))
  end.

Definition Render (d : Doc.Document) (headerComment : bytestr) : written :=
  let preamble := length (Doc.Variables d) + length (Doc.Globals d) + size (Doc.Settings d) + length (Doc.Patches d) in
  let n := length (Doc.Requests d) + length (Doc.Mocks d) in
  let workflows := map (fun w => inr (Wb.RenderWorkflow w "workflow" ++ [LF])) (Doc.Workflows d) in
  andThen (inr (renderHeader headerComment ++ renderScopeVariables (Doc.Variables d) ++ renderScopeVariables (Doc.Globals d) ++
      renderSettings (Doc.Settings d)))
    (andThen (renderPatches (Doc.Patches d))
      (andThen (inr (if 0 <? preamble then [LF] else []))
        (andThen (blocks 0 (map renderRequest (Doc.Requests d) ++ map renderMock (Doc.Mocks d)))
          (andThen (inr (if (0 <? n) && negb (bool_decide (Doc.Workflows d = [])) then LF :: bytes "###" ++ [LF] else []))
            (blocks n workflows))))).
End mocks.
End unicode.
End Rw.
