(* ===== verification/WriterFacts.v ===== *)
(** * Written requests are read back

    The lines that [Rw.renderRequest] writes, run through the parser of Document.v:
    each kind of line of a directive makes one step of its state, and together they
    say of a request what was written ([directives_move]).  WriterRead.v goes on
    with the other lines. *)
From stdpp Require Import base list strings gmap.
From Stdlib Require Import Ascii ZArith Lia.
From S2P Require Import Prelude GoStd GoPath Names Text DotEnv Directive DirectiveFacts Workflow Catalog CatalogFacts WorkflowText Lines Protocols Specs Requests MockText Document DocumentFacts RestWriter.

Open Scope string_scope.
Open Scope nat_scope.
Open Scope list_scope.

(** What package strings makes of ASCII letters. *)
Definition isLower (c : Ascii.ascii) : bool := ((97 <=? byte_val c) && (byte_val c <=? 122))%N || bool_decide (c = "-"%char).
Definition isUpper (c : Ascii.ascii) : bool := ((65 <=? byte_val c) && (byte_val c <=? 90))%N.
Record AsciiCase {unicode : Unicode} {tables : UnicodeTables} : Prop := {
  lower_text : forall s, forallb isLower (bytes s) = true -> ToLower s = s;
  upper_text : forall s, forallb isUpper (bytes s) = true -> ToUpper s = s;
  fold_letters : forall a b, forallb Directive.isAlpha (bytes a) = true -> forallb Directive.isAlpha (bytes b) = true ->
    EqualFold a b = bool_decide (Names.lowerASCII a = Names.lowerASCII b)
}.
#[global] Arguments AsciiCase : clear implicits.

(** ** Texts *)

Lemma headRune_space l : cutAny spaces l = None -> IsSpace (headRune l).1 = false.
Proof.
  intros Hl. apply bool_decide_eq_false. unfold headRune. destruct (decode_rune l) as [[v n]|]; [|by vm_compute; set_solver].
  cbn [fst]. intros Hs. assert (forall ws, take n l ∈ ws -> cutAny ws l <> None) as H; [|by apply (H spaces)].
  clear. induction ws as [|w ws IH]; [by intros []%elem_of_nil|]. cbn [cutAny]. destruct (cut w l) eqn:E; [done|].
  intros [<-|Hw]%elem_of_cons; [|by apply IH]. exfalso. revert E. clear. rewrite <- (take_drop n l) at 2.
  generalize (take n l). intros w. induction w as [|a w IH]; cbn; [done|]. by rewrite bool_decide_eq_true_2.
Qed.

Lemma trimLeftFunc_head p l : p (headRune l).1 = false -> trimLeftFunc p l = l.
Proof. unfold trimLeftFunc. destruct l as [|c l]; [done|]. cbn [length trimLeftLoop]. destruct (headRune (c :: l)) as [r n]. cbn. by intros ->. Qed.

Lemma trimRightSpace_trimmed l : trim l = l -> trimRightSpace l = l.
Proof. intros [_ H]%trim_fixed. unfold trimRightSpace. rewrite trimFront_None by done. apply rev_involutive. Qed.

(** An argument of a directive that is read as it stands *)
Definition argText (arg : bytestr) : Prop := arg <> [] /\ trim arg = arg /\ head arg <> Some ":"%char /\ LF ∉ arg.

Lemma argText_sep arg : argText arg -> trimLeftFunc Directive.IsArgSep arg = arg.
Proof.
  intros (Hne & Ht & Hc & _). apply trimLeftFunc_head. unfold Directive.IsArgSep. rewrite headRune_space by by apply trim_fixed.
  rewrite orb_false_r. apply bool_decide_eq_false. unfold headRune. destruct (decode_rune arg) as [[v n]|]; [|done]. cbn. intros E.
  destruct arg as [|c arg]; [done|]. destruct n; [done|]. cbn in E. injection E as -> _. by apply Hc.
Qed.

(** ** Words of directives *)

Section words.
Import Directive.

(** A rune that the lexer of directives takes as it is, and words of them *)
Definition wordRune (r : rune) : Prop :=
  validRune r /\ r ∉ spaces /\ Forall (fun c => r <> [c]) [DQUOTE; SQUOTE; LBRACK; LCURLY; LPAREN].
Definition plainWord (w : bytestr) : Prop := exists rs, rs <> [] /\ Forall wordRune rs /\ w = mjoin rs.

Lemma feed_word l r : DirectiveFacts.idle l -> escapes l = false -> wordRune r -> feed r l = Some (write r (name r l)).
Proof.
  intros (Hc & He & Hq) Hesc (_ & Hs & Hch). unfold feed. rewrite Hc, He, Hq, Hesc. cbn.
  assert (opens l r = false) as ->.
  { unfold opens, isChar. rewrite !Forall_cons in Hch. destruct Hch as (_ & _ & H1 & H2 & H3 & _).
    by rewrite !(bool_decide_eq_false_2 (r = _)) by done. }
  unfold isChar, IsSpace. rewrite !Forall_cons in Hch. destruct Hch as (H1 & H2 & _).
  by rewrite !(bool_decide_eq_false_2 (r = _)), (bool_decide_eq_false_2 (r ∈ spaces)) by done.
Qed.

Lemma run_word l i rs t : DirectiveFacts.idle l -> escapes l = false -> Forall wordRune rs ->
  exists l', run l i (mjoin rs ++ t) = run l' (i + length (mjoin rs)) t /\ DirectiveFacts.idle l' /\ same l l' /\ tok l' = tok l ++ mjoin rs.
Proof.
  intros Hid Hesc Hrs. revert l i Hid Hesc. induction Hrs as [|r rs Hr _ IH]; intros l i Hid Hesc.
  - exists l. rewrite Nat.add_0_r, app_nil_r. by split_and!.
  - change (mjoin (r :: rs)) with (r ++ mjoin rs). rewrite <- app_assoc, run_rune by apply Hr.
    destruct (begin_eqs i r l) as (Ht & _ & _ & Hc & He & Hq). destruct (same_begin i r l) as [Hsrc Hesc'].
    assert (Hidb : DirectiveFacts.idle (begin i r l)) by (destruct Hid as (? & ? & ?); split_and!; congruence).
    rewrite feed_word by (done || congruence).
    destruct (name_eqs r (begin i r l)) as (Ht1 & Hs1 & He1 & Hc1 & Hx1 & Hq1).
    destruct (IH (write r (name r (begin i r l))) (i + length r)) as (l' & Hrun & Hid' & [Hs2 He2] & Htok).
    + destruct Hidb as (? & ? & ?). split_and!; simpl; congruence.
    + simpl. congruence.
    + exists l'. rewrite Hrun, length_app, Nat.add_assoc. split_and!; [done..| |].
      * split; simpl in *; congruence.
      * rewrite Htok. simpl. rewrite Ht1, Ht. by rewrite app_assoc.
Qed.

Definition spaced (ws : list bytestr) : bytestr := joinWith SP ws.
Definition behind (ws : list bytestr) : bytestr := match ws with [] => [] | _ => SP ++ spaced ws end.

Lemma spaced_cons w ws : spaced (w :: ws) = w ++ behind ws.
Proof. destruct ws; [symmetry; apply app_nil_r|done]. Qed.

Lemma next_word l pre w ws : (pre = [] \/ pre = SP) -> escapes l = false -> plainWord w ->
  drop (pos l) (src l) = pre ++ w ++ behind ws ->
  exists t l', next l = (Some t, l') /\ val t = w /\ src l' = src l /\ escapes l' = false /\ drop (pos l') (src l') = spaced ws.
Proof.
  intros Hpre Hesc (rs & Hne & Hrs & ->) Hd. rewrite next_run, Hd. destruct (reset_fresh l) as (Hid & _ & Htok & [Hs He]).
  set (j := pos l + length pre). rewrite <- He in Hesc.
  assert (run (reset l) (pos l) (pre ++ mjoin rs ++ behind ws) = run (reset l) j (mjoin rs ++ behind ws)) as ->.
  { unfold j. destruct Hpre as [-> | ->]; [by rewrite Nat.add_0_r|]. by apply run_skip. }
  destruct (run_word (reset l) j rs (behind ws) Hid Hesc Hrs) as (l' & -> & Hid' & [Hs' He'] & Ht'). rewrite Htok in Ht'. cbn [app] in Ht'.
  assert (Hn : tok l' <> []).
  { rewrite Ht'. destruct rs as [|r rs]; [done|]. apply Forall_cons in Hrs as [[[Hr _] _] _].
    intros E. change (mjoin (r :: rs)) with (r ++ mjoin rs) in E. by apply app_eq_nil in E as [-> _]. }
  destruct ws as [|w ws]; cbn [behind].
  - rewrite run_end by done. exists (mkToken (tok l') (start l') (length (src l'))), (set_pos (length (src l')) l').
    split_and!; [done|done|simpl; congruence|simpl; congruence|]. simpl. by rewrite drop_all.
  - destruct (run_space l' (j + length (mjoin rs)) (spaced (w :: ws)) Hid' Hn) as (l2 & -> & _ & [Hs2 He2] & Hp2).
    eexists _, l2. split_and!; [done|done|congruence|congruence|]. rewrite Hp2, Hs2, Hs', Hs. unfold j.
    rewrite <- !Nat.add_assoc, <- drop_drop, Hd. cbn [behind].
    assert (length pre + (length (mjoin rs) + 1) = length (pre ++ mjoin rs ++ SP)) as -> by (rewrite !length_app; simpl; lia).
    rewrite !app_assoc, <- (app_assoc pre). apply drop_app_length.
Qed.

Lemma tokens_words ws : forall l fuel, Forall plainWord ws -> escapes l = false -> drop (pos l) (src l) = spaced ws -> length ws < fuel ->
  map (fun t : token * lexer => val t.1) (tokens fuel l) = ws.
Proof.
  induction ws as [|w ws IH]; intros l fuel Hok Hesc Hd Hf; (destruct fuel; [lia|]); cbn [tokens].
  - rewrite next_run, Hd. by cbn.
  - apply Forall_cons in Hok as [Hw Hok]. rewrite spaced_cons in Hd.
    destruct (next_word l [] w ws) as (t & l' & -> & Ht & Hs & He & Hd'); [by left|done..|]. cbn [map fst]. f_equal; [done|].
    apply IH; [done..|simpl in Hf; lia].
Qed.

Lemma Fields_words ws : Forall plainWord ws -> Fields (spaced ws) = ws.
Proof.
  intros Hws. apply tokens_words; [done..|].
  assert (length ws <= length (spaced ws)); [|simpl; lia]. induction Hws as [|w ws (rs & Hne & Hrs & ->) _ IH]; [simpl; lia|].
  rewrite spaced_cons, length_app. destruct rs as [|r rs]; [done|]. apply Forall_cons in Hrs as [[[Hr _] _] _].
  change (mjoin (r :: rs)) with (r ++ mjoin rs). rewrite length_app. destruct r; [done|]. destruct ws; simpl in *; lia.
Qed.

Lemma validRune_byte (c : Ascii.ascii) r : validRune r -> c ∈ r -> (byte_val c < 128)%N -> r = [c].
Proof.
  intros Hv Hc Hb. destruct r as [|b r]; [by apply elem_of_nil in Hc|]. destruct (validRune_bytes b r Hv) as [_ Hr].
  apply elem_of_cons in Hc as [->|Hc].
  - f_equal. by apply (valid_ascii b).
  - rewrite Forall_forall in Hr. specialize (Hr c Hc). unfold contByte in Hr. apply andb_true_iff in Hr as [Hr _]. apply N.leb_le in Hr. lia.
Qed.

Lemma words_free c ws : [c] ∈ spaces -> c <> " "%char -> (byte_val c < 128)%N -> Forall plainWord ws -> c ∉ spaced ws.
Proof.
  intros Hc Hne Hb. induction 1 as [|w ws (rs & _ & Hrs & ->) Hws IH]; [by intros ?%elem_of_nil|]. rewrite spaced_cons, not_elem_of_app. split.
  - clear IH. induction Hrs as [|r rs (Hv & Hs & _) _ IH]; [by intros ?%elem_of_nil|]. change (mjoin (r :: rs)) with (r ++ mjoin rs).
    rewrite not_elem_of_app. split; [|done]. intros Hin. apply (validRune_byte c r Hv) in Hin as ->; done.
  - unfold behind. destruct ws; [by intros ?%elem_of_nil|]. rewrite not_elem_of_app. split; [|done]. by intros ?%list_elem_of_singleton.
Qed.

Lemma firstRune_space r t : validRune r -> r ∉ spaces -> cutAny spaces (r ++ t) = None.
Proof.
  intros Hv Hs. destruct (cutAny spaces (r ++ t)) as [l|] eqn:E; [|done]. exfalso. apply cutAny_Some in E as (w & Hw & E).
  assert (r = w) as ->; [|done]. assert ((r, length r) = (w, length w)) as [= ->]; [|done].
  by rewrite <- (headRune_valid r t Hv), E, headRune_valid by by apply space_valid.
Qed.

Lemma words_trim ws : ws <> [] -> Forall plainWord ws -> trim (spaced ws) = spaced ws /\ spaced ws <> [].
Proof.
  intros Hne Hws. split.
  - apply trim_fixed. split.
    + destruct Hws as [|w ws (rs & Hr & Hrs & ->) _]; [done|]. rewrite spaced_cons. destruct Hrs as [|r rs (Hv & Hs & _) _]; [done|].
      change (mjoin (r :: rs)) with (r ++ mjoin rs). rewrite <- app_assoc. by apply firstRune_space.
    + destruct ws as [|w ws _] using rev_ind; [done|]. apply Forall_app in Hws as [_ [(rs & Hr & Hrs & ->) _]%Forall_cons].
      assert (exists p, spaced (ws ++ [mjoin rs]) = p ++ mjoin rs) as [p ->].
      { clear. induction ws as [|w ws [p IH]]; [by exists []|]. cbn [app]. rewrite spaced_cons. exists (w ++ SP ++ p).
        destruct (ws ++ [mjoin rs]) eqn:E; [by destruct ws|]. cbn [behind]. rewrite IH. by rewrite <- !app_assoc. }
      destruct rs as [|r rs _] using rev_ind; [done|]. apply Forall_app in Hrs as [_ [(Hv & Hs & _) _]%Forall_cons].
      assert (mjoin (rs ++ [r]) = mjoin rs ++ r) as -> by (rewrite join_app; cbn; by rewrite app_nil_r).
      rewrite app_assoc. by apply lastRune_space.
  - destruct Hws as [|w ws (rs & Hr & Hrs & ->) _]; [done|]. rewrite spaced_cons. destruct Hrs as [|r rs ([Hv _] & _) _]; [done|].
    change (mjoin (r :: rs)) with (r ++ mjoin rs). by destruct r.
Qed.

Lemma word_trim w : plainWord w -> trim w = w /\ w <> [].
Proof. intros Hw. by apply (words_trim [w]); [|constructor]. Qed.

Lemma spaced_snoc ws vs : vs <> [] -> spaced (ws ++ [spaced vs]) = spaced (ws ++ vs).
Proof.
  intros Hv. induction ws as [|w ws IH]; [done|]. cbn [app]. rewrite !spaced_cons. f_equal. unfold behind. rewrite IH.
  destruct ws; [by destruct vs|done].
Qed.

Lemma ascii_word s : bytes s <> [] ->
  forallb (fun c => (byte_val c <? 128)%N && negb (bool_decide ([c] ∈ spaces)) && negb (bool_decide (c ∈ [DQUOTE; SQUOTE; LBRACK; LCURLY; LPAREN]))) (bytes s) = true ->
  plainWord (bytes s).
Proof.
  intros Hne H. exists (map (fun c => [c]) (bytes s)). split; [by destruct (bytes s)|]. split; [|symmetry; apply mjoin_singles].
  apply Forall_map, Forall_forall. intros c Hc. rewrite forallb_forall in H. specialize (H c (proj1 (list_elem_of_In _ _) Hc)).
  rewrite !andb_true_iff, !negb_true_iff, !bool_decide_eq_false, N.ltb_lt in H. destruct H as [[Hb Hs] Hq].
  split_and!; [by apply validRune_ascii|done|]. apply Forall_forall. intros x Hx [= ->]. done.
Qed.
End words.

(** The branch of a kind, and the parameters it looks up *)
Ltac kind_cases :=
  repeat (first [rewrite (bool_decide_eq_false_2 (@eq string _ _)) by done | rewrite (bool_decide_eq_true_2 (@eq string _ _)) by done]; cbn iota).
Ltac param_cases :=
  cbv zeta; repeat match goal with |- context [default "" (?m !! ?k)] =>
    first [rewrite (lookup_insert_eq (M := gmap string) _ k)|rewrite (lookup_singleton_eq (M := gmap string) k)|rewrite (lookup_insert_ne (M := gmap string)) by done] end;
  cbn [default from_option id].

(** ** Lines *)

Section lines.
Context {unicode : Unicode} {tables : UnicodeTables} {lib : HttpLib} {tunnels : Tunnels} {parsers : MockParsers} {writer : Rw.MockWriter}
  (iter : Catalog.Iter).
Import Doc.

(** The text of a directive's line behind its comment marker *)
Definition callText (d : string) (arg : bytestr) : bytestr := bytes (Directive.Tag d) ++ (if bool_decide (arg = []) then [] else SP ++ arg).

Lemma head_text d arg : LF ∉ arg -> Directive.head_ d arg = "#"%char :: " "%char :: callText d arg.
Proof.
  intros Hl. unfold Directive.head_, callText. change (bytes (Directive.Comment d)) with ("#"%char :: " "%char :: bytes (Directive.Tag d)).
  cbn [app]. do 3 f_equal. case_bool_decide; [done|]. unfold SP, Directive.commentLines. rewrite splitAt_none by done.
  cbn [map mjoin list_join app]. by rewrite app_nil_r.
Qed.

Definition okDirective (d : string) : Prop := keyText (bytes d) /\ trim (bytes d) = bytes d /\ ToLower d = d.

Lemma trim_tag c d arg : noSpaceByte c = true -> bytes d <> [] -> trim (bytes d) = bytes d -> arg = [] \/ argText arg ->
  trim (c :: " "%char :: callText d arg) = c :: " "%char :: callText d arg /\ trim (callText d arg) = callText d arg.
Proof.
  intros Hc Hne Hd Harg. unfold callText. change (bytes (Directive.Tag d)) with ("@"%char :: bytes d).
  destruct Harg as [->|(Ha & Ht & _)].
  - rewrite bool_decide_eq_true_2, app_nil_r by done.
    assert (H : trim ("@"%char :: bytes d) = "@"%char :: bytes d).
    { apply trim_fixed in Hd as [_ Hd]. apply trim_fixed. split; [by apply cutAny_first|]. cbn [rev]. apply cutAny_stop; [|done].
      apply (bool_decide_unpack _). vm_compute. done. }
    split; [|done]. apply (trim_around c [] ("@"%char :: bytes d)); done.
  - rewrite bool_decide_eq_false_2 by done. cbn [app]. unfold SP. cbn [app]. split.
    + apply (trim_around c (" "%char :: "@"%char :: bytes d) arg); done.
    + by apply (trim_around "@"%char (bytes d) arg).
Qed.

(** A line of a directive is a comment with its call. *)
Lemma directive_comment n d arg : okDirective d -> arg = [] \/ argText arg ->
  exists col off, Ln.comment (Ln.makeLine n (Directive.head_ d arg)) = Some (callText d arg, col) /\
    Directive.Parse (callText d arg) = Some (Directive.mkCall (Directive.Canonical d) d arg off).
Proof.
  intros (Hk & Hd & Hlow) Harg. assert (Hl : LF ∉ arg) by (destruct Harg as [->|(_ & _ & _ & ?)]; [by intros ?%elem_of_nil|done]).
  assert (Hne : bytes d <> []) by apply Hk.
  destruct (trim_tag "#"%char d arg ltac:(reflexivity) Hne Hd Harg) as [H1 H2]. rewrite head_text by done.
  assert (Hs : Ln.stripComment ("#"%char :: " "%char :: callText d arg) =
    Some (callText d arg, 1 + (S (length (callText d arg)) - length (trimBlanksLeft (callText d arg))) + 1)).
  { unfold Ln.stripComment. cbn [hasPrefix]. assert (hasPrefix (bytes "//") ("#"%char :: " "%char :: callText d arg) = false) as -> by done.
    assert (hasPrefix (bytes "#") ("#"%char :: " "%char :: callText d arg) = true) as -> by done. cbn iota. cbn [drop].
    rewrite trim_space by done. do 3 f_equal. }
  unfold Ln.comment, Ln.makeLine. cbn [Ln.text Ln.raw]. rewrite H1, Hs.
  destruct Harg as [->|Ha].
  - eexists _, _. split; [reflexivity|]. unfold callText. rewrite bool_decide_eq_true_2, app_nil_r by done. by apply Parse_bare.
  - eexists _, _. split; [reflexivity|]. unfold callText. rewrite bool_decide_eq_false_2 by apply Ha.
    apply Parse_text; [done..|by apply argText_sep|]. apply trimRightSpace_trimmed, Ha.
Qed.

(** ** The states on the way *)

(** Between lines of written requests: what is done, the settings of the document
    and of the section, and the request in progress. *)
Definition st (rs : list Rq.Request) (ds fs : gmap string bytestr) (ti : bytestr) (rb : option Rq.builder) : St :=
  mkSt (mkDoc rs [] [] [] [] [] [] [] [] [] [] [] [] ds) rb None None None [] ti (mkFile [] [] fs [] [] [] [] [] []) false false 0.
Definition bld (a : Z) (o : list bytestr) (m : Rq.Metadata) (s : gmap string bytestr) (h : Http.Builder) (bo : Rq.BodyOptions)
    (mp : option Rq.multipartSpan) (dec : gset string) : Rq.builder :=
  Rq.mkR a m [] o "test" "js" false Rq.noScript s h GraphQL.New GRPC.New SSE.New WebSocket.New bo mp None None dec.
Definition built (rb : option Rq.builder) : Prop :=
  match rb with None => True | Some r => exists a o m s h bo mp dec, r = bld a o m s h bo mp dec end.

Lemma run_line n l rs ds fs ti rb : built rb -> Ln.isScriptBlockStart (Ln.makeLine n l) = false ->
  processLine iter n l (st rs ds fs ti rb) =
  match firstHandler (lineHandlers iter) (Ln.makeLine n l) (st rs ds fs ti rb) with
  | (true, b) => b | (false, b) => handleDescriptionLine (Ln.makeLine n l) b end.
Proof.
  intros Hb Hs. unfold processLine. cbv zeta. change (closeOpenDirective (Ln.makeLine n l) (st rs ds fs ti rb)) with (st rs ds fs ti rb).
  change (mock (st rs ds fs ti rb)) with (@None Mb.builder). cbn iota.
  change (inBlock (st rs ds fs ti rb)) with false. change (inScriptBlock (st rs ds fs ti rb)) with false. cbn iota.
  unfold handleScriptBlockStart. rewrite Hs. cbn [negb].
  assert (flushScriptIfNeeded (Ln.makeLine n l) (st rs ds fs ti rb) = st rs ds fs ti rb) as ->; [|done].
  unfold flushScriptIfNeeded. destruct (Ln.hasScriptMarker _); [done|].
  destruct rb as [r|]; [|done]. destruct Hb as (a & o & m & s & h & bo & mp & dec & ->). done.
Qed.

(** *** Directives *)

Definition act (d : parsedDirective) (b : St) : St :=
  match redeclared d b with
  | (true, b) => b
  | (false, b) => match routeDirective iter d b with (Applied, b) => markDeclared d b | (_, b) => b end
  end.

Lemma directive_step n d arg rs ds fs ti rb :
  okDirective d -> arg = [] \/ argText arg -> Directive.Canonical d = d -> Directive.continuationOf d = Directive.ContinueNone ->
  built rb -> from_option (fun r => Rq.multipart r = None) True rb ->
  exists off, processLine iter n (Directive.head_ d arg) (st rs ds fs ti rb) =
    appendLine (Directive.head_ d arg) (flushOpenLines (act (mkPD (Directive.mkCall d d arg off) (n, n)) (st rs ds fs ti rb))).
Proof.
  intros Hd Harg Hcan Hcont Hb Hmp. destruct (directive_comment n d arg Hd Harg) as (col & off & Hc & Hp). exists off.
  assert (Hl : LF ∉ arg) by (destruct Harg as [->|(_ & _ & _ & ?)]; [by intros ?%elem_of_nil|done]).
  destruct (trim_tag "#"%char d arg ltac:(reflexivity) ltac:(apply Hd) ltac:(apply Hd) Harg) as [H1 _].
  rewrite head_text in * by done. set (l := "#"%char :: " "%char :: callText d arg) in *.
  assert (Ht : Ln.text (Ln.makeLine n l) = l) by done.
  rewrite run_line; [|done|].
  2:{ unfold Ln.isScriptBlockStart, Ln.hasScriptMarker. rewrite Ht. done. }
  unfold lineHandlers. cbn [firstHandler].
  assert (handleSeparator (Ln.makeLine n l) (st rs ds fs ti rb) = (false, st rs ds fs ti rb)) as ->.
  { unfold handleSeparator, Ln.isSeparator. rewrite Ht. done. }
  assert (handleMultipartBodyLine (Ln.makeLine n l) (st rs ds fs ti rb) = (false, st rs ds fs ti rb)) as ->.
  { unfold handleMultipartBodyLine. cbn [request st]. destruct rb as [r|]; [|done]. cbn in Hmp. by rewrite Hmp. }
  assert (handleBlockComment iter (Ln.makeLine n l) (st rs ds fs ti rb) = (false, st rs ds fs ti rb)) as ->.
  { unfold handleBlockComment, Ln.isBlockCommentStart. rewrite Ht. done. }
  unfold handleCommentLine. rewrite Hc. cbn [Ln.raw Ln.makeLine Ln.no]. f_equal. unfold handleComment, readDirective. rewrite Hp.
  cbn [open st]. unfold openCloser. cbn [Directive.cName Directive.cArgs]. rewrite Hcan, Hcont. cbn iota.
  rewrite bool_decide_eq_true_2 by done. done.
Qed.

(** A directive of a request, as what it does to the builder *)
Definition effect (d : parsedDirective) (f : Rq.builder -> Rq.builder) : Prop :=
  forall rs ds fs ti r, built (Some r) -> applyRequestDirective d (st rs ds fs ti (Some r)) = (Applied, st rs ds fs ti (Some (f r))).

Lemma built_new n : built (Some (Rq.newRequest n)).
Proof. cbn. repeat eexists. Qed.

Lemma ensure_st n rs ds fs ti rb : ensureRequest n (st rs ds fs ti rb) = st rs ds fs ti (Some (default (Rq.newRequest n) rb)).
Proof. by destruct rb. Qed.

Lemma request_effect d f rs ds fs ti rb : effect d f -> built rb ->
  handleRequestDirective d (st rs ds fs ti rb) = (Applied, st rs ds fs ti (Some (f (default (Rq.newRequest (start_ d)) rb)))).
Proof.
  intros Hf Hb. unfold handleRequestDirective. destruct rb as [r|]; [by apply Hf|].
  change (inRequest (st rs ds fs ti None)) with false. cbn iota. change start with (st [] ∅ ∅ [] None).
  rewrite ensure_st, Hf by apply built_new. cbn [default]. f_equal. unfold addTo, st, set_doc. cbn. by rewrite !app_nil_r.
Qed.

Definition mark (d : string) (r : Rq.builder) : Rq.builder :=
  if Directive.DeclaredOnce d then Rq.set_declared ({[d]} ∪ Rq.declared r) r else r.

Lemma act_claimed d f rs ds fs ti rb :
  Directive.Known (name_ d) = true -> from_option (fun r => name_ d ∉ Rq.declared r) True rb ->
  Directive.ValueRequired (name_ d) && negb (Directive.HasValue (args_ d)) = false ->
  claimDirective iter d (st rs ds fs ti rb) = (Applied, st rs ds fs ti (Some (f (default (Rq.newRequest (start_ d)) rb)))) ->
  act d (st rs ds fs ti rb) = st rs ds fs ti (Some (mark (name_ d) (f (default (Rq.newRequest (start_ d)) rb)))).
Proof.
  intros Hk Hd Hv Hc. unfold act. assert (redeclared d (st rs ds fs ti rb) = (false, st rs ds fs ti rb)) as ->.
  { unfold redeclared. cbn [request st]. destruct rb as [r|]; [|done]. cbn in Hd. by rewrite bool_decide_eq_false_2. }
  unfold routeDirective. rewrite Hk, Hc, Hv. cbn [negb]. unfold markDeclared, mark. by destruct (Directive.DeclaredOnce (name_ d)).
Qed.

Lemma claim_skip (h : parsedDirective -> St -> outcome * St) hs d b : h d b = (Ignored, b) -> claim (h :: hs) d b = claim hs d b.
Proof. cbn [claim]. by intros ->. Qed.

Section ascii.
Context (ascii : AsciiCase unicode tables).

Lemma not_scope d : d ∈ ["name"; "no-log"; "log-sensitive-headers"; "body"; "auth"; "setting"] ->
  (Directive.ParseSecretScope d).1 = None /\ bool_decide (d = "var") = false.
Proof.
  intros Hd. unfold Directive.ParseSecretScope, Directive.ParseScope.
  assert (Hl : forall w, forallb isLower (bytes w) = true -> TrimSpace w = w -> ToLower (TrimSpace w) = w)
    by (intros w Hw ->; by apply ascii).
  rewrite !elem_of_cons in Hd. destruct Hd as [->|[->|[->|[->|[->|[->|[]%elem_of_nil]]]]]];
    (match goal with |- context [ToLower (TrimSpace ?w)] => rewrite !(Hl w) by (vm_compute; reflexivity) end; split; [|reflexivity];
     cbv zeta; match goal with |- context [ToLower (TrimSpace ?w)] => rewrite ?(Hl w) by (vm_compute; reflexivity) | _ => idtac end; vm_compute; reflexivity).
Qed.

Definition lateNames : list string := ["name"; "no-log"; "log-sensitive-headers"; "body"; "setting"].

(** What the handlers before authentication leave to the others *)
Lemma claim_early d rs ds fs ti rb : name_ d ∈ "auth" :: lateNames ->
  claimDirective iter d (st rs ds fs ti rb) =
  claim [handleAuthDirective; handleSSHDirective; handleK8sDirective; handlePatchDirective; handleFileSettingsDirective; handleRequestDirective] d (st rs ds fs ti rb).
Proof.
  intros Hd. assert (Hs : (Directive.ParseSecretScope (name_ d)).1 = None /\ bool_decide (name_ d = "var") = false) by (apply not_scope; set_solver).
  destruct Hs as [Hs Hv]. destruct (Directive.ParseSecretScope (name_ d)) as [sc secret] eqn:E. cbn in Hs. subst sc.
  assert (Hname : forall w, w ∉ "auth" :: lateNames -> bool_decide (name_ d = w) = false) by (intros w Hw; apply bool_decide_eq_false; by intros <-).
  assert (Hm : bool_decide (name_ d ∈ ["match"; "expect"]) = false).
  { apply bool_decide_eq_false. intros H. rewrite list_elem_of_In in Hd, H. cbn in Hd, H. intuition congruence. }
  unfold claimDirective, directiveHandlers.
  rewrite claim_skip by (unfold handleMockDirective; rewrite (Hname "mock") by set_solver; by rewrite Hm).
  rewrite claim_skip by (unfold handleWorkflowStart; by rewrite !Hname by set_solver).
  rewrite claim_skip by (unfold handleUseDirective; by rewrite !Hname by set_solver).
  rewrite claim_skip by done.
  rewrite claim_skip by (unfold handleScopedVariableDirective; rewrite Hv; cbn [andb]; by rewrite E).
  by rewrite claim_skip by (unfold handleConstDirective; by rewrite !Hname by set_solver).
Qed.

Lemma claim_late d rs ds fs ti rb : name_ d ∈ lateNames ->
  claimDirective iter d (st rs ds fs ti rb) = claim [handleFileSettingsDirective; handleRequestDirective] d (st rs ds fs ti rb).
Proof.
  intros Hd. assert (Hname : forall w, w ∉ lateNames -> bool_decide (name_ d = w) = false) by (intros w Hw; apply bool_decide_eq_false; by intros <-).
  rewrite claim_early by by apply list_elem_of_further.
  rewrite claim_skip by (unfold handleAuthDirective; by rewrite !Hname by set_solver).
  rewrite claim_skip by (unfold handleSSHDirective; by rewrite !Hname by set_solver).
  rewrite claim_skip by (unfold handleK8sDirective; by rewrite !Hname by set_solver).
  by rewrite claim_skip by (unfold handlePatchDirective; by rewrite !Hname by set_solver).
Qed.

(** A directive with an effect on a request, as the whole step of its handlers *)
Lemma claim_effect d f rs ds fs ti rb : name_ d ∈ lateNames -> name_ d <> "setting" \/ is_Some rb -> effect d f -> built rb ->
  claimDirective iter d (st rs ds fs ti rb) = (Applied, st rs ds fs ti (Some (f (default (Rq.newRequest (start_ d)) rb)))).
Proof.
  intros Hd Hset Hf Hb. rewrite claim_late by done. rewrite claim_skip; [cbn [claim]; by rewrite (request_effect d f)|].
  unfold handleFileSettingsDirective. destruct rb as [r|]; [done|]. change (inRequest (st rs ds fs ti None)) with false. cbn iota.
  destruct Hset as [Hset|[? [=]]]. rewrite (bool_decide_eq_false_2 (name_ d = "setting")) by done.
  rewrite bool_decide_eq_false_2; [done|]. intros E. rewrite E in Hd. set_solver.
Qed.

(** *** What the directives of a written request do *)

Definition at_ (d : string) (arg : bytestr) (off : nat) (n : Z) : parsedDirective := mkPD (Directive.mkCall d d arg off) (n, n).
Definition metaOf (f : Rq.Metadata -> Rq.Metadata) (r : Rq.builder) : Rq.builder := Rq.set_metadata (f (Rq.metadata r)) r.

Lemma effect_name arg off n : effect (at_ "name" arg off n) (metaOf (edit (Some (Directive.Value arg)) None None None None)).
Proof. intros rs ds fs ti r (a & o & m & s & h & bo & mp & dec & ->). reflexivity. Qed.
Lemma effect_nolog off n : effect (at_ "no-log" [] off n) (metaOf (edit None None None (Some true) None)).
Proof. intros rs ds fs ti r (a & o & m & s & h & bo & mp & dec & ->). reflexivity. Qed.

Lemma lower_word w : forallb isLower (bytes w) = true -> TrimSpace w = w -> ToLower (TrimSpace w) = w.
Proof. intros Hw ->. by apply ascii. Qed.

Lemma effect_sensitive off n : effect (at_ "log-sensitive-headers" (bytes "true") off n) (metaOf (edit None None None None (Some true))).
Proof.
  intros rs ds fs ti r (a & o & m & s & h & bo & mp & dec & ->). unfold applyRequestDirective. cbn [request st].
  change (Rq.protoDirective _ _ _) with (@None (perr * Rq.builder)). cbn iota.
  change (handleRequestMetadataDirective (at_ "log-sensitive-headers" (bytes "true") off n) (st rs ds fs ti (Some (bld a o m s h bo mp dec))))
    with (match Directive.ParseSwitch "true" with
          | None => reject (at_ "log-sensitive-headers" (bytes "true") off n) (Directive.Tag "log-sensitive-headers" +:+ " must be true or false") (st rs ds fs ti (Some (bld a o m s h bo mp dec)))
          | Some allow => (Applied, on_meta (edit None None None None (Some allow)) (st rs ds fs ti (Some (bld a o m s h bo mp dec))))
          end).
  unfold Directive.ParseSwitch, Directive.ParseBool. by rewrite !(lower_word "true") by (vm_compute; reflexivity).
Qed.

Definition bodyOption (w : string) (o : Rq.BodyOptions) : Rq.BodyOptions :=
  if bool_decide (w = "expand") then Rq.mkBO true (Rq.ForceInline o) else Rq.mkBO (Rq.ExpandTemplates o) true.

Lemma effect_body w off n : w ∈ ["expand"; "inline"] ->
  effect (at_ "body" (bytes w) off n) (fun r => Rq.set_body (bodyOption w (Rq.bodyOptions r)) (Rq.multipart r) r).
Proof.
  intros Hw rs ds fs ti r (a & o & m & s & h & bo & mp & dec & ->). unfold applyRequestDirective. cbn [request st].
  change (Rq.protoDirective _ _ _) with (@None (perr * Rq.builder)). cbn iota. cbn [name_ args_ at_ call Directive.cName Directive.cArgs].
  change (bool_decide ("body" = "body")) with true. cbn iota.
  assert (Rq.handleBodyDirective (bytes w) (bld a o m s h bo mp dec) = Some (Rq.set_body (bodyOption w bo) mp (bld a o m s h bo mp dec))) as ->; [|done].
  unfold Rq.handleBodyDirective, Directive.CutKey.
  apply elem_of_cons in Hw as [->|[->|[]%elem_of_nil]%elem_of_cons];
    match goal with |- context [Directive.CutToken ?t] => let v := eval vm_compute in (Directive.CutToken t) in change (Directive.CutToken t) with v end;
    cbv iota; match goal with |- context [ToLower ?t] => let v := eval vm_compute in t in change (ToLower t) with (ToLower v) end.
  - rewrite (lower_text ascii) by reflexivity. reflexivity.
  - rewrite (lower_text ascii) by reflexivity. reflexivity.
Qed.

(** *** Authentication *)

(** The forms that are written as words; the last value is any number of them. *)
Inductive authForm :=
  | Basic (user : bytestr) (password : list bytestr)
  | Bearer (token : list bytestr)
  | APIKey (placement name : bytestr) (value : list bytestr)
  | Custom (header : bytestr) (value : list bytestr).

Definition asAuth (f : authForm) (line : Z) : Sp.AuthSpec :=
  match f with
  | Basic u p => Sp.mkAuth "basic" {["username" := str u; "password" := str (spaced p)]} line
  | Bearer t => Sp.mkAuth "bearer" {["token" := str (spaced t)]} line
  | APIKey p n v => Sp.mkAuth "apikey" {["placement" := str p; "name" := str n; "value" := str (spaced v)]} line
  | Custom h v => Sp.mkAuth "header" {["header" := str h; "value" := str (spaced v)]} line
  end.
Definition authWords (f : authForm) : list bytestr :=
  match f with
  | Basic u p => bytes "basic" :: u :: p
  | Bearer t => bytes "bearer" :: t
  | APIKey p n v => bytes "apikey" :: p :: n :: v
  | Custom h v => h :: v
  end.
Definition lastWords (f : authForm) : list bytestr := match f with Basic _ v | Bearer v | APIKey _ _ v | Custom _ v => v end.
Definition authOk (f : authForm) : Prop :=
  Forall plainWord (authWords f) /\ lastWords f <> [] /\
  match f with
  | APIKey p _ _ => ToLower (str p) = str p
  | Custom h _ => Rw.ReservedAuthWord (str h) = false /\ head h <> Some ":"%char
  | _ => True
  end.

Lemma authKind_word w : forallb isLower (bytes w) = true -> TrimSpace w = w -> w <> "api-key" -> Sp.authKind w = w.
Proof. intros H1 H2 H3. unfold Sp.authKind. rewrite lower_word by done. by rewrite bool_decide_eq_false_2. Qed.

Lemma trim_value v : Forall plainWord v -> v <> [] -> trim (bytes (str (spaced v))) = spaced v.
Proof. intros Hv Hne. rewrite bytes_str. by apply words_trim. Qed.
Lemma trim_word w : plainWord w -> trim (bytes (str w)) = w.
Proof. intros Hw. rewrite bytes_str. by apply word_trim. Qed.

Lemma auth_written f line : authOk f -> Rw.renderAuth (Some (asAuth f line)) = inr (Rw.line_ "auth" (spaced (authWords f))).
Proof.
  intros (Hw & Hl & Hf). unfold Rw.renderAuth.
  assert (exists args, Rw.authArgs (asAuth f line) = inr args /\ args <> [] /\ spaced args = spaced (authWords f)) as (args & -> & Hne & Hs).
  { unfold Rw.authArgs. destruct f as [u p|t|p n v|h v]; cbn [asAuth Sp.auType Sp.auParams authWords lastWords] in *;
      rewrite authKind_word by (done || by vm_compute); kind_cases; param_cases.
    - apply Forall_cons in Hw as [_ [Hu Hp]%Forall_cons]. rewrite trim_word, trim_value by done.
      eexists. split; [reflexivity|]. split; [done|]. by apply (spaced_snoc [bytes "basic"; u] p).
    - apply Forall_cons in Hw as [_ Ht]. rewrite trim_value by done. eexists. split; [reflexivity|]. split; [done|].
      by apply (spaced_snoc [bytes "bearer"] t).
    - apply Forall_cons in Hw as [_ [Hp [Hn Hv]%Forall_cons]%Forall_cons]. rewrite !trim_word, trim_value by done.
      rewrite (bool_decide_eq_false_2 (p = [])), (bool_decide_eq_false_2 (n = [])) by by apply word_trim.
      eexists. split; [reflexivity|]. split; [done|]. by apply (spaced_snoc [bytes "apikey"; p; n] v).
    - apply Forall_cons in Hw as [Hh Hv]. rewrite trim_word, trim_value by done.
      destruct Hf as [Hr _]. rewrite Hr. rewrite (bool_decide_eq_false_2 (h = [])) by by apply word_trim.
      rewrite (bool_decide_eq_false_2 (spaced v = [])) by by apply words_trim.
      eexists. split; [reflexivity|]. split; [done|]. by apply (spaced_snoc [h] v). }
  rewrite bool_decide_eq_false_2 by done. by rewrite <- Hs.
Qed.

Lemma not_none w : forallb Directive.isAlpha (bytes w) = true -> w <> "none" -> Names.lowerASCII w = w -> EqualFold w Sp.AuthDisableWord = false.
Proof.
  intros Ha Hne Hl. rewrite (fold_letters ascii) by done. rewrite Hl. apply bool_decide_eq_false. intros E. apply Hne.
  by rewrite E.
Qed.

Lemma joinFields_spaced v : Sp.joinFields v = str (spaced v).
Proof. done. Qed.

(** The word that names a form is no scope, does not disable and is its kind. *)
Lemma form_word w : w ∈ ["basic"; "bearer"; "apikey"] ->
  Directive.ParseScope w = None /\ EqualFold w Sp.AuthDisableWord = false /\ Sp.authKind w = w.
Proof.
  intros Hw. split_and!.
  - unfold Directive.ParseScope. apply elem_of_cons in Hw as [->|[->|[->|[]%elem_of_nil]%elem_of_cons]%elem_of_cons];
      rewrite lower_word by (vm_compute; reflexivity); reflexivity.
  - apply elem_of_cons in Hw as [->|[->|[->|[]%elem_of_nil]%elem_of_cons]%elem_of_cons]; apply not_none; by vm_compute.
  - apply elem_of_cons in Hw as [->|[->|[->|[]%elem_of_nil]%elem_of_cons]%elem_of_cons]; apply authKind_word; by vm_compute.
Qed.

Lemma custom_word h : plainWord h -> Rw.ReservedAuthWord (str h) = false ->
  Directive.ParseScope (str h) = None /\ EqualFold (str h) Sp.AuthDisableWord = false /\ Sp.authKind (str h) ∉ Rw.authKeywords.
Proof.
  intros Hh. assert (TrimSpace (str h) = str h) as Ht.
  { apply bytes_inj. rewrite bytes_str. by apply word_trim. }
  unfold Rw.ReservedAuthWord. rewrite Ht. rewrite !orb_false_iff, !bool_decide_eq_false. intros [[H1 H2] H3]. split_and!; [|done..].
  by apply eq_None_not_Some.
Qed.

(** What is written of an authentication is read as it was. *)
Lemma auth_read f : authOk f ->
  Sp.parseAuthDirective (spaced (authWords f)) = inr (Directive.ScopeRequest, Some (Sp.auType (asAuth f 0), Sp.auParams (asAuth f 0))).
Proof.
  intros (Hw & Hl & Hf). unfold Sp.parseAuthDirective. rewrite Fields_words by done.
  destruct f as [u p|t|p n v|h v]; cbn [authWords lastWords asAuth Sp.auType Sp.auParams] in *.
  - destruct (form_word "basic") as (Hp & He & Hk); [set_solver|]. rewrite (str_bytes "basic"), Hp. cbv iota beta zeta.
    rewrite (str_bytes "basic"), He. unfold Sp.parseAuthSpec. rewrite (str_bytes "basic"), Hk. kind_cases. by destruct p.
  - destruct (form_word "bearer") as (Hp & He & Hk); [set_solver|]. rewrite (str_bytes "bearer"), Hp. cbv iota beta zeta.
    rewrite (str_bytes "bearer"), He. unfold Sp.parseAuthSpec. rewrite (str_bytes "bearer"), Hk. kind_cases. by destruct t.
  - destruct (form_word "apikey") as (Hp & He & Hk); [set_solver|]. rewrite (str_bytes "apikey"), Hp. cbv iota beta zeta.
    rewrite (str_bytes "apikey"), He. unfold Sp.parseAuthSpec. rewrite (str_bytes "apikey"), Hk. kind_cases.
    destruct v; [done|]. by rewrite Hf.
  - apply Forall_cons in Hw as [Hh Hv]. destruct (custom_word h Hh (proj1 Hf)) as (Hp & He & Hk). rewrite Hp. cbv iota beta zeta. rewrite He. unfold Sp.parseAuthSpec.
    assert (Hn : forall w, w ∈ Rw.authKeywords -> bool_decide (Sp.authKind (str h) = w) = false) by (intros w Hx; apply bool_decide_eq_false; by intros <-).
    rewrite !Hn by set_solver. by destruct v.
Qed.
(** *** The builder before its request line *)

Definition noLine (m : Rq.Metadata) : Rq.Metadata :=
  set_auth ((fun a => Sp.mkAuth (Sp.auType a) (Sp.auParams a) 0) <$> Rq.Auth m) (Rq.AuthDisabled m) m.

(** What directives have said, but for where *)
Record pre := mkPre { pMeta : Rq.Metadata; pSet : gmap string bytestr; pBody : Rq.BodyOptions; pSeen : gset string }.
Definition pre0 : pre := mkPre Rq.noMetadata ∅ (Rq.mkBO false false) ∅.
Definition says (x : pre) (r : Rq.builder) : Prop :=
  exists a o m dec, r = bld a o m (pSet x) Http.New (pBody x) None dec /\ noLine m = pMeta x /\ dec ⊆ pSeen x.
Definition matches (x : option pre) (rb : option Rq.builder) : Prop :=
  match x, rb with Some x, Some r => says x r | None, None => True | _, _ => False end.

Lemma matches_built x rb : matches x rb -> built rb /\ from_option (fun r => Rq.multipart r = None) True rb.
Proof.
  destruct x as [x|], rb as [r|]; try done. intros (a & o & m & dec & -> & _). split; [|done]. repeat eexists.
Qed.
Lemma matches_default x rb n : matches x rb -> says (default pre0 x) (default (Rq.newRequest n) rb).
Proof. destruct x as [x|], rb as [r|]; try done. intros _. exists n, [], Rq.noMetadata, ∅. split_and!; done. Qed.

Definition once (d : string) (S : gset string) : gset string := if Directive.DeclaredOnce d then {[d]} ∪ S else S.
Definition seen (d : string) (x : pre) : pre := mkPre (pMeta x) (pSet x) (pBody x) (once d (pSeen x)).

Lemma known_names d : d ∈ "auth" :: lateNames ->
  okDirective d /\ Directive.Canonical d = d /\ Directive.continuationOf d = Directive.ContinueNone /\ Directive.Known d = true.
Proof.
  intros Hd. assert (Hl : ToLower d = d).
  { apply ascii. revert d Hd. apply Forall_forall. repeat constructor. }
  unfold okDirective, keyText. revert Hd Hl. unfold lateNames. rewrite !elem_of_cons.
  intros [->|[->|[->|[->|[->|[->|[]%elem_of_nil]]]]]] Hl; (split_and!; [discriminate|vm_compute; reflexivity|vm_compute; reflexivity|exact Hl|vm_compute; reflexivity..]).
Qed.

(** A line of a directive that changes a builder by [f], and what it says by [g]. *)
Lemma directive_line n d arg f g x rb rs ds fs ti :
  d ∈ "auth" :: lateNames -> arg = [] \/ argText arg -> matches x rb -> d ∉ pSeen (default pre0 x) ->
  Directive.ValueRequired d && negb (Directive.HasValue arg) = false ->
  (forall off, claimDirective iter (at_ d arg off n) (st rs ds fs ti rb) = (Applied, st rs ds fs ti (Some (f (default (Rq.newRequest n) rb))))) ->
  (forall y r, says y r -> says (g y) (f r)) ->
  exists r, processLine iter n (Directive.head_ d arg) (st rs ds fs ti rb) = st rs ds fs ti (Some r) /\
    says (seen d (g (default pre0 x))) r.
Proof.
  intros Hd Harg Hx Hseen Hv Hcl Hfg. destruct (known_names d Hd) as (Hok & Hcan & Hcont & Hkn). destruct (matches_built x rb Hx) as [Hb Hmp].
  destruct (directive_step n d arg rs ds fs ti rb Hok Harg Hcan Hcont Hb Hmp) as [off ->].
  rewrite (act_claimed (at_ d arg off n) f); [|done| |done|done].
  2:{ destruct x as [x|], rb as [r|]; try done. destruct Hx as (a & o & m & dec & -> & _ & Hdec). cbn [from_option]. intros Hin. by apply Hseen, Hdec. }
  eexists. split; [reflexivity|]. cbn [start_ lines at_ fst name_ call Directive.cName].
  destruct (Hfg _ _ (matches_default x rb n Hx)) as (a & o & m & dec & -> & Hm & Hdec). unfold mark.
  unfold seen, once. destruct (Directive.DeclaredOnce d); (eexists _, _, _, _; split; [reflexivity|split; [exact Hm|]]); cbn [pSeen]; clear -Hdec; set_solver.
Qed.

(** *** Lines in turn *)

(** The lines take what was said from [x] to [x'] and the settings of the section
    from [fs] to [fs']. *)
Definition moves (ls : list bytestr) (x : option pre) (fs : gmap string bytestr) (x' : option pre) (fs' : gmap string bytestr) : Prop :=
  forall n rs ds ti rb, matches x rb ->
  exists rb', processLines iter n ls (st rs ds fs ti rb) = st rs ds fs' ti rb' /\ matches x' rb'.

Lemma moves_nil x fs : moves [] x fs x fs.
Proof. intros n rs ds ti rb Hx. by exists rb. Qed.
Lemma moves_app ls ls' x fs y fs' z fs'' : moves ls x fs y fs' -> moves ls' y fs' z fs'' -> moves (ls ++ ls') x fs z fs''.
Proof.
  intros H1 H2 n rs ds ti rb Hx. destruct (H1 n rs ds ti rb Hx) as (r1 & E1 & Hy). rewrite processLines_app, E1. by apply H2.
Qed.

(** Nothing said, or a request that was opened *)
Definition stage (op : bool) (m : Rq.Metadata) (s : gmap string bytestr) (bo : Rq.BodyOptions) (S : gset string) : option pre :=
  if op then Some (mkPre m s bo S) else None.
Definition fresh_ (m : Rq.Metadata) (s : gmap string bytestr) (bo : Rq.BodyOptions) : Prop := m = Rq.noMetadata /\ s = ∅ /\ bo = Rq.mkBO false false.

Lemma says_more m s bo S S' r : S ⊆ S' -> says (mkPre m s bo S) r -> says (mkPre m s bo S') r.
Proof. intros HS (a & o & m0 & dec & -> & Hm & Hd). exists a, o, m0, dec. split_and!; [done|done|]. cbn in *. clear -HS Hd. set_solver. Qed.

Lemma stage_line d arg f g (on op : bool) m s bo S m' s' bo' fs :
  d ∈ "auth" :: lateNames -> arg = [] \/ argText arg -> Directive.ValueRequired d && negb (Directive.HasValue arg) = false ->
  d ∉ S -> (op = false -> fresh_ m s bo) -> (on = false -> m' = m /\ s' = s /\ bo' = bo) ->
  (on = true -> forall T, g (mkPre m s bo T) = mkPre m' s' bo' T) -> (forall n y r, says y r -> says (g y) (f n r)) ->
  (forall rs ds ti rb off n, built rb ->
    claimDirective iter (at_ d arg off n) (st rs ds fs ti rb) = (Applied, st rs ds fs ti (Some (f n (default (Rq.newRequest n) rb))))) ->
  moves (if on then [Directive.head_ d arg] else []) (stage op m s bo S) fs (stage (op || on) m' s' bo' (once d S)) fs.
Proof.
  intros Hd Harg Hv HS Hop Hoff Hon Hfg Hcl n rs ds ti rb Hx. assert (HSS : S ⊆ once d S) by (unfold once; case_match; clear; set_solver).
  destruct on.
  - cbn [processLines].
    destruct (directive_line n d arg (f n) g (stage op m s bo S) rb rs ds fs ti Hd Harg Hx) as (r & E & Hr); [|done|..].
    { destruct op; [done|]. clear. set_solver. }
    { intros off. apply Hcl. by eapply matches_built. }
    { intros y r. apply Hfg. }
    exists (Some r). split; [done|]. rewrite orb_true_r. unfold stage. cbn [matches].
    assert (exists T, T ⊆ S /\ default pre0 (stage op m s bo S) = mkPre m s bo T) as (T & HT & ET).
    { destruct op; [by exists S|]. destruct (Hop eq_refl) as (-> & -> & ->). exists ∅. split; [clear; set_solver|done]. }
    rewrite ET, (Hon eq_refl) in Hr. eapply says_more; [|exact Hr]. cbn [pSeen]. unfold once. case_match; clear -HT; set_solver.
  - destruct (Hoff eq_refl) as (-> & -> & ->). exists rb. split; [done|]. rewrite orb_false_r. destruct op, rb as [r|]; try done.
    by eapply says_more.
Qed.

(** *** Settings *)

Definition okSetting (kv : string * bytestr) : Prop :=
  keyText (bytes kv.1) /\ ToLower kv.1 = kv.1 /\ trim kv.2 = kv.2 /\ kv.2 <> [] /\ LF ∉ kv.2.

Definition keyByteOk (c : Ascii.ascii) : bool :=
  negb (Directive.IsKeyRune c) || (noSpaceByte c && negb (bool_decide (c ∈ [":"%char; EQ; LF; CR]))).
Lemma key_byte c : Directive.IsKeyRune c = true -> noSpaceByte c = true /\ c ∉ [":"%char; EQ; LF; CR].
Proof.
  intros Hk. assert (H : keyByteOk c = true) by (apply all_bytes; vm_compute; reflexivity). unfold keyByteOk in H. rewrite Hk in H. cbn [negb orb] in H.
  by rewrite andb_true_iff, negb_true_iff, bool_decide_eq_false in H.
Qed.
Lemma key_free k c : keyText k -> c ∈ [":"%char; EQ; LF; CR] -> c ∉ k.
Proof.
  intros [_ Hk] Hc Hin. rewrite forallb_forall in Hk. destruct (key_byte c (Hk c (proj1 (list_elem_of_In _ _) Hin))) as [_ H]. done.
Qed.

Lemma trim_keyed k v : keyText k -> trim v = v -> v <> [] -> trim (Rw.sp k v) = Rw.sp k v.
Proof.
  intros [Hne Hk] Hv Hn. destruct k as [|c k]; [done|]. apply (trim_around c k v); [|done..]. cbn in Hk. apply andb_true_iff in Hk as [Hc _].
  by apply key_byte.
Qed.

Lemma setting_arg kv : okSetting kv -> argText (Rw.sp (bytes kv.1) kv.2).
Proof.
  intros (Hk & _ & Hv & Hn & Hl). split_and!; [by destruct (bytes kv.1)|by apply trim_keyed| |].
  - pose proof Hk as [Hne _]. assert (Hc : ":"%char ∉ bytes kv.1) by (apply key_free; [done|set_solver]).
    destruct (bytes kv.1) as [|c k]; [done|]. intros [= ->]. apply Hc, list_elem_of_here.
  - unfold Rw.sp. rewrite not_elem_of_app, not_elem_of_cons. split_and!; [|done|done]. apply key_free; [done|set_solver].
Qed.

Lemma CutKey_setting kv : okSetting kv -> Directive.CutKey (Rw.sp (bytes kv.1) kv.2) = (kv.1, kv.2).
Proof.
  intros (Hk & Hlow & Hv & Hn & Hl). unfold Directive.CutKey, Directive.CutToken. rewrite trim_keyed by done.
  pose proof Hk as [Hne Hb]. destruct (key_runes _ Hb) as [Hkv Hkn]. unfold Rw.sp.
  assert (cutFunc IsSpace (bytes kv.1 ++ " "%char :: kv.2) = Some (bytes kv.1, " "%char :: kv.2)) as ->.
  { assert (HS : validRune SP) by by apply validRune_ascii. rewrite <- (mjoin_singles (bytes kv.1)) at 1 2.
    apply (cutFunc_valid IsSpace _ SP kv.2 Hkv); [|done|done]. eapply Forall_impl; [exact Hkn|]. intros r (Hs & _)%needsQuote_false.
    by apply bool_decide_eq_false. }
  rewrite trim_space by done. assert (Directive.dropColons (rev (bytes kv.1)) = rev (bytes kv.1)) as ->.
  { assert (Hc : ":"%char ∉ rev (bytes kv.1)) by (rewrite list_elem_of_In, <- in_rev, <- list_elem_of_In; apply key_free; [done|set_solver]).
    destruct (rev (bytes kv.1)) as [|c l]; [done|]. apply not_elem_of_cons in Hc as [Hc _]. cbn. by rewrite bool_decide_eq_false_2. }
  by rewrite rev_involutive, str_bytes, Hlow.
Qed.

Lemma putSetting_read dst kv : okSetting kv -> Sp.putSetting dst (Rw.sp (bytes kv.1) kv.2) = (<[kv.1 := kv.2]> dst, []).
Proof.
  intros Hkv. unfold Sp.putSetting. rewrite CutKey_setting by done. destruct Hkv as (Hk & _ & _ & Hn & _).
  rewrite bool_decide_eq_false_2 by (intros E; rewrite E in Hk; by destruct Hk).
  assert (Directive.hasEq (bytes kv.1) = false) as ->; [|by rewrite bool_decide_eq_false_2].
  apply bool_decide_eq_false. apply key_free; [done|set_solver].
Qed.
Definition settingArg (kv : string * bytestr) : bytestr := Rw.sp (bytes kv.1) kv.2.
Definition settingLine (kv : string * bytestr) : bytestr := Directive.head_ "setting" (settingArg kv).

Lemma setting_own kv m s bo S fs : okSetting kv -> "setting" ∉ S ->
  moves [settingLine kv] (stage true m s bo S) fs (stage true m (<[kv.1 := kv.2]> s) bo S) fs.
Proof.
  intros Hkv HS n rs ds ti rb Hx. destruct rb as [r|]; [|done].
  destruct (directive_line n "setting" (settingArg kv) (fun r => Rq.set_settings (<[kv.1 := kv.2]> (Rq.settings r)) r)
    (fun y => mkPre (pMeta y) (<[kv.1 := kv.2]> (pSet y)) (pBody y) (pSeen y)) (stage true m s bo S) (Some r) rs ds fs ti) as (r' & E & Hr);
    [by repeat constructor|right; by apply setting_arg|done|done|done| | |].
  - intros off. destruct (matches_built _ _ Hx) as [Hb _].
    apply (claim_effect (at_ "setting" (settingArg kv) off n) (fun r => Rq.set_settings (<[kv.1 := kv.2]> (Rq.settings r)) r));
      [by repeat constructor|by right|..|done].
    intros rs' ds' fs' ti' r0 (a & o & m0 & s0 & h & bo0 & mp & dec & ->). unfold applyRequestDirective. cbn [request st].
    change (Rq.protoDirective _ _ _) with (@None (perr * Rq.builder)). cbn iota.
    change (handleRequestMetadataDirective (at_ "setting" (settingArg kv) off n) (st rs' ds' fs' ti' (Some (bld a o m0 s0 h bo0 mp dec))))
      with (Applied, on_settings (fun s => Sp.putSetting s (settingArg kv)) n (st rs' ds' fs' ti' (Some (bld a o m0 s0 h bo0 mp dec)))).
    f_equal. unfold on_settings. cbn [request st Rq.settings bld]. unfold settingArg. by rewrite putSetting_read.
  - intros y r0 (a & o & m0 & dec & -> & Hm & Hd). exists a, o, m0, dec. by split_and!.
  - exists (Some r'). split; [exact E|]. exact Hr.
Qed.

Lemma setting_file kv fs : okSetting kv -> moves [settingLine kv] None fs None (<[kv.1 := kv.2]> fs).
Proof.
  intros Hkv n rs ds ti rb Hx. destruct rb as [r|]; [done|]. exists None. split; [|done]. cbn [processLines].
  assert (Hin : "setting" ∈ "auth" :: lateNames) by by repeat constructor. destruct (known_names "setting" Hin) as (Hok & Hcan & Hcont & Hkn).
  destruct (directive_step n "setting" (settingArg kv) rs ds fs ti None Hok (or_intror (setting_arg kv Hkv)) Hcan Hcont I I) as [off E].
  unfold settingLine. rewrite E.
  assert (Hc : claimDirective iter (at_ "setting" (settingArg kv) off n) (st rs ds fs ti None) = (Applied, st rs ds (<[kv.1 := kv.2]> fs) ti None)).
  { rewrite claim_late by by repeat constructor. cbn [claim].
    assert (handleFileSettingsDirective (at_ "setting" (settingArg kv) off n) (st rs ds fs ti None) = (Applied, st rs ds (<[kv.1 := kv.2]> fs) ti None)) as ->; [|done].
    unfold handleFileSettingsDirective. change (inRequest _) with false. cbn iota zeta.
    change (bool_decide (name_ (at_ "setting" (settingArg kv) off n) = "setting")) with true. cbn iota.
    change (args_ (at_ "setting" (settingArg kv) off n)) with (Rw.sp (bytes kv.1) kv.2). by rewrite putSetting_read. }
  unfold act. change (redeclared _ _) with (false, st rs ds fs ti None). cbn iota. unfold routeDirective.
  change (Directive.Known (name_ (mkPD (Directive.mkCall "setting" "setting" (settingArg kv) off) (n, n)))) with (Directive.Known "setting").
  rewrite Hkn. cbn [negb]. change (mkPD (Directive.mkCall "setting" "setting" (settingArg kv) off) (n, n)) with (at_ "setting" (settingArg kv) off n).
  rewrite Hc. reflexivity.
Qed.

(** Settings are the request's own once it is open, and the section's before. *)
Lemma settings_lines kvs : forall (op : bool) m s bo S fs, Forall okSetting kvs -> "setting" ∉ S ->
  let put acc := foldl (fun acc kv => <[kv.1 := kv.2]> acc) acc kvs in
  moves (map settingLine kvs) (stage op m s bo S) fs (stage op m (if op then put s else s) bo S) (if op then fs else put fs).
Proof.
  induction kvs as [|kv kvs IH]; intros op m s bo S fs Hok HS; cbn zeta.
  - destruct op; apply moves_nil.
  - apply Forall_cons in Hok as [Hkv Hok]. cbn [map]. change (settingLine kv :: map settingLine kvs) with ([settingLine kv] ++ map settingLine kvs).
    destruct op.
    + eapply moves_app; [by apply setting_own|]. cbn [foldl]. by apply (IH true m (<[kv.1 := kv.2]> s)).
    + eapply moves_app; [by apply setting_file|]. cbn [foldl]. by apply (IH false m s bo S (<[kv.1 := kv.2]> fs)).
Qed.

(** *** The directives of a request *)

Definition metaWith (nm : bytestr) (log sens : bool) (au : option Sp.AuthSpec) : Rq.Metadata :=
  Rq.mkMeta nm "" [] log sens au false [] [] [] None None [] [] None None None.

Lemma name_lines nm S fs : nm = [] \/ argText nm /\ Directive.Value nm = nm -> "name" ∉ S ->
  moves (if negb (bool_decide (nm = [])) then [Directive.head_ "name" nm] else []) None fs
    (stage (negb (bool_decide (nm = []))) (metaWith nm false false None) ∅ (Rq.mkBO false false) (once "name" S)) fs.
Proof.
  intros Hnm HS. case_bool_decide as E; [intros n rs ds ti rb Hx; by exists rb|].
  destruct Hnm as [?|[Ha Hv]]; [done|]. cbn [negb].
  apply (stage_line "name" nm (fun _ => metaOf (edit (Some (Directive.Value nm)) None None None None))
    (fun y => mkPre (edit (Some nm) None None None None (pMeta y)) (pSet y) (pBody y) (pSeen y)) true false Rq.noMetadata ∅ (Rq.mkBO false false) S).
  - by repeat constructor.
  - by right.
  - unfold Directive.HasValue. rewrite Hv. destruct Ha as (Hne & Ht & _). rewrite Ht. by rewrite bool_decide_eq_false_2, andb_false_r.
  - done.
  - done.
  - done.
  - done.
  - intros n y r (a & o & m & dec & -> & Hm & Hd). rewrite Hv. exists a, o, (edit (Some nm) None None None None m), dec.
    split_and!; [done| |done]. cbn [pMeta]. rewrite <- Hm. done.
  - intros rs ds ti rb off n Hb. apply (claim_effect (at_ "name" nm off n)); [by repeat constructor|by left|apply effect_name|done].
Qed.

Lemma flag_lines d arg (on op : bool) (e : Rq.Metadata -> Rq.Metadata) m S fs :
  (d = "no-log" /\ arg = [] /\ e = edit None None None (Some true) None) \/
  (d = "log-sensitive-headers" /\ arg = bytes "true" /\ e = edit None None None None (Some true)) ->
  d ∉ S -> (op = false -> m = Rq.noMetadata) ->
  moves (if on then [Directive.head_ d arg] else []) (stage op m ∅ (Rq.mkBO false false) S) fs
    (stage (op || on) (if on then e m else m) ∅ (Rq.mkBO false false) (once d S)) fs.
Proof.
  intros Hd HS Hop.
  assert (Hin : d ∈ lateNames /\ d <> "setting" /\ Directive.ValueRequired d = false /\ (arg = [] \/ argText arg)).
  { destruct Hd as [(-> & -> & _)|(-> & -> & _)]; (split_and!; [by repeat constructor|done|by vm_compute|]); [by left|right].
    split_and!; [done|by vm_compute|done|]. apply (bool_decide_unpack _). by vm_compute. }
  destruct Hin as (Hin & Hns & Hvr & Harg).
  apply (stage_line d arg (fun _ => metaOf e) (fun y => mkPre (e (pMeta y)) (pSet y) (pBody y) (pSeen y)));
    [by constructor|done|by rewrite Hvr|done|by intros ->; rewrite ?Hop|by intros ->|by intros ->| |].
  - intros n y r (a & o & m0 & dec & -> & Hm & Hdec). exists a, o, (e m0), dec. split_and!; [done| |done]. cbn [pMeta]. rewrite <- Hm.
    by destruct Hd as [(_ & _ & ->)|(_ & _ & ->)].
  - intros rs ds ti rb off n Hb. apply (claim_effect (at_ d arg off n)); [done|by left| |done].
    destruct Hd as [(-> & -> & ->)|(-> & -> & ->)]; [apply effect_nolog|apply effect_sensitive].
Qed.

Lemma auth_arg f : authOk f -> argText (spaced (authWords f)).
Proof.
  intros (Hw & Hl & Hf). assert (Hne : authWords f <> []) by by destruct f. destruct (words_trim (authWords f) Hne Hw) as [Ht Hn].
  split_and!; [done|done| |apply words_free; [by apply (bool_decide_unpack _); vm_compute|done|by vm_compute|done]].
  destruct f as [u p|t|p n v|h v]; cbn [authWords]; rewrite spaced_cons; try done.
  destruct Hf as [_ Hf]. apply Forall_cons in Hw as [Hh _]. apply word_trim in Hh as [_ Hh]. by destruct h.
Qed.

Lemma auth_lines au op m S fs : from_option authOk True au -> "auth" ∉ S -> (op = false -> m = Rq.noMetadata) ->
  Rq.Auth m = None -> Rq.AuthDisabled m = false ->
  moves (if bool_decide (is_Some au) then [Directive.head_ "auth" (spaced (from_option authWords [] au))] else [])
    (stage op m ∅ (Rq.mkBO false false) S) fs
    (stage (op || bool_decide (is_Some au)) (set_auth ((fun f => asAuth f 0) <$> au) false m) ∅ (Rq.mkBO false false) (once "auth" S)) fs.
Proof.
  intros Hau HS Hop Ha Hdis. destruct au as [f|].
  2:{ assert (set_auth ((fun f => asAuth f 0) <$> None) false m = m) as -> by (destruct m; cbn in *; by subst).
      rewrite bool_decide_eq_false_2 by (by intros []). rewrite orb_false_r. intros n rs ds ti rb Hx. exists rb. split; [done|].
      destruct op, rb as [r|]; try done. eapply says_more; [|exact Hx]. unfold once. case_match; clear; set_solver. }
  rewrite bool_decide_eq_true_2 by eauto. cbn [from_option fmap option_fmap option_map] in *.
  apply (stage_line "auth" (spaced (authWords f)) (fun n => metaOf (set_auth (Some (asAuth f n)) false))
    (fun y => mkPre (set_auth (Some (asAuth f 0)) false (pMeta y)) (pSet y) (pBody y) (pSeen y)) true op m ∅ (Rq.mkBO false false) S);
    [apply list_elem_of_here|right; by apply auth_arg|done|done|by intros ->; rewrite ?Hop|by intros [=]|done| |].
  - intros n y r (a & o & m0 & dec & -> & Hm & Hdec). exists a, o, (set_auth (Some (asAuth f n)) false m0), dec. split_and!; [done| |done].
    cbn [pMeta]. rewrite <- Hm. unfold noLine, set_auth. cbn. by destruct f.
  - intros rs ds ti rb off n Hb. rewrite claim_early by apply list_elem_of_here. cbn [claim].
    assert (handleAuthDirective (at_ "auth" (spaced (authWords f)) off n) (st rs ds fs ti rb) =
      (Applied, st rs ds fs ti (Some (metaOf (set_auth (Some (asAuth f n)) false) (default (Rq.newRequest n) rb))))) as ->; [|done].
    unfold handleAuthDirective. change (bool_decide (name_ (at_ "auth" (spaced (authWords f)) off n) = "auth")) with true. cbn [negb].
    cbn iota. change (args_ (at_ "auth" (spaced (authWords f)) off n)) with (spaced (authWords f)). rewrite auth_read by done. cbn iota.
    change (start_ (at_ "auth" (spaced (authWords f)) off n)) with n. rewrite ensure_st. f_equal. by destruct f.
Qed.

Lemma body_lines w (on op : bool) m s bo S fs : w ∈ ["expand"; "inline"] -> "body" ∉ S -> (op = false -> fresh_ m s bo) ->
  moves (if on then [Directive.head_ "body" (bytes w)] else []) (stage op m s bo S) fs
    (stage (op || on) m s (if on then bodyOption w bo else bo) S) fs.
Proof.
  intros Hw HS Hop. assert (Ha : argText (bytes w)).
  { apply elem_of_cons in Hw as [->|[->|[]%elem_of_nil]%elem_of_cons];
      (split_and!; [done|by vm_compute|done|apply (bool_decide_unpack _); by vm_compute]). }
  apply (stage_line "body" (bytes w) (fun _ r => Rq.set_body (bodyOption w (Rq.bodyOptions r)) (Rq.multipart r) r)
    (fun y => mkPre (pMeta y) (pSet y) (bodyOption w (pBody y)) (pSeen y)));
    [by repeat constructor|by right|done|done|done|by intros ->|by intros ->| |].
  - intros n y r (a & o & m0 & dec & -> & Hm & Hdec). exists a, o, m0, dec. by split_and!.
  - intros rs ds ti rb off n Hb. apply (claim_effect (at_ "body" (bytes w) off n) (fun r => Rq.set_body (bodyOption w (Rq.bodyOptions r)) (Rq.multipart r) r)); [by repeat constructor|by left| |done].
    by apply effect_body.
Qed.

(** The lines of a request's directives, and what they say: its settings are its
    own when a directive has opened it. *)
Definition orNothing (on : bool) (l : bytestr) : list bytestr := if on then [l] else [].
Definition directiveLines (nm : bytestr) (log sens : bool) (au : option authForm) (kvs : list (string * bytestr)) (expand inline : bool) : list bytestr :=
  orNothing (negb (bool_decide (nm = []))) (Directive.head_ "name" nm) ++ orNothing log (Directive.head_ "no-log" []) ++
  orNothing sens (Directive.head_ "log-sensitive-headers" (bytes "true")) ++
  orNothing (bool_decide (is_Some au)) (Directive.head_ "auth" (spaced (from_option authWords [] au))) ++ map settingLine kvs ++
  orNothing expand (Directive.head_ "body" (bytes "expand")) ++ orNothing inline (Directive.head_ "body" (bytes "inline")).
Definition opened (nm : bytestr) (log sens : bool) (au : option authForm) : bool :=
  negb (bool_decide (nm = [])) || log || sens || bool_decide (is_Some au).

Lemma directives_move nm log sens au kvs expand inline fs :
  nm = [] \/ argText nm /\ Directive.Value nm = nm -> from_option authOk True au -> Forall okSetting kvs ->
  let op := opened nm log sens au in
  let put acc := foldl (fun acc kv => <[kv.1 := kv.2]> acc) acc kvs in
  exists S, moves (directiveLines nm log sens au kvs expand inline) None fs
    (stage (op || expand || inline) (metaWith nm log sens ((fun f => asAuth f 0) <$> au)) (if op then put ∅ else ∅) (Rq.mkBO expand inline) S)
    (if op then fs else put fs).
Proof.
  intros Hnm Hau Hkv op put. unfold directiveLines, orNothing.
  set (o1 := negb (bool_decide (nm = []))). set (m1 := metaWith nm false false None).
  assert (F1 : o1 = false -> m1 = Rq.noMetadata) by (unfold o1, m1; intros ->%negb_false_iff%bool_decide_eq_true; done).
  set (m2 := if log then edit None None None (Some true) None m1 else m1).
  assert (F2 : o1 || log = false -> m2 = Rq.noMetadata) by (intros [H ->]%orb_false_iff; by apply F1).
  set (m3 := if sens then edit None None None None (Some true) m2 else m2).
  assert (F3 : o1 || log || sens = false -> m3 = Rq.noMetadata) by (intros [H ->]%orb_false_iff; by apply F2).
  assert (E3 : m3 = metaWith nm log sens None) by (unfold m3, m2; by destruct log, sens).
  set (S1 := once "name" ∅). set (S2 := once "no-log" S1). set (S3 := once "log-sensitive-headers" S2). set (S4 := once "auth" S3).
  assert (HS : "name" ∉ (∅ : gset string) /\ "no-log" ∉ S1 /\ "log-sensitive-headers" ∉ S2 /\ "auth" ∉ S3 /\ "setting" ∉ S4 /\ "body" ∉ S4).
  { unfold S4, S3, S2, S1, once. repeat match goal with |- context [Directive.DeclaredOnce ?d] => change (Directive.DeclaredOnce d) with true end.
    set_solver. }
  destruct HS as (H1 & H2 & H3 & H4 & H5 & H6). exists S4.
  eapply moves_app; [by apply name_lines|]. fold o1 m1 S1.
  eapply moves_app; [apply (flag_lines "no-log" [] log o1 (edit None None None (Some true) None) m1 S1 fs); [by left|done|done]|]. fold m2 S2.
  eapply moves_app; [apply (flag_lines "log-sensitive-headers" (bytes "true") sens (o1 || log) (edit None None None None (Some true)) m2 S2 fs); [by right|done|done]|].
  fold m3 S3.
  eapply moves_app; [apply (auth_lines au (o1 || log || sens) m3 S3 fs); [done..|by rewrite E3|by rewrite E3]|]. fold S4.
  change (o1 || log || sens || bool_decide (is_Some au)) with op.
  assert (E4 : set_auth ((fun f => asAuth f 0) <$> au) false m3 = metaWith nm log sens ((fun f => asAuth f 0) <$> au)) by by rewrite E3.
  assert (F4 : op = false -> metaWith nm log sens ((fun f => asAuth f 0) <$> au) = Rq.noMetadata).
  { unfold op, opened. fold o1. rewrite !orb_false_iff. intros [[[Ho ->] ->] Hn]. apply bool_decide_eq_false in Hn. destruct au; [destruct Hn; eauto|].
    by apply F1. }
  rewrite E4. eapply moves_app; [by apply (settings_lines kvs op _ ∅)|]. fold put.
  eapply moves_app.
  - apply (body_lines "expand" expand op); [by repeat constructor|done|]. intros E. rewrite E. by rewrite F4.
  - replace (Rq.mkBO expand inline) with (if inline then bodyOption "inline" (if expand then bodyOption "expand" (Rq.mkBO false false) else Rq.mkBO false false)
      else (if expand then bodyOption "expand" (Rq.mkBO false false) else Rq.mkBO false false)) by by destruct expand, inline.
    apply (body_lines "inline" inline (op || expand)); [by repeat constructor|done|]. intros [E ->]%orb_false_iff. rewrite E. by rewrite F4.
Qed.
End ascii.
End lines.
