(* ===== verification/WriterRead.v ===== *)
(** * Documents of written requests are read back

    The request line, the headers and the body of a written request, line by line,
    and then whole documents: what [Rw.Render] writes of plain requests is what
    [Doc.Parse] reads, but for what [readBack] says. *)
From stdpp Require Import base list strings gmap.
From Stdlib Require Import Ascii ZArith Lia.
From S2P Require Import Prelude GoStd GoPath Names Text DotEnv Directive DirectiveFacts Workflow Catalog CatalogFacts WorkflowText Lines Protocols Specs Requests MockText Document DocumentFacts RestWriter WriterFacts.

Open Scope string_scope.
Open Scope nat_scope.
Open Scope list_scope.

(** ** strings.Fields *)

Lemma fieldsLoop_fuel p : forall n l f cur, length l <= n -> length l <= f -> fieldsLoop f p l cur = fieldsLoop n p l cur.
Proof.
  induction n as [|n IH]; intros l f cur Hn Hf; [destruct l; [by destruct f|simpl in Hn; lia]|].
  destruct l as [|b l]; [by destruct f|]. destruct f; [simpl in Hf; lia|]. cbn [fieldsLoop].
  pose proof (headRune_width (b :: l) ltac:(done)) as Hw. destruct (headRune (b :: l)) as [r w]. cbn [snd] in Hw.
  assert (length (drop w (b :: l)) <= n /\ length (drop w (b :: l)) <= f) as [? ?] by (rewrite length_drop; simpl in *; lia).
  destruct (p r); [|by apply IH]. destruct cur; [by apply IH|]. f_equal. by apply IH.
Qed.

Lemma fieldsLoop_word p (rs : list rune) t cur : Forall validRune rs -> Forall (fun r => p r = false) rs ->
  fieldsLoop (length (mjoin rs ++ t)) p (mjoin rs ++ t) cur = fieldsLoop (length t) p t (cur ++ mjoin rs).
Proof.
  intros Hrs Hp. revert cur. induction Hrs as [|r rs Hr _ IH]; intros cur; [by rewrite app_nil_r|].
  apply Forall_cons in Hp as [Hpr Hp]. change (mjoin (r :: rs)) with (r ++ mjoin rs). rewrite <- app_assoc.
  pose proof Hr as [Hne _]. destruct r as [|b r]; [done|]. cbn [app length fieldsLoop].
  change (b :: r ++ mjoin rs ++ t) with ((b :: r) ++ mjoin rs ++ t). rewrite headRune_valid by done. rewrite Hpr, drop_valid, take_app_length.
  rewrite (fieldsLoop_fuel p (length (mjoin rs ++ t))) by (rewrite ?length_app; lia). rewrite IH by done. by rewrite <- app_assoc.
Qed.

Lemma fields_word (rs : list rune) t : rs <> [] -> Forall validRune rs -> Forall (fun r => IsSpace r = false) rs ->
  fields (mjoin rs ++ SP ++ t) = mjoin rs :: fields t.
Proof.
  intros Hne Hrs Hp. unfold fields, fieldsFunc. rewrite fieldsLoop_word by done. cbn [app].
  assert (HS : validRune SP) by by apply validRune_ascii. change (SP ++ t) with (" "%char :: t). cbn [length fieldsLoop].
  change (" "%char :: t) with (SP ++ t). rewrite headRune_valid by done. change (IsSpace SP) with true. cbn iota. rewrite drop_valid.
  destruct (mjoin rs) eqn:E; [|done]. destruct rs as [|r rs]; [done|]. apply Forall_cons in Hrs as [[Hr _] _].
  change (mjoin (r :: rs)) with (r ++ mjoin rs) in E. by apply app_eq_nil in E as [-> _].
Qed.

(** ** Lines that are no comment, separator, script or variable *)

Section lines.
Context {unicode : Unicode} {tables : UnicodeTables} {lib : HttpLib} {tunnels : Tunnels} {parsers : MockParsers} {writer : Rw.MockWriter}
  (iter : Catalog.Iter).
Import Doc.

Definition ordinary (l : bytestr) : bool :=
  let ln := Ln.makeLine 0 l in
  negb (bool_decide (trim l = [])) && negb (Ln.isSeparator ln) && negb (Ln.hasScriptMarker ln) && negb (Ln.isBlockCommentStart ln) &&
  negb (Ln.isComment ln) && bool_decide (matchVariableLine (trim l) = None).

Lemma ordinary_head c l : trim (c :: l) = c :: l -> c ∉ bytes "#/->@" -> ordinary (c :: l) = true.
Proof.
  intros Ht Hc. unfold ordinary. rewrite Ht. unfold Ln.isSeparator, Ln.hasScriptMarker, Ln.isBlockCommentStart, Ln.isComment, Ln.makeLine.
  cbn [Ln.text]. rewrite Ht.
  assert (Hp : forall w, match w with a :: _ => a ∈ bytes "#/->@" | [] => False end -> cut w (c :: l) = None).
  { intros [|a w] Ha; [done|]. cbn. rewrite bool_decide_eq_false_2; [done|]. by intros ->. }
  assert (Hh : forall w, match w with a :: _ => a ∈ bytes "#/->@" | [] => False end -> hasPrefix w (c :: l) = false).
  { intros w Ha. unfold hasPrefix. rewrite Hp by done. by apply bool_decide_eq_false_2; intros []. }
  unfold Ln.stripComment, matchVariableLine.
  rewrite !Hh by (apply (bool_decide_unpack _); by vm_compute). rewrite (Hp (bytes "@")) by (apply (bool_decide_unpack _); by vm_compute).
  done.
Qed.

Lemma ordinary_handlers n l : ordinary l = true ->
  trim l <> [] /\ Ln.isScriptBlockStart (Ln.makeLine n l) = false /\
  forall b, inBlock b = false ->
    handleSeparator (Ln.makeLine n l) b = (false, b) /\ handleBlockComment iter (Ln.makeLine n l) b = (false, b) /\
    handleCommentLine iter (Ln.makeLine n l) b = (false, b) /\ handleScriptLine (Ln.makeLine n l) b = (false, b) /\
    handleVariableLine (Ln.makeLine n l) b = (false, b) /\ handleBlankLine (Ln.makeLine n l) b = (false, b).
Proof.
  unfold ordinary. rewrite !andb_true_iff, !negb_true_iff, bool_decide_eq_false, bool_decide_eq_true. intros [[[[[Hne Hsep] Hscr] Hblk] Hcom] Hvar].
  split; [done|]. split.
  { unfold Ln.isScriptBlockStart. change (Ln.hasScriptMarker (Ln.makeLine n l)) with (Ln.hasScriptMarker (Ln.makeLine 0 l)). by rewrite Hscr. }
  intros b Hb. split_and!.
  - unfold handleSeparator. change (Ln.isSeparator (Ln.makeLine n l)) with (Ln.isSeparator (Ln.makeLine 0 l)). by rewrite Hsep.
  - unfold handleBlockComment. rewrite Hb. change (Ln.isBlockCommentStart (Ln.makeLine n l)) with (Ln.isBlockCommentStart (Ln.makeLine 0 l)). by rewrite Hblk.
  - unfold handleCommentLine, Ln.comment. unfold Ln.isComment in Hcom. cbn [Ln.text Ln.makeLine] in *. destruct (Ln.stripComment (trim l)); [|done].
    rewrite bool_decide_eq_true_2 in Hcom by eauto. done.
  - unfold handleScriptLine. change (Ln.hasScriptMarker (Ln.makeLine n l)) with (Ln.hasScriptMarker (Ln.makeLine 0 l)). by rewrite Hscr.
  - unfold handleVariableLine. cbn [Ln.text Ln.makeLine]. by rewrite Hvar.
  - unfold handleBlankLine. cbn [Ln.text Ln.makeLine]. by rewrite bool_decide_eq_false_2.
Qed.

(** An ordinary line goes to the handlers of requests. *)
Lemma ordinary_run n l rs ds fs ti rb : ordinary l = true -> built rb -> from_option (fun r => Rq.multipart r = None) True rb ->
  processLine iter n l (st rs ds fs ti rb) =
  match firstHandler [handleBodyContinuation; handleMethodLine; handleHeaderLine] (Ln.makeLine n l) (st rs ds fs ti rb) with
  | (true, b) => b | (false, b) => handleDescriptionLine (Ln.makeLine n l) b end.
Proof.
  intros Ho Hb Hmp. destruct (ordinary_handlers n l Ho) as (_ & Hs & Hh). rewrite run_line by done.
  destruct (Hh (st rs ds fs ti rb) eq_refl) as (E1 & E2 & E3 & E4 & E5 & E6). unfold lineHandlers. cbn [firstHandler]. rewrite E1.
  assert (handleMultipartBodyLine (Ln.makeLine n l) (st rs ds fs ti rb) = (false, st rs ds fs ti rb)) as ->.
  { unfold handleMultipartBodyLine. cbn [request st]. destruct rb as [r|]; [|done]. cbn in Hmp. by rewrite Hmp. }
  by rewrite E2, E3, E4, E5, E6.
Qed.

(** ** The request line *)

Definition plainMethods : list string := ["GET"; "POST"; "PUT"; "PATCH"; "DELETE"; "HEAD"; "OPTIONS"; "TRACE"; "CONNECT"].
Definition okURL (u : bytestr) : Prop :=
  u <> [] /\ trim u = u /\ LF ∉ u /\ fields u <> [] /\ joinWith SP (fields u) = u /\ Version.SplitToken (fields u) = (fields u, Version.Unknown).

(** A request in progress with what its directives, its lines and its span say *)
Definition holds (x : pre) (h : Http.Builder) (mp : option Rq.multipartSpan) (r : Rq.builder) : Prop :=
  exists a o m dec, r = bld a o m (pSet x) h (pBody x) mp dec /\ noLine m = pMeta x.

Lemma holds_built x h mp r : holds x h mp r -> built (Some r) /\ Rq.multipart r = mp.
Proof. intros (a & o & m & dec & -> & _). split; [|done]. repeat eexists. Qed.

Section ascii.
Context (ascii : AsciiCase unicode tables).

Lemma method_upper m : m ∈ plainMethods ->
  TrimSpace m = m /\ ToUpper m = m /\ Http.normMethod (bytes m) = bytes m /\ EqualFold m "GRPC" = false.
Proof.
  intros Hm. assert (H : TrimSpace m = m /\ forallb isUpper (bytes m) = true /\ forallb Directive.isAlpha (bytes m) = true /\
    bool_decide (Names.lowerASCII m = Names.lowerASCII "GRPC") = false /\ bool_decide (bytes m = bytes "WS" \/ bytes m = bytes "WSS") = false).
  { apply list_elem_of_In in Hm. cbn in Hm. repeat destruct Hm as [<-|Hm]; [by vm_compute..|done]. }
  destruct H as (Ht & Hu & Ha & Hg & Hw). apply (upper_text ascii) in Hu. split_and!; [done|done| |].
  - unfold Http.normMethod, Http.UpperTrim. rewrite str_bytes, Ht, Hu. by rewrite Hw.
  - by rewrite (fold_letters ascii) by done.
Qed.

Lemma matchFold_ascii w : forall prev t, forallb isUpper w = true -> Http.matchFold w prev (w ++ t) = Some (List.last (map (fun c => [c]) w) prev, t).
Proof.
  induction w as [|c w IH]; intros prev t Hw; [done|]. cbn in Hw. apply andb_true_iff in Hw as [Hc Hw]. cbn [app Http.matchFold].
  assert (Hv : validRune [c]) by (apply validRune_ascii; unfold isUpper in Hc; apply andb_true_iff in Hc as [_ Hc]; apply N.leb_le in Hc; lia).
  change (c :: w ++ t) with ([c] ++ w ++ t). rewrite headRune_valid by done. unfold Http.foldsTo, isChar. rewrite (bool_decide_eq_true_2 ([c] = [c])) by done.
  cbn [orb]. rewrite drop_valid, IH by done. destruct w; [done|]. cbn [map]. f_equal. f_equal. clear. revert c a. induction w; intros; [done|]. cbn [map List.last] in *. by apply IHw.
Qed.

Lemma method_line m u : m ∈ plainMethods -> okURL u ->
  GRPC.IsMethodLine (Rw.sp (bytes m) u) = false /\ Http.ParseMethodLine (Rw.sp (bytes m) u) = Some (bytes m, u, Version.Unknown).
Proof.
  intros Hm (Hne & Ht & _ & Hf & Hj & Hs). destruct (method_upper m Hm) as (_ & _ & Hn & Hg).
  assert (H : forallb isUpper (bytes m) = true /\ bytes m <> [] /\ forallb (fun c => (byte_val c <? 128)%N && negb (IsSpace [c])) (bytes m) = true /\
    Http.isWord (List.last (map (fun c => [c]) (bytes m)) []) = true /\ bytes m ∈ Http.methods).
  { apply list_elem_of_In in Hm. cbn in Hm.
    repeat destruct Hm as [<-|Hm]; [split_and!; [by vm_compute|done|by vm_compute|by vm_compute|by apply (bool_decide_unpack _); vm_compute]..|done]. }
  destruct H as (Hu & Hb & Hsp & Hlast & Hin).
  assert (Hfields : fields (Rw.sp (bytes m) u) = bytes m :: fields u).
  { unfold Rw.sp. rewrite <- (mjoin_singles (bytes m)) at 1 2. apply (fields_word _ u).
    - by destruct (bytes m).
    - apply Forall_map, Forall_forall. intros c Hc%list_elem_of_In. rewrite forallb_forall in Hsp. specialize (Hsp c Hc).
      apply andb_true_iff in Hsp as [Hsp _]. apply validRune_ascii. by apply N.ltb_lt.
    - apply Forall_map, Forall_forall. intros c Hc%list_elem_of_In. rewrite forallb_forall in Hsp. specialize (Hsp c Hc).
      apply andb_true_iff in Hsp as [_ Hsp]. by apply negb_true_iff. }
  split.
  - unfold GRPC.IsMethodLine. rewrite Hfields, str_bytes, Hg. by destruct (fields u).
  - unfold Http.ParseMethodLine. rewrite Hfields.
    assert (Http.isMethodLine (Rw.sp (bytes m) u) = true) as ->.
    { unfold Http.isMethodLine. apply existsb_exists. exists (bytes m). split; [by apply list_elem_of_In|].
      unfold Rw.sp. rewrite matchFold_ascii by done. unfold Http.boundary. rewrite Hlast.
      change (" "%char :: u) with (SP ++ u). assert (HS : validRune SP) by by apply validRune_ascii. cbn [app SP].
      change (" "%char :: u) with (SP ++ u). by rewrite headRune_valid. }
    cbn [negb]. destruct (fields u) as [|f fs] eqn:E; [done|]. rewrite Hs. rewrite bool_decide_eq_false_2 by done. change (joinWith [" "%char] (f :: fs)) with (joinWith SP (f :: fs)). by rewrite Hn, Hj.
Qed.

Lemma request_line n m u x rb rs ds fs ti : m ∈ plainMethods -> okURL u -> matches x rb ->
  exists r, processLine iter n (Rw.sp (bytes m) u) (st rs ds fs ti rb) = st rs ds fs ti (Some r) /\
    holds (default pre0 x) (Http.mkB (bytes m) u ∅ false [] [] []) None r.
Proof.
  intros Hm Hu Hx. destruct (method_line m u Hm Hu) as [Hg Hp]. destruct (method_upper m Hm) as (_ & _ & Hn & _).
  assert (Ho : ordinary (Rw.sp (bytes m) u) = true).
  { destruct Hu as (Hne & Ht & _). assert (H : match bytes m with c :: _ => noSpaceByte c = true /\ c ∉ bytes "#/->@" | [] => False end).
    { apply list_elem_of_In in Hm. cbn in Hm. repeat destruct Hm as [<-|Hm]; [split; [by vm_compute|by apply (bool_decide_unpack _); vm_compute]..|done]. }
    destruct (bytes m) as [|c l] eqn:E; [done|]. destruct H as [H1 H2]. apply ordinary_head; [|done]. by apply trim_around. }
  destruct (matches_built x rb Hx) as [Hb Hmp]. rewrite ordinary_run by done. cbn [firstHandler].
  assert (handleBodyContinuation (Ln.makeLine n (Rw.sp (bytes m) u)) (st rs ds fs ti rb) = (false, st rs ds fs ti rb)) as ->.
  { unfold handleBodyContinuation. cbn [request st]. destruct rb as [r|]; [|done]. destruct x as [x|]; [|done].
    by destruct Hx as (a & o & m0 & dec & -> & _). }
  unfold handleMethodLine. cbn [Ln.raw Ln.makeLine]. rewrite Hg, Hp. rewrite ensure_st.
  destruct (matches_default x rb n Hx) as (a & o & m0 & dec & E & Hm0 & _). cbn [Ln.no Ln.makeLine]. rewrite E. eexists. split; [reflexivity|].
  exists a, (o ++ [Rw.sp (bytes m) u]), m0, dec. split; [|done]. unfold bld, Http.SetMethodAndURL. cbn. rewrite Hn.
  destruct Hu as (_ & -> & _). done.
Qed.
End ascii.

(** ** Headers *)

Definition headerLine (kv : string * bytestr) : bytestr := bytes kv.1 ++ bytes ": " ++ kv.2.
Definition okHeader (kv : string * bytestr) : Prop :=
  ":"%char ∉ bytes kv.1 /\ LF ∉ bytes kv.1 /\ trim (bytes kv.1) = bytes kv.1 /\ ValidHeaderFieldName kv.1 = true /\ CanonicalHeaderKey kv.1 = kv.1 /\
  trim kv.2 = kv.2 /\ LF ∉ kv.2 /\
  (* the line is taken for nothing else *)
  ordinary (headerLine kv) = true /\ GRPC.IsMethodLine (headerLine kv) = false /\
  Http.ParseMethodLine (headerLine kv) = None /\ Http.ParseWebSocketURLLine (headerLine kv) = None.

Definition addHeader (h : Http.Builder) (kv : string * bytestr) : Http.Builder := Http.AddHeader (bytes kv.1) kv.2 h.

Lemma trim_lead v : trim v = v -> trim (" "%char :: v) = v.
Proof. apply trim_space. Qed.

Lemma header_line n kv x h r rs ds fs ti : okHeader kv -> Http.HasMethod h = true -> Http.headerDone h = false -> holds x h None r ->
  exists r', processLine iter n (headerLine kv) (st rs ds fs ti (Some r)) = st rs ds fs ti (Some r') /\ holds x (addHeader h kv) None r'.
Proof.
  intros (Hc & _ & Hk & Hval & Hcan & Hv & _ & Ho & Hg & Hp & Hw) Hm Hd Hr. destruct (holds_built _ _ _ _ Hr) as [Hb Hmp].
  rewrite ordinary_run by done. cbn [firstHandler]. destruct Hr as (a & o & m0 & dec & -> & Hm0).
  unfold handleBodyContinuation. cbn [request st Rq.http bld]. rewrite Hm, Hd. cbn [andb].
  unfold handleMethodLine. cbn [Ln.raw Ln.makeLine]. rewrite Hg, Hp, Hw. unfold handleHeaderLine. cbn [request st Rq.http bld]. rewrite Hm, Hd. cbn [negb orb].
  assert (cutAt ":"%char (Ln.raw (Ln.makeLine n (headerLine kv))) = Some (bytes kv.1, " "%char :: kv.2)) as ->.
  { cbn [Ln.raw Ln.makeLine]. unfold headerLine. change (bytes kv.1 ++ bytes ": " ++ kv.2) with (bytes kv.1 ++ ":"%char :: " "%char :: kv.2). by apply cutAt_app. }
  rewrite Hk, trim_lead, str_bytes, Hval by done. eexists. split; [reflexivity|].
  exists a, (o ++ [headerLine kv]), m0, dec. by split.
Qed.

Lemma header_lines kvs : forall n x h r rs ds fs ti, Forall okHeader kvs -> Http.HasMethod h = true -> Http.headerDone h = false -> holds x h None r ->
  exists r', processLines iter n (map headerLine kvs) (st rs ds fs ti (Some r)) = st rs ds fs ti (Some r') /\ holds x (foldl addHeader h kvs) None r'.
Proof.
  induction kvs as [|kv kvs IH]; intros n x h r rs ds fs ti Hok Hm Hd Hr; [by exists r|]. apply Forall_cons in Hok as [Hkv Hok].
  cbn [map processLines foldl]. destruct (header_line n kv x h r rs ds fs ti Hkv Hm Hd Hr) as (r1 & -> & H1). by apply IH.
Qed.

(** The empty line that ends them *)
Definition spanOf (h : Http.Builder) : option Rq.multipartSpan :=
  if Rq.IsMultipartMime (Http.mimeType h) then Some (Rq.newMultipartSpan (Http.mimeType h)) else None.
Lemma headers_end n x h r rs ds fs ti : Http.HasMethod h = true -> Http.headerDone h = false -> holds x h None r ->
  exists r', processLine iter n [] (st rs ds fs ti (Some r)) = st rs ds fs ti (Some r') /\ holds x (Http.MarkHeadersDone h) (spanOf h) r'.
Proof.
  intros Hm Hd Hr. destruct (holds_built _ _ _ _ Hr) as [Hb Hmp]. rewrite run_line by done. destruct Hr as (a & o & m0 & dec & -> & Hm0).
  assert (Hblank : handleBlankLine (Ln.makeLine n []) (st rs ds fs ti (Some (bld a o m0 (pSet x) h (pBody x) None dec))) =
    (true, st rs ds fs ti (Some (bld a (o ++ [[]]) m0 (pSet x) (Http.MarkHeadersDone h) (pBody x) (spanOf h) dec)))).
  { unfold handleBlankLine. change (Ln.text (Ln.makeLine n [])) with (@nil Ascii.ascii). rewrite bool_decide_eq_true_2 by done. cbn [negb request st Rq.http bld].
    rewrite Hm, Hd. cbn [negb]. unfold on_request. cbn [request st]. unfold Rq.markHeadersDone. cbn [Rq.http bld]. rewrite Hd.
    cbn [Rq.set_http Rq.http Http.MarkHeadersDone Http.mimeType]. unfold spanOf. by destruct (Rq.IsMultipartMime _). }
  unfold lineHandlers. cbn [firstHandler].
  change (handleSeparator (Ln.makeLine n []) ?b) with (false, b). cbn iota.
  change (handleMultipartBodyLine (Ln.makeLine n []) ?b) with (false, b). cbn iota.
  change (handleBlockComment iter (Ln.makeLine n []) ?b) with (false, b). cbn iota.
  change (handleCommentLine iter (Ln.makeLine n []) ?b) with (false, b). cbn iota.
  change (handleScriptLine (Ln.makeLine n []) ?b) with (false, b). cbn iota.
  change (handleVariableLine (Ln.makeLine n []) ?b) with (false, b). cbn iota.
  rewrite Hblank. eexists. split; [reflexivity|]. exists a, (o ++ [[]]), m0, dec. by split.
Qed.

(** ** The body *)

(** What the span of a multipart body makes of a line *)
Definition spanLine (s : option Rq.multipartSpan) (t : bytestr) : bool * option Rq.multipartSpan :=
  match s with Some s => let '(took, s) := Rq.bodyLine t s in (took, Some s) | None => (false, None) end.

(** The lines of a body that are read as such: blank ones are empty, and others
    belong to a multipart body or are nothing else, a reference to a file included. *)
Fixpoint readableLines (inline : bool) (s : option Rq.multipartSpan) (ls : list bytestr) : bool :=
  match ls with
  | [] => true
  | l :: ls' =>
      if bool_decide (trim l = []) then bool_decide (l = []) && readableLines inline s ls'
      else
        let '(took, s') := spanLine s (trim l) in
        negb (Ln.isSeparator (Ln.makeLine 0 l)) && negb (Ln.isScriptBlockStart (Ln.makeLine 0 l)) &&
        (took || ordinary l && bool_decide (BodyRef.Parse l BodyRef.Line inline = None)) && readableLines inline s' ls'
  end.

Lemma multipart_step n l a o m s h bo mp dec rs ds fs ti : trim l <> [] ->
  handleMultipartBodyLine (Ln.makeLine n l) (st rs ds fs ti (Some (bld a o m s h bo mp dec))) =
  let '(took, mp') := spanLine mp (trim l) in
  if took then (true, st rs ds fs ti (Some (bld a (o ++ [l]) m s (Http.AppendBodyLine l h) bo mp' dec)))
  else (false, st rs ds fs ti (Some (bld a o m s h bo mp' dec))).
Proof.
  intros Hne. unfold handleMultipartBodyLine, spanLine. cbn [request st Rq.multipart bld]. destruct mp as [mp|]; [|done].
  cbn [Ln.text Ln.makeLine Ln.raw]. rewrite bool_decide_eq_false_2 by done. destruct (Rq.bodyLine (trim l) mp) as [[|] mp']; reflexivity.
Qed.

Lemma body_line n l x h mp r took mp' rs ds fs ti : trim l <> [] -> spanLine mp (trim l) = (took, mp') ->
  Ln.isSeparator (Ln.makeLine 0 l) = false -> Ln.isScriptBlockStart (Ln.makeLine 0 l) = false ->
  took || ordinary l && bool_decide (BodyRef.Parse l BodyRef.Line (Rq.ForceInline (pBody x)) = None) = true ->
  Http.HasMethod h = true -> Http.headerDone h = true -> holds x h mp r ->
  exists r', processLine iter n l (st rs ds fs ti (Some r)) = st rs ds fs ti (Some r') /\ holds x (Http.AppendBodyLine l h) mp' r'.
Proof.
  intros Hne Hsp Hsep Hscr Htook Hm Hd Hr. destruct (holds_built _ _ _ _ Hr) as [Hb _]. rewrite run_line by done.
  destruct Hr as (a & o & m0 & dec & -> & Hm0). unfold lineHandlers. cbn [firstHandler].
  assert (forall b, handleSeparator (Ln.makeLine n l) b = (false, b)) as Hs.
  { intros b. unfold handleSeparator. change (Ln.isSeparator (Ln.makeLine n l)) with (Ln.isSeparator (Ln.makeLine 0 l)). by rewrite Hsep. }
  rewrite Hs, multipart_step, Hsp by done. destruct took.
  - eexists. split; [reflexivity|]. exists a, (o ++ [l]), m0, dec. by split.
  - cbn [orb] in Htook. apply andb_true_iff in Htook as [Ho Href%bool_decide_eq_true].
    destruct (ordinary_handlers n l Ho) as (_ & _ & Hh).
    destruct (Hh (st rs ds fs ti (Some (bld a o m0 (pSet x) h (pBody x) mp' dec))) eq_refl) as (_ & -> & -> & -> & -> & ->).
    assert (handleBodyContinuation (Ln.makeLine n l) (st rs ds fs ti (Some (bld a o m0 (pSet x) h (pBody x) mp' dec))) =
      (true, st rs ds fs ti (Some (bld a (o ++ [l]) m0 (pSet x) (Http.AppendBodyLine l h) (pBody x) mp' dec)))) as ->.
    { unfold handleBodyContinuation. cbn [request st Rq.http bld]. rewrite Hm, Hd. cbn [andb]. unfold on_request. cbn [request st].
      unfold Rq.handleBodyLine. change (Rq.protoBodyLine ?l (bld a o m0 (pSet x) h (pBody x) mp' dec)) with (false, bld a o m0 (pSet x) h (pBody x) mp' dec).
      cbn [Rq.bodyOptions bld Ln.raw Ln.makeLine]. by rewrite Href. }
    eexists. split; [reflexivity|]. exists a, (o ++ [l]), m0, dec. by split.
Qed.

(** An empty line of a body *)
Lemma blank_line n x h mp r rs ds fs ti : Http.HasMethod h = true -> Http.headerDone h = true -> holds x h mp r ->
  exists r', processLine iter n [] (st rs ds fs ti (Some r)) = st rs ds fs ti (Some r') /\ holds x (Http.AppendBodyLine [] h) mp r'.
Proof.
  intros Hm Hd Hr. destruct (holds_built _ _ _ _ Hr) as [Hb _]. rewrite run_line by done. destruct Hr as (a & o & m0 & dec & -> & Hm0).
  unfold lineHandlers. cbn [firstHandler].
  change (handleSeparator (Ln.makeLine n []) ?b) with (false, b). cbn iota.
  assert (handleMultipartBodyLine (Ln.makeLine n []) (st rs ds fs ti (Some (bld a o m0 (pSet x) h (pBody x) mp dec))) =
    (false, st rs ds fs ti (Some (bld a o m0 (pSet x) h (pBody x) mp dec)))) as -> by (unfold handleMultipartBodyLine; by destruct mp). cbn iota.
  change (handleBlockComment iter (Ln.makeLine n []) ?b) with (false, b). cbn iota.
  change (handleCommentLine iter (Ln.makeLine n []) ?b) with (false, b). cbn iota.
  change (handleScriptLine (Ln.makeLine n []) ?b) with (false, b). cbn iota.
  change (handleVariableLine (Ln.makeLine n []) ?b) with (false, b). cbn iota.
  assert (handleBlankLine (Ln.makeLine n []) (st rs ds fs ti (Some (bld a o m0 (pSet x) h (pBody x) mp dec))) =
    (true, st rs ds fs ti (Some (bld a (o ++ [[]]) m0 (pSet x) (Http.AppendBodyLine [] h) (pBody x) mp dec)))) as ->.
  { unfold handleBlankLine. change (Ln.text (Ln.makeLine n [])) with (@nil Ascii.ascii). rewrite bool_decide_eq_true_2 by done. cbn [negb request st Rq.http bld].
    rewrite Hm, Hd. reflexivity. }
  eexists. split; [reflexivity|]. exists a, (o ++ [[]]), m0, dec. by split.
Qed.

Lemma lines_of_body ls : forall n x h mp r rs ds fs ti, readableLines (Rq.ForceInline (pBody x)) mp ls = true ->
  Http.HasMethod h = true -> Http.headerDone h = true -> holds x h mp r ->
  exists r' mp', processLines iter n ls (st rs ds fs ti (Some r)) = st rs ds fs ti (Some r') /\
    holds x (foldl (fun h l => Http.AppendBodyLine l h) h ls) mp' r'.
Proof.
  induction ls as [|l ls IH]; intros n x h mp r rs ds fs ti Hok Hm Hd Hr; [by exists r, mp|]. cbn [readableLines processLines foldl] in *.
  case_bool_decide as Hl.
  - apply andb_true_iff in Hok as [->%bool_decide_eq_true Hok]. destruct (blank_line n x h mp r rs ds fs ti Hm Hd Hr) as (r1 & -> & H1). by eapply IH.
  - destruct (spanLine mp (trim l)) as [took mp'] eqn:E. rewrite !andb_true_iff, !negb_true_iff in Hok. destruct Hok as [[[H1 H2] H3] H4].
    destruct (body_line n l x h mp r took mp' rs ds fs ti Hl E H1 H2 H3 Hm Hd Hr) as (r1 & -> & Hr1). by eapply IH.
Qed.

(** A line that refers to a file *)
Definition fileLine (path : bytestr) : bytestr := bytes "< " ++ path.

Lemma file_span path ct : spanLine (Some (Rq.newMultipartSpan ct)) (fileLine path) = (false, Some (Rq.newMultipartSpan ct)).
Proof. unfold spanLine, Rq.bodyLine, Rq.newMultipartSpan. cbn. by case_bool_decide. Qed.
Lemma file_line n path x h r rs ds fs ti : path <> [] -> trim path = path -> Rq.ForceInline (pBody x) = false ->
  Http.HasMethod h = true -> Http.headerDone h = true -> holds x h (spanOf h) r ->
  exists r', processLine iter n (fileLine path) (st rs ds fs ti (Some r)) = st rs ds fs ti (Some r') /\ holds x (Http.SetBodyFromFile path h) (spanOf h) r'.
Proof.
  intros Hne Ht Hin Hm Hd Hr. destruct (holds_built _ _ _ _ Hr) as [Hb Hmp].
  assert (Htl : trim (fileLine path) = fileLine path) by by apply (trim_around "<"%char [] path).
  assert (Ho : ordinary (fileLine path) = true).
  { apply (ordinary_head "<"%char (" "%char :: path)); [done|]. apply (bool_decide_unpack _); by vm_compute. }
  destruct (ordinary_handlers n _ Ho) as (Hl & Hs & Hh). rewrite run_line by done. unfold lineHandlers. cbn [firstHandler].
  destruct Hr as (a & o & m0 & dec & -> & Hm0).
  destruct (Hh (st rs ds fs ti (Some (bld a o m0 (pSet x) h (pBody x) (spanOf h) dec))) eq_refl) as (E1 & E2 & E3 & E4 & E5 & E6).
  rewrite E1, multipart_step by by rewrite Htl. rewrite Htl.
  assert (spanLine (spanOf h) (fileLine path) = (false, spanOf h)) as -> by (unfold spanOf; destruct (Rq.IsMultipartMime _); [apply file_span|done]).
  rewrite E2, E3, E4, E5, E6.
  assert (Href : BodyRef.Parse (fileLine path) BodyRef.Line false = Some path).
  { unfold BodyRef.Parse. rewrite Htl. unfold BodyRef.parseLinePath. change (cut (bytes "<") (fileLine path)) with (Some (" "%char :: path)).
    unfold BodyRef.parsePath, BodyRef.hasLeadingSpace. change (" "%char :: path) with (SP ++ path).
    rewrite headRune_valid by by apply validRune_ascii. cbn [fst app SP]. change (IsSpace SP) with true. cbn [negb].
    rewrite trim_lead by done. by rewrite bool_decide_eq_false_2. }
  assert (handleBodyContinuation (Ln.makeLine n (fileLine path)) (st rs ds fs ti (Some (bld a o m0 (pSet x) h (pBody x) (spanOf h) dec))) =
    (true, st rs ds fs ti (Some (bld a (o ++ [fileLine path]) m0 (pSet x) (Http.SetBodyFromFile path h) (pBody x) (spanOf h) dec)))) as ->.
  { unfold handleBodyContinuation. cbn [request st Rq.http bld]. rewrite Hm, Hd. cbn [andb]. unfold on_request. cbn [request st].
    unfold Rq.handleBodyLine. change (Rq.protoBodyLine ?l (bld a o m0 (pSet x) h (pBody x) (spanOf h) dec)) with (false, bld a o m0 (pSet x) h (pBody x) (spanOf h) dec).
    cbn [Rq.bodyOptions bld Ln.raw Ln.makeLine]. by rewrite Hin, Href. }
  eexists. split; [reflexivity|]. exists a, (o ++ [fileLine path]), m0, dec. by split.
Qed.

(** ** Sections *)

(** A request that is complete: it has no captures to warn of, and a request line. *)
Definition complete (r : Rq.builder) : Prop :=
  built (Some r) /\ Rq.Captures (Rq.metadata r) = [] /\ Http.method (Rq.http r) <> [] /\ trim (Http.url (Rq.http r)) <> [].
Definition ended (rb : option Rq.builder) : list Rq.Request := from_option (fun r => [Rq.build r]) [] rb.

Lemma union_nil (ds : gmap string bytestr) : ∅ ∪ ds = ds.
Proof. apply (left_id_L ∅ (∪)). Qed.

Lemma flush_complete rs ds fs ti rb : from_option complete True rb ->
  flushSettings (flushRequest (st rs ds fs ti rb)) = st (rs ++ ended rb) (fs ∪ ds) ∅ ti None.
Proof.
  intros Hc. assert (flushRequest (st rs ds fs ti rb) = st (rs ++ ended rb) ds fs ti None) as ->.
  { destruct rb as [r|]; [|by cbn [ended from_option]; rewrite app_nil_r]. destruct Hc as ((a & o & m & s & h & bo & mp & dec & ->) & Hcap & Hm & Hu).
    unfold flushRequest. change (inRequest _) with true. cbn [negb]. cbn iota.
    change (inScriptBlock (st rs ds fs ti (Some (bld a o m s h bo mp dec)))) with false. cbn iota.
    change (endScriptBlock (st rs ds fs ti (Some (bld a o m s h bo mp dec)))) with (st rs ds fs ti (Some (bld a o m s h bo mp dec))).
    change (on_request Rq.flushPendingScript (st rs ds fs ti (Some (bld a o m s h bo mp dec)))) with (st rs ds fs ti (Some (bld a o m s h bo mp dec))).
    cbn [request st]. cbv zeta. set (req := Rq.build (bld a o m s h bo mp dec)).
    assert (Hreq : Rq.Captures (Rq.rMetadata req) = [] /\ Rq.Method req <> [] /\ Rq.URL req <> []) by (split_and!; done).
    destruct Hreq as (Ec & Em & Eu). unfold lintRequestCaptures. rewrite Ec. cbn [foldl]. rewrite !bool_decide_eq_false_2 by done. reflexivity. }
  unfold flushSettings. change (settings (file (st ?r ?d ?f ?t ?b))) with f. case_bool_decide as E; [|reflexivity]. by rewrite E, union_nil.
Qed.

Lemma section_line n t rs ds fs ti rb : from_option complete True rb -> trim (bytes "### " ++ t) = bytes "### " ++ t ->
  exists ti', processLine iter n (bytes "### " ++ t) (st rs ds fs ti rb) = st (rs ++ ended rb) (fs ∪ ds) ∅ ti' None.
Proof.
  intros Hc Ht. assert (Hb : built rb) by (destruct rb as [r|]; [apply Hc|done]).
  set (l := bytes "### " ++ t) in *. assert (Htx : Ln.text (Ln.makeLine n l) = l) by done. rewrite run_line; [|done|].
  2:{ unfold Ln.isScriptBlockStart, Ln.hasScriptMarker. by rewrite Htx. }
  unfold lineHandlers. cbn [firstHandler]. unfold handleSeparator, Ln.isSeparator. rewrite Htx. change (hasPrefix (bytes "###") l) with true. cbn [negb].
  change (flushMock (st rs ds fs ti rb)) with (st rs ds fs ti rb). change (workflow (st rs ds fs ti rb)) with (@None Wb.builder). cbn iota zeta.
  rewrite flush_complete by done. eexists. reflexivity.
Qed.

(** An empty line between sections *)
Lemma blank_outside n rs ds fs ti : processLine iter n [] (st rs ds fs ti None) = st rs ds fs ti None.
Proof. rewrite run_line by done. reflexivity. Qed.

Lemma finish_complete rs ds fs ti rb : from_option complete True rb ->
  doc (finish (st rs ds fs ti rb)) = mkDoc (rs ++ ended rb) [] [] [] [] [] [] [] [] [] [] [] [] (fs ∪ ds).
Proof.
  intros Hc. unfold finish. change (failOpenDirective (st rs ds fs ti rb)) with (st rs ds fs ti rb). cbv zeta.
  change (flushMock (st rs ds fs ti rb)) with (st rs ds fs ti rb).
  assert (Hw : flushSettings (flushWorkflow 0 (flushRequest (st rs ds fs ti rb))) = flushSettings (flushRequest (st rs ds fs ti rb))).
  { assert (workflow (flushRequest (st rs ds fs ti rb)) = None) as E; [|by unfold flushWorkflow; rewrite E].
    pose proof (f_equal workflow (flush_complete rs ds fs ti rb Hc)) as E. unfold flushSettings in E. by case_bool_decide. }
  rewrite Hw, flush_complete by done. reflexivity.
Qed.
End lines.

(** ** A text in lines *)

Definition unlines (ls : list bytestr) : bytestr := mjoin (map (fun l => l ++ [LF]) ls).
Definition lineOk (l : bytestr) : Prop := LF ∉ l /\ CR ∉ l /\ (N.of_nat (length l) < DotEnv.maxToken)%N.
#[global] Instance lineOk_dec l : Decision (lineOk l) := _.

Lemma unlines_app a b : unlines (a ++ b) = unlines a ++ unlines b.
Proof. unfold unlines. by rewrite map_app, join_app. Qed.
Lemma unlines_cons l ls : unlines (l :: ls) = l ++ LF :: unlines ls.
Proof. unfold unlines. cbn. by rewrite <- app_assoc. Qed.

Lemma replaceCRLF_same l : CR ∉ l -> replaceCRLF l = l.
Proof.
  induction l as [|c l IH]; [done|]. intros [Hc Hl]%not_elem_of_cons. cbn [replaceCRLF]. destruct l as [|d l]; [done|].
  rewrite (bool_decide_eq_false_2 (c = CR)) by congruence. cbn [andb]. f_equal. by apply IH.
Qed.
Lemma dropCR_same l : CR ∉ l -> DotEnv.dropCR l = l.
Proof.
  intros Hl. unfold DotEnv.dropCR. destruct (rev l) as [|c r] eqn:E; [done|]. assert (c ∈ l) by (rewrite <- (rev_involutive l), E; cbn; set_solver).
  rewrite bool_decide_eq_false_2; [done|]. by intros ->.
Qed.

Lemma unlines_CR ls : Forall lineOk ls -> CR ∉ unlines ls.
Proof.
  induction 1 as [|l ls (_ & Hc & _) _ IH]; [by intros ?%elem_of_nil|]. rewrite unlines_cons, not_elem_of_app, not_elem_of_cons. by split_and!.
Qed.

Lemma scan_unlines ls : Forall lineOk ls -> forall fuel, length ls < fuel -> DotEnv.scanLines fuel (unlines ls) = (ls, false).
Proof.
  induction 1 as [|l ls (Hl & Hc & Hn) _ IH]; intros [|fuel] Hf; cbn [length] in Hf; try lia; [done|]. rewrite unlines_cons. cbn [DotEnv.scanLines].
  assert (Hcut : cutAt LF (l ++ LF :: unlines ls) = Some (l, unlines ls)) by by apply cutAt_app.
  destruct (l ++ LF :: unlines ls) as [|c t] eqn:E; [by destruct l|]. rewrite Hcut. apply N.leb_gt in Hn. rewrite Hn, IH by lia. by rewrite dropCR_same.
Qed.
Lemma length_unlines ls : length ls <= length (unlines ls).
Proof. induction ls as [|l ls IH]; [done|]. rewrite unlines_cons, length_app. simpl. lia. Qed.

Lemma splitAt_first c l : exists x r, splitAt c l = x :: r.
Proof. induction l as [|b l (x & r & IH)]; cbn; [eauto|]. rewrite IH. case_bool_decide; eauto. Qed.
Lemma unlines_split l : unlines (splitAt LF l) = l ++ [LF] /\ joinLines (splitAt LF l) = l.
Proof.
  induction l as [|b l [IH1 IH2]]; [done|]. cbn [splitAt]. destruct (splitAt_first LF l) as (x & r & E). rewrite E in *. case_bool_decide as Hb.
  - subst b. rewrite unlines_cons, IH1. split; [done|]. unfold joinLines in *.
    change (joinWith [LF] ([] :: x :: r)) with (LF :: joinWith [LF] (x :: r)). by rewrite IH2.
  - rewrite unlines_cons in *. split; [by cbn [app]; rewrite IH1|]. unfold joinLines in *. rewrite <- IH2. by destruct r.
Qed.

(** ** Maps and their sorted lists *)

Definition entries {A} (m : gmap string (list A)) : list (string * list A) := map (fun k => (k, default [] (m !! k))) (sorted_keys m).
Lemma entries_perm {A} (m : gmap string (list A)) : entries m ≡ₚ map_to_list m.
Proof.
  unfold entries. rewrite (sorted_keys_perm m). rewrite map_map. assert (H : forall l, (forall kv, kv ∈ l -> m !! kv.1 = Some kv.2) ->
    map (fun kv : string * list A => (kv.1, default [] (m !! kv.1))) l = l).
  { induction l as [|kv l IH]; intros Hl; [done|]. cbn. rewrite (Hl kv) by apply list_elem_of_here. cbn. rewrite IH by (intros; apply Hl; by right). by destruct kv. }
  rewrite H; [done|]. intros [k v] Hkv. by apply elem_of_map_to_list.
Qed.
Lemma foldl_put {A} (l : list (string * A)) (acc : gmap string A) : NoDup l.*1 -> foldl (fun acc kv => <[kv.1 := kv.2]> acc) acc l = list_to_map l ∪ acc.
Proof.
  revert acc. induction l as [|[k v] l IH]; intros acc Hd; [cbn; by rewrite (left_id_L ∅ (∪))|]. cbn in *. apply NoDup_cons in Hd as [Hk Hd].
  rewrite IH by done. rewrite <- insert_union_r by by apply not_elem_of_list_to_map_1. by rewrite insert_union_l.
Qed.
Lemma put_entries {A} (m acc : gmap string (list A)) : foldl (fun acc kv => <[kv.1 := kv.2]> acc) acc (entries m) = m ∪ acc.
Proof.
  assert (Hd : NoDup (entries m).*1) by (rewrite entries_perm; apply NoDup_fst_map_to_list). rewrite foldl_put by done. f_equal.
  rewrite <- (list_to_map_to_list m) at 2. by apply list_to_map_proper; [|apply entries_perm].
Qed.

(** ** Plain requests *)

Section plain.
Context {unicode : Unicode} {tables : UnicodeTables} {lib : HttpLib} {tunnels : Tunnels} {parsers : MockParsers} {writer : Rw.MockWriter}
  (iter : Catalog.Iter).
Import Doc.

Inductive payload := Inline (text : bytestr) | FromFile (path : bytestr).

(** A request with a name, switches of logging, an authentication, settings, a
    request line, headers and a body *)
Record plain := mkPlain {
  title_ : bytestr;
  silent : bool;
  sensitive : bool;
  creds : option authForm;
  sets : gmap string bytestr;
  verb : string;
  target : bytestr;
  hdrs : gmap string (list bytestr);
  load : payload;
  mime : bytestr;
  expand : bool;
  inline : bool
}.

Definition requestOf (p : plain) (body : Rq.Body) (s : gmap string bytestr) : Rq.Request :=
  Rq.mkRequest (metaWith (title_ p) (silent p) (sensitive p) ((fun f => asAuth f 0) <$> creds p)) (bytes (verb p)) (target p) (hdrs p) body [] s
    (0, 0)%Z [] None None None None None.
Definition bodyOf (p : plain) : Rq.Body :=
  match load p with
  | Inline t => Rq.mkBody t [] (mime p) None (Rq.mkBO (expand p) (inline p))
  | FromFile f => Rq.mkBody [] f (mime p) None (Rq.mkBO (expand p) (inline p))
  end.
Definition asRequest (p : plain) : Rq.Request := requestOf p (bodyOf p) (sets p).

(** *** Its lines *)

Definition isInline (p : plain) : bool := inline p || Rw.bodyTextNeedsInlineDirective (bodyOf p).
Definition headerList (hs : gmap string (list bytestr)) : list (string * bytestr) := mjoin (map (fun kv => map (pair kv.1) kv.2) (entries hs)).
(** Without the line feed at its end *)
Definition strip (t : bytestr) : bytestr := if bool_decide (List.last t NUL = LF) then removelast t else t.
Definition payloadLines (b : payload) : list bytestr :=
  match b with Inline t => if bool_decide (trim t = []) then [] else splitAt LF (strip t) | FromFile f => [fileLine f] end.
Definition titleOf (p : plain) : bytestr := if bool_decide (title_ p = []) then Rw.sp (bytes (verb p)) (target p) else title_ p.
Definition requestLines (p : plain) : list bytestr :=
  (bytes "### " ++ titleOf p) ::
  directiveLines (title_ p) (silent p) (sensitive p) (creds p) (entries (sets p)) (expand p) (isInline p) ++
  Rw.sp (bytes (verb p)) (target p) :: map headerLine (headerList (hdrs p)) ++ [] :: payloadLines (load p).

(** What is read as it was written *)
Definition contentType (p : plain) : bytestr :=
  foldl (fun acc kv => if EqualFold (str (bytes kv.1)) "Content-Type" then kv.2 else acc) [] (headerList (hdrs p)).
Definition spanFor (p : plain) : option Rq.multipartSpan :=
  if Rq.IsMultipartMime (contentType p) then Some (Rq.newMultipartSpan (contentType p)) else None.
Record writable (p : plain) : Prop := {
  w_title : title_ p = [] \/ argText (title_ p) /\ Directive.Value (title_ p) = title_ p;
  w_auth : from_option authOk True (creds p);
  w_settings : Forall okSetting (entries (sets p));
  w_verb : verb p ∈ plainMethods;
  w_target : okURL (target p);
  w_headers : Forall okHeader (headerList (hdrs p));
  w_values : map_Forall (fun _ vs => vs <> []) (hdrs p);
  w_body : match load p with
           | Inline _ => readableLines (isInline p) (spanFor p) (payloadLines (load p)) = true
           | FromFile f => f <> [] /\ trim f = f /\ inline p = false
           end;
  w_lines : Forall lineOk (requestLines p)
}.

(** *** What is written *)

Section ascii.
Context (ascii : AsciiCase unicode tables).

Lemma unlines_orNothing (on : bool) l : unlines (orNothing on l) = if on then l ++ [LF] else [].
Proof. destruct on; [|done]. unfold orNothing. by rewrite unlines_cons. Qed.

Lemma settings_written s : Forall okSetting (entries s) -> Rw.renderSettings s = unlines (map settingLine (entries s)).
Proof.
  unfold Rw.renderSettings, unlines, entries. rewrite !map_map. generalize (sorted_keys s). induction l as [|k l IH]; [done|]. cbn [map].
  intros [(_ & _ & Ht & Hne & _) Hok]%Forall_cons. cbn [fst snd] in *. change (mjoin (?a :: ?b)) with (a ++ mjoin b). rewrite IH by done. f_equal.
  rewrite Ht. by rewrite bool_decide_eq_false_2.
Qed.

Lemma headers_written hs : Rw.renderHeaders hs = unlines (map headerLine (headerList hs)).
Proof.
  unfold Rw.renderHeaders, headerList, entries. rewrite map_map. cbn [fst snd]. induction (sorted_keys hs) as [|k l IH]; [done|]. cbn [map].
  change (mjoin (?a :: ?b)) with (a ++ mjoin b) at 1 2. rewrite IH. change (mjoin (?a :: ?b)) with (a ++ mjoin b). rewrite map_app, unlines_app. f_equal.
  generalize (default [] (hs !! k)). intros vs. induction vs as [|v vs IHv]; [done|]. cbn [map]. change (mjoin (?a :: ?b)) with (a ++ mjoin b).
  rewrite unlines_cons, IHv. unfold headerLine. cbn [fst snd]. by rewrite <- !app_assoc.
Qed.

Lemma strip_feed t : t <> [] -> t ++ (if bool_decide (List.last t NUL = LF) then [] else [LF]) = strip t ++ [LF].
Proof.
  intros Ht. unfold strip. case_bool_decide as E; [|done]. rewrite app_nil_r. rewrite (app_removelast_last NUL Ht) at 1. by rewrite E.
Qed.

Lemma body_written p : match load p with FromFile f => f <> [] /\ trim f = f | _ => True end -> Rw.renderBody (bodyOf p) = unlines (payloadLines (load p)).
Proof.
  unfold Rw.renderBody, bodyOf, payloadLines. destruct (load p) as [t|f]; cbn [Rq.FilePath Rq.Text]; intros Hf.
  - rewrite bool_decide_eq_true_2 by done. cbn [negb]. case_bool_decide as E; [done|]. cbn [negb]. rewrite strip_feed by by intros ->.
    by rewrite (proj1 (unlines_split _)).
  - destruct Hf as [Hf Ht]. rewrite bool_decide_eq_false_2 by done. cbn [negb]. by rewrite unlines_cons, Ht.
Qed.

Lemma head_written p s : ToUpper (verb p) = verb p ->
  Rw.title (Rw.requestTitle (requestOf p (bodyOf p) s)) = bytes "### " ++ titleOf p ++ [LF].
Proof.
  intros Hup. unfold Rw.title, Rw.requestTitle, titleOf. change (Rq.Name _) with (title_ p). case_bool_decide; [|done].
  change (Rq.Method _) with (bytes (verb p)). change (Rq.URL _) with (target p). by rewrite str_bytes, Hup.
Qed.
Lemma logging_written m : Rw.renderLoggingDirectives m = (if Rq.NoLog m then Directive.head_ "no-log" [] ++ [LF] else []) ++
  (if Rq.AllowSensitiveHeaders m then Directive.head_ "log-sensitive-headers" (bytes "true") ++ [LF] else []).
Proof. done. Qed.
Lemma options_written p : Rw.renderBodyOptions (bodyOf p) = (if expand p then Directive.head_ "body" (bytes "expand") ++ [LF] else []) ++
  (if isInline p then Directive.head_ "body" (bytes "inline") ++ [LF] else []).
Proof. unfold Rw.renderBodyOptions, isInline, bodyOf. by destruct (load p). Qed.
Lemma line_written p s : verb p ∈ plainMethods -> okURL (target p) ->
  Rw.reqLine (requestOf p (bodyOf p) s) = Rw.sp (bytes (verb p)) (target p) ++ [LF].
Proof.
  intros Hv (_ & Ht & _). destruct (method_upper ascii (verb p) Hv) as (Htr & Hup & _). unfold Rw.reqLine.
  change (Rq.Method _) with (bytes (verb p)). change (Rq.URL _) with (target p). rewrite str_bytes, Htr, Hup, Ht.
  rewrite bool_decide_eq_false_2; [done|]. intros E. assert (Hn : forallb (fun w => negb (bool_decide (bytes w = []))) plainMethods = true) by done.
  rewrite forallb_forall in Hn. specialize (Hn _ (proj1 (list_elem_of_In _ _) Hv)). by rewrite E in Hn.
Qed.

Lemma request_written p : writable p -> Rw.renderRequest (asRequest p) = inr (unlines (requestLines p)).
Proof.
  intros [Hti Hau Hse Hve Hta _ _ Hb _]. destruct (method_upper ascii (verb p) Hve) as (Htr & Hup & _).
  unfold Rw.renderRequest, asRequest. cbn [requestOf Rq.rMetadata metaWith Rq.Name Rq.Description Rq.Tags Rq.Auth Rq.rSettings Rq.rVariables Rq.When
    Rq.ForEach Rq.Applies Rq.Captures Rq.Asserts Rq.rBody Rq.Headers].
  assert (Hbody : Rw.renderBody (bodyOf p) = unlines (payloadLines (load p))) by (apply body_written; destruct (load p); [done|by destruct Hb as (? & ? & _)]).
  assert (Hauth : Rw.renderAuth ((fun f => asAuth f 0) <$> creds p) = inr (unlines (orNothing (bool_decide (is_Some (creds p)))
    (Directive.head_ "auth" (spaced (from_option authWords [] (creds p))))))).
  { destruct (creds p) as [f|]; [|done]. cbn [fmap option_fmap option_map]. rewrite auth_written by done. rewrite bool_decide_eq_true_2 by eauto. by rewrite unlines_orNothing. }
  rewrite Hauth, Hbody, settings_written, headers_written by done. cbn [Rw.andThen]. f_equal.
  unfold requestLines, directiveLines. rewrite unlines_cons, !unlines_app, !unlines_cons, !unlines_app, !unlines_cons, !unlines_orNothing.
  fold (requestOf p (bodyOf p) (sets p)). rewrite head_written, logging_written, options_written, line_written by done.
  cbn [Rq.NoLog Rq.AllowSensitiveHeaders metaWith].
  change (Rw.renderRequestVariables []) with (@nil Ascii.ascii). change (Rw.writeOne Wb.conditionArg None) with (@nil Ascii.ascii).
  change (Rw.writeOne Wb.stepForEachArg None) with (@nil Ascii.ascii). change (Rw.writeEach Rw.applyArg []) with (@nil Ascii.ascii).
  change (Rw.writeEach Rw.captureArg []) with (@nil Ascii.ascii). change (Rw.writeEach Rw.assertArg []) with (@nil Ascii.ascii).
  change (Wb.renderDescription "") with (@nil Ascii.ascii). change (Wb.renderTags []) with (@nil Ascii.ascii).
  assert ((if bool_decide (title_ p = []) then [] else Wb.line_ "name" (title_ p)) =
    (if negb (bool_decide (title_ p = [])) then Directive.head_ "name" (title_ p) ++ [LF] else [])) as Hn by by destruct (title_ p).
  change (Rw.line_ "name" (title_ p)) with (Wb.line_ "name" (title_ p)). rewrite Hn, !app_nil_l. rewrite <- !app_assoc. by cbn [app].
Qed.

(** Requests one after the other, an empty line between them *)
Fixpoint sections (k : nat) (ps : list plain) : list bytestr :=
  match ps with [] => [] | p :: ps' => (if 0 <? k then [[]] else []) ++ requestLines p ++ sections (S k) ps' end.
Definition documentLines (ds : gmap string bytestr) (ps : list plain) : list bytestr :=
  map settingLine (entries ds) ++ (if bool_decide (ds = ∅) then [] else [[]]) ++ sections 0 ps.
Definition docOf (ds : gmap string bytestr) (ps : list plain) : Document :=
  mkDoc (map asRequest ps) [] [] [] [] [] [] [] [] [] [] [] [] ds.

Lemma sections_written k ps : Forall writable ps -> Rw.blocks k (map (fun p => Rw.renderRequest (asRequest p)) ps) = inr (unlines (sections k ps)).
Proof.
  intros Hps. revert k. induction Hps as [|p ps Hp _ IH]; intros k; [done|]. cbn [map Rw.blocks sections]. rewrite request_written, IH by done.
  cbn [Rw.andThen]. rewrite !unlines_app. f_equal. by destruct (0 <? k).
Qed.

Lemma document_written ds ps : Forall okSetting (entries ds) -> Forall writable ps ->
  Rw.Render (docOf ds ps) [] = inr (unlines (documentLines ds ps)).
Proof.
  intros Hds Hps. unfold Rw.Render. cbn [docOf Variables Globals Settings Patches Requests Mocks Workflows map app length]. rewrite app_nil_r, map_map.
  rewrite sections_written, settings_written by done. change (Rw.renderHeader []) with (@nil Ascii.ascii).
  change (Rw.renderScopeVariables []) with (@nil Ascii.ascii). change (Rw.renderPatches []) with (@inr string bytestr []).
  rewrite bool_decide_eq_true_2 by done. rewrite andb_false_r. cbn [Rw.andThen Rw.blocks app]. rewrite app_nil_r. f_equal. unfold documentLines.
  rewrite !unlines_app. f_equal. f_equal. case_bool_decide as E; [by subst ds|].
  assert (size ds <> 0) as Hn by by apply map_size_non_empty_iff. destruct (size ds); [done|]. done.
Qed.

(** *** What is read *)

(** The settings of a request that nothing opens are those of the file. *)
Definition opens (p : plain) : bool := opened (title_ p) (silent p) (sensitive p) (creds p).
Definition ownSettings (p : plain) : gmap string bytestr := if opens p then sets p else ∅.
Definition strays (p : plain) : gmap string bytestr := if opens p then ∅ else sets p.

Definition httpLine (p : plain) : Http.Builder := Http.mkB (bytes (verb p)) (target p) ∅ false [] [] [].
Definition httpHeaders (p : plain) : Http.Builder := foldl addHeader (httpLine p) (headerList (hdrs p)).
Definition takePayload (b : payload) (h : Http.Builder) : Http.Builder :=
  match b with Inline _ => foldl (fun h l => Http.AppendBodyLine l h) h (payloadLines b) | FromFile f => Http.SetBodyFromFile f h end.
Definition httpRead (p : plain) : Http.Builder := takePayload (load p) (Http.MarkHeadersDone (httpHeaders p)).

(** The headers of a builder, one after the other *)
Lemma add_headers kvs h : foldl addHeader h kvs =
  Http.mkB (Http.method h) (Http.url h)
    (foldl (fun hs kv => let key := CanonicalHeaderKey (str (bytes kv.1)) in <[key := default [] (hs !! key) ++ [kv.2]]> hs) (Http.headers h) kvs)
    (Http.headerDone h) (Http.bodyLines h) (Http.bodyFromFile h)
    (foldl (fun acc kv => if EqualFold (str (bytes kv.1)) "Content-Type" then kv.2 else acc) (Http.mimeType h) kvs).
Proof. revert h. induction kvs as [|kv kvs IH]; intros h; [by destruct h|]. cbn [foldl]. by rewrite IH. Qed.

Lemma header_group k vs (hs : gmap string (list bytestr)) : CanonicalHeaderKey k = k -> vs <> [] ->
  foldl (fun hs kv => let key := CanonicalHeaderKey (str (bytes kv.1)) in <[key := default [] (hs !! key) ++ [kv.2]]> hs) hs (map (pair k) vs) =
  <[k := default [] (hs !! k) ++ vs]> hs.
Proof.
  intros Hk. revert hs. induction vs as [|v vs IH]; intros hs Hne; [done|]. cbn [map foldl fst snd]. rewrite str_bytes, Hk.
  destruct vs as [|v' vs]; [done|]. rewrite IH by done. rewrite lookup_insert_eq. cbn [default from_option id]. rewrite insert_insert_eq.
  by rewrite <- app_assoc.
Qed.

Lemma headers_kept hs : Forall (fun kv => CanonicalHeaderKey kv.1 = kv.1) (headerList hs) -> map_Forall (fun _ vs => vs <> []) hs ->
  foldl (fun hs kv => let key := CanonicalHeaderKey (str (bytes kv.1)) in <[key := default [] (hs !! key) ++ [kv.2]]> hs) ∅ (headerList hs) = hs.
Proof.
  intros Hc Hv. transitivity (hs ∪ ∅); [|by rewrite (right_id_L ∅ (∪))]. rewrite <- put_entries.
  assert (Hd : NoDup (entries hs).*1) by (rewrite entries_perm; apply NoDup_fst_map_to_list).
  assert (He : Forall (fun kv => kv.2 <> []) (entries hs)).
  { rewrite Forall_forall. intros [k vs] Hk. rewrite entries_perm, elem_of_map_to_list in Hk. by apply (Hv k). }
  unfold headerList in *. revert Hc Hd He. generalize (entries hs). intros l.
  assert (Hnone : forall k, k ∈ l.*1 -> (∅ : gmap string (list bytestr)) !! k = None) by done. revert Hnone. generalize (∅ : gmap string (list bytestr)).
  induction l as [|[k vs] l IH]; intros m Hm Hc Hd He; [done|]. cbn [map fst snd foldl] in *.
  change (mjoin (?a :: ?b)) with (a ++ mjoin b) in *. rewrite foldl_app. apply Forall_app in Hc as [Hck Hc]. apply NoDup_cons in Hd as [Hk Hd].
  apply Forall_cons in He as [Hvs He]. cbn [snd] in Hvs. rewrite header_group; [|by destruct vs; [|apply Forall_cons in Hck as [? _]]|done].
  rewrite (Hm k) by apply list_elem_of_here. cbn [default from_option app]. apply IH; [|done..].
  intros k' Hk'. rewrite lookup_insert_ne by (by intros ->). apply Hm. by apply list_elem_of_further.
Qed.

Lemma http_headers p : writable p ->
  httpHeaders p = Http.mkB (bytes (verb p)) (target p) (hdrs p) false [] [] (contentType p).
Proof.
  intros Hp. unfold httpHeaders. rewrite add_headers. cbn [httpLine Http.method Http.url Http.headers Http.headerDone Http.bodyLines Http.bodyFromFile Http.mimeType].
  rewrite headers_kept; [done| |apply Hp]. eapply Forall_impl; [apply Hp|]. intros kv (_ & _ & _ & _ & H & _). done.
Qed.

Lemma verb_method p : verb p ∈ plainMethods -> bytes (verb p) <> [].
Proof.
  intros Hv E. assert (Hn : forallb (fun w => negb (bool_decide (bytes w = []))) plainMethods = true) by done.
  rewrite forallb_forall in Hn. specialize (Hn _ (proj1 (list_elem_of_In _ _) Hv)). by rewrite E in Hn.
Qed.

(** What the directives and the request line of a request say *)
Definition saidBy (p : plain) : pre :=
  mkPre (metaWith (title_ p) (silent p) (sensitive p) ((fun f => asAuth f 0) <$> creds p)) (ownSettings p) (Rq.mkBO (expand p) (isInline p)) ∅.
Definition said (x y : pre) : Prop := pMeta x = pMeta y /\ pSet x = pSet y /\ pBody x = pBody y.
Lemma holds_said x y h mp r : said x y -> holds x h mp r -> holds y h mp r.
Proof. intros (H1 & H2 & H3) (a & o & m & dec & -> & Hm). exists a, o, m, dec. split; congruence. Qed.

Lemma title_trim p : writable p -> trim (bytes "### " ++ titleOf p) = bytes "### " ++ titleOf p.
Proof.
  intros Hp. pose proof (w_verb p Hp) as Hv%verb_method. destruct (w_target p Hp) as (Hu & Ht & _). unfold titleOf. case_bool_decide as E.
  - change (bytes "### " ++ Rw.sp (bytes (verb p)) (target p)) with ("#"%char :: (bytes "## " ++ bytes (verb p)) ++ " "%char :: target p).
    by apply (trim_around "#"%char).
  - destruct (w_title p Hp) as [?|[(Hn & Hti & _) _]]; [done|]. by apply (trim_around "#"%char (bytes "##") (title_ p)).
Qed.

Lemma directives_say p S : said (default pre0 (stage (opens p || expand p || isInline p)
    (metaWith (title_ p) (silent p) (sensitive p) ((fun f => asAuth f 0) <$> creds p)) (ownSettings p) (Rq.mkBO (expand p) (isInline p)) S)) (saidBy p).
Proof.
  unfold stage, saidBy. destruct (opens p || expand p || isInline p) eqn:E; [done|]. apply orb_false_iff in E as [[Ho He]%orb_false_iff Hi].
  unfold said, ownSettings. rewrite Ho, He, Hi. unfold opens, opened in Ho. rewrite !orb_false_iff, negb_false_iff, bool_decide_eq_true, bool_decide_eq_false in Ho.
  destruct Ho as [[[-> ->] ->] Hc]. destruct (creds p); [destruct Hc; eauto|]. done.
Qed.

Lemma request_read p n rs ds fs ti rb : writable p -> from_option complete True rb ->
  exists r ti' mp, processLines iter n (requestLines p) (st rs ds fs ti rb) = st (rs ++ ended rb) (fs ∪ ds) (strays p) ti' (Some r) /\
    holds (saidBy p) (httpRead p) mp r.
Proof.
  intros Hp Hc. unfold requestLines. cbn [processLines].
  destruct (section_line iter n (titleOf p) rs ds fs ti rb Hc (title_trim p Hp)) as [ti' ->].
  destruct (directives_move iter ascii (title_ p) (silent p) (sensitive p) (creds p) (entries (sets p)) (expand p) (isInline p) ∅) as [S Hmv]; [apply Hp..|].
  rewrite processLines_app. destruct (Hmv (n + 1)%Z (rs ++ ended rb) (fs ∪ ds) ti' None I) as (rb1 & -> & Hx).
  fold (opens p) in Hx |- *. rewrite !put_entries, (right_id_L ∅ (∪)) in Hx |- *. change (if opens p then ∅ else sets p) with (strays p).
  change (if opens p then sets p else ∅) with (ownSettings p) in Hx.
  cbn [processLines]. match goal with |- context [processLine iter ?k _ _] => destruct (request_line iter ascii k (verb p) (target p) _ rb1
    (rs ++ ended rb) (fs ∪ ds) (strays p) ti' (w_verb p Hp) (w_target p Hp) Hx) as (r2 & -> & H2) end.
  apply (holds_said _ (saidBy p)) in H2; [|apply directives_say]. rewrite processLines_app.
  assert (Hm : Http.HasMethod (httpLine p) = true).
  { unfold Http.HasMethod. cbn. rewrite bool_decide_eq_false_2; [done|]. apply verb_method, Hp. }
  match goal with |- context [processLines iter ?k (map headerLine _) _] => destruct (header_lines iter (headerList (hdrs p)) k (saidBy p) (httpLine p) r2
    (rs ++ ended rb) (fs ∪ ds) (strays p) ti' (w_headers p Hp) Hm eq_refl H2) as (r3 & -> & H3) end.
  fold (httpHeaders p) in H3. cbn [processLines].
  assert (Hm3 : Http.HasMethod (httpHeaders p) = true) by (rewrite http_headers by done; exact Hm).
  assert (Hd3 : Http.headerDone (httpHeaders p) = false) by by rewrite http_headers.
  match goal with |- context [processLine iter ?k [] _] => destruct (headers_end iter k (saidBy p) (httpHeaders p) r3
    (rs ++ ended rb) (fs ∪ ds) (strays p) ti' Hm3 Hd3 H3) as (r4 & -> & H4) end.
  assert (Hsp : spanOf (httpHeaders p) = spanFor p) by (unfold spanOf; by rewrite http_headers).
  unfold httpRead. pose proof (w_body p Hp) as Hb. destruct (load p) as [t|f] eqn:El.
  - rewrite Hsp in H4.
    match goal with |- context [processLines iter ?k (payloadLines _) _] => destruct (lines_of_body iter (payloadLines (Inline t)) k (saidBy p)
      (Http.MarkHeadersDone (httpHeaders p)) (spanFor p) r4 (rs ++ ended rb) (fs ∪ ds) (strays p) ti' Hb Hm3 eq_refl H4) as (r5 & mp & -> & H5) end.
    by exists r5, ti', mp.
  - destruct Hb as (Hf & Ht & Hi). cbn [payloadLines processLines].
    assert (Hin : isInline p = false).
    { unfold isInline, bodyOf. rewrite Hi, El. cbn [orb]. unfold Rw.bodyTextNeedsInlineDirective. cbn [Rq.FilePath].
      rewrite bool_decide_eq_false_2; [done|]. by rewrite Ht. }
    match goal with |- context [processLine iter ?k (fileLine f) _] => destruct (file_line iter k f (saidBy p)
      (Http.MarkHeadersDone (httpHeaders p)) r4 (rs ++ ended rb) (fs ∪ ds) (strays p) ti' Hf Ht Hin Hm3 eq_refl H4) as (r5 & -> & H5) end.
    by exists r5, ti', (spanOf (httpHeaders p)).
Qed.

(** *** Requests as they are read *)

(** Without where a request stands: its lines and that of its authentication *)
Definition unplaced (r : Rq.Request) : Rq.Request :=
  Rq.mkRequest (noLine (Rq.rMetadata r)) (Rq.Method r) (Rq.URL r) (Rq.Headers r) (Rq.rBody r) (Rq.rVariables r) (Rq.rSettings r)
    (0, 0)%Z [] (Rq.rGRPC r) (Rq.rSSE r) (Rq.rWebSocket r) (Rq.rSSH r) (Rq.rK8s r).

(** A body has lost a line feed at its end, and gained one when a request follows. *)
Definition textRead (final : bool) (t : bytestr) : bytestr :=
  if bool_decide (trim t = []) then [] else strip t ++ (if final then [] else [LF]).
Definition bodyRead (final : bool) (p : plain) : Rq.Body :=
  match load p with
  | Inline t => Rq.mkBody (textRead final t) [] (contentType p) None (Rq.mkBO (expand p) (isInline p))
  | FromFile f => Rq.mkBody [] f (contentType p) None (Rq.mkBO (expand p) (isInline p))
  end.
Fixpoint readBack (ps : list plain) : list Rq.Request :=
  match ps with
  | [] => []
  | p :: ps' => requestOf p (bodyRead (bool_decide (ps' = [])) p) (ownSettings p) :: readBack ps'
  end.
Definition settingsRead (ds : gmap string bytestr) (ps : list plain) : gmap string bytestr := foldl (fun acc p => strays p ∪ acc) ds ps.

Lemma append_lines ls h : foldl (fun h l => Http.AppendBodyLine l h) h ls =
  Http.mkB (Http.method h) (Http.url h) (Http.headers h) (Http.headerDone h) (Http.bodyLines h ++ ls) (Http.bodyFromFile h) (Http.mimeType h).
Proof.
  revert h. induction ls as [|l ls IH]; intros h; [by destruct h; cbn; rewrite app_nil_r|]. cbn [foldl]. rewrite IH. cbn. by rewrite <- app_assoc.
Qed.

Definition after (final : bool) (p : plain) : Http.Builder := if final then httpRead p else Http.AppendBodyLine [] (httpRead p).

Lemma after_fields final p : writable p -> after final p =
  Http.mkB (bytes (verb p)) (target p) (hdrs p) true
    (match load p with Inline _ => payloadLines (load p) | FromFile _ => [] end ++ if final then [] else [[]])
    (match load p with Inline _ => [] | FromFile f => f end) (contentType p).
Proof.
  intros Hp. unfold after, httpRead. rewrite http_headers by done. pose proof (w_body p Hp) as Hb.
  destruct (load p) as [t|f]; cbn [takePayload Http.MarkHeadersDone Http.method Http.url Http.headers Http.bodyLines Http.bodyFromFile Http.mimeType].
  - rewrite append_lines. destruct final; [by rewrite app_nil_r|done].
  - destruct Hb as (_ & Ht & _). unfold Http.SetBodyFromFile. rewrite Ht. by destruct final.
Qed.

Lemma joinLines_text (final : bool) t : joinLines (payloadLines (Inline t) ++ (if final then [] else [[]])) = textRead final t.
Proof.
  unfold payloadLines, textRead. case_bool_decide; [by destruct final|]. destruct (unlines_split (strip t)) as [_ Hj]. destruct final; [by rewrite !app_nil_r|].
  rewrite <- Hj at 2. destruct (splitAt_first LF (strip t)) as (x & r & ->). clear. revert x. induction r as [|y r IH]; intros x; [done|].
  change ((x :: y :: r) ++ [[]]) with (x :: (y :: r) ++ [[]]). specialize (IH y). unfold joinLines in *. cbn [app] in *.
  change (joinWith [LF] (x :: y :: r ++ [[]])) with (x ++ [LF] ++ joinWith [LF] (y :: r ++ [[]])). rewrite IH.
  change (joinWith [LF] (x :: y :: r)) with (x ++ [LF] ++ joinWith [LF] (y :: r)). by rewrite <- !app_assoc.
Qed.

Lemma read_request final p mp r : writable p -> holds (saidBy p) (after final p) mp r ->
  complete r /\ unplaced (Rq.build r) = requestOf p (bodyRead final p) (ownSettings p).
Proof.
  intros Hp (a & o & m & dec & -> & Hm). rewrite after_fields by done. cbn [saidBy pMeta pSet pBody] in *. destruct (w_target p Hp) as (Hu & Ht & _). split.
  - split_and!; [by repeat eexists| |by apply verb_method, Hp|change (trim (target p) <> []); by rewrite Ht].
    change (Rq.Captures m = []). change (Rq.Captures (noLine m) = []). by rewrite Hm.
  - assert (Hb : Rq.rBody (Rq.build (bld a o m (ownSettings p) (Http.mkB (bytes (verb p)) (target p) (hdrs p) true
        (match load p with Inline _ => payloadLines (load p) | FromFile _ => [] end ++ if final then [] else [[]])
        (match load p with Inline _ => [] | FromFile f => f end) (contentType p)) (Rq.mkBO (expand p) (isInline p)) mp dec)) = bodyRead final p).
    { unfold Rq.build. change (Rq.flushPendingScript ?b) with b. cbn [Rq.http bld Http.mimeType].
      cbv zeta. match goal with |- context [if ?a || ?b then _ else _] => change (a || b) with false end. cbn iota.
      unfold GRPC.Finalize, GraphQL.Finalize. cbn [GRPC.request GRPC.New GraphQL.enabled GraphQL.New negb Rq.grpc Rq.graphql bld]. cbn [Rq.rBody].
      unfold Rq.applyHTTPBody, Http.BodyText, bodyRead. cbn [Rq.http bld Http.bodyFromFile Http.bodyLines Http.mimeType].
      pose proof (w_body p Hp) as Hbody. destruct (load p) as [t|f].
      - rewrite joinLines_text. cbn. case_bool_decide as E1; case_bool_decide as E2; cbn; by rewrite ?E1, ?E2.
      - rewrite (bool_decide_eq_false_2 (f = [])) by apply Hbody. by case_bool_decide as E; cbn; rewrite ?E. }
    unfold unplaced. rewrite Hb. unfold requestOf.
    change (Rq.rMetadata (Rq.build ?b)) with (Rq.metadata b). change (Rq.URL (Rq.build ?b)) with (trim (Http.url (Rq.http b))).
    cbn [Rq.metadata bld Rq.http Http.url]. by rewrite Hm, Ht.
Qed.

(** *** The whole document *)

Definition docRead (rs : list Rq.Request) (ds : gmap string bytestr) : Document := mkDoc rs [] [] [] [] [] [] [] [] [] [] [] [] ds.

Lemma blank_after p n rs ds fs ti r mp : writable p -> holds (saidBy p) (httpRead p) mp r ->
  exists r', processLine iter n [] (st rs ds fs ti (Some r)) = st rs ds fs ti (Some r') /\ holds (saidBy p) (after false p) mp r'.
Proof.
  intros Hp Hr. apply blank_line; [..|exact Hr].
  - pose proof (after_fields true p Hp) as E. cbn [after] in E. rewrite E. unfold Http.HasMethod. cbn [Http.method].
    rewrite bool_decide_eq_false_2; [done|]. by apply verb_method, Hp.
  - pose proof (after_fields true p Hp) as E. cbn [after] in E. by rewrite E.
Qed.

(** Behind a request, the others *)
Lemma later_read ps : Forall writable ps -> forall p k n rs ds ti mp r, writable p -> holds (saidBy p) (httpRead p) mp r ->
  exists rs', doc (finish (processLines iter n (sections (S k) ps) (st rs ds (strays p) ti (Some r)))) =
      docRead (rs ++ rs') (settingsRead (strays p ∪ ds) ps) /\ map unplaced rs' = readBack (p :: ps).
Proof.
  induction 1 as [|q ps Hq _ IH]; intros p k n rs ds ti mp r Hp Hr.
  - cbn [sections processLines]. destruct (read_request true p mp r Hp Hr) as [Hc E]. rewrite finish_complete by done.
    exists [Rq.build r]. split; [done|]. cbn [map readBack]. by rewrite E.
  - cbn [sections]. change (0 <? S k) with true. cbn iota. change (processLines iter n ([[]] ++ ?l) ?b) with (processLines iter (n + 1) l (processLine iter n [] b)).
    destruct (blank_after p n rs ds (strays p) ti r mp Hp Hr) as (r1 & -> & H1). destruct (read_request false p mp r1 Hp H1) as [Hc E].
    rewrite processLines_app. destruct (request_read q (n + 1) rs ds (strays p) ti (Some r1) Hq Hc) as (r2 & ti2 & mp2 & -> & H2).
    match goal with |- context [processLines iter ?m (sections _ _) _] =>
      destruct (IH q (S k) m (rs ++ ended (Some r1)) (strays p ∪ ds) ti2 mp2 r2 Hq H2) as (rs' & -> & Ers) end.
    exists (Rq.build r1 :: rs'). split; [cbn [ended from_option]; by rewrite <- app_assoc|]. cbn [map]. rewrite E, Ers. done.
Qed.

Lemma sections_read ps n ds ti : Forall writable ps ->
  exists rs, doc (finish (processLines iter n (sections 0 ps) (st [] ∅ ds ti None))) = docRead rs (settingsRead ds ps) /\ map unplaced rs = readBack ps.
Proof.
  intros Hps. destruct ps as [|p ps].
  - exists []. split; [|done]. cbn [sections processLines]. rewrite finish_complete by done. by rewrite (right_id_L ∅ (∪)).
  - apply Forall_cons in Hps as [Hp Hps]. cbn [sections]. rewrite app_nil_l, processLines_app.
    destruct (request_read p n [] ∅ ds ti None Hp I) as (r & ti' & mp & -> & Hr). cbn [ended from_option app]. rewrite (right_id_L ∅ (∪)).
    match goal with |- context [processLines iter ?m _ _] => destruct (later_read ps Hps p 0 m [] ds ti' mp r Hp Hr) as (rs & -> & E) end.
    by exists rs.
Qed.

Lemma sections_ok k ps : Forall writable ps -> Forall lineOk (sections k ps).
Proof.
  intros Hps. revert k. induction Hps as [|p ps Hp _ IH]; intros k; [done|]. cbn [sections]. apply Forall_app. split; [|apply Forall_app; split; [apply Hp|done]].
  destruct (0 <? k); [|done]. constructor; [|done]. split_and!; [by intros ?%elem_of_nil..|done].
Qed.

Lemma document_read ds ps : Forall okSetting (entries ds) -> Forall lineOk (map settingLine (entries ds)) -> Forall writable ps ->
  exists rs, Parse iter (unlines (documentLines ds ps)) = docRead rs (settingsRead ds ps) /\ map unplaced rs = readBack ps.
Proof.
  intros Hds Hls Hps. assert (Hok : Forall lineOk (documentLines ds ps)).
  { unfold documentLines. apply Forall_app. split; [done|]. apply Forall_app. split; [|by apply sections_ok].
    case_bool_decide; [done|]. constructor; [|done]. split_and!; [by intros ?%elem_of_nil..|done]. }
  unfold Parse. rewrite replaceCRLF_same by by apply unlines_CR.
  rewrite (scan_unlines _ Hok) by (pose proof (length_unlines (documentLines ds ps)); lia). cbv zeta. cbn iota.
  unfold documentLines. rewrite processLines_app. change start with (st [] ∅ ∅ [] None).
  destruct (settings_lines iter ascii (entries ds) false (metaWith [] false false None) ∅ (Rq.mkBO false false) ∅ ∅ Hds ltac:(by apply not_elem_of_empty)
    1%Z [] ∅ [] None I) as (rb & -> & Hrb). destruct rb as [r|]; [done|]. cbn iota. rewrite put_entries, (right_id_L ∅ (∪)).
  rewrite processLines_app. match goal with |- context [processLines iter ?m (if _ then _ else _) _] =>
    assert (processLines iter m (if bool_decide (ds = ∅) then [] else [[]]) (st [] ∅ ds [] None) = st [] ∅ ds [] None) as -> end.
  { case_bool_decide; [done|]. apply blank_outside. }
  by apply sections_read.
Qed.

(** C21. Written documents are read back: the requests that are plain, with the
    settings of the file, are written to a text whose parse has no error, warning or
    anything else, and the same requests in their order, but for four things that
    [readBack] and [settingsRead] say.  A body loses a line feed at its end and gains
    one when a request follows; its type is that of the header; it is marked inline
    when its first line refers to a file; and the settings of a request that no
    directive before them has opened become settings of the file, for all of it. *)
Theorem requests_read_back ds ps :
  Forall okSetting (entries ds) -> Forall lineOk (map settingLine (entries ds)) -> Forall writable ps ->
  exists text, Rw.Render (docOf ds ps) [] = inr text /\
    exists rs, Parse iter text = docRead rs (settingsRead ds ps) /\ map unplaced rs = readBack ps.
Proof.
  intros Hds Hls Hps. exists (unlines (documentLines ds ps)). split; [by apply document_written|]. by apply document_read.
Qed.
End ascii.
End plain.

(** ** Samples *)

#[local] Instance sampleUnicode : Unicode := Names.ascii.
#[local] Existing Instance DocumentFacts.sampleTables.
#[local] Existing Instance DocumentFacts.sampleHttp.
#[local] Existing Instance DocumentFacts.sampleTunnels.
#[local] Existing Instance DocumentFacts.sampleMocks.
#[local] Instance sampleWriter : Rw.MockWriter :=
  {| Rw.matchFields := fun _ => inr []; Rw.SequenceKey_String := id; Rw.Delay_String := id; Rw.StatusText := fun _ => "OK" |}.

Lemma map_bytes_same (f : Ascii.ascii -> Ascii.ascii) (p : Ascii.ascii -> bool) s :
  (forall c, p c = true -> f c = c) -> forallb p (bytes s) = true -> str (map f (bytes s)) = s.
Proof.
  intros Hf Hp. transitivity (str (bytes s)); [|apply str_bytes]. f_equal. induction (bytes s) as [|c l IH]; [done|]. cbn in *.
  apply andb_true_iff in Hp as [Hc Hl]. by rewrite Hf, IH.
Qed.
Lemma ascii_cases : AsciiCase sampleUnicode DocumentFacts.sampleTables.
Proof.
  assert (HL : forall c, negb (isLower c) || bool_decide (lowerByte c = c) = true) by (apply all_bytes; vm_compute; reflexivity).
  assert (HU : forall c, negb (isUpper c) || negb ((97 <=? byte_val c) && (byte_val c <=? 122))%N = true) by (apply all_bytes; vm_compute; reflexivity).
  constructor; [| |done].
  - intros s. apply map_bytes_same. intros c Hc. specialize (HL c). rewrite Hc in HL. by apply bool_decide_eq_true in HL.
  - intros s. apply map_bytes_same. intros c Hc. specialize (HU c). rewrite Hc in HU. cbn [negb orb] in HU. apply negb_true_iff in HU. by rewrite HU.
Qed.

(** Two requests: one with all its parts, and one that nothing opens with a file *)
Definition samplePlain : list plain :=
  [mkPlain (bytes "log in") true false (Some (Bearer [bytes "a.b"])) {["timeout" := bytes "5s"]} "POST" (bytes "http://x/{{id}}")
     {["Accept" := [bytes "a/b"; bytes "c/d"]; "Content-Type" := [bytes "application/json"]]} (Inline (bytes ("< in line" +:+ str [LF; LF] +:+ "{}" +:+ str [LF]))) [] true false;
   mkPlain [] false false None {["http-insecure" := bytes "true"]} "GET" (bytes "http://y?a=b c") ∅ (FromFile (bytes "./body.json")) [] false false].
Definition sampleSettings : gmap string bytestr := {["timeout" := bytes "9s"]}.

(** What can be decided of a sample *)
#[local] Instance http_eq : EqDecision Version.HTTP.
Proof. solve_decision. Defined.
#[local] Instance okSetting_dec kv : Decision (okSetting kv).
Proof. unfold okSetting, keyText. apply _. Defined.
#[local] Instance okURL_dec u : Decision (okURL u).
Proof. unfold okURL. apply _. Defined.
#[local] Instance okHeader_dec kv : Decision (okHeader kv).
Proof. unfold okHeader. apply _. Defined.
#[local] Instance argText_dec a : Decision (argText a).
Proof. unfold argText. apply _. Defined.
Ltac decided := apply (bool_decide_unpack _); vm_compute; exact I.

Lemma sample_writable : Forall writable samplePlain.
Proof.
  repeat apply Forall_cons_2; [| |apply Forall_nil_2]; (constructor; cbn [title_ creds load from_option]); try decided.
  split; [|done]. repeat apply Forall_cons_2; [by apply (ascii_word "bearer")|by apply (ascii_word "a.b")|apply Forall_nil_2].
Qed.

Lemma requests_read_back_witness :
  exists text, Rw.Render (docOf sampleSettings samplePlain) [] = inr text /\
    exists rs, Doc.Parse mapIter text = docRead rs {["timeout" := bytes "9s"; "http-insecure" := bytes "true"]} /\
      map unplaced rs = readBack samplePlain.
Proof.
  exact (requests_read_back mapIter ascii_cases sampleSettings samplePlain ltac:(decided) ltac:(decided) sample_writable).
Defined.

(** The text of the sample *)
Example sample_text : Rw.Render (docOf sampleSettings samplePlain) [] = inr (DocumentFacts.text
  ["# @setting timeout 9s"; ""; "### log in"; "# @name log in"; "# @no-log"; "# @auth bearer a.b"; "# @setting timeout 5s"; "# @body expand"; "# @body inline";
   "POST http://x/{{id}}"; "Accept: a/b"; "Accept: c/d"; "Content-Type: application/json"; ""; "< in line"; ""; "{}"; "";
   "### GET http://y?a=b c"; "# @setting http-insecure true"; "GET http://y?a=b c"; ""; "< ./body.json"; ""]).
Proof. vm_compute. reflexivity. Qed.

(** ** What is not read back (findings) *)

(** What is read of requests that are written *)
Definition reread (ps : list plain) : option Doc.Document :=
  match Rw.Render (docOf ∅ ps) [] with inr t => Some (Doc.Parse mapIter t) | inl _ => None end.
Definition simple (verb url body : string) (hs : gmap string (list bytestr)) : plain :=
  mkPlain [] false false None ∅ verb (bytes url) hs (Inline (bytes body)) [] false false.
Definition gist (d : option Doc.Document) : option (list (bytestr * bytestr * bytestr * bytestr) * nat) :=
  (fun d => (map (fun r => (Rq.Method r, Rq.URL r, Rq.Text (Rq.rBody r), Rq.FilePath (Rq.rBody r))) (Doc.Requests d), length (Doc.Errors d))) <$> d.
Definition row (m u t f : string) : bytestr * bytestr * bytestr * bytestr := (bytes m, bytes u, bytes t, bytes f).

(** Bodies change at their ends: one gains a line feed, the last loses its own. *)
Example bodies_change : gist (reread [simple "POST" "http://x" "a" ∅; simple "POST" "http://y" ("b" +:+ str [LF]) ∅]) =
  Some ([row "POST" "http://x" ("a" +:+ str [LF]) ""; row "POST" "http://y" "b" ""], 0).
Proof. vm_compute. reflexivity. Qed.

(** A header whose name begins with the word of a method is the request line. *)
Example header_is_method : gist (reread [simple "GET" "http://x" "" {["Trace-Id" := [bytes "7"]]}]) = Some ([row "TRACE-ID:" "7" "" ""], 0).
Proof. vm_compute. reflexivity. Qed.

(** Lines of a body that are comments or variables are dropped, and one that refers
    to a file, other than the first, makes it the body. *)
Example body_lines_lost : gist (reread [simple "POST" "http://x" ("# a" +:+ str [LF] +:+ "@b c" +:+ str [LF] +:+ "d") ∅]) =
  Some ([row "POST" "http://x" "d" ""], 0).
Proof. vm_compute. reflexivity. Qed.
Example body_becomes_file : gist (reread [simple "POST" "http://x" ("a" +:+ str [LF] +:+ "< b") ∅]) = Some ([row "POST" "http://x" "" "b"], 0).
Proof. vm_compute. reflexivity. Qed.

(** Other methods, which the writer takes as they are, are not read: nothing is left. *)
Example method_lost : gist (reread [simple "PROPFIND" "http://x" "" ∅]) = Some ([], 0).
Proof. vm_compute. reflexivity. Qed.

(** A user without a password is written, and then refused. *)
Example password_refused :
  (fun d => map (@Doc.Message) (Doc.Errors d)) <$> reread [mkPlain (bytes "a") false false (Some (Basic (bytes "u") [])) ∅ "GET" (bytes "http://x") ∅ (Inline []) [] false false] =
  Some ["@auth requires a valid auth spec"].
Proof. vm_compute. reflexivity. Qed.
